(* ===== verification/_CoqProject ===== *)
-Q . S2P
Prelude.v
Util.v
ValueList.v
Adjacency.v
ValueUpdate.v
ValueRemove.v
ValueSpec.v
PreList.v
ValueRead.v
BatchInsert.v
BatchInsertSpec.v
BatchRemove.v
BatchRemoveSpec.v
BatchPre.v
BatchPreSpec.v
ValueTheorems.v
ValueStore.v
KVstore.v
TripleSet.v
KVget.v
KVselect.v
KVtheorems.v
KVbatch.v
KVbatchSpec.v
BatchTheorems.v
Version.v
VersionSpec.v
GLatch.v
Transaction.v
IVEntry.v
IVEntrySpec.v
IVEntrySystem.v
EntryTheorems.v
BlockManager.v
BlockManagerSpec.v
IVArray.v
IVArraySpec.v
IVArrayCache.v
IVArrayOps.v
IVArrayStore.v
ArrayTheorems.v
TxnStore.v
TxnStoreSpec.v
TxnLocks.v
TxnHistory.v
TxnSystem.v
TxnRead.v
TxnReadSpec.v
TxnVacuumSpec.v
IVArrayEntries.v
TxnManager.v
TxnQuery.v
TxnManagerSpec.v
TxnTheorems.v
TxnArrays.v
Names.v
Database.v
DatabaseSpec.v
DatabaseBatchSpec.v
DatabaseTheorems.v
ISArray.v
ISArrayTheorems.v
SITree.v
SITreeSpec.v
SITreeOps.v
SITreeRemove.v
SITreeTheorems.v
SINodeFlags.v
SIHeap.v
SIStorage.v
SIStorageSpec.v
SIStorageTheorems.v
DatabaseArrays.v
TempResult.v
TempResultSort.v
TempResultSpec.v
TempResultOps.v
TempResultSet.v
TempResultSetSpec.v
TempResultSetTheorems.v
