(* ===== verification/Prelude.v ===== *)
(** * A verification library for the gStore triple store

    gStore keeps an RDF graph as triples (subject, predicate, object) of strings,
    each string with an id.  This library models the part of its C++ sources that
    stores and updates the triples, and proves it correct.  Paths below are
    relative to [src/src].

    ** The program and its parts

    [KVstore] (KVstore/KVstore.cpp) has three indexes: for every subject, every
    object and every predicate the list of its triples, as an array of 32-bit
    cells (a value list).  The value lists live in four [IVArray]s
    (KVstore/IVArray), objects that are literals apart from the others.
    [Database] (Database/Database.cpp) looks up the ids of the strings of an
    update in dictionaries, gives out new ids and takes back those that are not
    used any more, and feeds the tuples of ids, one by one or in sorted runs, to
    the indexes.  Transactions (Util/Transaction.cpp)
    do not change the value lists: each entry of an [IVArray] has a list of
    versions (KVstore/IVArray/IVEntry.cpp, Util/Version.cpp), guarded by a latch
    (Util/GraphLock.cpp), and a reader adds and removes the pairs of the versions
    it may see.  The transaction manager (Database/Txn_manager.cpp) gives out the
    ids of transactions, runs their queries on the store, ends them, and now and
    then has the committed versions merged into the value lists (the checkpoint
    and [KVstore::IVArrayVacuum]).  A query keeps what it has found so far in tables
    of results (Query/TempResult.cpp), rows of ids and strings with a column per
    variable, and joins, optional parts, differences and projections work on sets of
    such tables.

    ** The files

    - [Prelude]: machine words, imperative code as [option] with loops on fuel,
      weakest preconditions, the state monad [M], array and list lemmas.
    - [Util]: the searches and array helpers of Util/Util.cpp.
    - [ValueList], [Adjacency], [PreList]: the layouts of value lists, and the
      adjacency lists and pair lists they encode.
    - [ValueUpdate], [ValueRemove], [ValueSpec], [ValueRead]: insertion, removal
      and reading of one value list ([KVstore::updateInsert_s2values] and its
      twins, the loops of the getters); [ValueTheorems] their theorems.
    - [BatchInsert], [BatchInsertSpec], [BatchRemove],
      [BatchRemoveSpec], [BatchPre], [BatchPreSpec]: the merging passes
      [KVstore::Insert_s2values], [Remove_s2values] and their twins.
    - [ValueStore]: the interface of an [IVArray] as the class [ValueStore] and
      its laws, with a finite map as reference instance; and the interface of the
      entries of an array that the transactional half uses ([EntryStore]).
    - [KVstore], [TripleSet], [KVget], [KVselect], [KVtheorems]: the indexes, the
      set of triples they represent, the updates and getters outside of
      transactions.
    - [KVbatch], [KVbatchSpec], [BatchTheorems]: batch updates of
      [Database::batch_insert], [batch_remove] and [sub_batch_update].
    - [Version], [VersionSpec]: one version, its array and the
      change of a set of pairs it stands for.
    - [GLatch]: the latch, an abstract latch it implements, and the step relation
      of its callers.
    - [Transaction]: the transaction object.
    - [IVEntry], [IVEntrySpec], [IVEntrySystem], [EntryTheorems]: the versions of
      an entry, the history they stand for, and interleaved transactions on it.
    - [BlockManager], [BlockManagerSpec]: the blocks of a value file
      (KVstore/IVArray/IVBlockManager.cpp), the free runs, and the values of keys
      in a file.
    - [IVArray], [IVArraySpec], [IVArrayCache], [IVArrayOps]: the arrays
      of cached values (KVstore/IVArray/IVArray.cpp, KVstore/EntryBlockList.h), the
      linked queue of the cache, and the four operations against a finite map.
    - [IVArray] (its end), [IVArrayStore]: saving an array and opening it again, and
      the arrays as instances of [ValueStore]; [ArrayTheorems]: sequences of calls
      and the theorems; [IVArrayEntries]: the arrays as instances of [EntryStore].
    - [TxnStore]: the overloads of [IVArray], [KVstore] and [Database] that take a
      transaction; [TxnStoreSpec], [TxnLocks] what they do to the
      histories of the entries.
    - [TxnHistory], [TxnSystem]: the database as committed changes plus
      the change of each running transaction, and how the entries agree with it.
    - [TxnRead], [TxnReadSpec]: the getters in a transaction.
    - [TxnRead] (its end), [TxnVacuumSpec]: the vacuum.
    - [TxnManager], [TxnQuery], [TxnManagerSpec]: the manager, the calls
      of queries, the invariant, and the states it reaches; [TxnTheorems],
      [TxnArrays] the theorems, over any store and over the arrays.
    - [Names]: the dictionaries as the interfaces [StrIndex] and
      [StrArray], and the ids of the names of one kind (entities, literals,
      predicates); what they promise.
    - [Database], [DatabaseSpec]: triples of strings
      ([Database::insertTriple], [removeTriple], [exist_triple], [insert],
      [remove], the batches) and the set of triples a database holds;
      [DatabaseBatchSpec] the batches; [DatabaseTheorems] sequences of operations
      and the theorems.
    - [ISArray], [ISArrayTheorems]: the
      arrays of strings (KVstore/ISArray), older copies of the arrays of values, as
      instances of [StrArray].  [BlockManager] and the files on arrays are for both
      block formats.
    - [SITree]: the B+ tree from strings to ids (KVstore/SITree/SITree.cpp and its
      nodes) with the doubly linked chain of its leaves, and
      [StringUtil::compare]; [SITreeSpec] the order, the binary search of a node
      and the invariant of shape and chain; [SITreeOps] splitting and insertion,
      [SITreeRemove] coalescing and removal; [SITreeTheorems] sequences of
      operations and the tree as an instance of [StrIndex].
    - [SINodeFlags]: the word of flags of a tree node (KVstore/SITree/node/SINode.cpp)
      and the record of fields it stands for; [SIHeap]: the heap of cached nodes
      (KVstore/SITree/heap/SIHeap.cpp, [SIStorage::updateHeap]).
    - [SIStorage]: the file of the tree (KVstore/SITree/storage/SIStorage.cpp), byte
      by byte; [SIStorageSpec] the chains of blocks of a node and what is written
      to and read from them; [SIStorageTheorems] trees of nodes on a file, saving,
      opening, and nodes that leave the memory and come back.
    - [DatabaseArrays]: the database over trees and arrays of both kinds.
    - [TempResult]: sets of variables (Query/Varset.cpp), rows, tables and the
      operations on two tables (Query/TempResult.cpp); [TempResultSort] the quicksort
      and the binary searches for a run of rows; [TempResultSpec] tables as lists of
      solutions, the algebra of solutions ([Join], [LeftJoin], [Minus]) and rows that
      agree; [TempResultOps] the operations on two tables in terms of the algebra.
    - [TempResultSet]: sets of tables and their operations; [TempResultSetSpec] the
      loops over the tables of two sets; [TempResultSetTheorems] the turning of ids
      into strings, and the theorems.

    ** How code is modelled

    A statement sequence is an expression of type [option A] or, when it updates
    the store, [M S A]; [None] stands for an access outside of an array, a failed
    assertion, or a loop that did not end within its fuel, so a theorem that a
    run is [Some] says that none of these happen.  The fuel of a loop is one more
    than the length of an array it walks over (or 33 for a loop that doubles a
    32-bit size), and every theorem about a loop proves that it is enough.
    [unsigned] arithmetic wraps around ([⊞], [⊟], [⊠]); where the theorems
    assume that a size stays below 2^31 or 2^30 cells, the hypothesis says so.
    Fresh memory has arbitrary contents ([junk]).

    ** What the theorems show

    - Value lists: the updates of one value list compute the encoding of the
      updated adjacency lists on every branch, the readers recover what an
      encoding encodes, the searches terminate and decide membership.
    - Indexes: single and batch updates refine insertion into and removal from a
      set of triples, and every getter returns what the set says, for any store
      that satisfies the laws of [ValueStore].
    - Arrays: a block file hands back what was written to it and keeps its free
      runs apart; an array behaves as a map from keys to byte strings while its
      values move between cache and file and the array is saved and opened; the
      arrays satisfy the laws of
      [ValueStore], so the theorems on the indexes hold for the store over arrays.
      The number of operations is bounded by the number of blocks a file can
      have: the sources never free the blocks of a value that is swapped out
      again, and [op_cost] says how many blocks an operation can take.
    - Versions and entries: the array of a version hands back what was written to
      it; the latch excludes writers from each other and from readers; in every
      interleaving an entry is the history of committed changes plus at most one
      pending change, snapshots do not change under the steps of others, a
      snapshot writer starts from the newest state, and reads see what the
      isolation level promises.
    - Transactions: in every state the manager reaches from a new one by the calls
      of clients that keep to [calls_ok], queries are isolated and aborted only when
      others stop them, commits and rollbacks succeed, updates
      are refused exactly on conflicts, no update is lost, and a checkpoint stores
      what was committed.  [calls_ok] is an obligation of the clients that the code
      does not check: a transaction inserts only triples that it does not see and has
      not removed before, removes only triples that it sees, and does not ask for the
      subjects or the objects of a predicate if it is serializable.  For clients that
      do not keep to it the claims fail ([version_rewrites_lost],
      [predicate_read_breaks_commit], [predicate_read_steals_share]).
      Each call is one step, as the latches of the source
      make the accesses to one entry; interleavings are those of calls.  A bound on
      the number of calls comes from the number of blocks of a file ([vs_room]).
    - Triples of strings: any sequence of insertions and removals, one by one or
      in batches, that keeps to [ops_ok] refines the updates of a set of triples of
      strings; ids are
      given to exactly the names in use and survive a restart.  [ops_ok] leaves out
      removals one by one of triples from an entity to itself and batch removals
      with unknown names, and restarts are proved
      for databases without free predicate ids: for the others examples show
      that the code breaks the invariant ([loop_removal_corrupts],
      [batch_remove_unknown_name], [restart_shares_predicate_ids]).
    - Trees: any sequence of operations on a tree of strings is that of a finite
      map; the tree stays balanced (62 to 125 keys in every node but the root, all
      leaves at one depth), the chain of leaves lists it in order from both ends,
      its height is logarithmic, and the comparison of strings is the
      lexicographic order of bytes.  With the trees and arrays as dictionaries and
      indexes nothing of the database on strings is left abstract
      ([database_over_trees]).  The fuel of a walk down a tree is its depth.
    - Cached nodes: the flags of a node are fields that change one at a time; the
      heap stays ordered by height however the lower bits of the ranks change
      between its calls, so that leaves leave the memory before the nodes above
      them and removed nodes before all others.
    - The file of the tree: a tree that is saved is found again when the file is
      opened, with the free blocks; every block is free or belongs to one node; and
      a tree stands for the same keys and values however its nodes are swapped out,
      children before their parents, and read back.  The theorems ask for room on
      the file (2^24 blocks), which the source does not check.  A changed node has a
      changed parent in a tree that is saved: the walks of [SITree] mark every node
      on their way.
    - Results of queries: the joins, optional parts and differences of sets of tables
      are those of the SPARQL algebra on the bags of solutions the tables stand for, as
      maps from variables to strings, although tables have different columns and are
      sorted, searched, converted from ids to strings and merged on the way; the
      quicksort ends with a sorted permutation.  The theorems ask that a variable is
      of one kind in all tables of a set and that tables have a variable in
      common; examples show what goes wrong otherwise ([mixed_columns_join],
      [optional_loses_rows], [minus_doubles_rows]).  Without common variables a join is
      a product if no row with strings is used twice ([product_loses_strings]).  The
      fuel of the sort is the number of rows, and the theorems prove that it is enough.
    - Errors: what happens to triples with unknown names, to pairs written more
      than once in a transaction, to pinned values that were never written, where
      the code reads out of range, and that the default sizes of the cache are
      not enforced, the serializable reads that register a latch they do not
      hold, and a node that moves down the heap of cached nodes.

    ** Not modelled

    Of the transactional half: [KVstore::try_exclusive_locks] (its callers,
    [batch_insert] and [batch_remove] in a transaction, are marked as not
    completed, and nothing passes them a transaction), the transactional
    [getpreIDlistBysubIDobjID], and the logs of the manager with [undo], [redo]
    and [restore], which the source marks as incomplete.  Of [Database]: the bulk
    load, the update logs, backup and restore, [VersionClean], the plan caches;
    the type statistics ([umap]) are modelled without a theorem on their values.

    Of [TempResult]: the expressions of filters and bindings ([doComp]) are parameters
    of [doFilter], [doHaving] and [doBind]; these and the projection are modelled
    without a theorem.  Rows are values: the sharing of arrays of ids between copies
    of a row, and [release], which frees them, are not modelled.

    Of [SIStorage]: the accounting of memory ([request], and when [handler] stops to
    swap nodes out), [fullLoad], and the chain of leaves that [PreRead] links; the
    file and the heap of cached nodes stand apart from the operations on the tree in
    memory ([SITree]).  The Trie, which is
    compiled out, the StringIndex, which mirrors the names for queries, the SPARQL parser and the rest of query evaluation (Parser, Query), the servers
    and command line tools (Server, Main, Api, GRPC), and everything that is
    input or output only. *)

From stdpp Require Export base numbers list option gmap sets sorting.
From Stdlib Require Export ZArith Lia Sorting.Sorted.

#[global] Open Scope Z_scope.

(** ** Machine integers

    The sources compute with [unsigned] (32 bits), [int] (32 bits, two's
    complement) and [unsigned long long] (64 bits).  A machine integer is a [Z]
    and every operation of the source that can wrap around says so. *)

Declare Scope u32_scope.
Delimit Scope u32_scope with u32.

Definition W32 : Z := 4294967296.
Definition W64 : Z := 18446744073709551616.

Definition u32 (z : Z) : Z := z mod W32.
Definition u64 (z : Z) : Z := z mod W64.

(** Conversion of a word to [int]. *)
Definition i32 (z : Z) : Z :=
  let w := z mod W32 in if w <? 2147483648 then w else w - W32.

Notation "a ⊞ b" := (u32 (a + b)) (at level 50, left associativity) : u32_scope.
Notation "a ⊟ b" := (u32 (a - b)) (at level 50, left associativity) : u32_scope.
Notation "a ⊠ b" := (u32 (a * b)) (at level 40, left associativity) : u32_scope.
#[global] Open Scope u32_scope.

Definition word (z : Z) : Prop := 0 <= z < W32.
#[global] Instance word_dec z : Decision (word z).
Proof. unfold word. apply _. Defined.

Lemma u32_small z : 0 <= z < W32 -> u32 z = z.
Proof. intros H. unfold u32. by apply Z.mod_small. Qed.

Lemma u32_word z : word (u32 z).
Proof. unfold word, u32, W32. apply Z.mod_pos_bound. lia. Qed.

Lemma u64_small z : 0 <= z < W64 -> u64 z = z.
Proof. intros H. unfold u64. by apply Z.mod_small. Qed.

Lemma i32_small z : 0 <= z < 2147483648 -> i32 z = z.
Proof.
  intros H. unfold i32. rewrite Z.mod_small by (unfold W32; lia).
  by destruct (Z.ltb_spec z 2147483648); [|lia].
Qed.

(** A difference of words that passes through [int]. *)
Lemma u32_sub_i32 a b : u32 (i32 a - i32 b) = u32 (a - b).
Proof.
  unfold u32, i32. rewrite (Zminus_mod a b).
  destruct (_ <? _), (_ <? _).
  - done.
  - replace (a mod W32 - (b mod W32 - W32)) with (a mod W32 - b mod W32 + 1 * W32) by lia.
    by rewrite Z_mod_plus_full.
  - replace (a mod W32 - W32 - b mod W32) with (a mod W32 - b mod W32 + (-1) * W32) by lia.
    by rewrite Z_mod_plus_full.
  - f_equal. lia.
Qed.

(** [UINT_MAX], the value the sources call [INVALID]. *)
Definition INVALID : Z := 4294967295.

(** Normalises the wrap-around of every word expression whose bounds [lia]
    can establish. *)
Ltac wsimp :=
  repeat match goal with
  | |- context [u32 ?z] => rewrite (u32_small z) by (unfold word, W32 in *; lia)
  end.

Ltac word_lia := unfold word, INVALID, W32, W64 in *; lia.

(** ** Imperative code: failure, arrays and loops

    A piece of imperative code is an expression of type [option A]; [None]
    stands for an out-of-range access, a failed assertion or a loop that did
    not end within its fuel.  [wp m Q] says that [m] runs without any of them
    and that its result satisfies [Q]. *)

Definition wp {A} (m : option A) (Q : A -> Prop) : Prop :=
  match m with Some a => Q a | None => False end.

Lemma wp_Some {A} (a : A) (Q : A -> Prop) : Q a -> wp (Some a) Q.
Proof. done. Qed.

Lemma wp_bind {A B} (m : option A) (f : A -> option B) (Q : B -> Prop) :
  wp m (fun a => wp (f a) Q) -> wp (m ≫= f) Q.
Proof. by destruct m. Qed.

Lemma wp_ret {A} (m : option A) (Q : A -> Prop) : wp (m ≫= Some) Q -> wp m Q.
Proof. by destruct m. Qed.

Lemma wp_mono {A} (m : option A) (Q R : A -> Prop) :
  (forall a, Q a -> R a) -> wp m Q -> wp m R.
Proof. destruct m; simpl; auto. Qed.

Lemma wp_eq {A} (m : option A) (a : A) : wp m (fun x => x = a) <-> m = Some a.
Proof. destruct m; simpl; split; by intros; simplify_eq. Qed.

(** An array of words is a list; an access outside of it fails. *)
Definition arr_get (a : list Z) (i : Z) : option Z :=
  if 0 <=? i then a !! Z.to_nat i else None.

Definition arr_set (a : list Z) (i v : Z) : option (list Z) :=
  if (0 <=? i) && (i <? Z.of_nat (length a))
  then Some (<[Z.to_nat i := v]> a) else None.

(** [new unsigned[n]]: memory whose contents [junk] are arbitrary. *)
Definition new_array (junk : nat -> Z) (n : Z) : list Z :=
  map junk (seq 0 (Z.to_nat n)).

(** [memcpy(dst, src, sizeof(unsigned) * n)]. *)
Definition arr_copy (dst src : list Z) (n : Z) : option (list Z) :=
  if (n <=? Z.of_nat (length dst)) && (n <=? Z.of_nat (length src))
  then Some (take (Z.to_nat n) src ++ drop (Z.to_nat n) dst) else None.

(** [while (cond) body], with fuel. *)
Fixpoint while {S} (fuel : nat) (cond : S -> option bool)
    (body : S -> option S) (s : S) : option S :=
  match fuel with
  | O => None
  | Datatypes.S f =>
      b ← cond s;
      if (b : bool) then s' ← body s; while f cond body s' else Some s
  end.

(** Total correctness of a loop: an invariant and a measure below the fuel. *)
Lemma wp_while {S} (Inv : S -> Prop) (m : S -> nat) cond body (Q : S -> Prop) fuel s :
  Inv s -> (m s < fuel)%nat ->
  (forall s, Inv s ->
     wp (cond s) (fun b : bool => if b
       then wp (body s) (fun s' => Inv s' /\ (m s' < m s)%nat) else Q s)) ->
  wp (while fuel cond body s) Q.
Proof.
  intros Hi Hf Hstep. revert s Hi Hf.
  induction fuel as [|fuel IH]; intros s Hi Hf; [lia|]. simpl.
  apply wp_bind. eapply wp_mono, Hstep, Hi. intros [] Hb; [|done].
  apply wp_bind. eapply wp_mono, Hb. intros s' [Hi' Hm]. apply IH; [done|lia].
Qed.

(** Unfolding a loop by one test, for inductions that follow the data. *)
Lemma while_step {S} f cond body (s s' : S) :
  cond s = Some true -> body s = Some s' ->
  while (Datatypes.S f) cond body s = while f cond body s'.
Proof. intros Hc Hb. simpl. rewrite Hc. simpl. by rewrite Hb. Qed.

Lemma while_stop {S} f cond body (s : S) :
  cond s = Some false -> while (Datatypes.S f) cond body s = Some s.
Proof. intros Hc. simpl. by rewrite Hc. Qed.

(** ** Code that updates a state

    [M S A]: a computation on a state of type [S] with a result of type [A]. *)

Definition M (S A : Type) : Type := S -> option (A * S).

Definition retM {S A} (a : A) : M S A := fun s => Some (a, s).
Definition bindM {S A B} (m : M S A) (f : A -> M S B) : M S B :=
  fun s => '(a, s') ← m s; f a s'.
Definition liftM {S A} (o : option A) : M S A := fun s => a ← o; Some (a, s).

Notation "'let!' x ':=' m 'in' k" := (bindM m (fun x => k))
  (at level 10, x binder, m at level 100, k at level 200).

(** [a && b] on calls that return [bool]. *)
Definition andM {S} (a b : M S bool) : M S bool :=
  let! r := a in if (r : bool) then b else retM false.

(** A loop over the elements of a container. *)
Fixpoint for_each {T X} (l : list X) (f : X -> M T unit) : M T unit :=
  match l with
  | [] => retM tt
  | x :: l' => let! _ := f x in for_each l' f
  end.

Definition wpM {S A} (m : M S A) (s : S) (Q : A -> S -> Prop) : Prop :=
  wp (m s) (fun r => Q r.1 r.2).

Lemma wpM_ret {S A} (a : A) (s : S) (Q : A -> S -> Prop) : Q a s -> wpM (retM a) s Q.
Proof. done. Qed.

Lemma wpM_bind {S A B} (m : M S A) (f : A -> M S B) s (Q : B -> S -> Prop) :
  wpM m s (fun a s' => wpM (f a) s' Q) -> wpM (bindM m f) s Q.
Proof. unfold wpM, bindM. by destruct (m s) as [[a s']|]. Qed.

Lemma wpM_lift {S A} (o : option A) a (s : S) (Q : A -> S -> Prop) :
  o = Some a -> Q a s -> wpM (liftM o) s Q.
Proof. by intros ->. Qed.

Lemma wpM_mono {S A} (m : M S A) s (Q R : A -> S -> Prop) :
  (forall a s', Q a s' -> R a s') -> wpM m s Q -> wpM m s R.
Proof. unfold wpM. intros H. apply wp_mono. intros [a s']. apply H. Qed.

(** A result that is known determines the run. *)
Lemma wpM_inv {S A} (m : M S A) s (Q : A -> S -> Prop) :
  wpM m s Q -> exists a s', m s = Some (a, s') /\ Q a s'.
Proof. unfold wpM. destruct (m s) as [[a s']|]; [by exists a, s'|done]. Qed.

(** *** Array lemmas *)

Abbreviation len l := (Z.of_nat (length l)).

Lemma arr_get_nat a (n : nat) : arr_get a (Z.of_nat n) = a !! n.
Proof. unfold arr_get. destruct (Z.leb_spec 0 (Z.of_nat n)); [by rewrite Nat2Z.id|lia]. Qed.

Lemma arr_get_lookup a i : 0 <= i -> arr_get a i = a !! Z.to_nat i.
Proof. intros. unfold arr_get. by destruct (Z.leb_spec 0 i); [|lia]. Qed.

Lemma arr_get_app_mid pre x post i : i = len pre -> arr_get (pre ++ x :: post) i = Some x.
Proof. intros ->. rewrite arr_get_nat. by apply list_lookup_middle. Qed.

Lemma arr_get_at pre x post a i :
  a = pre ++ x :: post -> i = len pre -> arr_get a i = Some x.
Proof. intros ->. apply arr_get_app_mid. Qed.

Lemma arr_get_app_r pre post i j :
  i = len pre + j -> 0 <= j -> arr_get (pre ++ post) i = arr_get post j.
Proof.
  intros -> Hj. rewrite !arr_get_lookup by lia.
  rewrite lookup_app_r by lia. f_equal. lia.
Qed.

Lemma arr_get_app_l pre post i :
  0 <= i < len pre -> arr_get (pre ++ post) i = arr_get pre i.
Proof. intros. rewrite !arr_get_lookup by lia. apply lookup_app_l. lia. Qed.

Lemma arr_set_app_mid pre x post i v :
  i = len pre -> arr_set (pre ++ x :: post) i v = Some (pre ++ v :: post).
Proof.
  intros ->. unfold arr_set. rewrite length_app. simpl.
  destruct (Z.leb_spec 0 (len pre)); [|lia].
  destruct (Z.ltb_spec (len pre) (Z.of_nat (length pre + S (length post)))); [|lia].
  simpl. rewrite Nat2Z.id, insert_app_r_alt by lia. by rewrite Nat.sub_diag.
Qed.

Lemma arr_set_at pre x post a i v :
  a = pre ++ x :: post -> i = len pre -> arr_set a i v = Some (pre ++ v :: post).
Proof. intros ->. apply arr_set_app_mid. Qed.

Lemma arr_set_app_r pre post i j v post' :
  i = len pre + j -> 0 <= j -> arr_set post j v = Some post' ->
  arr_set (pre ++ post) i v = Some (pre ++ post').
Proof.
  intros -> Hj. unfold arr_set. rewrite length_app.
  destruct (Z.leb_spec 0 j); [|lia]. destruct (Z.leb_spec 0 (len pre + j)); [|lia].
  destruct (Z.ltb_spec j (len post)); [|done].
  destruct (Z.ltb_spec (len pre + j) (Z.of_nat (length pre + length post))); [|lia].
  simpl. intros [= <-]. f_equal. replace (Z.to_nat (len pre + j)) with (length pre + Z.to_nat j)%nat by lia.
  by rewrite insert_app_r.
Qed.

Lemma arr_set_app_l pre post i v pre' :
  arr_set pre i v = Some pre' -> arr_set (pre ++ post) i v = Some (pre' ++ post).
Proof.
  unfold arr_set. rewrite length_app.
  destruct (Z.leb_spec 0 i); [|done].
  destruct (Z.ltb_spec i (len pre)); [|done].
  destruct (Z.ltb_spec i (Z.of_nat (length pre + length post))); [|lia].
  simpl. intros [= <-]. f_equal. rewrite insert_app_l by lia. done.
Qed.

Lemma length_new_array junk n : length (new_array junk n) = Z.to_nat n.
Proof. unfold new_array. by rewrite length_map, length_seq. Qed.

(** Freshly allocated memory seen as cells to be filled from the left. *)
Lemma new_array_cells junk n : 0 <= n ->
  exists cells, new_array junk n = [] ++ cells /\ len cells = n.
Proof. intros. exists (new_array junk n). rewrite length_new_array. split; [done|lia]. Qed.

Lemma arr_copy_prefix dst pre post n :
  n = len pre -> n <= len dst ->
  arr_copy dst (pre ++ post) n = Some (pre ++ drop (length pre) dst).
Proof.
  intros -> Hd. unfold arr_copy. rewrite length_app.
  destruct (Z.leb_spec (len pre) (len dst)); [|lia].
  destruct (Z.leb_spec (len pre) (Z.of_nat (length pre + length post))); [|lia].
  simpl. by rewrite Nat2Z.id, take_app_length.
Qed.

(** *** Generic list lemmas *)

Lemma filter_all {A} (P : A -> Prop) `{!forall x, Decision (P x)} l :
  Forall P l -> filter P l = l.
Proof. induction 1; [done|]. rewrite filter_cons_True by done. by f_equal. Qed.

Lemma filter_none {A} (P : A -> Prop) `{!forall x, Decision (P x)} l :
  Forall (fun x => ~ P x) l -> filter P l = [].
Proof. induction 1; [done|]. by rewrite filter_cons_False. Qed.

Lemma list_filter_iff' {A} (P Q : A -> Prop) `{!forall x, Decision (P x)} `{!forall x, Decision (Q x)} (l : list A) :
  (forall x, x ∈ l -> P x <-> Q x) -> filter P l = filter Q l.
Proof.
  induction l as [|x l IH]; intros Hpq; [done|]. rewrite !filter_cons.
  pose proof (Hpq x ltac:(left)). rewrite IH by (intros y Hy; apply Hpq; by right).
  destruct (decide (P x)), (decide (Q x)); tauto.
Qed.

(** *** Sorted lists *)

(** Strictly increasing: the order every id list of the store is kept in. *)
Definition increasing (l : list Z) : Prop := StronglySorted Z.lt l.

#[global] Instance StronglySorted_lt_dec l : Decision (increasing l).
Proof.
  unfold increasing. induction l as [|x l [IH|IH]]; [left; constructor| |].
  - destruct (decide (Forall (Z.lt x) l)); [left|right]; [by constructor|by inversion 1].
  - right. by inversion 1.
Defined.

Lemma increasing_singleton x : increasing [x].
Proof. apply SSorted_cons; [apply SSorted_nil|by apply Forall_nil]. Qed.

Lemma increasing_app l1 l2 :
  increasing (l1 ++ l2) <->
  increasing l1 /\ increasing l2 /\ forall x y, x ∈ l1 -> y ∈ l2 -> x < y.
Proof.
  unfold increasing. induction l1 as [|a l1 IH]; simpl.
  - split; [|by intros (?&?&?)]. intros H. repeat split; [constructor|done|set_solver].
  - split.
    + inversion 1 as [|?? Hs Hf]; subst. apply IH in Hs as (H1&H2&H3).
      rewrite Forall_app in Hf. destruct Hf as [Hf1 Hf2].
      rewrite Forall_forall in Hf2.
      repeat split; [by constructor|done|set_solver].
    + intros (H1&H2&H3). inversion H1; subst. constructor.
      * apply IH. set_solver.
      * rewrite Forall_app. split; [done|]. apply Forall_forall. set_solver.
Qed.

Lemma increasing_lookup_lt l (i j : nat) x y :
  increasing l -> l !! i = Some x -> l !! j = Some y -> (i < j)%nat -> x < y.
Proof.
  intros Hs. revert i j. induction Hs as [|a l Hs IH Hf]; intros i j Hi Hj Hij; [done|].
  destruct j as [|j]; [lia|]. destruct i as [|i]; simpl in *.
  - simplify_eq. rewrite Forall_forall in Hf. apply Hf. by eapply list_elem_of_lookup_2.
  - eapply (IH i j); eauto. lia.
Qed.

Lemma increasing_lookup_inv l (i j : nat) x y :
  increasing l -> l !! i = Some x -> l !! j = Some y -> x < y -> (i < j)%nat.
Proof.
  intros Hs Hi Hj Hxy. destruct (decide (i < j)%nat); [done|].
  destruct (decide (i = j)) as [->|]; [simplify_eq; lia|].
  assert (y < x) by (eapply (increasing_lookup_lt l j i); eauto; lia). lia.
Qed.

Lemma increasing_filter (P : Z -> Prop) `{!forall x, Decision (P x)} l :
  increasing l -> increasing (filter P l).
Proof.
  induction 1 as [|x l Hs IH Hf]; [constructor|]. rewrite filter_cons.
  destruct (decide (P x)); [|done]. constructor; [done|].
  rewrite Forall_forall in *. intros y [_ Hy]%list_elem_of_filter. auto.
Qed.

Lemma NoDup_incl_length' {A} (l l' : list A) :
  NoDup l -> (forall x, x ∈ l -> x ∈ l') -> (length l <= length l')%nat.
Proof. intros Hnd Hin. by apply submseteq_length, NoDup_submseteq. Qed.

Lemma increasing_NoDup l : increasing l -> NoDup l.
Proof.
  induction 1 as [|x l Hs IH Hf]; constructor; [|done].
  rewrite Forall_forall in Hf. intros Hin. specialize (Hf _ Hin). lia.
Qed.

(** Splitting an increasing list at a value. *)
Fixpoint split_lt (x : Z) (l : list Z) : list Z * list Z :=
  match l with
  | [] => ([], [])
  | y :: l' => if y <? x then let '(a, b) := split_lt x l' in (y :: a, b) else ([], l)
  end.

Lemma split_lt_spec x l : increasing l ->
  l = (split_lt x l).1 ++ (split_lt x l).2 /\
  Forall (fun y => y < x) (split_lt x l).1 /\ Forall (fun y => x <= y) (split_lt x l).2.
Proof.
  induction 1 as [|y l Hs IH Hf]; simpl; [done|].
  destruct (Z.ltb_spec y x).
  - destruct (split_lt x l) as [a b]. simpl in *. destruct IH as (->&?&?).
    split; [done|]. by repeat constructor.
  - simpl. repeat split; [constructor|]. constructor; [lia|].
    eapply Forall_impl; [exact Hf|]. simpl. intros. lia.
Qed.

(** *** Filling an array from the left

    [filled out n v]: the first cells of the array [v] of length [n] hold [out];
    nothing is known of the others. *)
Definition filled (out : list Z) (n : Z) (v : list Z) : Prop :=
  exists rest, v = out ++ rest /\ len v = n.

Lemma filled_new junk n : 0 <= n -> filled [] n (new_array junk n).
Proof. intros. eexists. split; [done|]. rewrite length_new_array. lia. Qed.

Lemma filled_full out n v : filled out n v -> len out = n -> v = out.
Proof.
  intros (rest&->&Hl) Ho. rewrite length_app in Hl.
  destruct rest; [by rewrite app_nil_r|simpl in Hl; lia].
Qed.

Lemma filled_length out n v : filled out n v -> len v = n /\ len out <= n.
Proof. intros (rest&->&Hl). rewrite length_app in *. lia. Qed.

(** Writing the next cell. *)
Lemma wp_emit {B} out n v j x (k : list Z -> option B) Q :
  filled out n v -> j = len out -> len out < n ->
  (forall v', filled (out ++ [x]) n v' -> wp (k v') Q) ->
  wp (arr_set v j x ≫= k) Q.
Proof.
  intros (rest&->&Hl) -> Hlt Hk. rewrite length_app in Hl.
  destruct rest as [|c rest]; [simpl in Hl; lia|].
  rewrite (arr_set_app_mid out c rest _ x) by done. apply Hk.
  exists rest. rewrite <- app_assoc. split; [done|].
  rewrite !length_app in *. simpl in *. lia.
Qed.

(** Reading a cell. *)
Lemma wp_get {B} a i x (k : Z -> option B) Q :
  arr_get a i = Some x -> wp (k x) Q -> wp (arr_get a i ≫= k) Q.
Proof. by intros ->. Qed.

Lemma wp_known {A B} (m : option A) x (k : A -> option B) Q :
  m = Some x -> wp (k x) Q -> wp (m ≫= k) Q.
Proof. by intros ->. Qed.

(** [memcpy] of a prefix of the source. *)
Lemma wp_memcpy {B} dst src pre post n (k : list Z -> option B) Q :
  src = pre ++ post -> n = len pre -> n <= len dst ->
  (forall v, filled pre (len dst) v -> wp (k v) Q) ->
  wp (arr_copy dst src n ≫= k) Q.
Proof.
  intros -> Hn Hle Hk. rewrite arr_copy_prefix by done. apply Hk.
  eexists. split; [done|]. rewrite length_app, length_drop. lia.
Qed.

(** Rewriting a cell that already holds a known value. *)
Lemma wp_update {B} pre x post n v j y (k : list Z -> option B) Q :
  filled (pre ++ x :: post) n v -> j = len pre ->
  (forall v', filled (pre ++ y :: post) n v' -> wp (k v') Q) ->
  wp (arr_set v j y ≫= k) Q.
Proof.
  intros (rest&->&Hl) -> Hk. rewrite <- app_assoc in *. simpl in *.
  rewrite (arr_set_app_mid pre x (post ++ rest) _ y) by done. apply Hk.
  exists rest. rewrite <- app_assoc. simpl. split; [done|].
  rewrite !length_app in *. simpl in *. lia.
Qed.

Lemma filled_get out n v i x : filled out n v -> arr_get out i = Some x -> arr_get v i = Some x.
Proof.
  intros (rest&->&_) Hg. rewrite arr_get_app_l; [done|].
  unfold arr_get in Hg. destruct (Z.leb_spec 0 i); [|done].
  apply lookup_lt_Some in Hg. lia.
Qed.

(** Lengths of the list expressions of a goal, for [lia]. *)
Create Rewrite HintDb lenDb.
#[export] Hint Rewrite @length_app @length_cons @length_nil Nat2Z.inj_add Nat2Z.inj_succ : lenDb.
Ltac len_simp := autorewrite with lenDb in *; cbn [length] in *.
Ltac len_lia := len_simp; unfold word, W32 in *; lia.

(** [wsimp] for goals that speak of list lengths. *)
Ltac wlen :=
  repeat match goal with
  | |- context [u32 ?z] => rewrite (u32_small z) by len_lia
  end.

(** [x1 y1 x2 y2 ...]: the layout of a list of pairs in an array. *)
Definition flat (l : list (Z * Z)) : list Z := l ≫= fun x => [x.1; x.2].

Lemma flat_app l1 l2 : flat (l1 ++ l2) = flat l1 ++ flat l2.
Proof. apply bind_app. Qed.

Lemma length_flat l : len (flat l) = 2 * len l.
Proof. induction l as [|x l IH]; [done|]. unfold flat in *. cbn. lia. Qed.

Lemma flat_snoc P y : flat (P ++ [y]) = flat P ++ [y.1; y.2].
Proof. rewrite flat_app. done. Qed.

Lemma NoDup_omap_inj {X Y} (f : X -> option Y) (l : list X) : (forall x x' y, f x = Some y -> f x' = Some y -> x = x') ->
  NoDup l -> NoDup (omap f l).
Proof.
  intros Hinj. induction 1 as [|x l Hx _ IH]; [constructor|]. cbn. destruct (f x) as [y|] eqn:E; [|done]. constructor; [|done].
  intros (x'&Hx'&E')%list_elem_of_omap. by rewrite (Hinj _ _ _ E E') in Hx.
Qed.
