(* ===== verification/Util.v ===== *)
(** * Helpers of Util/Util.cpp that the store relies on

    The classification of ids, the searches in sorted arrays and the
    elimination of duplicates. *)

From S2P Require Import Prelude.

(** [GlobalTypedef::LITERAL_FIRST_ID]. *)
Definition LITERAL_FIRST_ID : Z := 2000000000.

(** [Util::is_literal_ele], [Util::is_entity_ele]. *)
Definition is_literal_ele (_id : Z) : bool := LITERAL_FIRST_ID <=? _id.
Definition is_entity_ele (id : Z) : bool := id <? LITERAL_FIRST_ID.

Lemma literal_not_entity id : is_literal_ele id = negb (is_entity_ele id).
Proof. unfold is_literal_ele, is_entity_ele. rewrite Z.leb_antisym. done. Qed.

(** ** Sorting *)

(** [Util::sort]: [qsort] with [cmp_unsigned]; by [sort_perm] and [sort_sorted]
    the result is the sorted permutation, whichever algorithm computes it. *)
Definition sort (_id_list : list Z) : list Z := merge_sort Z.le _id_list.

Lemma sort_perm l : sort l ≡ₚ l.
Proof. apply merge_sort_Permutation. Qed.

Lemma sort_sorted l : StronglySorted Z.le (sort l).
Proof. apply StronglySorted_merge_sort; apply _. Qed.

Lemma length_sort l : length (sort l) = length l.
Proof. apply Permutation_length, sort_perm. Qed.

Lemma sorted_unique l l' : StronglySorted Z.le l -> StronglySorted Z.le l' -> l ≡ₚ l' -> l = l'.
Proof. intros. by eapply (StronglySorted_unique Z.le). Qed.

Lemma increasing_sorted l : increasing l -> StronglySorted Z.le l.
Proof.
  induction 1 as [|x l Hs IH Hf]; constructor; [done|].
  eapply Forall_impl; [exact Hf|]. simpl. lia.
Qed.

(** ** Elimination of duplicates *)

(** The loop of [Util::removeDuplicate]: [i], [valid] and the array. *)
Definition removeDuplicate_loop (limit : Z) (s : Z * Z * list Z) : option (Z * Z * list Z) :=
  while (S (Z.to_nat limit))
    (fun '(i, valid, _list) => Some (i <? limit))
    (fun '(i, valid, _list) =>
       x ← arr_get _list i;
       y ← arr_get _list (i ⊞ 1);
       if negb (x =? y)
       then _list ← arr_set _list valid x; Some (i ⊞ 1, valid ⊞ 1, _list)
       else Some (i ⊞ 1, valid, _list)) s.

(** [Util::removeDuplicate]: the number of ids kept and the array. *)
Definition removeDuplicate (_list : list Z) (_len : Z) : option (Z * list Z) :=
  if _len =? 0 then Some (0, _list)
  else
    let limit := _len ⊟ 1 in
    '(_, valid, _list) ← removeDuplicate_loop limit (0, 0, _list);
    x ← arr_get _list limit;
    _list ← arr_set _list valid x;
    Some (valid ⊞ 1, _list).

(** Reference: drop every element that equals its successor. *)
Fixpoint compress (l : list Z) : list Z :=
  match l with
  | [] => []
  | x :: l' =>
      match l' with
      | [] => [x]
      | y :: _ => if x =? y then compress l' else x :: compress l'
      end
  end.

Lemma elem_of_compress l x : x ∈ compress l <-> x ∈ l.
Proof.
  induction l as [|y [|z l] IH]; simpl; [done|done|].
  destruct (Z.eqb_spec y z) as [->|]; rewrite ?elem_of_cons; simpl in IH; rewrite IH;
    rewrite ?elem_of_cons; naive_solver.
Qed.

Lemma increasing_compress l : StronglySorted Z.le l -> increasing (compress l).
Proof.
  induction 1 as [|x l Hs IH Hf]; [constructor|]. simpl. destruct l as [|y l]; [apply increasing_singleton|].
  destruct (Z.eqb_spec x y) as [->|Hne]; [done|]. constructor; [done|].
  apply Forall_forall. intros z. rewrite elem_of_compress. rewrite Forall_forall in Hf.
  intros Hz. pose proof (Hf y ltac:(left)). inversion Hs as [|?? _ Hy]; subst.
  rewrite Forall_forall in Hy. apply elem_of_cons in Hz as [->|Hz]; [lia|]. specialize (Hy z Hz). lia.
Qed.

Lemma removeDuplicate_loop_spec l1 x limit :
  limit = len l1 -> limit + 1 < W32 ->
  wp (removeDuplicate_loop limit (0, 0, l1 ++ [x])) (fun '(_, valid, a) =>
    exists out mid, a = out ++ mid ++ [x] /\ valid = len out /\ len (out ++ mid) = limit /\
      out ++ [x] = compress (l1 ++ [x])).
Proof.
  intros Hl Hl32. unfold removeDuplicate_loop.
  eapply (wp_while (fun '(i, valid, a) => exists out mid rest, a = out ++ mid ++ rest ++ [x] /\
            valid = len out /\ i = len (out ++ mid) /\ i + len rest = limit /\
            out ++ compress (rest ++ [x]) = compress (l1 ++ [x]))
          (fun '(i, _, _) => Z.to_nat (limit - i))).
  - exists [], [], l1. split_and!; [done..|simpl; lia|done].
  - lia.
  - intros [[i valid] a] (out&mid&rest&->&->&->&Hr&Hc). cbn [wp].
    destruct (Z.ltb_spec (len (out ++ mid)) limit); cycle 1.
    { destruct rest; [|len_lia]. exists out, mid. split_and!; [done..|len_lia|done]. }
    destruct rest as [|y rest]; [len_lia|].
    assert (exists z rest', rest ++ [x] = z :: rest') as (z&rest'&Hz).
    { destruct rest as [|z rest]; [by exists x, []|by exists z, (rest ++ [x])]. }
    eapply wp_get.
    { eapply (arr_get_at (out ++ mid) y); [by rewrite <- app_assoc|done]. }
    eapply wp_get.
    { eapply (arr_get_at (out ++ mid ++ [y]) z rest').
      - rewrite <- !app_assoc. cbn [app]. by rewrite Hz.
      - wlen. len_lia. }
    cbn [app compress] in Hc. rewrite Hz in Hc. destruct (Z.eqb_spec y z) as [->|Hne]; cbn [negb].
    + cbn [wp]. wlen. split; [|len_lia]. exists out, (mid ++ [z]), rest.
      split_and!; [by rewrite <- !app_assoc|done|len_lia|len_lia|]. by rewrite Hz.
    + destruct mid as [|m mid].
      * erewrite (arr_set_at out y); [|done|done]. cbn [mbind option_bind wp]. wlen.
        split; [|len_lia]. exists (out ++ [y]), [], rest. rewrite <- !app_assoc. cbn [app].
        split_and!; [done|len_lia..|]. by rewrite Hz.
      * erewrite (arr_set_at out m); [|done|done]. cbn [mbind option_bind wp]. wlen.
        split; [|len_lia]. exists (out ++ [y]), (mid ++ [y]), rest. rewrite <- !app_assoc. cbn [app].
        split_and!; [by rewrite <- ?app_assoc|len_lia..|]. by rewrite Hz.
Qed.

Lemma removeDuplicate_spec l n : n = len l -> n < W32 ->
  wp (removeDuplicate l n) (fun '(valid, a) =>
    valid = len (compress l) /\ take (Z.to_nat valid) a = compress l /\ len a = n).
Proof.
  intros -> Hn. unfold removeDuplicate. destruct l as [|x l _] using rev_ind; [done|].
  replace (len (l ++ [x]) =? 0) with false by (symmetry; apply Z.eqb_neq; len_lia).
  rewrite u32_small by len_lia. replace (len (l ++ [x]) - 1) with (len l) by len_lia.
  apply wp_bind. eapply wp_mono; [|apply removeDuplicate_loop_spec; len_lia].
  intros [[i valid] a] (out&mid&->&->&Hm&Hc).
  eapply wp_get. { eapply (arr_get_at (out ++ mid) x []); [by rewrite <- app_assoc|done]. }
  destruct mid as [|m mid].
  - erewrite (arr_set_at out x []); [|done|done]. cbn [mbind option_bind wp]. rewrite <- Hc. wlen.
    split_and!; [len_lia| |len_lia]. apply take_ge. len_lia.
  - erewrite (arr_set_at out m); [|done|done]. cbn [mbind option_bind wp]. rewrite <- Hc. wlen.
    split_and!; [len_lia| |len_lia]. rewrite cons_middle, app_assoc, take_app_length'; [done|len_lia].
Qed.

(** ** Binary search in an ascending array *)

Fixpoint bsearch_loop (fuel : nat) (_key : Z) (_array : list Z) (low high : Z) : option Z :=
  match fuel with
  | O => None
  | S f =>
      if low <=? high then
        let mid := ((high ⊟ low) / 2) ⊞ low in
        v ← arr_get _array mid;
        if v =? _key then Some mid
        else if _key <? v then bsearch_loop f _key _array low (mid ⊟ 1)
        else bsearch_loop f _key _array (mid ⊞ 1) high
      else Some INVALID
  end.

(** [Util::bsearch_int_uporder]; the array is [NULL] only when it is empty. *)
Definition bsearch_int_uporder (_key : Z) (_array : list Z) (_array_num : Z) : option Z :=
  if _array_num =? 0 then Some INVALID
  else
    _first ← arr_get _array 0;
    _last ← arr_get _array (_array_num ⊟ 1);
    if _last =? _key then Some (_array_num ⊟ 1)
    else if (_last <? _key) || (_key <? _first) then Some INVALID
    else bsearch_loop (S (Z.to_nat _array_num)) _key _array 0 (_array_num ⊟ 1).

Lemma sorted_lookup_le l (i j : nat) x y :
  StronglySorted Z.le l -> l !! i = Some x -> l !! j = Some y -> (i <= j)%nat -> x <= y.
Proof.
  intros Hs. revert i j. induction Hs as [|a l Hs IH Hf]; intros i j Hi Hj Hij; [done|].
  destruct j as [|j]; [replace i with 0%nat in * by lia; simpl in *; simplify_eq; lia|].
  destruct i as [|i]; simpl in *; [|by eapply (IH i j); eauto; lia].
  simplify_eq. rewrite Forall_forall in Hf. apply Hf. by eapply list_elem_of_lookup_2.
Qed.

Section Bsearch.
Context (l : list Z) (_key first : Z).
Context (Hs : StronglySorted Z.le l) (Hlen : len l < W32).
Context (Hfirst : l !! 0%nat = Some first) (Hle : first <= _key).

(** The unsigned [mid - 1] does not wrap: the first element is not above the key. *)
Lemma bsearch_loop_spec fuel low high :
  0 <= low -> low <= high + 1 -> high < len l -> (Z.to_nat (high + 1 - low) < fuel)%nat ->
  (forall k x, l !! k = Some x -> Z.of_nat k < low -> x < _key) ->
  (forall k x, l !! k = Some x -> high < Z.of_nat k -> _key < x) ->
  wp (bsearch_loop fuel _key l low high) (fun r =>
    (exists i, l !! i = Some _key /\ r = Z.of_nat i) \/ ((_key ∉ l) /\ r = INVALID)).
Proof.
  revert low high. induction fuel as [|fuel IH]; intros low high Hl0 Hlh Hh Hf Hlo Hhi; [lia|].
  cbn [bsearch_loop]. destruct (Z.leb_spec low high) as [Hlr|Hlr]; cycle 1.
  { right. split; [|done]. intros (k&Hk)%list_elem_of_lookup.
    destruct (Z.lt_ge_cases (Z.of_nat k) low) as [H|H].
    - specialize (Hlo _ _ Hk H). lia.
    - assert (high < Z.of_nat k) as H' by lia. specialize (Hhi _ _ Hk H'). lia. }
  rewrite (u32_small (high - low)) by word_lia.
  pose proof (Z.div_pos (high - low) 2). pose proof (Z.mul_div_le (high - low) 2).
  rewrite (u32_small ((high - low) / 2 + low)) by word_lia.
  set (mid := (high - low) / 2 + low). assert (low <= mid <= high) as Hmid by (subst mid; lia).
  destruct (lookup_lt_is_Some_2 l (Z.to_nat mid)) as [v Hv]; [lia|].
  eapply wp_get; [rewrite arr_get_lookup by lia; exact Hv|].
  destruct (Z.eqb_spec v _key) as [->|Hne].
  { left. exists (Z.to_nat mid). split; [done|lia]. }
  destruct (Z.ltb_spec _key v) as [Hlt|Hge].
  - assert (0 < mid).
    { destruct (Z.eq_dec mid 0) as [E|]; [|lia]. rewrite E in Hv. change (l !! 0%nat = Some v) in Hv. rewrite Hfirst in Hv. injection Hv. lia. }
    rewrite u32_small by word_lia. apply IH; [lia..|done|].
    intros k x Hx Hk. assert (v <= x); [|lia]. eapply (sorted_lookup_le l (Z.to_nat mid) k); eauto; lia.
  - rewrite u32_small by word_lia. apply IH; [lia..| |done].
    intros k x Hx Hk. assert (x <= v); [|lia]. eapply (sorted_lookup_le l k (Z.to_nat mid)); eauto; lia.
Qed.
End Bsearch.

Lemma bsearch_int_uporder_spec l _key : StronglySorted Z.le l -> len l < W32 ->
  wp (bsearch_int_uporder _key l (len l)) (fun r =>
    (exists i, l !! i = Some _key /\ r = Z.of_nat i) \/ ((_key ∉ l) /\ r = INVALID)).
Proof.
  intros Hs Hlen. unfold bsearch_int_uporder. destruct l as [|x l _] using rev_ind.
  { right. split; [apply not_elem_of_nil|done]. }
  replace (len (l ++ [x]) =? 0) with false by (symmetry; apply Z.eqb_neq; len_lia).
  destruct (l ++ [x]) as [|y l'] eqn:E; [by destruct l|]. rewrite <- E in *.
  assert ((l ++ [x]) !! 0%nat = Some y) as Hy by (by rewrite E).
  eapply wp_get; [exact Hy|].
  rewrite u32_small by len_lia. replace (len (l ++ [x]) - 1) with (len l) by len_lia.
  assert ((l ++ [x]) !! length l = Some x) as Hx by (by apply list_lookup_middle).
  eapply wp_get; [by rewrite arr_get_nat|].
  destruct (Z.eqb_spec x _key) as [->|Hne]. { left. by exists (length l). }
  assert (forall k z, (l ++ [x]) !! k = Some z -> y <= z <= x) as Hb.
  { intros k z Hz. pose proof (lookup_lt_Some _ _ _ Hz). split.
    - eapply (sorted_lookup_le _ 0 k); eauto; lia.
    - eapply (sorted_lookup_le _ k (length l)); eauto. len_lia. }
  destruct ((x <? _key) || (_key <? y)) eqn:Eb.
  - right. split; [|done]. intros (k&Hk)%list_elem_of_lookup. specialize (Hb _ _ Hk). lia.
  - eapply (bsearch_loop_spec _ _ y); [done|done|done|lia|len_lia..| |].
    + intros k z _ Hk. lia.
    + intros k z Hz%lookup_lt_Some Hk. len_lia.
Qed.
