(* ===== verification/ValueList.v ===== *)
(** * Adjacency value lists

    The layout of the values kept by [subID2values] and [objID2values]
    (KVstore/KVstore.h, the comment "STRUCT"), and the two searches
    [KVstore::binarySearch] and [KVstore::intersect] that work on it. *)

From S2P Require Import Prelude Util.

(** ** Searches *)

(** The loop of [KVstore::binarySearch]; [_left], [_right] and [_mid] are
    [long long]. *)
Fixpoint binarySearch_loop (fuel : nat) (_key : Z) (_list : list Z) (_step : Z)
    (_left _right : Z) : option Z :=
  match fuel with
  | O => None
  | S f =>
      if _left <=? _right then
        let _mid := (_right - _left) / 2 + _left in
        v ← arr_get _list (_step * _mid);
        if _key =? v then Some (u32 _mid)
        else if _key <? v then binarySearch_loop f _key _list _step _left (_mid - 1)
        else binarySearch_loop f _key _list _step (_mid + 1) _right
      else Some INVALID
  end.

(** [KVstore::binarySearch]: [_list_len - 1] is computed on [unsigned]. *)
Definition binarySearch (_key : Z) (_list : list Z) (_list_len _step : Z) : option Z :=
  binarySearch_loop (S (Z.to_nat _list_len)) _key _list _step 0 (_list_len ⊟ 1).

(** [KVstore::intersect] on arrays of the given lengths. *)
Fixpoint intersect_loop (fuel : nat) (_list1 _list2 : list Z) (_len1 _len2 : Z)
    (i j : Z) (ret : list Z) : option (list Z) :=
  match fuel with
  | O => None
  | S f =>
      if (i <? _len1) && (j <? _len2) then
        x ← arr_get _list1 i; y ← arr_get _list2 j;
        if x <? y then intersect_loop f _list1 _list2 _len1 _len2 (i ⊞ 1) j ret
        else if y <? x then intersect_loop f _list1 _list2 _len1 _len2 i (j ⊞ 1) ret
        else intersect_loop f _list1 _list2 _len1 _len2 (i ⊞ 1) (j ⊞ 1) (ret ++ [x])
      else Some ret
  end.

Definition intersect (_list1 _list2 : list Z) (_len1 _len2 : Z) : option (list Z) :=
  intersect_loop (S (Z.to_nat _len1 + Z.to_nat _len2)) _list1 _list2 _len1 _len2 0 0 [].

(** *** Correctness of the binary search *)

Section BinarySearch.
(** The searched array holds [keys] at every [_step]-th cell. *)
Context (_list keys : list Z) (_step : Z).
Context (Hsorted : increasing keys).
Context (Hcells : forall k : nat, (k < length keys)%nat ->
           arr_get _list (_step * Z.of_nat k) = keys !! k).

Lemma binarySearch_loop_spec _key fuel l r :
  0 <= l -> r < len keys -> len keys < W32 ->
  (Z.to_nat (r + 1 - l) < fuel)%nat ->
  (forall k x, keys !! k = Some x -> Z.of_nat k < l -> x < _key) ->
  (forall k x, keys !! k = Some x -> r < Z.of_nat k -> _key < x) ->
  wp (binarySearch_loop fuel _key _list _step l r) (fun p =>
    (exists i, keys !! i = Some _key /\ p = Z.of_nat i) \/
    ((_key ∉ keys) /\ p = INVALID)).
Proof.
  intros Hl Hr Hlen. revert l r Hl Hr.
  induction fuel as [|fuel IH]; intros l r Hl Hr Hf Hlo Hhi; [lia|].
  cbn [binarySearch_loop]. destruct (Z.leb_spec l r) as [Hlr|Hlr]; cycle 1.
  { right. split; [|done]. intros (k&Hk)%list_elem_of_lookup.
    destruct (Z.lt_ge_cases (Z.of_nat k) l) as [H|H].
    - specialize (Hlo _ _ Hk H). lia.
    - assert (r < Z.of_nat k) as H' by lia. specialize (Hhi _ _ Hk H'). lia. }
  set (mid := (r - l) / 2 + l).
  assert (l <= mid <= r) as Hmid.
  { subst mid. pose proof (Z.div_pos (r - l) 2).
    pose proof (Z.mul_div_le (r - l) 2). lia. }
  assert (exists k, mid = Z.of_nat k /\ (k < length keys)%nat) as (k&Hk&Hkl).
  { exists (Z.to_nat mid). lia. }
  destruct (lookup_lt_is_Some_2 keys k Hkl) as [x Hx].
  rewrite Hk, (Hcells k Hkl), Hx. cbn [mbind option_bind].
  destruct (Z.eqb_spec _key x) as [->|Hne].
  { left. exists k. split; [done|]. apply u32_small. lia. }
  destruct (Z.ltb_spec _key x) as [Hlt|Hge].
  - apply IH; [lia..|done|]. intros k' x' Hx' Hk'.
    destruct (decide (k' = k)) as [->|]; [congruence|].
    assert (x < x') by (eapply (increasing_lookup_lt keys k k'); eauto; lia). lia.
  - apply IH; [lia..| |done]. intros k' x' Hx' Hk'.
    destruct (decide (k' = k)) as [->|]; [simplify_eq; lia|].
    assert (x' < x) by (eapply (increasing_lookup_lt keys k' k); eauto; lia). lia.
Qed.

Lemma binarySearch_found _key (i : nat) :
  len keys < W32 -> keys !! i = Some _key ->
  binarySearch _key _list (len keys) _step = Some (Z.of_nat i).
Proof.
  intros Hlen Hi. apply wp_eq. pose proof (lookup_lt_Some _ _ _ Hi).
  unfold binarySearch. wsimp.
  eapply wp_mono; [|apply (binarySearch_loop_spec _key); try lia].
  - simpl. intros p [(j&Hj&->)|[Hn _]].
    + f_equal. by apply (NoDup_lookup keys j i _key); [apply increasing_NoDup| |].
    + exfalso. apply Hn. by eapply list_elem_of_lookup_2.
  - intros k x Hx%lookup_lt_Some. lia.
Qed.

Lemma binarySearch_missing _key :
  0 < len keys < W32 -> _key ∉ keys ->
  binarySearch _key _list (len keys) _step = Some INVALID.
Proof.
  intros Hlen Hi. apply wp_eq. unfold binarySearch. wsimp.
  eapply wp_mono; [|apply (binarySearch_loop_spec _key); try lia].
  - simpl. intros p [(j&Hj&->)|[_ ->]]; [|done].
    exfalso. apply Hi. by eapply list_elem_of_lookup_2.
  - intros k x Hx%lookup_lt_Some. lia.
Qed.
End BinarySearch.

(** ** The abstract content of a value list

    An adjacency [A] lists, by increasing predicate, the increasing list of the
    ids at the other end of the edges. *)

Abbreviation adj := (list (Z * list Z)).

Definition keys (A : adj) : list Z := A.*1.
Definition body (A : adj) : list Z := concat A.*2.
Definition size (A : adj) : Z := len (body A).

(** [p1 offset1 p2 offset2 ...], the first list starting at cell [off]. *)
Fixpoint table (off : Z) (A : adj) : list Z :=
  match A with
  | [] => []
  | (p, l) :: A' => p :: off :: table (off + len l) A'
  end.

(** Header, predicate table, concatenated id lists. *)
Definition layout (hdr : list Z) (A : adj) : list Z :=
  hdr ++ table (len hdr + 2 * len A) A ++ body A.

Record wf_entry (e : Z * list Z) : Prop := {
  wf_key : word e.1;
  wf_nonempty : e.2 <> [];
  wf_increasing : increasing e.2;
  wf_words : Forall word e.2 }.

(** The number of entities among the ids, the third header cell of [s2values]. *)
Definition entities (A : adj) : Z := len (filter (fun x => is_entity_ele x = true) (body A)).

(** [s2values]: triple number, predicate number, entity number. *)
Definition encode_s (A : adj) : list Z := layout [size A; len A; entities A] A.
(** [o2values]: triple number, predicate number. *)
Definition encode_o (A : adj) : list Z := layout [size A; len A] A.

(** Well-formedness: what every stored value list satisfies. *)
Record wf (A : adj) : Prop := {
  wf_keys : increasing (keys A);
  wf_entries : Forall wf_entry A }.

(** The pairs an adjacency stands for. *)
Definition pairs (A : adj) : list (Z * Z) := A ≫= fun e => (fun y => (e.1, y)) <$> e.2.

(** Reference operations on adjacencies. *)
Definition insert_sorted (x : Z) (l : list Z) : list Z :=
  let '(a, b) := split_lt x l in a ++ x :: b.

Fixpoint adj_insert (p x : Z) (A : adj) : adj :=
  match A with
  | [] => [(p, [x])]
  | (q, l) :: A' =>
      if p <? q then (p, [x]) :: A
      else if p =? q then (q, insert_sorted x l) :: A'
      else (q, l) :: adj_insert p x A'
  end.

Definition remove_sorted (x : Z) (l : list Z) : list Z := filter (fun y => y <> x) l.

Fixpoint adj_remove (p x : Z) (A : adj) : adj :=
  match A with
  | [] => []
  | (q, l) :: A' =>
      if p =? q then
        match remove_sorted x l with [] => A' | l' => (q, l') :: A' end
      else (q, l) :: adj_remove p x A'
  end.

(** The list of one predicate. *)
Fixpoint adj_find (p : Z) (A : adj) : option (list Z) :=
  match A with
  | [] => None
  | (q, l) :: A' => if p =? q then Some l else adj_find p A'
  end.

(** *** Layout lemmas *)

Lemma keys_app A B : keys (A ++ B) = keys A ++ keys B.
Proof. apply fmap_app. Qed.

Lemma length_keys A : length (keys A) = length A.
Proof. apply length_fmap. Qed.

Lemma body_app A B : body (A ++ B) = body A ++ body B.
Proof. unfold body. by rewrite fmap_app, concat_app. Qed.

Lemma body_cons e A : body (e :: A) = e.2 ++ body A.
Proof. done. Qed.

Lemma size_app A B : size (A ++ B) = size A + size B.
Proof. unfold size. rewrite body_app, length_app. lia. Qed.

Lemma size_cons e A : size (e :: A) = len e.2 + size A.
Proof. unfold size. rewrite body_cons, length_app. lia. Qed.

Lemma size_nil : size [] = 0.
Proof. done. Qed.

Lemma size_nonneg A : 0 <= size A.
Proof. unfold size. lia. Qed.

Lemma length_table off A : len (table off A) = 2 * len A.
Proof. revert off. induction A as [|[p l] A IH]; intros off; simpl; [done|]. specialize (IH (off + len l)). lia. Qed.

Lemma table_app off A B : table off (A ++ B) = table off A ++ table (off + size A) B.
Proof.
  revert off. induction A as [|[p l] A IH]; intros off; simpl.
  - by rewrite size_nil, Z.add_0_r.
  - rewrite IH, size_cons. simpl. by rewrite Z.add_assoc.
Qed.

Lemma length_layout hdr A : len (layout hdr A) = len hdr + 2 * len A + size A.
Proof.
  unfold layout. rewrite !length_app. pose proof (length_table (len hdr + 2 * len A) A).
  unfold size. lia.
Qed.

Lemma wf_app A B : wf (A ++ B) ->
  wf A /\ wf B /\ forall p q, p ∈ keys A -> q ∈ keys B -> p < q.
Proof.
  intros [Hk He]. rewrite keys_app, increasing_app in Hk. rewrite Forall_app in He.
  destruct Hk as (?&?&?), He. by repeat split.
Qed.

Lemma wf_size A : wf A -> len A <= size A.
Proof.
  intros [_ He]. induction He as [|[p l] A Hw _ IH]; [done|].
  rewrite size_cons. simpl. destruct Hw as [_ Hne _ _]. simpl in Hne.
  destruct l; [done|]. simpl. lia.
Qed.

(** The cells of the predicate table, as [binarySearch] reads them. *)
Lemma table_key_cell off A post (k : nat) :
  (k < length A)%nat -> arr_get (table off A ++ post) (2 * Z.of_nat k) = keys A !! k.
Proof.
  revert off k. induction A as [|[p l] A IH]; intros off k Hk; simpl in *; [lia|].
  destruct k as [|k]; [done|]. simpl.
  rewrite <- (IH (off + len l) k) by lia.
  change (p :: off :: table (off + len l) A ++ post)
    with ([p; off] ++ table (off + len l) A ++ post).
  apply arr_get_app_r; simpl; lia.
Qed.

Lemma get_table_key pre off Aa p l Ab post ix :
  ix = len pre + 2 * len Aa ->
  arr_get (pre ++ table off (Aa ++ (p, l) :: Ab) ++ post) ix = Some p.
Proof.
  intros ->. rewrite table_app. simpl. rewrite !app_assoc, <- app_assoc. simpl.
  apply arr_get_app_mid. rewrite length_app, Nat2Z.inj_add, length_table. lia.
Qed.

Lemma get_table_off pre off Aa p l Ab post ix :
  ix = len pre + 2 * len Aa + 1 ->
  arr_get (pre ++ table off (Aa ++ (p, l) :: Ab) ++ post) ix = Some (off + size Aa).
Proof.
  intros ->. rewrite table_app. simpl.
  change (p :: off + size Aa :: table (off + size Aa + len l) Ab)
    with ([p] ++ (off + size Aa) :: table (off + size Aa + len l) Ab).
  rewrite !app_assoc, <- app_assoc. simpl.
  apply arr_get_app_mid. rewrite !length_app, !Nat2Z.inj_add, length_table. simpl. lia.
Qed.

(** *** Intersection of sorted lists *)

Section Intersect.
Context (l1 l2 : list Z).
Context (H1 : increasing l1) (H2 : increasing l2) (Hw1 : len l1 < W32) (Hw2 : len l2 < W32).

Lemma intersect_loop_spec fuel a1 r1 a2 r2 i j ret :
  l1 = a1 ++ r1 -> l2 = a2 ++ r2 -> i = len a1 -> j = len a2 ->
  (length r1 + length r2 < fuel)%nat ->
  intersect_loop fuel l1 l2 (len l1) (len l2) i j ret =
  Some (ret ++ filter (fun x => x ∈ r2) r1).
Proof.
  revert a1 r1 a2 r2 i j ret. induction fuel as [|f IH]; intros a1 r1 a2 r2 i j ret E1 E2 -> -> Hf; [lia|].
  cbn [intersect_loop]. assert (len l1 = len a1 + len r1) as L1 by (subst l1; len_lia).
  assert (len l2 = len a2 + len r2) as L2 by (subst l2; len_lia).
  destruct r1 as [|x r1].
  { replace (len a1 <? len l1) with false by (symmetry; apply Z.ltb_ge; len_lia).
    cbn [andb]. by rewrite app_nil_r. }
  destruct r2 as [|y r2].
  { replace (len a2 <? len l2) with false by (symmetry; apply Z.ltb_ge; len_lia).
    rewrite andb_false_r, filter_none by (apply Forall_forall; intros ? _; apply not_elem_of_nil). by rewrite app_nil_r. }
  rewrite (proj2 (Z.ltb_lt _ _)), (proj2 (Z.ltb_lt _ _)) by len_lia. cbn [andb].
  rewrite (arr_get_at a1 x r1 l1) by done. cbn [mbind option_bind].
  rewrite (arr_get_at a2 y r2 l2) by done. cbn [mbind option_bind].
  assert (increasing (x :: r1)) as S1 by (rewrite E1 in H1; by apply increasing_app in H1 as (_&?&_)).
  assert (increasing (y :: r2)) as S2 by (rewrite E2 in H2; by apply increasing_app in H2 as (_&?&_)).
  inversion S1 as [|?? S1' F1]; inversion S2 as [|?? S2' F2]; subst.
  rewrite Forall_forall in F1, F2. wlen.
  destruct (Z.ltb_spec x y); [|destruct (Z.ltb_spec y x)].
  - rewrite (IH (a1 ++ [x]) r1 a2 (y :: r2)); [|by rewrite <- app_assoc|done|len_lia|done|simpl in *; lia].
    do 2 f_equal. rewrite filter_cons_False; [done|].
    intros [->|Hx]%elem_of_cons; [lia|]. specialize (F2 x Hx). lia.
  - rewrite (IH a1 (x :: r1) (a2 ++ [y]) r2); [|done|by rewrite <- app_assoc|done|len_lia|simpl in *; lia].
    do 2 f_equal. apply list_filter_iff'. intros z Hz. rewrite elem_of_cons.
    assert (z <> y); [|naive_solver]. apply elem_of_cons in Hz as [->|Hz]; [lia|]. specialize (F1 z Hz). lia.
  - assert (x = y) as -> by lia.
    rewrite (IH (a1 ++ [y]) r1 (a2 ++ [y]) r2);
      [|by rewrite <- app_assoc|by rewrite <- app_assoc|len_lia|len_lia|simpl in *; lia].
    rewrite filter_cons_True by left. rewrite <- app_assoc. cbn [app]. do 3 f_equal.
    apply list_filter_iff'. intros z Hz. rewrite elem_of_cons. specialize (F1 z Hz).
    assert (z <> y) by lia. naive_solver.
Qed.

Lemma intersect_filter : intersect l1 l2 (len l1) (len l2) = Some (filter (fun x => x ∈ l2) l1).
Proof. unfold intersect. by rewrite (intersect_loop_spec _ [] l1 [] l2); [|done..|lia]. Qed.
End Intersect.
