(* ===== verification/Adjacency.v ===== *)
(** * Adjacencies as sets of pairs

    The reference operations on adjacencies: they keep the well-formedness of
    the stored value lists and act on the set of pairs a list stands for. *)

From S2P Require Import Prelude Util ValueList.

(** ** Sorted lists *)

Lemma elem_of_insert_sorted x l y : increasing l -> y ∈ insert_sorted x l <-> y = x \/ y ∈ l.
Proof.
  intros Hl. destruct (split_lt_spec x l Hl) as [Heq _]. unfold insert_sorted.
  destruct (split_lt x l) as [a b]. simpl in Heq. subst l. set_solver.
Qed.

Lemma insert_sorted_increasing x l : increasing l -> x ∉ l -> increasing (insert_sorted x l).
Proof.
  intros Hl Hx. destruct (split_lt_spec x l Hl) as (Heq&H1&H2). unfold insert_sorted.
  destruct (split_lt x l) as [a b]. simpl in *. subst l.
  rewrite Forall_forall in H1, H2. apply increasing_app in Hl as (Ha&Hb&Hab).
  apply increasing_app. split_and!; [done| |].
  - constructor; [done|]. apply Forall_forall. intros y Hy.
    assert (y <> x) by set_solver. specialize (H2 y Hy). lia.
  - intros y z Hy Hz. apply elem_of_cons in Hz as [->|Hz]; auto.
Qed.

Lemma insert_sorted_split x l : increasing l -> x ∉ l ->
  exists l1 l2, l = l1 ++ l2 /\ insert_sorted x l = l1 ++ x :: l2 /\
    Forall (fun y => y < x) l1 /\ (forall y, head l2 = Some y -> x <= y).
Proof.
  intros Hl Hx. destruct (split_lt_spec x l Hl) as (Heq&H1&H2). unfold insert_sorted.
  destruct (split_lt x l) as [a b]. simpl in *. exists a, b. split_and!; [done..|].
  intros y Hy. destruct b; [done|]. simpl in Hy. simplify_eq. by apply Forall_inv in H2.
Qed.

(** An increasing list around one of its elements. *)
Lemma increasing_split x l : increasing l -> x ∈ l ->
  exists l1 l2, l = l1 ++ x :: l2 /\ remove_sorted x l = l1 ++ l2 /\
    Forall (fun y => y < x) l1 /\ x ∉ l1 ++ l2.
Proof.
  intros Hl Hx. apply list_elem_of_split in Hx as (l1&l2&->). exists l1, l2.
  apply increasing_app in Hl as (H1&H2&H12).
  assert (x ∉ l1) as Hn1. { intros Hx. specialize (H12 x x Hx). set_unfold. lia. }
  assert (x ∉ l2) as Hn2.
  { inversion H2 as [|?? _ Hf]; subst. rewrite Forall_forall in Hf. intros Hx.
    specialize (Hf x Hx). lia. }
  split_and!; [done| | |set_solver].
  - unfold remove_sorted. rewrite filter_app, filter_cons_False by auto.
    rewrite !filter_all; [done|..]; apply Forall_forall; by intros y Hy ->.
  - apply Forall_forall. intros y Hy. apply H12; set_solver.
Qed.

Lemma elem_of_remove_sorted x l y : y ∈ remove_sorted x l <-> y ∈ l /\ y <> x.
Proof. unfold remove_sorted. rewrite list_elem_of_filter. naive_solver. Qed.

(** ** Decomposition around a predicate *)

Lemma adj_missing p x A : wf A -> p ∉ keys A ->
  exists A1 A2, A = A1 ++ A2 /\ adj_insert p x A = A1 ++ (p, [x]) :: A2 /\
    Forall (fun q => q < p) (keys A1) /\ Forall (fun q => p < q) (keys A2).
Proof.
  induction A as [|[q l] A IH]; intros Hwf Hp.
  - exists [], []. simpl. split_and!; [done..|constructor|constructor].
  - simpl in Hp. apply not_elem_of_cons in Hp as [Hpq Hp].
    destruct (wf_app [(q, l)] A Hwf) as (_&HwfA&Hlt). simpl.
    destruct (Z.ltb_spec p q) as [Hlt'|Hge].
    + exists [], ((q, l) :: A). simpl. split_and!; [done..|constructor|].
      constructor; [done|]. apply Forall_forall. intros q' Hq'.
      assert (q < q') by (apply Hlt; [constructor|done]). lia.
    + destruct (Z.eqb_spec p q); [done|].
      destruct (IH HwfA Hp) as (A1&A2&->&->&H1&H2).
      exists ((q, l) :: A1), A2. split_and!; [done..| |done].
      constructor; [simpl; lia|done].
Qed.

Lemma adj_present p A : wf A -> p ∈ keys A ->
  exists A1 l A2, A = A1 ++ (p, l) :: A2 /\ adj_find p A = Some l /\
    (forall x, adj_insert p x A = A1 ++ (p, insert_sorted x l) :: A2) /\
    (forall x, adj_remove p x A =
       A1 ++ match remove_sorted x l with [] => A2 | l' => (p, l') :: A2 end).
Proof.
  induction A as [|[q l] A IH]; intros Hwf Hp; [by apply elem_of_nil in Hp|].
  destruct (wf_app [(q, l)] A Hwf) as (_&HwfA&Hlt). simpl in *.
  destruct (Z.eqb_spec p q) as [->|Hne].
  - exists [], l, A. split_and!; [done..|intros x|done].
    by destruct (Z.ltb_spec q q); [lia|].
  - apply elem_of_cons in Hp as [|Hp]; [done|].
    destruct (IH HwfA Hp) as (A1&l'&A2&->&Hf&Hi&Hr).
    exists ((q, l) :: A1), l', A2. split_and!; [done..| |].
    + intros x. assert (q < p) by (apply Hlt; [constructor|done]).
      destruct (Z.ltb_spec p q); [lia|]. by rewrite Hi.
    + intros x. by rewrite Hr.
Qed.

(** ** The pairs of an adjacency *)

Lemma elem_of_pairs A p x : (p, x) ∈ pairs A <-> exists l, (p, l) ∈ A /\ x ∈ l.
Proof.
  unfold pairs. rewrite list_elem_of_bind. split.
  - intros ([q l]&Hx&Hin). apply list_elem_of_fmap in Hx as (y&[= -> ->]&Hy). by exists l.
  - intros (l&Hin&Hx). exists (p, l). split; [|done]. simpl. apply list_elem_of_fmap. by exists x.
Qed.

Lemma wf_key_functional A p l l' : wf A -> (p, l) ∈ A -> (p, l') ∈ A -> l = l'.
Proof.
  intros [Hk _] H1 H2. apply increasing_NoDup in Hk. unfold keys in Hk.
  apply list_elem_of_lookup in H1 as [i Hi], H2 as [j Hj].
  assert (i = j) as ->.
  { eapply (NoDup_lookup _ i j p Hk); rewrite list_lookup_fmap; [by rewrite Hi|by rewrite Hj]. }
  congruence.
Qed.

Lemma adj_find_Some A p l : wf A -> adj_find p A = Some l <-> (p, l) ∈ A.
Proof.
  intros Hwf. split.
  - clear Hwf. induction A as [|[q l'] A IH]; simpl; [done|].
    destruct (Z.eqb_spec p q) as [->|]; [intros [= ->]; by left|right; auto].
  - intros Hin. assert (p ∈ keys A) as Hp by (apply list_elem_of_fmap; by exists (p, l)).
    destruct (adj_present p A Hwf Hp) as (A1&l'&A2&HA&Hf&_). rewrite Hf. f_equal.
    apply (wf_key_functional A p); [done| |done]. rewrite HA. set_solver.
Qed.

Lemma elem_of_pairs_find A p x : wf A ->
  (p, x) ∈ pairs A <-> exists l, adj_find p A = Some l /\ x ∈ l.
Proof.
  intros Hwf. rewrite elem_of_pairs. by setoid_rewrite adj_find_Some.
Qed.

Lemma adj_find_None A p : adj_find p A = None <-> p ∉ keys A.
Proof.
  induction A as [|[q l] A IH]; simpl; [set_solver|].
  destruct (Z.eqb_spec p q); set_solver.
Qed.

(** ** Insertion *)

Lemma length_pairs A : len (pairs A) = size A.
Proof.
  induction A as [|[p l] A IH]; [done|]. rewrite size_cons. unfold pairs in *. cbn.
  rewrite length_app, length_fmap. cbn. lia.
Qed.

Lemma elem_of_pairs_app A B p x : (p, x) ∈ pairs (A ++ B) <-> (p, x) ∈ pairs A \/ (p, x) ∈ pairs B.
Proof. rewrite !elem_of_pairs. set_solver. Qed.

Lemma elem_of_pairs_cons p l A q x :
  (q, x) ∈ pairs ((p, l) :: A) <-> (q = p /\ x ∈ l) \/ (q, x) ∈ pairs A.
Proof.
  rewrite !elem_of_pairs. setoid_rewrite elem_of_cons. naive_solver.
Qed.

Lemma pairs_adj_insert A p x q y : wf A ->
  (q, y) ∈ pairs (adj_insert p x A) <-> (q, y) = (p, x) \/ (q, y) ∈ pairs A.
Proof.
  intros Hwf. destruct (decide (p ∈ keys A)) as [Hp|Hp].
  - destruct (adj_present p A Hwf Hp) as (A1&l&A2&HA&_&Hi&_). rewrite Hi.
    assert (increasing l) as Hl.
    { destruct Hwf as [_ He]. rewrite Forall_forall in He. apply (He (p, l)). subst A. set_solver. }
    rewrite HA, !elem_of_pairs_app, !elem_of_pairs_cons, elem_of_insert_sorted by done.
    naive_solver.
  - destruct (adj_missing p x A Hwf Hp) as (A1&A2&HA&Hi&_). rewrite Hi, HA.
    rewrite !elem_of_pairs_app, !elem_of_pairs_cons. set_solver.
Qed.

Lemma wf_middle A1 p l A2 l' :
  wf (A1 ++ (p, l) :: A2) -> wf_entry (p, l') -> wf (A1 ++ (p, l') :: A2).
Proof.
  intros [Hk He] Hw. split.
  - revert Hk. by rewrite !keys_app.
  - rewrite Forall_app, Forall_cons in *. tauto.
Qed.

Lemma wf_between A1 p l A2 :
  wf (A1 ++ A2) -> Forall (fun q => q < p) (keys A1) -> Forall (fun q => p < q) (keys A2) ->
  wf_entry (p, l) -> wf (A1 ++ (p, l) :: A2).
Proof.
  intros [Hk He] H1 H2 Hw. rewrite Forall_forall in H1, H2.
  rewrite keys_app, increasing_app in Hk. destruct Hk as (Hk1&Hk2&Hk12). split.
  - rewrite keys_app, increasing_app. split_and!; [done| |].
    + constructor; [done|]. by apply Forall_forall.
    + intros a b Ha Hb. apply elem_of_cons in Hb as [->|Hb]; [by apply H1|by apply Hk12].
  - rewrite Forall_app, Forall_cons in *. tauto.
Qed.

Lemma wf_adj_insert A p x :
  wf A -> word p -> word x -> (p, x) ∉ pairs A -> wf (adj_insert p x A).
Proof.
  intros Hwf Hp Hx Hn. destruct (decide (p ∈ keys A)) as [Hk|Hk].
  - destruct (adj_present p A Hwf Hk) as (A1&l&A2&HA&Hf&Hi&_). rewrite Hi.
    assert (wf_entry (p, l)) as [_ _ Hinc Hword].
    { destruct Hwf as [_ He]. rewrite Forall_forall in He. apply He. subst A. set_solver. }
    simpl in *. assert (x ∉ l) as Hxl.
    { intros Hin. apply Hn. apply elem_of_pairs_find; [done|]. by exists l. }
    apply (wf_middle _ _ l); [by rewrite <- HA|]. split; simpl; [done| | |].
    + destruct (insert_sorted_split x l Hinc Hxl) as (l1&l2&_&->&_). by destruct l1.
    + by apply insert_sorted_increasing.
    + apply Forall_forall. intros y Hy. apply elem_of_insert_sorted in Hy as [->|Hy]; [done| |done].
      rewrite Forall_forall in Hword. by apply Hword.
  - destruct (adj_missing p x A Hwf Hk) as (A1&A2&HA&Hi&H1&H2). rewrite Hi.
    apply wf_between; [by rewrite <- HA|done..|].
    split; simpl; [done|done|apply increasing_singleton|by apply Forall_singleton].
Qed.

(** ** Removal *)

Lemma pairs_adj_remove A p x q y : wf A ->
  (q, y) ∈ pairs (adj_remove p x A) <-> (q, y) ∈ pairs A /\ (q, y) <> (p, x).
Proof.
  intros Hwf. destruct (decide (p ∈ keys A)) as [Hp|Hp].
  - destruct (adj_present p A Hwf Hp) as (A1&l&A2&HA&_&_&Hr). rewrite Hr.
    assert (forall B, (q, y) ∈ pairs B -> (forall k, k ∈ keys B -> k <> p) -> q <> p) as Hother.
    { intros B Hin HB. apply HB. apply elem_of_pairs in Hin as (l'&Hin&_).
      apply list_elem_of_fmap. by exists (q, l'). }
    destruct Hwf as [Hk _]. rewrite HA, keys_app in Hk. apply increasing_NoDup in Hk.
    apply NoDup_app in Hk as (_&Hn1&Hn2). apply NoDup_cons in Hn2 as [Hn2 _].
    assert ((q, y) ∈ pairs A1 -> q <> p) as H1 by (intros; apply (Hother A1); set_solver).
    assert ((q, y) ∈ pairs A2 -> q <> p) as H2 by (intros; apply (Hother A2); set_solver).
    pose proof (elem_of_remove_sorted x l y) as Hrm.
    destruct (remove_sorted x l) as [|z l'] eqn:E; rewrite HA, !elem_of_pairs_app, ?elem_of_pairs_cons.
    + assert (y ∈ l -> y = x) by (intros; destruct (decide (y = x)); set_solver).
      assert (forall a b : Z, (q, y) <> (a, b) <-> q <> a \/ y <> b) as Hpair
        by (intros; destruct (decide (q = a)), (decide (y = b)); naive_solver).
      rewrite Hpair. destruct (decide (q = p)); naive_solver.
    + rewrite Hrm. destruct (decide (q = p)); naive_solver.
  - assert (adj_remove p x A = A) as ->.
    { clear Hwf. induction A as [|[r l] A IH]; simpl in *; [done|].
      destruct (Z.eqb_spec p r); [set_solver|]. f_equal. apply IH. set_solver. }
    split; [|tauto]. intros Hin. split; [done|]. intros [= -> ->].
    apply Hp. apply elem_of_pairs in Hin as (l&Hin&_). apply list_elem_of_fmap. by exists (p, l).
Qed.

Lemma wf_adj_remove A p x : wf A -> wf (adj_remove p x A).
Proof.
  intros Hwf. induction A as [|[q l] A IH]; simpl; [done|].
  destruct (wf_app [(q, l)] A Hwf) as (_&HwfA&Hlt).
  assert (wf_entry (q, l)) as [Hq Hne Hinc Hword]
    by (destruct Hwf as [_ He]; by apply Forall_inv in He). simpl in *.
  destruct (Z.eqb_spec p q) as [->|Hpq].
  - destruct (remove_sorted x l) as [|y l'] eqn:E; [done|].
    apply (wf_middle [] _ l); [done|]. rewrite <- E. split; simpl; [done|by rewrite E| |].
    + destruct (decide (x ∈ l)) as [Hx|Hx].
      * destruct (increasing_split x l Hinc Hx) as (l1&l2&->&->&_).
        apply increasing_app in Hinc as (Ha&Hb&Hab). inversion Hb; subst.
        apply increasing_app. set_solver.
      * unfold remove_sorted. rewrite filter_all; [done|]. apply Forall_forall. set_solver.
    + apply Forall_forall. intros z Hz%elem_of_remove_sorted.
      rewrite Forall_forall in Hword. apply Hword, Hz.
  - specialize (IH HwfA). destruct IH as [Hk He]. split.
    + constructor; [done|]. apply Forall_forall. intros r Hr. apply Hlt; [constructor|].
      apply list_elem_of_fmap in Hr as ([r' l']&->&Hin). simpl.
      assert (wf_entry (r', l')) as [_ Hne' _ _] by (rewrite Forall_forall in He; by apply He).
      destruct l' as [|y l']; [done|].
      assert ((r', y) ∈ pairs (adj_remove p x A)) as Hpr
        by (apply elem_of_pairs; eexists; split; [done|constructor]).
      apply pairs_adj_remove in Hpr as [Hpr _]; [|done].
      apply elem_of_pairs in Hpr as (l''&Hin'&_). apply list_elem_of_fmap. by exists (r', l'').
    + by constructor.
Qed.
