(* ===== verification/ValueUpdate.v ===== *)
(** * Updating one value list

    [KVstore::updateInsert_s2values], [updateRemove_s2values] and their
    [o2values] twins (KVstore/KVstore.cpp), from the point where the old value
    list [_tmp] has been read up to the new value list [_values].  The twins
    run the same statements on layouts whose predicate table starts at cell 3
    (triple number, predicate number, entity number) and at cell 2; the code is
    written once over that offset [h], and [ent] says whether the entity number
    is kept and whether the id is an entity. *)

From S2P Require Import Prelude Util ValueList.

Section Code.
Context (h : Z) (junk : nat -> Z).

(** Index of the predicate and of the offset of entry [i]. *)
Definition key_ix (i : Z) : Z := h ⊞ (2 ⊠ i).
Definition off_ix (i : Z) : Z := (h + 1) ⊞ (2 ⊠ i).
(** Index of the offset of the entry after [i]. *)
Definition next_off_ix (i : Z) : Z := (h + 3) ⊞ (2 ⊠ i).

(** The state of the copying loops: [i], [j] and the array [_values]. *)
Abbreviation cursor := (Z * Z * list Z)%type.

(** The two loops over the predicate table: they copy the entries that pass
    [guard] with their offsets shifted by [d]. *)
Definition table_loop (guard : Z -> bool) (d : Z) (_tmp : list Z) (npre : Z)
    (s : cursor) : option cursor :=
  while (S (Z.to_nat npre))
    (fun '(i, j, vs) =>
       if i <? npre then p ← arr_get _tmp (key_ix i); Some (guard p) else Some false)
    (fun '(i, j, vs) =>
       p ← arr_get _tmp (key_ix i);
       vs ← arr_set vs j p;
       o ← arr_get _tmp (off_ix i);
       vs ← arr_set vs (j ⊞ 1) (o ⊞ d);
       Some (i ⊞ 1, j ⊞ 2, vs)) s.

(** The loop over the id lists that inserts [_id] before cell [_offset_old]. *)
Definition body_insert_loop (_tmp : list Z) (last _offset_old _id : Z)
    (s : cursor) : option cursor :=
  while (S (length _tmp))
    (fun '(i, j, vs) => Some (i <? last))
    (fun '(i, j, vs) =>
       '(j, vs) ← (if i =? _offset_old
                   then vs ← arr_set vs j _id; Some (j ⊞ 1, vs) else Some (j, vs));
       x ← arr_get _tmp i;
       vs ← arr_set vs j x;
       Some (i ⊞ 1, j ⊞ 1, vs)) s.

(** Adding to the entity number: only [s2values] keeps it. *)
Definition count_entity (ent : option bool) (_tmp vs : list Z) : option (list Z) :=
  match ent with
  | Some b => e ← arr_get _tmp 2; arr_set vs 2 (e ⊞ (if b then 1 else 0))
  | None => Some vs
  end.

(** "preID doesn't exist": the header, the predicate table and the id lists of
    the new value list. *)
Definition new_pre_header (ent : option bool) (_tmp : list Z) : option (list Z) :=
  let vs := new_array junk (len _tmp + 3) in
  t0 ← arr_get _tmp 0;
  npre ← arr_get _tmp 1;
  vs ← arr_set vs 0 (t0 ⊞ 1);
  vs ← arr_set vs 1 (npre ⊞ 1);
  count_entity ent _tmp vs.

Definition new_pre_table (_tmp : list Z) (t0 npre _pre_id : Z) (vs : list Z)
    : option (Z * Z * list Z) :=
  '(i, j, vs) ← table_loop (fun p => p <? _pre_id) 2 _tmp npre (0, h, vs);
  vs ← arr_set vs j _pre_id;
  _offset_old ← (if i =? npre then Some ((h ⊞ (2 ⊠ npre)) ⊞ t0)
                 else arr_get _tmp (off_ix i));
  vs ← arr_set vs (j ⊞ 1) (_offset_old ⊞ 2);
  '(_, j, vs) ← table_loop (fun _ => true) 3 _tmp npre (i, j ⊞ 2, vs);
  Some (_offset_old, j, vs).

Definition new_pre_body (_tmp : list Z) (t0 npre _id _offset_old j : Z) (vs : list Z)
    : option (list Z) :=
  '(i, j, vs) ← body_insert_loop _tmp ((h ⊞ (2 ⊠ npre)) ⊞ t0) _offset_old _id
                   (h ⊞ (2 ⊠ npre), j, vs);
  if i =? _offset_old then arr_set vs j _id else Some vs.

Definition insert_new_pre (ent : option bool) (_tmp : list Z) (_pre_id _id : Z)
    : option (list Z) :=
  t0 ← arr_get _tmp 0;
  npre ← arr_get _tmp 1;
  vs ← new_pre_header ent _tmp;
  '(_offset_old, j, vs) ← new_pre_table _tmp t0 npre _pre_id vs;
  new_pre_body _tmp t0 npre _id _offset_old j vs.

(** [for (unsigned i = _position + 1; i < _tmp[1]; i++) _values[h + 1 + 2 * i] += d]. *)
Definition bump_offsets (d npre : Z) (i : Z) (vs : list Z) : option (Z * list Z) :=
  while (S (Z.to_nat npre))
    (fun '(i, vs) => Some (i <? npre))
    (fun '(i, vs) =>
       o ← arr_get vs (off_ix i);
       vs ← arr_set vs (off_ix i) (o ⊞ d);
       Some (i ⊞ 1, vs)) (i, vs).

(** [for (...; i < right && _tmp[i] < _id; i++, j++) _values[j] = _tmp[i]]. *)
Definition copy_while_lt (_tmp : list Z) (right _id : Z) (s : cursor) : option cursor :=
  while (S (length _tmp))
    (fun '(i, j, vs) => if i <? right then x ← arr_get _tmp i; Some (x <? _id) else Some false)
    (fun '(i, j, vs) =>
       x ← arr_get _tmp i; vs ← arr_set vs j x; Some (i ⊞ 1, j ⊞ 1, vs)) s.

(** [for (; i < last; i++, j++) _values[j] = _tmp[i]]. *)
Definition copy_rest (_tmp : list Z) (last : Z) (s : cursor) : option cursor :=
  while (S (length _tmp))
    (fun '(i, j, vs) => Some (i <? last))
    (fun '(i, j, vs) =>
       x ← arr_get _tmp i; vs ← arr_set vs j x; Some (i ⊞ 1, j ⊞ 1, vs)) s.

(** [_values[c] += d] on a header cell. *)
Definition bump_cell (c d : Z) (vs : list Z) : option (list Z) :=
  x ← arr_get vs c; arr_set vs c (x ⊞ d).

Definition bump_entity (ent : option bool) (d : Z) (vs : list Z) : option (list Z) :=
  match ent with Some true => bump_cell 2 d vs | _ => Some vs end.

(** "preID exists" and "preID still exists after removal": the prefix up to
    the id list of the predicate, with the counters and the later offsets
    changed by [d]. *)
Definition old_pre_prefix (d : Z) (ent : option bool) (_tmp vs : list Z)
    (npre _position start : Z) : option (list Z) :=
  vs ← arr_copy vs _tmp start;
  vs ← bump_cell 0 d vs;
  vs ← bump_entity ent d vs;
  '(_, vs) ← bump_offsets d npre (_position ⊞ 1) vs;
  Some vs.

Definition insert_old_lists (_tmp : list Z) (t0 npre _position start _id : Z)
    (vs : list Z) : option (list Z) :=
  right ← (if _position =? npre ⊟ 1 then Some ((h ⊞ (2 ⊠ npre)) ⊞ t0)
           else arr_get _tmp (next_off_ix _position));
  '(i, j, vs) ← copy_while_lt _tmp right _id (start, start, vs);
  vs ← arr_set vs j _id;
  '(_, _, vs) ← copy_rest _tmp ((h ⊞ (2 ⊠ npre)) ⊞ t0) (i, j ⊞ 1, vs);
  Some vs.

Definition insert_old_pre (ent : option bool) (_tmp : list Z) (_position _id : Z)
    : option (list Z) :=
  t0 ← arr_get _tmp 0;
  npre ← arr_get _tmp 1;
  start ← arr_get _tmp (off_ix _position);
  vs ← old_pre_prefix 1 ent _tmp (new_array junk (len _tmp + 1)) npre _position start;
  insert_old_lists _tmp t0 npre _position start _id vs.

(** The branch on [binarySearch]. *)
Definition update_insert (ent : option bool) (_tmp : list Z) (_pre_id _id : Z)
    : option (list Z) :=
  npre ← arr_get _tmp 1;
  _position ← binarySearch _pre_id (drop (Z.to_nat h) _tmp) npre 2;
  if _position =? INVALID then insert_new_pre ent _tmp _pre_id _id
  else insert_old_pre ent _tmp _position _id.
End Code.

(** ** The loops *)

Section Loops.
Context (h : Z).

Lemma key_ix_small i : 0 <= h <= 3 -> 0 <= i -> h + 2 * i < W32 -> key_ix h i = h + 2 * i.
Proof. intros. unfold key_ix. by wsimp. Qed.

Lemma off_ix_small i : 0 <= h <= 3 -> 0 <= i -> h + 2 * i + 1 < W32 ->
  off_ix h i = h + 2 * i + 1.
Proof. intros. unfold off_ix. wsimp. lia. Qed.

Lemma table_loop_spec guard d A1 A2 pre off post i0 npre out n vs :
  0 <= h <= 3 -> 0 <= i0 -> 0 <= d -> 0 <= off ->
  len pre = h + 2 * i0 -> npre = i0 + len (A1 ++ A2) ->
  Forall (fun p => guard p = true) (keys A1) ->
  (forall p, head (keys A2) = Some p -> guard p = false) ->
  h + 2 * npre < W32 -> off + size A1 + d < W32 ->
  len out + 2 * len A1 <= n -> n < W32 ->
  filled out n vs ->
  wp (table_loop h guard d (pre ++ table off (A1 ++ A2) ++ post) npre (i0, len out, vs))
     (fun '(i, j, vs') => i = i0 + len A1 /\ j = len out + 2 * len A1 /\
                          filled (out ++ table (off + d) A1) n vs').
Proof.
  intros Hh Hi Hd Hoff Hpre Hn HA1 HA2 Hb1 Hb2 Hn1 Hn2 Hf. unfold table_loop.
  eapply (wp_while (fun '(i, j, vs') => exists Aa Ab, A1 = Aa ++ Ab /\
            i = i0 + len Aa /\ j = len out + 2 * len Aa /\
            filled (out ++ table (off + d) Aa) n vs')
          (fun '(i, _, _) => Z.to_nat (npre - i))).
  - exists [], A1. simpl. rewrite app_nil_r. repeat split; [lia..|done].
  - lia.
  - intros [[i j] vs'] (Aa&Ab&HA&Hi'&Hj'&Hf'). subst A1.
    rewrite keys_app, Forall_app in HA1. destruct HA1 as [_ HA1].
    len_simp. rewrite size_app in Hb2.
    pose proof (size_nonneg Aa). pose proof (size_nonneg Ab).
    pose proof (length_table (off + d) Aa).
    destruct (Z.ltb_spec i npre); cycle 1.
    { destruct Ab as [|? ?]; [|len_lia]. simpl in *. rewrite app_nil_r in *.
      repeat split; [lia..|done]. }
    destruct Ab as [|[p l] Ab].
    + destruct A2 as [|[p l] A2]; [len_lia|]. rewrite app_nil_r in *.
      eapply wp_get. { apply get_table_key. rewrite key_ix_small by lia. lia. }
      simpl. rewrite (HA2 p) by done. repeat split; [lia..|done].
    + rewrite <- app_assoc. simpl.
      assert (guard p = true) as Hg. { by apply Forall_inv in HA1. }
      eapply wp_get. { apply get_table_key. rewrite key_ix_small by lia. lia. }
      rewrite Hg. simpl.
      eapply wp_get. { apply get_table_key. rewrite key_ix_small by lia. lia. }
      eapply wp_emit; [done|len_lia|len_lia|]. intros v1 Hv1.
      eapply wp_get. { apply get_table_off. rewrite off_ix_small by len_lia. len_lia. }
      eapply wp_emit; [done| |len_lia|].
      { wlen. len_lia. }
      intros v2 Hv2. simpl. split; [|rewrite u32_small by len_lia; len_lia].
      exists (Aa ++ [(p, l)]), Ab. rewrite <- app_assoc. simpl.
      split; [done|]. wlen.
      repeat split; [len_lia..|]. rewrite table_app. simpl.
      rewrite <- !app_assoc in Hv2. simpl in Hv2. revert Hv2.
      rewrite u32_small by len_lia. rewrite <- Z.add_assoc, (Z.add_comm (size Aa) d), Z.add_assoc.
      done.
Qed.

Lemma copy_while_lt_spec pre a b post right _id out n vs :
  Forall (fun x => x < _id) a -> (forall x, head b = Some x -> _id <= x) ->
  right = len pre + len a + len b -> right < W32 ->
  len out + len a <= n -> n < W32 -> filled out n vs ->
  wp (copy_while_lt (pre ++ a ++ b ++ post) right _id (len pre, len out, vs))
     (fun '(i, j, vs') => i = len pre + len a /\ j = len out + len a /\
                          filled (out ++ a) n vs').
Proof.
  intros Ha Hb Hr Hr32 Hn Hn32 Hf. unfold copy_while_lt.
  eapply (wp_while (fun '(i, j, vs') => exists a1 a2, a = a1 ++ a2 /\
            i = len pre + len a1 /\ j = len out + len a1 /\ filled (out ++ a1) n vs')
          (fun '(i, _, _) => Z.to_nat (right - i))).
  - exists [], a. rewrite app_nil_r. simpl. repeat split; [lia..|done].
  - len_lia.
  - intros [[i j] vs'] (a1&a2&->&->&->&Hf').
    rewrite Forall_app in Ha. destruct Ha as [_ Ha]. len_simp.
    destruct (Z.ltb_spec (len pre + len a1) right); cycle 1.
    { destruct a2; [|len_lia]. rewrite app_nil_r. repeat split; [len_lia..|done]. }
    destruct a2 as [|x a2].
    + rewrite app_nil_r in *. destruct b as [|x b]; [len_lia|]. rewrite !app_assoc.
      eapply wp_get. { rewrite <- app_assoc. apply arr_get_app_mid. len_lia. }
      simpl. destruct (Z.ltb_spec x _id); [specialize (Hb x eq_refl); lia|].
      repeat split; [len_lia..|done].
    + apply Forall_cons in Ha as [Hx Ha].
      assert (arr_get (pre ++ (a1 ++ x :: a2) ++ b ++ post) (len pre + len a1) = Some x) as Hg.
      { rewrite <- app_assoc, app_assoc. apply arr_get_app_mid. len_lia. }
      eapply wp_get; [exact Hg|]. simpl. destruct (Z.ltb_spec x _id); [|lia].
      eapply wp_get; [exact Hg|].
      eapply wp_emit; [done|len_lia|len_lia|]. intros v1 Hv1. simpl.
      wlen. split; [|len_lia].
      exists (a1 ++ [x]), a2. rewrite <- !app_assoc in *. simpl in *.
      repeat split; [len_lia..|done].
Qed.

Lemma copy_rest_spec pre a post last out n vs :
  last = len pre + len a -> last < W32 ->
  len out + len a <= n -> n < W32 -> filled out n vs ->
  wp (copy_rest (pre ++ a ++ post) last (len pre, len out, vs))
     (fun '(i, j, vs') => i = last /\ j = len out + len a /\ filled (out ++ a) n vs').
Proof.
  intros Hr Hr32 Hn Hn32 Hf. unfold copy_rest.
  eapply (wp_while (fun '(i, j, vs') => exists a1 a2, a = a1 ++ a2 /\
            i = len pre + len a1 /\ j = len out + len a1 /\ filled (out ++ a1) n vs')
          (fun '(i, _, _) => Z.to_nat (last - i))).
  - exists [], a. rewrite app_nil_r. simpl. repeat split; [lia..|done].
  - len_lia.
  - intros [[i j] vs'] (a1&a2&->&->&->&Hf'). len_simp. simpl.
    destruct (Z.ltb_spec (len pre + len a1) last); cycle 1.
    { destruct a2; [|len_lia]. rewrite app_nil_r. repeat split; [len_lia..|done]. }
    destruct a2 as [|x a2]; [len_lia|].
    eapply wp_get. { rewrite <- app_assoc, app_assoc. apply arr_get_app_mid. len_lia. }
    eapply wp_emit; [done|len_lia|len_lia|]. intros v1 Hv1. simpl.
    wlen. split; [|len_lia].
    exists (a1 ++ [x]), a2. rewrite <- !app_assoc in *. simpl in *.
    repeat split; [len_lia..|done].
Qed.

(** The inserting copy splits into what precedes and what follows the new id. *)
Lemma body_insert_loop_spec pre b1 b2 last old _id out n vs :
  old = len pre + len b1 -> last = old + len b2 -> last < W32 ->
  len out + len b1 + len b2 < n -> n < W32 -> filled out n vs ->
  wp (body_insert_loop (pre ++ b1 ++ b2) last old _id (len pre, len out, vs))
     (fun '(i, j, vs') => i = last /\
        (b2 = [] /\ j = len out + len b1 /\ filled (out ++ b1) n vs' \/
         b2 <> [] /\ filled (out ++ b1 ++ _id :: b2) n vs')).
Proof.
  intros Hold Hlast Hr32 Hn Hn32 Hf. unfold body_insert_loop.
  eapply (wp_while (fun '(i, j, vs') =>
            (exists a1 a2, b1 = a1 ++ a2 /\ i = len pre + len a1 /\
               j = len out + len a1 /\ filled (out ++ a1) n vs') \/
            (exists a1 a2, b2 = a1 ++ a2 /\ a1 <> [] /\ i = old + len a1 /\
               j = len out + len b1 + 1 + len a1 /\ filled (out ++ b1 ++ _id :: a1) n vs'))
          (fun '(i, _, _) => Z.to_nat (last - i))).
  - left. exists [], b1. rewrite app_nil_r. simpl. repeat split; [lia..|done].
  - len_lia.
  - intros [[i j] vs'] [(a1&a2&->&->&->&Hf')|(a1&a2&->&Hne&->&->&Hf')]; len_simp; simpl.
    + destruct (Z.ltb_spec (len pre + len a1) last); cycle 1.
      { destruct a2; [|len_lia]. destruct b2; [|len_lia]. len_simp. split; [lia|].
        left. rewrite app_nil_r. repeat split; [len_lia..|done]. }
      destruct (Z.eqb_spec (len pre + len a1) old).
      * destruct a2; [|len_lia]. destruct b2 as [|x b2]; [len_lia|].
        rewrite app_nil_r in *. apply wp_bind.
        eapply wp_emit; [done|len_lia|len_lia|]. intros v1 Hv1. cbn [wp].
        eapply wp_get. { rewrite app_assoc. apply arr_get_app_mid. len_lia. }
        wlen.
        eapply wp_emit; [done|len_lia|len_lia|]. intros v2 Hv2. simpl.
        split; [|len_lia]. right. exists [x], b2. rewrite <- !app_assoc in *. simpl in *.
        repeat split; [done|len_lia..|done].
      * destruct a2 as [|x a2]; [len_lia|]. cbn [mbind option_bind].
        eapply wp_get. { rewrite <- app_assoc, app_assoc. apply arr_get_app_mid. len_lia. }
        eapply wp_emit; [done|len_lia|len_lia|]. intros v2 Hv2. simpl.
        wlen. split; [|len_lia]. left.
        exists (a1 ++ [x]), a2. rewrite <- !app_assoc in *. simpl in *.
        repeat split; [len_lia..|done].
    + destruct (Z.ltb_spec (old + len a1) last); cycle 1.
      { destruct a2; [|len_lia]. rewrite app_nil_r. split; [len_lia|].
        right. by split. }
      destruct a1 as [|y a1]; [done|].
      destruct (Z.eqb_spec (old + len (y :: a1)) old); [len_lia|].
      destruct a2 as [|x a2]; [len_lia|]. cbn [mbind option_bind].
      eapply wp_get. { rewrite !app_assoc. apply arr_get_app_mid. len_lia. }
      eapply wp_emit; [done|len_lia|len_lia|]. intros v2 Hv2. simpl.
      wlen. split; [|len_lia]. right.
      exists ((y :: a1) ++ [x]), a2. rewrite <- !app_assoc in *. simpl in *.
      repeat split; [done|len_lia..|done].
Qed.

(** Incrementing the offsets of the entries after a position. *)
Lemma bump_offsets_spec d pre off A post i0 npre n vs :
  0 <= h <= 3 -> 0 <= i0 -> 0 <= off -> 0 <= off + d ->
  len pre = h + 2 * i0 -> npre = i0 + len A ->
  h + 2 * npre < W32 -> off + size A + Z.max 0 d < W32 ->
  filled (pre ++ table off A ++ post) n vs ->
  wp (bump_offsets h d npre i0 vs)
     (fun '(_, vs') => filled (pre ++ table (off + d) A ++ post) n vs').
Proof.
  intros Hh Hi Hoff Hd Hpre Hn Hb1 Hb2 Hf. unfold bump_offsets.
  eapply (wp_while (fun '(i, vs') => exists Aa Ab, A = Aa ++ Ab /\ i = i0 + len Aa /\
            filled (pre ++ table (off + d) Aa ++ table (off + size Aa) Ab ++ post) n vs')
          (fun '(i, _) => Z.to_nat (npre - i))).
  - exists [], A. simpl. rewrite size_nil, !Z.add_0_r. by split_and!.
  - lia.
  - intros [i vs'] (Aa&Ab&->&->&Hf'). len_simp. rewrite size_app in Hb2.
    pose proof (size_nonneg Aa). pose proof (size_nonneg Ab).
    pose proof (length_table (off + d) Aa). simpl.
    destruct (Z.ltb_spec (i0 + len Aa) npre); cycle 1.
    { destruct Ab; [|len_lia]. by rewrite app_nil_r. }
    destruct Ab as [|[p l] Ab]; [len_lia|]. simpl in Hf'.
    rewrite off_ix_small by len_lia.
    assert (filled ((pre ++ table (off + d) Aa ++ [p]) ++ (off + size Aa) ::
                    table (off + size Aa + len l) Ab ++ post) n vs') as Hf2.
    { rewrite <- !app_assoc. exact Hf'. }
    eapply wp_get.
    { eapply filled_get; [exact Hf2|]. apply arr_get_app_mid. len_lia. }
    eapply wp_update; [exact Hf2|len_lia|].
    intros v1 Hv1. simpl. wlen. split; [|len_lia].
    exists (Aa ++ [(p, l)]), Ab. rewrite <- !app_assoc in *. simpl in *.
    split; [done|]. split; [len_lia|].
    rewrite table_app, size_app, size_cons, size_nil, <- !app_assoc. simpl.
    rewrite Z.add_0_r, Z.add_assoc. rewrite <- Z.add_assoc, (Z.add_comm d), Z.add_assoc.
    revert Hv1. by wlen.
Qed.
End Loops.

(** Incrementing or decrementing a header cell. *)
Lemma wp_bump_cell {B} pre x post n vs c d (k : list Z -> option B) Q :
  filled (pre ++ x :: post) n vs -> c = len pre -> 0 <= x + d < W32 ->
  (forall vs', filled (pre ++ (x + d) :: post) n vs' -> wp (k vs') Q) ->
  wp (bump_cell c d vs ≫= k) Q.
Proof.
  intros Hf -> Hd Hk. unfold bump_cell. apply wp_bind.
  eapply wp_get; [eapply filled_get; [exact Hf|by apply arr_get_app_mid]|].
  apply wp_ret. eapply wp_update; [exact Hf|done|]. intros v' Hv'. cbn [wp]. apply Hk.
  revert Hv'. by rewrite u32_small by done.
Qed.

(** ** Inserting *)

(** The header cells after the triple and predicate numbers, before and after
    an id joins ([d = 1]) or leaves ([d = -1]) the list: nothing for
    [o2values], the entity number for [s2values]. *)
Inductive extra_change (d : Z) : option bool -> list Z -> list Z -> Prop :=
| extra_change_o : extra_change d None [] []
| extra_change_s (b : bool) e : 0 <= e < W32 -> 0 <= e + (if b then d else 0) < W32 ->
    extra_change d (Some b) [e] [e + (if b then d else 0)].

Section Extra.
Context (d : Z) (ent : option bool) (extra extra' : list Z).
Context (Hextra : extra_change d ent extra extra').

Lemma extra_length : length extra' = length extra /\ len extra <= 1.
Proof. destruct Hextra; simpl; lia. Qed.

Lemma bump_entity_spec {B} a b tl n vs (k : list Z -> option B) Q :
  filled (a :: b :: extra ++ tl) n vs ->
  (forall vs', filled (a :: b :: extra' ++ tl) n vs' -> wp (k vs') Q) ->
  wp (bump_entity ent d vs ≫= k) Q.
Proof.
  intros Hf Hk. destruct Hextra as [|[] e He1 He2]; simpl in *;
    [by apply Hk| |by apply Hk; rewrite Z.add_0_r].
  by eapply (wp_bump_cell [a; b]); [exact Hf|done|lia|].
Qed.

(** The prefix up to the id list of a predicate whose list changes from [l]
    to [l']. *)
Lemma old_pre_prefix_spec A A1 A2 hdr p l l' base dst post :
  A = A1 ++ (p, l) :: A2 -> hdr = size A :: len A :: extra ->
  base = len hdr + 2 * len A -> len l' = len l + d -> -1 <= d <= 1 ->
  base + size A + Z.max 0 d < W32 -> base + size A1 <= len dst -> len dst < W32 ->
  wp (old_pre_prefix (len hdr) d ent (hdr ++ table base A ++ body A1 ++ post) dst
        (len A) (len A1) (base + size A1))
     (filled ((size A + d :: len A :: extra') ++
              table base (A1 ++ (p, l') :: A2) ++ body A1) (len dst)).
Proof.
  intros HA Hhdr Hb Hl Hd Hs Hn Hn32. destruct extra_length as [Hex Hex1].
  pose proof (length_table base A). pose proof (size_nonneg A1). pose proof (size_nonneg A2).
  assert (size A = size A1 + len l + size A2) as HsA
    by (subst A; rewrite size_app, size_cons; simpl; lia).
  assert (len hdr = 2 + len extra) by (subst hdr; len_lia).
  assert (len A = len A1 + 1 + len A2) as HlA by (subst A; len_lia).
  unfold old_pre_prefix.
  eapply (wp_memcpy _ _ (hdr ++ table base A ++ body A1)).
  { by rewrite <- !app_assoc. } { unfold size in *. len_lia. } { lia. }
  intros v1 Hv1. rewrite Hhdr in Hv1 at 1.
  eapply (wp_bump_cell []); [exact Hv1|done|len_lia|]. intros v2 Hv2.
  eapply bump_entity_spec; [exact Hv2|]. intros v3 Hv3.
  apply wp_bind. wlen.
  replace (table base A) with
    (table base A1 ++ p :: base + size A1 :: table (base + size A1 + len l) A2) in Hv3
    by (by rewrite HA, table_app).
  rewrite table_app. cbn [table]. pose proof (length_table base A1).
  eapply wp_mono; [|eapply (bump_offsets_spec _ d
    ((size A + d :: len A :: extra') ++ table base A1 ++ [p; base + size A1])
    (base + size A1 + len l) A2 (body A1)); try len_lia].
  - intros [i v4] Hv4. cbn [wp]. rewrite <- !app_assoc in *. simpl in *.
    replace (base + size A1 + len l') with (base + size A1 + len l + d) by lia. exact Hv4.
  - rewrite <- !app_assoc in *. exact Hv3.
Qed.
End Extra.

Section Insert.
Context (junk : nat -> Z) (ent : option bool) (extra extra' : list Z).
Context (Hextra : extra_change 1 ent extra extra').

Lemma count_entity_spec {B} hdr a b a' b' tl n vs (k : list Z -> option B) Q :
  hdr = a :: b :: extra -> filled [a'; b'] n vs -> 2 + len extra <= n ->
  (forall vs', filled (a' :: b' :: extra') n vs' -> wp (k vs') Q) ->
  wp (count_entity ent (hdr ++ tl) vs ≫= k) Q.
Proof.
  intros -> Hf Hn Hk. destruct Hextra as [|c e He1 He2]; simpl in *; [by apply Hk|].
  destruct c; (eapply wp_emit; [exact Hf|done|simpl; lia|]; intros v' Hv'; apply Hk;
    revert Hv'; rewrite u32_small by lia; done).
Qed.

Section NewPre.
Context (A A1 A2 : adj) (hdr : list Z) (p x base n : Z).
Context (HA : A = A1 ++ A2) (Hhdr : hdr = size A :: len A :: extra).
Context (H1 : Forall (fun q => q < p) (keys A1)).
Context (H2 : Forall (fun q => p < q) (keys A2)).
Context (Hbase : base = len hdr + 2 * len A).
Context (Hn : n = len (layout hdr A) + 3) (Hn32 : n < W32).

Lemma new_pre_facts :
  2 <= len hdr <= 3 /\ len hdr = 2 + len extra /\ 0 <= size A1 /\ 0 <= size A2 /\
  size A = size A1 + size A2 /\ len A = len A1 + len A2 /\ n = base + size A + 3.
Proof.
  destruct (extra_length _ _ _ _ Hextra) as [_ Hex]. pose proof (length_layout hdr A).
  pose proof (size_nonneg A1). pose proof (size_nonneg A2). pose proof (size_app A1 A2).
  subst A hdr. len_lia.
Qed.

Lemma new_pre_layout : layout hdr A = hdr ++ table base (A1 ++ A2) ++ body A.
Proof. by rewrite <- HA, Hbase. Qed.

Lemma new_pre_header_spec :
  wp (new_pre_header junk ent (layout hdr A))
     (filled (size A + 1 :: len A + 1 :: extra') n).
Proof.
  pose proof new_pre_facts. unfold new_pre_header. rewrite <- Hn, new_pre_layout.
  eapply wp_get; [by subst hdr|]. eapply wp_get; [by subst hdr|].
  eapply wp_emit; [apply filled_new; lia|done|simpl; lia|]. intros v1 Hv1.
  eapply wp_emit; [exact Hv1|done|simpl; lia|]. intros v2 Hv2. simpl in Hv2.
  revert Hv2. wsimp. intros Hv2. apply wp_ret.
  by eapply count_entity_spec; [exact Hhdr|exact Hv2|lia|].
Qed.

(** The offset at which the new id goes. *)
Lemma offset_old_spec post :
  wp (if 0 + len A1 =? len A then Some ((len hdr ⊞ (2 ⊠ len A)) ⊞ size A)
      else arr_get (hdr ++ table base (A1 ++ A2) ++ post) (off_ix (len hdr) (0 + len A1)))
     (fun o => o = base + size A1).
Proof.
  pose proof new_pre_facts. destruct A2 as [|[q l] A2'].
  - replace (0 + len A1 =? len A) with true by (symmetry; apply Z.eqb_eq; len_lia).
    cbn [wp]. wlen. rewrite size_nil in *. lia.
  - replace (0 + len A1 =? len A) with false by (symmetry; apply Z.eqb_neq; len_lia).
    apply wp_eq. apply get_table_off. rewrite off_ix_small by len_lia. len_lia.
Qed.

Lemma new_pre_table_spec hdr' vs :
  len hdr' = len hdr -> filled hdr' n vs ->
  wp (new_pre_table (len hdr) (layout hdr A) (size A) (len A) p vs)
     (fun '(old, j, vs') => old = base + size A1 /\ j = len hdr + 2 * (len A + 1) /\
        filled (hdr' ++ table (base + 2) (A1 ++ (p, [x]) :: A2)) n vs').
Proof.
  intros Hh' Hf. pose proof new_pre_facts. rewrite new_pre_layout.
  unfold new_pre_table. apply wp_bind. rewrite <- Hh' at 2.
  eapply wp_mono; [|eapply (table_loop_spec _ _ _ A1 A2 hdr); try exact Hf; try len_lia].
  2:{ eapply Forall_impl; [exact H1|]. simpl. intros. by apply Z.ltb_lt. }
  2:{ intros q Hq. destruct A2 as [|[q' l] A2']; [done|]. simpl in *. simplify_eq.
      apply Z.ltb_ge. apply Forall_inv in H2. lia. }
  intros [[i j] v4] (->&->&Hv4). pose proof (length_table (base + 2) A1).
  eapply wp_emit; [exact Hv4|len_lia|len_lia|]. intros v5 Hv5.
  apply wp_bind. eapply wp_mono; [|apply offset_old_spec].
  intros ? ->. eapply wp_emit; [exact Hv5|wlen; len_lia|len_lia|]. intros v6 Hv6.
  apply wp_bind. rewrite table_app, <- app_assoc, app_assoc.
  rewrite <- (app_nil_r A2) at 1.
  replace (len hdr' + 2 * len A1 ⊞ 2)
    with (len (((hdr' ++ table (base + 2) A1) ++ [p]) ++ [base + size A1 ⊞ 2]))
    by (wlen; len_lia).
  pose proof (length_table base A1).
  eapply wp_mono; [|eapply (table_loop_spec _ _ _ A2 []); try exact Hv6; try len_lia].
  2:{ by apply Forall_true. } 2: done.
  intros [[i j] v7] (_&->&Hv7). simpl. split; [done|]. split; [len_lia|].
  revert Hv7. wlen. rewrite <- !app_assoc, table_app. simpl.
  replace (base + size A1 + 2) with (base + 2 + size A1) by lia.
  by replace (base + size A1 + 3) with (base + 2 + size A1 + 1) by lia.
Qed.

Lemma new_pre_body_spec out j vs :
  len out = len hdr + 2 * (len A + 1) -> j = len out -> filled out n vs ->
  wp (new_pre_body (len hdr) (layout hdr A) (size A) (len A) x (base + size A1) j vs)
     (fun vs' => vs' = out ++ body (A1 ++ (p, [x]) :: A2)).
Proof.
  intros Ho -> Hf. pose proof new_pre_facts. pose proof (length_table base (A1 ++ A2)).
  rewrite new_pre_layout, HA at 1. unfold new_pre_body. wlen.
  rewrite body_app, app_assoc. apply wp_bind.
  replace (len hdr + 2 * len A) with (len (hdr ++ table base (A1 ++ A2))) by len_lia.
  eapply wp_mono; [|eapply (body_insert_loop_spec _ (body A1) (body A2)); try exact Hf;
    unfold size in *; len_lia].
  intros [[i j] v1] [-> [(Hb&->&Hv)|[Hb Hv]]];
    rewrite body_app, body_cons; cbn [snd app]; unfold size in *.
  - destruct (Z.eqb_spec (len (hdr ++ table base (A1 ++ A2)) + len (body A))
                (base + len (body A1))); [|rewrite Hb in *; len_lia].
    apply wp_ret. eapply wp_emit; [exact Hv|len_lia|rewrite Hb in *; len_lia|].
    intros v2 Hv2. rewrite Hb in *. rewrite app_assoc.
    eapply filled_full; [exact Hv2|]. len_lia.
  - assert (0 < len (body A2)) by (destruct (body A2); [done|len_lia]).
    destruct (Z.eqb_spec (len (hdr ++ table base (A1 ++ A2)) + len (body A))
                (base + len (body A1))); [len_lia|].
    eapply filled_full; [exact Hv|]. len_lia.
Qed.

(** A predicate that is not in the list yet. *)
Lemma insert_new_pre_spec :
  insert_new_pre (len hdr) junk ent (layout hdr A) p x =
  Some (layout (size A + 1 :: len A + 1 :: extra') (A1 ++ (p, [x]) :: A2)).
Proof.
  pose proof new_pre_facts. apply wp_eq. unfold insert_new_pre.
  destruct (extra_length _ _ _ _ Hextra) as [Hex _].
  eapply wp_get; [by subst hdr|]. eapply wp_get; [by subst hdr|].
  apply wp_bind. eapply wp_mono; [|apply new_pre_header_spec]. intros v1 Hv1.
  apply wp_bind. eapply wp_mono; [|eapply new_pre_table_spec, Hv1; len_lia].
  intros [[old j] v2] (->&->&Hv2).
  pose proof (length_table (base + 2) (A1 ++ (p, [x]) :: A2)).
  eapply wp_mono; [|eapply new_pre_body_spec, Hv2; len_lia].
  intros ? ->. unfold layout. rewrite <- app_assoc. f_equal. f_equal. f_equal. len_lia.
Qed.
End NewPre.

Section OldPre.
Context (A A1 A2 : adj) (hdr : list Z) (p x base n : Z) (l1 l2 : list Z).
Context (HA : A = A1 ++ (p, l1 ++ l2) :: A2) (Hhdr : hdr = size A :: len A :: extra).
Context (H1 : Forall (fun y => y < x) l1) (H2 : forall y, head l2 = Some y -> x <= y).
Context (Hbase : base = len hdr + 2 * len A).
Context (Hn : n = len (layout hdr A) + 1) (Hn32 : n < W32).

Lemma old_pre_facts :
  2 <= len hdr <= 3 /\ len hdr = 2 + len extra /\ 0 <= size A1 /\ 0 <= size A2 /\
  size A = size A1 + len l1 + len l2 + size A2 /\ len A = len A1 + 1 + len A2 /\
  n = base + size A + 1.
Proof.
  destruct (extra_length _ _ _ _ Hextra) as [_ Hex]. pose proof (length_layout hdr A).
  pose proof (size_nonneg A1). pose proof (size_nonneg A2).
  pose proof (size_app A1 ((p, l1 ++ l2) :: A2)). pose proof (size_cons (p, l1 ++ l2) A2).
  subst A hdr. cbn [snd] in *. len_lia.
Qed.

Lemma old_pre_layout :
  layout hdr A = hdr ++ table base (A1 ++ (p, l1 ++ l2) :: A2) ++ body A1 ++ l1 ++ l2 ++ body A2.
Proof.
  unfold layout. rewrite HA, body_app, body_cons, <- HA, Hbase. cbn [snd].
  by rewrite <- !app_assoc.
Qed.

(** Where the list of the predicate ends. *)
Lemma old_pre_right post :
  wp (if len A1 =? len A ⊟ 1 then Some ((len hdr ⊞ (2 ⊠ len A)) ⊞ size A)
      else arr_get (hdr ++ table base (A1 ++ (p, l1 ++ l2) :: A2) ++ post)
             (next_off_ix (len hdr) (len A1)))
     (fun r => r = base + size A1 + len l1 + len l2).
Proof.
  pose proof old_pre_facts. wlen. destruct A2 as [|[q l] A2'].
  - replace (len A1 =? len A - 1) with true by (symmetry; apply Z.eqb_eq; len_lia).
    cbn [wp]. rewrite size_nil in *. lia.
  - replace (len A1 =? len A - 1) with false by (symmetry; apply Z.eqb_neq; len_lia).
    apply wp_eq.
    replace (A1 ++ (p, l1 ++ l2) :: (q, l) :: A2')
      with ((A1 ++ [(p, l1 ++ l2)]) ++ (q, l) :: A2') by (by rewrite <- app_assoc).
    erewrite get_table_off; [|unfold next_off_ix; wlen; len_lia].
    f_equal. rewrite size_app, size_cons, size_nil. cbn [snd]. len_lia.
Qed.

Lemma insert_old_lists_spec out vs :
  len out = base + size A1 -> filled out n vs ->
  wp (insert_old_lists (len hdr) (layout hdr A) (size A) (len A) (len A1)
        (base + size A1) x vs)
     (fun vs' => vs' = out ++ l1 ++ x :: l2 ++ body A2).
Proof.
  intros Ho Hf. pose proof old_pre_facts.
  pose proof (length_table base (A1 ++ (p, l1 ++ l2) :: A2)).
  unfold insert_old_lists. rewrite old_pre_layout.
  apply wp_bind. eapply wp_mono; [|apply old_pre_right]. intros ? ->. wlen.
  rewrite <- Ho at 3.
  set (pre := hdr ++ table base (A1 ++ (p, l1 ++ l2) :: A2) ++ body A1).
  assert (len pre = base + size A1) as Hp by (unfold pre, size in *; len_lia).
  replace (hdr ++ table base (A1 ++ (p, l1 ++ l2) :: A2) ++ body A1 ++ l1 ++ l2 ++ body A2)
    with (pre ++ l1 ++ l2 ++ body A2) by (unfold pre; by rewrite <- !app_assoc).
  rewrite <- Hp at 2. apply wp_bind.
  eapply wp_mono; [|eapply (copy_while_lt_spec pre l1 l2); try exact Hf; try done; len_lia].
  intros [[i j] v1] (->&->&Hv1).
  eapply wp_emit; [exact Hv1|len_lia|len_lia|]. intros v2 Hv2. apply wp_bind.
  rewrite app_assoc, <- (app_nil_r (l2 ++ body A2)).
  replace (len pre + len l1) with (len (pre ++ l1)) by len_lia.
  replace (len out + len l1 ⊞ 1) with (len ((out ++ l1) ++ [x])) by (wlen; len_lia).
  unfold size in *.
  eapply wp_mono; [|eapply copy_rest_spec; try exact Hv2; len_lia].
  intros [[i j] v3] (_&_&Hv3). simpl. rewrite app_nil_r. rewrite <- !app_assoc in Hv3.
  eapply filled_full; [exact Hv3|]. len_lia.
Qed.

(** A predicate that already has a list. *)
Lemma insert_old_pre_spec :
  insert_old_pre (len hdr) junk ent (layout hdr A) (len A1) x =
  Some (layout (size A + 1 :: len A :: extra') (A1 ++ (p, l1 ++ x :: l2) :: A2)).
Proof.
  pose proof old_pre_facts. destruct (extra_length _ _ _ _ Hextra) as [Hex _].
  apply wp_eq. unfold insert_old_pre. rewrite <- Hn.
  eapply wp_get; [by subst hdr|]. eapply wp_get; [by subst hdr|].
  eapply wp_get.
  { rewrite old_pre_layout. apply get_table_off. rewrite off_ix_small by len_lia. len_lia. }
  apply wp_bind. rewrite old_pre_layout at 1. rewrite <- HA at 1.
  eapply wp_mono; [|eapply (old_pre_prefix_spec 1 _ _ _ Hextra A A1 A2 hdr p (l1 ++ l2)
    (l1 ++ x :: l2)); try rewrite length_new_array; try done; len_lia].
  rewrite length_new_array, Z2Nat.id by len_lia. intros v1 Hv1.
  pose proof (length_table base (A1 ++ (p, l1 ++ x :: l2) :: A2)).
  eapply wp_mono; [|eapply insert_old_lists_spec, Hv1; unfold size in *; len_lia].
  intros ? ->. unfold layout. rewrite body_app, body_cons, <- !app_assoc. cbn [snd].
  f_equal. f_equal; [f_equal; len_lia|]. by rewrite <- !app_assoc.
Qed.
End OldPre.
End Insert.
