(* ===== verification/ValueRemove.v ===== *)
(** * Removing from one value list

    [KVstore::updateRemove_s2values] and [updateRemove_o2values]
    (KVstore/KVstore.cpp), from the old value list [_tmp] with more than one
    triple to the new one, on the layouts of [ValueUpdate]. *)

From S2P Require Import Prelude Util ValueList ValueUpdate.

Section Code.
Context (h : Z) (junk : nat -> Z).

(** The number of ids the predicate at [_position] has: [_oidlen_sp],
    [_sidlen_op]. *)
Definition list_length (_tmp : list Z) (t0 npre _position : Z) : option Z :=
  start ← arr_get _tmp (off_ix h _position);
  if _position =? npre ⊟ 1 then Some (((h ⊞ (2 ⊠ npre)) ⊞ t0) ⊟ start)
  else stop ← arr_get _tmp (next_off_ix h _position); Some (stop ⊟ start).

(** [for (...; i < last; i += 2, j += 2)]: the entries after the removed one,
    their offsets lowered by 3. *)
Definition table_tail_loop (_tmp : list Z) (last : Z) (s : Z * Z * list Z)
    : option (Z * Z * list Z) :=
  while (S (length _tmp))
    (fun '(i, j, vs) => Some (i <? last))
    (fun '(i, j, vs) =>
       p ← arr_get _tmp i;
       vs ← arr_set vs j p;
       o ← arr_get _tmp (i ⊞ 1);
       vs ← arr_set vs (j ⊞ 1) (o ⊟ 3);
       Some (i ⊞ 2, j ⊞ 2, vs)) s.

(** [for (; i < last; i++, j++)], where the cell [skip] is left out by
    [j--; continue]. *)
Definition body_skip_loop (_tmp : list Z) (last skip : Z) (s : Z * Z * list Z)
    : option (Z * Z * list Z) :=
  while (S (length _tmp))
    (fun '(i, j, vs) => Some (i <? last))
    (fun '(i, j, vs) =>
       if i =? skip then Some (i ⊞ 1, (j ⊟ 1) ⊞ 1, vs)
       else x ← arr_get _tmp i; vs ← arr_set vs j x; Some (i ⊞ 1, j ⊞ 1, vs)) s.

(** "preID doesn't exist after removal": the header and the predicate table,
    then the id lists. *)
Definition remove_last_table (ent : option bool) (_tmp : list Z) (npre _position : Z)
    (vs : list Z) : option (Z * Z * list Z) :=
  vs ← arr_copy vs _tmp (key_ix h _position);
  vs ← bump_cell 0 (-1) vs;
  vs ← bump_cell 1 (-1) vs;
  vs ← bump_entity ent (-1) vs;
  '(_, vs) ← bump_offsets h (-2) _position 0 vs;
  table_tail_loop _tmp (h ⊞ (2 ⊠ npre))
    ((h + 2) ⊞ (2 ⊠ _position), key_ix h _position, vs).

Definition remove_last_id (ent : option bool) (_tmp : list Z) (_position : Z)
    : option (list Z) :=
  t0 ← arr_get _tmp 0;
  npre ← arr_get _tmp 1;
  '(i, j, vs) ← remove_last_table ent _tmp npre _position (new_array junk (len _tmp - 3));
  skip ← arr_get _tmp (off_ix h _position);
  '(_, _, vs) ← body_skip_loop _tmp ((h ⊞ (2 ⊠ npre)) ⊞ t0) skip (i, j, vs);
  Some vs.

(** "preID still exists after removal". *)
Definition remove_one_id (ent : option bool) (_tmp : list Z) (_position _id : Z)
    : option (list Z) :=
  t0 ← arr_get _tmp 0;
  npre ← arr_get _tmp 1;
  start ← arr_get _tmp (off_ix h _position);
  vs ← old_pre_prefix h (-1) ent _tmp (new_array junk (len _tmp - 1)) npre _position start;
  let last := (h ⊞ (2 ⊠ npre)) ⊞ t0 in
  '(i, j, vs) ← copy_while_lt _tmp last _id (start, start, vs);
  '(_, _, vs) ← copy_rest _tmp last (i ⊞ 1, j, vs);
  Some vs.

(** "subID still exists after removal". *)
Definition update_remove (ent : option bool) (_tmp : list Z) (_pre_id _id : Z)
    : option (list Z) :=
  t0 ← arr_get _tmp 0;
  npre ← arr_get _tmp 1;
  _position ← binarySearch _pre_id (drop (Z.to_nat h) _tmp) npre 2;
  _idlen ← list_length _tmp t0 npre _position;
  if _idlen =? 1 then remove_last_id ent _tmp _position
  else remove_one_id ent _tmp _position _id.
End Code.

(** ** The loops *)

Lemma table_tail_loop_spec pre off A post last out n vs :
  0 <= off - 3 -> last = len pre + 2 * len A -> last < W32 -> off + size A < W32 ->
  len out + 2 * len A <= n -> n < W32 -> filled out n vs ->
  wp (table_tail_loop (pre ++ table off A ++ post) last (len pre, len out, vs))
     (fun '(i, j, vs') => i = last /\ j = len out + 2 * len A /\
                          filled (out ++ table (off - 3) A) n vs').
Proof.
  intros Hoff Hl Hl32 Hs Hn Hn32 Hf. unfold table_tail_loop.
  eapply (wp_while (fun '(i, j, vs') => exists Aa Ab, A = Aa ++ Ab /\
            i = len pre + 2 * len Aa /\ j = len out + 2 * len Aa /\
            filled (out ++ table (off - 3) Aa) n vs')
          (fun '(i, _, _) => Z.to_nat (last - i))).
  - exists [], A. rewrite app_nil_r. simpl. split_and!; [done|lia..|done].
  - pose proof (length_table off A). len_lia.
  - intros [[i j] vs'] (Aa&Ab&->&->&->&Hf'). cbn [wp]. rewrite size_app in Hs.
    pose proof (length_table (off - 3) Aa). pose proof (size_nonneg Aa).
    pose proof (size_nonneg Ab).
    destruct (Z.ltb_spec (len pre + 2 * len Aa) last); cycle 1.
    { destruct Ab; [|len_lia]. rewrite app_nil_r. split_and!; [len_lia..|done]. }
    destruct Ab as [|[p l] Ab]; [len_lia|]. rewrite size_cons in *.
    eapply wp_get; [by apply get_table_key|].
    eapply wp_emit; [exact Hf'|len_lia|len_lia|]. intros v1 Hv1.
    eapply wp_get; [apply get_table_off; wlen; len_lia|].
    eapply wp_emit; [exact Hv1|wlen; len_lia|len_lia|]. intros v2 Hv2. simpl. wlen.
    split; [|len_lia]. exists (Aa ++ [(p, l)]), Ab. rewrite <- !app_assoc in *.
    split_and!; [done|len_lia..|]. rewrite table_app. simpl.
    replace (off - 3 + size Aa) with (off + size Aa - 3) by lia.
    revert Hv2. cbn [snd] in *. by wlen.
Qed.

Lemma body_skip_loop_spec pre b1 x b2 last skip out n vs :
  skip = len pre + len b1 -> last = skip + 1 + len b2 -> last < W32 ->
  0 < len out -> len out + len b1 + len b2 <= n -> n < W32 -> filled out n vs ->
  wp (body_skip_loop (pre ++ b1 ++ x :: b2) last skip (len pre, len out, vs))
     (fun '(_, _, vs') => filled (out ++ b1 ++ b2) n vs').
Proof.
  intros Hskip Hlast Hr32 Ho Hn Hn32 Hf. unfold body_skip_loop.
  eapply (wp_while (fun '(i, j, vs') =>
            (exists a1 a2, b1 = a1 ++ a2 /\ i = len pre + len a1 /\
               j = len out + len a1 /\ filled (out ++ a1) n vs') \/
            (exists a1 a2, b2 = a1 ++ a2 /\ i = skip + 1 + len a1 /\
               j = len out + len b1 + len a1 /\ filled (out ++ b1 ++ a1) n vs'))
          (fun '(i, _, _) => Z.to_nat (last - i))).
  - left. exists [], b1. rewrite app_nil_r. simpl. split_and!; [done|lia..|done].
  - len_lia.
  - intros [[i j] vs'] [(a1&a2&->&->&->&Hf')|(a1&a2&->&->&->&Hf')]; cbn [wp].
    + destruct (Z.ltb_spec (len pre + len a1) last); [|len_lia].
      destruct (Z.eqb_spec (len pre + len a1) skip).
      * destruct a2; [|len_lia]. rewrite app_nil_r in *. cbn [wp]. wlen.
        split; [|len_lia]. right. exists [], b2. rewrite app_nil_r.
        split_and!; [done|len_lia..|done].
      * destruct a2 as [|y a2]; [len_lia|].
        eapply wp_get. { rewrite <- app_assoc, app_assoc. apply arr_get_app_mid. len_lia. }
        eapply wp_emit; [done|len_lia|len_lia|]. intros v2 Hv2. simpl. wlen.
        split; [|len_lia]. left. exists (a1 ++ [y]), a2. rewrite <- !app_assoc in *.
        split_and!; [done|len_lia..|done].
    + destruct (Z.ltb_spec (skip + 1 + len a1) last); cycle 1.
      { destruct a2; [|len_lia]. by rewrite app_nil_r. }
      destruct (Z.eqb_spec (skip + 1 + len a1) skip); [len_lia|].
      destruct a2 as [|y a2]; [len_lia|].
      eapply wp_get.
      { apply (arr_get_at (pre ++ b1 ++ x :: a1) y a2); [by rewrite <- !app_assoc|len_lia]. }
      eapply wp_emit; [done|len_lia|len_lia|]. intros v2 Hv2. simpl. wlen.
      split; [|len_lia]. right. exists (a1 ++ [y]), a2. rewrite <- !app_assoc in *.
      split_and!; [done|len_lia..|done].
Qed.

(** ** Removing *)

Section Remove.
Context (junk : nat -> Z) (ent : option bool) (extra extra' : list Z).
Context (Hextra : extra_change (-1) ent extra extra').
Context (A A1 A2 : adj) (hdr : list Z) (p x base : Z) (l1 l2 : list Z).
Context (HA : A = A1 ++ (p, l1 ++ x :: l2) :: A2) (Hhdr : hdr = size A :: len A :: extra).
Context (Hbase : base = len hdr + 2 * len A).
Context (Hn32 : len (layout hdr A) < W32).

Lemma remove_facts :
  2 <= len hdr <= 3 /\ len hdr = 2 + len extra /\ 0 <= size A1 /\ 0 <= size A2 /\
  size A = size A1 + len l1 + 1 + len l2 + size A2 /\ len A = len A1 + 1 + len A2 /\
  len (layout hdr A) = base + size A.
Proof.
  destruct (extra_length _ _ _ _ Hextra) as [_ Hex]. pose proof (length_layout hdr A).
  pose proof (size_nonneg A1). pose proof (size_nonneg A2).
  pose proof (size_app A1 ((p, l1 ++ x :: l2) :: A2)).
  pose proof (size_cons (p, l1 ++ x :: l2) A2).
  subst A hdr. cbn [snd] in *. len_lia.
Qed.

Lemma remove_layout :
  layout hdr A =
  hdr ++ table base (A1 ++ (p, l1 ++ x :: l2) :: A2) ++ body A1 ++ l1 ++ x :: l2 ++ body A2.
Proof.
  unfold layout. rewrite HA, body_app, body_cons, <- HA, Hbase. cbn [snd].
  by rewrite <- !app_assoc.
Qed.

Lemma remove_start :
  arr_get (layout hdr A) (off_ix (len hdr) (len A1)) = Some (base + size A1).
Proof.
  pose proof remove_facts. rewrite remove_layout. apply get_table_off.
  rewrite off_ix_small by len_lia. len_lia.
Qed.

Lemma list_length_spec :
  list_length (len hdr) (layout hdr A) (size A) (len A) (len A1) = Some (len l1 + 1 + len l2).
Proof.
  pose proof remove_facts. pose proof remove_layout as Hlay.
  unfold list_length. rewrite remove_start. cbn [mbind option_bind]. wlen. destruct A2 as [|[q l] A2'].
  - replace (len A1 =? len A - 1) with true by (symmetry; apply Z.eqb_eq; len_lia).
    f_equal. rewrite size_nil in *. len_lia.
  - replace (len A1 =? len A - 1) with false by (symmetry; apply Z.eqb_neq; len_lia).
    rewrite Hlay.
    replace (A1 ++ (p, l1 ++ x :: l2) :: (q, l) :: A2')
      with ((A1 ++ [(p, l1 ++ x :: l2)]) ++ (q, l) :: A2') by (by rewrite <- app_assoc).
    erewrite get_table_off; [|unfold next_off_ix; wlen; len_lia]. cbn [mbind option_bind].
    rewrite size_app, (size_cons (p, _)), size_nil. cbn [snd]. rewrite size_cons in *.
    f_equal. wlen. len_lia.
Qed.

(** An id whose predicate keeps others. *)
Lemma remove_one_id_spec :
  Forall (fun y => y < x) l1 ->
  remove_one_id (len hdr) junk ent (layout hdr A) (len A1) x =
  Some (layout (size A - 1 :: len A :: extra') (A1 ++ (p, l1 ++ l2) :: A2)).
Proof.
  intros Hl1. pose proof remove_facts. destruct (extra_length _ _ _ _ Hextra) as [Hex _].
  apply wp_eq. unfold remove_one_id.
  eapply wp_get; [by subst hdr|]. eapply wp_get; [by subst hdr|].
  eapply wp_get; [apply remove_start|]. apply wp_bind.
  rewrite remove_layout at 1. rewrite <- HA at 1.
  eapply wp_mono; [|eapply (old_pre_prefix_spec (-1) _ _ _ Hextra A A1 A2 hdr p
    (l1 ++ x :: l2) (l1 ++ l2)); try rewrite length_new_array; try done; len_lia].
  rewrite length_new_array, Z2Nat.id by len_lia. intros v1 Hv1. apply wp_bind.
  pose proof (length_table base (A1 ++ (p, l1 ++ l2) :: A2)).
  pose proof (length_table base (A1 ++ (p, l1 ++ x :: l2) :: A2)). wlen.
  remember ((size A + -1 :: len A :: extra') ++ table base (A1 ++ (p, l1 ++ l2) :: A2) ++ body A1)
    as out eqn:Hout.
  assert (len out = base + size A1) as Ho by (subst out; unfold size in *; len_lia).
  rewrite remove_layout.
  set (pre := hdr ++ table base (A1 ++ (p, l1 ++ x :: l2) :: A2) ++ body A1).
  assert (len pre = base + size A1) as Hp by (unfold pre, size in *; len_lia).
  replace (hdr ++ table base (A1 ++ (p, l1 ++ x :: l2) :: A2) ++ body A1 ++ l1 ++ x :: l2 ++ body A2)
    with (pre ++ l1 ++ (x :: l2 ++ body A2) ++ []) by (unfold pre; by rewrite app_nil_r, <- !app_assoc).
  rewrite <- Ho at 2. rewrite <- Hp at 1. unfold size in *.
  eapply wp_mono; [|eapply (copy_while_lt_spec pre l1 (x :: l2 ++ body A2) []); try exact Hv1;
    try done; try len_lia].
  2:{ intros y. simpl. intros [= ->]. lia. }
  intros [[i j] v2] (->&->&Hv2). apply wp_bind.
  replace (pre ++ l1 ++ (x :: l2 ++ body A2) ++ [])
    with ((pre ++ l1 ++ [x]) ++ (l2 ++ body A2) ++ []) by (by rewrite !app_nil_r, <- !app_assoc).
  replace (len pre + len l1 ⊞ 1) with (len (pre ++ l1 ++ [x])) by (wlen; len_lia).
  replace (len out + len l1) with (len (out ++ l1)) by len_lia.
  eapply wp_mono; [|eapply copy_rest_spec; try exact Hv2; len_lia].
  intros [[i j] v3] (_&_&Hv3). simpl.
  assert (v3 = (out ++ l1) ++ l2 ++ body A2) as -> by (eapply filled_full; [exact Hv3|len_lia]).
  subst out. unfold layout. rewrite body_app, body_cons, <- !app_assoc. cbn [snd].
  f_equal. f_equal; [f_equal; len_lia|]. by rewrite <- !app_assoc.
Qed.

(** The header and the predicate table once the entry of [p] is gone. *)
Lemma remove_last_table_spec vs n :
  l1 = [] -> l2 = [] -> n = len (layout hdr A) - 3 -> len vs = n ->
  wp (remove_last_table (len hdr) ent (layout hdr A) (len A) (len A1) vs)
     (fun '(i, j, vs') => i = base /\ j = base - 2 /\
        filled ((size A - 1 :: len A - 1 :: extra') ++ table (base - 2) (A1 ++ A2)) n vs').
Proof.
  intros E1 E2 Hn Hvs. pose proof remove_facts. pose proof remove_layout as Hlay.
  destruct (extra_length _ _ _ _ Hextra) as [Hex _].
  rewrite E1, E2 in Hlay. subst l1 l2. unfold remove_last_table.
  rewrite Hlay, key_ix_small by len_lia. cbn [app].
  pose proof (length_table base A1). pose proof (length_table (base - 2) A1).
  rewrite table_app. cbn [table].
  eapply (wp_memcpy _ _ (hdr ++ table base A1)); [by rewrite <- !app_assoc|len_lia..|].
  intros v1 Hv1. rewrite Hvs in Hv1. rewrite Hhdr in Hv1 at 1.
  eapply (wp_bump_cell []); [exact Hv1|done|len_lia|]. intros v2 Hv2.
  eapply (wp_bump_cell [size A + -1]); [exact Hv2|done|len_lia|]. intros v3 Hv3.
  eapply bump_entity_spec; [exact Hextra|exact Hv3|]. intros v4 Hv4. apply wp_bind.
  eapply wp_mono; [|eapply (bump_offsets_spec _ (-2) (size A + -1 :: len A + -1 :: extra')
    base A1 []); rewrite ?app_nil_r; try exact Hv4; len_lia].
  intros [i v5] Hv5. rewrite app_nil_r in Hv5. wlen.
  replace (len hdr + 2 + 2 * len A1)
    with (len (hdr ++ table base A1 ++ [p; base + size A1])) by len_lia.
  replace (len hdr + 2 * len A1)
    with (len ((size A + -1 :: len A + -1 :: extra') ++ table (base + -2) A1))
    by (pose proof (length_table (base + -2) A1); len_lia).
  replace (hdr ++ (table base A1 ++ p :: base + size A1 :: table (base + size A1 + len [x]) A2) ++
           body A1 ++ x :: body A2)
    with ((hdr ++ table base A1 ++ [p; base + size A1]) ++
          table (base + size A1 + len [x]) A2 ++ body A1 ++ x :: body A2)
    by (by rewrite <- !app_assoc).
  pose proof (length_table (base + -2) A1).
  eapply wp_mono; [|eapply table_tail_loop_spec; try exact Hv5; len_lia].
  intros [[i' j] v6] (->&->&Hv6). split_and!; [len_lia..|].
  rewrite <- !app_assoc in *. rewrite table_app.
  replace (base - 2 + size A1) with (base + size A1 + len [x] - 3) by len_lia. exact Hv6.
Qed.

(** The only id of its predicate. *)
Lemma remove_last_id_spec :
  l1 = [] -> l2 = [] ->
  remove_last_id (len hdr) junk ent (layout hdr A) (len A1) =
  Some (layout (size A - 1 :: len A - 1 :: extra') (A1 ++ A2)).
Proof.
  intros E1 E2. pose proof remove_facts. destruct (extra_length _ _ _ _ Hextra) as [Hex _].
  apply wp_eq. unfold remove_last_id.
  eapply wp_get; [by subst hdr|]. eapply wp_get; [by subst hdr|].
  apply wp_bind. eapply wp_mono; [|eapply (remove_last_table_spec _ _ E1 E2 eq_refl)].
  2:{ rewrite length_new_array. subst l1 l2. len_lia. }
  intros [[i j] v1] (->&->&Hv1). eapply wp_get; [apply remove_start|]. apply wp_bind.
  pose proof (length_table base A). pose proof (length_table (base - 2) (A1 ++ A2)).
  rewrite remove_layout, <- HA, E1, E2. cbn [app]. wlen. rewrite app_assoc.
  replace base with (len (hdr ++ table base A)) at 3 by len_lia.
  remember ((size A - 1 :: len A - 1 :: extra') ++ table (base - 2) (A1 ++ A2)) as out eqn:Ho.
  assert (len out = base - 2) as Hlo by (subst out; subst l1 l2; len_lia).
  rewrite <- Hlo. unfold size in *. subst l1 l2.
  eapply wp_mono; [|eapply body_skip_loop_spec; try exact Hv1; len_lia].
  intros [[i j] v2] Hv2. cbn [wp]. unfold layout. rewrite body_app.
  erewrite (filled_full _ _ _ Hv2) by len_lia. subst out. rewrite <- app_assoc.
  f_equal. f_equal. f_equal. len_lia.
Qed.
End Remove.
