(* ===== verification/ValueSpec.v ===== *)
(** * Value lists of subjects and objects: the updates are correct

    The four updates of KVstore/KVstore.cpp on one value list, as instances of
    the code of [ValueUpdate] and [ValueRemove], and their correctness: on the
    encoding of a well-formed adjacency they compute the encoding of the
    adjacency with the edge inserted or removed. *)

From S2P Require Import Prelude Util ValueList Adjacency ValueUpdate ValueRemove.

(** ** The four instances *)

(** [KVstore::updateInsert_s2values], "subID doesn't exist" and "subID exists". *)
Definition s2_insert_new (junk : nat -> Z) (_pre_id _obj_id : Z) : option (list Z) :=
  let vs := new_array junk 6 in
  vs ← arr_set vs 0 1;
  vs ← arr_set vs 1 1;
  vs ← arr_set vs 2 (if is_entity_ele _obj_id then 1 else 0);
  vs ← arr_set vs 3 _pre_id;
  vs ← arr_set vs 4 5;
  arr_set vs 5 _obj_id.

Definition s2_insert (junk : nat -> Z) (_tmp : list Z) (_pre_id _obj_id : Z) : option (list Z) :=
  update_insert 3 junk (Some (is_entity_ele _obj_id)) _tmp _pre_id _obj_id.

(** [KVstore::updateInsert_o2values], "objID doesn't exist" and "objID exists". *)
Definition o2_insert_new (junk : nat -> Z) (_pre_id _sub_id : Z) : option (list Z) :=
  let vs := new_array junk 5 in
  vs ← arr_set vs 0 1;
  vs ← arr_set vs 1 1;
  vs ← arr_set vs 2 _pre_id;
  vs ← arr_set vs 3 4;
  arr_set vs 4 _sub_id.

Definition o2_insert (junk : nat -> Z) (_tmp : list Z) (_pre_id _sub_id : Z) : option (list Z) :=
  update_insert 2 junk None _tmp _pre_id _sub_id.

(** [KVstore::updateRemove_s2values], [KVstore::updateRemove_o2values] when
    more than one triple is left. *)
Definition s2_remove (junk : nat -> Z) (_tmp : list Z) (_pre_id _obj_id : Z) : option (list Z) :=
  update_remove 3 junk (Some (is_entity_ele _obj_id)) _tmp _pre_id _obj_id.

Definition o2_remove (junk : nat -> Z) (_tmp : list Z) (_pre_id _sub_id : Z) : option (list Z) :=
  update_remove 2 junk None _tmp _pre_id _sub_id.

(** ** Counters *)

Lemma entities_app A B : entities (A ++ B) = entities A + entities B.
Proof. unfold entities. rewrite body_app, filter_app, length_app. lia. Qed.

Definition is_ent (x : Z) : Z := if is_entity_ele x then 1 else 0.

Lemma entities_cons p l A :
  entities ((p, l) :: A) = len (filter (fun x => is_entity_ele x = true) l) + entities A.
Proof. unfold entities. rewrite body_cons, filter_app, length_app. simpl. lia. Qed.

Lemma entities_mid l1 x l2 :
  len (filter (fun x => is_entity_ele x = true) (l1 ++ x :: l2)) =
  len (filter (fun x => is_entity_ele x = true) (l1 ++ l2)) + is_ent x.
Proof.
  rewrite !filter_app, filter_cons. unfold is_ent.
  destruct (is_entity_ele x); simpl; rewrite ?decide_True, ?decide_False by done; len_lia.
Qed.

Lemma entities_bounds A : 0 <= entities A <= size A.
Proof. unfold entities, size. pose proof (length_filter (fun x => is_entity_ele x = true) (body A)). lia. Qed.

(** ** The search in the predicate table *)

Section Search.
Context (hdr : list Z) (A : adj) (h : Z).
Context (Hh : h = len hdr) (Hwf : wf A) (Hlen : len A < W32).

Lemma drop_layout : drop (Z.to_nat h) (layout hdr A) = table (len hdr + 2 * len A) A ++ body A.
Proof. subst h. unfold layout. by rewrite Nat2Z.id, drop_app_length. Qed.

Lemma search_present A1 p l A2 : A = A1 ++ (p, l) :: A2 ->
  binarySearch p (drop (Z.to_nat h) (layout hdr A)) (len A) 2 = Some (len A1).
Proof.
  intros HA. rewrite drop_layout, <- (length_keys A). apply binarySearch_found.
  - apply Hwf.
  - intros k Hk. apply table_key_cell. by rewrite <- length_keys.
  - by rewrite length_keys.
  - rewrite HA, keys_app. simpl. apply list_lookup_middle. by rewrite length_keys.
Qed.

Lemma search_missing p : p ∉ keys A -> A <> [] ->
  binarySearch p (drop (Z.to_nat h) (layout hdr A)) (len A) 2 = Some INVALID.
Proof.
  intros Hp Hne. rewrite drop_layout, <- (length_keys A). apply binarySearch_missing; [apply Hwf| | |done].
  - intros k Hk. apply table_key_cell. by rewrite <- length_keys.
  - rewrite length_keys. destruct A; [done|]. len_lia.
Qed.
End Search.

(** ** The updates, for both layouts *)

Lemma layout_count t n n' extra A :
  n = n' -> Some (layout (t :: n :: extra) A) = Some (layout (t :: n' :: extra) A).
Proof. by intros ->. Qed.

Lemma update_insert_layout junk ent extra extra' hdr A p x :
  extra_change 1 ent extra extra' -> hdr = size A :: len A :: extra ->
  wf A -> A <> [] -> (p, x) ∉ pairs A -> len (layout hdr A) + 3 < W32 ->
  update_insert (len hdr) junk ent (layout hdr A) p x =
  Some (layout (size A + 1 :: len (adj_insert p x A) :: extra') (adj_insert p x A)).
Proof.
  intros Hex Hhdr Hwf Hne Hn Hlen. pose proof (length_layout hdr A). pose proof (size_nonneg A).
  unfold update_insert.
  assert (arr_get (layout hdr A) 1 = Some (len A)) as -> by (by subst hdr). cbn [mbind option_bind].
  destruct (decide (p ∈ keys A)) as [Hp|Hp].
  - destruct (adj_present p A Hwf Hp) as (A1&l&A2&HA&Hf&Hi&_). rewrite Hi.
    erewrite search_present; [|done|done|len_lia|exact HA]. cbn [mbind option_bind].
    replace (len A1 =? INVALID) with false
      by (symmetry; apply Z.eqb_neq; unfold INVALID; subst A; len_lia).
    assert (wf_entry (p, l)) as [_ _ Hinc _].
    { destruct Hwf as [_ He]. rewrite Forall_forall in He. apply He. subst A. set_solver. }
    destruct (insert_sorted_split x l) as (l1&l2&Hl&->&H1&H2); [done| |].
    { intros Hx. apply Hn, elem_of_pairs_find; eauto. }
    subst l. erewrite insert_old_pre_spec; try done; [|len_lia].
    apply layout_count. subst A. len_lia.
  - destruct (adj_missing p x A Hwf Hp) as (A1&A2&HA&->&H1&H2).
    erewrite search_missing; [|done|done|len_lia|done..]. cbn [mbind option_bind]. rewrite Z.eqb_refl.
    erewrite insert_new_pre_spec; try done. apply layout_count. subst A. len_lia.
Qed.

Lemma update_remove_layout junk ent extra extra' hdr A p x :
  extra_change (-1) ent extra extra' -> hdr = size A :: len A :: extra ->
  wf A -> (p, x) ∈ pairs A -> len (layout hdr A) < W32 ->
  update_remove (len hdr) junk ent (layout hdr A) p x =
  Some (layout (size A - 1 :: len (adj_remove p x A) :: extra') (adj_remove p x A)).
Proof.
  intros Hex Hhdr Hwf Hn Hlen. pose proof (length_layout hdr A). pose proof (size_nonneg A).
  unfold update_remove.
  assert (arr_get (layout hdr A) 0 = Some (size A)) as -> by (by subst hdr). cbn [mbind option_bind].
  assert (arr_get (layout hdr A) 1 = Some (len A)) as -> by (by subst hdr). cbn [mbind option_bind].
  apply elem_of_pairs_find in Hn as (l&Hf&Hx); [|done].
  assert (p ∈ keys A) as Hp. { destruct (decide (p ∈ keys A)); [done|]. apply adj_find_None in n. congruence. }
  destruct (adj_present p A Hwf Hp) as (A1&l'&A2&HA&Hf'&_&Hr). rewrite Hr. simplify_eq.
  erewrite search_present; [|done|done|len_lia|done]. cbn [mbind option_bind].
  assert (wf_entry (p, l)) as [_ _ Hinc _].
  { destruct Hwf as [_ He]. rewrite Forall_forall in He. apply He. set_solver. }
  destruct (increasing_split x l Hinc Hx) as (l1&l2&->&->&H1&H2).
  erewrite list_length_spec; try done. cbn [mbind option_bind].
  destruct (Z.eqb_spec (len l1 + 1 + len l2) 1) as [E|E].
  - destruct l1; [|len_lia]. destruct l2; [|len_lia].
    erewrite remove_last_id_spec; try done. apply layout_count. cbn [app]. len_lia.
  - erewrite remove_one_id_spec; try done.
    destruct (l1 ++ l2) eqn:El; [destruct l1, l2; simpl in *; try done; lia|].
    apply layout_count. len_lia.
Qed.

(** ** Encodings *)

Lemma size_adj_insert A p x : wf A -> (p, x) ∉ pairs A ->
  size (adj_insert p x A) = size A + 1 /\
  entities (adj_insert p x A) = entities A + is_ent x.
Proof.
  intros Hwf Hn. destruct (decide (p ∈ keys A)) as [Hp|Hp].
  - destruct (adj_present p A Hwf Hp) as (A1&l&A2&->&Hf&Hi&_). rewrite Hi.
    assert (wf_entry (p, l)) as [_ _ Hinc _].
    { destruct Hwf as [_ He]. rewrite Forall_forall in He. apply He. set_solver. }
    destruct (insert_sorted_split x l) as (l1&l2&->&->&_&_); [done| |].
    { intros Hx. apply Hn, elem_of_pairs_find; eauto. }
    rewrite !size_app, !size_cons, !entities_app, !entities_cons, entities_mid.
    cbn [snd]. len_lia.
  - destruct (adj_missing p x A Hwf Hp) as (A1&A2&->&->&_&_).
    rewrite !size_app, !size_cons, !entities_app, !entities_cons.
    pose proof (entities_mid [] x []) as Hm. cbn [app snd] in *. rewrite Hm. len_lia.
Qed.

Lemma size_adj_remove A p x : wf A -> (p, x) ∈ pairs A ->
  size (adj_remove p x A) = size A - 1 /\
  entities (adj_remove p x A) = entities A - is_ent x.
Proof.
  intros Hwf Hn. apply elem_of_pairs_find in Hn as (l&Hf&Hx); [|done].
  assert (p ∈ keys A) as Hp. { destruct (decide (p ∈ keys A)); [done|]. apply adj_find_None in n. congruence. }
  destruct (adj_present p A Hwf Hp) as (A1&l'&A2&HA&Hf'&_&Hr). rewrite Hr. simplify_eq.
  assert (wf_entry (p, l)) as [_ _ Hinc _].
  { destruct Hwf as [_ He]. rewrite Forall_forall in He. apply He. set_solver. }
  destruct (increasing_split x l Hinc Hx) as (l1&l2&->&->&_&_).
  rewrite !size_app, !entities_app, !size_cons, !entities_cons, entities_mid. cbn [snd].
  destruct (l1 ++ l2) eqn:El.
  - apply app_nil in El as [-> ->]. cbn. lia.
  - rewrite !size_cons, !entities_cons, <- El. cbn [snd]. len_lia.
Qed.

Section Encode.
Context (junk : nat -> Z).

Lemma s2_insert_encode A p x :
  wf A -> A <> [] -> (p, x) ∉ pairs A -> len (encode_s A) + 3 < W32 ->
  s2_insert junk (encode_s A) p x = Some (encode_s (adj_insert p x A)).
Proof.
  intros Hwf Hne Hn Hlen. unfold s2_insert, encode_s in *.
  destruct (size_adj_insert A p x Hwf Hn) as [-> ->]. unfold is_ent.
  pose proof (entities_bounds A). rewrite length_layout in Hlen.
  apply (update_insert_layout junk _ [entities A]); try done.
  - constructor; [len_lia|]. destruct (is_entity_ele x); len_lia.
  - rewrite length_layout. lia.
Qed.

Lemma o2_insert_encode A p x :
  wf A -> A <> [] -> (p, x) ∉ pairs A -> len (encode_o A) + 3 < W32 ->
  o2_insert junk (encode_o A) p x = Some (encode_o (adj_insert p x A)).
Proof.
  intros Hwf Hne Hn Hlen. unfold o2_insert, encode_o in *.
  destruct (size_adj_insert A p x Hwf Hn) as [-> _].
  by apply (update_insert_layout junk _ []); [constructor|..].
Qed.

Lemma s2_remove_encode A p x :
  wf A -> (p, x) ∈ pairs A -> len (encode_s A) < W32 ->
  s2_remove junk (encode_s A) p x = Some (encode_s (adj_remove p x A)).
Proof.
  intros Hwf Hn Hlen. unfold s2_remove, encode_s in *.
  destruct (size_adj_remove A p x Hwf Hn) as [-> He].
  pose proof (entities_bounds (adj_remove p x A)). pose proof (entities_bounds A).
  pose proof (length_layout [size A; len A; entities A] A) as Hl. rewrite He in *.
  apply (update_remove_layout junk _ [entities A]); try done.
  replace (entities A - is_ent x) with (entities A + (if is_entity_ele x then -1 else 0))
    by (unfold is_ent; destruct (is_entity_ele x); lia).
  unfold is_ent in *. constructor; [len_lia|]. destruct (is_entity_ele x); len_lia.
Qed.

Lemma o2_remove_encode A p x :
  wf A -> (p, x) ∈ pairs A -> len (encode_o A) < W32 ->
  o2_remove junk (encode_o A) p x = Some (encode_o (adj_remove p x A)).
Proof.
  intros Hwf Hn Hlen. unfold o2_remove, encode_o in *.
  destruct (size_adj_remove A p x Hwf Hn) as [-> _].
  by apply (update_remove_layout junk _ []); [constructor|..].
Qed.

Lemma s2_insert_new_encode p x : s2_insert_new junk p x = Some (encode_s (adj_insert p x [])).
Proof.
  unfold s2_insert_new, encode_s. cbn [adj_insert]. rewrite entities_cons.
  pose proof (entities_mid [] x []) as Hm. cbn [app] in Hm. rewrite Hm. unfold is_ent. by destruct (is_entity_ele x).
Qed.

Lemma o2_insert_new_encode p x : o2_insert_new junk p x = Some (encode_o (adj_insert p x [])).
Proof. done. Qed.
End Encode.
