(* ===== verification/PreList.v ===== *)
(** * Value lists of predicates

    The value a predicate has in [preID2values]: the number of triples, then
    the subjects, then the objects, the pairs in lexicographic order
    (KVstore/KVstore.h, the comment "STRUCT"), and the updates
    [KVstore::updateInsert_p2values] and [KVstore::updateRemove_p2values]. *)

From S2P Require Import Prelude.

(** ** Pairs in lexicographic order *)

Definition lex_ltb (a b : Z * Z) : bool :=
  (a.1 <? b.1) || ((a.1 =? b.1) && (a.2 <? b.2)).

Definition lex_lt (a b : Z * Z) : Prop := a.1 < b.1 \/ (a.1 = b.1 /\ a.2 < b.2).

Lemma lex_ltb_spec a b : lex_ltb a b = true <-> lex_lt a b.
Proof. unfold lex_ltb, lex_lt. lia. Qed.

Lemma lex_total a b : lex_lt a b \/ a = b \/ lex_lt b a.
Proof.
  destruct a as [a1 a2], b as [b1 b2]. unfold lex_lt. simpl.
  destruct (Z.lt_trichotomy a1 b1) as [|[->|]]; [auto| |auto].
  destruct (Z.lt_trichotomy a2 b2) as [|[->|]]; auto.
Qed.

Lemma lex_irrefl a : ~ lex_lt a a.
Proof. unfold lex_lt. lia. Qed.

Lemma lex_trans a b c : lex_lt a b -> lex_lt b c -> lex_lt a c.
Proof. unfold lex_lt. lia. Qed.

Definition lex_sorted (L : list (Z * Z)) : Prop := StronglySorted lex_lt L.

(** The encoding, and the reference insertion and removal. *)
Definition encode_p (L : list (Z * Z)) : list Z := len L :: L.*1 ++ L.*2.

Fixpoint insert_pair (x : Z * Z) (L : list (Z * Z)) : list (Z * Z) :=
  match L with
  | [] => [x]
  | y :: L' => if lex_ltb y x then y :: insert_pair x L' else x :: L
  end.

Definition remove_pair (x : Z * Z) (L : list (Z * Z)) : list (Z * Z) :=
  filter (fun y => y <> x) L.

(** ** The code *)

Section Code.
Context (junk : nat -> Z).

Abbreviation cursor := (Z * Z * list Z)%type.

(** [_values[j] = _tmp[i]; _values[j + _tmp[0] + d] = _tmp[i + _tmp[0]]]. *)
Definition copy_pair (_tmp : list Z) (n d : Z) (s : cursor) : option cursor :=
  let '(i, j, vs) := s in
  x ← arr_get _tmp i;
  vs ← arr_set vs j x;
  y ← arr_get _tmp (i ⊞ n);
  vs ← arr_set vs ((j ⊞ n) ⊞ d) y;
  Some (i ⊞ 1, j ⊞ 1, vs).

(** The first loop: the pairs below ([_sub_id], [_obj_id]). *)
Definition copy_below (_tmp : list Z) (n d _sub_id _obj_id : Z) (s : cursor) : option cursor :=
  while (S (Z.to_nat n))
    (fun '(i, j, vs) =>
       if i <? 1 ⊞ n then
         x ← arr_get _tmp i;
         if x <? _sub_id then Some true
         else if x =? _sub_id then y ← arr_get _tmp (i ⊞ n); Some (y <? _obj_id)
         else Some false
       else Some false)
    (copy_pair _tmp n d) s.

(** The second loop: the rest. *)
Definition copy_above (_tmp : list Z) (n d : Z) (s : cursor) : option cursor :=
  while (S (Z.to_nat n)) (fun '(i, j, vs) => Some (i <? 1 ⊞ n)) (copy_pair _tmp n d) s.

(** [KVstore::updateInsert_p2values], "preid doesn't exist" and "preid exists". *)
Definition p2_insert_new (_sub_id _obj_id : Z) : option (list Z) :=
  let vs := new_array junk 3 in
  vs ← arr_set vs 0 1;
  vs ← arr_set vs 1 _sub_id;
  arr_set vs 2 _obj_id.

Definition p2_insert (_tmp : list Z) (_sub_id _obj_id : Z) : option (list Z) :=
  let vs := new_array junk (len _tmp + 2) in
  n ← arr_get _tmp 0;
  vs ← arr_set vs 0 (n ⊞ 1);
  '(i, j, vs) ← copy_below _tmp n 1 _sub_id _obj_id (1, 1, vs);
  vs ← arr_set vs j _sub_id;
  vs ← arr_set vs ((j ⊞ n) ⊞ 1) _obj_id;
  '(_, _, vs) ← copy_above _tmp n 1 (i, j ⊞ 1, vs);
  Some vs.

(** [KVstore::updateRemove_p2values], "preid still exists after removal". *)
Definition p2_remove (_tmp : list Z) (_sub_id _obj_id : Z) : option (list Z) :=
  let vs := new_array junk (len _tmp - 2) in
  n ← arr_get _tmp 0;
  vs ← arr_set vs 0 (n ⊟ 1);
  '(i, j, vs) ← copy_below _tmp n (-1) _sub_id _obj_id (1, 1, vs);
  '(_, _, vs) ← copy_above _tmp n (-1) (i ⊞ 1, j, vs);
  Some vs.
End Code.

(** ** Filling the two columns *)

(** [columns hd out m v]: [v] holds [hd], then the first components of [out] at
    the head of a column of [m] cells, then the second components likewise. *)
Definition columns (hd : Z) (out : list (Z * Z)) (m : Z) (v : list Z) : Prop :=
  exists r1 r2, v = hd :: (out.*1 ++ r1) ++ out.*2 ++ r2 /\
    len (out.*1 ++ r1) = m /\ len (out.*2 ++ r2) = m.

Lemma columns_new hd junk m : 0 <= m ->
  wp (arr_set (new_array junk (1 + 2 * m)) 0 hd) (columns hd [] m).
Proof.
  intros Hm. unfold new_array. replace (Z.to_nat (1 + 2 * m)) with (S (Z.to_nat m + Z.to_nat m)) by lia.
  cbn [seq map].
  pose proof (arr_set_app_mid [] (junk 0%nat) (map junk (seq 1 (Z.to_nat m + Z.to_nat m))) 0 hd
    eq_refl) as Hs. cbn [app] in Hs. rewrite Hs. cbn [wp]. rewrite seq_app, map_app.
  exists (map junk (seq 1 (Z.to_nat m))), (map junk (seq (1 + Z.to_nat m) (Z.to_nat m))).
  cbn [fmap list_fmap app]. rewrite !length_map, !length_seq, !Z2Nat.id by done. done.
Qed.

Lemma columns_full hd out m v : columns hd out m v -> len out = m -> v = hd :: out.*1 ++ out.*2.
Proof.
  intros (r1&r2&->&H1&H2) Hm. rewrite !length_app, !length_fmap in *.
  destruct r1; [|simpl in *; lia]. destruct r2; [|simpl in *; lia]. by rewrite !app_nil_r.
Qed.

Lemma wp_emit_columns {B} hd out m v j j' x y (k : list Z -> option B) Q :
  columns hd out m v -> len out < m -> j = 1 + len out -> j' = 1 + len out + m ->
  (forall v', columns hd (out ++ [(x, y)]) m v' -> wp (k v') Q) ->
  wp (vs ← arr_set v j x; arr_set vs j' y ≫= k) Q.
Proof.
  intros (r1&r2&->&H1&H2) Hlt -> -> Hk. rewrite !length_app, !length_fmap in *.
  destruct r1 as [|c1 r1]; [simpl in *; lia|]. destruct r2 as [|c2 r2]; [simpl in *; lia|].
  rewrite <- app_assoc. cbn [app].
  erewrite (arr_set_at (hd :: out.*1)); [|done|simpl; rewrite length_fmap; lia].
  cbn [mbind option_bind].
  erewrite (arr_set_at (hd :: out.*1 ++ x :: r1 ++ out.*2));
    [|simpl; rewrite <- !app_assoc; simpl; by rewrite <- !app_assoc|].
  2:{ cbn [length] in *. rewrite !length_app. cbn [length]. rewrite !length_app, !length_fmap. lia. }
  apply Hk. exists r1, r2. rewrite !fmap_app. cbn. rewrite <- !app_assoc. cbn. split.
  - rewrite <- !app_assoc. cbn. by rewrite <- ?app_assoc.
  - rewrite !length_app, !length_fmap. cbn [length] in *. lia.
Qed.

(** ** The loops *)

Lemma get_column1 L L1 x y L2 i : L = L1 ++ (x, y) :: L2 -> i = 1 + len L1 ->
  arr_get (encode_p L) i = Some x.
Proof.
  intros -> ->. unfold encode_p. rewrite !fmap_app. cbn.
  eapply (arr_get_at (_ :: L1.*1)); [simpl; by rewrite <- !app_assoc|].
  simpl. rewrite length_fmap. lia.
Qed.

Lemma get_column2 L L1 x y L2 i : L = L1 ++ (x, y) :: L2 -> i = 1 + len L1 + len L ->
  arr_get (encode_p L) i = Some y.
Proof.
  intros HL ->. unfold encode_p. rewrite HL at 3. rewrite (fmap_app snd). cbn.
  eapply (arr_get_at (len L :: L.*1 ++ L1.*2)); [simpl; by rewrite <- app_assoc|].
  simpl. rewrite !length_app, !length_fmap. lia.
Qed.

Section Loops.
Context (L : list (Z * Z)) (n m d : Z).
Context (Hn : n = len L) (Hm : m = n + d) (Hd : -1 <= d <= 1).
Context (Hm0 : 0 <= m) (Hn32 : 2 * n + 4 < W32).

Lemma copy_pair_spec hd L1 x y L2 out i j vs :
  L = L1 ++ (x, y) :: L2 -> i = 1 + len L1 -> j = 1 + len out -> len out < m ->
  columns hd out m vs ->
  wp (copy_pair (encode_p L) n d (i, j, vs)) (fun '(i', j', vs') =>
    i' = i + 1 /\ j' = j + 1 /\ columns hd (out ++ [(x, y)]) m vs').
Proof.
  intros HL -> -> Ho Hc. unfold copy_pair.
  assert (n = len L1 + 1 + len L2) by (subst L; len_lia).
  eapply wp_get; [by eapply get_column1|].
  erewrite get_column2; [|exact HL|wsimp; lia]. cbn [mbind option_bind].
  eapply wp_emit_columns; [exact Hc|done|done|wsimp; lia|].
  intros v' Hv'. simpl. wsimp. done.
Qed.

Lemma copy_below_spec hd s o L1 L2 out vs :
  L = L1 ++ L2 -> Forall (fun y => lex_lt y (s, o)) L1 ->
  (forall y, head L2 = Some y -> ~ lex_lt y (s, o)) ->
  len out + len L1 <= m -> columns hd out m vs ->
  wp (copy_below (encode_p L) n d s o (1, 1 + len out, vs)) (fun '(i, j, vs') =>
    i = 1 + len L1 /\ j = 1 + len out + len L1 /\ columns hd (out ++ L1) m vs').
Proof.
  intros HL H1 H2 Hlen Hc. unfold copy_below.
  eapply (wp_while (fun '(i, j, vs') => exists La Lb, L1 = La ++ Lb /\
            i = 1 + len La /\ j = 1 + len out + len La /\ columns hd (out ++ La) m vs')
          (fun '(i, _, _) => Z.to_nat (1 + n - i))).
  - exists [], L1. rewrite app_nil_r. simpl. split_and!; [done|lia..|done].
  - lia.
  - intros [[i j] vs'] (La&Lb&->&->&->&Hc'). rewrite Forall_app in H1. destruct H1 as [_ H1].
    assert (n = len La + len Lb + len L2) by (subst L; len_lia). len_simp. wsimp.
    destruct (Z.ltb_spec (1 + len La) (1 + n)); cycle 1.
    { destruct Lb; [|len_lia]. rewrite app_nil_r. split_and!; [len_lia..|done]. }
    destruct Lb as [|[x y] Lb].
    + rewrite app_nil_r in *. destruct L2 as [|[x y] L2]; [len_lia|].
      eapply wp_get; [by eapply get_column1|]. specialize (H2 _ eq_refl). unfold lex_lt in H2.
      simpl in H2. destruct (Z.ltb_spec x s); [lia|].
      assert (columns hd (out ++ La) m vs') by done.
      destruct (Z.eqb_spec x s); [|simpl; split_and!; [lia..|done]].
      eapply wp_get; [eapply get_column2; [done|wsimp; lia]|].
      simpl. destruct (Z.ltb_spec y o); [lia|]. split_and!; [lia..|done].
    + apply Forall_cons in H1 as [Hxy H1]. rewrite <- app_assoc in HL. cbn [app] in HL.
      assert (wp (copy_pair (encode_p L) n d (1 + len La, 1 + len out + len La, vs'))
        (fun '(i', j', vs'') => i' = 1 + len La + 1 /\ j' = 1 + len out + len La + 1 /\
           columns hd ((out ++ La) ++ [(x, y)]) m vs'')) as Hbody.
      { eapply copy_pair_spec; try done; len_lia. }
      assert (wp (copy_pair (encode_p L) n d (1 + len La, 1 + len out + len La, vs'))
        (fun s' => (let '(i, j, vs'0) := s' in
           exists La0 Lb0, La ++ (x, y) :: Lb = La0 ++ Lb0 /\ i = 1 + len La0 /\
             j = 1 + len out + len La0 /\ columns hd (out ++ La0) m vs'0) /\
           ((let '(i, _, _) := s' in Z.to_nat (1 + n - i)) < Z.to_nat (1 + n - (1 + len La)))%nat))
        as Hstep.
      { eapply wp_mono, Hbody. intros [[i' j'] vs''] (->&->&Hv). split; [|lia].
        exists (La ++ [(x, y)]), Lb. rewrite <- !app_assoc in *. split_and!; [done|len_lia..|done]. }
      eapply wp_get; [by eapply get_column1|]. unfold lex_lt in Hxy. simpl in Hxy.
      destruct (Z.ltb_spec x s); [exact Hstep|]. destruct (Z.eqb_spec x s); [|lia].
      eapply wp_get; [eapply get_column2; [done|wsimp; lia]|].
      simpl. destruct (Z.ltb_spec y o); [exact Hstep|lia].
Qed.

Lemma copy_above_spec hd L1 L2 out i j vs :
  L = L1 ++ L2 -> i = 1 + len L1 -> j = 1 + len out ->
  len out + len L2 <= m -> columns hd out m vs ->
  wp (copy_above (encode_p L) n d (i, j, vs)) (fun '(_, _, vs') =>
    columns hd (out ++ L2) m vs').
Proof.
  intros HL -> -> Hlen Hc. unfold copy_above.
  eapply (wp_while (fun '(i, j, vs') => exists La Lb, L2 = La ++ Lb /\
            i = 1 + len L1 + len La /\ j = 1 + len out + len La /\ columns hd (out ++ La) m vs')
          (fun '(i, _, _) => Z.to_nat (1 + n - i))).
  - exists [], L2. rewrite app_nil_r. simpl. split_and!; [done|lia..|done].
  - lia.
  - intros [[i j] vs'] (La&Lb&->&->&->&Hc'). len_simp.
    assert (n = len L1 + len La + len Lb) by (subst L; len_lia). cbn [wp]. wsimp.
    destruct (Z.ltb_spec (1 + len L1 + len La) (1 + n)); cycle 1.
    { destruct Lb; [|len_lia]. by rewrite app_nil_r. }
    destruct Lb as [|[x y] Lb]; [len_lia|].
    eapply wp_mono; [|eapply (copy_pair_spec hd (L1 ++ La) x y Lb); try exact Hc';
      [by rewrite <- app_assoc|len_lia..]].
    intros [[i' j'] vs''] (->&->&Hv). split; [|lia].
    exists (La ++ [(x, y)]), Lb. rewrite <- !app_assoc in *. split_and!; [done|len_lia..|done].
Qed.
End Loops.

(** ** The reference operations *)

Lemma insert_pair_split x L : lex_sorted L -> x ∉ L ->
  exists L1 L2, L = L1 ++ L2 /\ insert_pair x L = L1 ++ x :: L2 /\
    Forall (fun y => lex_lt y x) L1 /\ Forall (fun y => lex_lt x y) L2.
Proof.
  induction 1 as [|y L Hs IH Hf]; intros Hx; simpl.
  { exists [], []. done. }
  apply not_elem_of_cons in Hx as [Hxy Hx]. destruct (lex_ltb y x) eqn:E.
  - apply lex_ltb_spec in E. destruct (IH Hx) as (L1&L2&->&->&H1&H2).
    exists (y :: L1), L2. split_and!; [done..|by constructor|done].
  - exists [], (y :: L). split_and!; [done..|constructor|].
    assert (lex_lt x y) as Hlt.
    { destruct (lex_total x y) as [|[|Hc]]; [done..|]. apply lex_ltb_spec in Hc. congruence. }
    constructor; [done|]. eapply Forall_impl; [exact Hf|]. intros z. by apply lex_trans.
Qed.

Lemma lex_sorted_app L1 L2 : lex_sorted (L1 ++ L2) <->
  lex_sorted L1 /\ lex_sorted L2 /\ forall a b, a ∈ L1 -> b ∈ L2 -> lex_lt a b.
Proof.
  unfold lex_sorted. induction L1 as [|x L1 IH]; simpl.
  - split; [intros; split_and!; [constructor|done|set_solver]|by intros (_&?&_)].
  - split.
    + inversion 1 as [|?? Hs Hf]; subst. apply IH in Hs as (?&?&?).
      apply Forall_app in Hf as [? Hf]. rewrite Forall_forall in Hf.
      split_and!; [by constructor|done|set_solver].
    + intros (H1&H2&H3). inversion H1; subst. constructor; [apply IH; set_solver|].
      apply Forall_app. split; [done|]. apply Forall_forall. set_solver.
Qed.

Lemma remove_pair_split x L : lex_sorted L -> x ∈ L ->
  exists L1 L2, L = L1 ++ x :: L2 /\ remove_pair x L = L1 ++ L2 /\
    Forall (fun y => lex_lt y x) L1.
Proof.
  intros Hs (L1&L2&->)%list_elem_of_split. exists L1, L2.
  apply lex_sorted_app in Hs as (H1&H2&H12). inversion H2 as [|?? H2' Hf]; subst.
  split_and!; [done| |].
  - unfold remove_pair. rewrite filter_app, filter_cons, decide_False by auto.
    rewrite !filter_all; [done|..]; apply Forall_forall; intros y Hy ->.
    + rewrite Forall_forall in Hf. by eapply lex_irrefl, Hf.
    + eapply lex_irrefl, H12; [done|left].
  - apply Forall_forall. intros y Hy. apply H12; [done|left].
Qed.

Lemma elem_of_remove_pair x L y : y ∈ remove_pair x L <-> y ∈ L /\ y <> x.
Proof. unfold remove_pair. rewrite list_elem_of_filter. tauto. Qed.

Lemma elem_of_insert_pair x L y : lex_sorted L -> x ∉ L -> y ∈ insert_pair x L <-> y = x \/ y ∈ L.
Proof. intros Hs Hx. destruct (insert_pair_split x L Hs Hx) as (L1&L2&->&->&_). set_solver. Qed.

Lemma lex_sorted_insert x L : lex_sorted L -> x ∉ L -> lex_sorted (insert_pair x L).
Proof.
  intros Hs Hx. destruct (insert_pair_split x L Hs Hx) as (L1&L2&->&->&H1&H2).
  rewrite Forall_forall in H1. apply lex_sorted_app in Hs as (Hs1&Hs2&H12).
  apply lex_sorted_app. split_and!; [done|by constructor|].
  intros a b Ha [->|Hb]%elem_of_cons; auto.
Qed.

Lemma lex_sorted_remove x L : lex_sorted L -> lex_sorted (remove_pair x L).
Proof.
  intros Hs. induction Hs as [|y L Hs IH Hf]; [constructor|].
  unfold remove_pair. rewrite filter_cons. destruct (decide (y <> x)); [|done].
  constructor; [done|]. rewrite Forall_forall in *. intros z [_ Hz]%list_elem_of_filter. auto.
Qed.

Lemma lex_sorted_NoDup L : lex_sorted L -> NoDup L.
Proof.
  induction 1 as [|y L Hs IH Hf]; constructor; [|done].
  rewrite Forall_forall in Hf. intros Hy. by eapply lex_irrefl, Hf.
Qed.

Lemma length_encode_p L : len (encode_p L) = 1 + 2 * len L.
Proof. unfold encode_p. simpl. rewrite length_app, !length_fmap. lia. Qed.

(** ** The updates *)

Section Encode.
Context (junk : nat -> Z).

Lemma p2_insert_encode L s o :
  lex_sorted L -> (s, o) ∉ L -> len (encode_p L) + 3 < W32 ->
  p2_insert junk (encode_p L) s o = Some (encode_p (insert_pair (s, o) L)).
Proof.
  intros Hs Hx Hlen. rewrite length_encode_p in Hlen.
  destruct (insert_pair_split _ _ Hs Hx) as (L1&L2&HL&->&H1&H2).
  assert (len L = len L1 + len L2) by (subst L; len_lia).
  apply wp_eq. unfold p2_insert. eapply wp_get; [done|]. cbv beta. wsimp.
  rewrite length_encode_p. replace (1 + 2 * len L + 2) with (1 + 2 * (len L + 1)) by lia.
  apply wp_bind. eapply wp_mono, columns_new; [|lia]. intros v0 Hv0. apply wp_bind.
  eapply wp_mono; [|eapply (copy_below_spec L (len L) (len L + 1) 1) with (out := []) (L1 := L1) (L2 := L2);
    try exact Hv0; try done; try (simpl; lia)].
  2:{ intros y Hy Hlt. destruct L2 as [|z L2]; [done|]. simpl in Hy. simplify_eq.
      apply Forall_inv in H2. by eapply lex_irrefl, lex_trans. }
  intros [[i j] v1] (->&->&Hv1). cbn [app length] in *.
  eapply wp_emit_columns; [exact Hv1|lia|lia|wsimp; lia|]. intros v2 Hv2. apply wp_bind.
  eapply wp_mono; [|eapply (copy_above_spec L (len L) (len L + 1) 1) with (out := L1 ++ [(s, o)]) (L1 := L1) (L2 := L2);
    try exact Hv2; try done; try len_lia; wsimp; len_lia].
  intros [[i j] v3] Hv3. cbn [wp].
  erewrite (columns_full _ _ _ _ Hv3) by len_lia. rewrite <- app_assoc. unfold encode_p.
  cbn [app]. f_equal. len_lia.
Qed.

Lemma p2_remove_encode L s o :
  lex_sorted L -> (s, o) ∈ L -> len (encode_p L) + 3 < W32 ->
  p2_remove junk (encode_p L) s o = Some (encode_p (remove_pair (s, o) L)).
Proof.
  intros Hs Hx Hlen. rewrite length_encode_p in Hlen.
  destruct (remove_pair_split _ _ Hs Hx) as (L1&L2&HL&->&H1).
  assert (len L = len L1 + 1 + len L2) by (subst L; len_lia).
  apply wp_eq. unfold p2_remove. eapply wp_get; [done|]. cbv beta. wsimp.
  rewrite length_encode_p. replace (1 + 2 * len L - 2) with (1 + 2 * (len L - 1)) by lia.
  apply wp_bind. eapply wp_mono, columns_new; [|lia]. intros v0 Hv0. apply wp_bind.
  eapply wp_mono; [|eapply (copy_below_spec L (len L) (len L - 1) (-1)) with (out := []) (L1 := L1)
    (L2 := (s, o) :: L2); try exact Hv0; try done; try (simpl; lia)].
  2:{ intros y. simpl. intros [= <-]. apply lex_irrefl. }
  intros [[i j] v1] (->&->&Hv1). cbn [app length] in *. apply wp_bind.
  eapply wp_mono; [|eapply (copy_above_spec L (len L) (len L - 1) (-1)) with (out := L1)
    (L1 := L1 ++ [(s, o)]) (L2 := L2); try exact Hv1; try len_lia;
    [by rewrite <- app_assoc|wsimp; len_lia]].
  intros [[i j] v3] Hv3. cbn [wp].
  erewrite (columns_full _ _ _ _ Hv3) by len_lia. unfold encode_p. f_equal. len_lia.
Qed.

Lemma p2_insert_new_encode s o : p2_insert_new junk s o = Some (encode_p (insert_pair (s, o) [])).
Proof. done. Qed.
End Encode.
