(* ===== verification/ValueRead.v ===== *)
(** * Reading value lists

    What the getters of [KVstore] (KVstore/KVstore.cpp) compute from the value
    list [_tmp] they have read, and that it is what the list encodes.  As in
    [ValueUpdate], the code is written once over the offset [h] of the predicate
    table: 3 for [subID2values], 2 for [objID2values]. *)

From S2P Require Import Prelude Util ValueList Adjacency ValueUpdate ValueRemove ValueSpec PreList.

Section Code.
Context (h : Z) (junk : nat -> Z).

(** [for (i = 0; i < _list_len; i++) _preidlist[i] = _tmp[2 * i + h]]. *)
Definition read_keys (_tmp : list Z) : option (list Z) :=
  _list_len ← arr_get _tmp 1;
  '(_, out) ← while (S (Z.to_nat _list_len))
    (fun '(i, out) => Some (i <? _list_len))
    (fun '(i, out) =>
       p ← arr_get _tmp ((2 ⊠ i) ⊞ h); out ← arr_set out i p; Some (i ⊞ 1, out))
    (0, new_array junk _list_len);
  Some out.

(** [memcpy(dst, src + from, sizeof(unsigned) * n)] into a new array. *)
Definition copy_from (src : list Z) (from n : Z) : option (list Z) :=
  if from <=? len src then arr_copy (new_array junk n) (drop (Z.to_nat from) src) n else None.

(** The ids of an array after [Util::removeDuplicate], if it is asked for. *)
Definition dedup (_no_duplicate : bool) (l : list Z) (_list_len : Z) : option (list Z) :=
  if _no_duplicate
  then '(n, l) ← removeDuplicate l _list_len; Some (take (Z.to_nat n) l)
  else Some l.

(** [getobjIDlistBysubID], [getsubIDlistByobjID]: all the ids, sorted. *)
Definition read_all (_no_duplicate : bool) (_tmp : list Z) : option (list Z) :=
  _list_len ← arr_get _tmp 0;
  npre ← arr_get _tmp 1;
  l ← copy_from _tmp (h ⊞ (2 ⊠ npre)) _list_len;
  dedup _no_duplicate (sort l) _list_len.

(** The bounds of the id list of the entry [_result]. *)
Definition offset_next (_tmp : list Z) (t0 npre _result : Z) : option Z :=
  if _result =? npre ⊟ 1 then Some ((h ⊞ (2 ⊠ npre)) ⊞ t0)
  else arr_get _tmp (next_off_ix h _result).

(** [getobjIDlistBysubIDpreID], [getsubIDlistByobjIDpreID]; [Some None] when
    the getter returns [false]. *)
Definition read_list (_tmp : list Z) (_preid : Z) : option (option (list Z)) :=
  t0 ← arr_get _tmp 0;
  npre ← arr_get _tmp 1;
  _result ← binarySearch _preid (drop (Z.to_nat h) _tmp) npre 2;
  if _result =? INVALID then Some None
  else
    _offset ← arr_get _tmp (off_ix h _result);
    _offset_next ← offset_next _tmp t0 npre _result;
    l ← copy_from _tmp _offset (_offset_next ⊟ _offset);
    Some (Some l).

(** [getSubjectPredicateDegree], [getObjectPredicateDegree]: the offsets pass
    through [int]. *)
Definition read_degree (_tmp : list Z) (_preid : Z) : option Z :=
  t0 ← arr_get _tmp 0;
  npre ← arr_get _tmp 1;
  _result ← binarySearch _preid (drop (Z.to_nat h) _tmp) npre 2;
  if _result =? INVALID then Some 0
  else
    _offset ← arr_get _tmp (off_ix h _result);
    _offset_next ← offset_next _tmp t0 npre _result;
    Some (u32 (i32 _offset_next - i32 _offset)).

(** [getpreIDobjIDlistBysubID], [getpreIDsubIDlistByobjID]: the inner loop
    over the ids of one predicate, and the loop over the predicates. *)
Definition pairs_inner (_tmp : list Z) (npre p _offset_next : Z) (s : Z * list Z)
    : option (Z * list Z) :=
  while (S (length _tmp))
    (fun '(j, out) => Some ((h ⊞ (2 ⊠ npre)) ⊞ j <? _offset_next))
    (fun '(j, out) =>
       out ← arr_set out (2 ⊠ j) p;
       x ← arr_get _tmp ((h ⊞ (2 ⊠ npre)) ⊞ j);
       out ← arr_set out ((2 ⊠ j) ⊞ 1) x;
       Some (j ⊞ 1, out)) s.

Definition read_pairs (_tmp : list Z) : option (list Z) :=
  t0 ← arr_get _tmp 0;
  npre ← arr_get _tmp 1;
  '(_, _, out) ← while (S (Z.to_nat npre))
    (fun '(i, j, out) => Some (i <? npre))
    (fun '(i, j, out) =>
       _offset_next ← offset_next _tmp t0 npre i;
       p ← arr_get _tmp (key_ix h i);
       '(j, out) ← pairs_inner _tmp npre p _offset_next (j, out);
       Some (i ⊞ 1, j, out))
    (0, 0, new_array junk (2 ⊠ t0));
  Some out.
End Code.

(** [getsubIDlistBypreID], [getobjIDlistBypreID] and [getsubIDobjIDlistBypreID]
    on the value list of a predicate. *)
Definition p2_read_subs (junk : nat -> Z) (_no_duplicate : bool) (_tmp : list Z) : option (list Z) :=
  _list_len ← arr_get _tmp 0;
  l ← copy_from junk _tmp 1 _list_len;
  dedup _no_duplicate l _list_len.

Definition p2_read_objs (junk : nat -> Z) (_no_duplicate : bool) (_tmp : list Z) : option (list Z) :=
  _list_len ← arr_get _tmp 0;
  l ← copy_from junk _tmp (1 ⊞ _list_len) _list_len;
  dedup _no_duplicate (sort l) _list_len.

Definition p2_read_pairs (junk : nat -> Z) (_tmp : list Z) : option (list Z) :=
  n ← arr_get _tmp 0;
  '(_, out) ← while (S (Z.to_nat n))
    (fun '(i, out) => Some (i <? n))
    (fun '(i, out) =>
       x ← arr_get _tmp (1 ⊞ i); out ← arr_set out (2 ⊠ i) x;
       y ← arr_get _tmp ((1 ⊞ n) ⊞ i); out ← arr_set out ((2 ⊠ i) ⊞ 1) y;
       Some (i ⊞ 1, out))
    (0, new_array junk (n ⊠ 2));
  Some out.

(** ** Correctness *)

Lemma copy_from_spec junk pre a post src from n :
  src = pre ++ a ++ post -> from = len pre -> n = len a ->
  copy_from junk src from n = Some a.
Proof.
  intros -> -> ->. unfold copy_from. rewrite (proj2 (Z.leb_le _ _)) by len_lia.
  rewrite Nat2Z.id, drop_app_length. apply wp_eq, wp_ret.
  eapply wp_memcpy; [done|done|rewrite length_new_array; lia|].
  intros v Hv. rewrite length_new_array, Nat2Z.id in Hv. by apply (filled_full a (len a) v).
Qed.

Lemma dedup_spec b l n : n = len l -> n < W32 ->
  dedup b l n = Some (if b then compress l else l).
Proof.
  intros -> Hn. unfold dedup. destruct b; [|done]. apply wp_eq, wp_bind.
  eapply wp_mono; [|by apply removeDuplicate_spec]. by intros [valid a] (_&->&_).
Qed.

Section Read.
Context (junk : nat -> Z) (hdr extra : list Z) (A : adj).
Context (Hhdr : hdr = size A :: len A :: extra) (Hex : len extra <= 1).
Context (Hwf : wf A) (Hlen : len (layout hdr A) + 3 < W32) (Hlen2 : 2 * size A < W32).

Lemma read_facts :
  len hdr <= 3 /\ 2 <= len hdr /\ 0 <= size A /\ len (layout hdr A) = len hdr + 2 * len A + size A.
Proof. pose proof (length_layout hdr A). pose proof (size_nonneg A). subst hdr. len_lia. Qed.

Lemma head0 : arr_get (layout hdr A) 0 = Some (size A).
Proof. by subst hdr. Qed.
Lemma head1 : arr_get (layout hdr A) 1 = Some (len A).
Proof. by subst hdr. Qed.

Lemma read_keys_spec : read_keys (len hdr) junk (layout hdr A) = Some (keys A).
Proof.
  pose proof read_facts. apply wp_eq. unfold read_keys. eapply wp_get; [apply head1|].
  apply wp_bind.
  eapply (wp_while (fun '(i, out) => exists Aa Ab, A = Aa ++ Ab /\ i = len Aa /\
            filled (keys Aa) (len A) out) (fun '(i, _) => Z.to_nat (len A - i))).
  - exists [], A. split_and!; [done..|]. apply filled_new. lia.
  - lia.
  - intros [i out] (Aa&Ab&HA&->&Hf). cbn [wp]. destruct (Z.ltb_spec (len Aa) (len A)); cycle 1.
    { destruct Ab; [|subst A; len_lia]. rewrite app_nil_r in HA. subst Aa.
      eapply filled_full; [exact Hf|]. by rewrite length_keys. }
    destruct Ab as [|[p l] Ab]; [subst A; len_lia|].
    eapply wp_get.
    { unfold layout. rewrite HA at 2. apply get_table_key. wlen. lia. }
    eapply wp_emit; [exact Hf|by rewrite length_keys|rewrite length_keys; lia|].
    intros v' Hv'. cbn [wp]. wlen. split; [|lia].
    exists (Aa ++ [(p, l)]), Ab. rewrite <- app_assoc. split_and!; [done|len_lia|].
    by rewrite keys_app.
Qed.

Lemma read_all_spec b :
  read_all (len hdr) junk b (layout hdr A) =
  Some (if b then compress (sort (body A)) else sort (body A)).
Proof.
  pose proof read_facts. unfold read_all. rewrite head0, head1. cbn [mbind option_bind].
  erewrite (copy_from_spec _ (hdr ++ table (len hdr + 2 * len A) A) (body A) []).
  - cbn [mbind option_bind]. apply dedup_spec; [by rewrite length_sort|lia].
  - unfold layout. by rewrite app_nil_r, <- app_assoc.
  - pose proof (length_table (len hdr + 2 * len A) A). wlen. len_lia.
  - done.
Qed.

Lemma offset_next_spec A1 p l A2 : A = A1 ++ (p, l) :: A2 ->
  offset_next (len hdr) (layout hdr A) (size A) (len A) (len A1) =
  Some (len hdr + 2 * len A + size A1 + len l).
Proof.
  intros HA. pose proof read_facts. unfold offset_next.
  pose proof (size_app A1 ((p, l) :: A2)) as Hs. rewrite <- HA, size_cons in Hs. cbn [snd] in Hs.
  assert (len A = len A1 + 1 + len A2) by (subst A; len_lia). destruct A2 as [|[q l'] A2].
  - rewrite size_nil in Hs. wlen. simpl in *.
    replace (len A1 =? len A - 1) with true by (symmetry; apply Z.eqb_eq; lia). f_equal. lia.
  - wlen. replace (len A1 =? len A - 1) with false by (symmetry; apply Z.eqb_neq; len_lia).
    unfold layout. replace A with ((A1 ++ [(p, l)]) ++ (q, l') :: A2) at 2 by (by rewrite <- app_assoc).
    erewrite get_table_off; [|unfold next_off_ix; wlen; len_lia].
    rewrite size_app, size_cons, size_nil. cbn [snd]. f_equal. lia.
Qed.

Lemma get_off A1 p l A2 : A = A1 ++ (p, l) :: A2 ->
  arr_get (layout hdr A) (off_ix (len hdr) (len A1)) = Some (len hdr + 2 * len A + size A1).
Proof.
  intros HA. pose proof read_facts. assert (len A1 < len A) by (subst A; len_lia).
  unfold layout. rewrite HA at 2. apply get_table_off. rewrite off_ix_small by len_lia. lia.
Qed.

Lemma get_key A1 p l A2 : A = A1 ++ (p, l) :: A2 ->
  arr_get (layout hdr A) (key_ix (len hdr) (len A1)) = Some p.
Proof.
  intros HA. pose proof read_facts. assert (len A1 < len A) by (subst A; len_lia).
  unfold layout. rewrite HA at 2. apply get_table_key. rewrite key_ix_small by len_lia. lia.
Qed.

Lemma layout_split A1 p l A2 : A = A1 ++ (p, l) :: A2 ->
  layout hdr A = (hdr ++ table (len hdr + 2 * len A) A ++ body A1) ++ l ++ body A2 /\
  len (hdr ++ table (len hdr + 2 * len A) A ++ body A1) = len hdr + 2 * len A + size A1.
Proof.
  intros HA. pose proof (length_table (len hdr + 2 * len A) A). unfold size. split; [|len_lia].
  unfold layout. rewrite HA at 3. rewrite body_app, body_cons. cbn [snd]. by rewrite <- !app_assoc.
Qed.

Lemma read_list_spec p : A <> [] ->
  read_list (len hdr) junk (layout hdr A) p = Some (adj_find p A).
Proof.
  intros Hne. pose proof read_facts. unfold read_list. rewrite head0, head1. cbn [mbind option_bind].
  destruct (decide (p ∈ keys A)) as [Hp|Hp].
  - destruct (adj_present p A Hwf Hp) as (A1&l&A2&HA&->&_&_).
    assert (len A1 < len A) by (subst A; len_lia).
    pose proof (size_app A1 ((p, l) :: A2)) as Hs. rewrite <- HA, size_cons in Hs. cbn [snd] in Hs.
    pose proof (size_nonneg A1). pose proof (size_nonneg A2).
    erewrite search_present; [|done|done|len_lia|exact HA]. cbn [mbind option_bind].
    replace (len A1 =? INVALID) with false by (symmetry; apply Z.eqb_neq; word_lia).
    rewrite (get_off A1 p l A2 HA). cbn [mbind option_bind].
    rewrite (offset_next_spec A1 p l A2 HA). cbn [mbind option_bind].
    destruct (layout_split A1 p l A2 HA) as [E El].
    erewrite copy_from_spec; [done|exact E|by rewrite El|wlen; lia].
  - erewrite search_missing; [|done|done|len_lia|done..]. cbn [mbind option_bind].
    rewrite Z.eqb_refl. by apply adj_find_None in Hp as ->.
Qed.

Lemma read_degree_spec p : A <> [] ->
  read_degree (len hdr) (layout hdr A) p = Some (match adj_find p A with Some l => len l | None => 0 end).
Proof.
  intros Hne. pose proof read_facts. unfold read_degree. rewrite head0, head1. cbn [mbind option_bind].
  destruct (decide (p ∈ keys A)) as [Hp|Hp].
  - destruct (adj_present p A Hwf Hp) as (A1&l&A2&HA&->&_&_).
    assert (len A1 < len A) by (subst A; len_lia).
    pose proof (size_app A1 ((p, l) :: A2)) as Hs. rewrite <- HA, size_cons in Hs. cbn [snd] in Hs.
    pose proof (size_nonneg A1). pose proof (size_nonneg A2).
    erewrite search_present; [|done|done|len_lia|exact HA]. cbn [mbind option_bind].
    replace (len A1 =? INVALID) with false by (symmetry; apply Z.eqb_neq; word_lia).
    rewrite (get_off A1 p l A2 HA). cbn [mbind option_bind].
    rewrite (offset_next_spec A1 p l A2 HA). cbn [mbind option_bind]. f_equal.
    rewrite u32_sub_i32. wlen. lia.
  - erewrite search_missing; [|done|done|len_lia|done..]. cbn [mbind option_bind].
    rewrite Z.eqb_refl. by apply adj_find_None in Hp as ->.
Qed.

Lemma pairs_inner_spec A1 p l A2 out :
  A = A1 ++ (p, l) :: A2 -> filled (flat (pairs A1)) (2 * size A) out ->
  wp (pairs_inner (len hdr) (layout hdr A) (len A) p (len hdr + 2 * len A + size A1 + len l)
        (size A1, out))
     (fun '(j, out') => j = size A1 + len l /\
        filled (flat (pairs (A1 ++ [(p, l)]))) (2 * size A) out').
Proof.
  intros HA Hf. pose proof read_facts. destruct (layout_split A1 p l A2 HA) as [E El].
  pose proof (size_app A1 ((p, l) :: A2)) as Hs. rewrite <- HA, size_cons in Hs. cbn [snd] in Hs.
  pose proof (size_nonneg A1). pose proof (size_nonneg A2). unfold pairs_inner.
  eapply (wp_while (fun '(j, out') => exists la lb, l = la ++ lb /\ j = size A1 + len la /\
            filled (flat (pairs (A1 ++ [(p, la)]))) (2 * size A) out')
          (fun '(j, _) => Z.to_nat (size A1 + len l - j))).
  - exists [], l. split_and!; [done|simpl; lia|]. unfold pairs in *. rewrite bind_app. cbn.
    by rewrite !app_nil_r.
  - len_lia.
  - intros [j out'] (la&lb&->&->&Hf'). len_simp. cbn [wp]. wlen.
    destruct (Z.ltb_spec (len hdr + 2 * len A + (size A1 + len la))
      (len hdr + 2 * len A + size A1 + (len la + len lb))); cycle 1.
    { destruct lb; [|len_lia]. rewrite app_nil_r. split; [lia|done]. }
    destruct lb as [|x lb]; [len_lia|].
    assert (len (pairs (A1 ++ [(p, la)])) = size A1 + len la) as Hp.
    { rewrite length_pairs, size_app, size_cons, size_nil. simpl. lia. }
    pose proof (length_flat (pairs (A1 ++ [(p, la)]))).
    eapply wp_emit; [exact Hf'|lia|len_lia|]. intros v1 Hv1.
    eapply wp_get.
    { eapply (arr_get_at ((hdr ++ table (len hdr + 2 * len A) A ++ body A1) ++ la) x (lb ++ body A2)).
      - rewrite E, <- !app_assoc. done.
      - len_lia. }
    eapply wp_emit; [exact Hv1|len_lia|len_lia|]. intros v2 Hv2. cbn [wp]. split; [|len_lia].
    exists (la ++ [x]), lb. rewrite <- app_assoc. split_and!; [done|len_lia|].
    rewrite <- app_assoc in Hv2. cbn [app] in Hv2. revert Hv2. unfold pairs.
    rewrite !bind_app. cbn. rewrite !app_nil_r, fmap_app, !flat_app, <- !app_assoc. done.
Qed.

Lemma read_pairs_spec :
  read_pairs (len hdr) junk (layout hdr A) = Some (flat (pairs A)).
Proof.
  pose proof read_facts. apply wp_eq. unfold read_pairs.
  eapply wp_get; [apply head0|]. eapply wp_get; [apply head1|]. apply wp_bind. wlen.
  eapply (wp_while (fun '(i, j, out) => exists Aa Ab, A = Aa ++ Ab /\ i = len Aa /\
            j = size Aa /\ filled (flat (pairs Aa)) (2 * size A) out)
          (fun '(i, _, _) => Z.to_nat (len A - i))).
  - exists [], A. split_and!; [done..|]. apply filled_new. lia.
  - lia.
  - intros [[i j] out] (Aa&Ab&HA&->&->&Hf). cbn [wp].
    destruct (Z.ltb_spec (len Aa) (len A)); cycle 1.
    { destruct Ab; [|subst A; len_lia]. rewrite app_nil_r in HA. subst Aa.
      eapply filled_full; [exact Hf|]. by rewrite length_flat, length_pairs. }
    destruct Ab as [|[p l] Ab]; [subst A; len_lia|].
    rewrite (offset_next_spec Aa p l Ab HA). cbn [mbind option_bind].
    eapply wp_get.
    { unfold layout. rewrite HA at 2. apply get_table_key. rewrite key_ix_small by len_lia. lia. }
    apply wp_bind. eapply wp_mono; [|by eapply pairs_inner_spec].
    intros [j out'] [-> Hf']. cbn [wp]. wlen. split; [|lia].
    exists (Aa ++ [(p, l)]), Ab. rewrite <- app_assoc. split_and!; [done|len_lia| |done].
    rewrite size_app, size_cons, size_nil. simpl. lia.
Qed.
End Read.

(** ** Value lists of predicates *)

Section ReadP.
Context (junk : nat -> Z) (L : list (Z * Z)).
Context (Hlen : len (encode_p L) + 3 < W32).

Lemma p2_read_subs_spec b :
  p2_read_subs junk b (encode_p L) = Some (if b then compress L.*1 else L.*1).
Proof.
  rewrite length_encode_p in Hlen. unfold p2_read_subs.
  assert (arr_get (encode_p L) 0 = Some (len L)) as -> by done. cbn [mbind option_bind].
  erewrite (copy_from_spec _ [len L] L.*1 L.*2); [|done|done|by rewrite length_fmap].
  cbn [mbind option_bind]. apply dedup_spec; [by rewrite length_fmap|lia].
Qed.

Lemma p2_read_objs_spec b :
  p2_read_objs junk b (encode_p L) =
  Some (if b then compress (sort L.*2) else sort L.*2).
Proof.
  rewrite length_encode_p in Hlen. unfold p2_read_objs.
  assert (arr_get (encode_p L) 0 = Some (len L)) as -> by done. cbn [mbind option_bind].
  erewrite (copy_from_spec _ (len L :: L.*1) L.*2 []);
    [|unfold encode_p; simpl; by rewrite app_nil_r| |by rewrite length_fmap].
  2:{ wlen. simpl. rewrite length_fmap. lia. }
  cbn [mbind option_bind]. apply dedup_spec; [by rewrite length_sort, length_fmap|lia].
Qed.

Lemma p2_read_pairs_spec : p2_read_pairs junk (encode_p L) = Some (flat L).
Proof.
  rewrite length_encode_p in Hlen. apply wp_eq. unfold p2_read_pairs.
  eapply wp_get; [done|]. apply wp_bind. rewrite (u32_small (len L * 2)) by lia.
  eapply (wp_while (fun '(i, out) => exists La Lb, L = La ++ Lb /\ i = len La /\
            filled (flat La) (len L * 2) out) (fun '(i, _) => Z.to_nat (len L - i))).
  - exists [], L. split_and!; [done..|]. apply filled_new. lia.
  - lia.
  - intros [i out] (La&Lb&HL&->&Hf). cbn [wp]. pose proof (length_flat La).
    destruct (Z.ltb_spec (len La) (len L)); cycle 1.
    { destruct Lb; [|subst L; len_lia]. rewrite app_nil_r in HL. subst La.
      eapply filled_full; [exact Hf|]. lia. }
    destruct Lb as [|[x y] Lb]; [subst L; len_lia|]. wlen.
    eapply wp_get; [by eapply get_column1|].
    eapply wp_emit; [exact Hf|lia|lia|]. intros v1 Hv1.
    eapply wp_get; [eapply get_column2; [exact HL|lia]|].
    eapply wp_emit; [exact Hv1|len_lia|len_lia|]. intros v2 Hv2. cbn [wp]. split; [|lia].
    exists (La ++ [(x, y)]), Lb. rewrite <- app_assoc. split_and!; [done|len_lia|].
    rewrite flat_app. by rewrite <- app_assoc in Hv2.
Qed.
End ReadP.
