(* ===== verification/BatchInsert.v ===== *)
(** * Union and difference of adjacencies

    Reference operations for the batch updates: merging the pairs of one
    adjacency into another, and removing them. *)

From S2P Require Import Prelude Util ValueList Adjacency ValueUpdate ValueSpec.

(** Union of two increasing lists. *)
Fixpoint ids_union (l : list Z) : list Z -> list Z :=
  fix go (m : list Z) : list Z :=
    match l, m with
    | [], _ => m
    | _, [] => l
    | x :: l', y :: m' =>
        if x <? y then x :: ids_union l' m
        else if y <? x then y :: go m'
        else x :: ids_union l' m'
    end.

Fixpoint adj_union (A : adj) : adj -> adj :=
  fix go (B : adj) : adj :=
    match A, B with
    | [], _ => B
    | _, [] => A
    | (q, l) :: A', (f, m) :: B' =>
        if q <? f then (q, l) :: adj_union A' B
        else if f <? q then (f, m) :: go B'
        else (q, ids_union l m) :: adj_union A' B'
    end.

(** Equations. *)
Lemma ids_union_nil_l m : ids_union [] m = m.
Proof. by destruct m. Qed.
Lemma ids_union_nil_r l : ids_union l [] = l.
Proof. by destruct l. Qed.
Lemma ids_union_cons x l y m : ids_union (x :: l) (y :: m) =
  if x <? y then x :: ids_union l (y :: m)
  else if y <? x then y :: ids_union (x :: l) m
  else x :: ids_union l m.
Proof. done. Qed.
Lemma adj_union_nil_l B : adj_union [] B = B.
Proof. by destruct B. Qed.
Lemma adj_union_nil_r A : adj_union A [] = A.
Proof. by destruct A as [|[]]. Qed.
Lemma adj_union_cons q l A f m B : adj_union ((q, l) :: A) ((f, m) :: B) =
  if q <? f then (q, l) :: adj_union A ((f, m) :: B)
  else if f <? q then (f, m) :: adj_union ((q, l) :: A) B
  else (q, ids_union l m) :: adj_union A B.
Proof. done. Qed.

(** Induction along the merge. *)
Lemma merge_ind {X Y} (P : list X -> list Y -> Prop) :
  (forall m, P [] m) -> (forall l, P l []) ->
  (forall x l y m, P l (y :: m) -> P (x :: l) m -> P l m -> P (x :: l) (y :: m)) ->
  forall l m, P l m.
Proof.
  intros H1 H2 H3. induction l as [|x l IHl]; [done|].
  induction m as [|y m IHm]; [done|]. apply H3; auto.
Qed.

Lemma elem_of_ids_union l m x : x ∈ ids_union l m <-> x ∈ l \/ x ∈ m.
Proof.
  revert l m. apply (merge_ind (fun l m => x ∈ ids_union l m <-> x ∈ l \/ x ∈ m)).
  - intros m. rewrite ids_union_nil_l. set_solver.
  - intros l. rewrite ids_union_nil_r. set_solver.
  - intros a l b m H1 H2 H3. rewrite ids_union_cons.
    destruct (Z.ltb_spec a b); [|destruct (Z.ltb_spec b a)].
    + rewrite !elem_of_cons, H1, !elem_of_cons. tauto.
    + rewrite !elem_of_cons, H2, !elem_of_cons. tauto.
    + assert (a = b) as -> by lia. rewrite !elem_of_cons, H3. tauto.
Qed.

Lemma increasing_cons x l : increasing (x :: l) <-> increasing l /\ forall y, y ∈ l -> x < y.
Proof.
  unfold increasing. split.
  - inversion 1 as [|?? ? Hf]; subst. rewrite Forall_forall in Hf. done.
  - intros [? Hf]. constructor; [done|]. by apply Forall_forall.
Qed.

Lemma increasing_ids_union l m : increasing l -> increasing m -> increasing (ids_union l m).
Proof.
  revert l m. apply (merge_ind (fun l m => increasing l -> increasing m -> increasing (ids_union l m))).
  - intros m. by rewrite ids_union_nil_l.
  - intros l. by rewrite ids_union_nil_r.
  - intros a l b m H1 H2 H3 Hl Hm. rewrite ids_union_cons.
    apply increasing_cons in Hl as Hl'. apply increasing_cons in Hm as Hm'.
    destruct Hl' as [Hl1 Hl2], Hm' as [Hm1 Hm2].
    destruct (Z.ltb_spec a b); [|destruct (Z.ltb_spec b a)]; apply increasing_cons; split; auto.
    + intros y. rewrite elem_of_ids_union, elem_of_cons. intros [Hy|[->|Hy]]; [auto|done|]. specialize (Hm2 y Hy). lia.
    + intros y. rewrite elem_of_ids_union, elem_of_cons. intros [[->|Hy]|Hy]; [done| |auto]. specialize (Hl2 y Hy). lia.
    + intros y. rewrite elem_of_ids_union. intros [Hy|Hy]; [auto|]. specialize (Hm2 y Hy). lia.
Qed.

Lemma length_ids_union l m : len l <= len (ids_union l m) <= len l + len m.
Proof.
  revert l m. apply (merge_ind (fun l m => len l <= len (ids_union l m) <= len l + len m)).
  - intros m. rewrite ids_union_nil_l. simpl. lia.
  - intros l. rewrite ids_union_nil_r. simpl. lia.
  - intros a l b m H1 H2 H3. rewrite ids_union_cons.
    destruct (a <? b); [|destruct (b <? a)]; simpl in *; lia.
Qed.

Lemma elem_of_keys_union A B k : k ∈ keys (adj_union A B) <-> k ∈ keys A \/ k ∈ keys B.
Proof.
  revert A B. apply (merge_ind (fun A B => k ∈ keys (adj_union A B) <-> k ∈ keys A \/ k ∈ keys B)).
  - intros B. rewrite adj_union_nil_l. set_solver.
  - intros A. rewrite adj_union_nil_r. set_solver.
  - intros [q l] A [f m] B H1 H2 H3. rewrite adj_union_cons.
    destruct (Z.ltb_spec q f); [|destruct (Z.ltb_spec f q)]; unfold keys in *; rewrite !fmap_cons; cbn [fst].
    + rewrite !elem_of_cons, H1, !fmap_cons, !elem_of_cons. simpl. tauto.
    + rewrite !elem_of_cons, H2, !fmap_cons, !elem_of_cons. simpl. tauto.
    + assert (q = f) as -> by lia. rewrite !elem_of_cons, H3. tauto.
Qed.

Lemma pairs_union A B p x : wf A -> wf B ->
  (p, x) ∈ pairs (adj_union A B) <-> (p, x) ∈ pairs A \/ (p, x) ∈ pairs B.
Proof.
  intros _ _. revert A B.
  apply (merge_ind (fun A B => (p, x) ∈ pairs (adj_union A B) <-> (p, x) ∈ pairs A \/ (p, x) ∈ pairs B)).
  - intros B. rewrite adj_union_nil_l. set_solver.
  - intros A. rewrite adj_union_nil_r. set_solver.
  - intros [q l] A [f m] B H1 H2 H3. rewrite adj_union_cons.
    destruct (Z.ltb_spec q f); [|destruct (Z.ltb_spec f q)]; rewrite !elem_of_pairs_cons.
    + rewrite H1, elem_of_pairs_cons. tauto.
    + rewrite H2, elem_of_pairs_cons. tauto.
    + assert (q = f) as -> by lia. rewrite H3, elem_of_ids_union. tauto.
Qed.

Lemma wf_cons e A : wf (e :: A) <-> wf_entry e /\ wf A /\ forall k, k ∈ keys A -> e.1 < k.
Proof.
  split.
  - intros [Hk He]. apply increasing_cons in Hk as [??]. apply Forall_cons in He as [??].
    by split_and!; [|split|].
  - intros (He&[Hk HA]&Hlt). split; [by apply increasing_cons|by constructor].
Qed.

Lemma wf_union A B : wf A -> wf B -> wf (adj_union A B).
Proof.
  revert A B. apply (merge_ind (fun A B => wf A -> wf B -> wf (adj_union A B))).
  - intros B. by rewrite adj_union_nil_l.
  - intros A. by rewrite adj_union_nil_r.
  - intros [q l] A [f m] B H1 H2 H3 HA HB. rewrite adj_union_cons.
    apply wf_cons in HA as HA'. apply wf_cons in HB as HB'.
    destruct HA' as (He&HA'&Hlt), HB' as (Hf&HB'&Hlt'). cbn [fst] in *.
    destruct (Z.ltb_spec q f); [|destruct (Z.ltb_spec f q)]; apply wf_cons; cbn [fst]; split_and!; auto.
    + intros k. rewrite elem_of_keys_union. unfold keys. rewrite fmap_cons, elem_of_cons. simpl.
      intros [Hk|[->|Hk]]; [auto|done|]. specialize (Hlt' k Hk). lia.
    + intros k. rewrite elem_of_keys_union. unfold keys. rewrite fmap_cons, elem_of_cons. simpl.
      intros [[->|Hk]|Hk]; [done| |auto]. specialize (Hlt k Hk). lia.
    + destruct He as [He1 He2 He3 He4], Hf as [_ _ Hf3 Hf4]. simpl in *. split; simpl; [done| | |].
      * intros E. destruct l as [|x l]; [done|].
        assert (x ∈ ids_union (x :: l) m) as Hx by (apply elem_of_ids_union; left; left).
        rewrite E in Hx. by apply elem_of_nil in Hx.
      * by apply increasing_ids_union.
      * rewrite Forall_forall in *. intros y [?|?]%elem_of_ids_union; auto.
    + intros k. rewrite elem_of_keys_union. intros [Hk|Hk]; [auto|]. specialize (Hlt' k Hk). lia.
Qed.

Lemma size_adj_union A B : size A <= size (adj_union A B) <= size A + size B /\
  len A <= len (adj_union A B) <= len A + len B.
Proof.
  revert A B. apply (merge_ind (fun A B => size A <= size (adj_union A B) <= size A + size B /\
    len A <= len (adj_union A B) <= len A + len B)).
  - intros B. rewrite adj_union_nil_l, size_nil. pose proof (size_nonneg B). simpl. lia.
  - intros A. rewrite adj_union_nil_r, size_nil. simpl. lia.
  - intros [q l] A [f m] B H1 H2 H3. rewrite adj_union_cons.
    destruct (q <? f); [|destruct (f <? q)]; rewrite !size_cons in *; cbn [snd] in *.
    + simpl in *. lia.
    + simpl in *. lia.
    + pose proof (length_ids_union l m). simpl in *. lia.
Qed.

(** A well-formed adjacency is determined by its pairs. *)
Lemma increasing_unique l m : increasing l -> increasing m -> (forall x, x ∈ l <-> x ∈ m) -> l = m.
Proof.
  intros Hl Hm H. apply sorted_unique; [by apply increasing_sorted..|].
  apply NoDup_Permutation; [by apply increasing_NoDup..|done].
Qed.

Lemma pairs_head q l A x : wf ((q, l) :: A) -> (q, x) ∈ pairs ((q, l) :: A) <-> x ∈ l.
Proof.
  intros (_&_&Hlt)%wf_cons. rewrite elem_of_pairs_cons. split; [|tauto]. intros [[_ ?]|Hx]; [done|].
  assert (q ∈ keys A) as Hk by (apply elem_of_pairs in Hx as (l'&?&_); apply list_elem_of_fmap; by exists (q, l')).
  specialize (Hlt q Hk). simpl in Hlt. lia.
Qed.

Lemma wf_head_le q l A p x : wf ((q, l) :: A) -> (p, x) ∈ pairs ((q, l) :: A) -> q <= p.
Proof.
  intros (_&_&Hlt)%wf_cons [[-> _]|Hx]%elem_of_pairs_cons; [done|].
  assert (p ∈ keys A) as Hk by (apply elem_of_pairs in Hx as (l'&?&_); apply list_elem_of_fmap; by exists (p, l')).
  specialize (Hlt p Hk). simpl in Hlt. lia.
Qed.

Lemma wf_has_pair q l A : wf ((q, l) :: A) -> exists x, (q, x) ∈ pairs ((q, l) :: A).
Proof.
  intros Hw. pose proof Hw as ([_ Hne _ _]&_&_)%wf_cons. simpl in Hne. destruct l as [|x l]; [done|].
  exists x. apply pairs_head; [done|left].
Qed.

Lemma wf_unique A B : wf A -> wf B -> (forall y, y ∈ pairs A <-> y ∈ pairs B) -> A = B.
Proof.
  revert B. induction A as [|[q l] A IH]; intros [|[f m] B] HA HB H; [done|..].
  - destruct (wf_has_pair _ _ _ HB) as [x Hx%H]. by apply elem_of_nil in Hx.
  - destruct (wf_has_pair _ _ _ HA) as [x Hx%H]. by apply elem_of_nil in Hx.
  - destruct (wf_has_pair _ _ _ HA) as [x Hx]. destruct (wf_has_pair _ _ _ HB) as [y Hy].
    assert (q = f) as ->.
    { apply H in Hx. apply H in Hy. apply (wf_head_le _ _ _ _ _ HB) in Hx. apply (wf_head_le _ _ _ _ _ HA) in Hy. lia. }
    pose proof HA as ([_ _ Hl _]&HA'&HltA)%wf_cons. pose proof HB as ([_ _ Hm _]&HB'&HltB)%wf_cons. cbn [fst snd] in *.
    assert (l = m) as ->.
    { apply increasing_unique; [done|done|]. intros z. rewrite <- (pairs_head f l A z HA), H. by apply pairs_head. }
    f_equal. apply IH; [done|done|]. intros [p z]. specialize (H (p, z)). rewrite !elem_of_pairs_cons in H.
    assert (forall C, (forall k, k ∈ keys C -> f < k) -> (p, z) ∈ pairs C -> p <> f) as Hne.
    { intros C HC Hz ->. assert (f ∈ keys C) as Hk
        by (apply elem_of_pairs in Hz as (l'&?&_); apply list_elem_of_fmap; by exists (f, l')).
      specialize (HC f Hk). lia. }
    pose proof (Hne A HltA). pose proof (Hne B HltB). tauto.
Qed.

(** * Inserting many pairs into one value list

    [KVstore::Insert_s2values] and [KVstore::Insert_o2values]
    (KVstore/KVstore.cpp): the pairs are grouped by predicate in an ordered map
    and merged with the old value list in two passes, first the predicates and
    then the ids.  As in [ValueUpdate] the two functions are one text over the
    offset [h] of the predicate table (3 and 2); [ent] says whether the entity
    number is kept.  Offsets and counters of type [int] are integers: their
    overflow is undefined in the source, and the theorems keep them below
    2{^31}. *)

(** ** The ordered maps *)

(** [mp[p].push_back(x)] on a [map<unsigned, vector<unsigned>>]. *)
Fixpoint mp_push (p x : Z) (mp : adj) : adj :=
  match mp with
  | [] => [(p, [x])]
  | (q, l) :: mp' =>
      if p <? q then (p, [x]) :: mp
      else if p =? q then (q, l ++ [x]) :: mp'
      else (q, l) :: mp_push p x mp'
  end.

(** The loop over [_pidoidlist]: the map, the number of pairs and the number of
    entities; an odd length reads past the end. *)
Fixpoint group_pairs (_list : list Z) (mp : adj) (n entity_num : Z) : option (adj * Z * Z) :=
  match _list with
  | [] => Some (mp, n, entity_num)
  | p :: x :: l => group_pairs l (mp_push p x mp) (n + 1) (entity_num + is_ent x)
  | [_] => None
  end.

Section Code.
Context (h : Z) (ent : bool) (enough : Z -> bool) (junk : nat -> Z).

(** [gs::ResourceUtil::IsEnoughMemoryMb] on the free memory of the machine; the
    code throws when it does not suffice. *)
Definition check_memory (n : Z) : option unit := if enough (4 * n) then Some tt else None.

(** [_values[2] = entity_num] for [s2values]. *)
Definition set_entity (vs : list Z) (entity_num : Z) : option (list Z) :=
  if ent then arr_set vs 2 (u32 entity_num) else Some vs.

(** [for (auto &it : mp) { _values[j] = it.first; j += 2; }]. *)
Fixpoint put_keys (mp : adj) (j : Z) (vs : list Z) : option (Z * list Z) :=
  match mp with
  | [] => Some (j, vs)
  | (p, _) :: mp' => vs ← arr_set vs j p; put_keys mp' (j + 2) vs
  end.

(** [for (auto &x : it.second) { _values[o_offset] = x; o_offset++; ... }], with
    the count of entities. *)
Fixpoint put_ids (l : list Z) (o cnt : Z) (vs : list Z) : option (Z * Z * list Z) :=
  match l with
  | [] => Some (o, cnt, vs)
  | x :: l' => vs ← arr_set vs o x; put_ids l' (o + 1) (cnt + is_ent x) vs
  end.

(** The second loop of the case without an old list: offsets and ids. *)
Fixpoint put_lists (mp : adj) (j len : Z) (vs : list Z) : option (Z * list Z) :=
  match mp with
  | [] => Some (len, vs)
  | (_, l) :: mp' =>
      vs ← arr_set vs j len;
      '(len, _, vs) ← put_ids l len 0 vs;
      put_lists mp' (j + 2) len vs
  end.

(** [if (!_len)]. *)
Definition insert_fresh (mp : adj) (n entity_num : Z) : option (list Z) :=
  let vs := new_array junk (h + 3 * n) in
  vs ← arr_set vs 0 n;
  vs ← arr_set vs 1 (len mp);
  vs ← set_entity vs entity_num;
  '(j, vs) ← put_keys mp h vs;
  '(l, vs) ← put_lists mp (h + 1) j vs;
  v0 ← arr_get vs 0;
  v1 ← arr_get vs 1;
  if u32 l =? (v0 ⊞ (2 ⊠ v1)) ⊞ h then
    _ ← check_memory l;
    arr_copy (new_array junk l) vs l
  else None.

(** The bound of the id list of the old predicate at [old_p_offset]. *)
Definition next_offset (_tmp : list Z) (_len old_p_len old_p_offset : Z) : option Z :=
  if old_p_len <? old_p_offset + 3 then Some (i32 _len)
  else x ← arr_get _tmp (old_p_offset + 3); Some (i32 x).

(** The three loops of "merge pid". *)
Definition merge_keys (_tmp : list Z) (old_p_len : Z) (s : adj * Z * Z * list Z)
    : option (adj * Z * Z * list Z) :=
  while (S (length s.1.1.1 + length _tmp))
    (fun '(it, old_p, p, vs) =>
       Some (match it with [] => false | _ => old_p <? old_p_len end))
    (fun '(it, old_p, p, vs) =>
       match it with
       | [] => None
       | (f, _) :: it' =>
           q ← arr_get _tmp old_p;
           if q <? f then vs ← arr_set vs p q; Some (it, old_p + 2, p + 2, vs)
           else if f <? q then vs ← arr_set vs p f; Some (it', old_p, p + 2, vs)
           else vs ← arr_set vs p f; Some (it', old_p + 2, p + 2, vs)
       end) s.

Definition merge_keys_old (_tmp : list Z) (old_p_len : Z) (s : Z * Z * list Z)
    : option (Z * Z * list Z) :=
  while (S (length _tmp))
    (fun '(old_p, p, vs) => Some (old_p <? old_p_len))
    (fun '(old_p, p, vs) =>
       q ← arr_get _tmp old_p; vs ← arr_set vs p q; Some (old_p + 2, p + 2, vs)) s.

Definition merge_all_keys (_tmp : list Z) (old_p_len : Z) (mp : adj) (vs : list Z)
    : option (Z * list Z) :=
  '(it, old_p, p, vs) ← merge_keys _tmp old_p_len (mp, h, h, vs);
  '(p, vs) ← put_keys it p vs;
  '(_, p, vs) ← merge_keys_old _tmp old_p_len (old_p, p, vs);
  Some (p, vs).

(** [while (old_o_offset < next_o_offset)]: copies old ids. *)
Definition copy_ids (_tmp : list Z) (next : Z) (s : Z * Z * Z * list Z)
    : option (Z * Z * Z * list Z) :=
  while (S (length _tmp))
    (fun '(old_o, o, cnt, vs) => Some (old_o <? next))
    (fun '(old_o, o, cnt, vs) =>
       x ← arr_get _tmp old_o; vs ← arr_set vs o x; Some (old_o + 1, o + 1, cnt + is_ent x, vs)) s.

(** The merge of the new ids [o_it] and the old ids from [old_o_offset]. *)
Definition merge_ids (_tmp : list Z) (next : Z) (s : list Z * Z * Z * Z * list Z)
    : option (list Z * Z * Z * Z * list Z) :=
  while (S (length s.1.1.1.1 + length _tmp))
    (fun '(o_it, old_o, o, cnt, vs) =>
       Some (match o_it with [] => false | _ => old_o <? next end))
    (fun '(o_it, old_o, o, cnt, vs) =>
       match o_it with
       | [] => None
       | y :: o_it' =>
           x ← arr_get _tmp old_o;
           if x <? y then vs ← arr_set vs o x; Some (o_it, old_o + 1, o + 1, cnt + is_ent x, vs)
           else if y <? x then vs ← arr_set vs o y; Some (o_it', old_o, o + 1, cnt + is_ent y, vs)
           else vs ← arr_set vs o x; Some (o_it', old_o + 1, o + 1, cnt + is_ent x, vs)
       end) s.

(** One predicate that both sides have. *)
Definition merge_list (_tmp : list Z) (next : Z) (oids : list Z) (old_o o cnt : Z) (vs : list Z)
    : option (Z * Z * list Z) :=
  '(o_it, old_o, o, cnt, vs) ← merge_ids _tmp next (oids, old_o, o, cnt, vs);
  '(o, cnt, vs) ← put_ids o_it o cnt vs;
  '(_, o, cnt, vs) ← copy_ids _tmp next (old_o, o, cnt, vs);
  Some (o, cnt, vs).

(** [if (p_offset + 3 < p_len) _values[p_offset + 3] = o_offset;]. *)
Definition put_next (p_len p o : Z) (vs : list Z) : option (list Z) :=
  if p + 3 <? p_len then arr_set vs (p + 3) (u32 o) else Some vs.

Abbreviation mstate := (adj * Z * Z * Z * Z * list Z)%type.

(** The three branches of the second pass: [it], [old_p_offset], [o_offset], the
    entity count and the array. *)
Definition merge_step (_tmp : list Z) (_len old_p_len : Z) (f : Z) (oids : list Z) (it' : adj)
    (old_p p o cnt : Z) (vs : list Z) : option (adj * Z * Z * Z * list Z) :=
  next ← next_offset _tmp _len old_p_len old_p;
  k ← arr_get vs p;
  q ← arr_get _tmp old_p;
  if (k =? f) && (k =? q) then
    old_o ← arr_get _tmp (old_p + 1);
    '(o, cnt, vs) ← merge_list _tmp next oids (i32 old_o) o cnt vs;
    Some (it', old_p + 2, o, cnt, vs)
  else if (k =? f) && negb (k =? q) then
    '(o, cnt, vs) ← put_ids oids o cnt vs;
    Some (it', old_p, o, cnt, vs)
  else if negb (k =? f) && (k =? q) then
    old_o ← arr_get _tmp (old_p + 1);
    '(_, o, cnt, vs) ← copy_ids _tmp next (i32 old_o, o, cnt, vs);
    Some ((f, oids) :: it', old_p + 2, o, cnt, vs)
  else Some ((f, oids) :: it', old_p, o, cnt, vs).

(** While both sides have predicates left. *)
Definition merge_both (_tmp : list Z) (_len old_p_len p_len : Z) (s : mstate) : option mstate :=
  while (S (length s.1.1.1.1.1 + length _tmp))
    (fun '(it, old_p, p, o, cnt, vs) =>
       Some (match it with [] => false | _ => old_p <? old_p_len end))
    (fun '(it, old_p, p, o, cnt, vs) =>
       match it with
       | [] => None
       | (f, oids) :: it' =>
           '(it, old_p, o, cnt, vs) ←
             merge_step _tmp _len old_p_len f oids it' old_p p o cnt vs;
           vs ← put_next p_len p o vs;
           Some (it, old_p, p + 2, o, cnt, vs)
       end) s.

(** The new predicates that are left; the [assert] is part of the code. *)
Fixpoint merge_new (p_len : Z) (it : adj) (p o cnt : Z) (vs : list Z)
    : option (Z * Z * Z * list Z) :=
  match it with
  | [] => Some (p, o, cnt, vs)
  | (f, oids) :: it' =>
      k ← arr_get vs p;
      if k =? f then
        '(o, cnt, vs) ← put_ids oids o cnt vs;
        vs ← put_next p_len p o vs;
        merge_new p_len it' (p + 2) o cnt vs
      else None
  end.

(** The old predicates that are left. *)
Definition merge_old (_tmp : list Z) (_len old_p_len p_len : Z) (s : Z * Z * Z * Z * list Z)
    : option (Z * Z * Z * Z * list Z) :=
  while (S (length _tmp))
    (fun '(old_p, p, o, cnt, vs) => Some (old_p <? old_p_len))
    (fun '(old_p, p, o, cnt, vs) =>
       k ← arr_get vs p;
       q ← arr_get _tmp old_p;
       if k =? q then
         old_o ← arr_get _tmp (old_p + 1);
         next ← next_offset _tmp _len old_p_len old_p;
         '(_, o, cnt, vs) ← copy_ids _tmp next (i32 old_o, o, cnt, vs);
         vs ← put_next p_len p o vs;
         Some (old_p + 2, p + 2, o, cnt, vs)
       else None) s.

(** "merge pid", with the number of predicates and the first offset. *)
Definition merge_pids (_tmp : list Z) (old_p_len : Z) (mp : adj) (vs : list Z)
    : option (Z * list Z) :=
  '(p_len, vs) ← merge_all_keys _tmp old_p_len mp vs;
  vs ← arr_set vs 1 (u32 ((p_len - (h - 2)) / 2 - 1));
  vs ← arr_set vs (h + 1) (u32 p_len);
  Some (p_len, vs).

(** "merge sid". *)
Definition merge_all_ids (_tmp : list Z) (_len old_p_len p_len : Z) (mp : adj) (vs : list Z)
    : option (Z * Z * list Z) :=
  '(it, old_p, p, o, cnt, vs) ← merge_both _tmp _len old_p_len p_len (mp, h, h, p_len, 0, vs);
  '(p, o, cnt, vs) ← merge_new p_len it p o cnt vs;
  '(_, _, o, cnt, vs) ← merge_old _tmp _len old_p_len p_len (old_p, p, o, cnt, vs);
  Some (o, cnt, vs).

(** The case with an old list: [memset], both passes, the header and the copy. *)
Definition insert_merge (mp : adj) (n : Z) (_tmp : list Z) : option (list Z) :=
  let _len := len _tmp in
  let vs := replicate (Z.to_nat (_len + 3 * n)) 0 in
  _ ← check_memory (_len + 3 * n);
  t1 ← arr_get _tmp 1;
  let old_p_len := i32 ((t1 ⊠ 2) ⊞ h) in
  '(p_len, vs) ← merge_pids _tmp old_p_len mp vs;
  '(o, cnt, vs) ← merge_all_ids _tmp _len old_p_len p_len mp vs;
  v1 ← arr_get vs 1;
  vs ← arr_set vs 0 (u32 (o - h - v1 * 2));
  vs ← set_entity vs cnt;
  _ ← check_memory o;
  arr_copy (new_array junk o) vs o.

(** [Insert_s2values], [Insert_o2values]: the new value list and the number of
    pairs it gained; an absent old list has length 0. *)
Definition Insert_values (_list : list Z) (_tmp : list Z) : option (list Z * Z) :=
  match _list with
  | [] => Some (_tmp, 0)
  | _ =>
      '(mp, n, entity_num) ← group_pairs _list [] 0 0;
      if len _tmp =? 0 then
        v ← insert_fresh mp n entity_num;
        v0 ← arr_get v 0; Some (v, v0)
      else
        v ← insert_merge mp n _tmp;
        v0 ← arr_get v 0; t0 ← arr_get _tmp 0; Some (v, v0 ⊟ t0)
  end.
End Code.

Definition Insert_s2values (enough : Z -> bool) (junk : nat -> Z) :=
  Insert_values 3 true enough junk.
Definition Insert_o2values (junk : nat -> Z) := Insert_values 2 false (fun _ => true) junk.
