(* ===== verification/BatchInsertSpec.v ===== *)
(** * The batch insertion is a union

    Correctness of [BatchInsert]: on the encoding of an adjacency [A] and the
    pairs of an adjacency [B] it computes the encoding of [adj_union A B]. *)

From S2P Require Import Prelude Util ValueList Adjacency ValueUpdate ValueSpec PreList ValueRead BatchInsert.

Definition W31 : Z := 2147483648.

(** The number of entities of an id list. *)
Definition ents (l : list Z) : Z := len (filter (fun x => is_entity_ele x = true) l).

Lemma ents_app l m : ents (l ++ m) = ents l + ents m.
Proof. unfold ents. rewrite filter_app, length_app. lia. Qed.
Lemma ents_cons x l : ents (x :: l) = is_ent x + ents l.
Proof.
  pose proof (entities_mid [] x l) as Hm. cbn [app] in Hm. unfold ents. lia.
Qed.
Lemma ents_bounds l : 0 <= ents l <= len l.
Proof. unfold ents. pose proof (length_filter (fun x => is_entity_ele x = true) l). lia. Qed.
Lemma entities_ents A : entities A = ents (body A).
Proof. done. Qed.

(** ** Grouping *)

Lemma mp_push_app A p x C :
  Forall (fun q => q < p) (keys A) -> mp_push p x (A ++ C) = A ++ mp_push p x C.
Proof.
  induction A as [|[q l] A IH]; intros Hf; [done|]. unfold keys in Hf. rewrite fmap_cons in Hf.
  apply Forall_cons in Hf as [Hq Hf]. simpl in *. rewrite (proj2 (Z.ltb_ge _ _)) by lia.
  rewrite (proj2 (Z.eqb_neq _ _)) by lia. by rewrite IH.
Qed.

Lemma pairs_app A B : pairs (A ++ B) = pairs A ++ pairs B.
Proof. apply bind_app. Qed.

(** The largest pair goes to the end. *)
Lemma mp_push_last mp p x :
  wf mp -> word p -> word x -> (forall y, y ∈ pairs mp -> lex_lt y (p, x)) ->
  wf (mp_push p x mp) /\ pairs (mp_push p x mp) = pairs mp ++ [(p, x)].
Proof.
  intros Hwf Hp Hx Hlt. destruct mp as [|[q l] A _] using rev_ind.
  { split; [|done]. apply wf_cons. split_and!; [|done|by intros ? ?%elem_of_nil].
    split; simpl; [done|done|apply increasing_singleton|by constructor]. }
  destruct (wf_app _ _ Hwf) as (HwfA&Hwfq&HAq). apply wf_cons in Hwfq as (Hq&_&_).
  pose proof Hq as [Hq1 Hq2 Hq3 Hq4]. simpl in *.
  destruct l as [|y l _] using rev_ind; [done|].
  assert (lex_lt (q, y) (p, x)) as Hqy.
  { apply Hlt. rewrite pairs_app. apply elem_of_app. right. apply elem_of_pairs_cons. left. set_solver. }
  assert (Forall (fun k => k < q) (keys A)) as HkA.
  { apply Forall_forall. intros k Hk. apply HAq; [done|left]. }
  assert (q <= p) as Hle by (unfold lex_lt in Hqy; simpl in Hqy; lia).
  rewrite mp_push_app by (eapply Forall_impl; [exact HkA|]; simpl; lia). cbn [mp_push].
  rewrite (proj2 (Z.ltb_ge _ _)) by lia. destruct (Z.eqb_spec p q) as [->|Hne].
  - assert (y < x) as Hyx by (unfold lex_lt in Hqy; simpl in Hqy; lia). split.
    + apply (wf_middle _ _ _ _ _ Hwf). split; simpl; [done|by destruct l| |by apply Forall_app; split; [|constructor]].
      apply increasing_app in Hq3 as Hq3'. destruct Hq3' as (_&_&Hl).
      apply increasing_app. split_and!; [done|apply increasing_singleton|].
      intros a b Ha Hb. apply list_elem_of_singleton in Hb as ->.
      apply elem_of_app in Ha as [Ha|Ha%list_elem_of_singleton]; [|lia].
      specialize (Hl a y Ha ltac:(left)). lia.
    + rewrite !pairs_app, <- !app_assoc. f_equal. unfold pairs. cbn.
      by rewrite !app_nil_r, !fmap_app, <- app_assoc.
  - split.
    + replace (A ++ [(q, l ++ [y]); (p, [x])]) with ((A ++ [(q, l ++ [y])]) ++ (p, [x]) :: [])
        by (by rewrite <- app_assoc).
      apply wf_between; [by rewrite app_nil_r| |constructor|].
      * rewrite keys_app. apply Forall_app. split; [eapply Forall_impl; [exact HkA|]; simpl; lia|].
        constructor; [simpl; lia|constructor].
      * split; simpl; [done|done|apply increasing_singleton|by constructor].
    + unfold pairs. rewrite !bind_app. cbn. by rewrite <- !app_assoc.
Qed.

Lemma entities_pairs A : entities A = ents (pairs A).*2.
Proof.
  induction A as [|[p l] A IH]; [done|]. rewrite entities_cons, IH. unfold pairs. cbn.
  rewrite fmap_app, ents_app, <- list_fmap_compose, list_fmap_id. done.
Qed.

Lemma group_pairs_spec P mp n e :
  wf mp -> lex_sorted P -> Forall (fun y => word y.1 /\ word y.2) P ->
  (forall y z, y ∈ pairs mp -> z ∈ P -> lex_lt y z) -> n = size mp -> e = entities mp ->
  exists B, group_pairs (flat P) mp n e = Some (B, size B, entities B) /\
    wf B /\ pairs B = pairs mp ++ P.
Proof.
  revert mp n e. induction P as [|[p x] P IH]; intros mp n e Hwf Hs Hw Hlt -> ->.
  { exists mp. by rewrite app_nil_r. }
  apply Forall_cons in Hw as [[Hp Hx] Hw]. inversion Hs as [|?? Hs' Hf]; subst. rewrite Forall_forall in Hf.
  destruct (mp_push_last mp p x Hwf Hp Hx) as [Hwf' Hpr]. { intros y Hy. apply Hlt; [done|left]. }
  assert (size (mp_push p x mp) = size mp + 1) as Hsz.
  { rewrite <- !length_pairs, Hpr. len_lia. }
  assert (entities (mp_push p x mp) = entities mp + is_ent x) as Hen.
  { rewrite !entities_pairs, Hpr, fmap_app, ents_app. cbn [fmap list_fmap snd]. rewrite ents_cons. change (ents []) with 0. lia. }
  destruct (IH (mp_push p x mp) (size mp + 1) (entities mp + is_ent x)) as (B&HB&HwfB&HpB); try done.
  { intros y z. rewrite Hpr, elem_of_app. intros [Hy|Hy%list_elem_of_singleton] Hz.
    - apply Hlt; [done|by right].
    - subst y. by apply Hf. }
  exists B. cbn [flat mbind list_bind app]. split_and!; [exact HB|done|].
  by rewrite HpB, Hpr, <- app_assoc.
Qed.

(** ** Emitting ids *)

Lemma put_ids_spec l out o n vs cnt :
  o = len out -> len out + len l <= n -> filled out n vs ->
  wp (put_ids l o cnt vs) (fun '(o, c, vs') =>
    o = len out + len l /\ c = cnt + ents l /\ filled (out ++ l) n vs').
Proof.
  revert out o vs cnt. induction l as [|x l IH]; intros out o vs cnt -> Hn Hf.
  - simpl. rewrite app_nil_r. split_and!; [lia|unfold ents; simpl; lia|done].
  - cbn [put_ids]. len_simp. eapply wp_emit; [exact Hf|done|lia|]. intros v' Hv'.
    eapply wp_mono; [|apply IH; [| |exact Hv']; len_lia].
    intros [[o c] vs'] (->&->&Hf'). rewrite ents_cons, <- app_assoc in *.
    split_and!; [len_lia|lia|done].
Qed.

Lemma copy_ids_spec _tmp pre l post next old out o n vs cnt :
  o = len out -> _tmp = pre ++ l ++ post -> old = len pre -> next = len pre + len l ->
  len out + len l <= n -> filled out n vs ->
  wp (copy_ids _tmp next (old, o, cnt, vs)) (fun '(old', o, c, vs') =>
    old' = len pre + len l /\ o = len out + len l /\ c = cnt + ents l /\ filled (out ++ l) n vs').
Proof.
  intros -> -> -> -> Hn Hf. unfold copy_ids.
  eapply (wp_while (fun '(old, o, c, vs') => exists la lb, l = la ++ lb /\ old = len pre + len la /\
            o = len out + len la /\ c = cnt + ents la /\ filled (out ++ la) n vs')
          (fun '(old, _, _, _) => Z.to_nat (len pre + len l - old))).
  - exists [], l. rewrite app_nil_r. unfold ents. simpl. split_and!; [done|lia..|done].
  - len_lia.
  - intros [[[old o] c] vs'] (la&lb&->&->&->&->&Hf'). len_simp. cbn [wp].
    destruct (Z.ltb_spec (len pre + len la) (len pre + (len la + len lb))); cycle 1.
    { destruct lb; [|len_lia]. rewrite app_nil_r. split_and!; [len_lia|lia|done|done]. }
    destruct lb as [|x lb]; [len_lia|].
    eapply wp_get. { rewrite <- app_assoc, app_assoc. apply arr_get_app_mid. len_lia. }
    eapply wp_emit; [exact Hf'|len_lia|len_lia|]. intros v' Hv'. cbn [wp]. split; [|len_lia].
    exists (la ++ [x]), lb. rewrite ents_app, ents_cons, <- !app_assoc in *.
    split_and!; [done|len_lia|len_lia|unfold ents; simpl; lia|done].
Qed.

Lemma merge_ids_spec _tmp pre l post m next old out o n vs cnt :
  o = len out -> _tmp = pre ++ l ++ post -> old = len pre -> next = len pre + len l ->
  len out + len l + len m <= n -> filled out n vs ->
  wp (merge_ids _tmp next (m, old, o, cnt, vs)) (fun '(m2, old2, o, c, vs') =>
    exists la lb out2, l = la ++ lb /\ old2 = len pre + len la /\ o = len out + len out2 /\
      c = cnt + ents out2 /\ filled (out ++ out2) n vs' /\ ids_union l m = out2 ++ m2 ++ lb /\
      (m2 = [] \/ lb = [])).
Proof.
  intros -> -> -> -> Hn Hf. unfold merge_ids.
  eapply (wp_while (fun '(m2, old2, o, c, vs') => exists la lb out2, l = la ++ lb /\
            old2 = len pre + len la /\ o = len out + len out2 /\ c = cnt + ents out2 /\
            filled (out ++ out2) n vs' /\ out2 ++ ids_union lb m2 = ids_union l m /\
            len out2 + len lb + len m2 <= len l + len m)
          (fun '(m2, old2, _, _, _) => (length m2 + Z.to_nat (len pre + len l - old2))%nat)).
  - exists [], l, []. rewrite app_nil_r. unfold ents. simpl. split_and!; [done|lia..|done|done|lia].
  - cbn [fst]. len_lia.
  - intros [[[[m2 old2] o] c] vs'] (la&lb&out2&->&->&->&->&Hf'&Hu&Hl). len_simp. cbn [wp].
    destruct m2 as [|y m2].
    { exists la, lb, out2. rewrite ids_union_nil_r in Hu. split_and!; try done. by left. }
    destruct (Z.ltb_spec (len pre + len la) (len pre + (len la + len lb))); cycle 1.
    { destruct lb; [|len_lia]. exists la, [], out2. rewrite ids_union_nil_l in Hu.
      split_and!; rewrite ?app_nil_r in *; try done. by right. }
    destruct lb as [|x lb]; [len_lia|].
    eapply wp_get. { rewrite <- app_assoc, app_assoc. apply arr_get_app_mid. len_lia. }
    rewrite ids_union_cons in Hu.
    destruct (Z.ltb_spec x y); [|destruct (Z.ltb_spec y x)];
      (eapply wp_emit; [exact Hf'|len_lia|len_lia|]; intros v' Hv'; cbn [wp]; split; [|len_lia]).
    + exists (la ++ [x]), lb, (out2 ++ [x]). rewrite ents_app, ents_cons, <- !app_assoc in *.
      split_and!; [done|len_lia|len_lia|unfold ents; simpl; lia|done|done|len_lia].
    + exists la, (x :: lb), (out2 ++ [y]). rewrite ents_app, ents_cons, <- !app_assoc in *.
      split_and!; [done|len_lia|len_lia|unfold ents; simpl; lia|done|done|len_lia].
    + exists (la ++ [x]), lb, (out2 ++ [x]). rewrite ents_app, ents_cons, <- !app_assoc in *.
      split_and!; [done|len_lia|len_lia|unfold ents; simpl; lia|done|done|len_lia].
Qed.

Lemma merge_list_spec _tmp pre l post m next old out o n vs cnt :
  o = len out -> _tmp = pre ++ l ++ post -> old = len pre -> next = len pre + len l ->
  len out + len l + len m <= n -> filled out n vs ->
  wp (merge_list _tmp next m old o cnt vs) (fun '(o, c, vs') =>
    o = len out + len (ids_union l m) /\ c = cnt + ents (ids_union l m) /\
    filled (out ++ ids_union l m) n vs').
Proof.
  intros -> Ht Ho Hnx Hn Hf. unfold merge_list. apply wp_bind.
  eapply wp_mono; [|by eapply merge_ids_spec]. pose proof (length_ids_union l m).
  intros [[[[m2 old2] o] c] v1] (la&lb&out2&->&->&->&->&Hf1&Hu&Hend). rewrite Hu in *. apply wp_bind.
  eapply wp_mono; [|eapply put_ids_spec; [| |exact Hf1]; len_lia].
  intros [[o c] v2] (->&->&Hf2). apply wp_bind.
  eapply wp_mono; [|eapply (copy_ids_spec _tmp (pre ++ la) lb post); [| | | | |exact Hf2];
                    [len_lia|by rewrite Ht, <- !app_assoc|len_lia..]].
  intros [[[old' o] c] v3] (_&->&->&Hf3). cbn [wp]. rewrite !ents_app, <- !app_assoc in *.
  split_and!; [len_lia|lia|done].
Qed.

(** ** The first pass: predicates at every second cell *)

(** Writing a predicate and leaving the cell of its offset. *)
Lemma wp_emit_key {B} hd (K : list (Z * Z)) n v j x (k : list Z -> option B) Q :
  filled (hd ++ flat K) n v -> j = len hd + 2 * len K -> j + 2 <= n ->
  (forall v' c, filled (hd ++ flat (K ++ [(x, c)])) n v' -> wp (k v') Q) ->
  wp (arr_set v j x ≫= k) Q.
Proof.
  intros Hf -> Hle Hk. pose proof (length_flat K). eapply wp_emit; [exact Hf|len_lia|len_lia|].
  intros v' (rest&->&Hl). destruct rest as [|c rest]; [len_lia|]. apply (Hk _ c). exists rest.
  rewrite flat_app, <- !app_assoc in *. split; [done|len_lia].
Qed.

Lemma put_keys_spec mp hd (K : list (Z * Z)) n p vs :
  p = len hd + 2 * len K -> p + 2 * len mp <= n -> filled (hd ++ flat K) n vs ->
  wp (put_keys mp p vs) (fun '(p', vs') => exists K', p' = len hd + 2 * len K' /\
    K'.*1 = K.*1 ++ keys mp /\ filled (hd ++ flat K') n vs').
Proof.
  revert K p vs. induction mp as [|[f l] mp IH]; intros K p vs -> Hn Hf.
  - simpl. exists K. by rewrite app_nil_r.
  - cbn [put_keys]. eapply wp_emit_key; [exact Hf|done|len_lia|]. intros v' c Hv'.
    eapply wp_mono; [|eapply (IH (K ++ [(f, c)])); [| |exact Hv']; len_lia].
    intros [p' vs'] (K'&->&HK&Hf'). exists K'. split_and!; [done| |done].
    by rewrite HK, fmap_app, <- app_assoc.
Qed.

Section Keys.
Context (hdr : list Z) (A : adj).
Abbreviation tmp := (layout hdr A).
Abbreviation plen := (len hdr + 2 * len A).

Lemma tmp_key A1 p l A2 : A = A1 ++ (p, l) :: A2 ->
  arr_get tmp (len hdr + 2 * len A1) = Some p.
Proof. intros HA. unfold layout. rewrite HA at 2. by apply get_table_key. Qed.

Lemma tmp_off A1 p l A2 : A = A1 ++ (p, l) :: A2 ->
  arr_get tmp (len hdr + 2 * len A1 + 1) = Some (plen + size A1).
Proof. intros HA. unfold layout. rewrite HA at 2. by apply get_table_off. Qed.

Lemma next_offset_spec A1 p l A2 : A = A1 ++ (p, l) :: A2 -> len tmp < W31 ->
  next_offset tmp (len tmp) plen (len hdr + 2 * len A1) = Some (plen + size A1 + len l).
Proof.
  intros HA Hlt. pose proof (length_layout hdr A). unfold next_offset, W31 in *.
  assert (size A = size A1 + len l + size A2) as Hs by (rewrite HA, size_app, size_cons; cbn; lia).
  pose proof (size_nonneg A1). pose proof (size_nonneg A2).
  assert (len A = len A1 + 1 + len A2) as Hl by (rewrite HA; len_lia).
  destruct A2 as [|[q m] A2].
  - rewrite (proj2 (Z.ltb_lt _ _)) by len_lia. rewrite i32_small by lia. rewrite size_nil in *. f_equal. len_lia.
  - rewrite (proj2 (Z.ltb_ge _ _)) by len_lia.
    assert (A = (A1 ++ [(p, l)]) ++ (q, m) :: A2) as HA' by (by rewrite HA, <- app_assoc).
    pose proof (tmp_off _ _ _ _ HA') as Hg.
    replace (len hdr + 2 * len (A1 ++ [(p, l)]) + 1) with (len hdr + 2 * len A1 + 3) in Hg by len_lia.
    rewrite Hg. cbn [mbind option_bind]. rewrite size_app, size_cons, size_nil. cbn [snd].
    f_equal. rewrite i32_small; lia.
Qed.

Lemma merge_keys_spec hd B n vs :
  len hd = len hdr -> filled hd n vs -> plen + 2 * len B <= n ->
  wp (merge_keys tmp plen (B, len hdr, len hdr, vs)) (fun '(it, old_p, p, vs') =>
    exists A1 A2 K, A = A1 ++ A2 /\ old_p = len hdr + 2 * len A1 /\ p = len hdr + 2 * len K /\
      len K + len A2 + len it <= len A + len B /\ filled (hd ++ flat K) n vs' /\
      K.*1 ++ keys (adj_union A2 it) = keys (adj_union A B) /\ (A2 = [] \/ it = [])).
Proof.
  intros Hhd Hf Hn. unfold merge_keys.
  eapply (wp_while (fun '(it, old_p, p, vs') =>
    exists A1 A2 K, A = A1 ++ A2 /\ old_p = len hdr + 2 * len A1 /\ p = len hdr + 2 * len K /\
      len K + len A2 + len it <= len A + len B /\ filled (hd ++ flat K) n vs' /\
      K.*1 ++ keys (adj_union A2 it) = keys (adj_union A B))
    (fun '(it, old_p, _, _) => (length it + Z.to_nat (plen - old_p))%nat)).
  - exists [], A, []. rewrite app_nil_r. split_and!; [done|len_lia..|done|done].
  - cbn [fst]. pose proof (length_layout hdr A). pose proof (size_nonneg A). len_lia.
  - intros [[[it old_p] p] vs'] (A1&A2&K&HA&->&->&HK&Hf'&Hu). cbn [wp].
    destruct it as [|[f m] it].
    { exists A1, A2, K. split_and!; try done. by right. }
    assert (len A = len A1 + len A2) as Hl by (rewrite HA; len_lia).
    destruct A2 as [|[q l] A2].
    { rewrite (proj2 (Z.ltb_ge _ _)) by len_lia. exists A1, [], K. split_and!; try done. by left. }
    rewrite (proj2 (Z.ltb_lt _ _)) by len_lia. eapply wp_get; [by eapply tmp_key|].
    rewrite adj_union_cons in Hu.
    destruct (Z.ltb_spec q f); [|destruct (Z.ltb_spec f q)];
      (eapply wp_emit_key; [exact Hf'|len_lia|len_lia|]; intros v' c Hv'; cbn [wp]; split; [|len_lia]).
    + exists (A1 ++ [(q, l)]), A2, (K ++ [(q, c)]). rewrite fmap_app, <- !app_assoc.
      split_and!; [done|len_lia..|done|done].
    + exists A1, ((q, l) :: A2), (K ++ [(f, c)]). rewrite fmap_app, <- !app_assoc.
      split_and!; [done|len_lia..|done|done].
    + exists (A1 ++ [(q, l)]), A2, (K ++ [(f, c)]). rewrite fmap_app, <- !app_assoc.
      assert (q = f) as -> by lia. split_and!; [done|len_lia..|done|done].
Qed.

Lemma merge_keys_old_spec hd A1 A2 (K : list (Z * Z)) n p old_p vs :
  A = A1 ++ A2 -> old_p = len hdr + 2 * len A1 -> p = len hdr + 2 * len K -> len hd = len hdr ->
  p + 2 * len A2 <= n -> filled (hd ++ flat K) n vs ->
  wp (merge_keys_old tmp plen (old_p, p, vs)) (fun '(_, p', vs') => exists K',
    p' = len hdr + 2 * len K' /\ K'.*1 = K.*1 ++ keys A2 /\ filled (hd ++ flat K') n vs').
Proof.
  intros HA -> -> Hhd Hn Hf. unfold merge_keys_old.
  eapply (wp_while (fun '(old_p, p, vs') => exists Aa Ab K', A = Aa ++ Ab /\
      old_p = len hdr + 2 * len Aa /\ p = len hdr + 2 * len K' /\ p + 2 * len Ab <= n /\
      K'.*1 ++ keys Ab = K.*1 ++ keys A2 /\ filled (hd ++ flat K') n vs')
    (fun '(old_p, _, _) => Z.to_nat (plen - old_p))).
  - by exists A1, A2, K.
  - pose proof (length_layout hdr A). pose proof (size_nonneg A). len_lia.
  - intros [[old_p p] vs'] (Aa&Ab&K'&HA'&->&->&Hn'&HK&Hf'). cbn [wp].
    assert (len A = len Aa + len Ab) as Hl by (rewrite HA'; len_lia).
    destruct Ab as [|[q l] Ab].
    { rewrite (proj2 (Z.ltb_ge _ _)) by len_lia. exists K'. cbn in HK. rewrite app_nil_r in HK. done. }
    rewrite (proj2 (Z.ltb_lt _ _)) by len_lia. eapply wp_get; [by eapply tmp_key|].
    eapply wp_emit_key; [exact Hf'|len_lia|len_lia|]. intros v' c Hv'. cbn [wp]. split; [|len_lia].
    exists (Aa ++ [(q, l)]), Ab, (K' ++ [(q, c)]). rewrite fmap_app, <- !app_assoc.
    split_and!; [done|len_lia..|done|done].
Qed.

Lemma merge_all_keys_spec hd B n vs :
  len hd = len hdr -> filled hd n vs -> plen + 2 * len B <= n ->
  wp (merge_all_keys (len hdr) tmp plen B vs) (fun '(p, vs') => exists K,
    p = len hdr + 2 * len K /\ K.*1 = keys (adj_union A B) /\ filled (hd ++ flat K) n vs').
Proof.
  intros Hhd Hf Hn. unfold merge_all_keys. apply wp_bind.
  eapply wp_mono; [|by eapply (merge_keys_spec hd)].
  intros [[[it old_p] p] v1] (A1&A2&K&HA&->&->&HK&Hf1&Hu&Hend). apply wp_bind.
  eapply wp_mono; [|eapply (put_keys_spec it hd K n); [len_lia| |exact Hf1]; len_lia].
  intros [p v2] (K2&->&HK2&Hf2). apply wp_bind.
  assert (len K2 = len K + len it) as HlK.
  { rewrite <- (length_fmap fst K2), HK2, length_app, length_fmap, length_keys. lia. }
  eapply wp_mono; [|eapply (merge_keys_old_spec hd A1 A2 K2 n); [done|done|len_lia..|exact Hf2]].
  intros [[o p] v3] (K3&->&HK3&Hf3). cbn [wp]. exists K3. split_and!; [done| |done].
  rewrite HK3, HK2, <- Hu, <- app_assoc. f_equal.
  destruct Hend as [->| ->]; [by rewrite adj_union_nil_l; cbn; rewrite app_nil_r|by rewrite adj_union_nil_r].
Qed.
End Keys.

(** ** The second pass: offsets and ids

    [pend hd U D R n vs]: the lists of the predicates [D] are written, those of
    [R] are not; the offset of the first predicate of [R] is. *)
Definition pend (hd : list Z) (base : Z) (D R : adj) (n : Z) (vs : list Z) : Prop :=
  exists K : list (Z * Z), K.*1 = keys R /\ (forall k o K', K = (k, o) :: K' -> o = base + size D) /\
    filled (hd ++ table base D ++ flat K ++ body D) n vs.

Lemma pend_key hd base D k l R n vs :
  pend hd base D ((k, l) :: R) n vs -> arr_get vs (len hd + 2 * len D) = Some k.
Proof.
  intros (K&HK&_&Hf). destruct K as [|[k' o] K]; [done|]. injection HK as -> _.
  pose proof (length_table base D). eapply filled_get; [exact Hf|].
  rewrite (app_assoc hd). apply arr_get_app_mid. len_lia.
Qed.

(** The array while the list [l] of the next predicate is written. *)
Lemma pend_filled hd base D R n vs :
  pend hd base D R n vs -> base = len hd + 2 * len (D ++ R) ->
  exists out, filled out n vs /\ len out = base + size D /\
    forall l v, filled (out ++ l) n v -> exists K, K.*1 = keys R /\
      (forall k o K', K = (k, o) :: K' -> o = base + size D) /\
      filled (hd ++ table base D ++ flat K ++ body D ++ l) n v.
Proof.
  intros (K&HK&Ho&Hf) Hb. eexists. split_and!; [exact Hf| |].
  - pose proof (length_table base D). pose proof (length_flat K). unfold size.
    assert (len K = len R) as HlK by (rewrite <- (length_fmap fst K), HK, length_keys; done). len_lia.
  - intros l v Hv. exists K. rewrite <- !app_assoc in Hv. done.
Qed.

Lemma wp_put_next {B} hd base D k0 l0 l R n p_len p o v (f : list Z -> option B) Q :
  (exists K, K.*1 = keys ((k0, l0) :: R) /\
     (forall k o K', K = (k, o) :: K' -> o = base + size D) /\
     filled (hd ++ table base D ++ flat K ++ body D ++ l) n v) ->
  p = len hd + 2 * len D -> p_len = len hd + 2 * len D + 2 + 2 * len R ->
  o = base + size D + len l -> 0 <= o < W32 ->
  (forall v', pend hd base (D ++ [(k0, l)]) R n v' -> wp (f v') Q) ->
  wp (put_next p_len p o v ≫= f) Q.
Proof.
  intros (K&HK&Ho&Hf) -> -> -> Hw Hk. unfold put_next.
  assert (len K = len R + 1) as HlK by (rewrite <- (length_fmap fst K), HK, length_keys; len_lia).
  destruct K as [|[k o'] K]; [done|]. injection HK as -> HK. rewrite (Ho _ _ _ eq_refl) in Hf.
  pose proof (length_table base D).
  destruct K as [|[k1 o1] K].
  - destruct R; [|len_lia]. rewrite (proj2 (Z.ltb_ge _ _)) by len_lia. apply Hk. exists [].
    split_and!; [done|done|]. rewrite table_app, body_app. cbn in *. rewrite app_nil_r, <- !app_assoc in *. done.
  - rewrite (proj2 (Z.ltb_lt _ _)) by len_lia. wsimp.
    eapply (wp_update (hd ++ table base D ++ [k0; base + size D; k1])); [|len_lia|].
    + rewrite <- !app_assoc. exact Hf.
    + intros v' Hv'. apply Hk. exists ((k1, base + size D + len l) :: K). split_and!; [done| |].
      * intros ??? [= <- <- <-]. rewrite size_app, size_cons, size_nil. cbn. lia.
      * rewrite table_app, body_app. cbn in *. rewrite app_nil_r, <- !app_assoc in *. exact Hv'.
Qed.

Section Lists.
Context (hdr hd : list Z) (A B : adj) (n : Z).
Abbreviation tmp := (layout hdr A).
Abbreviation plen := (len hdr + 2 * len A).
Abbreviation U := (adj_union A B).
Abbreviation base := (len hd + 2 * len U).
Context (Hhd : len hd = len hdr) (Htmp : len tmp < W31) (Hn : n < W31).

(** Between two predicates of the second pass. *)
Record mid (A1 A2 B2 D : adj) (old_p p o cnt : Z) (vs : list Z) : Prop := {
  mid_old : A = A1 ++ A2;
  mid_all : D ++ adj_union A2 B2 = U;
  mid_old_p : old_p = len hdr + 2 * len A1;
  mid_p : p = len hd + 2 * len D;
  mid_o : o = base + size D;
  mid_cnt : cnt = entities D;
  mid_room : base + size D + size A2 + size B2 <= n;
  mid_cells : pend hd base D (adj_union A2 B2) n vs }.

(** After the ids [l] of the next predicate [k] have been written. *)
Definition written (A1 A2 B2 D : adj) (k : Z) (l : list Z) (old_p o cnt : Z) (vs : list Z) : Prop :=
  A = A1 ++ A2 /\ D ++ (k, l) :: adj_union A2 B2 = U /\ old_p = len hdr + 2 * len A1 /\
  o = base + size D + len l /\ cnt = entities D + ents l /\
  base + size D + len l + size A2 + size B2 <= n /\
  exists K, K.*1 = keys ((k, l) :: adj_union A2 B2) /\
    (forall k o K', K = (k, o) :: K' -> o = base + size D) /\
    filled (hd ++ table base D ++ flat K ++ body D ++ l) n vs.

Lemma written_next {X} A1 A2 B2 D k l old_p p o cnt vs (f : list Z -> option X) Q :
  written A1 A2 B2 D k l old_p o cnt vs -> p = len hd + 2 * len D ->
  (forall v', mid A1 A2 B2 (D ++ [(k, l)]) old_p (p + 2) o cnt v' -> wp (f v') Q) ->
  wp (put_next base p o vs ≫= f) Q.
Proof.
  intros (HA&HU&->&->&->&Hr&HK) -> Hf. pose proof (size_nonneg A2). pose proof (size_nonneg B2).
  pose proof (size_nonneg D). unfold W31 in *.
  eapply wp_put_next; [exact HK|done| |done|word_lia|].
  { rewrite <- HU at 1. len_lia. }
  intros v' Hv'. apply Hf. split; try done.
  - by rewrite <- app_assoc.
  - len_lia.
  - rewrite size_app, size_cons, size_nil. cbn. lia.
  - rewrite entities_app, entities_cons. change (entities []) with 0. fold (ents l). lia.
  - rewrite size_app, size_cons, size_nil. cbn. lia.
Qed.

(** The ids of one side or of both. *)
Lemma mid_filled A1 A2 B2 D old_p p o cnt vs :
  mid A1 A2 B2 D old_p p o cnt vs ->
  exists out, filled out n vs /\ o = len out /\ forall l v, filled (out ++ l) n v ->
    exists K, K.*1 = keys (adj_union A2 B2) /\
      (forall k o K', K = (k, o) :: K' -> o = base + size D) /\
      filled (hd ++ table base D ++ flat K ++ body D ++ l) n v.
Proof.
  intros [_ HU _ _ -> _ _ Hc]. destruct (pend_filled _ _ _ _ _ _ Hc) as (out&Hf&Ho&Hk).
  { by rewrite HU. }
  exists out. split_and!; [done|lia|done].
Qed.

Lemma old_list A1 q l A2 : A = A1 ++ (q, l) :: A2 ->
  exists pre post, tmp = pre ++ l ++ post /\ len pre = plen + size A1 /\
    i32 (plen + size A1) = plen + size A1.
Proof.
  intros HA. exists (hdr ++ table plen A ++ body A1), (body A2).
  pose proof (length_layout hdr A). pose proof (length_table plen A).
  assert (size A = size A1 + len l + size A2) as Hs by (rewrite HA, size_app, size_cons; cbn; lia).
  pose proof (size_nonneg A1). pose proof (size_nonneg A2). unfold W31 in *.
  split_and!; [|unfold size; len_lia|rewrite i32_small; lia].
  unfold layout. rewrite <- !app_assoc. do 2 f_equal. rewrite HA, body_app, body_cons. done.
Qed.

Lemma copy_old A1 q l A2 B2 D R old_p p o cnt vs next :
  mid A1 ((q, l) :: A2) B2 D old_p p o cnt vs -> adj_union ((q, l) :: A2) B2 = (q, l) :: R ->
  R = adj_union A2 B2 -> next = plen + size A1 + len l ->
  wp (copy_ids tmp next (i32 (plen + size A1), o, cnt, vs)) (fun '(_, o', cnt', vs') =>
    written (A1 ++ [(q, l)]) A2 B2 D q l (old_p + 2) o' cnt' vs').
Proof.
  intros Hm Hu -> ->. destruct (mid_filled _ _ _ _ _ _ _ _ _ Hm) as (out&Hf&Ho&Hk).
  destruct Hm as [HA HU -> -> -> -> Hr _]. rewrite Hu in *.
  destruct (old_list _ _ _ _ HA) as (pre&post&Ht&Hpre&->). rewrite size_cons in Hr. cbn [snd] in Hr.
  pose proof (size_nonneg A2). pose proof (size_nonneg B2).
  eapply wp_mono; [|eapply (copy_ids_spec tmp pre l post _ _ out); [done|done| | | |exact Hf]; lia].
  intros [[[? o'] c'] v'] (_&->&->&Hv'). unfold written. rewrite <- app_assoc.
  split_and!; [done|done|len_lia|lia|done|lia|by apply Hk].
Qed.

Lemma put_new A1 A2 f m B2 D old_p p o cnt vs :
  mid A1 A2 ((f, m) :: B2) D old_p p o cnt vs ->
  adj_union A2 ((f, m) :: B2) = (f, m) :: adj_union A2 B2 ->
  wp (put_ids m o cnt vs) (fun '(o', cnt', vs') => written A1 A2 B2 D f m old_p o' cnt' vs').
Proof.
  intros Hm Hu. destruct (mid_filled _ _ _ _ _ _ _ _ _ Hm) as (out&Hf&Ho&Hk).
  destruct Hm as [HA HU -> -> -> -> Hr _]. rewrite Hu in *.
  rewrite (size_cons _ B2) in Hr. cbn [snd] in Hr.
  pose proof (size_nonneg A2). pose proof (size_nonneg B2).
  eapply wp_mono; [|eapply put_ids_spec; [exact Ho| |exact Hf]; lia].
  intros [[o' c'] v'] (->&->&Hv'). unfold written.
  split_and!; [done|done|done|lia|done|lia|by apply Hk].
Qed.

Lemma merge_step_spec A1 q l A2 f m B2 D old_p p o cnt vs :
  mid A1 ((q, l) :: A2) ((f, m) :: B2) D old_p p o cnt vs ->
  wp (merge_step tmp (len tmp) plen f m B2 old_p p o cnt vs) (fun '(it, old_p', o', cnt', vs') =>
    exists A1' A2' k l', written A1' A2' it D k l' old_p' o' cnt' vs' /\
      (2 * length A2' + length it < 2 * length ((q, l) :: A2) + length ((f, m) :: B2))%nat).
Proof.
  intros Hm. pose proof Hm as [HA HU Hold Hp _ _ Hr Hc]. unfold merge_step.
  rewrite Hold, Hp. eapply wp_known; [by apply (next_offset_spec hdr A A1 q l A2)|].
  assert (exists R, adj_union ((q, l) :: A2) ((f, m) :: B2) =
    (Z.min q f, R.1) :: R.2) as [R HR].
  { rewrite adj_union_cons. destruct (Z.ltb_spec q f); [|destruct (Z.ltb_spec f q)].
    - eexists (_, _). by rewrite Z.min_l by lia.
    - eexists (_, _). by rewrite Z.min_r by lia.
    - eexists (_, _). by rewrite Z.min_l by lia. }
  eapply wp_get. { rewrite HR in Hc. by eapply pend_key. }
  eapply wp_get; [by apply (tmp_key hdr A A1 q l A2)|]. clear HR.
  rewrite <- Hold.
  destruct (Z.ltb_spec q f); [|destruct (Z.ltb_spec f q)].
  - rewrite Z.min_l by lia. rewrite (proj2 (Z.eqb_neq q f)), Z.eqb_refl by lia. cbn [andb negb].
    rewrite Hold. eapply wp_get; [by eapply (tmp_off hdr A)|]. rewrite <- Hold. apply wp_bind.
    eapply wp_mono; [|eapply (copy_old _ _ _ _ _ _ _ _ _ _ _ _ _ Hm); [|done|done]].
    + intros [[[? o'] c'] v'] Hw. cbn [wp]. do 4 eexists. split; [exact Hw|simpl; lia].
    + rewrite adj_union_cons. by rewrite (proj2 (Z.ltb_lt q f)) by lia.
  - rewrite Z.min_r by lia. rewrite (proj2 (Z.eqb_neq f q)), Z.eqb_refl by lia. cbn [andb negb].
    apply wp_bind. eapply wp_mono; [|apply (put_new _ _ _ _ _ _ _ _ _ _ _ Hm)].
    + intros [[o' c'] v'] Hw. cbn [wp]. do 4 eexists. split; [exact Hw|simpl; lia].
    + rewrite adj_union_cons. rewrite (proj2 (Z.ltb_ge q f)), (proj2 (Z.ltb_lt f q)) by lia. done.
  - assert (q = f) as -> by lia. rewrite Z.min_id, Z.eqb_refl. cbn [andb].
    rewrite Hold. eapply wp_get; [by eapply (tmp_off hdr A)|]. apply wp_bind.
    destruct (mid_filled _ _ _ _ _ _ _ _ _ Hm) as (out&Hf&Ho&Hk).
    rewrite adj_union_cons, Z.ltb_irrefl in HU, Hk. rewrite !size_cons in Hr. cbn [snd] in Hr.
    destruct Hm as [_ _ _ _ Ho' -> _ _]. destruct (old_list _ _ _ _ HA) as (pre&post&Ht&Hpre&->).
    pose proof (size_nonneg A2). pose proof (size_nonneg B2). pose proof (length_ids_union l m).
    eapply wp_mono; [|eapply (merge_list_spec tmp pre l post m _ _ out); [done|done| | | |exact Hf]; lia].
    intros [[o' c'] v'] (->&->&Hv'). cbn [wp]. exists (A1 ++ [(f, l)]), A2, f, (ids_union l m).
    split; [|simpl; lia]. unfold written. rewrite <- app_assoc.
    split_and!; [done|done|len_lia|lia|done|lia|by apply Hk].
Qed.

Lemma merge_both_spec vs it old_p p o cnt D :
  mid [] A B D old_p p o cnt vs -> it = B ->
  wp (merge_both tmp (len tmp) plen base (it, old_p, p, o, cnt, vs))
    (fun '(it, old_p, p, o, cnt, vs') => exists A1 A2 D,
      mid A1 A2 it D old_p p o cnt vs' /\ (A2 = [] \/ it = [])).
Proof.
  intros Hm ->. unfold merge_both.
  eapply (wp_while (fun '(it, old_p, p, o, cnt, vs') => exists A1 A2 D,
                      mid A1 A2 it D old_p p o cnt vs')
    (fun '(it, old_p, _, _, _, _) => (length it + Z.to_nat (plen - old_p))%nat)).
  - eauto.
  - cbn [fst]. destruct Hm as [_ _ -> _ _ _ _ _]. pose proof (length_layout hdr A). pose proof (size_nonneg A).
    len_lia.
  - clear Hm. intros [[[[[it old_p'] p'] o'] cnt'] vs'] (A1&A2&D'&Hm). cbn [wp].
    destruct it as [|[f m] it].
    { exists A1, A2, D'. split; [done|by right]. }
    pose proof Hm as [HA _ Ho Hp _ _ _ _]. assert (len A = len A1 + len A2) as Hl by (rewrite HA; len_lia).
    destruct A2 as [|[q l] A2].
    { rewrite (proj2 (Z.ltb_ge _ _)) by len_lia. exists A1, [], D'. split; [done|by left]. }
    rewrite (proj2 (Z.ltb_lt _ _)) by len_lia. apply wp_bind.
    eapply wp_mono; [|by eapply merge_step_spec].
    intros [[[[it2 old2] o2] c2] v2] (A1'&A2'&k&l'&Hw&Hlt).
    pose proof Hw as (HA'&_&Ho'&_). assert (len A = len A1' + len A2') as Hl' by (rewrite HA'; len_lia).
    eapply written_next; [exact Hw|exact Hp|]. intros v' Hv'. cbn [wp]. split; [eauto|].
    subst old2 old_p'. len_lia.
Qed.

Lemma merge_new_spec A1 A2 it D old_p p o cnt vs :
  mid A1 A2 it D old_p p o cnt vs -> A2 = [] \/ it = [] ->
  wp (merge_new base it p o cnt vs) (fun '(p, o, cnt, vs') => exists D,
    mid A1 A2 [] D old_p p o cnt vs').
Proof.
  revert D p o cnt vs. induction it as [|[f m] it IH]; intros D p o cnt vs Hm Hend; [by exists D|].
  destruct Hend as [->|]; [|done]. cbn [merge_new]. pose proof Hm as [_ _ _ Hp _ _ _ Hc].
  rewrite adj_union_nil_l in Hc. eapply wp_get. { rewrite Hp. by eapply pend_key. }
  rewrite Z.eqb_refl. apply wp_bind. eapply wp_mono; [|by eapply put_new; [|rewrite !adj_union_nil_l]].
  intros [[o' c'] v'] Hw. eapply written_next; [exact Hw|exact Hp|].
  intros v2 Hm2. eapply wp_mono; [|eapply IH; [exact Hm2|by left]]. done.
Qed.

Lemma merge_old_spec A1 A2 D old_p p o cnt vs :
  mid A1 A2 [] D old_p p o cnt vs ->
  wp (merge_old tmp (len tmp) plen base (old_p, p, o, cnt, vs)) (fun '(_, _, o, cnt, vs') =>
    o = base + size U /\ cnt = entities U /\ filled (hd ++ table base U ++ body U) n vs').
Proof.
  intros Hm. unfold merge_old.
  eapply (wp_while (fun '(old_p, p, o, cnt, vs') => exists A1 A2 D, mid A1 A2 [] D old_p p o cnt vs')
    (fun '(old_p, _, _, _, _) => Z.to_nat (plen - old_p))).
  - eauto.
  - destruct Hm as [HA _ -> _ _ _ _ _]. pose proof (length_layout hdr A). pose proof (size_nonneg A). len_lia.
  - clear Hm. intros [[[[old_p' p'] o'] cnt'] vs'] (A1'&A2'&D'&Hm). cbn [wp].
    clear A1 A2 D old_p p o cnt vs. rename A1' into A1, A2' into A2, D' into D, old_p' into old_p, p' into p.
    pose proof Hm as [HA HU Ho Hp Hoo Hcc _ Hc]. rewrite adj_union_nil_r in HU, Hc.
    assert (len A = len A1 + len A2) as Hl by (rewrite HA; len_lia).
    destruct A2 as [|[q l] A2].
    { rewrite (proj2 (Z.ltb_ge _ _)) by len_lia. rewrite app_nil_r in HU. rewrite <- HU at 2 3 5 6.
      destruct Hc as (K&HK&_&Hf). apply fmap_nil_inv in HK as ->. by split_and!. }
    rewrite (proj2 (Z.ltb_lt _ _)) by len_lia. eapply wp_get. { rewrite Hp. by eapply pend_key. }
    rewrite Ho. eapply wp_get; [by eapply (tmp_key hdr A)|]. rewrite Z.eqb_refl.
    eapply wp_get; [by eapply (tmp_off hdr A)|].
    eapply wp_known; [by eapply (next_offset_spec hdr A)|]. apply wp_bind.
    eapply wp_mono; [|eapply (copy_old _ _ _ _ _ _ _ _ _ _ _ _ _ Hm); [| |done]];
      [|by rewrite adj_union_nil_r|by rewrite adj_union_nil_r].
    intros [[[? o2] c2] v'] Hw. eapply written_next; [exact Hw|exact Hp|].
    intros v2 Hm2. cbn [wp]. rewrite <- Ho. split; [by do 3 eexists|]. len_lia.
Qed.

Lemma merge_all_ids_spec vs :
  base + size A + size B <= n -> pend hd base [] U n vs ->
  wp (merge_all_ids (len hdr) tmp (len tmp) plen base B vs) (fun '(o, cnt, vs') =>
    o = base + size U /\ cnt = entities U /\ filled (hd ++ table base U ++ body U) n vs').
Proof.
  intros Hr Hc. unfold merge_all_ids. apply wp_bind.
  eapply wp_mono; [|eapply (merge_both_spec _ _ _ _ _ _ []); [|done]]; cycle 1.
  { split; rewrite ?size_nil; try done; try len_lia; done. }
  intros [[[[[it old_p] p] o] cnt] v1] (A1&A2&D&Hm&Hend). apply wp_bind.
  eapply wp_mono; [|by eapply merge_new_spec]. intros [[[p2 o2] c2] v2] [D2 Hm2]. apply wp_bind.
  eapply wp_mono; [|by eapply merge_old_spec]. by intros [[[[? ?] o3] c3] v3].
Qed.
End Lists.

(** ** The whole operation *)

(** Header and encoding of both layouts. *)
Definition header (ent : bool) (A : adj) : list Z :=
  size A :: len A :: if ent then [entities A] else [].
Definition encode (ent : bool) (A : adj) : list Z := layout (header ent A) A.
Abbreviation hoff ent := (if ent : bool then 3 else 2).

Lemma length_header ent A : len (header ent A) = hoff ent.
Proof. by destruct ent. Qed.

Lemma wp_set_entity {X} ent c0 c1 (ex Y : list Z) n v e (k : list Z -> option X) Q :
  len (c0 :: c1 :: ex) = hoff ent -> 0 <= e < W32 -> filled ((c0 :: c1 :: ex) ++ Y) n v ->
  (forall v', filled ((c0 :: c1 :: if ent then [e] else []) ++ Y) n v' -> wp (k v') Q) ->
  wp (set_entity ent v e ≫= k) Q.
Proof.
  intros Hl He Hf Hk. unfold set_entity. destruct ent.
  - destruct ex as [|c2 [|? ?]]; [len_lia| |len_lia]. rewrite u32_small by done.
    eapply (wp_update [c0; c1] c2); [exact Hf|done|exact Hk].
  - destruct ex; [|len_lia]. by apply Hk.
Qed.

Lemma wp_check_memory {X} enough n (k : unit -> option X) Q :
  enough (4 * n) = true -> wp (k tt) Q -> wp (check_memory enough n ≫= k) Q.
Proof. unfold check_memory. by intros ->. Qed.

Section Whole.
Context (ent : bool) (enough : Z -> bool) (junk : nat -> Z).

Lemma merge_pids_spec A B n :
  A <> [] -> n < W31 -> hoff ent + 2 * len A + 2 * len B <= n ->
  wp (merge_pids (hoff ent) (encode ent A) (hoff ent + 2 * len A) B (replicate (Z.to_nat n) 0))
    (fun '(p_len, vs) => p_len = hoff ent + 2 * len (adj_union A B) /\
       exists ex0, len (0 :: 0 :: ex0) = hoff ent /\
         pend (0 :: len (adj_union A B) :: ex0) p_len [] (adj_union A B) n vs).
Proof.
  intros HA Hlt Hn. pose proof (size_adj_union A B) as [_ Hl]. set (U := adj_union A B) in *.
  assert (exists ex0, replicate (Z.to_nat (hoff ent)) 0 = 0 :: 0 :: ex0 /\
    len (0 :: 0 :: ex0) = hoff ent) as (ex0&Hrep&Hex0) by (destruct ent; by eexists).
  unfold merge_pids, W31, encode in *. rewrite <- (length_header ent A) in *. apply wp_bind.
  set (h := len (header ent A)) in *.
  eapply wp_mono; [|apply (merge_all_keys_spec _ A (0 :: 0 :: ex0) B n); [lia| |lia]]; cycle 1.
  { exists (replicate (Z.to_nat (n - h)) 0). rewrite length_replicate. split; [|lia].
    rewrite <- Hrep, <- replicate_add. f_equal. lia. }
  intros [p_len v1] (K&->&HK&Hf1). fold h.
  assert (len K = len U) as HlK by (rewrite <- (length_fmap fst K), HK, length_keys; done).
  eapply (wp_update [0] 0 (ex0 ++ flat K) n _ 1); [exact Hf1|done|]. intros v2 Hf2.
  replace (h + 2 * len K - (h - 2)) with ((len U + 1) * 2) in Hf2 by lia.
  rewrite Z.div_mul, u32_small in Hf2 by word_lia. replace (len U + 1 - 1) with (len U) in Hf2 by lia.
  destruct K as [|[k c] K]; [destruct A; [done|len_lia]|].
  eapply (wp_update ((0 :: len U :: ex0) ++ [k]) c (flat K) n); [by rewrite <- app_assoc|len_lia|].
  intros v3 Hf3. rewrite u32_small in Hf3 by word_lia. rewrite HlK in *. split; [done|].
  exists ex0. split; [done|]. exists ((k, h + 2 * len U) :: K). rewrite size_nil.
  split_and!; [done|intros ??? [= <- <- <-]; lia|].
  rewrite <- app_assoc in Hf3. cbn [table app body fmap list_fmap concat]. rewrite app_nil_r. exact Hf3.
Qed.

(** [memcpy] into the new array of the exact size. *)
Lemma copy_out out n v o : filled out n v -> o = len out -> arr_copy (new_array junk o) v o = Some out.
Proof.
  intros (rest&->&_) ->. rewrite arr_copy_prefix; [|done|rewrite length_new_array; lia].
  rewrite drop_ge, app_nil_r; [done|rewrite length_new_array; lia].
Qed.

Lemma insert_merge_spec A B :
  A <> [] -> wf B -> len (encode ent A) + 3 * size B < W31 ->
  (forall k, 0 <= k <= len (encode ent A) + 3 * size B -> enough (4 * k) = true) ->
  insert_merge (hoff ent) ent enough junk B (size B) (encode ent A) =
  Some (encode ent (adj_union A B)).
Proof.
  intros HA HB Hlt Hmem. pose proof (length_layout (header ent A) A) as Ht. fold (encode ent A) in Ht.
  pose proof (size_adj_union A B) as [Hs Hl]. pose proof (wf_size B HB). pose proof (size_nonneg A).
  pose proof (entities_bounds (adj_union A B)) as Hent.
  assert (2 <= hoff ent <= 3) as Hh3 by (destruct ent; lia). rewrite length_header in Ht.
  unfold insert_merge. apply wp_eq, wp_check_memory; [apply Hmem; lia|].
  eapply wp_get; [by destruct ent|].
  assert (i32 ((len A ⊠ 2) ⊞ hoff ent) = hoff ent + 2 * len A) as ->
    by (unfold W31 in *; wsimp; rewrite i32_small; lia).
  apply wp_bind. eapply wp_mono; [|by apply merge_pids_spec; [| |lia]].
  set (U := adj_union A B) in *. intros [p_len v1] (->&ex0&Hex&Hc). apply wp_bind.
  set (hd := 0 :: len U :: ex0) in *. assert (len hd = len (header ent A)) as Hhd by (rewrite length_header; unfold hd; len_lia).
  rewrite <- (length_header ent A), <- Hhd in Hc |- *.
  assert (len (encode ent A) < W31) as Htm by lia.
  eapply wp_mono; [|rewrite Hhd at 1 2; eapply (merge_all_ids_spec _ hd A B _ Hhd Htm Hlt); [|exact Hc]]; cycle 1.
  { rewrite Hhd, length_header. fold U. lia. }
  fold U. intros [[o cnt] v2] (->&->&Hf2). unfold W31 in *.
  eapply wp_get; [by eapply filled_get|].
  eapply (wp_update [] 0 (len U :: ex0 ++ table (len hd + 2 * len U) U ++ body U)); [exact Hf2|done|].
  intros v3 Hf3.
  replace (len hd + 2 * len U + size U - len hd - len U * 2) with (size U) in Hf3 by lia.
  rewrite u32_small in Hf3 by word_lia.
  eapply (wp_set_entity ent (size U) (len U) ex0); [len_lia|word_lia|exact Hf3|]. intros v4 Hf4.
  rewrite length_header in Hhd. apply wp_check_memory; [apply Hmem; lia|]. apply wp_eq.
  pose proof (length_layout (header ent U) U) as HlU. rewrite length_header in HlU.
  rewrite Hhd in *. rewrite <- (length_header ent U) in Hf4.
  erewrite (copy_out (encode ent U)); [done|exact Hf4|]. unfold encode. lia.
Qed.
(** *** Without an old list *)

Lemma put_lists_spec R hd base D (K : list (Z * Z)) n j o vs :
  K.*1 = keys R -> base = len hd + 2 * len (D ++ R) -> j = len hd + 2 * len D + 1 ->
  o = base + size D -> base + size (D ++ R) <= n ->
  filled (hd ++ table base D ++ flat K ++ body D) n vs ->
  wp (put_lists R j o vs) (fun '(o', vs') => o' = base + size (D ++ R) /\
    filled (hd ++ table base (D ++ R) ++ body (D ++ R)) n vs').
Proof.
  revert D K j o vs. induction R as [|[p l] R IH]; intros D K j o vs HK Hb -> -> Hn Hf.
  - apply fmap_nil_inv in HK as ->. rewrite app_nil_r. by split.
  - destruct K as [|[p' c] K]; [done|]. injection HK as -> HK. cbn [put_lists].
    pose proof (length_table base D). pose proof (length_flat K).
    assert (len K = len R) as HlK by (rewrite <- (length_fmap fst K), <- (length_fmap fst R); by f_equal; f_equal).
    rewrite size_app, size_cons in Hn. cbn [snd] in Hn. pose proof (size_nonneg R).
    eapply (wp_update (hd ++ table base D ++ [p]) c (flat K ++ body D)); [rewrite <- !app_assoc; exact Hf|len_lia|].
    intros v1 Hf1. apply wp_bind.
    eapply wp_mono; [|eapply put_ids_spec; [| |exact Hf1]; unfold size in *; len_lia].
    intros [[o' c'] v2] (->&_&Hf2).
    assert (D ++ (p, l) :: R = (D ++ [(p, l)]) ++ R) as -> by (by rewrite <- app_assoc).
    eapply (IH _ K); [done|rewrite Hb; len_lia|len_lia|..].
    + rewrite size_app, size_cons, size_nil. unfold size. cbn [snd]. len_lia.
    + rewrite !size_app, size_cons, size_nil. cbn [snd]. lia.
    + rewrite table_app, body_app. cbn in *. rewrite app_nil_r, <- !app_assoc in *. cbn in *.
      rewrite <- !app_assoc in Hf2. exact Hf2.
Qed.

Lemma insert_fresh_spec B :
  wf B -> hoff ent + 3 * size B < W31 ->
  (forall k, 0 <= k <= hoff ent + 3 * size B -> enough (4 * k) = true) ->
  insert_fresh (hoff ent) ent enough junk B (size B) (entities B) = Some (encode ent B).
Proof.
  intros HB Hlt Hmem. pose proof (wf_size B HB). pose proof (entities_bounds B). unfold W31 in *.
  pose proof (length_header ent B) as Hh. pose proof (length_layout (header ent B) B) as HlB.
  unfold insert_fresh. apply wp_eq. assert (2 <= hoff ent <= 3) as Hh3 by (destruct ent; lia).
  eapply wp_emit; [apply filled_new; lia|done|len_lia|]. intros v1 Hf1.
  eapply wp_emit; [exact Hf1|done|len_lia|]. intros v2 Hf2.
  assert (exists ex, filled ((size B :: len B :: ex) ++ []) (hoff ent + 3 * size B) v2 /\
    len (size B :: len B :: ex) = hoff ent) as (ex&Hf3&Hex).
  { destruct Hf2 as (rest&->&Hl). destruct ent; [|by exists []; split; [exists rest|]].
    destruct rest as [|c rest]; [len_lia|]. exists [c]. split; [by exists rest|done]. }
  eapply (wp_set_entity ent _ _ ex); [done|word_lia|exact Hf3|]. intros v3 Hf4.
  fold (header ent B) in Hf4. apply wp_bind.
  eapply wp_mono; [|eapply (put_keys_spec B (header ent B) []); [len_lia| |exact Hf4]; lia].
  intros [j v4] (K&->&HK&Hf5). apply wp_bind. rewrite Hh.
  assert (len K = len B) as HlK by (rewrite <- (length_fmap fst K), HK, <- (length_keys B); done).
  eapply wp_mono; [|eapply (put_lists_spec B (header ent B) _ [] K (hoff ent + 3 * size B)); [done|done|len_lia|..]]; cycle 1.
  { rewrite size_nil. cbn [app]. len_lia. }
  { cbn [app]. rewrite Hh. lia. }
  { cbn [table app body fmap list_fmap concat]. rewrite app_nil_r. exact Hf5. }
  cbn [app]. intros [o v5] (->&Hf6). fold (layout (header ent B) B) in Hf6.
  eapply wp_get; [by eapply filled_get|]. eapply wp_get; [by eapply filled_get|].
  rewrite Hh in *. wsimp. rewrite (proj2 (Z.eqb_eq _ _)) by lia.
  apply wp_check_memory; [apply Hmem; lia|]. apply wp_eq. by erewrite copy_out; [|exact Hf6|lia].
Qed.

(** *** The operation on the pairs of the caller *)

Definition stored_values (A : adj) : list Z := match A with [] => [] | _ => encode ent A end.

Lemma Insert_values_spec A P :
  wf A -> P <> [] -> lex_sorted P -> Forall (fun y => word y.1 /\ word y.2) P ->
  len (encode ent A) + 3 * len P < W31 ->
  (forall k, 0 <= k <= len (encode ent A) + 3 * len P -> enough (4 * k) = true) ->
  exists U, Insert_values (hoff ent) ent enough junk (flat P) (stored_values A) =
      Some (encode ent U, size U - size A) /\
    wf U /\ size A <= size U /\ U <> [] /\ forall y, y ∈ pairs U <-> y ∈ pairs A \/ y ∈ P.
Proof.
  intros HA HP Hs Hw Hlt Hmem. unfold Insert_values.
  destruct (group_pairs_spec P [] 0 0) as (B&HB&HwB&HpB); try done.
  { split; constructor. } { intros ?? ?%elem_of_nil. done. }
  change (pairs [] ++ P) with P in HpB. assert (len P = size B) as HlP by (rewrite <- length_pairs, HpB; done).
  rewrite HlP in Hlt, Hmem.
  exists (adj_union A B). pose proof (size_adj_union A B) as [Hsz _]. pose proof (size_nonneg A).
  pose proof (length_layout (header ent A) A) as Ht. fold (encode ent A) in Ht. rewrite length_header in Ht.
  assert (2 <= hoff ent <= 3) as Hh3 by (destruct ent; lia). unfold W31 in *.
  split; cycle 1.
  { split_and!; [by apply wf_union|lia| |intros [p x]; by rewrite <- HpB, pairs_union].
    destruct P as [|[p x] P]; [done|]. intros E.
    assert ((p, x) ∈ pairs (adj_union A B)) as Hin by (apply pairs_union; [done..|right; rewrite HpB; left]).
    rewrite E in Hin. by apply elem_of_nil in Hin. }
  destruct P as [|[p x] P]; [done|].
  change (flat ((p, x) :: P)) with (p :: x :: flat P) in *. rewrite HB. cbn [mbind option_bind].
  destruct A as [|a A].
  - rewrite adj_union_nil_l. cbn [stored_values]. rewrite Z.eqb_refl, insert_fresh_spec; [|done|..].
    + cbn [mbind option_bind]. rewrite size_nil, Z.sub_0_r. by destruct ent.
    + unfold W31. rewrite size_nil in *. len_lia.
    + intros k Hk. apply Hmem. rewrite size_nil in *. len_lia.
  - cbn [stored_values]. rewrite (proj2 (Z.eqb_neq _ _)) by (rewrite Ht; lia).
    rewrite insert_merge_spec; [|done|done|unfold W31; lia|done]. cbn [mbind option_bind].
    assert (arr_get (encode ent (adj_union (a :: A) B)) 0 = Some (size (adj_union (a :: A) B))) as -> by (by destruct ent).
    assert (arr_get (encode ent (a :: A)) 0 = Some (size (a :: A))) as -> by (by destruct ent).
    cbn [mbind option_bind]. by rewrite u32_small by word_lia.
Qed.
End Whole.
