(* ===== verification/BatchRemove.v ===== *)
(** * Removing many pairs from one value list

    [KVstore::Remove_s2values] and [KVstore::Remove_o2values]
    (KVstore/KVstore.cpp): one pass over the old value list keeps the ids that
    are not to be removed, a second one moves the kept lists up to the shortened
    predicate table.  The parameters are those of [BatchInsert]. *)

From S2P Require Import Prelude Util ValueList Adjacency ValueUpdate ValueSpec BatchInsert.

(** [mp[p].insert(x)] on a [map<unsigned, set<unsigned>>]. *)
Fixpoint set_insert (x : Z) (l : list Z) : list Z :=
  match l with
  | [] => [x]
  | y :: l' => if x <? y then x :: l else if x =? y then l else y :: set_insert x l'
  end.

Fixpoint mp_insert (p x : Z) (mp : adj) : adj :=
  match mp with
  | [] => [(p, [x])]
  | (q, l) :: mp' =>
      if p <? q then (p, [x]) :: mp
      else if p =? q then (q, set_insert x l) :: mp'
      else (q, l) :: mp_insert p x mp'
  end.

Fixpoint group_sets (_list : list Z) (mp : adj) : option adj :=
  match _list with
  | [] => Some mp
  | p :: x :: l => group_sets l (mp_insert p x mp)
  | [_] => None
  end.

Section Code.
Context (h : Z) (ent : bool) (junk : nat -> Z).

(** The first inner loop: old ids against the ids to remove. *)
Definition remove_ids (_tmp : list Z) (next : Z) (s : list Z * Z * Z * Z * list Z)
    : option (list Z * Z * Z * Z * list Z) :=
  while (S (length s.1.1.1.1 + length _tmp))
    (fun '(o_it, old_o, o, cnt, vs) =>
       Some (match o_it with [] => false | _ => old_o <? next end))
    (fun '(o_it, old_o, o, cnt, vs) =>
       match o_it with
       | [] => None
       | y :: o_it' =>
           x ← arr_get _tmp old_o;
           if x =? y then Some (o_it', old_o + 1, o, cnt, vs)
           else if y <? x then Some (o_it', old_o, o, cnt, vs)
           else vs ← arr_set vs o x; Some (o_it, old_o + 1, o + 1, cnt + is_ent x, vs)
       end) s.

(** The state of the loops: [it], [old_p_offset], [p_offset], [old_o_offset],
    [o_offset], [prev_o_offset], [pre_num], [entity_num] and [_values]. *)
Record rstate := mk_rstate {
  r_it : adj;
  r_old_p : Z;
  r_p : Z;
  r_old_o : Z;
  r_o : Z;
  r_prev : Z;
  r_pre_num : Z;
  r_cnt : Z;
  r_vs : list Z }.

(** [_values[p_offset] = ...; if (p_offset + 3 < p_len) ...]. *)
Definition keep_pre (p_len p o q : Z) (vs : list Z) : option (list Z) :=
  vs ← arr_set vs p q; put_next p_len p o vs.

(** The predicate is to lose ids. *)
Definition remove_from_pre (_tmp : list Z) (p_len next q : Z) (oids : list Z) (it' : adj) (s : rstate)
    : option rstate :=
  '(_, old_o, o, cnt, vs) ← remove_ids _tmp next (oids, r_old_o s, r_o s, r_cnt s, r_vs s);
  '(old_o, o, cnt, vs) ← copy_ids _tmp next (old_o, o, cnt, vs);
  if negb (r_prev s =? o) then
    vs ← keep_pre p_len (r_p s) o q vs;
    Some (mk_rstate it' (r_old_p s + 2) (r_p s + 2) old_o o o (r_pre_num s) cnt vs)
  else
    Some (mk_rstate it' (r_old_p s + 2) (r_p s) old_o o o (r_pre_num s - 1) cnt vs).

(** The predicate keeps its list. *)
Definition keep_list (_tmp : list Z) (p_len next q : Z) (s : rstate) : option rstate :=
  '(old_o, o, cnt, vs) ← copy_ids _tmp next (r_old_o s, r_o s, r_cnt s, r_vs s);
  vs ← keep_pre p_len (r_p s) o q vs;
  Some (mk_rstate (r_it s) (r_old_p s + 2) (r_p s + 2) old_o o o (r_pre_num s) cnt vs).

Definition remove_both (_tmp : list Z) (_len old_p_len : Z) (s : rstate) : option rstate :=
  while (S (length (r_it s) + length _tmp))
    (fun s => Some (match r_it s with [] => false | _ => r_old_p s <? old_p_len end))
    (fun s =>
       match r_it s with
       | [] => None
       | (f, oids) :: it' =>
           next ← next_offset _tmp _len old_p_len (r_old_p s);
           q ← arr_get _tmp (r_old_p s);
           if q =? f then remove_from_pre _tmp old_p_len next q oids it' s
           else if f <? q then
             Some (mk_rstate it' (r_old_p s) (r_p s) (r_old_o s) (r_o s) (r_prev s)
                     (r_pre_num s) (r_cnt s) (r_vs s))
           else keep_list _tmp old_p_len next q s
       end) s.

(** The old predicates that are left: here the offset is written first. *)
Definition remove_rest (_tmp : list Z) (_len old_p_len : Z) (s : rstate) : option rstate :=
  while (S (length _tmp))
    (fun s => Some (r_old_p s <? old_p_len))
    (fun s =>
       next ← next_offset _tmp _len old_p_len (r_old_p s);
       '(old_o, o, cnt, vs) ← copy_ids _tmp next (r_old_o s, r_o s, r_cnt s, r_vs s);
       vs ← put_next old_p_len (r_p s) o vs;
       q ← arr_get _tmp (r_old_p s);
       vs ← arr_set vs (r_p s) q;
       Some (mk_rstate (r_it s) (r_old_p s + 2) (r_p s + 2) old_o o (r_prev s) (r_pre_num s) cnt vs)) s.

(** The predicate table of the result, offsets moved by the removed predicates. *)
Definition shrink_table (_values : list Z) (stop delta : Z) (vs : list Z) : option (list Z) :=
  '(_, vs) ← while (S (length _values))
    (fun '(i, vs) => Some (i <? stop))
    (fun '(i, vs) =>
       k ← arr_get _values i; vs ← arr_set vs i k;
       o ← arr_get _values (i + 1); vs ← arr_set vs (i + 1) (o ⊟ delta);
       Some (i + 2, vs)) (h, vs);
  Some vs.

(** The id lists of the result. *)
Definition shrink_body (_values : list Z) (i j stop _len : Z) (vs : list Z) : option (list Z) :=
  '(_, _, vs) ← while (S (length _values))
    (fun '(i, j, vs) => Some ((i <? stop) && (j <? _len)))
    (fun '(i, j, vs) => x ← arr_get _values j; vs ← arr_set vs i x; Some (i + 1, j + 1, vs))
    (i, j, vs);
  Some vs.

(** The result from [_values]. *)
Definition shrink (_values : list Z) (t1 _len pre_num : Z) : option (list Z) :=
  let deleted_pre_num := i32 (t1 - pre_num) in
  v0 ← arr_get _values 0;
  v1 ← arr_get _values 1;
  let n := i32 (pre_num * 2 + h + v0) in
  let vs := new_array junk n in
  vs ← arr_set vs 0 v0;
  vs ← arr_set vs 1 v1;
  vs ← (if ent then v2 ← arr_get _values 2; arr_set vs 2 v2 else Some vs);
  vs ← shrink_table _values (2 * pre_num + h) (deleted_pre_num * 2) vs;
  shrink_body _values (2 * pre_num + h) (i32 ((t1 ⊠ 2) ⊞ h)) n _len vs.

(** The result when the old list is not empty: the new value list, empty when
    nothing is left, and the number of removed pairs. *)
Definition Remove_values (_list _tmp : list Z) : option (list Z * Z) :=
  mp ← group_sets _list [];
  let _len := len _tmp in
  if _len =? 0 then Some ([], 0) else
  t0 ← arr_get _tmp 0;
  t1 ← arr_get _tmp 1;
  let old_p_len := i32 ((t1 ⊠ 2) ⊞ h) in
  vs ← arr_set (new_array junk _len) (h + 1) (u32 old_p_len);
  s ← remove_both _tmp _len old_p_len
        (mk_rstate mp h h old_p_len old_p_len old_p_len (i32 t1) 0 vs);
  s ← remove_rest _tmp _len old_p_len s;
  vs ← arr_set (r_vs s) 0 (u32 (r_o s - old_p_len));
  vs ← arr_set vs 1 (u32 (r_pre_num s));
  vs ← set_entity ent vs (r_cnt s);
  v ← shrink vs t1 _len (r_pre_num s);
  v0 ← arr_get v 0;
  Some (if v0 =? 0 then [] else v, t0 ⊟ v0).
End Code.

Definition Remove_s2values (junk : nat -> Z) (_pidoidlist _tmp : list Z) : option (list Z * Z) :=
  match _pidoidlist with
  | [] => Some ([], 0)
  | _ => Remove_values 3 true junk _pidoidlist _tmp
  end.

Definition Remove_o2values (junk : nat -> Z) (_pidsidlist _tmp : list Z) : option (list Z * Z) :=
  if len _tmp =? 0 then Some ([], 0) else Remove_values 2 false junk _pidsidlist _tmp.
