(* ===== verification/BatchRemoveSpec.v ===== *)
(** * The batch removal is a difference

    Correctness of [BatchRemove]: on the encoding of an adjacency [A] and a list
    of pairs [P], in any order and with repetitions, it computes the encoding of
    [adj_diff A P]. *)

From S2P Require Import Prelude Util ValueList Adjacency ValueUpdate ValueSpec PreList ValueRead BatchInsert BatchInsertSpec BatchRemove.

(** ** The difference *)

(** The ids of predicate [q] that are not removed. *)
Definition kept (P : list (Z * Z)) (q : Z) (l : list Z) : list Z := filter (fun x => (q, x) ∉ P) l.

Fixpoint adj_diff (P : list (Z * Z)) (A : adj) : adj :=
  match A with
  | [] => []
  | (q, l) :: A' =>
      match kept P q l with [] => adj_diff P A' | l' => (q, l') :: adj_diff P A' end
  end.

Lemma adj_diff_app P A1 A2 : adj_diff P (A1 ++ A2) = adj_diff P A1 ++ adj_diff P A2.
Proof. induction A1 as [|[q l] A1 IH]; [done|]. simpl. destruct (kept P q l); [done|]. by rewrite IH. Qed.

Lemma adj_diff_keep P q l : kept P q l <> [] -> adj_diff P [(q, l)] = [(q, kept P q l)].
Proof. simpl. by destruct (kept P q l). Qed.
Lemma adj_diff_drop P q l : kept P q l = [] -> adj_diff P [(q, l)] = [].
Proof. simpl. by intros ->. Qed.

Lemma pairs_diff P A p x : (p, x) ∈ pairs (adj_diff P A) <-> (p, x) ∈ pairs A /\ (p, x) ∉ P.
Proof.
  induction A as [|[q l] A IH]; [set_solver|]. cbn [adj_diff]. rewrite elem_of_pairs_cons.
  assert (x ∈ kept P q l <-> ((q, x) ∉ P) /\ x ∈ l) as Hk by (unfold kept; by rewrite list_elem_of_filter).
  destruct (kept P q l) as [|y l'] eqn:E; [|rewrite (elem_of_pairs_cons _ (y :: l')), Hk]; rewrite IH; [|naive_solver].
  split; [tauto|]. intros [[[-> Hx]|Hx] Hn]; [|done]. exfalso.
  apply (not_elem_of_nil x). apply Hk. done.
Qed.

Lemma keys_diff P A k : k ∈ keys (adj_diff P A) -> k ∈ keys A.
Proof.
  induction A as [|[q l] A IH]; [done|]. simpl. destruct (kept P q l); simpl; set_solver.
Qed.

Lemma wf_diff P A : wf A -> wf (adj_diff P A).
Proof.
  induction A as [|[q l] A IH]; [done|]. intros ([H1 H2 H3 H4]&HA&Hlt)%wf_cons. simpl in *.
  destruct (kept P q l) as [|y l'] eqn:E; [auto|]. rewrite <- E. apply wf_cons. split_and!; [|auto|].
  - split; simpl; [done|by rewrite E|by apply increasing_filter|].
    apply Forall_forall. intros z [_ Hz]%list_elem_of_filter. rewrite Forall_forall in H4. auto.
  - intros k Hk%keys_diff. by apply Hlt.
Qed.

Lemma size_diff P A : 0 <= size (adj_diff P A) <= size A /\ len (adj_diff P A) <= len A.
Proof.
  pose proof (size_nonneg (adj_diff P A)). split; [split; [done|]|]; clear.
  - induction A as [|[q l] A IH]; [done|]. simpl. rewrite size_cons. cbn [snd].
    pose proof (length_filter (fun x => (q, x) ∉ P) l) as Hl. fold (kept P q l) in Hl.
    destruct (kept P q l); [lia|]. rewrite size_cons. cbn [snd]. lia.
  - induction A as [|[q l] A IH]; [done|]. simpl. destruct (kept P q l); simpl; lia.
Qed.

(** ** Grouping in sets *)

Lemma elem_of_set_insert x l y : y ∈ set_insert x l <-> y = x \/ y ∈ l.
Proof.
  induction l as [|z l IH]; simpl; [set_solver|].
  destruct (x <? z); [set_solver|]. destruct (Z.eqb_spec x z); set_solver.
Qed.

Lemma increasing_set_insert x l : increasing l -> increasing (set_insert x l).
Proof.
  induction l as [|z l IH]; intros Hi; simpl; [apply increasing_singleton|].
  pose proof Hi as [Hl Hz]%increasing_cons.
  destruct (Z.ltb_spec x z); [|destruct (Z.eqb_spec x z); [done|]]; apply increasing_cons; split; auto.
  - intros y [->|Hy]%elem_of_cons; [done|]. specialize (Hz y Hy). lia.
  - intros y [->|Hy]%elem_of_set_insert; [lia|auto].
Qed.

Lemma keys_mp_insert p x mp k : k ∈ keys (mp_insert p x mp) <-> k = p \/ k ∈ keys mp.
Proof.
  induction mp as [|[q l] mp IH]; simpl; [set_solver|].
  destruct (p <? q); [set_solver|]. destruct (Z.eqb_spec p q); set_solver.
Qed.

Lemma pairs_mp_insert p x mp q y :
  (q, y) ∈ pairs (mp_insert p x mp) <-> (q, y) = (p, x) \/ (q, y) ∈ pairs mp.
Proof.
  induction mp as [|[r l] mp IH]; cbn [mp_insert]; [rewrite elem_of_pairs_cons; set_solver|].
  destruct (p <? r); [rewrite elem_of_pairs_cons; set_solver|].
  destruct (Z.eqb_spec p r) as [->|]; rewrite !elem_of_pairs_cons.
  - rewrite elem_of_set_insert. naive_solver.
  - rewrite IH. naive_solver.
Qed.

(** The map of sets is ordered. *)
Definition ordered (mp : adj) : Prop := increasing (keys mp) /\ Forall (fun e => increasing e.2) mp.

Lemma ordered_cons e mp :
  ordered (e :: mp) <-> increasing e.2 /\ ordered mp /\ forall k, k ∈ keys mp -> e.1 < k.
Proof.
  unfold ordered. rewrite Forall_cons. unfold keys. rewrite fmap_cons, increasing_cons. tauto.
Qed.

Lemma ordered_mp_insert p x mp : ordered mp -> ordered (mp_insert p x mp).
Proof.
  induction mp as [|[q l] mp IH]; intros Ho; simpl.
  { apply ordered_cons. split_and!; [apply increasing_singleton|done|by intros ? ?%elem_of_nil]. }
  pose proof Ho as (Hl&Hm&Hlt)%ordered_cons. simpl in *.
  destruct (Z.ltb_spec p q); [|destruct (Z.eqb_spec p q)]; apply ordered_cons; simpl; split_and!; auto.
  - apply increasing_singleton.
  - intros k [->|Hk]%elem_of_cons; [done|]. specialize (Hlt k Hk). lia.
  - by apply increasing_set_insert.
  - intros k [->|Hk]%keys_mp_insert; [lia|auto].
Qed.

Lemma group_sets_spec P mp : ordered mp ->
  exists B, group_sets (flat P) mp = Some B /\ ordered B /\
    forall p x, (p, x) ∈ pairs B <-> (p, x) ∈ P \/ (p, x) ∈ pairs mp.
Proof.
  revert mp. induction P as [|[p x] P IH]; intros mp Ho.
  { exists mp. split_and!; [done|done|set_solver]. }
  destruct (IH (mp_insert p x mp)) as (B&HB&HoB&HpB); [by apply ordered_mp_insert|].
  exists B. split_and!; [exact HB|done|]. intros q y. rewrite HpB, pairs_mp_insert. set_solver.
Qed.

(** ** The ids of one predicate *)

Lemma remove_ids_spec _tmp pre l post m next old out o n vs cnt :
  o = len out -> _tmp = pre ++ l ++ post -> old = len pre -> next = len pre + len l ->
  increasing l -> increasing m -> len out + len l <= n -> filled out n vs ->
  wp (remove_ids _tmp next (m, old, o, cnt, vs)) (fun '(_, old2, o', c, vs') =>
    exists la lb, l = la ++ lb /\ old2 = len pre + len la /\
      o' = len out + len (filter (fun x => x ∉ m) la) /\ c = cnt + ents (filter (fun x => x ∉ m) la) /\
      filled (out ++ filter (fun x => x ∉ m) la) n vs' /\ filter (fun x => x ∉ m) lb = lb).
Proof.
  intros -> -> -> -> Hl Hm Hn Hf. unfold remove_ids.
  eapply (wp_while (fun '(m2, old2, o', c, vs') =>
    exists la lb, l = la ++ lb /\ old2 = len pre + len la /\
      o' = len out + len (filter (fun x => x ∉ m) la) /\ c = cnt + ents (filter (fun x => x ∉ m) la) /\
      filled (out ++ filter (fun x => x ∉ m) la) n vs' /\ increasing m2 /\ increasing lb /\
      (forall x, x ∈ lb -> x ∈ m <-> x ∈ m2))
    (fun '(m2, old2, _, _, _) => (length m2 + Z.to_nat (len pre + len l - old2))%nat)).
  - exists [], l. rewrite filter_nil, app_nil_r. unfold ents. simpl. split_and!; [done|lia..|done|done|done|done].
  - cbn [fst]. len_lia.
  - intros [[[[m2 old2] o'] c] vs'] (la&lb&->&->&->&->&Hf'&Hm2&Hlb&Hin). len_simp. cbn [wp].
    pose proof (length_filter (fun x => x ∉ m) la) as Hfl.
    destruct m2 as [|y m2].
    { exists la, lb. split_and!; try done. apply filter_all, Forall_forall. intros x Hx. rewrite Hin by done. set_solver. }
    destruct (Z.ltb_spec (len pre + len la) (len pre + (len la + len lb))); cycle 1.
    { destruct lb; [|len_lia]. by exists la, []. }
    destruct lb as [|x lb]; [len_lia|]. pose proof Hlb as [Hlb' Hx]%increasing_cons.
    pose proof Hm2 as [Hm2' Hy]%increasing_cons.
    eapply wp_get. { rewrite <- app_assoc, app_assoc. apply arr_get_app_mid. len_lia. }
    destruct (Z.eqb_spec x y) as [->|Hne]; [|destruct (Z.ltb_spec y x)].
    + cbn [wp]. split; [|len_lia]. exists (la ++ [y]), lb.
      rewrite filter_app, filter_cons_False by (rewrite Hin by left; intros []; left). rewrite filter_nil, app_nil_r.
      rewrite <- app_assoc. split_and!; try done; [len_lia|].
      intros z Hz. rewrite Hin by (by right). specialize (Hx z Hz). rewrite elem_of_cons. split; [|tauto].
      intros [->|]; [lia|done].
    + cbn [wp]. split; [|len_lia]. exists la, (x :: lb). split_and!; try done.
      intros z Hz. rewrite Hin by done. rewrite elem_of_cons. split; [|tauto]. intros [->|]; [|done].
      apply elem_of_cons in Hz as [->|Hz]; [lia|]. specialize (Hx y Hz). lia.
    + assert (x ∉ m) as Hxm.
      { rewrite Hin by left. intros [->|Hz]%elem_of_cons; [lia|]. specialize (Hy x Hz). lia. }
      eapply wp_emit; [exact Hf'|len_lia|len_lia|]. intros v' Hv'. cbn [wp]. split; [|len_lia].
      exists (la ++ [x]), lb. rewrite filter_app, filter_cons_True by done.
      rewrite filter_nil, ents_app, ents_cons, <- !app_assoc in *.
      split_and!; try done; [len_lia|len_lia|unfold ents; simpl; lia|].
      intros z Hz. apply Hin. by right.
Qed.

(** ** The cells of the kept predicates

    [K] are the pairs of cells of the predicate table that are not used yet; the
    first of them holds the offset of the next list. *)
Definition next_is (K : list (Z * Z)) (o : Z) : Prop := forall k o' K', K = (k, o') :: K' -> o' = o.

Definition gap (hd : list Z) (base : Z) (D : adj) (K : list (Z * Z)) (n : Z) (vs : list Z) : Prop :=
  next_is K (base + size D) /\ filled (hd ++ table base D ++ flat K ++ body D) n vs.

Section Cells.
Context (hd : list Z) (base : Z) (D : adj) (n : Z).

(** While the list [l] of the next kept predicate is written. *)
Definition half (k : Z) (K : list (Z * Z)) (l : list Z) (v : list Z) : Prop :=
  filled (hd ++ table base D ++ flat ((k, base + size D) :: K) ++ body D ++ l) n v.

Lemma half_set_key {X} k q K l v p (f : list Z -> option X) Q :
  half k K l v -> p = len hd + 2 * len D -> (forall v', half q K l v' -> wp (f v') Q) ->
  wp (arr_set v p q ≫= f) Q.
Proof.
  intros Hf -> Hk. pose proof (length_table base D).
  eapply (wp_update (hd ++ table base D) k (base + size D :: flat K ++ body D ++ l));
    [rewrite <- app_assoc; exact Hf|len_lia|].
  intros v' Hv'. apply Hk. rewrite <- app_assoc in Hv'. exact Hv'.
Qed.

Lemma half_put_next {X} k K l v p_len p o (f : list Z -> option X) Q :
  half k K l v -> p = len hd + 2 * len D -> p_len = p + 2 + 2 * len K -> 0 <= o < W32 ->
  (forall v' K', len K' = len K -> next_is K' o -> half k K' l v' -> wp (f v') Q) ->
  wp (put_next p_len p o v ≫= f) Q.
Proof.
  intros Hf -> -> Ho Hk. pose proof (length_table base D). unfold put_next. destruct K as [|[k1 o1] K].
  - rewrite (proj2 (Z.ltb_ge _ _)) by len_lia. by eapply (Hk v []).
  - rewrite (proj2 (Z.ltb_lt _ _)) by len_lia. wsimp.
    eapply (wp_update (hd ++ table base D ++ [k; base + size D; k1]) o1 (flat K ++ body D ++ l));
      [rewrite <- !app_assoc; exact Hf|len_lia|].
    intros v' Hv'. rewrite <- !app_assoc in Hv'. apply (Hk v' ((k1, o) :: K)); [done| |exact Hv'].
    by intros ??? [= <- <- <-].
Qed.

Lemma half_gap k K l v : half k K l v -> next_is K (base + size D + len l) ->
  gap hd base (D ++ [(k, l)]) K n v.
Proof.
  intros Hf Hn. split.
  - rewrite size_app, size_cons, size_nil. cbn [snd]. by rewrite Z.add_0_r, Z.add_assoc.
  - unfold half in Hf. rewrite table_app, body_app. cbn in *. by rewrite app_nil_r, <- !app_assoc in *.
Qed.

Lemma keep_pre_spec k q K l v p_len p o :
  half k K l v -> p = len hd + 2 * len D -> p_len = p + 2 + 2 * len K ->
  o = base + size D + len l -> 0 <= o < W32 ->
  wp (keep_pre p_len p o q v) (fun v' => exists K', len K' = len K /\ gap hd base (D ++ [(q, l)]) K' n v').
Proof.
  intros Hf Hp Hl -> Ho. unfold keep_pre. eapply half_set_key; [exact Hf|done|]. intros v1 Hf1.
  apply wp_ret. eapply half_put_next; [exact Hf1|done..|]. intros v2 K' HK' Hn Hf2. cbn [wp].
  exists K'. split; [done|]. by apply half_gap.
Qed.
End Cells.

Section Remove.
Context (hdr hd : list Z) (A : adj) (P : list (Z * Z)).
Abbreviation tmp := (layout hdr A).
Abbreviation plen := (len hdr + 2 * len A).
Context (Hhd : len hd = len hdr) (Htmp : len tmp < W31) (Hwf : wf A).

(** Between two predicates: [A1] has been treated, [A2] has not. *)
Record rmid (A1 A2 : adj) (s : rstate) : Prop := {
  rm_split : A = A1 ++ A2;
  rm_old_p : r_old_p s = len hdr + 2 * len A1;
  rm_p : r_p s = len hdr + 2 * len (adj_diff P A1);
  rm_old_o : r_old_o s = plen + size A1;
  rm_o : r_o s = plen + size (adj_diff P A1);
  rm_pre : r_pre_num s = len A - len A1 + len (adj_diff P A1);
  rm_cnt : r_cnt s = entities (adj_diff P A1);
  rm_cells : exists K, len (adj_diff P A1) + len K = len A /\
    gap hd plen (adj_diff P A1) K (len tmp) (r_vs s) }.

Lemma rm_facts A1 q l A2 s : rmid A1 ((q, l) :: A2) s ->
  len A = len A1 + 1 + len A2 /\ len tmp = plen + size A1 + len l + size A2 /\
  0 <= size (adj_diff P A1) <= size A1 /\ len (adj_diff P A1) <= len A1 /\ 0 <= size A2 /\
  increasing l /\ len (kept P q l) <= len l.
Proof.
  intros [HA _ _ _ _ _ _ _]. pose proof (length_layout hdr A) as Hl.
  assert (size A = size A1 + len l + size A2) as Hs by (rewrite HA, size_app, size_cons; cbn; lia).
  destruct (size_diff P A1). split_and!; try lia.
  - rewrite HA. len_lia.
  - apply size_nonneg.
  - destruct Hwf as [_ He]. rewrite HA in He. apply Forall_app in He as [_ He].
    apply Forall_cons in He as [[_ _ Hi _] _]. done.
  - pose proof (length_filter (fun x => (q, x) ∉ P) l). unfold kept. lia.
Qed.

(** The state in which the ids of the next predicate are written. *)
Lemma rm_half A1 q l A2 s : rmid A1 ((q, l) :: A2) s ->
  exists k K out, len (adj_diff P A1) + 1 + len K = len A /\
    filled out (len tmp) (r_vs s) /\ r_o s = len out /\
    forall l' v, filled (out ++ l') (len tmp) v -> half hd plen (adj_diff P A1) (len tmp) k K l' v.
Proof.
  intros Hm. pose proof (rm_facts _ _ _ _ _ Hm) as (Hl&_&_&HlD&_). destruct Hm as [_ _ _ _ Ho _ _ (K&HK&Hn&Hf)].
  destruct K as [|[k o] K]; [len_lia|]. rewrite (Hn _ _ _ eq_refl) in Hf.
  exists k, K. eexists. split_and!; [len_lia|exact Hf| |].
  - pose proof (length_table plen (adj_diff P A1)). pose proof (length_flat ((k, plen + size (adj_diff P A1)) :: K)).
    rewrite Ho. unfold size in *. len_lia.
  - intros l' v Hv. unfold half. rewrite <- !app_assoc in Hv. exact Hv.
Qed.

Lemma rm_next A1 q l A2 l' s it old_p p old_o o prev pre cnt vs K :
  rmid A1 ((q, l) :: A2) s -> kept P q l = l' -> l' <> [] ->
  old_p = r_old_p s + 2 -> p = r_p s + 2 -> old_o = plen + size A1 + len l ->
  o = r_o s + len l' -> pre = r_pre_num s -> cnt = r_cnt s + ents l' ->
  len (adj_diff P A1) + 1 + len K = len A ->
  gap hd plen (adj_diff P A1 ++ [(q, l')]) K (len tmp) vs ->
  rmid (A1 ++ [(q, l)]) A2 (mk_rstate it old_p p old_o o prev pre cnt vs).
Proof.
  intros [HA Hop Hp Hoo Ho Hpre Hc _] Hk Hne -> -> -> -> -> -> HK Hg.
  assert (adj_diff P (A1 ++ [(q, l)]) = adj_diff P A1 ++ [(q, l')]) as HD
    by (rewrite adj_diff_app, adj_diff_keep by congruence; by rewrite Hk).
  split; cbn [r_old_p r_p r_old_o r_o r_pre_num r_cnt r_vs]; rewrite ?HD, ?size_app, ?size_cons, ?size_nil; cbn [snd].
  - by rewrite HA, <- app_assoc.
  - len_lia.
  - len_lia.
  - lia.
  - lia.
  - len_lia.
  - rewrite entities_app, entities_cons. change (entities []) with 0. fold (ents l'). lia.
  - exists K. split; [len_lia|done].
Qed.

Lemma rm_drop A1 q l A2 s it prev vs :
  rmid A1 ((q, l) :: A2) s -> kept P q l = [] ->
  (exists K, len (adj_diff P A1) + len K = len A /\ gap hd plen (adj_diff P A1) K (len tmp) vs) ->
  rmid (A1 ++ [(q, l)]) A2
    (mk_rstate it (r_old_p s + 2) (r_p s) (plen + size A1 + len l) (r_o s) prev (r_pre_num s - 1) (r_cnt s) vs).
Proof.
  intros [HA Hop Hp Hoo Ho Hpre Hc _] Hk Hg.
  assert (adj_diff P (A1 ++ [(q, l)]) = adj_diff P A1) as HD
    by (by rewrite adj_diff_app, adj_diff_drop, app_nil_r).
  split; cbn [r_old_p r_p r_old_o r_o r_pre_num r_cnt r_vs]; rewrite ?HD, ?size_app, ?size_cons, ?size_nil; cbn [snd]; try done.
  - by rewrite HA, <- app_assoc.
  - len_lia.
  - lia.
  - len_lia.
Qed.

Lemma copy_kept A1 q l A2 s pre la lb post old o cnt v out next :
  rmid A1 ((q, l) :: A2) s -> tmp = pre ++ l ++ post -> len pre = plen + size A1 ->
  filled out (len tmp) v -> next = plen + size A1 + len l -> l = la ++ lb ->
  old = len pre + len la -> o = len out -> len out + len lb <= len tmp ->
  wp (copy_ids tmp next (old, o, cnt, v)) (fun '(old', o', cnt', v') =>
    old' = plen + size A1 + len l /\ o' = len out + len lb /\ cnt' = cnt + ents lb /\
    filled (out ++ lb) (len tmp) v').
Proof.
  intros Hm Ht Hpre Hf -> -> -> -> Hr.
  eapply wp_mono; [|eapply (copy_ids_spec tmp (pre ++ la) lb post); [done| | | |exact Hr|exact Hf]].
  - intros [[[old' o'] c'] v'] (->&->&->&Hv'). split_and!; [len_lia|done|done|done].
  - by rewrite Ht, <- !app_assoc.
  - len_lia.
  - len_lia.
Qed.

Lemma remove_from_pre_spec A1 q l A2 m it' s next :
  rmid A1 ((q, l) :: A2) s -> r_prev s = r_o s -> next = plen + size A1 + len l -> increasing m ->
  (forall x, x ∈ l -> (q, x) ∈ P <-> x ∈ m) ->
  wp (remove_from_pre tmp plen next q m it' s) (fun s' =>
    rmid (A1 ++ [(q, l)]) A2 s' /\ r_prev s' = r_o s' /\ r_it s' = it').
Proof.
  intros Hm Hprev -> Him Hin. pose proof (rm_facts _ _ _ _ _ Hm) as (HlA&Hlt&Hs&HlD&Hs2&Hinc&Hkl).
  destruct (rm_half _ _ _ _ _ Hm) as (k&K&out&HK&Hf&Hout&Hhalf).
  pose proof Hm as [HA Hop Hp Hoo Ho Hpre Hc _].
  destruct (old_list hdr hd A Hhd Htmp _ _ _ _ HA) as (pre&post&Ht&Hlp&_).
  assert (kept P q l = filter (fun x => x ∉ m) l) as Hkept.
  { apply list_filter_iff'. intros x Hx. by rewrite Hin. }
  unfold remove_from_pre. apply wp_bind. rewrite <- Hlp.
  eapply wp_mono; [|eapply (remove_ids_spec tmp pre l post m); [exact Hout|done|lia|done|done|done| |exact Hf]]; [|lia].
  intros [[[[m2 old2] o] c] v1] (la&lb&Hl&->&->&->&Hf1&Hlb). apply wp_bind.
  assert (kept P q l = filter (fun x => x ∉ m) la ++ lb) as Hk2 by (by rewrite Hkept, Hl, filter_app, Hlb).
  pose proof Hkl as Hkl2. rewrite Hk2 in Hkl2. rewrite Hlp.
  eapply wp_mono; [|eapply (copy_kept _ _ _ _ _ _ _ _ _ _ _ _ _ _ _ Hm Ht Hlp); [exact Hf1|done|exact Hl|lia|len_lia|len_lia]].
  intros [[[old3 o3] c3] v2] (->&->&->&Hf2). rewrite <- app_assoc, <- Hk2 in Hf2.
  assert (len (out ++ filter (fun x => x ∉ m) la) + len lb = r_o s + len (kept P q l)) as ->
    by (rewrite Hk2; len_lia).
  replace (r_cnt s + _ + ents lb) with (r_cnt s + ents (kept P q l)) by (rewrite Hk2, ents_app; lia).
  rewrite Hprev. clear Hk2 Hkl2. destruct (kept P q l) as [|y l'] eqn:El.
  - replace (r_o s + len (@nil Z)) with (r_o s) by len_lia. rewrite Z.eqb_refl. cbn [negb wp].
    split_and!; [|done|done]. replace (r_cnt s + ents []) with (r_cnt s) by (unfold ents; simpl; lia).
    apply rm_drop; [done|done|]. exists ((k, plen + size (adj_diff P A1)) :: K). split; [len_lia|].
    specialize (Hhalf [] v2). rewrite app_nil_r in *. specialize (Hhalf Hf2). split; [by intros ??? [= <- <- <-]|].
    unfold half in Hhalf. by rewrite app_nil_r in Hhalf.
  - rewrite (proj2 (Z.eqb_neq _ _)) by len_lia. cbn [negb]. apply wp_bind. unfold W31 in *.
    eapply wp_mono; [|eapply (keep_pre_spec hd); [exact (Hhalf _ _ Hf2)|len_lia..]].
    intros v3 (K'&HK'&Hg). cbn [wp]. split_and!; [|done|done].
    eapply (rm_next A1 q l A2 _ s _ _ _ _ _ _ _ _ _ K'); [exact Hm|exact El|done..|lia|done].
Qed.

Lemma keep_list_spec A1 q l A2 s next :
  rmid A1 ((q, l) :: A2) s -> next = plen + size A1 + len l ->
  (forall x, x ∈ l -> (q, x) ∉ P) ->
  wp (keep_list tmp plen next q s) (fun s' =>
    rmid (A1 ++ [(q, l)]) A2 s' /\ r_prev s' = r_o s' /\ r_it s' = r_it s).
Proof.
  intros Hm -> Hin. pose proof (rm_facts _ _ _ _ _ Hm) as (HlA&Hlt&Hs&HlD&Hs2&Hinc&_).
  destruct (rm_half _ _ _ _ _ Hm) as (k&K&out&HK&Hf&Hout&Hhalf).
  pose proof Hm as [HA Hop Hp Hoo Ho Hpre Hc _].
  destruct (old_list hdr hd A Hhd Htmp _ _ _ _ HA) as (pre&post&Ht&Hlp&_).
  assert (kept P q l = l) as Hk by (by apply filter_all, Forall_forall).
  assert (l <> []) as Hne.
  { destruct Hwf as [_ He]. rewrite HA in He. apply Forall_app in He as [_ He].
    by apply Forall_cons in He as [[_ Hn _ _] _]. }
  unfold keep_list. apply wp_bind.
  eapply wp_mono; [|eapply (copy_kept _ _ _ _ _ _ [] l _ _ _ _ _ _ _ Hm Ht Hlp); [exact Hf|done|done|len_lia|exact Hout|lia]].
  intros [[[old3 o3] c3] v2] (->&->&->&Hf2). apply wp_bind. unfold W31 in *.
  eapply wp_mono; [|eapply (keep_pre_spec hd); [exact (Hhalf _ _ Hf2)|len_lia..]].
  intros v3 (K'&HK'&Hg). cbn [wp]. split_and!; [|done|done].
  eapply (rm_next A1 q l A2 _ s _ _ _ _ _ _ _ _ _ K'); [exact Hm|done..|lia|done|done|lia|done].
Qed.

(** The sets still to be removed stand for the pairs still to be met. *)
Definition pending (A2 it : adj) : Prop :=
  ordered it /\ forall p x, (p, x) ∈ pairs A2 -> (p, x) ∈ P <-> (p, x) ∈ pairs it.

Lemma key_pair p x B : (p, x) ∈ pairs B -> p ∈ keys B.
Proof. intros (l&Hin&_)%elem_of_pairs. apply list_elem_of_fmap. by exists (p, l). Qed.

Lemma pending_head q l A2 f m it x :
  pending ((q, l) :: A2) ((f, m) :: it) -> x ∈ l -> q <= f -> (q, x) ∈ P <-> q = f /\ x ∈ m.
Proof.
  intros [(_&_&Hlt)%ordered_cons Hp] Hx Hle. rewrite Hp, elem_of_pairs_cons by (apply elem_of_pairs_cons; tauto).
  split; [|tauto]. intros [?|Hq]; [done|]. specialize (Hlt q (key_pair _ _ _ Hq)). simpl in Hlt. lia.
Qed.

Lemma pending_tail q l A2 it :
  pending ((q, l) :: A2) it -> pending A2 it.
Proof. intros [Ho Hp]. split; [done|]. intros p x Hx. apply Hp. apply elem_of_pairs_cons. by right. Qed.

Lemma pending_skip A2 f m it :
  pending A2 ((f, m) :: it) -> (forall k, k ∈ keys A2 -> f < k) -> pending A2 it.
Proof.
  intros [(_&Ho&_)%ordered_cons Hp] Hlt. split; [done|]. intros p x Hx. rewrite Hp, elem_of_pairs_cons by done.
  split; [|tauto]. intros [[-> _]|?]; [|done]. specialize (Hlt _ (key_pair _ _ _ Hx)). lia.
Qed.

Lemma remove_both_spec s :
  rmid [] A s -> r_prev s = r_o s -> pending A (r_it s) ->
  wp (remove_both tmp (len tmp) plen s) (fun s' => exists A1 A2,
    rmid A1 A2 s' /\ pending A2 (r_it s') /\ (A2 = [] \/ r_it s' = [])).
Proof.
  intros Hm Hprev Hpend. unfold remove_both.
  eapply (wp_while (fun s' => exists A1 A2, rmid A1 A2 s' /\ r_prev s' = r_o s' /\ pending A2 (r_it s'))
    (fun s' => (length (r_it s') + Z.to_nat (plen - r_old_p s'))%nat)).
  - by exists [], A.
  - destruct Hm as [_ -> _ _ _ _ _ _]. pose proof (length_layout hdr A). pose proof (size_nonneg A). len_lia.
  - clear Hm Hprev Hpend. intros s' (A1&A2&Hm&Hprev&Hpend). cbn [wp].
    pose proof Hm as [HA Hop _ _ _ _ _ _]. assert (len A = len A1 + len A2) as Hl by (rewrite HA; len_lia).
    destruct (r_it s') as [|[f m] it] eqn:Eit.
    { exists A1, A2. split_and!; try done. by right. }
    destruct A2 as [|[q l] A2].
    { rewrite (proj2 (Z.ltb_ge _ _)) by len_lia. exists A1, []. split_and!; try done. by left. }
    rewrite (proj2 (Z.ltb_lt _ _)) by len_lia. rewrite Hop.
    eapply wp_known; [by apply (next_offset_spec hdr A A1 q l A2)|].
    eapply wp_get; [by apply (tmp_key hdr A A1 q l A2)|]. rewrite <- Hop.
    destruct (wf_app A1 ((q, l) :: A2)) as (_&(_&_&Hlt)%wf_cons&_); [by rewrite <- HA|]. cbn [fst] in Hlt.
    destruct (Z.eqb_spec q f) as [->|Hne]; [|destruct (Z.ltb_spec f q)].
    + eapply wp_mono; [|eapply (remove_from_pre_spec A1 f l A2 m it s'); [done|done|done| |]].
      * intros s2 (Hm2&Hp2&Hi2). pose proof Hm2 as [_ Hop2 _ _ _ _ _ _]. rewrite Hi2. split; [|len_lia].
        exists (A1 ++ [(f, l)]), A2. split_and!; try done. apply pending_tail in Hpend.
        by eapply pending_skip.
      * by destruct Hpend as [(?&_)%ordered_cons _].
      * intros x Hx. rewrite (pending_head _ _ _ _ _ _ _ Hpend Hx) by lia. tauto.
    + cbn [wp]. cbn [r_it r_old_p r_prev r_o]. split; [|len_lia]. exists A1, ((q, l) :: A2). split_and!; [by destruct Hm|done|].
      eapply pending_skip; [done|]. intros k [->|Hk]%elem_of_cons; [done|]. specialize (Hlt k Hk). lia.
    + eapply wp_mono; [|eapply (keep_list_spec A1 q l A2 s'); [done|done|]].
      * intros s2 (Hm2&Hp2&Hi2). pose proof Hm2 as [_ Hop2 _ _ _ _ _ _]. rewrite Hi2, Eit. split; [|len_lia].
        exists (A1 ++ [(q, l)]), A2. split_and!; try done. by eapply pending_tail.
      * intros x Hx. rewrite (pending_head _ _ _ _ _ _ _ Hpend Hx) by lia. by intros [??].
Qed.

Lemma remove_rest_spec A1 A2 s :
  rmid A1 A2 s -> (forall p x, (p, x) ∈ pairs A2 -> (p, x) ∉ P) ->
  wp (remove_rest tmp (len tmp) plen s) (fun s' => rmid A [] s').
Proof.
  intros Hm0 Hp0. unfold remove_rest.
  eapply (wp_while (fun s' => exists A1 A2, rmid A1 A2 s' /\ forall p x, (p, x) ∈ pairs A2 -> (p, x) ∉ P)
    (fun s' => Z.to_nat (plen - r_old_p s'))).
  - by exists A1, A2.
  - destruct Hm0 as [_ -> _ _ _ _ _ _]. pose proof (length_layout hdr A). pose proof (size_nonneg A). len_lia.
  - clear Hm0 Hp0 A1 A2. intros s' (A1&A2&Hm&Hp). cbn [wp]. pose proof Hm as [HA Hop Hpp Hoo Ho Hpre Hc _].
    assert (len A = len A1 + len A2) as Hl by (rewrite HA; len_lia).
    destruct A2 as [|[q l] A2].
    { rewrite (proj2 (Z.ltb_ge _ _)) by len_lia. rewrite app_nil_r in HA. by rewrite <- HA in Hm. }
    rewrite (proj2 (Z.ltb_lt _ _)) by len_lia. rewrite Hop.
    eapply wp_known; [by apply (next_offset_spec hdr A A1 q l A2)|]. rewrite <- Hop. apply wp_bind.
    pose proof (rm_facts _ _ _ _ _ Hm) as (HlA&Hlt&Hs&HlD&Hs2&Hinc&_).
    destruct (rm_half _ _ _ _ _ Hm) as (k&K&out&HK&Hf&Hout&Hhalf).
    destruct (old_list hdr hd A Hhd Htmp _ _ _ _ HA) as (pre&post&Ht&Hlp&_).
    assert (l <> [] /\ kept P q l = l) as [Hne Hk].
    { split; [|apply filter_all, Forall_forall; intros x Hx; apply Hp, elem_of_pairs_cons; by left].
      destruct Hwf as [_ He]. rewrite HA in He. apply Forall_app in He as [_ He].
      by apply Forall_cons in He as [[_ Hn _ _] _]. }
    eapply wp_mono; [|eapply (copy_kept _ _ _ _ _ _ [] l _ _ _ _ _ _ _ Hm Ht Hlp); [exact Hf|done|done|len_lia|exact Hout|lia]].
    intros [[[old3 o3] c3] v2] (->&->&->&Hf2). unfold W31 in *.
    eapply (half_put_next hd); [exact (Hhalf _ _ Hf2)|len_lia|len_lia|len_lia|]. intros v3 K' HK' Hn Hf3.
    rewrite Hop. eapply wp_get; [by apply (tmp_key hdr A A1 q l A2)|]. rewrite <- Hop.
    eapply (half_set_key hd); [exact Hf3|len_lia|]. intros v4 Hf4. cbn [wp r_old_p]. split; [|len_lia].
    exists (A1 ++ [(q, l)]), A2. split; [|intros p x Hx; apply Hp, elem_of_pairs_cons; by right].
    eapply (rm_next A1 q l A2 _ s' _ _ _ _ _ _ _ _ _ K'); [exact Hm|done..|lia|done|done|lia|].
    apply half_gap; [done|]. replace (plen + size (adj_diff P A1) + len l) with (len out + len l) by lia. done.
Qed.
End Remove.

(** ** Moving the lists up *)

Section Shrink.
Context (hdr : list Z) (D : adj) (K : list (Z * Z)) (base : Z) (_values rest : list Z).
Abbreviation vals := (hdr ++ table base D ++ flat K ++ body D ++ rest).
Abbreviation delta := (2 * len K).
Abbreviation n := (len hdr + 2 * len D + size D).
Context (Hbase : base = len hdr + 2 * len D + 2 * len K) (Hlt : base + size D < W31).

Lemma shrink_table_spec v : filled hdr n v ->
  wp (shrink_table (len hdr) vals (2 * len D + len hdr) delta v) (fun v' =>
    filled (hdr ++ table (base - delta) D) n v').
Proof.
  intros Hf. unfold shrink_table. apply wp_bind. pose proof (size_nonneg D).
  eapply (wp_while (fun '(i, v') => exists D1 D2, D = D1 ++ D2 /\ i = len hdr + 2 * len D1 /\
      filled (hdr ++ table (base - delta) D1) n v')
    (fun '(i, _) => Z.to_nat (len hdr + 2 * len D - i))).
  - exists [], D. rewrite app_nil_r. split_and!; [done|len_lia|done].
  - pose proof (length_table base D). len_lia.
  - intros [i v'] (D1&D2&HD&->&Hf'). cbn [wp]. assert (len D = len D1 + len D2) as Hl by (rewrite HD; len_lia).
    destruct D2 as [|[q l] D2].
    { rewrite (proj2 (Z.ltb_ge _ _)) by len_lia. cbn [wp]. rewrite app_nil_r in HD. by rewrite <- HD in Hf'. }
    rewrite (proj2 (Z.ltb_lt _ _)) by len_lia. pose proof (length_table (base - delta) D1).
    eapply wp_get; [rewrite HD at 1; by apply get_table_key|].
    eapply wp_emit; [exact Hf'|len_lia|len_lia|]. intros v1 Hf1.
    eapply wp_get; [rewrite HD at 1; by apply get_table_off|].
    eapply wp_emit; [exact Hf1|len_lia|len_lia|]. intros v2 Hf2. cbn [wp]. split; [|len_lia].
    exists (D1 ++ [(q, l)]), D2. rewrite <- app_assoc. split_and!; [done|len_lia|].
    pose proof (size_nonneg D1). assert (size D1 <= size D) as Hs.
    { rewrite HD, size_app. pose proof (size_nonneg ((q, l) :: D2)). lia. }
    unfold W31 in *. rewrite u32_small in Hf2 by len_lia. rewrite table_app. cbn [table].
    rewrite <- !app_assoc in Hf2. replace (base - delta + size D1) with (base + size D1 - delta) by lia.
    exact Hf2.
Qed.

Lemma shrink_body_spec v : filled (hdr ++ table (base - delta) D) n v ->
  shrink_body vals (2 * len D + len hdr) base n (len vals) v =
  Some (hdr ++ table (base - delta) D ++ body D).
Proof.
  intros Hf. unfold shrink_body. apply wp_eq, wp_bind.
  pose proof (length_table (base - delta) D). pose proof (length_table base D). pose proof (length_flat K).
  eapply (wp_while (fun '(i, j, v') => exists b1 b2, body D = b1 ++ b2 /\ i = len hdr + 2 * len D + len b1 /\
      j = base + len b1 /\ filled (hdr ++ table (base - delta) D ++ b1) n v')
    (fun '(i, _, _) => Z.to_nat (n - i))).
  - exists [], (body D). rewrite app_nil_r. split_and!; [done|len_lia|len_lia|done].
  - unfold size. len_lia.
  - intros [[i j] v'] (b1&b2&Hb&->&->&Hf'). cbn [wp].
    assert (size D = len b1 + len b2) as Hl by (unfold size; rewrite Hb; len_lia).
    destruct b2 as [|x b2].
    { rewrite (proj2 (Z.ltb_ge _ _)) by len_lia. cbn [andb wp]. rewrite app_nil_r in Hb. subst b1.
      apply (filled_full _ _ _ Hf'). unfold size. len_lia. }
    rewrite (proj2 (Z.ltb_lt _ _)) by len_lia. rewrite (proj2 (Z.ltb_lt _ _)) by (unfold size in *; len_lia).
    cbn [andb]. eapply wp_get.
    { eapply (arr_get_at (hdr ++ table base D ++ flat K ++ b1) x (b2 ++ rest)); [|len_lia].
      by rewrite Hb, <- !app_assoc. }
    eapply wp_emit; [exact Hf'|len_lia|len_lia|]. intros v2 Hf2. cbn [wp]. split; [|len_lia].
    exists (b1 ++ [x]), b2. rewrite <- !app_assoc in *. split_and!; [done|len_lia|len_lia|done].
Qed.
End Shrink.

(** ** The whole operation *)

Section Whole.
Context (ent : bool) (junk : nat -> Z).

Lemma shrink_spec (A D : adj) (K : list (Z * Z)) n vs :
  len D + len K = len A -> hoff ent + 2 * len A + size D < W31 ->
  filled (header ent D ++ table (hoff ent + 2 * len A) D ++ flat K ++ body D) n vs ->
  shrink (hoff ent) ent junk vs (len A) n (len D) = Some (encode ent D).
Proof.
  intros HK Hlt Hf. pose proof Hf as (rest&Hvs&Hn). rewrite <- !app_assoc in Hvs.
  pose proof (size_nonneg D). assert (2 <= hoff ent <= 3) as Hh3 by (destruct ent; lia).
  unfold shrink. apply wp_eq. eapply wp_get; [by eapply filled_get|]. eapply wp_get; [by eapply filled_get|].
  unfold W31 in *.
  assert (i32 (len D * 2 + hoff ent + size D) = hoff ent + 2 * len D + size D) as -> by (rewrite i32_small; lia).
  assert (i32 (len A - len D) * 2 = 2 * len K) as -> by (rewrite i32_small; lia).
  assert (i32 ((len A ⊠ 2) ⊞ hoff ent) = hoff ent + 2 * len A) as -> by (wsimp; rewrite i32_small; lia).
  eapply wp_emit; [apply filled_new; lia|done|len_lia|]. intros v1 Hf1.
  eapply wp_emit; [exact Hf1|done|len_lia|]. intros v2 Hf2. apply wp_bind.
  apply (wp_mono _ (fun v => filled (header ent D) (hoff ent + 2 * len D + size D) v)); cycle 1.
  { destruct ent; [|exact Hf2]. eapply wp_get; [by eapply filled_get|]. apply wp_ret.
    by eapply wp_emit; [exact Hf2|done|len_lia|]. }
  intros v3 Hf3. apply wp_bind. rewrite <- (length_header ent D) in *. rewrite Hvs.
  eapply wp_mono; [|eapply shrink_table_spec; try exact Hf3; unfold W31; lia].
  intros v4 Hf4. apply wp_eq. rewrite Hvs in Hn. rewrite <- Hn.
  erewrite shrink_body_spec; try exact Hf4; [|lia..].
  unfold encode, layout. do 3 f_equal. f_equal. lia.
Qed.
(** The cells of a fresh array. *)
Lemma flat_prefix (a : nat) (l : list Z) : 2 * Z.of_nat a <= len l ->
  exists (K : list (Z * Z)) rest, l = flat K ++ rest /\ length K = a.
Proof.
  revert l. induction a as [|a IH]; intros l Hl; [by exists [], l|].
  destruct l as [|x [|y l]]; [len_lia..|]. destruct (IH l) as (K&rest&->&HK); [len_lia|].
  exists ((x, y) :: K), rest. split; [done|]. simpl. lia.
Qed.

Lemma fresh_cells (A : adj) n :
  A <> [] -> hoff ent + 2 * len A <= n < W31 ->
  wp (arr_set (new_array junk n) (hoff ent + 1) (u32 (hoff ent + 2 * len A))) (fun vs => exists hd K,
    len hd = hoff ent /\ len K = len A /\ gap hd (hoff ent + 2 * len A) [] K n vs).
Proof.
  intros HA Hn. assert (2 <= hoff ent <= 3) as Hh3 by (destruct ent; lia). unfold W31 in *.
  set (v := new_array junk n). assert (len v = n) as Hv by (unfold v; rewrite length_new_array; lia).
  destruct (flat_prefix (length A) (drop (Z.to_nat (hoff ent)) v)) as (K&rest&Hd&HK).
  { rewrite length_drop. lia. }
  assert (v = take (Z.to_nat (hoff ent)) v ++ flat K ++ rest) as Hsp by (by rewrite <- Hd, take_drop).
  set (hd := take (Z.to_nat (hoff ent)) v) in *.
  assert (len hd = hoff ent) as Hhd by (unfold hd; rewrite length_take; lia).
  destruct K as [|[k c] K]; [destruct A; [done|simpl in HK; lia]|].
  apply wp_ret. eapply (wp_update (hd ++ [k]) c (flat K) n); [|len_lia|].
  - exists rest. rewrite <- !app_assoc. split; [exact Hsp|done].
  - intros v' Hv'. cbn [wp]. exists hd, ((k, hoff ent + 2 * len A) :: K). split_and!; [done|simpl in *; lia|].
    rewrite u32_small in Hv' by word_lia. split; [by intros ??? [= <- <- <-]; rewrite size_nil; lia|].
    cbn [table app body fmap list_fmap concat]. rewrite app_nil_r. rewrite <- app_assoc in Hv'. exact Hv'.
Qed.

Lemma wf_pending_nil (P : list (Z * Z)) (A : adj) : (forall p x, (p, x) ∈ pairs A -> (p, x) ∈ P <-> (p, x) ∈ pairs []) ->
  forall p x, (p, x) ∈ pairs A -> (p, x) ∉ P.
Proof. intros H p x Hx. rewrite H by done. apply not_elem_of_nil. Qed.

Lemma Remove_values_spec A P :
  wf A -> A <> [] -> len (encode ent A) < W31 ->
  Remove_values (hoff ent) ent junk (flat P) (encode ent A) =
  Some (match adj_diff P A with [] => [] | _ => encode ent (adj_diff P A) end, size A - size (adj_diff P A)).
Proof.
  intros HA Hne Hlt. assert (2 <= hoff ent <= 3) as Hh3 by (destruct ent; lia).
  pose proof (length_layout (header ent A) A) as Hl. fold (encode ent A) in Hl. rewrite length_header in Hl.
  pose proof (size_nonneg A). destruct (size_diff P A) as [Hs HlD]. set (D := adj_diff P A) in *.
  pose proof (entities_bounds D). unfold Remove_values.
  destruct (group_sets_spec P []) as (B&->&HoB&HpB); [by split; constructor|]. cbn [mbind option_bind].
  rewrite (proj2 (Z.eqb_neq _ _)) by lia. apply wp_eq.
  eapply wp_get; [by destruct ent|]. eapply wp_get; [by destruct ent|]. unfold W31 in *.
  assert (i32 ((len A ⊠ 2) ⊞ hoff ent) = hoff ent + 2 * len A) as -> by (wsimp; rewrite i32_small; lia).
  rewrite (i32_small (len A)) by lia. apply wp_bind.
  eapply wp_mono; [|apply (fresh_cells A); [done|unfold W31; lia]]. intros v0 (hd&K0&Hhd&HK0&Hg0).
  rewrite <- (length_header ent A) in *. apply wp_bind.
  eapply wp_mono; [|eapply (remove_both_spec (header ent A) hd A P Hhd Hlt HA); [|done|]]; cycle 1.
  { split; cbn [r_old_p r_p r_old_o r_o r_pre_num r_cnt r_vs adj_diff]; rewrite ?size_nil; try done; try len_lia.
    exists K0. split; [len_lia|done]. }
  { split; [done|]. intros p x Hx. rewrite HpB. set_solver. }
  intros s1 (A1&A2&Hm1&Hp1&Hend). apply wp_bind.
  eapply wp_mono; [|eapply (remove_rest_spec (header ent A) hd A P Hhd Hlt HA A1 A2 s1 Hm1)]; cycle 1.
  { destruct Hend as [->|Hit]; [by intros ?? ?%elem_of_nil|]. destruct Hp1 as [_ Hp1]. rewrite Hit in Hp1.
    by apply wf_pending_nil. }
  intros s2 [_ _ _ _ Ho Hpre Hc (K&HK&_&Hf)]. fold D in Ho, Hpre, Hc, HK, Hf. rewrite Ho, Hpre, Hc.
  replace (len A - len A + len D) with (len D) by lia.
  replace (len (header ent A) + 2 * len A + size D - (len (header ent A) + 2 * len A)) with (size D) by lia.
  wsimp. destruct hd as [|c0 [|c1 ex]]; [len_lia..|].
  eapply (wp_update [] c0); [exact Hf|done|]. intros v1 Hf1.
  eapply (wp_update [size D] c1); [exact Hf1|done|]. intros v2 Hf2.
  rewrite length_header in *.
  eapply (wp_set_entity ent (size D) (len D) ex); [exact Hhd|word_lia|exact Hf2|]. intros v3 Hf3.
  erewrite (shrink_spec A D K); [|lia|unfold W31; lia|exact Hf3]. cbn [mbind option_bind].
  eapply wp_get; [by destruct ent|]. wsimp. cbn [wp]. f_equal.
  destruct D as [|[q l] D'] eqn:ED; [done|].
  assert (0 < size D) as Hpos by (pose proof (wf_size D (wf_diff P A HA)); rewrite ED in *; len_lia).
  rewrite <- ED. by rewrite (proj2 (Z.eqb_neq _ _)) by lia.
Qed.
End Whole.
