(* ===== verification/BatchPre.v ===== *)
(** * Batch updates of the value list of a predicate

    [KVstore::Insert_p2values] and [KVstore::Remove_p2values]
    (KVstore/KVstore.cpp): the new pairs, grouped by subject, are merged with
    the two columns of the old value list, or taken out of them, in a scratch
    array which is then compacted. *)

From S2P Require Import Prelude Util ValueList Adjacency ValueSpec PreList ValueRead BatchInsert BatchInsertSpec BatchRemove BatchRemoveSpec.

Section Code.
Context (junk : nat -> Z).

Section Scratch.
Context (_tmp : list Z) (t0 old_len tmp_len : Z).

Abbreviation cursor := (Z * Z * list Z)%type.

(** [_values[s_offset] = x; _values[s_offset + tmp_len] = y;]. *)
Definition emit_pair (s x y : Z) (vs : list Z) : option (list Z) :=
  vs ← arr_set vs s x; arr_set vs (s ⊞ tmp_len) y.

(** The old pair at [old_s_offset], copied. *)
Definition copy_old_pair (c : cursor) : option cursor :=
  let '(old_s, s, vs) := c in
  x ← arr_get _tmp old_s;
  y ← arr_get _tmp (old_s ⊞ old_len);
  vs ← emit_pair s x y vs;
  Some (old_s ⊞ 1, s ⊞ 1, vs).

(** [while (old_s_offset <= _tmp[0] && test(_tmp[old_s_offset]))]; the last loop
    over the old pairs has no test. *)
Definition copy_while (test : Z -> bool) (c : cursor) : option cursor :=
  while (S (length _tmp))
    (fun '(old_s, s, vs) =>
       if old_s <=? t0 then x ← arr_get _tmp old_s; Some (test x) else Some false)
    copy_old_pair c.

(** [while (o_it != oids.end())] on insertion. *)
Fixpoint put_oids (f : Z) (o_it : list Z) (s : Z) (vs : list Z) : option (Z * list Z) :=
  match o_it with
  | [] => Some (s, vs)
  | y :: o_it' => vs ← emit_pair s f y vs; put_oids f o_it' (s ⊞ 1) vs
  end.

Abbreviation ostate := (list Z * Z * Z * list Z)%type.

(** [o_it != oids.end() && old_s_offset <= _tmp[0] && _tmp[old_s_offset] == it->first]. *)
Definition both_left (f : Z) (st : ostate) : option bool :=
  let '(o_it, old_s, s, vs) := st in
  match o_it with
  | [] => Some false
  | _ => if old_s <=? t0 then x ← arr_get _tmp old_s; Some (x =? f) else Some false
  end.

(** The objects of one subject that both sides have. *)
Definition merge_oids (f : Z) (st : ostate) : option ostate :=
  while (S (length st.1.1.1 + length _tmp)) (both_left f)
    (fun '(o_it, old_s, s, vs) =>
       match o_it with
       | [] => None
       | y :: o_it' =>
           x ← arr_get _tmp old_s;
           z ← arr_get _tmp (old_s ⊞ old_len);
           if y <? z then vs ← emit_pair s f y vs; Some (o_it', old_s, s ⊞ 1, vs)
           else if z <? y then vs ← emit_pair s x z vs; Some (o_it, old_s ⊞ 1, s ⊞ 1, vs)
           else vs ← emit_pair s x z vs; Some (o_it', old_s ⊞ 1, s ⊞ 1, vs)
       end) st.

(** The same on removal. *)
Definition remove_oids (f : Z) (st : ostate) : option ostate :=
  while (S (length st.1.1.1 + length _tmp)) (both_left f)
    (fun '(o_it, old_s, s, vs) =>
       match o_it with
       | [] => None
       | y :: o_it' =>
           x ← arr_get _tmp old_s;
           z ← arr_get _tmp (old_s ⊞ old_len);
           if y <? z then Some (o_it', old_s, s, vs)
           else if z <? y then vs ← emit_pair s x z vs; Some (o_it, old_s ⊞ 1, s ⊞ 1, vs)
           else Some (o_it', old_s ⊞ 1, s, vs)
       end) st.

Abbreviation pstate := (adj * Z * Z * list Z)%type.

Definition subjects_left (st : pstate) : option bool :=
  let '(it, old_s, s, vs) := st in
  Some ((old_s <=? t0) && match it with [] => false | _ => true end).

Definition merge_subjects (st : pstate) : option pstate :=
  while (S (length st.1.1.1 + length _tmp)) subjects_left
    (fun '(it, old_s, s, vs) =>
       match it with
       | [] => None
       | (f, oids) :: it' =>
           x ← arr_get _tmp old_s;
           if x =? f then
             '(o_it, old_s, s, vs) ← merge_oids f (oids, old_s, s, vs);
             '(s, vs) ← put_oids f o_it s vs;
             '(old_s, s, vs) ← copy_while (fun x => x =? f) (old_s, s, vs);
             Some (it', old_s, s, vs)
           else if f <? x then
             '(s, vs) ← put_oids f oids s vs;
             Some (it', old_s, s, vs)
           else
             '(old_s, s, vs) ← copy_while (fun x => x <? f) (old_s, s, vs);
             Some (it, old_s, s, vs)
       end) st.

(** The subjects that are left. *)
Fixpoint put_subjects (it : adj) (s : Z) (vs : list Z) : option (Z * list Z) :=
  match it with
  | [] => Some (s, vs)
  | (f, oids) :: it' => '(s, vs) ← put_oids f oids s vs; put_subjects it' s vs
  end.

Definition remove_subjects (st : pstate) : option pstate :=
  while (S (length st.1.1.1 + length _tmp)) subjects_left
    (fun '(it, old_s, s, vs) =>
       match it with
       | [] => None
       | (f, oids) :: it' =>
           x ← arr_get _tmp old_s;
           if x =? f then
             '(_, old_s, s, vs) ← remove_oids f (oids, old_s, s, vs);
             '(old_s, s, vs) ← copy_while (fun x => x =? f) (old_s, s, vs);
             Some (it', old_s, s, vs)
           else if f <? x then Some (it', old_s, s, vs)
           else
             '(old_s, s, vs) ← copy_while (fun x => x <? f) (old_s, s, vs);
             Some (it, old_s, s, vs)
       end) st.

(** "compaction". *)
Definition compact (s : Z) (_values : list Z) : option (list Z) :=
  _values ← arr_set _values 0 (s ⊟ 1);
  v0 ← arr_get _values 0;
  values ← arr_set (new_array junk (1 + 2 * v0)) 0 v0;
  '(_, values) ← while (S (length _values))
    (fun '(i, values) => Some (i <? s))
    (fun '(i, values) =>
       x ← arr_get _values i;
       y ← arr_get _values (i ⊞ tmp_len);
       values ← arr_set values i x;
       arr_set values (i ⊞ v0) y ≫= (fun values => Some (i ⊞ 1, values)))
    (1, values);
  Some values.
End Scratch.

(** The case without an old value list: all pairs, in two columns. *)
Fixpoint fill_oids (n sid : Z) (oids : list Z) (i : Z) (vs : list Z) : option (Z * list Z) :=
  match oids with
  | [] => Some (i, vs)
  | oid :: oids' =>
      vs ← arr_set vs i (u32 sid);
      arr_set vs (i + n) oid ≫= (fun vs => fill_oids n sid oids' (i + 1) vs)
  end.

Fixpoint fill_pairs (n : Z) (mp : adj) (i : Z) (vs : list Z) : option (Z * list Z) :=
  match mp with
  | [] => Some (i, vs)
  | (f, oids) :: mp' => '(i, vs) ← fill_oids n (i32 f) oids i vs; fill_pairs n mp' i vs
  end.

(** [KVstore::Insert_p2values]: the new value list and the number of new pairs. *)
Definition Insert_p2values (_sidoidlist _tmp : list Z) : option (list Z * Z) :=
  match _sidoidlist with
  | [] => Some (_tmp, 0)
  | _ =>
      '(mp, n, _) ← group_pairs _sidoidlist [] 0 0;
      if len _tmp =? 0 then
        vs ← arr_set (new_array junk (1 + 2 * n)) 0 n;
        '(i, vs) ← fill_pairs n mp 1 vs;
        if i =? n + 1 then Some (vs, n) else None
      else
        let vs := replicate (Z.to_nat (len _tmp + 2 * n)) INVALID in
        t0 ← arr_get _tmp 0;
        let old_len := i32 t0 in
        let tmp_len := (len _tmp + 2 * n - 1) / 2 in
        if tmp_len =? n + old_len then
          '(it, old_s, s, vs) ← merge_subjects _tmp t0 old_len tmp_len (mp, 1, 1, vs);
          '(_, s, vs) ← copy_while _tmp t0 old_len tmp_len (fun _ => true) (old_s, s, vs);
          '(s, vs) ← put_subjects tmp_len it s vs;
          v ← compact tmp_len s vs;
          v0 ← arr_get v 0;
          Some (v, v0 ⊟ t0)
        else None
  end.

(** [KVstore::Remove_p2values]: the new value list, empty when nothing is left,
    and the number of removed pairs. *)
Definition Remove_p2values (_sidoidlist _tmp : list Z) : option (list Z * Z) :=
  match _sidoidlist with
  | [] => Some (_tmp, 0)
  | _ =>
      mp ← group_sets _sidoidlist [];
      if len _tmp =? 0 then Some ([], 0) else
      let vs := replicate (length _tmp) INVALID in
      t0 ← arr_get _tmp 0;
      let old_len := i32 t0 in
      '(it, old_s, s, vs) ← remove_subjects _tmp t0 old_len old_len (mp, 1, 1, vs);
      '(_, s, vs) ← copy_while _tmp t0 old_len old_len (fun _ => true) (old_s, s, vs);
      v ← compact old_len s vs;
      v0 ← arr_get v 0;
      Some (if v0 =? 0 then [] else v, t0 ⊟ v0)
  end.
End Code.
