(* ===== verification/BatchPreSpec.v ===== *)
(** * The batch updates of a predicate are a union and a difference *)

From S2P Require Import Prelude Util ValueList Adjacency ValueSpec PreList ValueRead BatchInsert BatchInsertSpec BatchRemove BatchRemoveSpec BatchPre.

(** ** Union of lexicographically ordered lists *)

Fixpoint lex_union (L : list (Z * Z)) : list (Z * Z) -> list (Z * Z) :=
  fix go (R : list (Z * Z)) : list (Z * Z) :=
    match L, R with
    | [], _ => R
    | _, [] => L
    | x :: L', y :: R' =>
        if lex_ltb x y then x :: lex_union L' R
        else if lex_ltb y x then y :: go R'
        else x :: lex_union L' R'
    end.

Lemma lex_union_nil_l R : lex_union [] R = R.
Proof. by destruct R. Qed.
Lemma lex_union_nil_r L : lex_union L [] = L.
Proof. by destruct L. Qed.
Lemma lex_union_cons x L y R : lex_union (x :: L) (y :: R) =
  if lex_ltb x y then x :: lex_union L (y :: R)
  else if lex_ltb y x then y :: lex_union (x :: L) R
  else x :: lex_union L R.
Proof. done. Qed.

Lemma lex_ltb_false a b : lex_lt b a \/ a = b -> lex_ltb a b = false.
Proof.
  intros H. destruct (lex_ltb a b) eqn:E; [|done]. apply lex_ltb_spec in E. exfalso.
  destruct H as [H| ->]; [by eapply lex_irrefl, lex_trans|by eapply lex_irrefl].
Qed.

Lemma lex_union_left La L R :
  (forall a r, a ∈ La -> r ∈ R -> lex_lt a r) -> lex_union (La ++ L) R = La ++ lex_union L R.
Proof.
  induction La as [|a La IH]; intros H; [done|]. destruct R as [|r R].
  { by rewrite !lex_union_nil_r. }
  cbn [app]. rewrite lex_union_cons, (proj2 (lex_ltb_spec a r)) by (apply H; left).
  rewrite IH; [done|]. intros b s Hb Hs. apply H; [by right|done].
Qed.

Lemma lex_union_right L Ra R :
  (forall a r, a ∈ L -> r ∈ Ra -> lex_lt r a) -> lex_union L (Ra ++ R) = Ra ++ lex_union L R.
Proof.
  induction Ra as [|r Ra IH]; intros H; [done|]. destruct L as [|a L].
  { by rewrite !lex_union_nil_l. }
  cbn [app]. rewrite lex_union_cons, lex_ltb_false by (left; apply H; left).
  rewrite (proj2 (lex_ltb_spec r a)) by (apply H; left). rewrite IH; [done|].
  intros b s Hb Hs. apply H; [done|by right].
Qed.

Lemma elem_of_lex_union L R x : x ∈ lex_union L R <-> x ∈ L \/ x ∈ R.
Proof.
  revert L R. apply (merge_ind (fun L R => x ∈ lex_union L R <-> x ∈ L \/ x ∈ R)).
  - intros R. rewrite lex_union_nil_l. set_solver.
  - intros L. rewrite lex_union_nil_r. set_solver.
  - intros a L b R H1 H2 H3. rewrite lex_union_cons.
    destruct (lex_ltb a b) eqn:E1; [|destruct (lex_ltb b a) eqn:E2].
    + rewrite !elem_of_cons, H1, !elem_of_cons. tauto.
    + rewrite !elem_of_cons, H2, !elem_of_cons. tauto.
    + destruct (lex_total a b) as [Hl%lex_ltb_spec|[->|Hl%lex_ltb_spec]]; [congruence| |congruence].
      rewrite !elem_of_cons, H3. tauto.
Qed.

Lemma lex_sorted_cons x L : lex_sorted (x :: L) <-> lex_sorted L /\ forall y, y ∈ L -> lex_lt x y.
Proof.
  unfold lex_sorted. split.
  - inversion 1 as [|?? ? Hf]; subst. by rewrite Forall_forall in Hf.
  - intros [? ?]. constructor; [done|]. by apply Forall_forall.
Qed.

Lemma lex_sorted_union L R : lex_sorted L -> lex_sorted R -> lex_sorted (lex_union L R).
Proof.
  revert L R. apply (merge_ind (fun L R => lex_sorted L -> lex_sorted R -> lex_sorted (lex_union L R))).
  - intros R. by rewrite lex_union_nil_l.
  - intros L. by rewrite lex_union_nil_r.
  - intros a L b R H1 H2 H3 HL HR. rewrite lex_union_cons.
    pose proof HL as [HL1 HL2]%lex_sorted_cons. pose proof HR as [HR1 HR2]%lex_sorted_cons.
    destruct (lex_ltb a b) eqn:E1; [|destruct (lex_ltb b a) eqn:E2]; apply lex_sorted_cons; split; auto.
    + apply lex_ltb_spec in E1. intros y. rewrite elem_of_lex_union, elem_of_cons.
      intros [?|[->|?]]; eauto using lex_trans.
    + apply lex_ltb_spec in E2. intros y. rewrite elem_of_lex_union, elem_of_cons.
      intros [[->|?]|?]; eauto using lex_trans.
    + destruct (lex_total a b) as [Hl%lex_ltb_spec|[->|Hl%lex_ltb_spec]]; [congruence| |congruence].
      intros y. rewrite elem_of_lex_union. intros [?|?]; auto.
Qed.

Lemma length_lex_union L R : len L <= len (lex_union L R) <= len L + len R.
Proof.
  revert L R. apply (merge_ind (fun L R => len L <= len (lex_union L R) <= len L + len R)).
  - intros R. rewrite lex_union_nil_l. simpl. lia.
  - intros L. rewrite lex_union_nil_r. simpl. lia.
  - intros a L b R H1 H2 H3. rewrite lex_union_cons.
    destruct (lex_ltb a b); [|destruct (lex_ltb b a)]; simpl in *; lia.
Qed.

Lemma span_split (test : Z -> bool) (Lb : list (Z * Z)) : exists La Lc, Lb = La ++ Lc /\
  Forall (fun y => test y.1 = true) La /\ (forall y, head Lc = Some y -> test y.1 = false).
Proof.
  induction Lb as [|[x y] Lb (La&Lc&->&H1&H2)].
  { exists [], []. by split_and!. }
  destruct (test x) eqn:E.
  - exists ((x, y) :: La), Lc. split_and!; [done|by constructor|done].
  - exists [], ((x, y) :: La ++ Lc). split_and!; [done|constructor|]. by intros ? [= <-].
Qed.

Lemma sorted_head x L' z : lex_sorted (x :: L') -> z ∈ x :: L' -> x.1 <= z.1.
Proof.
  intros [_ H]%lex_sorted_cons [->|Hz]%elem_of_cons; [done|]. specialize (H z Hz). unfold lex_lt in H. lia.
Qed.

(** ** The scratch array *)

Section Scratch.
Context (L : list (Z * Z)) (hd m tl : Z).
Context (Hs : lex_sorted L) (Htl : tl = m) (Hm : 1 + 2 * m < W31) (HL : len L <= m).
Abbreviation tmp := (encode_p L).
Abbreviation n := (len L).

Lemma wp_emit_pair {B} out v s x y (k : list Z -> option B) Q :
  columns hd out m v -> len out < m -> s = 1 + len out ->
  (forall v', columns hd (out ++ [(x, y)]) m v' -> wp (k v') Q) ->
  wp (emit_pair tl s x y v ≫= k) Q.
Proof.
  clear HL. intros Hc Hlt -> Hk. unfold emit_pair, W31 in *. wsimp.
  pose proof (wp_emit_columns hd out m v (1 + len out) (1 + len out + tl) x y k Q Hc Hlt eq_refl) as H.
  rewrite Htl in *. specialize (H eq_refl Hk). by destruct (arr_set v _ x).
Qed.

Lemma put_oids_spec f l out s v :
  columns hd out m v -> len out + len l <= m -> s = 1 + len out ->
  wp (put_oids tl f l s v) (fun '(s', v') => s' = 1 + len out + len l /\
    columns hd (out ++ (pair f <$> l)) m v').
Proof.
  revert out s v. induction l as [|y l IH]; intros out s v Hc Hl ->.
  - simpl. rewrite app_nil_r. split; [lia|done].
  - cbn [put_oids]. len_simp. eapply wp_emit_pair; [exact Hc|lia|done|]. intros v' Hv'. unfold W31 in *.
    eapply wp_mono; [|apply (IH (out ++ [(f, y)])); [exact Hv'|len_lia|wlen; len_lia]].
    intros [s' v2] (->&Hc2). rewrite <- app_assoc in Hc2. split; [len_lia|done].
Qed.

Lemma wp_old_pair {B} L1 x y L2 i (k : Z -> Z -> option B) Q :
  L = L1 ++ (x, y) :: L2 -> i = 1 + len L1 -> wp (k x y) Q ->
  wp (x ← arr_get tmp i; y ← arr_get tmp (i ⊞ n); k x y) Q.
Proof.
  intros E -> Hk. assert (len L1 < n) by (rewrite E; len_lia). unfold W31 in *.
  eapply wp_get; [by eapply get_column1|].
  eapply wp_get; [eapply get_column2; [exact E|wlen; len_lia]|done].
Qed.

Lemma copy_while_spec test L1 La Lb out old_s s v :
  L = L1 ++ La ++ Lb -> Forall (fun y => test y.1 = true) La ->
  (forall y, head Lb = Some y -> test y.1 = false) ->
  old_s = 1 + len L1 -> s = 1 + len out -> len out + len La <= m -> columns hd out m v ->
  wp (copy_while tmp n n tl test (old_s, s, v)) (fun '(old', s', v') =>
    old' = 1 + len L1 + len La /\ s' = 1 + len out + len La /\ columns hd (out ++ La) m v').
Proof.
  intros E Ht Hh -> -> Hlen Hc. unfold copy_while, W31 in *.
  eapply (wp_while (fun '(old', s', v') => exists Lx Ly, La = Lx ++ Ly /\
            old' = 1 + len L1 + len Lx /\ s' = 1 + len out + len Lx /\ columns hd (out ++ Lx) m v')
          (fun '(old', _, _) => Z.to_nat (1 + n - old'))).
  - exists [], La. rewrite app_nil_r. simpl. split_and!; [done|lia..|done].
  - pose proof (length_encode_p L). lia.
  - intros [[old' s'] v'] (Lx&Ly&->&->&->&Hc'). len_simp.
    assert (n = len L1 + len Lx + len Ly + len Lb) as Hn by (rewrite E; len_lia).
    apply Forall_app in Ht as [_ Ht]. destruct Ly as [|[x y] Ly].
    { rewrite app_nil_r in *. assert (columns hd (out ++ Lx) m v') by done. destruct Lb as [|[x y] Lb].
      - rewrite (proj2 (Z.leb_gt _ _)) by len_lia. cbn [wp]. split_and!; [len_lia..|done].
      - rewrite (proj2 (Z.leb_le _ _)) by len_lia.
        eapply wp_get; [eapply get_column1; [by rewrite E, app_assoc|len_lia]|]. cbn [wp].
        specialize (Hh _ eq_refl). simpl in Hh. rewrite Hh. split_and!; [len_lia..|done]. }
    rewrite (proj2 (Z.leb_le _ _)) by len_lia. apply Forall_cons in Ht as [Hx Ht].
    assert (L = (L1 ++ Lx) ++ (x, y) :: (Ly ++ Lb)) as E' by (rewrite E, <- !app_assoc; done).
    eapply wp_get; [eapply get_column1; [exact E'|len_lia]|]. cbn [wp]. simpl in Hx. rewrite Hx.
    unfold copy_old_pair. eapply (wp_old_pair (L1 ++ Lx)); [exact E'|len_lia|].
    eapply wp_emit_pair; [exact Hc'|len_lia|len_lia|]. intros v2 Hv2. cbn [wp]. split; [|wlen; len_lia].
    exists (Lx ++ [(x, y)]), Ly. rewrite <- !app_assoc in *. split_and!; [done|wlen; len_lia..|done].
Qed.

Lemma tail_sorted La Lb : L = La ++ Lb -> lex_sorted Lb.
Proof. intros E. rewrite E in Hs. by apply lex_sorted_app in Hs as (_&?&_). Qed.

(** [f] is below every subject that is left of the new pairs. *)
Abbreviation above f R := (forall r : Z * Z, r ∈ R -> f < r.1).

Lemma merge_oids_spec U f l R La Lb out old_s s v :
  L = La ++ Lb -> old_s = 1 + len La -> s = 1 + len out -> columns hd out m v ->
  increasing l -> above f R -> (forall z, z ∈ Lb -> f <= z.1) ->
  out ++ lex_union Lb ((pair f <$> l) ++ R) = U -> len out + len Lb + len l + len R <= m ->
  wp (merge_oids tmp n n tl f (l, old_s, s, v)) (fun '(l', old', s', v') => exists La' Lb' out',
    L = La' ++ Lb' /\ old' = 1 + len La' /\ s' = 1 + len out' /\ columns hd out' m v' /\
    len La <= len La' /\
    out' ++ lex_union Lb' ((pair f <$> l') ++ R) = U /\ len out' + len Lb' + len l' + len R <= m /\
    (forall z, z ∈ Lb' -> f <= z.1) /\ (l' = [] \/ forall z, z ∈ Lb' -> f < z.1)).
Proof.
  intros E -> -> Hc Hl Hab Hf HU Hr. unfold merge_oids, W31 in *.
  eapply (wp_while (fun '(l', old', s', v') => exists La' Lb' out',
    L = La' ++ Lb' /\ old' = 1 + len La' /\ s' = 1 + len out' /\ columns hd out' m v' /\
    len La <= len La' /\
    out' ++ lex_union Lb' ((pair f <$> l') ++ R) = U /\ len out' + len Lb' + len l' + len R <= m /\
    (forall z, z ∈ Lb' -> f <= z.1))
    (fun '(l', old', _, _) => (length l' + Z.to_nat (1 + n - old'))%nat)).
  - exists La, Lb, out. by split_and!.
  - cbn [fst]. pose proof (length_encode_p L). lia.
  - intros [[[l' old'] s'] v'] (La'&Lb'&out'&E'&->&->&Hc'&Hla&HU'&Hr'&Hf'). cbn [both_left].
    assert (n = len La' + len Lb') as Hn by (rewrite E'; len_lia).
    pose proof (tail_sorted _ _ E') as Hst.
    destruct l' as [|y l'].
    { cbn [wp]. exists La', Lb', out'. split_and!; try done. by left. }
    destruct Lb' as [|[x z] Lb'].
    { rewrite (proj2 (Z.leb_gt _ _)) by len_lia. cbn [wp]. exists La', [], out'. split_and!; try done.
      right. by intros ? ?%elem_of_nil. }
    rewrite (proj2 (Z.leb_le _ _)) by len_lia. eapply wp_get; [by eapply get_column1|]. cbn [wp].
    destruct (Z.eqb_spec x f) as [->|Hne]; cycle 1.
    { exists La', ((x, z) :: Lb'), out'. split_and!; try done. right. intros w Hw.
      pose proof (sorted_head _ _ _ Hst Hw). specialize (Hf' (x, z) ltac:(left)). simpl in *. lia. }
    eapply wp_old_pair; [exact E'|done|]. rewrite fmap_cons in HU'. cbn [app] in HU'.
    rewrite lex_union_cons in HU'. unfold lex_ltb in HU'. cbn [fst snd] in HU'.
    rewrite Z.ltb_irrefl, Z.eqb_refl in HU'. cbn [orb andb] in HU'.
    assert (forall w, w ∈ Lb' -> f <= w.1) as Hf2 by (intros w Hw; apply Hf'; by right).
    destruct (Z.ltb_spec y z); [|destruct (Z.ltb_spec z y)];
      (eapply wp_emit_pair; [exact Hc'|len_lia|len_lia|]; intros v2 Hv2; cbn [wp]; split; [|wlen; len_lia]).
    + rewrite (proj2 (Z.ltb_ge z y)) in HU' by lia.
      exists La', ((f, z) :: Lb'), (out' ++ [(f, y)]). rewrite <- !app_assoc. split_and!; try done; [wlen; len_lia|len_lia].
    + exists (La' ++ [(f, z)]), Lb', (out' ++ [(f, z)]). rewrite <- !app_assoc.
      split_and!; try done; [wlen; len_lia|wlen; len_lia|len_lia|len_lia].
    + exists (La' ++ [(f, z)]), Lb', (out' ++ [(f, z)]). rewrite <- !app_assoc.
      split_and!; try done; [wlen; len_lia|wlen; len_lia|len_lia|len_lia].
Qed.

(** Between two subjects: [R] are the new pairs that are left. *)
Record smid (U R : list (Z * Z)) (La Lb out : list (Z * Z)) (old_s s : Z) (v : list Z) : Prop := {
  sm_old : L = La ++ Lb;
  sm_old_s : old_s = 1 + len La;
  sm_s : s = 1 + len out;
  sm_cells : columns hd out m v;
  sm_all : out ++ lex_union Lb R = U;
  sm_room : len out + len Lb + len R <= m }.

Lemma smid_put U f l R La Lb out old_s s v :
  smid U ((pair f <$> l) ++ R) La Lb out old_s s v -> (l = [] \/ forall z, z ∈ Lb -> f < z.1) ->
  wp (put_oids tl f l s v) (fun '(s', v') => exists out', smid U R La Lb out' old_s s' v').
Proof.
  intros [E -> -> Hc HU Hr] Hl. rewrite length_app, length_fmap in Hr.
  eapply wp_mono; [|apply (put_oids_spec f l out); [done|lia|done]].
  intros [s' v'] (->&Hc'). exists (out ++ (pair f <$> l)). rewrite lex_union_right in HU.
  - split; try done; [rewrite length_app, length_fmap; lia|by rewrite <- app_assoc|rewrite length_app, length_fmap; lia].
  - intros [a1 a2] r Ha (y&->&Hy)%list_elem_of_fmap. destruct Hl as [->|Hl]; [by apply elem_of_nil in Hy|].
    left. specialize (Hl _ Ha). simpl in *. lia.
Qed.

Lemma smid_copy U R test La Lb out old_s s v :
  smid U R La Lb out old_s s v ->
  (forall a r, a ∈ Lb -> r ∈ R -> test a.1 = true -> lex_lt a r) ->
  wp (copy_while tmp n n tl test (old_s, s, v)) (fun '(old', s', v') => exists Lx Lb' out',
    smid U R (La ++ Lx) Lb' out' old' s' v' /\ Lb = Lx ++ Lb' /\
    (forall y, head Lb' = Some y -> test y.1 = false)).
Proof.
  intros [E -> -> Hc HU Hr] Ht. destruct (span_split test Lb) as (Lx&Lb'&->&H1&H2).
  eapply wp_mono; [|eapply (copy_while_spec test La Lx Lb' out); try done]; [|len_lia].
  intros [[old' s'] v'] (->&->&Hc'). exists Lx, Lb', (out ++ Lx). split_and!; [|done|done].
  rewrite lex_union_left in HU.
  - split; try done; [by rewrite <- app_assoc|len_lia|len_lia|by rewrite <- app_assoc|len_lia].
  - intros a r Ha Hr'. rewrite Forall_forall in H1. apply Ht; [set_solver|done|auto].
Qed.

Lemma equal_subject_spec {X} U f l R La z Lb out old_s s v (k : Z -> Z -> list Z -> option X) Q :
  smid U ((pair f <$> l) ++ R) La ((f, z) :: Lb) out old_s s v -> increasing l -> above f R ->
  (forall La' Lb' out' old' s' v', smid U R La' Lb' out' old' s' v' -> len La <= len La' ->
     wp (k old' s' v') Q) ->
  wp ('(o_it, old_s, s, vs) ← merge_oids tmp n n tl f (l, old_s, s, v);
      '(s, vs) ← put_oids tl f o_it s vs;
      '(old_s, s, vs) ← copy_while tmp n n tl (fun x => x =? f) (old_s, s, vs);
      k old_s s vs) Q.
Proof.
  intros [E Hos Hss Hc HU Hr] Hl Hab Hk. rewrite length_app, length_fmap in Hr. apply wp_bind.
  pose proof (tail_sorted _ _ E) as Hst.
  eapply wp_mono; [|eapply (merge_oids_spec U f l R La _ out); try done; [|lia]]; cycle 1.
  { intros w Hw. apply (sorted_head _ _ _ Hst Hw). }
  intros [[[l' old'] s'] v'] (La'&Lb'&out'&E'&Ho'&Hs'&Hc'&Hla&HU'&Hr'&Hf'&Hend). apply wp_bind.
  eapply wp_mono; [|eapply (smid_put U f l' R La' Lb' out' old'); [|exact Hend]]; cycle 1.
  { split; try done. rewrite length_app, length_fmap. lia. }
  intros [s2 v2] [out2 Hm2]. apply wp_bind. eapply wp_mono; [|eapply (smid_copy U R); [exact Hm2|]].
  - intros [[old3 s3] v3] (Lx&Lb3&out3&Hm3&_&_). eapply Hk; [exact Hm3|len_lia].
  - intros a r _ Hr2 Ha%Z.eqb_eq. left. rewrite Ha. by apply Hab.
Qed.

Lemma pairs_cons f l B : pairs ((f, l) :: B) = (pair f <$> l) ++ pairs B.
Proof. done. Qed.

Lemma ordered_above f l B : ordered ((f, l) :: B) -> above f (pairs B).
Proof. intros (_&_&H)%ordered_cons [p x] Hx. apply H. by eapply key_pair. Qed.

Lemma merge_subjects_spec U B v :
  smid U (pairs B) [] L [] 1 1 v -> ordered B ->
  wp (merge_subjects tmp n n tl (B, 1, 1, v)) (fun '(it, old', s', v') => exists La Lb out,
    smid U (pairs it) La Lb out old' s' v' /\ ordered it /\ (it = [] \/ Lb = [])).
Proof.
  intros Hm0 Ho0. unfold merge_subjects.
  eapply (wp_while (fun '(it, old', s', v') => exists La Lb out,
      smid U (pairs it) La Lb out old' s' v' /\ ordered it)
    (fun '(it, old', _, _) => (length it + Z.to_nat (1 + n - old'))%nat)).
  - by exists [], L, [].
  - cbn [fst]. pose proof (length_encode_p L). lia.
  - clear Hm0 Ho0 v. intros [[[it old'] s'] v'] (La&Lb&out&Hm0&Ho). cbn [subjects_left wp].
    pose proof Hm0 as [E Hos _ _ _ _]. assert (n = len La + len Lb) as Hn by (rewrite E; len_lia).
    destruct it as [|[f l] it].
    { rewrite andb_false_r. exists La, Lb, out. split_and!; try done. by left. }
    destruct Lb as [|[x z] Lb].
    { rewrite (proj2 (Z.leb_gt _ _)) by len_lia. cbn [andb]. exists La, [], out. split_and!; try done. by right. }
    rewrite (proj2 (Z.leb_le _ _)) by len_lia. cbn [andb]. pose proof (tail_sorted _ _ E) as Hst.
    pose proof (ordered_above _ _ _ Ho) as Hab. pose proof Ho as (Hl&Ho'&_)%ordered_cons. cbn [snd] in Hl.
    eapply wp_get; [by eapply get_column1|]. rewrite pairs_cons in Hm0.
    destruct (Z.eqb_spec x f) as [->|Hne]; [|destruct (Z.ltb_spec f x)].
    + eapply (equal_subject_spec U f l _ _ _ _ _ _ _ _ (fun a b c => Some (it, a, b, c))); [exact Hm0|done|done|].
      intros La2 Lb2 out2 old2 s2 v2 Hm2 Hla. cbn [wp]. split; [by exists La2, Lb2, out2|].
      destruct Hm2 as [E2 -> _ _ _ _]. assert (n = len La2 + len Lb2) by (rewrite E2; len_lia). len_lia.
    + apply wp_bind. eapply wp_mono; [|eapply (smid_put U f l); [exact Hm0|right]].
      * intros [s2 v2] [out2 Hm2]. cbn [wp]. split; [by exists La, ((x, z) :: Lb), out2|len_lia].
      * intros w Hw. pose proof (sorted_head _ _ _ Hst Hw). simpl in *. lia.
    + apply wp_bind. eapply wp_mono; [|eapply (smid_copy U _ (fun x => x <? f)); [exact Hm0|]].
      * intros [[old3 s3] v3] (Lx&Lb3&out3&Hm3&Hx&Hh). cbn [wp]. split; [by exists (La ++ Lx), Lb3, out3|].
        destruct Hm3 as [E3 -> _ _ _ _]. assert (n = len (La ++ Lx) + len Lb3) by (rewrite E3 at 1; len_lia).
        destruct Lx; [|len_lia]. cbn [app] in Hx. subst Lb3. specialize (Hh _ eq_refl). simpl in Hh. lia.
      * intros a r _ Hr Ha. left. apply Z.ltb_lt in Ha. apply elem_of_app in Hr as [(y&->&_)%list_elem_of_fmap|Hr]; [done|].
        specialize (Hab r Hr). lia.
Qed.

Lemma put_subjects_spec U it La Lb out old' s v :
  smid U (pairs it) La Lb out old' s v -> it = [] \/ Lb = [] ->
  wp (put_subjects tl it s v) (fun '(s', v') => exists out', smid U [] La Lb out' old' s' v').
Proof.
  revert out s v. induction it as [|[f l] it IH]; intros out s v Hm0 Hend; [by exists out|].
  destruct Hend as [| ->]; [done|]. cbn [put_subjects]. rewrite pairs_cons in Hm0. apply wp_bind.
  eapply wp_mono; [|eapply (smid_put U f l); [exact Hm0|right; by intros ? ?%elem_of_nil]].
  intros [s2 v2] [out2 Hm2]. eapply IH; [exact Hm2|by right].
Qed.
End Scratch.

(** ** The compaction *)

Lemma columns_head hd hd' out m v :
  columns hd out m v -> wp (arr_set v 0 hd') (fun v' => columns hd' out m v' /\ len v' = len v).
Proof.
  intros (r1&r2&->&H1&H2). erewrite (arr_set_at []); [|done..]. cbn [wp app]. split; [by exists r1, r2|done].
Qed.

Lemma columns_get hd o1 x y o2 m v :
  columns hd (o1 ++ (x, y) :: o2) m v ->
  arr_get v (1 + len o1) = Some x /\ arr_get v (1 + len o1 + m) = Some y.
Proof.
  intros (r1&r2&->&H1&H2). rewrite !fmap_app, !fmap_cons in *. cbn [fst snd] in *. split.
  - eapply (arr_get_at (hd :: o1.*1)); [cbn; by rewrite <- !app_assoc|]. simpl. rewrite length_fmap. lia.
  - eapply (arr_get_at (hd :: ((o1.*1 ++ x :: o2.*1) ++ r1) ++ o1.*2)); [cbn; by rewrite <- !app_assoc|].
    cbn [length]. rewrite length_app, length_fmap. lia.
Qed.

Lemma columns_length hd out m v : columns hd out m v -> len v = 1 + 2 * m /\ len out <= m.
Proof.
  intros (r1&r2&->&H1&H2). cbn [length]. rewrite !length_app, !length_fmap in *. cbn. lia.
Qed.

Lemma compact_spec junk hd out m v s :
  columns hd out m v -> 1 + 2 * m < W31 -> s = 1 + len out ->
  compact junk m s v = Some (encode_p out).
Proof.
  intros Hc Hm ->. unfold compact, W31 in *. pose proof (columns_length _ _ _ _ Hc) as [Hlv Hlo].
  apply wp_eq. wsimp. replace (1 + len out - 1) with (len out) by lia. apply wp_bind.
  eapply wp_mono; [|by eapply columns_head]. intros v1 [Hc1 Hl1].
  eapply (wp_get _ _ (len out)). { by destruct Hc1 as (?&?&->&_). }
  apply wp_bind. eapply wp_mono; [|apply columns_new; lia]. intros w0 Hw0. apply wp_bind.
  eapply (wp_while (fun '(i, w) => exists o1 o2, out = o1 ++ o2 /\ i = 1 + len o1 /\
      columns (len out) o1 (len out) w)
    (fun '(i, _) => Z.to_nat (1 + len out - i))).
  - by exists [], out.
  - lia.
  - intros [i w] (o1&o2&E&->&Hw). cbn [wp]. assert (len out = len o1 + len o2) as Hl by (rewrite E; len_lia).
    destruct o2 as [|[x y] o2].
    { rewrite (proj2 (Z.ltb_ge _ _)) by len_lia. cbn [wp]. rewrite app_nil_r in E. subst o1.
      by apply (columns_full _ _ _ _ Hw). }
    rewrite (proj2 (Z.ltb_lt _ _)) by len_lia. rewrite E in Hc1.
    destruct (columns_get _ _ _ _ _ _ _ Hc1) as [G1 G2]. eapply wp_get; [exact G1|].
    eapply wp_get; [wlen; exact G2|].
    eapply wp_emit_columns; [exact Hw|len_lia|done|wlen; len_lia|]. intros w' Hw'. cbn [wp]. split; [|wlen; len_lia].
    exists (o1 ++ [(x, y)]), o2. rewrite <- app_assoc. split_and!; [done|wlen; len_lia|done].
Qed.

(** The scratch array at the start. *)
Lemma columns_replicate x m : 0 <= m -> columns x [] m (replicate (Z.to_nat (1 + 2 * m)) x).
Proof.
  intros Hm. exists (replicate (Z.to_nat m) x), (replicate (Z.to_nat m) x). cbn [fmap list_fmap app].
  rewrite !length_replicate, <- replicate_add.
  replace (Z.to_nat (1 + 2 * m)) with (S (Z.to_nat m + Z.to_nat m)) by lia. cbn. split; [done|lia].
Qed.

(** ** Insertion *)

Lemma fill_oids_spec hd n f l out i v :
  word f -> columns hd out n v -> len out + len l <= n -> i = 1 + len out ->
  wp (fill_oids n (i32 f) l i v) (fun '(i', v') => i' = 1 + len out + len l /\
    columns hd (out ++ (pair f <$> l)) n v').
Proof.
  intros Hf. assert (u32 (i32 f) = f) as Hi.
  { pose proof (u32_sub_i32 f 0) as H. change (i32 0) with 0 in H. rewrite !Z.sub_0_r in H. rewrite H. by apply u32_small. }
  revert out i v. induction l as [|y l IH]; intros out i v Hc Hl ->.
  - simpl. rewrite app_nil_r. split; [lia|done].
  - cbn [fill_oids]. rewrite Hi. len_simp. eapply wp_emit_columns; [exact Hc|lia|done|lia|]. intros v' Hv'.
    eapply wp_mono; [|apply (IH (out ++ [(f, y)])); [exact Hv'|len_lia|len_lia]].
    intros [s' v2] (->&Hc2). rewrite <- app_assoc in Hc2. split; [len_lia|done].
Qed.

Lemma fill_pairs_spec hd n mp out i v :
  Forall (fun e => word e.1) mp -> columns hd out n v -> len out + size mp <= n -> i = 1 + len out ->
  wp (fill_pairs n mp i v) (fun '(i', v') => i' = 1 + len out + size mp /\
    columns hd (out ++ pairs mp) n v').
Proof.
  revert out i v. induction mp as [|[f l] mp IH]; intros out i v Hw Hc Hl ->.
  - cbn [fill_pairs wp]. change (pairs []) with (@nil (Z * Z)). rewrite app_nil_r, size_nil. split; [lia|done].
  - apply Forall_cons in Hw as [Hf Hw]. rewrite size_cons in *. cbn [snd fst] in *. pose proof (size_nonneg mp).
    cbn [fill_pairs]. apply wp_bind. eapply wp_mono; [|apply (fill_oids_spec hd n f l out); [done|done|lia|done]].
    intros [i' v'] (->&Hc'). eapply wp_mono; [|eapply IH; [done|exact Hc'| |]];
      [|rewrite length_app, length_fmap; lia|rewrite length_app, length_fmap; lia].
    intros [i2 v2] (->&Hc2). rewrite <- app_assoc in Hc2. rewrite length_app, length_fmap. split; [lia|done].
Qed.

Definition stored_p (L : list (Z * Z)) : list Z := match L with [] => [] | _ => encode_p L end.

Lemma wf_ordered B : wf B -> ordered B.
Proof. intros [Hk He]. split; [done|]. eapply Forall_impl; [exact He|]. by intros e []. Qed.

Lemma Insert_p2values_spec junk L P :
  lex_sorted L -> P <> [] -> lex_sorted P -> Forall (fun y => word y.1 /\ word y.2) P ->
  1 + 2 * (len L + len P) < W31 ->
  Insert_p2values junk (flat P) (stored_p L) =
  Some (encode_p (lex_union L P), len (lex_union L P) - len L).
Proof.
  intros HL HP Hs Hw Hlt. unfold Insert_p2values.
  destruct (group_pairs_spec P [] 0 0) as (B&HB&HwB&HpB); try done.
  { split; constructor. } { intros ?? ?%elem_of_nil. done. }
  change (pairs [] ++ P) with P in HpB. assert (len P = size B) as HlP by (rewrite <- length_pairs, HpB; done).
  pose proof (length_lex_union L P) as HlU.
  destruct P as [|[p x] P0] eqn:EP; [done|]. rewrite <- EP in *. clear HP.
  assert (exists r, flat P = p :: x :: r) as [r Hr] by (rewrite EP; by eexists).
  rewrite Hr in *. rewrite HB. cbn [mbind option_bind]. unfold W31 in *. apply wp_eq.
  destruct L as [|y L0] eqn:EL.
  - cbn [stored_p]. rewrite Z.eqb_refl, lex_union_nil_l. apply wp_bind.
    eapply wp_mono; [|apply columns_new; lia]. intros v0 Hv0. apply wp_bind.
    eapply wp_mono; [|apply (fill_pairs_spec (size B) (size B) B [] 1 v0); [|done|len_lia|done]]; cycle 1.
    { destruct HwB as [_ He]. eapply Forall_impl; [exact He|]. by intros e []. }
    intros [i v1] (->&Hv1). cbn [app] in *. rewrite (proj2 (Z.eqb_eq _ _)) by len_lia. cbn [wp].
    rewrite HpB in Hv1. rewrite (columns_full _ _ _ _ Hv1) by lia. unfold encode_p. rewrite HlP. f_equal. len_lia.
  - rewrite <- EL in *. assert (stored_p L = encode_p L) as -> by (by rewrite EL).
    rewrite length_encode_p, (proj2 (Z.eqb_neq _ _)) by lia. eapply wp_get; [done|].
    rewrite i32_small by lia. set (m := len L + size B).
    replace (1 + 2 * len L + 2 * size B) with (1 + 2 * m) by (subst m; lia).
    replace ((1 + 2 * m - 1) / 2) with m by (replace (1 + 2 * m - 1) with (m * 2) by lia; by rewrite Z.div_mul).
    rewrite (proj2 (Z.eqb_eq _ _)) by (subst m; lia). apply wp_bind.
    eapply wp_mono; [|eapply (merge_subjects_spec L INVALID m m HL eq_refl) with (U := lex_union L P);
      [unfold W31; lia|lia| |by apply wf_ordered]]; cycle 1.
    { split; try done; [apply columns_replicate; lia|by rewrite HpB|rewrite HpB; len_lia]. }
    intros [[[it old1] s1] v1] (La&Lb&out&Hm1&Hoi&Hend). apply wp_bind.
    eapply wp_mono; [|eapply (smid_copy L INVALID m m) with (test := fun _ => true); try done; [unfold W31; lia|lia|]]; cycle 1.
    { intros a r' Ha Hr' _. destruct Hend as [->| ->]; [by apply elem_of_nil in Hr'|by apply elem_of_nil in Ha]. }
    intros [[old2 s2] v2] (Lx&Lb'&out2&Hm2&Hx&Hh).
    assert (Lb' = []) as -> by (destruct Lb'; [done|by specialize (Hh _ eq_refl)]). apply wp_bind.
    eapply wp_mono; [|eapply (put_subjects_spec L INVALID m m) with (U := lex_union L P); try done; [unfold W31; lia|by right]].
    intros [s3 v3] [out3 [_ _ Hs3 Hc3 HU3 _]]. rewrite lex_union_nil_l, app_nil_r in HU3. subst out3.
    rewrite (compact_spec junk _ _ _ _ _ Hc3); [|unfold W31; lia|done]. cbn [mbind option_bind wp encode_p].
    eapply wp_get; [done|]. cbn [wp]. wsimp. done.
Qed.

(** ** Removal *)

Section Removal.
Context (L P : list (Z * Z)) (hd : Z).
Abbreviation tmp := (encode_p L).
Abbreviation n := (len L).
Context (Hs : lex_sorted L) (Hm : 1 + 2 * n < W31).
Abbreviation rest := (filter (fun z => z ∉ P)).

(** Between two pairs: [R] stands for the pairs still to be removed. *)
Record dmid (R La Lb : list (Z * Z)) (old_s s : Z) (v : list Z) : Prop := {
  dm_old : L = La ++ Lb;
  dm_old_s : old_s = 1 + len La;
  dm_s : s = 1 + len (rest La);
  dm_cells : columns hd (rest La) n v;
  dm_left : forall z, z ∈ Lb -> z ∈ P <-> z ∈ R }.

Lemma length_rest La : len (rest La) <= len La.
Proof. pose proof (length_filter (fun z => z ∉ P) La). lia. Qed.

Lemma dmid_copy R test La Lb old_s s v :
  dmid R La Lb old_s s v -> (forall z, z ∈ Lb -> test z.1 = true -> z ∉ R) ->
  wp (copy_while tmp n n n test (old_s, s, v)) (fun '(old', s', v') => exists Lx Lb',
    dmid R (La ++ Lx) Lb' old' s' v' /\ Lb = Lx ++ Lb' /\
    (forall y, head Lb' = Some y -> test y.1 = false)).
Proof.
  intros [E -> -> Hc HR] Ht. destruct (span_split test Lb) as (Lx&Lb'&->&H1&H2).
  pose proof (length_rest La). assert (n = len La + len Lx + len Lb') as Hn by (rewrite E; len_lia).
  eapply wp_mono; [|eapply (copy_while_spec L hd n n eq_refl Hm); try done]; [|lia].
  intros [[old' s'] v'] (->&->&Hc'). exists Lx, Lb'. split_and!; [|done|done].
  assert (rest Lx = Lx) as Hx.
  { apply filter_all, Forall_forall. intros z Hz. rewrite HR by set_solver. rewrite Forall_forall in H1.
    apply Ht; [set_solver|auto]. }
  split; [by rewrite E, app_assoc|len_lia|rewrite filter_app, Hx; len_lia|by rewrite filter_app, Hx|].
  intros z Hz. apply HR. set_solver.
Qed.

Lemma remove_oids_spec f l R La Lb old_s s v :
  dmid ((pair f <$> l) ++ R) La Lb old_s s v -> increasing l -> (forall r, r ∈ R -> f < r.1) ->
  (forall z, z ∈ Lb -> f <= z.1) ->
  wp (remove_oids tmp n n n f (l, old_s, s, v)) (fun '(l', old', s', v') => exists La' Lb',
    dmid R La' Lb' old' s' v' /\ len La <= len La' /\ (forall z, z ∈ Lb' -> f <= z.1)).
Proof.
  intros Hd Hl Hab Hf. unfold remove_oids, W31 in *.
  eapply (wp_while (fun '(l', old', s', v') => exists La' Lb',
      dmid ((pair f <$> l') ++ R) La' Lb' old' s' v' /\ increasing l' /\ len La <= len La' /\
      (forall z, z ∈ Lb' -> f <= z.1))
    (fun '(l', old', _, _) => (length l' + Z.to_nat (1 + n - old'))%nat)).
  - by exists La, Lb.
  - cbn [fst]. pose proof (length_encode_p L). destruct Hd as [_ -> _ _ _]. lia.
  - clear Hd Hl Hf. intros [[[l' old'] s'] v'] (La'&Lb'&Hd&Hl&Hla&Hf). cbn [both_left].
    pose proof Hd as [E Ho Hss Hc HR]. assert (n = len La' + len Lb') as Hn by (rewrite E; len_lia).
    pose proof (tail_sorted L Hs _ _ E) as Hst. pose proof (length_rest La').
    destruct l' as [|y l'].
    { cbn [wp]. by exists La', Lb'. }
    pose proof Hl as [Hl' Hy]%increasing_cons.
    destruct Lb' as [|[x z] Lb'].
    { rewrite (proj2 (Z.leb_gt _ _)) by len_lia. cbn [wp]. exists La', []. split_and!; try done.
      split; try done. by intros ? ?%elem_of_nil. }
    rewrite (proj2 (Z.leb_le _ _)) by len_lia. eapply wp_get; [by eapply get_column1|]. cbn [wp].
    destruct (Z.eqb_spec x f) as [->|Hne]; cycle 1.
    { exists La', ((x, z) :: Lb'). split_and!; try done. split; try done. intros w Hw. rewrite HR by done.
      rewrite elem_of_app. split; [|tauto]. intros [(a&->&_)%list_elem_of_fmap|]; [|done].
      pose proof (sorted_head _ _ _ Hst Hw). specialize (Hf (x, z) ltac:(left)). simpl in *. lia. }
    eapply (wp_old_pair L n Hm ltac:(lia)); [exact E|done|].
    pose proof Hst as [_ Hlex]%lex_sorted_cons.
    assert (forall w, w ∈ Lb' -> f <= w.1) as Hf2 by (intros w Hw; apply Hf; by right).
    assert (forall w : Z * Z, w ∈ (f, z) :: Lb' -> w.1 = f -> z <= w.2) as Hge.
    { intros w [->|Hw]%elem_of_cons; [done|]. specialize (Hlex w Hw). unfold lex_lt in Hlex. simpl in Hlex. lia. }
    destruct (Z.ltb_spec y z); [|destruct (Z.ltb_spec z y)].
    + cbn [wp]. split; [|len_lia]. exists La', ((f, z) :: Lb'). split_and!; try done. split; try done.
      intros w Hw. rewrite HR by done. rewrite !elem_of_app, fmap_cons, elem_of_cons.
      split; [|tauto]. intros [[->|?]|?]; [|tauto..]. specialize (Hge _ Hw eq_refl). simpl in Hge. lia.
    + assert ((f, z) ∉ P) as Hn2.
      { rewrite HR by left. rewrite elem_of_app. intros [(a&[= ->]&Ha)%list_elem_of_fmap|Hr].
        - apply elem_of_cons in Ha as [->|Ha]; [lia|]. specialize (Hy _ Ha). lia.
        - specialize (Hab _ Hr). simpl in Hab. lia. }
      eapply (wp_emit_pair hd n n eq_refl Hm); [exact Hc|len_lia|done|]. intros v2 Hv2. cbn [wp]. split; [|wlen; len_lia].
      exists (La' ++ [(f, z)]), Lb'. split_and!; [|done|len_lia|done].
      assert (rest (La' ++ [(f, z)]) = rest La' ++ [(f, z)]) as Hrest by (by rewrite filter_app, filter_cons_True).
      split; rewrite ?Hrest; [by rewrite E, <- app_assoc|wlen; len_lia|wlen; len_lia|done|].
      intros w Hw. apply HR. by right.
    + assert (y = z) as -> by lia. cbn [wp]. split; [|wlen; len_lia].
      exists (La' ++ [(f, z)]), Lb'. split_and!; [|done|len_lia|done].
      assert (rest (La' ++ [(f, z)]) = rest La') as Hrest.
      { rewrite filter_app, filter_cons_False, filter_nil, app_nil_r; [done|]. intros Hn2. apply Hn2, HR; [left|].
        apply elem_of_app. left. left. }
      split; rewrite ?Hrest; [by rewrite E, <- app_assoc|wlen; len_lia|done|done|].
      intros w Hw. rewrite HR by (by right). rewrite !elem_of_app, fmap_cons, elem_of_cons. split; [|tauto].
      intros [[->|?]|?]; [|tauto..]. exfalso. by eapply lex_irrefl, Hlex.
Qed.

Lemma remove_subjects_spec B v :
  dmid (pairs B) [] L 1 1 v -> ordered B ->
  wp (remove_subjects tmp n n n (B, 1, 1, v)) (fun '(it, old', s', v') => exists La Lb,
    dmid (pairs it) La Lb old' s' v' /\ (it = [] \/ Lb = [])).
Proof.
  intros Hd0 Ho0. unfold remove_subjects.
  eapply (wp_while (fun '(it, old', s', v') => exists La Lb,
      dmid (pairs it) La Lb old' s' v' /\ ordered it)
    (fun '(it, old', _, _) => (length it + Z.to_nat (1 + n - old'))%nat)).
  - by exists [], L.
  - cbn [fst]. pose proof (length_encode_p L). lia.
  - clear Hd0 Ho0 v. intros [[[it old'] s'] v'] (La&Lb&Hd&Ho). cbn [subjects_left wp].
    pose proof Hd as [E Hos _ _ HR]. assert (n = len La + len Lb) as Hn by (rewrite E; len_lia).
    destruct it as [|[f l] it].
    { rewrite andb_false_r. exists La, Lb. split; [done|by left]. }
    destruct Lb as [|[x z] Lb].
    { rewrite (proj2 (Z.leb_gt _ _)) by len_lia. cbn [andb]. exists La, []. split; [done|by right]. }
    rewrite (proj2 (Z.leb_le _ _)) by len_lia. cbn [andb]. pose proof (tail_sorted L Hs _ _ E) as Hst.
    pose proof (ordered_above _ _ _ Ho) as Hab. pose proof Ho as (Hl&Ho'&_)%ordered_cons. cbn [snd] in Hl.
    eapply wp_get; [by eapply get_column1|]. rewrite pairs_cons in Hd.
    destruct (Z.eqb_spec x f) as [->|Hne]; [|destruct (Z.ltb_spec f x)].
    + apply wp_bind. eapply wp_mono; [|eapply (remove_oids_spec f l); [exact Hd|done|done|]];
        [|intros w Hw; apply (sorted_head _ _ _ Hst Hw)].
      intros [[[l2 old2] s2] v2] (La2&Lb2&Hd2&Hla2&_). apply wp_bind.
      eapply wp_mono; [|eapply (dmid_copy _ (fun x => x =? f)); [exact Hd2|]].
      * intros [[old3 s3] v3] (Lx&Lb3&Hd3&_&_). cbn [wp]. split; [by exists (La2 ++ Lx), Lb3|].
        destruct Hd3 as [E3 -> _ _ _]. assert (n = len (La2 ++ Lx) + len Lb3) by (rewrite E3 at 1; len_lia). len_lia.
      * intros w _ Hw%Z.eqb_eq Hr. specialize (Hab _ Hr). lia.
    + cbn [wp]. split; [|len_lia]. exists La, ((x, z) :: Lb). split; [|done]. destruct Hd as [??? Hc HR2].
      split; try done. intros w Hw. rewrite HR2 by done. rewrite elem_of_app. split; [|tauto].
      intros [(a&->&_)%list_elem_of_fmap|]; [|done]. pose proof (sorted_head _ _ _ Hst Hw). simpl in *. lia.
    + apply wp_bind. eapply wp_mono; [|eapply (dmid_copy _ (fun x => x <? f)); [exact Hd|]].
      * intros [[old3 s3] v3] (Lx&Lb3&Hd3&Hx&Hh). cbn [wp]. split; [by exists (La ++ Lx), Lb3|].
        destruct Hd3 as [E3 -> _ _ _]. assert (n = len (La ++ Lx) + len Lb3) by (rewrite E3 at 1; len_lia).
        destruct Lx; [|len_lia]. cbn [app] in Hx. subst Lb3. specialize (Hh _ eq_refl). simpl in Hh. lia.
      * intros w _ Hw%Z.ltb_lt [(y&->&_)%list_elem_of_fmap|Hr]%elem_of_app; [simpl in Hw; lia|].
        specialize (Hab _ Hr). lia.
Qed.
End Removal.

Lemma Remove_p2values_spec junk L P :
  lex_sorted L -> L <> [] -> P <> [] -> 1 + 2 * len L < W31 ->
  Remove_p2values junk (flat P) (encode_p L) =
  Some (stored_p (filter (fun z => z ∉ P) L), len L - len (filter (fun z => z ∉ P) L)).
Proof.
  intros HL HLn HP Hlt. unfold Remove_p2values.
  destruct (group_sets_spec P []) as (B&HB&HoB&HpB); [by split; constructor|].
  destruct P as [|[p x] P0] eqn:EP; [done|]. rewrite <- EP in *. clear HP.
  assert (exists r, flat P = p :: x :: r) as [r Hr] by (rewrite EP; by eexists).
  rewrite Hr in *. rewrite HB. cbn [mbind option_bind]. unfold W31 in *. apply wp_eq.
  pose proof (length_encode_p L) as Hle. rewrite (proj2 (Z.eqb_neq _ _)) by lia. eapply wp_get; [done|].
  pose proof (length_filter (fun z => z ∉ P) L) as Hlf.
  rewrite i32_small by lia. replace (length (encode_p L)) with (Z.to_nat (1 + 2 * len L)) by lia. apply wp_bind.
  eapply wp_mono; [|eapply (remove_subjects_spec L P INVALID HL Hlt B); [|done]]; cycle 1.
  { split; try done; [apply columns_replicate; lia|]. intros [q y] _. rewrite HpB. set_solver. }
  intros [[[it old1] s1] v1] (La&Lb&Hm1&Hend). apply wp_bind.
  eapply wp_mono; [|eapply (dmid_copy L P INVALID HL Hlt) with (test := fun _ => true); [done|]]; cycle 1.
  { intros z Hz _ Hr'. destruct Hend as [->| ->]; [by apply elem_of_nil in Hr'|by apply elem_of_nil in Hz]. }
  intros [[old2 s2] v2] (Lx&Lb'&[E _ Hs2 Hc2 _]&_&Hh).
  assert (Lb' = []) as -> by (destruct Lb'; [done|by specialize (Hh _ eq_refl)]).
  rewrite app_nil_r in E. rewrite <- E in *.
  rewrite (compact_spec junk _ _ _ _ _ Hc2 Hlt) by done. cbn [mbind option_bind].
  eapply wp_get; [done|]. cbn [wp]. wsimp. f_equal.
  destruct (filter (fun z => z ∉ P) L) as [|z D]; [done|]. by rewrite (proj2 (Z.eqb_neq _ _)) by len_lia.
Qed.
