(* ===== verification/ValueTheorems.v ===== *)
(** * Theorems about value lists

    The updates and readings of one value list, and the searches they use. *)

From S2P Require Import Prelude Util ValueList Adjacency ValueUpdate ValueRemove ValueSpec PreList ValueRead.

(** The adjacency of the witnesses: entities 4 and 9 and a literal under
    predicate 1, entity 6 under predicate 3. *)
Definition sample : adj := [(1, [4; 9; 2000000001]); (3, [6])].

Lemma sample_wf : wf sample.
Proof.
  split; [repeat constructor|]. repeat constructor; simpl; try done; unfold word, W32; lia.
Qed.

Section Lists.
Context (junk : nat -> Z).

(** C25. Inserting a (predicate, id) pair that is not there into the value
    list of a subject or of an object, whether or not the predicate has a list
    already, gives the encoding of the adjacency with the pair, which is again
    well-formed. *)
Theorem value_insert_correct (A : adj) (p x : Z) :
  wf A -> A <> [] -> word p -> word x -> (p, x) ∉ pairs A -> len (encode_s A) + 3 < W32 ->
  exists A', s2_insert junk (encode_s A) p x = Some (encode_s A') /\
    o2_insert junk (encode_o A) p x = Some (encode_o A') /\ wf A' /\
    forall q y, (q, y) ∈ pairs A' <-> (q, y) = (p, x) \/ (q, y) ∈ pairs A.
Proof.
  intros Hwf Hne Hp Hx Hn Hlen. exists (adj_insert p x A). split_and!.
  - by apply s2_insert_encode.
  - apply o2_insert_encode; [done..|]. unfold encode_s, encode_o in *.
    rewrite length_layout in *. simpl in *. lia.
  - by apply wf_adj_insert.
  - intros q y. by apply pairs_adj_insert.
Qed.

(** C26. Removing a (predicate, id) pair from the value list of a subject or of
    an object gives the encoding of the adjacency without it; the entry of the
    predicate disappears with its last id. *)
Theorem value_remove_correct (A : adj) (p x : Z) :
  wf A -> (p, x) ∈ pairs A -> len (encode_s A) < W32 ->
  exists A', s2_remove junk (encode_s A) p x = Some (encode_s A') /\
    o2_remove junk (encode_o A) p x = Some (encode_o A') /\ wf A' /\
    forall q y, (q, y) ∈ pairs A' <-> (q, y) ∈ pairs A /\ (q, y) <> (p, x).
Proof.
  intros Hwf Hin Hlen. exists (adj_remove p x A). split_and!.
  - by apply s2_remove_encode.
  - apply o2_remove_encode; [done..|]. unfold encode_s, encode_o in *.
    rewrite length_layout in *. simpl in *. lia.
  - by apply wf_adj_remove.
  - intros q y. by apply pairs_adj_remove.
Qed.

(** The value list of a predicate: insertion and removal of a (subject,
    object) pair keep the two columns aligned and in lexicographic order. *)
Theorem p2_update_correct (L : list (Z * Z)) (s o : Z) :
  lex_sorted L -> len (encode_p L) + 3 < W32 ->
  ((s, o) ∉ L -> exists L', p2_insert junk (encode_p L) s o = Some (encode_p L') /\ lex_sorted L' /\
     forall y, y ∈ L' <-> y = (s, o) \/ y ∈ L) /\
  ((s, o) ∈ L -> exists L', p2_remove junk (encode_p L) s o = Some (encode_p L') /\ lex_sorted L' /\
     forall y, y ∈ L' <-> y ∈ L /\ y <> (s, o)).
Proof.
  intros Hs Hlen. split; intros Hin.
  - exists (insert_pair (s, o) L). split_and!; [by apply p2_insert_encode|by apply lex_sorted_insert|].
    intros y. by apply elem_of_insert_pair.
  - exists (remove_pair (s, o) L). split_and!; [by apply p2_remove_encode|by apply lex_sorted_remove|].
    intros y. apply elem_of_remove_pair.
Qed.

(** Round trip: the readers recover from the encoding of an adjacency its
    predicates, all its pairs, and the list of every predicate. *)
Theorem value_read_roundtrip (A : adj) (p : Z) :
  wf A -> A <> [] -> len (encode_s A) + 3 < W32 -> 2 * size A < W32 ->
  read_keys 3 junk (encode_s A) = Some (keys A) /\ read_keys 2 junk (encode_o A) = Some (keys A) /\
  read_pairs 3 junk (encode_s A) = Some (flat (pairs A)) /\
  read_pairs 2 junk (encode_o A) = Some (flat (pairs A)) /\
  read_list 3 junk (encode_s A) p = Some (adj_find p A) /\
  read_list 2 junk (encode_o A) p = Some (adj_find p A).
Proof.
  intros Hwf Hne Hlen H2.
  assert (len (encode_o A) + 3 < W32) as Hlen'
    by (unfold encode_s, encode_o in *; rewrite length_layout in *; simpl in *; lia).
  split_and!.
  - by apply (read_keys_spec junk [size A; len A; entities A] [entities A] A).
  - by apply (read_keys_spec junk [size A; len A] [] A).
  - by apply (read_pairs_spec junk [size A; len A; entities A] [entities A] A).
  - by apply (read_pairs_spec junk [size A; len A] [] A).
  - by apply (read_list_spec junk [size A; len A; entities A] [entities A] A).
  - by apply (read_list_spec junk [size A; len A] [] A).
Qed.
End Lists.

(** C29. [KVstore::binarySearch] over a table of keys at every [_step]-th cell
    ends and returns the position of the key, or [INVALID] when it is absent. *)
Theorem binarySearch_decides (_list keys : list Z) (_step _key : Z) :
  increasing keys -> 0 < len keys < W32 ->
  (forall k : nat, (k < length keys)%nat -> arr_get _list (_step * Z.of_nat k) = keys !! k) ->
  exists r, binarySearch _key _list (len keys) _step = Some r /\
    ((exists i, keys !! i = Some _key /\ r = Z.of_nat i) \/ ((_key ∉ keys) /\ r = INVALID)).
Proof.
  intros Hinc Hlen Hc. destruct (decide (_key ∈ keys)) as [Hin|Hin].
  - apply list_elem_of_lookup in Hin as [i Hi]. exists (Z.of_nat i).
    split; [by eapply binarySearch_found; [..|lia|]|]. left. by exists i.
  - exists INVALID. split; [by eapply binarySearch_missing|]. by right.
Qed.

(** [KVstore::intersect] of two increasing lists is the increasing list of
    their common ids. *)
Theorem intersect_correct (l1 l2 : list Z) :
  increasing l1 -> increasing l2 -> len l1 < W32 -> len l2 < W32 ->
  exists l, intersect l1 l2 (len l1) (len l2) = Some l /\ increasing l /\
    forall x, x ∈ l <-> x ∈ l1 /\ x ∈ l2.
Proof.
  intros H1 H2 Hw1 Hw2. exists (filter (fun x => x ∈ l2) l1). split_and!.
  - by apply intersect_filter.
  - by apply increasing_filter.
  - intros x. rewrite list_elem_of_filter. tauto.
Qed.

(** [Util::removeDuplicate] on a sorted array leaves in its first cells the
    strictly increasing list of the same ids, and returns its length. *)
Theorem removeDuplicate_correct (l : list Z) :
  StronglySorted Z.le l -> len l < W32 ->
  exists n a, removeDuplicate l (len l) = Some (n, a) /\ len a = len l /\
    increasing (take (Z.to_nat n) a) /\ n = len (take (Z.to_nat n) a) /\
    forall x, x ∈ take (Z.to_nat n) a <-> x ∈ l.
Proof.
  intros Hs Hlen. pose proof (removeDuplicate_spec l (len l) eq_refl Hlen) as Hwp.
  destruct (removeDuplicate l (len l)) as [[n a]|]; [|done]. destruct Hwp as (->&Ht&Ha).
  exists (len (compress l)), a. rewrite Ht.
  split_and!; [done|done|by apply increasing_compress|done|]. intros x. apply elem_of_compress.
Qed.

(** [Util::bsearch_int_uporder] on a sorted array ends without wrapping its
    unsigned bounds and finds the key, or returns [INVALID]. *)
Theorem bsearch_int_uporder_correct (l : list Z) (_key : Z) :
  StronglySorted Z.le l -> len l < W32 ->
  exists r, bsearch_int_uporder _key l (len l) = Some r /\
    ((exists i, l !! i = Some _key /\ r = Z.of_nat i) \/ ((_key ∉ l) /\ r = INVALID)).
Proof.
  intros Hs Hlen. pose proof (bsearch_int_uporder_spec l _key Hs Hlen) as Hwp.
  destruct (bsearch_int_uporder _key l (len l)) as [r|]; [|done]. by exists r.
Qed.

(** ** Witnesses *)

Definition mem (n : nat) : Z := Z.of_nat n + 17.

Lemma value_insert_witness :
  exists A', s2_insert mem (encode_s sample) 2 5 = Some (encode_s A') /\
    o2_insert mem (encode_o sample) 2 5 = Some (encode_o A') /\ wf A' /\
    forall q y, (q, y) ∈ pairs A' <-> (q, y) = (2, 5) \/ (q, y) ∈ pairs sample.
Proof.
  apply (value_insert_correct mem sample 2 5);
    [apply sample_wf|done|by vm_compute|by vm_compute| |by vm_compute].
  apply (bool_decide_unpack _); by vm_compute.
Defined.

Lemma value_remove_witness :
  exists A', s2_remove mem (encode_s sample) 3 6 = Some (encode_s A') /\
    o2_remove mem (encode_o sample) 3 6 = Some (encode_o A') /\ wf A' /\
    forall q y, (q, y) ∈ pairs A' <-> (q, y) ∈ pairs sample /\ (q, y) <> (3, 6).
Proof.
  apply (value_remove_correct mem sample 3 6); [apply sample_wf| |by vm_compute].
  apply (bool_decide_unpack _); by vm_compute.
Defined.

Lemma p2_update_witness :
  exists L', p2_insert mem (encode_p [(1, 2); (4, 1)]) 1 5 = Some (encode_p L') /\ lex_sorted L' /\
    forall y, y ∈ L' <-> y = (1, 5) \/ y ∈ [(1, 2); (4, 1)].
Proof.
  destruct (p2_update_correct mem [(1, 2); (4, 1)] 1 5) as [H _]; [|by vm_compute|].
  - repeat constructor; simpl; lia.
  - apply H. apply (bool_decide_unpack _); by vm_compute.
Defined.

Lemma value_read_witness : read_pairs 3 mem (encode_s sample) = Some (flat (pairs sample)).
Proof.
  destruct (value_read_roundtrip mem sample 3) as (_&_&H&_); [apply sample_wf|done|by vm_compute..|].
  exact H.
Defined.

Lemma binarySearch_witness :
  exists r, binarySearch 5 [2; 0; 5; 0; 9; 0] 3 2 = Some r /\
    ((exists i, [2; 5; 9] !! i = Some 5 /\ r = Z.of_nat i) \/ ((5 ∉ [2; 5; 9]) /\ r = INVALID)).
Proof.
  apply (binarySearch_decides [2; 0; 5; 0; 9; 0] [2; 5; 9] 2 5).
  - repeat constructor.
  - simpl. unfold W32. lia.
  - intros k Hk. destruct k as [|[|[|k]]]; [reflexivity..|simpl in Hk; lia].
Defined.

Lemma intersect_witness :
  exists l, intersect [1; 4; 6] [2; 4; 6; 8] 3 4 = Some l /\ increasing l /\
    forall x, x ∈ l <-> x ∈ [1; 4; 6] /\ x ∈ [2; 4; 6; 8].
Proof. apply (intersect_correct [1; 4; 6] [2; 4; 6; 8]); [repeat constructor..|by vm_compute|by vm_compute]. Defined.

Lemma removeDuplicate_witness :
  exists n a, removeDuplicate [1; 1; 4; 6; 6] 5 = Some (n, a) /\ len a = 5 /\
    increasing (take (Z.to_nat n) a) /\ n = len (take (Z.to_nat n) a) /\
    forall x, x ∈ take (Z.to_nat n) a <-> x ∈ [1; 1; 4; 6; 6].
Proof. apply (removeDuplicate_correct [1; 1; 4; 6; 6]); [|by vm_compute]. repeat constructor; lia. Defined.

Lemma bsearch_witness :
  exists r, bsearch_int_uporder 4 [1; 4; 4; 6] 4 = Some r /\
    ((exists i, [1; 4; 4; 6] !! i = Some 4 /\ r = Z.of_nat i) \/ ((4 ∉ [1; 4; 4; 6]) /\ r = INVALID)).
Proof. apply (bsearch_int_uporder_correct [1; 4; 4; 6] 4); [|by vm_compute]. repeat constructor; lia. Defined.
