(* ===== verification/ValueStore.v ===== *)
(** * The interface of a value store

    [KVstore] keeps its value lists in four [IVArray]s and uses four operations
    of them: [search], [insert], [modify] and [remove].  The class
    [ValueStore] has the operations, [ValueStoreLaws] what they promise: the
    store behaves as a map from keys to value lists.  A run of the operations
    can be limited by the space the store has left: [vs_room n s] says that the
    state [s] is sound and that [n] more operations find room, as long as the
    values stay below [vs_limit] bytes. *)

From S2P Require Import Prelude.

(** The keys of an array: the blocks of 102400 entries that are addressed by an
    [int]. *)
Definition KEY_LIMIT : Z := 2147430400.
(** [IVArray::MAX_KEY_NUM]. *)
Definition MAX_KEY_NUM : Z := 2147483648.

(** A value list the store accepts: its [4 * length] bytes stay below a limit,
    its cells are [unsigned]. *)
Definition value_ok (lim : Z) (v : list Z) : Prop := v <> [] /\ 4 * len v < lim /\ Forall word v.

Class ValueStore (S : Type) := {
  vs_search : Z -> M S (option (list Z));
  vs_insert : Z -> list Z -> M S bool;
  vs_modify : Z -> list Z -> M S bool;
  vs_remove : Z -> M S bool }.

Class ValueStoreLaws (S : Type) `{VS : ValueStore S} := {
  vs_view : S -> gmap Z (list Z);
  vs_room : nat -> S -> Prop;
  vs_limit : Z;
  vs_limit_le : vs_limit <= W32;
  vs_room_le s n : vs_room (Datatypes.S n) s -> vs_room n s;
  vs_search_ok s n k : vs_room (Datatypes.S n) s -> word k ->
    wpM (vs_search k) s (fun r s' =>
      r = vs_view s !! k /\ vs_view s' = vs_view s /\ vs_room n s');
  vs_insert_ok s n k v : vs_room (Datatypes.S n) s -> 0 <= k < KEY_LIMIT -> value_ok vs_limit v ->
    vs_view s !! k = None ->
    wpM (vs_insert k v) s (fun r s' =>
      r = true /\ vs_view s' = <[k := v]> (vs_view s) /\ vs_room n s');
  vs_modify_ok s n k v : vs_room (Datatypes.S n) s -> word k -> value_ok vs_limit v ->
    is_Some (vs_view s !! k) ->
    wpM (vs_modify k v) s (fun r s' =>
      r = true /\ vs_view s' = <[k := v]> (vs_view s) /\ vs_room n s');
  vs_remove_ok s n k : vs_room (Datatypes.S n) s -> word k -> is_Some (vs_view s !! k) ->
    wpM (vs_remove k) s (fun r s' =>
      r = true /\ vs_view s' = delete k (vs_view s) /\ vs_room n s') }.

Arguments vs_limit S {_ _}.
Arguments vs_limit_le S {_ _}.

#[global] Hint Mode ValueStore + : typeclass_instances.
#[global] Hint Mode ValueStoreLaws + - : typeclass_instances.

(** ** The reference instance: a finite map. *)

Section MapStore.
Abbreviation map_store := (gmap Z (list Z)).

#[global] Instance map_value_store : ValueStore map_store := {
  vs_search k := fun m => Some (m !! k, m);
  vs_insert k v := fun m =>
    match m !! k with Some _ => Some (false, m) | None => Some (true, <[k := v]> m) end;
  vs_modify k v := fun m =>
    match m !! k with Some _ => Some (true, <[k := v]> m) | None => Some (false, m) end;
  vs_remove k := fun m =>
    match m !! k with Some _ => Some (true, delete k m) | None => Some (false, m) end }.

#[global] Program Instance map_value_store_laws : ValueStoreLaws map_store := {
  vs_view m := m; vs_room _ _ := True; vs_limit := W32 }.
Next Obligation. done. Qed.
Next Obligation. done. Qed.
Next Obligation. done. Qed.
Next Obligation. intros m n k v _ _ _ Hk. unfold wpM. simpl. by rewrite Hk. Qed.
Next Obligation. intros m n k v _ _ _ [w Hk]. unfold wpM. simpl. by rewrite Hk. Qed.
Next Obligation. intros m n k _ _ [w Hk]. unfold wpM. simpl. by rewrite Hk. Qed.
End MapStore.

(** * The interface of the entries of an array

    Besides the value lists, the transactional half of [IVArray] uses the number
    of entries [CurEntryNum] and makes the array longer ([TryExclusiveLatch]).
    The class [EntryStore] has both, [EntryStoreLaws] what they promise on top of
    [ValueStoreLaws]: values are kept only below [CurEntryNum], no call makes the
    array shorter, and growing it keeps the values. *)

Class EntryStore (S : Type) := {
  es_num : S -> Z;
  es_expand : Z -> S -> S }.

Class EntryStoreLaws (S : Type) `{VSL : ValueStoreLaws S} `{ES : EntryStore S} := {
  es_bound s n k : vs_room n s -> is_Some (vs_view s !! k) -> k < es_num s;
  es_expand_view s n k : vs_room n s -> 0 <= k < KEY_LIMIT -> vs_view (es_expand k s) = vs_view s;
  es_expand_room s n k : vs_room n s -> 0 <= k < KEY_LIMIT -> es_num s <= k -> vs_room n (es_expand k s);
  es_expand_num s n k : vs_room n s -> 0 <= k < KEY_LIMIT -> es_num s <= k ->
    k < es_num (es_expand k s);
  es_search_num s k r s' : vs_search k s = Some (r, s') -> es_num s' = es_num s;
  es_insert_num s n k v r s' : vs_room n s -> 0 <= k < KEY_LIMIT ->
    vs_insert k v s = Some (r, s') -> es_num s <= es_num s';
  es_modify_num s k v r s' : vs_modify k v s = Some (r, s') -> es_num s' = es_num s;
  es_remove_num s k r s' : vs_remove k s = Some (r, s') -> es_num s' = es_num s }.

#[global] Hint Mode EntryStore + : typeclass_instances.
#[global] Hint Mode EntryStoreLaws + - - - : typeclass_instances.

(** ** The reference instance: a finite map and a number of entries. *)

Record mstore := mk_mstore { ms_map : gmap Z (list Z); ms_num : Z }.

(** The entry [k] exists. *)
Definition ms_grow (k : Z) (s : mstore) : mstore := mk_mstore (ms_map s) (Z.max (ms_num s) (k + 1)).

Definition on_map {A} (m : M (gmap Z (list Z)) A) : M mstore A :=
  fun s => '(r, m') ← m (ms_map s); Some (r, mk_mstore m' (ms_num s)).

#[global] Instance mstore_values : ValueStore mstore := {
  vs_search k := on_map (vs_search k);
  vs_insert k v := fun s => on_map (vs_insert k v) (ms_grow k s);
  vs_modify k v := on_map (vs_modify k v);
  vs_remove k := on_map (vs_remove k) }.

#[global] Instance mstore_entries : EntryStore mstore := { es_num := ms_num; es_expand := ms_grow }.

Definition ms_bounded (s : mstore) : Prop := map_Forall (fun k _ => k < ms_num s) (ms_map s).

#[global] Program Instance mstore_values_laws : ValueStoreLaws mstore := {
  vs_view := ms_map; vs_room _ := ms_bounded; vs_limit := W32 }.
Next Obligation. done. Qed.
Next Obligation. done. Qed.
Next Obligation. intros [m n] ? k Hb _. by unfold wpM. Qed.
Next Obligation.
  intros [m n] ? k v Hb _ _ Hk. unfold wpM, ms_bounded in *. cbn in *. rewrite Hk. cbn. split_and!; [done..|].
  apply map_Forall_insert_2; [lia|]. intros j w Hj. cbn. specialize (Hb j w Hj). cbn in Hb. lia.
Qed.
Next Obligation.
  intros [m n] ? k v Hb _ _ [w Hk]. unfold wpM, ms_bounded in *. cbn in *. rewrite Hk. cbn. split_and!; [done..|].
  apply map_Forall_insert_2; [by apply (Hb k w)|done].
Qed.
Next Obligation.
  intros [m n] ? k Hb _ [w Hk]. unfold wpM, ms_bounded in *. cbn in *. rewrite Hk. cbn. split_and!; [done..|].
  by apply map_Forall_delete.
Qed.

#[global] Program Instance mstore_entries_laws : EntryStoreLaws mstore.
Next Obligation. intros s n k Hb [v Hk]. by apply (Hb k v). Qed.
Next Obligation. done. Qed.
Next Obligation. intros s n k Hb _ Hk j v Hj. cbn. specialize (Hb j v Hj). cbn in Hb. lia. Qed.
Next Obligation. cbn. lia. Qed.
Next Obligation. intros s k r s' Hs. cbn in Hs. by injection Hs as <- <-. Qed.
Next Obligation.
  intros s n k v r s' _ _ Hs. cbn in Hs. unfold on_map in Hs. cbn in Hs.
  destruct (ms_map s !! k); cbn in Hs; injection Hs as <- <-; cbn; lia.
Qed.
Next Obligation.
  intros s k v r s' Hs. cbn in Hs. unfold on_map in Hs. cbn in Hs.
  by destruct (ms_map s !! k); cbn in Hs; injection Hs as <- <-.
Qed.
Next Obligation.
  intros s k r s' Hs. cbn in Hs. unfold on_map in Hs. cbn in Hs.
  by destruct (ms_map s !! k); cbn in Hs; injection Hs as <- <-.
Qed.
