(* ===== verification/KVstore.v ===== *)
(** * The triple store: KVstore's value indexes

    The part of [KVstore] (KVstore/KVstore.cpp) that keeps, for every subject,
    object and predicate, the value list of its triples: the routing of keys to
    the four [IVArray]s, and the insertion and removal of one triple in the
    three indexes. *)

From S2P Require Import Prelude Util ValueList ValueUpdate ValueRemove ValueSpec PreList ValueStore.

(** The arrays of the class; objects that are literals are kept apart. *)
Record KVstore (S : Type) := mkKV {
  subID2values : S;
  preID2values : S;
  objID2values : S;
  objID2values_literal : S }.
Arguments mkKV {S}.
Arguments subID2values {S}.
Arguments preID2values {S}.
Arguments objID2values {S}.
Arguments objID2values_literal {S}.

(** The array a call names, and the array it ends up in. *)
Inductive array := Sub | Pre | Obj.
Inductive slot := SSub | SPre | SObj | SObjLiteral.
#[global] Instance array_eq_dec : EqDecision array.
Proof. solve_decision. Defined.
#[global] Instance slot_eq_dec : EqDecision slot.
Proof. solve_decision. Defined.

Definition get_slot {S} (kv : KVstore S) (sl : slot) : S :=
  match sl with
  | SSub => subID2values kv | SPre => preID2values kv
  | SObj => objID2values kv | SObjLiteral => objID2values_literal kv
  end.

Definition set_slot {S} (kv : KVstore S) (sl : slot) (s : S) : KVstore S :=
  match sl with
  | SSub => mkKV s (preID2values kv) (objID2values kv) (objID2values_literal kv)
  | SPre => mkKV (subID2values kv) s (objID2values kv) (objID2values_literal kv)
  | SObj => mkKV (subID2values kv) (preID2values kv) s (objID2values_literal kv)
  | SObjLiteral => mkKV (subID2values kv) (preID2values kv) (objID2values kv) s
  end.

(** [Util::is_literal_ele(_key) && _array == objID2values]. *)
Definition route (a : array) (_key : Z) : slot * Z :=
  match a with
  | Sub => (SSub, _key)
  | Pre => (SPre, _key)
  | Obj => if is_literal_ele _key then (SObjLiteral, _key ⊟ LITERAL_FIRST_ID) else (SObj, _key)
  end.

Section KV.
Context {S : Type} `{VS : ValueStore S} (junk : nat -> Z).
Abbreviation KV := (KVstore S).

Definition on_slot {A} (sl : slot) (m : M S A) : M KV A :=
  fun kv => '(a, s) ← m (get_slot kv sl); Some (a, set_slot kv sl s).

Definition getValueByKey (_array : array) (_key : Z) : M KV (option (list Z)) :=
  let '(sl, key) := route _array _key in on_slot sl (vs_search key).

Definition addValueByKey (_array : array) (_key : Z) (_val : list Z) : M KV bool :=
  let '(sl, key) := route _array _key in on_slot sl (vs_insert key _val).

Definition setValueByKey (_array : array) (_key : Z) (_val : list Z) : M KV bool :=
  let '(sl, key) := route _array _key in on_slot sl (vs_modify key _val).

Definition removeKey (_array : array) (_key : Z) : M KV bool :=
  let '(sl, key) := route _array _key in on_slot sl (vs_remove key).

(** [KVstore::updateInsert_{s2,o2,p2}values] and [KVstore::updateRemove_*]. *)
Definition updateInsert_s2values (_sub_id _pre_id _obj_id : Z) : M KV bool :=
  let! _get := getValueByKey Sub _sub_id in
  match _get with
  | None =>
      let! _values := liftM (s2_insert_new junk _pre_id _obj_id) in
      let! _ := addValueByKey Sub _sub_id _values in retM true
  | Some _tmp =>
      let! _values := liftM (s2_insert junk _tmp _pre_id _obj_id) in
      let! _ := setValueByKey Sub _sub_id _values in retM true
  end.

Definition updateInsert_o2values (_sub_id _pre_id _obj_id : Z) : M KV bool :=
  let! _get := getValueByKey Obj _obj_id in
  match _get with
  | None =>
      let! _values := liftM (o2_insert_new junk _pre_id _sub_id) in
      let! _ := addValueByKey Obj _obj_id _values in retM true
  | Some _tmp =>
      let! _values := liftM (o2_insert junk _tmp _pre_id _sub_id) in
      let! _ := setValueByKey Obj _obj_id _values in retM true
  end.

Definition updateInsert_p2values (_sub_id _pre_id _obj_id : Z) : M KV bool :=
  let! _get := getValueByKey Pre _pre_id in
  match _get with
  | None =>
      let! _values := liftM (p2_insert_new junk _sub_id _obj_id) in
      let! _ := addValueByKey Pre _pre_id _values in retM true
  | Some _tmp =>
      let! _values := liftM (p2_insert junk _tmp _sub_id _obj_id) in
      let! _ := setValueByKey Pre _pre_id _values in retM true
  end.

Definition updateRemove_s2values (_sub_id _pre_id _obj_id : Z) : M KV bool :=
  let! _get := getValueByKey Sub _sub_id in
  match _get with
  | None => retM false
  | Some _tmp =>
      let! t0 := liftM (arr_get _tmp 0) in
      if t0 =? 1 then let! _ := removeKey Sub _sub_id in retM true
      else
        let! _values := liftM (s2_remove junk _tmp _pre_id _obj_id) in
        let! _ := setValueByKey Sub _sub_id _values in retM true
  end.

Definition updateRemove_o2values (_sub_id _pre_id _obj_id : Z) : M KV bool :=
  let! _get := getValueByKey Obj _obj_id in
  match _get with
  | None => retM false
  | Some _tmp =>
      let! t0 := liftM (arr_get _tmp 0) in
      if t0 =? 1 then let! _ := removeKey Obj _obj_id in retM true
      else
        let! _values := liftM (o2_remove junk _tmp _pre_id _sub_id) in
        let! _ := setValueByKey Obj _obj_id _values in retM true
  end.

Definition updateRemove_p2values (_sub_id _pre_id _obj_id : Z) : M KV bool :=
  let! _get := getValueByKey Pre _pre_id in
  match _get with
  | None => retM false
  | Some _tmp =>
      let! t0 := liftM (arr_get _tmp 0) in
      if t0 =? 1 then let! _ := removeKey Pre _pre_id in retM true
      else
        let! _values := liftM (p2_remove junk _tmp _sub_id _obj_id) in
        let! _ := setValueByKey Pre _pre_id _values in retM true
  end.

(** [KVstore::updateTupleslist_insert], [KVstore::updateTupleslist_remove]
    outside of a transaction. *)
Definition updateTupleslist_insert (_sub_id _pre_id _obj_id : Z) : M KV bool :=
  andM (updateInsert_s2values _sub_id _pre_id _obj_id)
    (andM (updateInsert_o2values _sub_id _pre_id _obj_id)
          (updateInsert_p2values _sub_id _pre_id _obj_id)).

Definition updateTupleslist_remove (_sub_id _pre_id _obj_id : Z) : M KV bool :=
  andM (updateRemove_s2values _sub_id _pre_id _obj_id)
    (andM (updateRemove_o2values _sub_id _pre_id _obj_id)
          (updateRemove_p2values _sub_id _pre_id _obj_id)).
End KV.

(** ** The store as a map *)

Section Laws.
Context {S : Type} `{VSL : ValueStoreLaws S} (junk : nat -> Z).
Abbreviation KV := (KVstore S).

(** The value list [getValueByKey] finds. *)
Definition kv_lookup (kv : KV) (a : array) (_key : Z) : option (list Z) :=
  vs_view (get_slot kv (route a _key).1) !! (route a _key).2.

Definition kv_room (n : nat) (kv : KV) : Prop := forall sl, vs_room n (get_slot kv sl).

Definition key_ok (a : array) (_key : Z) : Prop :=
  word _key /\ 0 <= (route a _key).2 < KEY_LIMIT.

(** [kv'] is [kv] with the value list of one key replaced. *)
Definition kv_updated (kv : KV) (a : array) (k : Z) (v : option (list Z)) (kv' : KV) : Prop :=
  forall a' k', word k' ->
    kv_lookup kv' a' k' = if decide ((a', k') = (a, k)) then v else kv_lookup kv a' k'.

Lemma route_word a k : word k -> word (route a k).2.
Proof.
  intros Hk. destruct a; simpl; try done. destruct (is_literal_ele k); [apply u32_word|done].
Qed.

Lemma route_inj a k a' k' : word k -> word k' -> route a k = route a' k' -> (a, k) = (a', k').
Proof.
  intros Hk Hk'. unfold route, is_literal_ele, LITERAL_FIRST_ID.
  destruct a, a'; try destruct (Z.leb_spec 2000000000 k); try destruct (Z.leb_spec 2000000000 k');
    try done; intros Heq; simplify_eq; try done.
  revert Heq. rewrite !u32_small by word_lia. intros. f_equal. lia.
Qed.

Lemma get_set_slot (kv : KV) sl sl' s :
  get_slot (set_slot kv sl s) sl' = if decide (sl' = sl) then s else get_slot kv sl'.
Proof. by destruct sl, sl'. Qed.

Lemma kv_room_set n kv sl s :
  kv_room (Datatypes.S n) kv -> vs_room n s -> kv_room n (set_slot kv sl s).
Proof.
  intros Hr Hs sl'. rewrite get_set_slot. case_decide; [done|]. apply vs_room_le, Hr.
Qed.

(** Updating one key of one array leaves the others alone. *)
Lemma kv_updated_set kv a k v s :
  word k ->
  (forall k', vs_view s !! k' = if decide (k' = (route a k).2) then v
                                else vs_view (get_slot kv (route a k).1) !! k') ->
  kv_updated kv a k v (set_slot kv (route a k).1 s).
Proof.
  intros Hk Hs a' k' Hk'. unfold kv_lookup. rewrite get_set_slot.
  destruct (decide ((route a' k').1 = (route a k).1)) as [E|E].
  - rewrite Hs. destruct (decide ((route a' k').2 = (route a k).2)) as [E2|E2].
    + destruct (route_inj a' k' a k) as []; [done|done|by apply injective_projections|].
      by rewrite decide_True.
    + rewrite decide_False, E; [done|]. intros [= -> ->]. done.
  - rewrite decide_False; [done|]. intros [= -> ->]. done.
Qed.

Lemma getValueByKey_ok kv n a k (Q : _ -> KV -> Prop) :
  kv_room (Datatypes.S n) kv -> word k ->
  (forall kv', (forall a' k', kv_lookup kv' a' k' = kv_lookup kv a' k') -> kv_room n kv' ->
               Q (kv_lookup kv a k) kv') ->
  wpM (getValueByKey a k) kv Q.
Proof.
  intros Hr Hk HQ. unfold getValueByKey. destruct (route a k) as [sl key] eqn:Er.
  pose proof (route_word a k Hk) as Hw. rewrite Er in Hw.
  destruct (wpM_inv _ _ _ (vs_search_ok _ n key (Hr sl) Hw)) as (r&s'&E&->&Hv&Hr').
  unfold wpM, on_slot. rewrite E. cbn.
  replace (vs_view (get_slot kv sl) !! key) with (kv_lookup kv a k)
    by (unfold kv_lookup; by rewrite Er).
  apply HQ; [|by apply kv_room_set]. intros a' k'. unfold kv_lookup. rewrite get_set_slot.
  case_decide as E'; [by rewrite Hv, E'|done].
Qed.

Lemma addValueByKey_ok kv n a k v (Q : _ -> KV -> Prop) :
  kv_room (Datatypes.S n) kv -> key_ok a k -> value_ok (vs_limit S) v -> kv_lookup kv a k = None ->
  (forall kv', kv_updated kv a k (Some v) kv' -> kv_room n kv' -> Q true kv') ->
  wpM (addValueByKey a k v) kv Q.
Proof.
  intros Hr [Hk Hko] Hv Hl HQ. unfold addValueByKey, kv_lookup in *.
  pose proof (kv_updated_set kv a k) as Hset.
  destruct (route a k) as [sl key]. simpl in *.
  destruct (wpM_inv _ _ _ (vs_insert_ok _ n key v (Hr sl) Hko Hv Hl)) as (r&s'&E&->&Hv'&Hr').
  unfold wpM, on_slot. rewrite E. apply HQ; [|by apply kv_room_set].
  apply Hset; [done|]. intros k'. rewrite Hv'. case_decide; subst; by simplify_map_eq.
Qed.

Lemma setValueByKey_ok kv n a k v (Q : _ -> KV -> Prop) :
  kv_room (Datatypes.S n) kv -> word k -> value_ok (vs_limit S) v -> is_Some (kv_lookup kv a k) ->
  (forall kv', kv_updated kv a k (Some v) kv' -> kv_room n kv' -> Q true kv') ->
  wpM (setValueByKey a k v) kv Q.
Proof.
  intros Hr Hk Hv Hl HQ. unfold setValueByKey, kv_lookup in *.
  pose proof (kv_updated_set kv a k) as Hset. pose proof (route_word a k Hk) as Hw.
  destruct (route a k) as [sl key]. simpl in *.
  destruct (wpM_inv _ _ _ (vs_modify_ok _ n key v (Hr sl) Hw Hv Hl)) as (r&s'&E&->&Hv'&Hr').
  unfold wpM, on_slot. rewrite E. apply HQ; [|by apply kv_room_set].
  apply Hset; [done|]. intros k'. rewrite Hv'. case_decide; subst; by simplify_map_eq.
Qed.

Lemma removeKey_ok kv n a k (Q : _ -> KV -> Prop) :
  kv_room (Datatypes.S n) kv -> word k -> is_Some (kv_lookup kv a k) ->
  (forall kv', kv_updated kv a k None kv' -> kv_room n kv' -> Q true kv') ->
  wpM (removeKey a k) kv Q.
Proof.
  intros Hr Hk Hl HQ. unfold removeKey, kv_lookup in *.
  pose proof (kv_updated_set kv a k) as Hset. pose proof (route_word a k Hk) as Hw.
  destruct (route a k) as [sl key]. simpl in *.
  destruct (wpM_inv _ _ _ (vs_remove_ok _ n key (Hr sl) Hw Hl)) as (r&s'&E&->&Hv'&Hr').
  unfold wpM, on_slot. rewrite E. apply HQ; [|by apply kv_room_set].
  apply Hset; [done|]. intros k'. rewrite Hv'. case_decide; subst; by simplify_map_eq.
Qed.
End Laws.
