(* ===== verification/TripleSet.v ===== *)
(** * Refinement: the three indexes hold one set of triples

    The abstract store is a finite set of triples.  [represents kv T] says that
    the value lists of every subject, object and predicate are the encodings of
    exactly the triples of [T]; inserting and removing a triple in the concrete
    store refines insertion and removal in the set. *)

From S2P Require Import Prelude Util ValueList Adjacency ValueUpdate ValueRemove ValueSpec PreList ValueStore KVstore.

Abbreviation triple := (Z * Z * Z)%type.
Abbreviation triples := (gset (Z * Z * Z)).

(** An empty list is not stored. *)
Definition stored {X} (enc : list X -> list Z) (l : list X) : option (list Z) :=
  match l with [] => None | _ => Some (enc l) end.

(** ** Sizes *)

Lemma NoDup_pairs A : wf A -> NoDup (pairs A).
Proof.
  induction A as [|[p l] A IH]; intros Hwf; [constructor|].
  destruct (wf_app [(p, l)] A Hwf) as (_&HwfA&Hlt). unfold pairs. cbn. apply NoDup_app.
  split_and!; [|intros [q x] H1 H2|by apply IH].
  - destruct Hwf as [_ [[_ _ Hinc _] _]%Forall_cons]. apply NoDup_fmap_2; [intros ?? [=]; done|].
    by apply increasing_NoDup.
  - apply list_elem_of_fmap in H1 as (y&[= -> ->]&Hy). apply elem_of_pairs in H2 as (l'&Hin&_).
    assert (p < p); [|lia]. apply Hlt; [left|]. apply list_elem_of_fmap. by exists (p, l').
Qed.

Lemma list_size_le {X} (f : X -> triple) (l : list X) (T : triples) :
  NoDup l -> (forall x y, f x = f y -> x = y) -> (forall x, x ∈ l -> f x ∈ T) ->
  len l <= Z.of_nat (base.size (T : triples)).
Proof.
  intros Hnd Hinj Hin. rewrite <- (length_fmap f l).
  rewrite <- (size_list_to_set (C := triples) (f <$> l)) by (apply NoDup_fmap_2; [exact Hinj|done]).
  apply inj_le, subseteq_size. intros t. rewrite elem_of_list_to_set, list_elem_of_fmap.
  intros (x&->&Hx). auto.
Qed.

(** ** Stored values are admissible *)

Lemma table_words off A : wf A -> 0 <= off -> off + size A < W32 -> Forall word (table off A).
Proof.
  revert off. induction A as [|[p l] A IH]; intros off Hwf Hoff Hs; [constructor|].
  rewrite size_cons in Hs. pose proof (size_nonneg A). simpl in *.
  destruct (wf_app [(p, l)] A Hwf) as (_&HwfA&_).
  destruct Hwf as [_ [[Hp _ _ _] _]%Forall_cons].
  repeat constructor; [apply Hp|apply Hp|word_lia|word_lia|]. apply IH; [done|lia..].
Qed.

Lemma body_words A : wf A -> Forall word (body A).
Proof.
  intros [_ He]. induction He as [|[p l] A [_ _ _ Hw] _ IH]; [constructor|].
  rewrite body_cons. by apply Forall_app.
Qed.

Lemma layout_ok lim hdr A : lim <= W32 -> wf A -> hdr <> [] -> Forall word hdr -> 4 * len (layout hdr A) < lim ->
  value_ok lim (layout hdr A).
Proof.
  intros Hlim Hwf Hne Hh Hlen. split_and!; [by destruct hdr|done|].
  rewrite length_layout in Hlen. pose proof (size_nonneg A).
  unfold layout. rewrite !Forall_app. split_and!; [done| |by apply body_words].
  apply table_words; [done|len_lia..].
Qed.

Lemma encode_s_ok lim A : lim <= W32 -> wf A -> 4 * (3 + 3 * size A) < lim -> value_ok lim (encode_s A).
Proof.
  intros Hlim Hwf Hs. pose proof (wf_size A Hwf). pose proof (entities_bounds A).
  apply layout_ok; [done|done|done| |rewrite length_layout; simpl; lia].
  repeat constructor; word_lia.
Qed.

Lemma encode_o_ok lim A : lim <= W32 -> wf A -> 4 * (3 + 3 * size A) < lim -> value_ok lim (encode_o A).
Proof.
  intros Hlim Hwf Hs. pose proof (wf_size A Hwf). pose proof (size_nonneg A).
  apply layout_ok; [done|done|done| |rewrite length_layout; simpl; lia].
  repeat constructor; word_lia.
Qed.

Definition word_pair (x : Z * Z) : Prop := word x.1 /\ word x.2.

Lemma encode_p_ok lim L : lim <= W32 -> Forall word_pair L -> 4 * (3 + 3 * len L) < lim -> value_ok lim (encode_p L).
Proof.
  intros Hlim HL Hs. split_and!; [done|rewrite length_encode_p; lia|]. unfold encode_p.
  constructor; [word_lia|]. rewrite Forall_app, !Forall_fmap.
  split; (eapply Forall_impl; [exact HL|]); by intros [a b] [].
Qed.

(** ** Representation *)

Section Represents.
Context {S : Type} `{VSL : ValueStoreLaws S} (junk : nat -> Z).
Abbreviation KV := (KVstore S).

(** The list of [k] in an index holds exactly the pairs of [P]. *)
Definition holds_adj (enc : adj -> list Z) (kv : KV) (a : array) (k : Z) (P : Z -> Z -> Prop) : Prop :=
  exists A, wf A /\ (forall p x, (p, x) ∈ pairs A <-> P p x) /\ kv_lookup kv a k = stored enc A.

Definition holds_pairs (kv : KV) (k : Z) (P : Z -> Z -> Prop) : Prop :=
  exists L, lex_sorted L /\ Forall word_pair L /\ (forall s o, (s, o) ∈ L <-> P s o) /\
    kv_lookup kv Pre k = stored encode_p L.

Record represents (kv : KV) (T : triples) : Prop := {
  rep_sub s : word s -> holds_adj encode_s kv Sub s (fun p o => (s, p, o) ∈ T);
  rep_obj o : word o -> holds_adj encode_o kv Obj o (fun p s => (s, p, o) ∈ T);
  rep_pre p : word p -> holds_pairs kv p (fun s o => (s, p, o) ∈ T) }.

Definition triple_ok (t : triple) : Prop :=
  let '(s, p, o) := t in key_ok Sub s /\ key_ok Pre p /\ key_ok Obj o.

(** The value lists of [T] stay below the limit of the store. *)
Definition small (lim : Z) (T : triples) : Prop := 12 * Z.of_nat (base.size (T : triples)) + 24 < lim.

(** *** One index *)

Definition insert_index (a : array) (k : Z) (new : option (list Z))
    (upd : list Z -> option (list Z)) : M KV bool :=
  let! _get := getValueByKey a k in
  match _get with
  | None => let! v := liftM new in let! _ := addValueByKey a k v in retM true
  | Some t => let! v := liftM (upd t) in let! _ := setValueByKey a k v in retM true
  end.

Definition remove_index (a : array) (k : Z) (upd : list Z -> option (list Z)) : M KV bool :=
  let! _get := getValueByKey a k in
  match _get with
  | None => retM false
  | Some t =>
      let! t0 := liftM (arr_get t 0) in
      if t0 =? 1 then let! _ := removeKey a k in retM true
      else let! v := liftM (upd t) in let! _ := setValueByKey a k v in retM true
  end.

Lemma kv_updated_ext (kv kv1 : KV) a k v kv' :
  (forall a' k', kv_lookup kv1 a' k' = kv_lookup kv a' k') ->
  kv_updated kv1 a k v kv' -> kv_updated kv a k v kv'.
Proof. intros He Hu a' k' Hk'. by rewrite Hu, He. Qed.

Lemma insert_index_ok {X} (enc : list X -> list Z) l l' (kv : KV) n a k new upd :
  kv_room (2 + n) kv -> key_ok a k -> kv_lookup kv a k = stored enc l ->
  value_ok (vs_limit S) (enc l') -> (l = [] -> new = Some (enc l')) ->
  (l <> [] -> upd (enc l) = Some (enc l')) ->
  wpM (insert_index a k new upd) kv (fun r kv' =>
    r = true /\ kv_updated kv a k (Some (enc l')) kv' /\ kv_room n kv').
Proof.
  intros Hr Hk Hl Hv Hnew Hupd. unfold insert_index. apply wpM_bind.
  eapply getValueByKey_ok; [exact Hr|apply Hk|]. intros kv1 He Hr1.
  rewrite Hl. pose proof (He a k) as Hl1. rewrite Hl in Hl1. destruct l as [|x l].
  - apply wpM_bind. eapply wpM_lift; [by apply Hnew|]. apply wpM_bind.
    eapply addValueByKey_ok; [done..|]. intros kv2 Hu Hr2. apply wpM_ret.
    split_and!; [done|by eapply kv_updated_ext|done].
  - apply wpM_bind. eapply wpM_lift; [by apply Hupd|]. apply wpM_bind.
    eapply setValueByKey_ok; [done|apply Hk|done|by rewrite Hl1|]. intros kv2 Hu Hr2. apply wpM_ret.
    split_and!; [done|by eapply kv_updated_ext|done].
Qed.

Lemma remove_index_ok {X} (enc : list X -> list Z) l l' t (kv : KV) n a k upd :
  kv_room (2 + n) kv -> word k -> kv_lookup kv a k = stored enc l -> l <> [] ->
  arr_get (enc l) 0 = Some t -> (t = 1 -> l' = []) ->
  (t <> 1 -> l' <> [] /\ value_ok (vs_limit S) (enc l') /\ upd (enc l) = Some (enc l')) ->
  wpM (remove_index a k upd) kv (fun r kv' =>
    r = true /\ kv_updated kv a k (stored enc l') kv' /\ kv_room n kv').
Proof.
  intros Hr Hk Hl Hne Ht H1 H2. unfold remove_index. apply wpM_bind.
  eapply getValueByKey_ok; [exact Hr|done|]. intros kv1 He Hr1.
  pose proof (He a k) as Hl1. rewrite Hl in *. destruct l as [|x l]; [done|].
  apply wpM_bind. eapply wpM_lift; [exact Ht|]. destruct (Z.eqb_spec t 1) as [E|E].
  - rewrite (H1 E). apply wpM_bind. eapply removeKey_ok; [done..|by rewrite Hl1|].
    intros kv2 Hu Hr2. apply wpM_ret. split_and!; [done|by eapply kv_updated_ext|done].
  - destruct (H2 E) as (Hne'&Hv&Hupd). destruct l' as [|y l']; [done|].
    apply wpM_bind. eapply wpM_lift; [done|]. apply wpM_bind.
    eapply setValueByKey_ok; [done|done|done|by rewrite Hl1|]. intros kv2 Hu Hr2. apply wpM_ret.
    split_and!; [done|by eapply kv_updated_ext|done].
Qed.

(** *** The indexes of subjects and objects *)

Section Adj.
Context (enc : adj -> list Z).
Context (enc_len : forall A, wf A -> len (enc A) <= 3 + 3 * size A).
Context (enc_head : forall A, arr_get (enc A) 0 = Some (size A)).
Context (enc_ok : forall A, wf A -> 4 * (3 + 3 * size A) < vs_limit S -> value_ok (vs_limit S) (enc A)).

Lemma insert_adj_ok (kv : KV) n a k (P : Z -> Z -> Prop) p x N new upd :
  (forall A, wf A -> A <> [] -> (p, x) ∉ pairs A -> len (enc A) + 3 < W32 ->
     upd (enc A) = Some (enc (adj_insert p x A))) ->
  new = Some (enc (adj_insert p x [])) ->
  kv_room (2 + n) kv -> key_ok a k -> word p -> word x -> ~ P p x ->
  holds_adj enc kv a k P ->
  (forall A, wf A -> (forall p x, (p, x) ∈ pairs A <-> P p x) -> size A <= N) ->
  12 * N + 24 < vs_limit S ->
  wpM (insert_index a k new upd) kv (fun r kv' => r = true /\ kv_room n kv' /\
    (exists v, kv_updated kv a k v kv') /\
    holds_adj enc kv' a k (fun q y => (q, y) = (p, x) \/ P q y)).
Proof.
  intros Hupd Hnew Hr Hk Hp Hx HP (A&Hwf&HA&Hl) HN Hlen. specialize (HN A Hwf HA).
  assert ((p, x) ∉ pairs A) as Hn by (by rewrite HA). pose proof (vs_limit_le S).
  pose proof (wf_adj_insert A p x Hwf Hp Hx Hn) as Hwf'.
  destruct (size_adj_insert A p x Hwf Hn) as [Hs _]. pose proof (enc_len A Hwf).
  eapply wpM_mono; [|eapply (insert_index_ok enc A (adj_insert p x A)); try done].
  - intros r kv' (->&Hu&Hr'). split_and!; [done|done|by eexists|].
    exists (adj_insert p x A). split_and!; [done| |].
    + intros q y. rewrite pairs_adj_insert by done. by rewrite HA.
    + rewrite Hu, decide_True by (done || apply Hk). unfold stored.
      destruct (adj_insert p x A) eqn:E; [|done]. exfalso.
      rewrite size_nil in Hs. pose proof (size_nonneg A). lia.
  - apply enc_ok; [done|lia].
  - intros ->. done.
  - intros Hne. apply Hupd; [done..|word_lia].
Qed.

Lemma remove_adj_ok (kv : KV) n a k (P : Z -> Z -> Prop) p x N upd :
  (forall A, wf A -> (p, x) ∈ pairs A -> len (enc A) < W32 ->
     upd (enc A) = Some (enc (adj_remove p x A))) ->
  kv_room (2 + n) kv -> word k -> P p x -> holds_adj enc kv a k P ->
  (forall A, wf A -> (forall p x, (p, x) ∈ pairs A <-> P p x) -> size A <= N) ->
  12 * N + 24 < vs_limit S ->
  wpM (remove_index a k upd) kv (fun r kv' => r = true /\ kv_room n kv' /\
    (exists v, kv_updated kv a k v kv') /\
    holds_adj enc kv' a k (fun q y => P q y /\ (q, y) <> (p, x))).
Proof.
  intros Hupd Hr Hk HP (A&Hwf&HA&Hl) HN Hlen. specialize (HN A Hwf HA).
  assert ((p, x) ∈ pairs A) as Hin by (by rewrite HA). pose proof (vs_limit_le S).
  pose proof (wf_adj_remove A p x Hwf) as Hwf'.
  destruct (size_adj_remove A p x Hwf Hin) as [Hs _]. pose proof (enc_len A Hwf).
  pose proof (wf_size _ Hwf'). pose proof (size_nonneg A).
  eapply wpM_mono; [|eapply (remove_index_ok enc A (adj_remove p x A)); try done].
  - intros r kv' (->&Hu&Hr'). split_and!; [done|done|by eexists|].
    exists (adj_remove p x A). split_and!; [done| |].
    + intros q y. rewrite pairs_adj_remove by done. by rewrite HA.
    + by rewrite Hu, decide_True.
  - intros ->. unfold pairs in Hin. by apply elem_of_nil in Hin.
  - intros E. destruct (adj_remove p x A); [done|len_lia].
  - intros E. split_and!.
    + intros E'. rewrite E', size_nil in *. lia.
    + apply enc_ok; [done|lia].
    + apply Hupd; [done..|word_lia].
Qed.
End Adj.

(** *** The index of predicates *)

Lemma insert_pairs_ok (kv : KV) n k (P : Z -> Z -> Prop) s o N :
  kv_room (2 + n) kv -> key_ok Pre k -> word s -> word o -> ~ P s o -> holds_pairs kv k P ->
  (forall L, NoDup L -> (forall s o, (s, o) ∈ L <-> P s o) -> len L <= N) ->
  12 * N + 24 < vs_limit S ->
  wpM (updateInsert_p2values junk s k o) kv (fun r kv' => r = true /\ kv_room n kv' /\
    (exists v, kv_updated kv Pre k v kv') /\
    holds_pairs kv' k (fun s' o' => (s', o') = (s, o) \/ P s' o')).
Proof.
  intros Hr Hk Hs Ho HP (L&Hsort&Hw&HL&Hl) HN Hlen.
  specialize (HN L (lex_sorted_NoDup _ Hsort) HL). pose proof (vs_limit_le S).
  assert ((s, o) ∉ L) as Hn by (by rewrite HL).
  destruct (insert_pair_split _ _ Hsort Hn) as (L1&L2&HL12&Hi&_).
  assert (Forall word_pair (insert_pair (s, o) L)) as Hw'.
  { rewrite Hi. rewrite HL12, Forall_app in Hw. rewrite Forall_app, Forall_cons. by destruct Hw. }
  assert (len (insert_pair (s, o) L) = len L + 1) as Hlen' by (rewrite Hi, HL12; len_lia).
  eapply wpM_mono; [|eapply (insert_index_ok encode_p L (insert_pair (s, o) L)); try done].
  - intros r kv' (->&Hu&Hr'). split_and!; [done|done|by eexists|].
    exists (insert_pair (s, o) L). split_and!; [by apply lex_sorted_insert|done| |].
    + intros s' o'. rewrite elem_of_insert_pair by done. by rewrite HL.
    + rewrite Hu, decide_True by (done || apply Hk). unfold stored.
      by destruct (insert_pair (s, o) L) eqn:E; [simpl in Hlen'; lia|].
  - apply encode_p_ok; [done|done|lia].
  - by intros ->.
  - intros Hne. apply p2_insert_encode; [done..|]. rewrite length_encode_p. word_lia.
Qed.

Lemma remove_pairs_ok (kv : KV) n k (P : Z -> Z -> Prop) s o N :
  kv_room (2 + n) kv -> word k -> P s o -> holds_pairs kv k P ->
  (forall L, NoDup L -> (forall s o, (s, o) ∈ L <-> P s o) -> len L <= N) ->
  12 * N + 24 < vs_limit S ->
  wpM (updateRemove_p2values junk s k o) kv (fun r kv' => r = true /\ kv_room n kv' /\
    (exists v, kv_updated kv Pre k v kv') /\
    holds_pairs kv' k (fun s' o' => P s' o' /\ (s', o') <> (s, o))).
Proof.
  intros Hr Hk HP (L&Hsort&Hw&HL&Hl) HN Hlen.
  specialize (HN L (lex_sorted_NoDup _ Hsort) HL). pose proof (vs_limit_le S).
  assert ((s, o) ∈ L) as Hin by (by rewrite HL).
  destruct (remove_pair_split _ _ Hsort Hin) as (L1&L2&HL12&Hi&_).
  assert (Forall word_pair (remove_pair (s, o) L)) as Hw'.
  { rewrite Hi. rewrite HL12, Forall_app, Forall_cons in Hw. rewrite Forall_app. naive_solver. }
  assert (len (remove_pair (s, o) L) = len L - 1) as Hlen' by (rewrite Hi, HL12; len_lia).
  eapply wpM_mono; [|eapply (remove_index_ok encode_p L (remove_pair (s, o) L)); try done].
  - intros r kv' (->&Hu&Hr'). split_and!; [done|done|by eexists|].
    exists (remove_pair (s, o) L). split_and!; [by apply lex_sorted_remove|done| |].
    + intros s' o'. rewrite elem_of_remove_pair. by rewrite HL.
    + by rewrite Hu, decide_True.
  - intros ->. by apply elem_of_nil in Hin.
  - intros E. destruct (remove_pair (s, o) L); [done|len_lia].
  - intros E. split_and!.
    + intros E'. rewrite E' in *. simpl in *. lia.
    + apply encode_p_ok; [done|done|lia].
    + apply p2_remove_encode; [done..|]. rewrite length_encode_p. word_lia.
Qed.
(** *** The whole store *)

Lemma holds_adj_frame enc (kv kv' : KV) a k v a' k' (P : Z -> Z -> Prop) :
  kv_updated kv a k v kv' -> word k' -> (a', k') <> (a, k) ->
  holds_adj enc kv a' k' P -> holds_adj enc kv' a' k' P.
Proof.
  intros Hu Hk Hne (A&Hwf&HA&Hl). exists A. split_and!; [done..|]. by rewrite Hu, decide_False.
Qed.

Lemma holds_adj_iff enc (kv : KV) a k (P Q : Z -> Z -> Prop) :
  (forall p x, P p x <-> Q p x) -> holds_adj enc kv a k P -> holds_adj enc kv a k Q.
Proof. intros HPQ (A&Hwf&HA&Hl). exists A. split_and!; [done| |done]. intros p x. by rewrite HA. Qed.

Lemma holds_pairs_frame (kv kv' : KV) a k v k' (P : Z -> Z -> Prop) :
  kv_updated kv a k v kv' -> word k' -> (Pre, k') <> (a, k) ->
  holds_pairs kv k' P -> holds_pairs kv' k' P.
Proof.
  intros Hu Hk Hne (L&Hs&Hw&HL&Hl). exists L. split_and!; [done..|]. by rewrite Hu, decide_False.
Qed.

Lemma holds_pairs_iff (kv : KV) k (P Q : Z -> Z -> Prop) :
  (forall s o, P s o <-> Q s o) -> holds_pairs kv k P -> holds_pairs kv k Q.
Proof.
  intros HPQ (L&Hs&Hw&HL&Hl). exists L. split_and!; [done..| |done]. intros s o. by rewrite HL.
Qed.

(** The store after the value lists of [s], [o] and [p] have been replaced. *)
Lemma represents_update (kv kv1 kv2 kv3 : KV) T T' s p o v1 v2 v3 :
  word s -> word p -> word o -> represents kv T ->
  (forall t, t <> (s, p, o) -> t ∈ T' <-> t ∈ T) ->
  kv_updated kv Sub s v1 kv1 -> kv_updated kv1 Obj o v2 kv2 -> kv_updated kv2 Pre p v3 kv3 ->
  holds_adj encode_s kv1 Sub s (fun p o => (s, p, o) ∈ T') ->
  holds_adj encode_o kv2 Obj o (fun p s => (s, p, o) ∈ T') ->
  holds_pairs kv3 p (fun s o => (s, p, o) ∈ T') ->
  represents kv3 T'.
Proof.
  intros Hs Hp Ho [Rs Ro Rp] HT Hu1 Hu2 Hu3 H1 H2 H3. split.
  - intros s' Hs'. eapply holds_adj_frame; [exact Hu3|done..|].
    eapply holds_adj_frame; [exact Hu2|done..|].
    destruct (decide (s' = s)) as [->|]; [done|].
    eapply holds_adj_frame; [exact Hu1|done|congruence|].
    eapply holds_adj_iff, Rs, Hs'. intros. symmetry. apply HT. congruence.
  - intros o' Ho'. eapply holds_adj_frame; [exact Hu3|done..|].
    destruct (decide (o' = o)) as [->|]; [done|].
    eapply holds_adj_frame; [exact Hu2|done|congruence|].
    eapply holds_adj_frame; [exact Hu1|done|done|].
    eapply holds_adj_iff, Ro, Ho'. intros. symmetry. apply HT. congruence.
  - intros p' Hp'. destruct (decide (p' = p)) as [->|]; [done|].
    eapply holds_pairs_frame; [exact Hu3|done|congruence|].
    eapply holds_pairs_frame; [exact Hu2|done..|].
    eapply holds_pairs_frame; [exact Hu1|done|done|].
    eapply holds_pairs_iff, Rp, Hp'. intros. symmetry. apply HT. congruence.
Qed.

(** Sizes of the lists of [T]. *)
Lemma sub_size (T : triples) s A : wf A ->
  (forall p o, (p, o) ∈ pairs A <-> (s, p, o) ∈ T) -> size A <= Z.of_nat (base.size T).
Proof.
  intros Hwf HA. rewrite <- length_pairs.
  apply (list_size_le (fun x => (s, x.1, x.2))); [by apply NoDup_pairs|..].
  - intros [] [] [=]. by subst.
  - intros [p o] Hx. by apply HA.
Qed.

Lemma obj_size (T : triples) o A : wf A ->
  (forall p s, (p, s) ∈ pairs A <-> (s, p, o) ∈ T) -> size A <= Z.of_nat (base.size T).
Proof.
  intros Hwf HA. rewrite <- length_pairs.
  apply (list_size_le (fun x => (x.2, x.1, o))); [by apply NoDup_pairs|..].
  - intros [] [] [=]. by subst.
  - intros [p s] Hx. by apply HA.
Qed.

Lemma pre_size (T : triples) p L : NoDup L ->
  (forall s o, (s, o) ∈ L <-> (s, p, o) ∈ T) -> len L <= Z.of_nat (base.size T).
Proof.
  intros Hnd HL. apply (list_size_le (fun x => (x.1, p, x.2))); [done|..].
  - intros [] [] [=]. by subst.
  - intros [s o] Hx. by apply HL.
Qed.

Lemma encode_s_len A : wf A -> len (encode_s A) <= 3 + 3 * size A.
Proof. intros Hwf. pose proof (wf_size A Hwf). unfold encode_s. rewrite length_layout. simpl. lia. Qed.
Lemma encode_o_len A : wf A -> len (encode_o A) <= 3 + 3 * size A.
Proof. intros Hwf. pose proof (wf_size A Hwf). unfold encode_o. rewrite length_layout. simpl. lia. Qed.

Lemma insert_represents (kv : KV) n T s p o :
  represents kv T -> triple_ok (s, p, o) -> (s, p, o) ∉ T -> small (vs_limit S) T -> kv_room (6 + n) kv ->
  wpM (updateTupleslist_insert junk s p o) kv (fun r kv' =>
    r = true /\ represents kv' ({[(s, p, o)]} ∪ T) /\ kv_room n kv').
Proof.
  intros HR (Hs&Hp&Ho) HT Hsm Hr. pose proof HR as [Rs Ro Rp]. unfold small in Hsm.
  pose proof (proj1 Hs) as Ws. pose proof (proj1 Hp) as Wp. pose proof (proj1 Ho) as Wo.
  unfold updateTupleslist_insert, andM. apply wpM_bind.
  eapply wpM_mono; [|apply (insert_adj_ok encode_s encode_s_len (fun A => encode_s_ok _ A (vs_limit_le S)) kv (4 + n) Sub s
    (fun p o => (s, p, o) ∈ T) p o (Z.of_nat (base.size T))); try done].
  2:{ intros. by apply s2_insert_encode. }
  2:{ apply s2_insert_new_encode. }
  2:{ by apply Rs. }
  2:{ intros A ??. by apply (sub_size T s). }
  intros r kv1 (->&Hr1&(v1&Hu1)&H1). apply wpM_bind.
  eapply wpM_mono; [|apply (insert_adj_ok encode_o encode_o_len (fun A => encode_o_ok _ A (vs_limit_le S)) kv1 (2 + n) Obj o
    (fun p s => (s, p, o) ∈ T) p s (Z.of_nat (base.size T))); try done].
  2:{ intros. by apply o2_insert_encode. }
  2:{ eapply holds_adj_frame; [exact Hu1|done|done|by apply Ro]. }
  2:{ intros A ??. by apply (obj_size T o). }
  intros r kv2 (->&Hr2&(v2&Hu2)&H2).
  eapply wpM_mono; [|apply (insert_pairs_ok kv2 n p (fun s o => (s, p, o) ∈ T) s o
    (Z.of_nat (base.size T))); try done].
  2:{ eapply holds_pairs_frame; [exact Hu2|done..|].
      eapply holds_pairs_frame; [exact Hu1|done..|by apply Rp]. }
  2:{ intros L ??. by apply (pre_size T p). }
  intros r kv3 (->&Hr3&(v3&Hu3)&H3). split_and!; [done| |done].
  apply (represents_update kv kv1 kv2 kv3 T _ s p o v1 v2 v3); try done; [set_solver|..].
  - eapply holds_adj_iff, H1. set_solver.
  - eapply holds_adj_iff, H2. set_solver.
  - eapply holds_pairs_iff, H3. set_solver.
Qed.

Lemma remove_represents (kv : KV) n T s p o :
  represents kv T -> triple_ok (s, p, o) -> (s, p, o) ∈ T -> small (vs_limit S) T -> kv_room (6 + n) kv ->
  wpM (updateTupleslist_remove junk s p o) kv (fun r kv' =>
    r = true /\ represents kv' (T ∖ {[(s, p, o)]}) /\ kv_room n kv').
Proof.
  intros HR (Hs&Hp&Ho) HT Hsm Hr. pose proof HR as [Rs Ro Rp]. unfold small in Hsm.
  pose proof (proj1 Hs) as Ws. pose proof (proj1 Hp) as Wp. pose proof (proj1 Ho) as Wo.
  unfold updateTupleslist_remove, andM. apply wpM_bind.
  eapply wpM_mono; [|apply (remove_adj_ok encode_s encode_s_len (fun _ => eq_refl) (fun A => encode_s_ok _ A (vs_limit_le S)) kv
    (4 + n) Sub s (fun p o => (s, p, o) ∈ T) p o (Z.of_nat (base.size T))); try done].
  2:{ intros. by apply s2_remove_encode. }
  2:{ by apply Rs. }
  2:{ intros A ??. by apply (sub_size T s). }
  intros r kv1 (->&Hr1&(v1&Hu1)&H1). apply wpM_bind.
  eapply wpM_mono; [|apply (remove_adj_ok encode_o encode_o_len (fun _ => eq_refl) (fun A => encode_o_ok _ A (vs_limit_le S)) kv1
    (2 + n) Obj o (fun p s => (s, p, o) ∈ T) p s (Z.of_nat (base.size T))); try done].
  2:{ intros. by apply o2_remove_encode. }
  2:{ eapply holds_adj_frame; [exact Hu1|done|done|by apply Ro]. }
  2:{ intros A ??. by apply (obj_size T o). }
  intros r kv2 (->&Hr2&(v2&Hu2)&H2).
  eapply wpM_mono; [|apply (remove_pairs_ok kv2 n p (fun s o => (s, p, o) ∈ T) s o
    (Z.of_nat (base.size T))); try done].
  2:{ eapply holds_pairs_frame; [exact Hu2|done..|].
      eapply holds_pairs_frame; [exact Hu1|done..|by apply Rp]. }
  2:{ intros L ??. by apply (pre_size T p). }
  intros r kv3 (->&Hr3&(v3&Hu3)&H3). split_and!; [done| |done].
  apply (represents_update kv kv1 kv2 kv3 T _ s p o v1 v2 v3); try done; [set_solver|..].
  - eapply holds_adj_iff, H1. set_solver.
  - eapply holds_adj_iff, H2. set_solver.
  - eapply holds_pairs_iff, H3. set_solver.
Qed.

(** *** Sequences of updates *)

Inductive update := Insert (t : triple) | Remove (t : triple).

Definition update_triple (u : update) : triple := match u with Insert t | Remove t => t end.

(** One update, and a list of them, on the concrete store... *)
Definition run_update (u : update) : M KV bool :=
  match u with
  | Insert (s, p, o) => updateTupleslist_insert junk s p o
  | Remove (s, p, o) => updateTupleslist_remove junk s p o
  end.

Fixpoint run_updates (us : list update) : M KV bool :=
  match us with
  | [] => retM true
  | u :: us' => andM (run_update u) (run_updates us')
  end.

(** ... and on the set. *)
Definition apply_update (T : triples) (u : update) : triples :=
  match u with Insert t => {[t]} ∪ T | Remove t => T ∖ {[t]} end.

(** What [Database] checks before it calls the store: a triple is inserted
    when it is not there and removed when it is. *)
Definition update_allowed (lim : Z) (T : triples) (u : update) : Prop :=
  triple_ok (update_triple u) /\ small lim T /\
  match u with Insert t => t ∉ T | Remove t => t ∈ T end.

Fixpoint updates_allowed (lim : Z) (T : triples) (us : list update) : Prop :=
  match us with
  | [] => True
  | u :: us' => update_allowed lim T u /\ updates_allowed lim (apply_update T u) us'
  end.

Lemma run_updates_represents us (kv : KV) T :
  represents kv T -> updates_allowed (vs_limit S) T us -> kv_room (6 * length us) kv ->
  wpM (run_updates us) kv (fun r kv' =>
    r = true /\ represents kv' (foldl apply_update T us)).
Proof.
  revert kv T. induction us as [|u us IH]; intros kv T HR Hus Hr; [done|].
  destruct Hus as [(Hok&Hsm&Hu) Hus]. cbn [run_updates foldl]. unfold andM. apply wpM_bind.
  replace (6 * length (u :: us))%nat with (6 + 6 * length us)%nat in Hr by (simpl; lia).
  destruct u as [[[s p] o]|[[s p] o]]; cbn [run_update].
  - eapply wpM_mono; [|by apply insert_represents]. intros r kv' (->&HR'&Hr'). by apply IH.
  - eapply wpM_mono; [|by apply remove_represents]. intros r kv' (->&HR'&Hr'). by apply IH.
Qed.
End Represents.
