(* ===== verification/KVget.v ===== *)
(** * The getters of KVstore

    [getXBy...] of KVstore/KVstore.cpp outside of a transaction: guard, lookup,
    and what [ValueRead] computes from the value list.  A getter that returns
    [false] is [None], otherwise it returns the id list. *)

From S2P Require Import Prelude Util ValueList Adjacency ValueUpdate ValueSpec PreList ValueRead ValueStore KVstore TripleSet.

(** [INVALID_ENTITY_LITERAL_ID]. *)
Definition INVALID_ENTITY_LITERAL_ID : Z := INVALID.

Section Code.
Context {S : Type} `{VS : ValueStore S} (junk : nat -> Z).
Abbreviation KV := (KVstore S).

(** Look up a value list and read it, or return [false]. *)
Definition read_value {A} (a : array) (_key : Z) (f : list Z -> option A) : M KV (option A) :=
  let! _get := getValueByKey a _key in
  match _get with
  | None => retM None
  | Some _tmp => let! r := liftM (f _tmp) in retM (Some r)
  end.

(** A reading that may itself return [false]. *)
Definition joinM {A} (m : M KV (option (option A))) : M KV (option A) :=
  let! r := m in retM (default None r).

Definition getpreIDlistBysubID (_subid : Z) : M KV (option (list Z)) :=
  if negb (is_entity_ele _subid) then retM None
  else read_value Sub _subid (read_keys 3 junk).

Definition getobjIDlistBysubID (_subid : Z) (_no_duplicate : bool) : M KV (option (list Z)) :=
  if negb (is_entity_ele _subid) then retM None
  else read_value Sub _subid (read_all 3 junk _no_duplicate).

Definition getobjIDlistBysubIDpreID (_subid _preid : Z) : M KV (option (list Z)) :=
  if negb (is_entity_ele _subid) then retM None
  else joinM (read_value Sub _subid (fun t => read_list 3 junk t _preid)).

Definition getpreIDobjIDlistBysubID (_subid : Z) : M KV (option (list Z)) :=
  if negb (is_entity_ele _subid) then retM None
  else read_value Sub _subid (read_pairs 3 junk).

Definition getpreIDlistByobjID (_objid : Z) : M KV (option (list Z)) :=
  if _objid =? INVALID_ENTITY_LITERAL_ID then retM None
  else read_value Obj _objid (read_keys 2 junk).

Definition getsubIDlistByobjID (_objid : Z) (_no_duplicate : bool) : M KV (option (list Z)) :=
  if _objid =? INVALID_ENTITY_LITERAL_ID then retM None
  else read_value Obj _objid (read_all 2 junk _no_duplicate).

Definition getsubIDlistByobjIDpreID (_objid _preid : Z) : M KV (option (list Z)) :=
  if _objid =? INVALID_ENTITY_LITERAL_ID then retM None
  else joinM (read_value Obj _objid (fun t => read_list 2 junk t _preid)).

Definition getpreIDsubIDlistByobjID (_objid : Z) : M KV (option (list Z)) :=
  if _objid =? INVALID_ENTITY_LITERAL_ID then retM None
  else read_value Obj _objid (read_pairs 2 junk).

Definition getsubIDlistBypreID (_preid : Z) (_no_duplicate : bool) : M KV (option (list Z)) :=
  read_value Pre _preid (p2_read_subs junk _no_duplicate).

Definition getobjIDlistBypreID (_preid : Z) (_no_duplicate : bool) : M KV (option (list Z)) :=
  read_value Pre _preid (p2_read_objs junk _no_duplicate).

Definition getsubIDobjIDlistBypreID (_preid : Z) : M KV (option (list Z)) :=
  read_value Pre _preid (p2_read_pairs junk).

(** The degrees: the triple number of a value list, 0 without one. *)
Definition degree (a : array) (_id : Z) : M KV Z :=
  let! r := read_value a _id (fun t => arr_get t 0) in retM (default 0 r).

Definition getEntityInDegree (_entity_id : Z) : M KV Z := degree Obj _entity_id.
Definition getEntityOutDegree (_entity_id : Z) : M KV Z := degree Sub _entity_id.
Definition getLiteralDegree (_literal_id : Z) : M KV Z := degree Obj _literal_id.
Definition getPredicateDegree (_predicate_id : Z) : M KV Z := degree Pre _predicate_id.

Definition getEntityDegree (_entity_id : Z) : M KV Z :=
  let! i := getEntityInDegree _entity_id in
  let! o := getEntityOutDegree _entity_id in retM (i ⊞ o).

Definition getSubjectPredicateDegree (_subid _preid : Z) : M KV Z :=
  let! r := read_value Sub _subid (fun t => read_degree 3 t _preid) in retM (default 0 r).

Definition getObjectPredicateDegree (_objid _preid : Z) : M KV Z :=
  let! r := read_value Obj _objid (fun t => read_degree 2 t _preid) in retM (default 0 r).

(** [KVstore::existThisTriple]: both branches on [_pre_id] make the same call;
    a getter that returns [false] leaves an empty list. *)
Definition existThisTriple (_sub_id _pre_id _obj_id : Z) : M KV bool :=
  let! r := getobjIDlistBysubIDpreID _sub_id _pre_id in
  let _objidlist := default [] r in
  let! i := liftM (bsearch_int_uporder _obj_id _objidlist (len _objidlist)) in
  retM (negb (i =? INVALID)).

(** *** [KVstore::getpreIDlistBysubIDobjID] *)

(** [for (; _result < _tmp[1]; _result++) if (_tmp[3 + 2 * _result] == _preid) break;]. *)
Definition find_pre (_tmp : list Z) (npre _preid _result : Z) : option Z :=
  while (Datatypes.S (Z.to_nat npre))
    (fun _result => if _result <? npre
                    then p ← arr_get _tmp (key_ix 3 _result); Some (negb (p =? _preid))
                    else Some false)
    (fun _result => Some (_result ⊞ 1)) _result.

(** [for (j = i; j < len; j++) { list[j] = INVALID; _list_len--; }]. *)
Definition invalidate_from (len i : Z) (s : list Z * Z) : option (Z * list Z * Z) :=
  while (Datatypes.S (Z.to_nat len))
    (fun '(j, l, n) => Some (j <? len))
    (fun '(j, l, n) => l ← arr_set l j INVALID; Some (j ⊞ 1, l, n ⊟ 1)) (i, s.1, s.2).

(** The loop over the common predicates; [break] leaves with [i = len]. *)
Definition check_preds (_tmp : list Z) (t0 npre _objid len : Z) (l : list Z)
    : option (Z * Z * list Z * Z) :=
  while (Datatypes.S (Z.to_nat len))
    (fun '(i, _result, l, _list_len) => Some (i <? len))
    (fun '(i, _result, l, _list_len) =>
       _preid ← arr_get l i;
       _result ← find_pre _tmp npre _preid _result;
       if _result =? npre then
         '(_, l, _list_len) ← invalidate_from len i (l, _list_len);
         Some (len, _result, l, _list_len)
       else
         _offset ← arr_get _tmp (off_ix 3 _result);
         _offset_next ← offset_next 3 _tmp t0 npre _result;
         r ← binarySearch _objid (drop (Z.to_nat _offset) _tmp) (_offset_next ⊟ _offset) 1;
         '(l, _list_len) ← (if r =? INVALID
                            then l ← arr_set l i INVALID; Some (l, _list_len ⊟ 1)
                            else Some (l, _list_len));
         Some (i ⊞ 1, _result, l, _list_len))
    (0, 0, l, len).

(** The last loop: the entries that are not [INVALID]. *)
Definition keep_valid (len _list_len : Z) (l : list Z) : option (list Z) :=
  '(_, _, out) ← while (Datatypes.S (Z.to_nat len))
    (fun '(i, j, out) => Some (i <? len))
    (fun '(i, j, out) =>
       x ← arr_get l i;
       if negb (x =? INVALID) then out ← arr_set out j x; Some (i ⊞ 1, j ⊞ 1, out)
       else Some (i ⊞ 1, j, out))
    (0, 0, new_array junk _list_len);
  Some out.

Definition select_preds (_tmp : list Z) (_objid : Z) (l : list Z) : option (option (list Z)) :=
  t0 ← arr_get _tmp 0;
  npre ← arr_get _tmp 1;
  let n := len l in
  '(_, _, l, _list_len) ← check_preds _tmp t0 npre _objid n l;
  if _list_len =? 0 then Some None
  else out ← keep_valid n _list_len l; Some (Some out).

Definition getpreIDlistBysubIDobjID (_subid _objid : Z) : M KV (option (list Z)) :=
  let! r1 := getpreIDlistBysubID _subid in
  match r1 with
  | None => retM None
  | Some list1 =>
      let! r2 := getpreIDlistByobjID _objid in
      match r2 with
      | None => retM None
      | Some list2 =>
          let! l := liftM (intersect list1 list2 (len list1) (len list2)) in
          if len l =? 0 then retM None
          else joinM (read_value Sub _subid (fun t => select_preds t _objid l))
      end
  end.
End Code.

(** ** What the getters return *)

(** The lists of a triple set, as the getters order them. *)
Definition lists (l : option (list Z)) (P : Z -> Prop) : Prop :=
  match l with
  | None => forall x, ~ P x
  | Some l => increasing l /\ l <> [] /\ forall x, x ∈ l <-> P x
  end.

Definition lists_pairs (l : option (list Z)) (P : Z -> Z -> Prop) : Prop :=
  match l with
  | None => forall x y, ~ P x y
  | Some l => exists L, l = flat L /\ lex_sorted L /\ L <> [] /\ forall x y, (x, y) ∈ L <-> P x y
  end.

Section Spec.
Context {S : Type} `{VSL : ValueStoreLaws S} (junk : nat -> Z).
Abbreviation KV := (KVstore S).

(** A read leaves the represented set alone and uses up one operation. *)
Definition reads {A} (m : M KV A) (kv : KV) (n : nat) (T : triples) (Q : A -> Prop) : Prop :=
  wpM m kv (fun r kv' => Q r /\ represents kv' T /\ kv_room n kv').

Lemma represents_ext (kv kv' : KV) T :
  (forall a k, kv_lookup kv' a k = kv_lookup kv a k) -> represents kv T -> represents kv' T.
Proof.
  intros He [Rs Ro Rp]. split; intros k Hk.
  - destruct (Rs k Hk) as (A&?&?&HA). exists A. by rewrite He.
  - destruct (Ro k Hk) as (A&?&?&HA). exists A. by rewrite He.
  - destruct (Rp k Hk) as (L&?&?&?&HL). exists L. by rewrite He.
Qed.

Lemma read_value_ok {X A} (enc : list X -> list Z) (l : list X) (kv : KV) n a k T
    (f : list Z -> option A) (r : A) (Q : option A -> Prop) :
  kv_room (1 + n) kv -> word k -> represents kv T -> kv_lookup kv a k = stored enc l ->
  (l = [] -> Q None) -> (l <> [] -> f (enc l) = Some r /\ Q (Some r)) ->
  reads (read_value a k f) kv n T Q.
Proof.
  intros Hr Hk HR Hl H0 H1. unfold reads, read_value. apply wpM_bind.
  eapply getValueByKey_ok; [exact Hr|done|]. intros kv' He Hr'. rewrite Hl.
  pose proof (represents_ext _ _ _ He HR). destruct l as [|x l].
  - apply wpM_ret. by split_and!; [apply H0|..].
  - destruct H1 as [E HQ]; [done|]. apply wpM_bind. by eapply wpM_lift; [exact E|].
Qed.

Lemma reads_bind {A B} (m : M KV A) (f : A -> M KV B) kv n n' T Q R :
  reads m kv n T Q -> (forall r kv', Q r -> represents kv' T -> kv_room n kv' -> reads (f r) kv' n' T R) ->
  reads (bindM m f) kv n' T R.
Proof.
  intros Hm Hf. unfold reads in *. apply wpM_bind. eapply wpM_mono, Hm.
  intros r kv' (HQ&HR&Hr). by apply Hf.
Qed.

Lemma reads_ret {A} (r : A) (kv : KV) n T (Q : A -> Prop) :
  represents kv T -> kv_room n kv -> Q r -> reads (retM r) kv n T Q.
Proof. intros. unfold reads. by apply wpM_ret. Qed.

(** *** What an adjacency lists *)

Lemma lex_sorted_pairs A : wf A -> lex_sorted (pairs A).
Proof.
  induction A as [|[p l] A IH]; intros Hwf; [constructor|].
  destruct (wf_app [(p, l)] A Hwf) as (_&HwfA&Hlt). unfold pairs. cbn. apply lex_sorted_app.
  split_and!; [|by apply IH|].
  - destruct Hwf as [_ [[_ _ Hinc _] _]%Forall_cons]. simpl in Hinc. clear Hlt.
    induction Hinc as [|x l Hs IHl Hf]; [constructor|]. cbn. constructor; [done|].
    rewrite Forall_fmap. eapply Forall_impl; [exact Hf|]. intros y Hy. right. simpl. done.
  - intros [q x] [q' x'] H1 H2. apply list_elem_of_fmap in H1 as (y&[= -> ->]&Hy).
    apply elem_of_pairs in H2 as (l'&Hin&_). left. simpl. apply Hlt; [left|].
    apply list_elem_of_fmap. by exists (q', l').
Qed.

Lemma elem_of_keys A p : wf A -> p ∈ keys A <-> exists x, (p, x) ∈ pairs A.
Proof.
  intros [_ He]. unfold keys. rewrite list_elem_of_fmap. setoid_rewrite elem_of_pairs. split.
  - intros ([q l]&->&Hin). rewrite Forall_forall in He. destruct (He _ Hin) as [_ Hne _ _].
    simpl in *. destruct l as [|x l]; [done|]. exists x, (x :: l). split; [done|left].
  - intros (x&l&Hin&_). by exists (p, l).
Qed.

Lemma elem_of_body A x : x ∈ body A <-> exists p, (p, x) ∈ pairs A.
Proof.
  induction A as [|[p l] A IH]; [split; [by intros ?%elem_of_nil|intros [p Hp]; by apply elem_of_nil in Hp]|].
  rewrite body_cons, elem_of_app, IH. setoid_rewrite elem_of_pairs_cons. simpl. naive_solver.
Qed.

(** A reader [f] of the value lists that encode [P], and what its results say;
    [f'] is what it computes. *)
Section Readers.
Context (enc : adj -> list Z) (P : Z -> Z -> Prop).

Record adj_reader {B} (f : list Z -> option B) (f' : adj -> B) (Q : option B -> Prop) : Prop := {
  ar_run A : wf A -> A <> [] -> len (enc A) + 3 < W32 -> 2 * size A < W32 ->
    (forall p x, (p, x) ∈ pairs A <-> P p x) -> f (enc A) = Some (f' A);
  ar_none : (forall p x, ~ P p x) -> Q None;
  ar_some A : wf A -> A <> [] -> (forall p x, (p, x) ∈ pairs A <-> P p x) -> Q (Some (f' A)) }.

Context (extra : adj -> list Z) (h : Z).
Context (Henc : forall A, enc A = layout (size A :: len A :: extra A) A).
Context (Hextra : forall A, len (extra A) <= 1).
Context (Hh : forall A, h = len (size A :: len A :: extra A)).

Lemma read_keys_reader : adj_reader (read_keys h junk) keys (fun r => lists r (fun p => exists x, P p x)).
Proof.
  split.
  - intros A Hwf Hne H1 H2 _. rewrite (Hh A), Henc in *. by eapply read_keys_spec.
  - intros Hn p [x Hx]. by eapply Hn.
  - intros A Hwf Hne HA. split_and!; [apply Hwf|by destruct A|].
    intros p. rewrite elem_of_keys by done. by setoid_rewrite HA.
Qed.

Lemma read_all_reader (b : bool) :
  adj_reader (read_all h junk b) (fun A => if b then compress (sort (body A)) else sort (body A)) (fun r =>
    if b then lists r (fun x => exists p, P p x)
    else match r with
         | None => forall p x, ~ P p x
         | Some l => StronglySorted Z.le l /\ exists L, l ≡ₚ L.*2 /\ NoDup L /\
                       forall p x, (p, x) ∈ L <-> P p x
         end).
Proof.
  split.
  - intros A Hwf Hne H1 H2 _. rewrite (Hh A), Henc in *. by eapply read_all_spec.
  - intros Hn. destruct b; [|done]. intros x [p Hx]. by eapply Hn.
  - intros A Hwf Hne HA. destruct b; split.
    + apply increasing_compress, sort_sorted.
    + assert (forall x, x ∈ compress (sort (body A)) <-> exists p, P p x) as Hin.
      { intros x. rewrite elem_of_compress, sort_perm, elem_of_body. by setoid_rewrite HA. }
      split; [|done]. intros E. destruct A as [|[p l] A]; [done|].
      destruct Hwf as [_ [[_ Hl _ _] _]%Forall_cons]. simpl in Hl. destruct l as [|x l]; [done|].
      assert (x ∈ compress (sort (body ((p, x :: l) :: A)))) as Hx; [|by rewrite E in Hx; apply elem_of_nil in Hx].
      apply Hin. exists p. apply HA. apply elem_of_pairs. exists (x :: l). split; left.
    + apply sort_sorted.
    + exists (pairs A). split_and!; [|by apply NoDup_pairs|done].
      rewrite sort_perm. unfold pairs, body. clear. induction A as [|[p l] A IH]; [done|]. cbn.
      rewrite fmap_app, <- list_fmap_compose, IH. by rewrite list_fmap_id.
Qed.

Lemma read_list_reader p :
  adj_reader (fun t => read_list h junk t p) (adj_find p) (fun r => lists (default None r) (P p)).
Proof.
  split.
  - intros A Hwf Hne H1 H2 _. rewrite (Hh A), Henc in *. by eapply read_list_spec.
  - intros Hn x. apply Hn.
  - intros A Hwf Hne HA. simpl. destruct (adj_find p A) as [l|] eqn:E; simpl.
    + assert ((p, l) ∈ A) as Hin by (by apply adj_find_Some).
      pose proof Hwf as [Hk' He]. rewrite Forall_forall in He. destruct (He _ Hin) as [_ Hne' Hinc _].
      split_and!; [done..|]. intros x. rewrite <- HA, elem_of_pairs_find by done.
      rewrite E. naive_solver.
    + intros x Hx%HA. apply elem_of_pairs_find in Hx as (l&?&_); [congruence|done].
Qed.

Lemma read_pairs_reader : adj_reader (read_pairs h junk) (fun A => flat (pairs A)) (fun r => lists_pairs r P).
Proof.
  split.
  - intros A Hwf Hne H1 H2 _. rewrite (Hh A), Henc in *. by eapply read_pairs_spec.
  - done.
  - intros A Hwf Hne HA. exists (pairs A). split_and!; [done|by apply lex_sorted_pairs| |done].
    intros E. pose proof (length_pairs A) as El. rewrite E in El. pose proof (wf_size A Hwf).
    destruct A; [done|]. simpl in *. lia.
Qed.

End Readers.

Section Adj.
Context (enc : adj -> list Z) (extra : adj -> list Z) (h : Z).
Context (Henc : forall A, enc A = layout (size A :: len A :: extra A) A).
Context (Hextra : forall A, len (extra A) <= 1).
Context (Hh : forall A, h = len (size A :: len A :: extra A)).
Context (kv : KV) (a : array) (k : Z) (n : nat) (T : triples) (P : Z -> Z -> Prop).
Context (Hr : kv_room (1 + n) kv) (Hk : word k) (HR : represents kv T).
Context (HP : holds_adj enc kv a k P).
Context (Hsize : forall A, wf A -> (forall p x, (p, x) ∈ pairs A <-> P p x) ->
           12 * size A + 24 < W32).

(** Reading with a function whose result on encodings is [f']. *)
Lemma read_adj_ok {B} (f : list Z -> option B) (f' : adj -> B) (Q : option B -> Prop) :
  (forall A, wf A -> A <> [] -> len (enc A) + 3 < W32 -> 2 * size A < W32 ->
     (forall p x, (p, x) ∈ pairs A <-> P p x) -> f (enc A) = Some (f' A)) ->
  ((forall p x, ~ P p x) -> Q None) ->
  (forall A, wf A -> A <> [] -> (forall p x, (p, x) ∈ pairs A <-> P p x) -> Q (Some (f' A))) ->
  reads (read_value a k f) kv n T Q.
Proof.
  intros Hf H0 H1. destruct HP as (A&Hwf&HA&Hl). specialize (Hsize A Hwf HA).
  eapply (read_value_ok enc A) with (r := f' A); try done.
  - intros ->. apply H0. intros p x Hpx%HA. by apply elem_of_nil in Hpx.
  - intros Hne. split; [|by apply H1]. pose proof (wf_size A Hwf). pose proof (size_nonneg A).
    apply Hf; [done..| |word_lia|done]. rewrite Henc, length_layout, <- Hh.
    specialize (Hextra A). rewrite (Hh A). cbn [length]. word_lia.
Qed.

Lemma read_reader_ok {B} (f : list Z -> option B) (f' : adj -> B) (Q : option B -> Prop) :
  adj_reader enc P f f' Q -> reads (read_value a k f) kv n T Q.
Proof. intros [H1 H2 H3]. by eapply (read_adj_ok _ f'). Qed.

Lemma read_keys_ok :
  reads (read_value a k (read_keys h junk)) kv n T (fun r => lists r (fun p => exists x, P p x)).
Proof. eapply read_reader_ok, read_keys_reader; done. Qed.

Lemma read_all_ok (b : bool) :
  reads (read_value a k (read_all h junk b)) kv n T (fun r =>
    if b then lists r (fun x => exists p, P p x)
    else match r with
         | None => forall p x, ~ P p x
         | Some l => StronglySorted Z.le l /\ exists L, l ≡ₚ L.*2 /\ NoDup L /\
                       forall p x, (p, x) ∈ L <-> P p x
         end).
Proof. eapply read_reader_ok, read_all_reader; done. Qed.

Lemma read_list_ok p :
  reads (joinM (read_value a k (fun t => read_list h junk t p))) kv n T (fun r => lists r (P p)).
Proof.
  unfold joinM. eapply reads_bind; [eapply read_reader_ok, read_list_reader; done|].
  intros r kv' HQ HR' Hr'. by apply reads_ret.
Qed.

Lemma read_pairs_ok :
  reads (read_value a k (read_pairs h junk)) kv n T (fun r => lists_pairs r P).
Proof. eapply read_reader_ok, read_pairs_reader; done. Qed.

Lemma read_degree_ok p :
  reads (let! r := read_value a k (fun t => read_degree h t p) in retM (default 0 r)) kv n T
    (fun d => exists l, NoDup l /\ (forall x, x ∈ l <-> P p x) /\ d = len l).
Proof.
  eapply reads_bind.
  - eapply (read_adj_ok _ (fun A => match adj_find p A with Some l => len l | None => 0 end))
      with (Q := fun r => exists l, NoDup l /\ (forall x, x ∈ l <-> P p x) /\ default 0 r = len l).
    + intros A Hwf Hne H1 H2 _. rewrite (Hh A), Henc in *. by eapply read_degree_spec.
    + intros Hn. exists []. split_and!; [constructor| |done]. intros x.
      split; [by intros ?%elem_of_nil|by intros ?%Hn].
    + intros A Hwf Hne HA. simpl. destruct (adj_find p A) as [l|] eqn:E.
      * assert ((p, l) ∈ A) as Hin by (by apply adj_find_Some).
        pose proof Hwf as [Hk' He]. rewrite Forall_forall in He. destruct (He _ Hin) as [_ _ Hinc _].
        exists l. split_and!; [by apply increasing_NoDup| |done]. intros x.
        rewrite <- HA, elem_of_pairs_find by done. rewrite E. naive_solver.
      * exists []. split_and!; [constructor| |done]. intros x.
        rewrite <- HA, elem_of_pairs_find by done. rewrite E. set_solver.
  - intros r kv' HQ HR' Hr'. by apply reads_ret.
Qed.
End Adj.

(** *** The index of predicates *)

Record pair_reader {B} (P : Z -> Z -> Prop) (f : list Z -> option B) (f' : list (Z * Z) -> B)
    (Q : option B -> Prop) : Prop := {
  pr_run L : len (encode_p L) + 3 < W32 -> f (encode_p L) = Some (f' L);
  pr_none : (forall x y, ~ P x y) -> Q None;
  pr_some L : lex_sorted L -> L <> [] -> (forall x y, (x, y) ∈ L <-> P x y) -> Q (Some (f' L)) }.

Lemma read_subs_reader P :
  pair_reader P (p2_read_subs junk true) (fun L => compress L.*1) (fun r => lists r (fun x => exists y, P x y)).
Proof.
  split.
  - intros L HL. by apply (p2_read_subs_spec junk L HL true).
  - intros Hn x [y Hy]. by eapply Hn.
  - intros L Hs Hne HL. assert (StronglySorted Z.le L.*1) as Hs1.
    { clear Hne HL. induction Hs as [|[x y] L Hs IH Hf]; [constructor|]. constructor; [done|].
      apply (Forall_fmap fst). eapply Forall_impl; [exact Hf|]. intros [x' y'] [Hlt|[E _]]; simpl in *; lia. }
    assert (forall x, x ∈ compress L.*1 <-> exists y, P x y) as Hin.
    { intros x. rewrite elem_of_compress, list_elem_of_fmap. setoid_rewrite <- HL. split.
      - intros ([x' y]&->&Hin). by exists y.
      - intros [y Hy]. by exists (x, y). }
    split_and!; [by apply increasing_compress| |done]. intros E. destruct L as [|[x y] L]; [done|].
    assert (x ∈ compress ((x, y) :: L).*1) as Hx; [|by rewrite E in Hx; apply elem_of_nil in Hx].
    apply Hin. exists y. apply HL. left.
Qed.

Lemma read_objs_reader P :
  pair_reader P (p2_read_objs junk true) (fun L => compress (sort L.*2)) (fun r => lists r (fun y => exists x, P x y)).
Proof.
  split.
  - intros L HL. by apply (p2_read_objs_spec junk L HL true).
  - intros Hn y [x Hx]. by eapply Hn.
  - intros L Hs Hne HL.
    assert (forall y, y ∈ compress (sort L.*2) <-> exists x, P x y) as Hin.
    { intros y. rewrite elem_of_compress, sort_perm, list_elem_of_fmap. setoid_rewrite <- HL. split.
      - intros ([x y']&->&Hin). by exists x.
      - intros [x Hx]. by exists (x, y). }
    split_and!; [apply increasing_compress, sort_sorted| |done].
    intros E. destruct L as [|[x y] L]; [done|].
    assert (y ∈ compress (sort ((x, y) :: L).*2)) as Hy; [|by rewrite E in Hy; apply elem_of_nil in Hy].
    apply Hin. exists x. apply HL. left.
Qed.

Lemma read_p2pairs_reader P : pair_reader P (p2_read_pairs junk) flat (fun r => lists_pairs r P).
Proof.
  split.
  - intros L HL. by apply p2_read_pairs_spec.
  - done.
  - intros L Hs Hne HL. by exists L.
Qed.

Section Pairs.
Context (kv : KV) (k : Z) (n : nat) (T : triples) (P : Z -> Z -> Prop).
Context (Hr : kv_room (1 + n) kv) (Hk : word k) (HR : represents kv T).
Context (HP : holds_pairs kv k P).
Context (Hsize : forall L, NoDup L -> (forall x y, (x, y) ∈ L <-> P x y) -> 12 * len L + 24 < W32).

Lemma read_p2_ok {B} (f : list Z -> option B) (f' : list (Z * Z) -> B) (Q : option B -> Prop) :
  (forall L, len (encode_p L) + 3 < W32 -> f (encode_p L) = Some (f' L)) ->
  ((forall x y, ~ P x y) -> Q None) ->
  (forall L, lex_sorted L -> L <> [] -> (forall x y, (x, y) ∈ L <-> P x y) -> Q (Some (f' L))) ->
  reads (read_value Pre k f) kv n T Q.
Proof.
  intros Hf H0 H1. destruct HP as (L&Hs&Hw&HL&Hl).
  specialize (Hsize L (lex_sorted_NoDup _ Hs) HL).
  eapply (read_value_ok encode_p L) with (r := f' L); try done.
  - intros ->. apply H0. intros x y Hxy%HL. by apply elem_of_nil in Hxy.
  - intros Hne. split; [|by apply H1]. apply Hf. rewrite length_encode_p. word_lia.
Qed.

Lemma read_pair_reader_ok {B} (f : list Z -> option B) (f' : list (Z * Z) -> B) (Q : option B -> Prop) :
  pair_reader P f f' Q -> reads (read_value Pre k f) kv n T Q.
Proof. intros [H1 H2 H3]. by eapply (read_p2_ok _ f'). Qed.

Lemma read_subs_ok :
  reads (read_value Pre k (p2_read_subs junk true)) kv n T (fun r => lists r (fun x => exists y, P x y)).
Proof. eapply read_pair_reader_ok, read_subs_reader. Qed.

Lemma read_objs_ok :
  reads (read_value Pre k (p2_read_objs junk true)) kv n T (fun r => lists r (fun y => exists x, P x y)).
Proof. eapply read_pair_reader_ok, read_objs_reader. Qed.

Lemma read_p2pairs_ok :
  reads (read_value Pre k (p2_read_pairs junk)) kv n T (fun r => lists_pairs r P).
Proof. eapply read_pair_reader_ok, read_p2pairs_reader. Qed.
End Pairs.

(** *** The getters on a represented set *)

Section Getters.
Context (kv : KV) (n : nat) (T : triples).
Context (HR : represents kv T) (Hsm : small (vs_limit S) T) (Hr : kv_room (1 + n) kv).

Lemma sub_small s A : wf A -> (forall p o, (p, o) ∈ pairs A <-> (s, p, o) ∈ T) ->
  12 * size A + 24 < W32.
Proof. intros Hwf HA. pose proof (sub_size T s A Hwf HA). unfold small in Hsm. pose proof (vs_limit_le S). lia. Qed.
Lemma obj_small o A : wf A -> (forall p s, (p, s) ∈ pairs A <-> (s, p, o) ∈ T) ->
  12 * size A + 24 < W32.
Proof. intros Hwf HA. pose proof (obj_size T o A Hwf HA). unfold small in Hsm. pose proof (vs_limit_le S). lia. Qed.
Lemma pre_small p L : NoDup L -> (forall s o, (s, o) ∈ L <-> (s, p, o) ∈ T) ->
  12 * len L + 24 < W32.
Proof. intros Hnd HL. pose proof (pre_size T p L Hnd HL). unfold small in Hsm. pose proof (vs_limit_le S). lia. Qed.

(** The three fields of the header that both layouts of [Adj] have. *)
Definition s_extra (A : adj) : list Z := [entities A].
Definition o_extra (A : adj) : list Z := [].

Lemma sub_get_ok s p : word s -> is_entity_ele s = true ->
  reads (getobjIDlistBysubIDpreID junk s p) kv n T (fun r => lists r (fun o => (s, p, o) ∈ T)).
Proof.
  intros Hs He. unfold getobjIDlistBysubIDpreID. rewrite He. cbn [negb].
  by eapply (read_list_ok encode_s s_extra 3) with (P := fun p o => (s, p, o) ∈ T);
    [done|done|done|done|done|done|by apply rep_sub|apply sub_small].
Qed.

Lemma sub_keys_ok s : word s -> is_entity_ele s = true ->
  reads (getpreIDlistBysubID junk s) kv n T (fun r => lists r (fun p => exists o, (s, p, o) ∈ T)).
Proof.
  intros Hs He. unfold getpreIDlistBysubID. rewrite He. cbn [negb].
  by eapply (read_keys_ok encode_s s_extra 3) with (P := fun p o => (s, p, o) ∈ T);
    [done|done|done|done|done|done|by apply rep_sub|apply sub_small].
Qed.

Lemma obj_keys_ok o : word o -> o <> INVALID_ENTITY_LITERAL_ID ->
  reads (getpreIDlistByobjID junk o) kv n T (fun r => lists r (fun p => exists s, (s, p, o) ∈ T)).
Proof.
  intros Ho Hi. unfold getpreIDlistByobjID. rewrite (proj2 (Z.eqb_neq _ _)) by done.
  by eapply (read_keys_ok encode_o o_extra 2) with (P := fun p s => (s, p, o) ∈ T);
    [done|done|done|done|done|done|by apply rep_obj|apply obj_small].
Qed.
End Getters.

(** Membership of a triple. *)
Lemma exist_ok (kv : KV) n T s p o :
  represents kv T -> small (vs_limit S) T -> kv_room (1 + n) kv -> word s -> is_entity_ele s = true ->
  reads (existThisTriple junk s p o) kv n T (fun b => b = true <-> (s, p, o) ∈ T).
Proof.
  intros HR Hsm Hr Hs He. unfold existThisTriple. eapply reads_bind; [by apply sub_get_ok|].
  intros r kv' Hl HR' Hr'. unfold reads.
  set (l := default [] r). assert (StronglySorted Z.le l /\ len l < W32 /\ forall x, x ∈ l <-> (s, p, x) ∈ T) as (Hsort&Hlen&Hin).
  { subst l. destruct r as [l|]; simpl in *.
    - destruct Hl as (Hi&Hne&Hin). split_and!; [by apply increasing_sorted| |done].
      pose proof (list_size_le (fun x => (s, p, x)) l T (increasing_NoDup _ Hi)) as Hle.
      unfold small in Hsm. pose proof (vs_limit_le S). assert (len l <= Z.of_nat (base.size T)); [|word_lia].
      apply Hle; [by intros ?? [=]|]. intros x. by rewrite Hin.
    - split_and!; [constructor|word_lia|]. intros x. split; [by intros ?%elem_of_nil|by intros ?%Hl]. }
  apply wpM_bind. pose proof (bsearch_int_uporder_spec l o Hsort Hlen) as Hb.
  destruct (bsearch_int_uporder o l (len l)) as [i|] eqn:E; [|done].
  eapply wpM_lift; [done|]. apply wpM_ret. split_and!; [|done|done]. rewrite <- Hin.
  destruct Hb as [(j&Hj&->)|[Hn ->]].
  - pose proof (lookup_lt_Some _ _ _ Hj). rewrite (proj2 (Z.eqb_neq _ _)) by word_lia.
    split; [|done]. intros _. by eapply list_elem_of_lookup_2.
  - rewrite Z.eqb_refl. done.
Qed.
End Spec.
