(* ===== verification/KVselect.v ===== *)
(** * The predicates between a subject and an object

    Correctness of the last step of [KVstore::getpreIDlistBysubIDobjID]: the
    common predicates of the two ends are filtered by searching the object in
    the subject's list of each. *)

From S2P Require Import Prelude Util ValueList Adjacency ValueUpdate ValueRemove ValueSpec PreList ValueRead ValueStore KVstore TripleSet KVget.

(** The predicate [p] has the object [o]. *)
Definition linked (A : adj) (o p : Z) : Prop := (p, o) ∈ pairs A.
#[global] Instance linked_dec A o p : Decision (linked A o p).
Proof. unfold linked. apply _. Defined.

Section Select.
Context (junk : nat -> Z) (A : adj) (o : Z).
Context (Hwf : wf A) (Hlen : len (encode_s A) + 3 < W32) (Hlen2 : 2 * size A < W32).

Abbreviation t := (encode_s A).
#[local] Abbreviation linked := (linked A o).

Definition mark (p : Z) : Z := if decide (linked p) then p else INVALID.

Lemma select_facts : 0 <= size A /\ len t = 3 + 2 * len A + size A.
Proof. unfold encode_s. rewrite length_layout. pose proof (size_nonneg A). simpl. lia. Qed.

Lemma key_cell A1 p l A2 : A = A1 ++ (p, l) :: A2 ->
  arr_get t (key_ix 3 (len A1)) = Some p.
Proof.
  intros HA. by apply (get_key [size A; len A; entities A] [entities A] A eq_refl
    ltac:(done) Hwf Hlen Hlen2 A1 p l A2).
Qed.

Lemma find_pre_spec A1 Aa p l Ab r :
  A = A1 ++ Aa ++ (p, l) :: Ab -> r = len A1 -> p ∉ keys Aa ->
  find_pre t (len A) p r = Some (len (A1 ++ Aa)).
Proof.
  intros HA -> Hp. pose proof select_facts. apply wp_eq. unfold find_pre.
  eapply (wp_while (fun r => exists Ba Bb, Aa = Ba ++ Bb /\ r = len (A1 ++ Ba))
            (fun r => Z.to_nat (len A - r))).
  - exists [], Aa. by rewrite app_nil_r.
  - lia.
  - intros r (Ba&Bb&->&->). assert (len A = len A1 + (len Ba + len Bb) + 1 + len Ab) by (subst A; len_lia).
    rewrite (proj2 (Z.ltb_lt _ _)) by len_lia. destruct Bb as [|[q l'] Bb].
    + eapply wp_get.
      { apply (key_cell (A1 ++ Ba) p l Ab). by rewrite HA, app_nil_r, <- app_assoc. }
      cbn [wp]. rewrite Z.eqb_refl. cbn [negb]. by rewrite app_nil_r.
    + eapply wp_get.
      { apply (key_cell (A1 ++ Ba) q l' (Bb ++ (p, l) :: Ab)). by rewrite HA, <- !app_assoc. }
      cbn [wp]. rewrite keys_app, not_elem_of_app in Hp. destruct Hp as [_ Hp].
      cbn in Hp. apply not_elem_of_cons in Hp as [Hq _].
      rewrite (proj2 (Z.eqb_neq _ _)) by done. cbn [negb wp]. wlen. split; [|len_lia].
      exists (Ba ++ [(q, l')]), Bb. rewrite <- app_assoc. split; [done|len_lia].
Qed.

(** The search of the object in the list of one predicate. *)
Lemma search_obj A1 p l Ab : A = A1 ++ (p, l) :: Ab ->
  (r ← (_offset ← arr_get t (off_ix 3 (len A1));
        _offset_next ← offset_next 3 t (size A) (len A) (len A1);
        binarySearch o (drop (Z.to_nat _offset) t) (_offset_next ⊟ _offset) 1);
   Some (r =? INVALID)) = Some (negb (bool_decide (linked p))).
Proof.
  intros HA. pose proof select_facts.
  assert (wf_entry (p, l)) as [_ Hne Hinc _].
  { pose proof Hwf as [_ He]. rewrite Forall_forall in He. apply He. subst A. set_solver. }
  assert (linked p <-> o ∈ l) as Hlink.
  { unfold linked. rewrite elem_of_pairs_find by done.
    assert (adj_find p A = Some l) as -> by (apply adj_find_Some; [done|subst A; set_solver]).
    naive_solver. }
  pose proof (size_app A1 ((p, l) :: Ab)) as Hs. rewrite <- HA, size_cons in Hs. cbn [snd] in Hs.
  pose proof (size_nonneg A1). pose proof (size_nonneg Ab).
  set (hdr := [size A; len A; entities A]) in *.
  destruct (layout_split hdr [] A A1 p l Ab HA) as [E El].
  change (encode_s A) with (layout hdr A) in *.
  pose proof (get_off hdr _ A eq_refl ltac:(done) Hwf Hlen Hlen2 A1 p l Ab HA) as Ho.
  pose proof (offset_next_spec hdr _ A eq_refl ltac:(done) Hwf Hlen Hlen2 A1 p l Ab HA) as Hn.
  change (len hdr) with 3 in *. rewrite Ho. cbn [mbind option_bind]. rewrite Hn. cbn [mbind option_bind].
  assert (drop (Z.to_nat (3 + 2 * len A + size A1)) (layout hdr A) = l ++ body Ab) as ->.
  { rewrite E, <- El, Nat2Z.id. apply drop_app_length. }
  replace (3 + 2 * len A + size A1 + len l ⊟ (3 + 2 * len A + size A1)) with (len l) by (wlen; lia).
  assert (forall k : nat, (k < length l)%nat -> arr_get (l ++ body Ab) (1 * Z.of_nat k) = l !! k) as Hc.
  { intros k Hk. rewrite Z.mul_1_l, arr_get_nat, lookup_app_l; done. }
  assert (0 < len l) by (destruct l; [done|len_lia]).
  case_bool_decide as Hl.
  - apply Hlink in Hl as (i&Hi)%list_elem_of_lookup. pose proof (lookup_lt_Some _ _ _ Hi).
    rewrite (binarySearch_found _ l 1 Hinc Hc o i) by (done || word_lia). cbn [mbind option_bind].
    by rewrite (proj2 (Z.eqb_neq _ _)) by word_lia.
  - rewrite (binarySearch_missing _ l 1 Hinc Hc o); [done|word_lia|]. by rewrite <- Hlink.
Qed.

(** The state after the first predicates [la] have been checked. *)
Lemma check_preds_spec l :
  increasing l -> (forall p, p ∈ l -> p ∈ keys A) -> len l < W32 ->
  wp (check_preds t (size A) (len A) o (len l) l) (fun '(_, _, l', n) =>
    l' = mark <$> l /\ n = len (filter linked l)).
Proof.
  intros Hinc Hsub Hl32. pose proof select_facts. unfold check_preds.
  eapply (wp_while (fun '(i, r, l', n) => exists la lb A1 A2, l = la ++ lb /\ A = A1 ++ A2 /\
            (forall p, p ∈ lb -> p ∈ keys A2) /\ i = len la /\ r = len A1 /\
            l' = (mark <$> la) ++ lb /\ n = len (filter linked la) + len lb)
          (fun '(i, _, _, _) => Z.to_nat (len l - i))).
  - exists [], l, [], A. split_and!; done.
  - lia.
  - intros [[[i r] l'] n] (la&lb&A1&A2&Hl&HA&Hlb&->&->&->&->). cbn [wp].
    assert (len l = len la + len lb) as Hll by (subst l; len_lia).
    destruct (Z.ltb_spec (len la) (len l)); cycle 1.
    { destruct lb; [|len_lia]. rewrite app_nil_r in *. subst l. split; [done|]. simpl. lia. }
    destruct lb as [|p lb]; [len_lia|]. len_simp.
    eapply wp_get; [apply arr_get_app_mid; by rewrite length_fmap|].
    assert (p ∈ keys A2) as Hp by (apply Hlb; left).
    destruct (wf_app A1 A2) as (_&Hwf2&_); [by rewrite <- HA|].
    destruct (adj_present p A2 Hwf2 Hp) as (Aa&lp&Ab&->&_).
    assert (p ∉ keys Aa) as Hpa.
    { destruct (wf_app Aa _ Hwf2) as (_&_&Hlt). intros Hin. specialize (Hlt p p Hin ltac:(left)). lia. }
    erewrite find_pre_spec; [|exact HA|done|done]. cbn [mbind option_bind].
    assert (len A = len A1 + (len Aa + (1 + len Ab))) by (subst A; len_lia).
    rewrite (proj2 (Z.eqb_neq _ _)) by len_lia.
    pose proof (search_obj (A1 ++ Aa) p lp Ab ltac:(by rewrite <- app_assoc)) as Hso.
    assert (forall q, q ∈ lb -> q ∈ keys ((p, lp) :: Ab)) as Hlb'.
    { intros q Hq. assert (q ∈ keys (Aa ++ (p, lp) :: Ab)) as Hk by (apply Hlb; by right).
      rewrite keys_app in Hk. apply elem_of_app in Hk as [Hk|Hk]; [|done].
      destruct (wf_app Aa _ Hwf2) as (_&_&Hlt). specialize (Hlt q p Hk ltac:(left)).
      rewrite Hl in Hinc. apply increasing_app in Hinc as (_&Hinc&_).
      inversion Hinc as [|?? _ Hf]; subst. rewrite Forall_forall in Hf. specialize (Hf q Hq). lia. }
    destruct (arr_get t (off_ix 3 (len (A1 ++ Aa)))) as [off|]; [|done]. cbn [mbind option_bind] in *.
    destruct (offset_next 3 t (size A) (len A) (len (A1 ++ Aa))) as [nx|]; [|done].
    cbn [mbind option_bind] in *. destruct (binarySearch _ _ _ _) as [r|]; [|done].
    cbn [mbind option_bind] in *. injection Hso as ->.
    assert (length (filter linked la) <= length la)%nat as Hfl by apply length_filter.
    case_bool_decide as Hlk; cbn [negb].
    + cbn [mbind option_bind wp]. wlen. split; [|len_lia].
      exists (la ++ [p]), lb, (A1 ++ Aa), ((p, lp) :: Ab). rewrite <- !app_assoc.
      split_and!; [done|done|done|len_lia|done| |].
      * rewrite fmap_app, <- app_assoc. cbn. by rewrite (decide_True _ _ Hlk : mark p = p).
      * rewrite filter_app, (filter_cons_True linked) by done. len_lia.
    + rewrite arr_set_app_mid by (by rewrite length_fmap). cbn [mbind option_bind wp]. wlen.
      split; [|len_lia].
      exists (la ++ [p]), lb, (A1 ++ Aa), ((p, lp) :: Ab). rewrite <- !app_assoc.
      split_and!; [done|done|done|len_lia|done| |].
      * rewrite fmap_app, <- app_assoc. cbn. by rewrite (decide_False _ _ Hlk : mark p = INVALID).
      * rewrite filter_app, (filter_cons_False linked) by done. len_lia.
Qed.

Lemma keep_valid_spec l :
  (forall p, p ∈ l -> p <> INVALID) -> len l < W32 ->
  keep_valid junk (len l) (len (filter linked l)) (mark <$> l) = Some (filter linked l).
Proof.
  intros Hl Hl32. apply wp_eq. unfold keep_valid. apply wp_bind.
  eapply (wp_while (fun '(i, j, out) => exists la lb, l = la ++ lb /\ i = len la /\
            j = len (filter linked la) /\ filled (filter linked la) (len (filter linked l)) out)
          (fun '(i, _, _) => Z.to_nat (len l - i))).
  - exists [], l. split_and!; [done..|]. apply filled_new. lia.
  - lia.
  - intros [[i j] out] (la&lb&E&->&->&Hf). cbn [wp].
    assert (length (filter linked la) <= length la)%nat as Hfl by apply length_filter.
    destruct (Z.ltb_spec (len la) (len l)); cycle 1.
    { destruct lb; [|subst l; len_lia]. rewrite app_nil_r in E. subst la. by eapply filled_full. }
    destruct lb as [|p lb]; [subst l; len_lia|]. assert (p <> INVALID) by (apply Hl; subst l; set_solver).
    eapply wp_get.
    { rewrite E, fmap_app. cbn. apply arr_get_app_mid. by rewrite length_fmap. }
    unfold mark. destruct (decide (linked p)) as [Hp|Hp].
    + rewrite (proj2 (Z.eqb_neq _ _)) by done. cbn [negb].
      eapply wp_emit; [exact Hf|done| |].
      { rewrite E, filter_app, (filter_cons_True linked) by done. len_lia. }
      intros v Hv. cbn [wp]. wlen. split; [|lia]. exists (la ++ [p]), lb. rewrite <- app_assoc.
      rewrite filter_app, (filter_cons_True linked) by done. split_and!; [done|len_lia..|done].
    + rewrite Z.eqb_refl. cbn [negb wp]. wlen. split; [|lia]. exists (la ++ [p]), lb.
      rewrite <- app_assoc, filter_app, (filter_cons_False linked) by done. rewrite app_nil_r.
      split_and!; [done|len_lia|done|done].
Qed.

Lemma select_preds_spec l :
  increasing l -> (forall p, p ∈ l -> p ∈ keys A) -> (forall p, p ∈ l -> p <> INVALID) ->
  len l < W32 ->
  select_preds junk t o l = Some (match filter linked l with [] => None | l' => Some l' end).
Proof.
  intros Hinc Hsub Hne Hl. unfold select_preds.
  assert (arr_get t 0 = Some (size A)) as -> by done. cbn [mbind option_bind].
  assert (arr_get t 1 = Some (len A)) as -> by done. cbn [mbind option_bind].
  apply wp_eq, wp_bind. eapply wp_mono; [|by apply check_preds_spec].
  intros [[[i r] l'] n] [-> ->].
  destruct (filter linked l) as [|p l'] eqn:E; [done|].
  rewrite (proj2 (Z.eqb_neq _ _)) by len_lia. rewrite <- E, keep_valid_spec by done. done.
Qed.
End Select.

Section Spec.
Context {S : Type} `{VSL : ValueStoreLaws S} (junk : nat -> Z).

Lemma select_ok (kv : KVstore S) n T s o :
  represents kv T -> small (vs_limit S) T -> kv_room (3 + n) kv -> word s -> is_entity_ele s = true ->
  word o -> o <> INVALID_ENTITY_LITERAL_ID -> (forall s p o, (s, p, o) ∈ T -> p <> INVALID) ->
  reads (getpreIDlistBysubIDobjID junk s o) kv n T (fun r => lists r (fun p => (s, p, o) ∈ T)).
Proof.
  intros HR Hsm Hr Hs He Ho Hoi HT. unfold getpreIDlistBysubIDobjID.
  assert (forall j (kv' : KVstore S), kv_room (Datatypes.S j) kv' -> kv_room j kv') as Hle.
  { intros j kv' Hj sl. apply vs_room_le, Hj. }
  eapply (reads_bind _ _ _ (2 + n)); [by apply sub_keys_ok|].
  intros [l1|] kv1 Hl1 HR1 Hr1; cycle 1.
  { apply reads_ret; [done|by do 2 apply Hle|]. intros p Hp. apply (Hl1 p). by exists o. }
  eapply (reads_bind _ _ _ (1 + n)); [by apply obj_keys_ok|].
  intros [l2|] kv2 Hl2 HR2 Hr2; cycle 1.
  { apply reads_ret; [done|by apply Hle|]. intros p Hp. apply (Hl2 p). by exists s. }
  destruct Hl1 as (Hi1&_&Hin1), Hl2 as (Hi2&_&Hin2).
  assert (forall l, increasing l -> (forall p, p ∈ l -> exists o, (s, p, o) ∈ T) -> len l < W32) as Hlen.
  { intros l Hi Hl. destruct (rep_sub _ _ HR s Hs) as (A&Hwf&HA&_).
    pose proof (sub_small T Hsm s A Hwf HA). pose proof (wf_size A Hwf).
    assert (len l <= len (keys A)); [|rewrite length_keys in *; word_lia].
    apply inj_le, NoDup_incl_length'; [by apply increasing_NoDup|]. intros p Hp.
    apply elem_of_keys; [done|]. setoid_rewrite HA. auto. }
  assert (len l1 < W32) by (apply Hlen; [done|intros p; by rewrite Hin1]).
  assert (len l2 < W32) as Hl2.
  { destruct (rep_obj _ _ HR o Ho) as (A&Hwf&HA&_).
    pose proof (obj_small T Hsm o A Hwf HA). pose proof (wf_size A Hwf).
    assert (len l2 <= len (keys A)); [|rewrite length_keys in *; word_lia].
    apply inj_le, NoDup_incl_length'; [by apply increasing_NoDup|]. intros p Hp.
    apply elem_of_keys; [done|]. setoid_rewrite HA. by apply Hin2. }
  rewrite intersect_filter by done. set (l := filter (fun x => x ∈ l2) l1).
  assert (forall p, p ∈ l <-> p ∈ l1 /\ p ∈ l2) as Hin.
  { intros p. subst l. rewrite list_elem_of_filter. tauto. }
  unfold reads. apply wpM_bind. eapply wpM_lift; [done|].
  destruct (Z.eqb_spec (len l) 0) as [E|E].
  { apply wpM_ret. split_and!; [|done|by apply Hle]. intros p Hp.
    assert (p ∈ l) as Hpl. { apply Hin. rewrite Hin1, Hin2. eauto. }
    destruct l; [by apply elem_of_nil in Hpl|len_lia]. }
  assert (increasing l) as Hil by (by apply increasing_filter).
  apply (reads_bind _ _ _ n n T (fun r => lists (default None r) (fun p => (s, p, o) ∈ T))).
  - eapply (read_adj_ok encode_s s_extra 3) with (P := fun p o => (s, p, o) ∈ T)
      (f' := fun A => match filter (linked A o) l with [] => None | l' => Some l' end);
      [done..|by apply rep_sub|by apply (sub_small (S := S))| | |].
    + intros A Hwf Hne H1 H2 HA. apply select_preds_spec; try done.
      * intros p Hp. apply elem_of_keys; [done|]. setoid_rewrite HA. by apply Hin1, Hin.
      * intros p Hp. apply Hin in Hp as [(o'&Hp)%Hin1 _]. by eapply HT.
      * apply Hlen; [done|]. intros p Hp. by apply Hin1, Hin.
    + intros Hn p. apply Hn.
    + intros A Hwf Hne HA. assert (forall p, p ∈ filter (linked A o) l <-> (s, p, o) ∈ T) as Hf.
      { intros p. rewrite list_elem_of_filter. unfold linked. rewrite HA, Hin, Hin1, Hin2. naive_solver. }
      cbn [default]. destruct (filter (linked A o) l) as [|p l'] eqn:Ef; simpl.
      * intros p Hp%Hf. by apply elem_of_nil in Hp.
      * split_and!; [rewrite <- Ef; by apply increasing_filter|done|done].
  - intros r kv' HQ HR' Hr'. by apply reads_ret.
Qed.
End Spec.
