(* ===== verification/KVtheorems.v ===== *)
(** * Theorems about the triple store

    The correctness of the value indexes of [KVstore], stated for every store
    that satisfies the interface [ValueStoreLaws]; the witnesses run on finite
    maps. *)

From S2P Require Import Prelude Util ValueList Adjacency ValueUpdate ValueRemove ValueSpec PreList ValueRead ValueStore KVstore TripleSet KVget KVselect.

(** The store with no triple, over finite maps, and fresh memory that holds
    arbitrary values. *)
Definition map_kv : Type := KVstore (gmap Z (list Z)).
Definition empty_kv : map_kv := mkKV ∅ ∅ ∅ ∅.
Definition some_junk (n : nat) : Z := Z.of_nat n * 7 + 3.

Lemma empty_lookup a k : kv_lookup empty_kv a k = None.
Proof. unfold kv_lookup. destruct a; simpl; try destruct (is_literal_ele k); simpl; apply lookup_empty. Qed.

Lemma empty_represents : represents empty_kv ∅.
Proof.
  split.
  - intros s Hs. exists []. split_and!; [by repeat constructor| |apply empty_lookup].
    intros p x. split; [by intros ?%elem_of_nil|set_solver].
  - intros o Ho. exists []. split_and!; [by repeat constructor| |apply empty_lookup].
    intros p x. split; [by intros ?%elem_of_nil|set_solver].
  - intros p Hp. exists []. split_and!; [constructor|constructor| |apply empty_lookup].
    intros s o. split; [by intros ?%elem_of_nil|set_solver].
Qed.

Lemma map_room n (kv : map_kv) : kv_room n kv.
Proof. by intros []. Qed.

Lemma stored_inv {X} (enc : list X -> list Z) l : stored enc l = None -> l = [].
Proof. by destruct l. Qed.

(** ** Updates *)

Section Updates.
Context {S : Type} `{VSL : ValueStoreLaws S} (junk : nat -> Z).

(** Inserting a triple that is not in the store succeeds, and the three
    indexes then hold exactly the old triples and the new one. *)
Theorem triple_insert_refines (kv : KVstore S) (T : triples) (s p o : Z) (n : nat) :
  represents kv T -> triple_ok (s, p, o) -> (s, p, o) ∉ T -> small (vs_limit S) T -> kv_room (6 + n) kv ->
  exists kv', updateTupleslist_insert junk s p o kv = Some (true, kv') /\
    represents kv' ({[(s, p, o)]} ∪ T) /\ kv_room n kv'.
Proof.
  intros HR Hok Hn Hsm Hr.
  destruct (wpM_inv _ _ _ (insert_represents junk kv n T s p o HR Hok Hn Hsm Hr)) as (r&kv'&E&->&H).
  by exists kv'.
Qed.

(** Removing a triple of the store succeeds, and the three indexes then
    hold exactly the other triples. *)
Theorem triple_remove_refines (kv : KVstore S) (T : triples) (s p o : Z) (n : nat) :
  represents kv T -> triple_ok (s, p, o) -> (s, p, o) ∈ T -> small (vs_limit S) T -> kv_room (6 + n) kv ->
  exists kv', updateTupleslist_remove junk s p o kv = Some (true, kv') /\
    represents kv' (T ∖ {[(s, p, o)]}) /\ kv_room n kv'.
Proof.
  intros HR Hok Hn Hsm Hr.
  destruct (wpM_inv _ _ _ (remove_represents junk kv n T s p o HR Hok Hn Hsm Hr)) as (r&kv'&E&->&H).
  by exists kv'.
Qed.

(** C23. Any sequence of allowed insertions and removals runs to its end on the
    store and leaves it representing the set computed by the same sequence. *)
Theorem updates_refine (kv : KVstore S) (T : triples) (us : list update) :
  represents kv T -> updates_allowed (vs_limit S) T us -> kv_room (6 * length us) kv ->
  exists kv', run_updates junk us kv = Some (true, kv') /\
    represents kv' (foldl apply_update T us).
Proof.
  intros HR Hus Hr.
  destruct (wpM_inv _ _ _ (run_updates_represents junk us kv T HR Hus Hr)) as (r&kv'&E&->&H).
  by exists kv'.
Qed.

(** Removing a triple of a subject that has none fails before any index is
    changed: the call returns [false] and the same triples are represented. *)
Theorem remove_unknown_subject (kv : KVstore S) (T : triples) (s p o : Z) (n : nat) :
  represents kv T -> word s -> (forall p' o', (s, p', o') ∉ T) -> kv_room (1 + n) kv ->
  exists kv', updateTupleslist_remove junk s p o kv = Some (false, kv') /\
    represents kv' T /\ kv_room n kv'.
Proof.
  intros HR Hs Hn Hr. destruct (rep_sub _ _ HR s Hs) as (A&Hwf&HA&Hl).
  assert (A = []) as ->.
  { destruct A as [|e A]; [done|]. destruct (proj1 (elem_of_keys (e :: A) e.1 Hwf) ltac:(left)) as [x Hx].
    exfalso. by apply (Hn e.1 x), HA. }
  assert (wpM (updateTupleslist_remove junk s p o) kv
    (fun r kv' => r = false /\ represents kv' T /\ kv_room n kv')) as Hwp.
  { unfold updateTupleslist_remove, andM. apply wpM_bind. unfold updateRemove_s2values. apply wpM_bind.
    eapply getValueByKey_ok; [exact Hr|done|]. intros kv' He Hr'. rewrite Hl. simpl.
    apply wpM_ret. split_and!; [done|by eapply represents_ext|done]. }
  destruct (wpM_inv _ _ _ Hwp) as (r&kv'&E&->&H). by exists kv'.
Qed.
End Updates.

(** The triples of the witnesses: an entity and a literal object. *)
Definition t1 : triple := (5, 1, 7).
Definition t2 : triple := (5, 1, 2000000003).

Lemma t_ok : triple_ok t1 /\ triple_ok t2.
Proof. unfold triple_ok, t1, t2, key_ok, word. split_and!; by vm_compute. Qed.

Lemma small_two : small W32 {[t1; t2]}.
Proof. by vm_compute. Qed.

Lemma small_one : small W32 {[t1]}.
Proof. by vm_compute. Qed.

Lemma small_none : small W32 ∅.
Proof. by vm_compute. Qed.

(** The store after the insertion of both. *)
Lemma two_updates_allowed : updates_allowed W32 ∅ [Insert t1; Insert t2].
Proof.
  destruct t_ok. cbn [updates_allowed apply_update]. unfold update_allowed. cbn [update_triple].
  split_and!; [done|apply small_none|set_solver|done| |set_solver|done].
  rewrite union_empty_r_L. apply small_one.
Qed.

Definition two_kv : map_kv :=
  match run_updates some_junk [Insert t1; Insert t2] empty_kv with
  | Some (_, kv) => kv
  | None => empty_kv
  end.

Lemma two_represents : represents two_kv {[t1; t2]}.
Proof.
  destruct (wpM_inv _ _ _ (run_updates_represents some_junk [Insert t1; Insert t2] empty_kv ∅
    empty_represents two_updates_allowed (map_room _ _))) as (r&kv&E&_&HR).
  unfold two_kv. rewrite E. cbn [foldl apply_update] in HR. rewrite union_empty_r_L in HR.
  by rewrite union_comm_L in HR.
Qed.

Lemma triple_insert_refines_witness :
  exists kv', updateTupleslist_insert some_junk 5 1 7 empty_kv = Some (true, kv') /\
    represents kv' ({[(5, 1, 7)]} ∪ ∅) /\ kv_room 0 kv'.
Proof.
  apply (triple_insert_refines some_junk empty_kv ∅ 5 1 7 0);
    [apply empty_represents|apply t_ok|set_solver|apply small_none|apply map_room].
Defined.

Lemma triple_remove_refines_witness :
  exists kv', updateTupleslist_remove some_junk 5 1 7 two_kv = Some (true, kv') /\
    represents kv' ({[t1; t2]} ∖ {[(5, 1, 7)]}) /\ kv_room 0 kv'.
Proof.
  apply (triple_remove_refines some_junk two_kv {[t1; t2]} 5 1 7 0);
    [apply two_represents|apply t_ok|set_solver|apply small_two|apply map_room].
Defined.

Lemma updates_refine_witness :
  exists kv', run_updates some_junk [Insert t1; Insert t2] empty_kv = Some (true, kv') /\
    represents kv' (foldl apply_update ∅ [Insert t1; Insert t2]).
Proof.
  apply (updates_refine some_junk empty_kv ∅ [Insert t1; Insert t2]);
    [apply empty_represents|apply two_updates_allowed|apply map_room].
Defined.

Lemma remove_unknown_subject_witness :
  exists kv', updateTupleslist_remove some_junk 6 1 7 two_kv = Some (false, kv') /\
    represents kv' {[t1; t2]} /\ kv_room 0 kv'.
Proof.
  apply (remove_unknown_subject some_junk two_kv {[t1; t2]} 6 1 7 0);
    [apply two_represents|by vm_compute|set_solver|apply map_room].
Defined.

(** ** Queries *)

Lemma set_size_list {X} (f : X -> triple) (l : list X) (U : triples) :
  NoDup l -> (forall x y, f x = f y -> x = y) -> (forall t, t ∈ U <-> exists x, x ∈ l /\ t = f x) ->
  Z.of_nat (base.size U) = len l.
Proof.
  intros Hnd Hinj HU. rewrite <- (length_fmap f l).
  rewrite <- (size_list_to_set (C := triples) (f <$> l)) by (apply NoDup_fmap_2; [exact Hinj|done]).
  f_equal. assert (U = list_to_set (f <$> l)) as ->; [|done].
  apply set_eq. intros t. rewrite HU, elem_of_list_to_set, list_elem_of_fmap. naive_solver.
Qed.

Section Queries.
Context {S : Type} `{VSL : ValueStoreLaws S} (junk : nat -> Z).

(** [existThisTriple] decides membership of a triple with an entity as
    subject, and leaves the store alone. *)
Theorem existThisTriple_correct (kv : KVstore S) (T : triples) (s p o : Z) (n : nat) :
  represents kv T -> small (vs_limit S) T -> kv_room (1 + n) kv -> word s -> is_entity_ele s = true ->
  exists kv', existThisTriple junk s p o kv = Some (bool_decide ((s, p, o) ∈ T), kv') /\
    represents kv' T /\ kv_room n kv'.
Proof.
  intros HR Hsm Hr Hs He. destruct (wpM_inv _ _ _ (exist_ok junk kv n T s p o HR Hsm Hr Hs He))
    as (r&kv'&E&Hb&H). exists kv'. split; [|done]. rewrite E. do 2 f_equal.
  destruct r; case_bool_decide; naive_solver.
Qed.

(** C27. The getters keyed by a subject return the predicates, the objects, the
    objects of one predicate, and the (predicate, object) pairs of the subject
    in the represented set: in increasing order, without repetition, and
    [false] exactly when there are none. *)
Theorem subject_getters_correct (kv : KVstore S) (T : triples) (s p : Z) (n : nat) :
  represents kv T -> small (vs_limit S) T -> kv_room (1 + n) kv -> word s -> is_entity_ele s = true ->
  reads (getpreIDlistBysubID junk s) kv n T (fun r => lists r (fun p => exists o, (s, p, o) ∈ T)) /\
  reads (getobjIDlistBysubID junk s true) kv n T (fun r => lists r (fun o => exists p, (s, p, o) ∈ T)) /\
  reads (getobjIDlistBysubIDpreID junk s p) kv n T (fun r => lists r (fun o => (s, p, o) ∈ T)) /\
  reads (getpreIDobjIDlistBysubID junk s) kv n T (fun r => lists_pairs r (fun p o => (s, p, o) ∈ T)).
Proof.
  intros HR Hsm Hr Hs He. split_and!; [by apply sub_keys_ok| |by apply sub_get_ok|].
  - unfold getobjIDlistBysubID. rewrite He.
    by eapply (read_all_ok junk encode_s s_extra 3) with (P := fun p o => (s, p, o) ∈ T) (b := true);
      [done|done|done|done|done|done|apply rep_sub|apply (sub_small (S := S))].
  - unfold getpreIDobjIDlistBysubID. rewrite He.
    by eapply (read_pairs_ok junk encode_s s_extra 3) with (P := fun p o => (s, p, o) ∈ T);
      [done|done|done|done|done|done|apply rep_sub|apply (sub_small (S := S))].
Qed.

(** The getters keyed by an object, entity or literal, likewise. *)
Theorem object_getters_correct (kv : KVstore S) (T : triples) (p o : Z) (n : nat) :
  represents kv T -> small (vs_limit S) T -> kv_room (1 + n) kv -> word o -> o <> INVALID_ENTITY_LITERAL_ID ->
  reads (getpreIDlistByobjID junk o) kv n T (fun r => lists r (fun p => exists s, (s, p, o) ∈ T)) /\
  reads (getsubIDlistByobjID junk o true) kv n T (fun r => lists r (fun s => exists p, (s, p, o) ∈ T)) /\
  reads (getsubIDlistByobjIDpreID junk o p) kv n T (fun r => lists r (fun s => (s, p, o) ∈ T)) /\
  reads (getpreIDsubIDlistByobjID junk o) kv n T (fun r => lists_pairs r (fun p s => (s, p, o) ∈ T)).
Proof.
  intros HR Hsm Hr Ho Hi. assert ((o =? INVALID_ENTITY_LITERAL_ID) = false) as Ei by lia.
  split_and!; [by apply obj_keys_ok|..].
  - unfold getsubIDlistByobjID. rewrite Ei.
    by eapply (read_all_ok junk encode_o o_extra 2) with (P := fun p s => (s, p, o) ∈ T) (b := true);
      [done|done|done|done|done|done|apply rep_obj|apply (obj_small (S := S))].
  - unfold getsubIDlistByobjIDpreID. rewrite Ei.
    by eapply (read_list_ok junk encode_o o_extra 2) with (P := fun p s => (s, p, o) ∈ T);
      [done|done|done|done|done|done|apply rep_obj|apply (obj_small (S := S))].
  - unfold getpreIDsubIDlistByobjID. rewrite Ei.
    by eapply (read_pairs_ok junk encode_o o_extra 2) with (P := fun p s => (s, p, o) ∈ T);
      [done|done|done|done|done|done|apply rep_obj|apply (obj_small (S := S))].
Qed.

(** C28. The getters keyed by a predicate return its subjects, its objects and
    its (subject, object) pairs. *)
Theorem predicate_getters_correct (kv : KVstore S) (T : triples) (p : Z) (n : nat) :
  represents kv T -> small (vs_limit S) T -> kv_room (1 + n) kv -> word p ->
  reads (getsubIDlistBypreID junk p true) kv n T (fun r => lists r (fun s => exists o, (s, p, o) ∈ T)) /\
  reads (getobjIDlistBypreID junk p true) kv n T (fun r => lists r (fun o => exists s, (s, p, o) ∈ T)) /\
  reads (getsubIDobjIDlistBypreID junk p) kv n T (fun r => lists_pairs r (fun s o => (s, p, o) ∈ T)).
Proof.
  intros HR Hsm Hr Hp. split_and!;
    [eapply (read_subs_ok junk) with (P := fun s o => (s, p, o) ∈ T)
    |eapply (read_objs_ok junk) with (P := fun s o => (s, p, o) ∈ T)
    |eapply (read_p2pairs_ok junk) with (P := fun s o => (s, p, o) ∈ T)];
    try done; try (by apply rep_pre); by apply (pre_small (S := S)).
Qed.

(** [getpreIDlistBysubIDobjID] returns exactly the predicates that link
    the subject to the object. *)
Theorem linking_predicates_correct (kv : KVstore S) (T : triples) (s o : Z) (n : nat) :
  represents kv T -> small (vs_limit S) T -> kv_room (3 + n) kv -> word s -> is_entity_ele s = true ->
  word o -> o <> INVALID_ENTITY_LITERAL_ID -> (forall s p o, (s, p, o) ∈ T -> p <> INVALID) ->
  reads (getpreIDlistBysubIDobjID junk s o) kv n T (fun r => lists r (fun p => (s, p, o) ∈ T)).
Proof. intros. by apply select_ok. Qed.

(** The number of triples of [T] that satisfy [P]. *)
Definition count (T : triples) (P : triple -> Prop) `{!forall t, Decision (P t)} : Z :=
  Z.of_nat (base.size (filter P T)).

Lemma degree_adj_ok (enc extra : adj -> list Z) (h : Z) (kv : KVstore S) (a : array) (k : Z) (n : nat) (T : triples) (P : Z -> Z -> Prop)
    (f : Z * Z -> triple) (C : triple -> Prop) `{!forall t, Decision (C t)} :
  (forall A, enc A = layout (size A :: len A :: extra A) A) -> (forall A, len (extra A) <= 1) ->
  (forall A, h = len (size A :: len A :: extra A)) ->
  kv_room (1 + n) kv -> word k -> represents kv T -> holds_adj enc kv a k P ->
  (forall A, wf A -> (forall p x, (p, x) ∈ pairs A <-> P p x) -> 12 * size A + 24 < W32) ->
  (forall x y, f x = f y -> x = y) ->
  (forall t, t ∈ T /\ C t <-> exists x, P x.1 x.2 /\ t = f x) ->
  reads (degree a k) kv n T (fun d => d = count T C).
Proof.
  intros Henc Hex Hh Hr Hk HR HP Hsz Hinj HC. unfold degree.
  eapply reads_bind; [eapply (read_adj_ok enc extra h) with (P := P) (f' := size)
    (Q := fun r => default 0 r = count T C); try done|].
  - intros A Hwf Hne H1 H2 HA. by rewrite Henc.
  - intros Hn. simpl. symmetry. apply (set_size_list f []); [constructor|done|].
    intros t. rewrite elem_of_filter, (comm and), HC. split.
    + intros ([p x]&Hx&_). by apply Hn in Hx.
    + intros (x&Hx&_). by apply elem_of_nil in Hx.
  - intros A Hwf Hne HA. simpl. symmetry. unfold count.
    rewrite (set_size_list f (pairs A)); [apply length_pairs|by apply NoDup_pairs|done|].
    intros t. rewrite elem_of_filter, (comm and), HC. split.
    + intros ([p x]&Hx&->). exists (p, x). by rewrite HA.
    + intros ([p x]&Hx&->). exists (p, x). by rewrite <- HA.
  - intros r kv' -> HR' Hr'. by apply reads_ret.
Qed.

(** The degrees are the numbers of triples: of an object, of a subject, of
    a predicate. *)
Theorem degrees_correct (kv : KVstore S) (T : triples) (e p : Z) (n : nat) :
  represents kv T -> small (vs_limit S) T -> kv_room (1 + n) kv -> word e -> word p ->
  reads (getEntityInDegree e) kv n T (fun d => d = count T (fun t => t.2 = e)) /\
  reads (getLiteralDegree e) kv n T (fun d => d = count T (fun t => t.2 = e)) /\
  reads (getEntityOutDegree e) kv n T (fun d => d = count T (fun t => t.1.1 = e)) /\
  reads (getPredicateDegree p) kv n T (fun d => d = count T (fun t => t.1.2 = p)).
Proof.
  intros HR Hsm Hr He Hp.
  assert (reads (degree Obj e) kv n T (fun d => d = count T (fun t => t.2 = e))) as Hobj.
  { eapply (degree_adj_ok encode_o o_extra 2) with (P := fun p s => (s, p, e) ∈ T)
      (f := fun x => (x.2, x.1, e)); try done; [by apply rep_obj|by apply (obj_small (S := S))| |].
    - by intros [] [] [= -> ->].
    - intros [[s' p'] o']. simpl. split; [intros [? ->]; by exists (p', s')|].
      intros ([p'' s'']&?&[= -> -> ->]). done. }
  split_and!; [exact Hobj|exact Hobj| |].
  - eapply (degree_adj_ok encode_s s_extra 3) with (P := fun p o => (e, p, o) ∈ T)
      (f := fun x => (e, x.1, x.2)); try done; [by apply rep_sub|by apply (sub_small (S := S))| |].
    + by intros [] [] [= -> ->].
    + intros [[s' p'] o']. simpl. split; [intros [? ->]; by exists (p', o')|].
      intros ([p'' s'']&?&[= -> -> ->]). done.
  - unfold getPredicateDegree, degree. eapply reads_bind;
      [eapply (read_p2_ok kv p n T (fun s o => (s, p, o) ∈ T)) with (f' := fun L => len L)
        (Q := fun r => default 0 r = count T (fun t => t.1.2 = p)); try done;
        [by apply rep_pre|by apply (pre_small (S := S))|..]|].
    + intros Hn. simpl. symmetry. apply (set_size_list (fun x => (x.1, p, x.2)) []); [constructor| |].
      * by intros [] [] [= -> ->].
      * intros [[s' p'] o']. rewrite elem_of_filter. simpl. split.
        -- intros [-> Hin]. by apply Hn in Hin.
        -- intros (x&Hx&_). by apply elem_of_nil in Hx.
    + intros L Hs Hne HL. simpl. symmetry.
      apply (set_size_list (fun x => (x.1, p, x.2)) L); [by apply lex_sorted_NoDup|by intros [] [] [= -> ->]|].
      intros [[s' p'] o']. rewrite elem_of_filter. simpl. split.
      * intros [-> Hin]. exists (s', o'). by rewrite HL.
      * intros ([s'' o'']&Hx&[= -> -> ->]). by rewrite <- HL.
    + intros r kv' -> HR' Hr'. by apply reads_ret.
Qed.
End Queries.

Lemma two_word : word 5 /\ word 1 /\ word 7 /\ word 2000000003.
Proof. unfold word, W32. lia. Qed.

Lemma existThisTriple_witness :
  exists kv', existThisTriple some_junk 5 1 7 two_kv = Some (bool_decide ((5, 1, 7) ∈ ({[t1; t2]} : triples)), kv') /\
    represents kv' {[t1; t2]} /\ kv_room 0 kv'.
Proof.
  apply (existThisTriple_correct some_junk two_kv {[t1; t2]} 5 1 7 0);
    [apply two_represents|apply small_two|apply map_room|apply two_word|reflexivity].
Defined.

Lemma subject_getters_witness :
  reads (getobjIDlistBysubIDpreID some_junk 5 1) two_kv 0 {[t1; t2]}
    (fun r => lists r (fun o => (5, 1, o) ∈ ({[t1; t2]} : triples))).
Proof.
  destruct (subject_getters_correct some_junk two_kv {[t1; t2]} 5 1 0 two_represents small_two
    (map_room _ _) (proj1 two_word) eq_refl) as (_&_&H&_). exact H.
Defined.

Lemma object_getters_witness :
  reads (getsubIDlistByobjIDpreID some_junk 2000000003 1) two_kv 0 {[t1; t2]}
    (fun r => lists r (fun s => (s, 1, 2000000003) ∈ ({[t1; t2]} : triples))).
Proof.
  destruct two_word as (_&_&_&Hw).
  destruct (object_getters_correct some_junk two_kv {[t1; t2]} 1 2000000003 0 two_represents
    small_two (map_room _ _) Hw ltac:(done)) as (_&_&H&_). exact H.
Defined.

Lemma predicate_getters_witness :
  reads (getsubIDobjIDlistBypreID some_junk 1) two_kv 0 {[t1; t2]}
    (fun r => lists_pairs r (fun s o => (s, 1, o) ∈ ({[t1; t2]} : triples))).
Proof.
  destruct two_word as (_&Hw&_).
  destruct (predicate_getters_correct some_junk two_kv {[t1; t2]} 1 0 two_represents small_two
    (map_room _ _) Hw) as (_&_&H). exact H.
Defined.

Lemma linking_predicates_witness :
  reads (getpreIDlistBysubIDobjID some_junk 5 7) two_kv 0 {[t1; t2]}
    (fun r => lists r (fun p => (5, p, 7) ∈ ({[t1; t2]} : triples))).
Proof.
  apply (linking_predicates_correct some_junk two_kv {[t1; t2]} 5 7 0);
    [apply two_represents|apply small_two|apply map_room|apply two_word|reflexivity
    |apply two_word|done|].
  intros s p o. rewrite elem_of_union, !elem_of_singleton. by intros [[= -> -> ->]|[= -> -> ->]].
Defined.

Lemma degrees_witness :
  reads (getEntityOutDegree 5) two_kv 0 {[t1; t2]} (fun d => d = count {[t1; t2]} (fun t => t.1.1 = 5)).
Proof.
  destruct two_word as (Hw5&Hw1&_).
  destruct (degrees_correct two_kv {[t1; t2]} 5 1 0 two_represents small_two (map_room _ _) Hw5 Hw1)
    as (_&_&H&_). exact H.
Defined.
