(* ===== verification/KVbatch.v ===== *)
(** * Batch updates of the store

    The overloads of [KVstore::updateInsert_*values] and
    [KVstore::updateRemove_*values] that take many pairs of one key
    (KVstore/KVstore.cpp), and the part of [Database::batch_insert],
    [Database::batch_remove] and [Database::sub_batch_update]
    (Database/Database.cpp) that sorts the id tuples and hands them, grouped by
    key, to the three indexes.  The three calls of [sub_batch_update] run in
    threads of their own; each of them works on an index of its own, and they
    are taken one after the other here. *)

From S2P Require Import Prelude Util ValueList Adjacency ValueSpec PreList BatchInsert BatchRemove BatchPre ValueStore KVstore TripleSet.

(** ** Tuples of ids *)

Definition subid (t : triple) : Z := t.1.1.
Definition preid (t : triple) : Z := t.1.2.
Definition objid (t : triple) : Z := t.2.

(** [Util::spo_cmp_idtuple], [Util::pso_cmp_idtuple], [Util::ops_cmp_idtuple],
    [Util::equal]. *)
Definition spo_cmp_idtuple (a b : triple) : bool :=
  if negb (subid a =? subid b) then subid a <? subid b
  else if negb (preid a =? preid b) then preid a <? preid b
  else if negb (objid a =? objid b) then objid a <? objid b
  else false.

Definition ops_cmp_idtuple (a b : triple) : bool :=
  if negb (objid a =? objid b) then objid a <? objid b
  else if negb (preid a =? preid b) then preid a <? preid b
  else if negb (subid a =? subid b) then subid a <? subid b
  else false.

Definition pso_cmp_idtuple (a b : triple) : bool :=
  if negb (preid a =? preid b) then preid a <? preid b
  else if negb (subid a =? subid b) then subid a <? subid b
  else if negb (objid a =? objid b) then objid a <? objid b
  else false.

Definition equal (a b : triple) : bool :=
  (subid a =? subid b) && (preid a =? preid b) && (objid a =? objid b).

(** [std::sort] with a comparison that is a strict total order: the sorted
    permutation, whichever algorithm computes it. *)
Fixpoint sort_insert (cmp : triple -> triple -> bool) (t : triple) (l : list triple) : list triple :=
  match l with
  | [] => [t]
  | x :: l' => if cmp x t then x :: sort_insert cmp t l' else t :: l
  end.

Fixpoint sort_tuples (cmp : triple -> triple -> bool) (l : list triple) : list triple :=
  match l with [] => [] | t :: l' => sort_insert cmp t (sort_tuples cmp l') end.

(** [std::unique] and [erase]. *)
Fixpoint unique_tuples (l : list triple) : list triple :=
  match l with
  | [] => []
  | x :: l' =>
      match unique_tuples l' with
      | [] => [x]
      | y :: r => if equal x y then x :: r else x :: y :: r
      end
  end.

(** The tuples [Database::batch_remove] collects: the names of a triple are
    looked up, and a triple with an unknown name is skipped by [continue], which
    leaves its element of [vector<ID_TUPLE> id_tuples(_triple_num)] as it was;
    the constructor [TYPE_ID_TUPLE(){}] does not initialise it, [mem] is what the
    memory holds. *)
Definition collect_id_tuples (mem : list triple) (ids : list (option triple)) : list triple :=
  zip_with (fun m id => default m id) mem ids.

Section KV.
Context {S : Type} `{VS : ValueStore S} (enough : Z -> bool) (junk : nat -> Z).
Abbreviation KV := (KVstore S).

(** The text the three insertions share. *)
Definition insert_values_list (a : array) (ins : list Z -> list Z -> option (list Z * Z))
    (_id : Z) (_list : list Z) : M KV Z :=
  match _list with
  | [] => retM 0
  | _ =>
      let! _get := getValueByKey a _id in
      let _tmp := default [] _get in
      let! r := liftM (ins _list _tmp) in
      let '(values, update_num) := r in
      if update_num =? 0 then retM 0
      else if len _tmp =? 0 then
        let! _ := addValueByKey a _id values in retM update_num
      else
        let! _ := setValueByKey a _id values in retM update_num
  end.

Definition remove_values_list (a : array) (rm : list Z -> list Z -> option (list Z * Z))
    (_id : Z) (_list : list Z) : M KV Z :=
  match _list with
  | [] => retM 0
  | _ =>
      let! _get := getValueByKey a _id in
      let _tmp := default [] _get in
      if len _tmp =? 0 then retM 0
      else
        let! r := liftM (rm _list _tmp) in
        let '(values, update_num) := r in
        if update_num =? 0 then retM 0
        else if negb (len values =? 0) then
          let! _ := setValueByKey a _id values in retM update_num
        else
          let! _ := removeKey a _id in retM update_num
  end.

Definition updateInsert_s2values_list := insert_values_list Sub (Insert_s2values enough junk).
Definition updateInsert_o2values_list := insert_values_list Obj (Insert_o2values junk).
Definition updateInsert_p2values_list := insert_values_list Pre (Insert_p2values junk).
Definition updateRemove_s2values_list := remove_values_list Sub (Remove_s2values junk).
Definition updateRemove_o2values_list := remove_values_list Obj (Remove_o2values junk).
(** [updateRemove_p2values] leaves the test for an absent value list to
    [Remove_p2values]. *)
Definition updateRemove_p2values_list (_id : Z) (_list : list Z) : M KV Z :=
  match _list with
  | [] => retM 0
  | _ =>
      let! _get := getValueByKey Pre _id in
      let! r := liftM (Remove_p2values junk _list (default [] _get)) in
      let '(values, update_num) := r in
      if update_num =? 0 then retM 0
      else if negb (len values =? 0) then
        let! _ := setValueByKey Pre _id values in retM update_num
      else
        let! _ := removeKey Pre _id in retM update_num
  end.

(** The loop of [sub_batch_update] over tuples sorted by [key]: [data] holds the
    pairs of the key [cur]. *)
Fixpoint batch_loop {T} (key : triple -> Z) (data_of : triple -> list Z) (flush : Z -> list Z -> M T Z)
    (cur : Z) (data : list Z) (update_num : Z) (ts : list triple) : M T Z :=
  match ts with
  | [] => let! u := flush cur data in retM (update_num ⊞ u)
  | t :: ts' =>
      if key t =? cur then batch_loop key data_of flush cur (data ++ data_of t) update_num ts'
      else
        let! u := flush cur data in
        batch_loop key data_of flush (key t) (data_of t) (update_num ⊞ u) ts'
  end.

Inductive UPDATE_TYPE := SUBJECT_INSERT | SUBJECT_REMOVE | PREDICATE_INSERT | PREDICATE_REMOVE
  | OBJECT_INSERT | OBJECT_REMOVE.

(** [Database::sub_batch_update] outside of a transaction; no tuple at all is an
    access out of range. *)
Definition sub_batch_update (id_tuples : list triple) (type : UPDATE_TYPE) : M KV Z :=
  let run key data_of flush ts :=
    match ts with
    | [] => liftM None
    | t :: _ => batch_loop key data_of flush (key t) [] 0 ts
    end in
  let po t := [preid t; objid t] in
  let so t := [subid t; objid t] in
  let ps t := [preid t; subid t] in
  match type with
  | SUBJECT_INSERT => run subid po updateInsert_s2values_list id_tuples
  | SUBJECT_REMOVE => run subid po updateRemove_s2values_list id_tuples
  | PREDICATE_INSERT => run preid so updateInsert_p2values_list (sort_tuples pso_cmp_idtuple id_tuples)
  | PREDICATE_REMOVE => run preid so updateRemove_p2values_list (sort_tuples pso_cmp_idtuple id_tuples)
  | OBJECT_INSERT => run objid ps updateInsert_o2values_list (sort_tuples ops_cmp_idtuple id_tuples)
  | OBJECT_REMOVE => run objid ps updateRemove_o2values_list (sort_tuples ops_cmp_idtuple id_tuples)
  end.

(** The three passes of a batch, with the number of triples each has changed. *)
Definition batch_passes (ins : bool) (ts : list triple) : M KV (Z * Z * Z) :=
  let! update_num_s := sub_batch_update ts (if ins then SUBJECT_INSERT else SUBJECT_REMOVE) in
  let! update_num_p := sub_batch_update ts (if ins then PREDICATE_INSERT else PREDICATE_REMOVE) in
  let! update_num_o := sub_batch_update ts (if ins then OBJECT_INSERT else OBJECT_REMOVE) in
  retM (update_num_s, update_num_p, update_num_o).

(** The index updates of [Database::batch_insert] and [Database::batch_remove],
    and the number of changed triples they return. *)
Definition batch_insert (id_tuples : list triple) : M KV Z :=
  let ts := unique_tuples (sort_tuples spo_cmp_idtuple id_tuples) in
  let! r := batch_passes true ts in retM r.1.1.

Definition batch_remove (id_tuples : list triple) : M KV Z :=
  let ts := unique_tuples (sort_tuples spo_cmp_idtuple id_tuples) in
  let! r := batch_passes false ts in retM r.1.1.
End KV.
