(* ===== verification/KVbatchSpec.v ===== *)
(** * Batch updates refine updates of a set of triples *)

From S2P Require Import Prelude Util ValueList Adjacency ValueSpec PreList ValueRead BatchInsert BatchInsertSpec BatchRemove BatchRemoveSpec BatchPre BatchPreSpec ValueStore KVstore TripleSet KVbatch.

(** ** One key *)

Section Key.
Context {S : Type} `{VSL : ValueStoreLaws S} (enough : Z -> bool) (junk : nat -> Z).
Abbreviation KV := (KVstore S).
Context (Hmem : forall n, enough n = true).

(** Nothing changed. *)
Lemma kv_updated_same (kv kv' : KV) a k :
  word k -> (forall a' k', kv_lookup kv' a' k' = kv_lookup kv a' k') ->
  kv_updated kv a k (kv_lookup kv a k) kv'.
Proof. intros Hk He a' k' Hk'. rewrite He. case_decide as E; [by injection E as -> ->|done]. Qed.

Lemma insert_values_list_ok {X} (enc : list X -> list Z) l l' num ins (kv : KV) n a k data :
  kv_room (2 + n) kv -> key_ok a k -> kv_lookup kv a k = stored enc l -> data <> [] ->
  (forall l, l <> [] -> enc l <> []) -> value_ok (vs_limit S) (enc l') ->
  ins data (match l with [] => [] | _ => enc l end) = Some (enc l', num) -> l' <> [] ->
  wpM (insert_values_list a ins k data) kv (fun r kv' =>
    r = num /\ kv_updated kv a k (stored enc (if num =? 0 then l else l')) kv' /\ kv_room n kv').
Proof.
  intros Hr Hk Hl Hd Hne Hv Hins Hl'. unfold insert_values_list. destruct data as [|d data]; [done|].
  apply wpM_bind. eapply getValueByKey_ok; [exact Hr|apply Hk|]. intros kv1 He Hr1. rewrite Hl.
  pose proof (He a k) as Hl1. rewrite Hl in Hl1. apply wpM_bind. eapply wpM_lift.
  { rewrite <- Hins. f_equal. by destruct l. }
  cbv beta iota. destruct (Z.eqb_spec num 0) as [E|E].
  { apply wpM_ret. split_and!; [done| |by intros sl; apply vs_room_le].
    rewrite <- Hl. apply kv_updated_same; [apply Hk|done]. }
  assert (stored enc l' = Some (enc l')) as Hs' by (by destruct l').
  destruct l as [|x l]; cbn [stored from_option id] in *.
  - rewrite Z.eqb_refl. apply wpM_bind. eapply addValueByKey_ok; [done..|]. intros kv2 Hu Hr2. apply wpM_ret.
    rewrite Hs'. split_and!; [done|by eapply kv_updated_ext|done].
  - specialize (Hne (x :: l) ltac:(done)). rewrite (proj2 (Z.eqb_neq _ _)) by (destruct (enc (x :: l)); [done|len_lia]).
    apply wpM_bind. eapply setValueByKey_ok; [done|apply Hk|done|by rewrite Hl1|]. intros kv2 Hu Hr2.
    apply wpM_ret. rewrite Hs'. split_and!; [done|by eapply kv_updated_ext|done].
Qed.

(** The tail the removals share. *)
Lemma store_removed_ok {X} (enc : list X -> list Z) (l l' : list X) num (kv : KV) n a k :
  kv_room (1 + n) kv -> word k -> kv_lookup kv a k = stored enc l -> l <> [] ->
  (forall l, l <> [] -> enc l <> []) -> (l' <> [] -> value_ok (vs_limit S) (enc l')) ->
  wpM (if num =? 0 then retM 0
       else if negb (len (match l' with [] => [] | _ => enc l' end) =? 0) then
         let! _ := setValueByKey a k (match l' with [] => [] | _ => enc l' end) in retM num
       else let! _ := removeKey a k in retM num) kv (fun r kv' =>
    r = num /\ kv_updated kv a k (stored enc (if num =? 0 then l else l')) kv' /\ kv_room n kv').
Proof.
  intros Hr Hk Hl Hne Hne' Hv. destruct (Z.eqb_spec num 0) as [E|E].
  { apply wpM_ret. split_and!; [done| |by intros sl; apply vs_room_le].
    rewrite <- Hl. by apply kv_updated_same. }
  assert (is_Some (kv_lookup kv a k)) as Hs by (rewrite Hl; by destruct l).
  destruct l' as [|y l']; [|specialize (Hne' (y :: l') ltac:(done))].
  - cbn [length negb Z.of_nat Z.eqb]. apply wpM_bind. eapply removeKey_ok; [done..|]. intros kv2 Hu Hr2.
    apply wpM_ret. by split_and!.
  - rewrite (proj2 (Z.eqb_neq _ _)) by (destruct (enc (y :: l')); [done|len_lia]). cbn [negb].
    apply wpM_bind. eapply setValueByKey_ok; [done|done|by apply Hv|done|]. intros kv2 Hu Hr2.
    apply wpM_ret. by split_and!.
Qed.

Lemma remove_values_list_ok {X} (enc : list X -> list Z) (l l' : list X) num rm (kv : KV) n a k data :
  kv_room (2 + n) kv -> word k -> kv_lookup kv a k = stored enc l -> data <> [] ->
  (forall l, l <> [] -> enc l <> []) -> (l' <> [] -> value_ok (vs_limit S) (enc l')) ->
  (l <> [] -> rm data (enc l) = Some (match l' with [] => [] | _ => enc l' end, num)) ->
  (l = [] -> l' = [] /\ num = 0) ->
  wpM (remove_values_list a rm k data) kv (fun r kv' =>
    r = num /\ kv_updated kv a k (stored enc (if num =? 0 then l else l')) kv' /\ kv_room n kv').
Proof.
  intros Hr Hk Hl Hd Hne Hv Hrm Hnil. unfold remove_values_list. destruct data as [|d data]; [done|].
  apply wpM_bind. eapply getValueByKey_ok; [exact Hr|done|]. intros kv1 He Hr1. rewrite Hl.
  pose proof (He a k) as Hl1. rewrite Hl in Hl1. destruct l as [|x l]; cbn [stored from_option id].
  - destruct (Hnil eq_refl) as [-> ->]. rewrite Z.eqb_refl. apply wpM_ret.
    split_and!; [done|cbn [Z.eqb]; rewrite <- Hl; by apply kv_updated_same|by intros sl; apply vs_room_le].
  - pose proof (Hne (x :: l) ltac:(done)) as Hnx.
    rewrite (proj2 (Z.eqb_neq _ _)) by (cbn; destruct (enc (x :: l)); [done|len_lia]).
    apply wpM_bind. eapply wpM_lift; [by apply Hrm|]. cbv beta iota.
    eapply wpM_mono; [|eapply (store_removed_ok enc (x :: l) l' num kv1 n); done].
    intros r kv2 (->&Hu&Hr2). split_and!; [done|by eapply kv_updated_ext|done].
Qed.
End Key.

(** ** Counting *)

(** Two lists without repetition, the shorter one included, of the same length. *)
Lemma NoDup_full {X} (l l' : list X) :
  NoDup l -> NoDup l' -> (forall x, x ∈ l -> x ∈ l') -> length l = length l' -> forall x, x ∈ l' <-> x ∈ l.
Proof.
  intros H1 H2 Hin Hlen x. assert (l ⊆+ l') as Hs by (by apply NoDup_submseteq).
  apply submseteq_length_Permutation in Hs; [|lia]. by rewrite Hs.
Qed.

(** The change of a set of triples that differs only at the key [k]. *)
Lemma size_change (key : triple -> Z) (f : Z * Z -> triple) (k : Z) (X X' : triples) (l l' : list (Z * Z)) :
  (forall x y, f x = f y -> x = y) -> NoDup l -> NoDup l' ->
  (forall t, t ∈ X <-> t ∈ f <$> l \/ (t ∈ X /\ key t <> k)) ->
  (forall t, t ∈ X' <-> t ∈ f <$> l' \/ (t ∈ X /\ key t <> k)) ->
  (forall y, key (f y) = k) ->
  Z.of_nat (base.size X') - Z.of_nat (base.size X) = len l' - len l.
Proof.
  intros Hinj H1 H2 HX HX' Hk. set (R := filter (fun t => key t <> k) X).
  assert (forall l (Y : triples), NoDup l -> (forall t, t ∈ Y <-> t ∈ f <$> l \/ (t ∈ X /\ key t <> k)) ->
    base.size Y = (length l + base.size R)%nat) as Hsz.
  { intros l0 Y Hnd HY. assert (Y = list_to_set (f <$> l0) ∪ R) as ->.
    { apply set_eq. intros t. rewrite HY, elem_of_union, elem_of_list_to_set. unfold R.
      rewrite elem_of_filter. tauto. }
    rewrite size_union.
    - rewrite size_list_to_set, length_fmap by (by apply NoDup_fmap_2). done.
    - intros t. rewrite elem_of_list_to_set. unfold R. rewrite elem_of_filter.
      intros (y&->&_)%list_elem_of_fmap [Hn _]. by apply Hn. }
  rewrite (Hsz l X H1 HX), (Hsz l' X' H2 HX'). lia.
Qed.

(** ** One index *)

Definition apply_batch (ins : bool) (X : triples) (l : list triple) : triples :=
  if ins then X ∪ list_to_set l else X ∖ list_to_set l.

Lemma apply_batch_app ins X l1 l2 : apply_batch ins (apply_batch ins X l1) l2 = apply_batch ins X (l1 ++ l2).
Proof. destruct ins; unfold apply_batch; rewrite list_to_set_app_L; set_solver. Qed.

Lemma elem_of_apply_batch ins X l t :
  t ∈ apply_batch ins X l <-> (if ins then t ∈ X \/ t ∈ l else t ∈ X /\ t ∉ l).
Proof. unfold apply_batch. destruct ins; set_solver. Qed.

(** The number of triples a batch adds or takes away. *)
Definition changed (ins : bool) (X : triples) (l : list triple) : Z :=
  if ins then Z.of_nat (base.size (apply_batch true X l)) - Z.of_nat (base.size X)
  else Z.of_nat (base.size X) - Z.of_nat (base.size (apply_batch false X l)).

Lemma changed_app ins X l1 l2 :
  changed ins X (l1 ++ l2) = changed ins X l1 + changed ins (apply_batch ins X l1) l2.
Proof. unfold changed. destruct ins; rewrite apply_batch_app; lia. Qed.

Lemma size_list_to_set_le (l : list triple) : (base.size (list_to_set l : triples) <= length l)%nat.
Proof.
  induction l as [|t l IH]; [by rewrite list_to_set_nil, size_empty|].
  rewrite list_to_set_cons, size_union_alt, size_singleton.
  assert (list_to_set l ∖ {[t]} ⊆@{triples} list_to_set l) as H%subseteq_size by set_solver. simpl. lia.
Qed.

Lemma changed_bounds ins X l : 0 <= changed ins X l <= len l /\
  Z.of_nat (base.size (apply_batch ins X l)) <= Z.of_nat (base.size X) + len l.
Proof.
  unfold changed, apply_batch. pose proof (size_list_to_set_le l) as Hl. destruct ins.
  - assert (X ⊆ X ∪ list_to_set l) as H1%subseteq_size by set_solver.
    rewrite size_union_alt in *. assert (list_to_set l ∖ X ⊆@{triples} list_to_set l) as H2%subseteq_size by set_solver.
    lia.
  - assert (X ∖ list_to_set l ⊆ X) as H1%subseteq_size by set_solver.
    assert (X ⊆ (X ∖ list_to_set l) ∪ list_to_set l) as H2%subseteq_size.
    { intros t Ht. destruct (decide (t ∈ l)); set_solver. }
    rewrite size_union_alt in H2.
    assert (list_to_set l ∖ (X ∖ list_to_set l) ⊆@{triples} list_to_set l) as H3%subseteq_size by set_solver. lia.
Qed.

Section Index.
Context {S : Type} `{VSL : ValueStoreLaws S}.
Abbreviation KV := (KVstore S).

(** An index: the key and the pair of a triple, and what the store holds. *)
Record index := {
  i_array : array;
  i_key : triple -> Z;
  i_val : triple -> Z * Z;
  i_mk : Z -> Z * Z -> triple;
  i_holds : KV -> Z -> (Z -> Z -> Prop) -> Prop;
  i_mk_key t : i_mk (i_key t) (i_val t) = t;
  i_key_mk k y : i_key (i_mk k y) = k;
  i_val_mk k y : i_val (i_mk k y) = y;
  i_iff kv k P Q : (forall x y, P x y <-> Q x y) -> i_holds kv k P -> i_holds kv k Q;
  i_frame kv kv' a k v k' P : kv_updated kv a k v kv' -> word k' -> (i_array, k') <> (a, k) ->
    i_holds kv k' P -> i_holds kv' k' P }.

Context (I : index).

(** The index holds the triples [X]. *)
Definition index_holds (kv : KV) (X : triples) : Prop :=
  forall k, word k -> i_holds I kv k (fun x y => i_mk I k (x, y) ∈ X).

(** What handing the pairs [Q] of the key [k] to the index promises. *)
Definition flush_ok (ins : bool) (flush : Z -> list Z -> M KV Z) : Prop :=
  forall kv n k X Q, index_holds kv X -> key_ok (i_array I) k -> Q <> [] -> lex_sorted Q ->
    Forall word_pair Q -> 12 * (Z.of_nat (base.size X) + len Q) + 24 < vs_limit S -> kv_room (2 + n) kv ->
    wpM (flush k (flat Q)) kv (fun r kv' => kv_room n kv' /\
      (exists v, kv_updated kv (i_array I) k v kv') /\
      i_holds I kv' k (fun x y => i_mk I k (x, y) ∈ apply_batch ins X (i_mk I k <$> Q)) /\
      r = changed ins X (i_mk I k <$> Q)).

Lemma flush_index ins flush kv n k X Q :
  flush_ok ins flush -> index_holds kv X -> key_ok (i_array I) k -> Q <> [] -> lex_sorted Q ->
  Forall word_pair Q -> 12 * (Z.of_nat (base.size X) + len Q) + 24 < vs_limit S -> kv_room (2 + n) kv ->
  wpM (flush k (flat Q)) kv (fun r kv' => kv_room n kv' /\
    index_holds kv' (apply_batch ins X (i_mk I k <$> Q)) /\
    (forall a' k', a' <> i_array I -> word k' -> kv_lookup kv' a' k' = kv_lookup kv a' k') /\
    r = changed ins X (i_mk I k <$> Q)).
Proof.
  intros Hfl HX Hk HQ Hs Hw Hb Hr. eapply wpM_mono; [|by apply (Hfl kv n)].
  intros r kv' (Hr'&(v&Hu)&Hh&Hc). split_and!; [done| | |done].
  - intros k' Hk'. destruct (decide (k' = k)) as [->|Hne]; [done|].
    eapply i_frame; [exact Hu|done|congruence|]. eapply i_iff, HX, Hk'. intros x y.
    rewrite elem_of_apply_batch.
    assert (i_mk I k' (x, y) ∉ i_mk I k <$> Q) as Hn.
    { intros (z&E&_)%list_elem_of_fmap. apply Hne. by rewrite <- (i_key_mk I k' (x, y)), E, i_key_mk. }
    destruct ins; tauto.
  - intros a' k' Ha Hk'. rewrite Hu by done. rewrite decide_False by congruence. done.
Qed.

(** The tuples in the order of the index. *)
Definition index_lt (t u : triple) : Prop :=
  i_key I t < i_key I u \/ (i_key I t = i_key I u /\ lex_lt (i_val I t) (i_val I u)).

Definition tuple_ok (t : triple) : Prop := key_ok (i_array I) (i_key I t) /\ word_pair (i_val I t).

Lemma batch_loop_ok ins flush key data_of ts kv n cur P num X :
  flush_ok ins flush -> (forall t, key t = i_key I t) ->
  (forall t, data_of t = [(i_val I t).1; (i_val I t).2]) ->
  index_holds kv X -> P <> [] -> StronglySorted index_lt ((i_mk I cur <$> P) ++ ts) ->
  Forall tuple_ok ((i_mk I cur <$> P) ++ ts) -> 0 <= num ->
  num + len P + len ts < W32 -> 12 * (Z.of_nat (base.size X) + len P + len ts) + 24 < vs_limit S ->
  kv_room (2 * (1 + length ts) + n) kv ->
  wpM (batch_loop key data_of flush cur (flat P) num ts) kv (fun r kv' => kv_room n kv' /\
    index_holds kv' (apply_batch ins X ((i_mk I cur <$> P) ++ ts)) /\
    (forall a' k', a' <> i_array I -> word k' -> kv_lookup kv' a' k' = kv_lookup kv a' k') /\
    r = num + changed ins X ((i_mk I cur <$> P) ++ ts)).
Proof.
  intros Hfl Hkey Hdata. revert kv cur P num X.
  induction ts as [|t ts IH]; intros kv cur P num X HX HP Hs Hok Hnum Hb1 Hb Hr;
    apply Forall_app in Hok as Hok'; destruct Hok' as [HokP Hokt].
  all: assert (key_ok (i_array I) cur) as Hcur by
    (destruct P as [|y P]; [done|]; apply Forall_inv in HokP as [Hc _]; by rewrite i_key_mk in Hc).
  all: assert (Forall word_pair P) as HwP by
    (rewrite Forall_fmap in HokP; eapply Forall_impl; [exact HokP|]; intros y [_ Hy]; by rewrite i_val_mk in Hy).
  all: assert (lex_sorted P) as HsP.
  1, 3: clear -Hs; induction P as [|y P IHP]; [constructor|]; inversion Hs as [|?? Hs' Hf]; subst;
    constructor; [by apply IHP|]; apply Forall_app in Hf as [Hf _]; rewrite Forall_fmap in Hf;
    eapply Forall_impl; [exact Hf|]; intros z [Hz|[_ Hz]]; rewrite ?i_key_mk, ?i_val_mk in Hz; [lia|done].
  - rewrite app_nil_r in *. cbn [batch_loop]. apply wpM_bind.
    pose proof (changed_bounds ins X (i_mk I cur <$> P)) as Hcb. rewrite length_fmap in Hcb.
    eapply wpM_mono; [|apply (flush_index ins flush kv n cur X P); try done; word_lia].
    intros r kv' (Hr'&HX'&Hfr&->). apply wpM_ret. split_and!; [done..|]. rewrite u32_small; [done|word_lia].
  - cbn [batch_loop]. rewrite Hkey, Hdata. destruct (Z.eqb_spec (i_key I t) cur) as [E|E].
    + rewrite <- flat_snoc. assert (i_mk I cur (i_val I t) = t) as Et by (rewrite <- E; apply i_mk_key).
      assert ((i_mk I cur <$> (P ++ [i_val I t])) ++ ts = (i_mk I cur <$> P) ++ t :: ts) as El
        by (rewrite fmap_app, <- app_assoc; cbn; by rewrite Et).
      eapply wpM_mono; [|apply (IH kv cur (P ++ [i_val I t]) num X); rewrite ?El; try done].
      * by rewrite El.
      * by destruct P.
      * len_lia.
      * len_lia.
      * replace (2 * (1 + length (t :: ts)) + n)%nat with (Datatypes.S (Datatypes.S (2 * (1 + length ts) + n))) in Hr by (simpl; lia).
        intros sl. by apply vs_room_le, vs_room_le, Hr.
    + apply wpM_bind. pose proof (changed_bounds ins X (i_mk I cur <$> P)) as Hcb. rewrite length_fmap in Hcb.
      eapply wpM_mono; [|apply (flush_index ins flush kv (2 * (1 + length ts) + n) cur X P); try done; [len_lia|]].
      2:{ replace (2 + (2 * (1 + length ts) + n))%nat with (2 * (1 + length (t :: ts)) + n)%nat by (simpl; lia). done. }
      intros r kv1 (Hr1&HX1&Hfr1&->). rewrite u32_small by (len_lia).
      change [(i_val I t).1; (i_val I t).2] with (flat [i_val I t]).
      assert ((i_mk I (i_key I t) <$> [i_val I t]) ++ ts = t :: ts) as El by (cbn; by rewrite i_mk_key).
      eapply wpM_mono; [|apply (IH kv1 (i_key I t) [i_val I t]); rewrite ?El; try done].
      * rewrite El. intros r kv2 (Hr2&HX2&Hfr2&->). rewrite apply_batch_app in HX2.
        split_and!; [done|done| |rewrite changed_app; lia].
        intros a' k' Ha Hk'. by rewrite Hfr2, Hfr1.
      * apply StronglySorted_app in Hs as (_&_&?). done.
      * lia.
      * len_lia.
      * len_lia.
Qed.
End Index.

(** ** The flushes *)

Section Flush.
Context {S : Type} `{VSL : ValueStoreLaws S} (enough : Z -> bool) (junk : nat -> Z).
Abbreviation KV := (KVstore S).
Context (Hmem : forall n, enough n = true).

(** The triples of one key, as a list of pairs. *)
Section OneKey.
Context (I : index (S := S)) (X : triples) (k : Z).

Lemma mk_inj x y : i_mk I k x = i_mk I k y -> x = y.
Proof. intros E. by rewrite <- (i_val_mk I k x), E, i_val_mk. Qed.

Lemma key_mk t : i_key I t = k -> t = i_mk I k (i_val I t).
Proof. intros <-. symmetry. apply i_mk_key. Qed.

Lemma elem_of_mk (l : list (Z * Z)) x : i_mk I k x ∈ i_mk I k <$> l <-> x ∈ l.
Proof. apply list_elem_of_fmap_inj. intros ???. by eapply mk_inj. Qed.

Lemma key_size (l : list (Z * Z)) : NoDup l -> (forall y, y ∈ l -> i_mk I k y ∈ X) -> len l <= Z.of_nat (base.size X).
Proof. intros Hnd Hl. by apply (list_size_le (i_mk I k)); [|apply mk_inj|]. Qed.

Lemma key_change ins (l l' Q : list (Z * Z)) :
  NoDup l -> NoDup l' -> (forall y, y ∈ l <-> i_mk I k y ∈ X) ->
  (forall y, y ∈ l' <-> if ins : bool then y ∈ l \/ y ∈ Q else y ∈ l /\ y ∉ Q) ->
  changed ins X (i_mk I k <$> Q) = if ins then len l' - len l else len l - len l'.
Proof.
  intros H1 H2 HX HQ.
  assert (Z.of_nat (base.size (apply_batch ins X (i_mk I k <$> Q))) - Z.of_nat (base.size X) = len l' - len l) as Hs.
  { eapply (size_change (i_key I) (i_mk I k) k); [apply mk_inj|done|done| | |intros; apply i_key_mk].
    - intros t. destruct (decide (i_key I t = k)) as [Hk|Hk].
      + rewrite (key_mk t Hk), elem_of_mk, HX, i_key_mk. tauto.
      + split; [tauto|]. intros [(y&->&_)%list_elem_of_fmap|[? _]]; [|done]. by rewrite i_key_mk in Hk.
    - intros t. rewrite elem_of_apply_batch. destruct (decide (i_key I t = k)) as [Hk|Hk].
      + rewrite (key_mk t Hk). destruct ins; rewrite !elem_of_mk, HQ, HX, i_key_mk; tauto.
      + assert (forall m : list (Z * Z), t ∉ i_mk I k <$> m) as Hn.
        { intros m (y&->&_)%list_elem_of_fmap. by rewrite i_key_mk in Hk. }
        pose proof (Hn Q). pose proof (Hn l'). destruct ins; tauto. }
  unfold changed. destruct ins; lia.
Qed.
End OneKey.

Lemma encode_ok lim ent A : lim <= W32 -> wf A -> 4 * (3 + 3 * size A) < lim -> value_ok lim (encode ent A).
Proof. destruct ent; [apply encode_s_ok|apply encode_o_ok]. Qed.

Lemma encode_len ent A : wf A -> len (encode ent A) <= 3 + 3 * size A.
Proof. destruct ent; [apply encode_s_len|apply encode_o_len]. Qed.

Lemma flat_nonempty Q : Q <> [] -> flat Q <> [].
Proof. by destruct Q. Qed.

Section Adj.
Context (I : index (S := S)) (ent : bool).
Context (Hholds : forall kv k P, i_holds I kv k P <-> holds_adj (encode ent) kv (i_array I) k P).

Lemma insert_adj_flush :
  flush_ok I true (insert_values_list (i_array I) (Insert_values (hoff ent) ent enough junk)).
Proof.
  intros kv n k X Q HX Hk HQ Hs Hw Hb Hr.
  pose proof (HX k (proj1 Hk)) as (A&HwA&HpA&Hl)%Hholds.
  assert (forall y, y ∈ pairs A <-> i_mk I k y ∈ X) as HpA' by (intros []; apply HpA).
  assert (size A <= Z.of_nat (base.size X)) as HsA.
  { rewrite <- length_pairs. apply (key_size I X k); [by apply NoDup_pairs|]. intros y. by rewrite HpA'. }
  pose proof (encode_len ent A HwA) as HlA. pose proof (vs_limit_le S) as Hlim. unfold W32 in Hlim.
  destruct (Insert_values_spec ent enough junk A Q) as (U&HU&HwU&HsU&HUn&HpU); try done; [unfold W31; lia|].
  assert (size U <= size A + len Q) as HsU2.
  { rewrite <- !length_pairs.
    assert (length (pairs U) <= length (pairs A ++ Q))%nat as Hle; [|rewrite length_app in Hle; lia].
    apply NoDup_incl_length'; [by apply NoDup_pairs|]. intros y. rewrite elem_of_app. by apply HpU. }
  pose proof (size_nonneg A).
  assert (forall l : adj, l <> [] -> encode ent l <> []) as Hne by (intros l; by destruct ent).
  assert (value_ok (vs_limit S) (encode ent U)) as Hok by (apply encode_ok; [done|done|lia]).
  eapply wpM_mono; [|eapply (insert_values_list_ok (encode ent) A U _ _ kv n);
    [done|done|done|by apply flat_nonempty|done|done|exact HU|done]].
  intros r kv' (->&Hu&Hr'). split_and!; [done|by eexists| |].
  - apply Hholds. exists (if size U - size A =? 0 then A else U). split_and!.
    + by destruct (_ =? 0).
    + intros p x. rewrite elem_of_apply_batch, elem_of_mk, <- HpA', <- HpU.
      destruct (Z.eqb_spec (size U - size A) 0) as [E|]; [|done]. symmetry.
      apply (NoDup_full (pairs A) (pairs U)); [by apply NoDup_pairs..| |].
      * intros y Hy. apply HpU. by left.
      * pose proof (length_pairs A). pose proof (length_pairs U). lia.
    + by rewrite Hu, decide_True by (done || apply Hk).
  - rewrite (key_change I X k true (pairs A) (pairs U) Q); [by rewrite !length_pairs|by apply NoDup_pairs..|done|done].
Qed.

Lemma remove_adj_flush rm :
  (forall Q tmp, Q <> [] -> tmp <> [] -> rm (flat Q) tmp = Remove_values (hoff ent) ent junk (flat Q) tmp) ->
  flush_ok I false (remove_values_list (i_array I) rm).
Proof.
  intros Hrm kv n k X Q HX Hk HQ _ _ Hb Hr.
  pose proof (HX k (proj1 Hk)) as (A&HwA&HpA&Hl)%Hholds.
  assert (forall y, y ∈ pairs A <-> i_mk I k y ∈ X) as HpA' by (intros []; apply HpA).
  assert (size A <= Z.of_nat (base.size X)) as HsA.
  { rewrite <- length_pairs. apply (key_size I X k); [by apply NoDup_pairs|]. intros y. by rewrite HpA'. }
  pose proof (encode_len ent A HwA) as HlA. pose proof (vs_limit_le S) as Hlim. unfold W32 in Hlim. pose proof (size_diff Q A) as [HsD _].
  pose proof (wf_diff Q A HwA) as HwD. pose proof (pairs_diff Q A) as HpD.
  assert (forall l : adj, l <> [] -> encode ent l <> []) as Hne by (intros l; by destruct ent).
  eapply wpM_mono; [|eapply (remove_values_list_ok (encode ent) A (adj_diff Q A) (size A - size (adj_diff Q A))); try done];
    [|apply Hk|by apply flat_nonempty|intros _; apply encode_ok; [done|done|lia]| |by intros ->].
  2:{ intros HA. rewrite Hrm, Remove_values_spec by (auto; unfold W31; lia). by destruct (adj_diff Q A). }
  intros r kv' (->&Hu&Hr'). split_and!; [done|by eexists| |].
  - apply Hholds. exists (if size A - size (adj_diff Q A) =? 0 then A else adj_diff Q A). split_and!.
    + by destruct (_ =? 0).
    + intros p x. rewrite elem_of_apply_batch, elem_of_mk, <- HpA', <- HpD.
      destruct (Z.eqb_spec (size A - size (adj_diff Q A)) 0) as [E|]; [|done].
      apply (NoDup_full (pairs (adj_diff Q A)) (pairs A)); [by apply NoDup_pairs..| |].
      * intros [q y] Hy%HpD. tauto.
      * pose proof (length_pairs A). pose proof (length_pairs (adj_diff Q A)). lia.
    + by rewrite Hu, decide_True by (done || apply Hk).
  - rewrite (key_change I X k false (pairs A) (pairs (adj_diff Q A)) Q); [by rewrite !length_pairs|by apply NoDup_pairs..|done|].
    intros []; apply HpD.
Qed.
End Adj.

Section Pairs.
Context (I : index (S := S)).
Context (Harr : i_array I = Pre) (Hholds : forall kv k P, i_holds I kv k P <-> holds_pairs kv k P).

Lemma insert_pairs_flush : flush_ok I true (updateInsert_p2values_list junk).
Proof.
  intros kv n k X Q HX Hk HQ Hs Hw Hb Hr. rewrite Harr in *.
  pose proof (HX k (proj1 Hk)) as (L&HsL&HwL&HpL&Hl)%Hholds.
  assert (forall y, y ∈ L <-> i_mk I k y ∈ X) as HpL' by (intros []; apply HpL).
  pose proof (lex_sorted_NoDup _ HsL) as Hnd. pose proof (lex_sorted_union L Q HsL Hs) as HsU.
  pose proof (lex_sorted_NoDup _ HsU) as HndU. pose proof (length_lex_union L Q) as HlU.
  assert (len L <= Z.of_nat (base.size X)) as HlL by (apply (key_size I X k); [done|intros y; by rewrite HpL']).
  pose proof (vs_limit_le S) as Hlim. unfold W32 in Hlim. assert (Forall word_pair (lex_union L Q)) as HwU.
  { apply Forall_forall. intros y [Hy|Hy]%elem_of_lex_union; [rewrite Forall_forall in HwL|rewrite Forall_forall in Hw]; auto. }
  assert (lex_union L Q <> []) as HUn.
  { destruct Q as [|y Q]; [done|]. intros E. assert (y ∈ lex_union L (y :: Q)) as Hy by (apply elem_of_lex_union; right; left).
    rewrite E in Hy. by apply elem_of_nil in Hy. }
  assert (value_ok (vs_limit S) (encode_p (lex_union L Q))) as Hok by (apply encode_p_ok; [done|done|lia]).
  pose proof (Insert_p2values_spec junk L Q HsL HQ Hs Hw ltac:(unfold W31; lia)) as Hins.
  eapply wpM_mono; [|eapply (insert_values_list_ok encode_p L (lex_union L Q) _ _ kv n);
    [done|done|done|by apply flat_nonempty|done|done|exact Hins|done]].
  intros r kv' (->&Hu&Hr'). split_and!; [done|by eexists| |].
  - apply Hholds. exists (if len (lex_union L Q) - len L =? 0 then L else lex_union L Q). split_and!.
    + by destruct (_ =? 0).
    + by destruct (_ =? 0).
    + intros p x. rewrite elem_of_apply_batch, elem_of_mk, <- HpL', <- elem_of_lex_union.
      destruct (Z.eqb_spec (len (lex_union L Q) - len L) 0) as [E|]; [|done]. symmetry.
      apply (NoDup_full L (lex_union L Q)); [done|done| |lia]. intros y Hy. apply elem_of_lex_union. by left.
    + by rewrite Hu, decide_True by (done || apply Hk).
  - rewrite (key_change I X k true L (lex_union L Q) Q); [done|done|done|done|]. intros y. apply elem_of_lex_union.
Qed.

Lemma remove_pairs_flush : flush_ok I false (updateRemove_p2values_list junk).
Proof.
  intros kv n k X Q HX Hk HQ _ _ Hb Hr. rewrite Harr in *.
  pose proof (HX k (proj1 Hk)) as (L&HsL&HwL&HpL&Hl)%Hholds.
  assert (forall y, y ∈ L <-> i_mk I k y ∈ X) as HpL' by (intros []; apply HpL).
  pose proof (lex_sorted_NoDup _ HsL) as Hnd. set (D := filter (fun z => z ∉ Q) L).
  assert (len L <= Z.of_nat (base.size X)) as HlL by (apply (key_size I X k); [done|intros y; by rewrite HpL']).
  pose proof (length_filter (fun z => z ∉ Q) L) as HlD. fold D in HlD. pose proof (vs_limit_le S) as Hlim. unfold W32 in Hlim.
  assert (forall y, y ∈ D <-> y ∈ L /\ y ∉ Q) as HpD by (intros y; unfold D; rewrite list_elem_of_filter; tauto).
  assert (NoDup D) as HndD by (by apply NoDup_filter).
  assert (lex_sorted D) as HsD.
  { unfold D. clear -HsL. induction HsL as [|y L Hs IH Hf]; [constructor|]. rewrite filter_cons.
    destruct (decide _); [|done]. constructor; [done|]. rewrite Forall_forall in *. intros z [_ Hz]%list_elem_of_filter. auto. }
  assert (Forall word_pair D) as HwD.
  { apply Forall_forall. intros y [Hy _]%HpD. rewrite Forall_forall in HwL. auto. }
  assert (wpM (updateRemove_p2values_list junk k (flat Q)) kv (fun r kv' =>
    r = len L - len D /\ kv_updated kv Pre k (stored encode_p (if len L - len D =? 0 then L else D)) kv' /\
    kv_room n kv')) as Hmain.
  { unfold updateRemove_p2values_list. destruct (flat Q) as [|d data] eqn:EQ; [by apply flat_nonempty in EQ|].
    apply wpM_bind. eapply getValueByKey_ok; [exact Hr|apply Hk|]. intros kv1 He Hr1. rewrite Hl.
    pose proof (He Pre k) as Hl1. rewrite Hl in Hl1. apply wpM_bind.
    destruct (decide (L = [])) as [->|HLn].
    - eapply wpM_lift; [unfold Remove_p2values; rewrite <- EQ;
        destruct (group_sets_spec Q []) as (B&->&_); [by split; constructor|]; by destruct (flat Q)|].
      cbn [Z.eqb]. apply wpM_ret. split_and!; [done| |by intros sl; apply vs_room_le].
      replace (stored encode_p _) with (kv_lookup kv Pre k) by (rewrite Hl; done).
      apply kv_updated_same; [apply Hk|done].
    - eapply wpM_lift.
      { assert (default [] (stored encode_p L) = encode_p L) as -> by (by destruct L).
        rewrite <- EQ. apply (Remove_p2values_spec junk L Q); [done|done|done|unfold W31; lia]. }
      cbv beta iota. fold D. assert (stored_p D = match D with [] => [] | _ => encode_p D end) as -> by (by destruct D).
      eapply wpM_mono; [|eapply (store_removed_ok encode_p L D _ kv1 n); try done; [apply Hk|]].
      + intros r kv2 (->&Hu&Hr2). split_and!; [done|by eapply kv_updated_ext|done].
      + intros _. apply encode_p_ok; [done|done|lia]. }
  eapply wpM_mono; [|exact Hmain]. intros r kv' (->&Hu&Hr'). split_and!; [done|by eexists| |].
  - apply Hholds. exists (if len L - len D =? 0 then L else D). split_and!.
    + by destruct (_ =? 0).
    + by destruct (_ =? 0).
    + intros p x. rewrite elem_of_apply_batch, elem_of_mk, <- HpL', <- HpD.
      destruct (Z.eqb_spec (len L - len D) 0) as [E|]; [|done].
      apply (NoDup_full D L); [done|done| |lia]. intros y. rewrite HpD. tauto.
    + by rewrite Hu, decide_True by (done || apply Hk).
  - rewrite (key_change I X k false L D Q); done.
Qed.
End Pairs.
End Flush.

(** ** Sorting *)

Lemma equal_spec a b : equal a b = true <-> a = b.
Proof.
  destruct a as [[s p] o], b as [[s' p'] o']. unfold equal, subid, preid, objid. cbn.
  rewrite !andb_true_iff, !Z.eqb_eq. naive_solver.
Qed.

Lemma elem_of_unique l t : t ∈ unique_tuples l <-> t ∈ l.
Proof.
  induction l as [|x l IH]; [done|]. simpl. rewrite elem_of_cons, <- IH.
  destruct (unique_tuples l) as [|y r]; [set_solver|]. destruct (equal x y) eqn:E; [|set_solver].
  apply equal_spec in E as ->. set_solver.
Qed.

Section Sort.
Context (lt : triple -> triple -> Prop) (cmp : triple -> triple -> bool).
Context (Hcmp : forall a b, cmp a b = true <-> lt a b).
Context (Htrans : forall a b c, lt a b -> lt b c -> lt a c) (Htotal : forall a b, lt a b \/ a = b \/ lt b a).
Context (Hirr : forall a, ~ lt a a).

Definition le (a b : triple) : Prop := a = b \/ lt a b.

Lemma le_trans a b c : le a b -> le b c -> le a c.
Proof. intros [->|?] [->|?]; unfold le; eauto. Qed.

Lemma sort_insert_perm t l : sort_insert cmp t l ≡ₚ t :: l.
Proof.
  induction l as [|x l IH]; [done|]. simpl. destruct (cmp x t); [|done]. rewrite IH. apply Permutation_swap.
Qed.

Lemma sort_tuples_perm l : sort_tuples cmp l ≡ₚ l.
Proof. induction l as [|t l IH]; [done|]. simpl. by rewrite sort_insert_perm, IH. Qed.

Lemma sort_insert_sorted t l : StronglySorted le l -> StronglySorted le (sort_insert cmp t l).
Proof.
  induction 1 as [|x l Hs IH Hf]; simpl; [repeat constructor|]. destruct (cmp x t) eqn:E.
  - apply Hcmp in E. constructor; [done|]. rewrite sort_insert_perm. constructor; [by right|done].
  - assert (le t x) as Htx.
    { destruct (Htotal x t) as [Hl%Hcmp|[->|Hl]]; [congruence|by left|by right]. }
    constructor; [by constructor|]. constructor; [done|]. eapply Forall_impl; [exact Hf|].
    intros y. by apply le_trans.
Qed.

Lemma sort_tuples_sorted l : StronglySorted le (sort_tuples cmp l).
Proof. induction l; simpl; [constructor|by apply sort_insert_sorted]. Qed.

Lemma sorted_strict l : StronglySorted le l -> NoDup l -> StronglySorted lt l.
Proof.
  induction 1 as [|x l Hs IH Hf]; intros Hnd; [constructor|]. apply NoDup_cons in Hnd as [Hx Hnd].
  constructor; [auto|]. rewrite Forall_forall in *. intros y Hy. destruct (Hf y Hy) as [->|]; done.
Qed.

Lemma unique_strict l : StronglySorted le l -> StronglySorted lt (unique_tuples l).
Proof.
  induction 1 as [|x l Hs IH Hf]; simpl; [constructor|]. rewrite Forall_forall in Hf.
  assert (forall y, y ∈ unique_tuples l -> le x y) as Hle.
  { intros y. rewrite elem_of_unique. apply Hf. }
  destruct (unique_tuples l) as [|y r]; [repeat constructor|]. inversion IH as [|?? Hr Hy]; subst.
  destruct (equal x y) eqn:E.
  - by apply equal_spec in E as ->.
  - assert (lt x y) as Hxy.
    { destruct (Hle y ltac:(left)) as [->|]; [|done]. exfalso. assert (equal y y = true) by (by apply equal_spec). congruence. }
    constructor; [done|]. constructor; [done|]. eapply Forall_impl; [exact Hy|]. intros z. by apply Htrans.
Qed.

Lemma strict_NoDup l : StronglySorted lt l -> NoDup l.
Proof.
  induction 1 as [|x l Hs IH Hf]; constructor; [|done]. rewrite Forall_forall in Hf. intros Hx. by apply (Hirr x), Hf.
Qed.
End Sort.

Lemma length_unique l : (length (unique_tuples l) <= length l)%nat.
Proof.
  induction l as [|x l IH]; [done|]. simpl. destruct (unique_tuples l); simpl in *; [lia|]. destruct (equal _ _); simpl; lia.
Qed.

(** ** The three indexes *)

Section Whole.
Context {S : Type} `{VSL : ValueStoreLaws S} (enough : Z -> bool) (junk : nat -> Z).
Abbreviation KV := (KVstore S).
Context (Hmem : forall n, enough n = true).

#[program] Definition sub_index : index (S := S) := {|
  i_array := Sub; i_key := subid; i_val t := (preid t, objid t); i_mk k y := (k, y.1, y.2);
  i_holds kv k P := holds_adj encode_s kv Sub k P |}.
Next Obligation. by intros [[s p] o]. Qed.
Next Obligation. done. Qed.
Next Obligation. by intros k [a b]. Qed.
Next Obligation. intros. by eapply holds_adj_iff. Qed.
Next Obligation. intros. by eapply holds_adj_frame. Qed.

#[program] Definition obj_index : index (S := S) := {|
  i_array := Obj; i_key := objid; i_val t := (preid t, subid t); i_mk k y := (y.2, y.1, k);
  i_holds kv k P := holds_adj encode_o kv Obj k P |}.
Next Obligation. by intros [[s p] o]. Qed.
Next Obligation. done. Qed.
Next Obligation. by intros k [a b]. Qed.
Next Obligation. intros. by eapply holds_adj_iff. Qed.
Next Obligation. intros. by eapply holds_adj_frame. Qed.

#[program] Definition pre_index : index (S := S) := {|
  i_array := Pre; i_key := preid; i_val t := (subid t, objid t); i_mk k y := (y.1, k, y.2);
  i_holds kv k P := holds_pairs kv k P |}.
Next Obligation. by intros [[s p] o]. Qed.
Next Obligation. done. Qed.
Next Obligation. by intros k [a b]. Qed.
Next Obligation. intros. by eapply holds_pairs_iff. Qed.
Next Obligation. intros. by eapply holds_pairs_frame. Qed.

Lemma represents_indexes (kv : KV) T :
  represents kv T <-> index_holds sub_index kv T /\ index_holds obj_index kv T /\ index_holds pre_index kv T.
Proof. split; [intros []|intros (?&?&?)]; by split_and! || by split. Qed.

Lemma index_lt_trans (I : index (S := S)) a b c : index_lt I a b -> index_lt I b c -> index_lt I a c.
Proof. unfold index_lt, lex_lt. lia. Qed.
Lemma index_lt_irrefl (I : index (S := S)) a : ~ index_lt I a a.
Proof. unfold index_lt, lex_lt. lia. Qed.
Lemma index_lt_total (I : index (S := S)) a b : index_lt I a b \/ a = b \/ index_lt I b a.
Proof.
  unfold index_lt. destruct (Z.lt_trichotomy (i_key I a) (i_key I b)) as [|[E|]]; [tauto| |tauto].
  destruct (lex_total (i_val I a) (i_val I b)) as [|[E'|]]; [tauto| |rewrite E; tauto].
  right. left. by rewrite <- (i_mk_key I a), E, E', i_mk_key.
Qed.

(** What all six types of [sub_batch_update] have in common. *)
Lemma run_ok (I : index (S := S)) ins flush key data_of ts (kv : KV) n X :
  flush_ok I ins flush -> (forall t, key t = i_key I t) -> (forall t, data_of t = [(i_val I t).1; (i_val I t).2]) ->
  index_holds I kv X -> ts <> [] -> StronglySorted (index_lt I) ts -> Forall (tuple_ok I) ts ->
  12 * (Z.of_nat (base.size X) + len ts) + 24 < vs_limit S -> kv_room (2 * length ts + n) kv ->
  wpM (match ts with [] => liftM None | t :: _ => batch_loop key data_of flush (key t) [] 0 ts end) kv
    (fun r kv' => kv_room n kv' /\ index_holds I kv' (apply_batch ins X ts) /\
      (forall a' k', a' <> i_array I -> word k' -> kv_lookup kv' a' k' = kv_lookup kv a' k') /\
      r = changed ins X ts).
Proof.
  intros Hfl Hkey Hdata HX Hne Hs Hok Hb Hr. pose proof (vs_limit_le S). destruct ts as [|t ts]; [done|]. cbn [batch_loop].
  rewrite Z.eqb_refl, Hdata, Hkey. change ([] ++ [(i_val I t).1; (i_val I t).2]) with (flat [i_val I t]).
  assert ((i_mk I (i_key I t) <$> [i_val I t]) ++ ts = t :: ts) as El by (cbn; by rewrite i_mk_key).
  eapply wpM_mono; [|eapply (batch_loop_ok I ins flush key data_of ts kv n (i_key I t) [i_val I t] 0 X);
    rewrite ?El; try done; len_lia]. rewrite El. done.
Qed.

Lemma spo_spec a b : spo_cmp_idtuple a b = true <-> index_lt sub_index a b.
Proof. unfold spo_cmp_idtuple, index_lt, lex_lt. cbn. repeat case_match; lia. Qed.
Lemma pso_spec a b : pso_cmp_idtuple a b = true <-> index_lt pre_index a b.
Proof. unfold pso_cmp_idtuple, index_lt, lex_lt. cbn. repeat case_match; lia. Qed.
Lemma ops_spec a b : ops_cmp_idtuple a b = true <-> index_lt obj_index a b.
Proof. unfold ops_cmp_idtuple, index_lt, lex_lt. cbn. repeat case_match; lia. Qed.

(** A list without repetition, sorted for an index. *)
Lemma resort (I : index (S := S)) cmp ts :
  (forall a b, cmp a b = true <-> index_lt I a b) -> NoDup ts ->
  StronglySorted (index_lt I) (sort_tuples cmp ts) /\ sort_tuples cmp ts ≡ₚ ts.
Proof.
  intros Hcmp Hnd. pose proof (sort_tuples_perm cmp ts) as Hp. split; [|done].
  apply sorted_strict; [|by rewrite Hp].
  apply sort_tuples_sorted; [done|apply index_lt_trans|apply index_lt_total].
Qed.

Lemma apply_batch_perm ins X l l' : (forall t, t ∈ l <-> t ∈ l') -> apply_batch ins X l = apply_batch ins X l'.
Proof. intros H. apply set_eq. intros t. rewrite !elem_of_apply_batch. destruct ins; by rewrite H. Qed.

Lemma changed_perm ins X l l' : (forall t, t ∈ l <-> t ∈ l') -> changed ins X l = changed ins X l'.
Proof. intros H. unfold changed. by rewrite !(apply_batch_perm _ X l l' H). Qed.

Lemma index_frame (I : index (S := S)) (kv kv' : KV) a X :
  (forall a' k', a' <> a -> word k' -> kv_lookup kv' a' k' = kv_lookup kv a' k') ->
  (forall (kv kv' : KV) k P, kv_lookup kv' (i_array I) k = kv_lookup kv (i_array I) k ->
     i_holds I kv k P -> i_holds I kv' k P) ->
  i_array I <> a -> index_holds I kv X -> index_holds I kv' X.
Proof. intros Hf Hl Ha HX k Hk. eapply Hl; [by apply Hf|by apply HX]. Qed.

Lemma holds_adj_lookup enc (kv kv' : KV) a k P :
  kv_lookup kv' a k = kv_lookup kv a k -> holds_adj enc kv a k P -> holds_adj enc kv' a k P.
Proof. intros E (A&?&?&?). exists A. by rewrite E. Qed.
Lemma holds_pairs_lookup (kv kv' : KV) k P :
  kv_lookup kv' Pre k = kv_lookup kv Pre k -> holds_pairs kv k P -> holds_pairs kv' k P.
Proof. intros E (L&?&?&?&?). exists L. by rewrite E. Qed.

Lemma tuple_ok_of (I : index (S := S)) ts :
  I = sub_index \/ I = obj_index \/ I = pre_index -> Forall triple_ok ts -> Forall (tuple_ok I) ts.
Proof.
  intros HI Hts. eapply Forall_impl; [exact Hts|]. intros [[s p] o] (Hs&Hp&Ho).
  pose proof (proj1 Hs). pose proof (proj1 Hp). pose proof (proj1 Ho).
  destruct HI as [->|[->| ->]]; split; cbn; (done || by split).
Qed.

(** What one pass over the tuples [ts] promises. *)
Definition pass_ok (I : index (S := S)) (ins : bool) (ty : UPDATE_TYPE) (ts : list triple) : Prop :=
  forall (kv : KV) n T, index_holds I kv T -> 12 * (Z.of_nat (base.size T) + len ts) + 24 < vs_limit S ->
    kv_room (2 * length ts + n) kv ->
    wpM (sub_batch_update enough junk ts ty) kv (fun r kv' => kv_room n kv' /\
      index_holds I kv' (apply_batch ins T ts) /\
      (forall a' k', a' <> i_array I -> word k' -> kv_lookup kv' a' k' = kv_lookup kv a' k') /\
      r = changed ins T ts).

Section Passes.
Context (ts : list triple) (Hne : ts <> []) (Hs : StronglySorted (index_lt sub_index) ts).
Context (Hok : Forall triple_ok ts).

Lemma tuples_NoDup : NoDup ts.
Proof. eapply strict_NoDup, Hs. apply index_lt_irrefl. Qed.

Lemma subject_pass (ins : bool) : pass_ok sub_index ins (if ins then SUBJECT_INSERT else SUBJECT_REMOVE) ts.
Proof.
  intros kv n T HX Hb Hr.
  destruct ins; eapply (run_ok sub_index _ _ subid _ ts kv n T); try done; try (by apply tuple_ok_of; [left|]).
  - by apply (insert_adj_flush enough junk Hmem sub_index true).
  - apply (remove_adj_flush junk sub_index true); [done|]. intros Q tmp HQ _. by destruct Q.
Qed.

(** A pass that sorts the tuples first. *)
Lemma sorted_pass (I : index (S := S)) ins flush key data_of cmp ty :
  (forall a b, cmp a b = true <-> index_lt I a b) -> flush_ok I ins flush -> (forall t, key t = i_key I t) ->
  (forall t, data_of t = [(i_val I t).1; (i_val I t).2]) -> Forall (tuple_ok I) ts ->
  sub_batch_update enough junk ts ty = match sort_tuples cmp ts with
    | [] => liftM None | t :: _ => batch_loop key data_of flush (key t) [] 0 (sort_tuples cmp ts) end ->
  pass_ok I ins ty ts.
Proof.
  intros Hcmp Hfl Hkey Hdata Hoks Hrun kv n T HX Hb Hr. rewrite Hrun.
  destruct (resort I cmp ts Hcmp tuples_NoDup) as [Hsp Hp]. pose proof (Permutation_length Hp) as Hlp.
  eapply wpM_mono; [|eapply (run_ok I ins flush key data_of _ kv n T); rewrite ?Hlp; try done].
  - intros r kv' (Hr'&HX'&Hf&->). rewrite (apply_batch_perm ins T (sort_tuples cmp ts) ts) in HX'
      by (intros t; by rewrite Hp).
    rewrite (changed_perm ins T (sort_tuples cmp ts) ts) by (intros t; by rewrite Hp). done.
  - intros E. rewrite E in Hlp. by destruct ts.
  - by rewrite Hp.
Qed.

Lemma predicate_pass (ins : bool) : pass_ok pre_index ins (if ins then PREDICATE_INSERT else PREDICATE_REMOVE) ts.
Proof.
  destruct ins; (eapply (sorted_pass pre_index); [exact pso_spec| | | | |done]; try done);
    try (by apply tuple_ok_of; [right; right|]).
  - by apply insert_pairs_flush.
  - by apply remove_pairs_flush.
Qed.

Lemma object_pass (ins : bool) : pass_ok obj_index ins (if ins then OBJECT_INSERT else OBJECT_REMOVE) ts.
Proof.
  destruct ins; (eapply (sorted_pass obj_index); [exact ops_spec| | | | |done]; try done);
    try (by apply tuple_ok_of; [right; left|]).
  - by apply (insert_adj_flush (fun _ => true) junk (fun _ => eq_refl) obj_index false).
  - apply (remove_adj_flush junk obj_index false); [done|]. intros Q tmp HQ Htm. unfold Remove_o2values.
    rewrite (proj2 (Z.eqb_neq _ _)); [done|]. destruct tmp; [done|len_lia].
Qed.

Lemma batch_passes_ok (ins : bool) (kv : KV) n T :
  represents kv T -> 12 * (Z.of_nat (base.size T) + len ts) + 24 < vs_limit S -> kv_room (6 * length ts + n) kv ->
  wpM (batch_passes enough junk ins ts) kv (fun r kv' =>
    represents kv' (apply_batch ins T ts) /\ kv_room n kv' /\ r = (changed ins T ts, changed ins T ts, changed ins T ts)).
Proof.
  intros HR Hb Hr. pose proof (proj1 (represents_indexes kv T) HR) as (Hsub&Hobj&Hpre).
  unfold batch_passes. apply wpM_bind.
  eapply wpM_mono; [|apply (subject_pass ins kv (4 * length ts + n)%nat T); [done|done|]];
    [|by replace (2 * length ts + (4 * length ts + n))%nat with (6 * length ts + n)%nat by lia].
  intros r kv1 (Hr1&HX1&Hf1&->). apply wpM_bind.
  eapply wpM_mono; [|apply (predicate_pass ins kv1 (2 * length ts + n)%nat T); [|done|]]; cycle 1.
  { eapply (index_frame pre_index); [exact Hf1|intros; by eapply holds_pairs_lookup|done|done]. }
  { by replace (2 * length ts + (2 * length ts + n))%nat with (4 * length ts + n)%nat by lia. }
  intros r2 kv2 (Hr2&HX2&Hf2&->). apply wpM_bind.
  eapply wpM_mono; [|apply (object_pass ins kv2 n T); [|done|done]]; cycle 1.
  { eapply (index_frame obj_index); [exact Hf2|intros; by eapply holds_adj_lookup|done|].
    eapply (index_frame obj_index); [exact Hf1|intros; by eapply holds_adj_lookup|done|done]. }
  intros r3 kv3 (Hr3&HX3&Hf3&->). apply wpM_ret. split_and!; [|done|done]. apply represents_indexes. split_and!.
  - eapply (index_frame sub_index); [exact Hf3|intros; by eapply holds_adj_lookup|done|].
    eapply (index_frame sub_index); [exact Hf2|intros; by eapply holds_adj_lookup|done|done].
  - done.
  - eapply (index_frame pre_index); [exact Hf3|intros; by eapply holds_pairs_lookup|done|done].
Qed.
End Passes.

(** The tuples after [sort] and [unique]. *)
Lemma prepared ts : ts <> [] ->
  let us := unique_tuples (sort_tuples spo_cmp_idtuple ts) in
  us <> [] /\ StronglySorted (index_lt sub_index) us /\ (forall t, t ∈ us <-> t ∈ ts) /\ (length us <= length ts)%nat.
Proof.
  intros Hne us. pose proof (sort_tuples_perm spo_cmp_idtuple ts) as Hp.
  assert (forall t, t ∈ us <-> t ∈ ts) as Hin.
  { intros t. unfold us. rewrite elem_of_unique. rewrite Hp. done. }
  split_and!; [|apply unique_strict|done|].
  - destruct ts as [|t ts]; [done|]. intros E. assert (t ∈ us) as Ht by (apply Hin; left). rewrite E in Ht. by apply elem_of_nil in Ht.
  - apply index_lt_trans.
  - apply sort_tuples_sorted; [apply spo_spec|apply index_lt_trans|apply index_lt_total].
  - rewrite <- (Permutation_length Hp). apply length_unique.
Qed.

Lemma kv_room_le (kv : KV) m m' : (m <= m')%nat -> kv_room m' kv -> kv_room m kv.
Proof. induction 1 as [|m' _ IH]; [done|]. intros Hr. apply IH. intros sl. by apply vs_room_le. Qed.

Lemma sorted_batch_ok (ins : bool) ts (kv : KV) n T :
  represents kv T -> ts <> [] -> Forall triple_ok ts ->
  12 * (Z.of_nat (base.size T) + len ts) + 24 < vs_limit S -> kv_room (6 * length ts + n) kv ->
  wpM (batch_passes enough junk ins (unique_tuples (sort_tuples spo_cmp_idtuple ts))) kv (fun r kv' =>
    represents kv' (apply_batch ins T ts) /\ kv_room n kv' /\ r = (changed ins T ts, changed ins T ts, changed ins T ts)).
Proof.
  intros HR Hne Hok Hb Hr. destruct (prepared ts Hne) as (Hne'&Hs&Hin&Hl).
  set (us := unique_tuples (sort_tuples spo_cmp_idtuple ts)) in *.
  assert (Forall triple_ok us) as Hok'.
  { rewrite Forall_forall in *. intros t Ht. apply Hok, Hin, Ht. }
  assert (kv_room (6 * length us + n) kv) as Hr' by (eapply kv_room_le, Hr; lia).
  pose proof (batch_passes_ok us Hne' Hs Hok' ins kv n T HR ltac:(lia) Hr') as H.
  by rewrite (apply_batch_perm ins T us ts Hin), (changed_perm ins T us ts Hin) in H.
Qed.

Lemma batch_ok (ins : bool) ts (kv : KV) n T :
  represents kv T -> ts <> [] -> Forall triple_ok ts ->
  12 * (Z.of_nat (base.size T) + len ts) + 24 < vs_limit S -> kv_room (6 * length ts + n) kv ->
  wpM (if ins then batch_insert enough junk ts else batch_remove enough junk ts) kv (fun r kv' =>
    represents kv' (apply_batch ins T ts) /\ kv_room n kv' /\ r = changed ins T ts).
Proof.
  intros HR Hne Hok Hb Hr. pose proof (sorted_batch_ok ins ts kv n T HR Hne Hok Hb Hr) as H.
  destruct ins; unfold batch_insert, batch_remove; apply wpM_bind; (eapply wpM_mono; [|exact H]);
    intros r kv' (?&?&->); by apply wpM_ret.
Qed.
End Whole.
