(* ===== verification/BatchTheorems.v ===== *)
(** * Theorems about batch updates

    The batch updates of one value list, and of the three indexes. *)

From S2P Require Import Prelude Util ValueList Adjacency ValueSpec PreList ValueRead BatchInsert BatchInsertSpec BatchRemove BatchRemoveSpec BatchPre BatchPreSpec ValueTheorems ValueStore KVstore TripleSet KVtheorems KVbatch KVbatchSpec.

(** ** One value list *)

Section Lists.
Context (enough : Z -> bool) (junk : nat -> Z).

(** Inserting a sorted list of pairs into the value list of a subject or of
    an object, present or absent, computes the encoding of a well-formed
    adjacency with exactly the old and the new pairs, and returns the number of
    pairs it gained; the array never overflows its bound. *)
Theorem batch_insert_values_correct (A : adj) (P : list (Z * Z)) :
  wf A -> P <> [] -> lex_sorted P -> Forall word_pair P ->
  len (encode_s A) + 3 * len P < W31 -> (forall n, enough n = true) ->
  exists U, Insert_s2values enough junk (flat P) (match A with [] => [] | _ => encode_s A end) =
      Some (encode_s U, size U - size A) /\
    Insert_o2values junk (flat P) (match A with [] => [] | _ => encode_o A end) =
      Some (encode_o U, size U - size A) /\
    wf U /\ forall y, y ∈ pairs U <-> y ∈ pairs A \/ y ∈ P.
Proof.
  intros HA HP Hs Hw Hlt Hmem.
  destruct (Insert_values_spec true enough junk A P) as (U&HU&HwU&_&_&HpU); try done.
  destruct (Insert_values_spec false (fun _ => true) junk A P) as (U'&HU'&HwU'&_&_&HpU'); try done.
  { unfold encode, encode_s in *. rewrite length_layout in *. cbn in *. lia. }
  exists U. assert (U' = U) as ->; [|by split_and!].
  apply wf_unique; [done|done|]. intros y. by rewrite HpU, HpU'.
Qed.

(** Removing a list of pairs, in any order and with repetitions, from the
    value list of a subject or of an object computes the encoding of the
    adjacency without them, or no value list when nothing is left, and returns
    the number of pairs it lost. *)
Theorem batch_remove_values_correct (A : adj) (P : list (Z * Z)) :
  wf A -> A <> [] -> P <> [] -> len (encode_s A) < W31 ->
  exists D, Remove_s2values junk (flat P) (encode_s A) =
      Some (match D with [] => [] | _ => encode_s D end, size A - size D) /\
    Remove_o2values junk (flat P) (encode_o A) =
      Some (match D with [] => [] | _ => encode_o D end, size A - size D) /\
    wf D /\ forall p x, (p, x) ∈ pairs D <-> (p, x) ∈ pairs A /\ (p, x) ∉ P.
Proof.
  intros HA Hne HP Hlt. exists (adj_diff P A). split_and!.
  - assert (Remove_s2values junk (flat P) (encode_s A) = Remove_values 3 true junk (flat P) (encode_s A)) as ->
      by (by destruct P).
    by apply (Remove_values_spec true).
  - unfold Remove_o2values. rewrite (proj2 (Z.eqb_neq _ _)) by (destruct A; [done|]; cbn; lia).
    apply (Remove_values_spec false); [done|done|].
    unfold encode, encode_s in *. rewrite length_layout in *. cbn in *. lia.
  - by apply wf_diff.
  - intros p x. apply pairs_diff.
Qed.

(** The batch updates of the value list of a predicate are the union and the
    difference of its pairs, again in two aligned columns in lexicographic
    order. *)
Theorem batch_p2values_correct (L P : list (Z * Z)) :
  lex_sorted L -> P <> [] -> lex_sorted P -> Forall word_pair P -> 1 + 2 * (len L + len P) < W31 ->
  (exists U, Insert_p2values junk (flat P) (match L with [] => [] | _ => encode_p L end) =
      Some (encode_p U, len U - len L) /\ lex_sorted U /\ forall y, y ∈ U <-> y ∈ L \/ y ∈ P) /\
  (L <> [] -> exists D, Remove_p2values junk (flat P) (encode_p L) =
      Some (match D with [] => [] | _ => encode_p D end, len L - len D) /\
      forall y, y ∈ D <-> y ∈ L /\ y ∉ P).
Proof.
  clear enough. intros HL HP Hs Hw Hlt. split.
  - exists (lex_union L P). split_and!; [by apply (Insert_p2values_spec junk L P)|by apply lex_sorted_union|].
    intros y. apply elem_of_lex_union.
  - intros Hne. exists (filter (fun z => z ∉ P) L). split.
    + apply (Remove_p2values_spec junk L P); [done|done|done|lia].
    + intros y. rewrite list_elem_of_filter. tauto.
Qed.
End Lists.

Ltac lex_tac := repeat first [apply SSorted_nil | apply SSorted_cons | apply Forall_nil
  | apply Forall_cons; split | unfold lex_lt; simpl; lia].

Lemma batch_insert_values_witness :
  exists U, Insert_s2values (fun _ => true) some_junk (flat [(1, 5); (2, 7)]) (encode_s sample) =
    Some (encode_s U, size U - size sample) /\ (2, 7) ∈ pairs U.
Proof.
  destruct (batch_insert_values_correct (fun _ => true) some_junk sample [(1, 5); (2, 7)]) as (U&H1&_&_&H2).
  - apply sample_wf.
  - done.
  - lex_tac.
  - repeat constructor; done.
  - done.
  - done.
  - exists U. split; [exact H1|apply H2; right; right; left].
Defined.

Lemma batch_remove_values_witness :
  exists D, Remove_s2values some_junk (flat [(3, 6); (1, 9); (3, 6); (8, 8)]) (encode_s sample) =
    Some (match D with [] => [] | _ => encode_s D end, size sample - size D) /\ (3, 6) ∉ pairs D.
Proof.
  destruct (batch_remove_values_correct some_junk sample [(3, 6); (1, 9); (3, 6); (8, 8)]) as (D&H1&_&_&H2).
  - apply sample_wf.
  - done.
  - done.
  - done.
  - exists D. split; [exact H1|]. rewrite H2. intros [_ Hn]. apply Hn. left.
Defined.

Lemma batch_p2values_witness :
  exists U, Insert_p2values some_junk (flat [(1, 4); (2, 2)]) (encode_p [(1, 2); (1, 4); (3, 1)]) =
    Some (encode_p U, len U - 3) /\ (2, 2) ∈ U.
Proof.
  destruct (batch_p2values_correct some_junk [(1, 2); (1, 4); (3, 1)] [(1, 4); (2, 2)]) as [(U&H1&_&H2) _].
  - lex_tac.
  - done.
  - lex_tac.
  - repeat constructor; done.
  - done.
  - exists U. split; [exact H1|]. apply H2. right. right. left.
Defined.

(** ** The three indexes *)

Section Store.
Context {S : Type} `{VSL : ValueStoreLaws S} (enough : Z -> bool) (junk : nat -> Z).

(** C30. [batch_insert] on any non-empty list of id tuples, unsorted and with
    repetitions, leaves the three indexes representing the union of the old
    triples and the tuples, and returns the number of triples that are new. *)
Theorem batch_insert_refines (kv : KVstore S) (T : triples) (ts : list triple) (n : nat) :
  (forall m, enough m = true) -> represents kv T -> ts <> [] -> Forall triple_ok ts ->
  12 * (Z.of_nat (base.size T) + len ts) + 24 < vs_limit S -> kv_room (6 * length ts + n) kv ->
  exists kv', batch_insert enough junk ts kv =
      Some (Z.of_nat (base.size (T ∪ list_to_set ts)) - Z.of_nat (base.size T), kv') /\
    represents kv' (T ∪ list_to_set ts) /\ kv_room n kv'.
Proof.
  intros Hmem HR Hne Hok Hb Hr.
  destruct (wpM_inv _ _ _ (batch_ok enough junk Hmem true ts kv n T HR Hne Hok Hb Hr)) as (r&kv'&E&HR'&Hr'&->).
  by exists kv'.
Qed.

(** C31. [batch_remove] on any non-empty list of id tuples leaves the three
    indexes representing the old triples without the tuples, and returns the
    number of triples that were there. *)
Theorem batch_remove_refines (kv : KVstore S) (T : triples) (ts : list triple) (n : nat) :
  (forall m, enough m = true) -> represents kv T -> ts <> [] -> Forall triple_ok ts ->
  12 * (Z.of_nat (base.size T) + len ts) + 24 < vs_limit S -> kv_room (6 * length ts + n) kv ->
  exists kv', batch_remove enough junk ts kv =
      Some (Z.of_nat (base.size T) - Z.of_nat (base.size (T ∖ list_to_set ts)), kv') /\
    represents kv' (T ∖ list_to_set ts) /\ kv_room n kv'.
Proof.
  intros Hmem HR Hne Hok Hb Hr.
  destruct (wpM_inv _ _ _ (batch_ok enough junk Hmem false ts kv n T HR Hne Hok Hb Hr)) as (r&kv'&E&HR'&Hr'&->).
  by exists kv'.
Qed.

(** A batch removal of one triple with an unknown name removes whatever
    triple the uninitialised tuple of that position stands for. *)
Corollary batch_remove_unknown_name (kv : KVstore S) (T : triples) (t : triple) (n : nat) :
  (forall m, enough m = true) -> represents kv T -> triple_ok t -> t ∈ T ->
  12 * (Z.of_nat (base.size T) + 1) + 24 < vs_limit S -> kv_room (6 + n) kv ->
  exists kv', batch_remove enough junk (collect_id_tuples [t] [None]) kv = Some (1, kv') /\
    represents kv' (T ∖ {[t]}).
Proof.
  intros Hmem HR Hok Ht Hsm Hr. change (collect_id_tuples [t] [None]) with [t].
  destruct (wpM_inv _ _ _ (batch_ok enough junk Hmem false [t] kv n T HR ltac:(done) ltac:(by repeat constructor)
    ltac:(simpl; lia) Hr)) as (r&kv'&E&HR'&_&->).
  exists kv'. cbn [apply_batch list_to_set] in *. rewrite union_empty_r_L in *. split; [|done].
  rewrite E. unfold changed, apply_batch. rewrite list_to_set_singleton_L.
  rewrite size_difference by set_solver. rewrite size_singleton.
  assert (base.size ({[t]} : triples) <= base.size T)%nat as Hle by (apply subseteq_size; set_solver).
  rewrite size_singleton in Hle. do 2 f_equal. lia.
Qed.
End Store.

Lemma two_tuples_ok : Forall triple_ok [t2; t1; t2].
Proof. destruct t_ok. by repeat constructor. Qed.

Lemma batch_insert_witness :
  exists kv', batch_insert (fun _ => true) some_junk [t2; t1; t2] empty_kv = Some (2, kv') /\
    represents kv' (∅ ∪ list_to_set [t2; t1; t2]).
Proof.
  destruct (batch_insert_refines (fun _ => true) some_junk empty_kv ∅ [t2; t1; t2] 0) as (kv'&E&HR&_).
  - done.
  - apply empty_represents.
  - done.
  - apply two_tuples_ok.
  - by vm_compute.
  - apply map_room.
  - exists kv'. split; [exact E|exact HR].
Defined.

Lemma batch_remove_witness :
  exists kv', batch_remove (fun _ => true) some_junk [t2; t2] two_kv = Some (1, kv') /\
    represents kv' ({[t1; t2]} ∖ list_to_set [t2; t2]).
Proof.
  destruct (batch_remove_refines (fun _ => true) some_junk two_kv {[t1; t2]} [t2; t2] 0) as (kv'&E&HR&_).
  - done.
  - apply two_represents.
  - done.
  - destruct t_ok. by repeat constructor.
  - by vm_compute.
  - apply map_room.
  - exists kv'. split; [exact E|exact HR].
Defined.

Lemma batch_remove_unknown_name_witness :
  exists kv', batch_remove (fun _ => true) some_junk (collect_id_tuples [t1] [None]) two_kv = Some (1, kv') /\
    represents kv' ({[t1; t2]} ∖ {[t1]}).
Proof.
  apply (batch_remove_unknown_name (fun _ => true) some_junk two_kv {[t1; t2]} t1 0).
  - done.
  - apply two_represents.
  - apply t_ok.
  - set_solver.
  - by vm_compute.
  - apply map_room.
Defined.
