(* ===== verification/Version.v ===== *)
(** * One version of a value list

    [Version] (Util/Version.h, Util/Version.cpp): the pairs that one transaction
    adds to and removes from the value list of one id, kept in one growing array,
    and the timestamps between which the version is visible.  Cell 0 of the array
    holds its size, cells 1 and 2 the numbers of added and removed pairs; added
    pairs are stored from cell 4 upwards, removed pairs from the last cell
    downwards.  [junk] is what [malloc] leaves in fresh memory. *)

From S2P Require Import Prelude.

Definition INVALID_TS : Z := W64 - 1.
Definition init_size : Z := 16.

Abbreviation VData := (Z * Z)%type.
Abbreviation VDataSet := (gset (Z * Z)).
Abbreviation VDataArray := (list (Z * Z)).

Record Version := mk_Version {
  data : list Z;
  begin_ts : Z;
  end_ts : Z }.

Definition set_begin_ts (b : Z) (v : Version) : Version := mk_Version (data v) b (end_ts v).
Definition set_end_ts (e : Z) (v : Version) : Version := mk_Version (data v) (begin_ts v) e.

Section Code.
Context (junk : nat -> Z).

(** The array both constructors allocate. *)
Definition new_data : option (list Z) :=
  let d := new_array junk init_size in
  d ← arr_set d 0 init_size;
  d ← arr_set d 1 0;
  arr_set d 2 0.

Definition Version_new (_begin_ts _end_ts : Z) : option Version :=
  d ← new_data; Some (mk_Version d _begin_ts _end_ts).

(** [4 + 2*(data[1] + data[2] + num)]. *)
Definition cells_needed (d : list Z) (num : Z) : option Z :=
  a ← arr_get d 1; r ← arr_get d 2; Some (4 ⊞ (2 ⊠ ((a ⊞ r) ⊞ num))).

(** The loop that doubles [size]. *)
Definition double_until (need size : Z) : option Z :=
  while 33 (fun size => Some (size <? need)) (fun size => Some (size ⊠ 2)) size.

(** The loop that copies the added pairs. *)
Definition copy_low (d : list Z) (a : Z) (tmp : list Z) : option (list Z) :=
  '(_, tmp) ← while (S (length d))
    (fun '(i, tmp) => Some (i <? 4 ⊞ (2 ⊠ a)))
    (fun '(i, tmp) => x ← arr_get d i; tmp ← arr_set tmp i x; Some (i ⊞ 1, tmp))
    (1, tmp);
  Some tmp.

(** The loop that copies the removed pairs, from the last cell down. *)
Definition copy_high (d : list Z) (n r size : Z) (tmp : list Z) : option (list Z) :=
  '(_, _, tmp) ← while (S (length d))
    (fun '(i, j, tmp) => Some ((n ⊟ 1) ⊟ (2 ⊠ r) <=? i))
    (fun '(i, j, tmp) =>
       x ← arr_get d i; tmp ← arr_set tmp j x; Some (i ⊟ 1, j ⊟ 1, tmp))
    (n ⊟ 1, size ⊟ 1, tmp);
  Some tmp.

Definition expand (num : Z) (d : list Z) : option (list Z) :=
  n ← arr_get d 0;
  need ← cells_needed d num;
  if n <? need then
    size ← double_until need (n ⊠ 2);
    let tmp := new_array junk size in
    tmp ← arr_set tmp 0 size;
    a ← arr_get d 1;
    r ← arr_get d 2;
    tmp ← copy_low d a tmp;
    copy_high d n r size tmp
  else Some d.

(** One round of [add] and of [batch_add]. *)
Definition put_add (d : list Z) (value : VData) : option (list Z) :=
  a ← arr_get d 1;
  d ← arr_set d ((2 ⊠ a) ⊞ 4) value.1;
  d ← arr_set d ((2 ⊠ a) ⊞ 5) value.2;
  arr_set d 1 (a ⊞ 1).

(** One round of [remove] and of [batch_remove]. *)
Definition put_remove (d : list Z) (value : VData) : option (list Z) :=
  n ← arr_get d 0;
  r ← arr_get d 2;
  d ← arr_set d ((n ⊟ 1) ⊟ (2 ⊠ r)) value.1;
  d ← arr_set d ((n ⊟ 2) ⊟ (2 ⊠ r)) value.2;
  arr_set d 2 (r ⊞ 1).

(** [for(auto value: values)]. *)
Fixpoint for_values (round : list Z -> VData -> option (list Z)) (values : VDataArray)
    (d : list Z) : option (list Z) :=
  match values with
  | [] => Some d
  | value :: values' => d ← round d value; for_values round values' d
  end.

Definition with_data (v : Version) (d : list Z) : Version := mk_Version d (begin_ts v) (end_ts v).

Definition Version_add (v : Version) (value : VData) : option Version :=
  d ← expand 1 (data v); d ← put_add d value; Some (with_data v d).

Definition Version_remove (v : Version) (value : VData) : option Version :=
  d ← expand 1 (data v); d ← put_remove d value; Some (with_data v d).

Definition Version_batch_add (v : Version) (values : VDataArray) : option Version :=
  d ← expand (i32 (len values)) (data v);
  d ← for_values put_add values d; Some (with_data v d).

Definition Version_batch_remove (v : Version) (values : VDataArray) : option Version :=
  d ← expand (i32 (len values)) (data v);
  d ← for_values put_remove values d; Some (with_data v d).

End Code.

(** ** Reading a version *)

(** [for(unsigned i = 4; i < 2*data[1] + 4; i+=2)], with the pair at [i]. *)
Definition each_added {S} (d : list Z) (f : VData -> S -> S) (s : S) : option S :=
  a ← arr_get d 1;
  '(_, s) ← while (Datatypes.S (length d))
    (fun '(i, s) => Some (i <? (2 ⊠ a) ⊞ 4))
    (fun '(i, s) =>
       x ← arr_get d i; y ← arr_get d (i ⊞ 1); Some (i ⊞ 2, f (x, y) s))
    (4, s);
  Some s.

(** [for(int i = data[0]-1; i > data[0]-1-2*data[2]; i-=2)], with the pair whose
    first component is at [i] and whose second one is at [i + step]. *)
Definition each_removed {S} (d : list Z) (step : Z) (f : VData -> S -> S) (s : S) : option S :=
  n ← arr_get d 0;
  r ← arr_get d 2;
  '(_, s) ← while (Datatypes.S (length d))
    (fun '(i, s) => Some (i32 n - 1 - 2 * i32 r <? i))
    (fun '(i, s) =>
       x ← arr_get d i; y ← arr_get d (i + step); Some (i - 2, f (x, y) s))
    (i32 n - 1, s);
  Some s.

Definition get_add_set (v : Version) (add_set : VDataSet) : option VDataSet :=
  each_added (data v) (fun p s => {[p]} ∪ s) add_set.

Definition get_del_set (v : Version) (del_set : VDataSet) : option VDataSet :=
  each_removed (data v) 1 (fun p s => {[p]} ∪ s) del_set.

(** The bodies of the two loops of [get_version] on [(add_set, del_set)]. *)
Definition apply_add (p : VData) (s : VDataSet * VDataSet) : VDataSet * VDataSet :=
  let '(add_set, del_set) := s in
  if decide (p ∈ del_set) then (add_set, del_set ∖ {[p]}) else ({[p]} ∪ add_set, del_set).

Definition apply_remove (p : VData) (s : VDataSet * VDataSet) : VDataSet * VDataSet :=
  let '(add_set, del_set) := s in
  if decide (p ∈ add_set) then (add_set ∖ {[p]}, del_set) else (add_set, {[p]} ∪ del_set).

Definition get_version (v : Version) (s : VDataSet * VDataSet) : option (VDataSet * VDataSet) :=
  s ← each_added (data v) apply_add s;
  each_removed (data v) (-1) apply_remove s.

(** ** Iteration over a set of pairs

    [for(auto it: set)] visits a [std::set] of pairs in its order. *)
Definition pair_le (p q : VData) : Prop := p.1 < q.1 \/ (p.1 = q.1 /\ p.2 <= q.2).
#[global] Instance pair_le_dec : RelDecision pair_le.
Proof. intros p q. unfold pair_le. apply _. Defined.

Definition set_order (X : VDataSet) : VDataArray := merge_sort pair_le (elements X).

Lemma set_order_Permutation X : set_order X ≡ₚ elements X.
Proof. apply merge_sort_Permutation. Qed.

Lemma elem_of_set_order p X : p ∈ set_order X <-> p ∈ X.
Proof. by rewrite set_order_Permutation, elem_of_elements. Qed.

Lemma NoDup_set_order X : NoDup (set_order X).
Proof. rewrite set_order_Permutation. apply NoDup_elements. Qed.
