(* ===== verification/VersionSpec.v ===== *)
(** * Correctness of one version

    The layout of the array of a [Version], that every operation keeps it, and
    what the readers return for it.

    At the end, the change of a set of pairs that a version stands for. *)

From S2P Require Import Prelude Version.

#[local] Hint Rewrite @length_rev : lenDb.

(** The array holds the added pairs [adds] and the removed pairs [dels], in the
    order in which they were written. *)
Definition layout (adds dels : VDataArray) (d : list Z) : Prop :=
  exists n c mid,
    d = n :: len adds :: len dels :: c :: flat adds ++ mid ++ rev (flat dels) /\
    len d = n /\ init_size <= n < 2147483648.

(** The versions that hold them. *)
Definition holds (adds dels : VDataArray) (v : Version) : Prop := layout adds dels (data v).

(** The cells a version needs for [num] more pairs. *)
Definition need (adds dels : VDataArray) (num : Z) : Z := 4 + 2 * (len adds + len dels + num).

Definition MAX_CELLS : Z := 1073741824.

Lemma layout_cells adds dels d : layout adds dels d ->
  need adds dels 0 <= len d /\ init_size <= len d < 2147483648.
Proof.
  intros (n&c&mid&->&Hn&Hb). rewrite Hn. split; [|done]. unfold need.
  pose proof (length_flat adds). pose proof (length_flat dels).
  autorewrite with lenDb in Hn.  lia.
Qed.

Section Reads.
Context {adds dels : VDataArray} {d : list Z} (Hd : layout adds dels d).

Lemma layout_0 : arr_get d 0 = Some (len d).
Proof. destruct Hd as (n&c&mid&->&->&_). done. Qed.
Lemma layout_1 : arr_get d 1 = Some (len adds).
Proof. destruct Hd as (n&c&mid&->&_). done. Qed.
Lemma layout_2 : arr_get d 2 = Some (len dels).
Proof. destruct Hd as (n&c&mid&->&_). done. Qed.

(** The cells of an added pair. *)
Lemma layout_add pre p post : adds = pre ++ p :: post ->
  arr_get d (4 + 2 * len pre) = Some p.1 /\ arr_get d (5 + 2 * len pre) = Some p.2.
Proof.
  intros ->. destruct Hd as (n&c&mid&->&_).
  rewrite flat_app. change (flat (p :: post)) with (p.1 :: p.2 :: flat post).
  rewrite <- !app_assoc. pose proof (length_flat pre). split.
  - eapply arr_get_at with (pre := _ :: _ :: _ :: _ :: flat pre); [done|len_lia].
  - eapply arr_get_at with (pre := _ :: _ :: _ :: _ :: flat pre ++ [p.1]); [|len_lia].
    cbn. by rewrite <- !app_assoc.
Qed.

(** The cells of a removed pair. *)
Lemma layout_remove pre p post : dels = pre ++ p :: post ->
  arr_get d (len d - 1 - 2 * len pre) = Some p.1 /\
  arr_get d (len d - 2 - 2 * len pre) = Some p.2.
Proof.
  intros ->. destruct Hd as (n&c&mid&->&_).
  rewrite flat_app. change (flat (p :: post)) with (p.1 :: p.2 :: flat post).
  rewrite rev_app_distr. cbn [rev]. rewrite <- !app_assoc. cbn [app].
  pose proof (length_flat pre).
  set (front := n :: len adds :: len (pre ++ p :: post) :: c :: flat adds ++ mid ++ rev (flat post)).
  assert (Hf : forall l, n :: len adds :: len (pre ++ p :: post) :: c ::
      flat adds ++ mid ++ rev (flat post) ++ l = front ++ l).
  { intros l. unfold front. cbn. by rewrite <- !app_assoc. }
  rewrite Hf, !length_app. cbn [length]. split.
  - eapply arr_get_at with (pre := front ++ [p.2]); [by rewrite <- app_assoc|len_lia].
  - eapply arr_get_at; [done|len_lia].
Qed.
End Reads.

(** ** The readers *)

Lemma each_added_spec {S} adds dels d (f : VData -> S -> S) s : layout adds dels d ->
  each_added d f s = Some (fold_left (fun s p => f p s) adds s).
Proof.
  intros Hd. unfold each_added. rewrite (layout_1 Hd). cbn [mbind option_bind].
  destruct (layout_cells _ _ _ Hd) as [Hc Hb]. unfold need in Hc.
  apply wp_eq, wp_bind.
  apply (wp_while
    (fun '(i, s') => exists pre post, adds = pre ++ post /\ i = 4 + 2 * len pre /\
                     s' = fold_left (fun s p => f p s) pre s)
    (fun '(i, _) => Z.to_nat (4 + 2 * len adds - i))).
  - by exists [], adds.
  - lia.
  - intros [i s'] (pre&post&Ha&->&->). cbn [wp].
    assert (len pre <= len adds) by (rewrite Ha; len_lia).
    wsimp.
    destruct post as [|p post].
    { rewrite app_nil_r in Ha. subst pre. destruct (Z.ltb_spec (4 + 2 * len adds) (2 * len adds + 4)); [lia|done]. }
    assert (Hl : len adds = len pre + 1 + len post) by (subst adds; len_lia).
    destruct (Z.ltb_spec (4 + 2 * len pre) (2 * len adds + 4)); [|lia].
    destruct (layout_add Hd _ _ _ Ha) as [H1 H2].
    rewrite H1. cbn [mbind option_bind].
    replace (4 + 2 * len pre + 1) with (5 + 2 * len pre) by lia.
    rewrite H2. cbn [mbind option_bind wp]. split.
    + exists (pre ++ [p]), post. rewrite fold_left_app, <- app_assoc. split; [done|].
      split; [len_lia|]. by destruct p.
    + lia.
Qed.

Lemma each_removed_spec {S} adds dels d (f : VData -> S -> S) s : layout adds dels d ->
  each_removed d (-1) f s = Some (fold_left (fun s p => f p s) dels s).
Proof.
  intros Hd. unfold each_removed. rewrite (layout_0 Hd), (layout_2 Hd). cbn [mbind option_bind].
  destruct (layout_cells _ _ _ Hd) as [Hc Hb]. unfold need, init_size in *.
  rewrite !i32_small by lia. apply wp_eq, wp_bind.
  apply (wp_while
    (fun '(i, s') => exists pre post, dels = pre ++ post /\ i = len d - 1 - 2 * len pre /\
                     s' = fold_left (fun s p => f p s) pre s)
    (fun '(i, _) => Z.to_nat i)).
  - exists [], dels. split; [done|]. split; [cbn; lia|done].
  - lia.
  - intros [i s'] (pre&post&Ha&->&->). cbn [wp]. destruct post as [|p post].
    { rewrite app_nil_r in Ha. subst pre. destruct (Z.ltb_spec (len d - 1 - 2 * len dels) (len d - 1 - 2 * len dels)); [lia|done]. }
    assert (Hl : len dels = len pre + 1 + len post) by (subst dels; len_lia).
    destruct (Z.ltb_spec (len d - 1 - 2 * len dels) (len d - 1 - 2 * len pre)); [|lia].
    destruct (layout_remove Hd _ _ _ Ha) as [H1 H2].
    rewrite H1. cbn [mbind option_bind].
    replace (len d - 1 - 2 * len pre + -1) with (len d - 2 - 2 * len pre) by lia.
    rewrite H2. cbn [mbind option_bind wp]. split.
    + exists (pre ++ [p]), post. rewrite fold_left_app, <- app_assoc. split; [done|].
      split; [len_lia|]. by destruct p.
    + lia.
Qed.

Lemma get_version_spec adds dels v s : holds adds dels v ->
  get_version v s =
  Some (fold_left (fun s p => apply_remove p s) dels (fold_left (fun s p => apply_add p s) adds s)).
Proof.
  intros Hv. unfold get_version. rewrite (each_added_spec _ _ _ _ _ Hv). cbn [mbind option_bind].
  by rewrite (each_removed_spec _ _ _ _ _ Hv).
Qed.

Lemma get_add_set_spec adds dels v s : holds adds dels v ->
  get_add_set v s = Some (list_to_set adds ∪ s).
Proof.
  intros Hv. unfold get_add_set. rewrite (each_added_spec _ _ _ _ _ Hv). f_equal. clear.
  revert s. induction adds as [|p adds IH]; intros s; cbn; [set_solver|].
  rewrite IH. set_solver.
Qed.

(** ** Growing the array *)

Lemma double_until_spec need s : 16 <= s < 2147483648 -> need < MAX_CELLS ->
  wp (double_until need s) (fun r => need <= r /\ s <= r /\ (r = s \/ r < 2 * need)).
Proof.
  intros Hs Hn. unfold MAX_CELLS in Hn. unfold double_until.
  apply (wp_while (fun r => 16 <= r < 2147483648 /\ s <= r /\ (r = s \/ r < 2 * need))
                  (fun r => Z.to_nat (32 - Z.log2 r))).
  - lia.
  - pose proof (Z.log2_le_mono 16 s ltac:(lia)) as Hl. change (Z.log2 16) with 4 in Hl. lia.
  - intros r (Hr&Hsr&Ho). cbn [wp]. destruct (Z.ltb_spec r need); [|lia].
    wsimp. split; [lia|]. rewrite Z.mul_comm, Z.log2_double by lia.
    pose proof (Z.log2_lt_pow2 r 31 ltac:(lia)) as [Hl _].
    specialize (Hl ltac:(cbn; lia)). lia.
Qed.

Lemma copy_low_spec n low rest a size tmp :
  filled [size] size tmp -> len low = 3 + 2 * a -> 0 <= a -> 1 + len low <= size ->
  size < 2147483648 ->
  wp (copy_low (n :: low ++ rest) a tmp) (filled (size :: low) size).
Proof.
  intros Ht Hl Ha Hs Hb. unfold copy_low. apply wp_bind.
  apply (wp_while
    (fun '(i, t) => exists pre post, low = pre ++ post /\ i = 1 + len pre /\
                    filled (size :: pre) size t)
    (fun '(i, _) => Z.to_nat (4 + 2 * a - i))).
  - by exists [], low.
  - len_lia.
  - intros [i t] (pre&post&->&->&Hf). cbn [wp]. wlen. destruct post as [|x post].
    { rewrite app_nil_r in *. destruct (Z.ltb_spec (1 + len pre) (4 + 2 * a)); [len_lia|done]. }
    destruct (Z.ltb_spec (1 + len pre) (4 + 2 * a)); [|len_lia].
    eapply wp_get; [eapply arr_get_at with (pre := n :: pre); [cbn; by rewrite <- !app_assoc|len_lia]|].
    eapply wp_emit; [done|len_lia|len_lia|]. intros t' Hf'. cbn [wp]. split; [|len_lia].
    exists (pre ++ [x]), post. rewrite <- app_assoc. repeat split; [len_lia|done].
Qed.

Lemma copy_high_spec front hi L M n r size :
  n = len (front ++ hi) -> len hi = 2 * r + 1 -> 0 <= r -> 1 <= len front -> 1 <= len L ->
  size = len (L ++ M) -> len L + len hi <= size -> size < 2147483648 -> n < 2147483648 ->
  wp (copy_high (front ++ hi) n r size (L ++ M))
     (fun t => exists M', t = L ++ M' ++ hi /\ len t = size).
Proof.
  intros Hn Hh Hr Hf HL Hs Hr2 Hb Hb'. unfold copy_high. apply wp_bind.
  apply (wp_while
    (fun '(i, j, t) => exists hpre hpost M', hi = hpre ++ hpost /\ t = L ++ M' ++ hpost /\
       len t = size /\ i = len front + len hpre - 1 /\ j = size - len hpost - 1)
    (fun '(i, j, t) => Z.to_nat (i + 1 - len front))).
  - exists hi, [], M. rewrite !app_nil_r. wlen. repeat split; len_lia.
  - wlen. len_lia.
  - intros [[i j] t] (hpre&hpost&M'&->&->&Hl&->&->). cbn [wp]. wlen.
    destruct hpre as [|x hpre _] using rev_ind.
    { destruct (Z.leb_spec (n - 1 - 2 * r) (len front + len (@nil Z) - 1)); [len_lia|].
      by exists M'. }
    destruct M' as [|y M' _] using rev_ind; [len_lia|].
    destruct (Z.leb_spec (n - 1 - 2 * r) (len front + len (hpre ++ [x]) - 1)); [|len_lia].
    rewrite <- !app_assoc in *. cbn [app] in *.
    eapply wp_get; [eapply arr_get_at with (pre := front ++ hpre); [by rewrite <- !app_assoc|len_lia]|].
    eapply wp_known; [eapply arr_set_at with (pre := L ++ M'); [by rewrite <- !app_assoc|len_lia]|].
    cbn [wp]. wlen. split; [|len_lia].
    exists hpre, (x :: hpost), M'. rewrite <- !app_assoc. repeat split; len_lia.
Qed.

Section Writes.
Context (junk : nat -> Z).

Lemma layout_new : wp (new_data junk) (layout [] []).
Proof.
  unfold new_data, init_size. cbn. eexists _, _, _. repeat split; try done.
  by rewrite app_nil_r.
Qed.

Lemma cells_needed_spec adds dels d num : layout adds dels d -> 0 <= num ->
  need adds dels num < MAX_CELLS -> cells_needed d num = Some (need adds dels num).
Proof.
  intros Hd Hn Hm. unfold cells_needed. rewrite (layout_1 Hd), (layout_2 Hd).
  cbn [mbind option_bind]. unfold need, MAX_CELLS in *. f_equal. wsimp. lia.
Qed.

Lemma expand_spec adds dels d num : layout adds dels d -> 0 <= num ->
  need adds dels num < MAX_CELLS ->
  wp (expand junk num d) (fun d' => layout adds dels d' /\ need adds dels num <= len d').
Proof.
  intros Hd Hn Hm. unfold expand. rewrite (layout_0 Hd). cbn [mbind option_bind].
  rewrite (cells_needed_spec adds dels) by done. cbn [mbind option_bind].
  destruct (Z.ltb_spec (len d) (need adds dels num)) as [Hlt|]; [|done].
  destruct (layout_cells _ _ _ Hd) as [Hc Hb]. unfold MAX_CELLS, init_size in *.
  wsimp. apply wp_bind.
  eapply wp_mono; [|apply double_until_spec; unfold MAX_CELLS; lia].
  intros size (H1&H2&H3). cbv zeta.
  eapply wp_emit; [apply (filled_new junk size); lia|done|cbn; lia|]. intros t Ht.
  rewrite (layout_1 Hd), (layout_2 Hd). cbn [mbind option_bind].
  destruct Hd as (n&c&mid&->&Hnn&_).
  pose proof (length_flat adds) as Ha. pose proof (length_flat dels) as Hr.
  unfold need in *. apply wp_bind.
  set (d := n :: _) in *. set (low := len adds :: len dels :: c :: flat adds).
  assert (Hlow : d = n :: low ++ mid ++ rev (flat dels)) by done.
  rewrite Hlow at 1.
  eapply wp_mono; [|apply copy_low_spec with (low := low); [done|unfold low; len_lia|lia|unfold low; len_lia|lia]].
  intros t1 (M&->&HM).
  destruct (exists_last (l := n :: low ++ mid) ltac:(done)) as (front&z&Hz).
  assert (Hhigh : d = front ++ z :: rev (flat dels)).
  { rewrite Hlow. rewrite app_assoc, app_comm_cons, Hz. by rewrite <- app_assoc. }
  pose proof (f_equal length Hz) as Hlz. rewrite Hhigh.
  assert (Hlh : len (z :: rev (flat dels)) = 2 * len dels + 1).
  { len_lia. }
  eapply wp_mono; [|apply copy_high_spec; rewrite <- ?Hhigh; unfold low in *; len_lia].
  intros t2 (M'&->&Ht2). split; [|lia].
  exists size, c, (M' ++ [z]). split; [|split; [done|unfold init_size; lia]].
  unfold low. cbn. by rewrite <- !app_assoc.
Qed.

(** The unused cells between the two kinds of pairs. *)
Lemma layout_gap adds dels n c mid :
  len (n :: len adds :: len dels :: c :: flat adds ++ mid ++ rev (flat dels)) = n ->
  len mid = n - need adds dels 0.
Proof.
  intros Hn. pose proof (length_flat adds). pose proof (length_flat dels).
  autorewrite with lenDb in Hn.  unfold need. lia.
Qed.

Lemma put_add_spec adds dels d p : layout adds dels d -> need adds dels 1 <= len d ->
  wp (put_add d p) (fun d' => layout (adds ++ [p]) dels d' /\ len d' = len d).
Proof.
  intros (n&c&mid&->&Hn&Hb) Hr. rewrite Hn in Hr. pose proof (layout_gap _ _ _ _ _ Hn) as Hg.
  unfold need, init_size in *. pose proof (length_flat adds) as Ha.
  destruct mid as [|x [|y mid]]; [cbn in Hg; lia|cbn in Hg; lia|].
  unfold put_add. cbn [arr_get]. change (arr_get _ 1) with (Some (len adds)). cbn [mbind option_bind].
  wlen. eapply wp_known.
  { eapply arr_set_at with (pre := n :: len adds :: len dels :: c :: flat adds)
      (post := y :: mid ++ rev (flat dels)); [done|len_lia]. }
  eapply wp_known.
  { eapply arr_set_at with (pre := n :: len adds :: len dels :: c :: flat adds ++ [p.1])
      (post := mid ++ rev (flat dels)); [cbn [app]; by rewrite <- !app_assoc|len_lia]. }
  apply wp_ret. eapply wp_known.
  { eapply arr_set_at with (pre := [n]) (post := len dels :: c :: flat adds ++ p.1 :: p.2 :: mid ++ rev (flat dels));
      [cbn [app]; by rewrite <- !app_assoc|done]. }
  cbn [wp app]. split; [|len_lia].
  exists n, c, mid. rewrite flat_snoc, <- !app_assoc. cbn [app]. unfold init_size. split; [|len_lia].
  do 2 f_equal. len_lia.
Qed.

Lemma put_remove_spec adds dels d p : layout adds dels d -> need adds dels 1 <= len d ->
  wp (put_remove d p) (fun d' => layout adds (dels ++ [p]) d' /\ len d' = len d).
Proof.
  intros (n&c&mid&->&Hn&Hb) Hr. rewrite Hn in Hr. pose proof (layout_gap _ _ _ _ _ Hn) as Hg.
  unfold need, init_size in *. pose proof (length_flat adds) as Ha. pose proof (length_flat dels) as Hl.
  destruct mid as [|x mid _] using rev_ind; [cbn in Hg; lia|].
  destruct mid as [|y mid _] using rev_ind; [cbn in Hg; lia|].
  unfold put_remove. change (arr_get _ 0) with (Some n). change (arr_get _ 2) with (Some (len dels)).
  cbn [mbind option_bind]. rewrite <- !app_assoc in *. cbn [app] in *.
  autorewrite with lenDb in Hn, Hg.  wlen. eapply wp_known.
  { eapply arr_set_at with (pre := n :: len adds :: len dels :: c :: flat adds ++ mid ++ [y])
      (post := rev (flat dels)); [cbn [app]; by rewrite <- !app_assoc|len_lia]. }
  eapply wp_known.
  { eapply arr_set_at with (pre := n :: len adds :: len dels :: c :: flat adds ++ mid)
      (post := p.1 :: rev (flat dels)); [cbn [app]; by rewrite <- !app_assoc|len_lia]. }
  apply wp_ret. eapply wp_known.
  { eapply arr_set_at with (pre := [n; len adds])
      (post := c :: flat adds ++ mid ++ p.2 :: p.1 :: rev (flat dels));
      [cbn [app]; by rewrite <- !app_assoc|done]. }
  cbn [wp app]. split; [|len_lia].
  exists n, c, mid. rewrite flat_snoc, rev_app_distr. cbn [rev app].
  unfold init_size. split; [do 3 f_equal; len_lia|len_lia].
Qed.

Lemma for_values_add_spec vs adds dels d : layout adds dels d ->
  need adds dels (len vs) <= len d ->
  wp (for_values put_add vs d) (fun d' => layout (adds ++ vs) dels d').
Proof.
  revert adds d. induction vs as [|p vs IH]; intros adds d Hd Hn; cbn [for_values].
  { by rewrite app_nil_r. }
  apply wp_bind. eapply wp_mono; [|eapply put_add_spec; [done|unfold need in *; len_lia]].
  intros d' [Hd' Hl]. rewrite cons_middle, app_assoc.
  apply IH; [done|]. unfold need in *. len_lia.
Qed.

Lemma for_values_remove_spec vs adds dels d : layout adds dels d ->
  need adds dels (len vs) <= len d ->
  wp (for_values put_remove vs d) (fun d' => layout adds (dels ++ vs) d').
Proof.
  revert dels d. induction vs as [|p vs IH]; intros dels d Hd Hn; cbn [for_values].
  { by rewrite app_nil_r. }
  apply wp_bind. eapply wp_mono; [|eapply put_remove_spec; [done|unfold need in *; len_lia]].
  intros d' [Hd' Hl]. rewrite cons_middle, app_assoc.
  apply IH; [done|]. unfold need in *. len_lia.
Qed.

(** ** The operations

    [kept v v']: the timestamps are those of [v]. *)
Definition kept (v v' : Version) : Prop := begin_ts v' = begin_ts v /\ end_ts v' = end_ts v.

Lemma Version_new_spec b e :
  wp (Version_new junk b e) (fun v => holds [] [] v /\ begin_ts v = b /\ end_ts v = e).
Proof.
  unfold Version_new. apply wp_bind. eapply wp_mono; [|apply layout_new]. by intros d Hd.
Qed.

Lemma Version_add_spec adds dels v p : holds adds dels v -> need adds dels 1 < MAX_CELLS ->
  wp (Version_add junk v p) (fun v' => holds (adds ++ [p]) dels v' /\ kept v v').
Proof.
  intros Hv Hn. unfold Version_add. apply wp_bind.
  eapply wp_mono; [|by apply (expand_spec adds dels)]. intros d [Hd Hl].
  apply wp_bind. eapply wp_mono; [|by apply (put_add_spec adds dels)]. by intros d' [Hd' _].
Qed.

Lemma Version_remove_spec adds dels v p : holds adds dels v -> need adds dels 1 < MAX_CELLS ->
  wp (Version_remove junk v p) (fun v' => holds adds (dels ++ [p]) v' /\ kept v v').
Proof.
  intros Hv Hn. unfold Version_remove. apply wp_bind.
  eapply wp_mono; [|by apply (expand_spec adds dels)]. intros d [Hd Hl].
  apply wp_bind. eapply wp_mono; [|by apply (put_remove_spec adds dels)]. by intros d' [Hd' _].
Qed.

Lemma Version_batch_add_spec adds dels v vs : holds adds dels v ->
  need adds dels (len vs) < MAX_CELLS ->
  wp (Version_batch_add junk v vs) (fun v' => holds (adds ++ vs) dels v' /\ kept v v').
Proof.
  intros Hv Hn. unfold Version_batch_add. rewrite i32_small by (unfold need, MAX_CELLS in *; lia).
  apply wp_bind. eapply wp_mono; [|apply (expand_spec adds dels); [done|lia|done]]. intros d [Hd Hl].
  apply wp_bind. eapply wp_mono; [|by apply (for_values_add_spec vs adds dels)]. done.
Qed.

Lemma Version_batch_remove_spec adds dels v vs : holds adds dels v ->
  need adds dels (len vs) < MAX_CELLS ->
  wp (Version_batch_remove junk v vs) (fun v' => holds adds (dels ++ vs) v' /\ kept v v').
Proof.
  intros Hv Hn. unfold Version_batch_remove. rewrite i32_small by (unfold need, MAX_CELLS in *; lia).
  apply wp_bind. eapply wp_mono; [|apply (expand_spec adds dels); [done|lia|done]]. intros d [Hd Hl].
  apply wp_bind. eapply wp_mono; [|by apply (for_values_remove_spec vs adds dels)]. done.
Qed.
End Writes.

(** * Versions as changes of a set of pairs

    What the pairs collected by [Version::get_version] mean: a change
    [(add_set, del_set)] of the stored pairs, which the readers of a value list
    apply by adding the first set and then removing the second one. *)

Abbreviation delta := (VDataSet * VDataSet)%type.

(** The pairs a reader sees when [base] is stored. *)
Definition patched (base : VDataSet) (s : delta) : VDataSet := (base ∪ s.1) ∖ s.2.

(** The change adds only absent pairs and removes only stored ones. *)
Definition exact (base : VDataSet) (s : delta) : Prop := s.1 ## base /\ s.2 ⊆ base.

(** What the writes of one transaction do to the pairs [X] it started from. *)
Definition write_effect (adds dels : VDataArray) (X : VDataSet) : VDataSet :=
  (X ∪ list_to_set adds) ∖ list_to_set dels.

(** Each pair is added at most once and only when it is absent, and removed at
    most once and only when it is there. *)
Definition effective (adds dels : VDataArray) (X : VDataSet) : Prop :=
  NoDup adds /\ NoDup dels /\ (forall p, p ∈ adds -> p ∉ X) /\
  (forall p, p ∈ dels -> p ∈ X \/ p ∈ adds).

#[global] Instance effective_dec adds dels X : Decision (effective adds dels X).
Proof.
  unfold effective.
  refine (cast_if (decide (NoDup adds /\ NoDup dels /\ Forall (fun p => p ∉ X) adds /\
                           Forall (fun p => p ∈ X \/ p ∈ adds) dels)));
    abstract (rewrite !Forall_forall in *; tauto).
Defined.

(** What [get_version] does to a change. *)
Definition version_delta (adds dels : VDataArray) (s : delta) : delta :=
  fold_left (fun s p => apply_remove p s) dels (fold_left (fun s p => apply_add p s) adds s).

Lemma apply_add_disjoint p s : s.1 ## s.2 -> (apply_add p s).1 ## (apply_add p s).2.
Proof. destruct s as [A D]. cbn. case_decide; set_solver. Qed.

Lemma apply_remove_disjoint p s : s.1 ## s.2 -> (apply_remove p s).1 ## (apply_remove p s).2.
Proof. destruct s as [A D]. cbn. case_decide; set_solver. Qed.

(** No pair is both added and removed. *)
Lemma version_delta_disjoint adds dels s : s.1 ## s.2 ->
  (version_delta adds dels s).1 ## (version_delta adds dels s).2.
Proof.
  unfold version_delta. intros Hs.
  assert (Ha : (fold_left (fun s p => apply_add p s) adds s).1 ##
               (fold_left (fun s p => apply_add p s) adds s).2).
  { revert s Hs. induction adds as [|p adds IH]; intros s Hs; [done|]. by apply IH, apply_add_disjoint. }
  revert Ha. generalize (fold_left (fun s p => apply_add p s) adds s). clear.
  induction dels as [|p dels IH]; intros s Hs; [done|]. by apply IH, apply_remove_disjoint.
Qed.

Lemma patched_add base p s : exact base s -> p ∉ patched base s -> s.1 ## s.2 ->
  exact base (apply_add p s) /\ patched base (apply_add p s) = patched base s ∪ {[p]}.
Proof.
  destruct s as [A D]. unfold exact, patched. cbn [fst snd apply_add]. intros [He Hs] Hp Hd.
  destruct (decide (p ∈ D)) as [Hpd|Hpd]; cbn [fst snd].
  - split; [set_solver|]. apply set_eq. intros q. destruct (decide (q = p)) as [->|]; set_solver.
  - split; [set_solver|]. apply set_eq. intros q. destruct (decide (q = p)) as [->|]; set_solver.
Qed.

Lemma patched_remove base p s : exact base s -> p ∈ patched base s -> s.1 ## s.2 ->
  exact base (apply_remove p s) /\ patched base (apply_remove p s) = patched base s ∖ {[p]}.
Proof.
  destruct s as [A D]. unfold exact, patched. cbn [fst snd apply_remove]. intros [He Hs] Hp Hd.
  destruct (decide (p ∈ A)) as [Hpa|Hpa]; cbn [fst snd].
  - split; [set_solver|]. apply set_eq. intros q. destruct (decide (q = p)) as [->|]; set_solver.
  - split; [set_solver|]. apply set_eq. intros q. destruct (decide (q = p)) as [->|]; set_solver.
Qed.

Lemma patched_adds base adds s : exact base s -> s.1 ## s.2 -> NoDup adds ->
  (forall p, p ∈ adds -> p ∉ patched base s) ->
  let s' := fold_left (fun s p => apply_add p s) adds s in
  exact base s' /\ s'.1 ## s'.2 /\ patched base s' = patched base s ∪ list_to_set adds.
Proof.
  revert s. induction adds as [|p adds IH]; intros s He Hd Hn Hp; cbn.
  { split_and!; [done|done|set_solver]. }
  apply NoDup_cons in Hn as [Hpn Hn].
  destruct (patched_add base p s) as [He' Heq]; [done|set_solver|done|].
  destruct (IH (apply_add p s)) as (H1&H2&H3); [done|by apply apply_add_disjoint|done| |].
  { intros q Hq. rewrite Heq. assert (q <> p) by (intros ->; done). set_solver. }
  split_and!; [done|done|]. rewrite H3, Heq. set_solver.
Qed.

Lemma patched_removes base dels s : exact base s -> s.1 ## s.2 -> NoDup dels ->
  (forall p, p ∈ dels -> p ∈ patched base s) ->
  let s' := fold_left (fun s p => apply_remove p s) dels s in
  exact base s' /\ s'.1 ## s'.2 /\ patched base s' = patched base s ∖ list_to_set dels.
Proof.
  revert s. induction dels as [|p dels IH]; intros s He Hd Hn Hp; cbn.
  { split_and!; [done|done|set_solver]. }
  apply NoDup_cons in Hn as [Hpn Hn].
  destruct (patched_remove base p s) as [He' Heq]; [done|set_solver|done|].
  destruct (IH (apply_remove p s)) as (H1&H2&H3); [done|by apply apply_remove_disjoint|done| |].
  { intros q Hq. rewrite Heq. assert (q <> p) by (intros ->; done). set_solver. }
  split_and!; [done|done|]. rewrite H3, Heq. set_solver.
Qed.

(** The collected change stands for the effect of the writes of the version. *)
Lemma version_delta_effect base adds dels s : exact base s -> s.1 ## s.2 ->
  effective adds dels (patched base s) ->
  exact base (version_delta adds dels s) /\
  (version_delta adds dels s).1 ## (version_delta adds dels s).2 /\
  patched base (version_delta adds dels s) = write_effect adds dels (patched base s).
Proof.
  intros He Hd (Ha&Hr&Hpa&Hpr).
  destruct (patched_adds base adds s) as (H1&H2&H3); [done..|].
  destruct (patched_removes base dels (fold_left (fun s p => apply_add p s) adds s))
    as (H4&H5&H6); [done|done|done| |].
  { intros p Hp. rewrite H3. destruct (Hpr p Hp); set_solver. }
  unfold version_delta, write_effect. split_and!; [done|done|]. by rewrite H6, H3.
Qed.
