(* ===== verification/GLatch.v ===== *)
(** * The latch of an entry

    [GLatch] (Util/GraphLock.h, Util/GraphLock.cpp): a latch that one transaction
    holds exclusively, or any number of them share.  Every operation runs under
    the spin lock [latch], so it is one step; a failed [assert] is [None].
    [glatch_step] interleaves the operations of transactions that follow the
    protocol of the callers, and the invariant of its reachable states is that the
    two fields describe who really holds the latch. *)

From S2P Require Import Prelude.

Definition INVALID_TID : Z := W64 - 1.

Record GLatch := mk_GLatch { _TID : Z; _RCNT : Z }.

Definition GLatch_new : GLatch := mk_GLatch INVALID_TID 0.

Definition assert_M {S} (b : bool) : M S unit := fun s => if b then Some (tt, s) else None.
Definition get_M {S} : M S S := fun s => Some (s, s).
Definition put_M {S} (s : S) : M S unit := fun _ => Some (tt, s).

Definition is_own_latch (TID : Z) : M GLatch bool :=
  let! g := get_M in retM (_TID g =? TID).

Definition tryexclusivelatch (TID : Z) (IS_SR : bool) : M GLatch bool :=
  let! g := get_M in
  if _TID g =? TID then
    let! _ := (if IS_SR then assert_M (_RCNT g =? 1) else retM tt) in retM true
  else if IS_SR then
    if negb (_TID g =? INVALID_TID) || negb (_RCNT g =? 0) then retM false
    else let! _ := put_M (mk_GLatch TID 1) in retM true
  else
    if negb (_TID g =? INVALID_TID) then retM false
    else let! _ := put_M (mk_GLatch TID (_RCNT g)) in retM true.

Definition trysharedlatch (TID : Z) : M GLatch bool :=
  let! g := get_M in
  if _TID g =? TID then let! _ := assert_M (_RCNT g =? 1) in retM true
  else if negb (_TID g =? INVALID_TID) then retM false
  else let! _ := put_M (mk_GLatch (_TID g) (u64 (_RCNT g + 1))) in retM true.

(** [type] is [true] for the exclusive latch. *)
Definition unlatch (TID : Z) (type IS_SR : bool) : M GLatch bool :=
  let! g := get_M in
  if type then
    if negb (TID =? _TID g) then retM false
    else if IS_SR then
      if negb (_RCNT g =? 1) then retM false
      else let! _ := put_M (mk_GLatch INVALID_TID (u64 (_RCNT g - 1))) in retM true
    else let! _ := put_M (mk_GLatch INVALID_TID (_RCNT g)) in retM true
  else
    if negb IS_SR then retM false
    else
      let! _ := assert_M (_TID g =? INVALID_TID) in
      if _RCNT g <=? 0 then retM false
      else let! _ := put_M (mk_GLatch (_TID g) (u64 (_RCNT g - 1))) in retM true.

Definition tryupgradelatch (TID : Z) : M GLatch bool :=
  let! g := get_M in
  let! ret :=
    (if negb (_TID g =? INVALID_TID) then retM false
     else if negb (_RCNT g =? 1) then retM false
     else let! _ := put_M (mk_GLatch TID (_RCNT g)) in retM true) in
  let! g := get_M in
  let! _ := (if negb ret then assert_M (_TID g =? INVALID_TID) else retM tt) in
  retM ret.

Definition trydowngradelatch (TID : Z) : M GLatch bool :=
  let! g := get_M in
  if negb (_TID g =? TID) then retM false
  else if negb (_RCNT g =? 1) then retM false
  else let! _ := put_M (mk_GLatch INVALID_TID (_RCNT g)) in retM true.

(** The status queries of the header; [get_TID] and [get_readers] pass through
    an [int]. *)
Definition is_exclusive_latched (IS_SR : bool) : M GLatch bool :=
  let! g := get_M in retM (negb (_TID g =? INVALID_TID)).
Definition is_shared_latched (IS_SR : bool) : M GLatch bool :=
  let! g := get_M in retM (negb (_RCNT g =? 0)).
Definition is_latched (IS_SR : bool) : M GLatch bool :=
  let! g := get_M in retM (negb (_TID g =? INVALID_TID) || negb (_RCNT g =? 0)).
Definition get_readers : M GLatch Z :=
  let! g := get_M in retM (u64 (i32 (_RCNT g))).
Definition get_TID : M GLatch Z :=
  let! g := get_M in retM (u64 (i32 (_TID g))).

(** ** Who holds the latch *)

Inductive holders :=
  | Free_or_shared (readers : list Z)
  | Exclusive (owner : Z).

(** The fields describe the holders. *)
Definition latch_of (h : holders) : GLatch :=
  match h with
  | Free_or_shared rs => mk_GLatch INVALID_TID (len rs)
  | Exclusive t => mk_GLatch t 1
  end.

(** Transaction ids start at 1 and stay below [INVALID_TID]. *)
Definition tid_ok (t : Z) : Prop := 0 < t < INVALID_TID.

Definition holders_ok (h : holders) : Prop :=
  match h with
  | Free_or_shared rs => Forall tid_ok rs /\ len rs < INVALID_TID
  | Exclusive t => tid_ok t
  end.

(** The abstract latch: the answer to each call and the holders after it. *)
Definition excl_spec (t : Z) (h : holders) : bool * holders :=
  match h with
  | Free_or_shared [] => (true, Exclusive t)
  | Free_or_shared _ => (false, h)
  | Exclusive t' => (bool_decide (t' = t), h)
  end.

Definition shared_spec (t : Z) (h : holders) : bool * holders :=
  match h with
  | Free_or_shared rs => (true, Free_or_shared (t :: rs))
  | Exclusive t' => (bool_decide (t' = t), h)
  end.

Definition upgrade_spec (t : Z) (h : holders) : bool * holders :=
  match h with
  | Free_or_shared [r] => (true, Exclusive t)
  | _ => (false, h)
  end.

Definition downgrade_spec (t : Z) (h : holders) : bool * holders :=
  match h with
  | Exclusive t' => if bool_decide (t' = t) then (true, Free_or_shared [t]) else (false, h)
  | _ => (false, h)
  end.

Definition unlatch_x_spec (t : Z) (h : holders) : bool * holders :=
  match h with
  | Exclusive t' => if bool_decide (t' = t) then (true, Free_or_shared []) else (false, h)
  | _ => (false, h)
  end.

(** One reader less. *)
Fixpoint remove_one (t : Z) (l : list Z) : list Z :=
  match l with
  | [] => []
  | x :: l' => if decide (x = t) then l' else x :: remove_one t l'
  end.

Definition unlatch_s_spec (t : Z) (h : holders) : bool * holders :=
  match h with
  | Free_or_shared rs => (true, Free_or_shared (remove_one t rs))
  | Exclusive _ => (false, h)
  end.

Lemma len_remove_one t rs : t ∈ rs -> len (remove_one t rs) = len rs - 1.
Proof.
  induction rs as [|x rs IH]; [by intros ?%elem_of_nil|]. cbn. case_decide; [cbn; lia|].
  intros [->|Hin]%elem_of_cons; [done|]. cbn. specialize (IH Hin). lia.
Qed.

Lemma remove_one_ok t rs : Forall tid_ok rs -> Forall tid_ok (remove_one t rs).
Proof. induction 1; cbn; [constructor|]. case_decide; [done|by constructor]. Qed.

(** Runs [m] from the fields of [h] as the abstract operation says. *)
Definition implements (m : M GLatch bool) (spec : bool * holders) (h : holders) : Prop :=
  m (latch_of h) = Some (spec.1, latch_of spec.2).

Ltac latch_cases :=
  unfold implements, latch_of, bindM, get_M, put_M, assert_M, retM, tid_ok, INVALID_TID, W64, u64 in *;
  cbn in *; repeat (case_bool_decide; cbn in *);
  repeat match goal with
  | |- context [?a =? ?b] => destruct (Z.eqb_spec a b); subst; try lia; cbn in *
  | |- context [?a <=? ?b] => destruct (Z.leb_spec a b); try lia; cbn in *
  end; try done; try (by rewrite ?Z.mod_small by (unfold W64; lia); do 3 f_equal; lia).

Section Implementation.
Context (t : Z) (Ht : tid_ok t).

Lemma tryexclusivelatch_implements h : holders_ok h ->
  implements (tryexclusivelatch t true) (excl_spec t h) h.
Proof.
  intros Hh. unfold tryexclusivelatch. destruct h as [[|r rs]|t']; cbn in Hh; latch_cases.
Qed.

Lemma trysharedlatch_implements h : holders_ok h ->
  implements (trysharedlatch t) (shared_spec t h) h.
Proof.
  intros Hh. unfold trysharedlatch. destruct h as [rs|t']; cbn in Hh; latch_cases.
Qed.

Lemma tryupgradelatch_implements rs : holders_ok (Free_or_shared rs) ->
  implements (tryupgradelatch t) (upgrade_spec t (Free_or_shared rs)) (Free_or_shared rs).
Proof.
  intros Hh. unfold tryupgradelatch. destruct rs as [|r [|r' rs]]; cbn in Hh; latch_cases.
Qed.

Lemma trydowngradelatch_implements h : holders_ok h ->
  implements (trydowngradelatch t) (downgrade_spec t h) h.
Proof.
  intros Hh. unfold trydowngradelatch. destruct h as [rs|t']; cbn in Hh; latch_cases.
Qed.

Lemma unlatch_x_implements h : holders_ok h ->
  implements (unlatch t true true) (unlatch_x_spec t h) h.
Proof.
  intros Hh. unfold unlatch. destruct h as [rs|t']; cbn in Hh; latch_cases.
Qed.

Lemma unlatch_s_implements rs : holders_ok (Free_or_shared rs) -> t ∈ rs ->
  implements (unlatch t false true) (unlatch_s_spec t (Free_or_shared rs)) (Free_or_shared rs).
Proof.
  intros Hh Hin. pose proof (len_remove_one t rs Hin).
  assert (1 <= len rs) by (destruct rs; [by apply elem_of_nil in Hin|cbn; lia]).
  unfold unlatch. cbn in Hh. latch_cases.
Qed.

End Implementation.

(** ** Interleavings

    [shared_by] and [owned_by] are the transactions that were answered [true] and
    have not given the latch back: what the callers believe, whatever the fields
    of the latch are. *)

Record lstate := mk_lstate {
  latch : GLatch;
  shared_by : list Z;
  owned_by : list Z }.

Definition lstate_init : lstate := mk_lstate GLatch_new [] [].

(** The calls of [IVEntry]: a transaction asks for a shared latch at its first
    read of the entry, for an upgrade when it has read it, and gives back what it
    holds. *)
Inductive glatch_step : lstate -> lstate -> Prop :=
  | step_exclusive t s ret g : tid_ok t -> t ∉ shared_by s ->
      tryexclusivelatch t true (latch s) = Some (ret, g) ->
      glatch_step s (mk_lstate g (shared_by s)
        (if ret then if decide (t ∈ owned_by s) then owned_by s else t :: owned_by s else owned_by s))
  | step_shared t s ret g : tid_ok t -> t ∉ shared_by s -> t ∉ owned_by s ->
      trysharedlatch t (latch s) = Some (ret, g) ->
      glatch_step s (mk_lstate g (if ret then t :: shared_by s else shared_by s) (owned_by s))
  | step_upgrade t s ret g : t ∈ shared_by s ->
      tryupgradelatch t (latch s) = Some (ret, g) ->
      glatch_step s (if ret then mk_lstate g (remove_one t (shared_by s)) (t :: owned_by s)
                     else mk_lstate g (shared_by s) (owned_by s))
  | step_downgrade t s ret g : t ∈ owned_by s ->
      trydowngradelatch t (latch s) = Some (ret, g) ->
      glatch_step s (if ret then mk_lstate g (t :: shared_by s) (remove_one t (owned_by s))
                     else mk_lstate g (shared_by s) (owned_by s))
  | step_unlatch_x t s ret g : t ∈ owned_by s ->
      unlatch t true true (latch s) = Some (ret, g) ->
      glatch_step s (mk_lstate g (shared_by s)
        (if ret then remove_one t (owned_by s) else owned_by s))
  | step_unlatch_s t s ret g : t ∈ shared_by s ->
      unlatch t false true (latch s) = Some (ret, g) ->
      glatch_step s (mk_lstate g (if ret then remove_one t (shared_by s) else shared_by s)
        (owned_by s)).

Definition lreachable : lstate -> Prop := rtc glatch_step lstate_init.

(** The beliefs as holders. *)
Definition believed (s : lstate) : holders :=
  match owned_by s with
  | t :: _ => Exclusive t
  | [] => Free_or_shared (shared_by s)
  end.

(** The invariant: the fields are those of the believed holders. *)
Record latch_inv (s : lstate) : Prop := {
  inv_latch : latch s = latch_of (believed s);
  inv_excl : owned_by s = [] \/ (exists t, owned_by s = [t] /\ tid_ok t /\ shared_by s = []);
  inv_ids : Forall tid_ok (shared_by s);
  inv_nodup : NoDup (shared_by s) }.

Lemma NoDup_tids l : Forall tid_ok l -> NoDup l -> len l < INVALID_TID.
Proof.
  intros Hf Hn. unfold INVALID_TID, W64.
  assert (length l <= length (seqZ 1 (INVALID_TID - 1)))%nat as Hle.
  { apply NoDup_incl_length'; [done|]. intros x Hx. rewrite Forall_forall in Hf.
    apply elem_of_seqZ. specialize (Hf x Hx). unfold tid_ok in Hf. lia. }
  rewrite length_seqZ in Hle. unfold INVALID_TID, W64 in Hle. lia.
Qed.

Lemma believed_ok s : latch_inv s -> holders_ok (believed s).
Proof.
  intros [Hl Hx Hi Hn]. unfold believed. destruct Hx as [->|(t&->&Ht&_)]; cbn; [|done].
  split; [done|]. by apply NoDup_tids.
Qed.

(** A step from a state of the invariant has the result of the abstract latch. *)
Lemma implements_result m spec h (g g' : GLatch) ret :
  implements m spec h -> g = latch_of h -> m g = Some (ret, g') ->
  ret = spec.1 /\ g' = latch_of spec.2.
Proof. unfold implements. intros Hm -> Hr. by simplify_eq. Qed.

Lemma remove_one_NoDup t l : NoDup l -> NoDup (remove_one t l).
Proof.
  induction 1 as [|x l Hx Hn IH]; cbn; [constructor|]. case_decide; [done|].
  constructor; [|done]. intros Hin. apply Hx. clear -Hin.
  induction l as [|y l IH]; cbn in Hin; [done|]. case_decide; set_solver.
Qed.

Lemma latch_inv_free g S : g = latch_of (Free_or_shared S) -> Forall tid_ok S -> NoDup S ->
  latch_inv (mk_lstate g S []).
Proof. intros. split; cbn; auto. Qed.

Lemma latch_inv_owned g t : g = latch_of (Exclusive t) -> tid_ok t ->
  latch_inv (mk_lstate g [] [t]).
Proof. intros. split; cbn; [done|right; by exists t|constructor|constructor]. Qed.

(** The two shapes of a state of the invariant. *)
Lemma latch_inv_cases s : latch_inv s ->
  (exists S, s = mk_lstate (latch_of (Free_or_shared S)) S [] /\ Forall tid_ok S /\ NoDup S /\
     holders_ok (Free_or_shared S)) \/
  (exists t, s = mk_lstate (latch_of (Exclusive t)) [] [t] /\ tid_ok t).
Proof.
  intros Hi. pose proof (believed_ok s Hi) as Hh. destruct Hi as [Hl Hx Hi Hn].
  destruct s as [g S X]. unfold believed in *. cbn in *.
  destruct Hx as [->|(t&->&Ht&->)]; [left; exists S|right; exists t]; by subst.
Qed.

Ltac step_result H lem :=
  eapply implements_result in H; [|apply lem|reflexivity]; [destruct H as [-> ->];
    cbn [fst snd excl_spec shared_spec downgrade_spec unlatch_x_spec unlatch_s_spec]|..].

Lemma glatch_step_inv s s' : latch_inv s -> glatch_step s s' -> latch_inv s'.
Proof.
  intros Hi Hs.
  destruct (latch_inv_cases s Hi) as [(S&->&HS&Hn&Hh)|(x&->&Hx)]; inversion Hs; subst;
    cbn [latch shared_by owned_by] in *; clear Hs.
  - step_result H1 (tryexclusivelatch_implements t H (Free_or_shared S)); [|done].
    destruct S as [|r S]; cbn; [by apply latch_inv_owned|by apply latch_inv_free].
  - step_result H2 (trysharedlatch_implements t H (Free_or_shared S)); [|done].
    by apply latch_inv_free; [|constructor..].
  - assert (tid_ok t) by (rewrite Forall_forall in HS; auto).
    step_result H0 (tryupgradelatch_implements t S); [|done].
    destruct S as [|r [|r' S]]; cbn; [by apply latch_inv_free| |by apply latch_inv_free].
    apply list_elem_of_singleton in H as ->. rewrite decide_True by done. by apply latch_inv_owned.
  - by apply elem_of_nil in H.
  - by apply elem_of_nil in H.
  - assert (tid_ok t) by (rewrite Forall_forall in HS; auto).
    step_result H0 (unlatch_s_implements t S); [|done|done].
    apply latch_inv_free; [done|by apply remove_one_ok|by apply remove_one_NoDup].
  - step_result H1 (tryexclusivelatch_implements t H (Exclusive x)); [|done].
    case_bool_decide as He; [subst; rewrite decide_True by set_solver|]; by apply latch_inv_owned.
  - step_result H2 (trysharedlatch_implements t H (Exclusive x)); [|done].
    case_bool_decide as He; [subst; set_solver|]; by apply latch_inv_owned.
  - by apply elem_of_nil in H.
  - apply list_elem_of_singleton in H as ->.
    step_result H0 (trydowngradelatch_implements x Hx (Exclusive x)); [|done].
    rewrite bool_decide_true by done. cbn. rewrite decide_True by done.
    apply latch_inv_free; [done|by constructor|apply NoDup_singleton].
  - apply list_elem_of_singleton in H as ->.
    step_result H0 (unlatch_x_implements x Hx (Exclusive x)); [|done].
    rewrite bool_decide_true by done. cbn. rewrite decide_True by done.
    apply latch_inv_free; [done|constructor|constructor].
  - by apply elem_of_nil in H.
Qed.

Lemma lreachable_inv s : lreachable s -> latch_inv s.
Proof.
  unfold lreachable. intros Hr.
  assert (Hi : latch_inv lstate_init) by (apply latch_inv_free; [done|constructor|constructor]).
  induction Hr as [|s1 s2 s3 Hs Hr IH]; [done|]. apply IH. by eapply glatch_step_inv.
Qed.

(** The call ends without a failed assertion. *)
Definition runs (m : M GLatch bool) (g : GLatch) : Prop := is_Some (m g).

Lemma implements_runs m spec h : implements m spec h -> runs m (latch_of h).
Proof. unfold implements, runs. intros ->. by eexists. Qed.

Lemma calls_run s t : latch_inv s -> tid_ok t ->
  runs (tryexclusivelatch t true) (latch s) /\ runs (trysharedlatch t) (latch s) /\
  (t ∈ shared_by s -> runs (tryupgradelatch t) (latch s) /\ runs (unlatch t false true) (latch s)) /\
  (t ∈ owned_by s -> trydowngradelatch t (latch s) = Some (true, latch_of (Free_or_shared [t])) /\
                     unlatch t true true (latch s) = Some (true, latch_of (Free_or_shared []))).
Proof.
  intros Hi Ht.
  destruct (latch_inv_cases s Hi) as [(S&->&HS&Hn&Hh)|(x&->&Hx)]; cbn [latch shared_by owned_by].
  - split_and!.
    + by eapply implements_runs, tryexclusivelatch_implements.
    + by eapply implements_runs, trysharedlatch_implements.
    + intros Hin. split; [by eapply implements_runs, tryupgradelatch_implements|].
      by eapply implements_runs, unlatch_s_implements.
    + by intros ?%elem_of_nil.
  - split_and!.
    + by eapply implements_runs, tryexclusivelatch_implements.
    + by eapply implements_runs, trysharedlatch_implements.
    + by intros ?%elem_of_nil.
    + intros ->%list_elem_of_singleton.
      pose proof (trydowngradelatch_implements x Hx (Exclusive x) Hx) as H1.
      pose proof (unlatch_x_implements x Hx (Exclusive x) Hx) as H2.
      unfold implements, downgrade_spec, unlatch_x_spec in *. by rewrite bool_decide_true in H1, H2 by done.
Qed.
