(* ===== verification/Transaction.v ===== *)
(** * Transactions

    [Transaction] (Util/Transaction.h, Util/Transaction.cpp): the ids, the state
    and the sets of subjects, predicates and objects a transaction has read and
    written.  The name of the database and the wall-clock times are left out:
    nothing of what follows reads them. *)

From S2P Require Import Prelude.

Inductive TransactionState := WAITING | RUNNING | COMMITTED | ABORTED.
Inductive TransactionErrorType := SUB_X | PRE_X | OBJ_X | SUB_S | PRE_S | OBJ_S.
Inductive IsolationLevelType := INVALID_LEVEL | SERIALIZABLE | SNAPSHOT | READ_COMMITTED.
Inductive IDType := SUBJECT | PREDICATE | OBJECT.

#[global] Instance TransactionState_eq_dec : EqDecision TransactionState.
Proof. solve_decision. Defined.
#[global] Instance IsolationLevelType_eq_dec : EqDecision IsolationLevelType.
Proof. solve_decision. Defined.
#[global] Instance IDType_eq_dec : EqDecision IDType.
Proof. solve_decision. Defined.

Abbreviation IDSet := (gset Z).

(** [(unsigned)_type]. *)
Definition ix (ty : IDType) : nat :=
  match ty with SUBJECT => 0 | PREDICATE => 1 | OBJECT => 2 end.

Record Transaction := mk_Transaction {
  TID : Z;
  CommitID : Z;
  txn_state : TransactionState;
  errormsg : option TransactionErrorType;
  ReadSet : list IDSet;
  WriteSet : list IDSet;
  isolation : IsolationLevelType;
  update_num : Z }.

(** The constructor; [CommitID] is left unset by it, and set by the manager. *)
Definition Transaction_new (cid _TID : Z) (_isolation : IsolationLevelType) : Transaction :=
  mk_Transaction _TID cid WAITING None (replicate 3 ∅) (replicate 3 ∅)
    (match _isolation with INVALID_LEVEL => SNAPSHOT | l => l end) 0.

Definition SetState (s : TransactionState) (t : Transaction) : Transaction :=
  mk_Transaction (TID t) (CommitID t) s (errormsg t) (ReadSet t) (WriteSet t) (isolation t) (update_num t).
Definition SetErrorType (e : TransactionErrorType) (t : Transaction) : Transaction :=
  mk_Transaction (TID t) (CommitID t) (txn_state t) (Some e) (ReadSet t) (WriteSet t) (isolation t) (update_num t).
Definition SetCommitID (c : Z) (t : Transaction) : Transaction :=
  mk_Transaction (TID t) c (txn_state t) (errormsg t) (ReadSet t) (WriteSet t) (isolation t) (update_num t).
Definition set_ReadSet (r : list IDSet) (t : Transaction) : Transaction :=
  mk_Transaction (TID t) (CommitID t) (txn_state t) (errormsg t) r (WriteSet t) (isolation t) (update_num t).
Definition set_WriteSet (w : list IDSet) (t : Transaction) : Transaction :=
  mk_Transaction (TID t) (CommitID t) (txn_state t) (errormsg t) (ReadSet t) w (isolation t) (update_num t).

Definition ids_insert (id : Z) (ty : IDType) (sets : list IDSet) : list IDSet :=
  alter (fun s => {[id]} ∪ s) (ix ty) sets.
Definition ids_erase (id : Z) (ty : IDType) (sets : list IDSet) : list IDSet :=
  alter (fun s => s ∖ {[id]}) (ix ty) sets.
Definition ids_find (id : Z) (ty : IDType) (sets : list IDSet) : bool :=
  match sets !! ix ty with Some s => bool_decide (id ∈ s) | None => false end.

Definition ReadSetInsert (id : Z) (ty : IDType) (t : Transaction) : Transaction :=
  set_ReadSet (ids_insert id ty (ReadSet t)) t.
Definition ReadSetDelete (id : Z) (ty : IDType) (t : Transaction) : Transaction :=
  set_ReadSet (ids_erase id ty (ReadSet t)) t.
Definition ReadSetFind (id : Z) (ty : IDType) (t : Transaction) : bool := ids_find id ty (ReadSet t).

Definition WriteSetInsert (s p o : Z) (t : Transaction) : Transaction :=
  set_WriteSet (ids_insert o OBJECT (ids_insert p PREDICATE (ids_insert s SUBJECT (WriteSet t)))) t.
Definition WriteSetDelete (s p o : Z) (t : Transaction) : Transaction :=
  set_WriteSet (ids_erase o OBJECT (ids_erase p PREDICATE (ids_erase s SUBJECT (WriteSet t)))) t.
Definition WriteSetFind (id : Z) (ty : IDType) (t : Transaction) : bool := ids_find id ty (WriteSet t).

(** Both vectors hold the three sets. *)
Definition txn_wf (t : Transaction) : Prop := length (ReadSet t) = 3%nat /\ length (WriteSet t) = 3%nat.

Lemma ix_lt ty : (ix ty < 3)%nat.
Proof. destruct ty; cbn; lia. Qed.

Lemma ix_inj ty ty' : ix ty = ix ty' -> ty = ty'.
Proof. by destruct ty, ty'. Qed.

Lemma ids_find_true id ty sets :
  ids_find id ty sets = true <-> exists s, sets !! ix ty = Some s /\ id ∈ s.
Proof.
  unfold ids_find. destruct (sets !! ix ty) as [s|]; [|split; [done|by intros (?&?&?)]].
  rewrite bool_decide_eq_true. split; [by eexists|by intros (?&?&?); simplify_eq].
Qed.

Lemma ids_find_insert id id' ty ty' sets : length sets = 3%nat ->
  ids_find id' ty' (ids_insert id ty sets) = true <->
  (id' = id /\ ty' = ty) \/ ids_find id' ty' sets = true.
Proof.
  intros Hl. rewrite !ids_find_true. unfold ids_insert.
  destruct (lookup_lt_is_Some_2 sets (ix ty')) as [s Hs]; [rewrite Hl; apply ix_lt|].
  destruct (decide (ty = ty')) as [<-|Hne].
  - rewrite list_lookup_alter_eq, Hs. cbn. split; [intros (?&[= <-]&?); set_solver|].
    intros [[-> _]|(?&[= <-]&?)]; eexists; (split; [done|set_solver]).
  - rewrite list_lookup_alter_ne by (intros ?%ix_inj; done). rewrite Hs.
    split; [intros (?&?&?); right; eauto|]. intros [[_ ->]|?]; done.
Qed.

Lemma length_ids_insert id ty sets : length (ids_insert id ty sets) = length sets.
Proof. apply length_alter. Qed.
