(* ===== verification/IVEntry.v ===== *)
(** * The versions of an entry

    The multi-version half of [IVEntry] (KVstore/IVArray/IVEntry.h and .cpp): the
    latch, the version flag and the list of versions of one id, the newest last.
    A committed version has the commit ids of its transaction and of the next one
    as timestamps; a version whose transaction is running has [INVALID_TS] and the
    id of the transaction.  Each operation runs under the latch [rwLatch], so it
    is one step.  The stored value and its cache flags are the business of the
    arrays ([ValueStore]).  A failed [assert] and an access outside of the list
    are [None]. *)

From S2P Require Import Prelude Version GLatch Transaction.

Record IVEntry := mk_IVEntry {
  glatch : GLatch;
  is_versioned : bool;
  vList : list Version }.

Inductive LatchType := SHARED | EXCLUSIVE.

Definition set_glatch (g : GLatch) (e : IVEntry) : IVEntry := mk_IVEntry g (is_versioned e) (vList e).
Definition set_vList (vs : list Version) (e : IVEntry) : IVEntry := mk_IVEntry (glatch e) (is_versioned e) vs.

Definition IS_SR (txn : Transaction) : bool := bool_decide (isolation txn = SERIALIZABLE).

(** A call on the latch of the entry. *)
Definition on_glatch (m : M GLatch bool) : M IVEntry bool :=
  fun e => '(ret, g) ← m (glatch e); Some (ret, set_glatch g e).

(** [vList.back()]. *)
Definition newest (e : IVEntry) : option Version := last (vList e).

Definition setVersionFlag (e : IVEntry) : IVEntry := mk_IVEntry (glatch e) true (vList e).
Definition clearVersionFlag (e : IVEntry) : IVEntry := mk_IVEntry (glatch e) false (vList e).

(** ** Reading *)

(** The version belongs to the running transaction [TID]. *)
Definition is_private (TID : Z) (v : Version) : bool :=
  (begin_ts v =? INVALID_TS) && (end_ts v =? TID).

Fixpoint get_versions (vs : list Version) (s : VDataSet * VDataSet)
    : option (VDataSet * VDataSet) :=
  match vs with
  | [] => Some s
  | v :: vs' => s ← get_version v s; get_versions vs' s
  end.

Definition getLatestVersion (TID : Z) (e : IVEntry) (s : VDataSet * VDataSet)
    : option (VDataSet * VDataSet) :=
  v ← newest e;
  s ← get_versions (removelast (vList e)) s;
  if is_private TID v || (end_ts v =? INVALID_TS) then get_version v s else Some s.

Definition checkVersion (TID : Z) (IS_RC : bool) (e : IVEntry) : option bool :=
  latest ← newest e;
  Some (if begin_ts latest =? INVALID_TS then end_ts latest =? TID
        else negb (negb IS_RC && (TID <? begin_ts latest))).

Definition checkheadVersion (TID : Z) (e : IVEntry) : option Z :=
  v ← newest e;
  let ret := if (begin_ts v =? INVALID_TS) && (end_ts v <? TID) then -1 else 0 in
  Some (if begin_ts v <=? TID then 1 else ret).

(** The loop of [getProperVersion], with its [break]. *)
Fixpoint proper_loop (TID : Z) (vs : list Version) (s : VDataSet * VDataSet)
    : option (VDataSet * VDataSet) :=
  match vs with
  | [] => Some s
  | v :: vs' =>
      if TID <? begin_ts v then Some s
      else s ← get_version v s; proper_loop TID vs' s
  end.

Definition getProperVersion (TID : Z) (e : IVEntry) (s : VDataSet * VDataSet)
    : option (VDataSet * VDataSet) :=
  s ← proper_loop TID (vList e) s;
  v ← newest e;
  if is_private TID v then get_version v s else Some s.

(** [ReadVersion]: the answer, [latched], the two sets and the entry. *)
Record read_result := mk_read {
  read_ret : bool;
  read_latched : bool;
  read_sets : VDataSet * VDataSet;
  read_entry : IVEntry }.

Definition ReadVersion (s : VDataSet * VDataSet) (txn : Transaction) (latched first_read : bool)
    (e : IVEntry) : option read_result :=
  match isolation txn with
  | READ_COMMITTED =>
      s ← getLatestVersion (TID txn) e s; Some (mk_read true latched s e)
  | SNAPSHOT =>
      s ← getProperVersion (TID txn) e s; Some (mk_read true latched s e)
  | SERIALIZABLE =>
      ret ← checkheadVersion (TID txn) e;
      if ret =? -1 then
        if negb latched then Some (mk_read false latched s e) else None
      else if (ret =? 1) && first_read then
        '(latched, e) ← on_glatch (trysharedlatch (TID txn)) e;
        if negb latched then Some (mk_read false false s e)
        else s ← getProperVersion (TID txn) e s; Some (mk_read true latched s e)
      else s ← getProperVersion (TID txn) e s; Some (mk_read true latched s e)
  | INVALID_LEVEL => None
  end.

(** ** Writing *)

Section Writing.
Context (junk : nat -> Z).

Definition allocVersionTransation : option IVEntry :=
  p ← Version_new junk 0 INVALID_TS;
  Some (clearVersionFlag (mk_IVEntry GLatch_new false [p])).

(** [vList.push_back(new_version); setVersionFlag()]. *)
Definition push_version (new_version : Version) (e : IVEntry) : IVEntry :=
  setVersionFlag (set_vList (vList e ++ [new_version]) e).

Definition GetExclusiveLatch (txn : Transaction) (has_read : bool) : M IVEntry Z := fun e =>
  new_version ← Version_new junk INVALID_TS (TID txn);
  match isolation txn with
  | READ_COMMITTED =>
      ok ← checkVersion (TID txn) true e;
      if negb ok then Some (0, e) else Some (1, push_version new_version e)
  | SNAPSHOT =>
      ok ← checkVersion (TID txn) false e;
      if negb ok then Some (0, e) else Some (1, push_version new_version e)
  | SERIALIZABLE =>
      ok ← checkVersion (TID txn) false e;
      if negb ok then Some (0, e)
      else
        '(got, e) ← on_glatch (if has_read then tryupgradelatch (TID txn)
                               else tryexclusivelatch (TID txn) true) e;
        if negb got then Some (0, e) else Some (1, push_version new_version e)
  | INVALID_LEVEL => Some (0, e)
  end.

(** [for(auto it: set) vList.back()->op(it)]. *)
Fixpoint write_all (op : Version -> VData -> option Version) (ps : VDataArray) (v : Version)
    : option Version :=
  match ps with
  | [] => Some v
  | p :: ps' => v ← op v p; write_all op ps' v
  end.

Definition WriteVersion (AddSet DelSet : VDataSet) : M IVEntry Z := fun e =>
  v ← newest e;
  v ← write_all (Version_add junk) (set_order AddSet) v;
  v ← write_all (Version_remove junk) (set_order DelSet) v;
  Some (1, set_vList (removelast (vList e) ++ [v]) e).

Definition CleanAllVersion (e : IVEntry) : option IVEntry :=
  p ← Version_new junk 0 INVALID_TS;
  Some (clearVersionFlag (set_vList [p] e)).

End Writing.

(** ** The end of a transaction *)

(** [vList.pop_back()]. *)
Definition pop_version (e : IVEntry) : option IVEntry :=
  _ ← newest e; Some (set_vList (removelast (vList e)) e).

Definition InvalidExlusiveLatch (txn : Transaction) (has_read : bool) : M IVEntry bool := fun e =>
  if IS_SR txn then
    if has_read then
      '(ret, e) ← on_glatch (trydowngradelatch (TID txn)) e;
      if negb ret then None else e ← pop_version e; Some (true, e)
    else
      '(ret, e) ← on_glatch (unlatch (TID txn) true (IS_SR txn)) e;
      if negb ret then Some (false, e) else e ← pop_version e; Some (true, e)
  else e ← pop_version e; Some (true, e).

(** The timestamps of the last two versions at a commit. *)
Definition stamp_versions (cid : Z) (vs : list Version) : option (list Version) :=
  let k := length vs in
  v ← vs !! (k - 1)%nat;
  let vs := <[(k - 1)%nat := set_end_ts INVALID_TS (set_begin_ts cid v)]> vs in
  if (k <? 2)%nat then None
  else u ← vs !! (k - 2)%nat; Some (<[(k - 2)%nat := set_end_ts cid u]> vs).

Definition UnLatch (txn : Transaction) (latch_type : LatchType) : M IVEntry bool := fun e =>
  match latch_type with
  | SHARED =>
      if IS_SR txn then on_glatch (unlatch (TID txn) false (IS_SR txn)) e
      else Some (false, e)
  | EXCLUSIVE =>
      '(ret, e) ← (if IS_SR txn then on_glatch (unlatch (TID txn) true (IS_SR txn)) e
                   else Some (true, e));
      if negb ret then Some (false, e)
      else vs ← stamp_versions (CommitID txn) (vList e); Some (true, set_vList vs e)
  end.
