(* ===== verification/IVEntrySpec.v ===== *)
(** * Correctness of the versions of an entry

    An entry stands for the history of the transactions that committed a change
    of its pairs, and for the change of the transaction that is writing it now.
    The readers return the pairs of a prefix of the history, the writers extend
    the pending change, and the end of the transaction moves it into the history
    or drops it. *)

From S2P Require Import Prelude Version VersionSpec GLatch Transaction IVEntry.

(** A committed change: commit id, added and removed pairs. *)
Record commit := mk_commit { c_id : Z; c_adds : VDataArray; c_dels : VDataArray }.
(** The change of a running transaction: its id, added and removed pairs. *)
Record pending := mk_pending { p_tid : Z; p_adds : VDataArray; p_dels : VDataArray }.

(** ** The meaning of histories *)

(** The pairs after the changes of [hist], from the stored pairs [X]. *)
Definition replay (hist : list commit) (X : VDataSet) : VDataSet :=
  fold_left (fun X c => write_effect (c_adds c) (c_dels c) X) hist X.

(** The changes a reader with timestamp [TID] sees. *)
Definition snapshot (TID : Z) (hist : list commit) : list commit :=
  filter (fun c => c_id c <= TID) hist.

(** Its own change on top. *)
Definition own (TID : Z) (pend : option pending) (X : VDataSet) : VDataSet :=
  match pend with
  | Some p => if decide (p_tid p = TID) then write_effect (p_adds p) (p_dels p) X else X
  | None => X
  end.

(** Every transaction added absent pairs and removed present ones. *)
Fixpoint replay_ok (hist : list commit) (X : VDataSet) : Prop :=
  match hist with
  | [] => True
  | c :: hist' =>
      effective (c_adds c) (c_dels c) X /\ replay_ok hist' (write_effect (c_adds c) (c_dels c) X)
  end.

Definition pend_ok (pend : option pending) (X : VDataSet) : Prop :=
  match pend with Some p => effective (p_adds p) (p_dels p) X | None => True end.

Lemma replay_app h1 h2 X : replay (h1 ++ h2) X = replay h2 (replay h1 X).
Proof. apply fold_left_app. Qed.

Lemma replay_ok_app h1 h2 X : replay_ok (h1 ++ h2) X <-> replay_ok h1 X /\ replay_ok h2 (replay h1 X).
Proof.
  revert X. induction h1 as [|c h1 IH]; intros X; cbn; [tauto|]. rewrite IH. cbn. tauto.
Qed.

(** ** Entries and histories *)

Definition version_of (c : commit) (v : Version) : Prop :=
  begin_ts v = c_id c /\ holds (c_adds c) (c_dels c) v.

Definition pending_of (pend : option pending) (vs : list Version) : Prop :=
  match pend with
  | None => vs = []
  | Some p => exists v, vs = [v] /\ begin_ts v = INVALID_TS /\ end_ts v = p_tid p /\
                holds (p_adds p) (p_dels p) v
  end.

(** Each version ends where the next one begins, the last one is open. *)
Fixpoint ends_ok (vs : list Version) : Prop :=
  match vs with
  | [] => True
  | v :: vs' => end_ts v = match vs' with [] => INVALID_TS | w :: _ => begin_ts w end /\ ends_ok vs'
  end.

Definition ids_sorted (hist : list commit) : Prop := StronglySorted Z.le (c_id <$> hist).

Record entry_ok (e : IVEntry) (hist : list commit) (pend : option pending) : Prop := {
  eo_ne : hist <> [];
  eo_sorted : ids_sorted hist;
  eo_ids : Forall (fun c => 0 <= c_id c < INVALID_TS) hist;
  eo_pend : forall p, pend = Some p -> tid_ok (p_tid p);
  eo_list : exists vs pvs, vList e = vs ++ pvs /\ Forall2 version_of hist vs /\ ends_ok vs /\
              pending_of pend pvs }.

(** ** Collecting a change *)

Definition hist_delta (hist : list commit) (s : delta) : delta :=
  fold_left (fun s c => version_delta (c_adds c) (c_dels c) s) hist s.

Lemma get_versions_spec hist vs s : Forall2 version_of hist vs ->
  get_versions vs s = Some (hist_delta hist s).
Proof.
  intros Hf. revert s. induction Hf as [|c v hist vs [_ Hv] Hf IH]; intros s; cbn [get_versions]; [done|].
  rewrite (get_version_spec (c_adds c) (c_dels c)) by done. cbn. apply IH.
Qed.

Lemma hist_delta_effect base hist s : exact base s -> s.1 ## s.2 ->
  replay_ok hist (patched base s) ->
  exact base (hist_delta hist s) /\ (hist_delta hist s).1 ## (hist_delta hist s).2 /\
  patched base (hist_delta hist s) = replay hist (patched base s).
Proof.
  revert s. induction hist as [|c hist IH]; intros s He Hd Hok; [done|]. destruct Hok as [Hc Hok].
  destruct (version_delta_effect base (c_adds c) (c_dels c) s) as (H1&H2&H3); [done..|].
  cbn. rewrite <- H3. apply IH; [done|done|by rewrite H3].
Qed.

(** The change every reader starts from. *)
Definition no_change : delta := (∅, ∅).

Lemma no_change_exact base : exact base no_change /\ no_change.1 ## no_change.2 /\
  patched base no_change = base.
Proof. unfold exact, patched, no_change. cbn. split_and!; set_solver. Qed.

(** The loop with its [break] reads exactly the snapshot. *)
Lemma proper_loop_spec TID hist vs pvs s : ids_sorted hist -> Forall2 version_of hist vs ->
  Forall (fun v => begin_ts v = INVALID_TS) pvs -> TID < INVALID_TS ->
  proper_loop TID (vs ++ pvs) s = Some (hist_delta (snapshot TID hist) s).
Proof.
  intros Hs Hf Hp Ht. revert s Hs.
  induction Hf as [|c v hist vs [Hb Hv] Hf IH]; intros s Hs.
  { destruct Hp as [|v pvs Hb _]; [done|]. cbn. rewrite Hb.
    by destruct (Z.ltb_spec TID INVALID_TS); [|lia]. }
  cbn [app proper_loop]. rewrite Hb. unfold snapshot. rewrite filter_cons. unfold ids_sorted in Hs. cbn in Hs.
  apply StronglySorted_inv in Hs as [Hs Hle]. destruct (Z.ltb_spec TID (c_id c)) as [Hlt|Hge].
  - rewrite decide_False by lia. rewrite filter_none; [done|].
    rewrite Forall_fmap in Hle. eapply Forall_impl; [exact Hle|]. cbn. intros. lia.
  - rewrite decide_True by lia. rewrite (get_version_spec (c_adds c) (c_dels c)) by done.
    cbn. by rewrite IH.
Qed.

Lemma snapshot_all TID hist : Forall (fun c => c_id c <= TID) hist -> snapshot TID hist = hist.
Proof. apply filter_all. Qed.

(** A snapshot is a prefix of the history. *)
Lemma snapshot_prefix TID hist : ids_sorted hist -> exists h2, hist = snapshot TID hist ++ h2.
Proof.
  unfold ids_sorted, snapshot. induction hist as [|c hist IH]; intros Hs; [by exists []|].
  cbn [fmap list_fmap] in Hs. apply StronglySorted_inv in Hs as [Hs Hle]. rewrite filter_cons.
  case_decide as Hc.
  - destruct (IH Hs) as [h2 Heq]. exists h2. cbn. by rewrite <- Heq.
  - exists (c :: hist). rewrite filter_none; [done|].
    rewrite Forall_fmap in Hle. eapply Forall_impl; [exact Hle|]. cbn. intros. lia.
Qed.

Lemma snapshot_replay_ok TID hist X : ids_sorted hist -> replay_ok hist X -> replay_ok (snapshot TID hist) X.
Proof.
  intros Hs Hok. destruct (snapshot_prefix TID hist Hs) as [h2 Heq]. rewrite Heq in Hok.
  by apply replay_ok_app in Hok as [Hok _].
Qed.

Lemma snapshot_app TID h c : snapshot TID (h ++ [c]) =
  snapshot TID h ++ (if decide (c_id c <= TID) then [c] else []).
Proof. unfold snapshot. rewrite filter_app, filter_cons, filter_nil. by case_decide. Qed.

(** ** The newest version *)

Lemma entry_newest e hist pend : entry_ok e hist pend -> exists v, newest e = Some v /\
  match pend with
  | Some p => begin_ts v = INVALID_TS /\ end_ts v = p_tid p /\ holds (p_adds p) (p_dels p) v /\
      exists vs, vList e = vs ++ [v] /\ Forall2 version_of hist vs /\ ends_ok vs
  | None => end_ts v = INVALID_TS /\ exists h c vs, hist = h ++ [c] /\ vList e = vs ++ [v] /\
      Forall2 version_of h vs /\ version_of c v
  end.
Proof.
  intros [Hne Hs Hi Ht (vs&pvs&Hl&Hf&He&Hp)]. unfold newest. rewrite Hl. destruct pend as [p|]; cbn in Hp.
  - destruct Hp as (v&->&Hb&Hen&Hh). exists v. rewrite last_snoc. split_and!; try done. by exists vs.
  - subst pvs. rewrite app_nil_r.
    destruct (exists_last Hne) as (h&c&->).
    apply Forall2_app_inv_l in Hf as (vs1&vs2&Hf1&Hf2&->).
    apply Forall2_cons_inv_l in Hf2 as (v&l&Hv&Hnil&->). apply Forall2_nil_inv_l in Hnil as ->.
    exists v. rewrite last_snoc. split; [done|]. split.
    + clear -He. induction vs1 as [|w vs1 IH]; [by destruct He|]. destruct He as [_ He].
      destruct vs1; apply IH, He.
    + by exists h, c, vs1.
Qed.

Lemma private_pending e hist pend v TID : entry_ok e hist pend -> newest e = Some v ->
  TID < INVALID_TS ->
  is_private TID v = match pend with Some p => bool_decide (p_tid p = TID) | None => false end.
Proof.
  intros Hok Hv Ht. destruct (entry_newest _ _ _ Hok) as (w&Hw&Hc). simplify_eq.
  unfold is_private. destruct pend as [p|].
  - destruct Hc as (->&->&_). rewrite Z.eqb_refl. cbn. by destruct (Z.eqb_spec (p_tid p) TID); case_bool_decide.
  - destruct Hc as (_&h&c&vs&->&_&_&Hb&_). destruct Hok as [_ _ Hi _ _].
    rewrite Forall_app, Forall_singleton in Hi. rewrite Hb.
    by destruct (Z.eqb_spec (c_id c) INVALID_TS); [lia|].
Qed.

(** ** The readers *)

(** The pairs seen through a collected change. *)
Definition sees (base X : VDataSet) (s : delta) : Prop :=
  exact base s /\ s.1 ## s.2 /\ patched base s = X.

Lemma sees_own base TID pend s v X : sees base X s -> pend_ok pend X ->
  (forall p, pend = Some p -> holds (p_adds p) (p_dels p) v) ->
  forall mine, mine = match pend with Some p => bool_decide (p_tid p = TID) | None => false end ->
  wp (if (mine : bool) then get_version v s else Some s) (sees base (own TID pend X)).
Proof.
  intros (He&Hd&Hp) Hpo Hv mine ->. destruct pend as [p|]; cbn [own]; [|done].
  case_bool_decide as Ht; [rewrite decide_True by done|by rewrite decide_False by done].
  rewrite (get_version_spec (p_adds p) (p_dels p)) by auto. cbn [wp]. unfold sees. rewrite <- Hp.
  apply version_delta_effect; [done|done|]. by rewrite Hp.
Qed.

(** Snapshot isolation: the changes committed up to [TID], and its own. *)
Lemma getProperVersion_spec base TID e hist pend : entry_ok e hist pend -> TID < INVALID_TS ->
  replay_ok hist base -> pend_ok pend (replay hist base) ->
  (forall p, pend = Some p -> p_tid p = TID -> Forall (fun c => c_id c <= TID) hist) ->
  wp (getProperVersion TID e no_change)
     (sees base (own TID pend (replay (snapshot TID hist) base))).
Proof.
  intros Hok Ht Hr Hp Hall. pose proof Hok as [_ Hs _ _ (vs&pvs&Hl&Hf&_&Hpv)].
  destruct (entry_newest _ _ _ Hok) as (v&Hv&Hpr). unfold getProperVersion.
  rewrite Hl, (proper_loop_spec TID hist); [|done|done| |done].
  2: { destruct pend as [p|]; cbn in Hpv; [|by subst]. destruct Hpv as (w&->&?&_). by constructor. }
  cbn [mbind option_bind]. rewrite Hv. cbn [mbind option_bind].
  rewrite (private_pending _ _ _ _ _ Hok Hv Ht).
  destruct (no_change_exact base) as (H1&H2&H3).
  destruct (hist_delta_effect base (snapshot TID hist) no_change) as (H4&H5&H6);
    [done|done|by rewrite H3; apply snapshot_replay_ok|]. rewrite H3 in H6.
  destruct pend as [p|]; [|by split_and!].
  destruct (decide (p_tid p = TID)) as [He|He].
  - rewrite snapshot_all in * by eauto.
    eapply sees_own with (pend := Some p); [by split_and!|done| |done].
    intros ? [= <-]. by destruct Hpr as (_&_&?&_).
  - cbn [own]. rewrite bool_decide_false, decide_False by done. by split_and!.
Qed.

(** Read committed: every committed change, and its own. *)
Lemma getLatestVersion_spec base TID e hist pend : entry_ok e hist pend -> TID < INVALID_TS ->
  replay_ok hist base -> pend_ok pend (replay hist base) ->
  wp (getLatestVersion TID e no_change) (sees base (own TID pend (replay hist base))).
Proof.
  intros Hok Ht Hr Hp. destruct (entry_newest _ _ _ Hok) as (v&Hv&Hpr). unfold getLatestVersion.
  rewrite Hv. cbn [mbind option_bind]. rewrite (private_pending _ _ _ _ _ Hok Hv Ht).
  destruct (no_change_exact base) as (H1&H2&H3).
  destruct (hist_delta_effect base hist no_change) as (H4&H5&H6); [done|done|by rewrite H3|].
  rewrite H3 in H6. destruct pend as [p|].
  - destruct Hpr as (Hb&He&Hh&vs&Hl&Hf&_). rewrite Hl, removelast_last.
    rewrite (get_versions_spec hist) by done. cbn [mbind option_bind].
    assert (p_tid p < INVALID_TS) by (destruct Hok as [_ _ _ Hpt _]; by apply Hpt).
    rewrite He. destruct (Z.eqb_spec (p_tid p) INVALID_TS); [lia|]. rewrite orb_false_r.
    eapply sees_own with (pend := Some p); [by split_and!|done| |done]. by intros ? [= <-].
  - destruct Hpr as (He&h&c&vs&->&Hl&Hf&Hc). rewrite Hl, removelast_last.
    rewrite (get_versions_spec h) by done. cbn [mbind option_bind own].
    rewrite He, Z.eqb_refl. cbn [orb].
    rewrite (get_version_spec (c_adds c) (c_dels c)) by (by destruct Hc). cbn [wp].
    unfold sees, hist_delta in *. rewrite fold_left_app in H4, H5, H6. by split_and!.
Qed.

(** ** Admission of a writer *)

(** No other transaction is writing and, unless it reads committed changes as they
    come, the writer has seen every committed change. *)
Definition may_write (TID : Z) (IS_RC : bool) (hist : list commit) (pend : option pending) : Prop :=
  match pend with
  | Some p => p_tid p = TID
  | None => IS_RC = true \/ Forall (fun c => c_id c <= TID) hist
  end.

Lemma last_id_max h c : ids_sorted (h ++ [c]) -> Forall (fun c' => c_id c' <= c_id c) (h ++ [c]).
Proof.
  unfold ids_sorted. induction h as [|d h IH]; cbn [app fmap list_fmap]; intros Hs.
  { by apply Forall_singleton. }
  apply StronglySorted_inv in Hs as [Hs Hle]. constructor; [|by apply IH].
  rewrite Forall_fmap, Forall_app, Forall_singleton in Hle. apply Hle.
Qed.

Lemma checkVersion_spec TID IS_RC e hist pend : entry_ok e hist pend ->
  exists b, checkVersion TID IS_RC e = Some b /\ (b = true <-> may_write TID IS_RC hist pend).
Proof.
  intros Hok. destruct (entry_newest _ _ _ Hok) as (v&Hv&Hpr). unfold checkVersion.
  rewrite Hv. cbn [mbind option_bind]. eexists. split; [done|]. unfold may_write.
  destruct pend as [p|].
  - destruct Hpr as (->&->&_). rewrite Z.eqb_refl. apply Z.eqb_eq.
  - destruct Hpr as (_&h&c&vs&->&_&_&Hb&_). destruct Hok as [_ Hs Hi _ _]. rewrite Hb.
    pose proof (last_id_max h c Hs) as Hm. rewrite Forall_app, Forall_singleton in Hi.
    destruct (Z.eqb_spec (c_id c) INVALID_TS); [lia|]. destruct IS_RC; cbn [negb andb]; [tauto|].
    rewrite negb_true_iff, Z.ltb_ge. split.
    + intros Hle. right. eapply Forall_impl; [exact Hm|]. cbn. intros. lia.
    + intros [?|Hall]; [done|]. rewrite Forall_app, Forall_singleton in Hall. apply Hall.
Qed.

(** ** Writing and the end of a transaction *)

Section Writing.
Context (junk : nat -> Z).

(** A fresh entry has the empty change of timestamp 0. *)
Definition first_commit : commit := mk_commit 0 [] [].

Lemma dummy_ok e : (exists v, vList e = [v] /\ holds [] [] v /\ begin_ts v = 0 /\ end_ts v = INVALID_TS) ->
  entry_ok e [first_commit] None.
Proof.
  intros (v&Hl&Hh&Hb&He). split; [done|repeat constructor|by apply Forall_singleton|done|].
  exists [v], []. split_and!; [by rewrite Hl| |done|done]. constructor; [by split|constructor].
Qed.

Lemma allocVersionTransation_spec :
  wp (allocVersionTransation junk) (fun e => entry_ok e [first_commit] None /\ glatch e = GLatch_new).
Proof.
  unfold allocVersionTransation. apply wp_bind. eapply wp_mono; [|apply Version_new_spec].
  intros v (Hh&Hb&He). cbn [wp]. split; [|done]. apply dummy_ok. by exists v.
Qed.

Lemma CleanAllVersion_spec e :
  wp (CleanAllVersion junk e) (fun e' => entry_ok e' [first_commit] None /\ glatch e' = glatch e).
Proof.
  unfold CleanAllVersion. apply wp_bind. eapply wp_mono; [|apply Version_new_spec].
  intros v (Hh&Hb&He). cbn [wp]. split; [|done]. apply dummy_ok. by exists v.
Qed.

(** The entry depends on the latch and the flag only through the list. *)
Lemma entry_ok_list e e' hist pend : vList e' = vList e -> entry_ok e hist pend -> entry_ok e' hist pend.
Proof. intros Hl [H1 H2 H3 H4 H5]. split; [done..|]. by rewrite Hl. Qed.

Lemma push_version_spec e hist v t : entry_ok e hist None -> tid_ok t ->
  holds [] [] v -> begin_ts v = INVALID_TS -> end_ts v = t ->
  entry_ok (push_version v e) hist (Some (mk_pending t [] [])).
Proof.
  intros [H1 H2 H3 _ (vs&pvs&Hl&Hf&He&Hp)] Ht Hh Hb Hen. split; [done..|by intros ? [= <-]|].
  cbn in Hp. subst pvs. rewrite app_nil_r in Hl.
  exists vs, [v]. cbn. rewrite Hl. split_and!; [done..|]. by exists v.
Qed.

(** The pairs of a transaction stay within the capacity of the array. *)
Definition fits (p : pending) (n : Z) : Prop := need (p_adds p) (p_dels p) n < MAX_CELLS.

Lemma write_all_add_spec ps adds dels v : holds adds dels v -> need adds dels (len ps) < MAX_CELLS ->
  wp (write_all (Version_add junk) ps v) (fun v' => holds (adds ++ ps) dels v' /\ kept v v').
Proof.
  revert adds v. induction ps as [|p ps IH]; intros adds v Hh Hn; cbn [write_all].
  { cbn. by rewrite app_nil_r. }
  apply wp_bind. eapply wp_mono; [|apply Version_add_spec; [done|unfold need in *; len_lia]].
  intros v1 [Hh1 [Hb1 He1]]. rewrite cons_middle, app_assoc. eapply wp_mono; [|apply IH; [done|]].
  - intros v2 [Hh2 [Hb2 He2]]. split; [done|]. split; congruence.
  - unfold need in *. len_lia.
Qed.

Lemma write_all_remove_spec ps adds dels v : holds adds dels v -> need adds dels (len ps) < MAX_CELLS ->
  wp (write_all (Version_remove junk) ps v) (fun v' => holds adds (dels ++ ps) v' /\ kept v v').
Proof.
  revert dels v. induction ps as [|p ps IH]; intros dels v Hh Hn; cbn [write_all].
  { cbn. by rewrite app_nil_r. }
  apply wp_bind. eapply wp_mono; [|apply Version_remove_spec; [done|unfold need in *; len_lia]].
  intros v1 [Hh1 [Hb1 He1]]. rewrite cons_middle, app_assoc. eapply wp_mono; [|apply IH; [done|]].
  - intros v2 [Hh2 [Hb2 He2]]. split; [done|]. split; congruence.
  - unfold need in *. len_lia.
Qed.

(** [WriteVersion] extends the change of the transaction that owns the newest
    version. *)
Definition written (p : pending) (AddSet DelSet : VDataSet) : pending :=
  mk_pending (p_tid p) (p_adds p ++ set_order AddSet) (p_dels p ++ set_order DelSet).

Lemma WriteVersion_spec A D e hist p : entry_ok e hist (Some p) ->
  fits p (len (set_order A) + len (set_order D)) ->
  wpM (WriteVersion junk A D) e (fun ret e' => ret = 1 /\ entry_ok e' hist (Some (written p A D)) /\
    glatch e' = glatch e /\ is_versioned e' = is_versioned e).
Proof.
  intros Hok Hfit. destruct (entry_newest _ _ _ Hok) as (v&Hv&Hb&He&Hh&vs&Hl&Hf&Hen).
  unfold wpM, WriteVersion. rewrite Hv. cbn [mbind option_bind]. unfold fits, need in Hfit.
  apply wp_bind. eapply wp_mono; [|apply write_all_add_spec; [done|unfold need; lia]].
  intros v1 [Hh1 [Hb1 He1]].
  apply wp_bind. eapply wp_mono; [|apply write_all_remove_spec; [done|unfold need; len_lia]].
  intros v2 [Hh2 [Hb2 He2]]. cbn [wp fst snd]. split_and!; [done| |done|done].
  destruct Hok as [H1 H2 H3 H4 _].
  split; [done..| |]; [intros ? [= <-]; cbn; by apply H4|].
  exists vs, [v2]. cbn. rewrite Hl, removelast_last. split_and!; [done..|].
  exists v2. split_and!; [done|congruence|congruence|done].
Qed.

End Writing.

Lemma pop_version_spec e hist p : entry_ok e hist (Some p) ->
  wp (pop_version e) (fun e' => entry_ok e' hist None /\ glatch e' = glatch e).
Proof.
  intros Hok. destruct (entry_newest _ _ _ Hok) as (v&Hv&_&_&_&vs&Hl&Hf&Hen).
  unfold pop_version. rewrite Hv. cbn [mbind option_bind wp]. split; [|done].
  destruct Hok as [H1 H2 H3 H4 _]. split; [done..|].
  exists vs, []. cbn. rewrite Hl, removelast_last. by rewrite app_nil_r.
Qed.

(** The pending change becomes the newest committed one. *)
Definition committed (cid : Z) (p : pending) : commit := mk_commit cid (p_adds p) (p_dels p).

Lemma ends_ok_snoc vs u v cid : ends_ok (vs ++ [u]) -> begin_ts v = cid -> end_ts v = INVALID_TS ->
  ends_ok (vs ++ [set_end_ts cid u; v]).
Proof.
  intros He Hb Hv. induction vs as [|w vs IH]; cbn [app] in *.
  { cbn. by rewrite Hb. }
  destruct He as [Hw He]. split; [|by apply IH]. rewrite Hw. by destruct vs.
Qed.

Lemma ids_sorted_snoc hist c : ids_sorted hist -> Forall (fun c' => c_id c' <= c_id c) hist ->
  ids_sorted (hist ++ [c]).
Proof.
  unfold ids_sorted. induction hist as [|d hist IH]; cbn [app fmap list_fmap]; intros Hs Hf.
  { repeat constructor. }
  apply StronglySorted_inv in Hs as [Hs Hle]. apply Forall_cons in Hf as [Hd Hf].
  constructor; [by apply IH|]. rewrite Forall_fmap, Forall_app, Forall_singleton.
  rewrite Forall_fmap in Hle. done.
Qed.

Lemma stamp_versions_spec e hist p cid : entry_ok e hist (Some p) ->
  Forall (fun c => c_id c <= cid) hist -> 0 <= cid < INVALID_TS ->
  wp (stamp_versions cid (vList e)) (fun vs => entry_ok (set_vList vs e) (hist ++ [committed cid p]) None).
Proof.
  intros Hok Hm Hc. destruct (entry_newest _ _ _ Hok) as (v&_&Hb&_&Hh&vs&Hl&Hf&Hen).
  destruct Hok as [Hne Hs Hi _ _].
  destruct (exists_last Hne) as (h&c&->).
  apply Forall2_app_inv_l in Hf as (vs1&vs2&Hf1&Hf2&->).
  apply Forall2_cons_inv_l in Hf2 as (u&l&Hu&Hnil&->). apply Forall2_nil_inv_l in Hnil as ->.
  unfold stamp_versions. rewrite Hl, <- app_assoc. cbn [app].
  assert (Hk : length (vs1 ++ [u; v]) = S (S (length vs1))) by (rewrite length_app; cbn; lia).
  rewrite Hk. replace (S (S (length vs1)) - 1)%nat with (length (vs1 ++ [u])) by (rewrite length_app; cbn; lia).
  change [u; v] with ([u] ++ [v]). rewrite app_assoc, list_lookup_middle by done. cbn [mbind option_bind].
  rewrite insert_app_r_alt, Nat.sub_diag by done. cbn [insert list_insert].
  replace (S (S (length vs1)) - 2)%nat with (length vs1) by lia. cbn [Nat.ltb Nat.leb].
  rewrite <- app_assoc. cbn [app]. rewrite list_lookup_middle by done. cbn [mbind option_bind wp].
  rewrite insert_app_r_alt, Nat.sub_diag by done. cbn [insert list_insert].
  split; [by destruct h|by apply ids_sorted_snoc| |done|].
  { rewrite Forall_app, Forall_singleton. by split. }
  eexists _, []. cbn [vList set_vList pending_of]. rewrite app_nil_r. split_and!; [done| |by apply ends_ok_snoc|done].
  rewrite <- app_assoc. apply Forall2_app; [done|]. repeat constructor; try done; apply Hu.
Qed.

(** ** The operations of a transaction on an entry *)

(** The answer of the latch to a writer, and its holders afterwards. *)
Definition grants (txn : Transaction) (has_read : bool) (h : holders) : bool * holders :=
  if IS_SR txn then if has_read then upgrade_spec (TID txn) h else excl_spec (TID txn) h
  else (true, h).

(** A serializable transaction that has read the entry shares its latch. *)
Definition reader_of (txn : Transaction) (h : holders) : Prop :=
  IS_SR txn = true -> exists rs, h = Free_or_shared rs /\ TID txn ∈ rs.

Definition IS_RC (txn : Transaction) : bool := bool_decide (isolation txn = READ_COMMITTED).

Lemma set_glatch_same e g : glatch e = g -> set_glatch g e = e.
Proof. destruct e. cbn. by intros ->. Qed.

Lemma on_glatch_implements m spec h e : implements m spec h -> glatch e = latch_of h ->
  on_glatch m e = Some (spec.1, set_glatch (latch_of spec.2) e).
Proof. unfold implements, on_glatch. intros Hm ->. by rewrite Hm. Qed.

Lemma refused_holders txn has_read h : (grants txn has_read h).1 = false -> (grants txn has_read h).2 = h.
Proof.
  unfold grants. destruct (IS_SR txn); [|done].
  destruct has_read, h as [[|r [|r' rs]]|t]; cbn; try done; by case_bool_decide.
Qed.

Section Operations.
Context (junk : nat -> Z) (txn : Transaction) (Ht : tid_ok (TID txn)).

Lemma grant_call has_read h e : glatch e = latch_of h -> holders_ok h ->
  (has_read = true -> reader_of txn h) ->
  (if IS_SR txn then
     on_glatch (if has_read then tryupgradelatch (TID txn) else tryexclusivelatch (TID txn) true) e
   else Some (true, e)) =
  Some ((grants txn has_read h).1, set_glatch (latch_of (grants txn has_read h).2) e).
Proof.
  intros Hg Hh Hr. unfold grants. destruct (IS_SR txn) eqn:Hsr.
  - destruct has_read.
    + destruct (Hr eq_refl Hsr) as (rs&->&Hin).
      apply (on_glatch_implements _ _ (Free_or_shared rs)); [|done]. by apply tryupgradelatch_implements.
    + apply (on_glatch_implements _ _ h); [|done]. by apply tryexclusivelatch_implements.
  - cbn [fst snd]. by rewrite set_glatch_same.
Qed.

(** The three isolation levels differ in the check and in the latch. *)
Lemma GetExclusiveLatch_unfold has_read e : isolation txn <> INVALID_LEVEL ->
  GetExclusiveLatch junk txn has_read e =
  (new_version ← Version_new junk INVALID_TS (TID txn);
   ok ← checkVersion (TID txn) (IS_RC txn) e;
   if negb ok then Some (0, e)
   else '(got, e) ← (if IS_SR txn then
            on_glatch (if has_read then tryupgradelatch (TID txn) else tryexclusivelatch (TID txn) true) e
          else Some (true, e));
        if negb got then Some (0, e) else Some (1, push_version new_version e)).
Proof. unfold GetExclusiveLatch, IS_RC, IS_SR. by destruct (isolation txn). Qed.

(** The writer gets the entry exactly when nobody else writes it, it has seen
    every committed change (unless it reads committed changes as they come) and
    the latch is granted; otherwise nothing changes. *)
Lemma GetExclusiveLatch_spec has_read e hist pend h : entry_ok e hist pend ->
  isolation txn <> INVALID_LEVEL -> (forall p, pend = Some p -> p_tid p <> TID txn) ->
  glatch e = latch_of h -> holders_ok h -> (has_read = true -> reader_of txn h) ->
  exists ret e', GetExclusiveLatch junk txn has_read e = Some (ret, e') /\
    ((ret = 1 /\ pend = None /\ may_write (TID txn) (IS_RC txn) hist pend /\
      (grants txn has_read h).1 = true /\
      entry_ok e' hist (Some (mk_pending (TID txn) [] [])) /\
      glatch e' = latch_of (grants txn has_read h).2 /\ is_versioned e' = true) \/
     (ret = 0 /\ e' = e /\
      (~ may_write (TID txn) (IS_RC txn) hist pend \/ (grants txn has_read h).1 = false))).
Proof.
  intros Hok Hlev Hother Hg Hh Hr. rewrite GetExclusiveLatch_unfold by done.
  pose proof (Version_new_spec junk INVALID_TS (TID txn)) as Hn.
  destruct (Version_new junk INVALID_TS (TID txn)) as [v|]; [|done]. destruct Hn as (Hv&Hb&He).
  cbn [mbind option_bind].
  destruct (checkVersion_spec (TID txn) (IS_RC txn) e hist pend Hok) as (b&->&Hbw).
  cbn [mbind option_bind]. destruct b; cbn [negb].
  - rewrite (grant_call has_read h e Hg Hh Hr). cbn [mbind option_bind].
    destruct (grants txn has_read h).1 eqn:Hgr; cbn [negb]; (eexists _, _; split; [done|]).
    + left. assert (Hw : may_write (TID txn) (IS_RC txn) hist pend) by tauto.
      destruct pend as [p|]; [by destruct (Hother p)|]. split_and!; try done.
      apply push_version_spec; try done. by apply (entry_ok_list e).
    + right. rewrite refused_holders, set_glatch_same by done. auto.
  - eexists _, _. split; [done|]. right. split_and!; [done|done|]. left. intros Hw%Hbw. done.
Qed.

(** What the latch of a writer becomes when it gives the entry back. *)
Definition writer_latch (e : IVEntry) : Prop := IS_SR txn = true -> glatch e = latch_of (Exclusive (TID txn)).

Definition released (keep : bool) (e : IVEntry) : GLatch :=
  if IS_SR txn then latch_of (Free_or_shared (if keep then [TID txn] else [])) else glatch e.

Lemma unlatch_x_call e : IS_SR txn = true -> writer_latch e ->
  on_glatch (unlatch (TID txn) true true) e = Some (true, set_glatch (released false e) e).
Proof.
  intros Hsr Hw. unfold released. rewrite Hsr.
  rewrite (on_glatch_implements _ _ _ _ (unlatch_x_implements _ Ht (Exclusive (TID txn)) Ht) (Hw Hsr)).
  unfold unlatch_x_spec. by rewrite bool_decide_true by done.
Qed.

Lemma downgrade_call e : IS_SR txn = true -> writer_latch e ->
  on_glatch (trydowngradelatch (TID txn)) e = Some (true, set_glatch (released true e) e).
Proof.
  intros Hsr Hw. unfold released. rewrite Hsr.
  rewrite (on_glatch_implements _ _ _ _ (trydowngradelatch_implements _ Ht (Exclusive (TID txn)) Ht) (Hw Hsr)).
  unfold downgrade_spec. by rewrite bool_decide_true by done.
Qed.

(** An aborted transaction leaves the history as it was. *)
Lemma InvalidExlusiveLatch_spec has_read e hist p : entry_ok e hist (Some p) -> writer_latch e ->
  wpM (InvalidExlusiveLatch txn has_read) e (fun ret e' => ret = true /\ entry_ok e' hist None /\
    glatch e' = released has_read e).
Proof.
  intros Hok Hw. unfold wpM, InvalidExlusiveLatch.
  assert (Hpop : forall g, wp (pop_version (set_glatch g e)) (fun e' => entry_ok e' hist None /\ glatch e' = g)).
  { intros g. eapply wp_mono; [|eapply pop_version_spec, (entry_ok_list e); [done|exact Hok]]. done. }
  destruct (IS_SR txn) eqn:Hsr.
  - destruct has_read; [rewrite downgrade_call by done|rewrite unlatch_x_call by done];
      cbn [mbind option_bind negb]; apply wp_bind; (eapply wp_mono; [|apply Hpop]); by intros e' [? ?].
  - apply wp_bind. eapply wp_mono; [|by eapply pop_version_spec]. intros e' [? ?].
    unfold released. by rewrite Hsr.
Qed.

(** A commit moves the pending change to the end of the history. *)
Lemma UnLatch_exclusive_spec e hist p : entry_ok e hist (Some p) -> writer_latch e ->
  Forall (fun c => c_id c <= CommitID txn) hist -> 0 <= CommitID txn < INVALID_TS ->
  wpM (UnLatch txn EXCLUSIVE) e (fun ret e' => ret = true /\
    entry_ok e' (hist ++ [committed (CommitID txn) p]) None /\ glatch e' = released false e).
Proof.
  intros Hok Hw Hm Hc. unfold wpM, UnLatch.
  assert (Hs : forall g, wp (stamp_versions (CommitID txn) (vList (set_glatch g e)))
      (fun vs => entry_ok (set_vList vs (set_glatch g e)) (hist ++ [committed (CommitID txn) p]) None)).
  { intros g. eapply stamp_versions_spec; [|done|done]. by apply (entry_ok_list e). }
  destruct (IS_SR txn) eqn:Hsr.
  - rewrite unlatch_x_call by done. cbn [mbind option_bind negb].
    apply wp_bind. eapply wp_mono; [|apply Hs]. by intros vs Hvs.
  - cbn [mbind option_bind negb]. apply wp_bind. unfold released. rewrite Hsr.
    specialize (Hs (glatch e)). rewrite set_glatch_same in Hs by done.
    eapply wp_mono; [|apply Hs]. by intros vs Hvs.
Qed.

(** A serializable reader gives its share back. *)
Lemma UnLatch_shared_spec e rs : IS_SR txn = true -> glatch e = latch_of (Free_or_shared rs) ->
  holders_ok (Free_or_shared rs) -> TID txn ∈ rs ->
  UnLatch txn SHARED e = Some (true, set_glatch (latch_of (Free_or_shared (remove_one (TID txn) rs))) e).
Proof.
  intros Hsr Hg Hh Hin. unfold UnLatch. rewrite Hsr.
  by rewrite (on_glatch_implements _ _ _ _ (unlatch_s_implements _ rs Hh Hin) Hg).
Qed.

(** ** Reads at the three isolation levels *)

(** The pairs a transaction is meant to see. *)
Definition view (base : VDataSet) (hist : list commit) (pend : option pending) : VDataSet :=
  own (TID txn) pend
    (replay (if IS_RC txn then hist else snapshot (TID txn) hist) base).

(** A writer that reads snapshots has seen every committed change. *)
Definition writer_sees_all (hist : list commit) (pend : option pending) : Prop :=
  forall p, pend = Some p -> p_tid p = TID txn -> Forall (fun c => c_id c <= TID txn) hist.

Lemma checkheadVersion_spec e hist pend : entry_ok e hist pend ->
  exists r, checkheadVersion (TID txn) e = Some r /\
    (r = -1 <-> exists p, pend = Some p /\ p_tid p < TID txn) /\
    (r = 1 -> pend = None /\ Forall (fun c => c_id c <= TID txn) hist).
Proof.
  intros Hok. destruct (entry_newest _ _ _ Hok) as (v&Hv&Hpr). unfold checkheadVersion.
  rewrite Hv. cbn [mbind option_bind]. eexists. split; [done|].
  assert (TID txn < INVALID_TS) by (unfold tid_ok, INVALID_TID, INVALID_TS in *; lia).
  destruct pend as [p|].
  - destruct Hpr as (->&->&_). rewrite Z.eqb_refl. cbn [andb].
    destruct (Z.leb_spec INVALID_TS (TID txn)); [lia|]. destruct (Z.ltb_spec (p_tid p) (TID txn)).
    + split; [split; [by eexists|done]|done].
    + split; [split; [done|intros (?&[= <-]&?); lia]|done].
  - destruct Hpr as (_&h&c&vs&->&_&_&Hb&_). destruct Hok as [_ Hs Hi _ _].
    pose proof (last_id_max h c Hs) as Hm. rewrite Forall_app, Forall_singleton in Hi. rewrite Hb.
    destruct (Z.eqb_spec (c_id c) INVALID_TS); [lia|]. cbn [andb].
    destruct (Z.leb_spec (c_id c) (TID txn)).
    + split; [split; [done|by intros (?&?&?)]|]. intros _. split; [done|].
      eapply Forall_impl; [exact Hm|]. cbn. intros. lia.
    + split; [split; [done|by intros (?&?&?)]|done].
Qed.

(** The outcome of a successful and of a refused read. *)
Definition read_done (base : VDataSet) (hist : list commit) (pend : option pending) (h : holders)
    (e : IVEntry) (first_read : bool) (r : read_result) : Prop :=
  read_ret r = true /\ sees base (view base hist pend) (read_sets r) /\
  (read_latched r = false /\ read_entry r = e \/
   read_latched r = true /\ IS_SR txn = true /\ first_read = true /\ pend = None /\
   read_entry r = set_glatch (latch_of (shared_spec (TID txn) h).2) e).

Definition read_refused (pend : option pending) (h : holders) (e : IVEntry) (r : read_result) : Prop :=
  read_ret r = false /\ IS_SR txn = true /\ read_latched r = false /\ read_entry r = e /\
  ((exists p, pend = Some p /\ p_tid p < TID txn) \/
   (exists t, h = Exclusive t /\ t <> TID txn)).

Lemma ReadVersion_spec base first_read e hist pend h : entry_ok e hist pend ->
  isolation txn <> INVALID_LEVEL -> replay_ok hist base -> pend_ok pend (replay hist base) ->
  (IS_RC txn = false -> writer_sees_all hist pend) -> glatch e = latch_of h -> holders_ok h ->
  wp (ReadVersion no_change txn false first_read e)
     (fun r => read_done base hist pend h e first_read r \/ read_refused pend h e r).
Proof.
  intros Hok Hlev Hr Hp Hall Hg Hh.
  assert (Hlt : TID txn < INVALID_TS) by (unfold tid_ok, INVALID_TID, INVALID_TS in *; lia).
  assert (Hproper : forall e', vList e' = vList e -> IS_RC txn = false ->
    wp (getProperVersion (TID txn) e' no_change) (sees base (view base hist pend))).
  { intros e' He' Hrc. unfold view. rewrite Hrc. apply getProperVersion_spec;
      [by apply (entry_ok_list e)|done|done|done|by apply Hall]. }
  unfold ReadVersion. destruct (isolation txn) eqn:Hiso; [done| | |].
  - assert (Hrc : IS_RC txn = false) by (unfold IS_RC; by rewrite Hiso).
    assert (Hsr : IS_SR txn = true) by (unfold IS_SR; by rewrite Hiso).
    destruct (checkheadVersion_spec _ _ _ Hok) as (c&->&Hm1&H1). cbn [mbind option_bind].
    destruct (Z.eqb_spec c (-1)) as [->|Hc].
    { cbn. right. split_and!; try done. left. by apply Hm1. }
    destruct ((c =? 1) && first_read) eqn:Hcf.
    + apply andb_true_iff in Hcf as [->%Z.eqb_eq Hfr]. destruct (H1 eq_refl) as [-> _].
      rewrite (on_glatch_implements _ _ h e (trysharedlatch_implements _ Ht h Hh) Hg). cbn [mbind option_bind].
      destruct (shared_spec (TID txn) h).1 eqn:Hs; cbn [negb].
      * apply wp_bind. eapply wp_mono; [|by apply Hproper]. intros s Hsee. left. split_and!; [done|done|].
        right. by split_and!.
      * cbn. right. destruct h as [rs|t]; cbn in Hs; [done|]. apply bool_decide_eq_false in Hs.
        split_and!; try done; [by apply set_glatch_same|]. right. by exists t.
    + apply wp_bind. eapply wp_mono; [|by apply Hproper]. intros s Hsee. left. split_and!; [done|done|].
      by left.
  - assert (Hrc : IS_RC txn = false) by (unfold IS_RC; by rewrite Hiso).
    apply wp_bind. eapply wp_mono; [|by apply Hproper]. intros s Hsee. left. split_and!; [done|done|by left].
  - assert (Hrc : IS_RC txn = true) by (unfold IS_RC; by rewrite Hiso).
    apply wp_bind. eapply wp_mono; [|by apply (getLatestVersion_spec base (TID txn) e hist pend)].
    intros s Hsee. left. split_and!; [done| |by left]. unfold view. by rewrite Hrc.
Qed.
End Operations.
