(* ===== verification/IVEntrySystem.v ===== *)
(** * Interleaved transactions on one entry

    A step relation of the calls that transactions make on an entry, in any
    order, each transaction at the isolation level it was started with.  The
    labels of a state (the history, the pending change, the holders of the latch)
    are computed from the answers of the calls alone.  The invariant says that
    the entry realises its labels, so no call of a transaction that follows the
    protocol fails, and that a snapshot does not change under the steps of
    others. *)

From S2P Require Import Prelude Version VersionSpec GLatch Transaction IVEntry IVEntrySpec.

Section System.
Context (junk : nat -> Z) (level : Z -> IsolationLevelType).

Record estate := mk_estate {
  ent : IVEntry;
  hist : list commit;
  pend : option pending;
  hold : holders }.

(** A transaction of the system. *)
Definition runs_in (txn : Transaction) : Prop :=
  tid_ok (TID txn) /\ isolation txn = level (TID txn) /\ isolation txn <> INVALID_LEVEL.

Definition mine (txn : Transaction) (pend : option pending) : Prop :=
  exists p, pend = Some p /\ p_tid p = TID txn.

Definition shares (txn : Transaction) (h : holders) : Prop :=
  exists rs, h = Free_or_shared rs /\ TID txn ∈ rs.

(** The holders after a call that takes or gives back the latch. *)
Definition hold_if (b : bool) (h' h : holders) : holders := if b then h' else h.

Inductive estep (txn : Transaction) : estate -> estate -> Prop :=
  | es_read s first_read r : runs_in txn ->
      (first_read = true -> ~ shares txn (hold s) /\ ~ mine txn (pend s)) ->
      ReadVersion no_change txn false first_read (ent s) = Some r ->
      estep txn s (mk_estate (read_entry r) (hist s) (pend s)
        (hold_if (read_latched r) (shared_spec (TID txn) (hold s)).2 (hold s)))
  | es_lock s has_read ret e : runs_in txn -> ~ mine txn (pend s) ->
      (IS_SR txn = true -> has_read = true <-> shares txn (hold s)) ->
      GetExclusiveLatch junk txn has_read (ent s) = Some (ret, e) ->
      estep txn s (mk_estate e (hist s)
        (if decide (ret = 1) then Some (mk_pending (TID txn) [] []) else pend s)
        (hold_if (bool_decide (ret = 1)) (grants txn has_read (hold s)).2 (hold s)))
  | es_write s p A D ret e : runs_in txn -> pend s = Some p -> p_tid p = TID txn ->
      fits p (len (set_order A) + len (set_order D)) ->
      WriteVersion junk A D (ent s) = Some (ret, e) ->
      estep txn s (mk_estate e (hist s) (Some (written p A D)) (hold s))
  | es_commit s p ret e : runs_in txn -> pend s = Some p -> p_tid p = TID txn ->
      Forall (fun c => c_id c <= CommitID txn) (hist s) -> 0 <= CommitID txn < INVALID_TS ->
      UnLatch txn EXCLUSIVE (ent s) = Some (ret, e) ->
      estep txn s (mk_estate e (hist s ++ [committed (CommitID txn) p]) None
        (hold_if (IS_SR txn) (Free_or_shared []) (hold s)))
  | es_abort s p has_read ret e : runs_in txn -> pend s = Some p -> p_tid p = TID txn ->
      InvalidExlusiveLatch txn has_read (ent s) = Some (ret, e) ->
      estep txn s (mk_estate e (hist s) None
        (hold_if (IS_SR txn) (Free_or_shared (if has_read then [TID txn] else [])) (hold s)))
  | es_unshare s rs ret e : runs_in txn -> IS_SR txn = true ->
      hold s = Free_or_shared rs -> TID txn ∈ rs ->
      UnLatch txn SHARED (ent s) = Some (ret, e) ->
      estep txn s (mk_estate e (hist s) (pend s) (Free_or_shared (remove_one (TID txn) rs))).

(** The entry realises the labels, and the latch is held exclusively exactly by
    a serializable writer. *)
Record einv (s : estate) : Prop := {
  ei_entry : entry_ok (ent s) (hist s) (pend s);
  ei_latch : glatch (ent s) = latch_of (hold s);
  ei_hold : match hold s with
            | Free_or_shared rs => Forall tid_ok rs /\ NoDup rs
            | Exclusive t => tid_ok t /\ level t = SERIALIZABLE /\ exists p, pend s = Some p /\ p_tid p = t
            end;
  ei_writer : forall p, pend s = Some p -> level (p_tid p) = SERIALIZABLE ->
              hold s = Exclusive (p_tid p) }.

Lemma einv_holders s : einv s -> holders_ok (hold s).
Proof.
  intros [_ _ Hh _]. destruct (hold s) as [rs|t]; cbn; [|by destruct Hh].
  destruct Hh. split; [done|by apply NoDup_tids].
Qed.

Lemma IS_SR_level txn : runs_in txn -> IS_SR txn = true -> level (TID txn) = SERIALIZABLE.
Proof. intros (_&<-&_) H. by apply bool_decide_eq_true in H. Qed.

Lemma level_IS_SR txn : runs_in txn -> level (TID txn) = SERIALIZABLE -> IS_SR txn = true.
Proof. intros (_&<-&_) H. by apply bool_decide_eq_true. Qed.

Lemma einv_writer_latch s p txn : einv s -> runs_in txn -> pend s = Some p -> p_tid p = TID txn ->
  writer_latch txn (ent s).
Proof.
  intros Hi Hr Hp Ht Hsr. rewrite (ei_latch _ Hi), (ei_writer _ Hi _ Hp); rewrite Ht; [done|].
  by apply IS_SR_level.
Qed.

(** What a read does to the entry, whatever it returns. *)
Lemma ReadVersion_entry txn first_read e hist pend h s r : tid_ok (TID txn) -> entry_ok e hist pend ->
  glatch e = latch_of h -> holders_ok h -> ReadVersion s txn false first_read e = Some r ->
  (read_latched r = false /\ read_entry r = e) \/
  (read_latched r = true /\ IS_SR txn = true /\ first_read = true /\ pend = None /\
   (shared_spec (TID txn) h).1 = true /\
   read_entry r = set_glatch (latch_of (shared_spec (TID txn) h).2) e).
Proof.
  intros Ht Hok Hg Hh. unfold ReadVersion. destruct (isolation txn) eqn:Hiso; [done| | |].
  - destruct (checkheadVersion_spec txn Ht _ _ _ Hok) as (c&->&_&H1). cbn [mbind option_bind].
    destruct (c =? -1); [intros [= <-]; by left|].
    destruct ((c =? 1) && first_read) eqn:Hcf.
    + apply andb_true_iff in Hcf as [->%Z.eqb_eq ->]. destruct (H1 eq_refl) as [-> _].
      rewrite (on_glatch_implements _ _ h e (trysharedlatch_implements _ Ht h Hh) Hg). cbn [mbind option_bind].
      destruct (shared_spec (TID txn) h).1 eqn:Hs; cbn [negb].
      * intros Hr. apply bind_Some in Hr as (s'&_&[= <-]). right. split_and!; try done.
        unfold IS_SR. by rewrite Hiso.
      * intros [= <-]. left. split; [done|]. apply set_glatch_same.
        destruct h; cbn in *; [done|]. by rewrite Hg.
    + intros Hr. apply bind_Some in Hr as (s'&_&[= <-]). by left.
  - intros Hr. apply bind_Some in Hr as (s'&_&[= <-]). by left.
  - intros Hr. apply bind_Some in Hr as (s'&_&[= <-]). by left.
Qed.

(** A call whose result is known through its specification. *)
Lemma wpM_result {S A} (m : M S A) s Q a s' : wpM m s Q -> m s = Some (a, s') -> Q a s'.
Proof. unfold wpM. intros H Hm. by rewrite Hm in H. Qed.

(** *** Preservation, step by step *)

Lemma einv_read txn s first_read r : einv s -> runs_in txn ->
  (first_read = true -> ~ shares txn (hold s) /\ ~ mine txn (pend s)) ->
  ReadVersion no_change txn false first_read (ent s) = Some r ->
  einv (mk_estate (read_entry r) (hist s) (pend s)
    (hold_if (read_latched r) (shared_spec (TID txn) (hold s)).2 (hold s))).
Proof.
  intros Hi Hr Hpro Hrd. pose proof (einv_holders _ Hi) as Hh. destruct Hi as [He Hl Hho Hw].
  destruct (ReadVersion_entry _ _ _ _ _ _ _ _ (proj1 Hr) He Hl Hh Hrd)
    as [[-> ->]|(->&Hsr&->&Hp&Hs&->)]; [by split|]. cbn [hold_if].
  destruct (Hpro eq_refl) as [Hns _]. split; cbn [ent hist pend hold].
  - by apply (entry_ok_list (ent s)).
  - done.
  - destruct (hold s) as [rs|t]; cbn; [|by destruct Hho as (_&_&?&Hc&_); rewrite Hp in Hc].
    destruct Hho as [Hf Hn]. split; constructor; try done; [apply Hr|].
    intros Hin. apply Hns. by exists rs.
  - by rewrite Hp.
Qed.

Lemma einv_lock txn s has_read ret e : einv s -> runs_in txn -> ~ mine txn (pend s) ->
  (IS_SR txn = true -> has_read = true <-> shares txn (hold s)) ->
  GetExclusiveLatch junk txn has_read (ent s) = Some (ret, e) ->
  einv (mk_estate e (hist s)
    (if decide (ret = 1) then Some (mk_pending (TID txn) [] []) else pend s)
    (hold_if (bool_decide (ret = 1)) (grants txn has_read (hold s)).2 (hold s))).
Proof.
  intros Hi Hr Hnm Hpro Hget. pose proof (einv_holders _ Hi) as Hh. pose proof Hi as [He Hl Hho Hw].
  destruct (GetExclusiveLatch_spec junk txn (proj1 Hr) has_read (ent s) (hist s) (pend s) (hold s))
    as (ret'&e'&Heq&Hc); [done|apply Hr| |done|done| |].
  { intros p Hp Hpt. apply Hnm. by exists p. }
  { intros -> Hsr. by apply (Hpro Hsr). }
  rewrite Hget in Heq. injection Heq as <- <-.
  destruct Hc as [(->&Hp&Hmw&Hgr&Hok&Hg&_)|(->&->&_)].
  2: { rewrite decide_False by done. cbn. by destruct s. }
  rewrite decide_True, bool_decide_true by done. cbn [hold_if].
  split; cbn [ent hist pend hold]; [done|done| |].
  - unfold grants in *. destruct (IS_SR txn) eqn:Hsr; cbn [snd].
    + assert (Hx : (if has_read then upgrade_spec (TID txn) (hold s) else excl_spec (TID txn) (hold s)).2 =
                    Exclusive (TID txn)).
      { destruct has_read, (hold s) as [[|x [|y l]]|t]; cbn in *; try done;
          apply bool_decide_eq_true in Hgr; by subst. }
      rewrite Hx. split; [apply Hr|]. split; [by apply IS_SR_level|]. by eexists.
    + destruct (hold s) as [rs|t]; [done|]. destruct Hho as (_&_&p&Hc&_). by rewrite Hp in Hc.
  - intros p [= <-] Hlev. cbn in *. apply (level_IS_SR txn Hr) in Hlev as Hsr. unfold grants in *. rewrite Hsr in *.
    destruct has_read, (hold s) as [[|x [|y l]]|t]; cbn in *; try done;
      apply bool_decide_eq_true in Hgr; by subst.
Qed.

(** The holders once the writer has left. *)
Lemma hold_after_writer txn s p rs : einv s -> runs_in txn -> pend s = Some p -> p_tid p = TID txn ->
  (rs = [] \/ rs = [TID txn]) ->
  exists rs', hold_if (IS_SR txn) (Free_or_shared rs) (hold s) = Free_or_shared rs' /\
    Forall tid_ok rs' /\ NoDup rs' /\
    latch_of (Free_or_shared rs') = (if IS_SR txn then latch_of (Free_or_shared rs) else glatch (ent s)).
Proof.
  intros Hi Hr Hp Ht Hrs. unfold hold_if. destruct (IS_SR txn) eqn:Hsr.
  - exists rs. split_and!; try done; destruct Hrs as [->| ->]; repeat constructor; [apply Hr..|set_solver].
  - destruct Hi as [_ Hl Hho _]. destruct (hold s) as [rs'|t]; [by exists rs'; destruct Hho|].
    destruct Hho as (_&Hlev&p'&Hp'&Ht'). simplify_eq. rewrite Ht in Hlev.
    apply (level_IS_SR txn Hr) in Hlev. congruence.
Qed.

Lemma einv_write txn s p A D ret e : einv s -> runs_in txn -> pend s = Some p ->
  fits p (len (set_order A) + len (set_order D)) ->
  WriteVersion junk A D (ent s) = Some (ret, e) ->
  einv (mk_estate e (hist s) (Some (written p A D)) (hold s)).
Proof.
  intros [He Hl Hho Hw] Hr Hp Hf Hwr. rewrite Hp in *.
  destruct (wpM_result _ _ _ _ _ (WriteVersion_spec junk A D _ _ _ He Hf) Hwr) as (_&Hok&Hg&_).
  split; cbn [ent hist pend hold]; [done|congruence| |].
  - destruct (hold s); [done|]. destruct Hho as (?&?&p'&[= <-]&?). split_and!; [done|done|]. by eexists.
  - intros p' [= <-]. cbn. by apply Hw.
Qed.

Lemma einv_commit txn s p ret e : einv s -> runs_in txn -> pend s = Some p -> p_tid p = TID txn ->
  Forall (fun c => c_id c <= CommitID txn) (hist s) -> 0 <= CommitID txn < INVALID_TS ->
  UnLatch txn EXCLUSIVE (ent s) = Some (ret, e) ->
  einv (mk_estate e (hist s ++ [committed (CommitID txn) p]) None
    (hold_if (IS_SR txn) (Free_or_shared []) (hold s))).
Proof.
  intros Hi Hr Hp Ht Hm Hc Hu. pose proof (ei_entry _ Hi) as He. rewrite Hp in He.
  pose proof (einv_writer_latch _ _ _ Hi Hr Hp Ht) as Hwl.
  destruct (wpM_result _ _ _ _ _ (UnLatch_exclusive_spec txn (proj1 Hr) _ _ _ He Hwl Hm Hc) Hu)
    as (_&Hok&Hg).
  destruct (hold_after_writer txn s p [] Hi Hr Hp Ht (or_introl eq_refl)) as (rs'&->&Hf&Hn&Hlat).
  split; cbn [ent hist pend hold]; [done| |done|done]. by rewrite Hlat, Hg.
Qed.

Lemma einv_abort txn s p has_read ret e : einv s -> runs_in txn -> pend s = Some p -> p_tid p = TID txn ->
  InvalidExlusiveLatch txn has_read (ent s) = Some (ret, e) ->
  einv (mk_estate e (hist s) None
    (hold_if (IS_SR txn) (Free_or_shared (if has_read then [TID txn] else [])) (hold s))).
Proof.
  intros Hi Hr Hp Ht Hu. pose proof (ei_entry _ Hi) as He. rewrite Hp in He.
  pose proof (einv_writer_latch _ _ _ Hi Hr Hp Ht) as Hwl.
  destruct (wpM_result _ _ _ _ _ (InvalidExlusiveLatch_spec txn (proj1 Hr) has_read _ _ _ He Hwl) Hu)
    as (_&Hok&Hg).
  destruct (hold_after_writer txn s p (if has_read then [TID txn] else []) Hi Hr Hp Ht)
    as (rs'&->&Hf&Hn&Hlat); [by destruct has_read; auto|].
  split; cbn [ent hist pend hold]; [done| |done|done]. by rewrite Hlat, Hg.
Qed.

Lemma einv_unshare txn s rs ret e : einv s -> runs_in txn -> IS_SR txn = true ->
  hold s = Free_or_shared rs -> TID txn ∈ rs -> UnLatch txn SHARED (ent s) = Some (ret, e) ->
  einv (mk_estate e (hist s) (pend s) (Free_or_shared (remove_one (TID txn) rs))).
Proof.
  intros Hi Hr Hsr Hrs Hin Hu. pose proof (einv_holders _ Hi) as Hh. destruct Hi as [He Hl Hho Hw].
  rewrite Hrs in *. rewrite (UnLatch_shared_spec txn _ _ Hsr Hl Hh Hin) in Hu. injection Hu as <- <-.
  split; cbn [ent hist pend hold].
  - by apply (entry_ok_list (ent s)).
  - done.
  - destruct Hho. split; [by apply remove_one_ok|by apply remove_one_NoDup].
  - intros p Hp Hlev. specialize (Hw p Hp Hlev). done.
Qed.

Lemma estep_inv txn s s' : einv s -> estep txn s s' -> einv s'.
Proof.
  intros Hi Hs. destruct Hs.
  - by apply einv_read with (first_read := first_read).
  - by apply einv_lock.
  - by eapply einv_write.
  - by eapply einv_commit.
  - by eapply einv_abort.
  - by eapply einv_unshare.
Qed.

(** *** What a snapshot reads *)

Lemma getProperVersion_value e hist pend TID d : entry_ok e hist pend -> TID < INVALID_TS ->
  (forall p, pend = Some p -> p_tid p <> TID) ->
  getProperVersion TID e d = Some (hist_delta (snapshot TID hist) d).
Proof.
  intros Hok Ht Hnm. pose proof Hok as [_ Hs _ _ (vs&pvs&Hl&Hf&_&Hpv)].
  destruct (entry_newest _ _ _ Hok) as (v&Hv&_). unfold getProperVersion.
  rewrite Hl, (proper_loop_spec TID hist); [|done|done| |done].
  2: { destruct pend as [p|]; cbn in Hpv; [|by subst]. destruct Hpv as (w&->&?&_). by constructor. }
  cbn [mbind option_bind]. rewrite Hv. cbn [mbind option_bind].
  rewrite (private_pending _ _ _ _ _ Hok Hv Ht). destruct pend as [p|]; [|done].
  by rewrite bool_decide_false by auto.
Qed.

(** A step of another transaction, whose commit is newer than [t]. *)
Definition other_step (t : Z) (s s' : estate) : Prop :=
  exists txn, TID txn <> t /\ t < CommitID txn /\ estep txn s s'.

(** Nothing of what [t] sees changes under a step of another transaction. *)
Lemma other_step_snapshot t s s' : einv s -> (forall p, pend s = Some p -> p_tid p <> t) ->
  other_step t s s' ->
  einv s' /\ (forall p, pend s' = Some p -> p_tid p <> t) /\
  snapshot t (hist s') = snapshot t (hist s).
Proof.
  intros Hi Hnm (txn&Hne&Hcid&Hs). split; [by eapply estep_inv|].
  destruct Hs; cbn [hist pend]; try (by split); split.
  - intros p. case_decide; [intros [= <-]; done|apply Hnm].
  - done.
  - intros p' [= <-]. cbn. by apply Hnm.
  - done.
  - done.
  - rewrite snapshot_app. cbn. rewrite decide_False by lia. apply app_nil_r.
Qed.

(** *** Every call of the protocol returns *)

Lemma getProperVersion_runs e hist pend TID d : entry_ok e hist pend -> TID < INVALID_TS ->
  is_Some (getProperVersion TID e d).
Proof.
  intros Hok Ht. pose proof Hok as [_ Hs _ _ (vs&pvs&Hl&Hf&_&Hpv)].
  destruct (entry_newest _ _ _ Hok) as (v&Hv&Hpr). unfold getProperVersion.
  rewrite Hl, (proper_loop_spec TID hist); [|done|done| |done].
  2: { destruct pend as [p|]; cbn in Hpv; [|by subst]. destruct Hpv as (w&->&?&_). by constructor. }
  cbn [mbind option_bind]. rewrite Hv. cbn [mbind option_bind].
  rewrite (private_pending _ _ _ _ _ Hok Hv Ht). destruct pend as [p|]; [|by eexists].
  destruct Hpr as (_&_&Hh&_). case_bool_decide; [|by eexists].
  rewrite (get_version_spec (p_adds p) (p_dels p)) by done. by eexists.
Qed.

Lemma getLatestVersion_runs e hist pend TID d : entry_ok e hist pend -> is_Some (getLatestVersion TID e d).
Proof.
  intros Hok. destruct (entry_newest _ _ _ Hok) as (v&Hv&Hpr). unfold getLatestVersion.
  rewrite Hv. cbn [mbind option_bind]. destruct pend as [p|].
  - destruct Hpr as (_&_&Hh&vs&Hl&Hf&_). rewrite Hl, removelast_last, (get_versions_spec hist) by done.
    cbn [mbind option_bind]. case_match; [|by eexists].
    rewrite (get_version_spec (p_adds p) (p_dels p)) by done. by eexists.
  - destruct Hpr as (_&h&c&vs&->&Hl&Hf&_&Hh). rewrite Hl, removelast_last, (get_versions_spec h) by done.
    cbn [mbind option_bind]. case_match; [|by eexists].
    rewrite (get_version_spec (c_adds c) (c_dels c)) by done. by eexists.
Qed.

Lemma ReadVersion_runs txn s first_read : einv s -> runs_in txn ->
  is_Some (ReadVersion no_change txn false first_read (ent s)).
Proof.
  intros Hi (Ht&_&Hlev). pose proof (einv_holders _ Hi) as Hh. destruct Hi as [Hok Hl _ _].
  assert (Hlt : TID txn < INVALID_TS) by (unfold tid_ok, INVALID_TID, INVALID_TS in *; lia).
  assert (Hp : forall g, is_Some (getProperVersion (TID txn) (set_glatch g (ent s)) no_change)).
  { intros g. eapply getProperVersion_runs; [|done]. by apply (entry_ok_list (ent s)). }
  unfold ReadVersion. destruct (isolation txn); [done| | |].
  - destruct (checkheadVersion_spec txn Ht _ _ _ Hok) as (c&->&_). cbn [mbind option_bind].
    case_match; [by eexists|]. case_match.
    + rewrite (on_glatch_implements _ _ _ _ (trysharedlatch_implements _ Ht _ Hh) Hl). cbn [mbind option_bind].
      case_match; [by eexists|]. destruct (Hp (latch_of (shared_spec (TID txn) (hold s)).2)) as [d ->].
      by eexists.
    + destruct (Hp (glatch (ent s))) as [d Hd]. rewrite set_glatch_same in Hd by done. rewrite Hd. by eexists.
  - destruct (Hp (glatch (ent s))) as [d Hd]. rewrite set_glatch_same in Hd by done. rewrite Hd. by eexists.
  - destruct (getLatestVersion_runs _ _ _ (TID txn) no_change Hok) as [d ->]. by eexists.
Qed.

Lemma wpM_runs {S A} (m : M S A) s Q : wpM m s Q -> is_Some (m s).
Proof. unfold wpM. destruct (m s); [by eexists|done]. Qed.

Lemma GetExclusiveLatch_runs txn s has_read : einv s -> runs_in txn -> ~ mine txn (pend s) ->
  (IS_SR txn = true -> has_read = true <-> shares txn (hold s)) ->
  is_Some (GetExclusiveLatch junk txn has_read (ent s)).
Proof.
  intros Hi Hr Hnm Hpro. pose proof (einv_holders _ Hi) as Hh.
  destruct (GetExclusiveLatch_spec junk txn (proj1 Hr) has_read (ent s) (hist s) (pend s) (hold s))
    as (ret&e&->&_); [apply Hi|apply Hr| |apply Hi|done| |by eexists].
  - intros p Hp Hpt. apply Hnm. by exists p.
  - intros -> Hsr. by apply (Hpro Hsr).
Qed.

(** The calls of the owner of the pending change. *)
Lemma writer_runs txn s p : einv s -> runs_in txn -> pend s = Some p -> p_tid p = TID txn ->
  (forall A D, fits p (len (set_order A) + len (set_order D)) -> is_Some (WriteVersion junk A D (ent s))) /\
  (Forall (fun c => c_id c <= CommitID txn) (hist s) -> 0 <= CommitID txn < INVALID_TS ->
     is_Some (UnLatch txn EXCLUSIVE (ent s))) /\
  (forall has_read, is_Some (InvalidExlusiveLatch txn has_read (ent s))).
Proof.
  intros Hi Hr Hp Ht. pose proof (ei_entry _ Hi) as He. rewrite Hp in He.
  pose proof (einv_writer_latch _ _ _ Hi Hr Hp Ht) as Hwl. split_and!.
  - intros A D Hf. by eapply wpM_runs, WriteVersion_spec.
  - intros Hm Hc. by eapply wpM_runs, (UnLatch_exclusive_spec txn (proj1 Hr)).
  - intros has_read. by eapply wpM_runs, (InvalidExlusiveLatch_spec txn (proj1 Hr)).
Qed.
End System.
