(* ===== verification/EntryTheorems.v ===== *)
(** * Theorems about versions, latches and entries *)

From S2P Require Import Prelude Version VersionSpec GLatch Transaction IVEntry IVEntrySpec IVEntrySystem.

(** ** One version *)

Inductive wop := WAdd (p : VData) | WRemove (p : VData).

(** The writes of a transaction to its version. *)
Fixpoint run_writes (junk : nat -> Z) (ws : list wop) (v : Version) : option Version :=
  match ws with
  | [] => Some v
  | WAdd p :: ws' => v ← Version_add junk v p; run_writes junk ws' v
  | WRemove p :: ws' => v ← Version_remove junk v p; run_writes junk ws' v
  end.

Definition adds_of (ws : list wop) : VDataArray := ws ≫= fun w => match w with WAdd p => [p] | _ => [] end.
Definition dels_of (ws : list wop) : VDataArray := ws ≫= fun w => match w with WRemove p => [p] | _ => [] end.

Lemma length_ops ws : len (adds_of ws) + len (dels_of ws) = len ws.
Proof.
  induction ws as [|[p|p] ws IH]; [done| |]; unfold adds_of, dels_of in *; cbn in *; lia.
Qed.

Lemma run_writes_spec junk ws adds dels v : holds adds dels v ->
  need adds dels (len ws) < MAX_CELLS ->
  wp (run_writes junk ws v) (fun v' => holds (adds ++ adds_of ws) (dels ++ dels_of ws) v' /\ kept v v').
Proof.
  revert adds dels v. induction ws as [|[p|p] ws IH]; intros adds dels v Hv Hn; cbn [run_writes].
  - cbn. by rewrite !app_nil_r.
  - apply wp_bind. eapply wp_mono; [|apply Version_add_spec; [done|unfold need in *; len_lia]].
    intros v1 [H1 [Hb He]]. eapply wp_mono; [|apply (IH (adds ++ [p])); [done|unfold need in *; len_lia]].
    intros v2 [H2 [Hb2 He2]]. unfold adds_of, dels_of in *. cbn. rewrite <- app_assoc in H2.
    split; [done|]. split; congruence.
  - apply wp_bind. eapply wp_mono; [|apply Version_remove_spec; [done|unfold need in *; len_lia]].
    intros v1 [H1 [Hb He]]. eapply wp_mono; [|apply (IH adds (dels ++ [p])); [done|unfold need in *; len_lia]].
    intros v2 [H2 [Hb2 He2]]. unfold adds_of, dels_of in *. cbn. rewrite <- app_assoc in H2.
    split; [done|]. split; congruence.
Qed.

(** A fresh version and its writes. *)
Lemma run_fresh junk ws b e : 4 + 2 * len ws < MAX_CELLS ->
  exists v v', Version_new junk b e = Some v /\ run_writes junk ws v = Some v' /\
    begin_ts v' = b /\ end_ts v' = e /\ holds (adds_of ws) (dels_of ws) v'.
Proof.
  intros Hn. pose proof (Version_new_spec junk b e) as Hv.
  destruct (Version_new junk b e) as [v|]; [|done]. destruct Hv as (Hh&<-&<-).
  pose proof (run_writes_spec junk ws [] [] v Hh ltac:(unfold need; cbn; lia)) as Hw.
  destruct (run_writes junk ws v) as [v'|] eqn:E; [|done]. destruct Hw as (H1&Hb&He).
  by exists v, v'.
Qed.

(** Whatever is written to a fresh version, in any order and through any
    number of expansions of its array, [get_version] hands back all added pairs in
    the order of the additions and then all removed ones in theirs, and the array
    is never accessed out of range; at most 2^29 - 3 writes fit. *)
Theorem version_writes_roundtrip junk ws b e s : 4 + 2 * len ws < MAX_CELLS ->
  exists v v', Version_new junk b e = Some v /\ run_writes junk ws v = Some v' /\
    begin_ts v' = b /\ end_ts v' = e /\
    get_version v' s = Some (version_delta (adds_of ws) (dels_of ws) s) /\
    get_add_set v' ∅ = Some (list_to_set (adds_of ws)).
Proof.
  intros Hn. destruct (run_fresh junk ws b e Hn) as (v&v'&Hv&Hw&Hb&He&Hh).
  exists v, v'. split_and!; try done.
  - by apply get_version_spec.
  - rewrite (get_add_set_spec _ _ _ _ Hh). f_equal. set_solver.
Qed.

Definition mem : nat -> Z := fun _ => 7.

Lemma version_writes_witness :
  exists v v', Version_new mem 0 INVALID_TS = Some v /\
    run_writes mem (WRemove (3, 4) :: map (fun i => WAdd (i, i)) (seqZ 1 40)) v = Some v' /\
    begin_ts v' = 0 /\ end_ts v' = INVALID_TS /\
    get_version v' (∅, {[(7, 7)]}) =
      Some (version_delta (map (fun i => (i, i)) (seqZ 1 40)) [(3, 4)] (∅, {[(7, 7)]})) /\
    get_add_set v' ∅ = Some (list_to_set (map (fun i => (i, i)) (seqZ 1 40))).
Proof.
  apply (version_writes_roundtrip mem (WRemove (3, 4) :: map (fun i => WAdd (i, i)) (seqZ 1 40))).
  vm_compute. reflexivity.
Defined.

(** When each version added absent pairs and removed present ones, at most
    once each, reading the versions of a history in turn collects a change of the
    stored pairs whose application (add, then remove) yields the pairs after all
    the transactions. *)
Theorem version_replay_correct base h vs :
  Forall2 version_of h vs -> replay_ok h base ->
  exists A D, get_versions vs (∅, ∅) = Some (A, D) /\ A ## D /\ A ## base /\ D ⊆ base /\
    (base ∪ A) ∖ D = replay h base.
Proof.
  intros Hf Hr. rewrite (get_versions_spec h) by done.
  destruct (no_change_exact base) as (H1&H2&H3).
  destruct (hist_delta_effect base h no_change) as ([H4 H4']&H5&H6); [done|done|by rewrite H3|].
  rewrite H3 in H6. destruct (hist_delta h no_change) as [A D] eqn:E. exists A, D.
  unfold no_change in E. rewrite E. by split_and!.
Qed.

Definition written_version (b : Z) (ws : list wop) : Version :=
  default (mk_Version [] 0 0) (v ← Version_new mem b INVALID_TS; run_writes mem ws v).

Lemma written_version_of b ws : 4 + 2 * len ws < MAX_CELLS ->
  version_of (mk_commit b (adds_of ws) (dels_of ws)) (written_version b ws).
Proof.
  intros Hn. unfold written_version. destruct (run_fresh mem ws b INVALID_TS Hn) as (v&v'&->&Hw&Hb&_&Hh).
  cbn [mbind option_bind]. rewrite Hw. by split.
Qed.

Lemma version_replay_witness : exists A D,
  get_versions [written_version 1 [WAdd (1, 2)]; written_version 2 [WRemove (1, 2); WAdd (5, 6); WRemove (8, 8)]]
    (∅, ∅) = Some (A, D) /\ A ## D /\ A ## {[(8, 8)]} /\ D ⊆ {[(8, 8)]} /\
  ({[(8, 8)]} ∪ A) ∖ D = replay [mk_commit 1 [(1, 2)] []; mk_commit 2 [(5, 6)] [(1, 2); (8, 8)]] {[(8, 8)]}.
Proof.
  apply version_replay_correct.
  - constructor; [apply (written_version_of 1 [WAdd (1, 2)]); vm_compute; reflexivity|].
    constructor; [|constructor].
    apply (written_version_of 2 [WRemove (1, 2); WAdd (5, 6); WRemove (8, 8)]). vm_compute. reflexivity.
  - split; [|split; [|exact I]]; apply (bool_decide_unpack _); vm_compute; exact I.
Defined.

(** C35. A transaction that inserts, removes and inserts again one absent pair
    loses it: the version records two additions and one removal, and reading
    them back the second addition is absorbed by the first.  Likewise a pair that
    was stored before survives its removal when the transaction had inserted it
    first. *)
Theorem version_rewrites_lost junk p base :
  (exists v v', Version_new junk INVALID_TS 1 = Some v /\
    run_writes junk [WAdd p; WRemove p; WAdd p] v = Some v' /\
    get_version v' (∅, ∅) = Some (∅, ∅)) /\
  (exists v v', Version_new junk INVALID_TS 1 = Some v /\
    run_writes junk [WAdd p; WRemove p] v = Some v' /\
    exists s, get_version v' (∅, ∅) = Some s /\ patched base s = base).
Proof.
  split.
  - destruct (run_fresh junk [WAdd p; WRemove p; WAdd p] INVALID_TS 1) as (v&v'&Hv&Hw&_&_&Hh); [done|].
    exists v, v'. split_and!; [done|done|]. rewrite (get_version_spec _ _ _ _ Hh). unfold apply_add, apply_remove. cbn.
    rewrite decide_False, decide_False, decide_True by set_solver. do 2 f_equal. set_solver.
  - destruct (run_fresh junk [WAdd p; WRemove p] INVALID_TS 1) as (v&v'&Hv&Hw&_&_&Hh); [done|].
    exists v, v'. split_and!; [done|done|]. eexists. split; [exact (get_version_spec _ _ _ _ Hh)|].
    unfold apply_add, apply_remove. cbn.
    rewrite decide_False, decide_True by set_solver. unfold patched. cbn. set_solver.
Qed.

(** C34. In every state that transactions can bring the latch to by calls in any
    order, at most one transaction was given the exclusive latch, and then none
    shares it; the two fields say who holds it, no assertion of a call made by
    the protocol fails, and the owner can always give the latch back or
    downgrade it. *)
Theorem glatch_mutual_exclusion s t : lreachable s -> tid_ok t ->
  (owned_by s = [] \/ exists x, owned_by s = [x] /\ shared_by s = []) /\
  latch s = latch_of (believed s) /\
  is_Some (tryexclusivelatch t true (latch s)) /\ is_Some (trysharedlatch t (latch s)) /\
  (t ∈ shared_by s -> is_Some (tryupgradelatch t (latch s)) /\ is_Some (unlatch t false true (latch s))) /\
  (t ∈ owned_by s -> trydowngradelatch t (latch s) = Some (true, latch_of (Free_or_shared [t])) /\
                     unlatch t true true (latch s) = Some (true, GLatch_new)).
Proof.
  intros Hr Ht. pose proof (lreachable_inv s Hr) as Hi.
  destruct (calls_run s t Hi Ht) as (H1&H2&H3&H4). destruct Hi as [Hl Hx _ _].
  split_and!; try done. destruct Hx as [->|(x&Hx&_&Hs)]; [by left|right; eauto].
Qed.

Definition upgraded : lstate := mk_lstate (mk_GLatch 4 1) [] [4].

Lemma upgraded_reachable : lreachable upgraded.
Proof.
  eapply rtc_l; [apply (step_shared 4 lstate_init true (mk_GLatch INVALID_TID 1)); [done|set_solver|set_solver|done]|].
  eapply rtc_l; [|apply rtc_refl].
  apply (step_upgrade 4 (mk_lstate (mk_GLatch INVALID_TID 1) [4] []) true (mk_GLatch 4 1)); [set_solver|done].
Qed.

Lemma glatch_mutual_exclusion_witness :
  (owned_by upgraded = [] \/ exists x, owned_by upgraded = [x] /\ shared_by upgraded = []) /\
  latch upgraded = latch_of (believed upgraded) /\
  is_Some (tryexclusivelatch 4 true (latch upgraded)) /\ is_Some (trysharedlatch 4 (latch upgraded)) /\
  (4 ∈ shared_by upgraded ->
     is_Some (tryupgradelatch 4 (latch upgraded)) /\ is_Some (unlatch 4 false true (latch upgraded))) /\
  (4 ∈ owned_by upgraded ->
     trydowngradelatch 4 (latch upgraded) = Some (true, latch_of (Free_or_shared [4])) /\
     unlatch 4 true true (latch upgraded) = Some (true, GLatch_new)).
Proof. apply (glatch_mutual_exclusion upgraded 4); [apply upgraded_reachable|done]. Defined.

(** ** One entry *)

(** The states that running transactions can bring a fresh entry to. *)
Definition entry_reachable (junk : nat -> Z) (level : Z -> IsolationLevelType) (s : estate) : Prop :=
  exists e0, allocVersionTransation junk = Some e0 /\
    rtc (fun s s' => exists txn, estep junk level txn s s')
      (mk_estate e0 [first_commit] None (Free_or_shared [])) s.

Lemma fresh_inv junk level e0 : allocVersionTransation junk = Some e0 ->
  einv level (mk_estate e0 [first_commit] None (Free_or_shared [])).
Proof.
  intros He. pose proof (allocVersionTransation_spec junk) as Hs. rewrite He in Hs. destruct Hs as [Hok Hg].
  split; cbn [ent hist pend hold]; [done|done|split; constructor|done].
Qed.

Lemma entry_reachable_inv junk level s : entry_reachable junk level s -> einv level s.
Proof.
  intros (e0&He&Hr). pose proof (fresh_inv junk level e0 He) as Hi. clear He.
  induction Hr as [|s1 s2 s3 [txn Hs] Hr IH]; [done|]. apply IH. by eapply estep_inv.
Qed.

(** C32. Whatever transactions of any isolation levels do to an entry, in any
    order, the version list is the history of the committed changes in commit
    order, each ending where the next begins, followed by at most one pending
    change, and a serializable writer owns the latch.  Every call a transaction
    may make there returns: no assertion fails and no access is out of range. *)
Theorem entry_system_safe junk level s txn :
  entry_reachable junk level s -> runs_in level txn ->
  einv level s /\
  (forall first_read, is_Some (ReadVersion no_change txn false first_read (ent s))) /\
  (forall has_read, ~ mine txn (pend s) ->
     (IS_SR txn = true -> has_read = true <-> shares txn (hold s)) ->
     is_Some (GetExclusiveLatch junk txn has_read (ent s))) /\
  (forall p, pend s = Some p -> p_tid p = TID txn ->
     (forall A D, fits p (len (set_order A) + len (set_order D)) ->
        is_Some (WriteVersion junk A D (ent s))) /\
     (Forall (fun c => c_id c <= CommitID txn) (hist s) -> 0 <= CommitID txn < INVALID_TS ->
        is_Some (UnLatch txn EXCLUSIVE (ent s))) /\
     (forall has_read, is_Some (InvalidExlusiveLatch txn has_read (ent s)))).
Proof.
  intros Hr Htxn. pose proof (entry_reachable_inv _ _ _ Hr) as Hi. split_and!.
  - done.
  - intros. by eapply ReadVersion_runs.
  - intros. by eapply GetExclusiveLatch_runs.
  - intros p Hp Ht. by eapply writer_runs.
Qed.

(** A serializable transaction and a fresh entry that it has locked. *)
Definition levels (t : Z) : IsolationLevelType := if t =? 4 then SERIALIZABLE else SNAPSHOT.
Definition txn4 : Transaction := Transaction_new 9 4 SERIALIZABLE.
Definition entry0 : IVEntry :=
  default (mk_IVEntry GLatch_new false []) (allocVersionTransation mem).
Definition entry4 : IVEntry :=
  default entry0 (snd <$> GetExclusiveLatch mem txn4 false entry0).
Definition locked4 : estate :=
  mk_estate entry4 [first_commit] (Some (mk_pending 4 [] [])) (Exclusive 4).

Lemma locked4_reachable : entry_reachable mem levels locked4.
Proof.
  exists entry0. split; [done|]. eapply rtc_l; [|apply rtc_refl]. exists txn4.
  apply (es_lock mem levels txn4 (mk_estate entry0 [first_commit] None (Free_or_shared [])) false 1 entry4).
  - by split_and!.
  - by intros (p&?&_).
  - intros _. split; [done|]. by intros (rs&[= <-]&?%elem_of_nil).
  - vm_compute. reflexivity.
Qed.

Lemma entry_system_witness :
  einv levels locked4 /\
  (forall first_read, is_Some (ReadVersion no_change txn4 false first_read (ent locked4))) /\
  (forall has_read, ~ mine txn4 (pend locked4) ->
     (IS_SR txn4 = true -> has_read = true <-> shares txn4 (hold locked4)) ->
     is_Some (GetExclusiveLatch mem txn4 has_read (ent locked4))) /\
  (forall p, pend locked4 = Some p -> p_tid p = TID txn4 ->
     (forall A D, fits p (len (set_order A) + len (set_order D)) ->
        is_Some (WriteVersion mem A D (ent locked4))) /\
     (Forall (fun c => c_id c <= CommitID txn4) (hist locked4) -> 0 <= CommitID txn4 < INVALID_TS ->
        is_Some (UnLatch txn4 EXCLUSIVE (ent locked4))) /\
     (forall has_read, is_Some (InvalidExlusiveLatch txn4 has_read (ent locked4)))).
Proof. apply (entry_system_safe mem levels locked4 txn4); [apply locked4_reachable|by split_and!]. Defined.

(** C33. Repeatable reads: while other transactions, at any level, read, lock,
    write, commit with newer commit ids and abort, a transaction that reads
    snapshots and is not writing the entry collects exactly the same change from
    it. *)
Theorem snapshot_stable junk level t s s' :
  entry_reachable junk level s -> t < INVALID_TS ->
  (forall p, pend s = Some p -> p_tid p <> t) ->
  rtc (other_step junk level t) s s' ->
  getProperVersion t (ent s') no_change = getProperVersion t (ent s) no_change /\
  is_Some (getProperVersion t (ent s) no_change).
Proof.
  intros Hr Ht Hnm Hs. pose proof (entry_reachable_inv _ _ _ Hr) as Hi. clear Hr.
  split; [|by eapply getProperVersion_runs; [apply Hi|]].
  induction Hs as [|s1 s2 s3 H12 H23 IH]; [done|].
  destruct (other_step_snapshot _ _ _ _ _ Hi Hnm H12) as (Hi2&Hnm2&Hsn).
  rewrite IH by done.
  rewrite (getProperVersion_value _ _ _ _ _ (ei_entry _ _ Hi2) Ht Hnm2).
  by rewrite (getProperVersion_value _ _ _ _ _ (ei_entry _ _ Hi) Ht Hnm), Hsn.
Qed.

Definition entry4w : IVEntry := default entry0 (snd <$> WriteVersion mem {[(1, 2)]} ∅ entry4).
Definition entry4c : IVEntry := default entry0 (snd <$> UnLatch txn4 EXCLUSIVE entry4w).
Definition pending4 : pending := written (mk_pending 4 [] []) {[(1, 2)]} ∅.
Definition committed4 : estate :=
  mk_estate entry4c ([first_commit] ++ [committed 9 pending4]) None (Free_or_shared []).

Lemma committed4_after : rtc (other_step mem levels 5) locked4 committed4.
Proof.
  assert (Hr : runs_in levels txn4) by (by split_and!).
  eapply rtc_l; [exists txn4; split; [done|]; split; [done|]|eapply rtc_l; [exists txn4; split; [done|]; split; [done|]|apply rtc_refl]].
  - apply (es_write mem levels txn4 locked4 (mk_pending 4 [] []) {[(1, 2)]} ∅ 1 entry4w); done.
  - apply (es_commit mem levels txn4 (mk_estate entry4w [first_commit] (Some pending4) (Exclusive 4)) pending4 true entry4c);
      try done. by apply Forall_singleton.
Qed.

Lemma snapshot_stable_witness :
  getProperVersion 5 (ent committed4) no_change = getProperVersion 5 (ent locked4) no_change /\
  is_Some (getProperVersion 5 (ent locked4) no_change).
Proof.
  apply (snapshot_stable mem levels 5 locked4 committed4);
    [apply locked4_reachable|vm_compute; reflexivity| |apply committed4_after].
  intros p [= <-]. done.
Defined.

(** A transaction becomes the writer of an entry exactly when nobody else is
    writing it, the latch is granted at the serializable level, and, unless it
    reads committed changes as they come, it has seen every committed change; so
    a snapshot writer starts from the newest pairs and no update is lost.  When
    it is refused, the entry is as before. *)
Theorem writer_admission junk txn has_read e hist pend h base :
  tid_ok (TID txn) -> isolation txn <> INVALID_LEVEL -> entry_ok e hist pend ->
  (forall p, pend = Some p -> p_tid p <> TID txn) ->
  glatch e = latch_of h -> holders_ok h -> (has_read = true -> reader_of txn h) ->
  exists ret e', GetExclusiveLatch junk txn has_read e = Some (ret, e') /\
    ((ret = 1 /\ pend = None /\ (grants txn has_read h).1 = true /\
      entry_ok e' hist (Some (mk_pending (TID txn) [] [])) /\
      glatch e' = latch_of (grants txn has_read h).2 /\
      (IS_RC txn = false -> replay (snapshot (TID txn) hist) base = replay hist base)) \/
     (ret = 0 /\ e' = e /\
      (pend <> None \/ (grants txn has_read h).1 = false \/
       (IS_RC txn = false /\ exists c, c ∈ hist /\ TID txn < c_id c)))).
Proof.
  intros Ht Hlev Hok Hother Hg Hh Hr.
  destruct (GetExclusiveLatch_spec junk txn Ht has_read e hist pend h) as (ret&e'&Heq&Hc); try done.
  exists ret, e'. split; [done|]. destruct Hc as [(->&->&Hmw&Hgr&Hok'&Hg'&_)|(->&->&Hc)].
  - left. split_and!; try done. intros Hrc. rewrite snapshot_all; [done|].
    destruct Hmw as [Hrc'|Hall]; [congruence|done].
  - right. split_and!; [done|done|]. destruct Hc as [Hnw|Hgr]; [|auto].
    destruct pend as [p|]; [by left|]. right. right.
    destruct (IS_RC txn); [destruct Hnw; by left|]. split; [done|].
    assert (Hna : ~ Forall (fun c => c_id c <= TID txn) hist) by (intros ?; apply Hnw; by right).
    apply not_Forall_Exists, Exists_exists in Hna as (c&Hin&Hc); [|apply _]. exists c. split; [done|]. cbn in Hc. lia.
Qed.

Definition txn6 : Transaction := Transaction_new 12 6 SNAPSHOT.

Lemma committed4_inv : einv levels committed4.
Proof.
  assert (Hi : einv levels locked4) by (eapply entry_reachable_inv, locked4_reachable).
  assert (Hr : forall s s', rtc (other_step mem levels 5) s s' -> einv levels s -> einv levels s').
  { induction 1 as [|s1 s2 s3 (txn&_&_&Hs) _ IH]; [done|]. intros ?. apply IH. by eapply estep_inv. }
  by eapply Hr; [apply committed4_after|].
Qed.

Lemma writer_admission_witness : exists ret e', GetExclusiveLatch mem txn6 false entry4c = Some (ret, e') /\
  ((ret = 1 /\ (None : option pending) = None /\ (grants txn6 false (Free_or_shared [])).1 = true /\
    entry_ok e' [first_commit; committed 9 pending4] (Some (mk_pending 6 [] [])) /\
    glatch e' = latch_of (grants txn6 false (Free_or_shared [])).2 /\
    (IS_RC txn6 = false -> replay (snapshot 6 [first_commit; committed 9 pending4]) ∅ =
                           replay [first_commit; committed 9 pending4] ∅)) \/
   (ret = 0 /\ e' = entry4c /\
    ((None : option pending) <> None \/ (grants txn6 false (Free_or_shared [])).1 = false \/
     (IS_RC txn6 = false /\ exists c, c ∈ [first_commit; committed 9 pending4] /\ 6 < c_id c)))).
Proof.
  apply (writer_admission mem txn6 false entry4c [first_commit; committed 9 pending4] None (Free_or_shared []) ∅);
    try done. apply (ei_entry _ _ committed4_inv).
Defined.

(** A read returns the change between the stored pairs and the pairs the
    transaction is meant to see: every committed pair at read committed, those
    committed up to its own id at the other levels, with its own writes on top.
    Only a serializable read is ever refused, when an older transaction is
    writing the entry or another one owns its latch, and then nothing changes; a
    serializable reader of the newest version shares the latch afterwards. *)
Theorem reads_see_view txn base first_read e hist pend h :
  tid_ok (TID txn) -> isolation txn <> INVALID_LEVEL -> entry_ok e hist pend ->
  replay_ok hist base -> pend_ok pend (replay hist base) ->
  (IS_RC txn = false -> writer_sees_all txn hist pend) -> glatch e = latch_of h -> holders_ok h ->
  exists ret latched A D e', ReadVersion (∅, ∅) txn false first_read e = Some (mk_read ret latched (A, D) e') /\
    ((ret = true /\ (base ∪ A) ∖ D = view txn base hist pend /\ A ## D /\ A ## base /\ D ⊆ base /\
      (latched = false /\ e' = e \/
       latched = true /\ IS_SR txn = true /\ first_read = true /\ pend = None /\
       e' = set_glatch (latch_of (shared_spec (TID txn) h).2) e)) \/
     (ret = false /\ latched = false /\ IS_SR txn = true /\ e' = e /\
      ((exists p, pend = Some p /\ p_tid p < TID txn) \/ (exists t, h = Exclusive t /\ t <> TID txn)))).
Proof.
  intros Ht Hlev Hok Hr Hp Hall Hg Hh.
  pose proof (ReadVersion_spec txn Ht base first_read e hist pend h Hok Hlev Hr Hp Hall Hg Hh) as Hs.
  unfold no_change in Hs.
  destruct (ReadVersion (∅, ∅) txn false first_read e) as [[ret l [A D] e']|]; [|done].
  exists ret, l, A, D, e'. split; [done|].
  unfold read_done, read_refused, sees, exact, patched in Hs.
  cbn [wp read_ret read_latched read_sets read_entry fst snd] in Hs.
  destruct Hs as [(->&([H1 H2]&H3&H4)&H5)|(->&H1&->&->&H2)]; [left|right]; by split_and!.
Qed.

Lemma reads_see_view_witness :
  exists ret latched A D e', ReadVersion (∅, ∅) txn6 false true entry4c = Some (mk_read ret latched (A, D) e') /\
    ((ret = true /\ (∅ ∪ A) ∖ D = view txn6 ∅ [first_commit; committed 9 pending4] None /\
      A ## D /\ A ## ∅ /\ D ⊆ ∅ /\
      (latched = false /\ e' = entry4c \/
       latched = true /\ IS_SR txn6 = true /\ true = true /\ (None : option pending) = None /\
       e' = set_glatch (latch_of (shared_spec 6 (Free_or_shared [])).2) entry4c)) \/
     (ret = false /\ latched = false /\ IS_SR txn6 = true /\ e' = entry4c /\
      ((exists p, (None : option pending) = Some p /\ p_tid p < 6) \/
       (exists t, Free_or_shared [] = Exclusive t /\ t <> 6)))).
Proof.
  apply (reads_see_view txn6 ∅ true entry4c [first_commit; committed 9 pending4] None (Free_or_shared []));
    try done; [apply (ei_entry _ _ committed4_inv)|].
  split; [|split; [|exact I]]; apply (bool_decide_unpack _); vm_compute; exact I.
Defined.

(** The end of a transaction: its commit appends its change to the history
    at its commit id, so readers from that id on see it and older snapshots do
    not; its abort brings every view of every other transaction back to what it
    was, and both give the latch back. *)
Theorem end_of_transaction txn e hist p base :
  tid_ok (TID txn) -> entry_ok e hist (Some p) -> p_tid p = TID txn -> writer_latch txn e ->
  Forall (fun c => c_id c <= CommitID txn) hist -> 0 <= CommitID txn < INVALID_TS ->
  (exists e', UnLatch txn EXCLUSIVE e = Some (true, e') /\
     entry_ok e' (hist ++ [committed (CommitID txn) p]) None /\ glatch e' = released txn false e /\
     forall reader, IS_RC reader = false ->
       view reader base (hist ++ [committed (CommitID txn) p]) None =
       if decide (CommitID txn <= TID reader)
       then write_effect (p_adds p) (p_dels p) (replay hist base)
       else view reader base hist None) /\
  (exists e', InvalidExlusiveLatch txn false e = Some (true, e') /\
     entry_ok e' hist None /\ glatch e' = released txn false e /\
     forall reader, TID reader <> TID txn ->
       view reader base hist None = view reader base hist (Some p)).
Proof.
  intros Ht Hok Hpt Hw Hm Hc. split.
  - destruct (wpM_inv _ _ _ (UnLatch_exclusive_spec txn Ht e hist p Hok Hw Hm Hc)) as (r&e'&He&->&Hok'&Hg).
    exists e'. split_and!; try done. intros reader Hrc. unfold view, own. rewrite Hrc, snapshot_app. cbn.
    case_decide as Hle.
    + rewrite snapshot_all, replay_app; [done|]. eapply Forall_impl; [exact Hm|]. cbn. intros. lia.
    + by rewrite app_nil_r.
  - destruct (wpM_inv _ _ _ (InvalidExlusiveLatch_spec txn Ht false e hist p Hok Hw)) as (r&e'&He&->&Hok'&Hg).
    exists e'. split_and!; try done. intros reader Hne. unfold view, own.
    by rewrite decide_False by congruence.
Qed.

Lemma end_of_transaction_witness :
  (exists e', UnLatch txn4 EXCLUSIVE entry4 = Some (true, e') /\
     entry_ok e' ([first_commit] ++ [committed 9 (mk_pending 4 [] [])]) None /\
     glatch e' = released txn4 false entry4 /\
     forall reader, IS_RC reader = false ->
       view reader {[(1, 1)]} ([first_commit] ++ [committed 9 (mk_pending 4 [] [])]) None =
       if decide (9 <= TID reader)
       then write_effect [] [] (replay [first_commit] {[(1, 1)]})
       else view reader {[(1, 1)]} [first_commit] None) /\
  (exists e', InvalidExlusiveLatch txn4 false entry4 = Some (true, e') /\
     entry_ok e' [first_commit] None /\ glatch e' = released txn4 false entry4 /\
     forall reader, TID reader <> 4 ->
       view reader {[(1, 1)]} [first_commit] None =
       view reader {[(1, 1)]} [first_commit] (Some (mk_pending 4 [] []))).
Proof.
  apply (end_of_transaction txn4 entry4 [first_commit] (mk_pending 4 [] []) {[(1, 1)]}); try done.
  - apply (ei_entry _ _ (entry_reachable_inv _ _ _ locked4_reachable)).
  - by apply Forall_singleton.
Defined.

(** [get_del_set] reads the cell after each first component instead of the
    one before it, so it leaves the array as soon as one pair was removed, while
    [get_version] reads the same pairs correctly. *)
Theorem get_del_set_out_of_range adds dels v s : holds adds dels v -> dels <> [] ->
  get_del_set v s = None /\ is_Some (get_version v (∅, s)).
Proof.
  intros Hv Hne. split; [|rewrite (get_version_spec _ _ _ _ Hv); by eexists].
  destruct dels as [|p dels]; [done|]. unfold get_del_set, each_removed, holds in *.
  rewrite (layout_0 Hv), (layout_2 Hv). cbn [mbind option_bind].
  destruct (layout_cells _ _ _ Hv) as [Hc Hb]. unfold need, init_size in *. cbn [length] in Hc.
  rewrite !i32_small by len_lia. cbn [while].
  destruct (Z.ltb_spec (len (data v) - 1 - 2 * len (p :: dels)) (len (data v) - 1)); [|len_lia].
  cbn [mbind option_bind]. destruct (arr_get (data v) (len (data v) - 1)); [|done].
  cbn [mbind option_bind]. rewrite (arr_get_lookup (data v)), lookup_ge_None_2 by lia. done.
Qed.

Lemma get_del_set_witness :
  get_del_set (written_version 1 [WRemove (1, 2)]) ∅ = None /\
  is_Some (get_version (written_version 1 [WRemove (1, 2)]) (∅, ∅)).
Proof.
  apply (get_del_set_out_of_range [] [(1, 2)]); [|done].
  apply (written_version_of 1 [WRemove (1, 2)]). vm_compute. reflexivity.
Defined.
