(* ===== verification/BlockManager.v ===== *)
(** * The blocks of a value file

    [IVBlockManager] (KVstore/IVArray/IVBlockManager.h and .cpp): values are byte
    strings written to chains of blocks of a file; the free blocks are kept as
    runs, once by index and once by length.  The file is a map from block indexes
    to the three fields the code writes at the start of a block: the index of the
    next block, the bytes that are left, and the data.  A [std::map] or
    [std::set] is a finite map or set with the searches the code makes; a chain of
    [BlockInfo]s is a list of indexes. *)

From S2P Require Import Prelude Version.

(** The block managers of the arrays of values and of the arrays of strings
    ([ISBlockManager], KVstore/ISArray) have the same code for blocks of different
    sizes and lengths of different widths. *)
Class BlockFormat := {
  BLOCK_SIZE : Z;
  BLOCK_DATA_SIZE : Z;
  LENGTH_MOD : Z;
  bf_data : 120 <= BLOCK_DATA_SIZE <= 244;
  bf_length : W32 <= LENGTH_MOD }.

(** [BLOCK_SIZE - sizeof(unsigned int) - sizeof(unsigned long)]. *)
Program Definition iv_format : BlockFormat := {| BLOCK_SIZE := 256; BLOCK_DATA_SIZE := 244; LENGTH_MOD := W64 |}.
Solve All Obligations with done.
(** [BLOCK_SIZE - 2 * sizeof(unsigned)]. *)
Program Definition is_format : BlockFormat := {| BLOCK_SIZE := 128; BLOCK_DATA_SIZE := 120; LENGTH_MOD := W32 |}.
Solve All Obligations with done.

Definition SETBLOCKINC : Z := 256.

Record block := mk_block { b_next : Z; b_left : Z; b_data : list Z }.

Record IVBlockManager := mk_BM {
  index_len_map : gmap Z Z;
  len_index_map : gset (Z * Z);
  ValueFile : gmap Z block;
  BlockToWrite : list Z;
  cur_block_num : Z }.

(** ** Ordered searches *)

Section Least.
Context {A : Type} (le : A -> A -> Prop) `{!RelDecision le}.

(** The least element of a list. *)
Fixpoint least (l : list A) : option A :=
  match l with
  | [] => None
  | x :: l' => match least l' with
               | Some y => if decide (le x y) then Some x else Some y
               | None => Some x
               end
  end.
End Least.

(** [set.lower_bound(p)] of a set of pairs. *)
Definition set_lower_bound (p : Z * Z) (s : gset (Z * Z)) : option (Z * Z) :=
  least pair_le (filter (pair_le p) (elements s)).

(** The order of a map is that of its keys. *)
Definition key_le (a b : Z * Z) : Prop := a.1 <= b.1.
Definition key_ge (a b : Z * Z) : Prop := b.1 <= a.1.
#[global] Instance key_le_dec : RelDecision key_le.
Proof. intros a b. unfold key_le. apply _. Defined.
#[global] Instance key_ge_dec : RelDecision key_ge.
Proof. intros a b. unfold key_ge. apply _. Defined.

(** The entry before [map.lower_bound(k)], and [map.upper_bound(k)]. *)
Definition map_before (k : Z) (m : gmap Z Z) : option (Z * Z) :=
  least key_ge (filter (fun e => e.1 < k) (map_to_list m)).
Definition map_upper_bound (k : Z) (m : gmap Z Z) : option (Z * Z) :=
  least key_le (filter (fun e => k < e.1) (map_to_list m)).

(** ** Allocation *)

Section Format.
Context {BF : BlockFormat}.

(** A free run is entered in, or taken out of, both maps. *)
Definition add_run (index length : Z) (bm : IVBlockManager) : IVBlockManager :=
  mk_BM (<[index := length]> (index_len_map bm)) ({[(length, index)]} ∪ len_index_map bm)
    (ValueFile bm) (BlockToWrite bm) (cur_block_num bm).
Definition erase_run (index length : Z) (bm : IVBlockManager) : IVBlockManager :=
  mk_BM (delete index (index_len_map bm)) (len_index_map bm ∖ {[(length, index)]})
    (ValueFile bm) (BlockToWrite bm) (cur_block_num bm).
Definition set_BlockToWrite (l : list Z) (bm : IVBlockManager) : IVBlockManager :=
  mk_BM (index_len_map bm) (len_index_map bm) (ValueFile bm) l (cur_block_num bm).

Definition AllocBlock (len : Z) (bm : IVBlockManager) : IVBlockManager :=
  if len =? 0 then bm
  else
    let AllocLen := Z.max len SETBLOCKINC in
    let bm := add_run (cur_block_num bm ⊞ 1) AllocLen bm in
    mk_BM (index_len_map bm) (len_index_map bm) (ValueFile bm) (BlockToWrite bm)
      (cur_block_num bm ⊞ AllocLen).

(** [BaseIndex], ..., [BaseIndex + AllocNum - 1]. *)
Definition block_list (BaseIndex AllocNum : Z) : list Z :=
  (fun i => BaseIndex ⊞ i) <$> seqZ 0 AllocNum.

(** [getWhereToWrite]; the second call of the recursion finds the new run. *)
Fixpoint getWhereToWrite (fuel : nat) (_len : Z) (bm : IVBlockManager) : option IVBlockManager :=
  match fuel with
  | O => None
  | S f =>
      let AllocNum := u32 ((_len + BLOCK_DATA_SIZE - 1) mod LENGTH_MOD / BLOCK_DATA_SIZE) in
      match set_lower_bound (AllocNum, 0) (len_index_map bm) with
      | Some (length, BaseIndex) =>
          let bm := set_BlockToWrite (block_list BaseIndex AllocNum) bm in
          let newlen := length ⊟ AllocNum in
          let bm := if 0 <? newlen then add_run (BaseIndex ⊞ AllocNum) newlen bm else bm in
          Some (erase_run BaseIndex length bm)
      | None => getWhereToWrite f _len (AllocBlock AllocNum bm)
      end
  end.

(** ** Values *)

Definition put_block (i : Z) (b : block) (bm : IVBlockManager) : IVBlockManager :=
  mk_BM (index_len_map bm) (len_index_map bm) (<[i := b]> (ValueFile bm)) (BlockToWrite bm)
    (cur_block_num bm).

(** The bytes of a block under those that are written over them. *)
Definition old_data (i : Z) (bm : IVBlockManager) : list Z :=
  match ValueFile bm !! i with Some b => b_data b | None => [] end.

(** The loop over the blocks to write; [pstr] are the bytes that are left. *)
Fixpoint write_blocks (p : list Z) (pstr : list Z) (bm : IVBlockManager)
    : list Z * IVBlockManager :=
  match p with
  | [] => (pstr, bm)
  | i :: p' =>
      let len_left := len pstr in
      let Bits2Write := if BLOCK_DATA_SIZE <? len_left then BLOCK_DATA_SIZE else len_left in
      let NextIndex := match p' with j :: _ => j | [] => 0 end in
      let written := take (Z.to_nat Bits2Write) pstr in
      let data := written ++ drop (length written) (old_data i bm) in
      write_blocks p' (drop (Z.to_nat Bits2Write) pstr) (put_block i (mk_block NextIndex len_left data) bm)
  end.

(** [WriteValue]: the index of the first block, or 0. *)
Definition WriteValue (_str : list Z) : M IVBlockManager Z := fun bm =>
  bm ← getWhereToWrite 2 (len _str) bm;
  let '(rest, bm) := write_blocks (BlockToWrite bm) _str bm in
  if 0 <? len rest then Some (0, bm)
  else store ← head (BlockToWrite bm); Some (store, bm).

(** [ReadValue]: the state of the loop is [next_blk], [Len_left] and the bytes
    read so far; [do ... while] tests after its body. *)
Fixpoint read_blocks (fuel : nat) (bm : IVBlockManager) (next_blk Len_left : Z) (out : list Z)
    : option (list Z) :=
  match fuel with
  | O => None
  | S f =>
      let Bits2read := if BLOCK_DATA_SIZE <? Len_left then BLOCK_DATA_SIZE else Len_left in
      b ← ValueFile bm !! next_blk;
      if len (b_data b) <? Bits2read then None
      else
        let out := out ++ take (Z.to_nat Bits2read) (b_data b) in
        let Len_left := Len_left - Bits2read in
        if (0 <? b_next b) && (0 <? Len_left) then read_blocks f bm (b_next b) Len_left out
        else Some out
  end.

Definition ReadValue (_blk_index : Z) (bm : IVBlockManager) : option (option (list Z)) :=
  if _blk_index <=? 0 then Some None
  else
    b ← ValueFile bm !! _blk_index;
    out ← read_blocks (S (Z.to_nat (b_left b))) bm _blk_index (b_left b) []; Some (Some out).

(** ** Freeing a chain *)

(** The run [cur_index, curlen] joins the free runs on both sides of it. *)
Definition merge_before (s : Z * Z * IVBlockManager) : Z * Z * IVBlockManager :=
  let '(cur_index, curlen, bm) := s in
  match map_before cur_index (index_len_map bm) with
  | Some (i, l) => if i ⊞ l =? cur_index then (i, curlen ⊞ l, erase_run i l bm) else s
  | None => s
  end.

Definition merge_after (s : Z * Z * IVBlockManager) : Z * Z * IVBlockManager :=
  let '(cur_index, curlen, bm) := s in
  match map_upper_bound cur_index (index_len_map bm) with
  | Some (i, l) => if curlen ⊞ cur_index =? i then (cur_index, curlen ⊞ l, erase_run i l bm) else s
  | None => s
  end.

(** [map.insert] keeps an entry that is already there. *)
Definition insert_run (index length : Z) (bm : IVBlockManager) : IVBlockManager :=
  match index_len_map bm !! index with
  | Some _ => mk_BM (index_len_map bm) ({[(length, index)]} ∪ len_index_map bm)
                (ValueFile bm) (BlockToWrite bm) (cur_block_num bm)
  | None => add_run index length bm
  end.

Fixpoint free_loop (fuel : nat) (_index cur_index curlen : Z) (bm : IVBlockManager)
    : option IVBlockManager :=
  match fuel with
  | O => None
  | S f =>
      if _index <=? 0 then Some bm
      else
        b ← ValueFile bm !! _index;
        let next_index := b_next b in
        if next_index ⊟ _index =? 1 then free_loop f next_index cur_index (curlen ⊞ 1) bm
        else
          let '(cur_index, curlen, bm) := merge_after (merge_before (cur_index, curlen, bm)) in
          free_loop f next_index next_index 0 (insert_run cur_index curlen bm)
  end.

Definition FreeBlocks (index : Z) (bm : IVBlockManager) : option IVBlockManager :=
  if index =? 0 then Some bm
  else free_loop (S (S (size (ValueFile bm)))) index index 1 bm.

(** [build] mode: no block, then room for the keys. *)
Definition IVBlockManager_build (_keynum : Z) : IVBlockManager :=
  AllocBlock (Z.max SETBLOCKINC _keynum) (mk_BM ∅ ∅ ∅ [] 0).
End Format.
