(* ===== verification/BlockManagerSpec.v ===== *)
(** * Correctness of the block manager

    The free runs and the blocks of stored values stay apart: writing a value
    takes free blocks and changes no other, the chain it leaves is read back as
    the value, and freeing a chain makes exactly its blocks free again.

    At the end, the values of the keys of an array in a file. *)

From S2P Require Import Prelude Version BlockManager.

(** ** Ordered searches *)

Section Least.
Context {A : Type} (le : A -> A -> Prop) `{!RelDecision le}.

Lemma least_elem l x : least le l = Some x -> x ∈ l.
Proof.
  revert x. induction l as [|y l IH]; intros x; cbn; [done|].
  destruct (least le l) as [z|] eqn:E; [case_decide|]; intros [= <-]; try (by left).
  right. by apply IH.
Qed.

Lemma least_None l : least le l = None <-> l = [].
Proof. destruct l as [|y l]; cbn; [done|]. destruct (least le l); [case_decide|]; done. Qed.

Lemma least_le l x : Transitive le -> (forall a b, le a b \/ le b a) ->
  least le l = Some x -> forall y, y ∈ l -> le x y.
Proof.
  intros Ht Htot. revert x. induction l as [|z l IH]; intros x; cbn; [done|].
  destruct (least le l) as [w|] eqn:E.
  - case_decide as Hd; intros [= <-] y [->|Hy]%elem_of_cons.
    + by destruct (Htot z z).
    + etrans; [exact Hd|]. by apply IH.
    + by destruct (Htot w z).
    + by apply IH.
  - intros [= <-] y [->|Hy]%elem_of_cons; [by destruct (Htot z z)|].
    apply least_None in E. subst l. by apply elem_of_nil in Hy.
Qed.
End Least.

(** ** The free runs *)

Definition free (bm : IVBlockManager) (b : Z) : Prop :=
  exists i l, index_len_map bm !! i = Some l /\ i <= b < i + l.

(** Block indexes stay below [UINT_MAX]: a chain that ended there would look
    continued, since its last link, 0, is the next word. *)
Abbreviation MAX_BLOCKS := 4294967295.

Record bm_inv (bm : IVBlockManager) : Prop := {
  bi_runs : forall i l, index_len_map bm !! i = Some l -> 1 <= i /\ 1 <= l /\ i + l <= cur_block_num bm + 1;
  bi_disjoint : forall i l j l', index_len_map bm !! i = Some l -> index_len_map bm !! j = Some l' ->
    i < j -> i + l <= j;
  bi_sets : forall l i, (l, i) ∈ len_index_map bm <-> index_len_map bm !! i = Some l;
  bi_cur : 0 <= cur_block_num bm < MAX_BLOCKS }.

Lemma run_unique bm i l j l' b : bm_inv bm ->
  index_len_map bm !! i = Some l -> index_len_map bm !! j = Some l' ->
  i <= b < i + l -> j <= b < j + l' -> i = j.
Proof.
  intros Hi H1 H2 Hb1 Hb2. destruct (decide (i = j)); [done|].
  destruct (decide (i < j)).
  - pose proof (bi_disjoint _ Hi _ _ _ _ H1 H2 ltac:(lia)). lia.
  - pose proof (bi_disjoint _ Hi _ _ _ _ H2 H1 ltac:(lia)). lia.
Qed.

(** A run of blocks that are not free is added. *)
Lemma add_run_spec i l bm : bm_inv bm -> 1 <= i -> 1 <= l -> i + l <= cur_block_num bm + 1 ->
  (forall b, i <= b < i + l -> ~ free bm b) ->
  bm_inv (add_run i l bm) /\ forall b, free (add_run i l bm) b <-> free bm b \/ i <= b < i + l.
Proof.
  intros Hi H1 Hl Hc Hnf.
  assert (Hnone : index_len_map bm !! i = None).
  { destruct (index_len_map bm !! i) as [l'|] eqn:E; [|done]. destruct (Hnf i ltac:(lia)).
    exists i, l'. pose proof (bi_runs _ Hi _ _ E). split; [done|lia]. }
  assert (Hsep : forall j l', index_len_map bm !! j = Some l' -> j + l' <= i \/ i + l <= j).
  { intros j l' Hj. pose proof (bi_runs _ Hi _ _ Hj).
    destruct (decide (j + l' <= i)); [by left|]. destruct (decide (i + l <= j)); [by right|].
    destruct (Hnf (Z.max i j) ltac:(lia)). exists j, l'. split; [done|lia]. }
  split; [split|]; cbn.
  - intros j l' [[<- <-]|[Hne Hj]]%lookup_insert_Some; [lia|by apply (bi_runs _ Hi)].
  - intros j lj k lk [[<- <-]|[Hnj Hj]]%lookup_insert_Some [[<- <-]|[Hnk Hk]]%lookup_insert_Some Hlt.
    + lia.
    + destruct (Hsep _ _ Hk); [|lia]. pose proof (bi_runs _ Hi _ _ Hk). lia.
    + destruct (Hsep _ _ Hj); lia.
    + by eapply (bi_disjoint _ Hi).
  - intros l' j. rewrite elem_of_union, elem_of_singleton, (bi_sets _ Hi), lookup_insert_Some.
    split; [intros [[= -> ->]|Hj]; [by left|right; split; [congruence|done]]|].
    intros [[-> ->]|[_ Hj]]; [by left|by right].
  - apply Hi.
  - intros b. unfold free. cbn. split.
    + intros (j&l'&[[<- <-]|[_ Hj]]%lookup_insert_Some&Hb); [by right|left; eauto].
    + intros [(j&l'&Hj&Hb)|Hb]; [|exists i, l; by rewrite lookup_insert_eq].
      exists j, l'. rewrite lookup_insert_ne by congruence. done.
Qed.

Lemma erase_run_spec i l bm : bm_inv bm -> index_len_map bm !! i = Some l ->
  bm_inv (erase_run i l bm) /\
  forall b, free (erase_run i l bm) b <-> free bm b /\ ~ (i <= b < i + l).
Proof.
  intros Hi Hl. split; [split|]; cbn.
  - intros j l' [_ Hj]%lookup_delete_Some. by apply (bi_runs _ Hi).
  - intros j lj k lk [_ Hj]%lookup_delete_Some [_ Hk]%lookup_delete_Some. by eapply (bi_disjoint _ Hi).
  - intros l' j. rewrite elem_of_difference, elem_of_singleton, (bi_sets _ Hi), lookup_delete_Some.
    split; [intros [Hj Hne]; split; [|done]; intros <-; congruence|].
    intros [Hne Hj]. split; [done|]. intros [= _ ->]. done.
  - apply Hi.
  - intros b. unfold free. cbn. split.
    + intros (j&l'&[Hne Hj]%lookup_delete_Some&Hb). split; [eauto|].
      intros Hb'. apply Hne. by eapply run_unique.
    + intros [(j&l'&Hj&Hb) Hnb]. exists j, l'. split; [|done]. apply lookup_delete_Some.
      split; [|done]. intros <-. rewrite Hl in Hj. injection Hj as <-. done.
Qed.

(** ** Searches *)

#[global] Instance pair_le_trans : Transitive pair_le.
Proof. intros [] [] []. unfold pair_le. cbn. lia. Qed.
Lemma pair_le_total a b : pair_le a b \/ pair_le b a.
Proof. destruct a, b. unfold pair_le. cbn. lia. Qed.

Lemma set_lower_bound_Some p s q : set_lower_bound p s = Some q -> q ∈ s /\ pair_le p q.
Proof. intros [Hp Hq]%least_elem%list_elem_of_filter. by rewrite elem_of_elements in Hq. Qed.

Lemma set_lower_bound_None p s q : set_lower_bound p s = None -> q ∈ s -> ~ pair_le p q.
Proof.
  unfold set_lower_bound. rewrite least_None. intros Hn Hq Hp.
  assert (q ∈ filter (pair_le p) (elements s)) as Hin by (apply list_elem_of_filter; by rewrite elem_of_elements).
  rewrite Hn in Hin. by apply elem_of_nil in Hin.
Qed.

Lemma map_before_Some k m i l : map_before k m = Some (i, l) -> m !! i = Some l /\ i < k.
Proof. intros [Hp Hq%elem_of_map_to_list]%least_elem%list_elem_of_filter. done. Qed.

Lemma map_before_max k m j lj : m !! j = Some lj -> j < k ->
  exists i l, map_before k m = Some (i, l) /\ j <= i.
Proof.
  intros Hj Hk. unfold map_before.
  assert (Hin : (j, lj) ∈ filter (fun e => e.1 < k) (map_to_list m)).
  { apply list_elem_of_filter. split; [done|]. by apply elem_of_map_to_list. }
  destruct (least key_ge _) as [[i l]|] eqn:E; [|apply least_None in E; rewrite E in Hin; by apply elem_of_nil in Hin].
  exists i, l. split; [done|]. apply (least_le key_ge _ _) with (y := (j, lj)) in E; [done| | |done].
  - intros [] [] []. unfold key_ge. cbn. lia.
  - intros [] []. unfold key_ge. cbn. lia.
Qed.

Lemma map_upper_bound_Some k m i l : map_upper_bound k m = Some (i, l) -> m !! i = Some l /\ k < i.
Proof. intros [Hp Hq%elem_of_map_to_list]%least_elem%list_elem_of_filter. done. Qed.

(** ** Allocation *)

Section Format.
Context {BF : BlockFormat}.

(** The lengths for which the number of blocks is computed without wrap-around. *)
Definition LEN_LIMIT : Z := Z.min W32 (LENGTH_MOD - BLOCK_DATA_SIZE + 1).
Lemma LEN_LIMIT_le : LEN_LIMIT <= W32.
Proof. unfold LEN_LIMIT. lia. Qed.
Lemma LEN_LIMIT_ge : W32 - 243 <= LEN_LIMIT.
Proof. unfold LEN_LIMIT. pose proof bf_data. pose proof bf_length. lia. Qed.

(** How many blocks a value takes. *)
Definition blocks_for (n : Z) : Z := (n + BLOCK_DATA_SIZE - 1) / BLOCK_DATA_SIZE.

Lemma AllocBlock_spec n bm : bm_inv bm -> 1 <= n -> cur_block_num bm + Z.max n SETBLOCKINC < MAX_BLOCKS ->
  let bm' := AllocBlock n bm in
  bm_inv bm' /\ ValueFile bm' = ValueFile bm /\
  cur_block_num bm' = cur_block_num bm + Z.max n SETBLOCKINC /\
  (forall b, free bm' b <-> free bm b \/ cur_block_num bm < b <= cur_block_num bm') /\
  (Z.max n SETBLOCKINC, cur_block_num bm + 1) ∈ len_index_map bm'.
Proof.
  intros Hi Hn Hc. unfold AllocBlock. destruct (Z.eqb_spec n 0); [lia|]. cbn zeta.
  pose proof (bi_cur _ Hi). unfold SETBLOCKINC in *. cbn [add_run cur_block_num].
  rewrite !(u32_small) by word_lia.
  set (grown := mk_BM (index_len_map bm) (len_index_map bm) (ValueFile bm) (BlockToWrite bm)
    (cur_block_num bm + Z.max n 256)).
  assert (Hg : bm_inv grown).
  { destruct Hi as [H1 H2 H3 H4]. split; cbn; [|done|done|lia].
    intros i l Hl. specialize (H1 i l Hl). lia. }
  destruct (add_run_spec (cur_block_num bm + 1) (Z.max n 256) grown Hg) as [Ha Hf]; cbn; try lia.
  { intros b Hb (i&l&Hl&Hbl). cbn in Hl. pose proof (bi_runs _ Hi _ _ Hl). lia. }
  split_and!; [exact Ha|done|done| |set_solver].
  intros b. etrans; [exact (Hf b)|]. unfold free. cbn. intuition lia.
Qed.

(** What [getWhereToWrite] promises: [AllocNum] free blocks in a row. *)
Record allocated (bm bm' : IVBlockManager) (n s : Z) : Prop := {
  al_inv : bm_inv bm';
  al_file : ValueFile bm' = ValueFile bm;
  al_list : BlockToWrite bm' = block_list s n;
  al_start : 1 <= s;
  al_end : s + n <= cur_block_num bm' + 1;
  al_cur : cur_block_num bm <= cur_block_num bm' <= cur_block_num bm + Z.max n SETBLOCKINC;
  al_was : forall b, s <= b < s + n -> free bm b \/ cur_block_num bm < b;
  al_free : forall b, free bm' b <->
    (free bm b \/ cur_block_num bm < b <= cur_block_num bm') /\ ~ (s <= b < s + n) }.

(** Taking [n] blocks from the start of a free run. *)
Lemma take_run bm n l s : bm_inv bm -> 1 <= n -> (l, s) ∈ len_index_map bm -> n <= l ->
  let bm1 := set_BlockToWrite (block_list s n) bm in
  let bm2 := if 0 <? l ⊟ n then add_run (s ⊞ n) (l ⊟ n) bm1 else bm1 in
  allocated bm (erase_run s l bm2) n s.
Proof.
  intros Hi Hn Hin Hle bm1 bm2. apply (bi_sets _ Hi) in Hin as Hs.
  pose proof (bi_runs _ Hi _ _ Hs) as (H1&H2&H3). pose proof (bi_cur _ Hi).
  assert (Hi1 : bm_inv bm1) by (by destruct Hi). subst bm2. rewrite !(u32_small (l - n)) by word_lia.
  destruct (erase_run_spec s l bm1 Hi1 Hs) as [He Hfe].
  destruct (Z.ltb_spec 0 (l - n)) as [Hlt|Hge].
  - rewrite (u32_small (s + n)) by word_lia.
    destruct (add_run_spec (s + n) (l - n) (erase_run s l bm1) He) as [Ha Hfa]; cbn; try lia.
    { intros b Hb Hf. apply Hfe in Hf as [_ Hf]. lia. }
    assert (Heq : erase_run s l (add_run (s + n) (l - n) bm1) = add_run (s + n) (l - n) (erase_run s l bm1)).
    { unfold erase_run, add_run. cbn. f_equal.
      - rewrite delete_insert_ne by lia. done.
      - rewrite difference_union_distr_l_L. f_equal. rewrite difference_disjoint_L; [done|set_solver by lia]. }
    rewrite Heq. split; try done; cbn; try lia.
    + intros b Hb. left. exists s, l. split; [done|lia].
    + intros b. rewrite (Hfa b), (Hfe b). unfold SETBLOCKINC. change (free bm1 b) with (free bm b).
      assert (forall c, s <= c < s + l -> free bm c) by (intros c ?; exists s, l; split; [done|lia]).
      split; [intros [[? ?]|?]; [split; [by left|lia]|split; [left; auto with lia|lia]]|].
      intros [[?|?] ?]; [|lia]. destruct (decide (s + n <= b < s + l)); [right; lia|left; split; [done|lia]].
  - assert (l = n) by lia. subst l. split; try done; cbn; try lia.
    + intros b Hb. left. exists s, n. split; [done|lia].
    + intros b. rewrite (Hfe b). change (free bm1 b) with (free bm b). intuition lia.
Qed.

Lemma blocks_for_pos n : 0 < n -> 1 <= blocks_for n.
Proof. intros. unfold blocks_for. pose proof bf_data. apply Z.div_le_lower_bound; lia. Qed.

Lemma blocks_for_le n : 0 < n -> blocks_for n <= n.
Proof. intros. unfold blocks_for. pose proof bf_data. apply Z.div_le_upper_bound; nia. Qed.

Lemma getWhereToWrite_spec n bm : bm_inv bm -> 0 < n < LEN_LIMIT ->
  cur_block_num bm + Z.max (blocks_for n) SETBLOCKINC < MAX_BLOCKS ->
  wp (getWhereToWrite 2 n bm) (fun bm' => exists s, allocated bm bm' (blocks_for n) s).
Proof.
  intros Hi Hn Hc. pose proof (blocks_for_pos n ltac:(lia)) as Hb1.
  pose proof (blocks_for_le n ltac:(lia)) as Hb2. cbn [getWhereToWrite]. pose proof LEN_LIMIT_le.
  assert (Hmod : (n + BLOCK_DATA_SIZE - 1) mod LENGTH_MOD = n + BLOCK_DATA_SIZE - 1).
  { unfold LEN_LIMIT in *. pose proof bf_data. apply Z.mod_small. lia. }
  rewrite Hmod. fold (blocks_for n). rewrite u32_small by word_lia.
  destruct (set_lower_bound (blocks_for n, 0) (len_index_map bm)) as [[l s]|] eqn:E.
  - apply set_lower_bound_Some in E as [Hin Hle]. cbn. exists s. apply take_run; [done|done|done|].
    unfold pair_le in Hle. cbn in Hle. lia.
  - destruct (AllocBlock_spec (blocks_for n) bm Hi Hb1 Hc) as (Hi'&Hf'&Hc'&Hfr&Hin). clear E.
    destruct (set_lower_bound _ (len_index_map (AllocBlock _ _))) as [[l s]|] eqn:E.
    + apply set_lower_bound_Some in E as [Hin' Hle]. cbn. exists s.
      destruct (take_run (AllocBlock (blocks_for n) bm) (blocks_for n) l s) as [A1 A2 A3 A4 A5 A6 A7 A8];
        [done|done|done|unfold pair_le in Hle; cbn in Hle; lia|].
      assert (Hcur : forall (b : bool) i l' L, cur_block_num (erase_run i l' (if b then add_run (i ⊞ blocks_for n) (l' ⊟ blocks_for n)
          (set_BlockToWrite L (AllocBlock (blocks_for n) bm)) else set_BlockToWrite L (AllocBlock (blocks_for n) bm))) =
          cur_block_num (AllocBlock (blocks_for n) bm)) by (by intros []).
      split; [done|congruence|done|done|done| | |].
      * rewrite Hcur. lia.
      * intros b Hb. destruct (A7 b Hb) as [Hf|Hf]; [|lia]. apply Hfr in Hf. intuition lia.
      * intros b. rewrite (A8 b), (Hfr b), Hcur. intuition lia.
    + exfalso. eapply set_lower_bound_None; [exact E|exact Hin|].
      unfold pair_le, SETBLOCKINC. cbn. pose proof (bi_cur _ Hi). lia.
Qed.

(** ** Chains of blocks *)

(** [n] blocks from [s] on hold the bytes [v]. *)
Fixpoint chain (f : gmap Z block) (n : nat) (s : Z) (v : list Z) : Prop :=
  match n with
  | O => False
  | S n' => exists b, f !! s = Some b /\ b_left b = len v /\
      match n' with
      | O => b_next b = 0 /\ 0 < len v <= BLOCK_DATA_SIZE /\ take (length v) (b_data b) = v
      | _ => b_next b = s + 1 /\ BLOCK_DATA_SIZE < len v /\
             take (Z.to_nat BLOCK_DATA_SIZE) (b_data b) = take (Z.to_nat BLOCK_DATA_SIZE) v /\
             chain f n' (s + 1) (drop (Z.to_nat BLOCK_DATA_SIZE) v)
      end
  end.

(** A chain depends on its own blocks only. *)
Lemma chain_frame f f' n s v : (forall b, s <= b < s + Z.of_nat n -> f' !! b = f !! b) ->
  chain f n s v -> chain f' n s v.
Proof.
  revert s v. induction n as [|n IH]; intros s v Hf; [done|]. intros (b&Hb&Hl&Hn).
  exists b. split_and!; [rewrite Hf by lia; done|done|]. destruct n as [|n]; [done|].
  destruct Hn as (?&?&?&Hch). split_and!; try done. apply IH; [|done]. intros c Hc. apply Hf. lia.
Qed.

Lemma chain_size f n s v : chain f n s v -> Z.of_nat n = blocks_for (len v) /\ 0 < len v.
Proof.
  revert s v. induction n as [|n IH]; intros s v; [done|]. intros (b&_&_&Hn).
  unfold blocks_for in *. pose proof bf_data. destruct n as [|n].
  - destruct Hn as (_&Hv&_). split; [|lia].
    apply (Z.div_unique _ _ _ (len v - 1)); lia.
  - destruct Hn as (_&Hv&_&Hch). destruct (IH _ _ Hch) as [Heq _]. split; [|lia].
    rewrite length_drop in Heq. rewrite Nat2Z.inj_succ, Heq.
    replace (len v + BLOCK_DATA_SIZE - 1)
      with ((Z.of_nat (length v - Z.to_nat BLOCK_DATA_SIZE) + BLOCK_DATA_SIZE - 1) + 1 * BLOCK_DATA_SIZE) by lia.
    rewrite Z.div_add by lia. lia.
Qed.

Lemma read_blocks_spec bm n s v out fuel : chain (ValueFile bm) n s v -> 1 <= s -> (n <= fuel)%nat ->
  read_blocks fuel bm s (len v) out = Some (out ++ v).
Proof.
  revert s v out fuel. induction n as [|n IH]; intros s v out fuel; [done|].
  intros (b&Hb&Hl&Hn) Hs Hf. destruct fuel as [|fuel]; [lia|]. cbn [read_blocks].
  rewrite Hb. cbn [mbind option_bind]. pose proof bf_data. destruct n as [|n].
  - destruct Hn as (Hnx&Hv&Ht). destruct (Z.ltb_spec BLOCK_DATA_SIZE (len v)); [lia|].
    pose proof (f_equal length Ht) as Hlt. rewrite length_take in Hlt.
    destruct (Z.ltb_spec (len (b_data b)) (len v)); [lia|]. rewrite Hnx. cbn [Z.ltb Z.compare andb].
    rewrite Nat2Z.id, Ht. done.
  - destruct Hn as (Hnx&Hv&Ht&Hch). destruct (Z.ltb_spec BLOCK_DATA_SIZE (len v)); [|lia].
    pose proof (f_equal length Ht) as Hlt. rewrite !length_take in Hlt.
    destruct (Z.ltb_spec (len (b_data b)) BLOCK_DATA_SIZE); [lia|]. rewrite Hnx.
    destruct (Z.ltb_spec 0 (s + 1)); [|lia]. destruct (Z.ltb_spec 0 (len v - BLOCK_DATA_SIZE)); [|lia]. cbn [andb].
    rewrite Ht.
    replace (len v - BLOCK_DATA_SIZE) with (len (drop (Z.to_nat BLOCK_DATA_SIZE) v)) by (rewrite length_drop; lia).
    rewrite IH by (done || lia). by rewrite <- app_assoc, take_drop.
Qed.

Lemma ReadValue_spec bm n s v : chain (ValueFile bm) n s v -> 1 <= s -> ReadValue s bm = Some (Some v).
Proof.
  intros Hc Hs. unfold ReadValue. destruct (Z.leb_spec s 0); [lia|].
  destruct (chain_size _ _ _ _ Hc) as [Hn Hv].
  assert (exists b, ValueFile bm !! s = Some b /\ b_left b = len v) as (b&Hb&Hl).
  { destruct n; [done|]. destruct Hc as (b&Hb&Hl&_). eauto. }
  rewrite Hb. cbn [mbind option_bind]. rewrite Hl.
  rewrite (read_blocks_spec bm n s v []); [done|done|done|].
  pose proof (blocks_for_le (len v) Hv). lia.
Qed.

Lemma block_list_seqZ s n : 0 <= s -> s + n <= W32 -> block_list s n = seqZ s n.
Proof.
  intros Hs Hn. unfold block_list. transitivity (Z.add s <$> seqZ 0 n).
  - apply list_fmap_ext. intros i x [-> Hx]%lookup_seqZ. cbn. apply u32_small. lia.
  - by rewrite fmap_add_seqZ, Z.add_0_r.
Qed.

(** The fields that writing blocks does not touch. *)
Definition same_runs (bm bm' : IVBlockManager) : Prop :=
  index_len_map bm' = index_len_map bm /\ len_index_map bm' = len_index_map bm /\
  BlockToWrite bm' = BlockToWrite bm /\ cur_block_num bm' = cur_block_num bm.

Lemma same_runs_inv bm bm' : same_runs bm bm' -> bm_inv bm -> bm_inv bm'.
Proof.
  intros (R1&R2&_&R4) [B1 B2 B3 B4]. split.
  - rewrite R1, R4. exact B1.
  - rewrite R1. exact B2.
  - rewrite R1, R2. exact B3.
  - rewrite R4. exact B4.
Qed.

Lemma write_blocks_spec n : forall s v bm, Z.of_nat n = blocks_for (len v) -> 0 < len v -> 1 <= s ->
  exists bm', write_blocks (seqZ s (Z.of_nat n)) v bm = ([], bm') /\ chain (ValueFile bm') n s v /\
    (forall b, ~ (s <= b < s + Z.of_nat n) -> ValueFile bm' !! b = ValueFile bm !! b) /\ same_runs bm bm'.
Proof.
  induction n as [|n IH]; intros s v bm Hn Hv Hs.
  { pose proof (blocks_for_pos (len v) Hv). lia. }
  rewrite seqZ_cons by lia. cbn [write_blocks]. replace (Z.pred (Z.of_nat (S n))) with (Z.of_nat n) by lia.
  change (Z.succ s) with (s + 1). unfold blocks_for in *. pose proof bf_data.
  assert (Hlen : n = O /\ len v <= BLOCK_DATA_SIZE \/ (1 <= n)%nat /\ BLOCK_DATA_SIZE < len v).
  { destruct (decide (BLOCK_DATA_SIZE < len v)) as [Hg|Hg]; [right|left]; (split; [|lia]).
    - assert (2 <= Z.of_nat (S n)); [|lia]. rewrite Hn. apply Z.div_le_lower_bound; lia.
    - assert (Z.of_nat (S n) < 2); [|lia]. rewrite Hn. apply Z.div_lt_upper_bound; lia. }
  destruct Hlen as [[-> Hle]|[Hn1 Hgt]].
  - destruct (Z.ltb_spec BLOCK_DATA_SIZE (len v)); [lia|]. rewrite Nat2Z.id, drop_all, firstn_all. cbn [seqZ Z.of_nat Z.to_nat seq fmap list_fmap write_blocks].
    eexists. split; [done|]. cbn [put_block ValueFile]. split_and!; [|intros b Hb; apply lookup_insert_ne; lia|done].
    eexists. rewrite lookup_insert_eq. split_and!; [done|done|done|done|done|].
    cbn. by rewrite take_app_length.
  - destruct (Z.ltb_spec BLOCK_DATA_SIZE (len v)); [|lia].
    set (bm1 := put_block _ _ _).
    destruct (IH (s + 1) (drop (Z.to_nat BLOCK_DATA_SIZE) v) bm1) as (bm'&Hw&Hc&Hf&Hsr); [|rewrite length_drop; lia|lia|].
    { rewrite length_drop. replace (Z.of_nat (length v - Z.to_nat BLOCK_DATA_SIZE) + BLOCK_DATA_SIZE - 1)
        with ((len v + BLOCK_DATA_SIZE - 1) + (-1) * BLOCK_DATA_SIZE) by lia.
      rewrite Z.div_add by lia. lia. }
    exists bm'. split; [done|]. split_and!; [| |done].
    + eexists. rewrite Hf by lia. unfold bm1. cbn. rewrite lookup_insert_eq. split_and!; [done|done|].
      destruct n as [|n]; [lia|]. rewrite seqZ_cons by lia. split_and!; [done|done| |done].
      cbn [b_data]. rewrite take_app_le by (rewrite length_take; lia). by rewrite firstn_firstn, Nat.min_id.
    + intros b Hb. rewrite Hf by lia. unfold bm1. cbn. apply lookup_insert_ne. lia.
Qed.

(** Writing a value: a new chain in free blocks, everything else as before. *)
Record value_written (bm bm' : IVBlockManager) (v : list Z) (s : Z) : Prop := {
  vw_inv : bm_inv bm';
  vw_chain : chain (ValueFile bm') (Z.to_nat (blocks_for (len v))) s v;
  vw_start : 1 <= s < W32;
  vw_end : s + blocks_for (len v) <= cur_block_num bm' + 1;
  vw_cur : cur_block_num bm <= cur_block_num bm' <= cur_block_num bm + Z.max (blocks_for (len v)) SETBLOCKINC;
  vw_was : forall b, s <= b < s + blocks_for (len v) -> free bm b \/ cur_block_num bm < b;
  vw_free : forall b, free bm' b <->
    (free bm b \/ cur_block_num bm < b <= cur_block_num bm') /\ ~ (s <= b < s + blocks_for (len v));
  vw_frame : forall b, ~ (s <= b < s + blocks_for (len v)) -> ValueFile bm' !! b = ValueFile bm !! b }.

Lemma WriteValue_spec v bm : bm_inv bm -> 0 < len v < LEN_LIMIT ->
  cur_block_num bm + Z.max (blocks_for (len v)) SETBLOCKINC < MAX_BLOCKS ->
  wpM (WriteValue v) bm (fun s bm' => value_written bm bm' v s).
Proof.
  intros Hi Hv Hc. unfold wpM, WriteValue. apply wp_bind.
  eapply wp_mono; [|by apply getWhereToWrite_spec]. intros bm1 (s&[A1 A2 A3 A4 A5 A6 A7 A8]).
  pose proof (blocks_for_pos (len v) ltac:(lia)). pose proof (bi_cur _ A1).
  rewrite A3, block_list_seqZ by word_lia.
  destruct (write_blocks_spec (Z.to_nat (blocks_for (len v))) s v bm1) as (bm2&Hw&Hch&Hf&(R1&R2&R3&R4)); try lia.
  rewrite Z2Nat.id in Hw, Hf by lia. rewrite Hw. cbn [length Z.of_nat Z.ltb Z.compare].
  rewrite R3, A3, block_list_seqZ by word_lia. rewrite seqZ_cons by lia. cbn [head mbind option_bind wp fst snd].
  assert (Hfree : forall b, free bm2 b <-> free bm1 b) by (intros b; unfold free; by rewrite R1).
  split; cbn [fst snd].
  - by apply (same_runs_inv bm1).
  - done.
  - word_lia.
  - rewrite R4. lia.
  - rewrite R4. done.
  - done.
  - intros b. rewrite Hfree, R4. apply A8.
  - intros b Hb. rewrite Hf by done. by rewrite A2.
Qed.

(** ** Freeing a chain *)

(** The run that joins its free neighbours, on both sides. *)
Definition pending_run (bm : IVBlockManager) (i l : Z) : Prop :=
  bm_inv bm /\ 1 <= i /\ 1 <= l /\ i + l <= cur_block_num bm + 1 /\
  forall b, i <= b < i + l -> ~ free bm b.

(** The blocks that are free or in the run. *)
Definition covered (bm : IVBlockManager) (i l b : Z) : Prop := free bm b \/ i <= b < i + l.

Lemma merge_before_spec i l bm : pending_run bm i l ->
  exists i' l' bm', merge_before (i, l, bm) = (i', l', bm') /\ pending_run bm' i' l' /\
    (forall b, covered bm' i' l' b <-> covered bm i l b) /\ ValueFile bm' = ValueFile bm /\
    cur_block_num bm' = cur_block_num bm.
Proof.
  intros (Hi&H1&Hl&Hc&Hnf). unfold merge_before. pose proof (bi_cur _ Hi).
  destruct (map_before i (index_len_map bm)) as [[j lj]|] eqn:E; [|by exists i, l, bm].
  apply map_before_Some in E as [Hj Hlt]. pose proof (bi_runs _ Hi _ _ Hj) as (J1&J2&J3).
  assert (j + lj <= i).
  { destruct (decide (j + lj <= i)); [done|]. destruct (Hnf i ltac:(lia)). exists j, lj. split; [done|lia]. }
  rewrite u32_small by word_lia. destruct (Z.eqb_spec (j + lj) i) as [Heq|]; [|by exists i, l, bm].
  destruct (erase_run_spec j lj bm Hi Hj) as [He Hf].
  exists j, (l + lj), (erase_run j lj bm). rewrite u32_small by word_lia. split; [done|]. split_and!.
  - split_and!; [done|lia|lia|cbn; lia|]. intros b Hb [Hfb Hnb]%Hf. apply (Hnf b); [lia|done].
  - intros b. unfold covered. rewrite (Hf b). split.
    + intros [[? _]|?]; [by left|]. destruct (decide (b < i)); [left; exists j, lj; split; [done|lia]|right; lia].
    + intros [?|?]; [|right; lia]. destruct (decide (j <= b < j + lj)); [right; lia|by left].
  - done.
  - done.
Qed.

Lemma merge_after_spec i l bm : pending_run bm i l ->
  exists i' l' bm', merge_after (i, l, bm) = (i', l', bm') /\ pending_run bm' i' l' /\
    (forall b, covered bm' i' l' b <-> covered bm i l b) /\ ValueFile bm' = ValueFile bm /\
    cur_block_num bm' = cur_block_num bm.
Proof.
  intros (Hi&H1&Hl&Hc&Hnf). unfold merge_after. pose proof (bi_cur _ Hi).
  destruct (map_upper_bound i (index_len_map bm)) as [[j lj]|] eqn:E; [|by exists i, l, bm].
  apply map_upper_bound_Some in E as [Hj Hlt]. pose proof (bi_runs _ Hi _ _ Hj) as (J1&J2&J3).
  assert (i + l <= j).
  { destruct (decide (i + l <= j)); [done|]. destruct (Hnf j ltac:(lia)). exists j, lj. split; [done|lia]. }
  rewrite (u32_small (l + i)) by word_lia. destruct (Z.eqb_spec (l + i) j) as [Heq|]; [|by exists i, l, bm].
  destruct (erase_run_spec j lj bm Hi Hj) as [He Hf].
  exists i, (l + lj), (erase_run j lj bm). rewrite u32_small by word_lia. split; [done|]. split_and!.
  - split_and!; [done|lia|lia|cbn; lia|]. intros b Hb [Hfb Hnb]%Hf. apply (Hnf b); [lia|done].
  - intros b. unfold covered. rewrite (Hf b). split.
    + intros [[? _]|?]; [by left|]. destruct (decide (i + l <= b)); [left; exists j, lj; split; [done|lia]|right; lia].
    + intros [?|?]; [|right; lia]. destruct (decide (j <= b < j + lj)); [right; lia|by left].
  - done.
  - done.
Qed.

Lemma insert_run_spec i l bm : pending_run bm i l ->
  bm_inv (insert_run i l bm) /\ (forall b, free (insert_run i l bm) b <-> covered bm i l b).
Proof.
  intros (Hi&H1&Hl&Hc&Hnf). unfold insert_run. destruct (index_len_map bm !! i) as [l'|] eqn:E.
  - destruct (Hnf i ltac:(lia)). exists i, l'. pose proof (bi_runs _ Hi _ _ E). split; [done|lia].
  - by apply add_run_spec.
Qed.

(** The chain is walked to its end and becomes one free run. *)
Lemma free_loop_spec bm n : forall fuel s v c l, chain (ValueFile bm) n s v -> 1 <= s ->
  c + l = s + 1 -> 1 <= l -> pending_run bm c (l - 1 + Z.of_nat n) -> (S n < fuel)%nat ->
  wp (free_loop fuel s c l bm) (fun bm' => bm_inv bm' /\
    (forall b, free bm' b <-> covered bm c (l - 1 + Z.of_nat n) b) /\
    ValueFile bm' = ValueFile bm /\ cur_block_num bm' = cur_block_num bm).
Proof.
  induction n as [|n IH]; intros fuel s v c l Hch Hs Hcl Hl Hp Hf; [done|].
  pose proof Hp as (Hi&Hc1&_&Hce&_). pose proof (bi_cur _ Hi).
  destruct Hch as (b&Hb&_&Hn). destruct fuel as [|fuel]; [lia|]. cbn [free_loop].
  destruct (Z.leb_spec s 0); [lia|]. rewrite Hb. cbn [mbind option_bind]. destruct n as [|n].
  - destruct Hn as (->&_). replace (l - 1 + Z.of_nat 1) with l in * by lia.
    destruct (Z.eqb_spec (0 ⊟ s) 1) as [Heq|_].
    { exfalso. unfold u32 in Heq. replace (0 - s) with (W32 - s + (-1) * W32) in Heq by lia.
      rewrite Z_mod_plus_full, Z.mod_small in Heq by word_lia. word_lia. }
    destruct (merge_before_spec c l bm Hp) as (c1&l1&bm1&->&Hp1&Hcov1&Hf1&Hcur1).
    destruct (merge_after_spec c1 l1 bm1 Hp1) as (c2&l2&bm2&->&Hp2&Hcov2&Hf2&Hcur2).
    destruct (insert_run_spec c2 l2 bm2 Hp2) as [Hinv Hfree].
    destruct fuel as [|fuel]; [lia|]. cbn.
    split_and!; [done| | |].
    + intros x. by rewrite Hfree, Hcov2, Hcov1.
    + unfold insert_run. case_match; cbn; congruence.
    + unfold insert_run. case_match; cbn; congruence.
  - destruct Hn as (->&_&_&Hch). replace (s + 1 - s) with 1 by lia. rewrite (u32_small 1) by word_lia.
    cbn [Z.eqb Pos.eqb]. rewrite u32_small by word_lia.
    replace (l - 1 + Z.of_nat (S (S n))) with (l + 1 - 1 + Z.of_nat (S n)) in * by lia.
    eapply IH; [done|lia|lia|lia|done|lia].
Qed.

Lemma chain_keys f n s v : chain f n s v -> (n <= size f)%nat.
Proof.
  intros Hc.
  assert (Hin : forall b, s <= b < s + Z.of_nat n -> is_Some (f !! b)).
  { revert s v Hc. induction n as [|n IH]; intros s v; [done|]. intros (b&Hb&_&Hn) c Hcc.
    destruct (decide (c = s)) as [->|]; [by eexists|]. destruct n as [|n]; [lia|].
    destruct Hn as (_&_&_&Hch). eapply IH; [done|lia]. }
  assert (list_to_set (seqZ s (Z.of_nat n)) ⊆ dom f) as Hsub.
  { intros b. rewrite elem_of_list_to_set, elem_of_seqZ, elem_of_dom. apply Hin. }
  apply subseteq_size in Hsub. rewrite size_dom, size_list_to_set, length_seqZ in Hsub by apply NoDup_seqZ. lia.
Qed.

Lemma FreeBlocks_spec bm n s v : bm_inv bm -> chain (ValueFile bm) n s v -> 1 <= s ->
  s + Z.of_nat n <= cur_block_num bm + 1 -> (forall b, s <= b < s + Z.of_nat n -> ~ free bm b) ->
  wp (FreeBlocks s bm) (fun bm' => bm_inv bm' /\
    (forall b, free bm' b <-> free bm b \/ s <= b < s + Z.of_nat n) /\
    ValueFile bm' = ValueFile bm /\ cur_block_num bm' = cur_block_num bm).
Proof.
  intros Hi Hc Hs He Hnf. unfold FreeBlocks. destruct (Z.eqb_spec s 0); [lia|].
  pose proof (chain_keys _ _ _ _ Hc). assert (1 <= n)%nat by (destruct n; [done|lia]).
  eapply wp_mono; [|eapply (free_loop_spec bm n _ s v s 1)]; try done; try lia.
  split_and!; [done|lia|lia|lia|]. intros b Hb. apply Hnf. lia.
Qed.
End Format.

Lemma iv_len_limit : LEN_LIMIT (BF := iv_format) = W32.
Proof. done. Qed.

(** * Values on disk by key

    The stores of an array: each key with a store owns the blocks of a chain, no
    block is owned twice and no owned block is free.  Writing, freeing and reading
    the value of one key leaves the values of the others alone. *)

Section Format.
Context {BF : BlockFormat}.

(** The chain of [w] starts at [s] and its blocks are in use. *)
Record owns (bm : IVBlockManager) (s : Z) (w : list Z) : Prop := {
  ow_start : 1 <= s;
  ow_chain : chain (ValueFile bm) (Z.to_nat (blocks_for (len w))) s w;
  ow_end : s + blocks_for (len w) <= cur_block_num bm + 1;
  ow_used : forall b, s <= b < s + blocks_for (len w) -> ~ free bm b }.

(** [st k] is the store of key [k], [disk] has the bytes that are there. *)
Record disk_inv (bm : IVBlockManager) (st : Z -> Z) (disk : gmap Z (list Z)) : Prop := {
  di_inv : bm_inv bm;
  di_owns : forall k w, disk !! k = Some w -> owns bm (st k) w;
  di_none : forall k, disk !! k = None -> st k = 0;
  di_disjoint : forall k k' w w' b, k <> k' -> disk !! k = Some w -> disk !! k' = Some w' ->
    st k <= b < st k + blocks_for (len w) -> st k' <= b < st k' + blocks_for (len w') -> False }.

Definition set_store (k s : Z) (st : Z -> Z) : Z -> Z := fun k' => if decide (k' = k) then s else st k'.

Lemma set_store_eq k s st : set_store k s st k = s.
Proof. unfold set_store. by rewrite decide_True. Qed.
Lemma set_store_ne k s st k' : k' <> k -> set_store k s st k' = st k'.
Proof. intros. unfold set_store. by rewrite decide_False. Qed.

(** Only the stores matter. *)
Lemma disk_inv_ext bm st st' disk : (forall k, st' k = st k) -> disk_inv bm st disk -> disk_inv bm st' disk.
Proof.
  intros He [H1 H2 H3 H4]. split; [done| | |].
  - intros k w. rewrite He. apply H2.
  - intros k. rewrite He. apply H3.
  - intros k k' w w' b. rewrite !He. apply H4.
Qed.

Lemma disk_read bm st disk k w : disk_inv bm st disk -> disk !! k = Some w ->
  ReadValue (st k) bm = Some (Some w).
Proof. intros Hd Hk. destruct (di_owns _ _ _ Hd _ _ Hk) as [Hs Hc _ _]. by eapply ReadValue_spec. Qed.

(** An owned chain survives changes of free blocks. *)
Lemma owns_written bm bm' v s s' w : value_written bm bm' v s -> owns bm s' w -> owns bm' s' w.
Proof.
  intros Hw [O1 O2 O3 O4]. destruct (chain_size _ _ _ _ O2) as [_ Hlen].
  pose proof (blocks_for_pos _ Hlen).
  assert (Hsep : forall b, s' <= b < s' + blocks_for (len w) -> ~ (s <= b < s + blocks_for (len v))).
  { intros b Hb Hb'. destruct (vw_was _ _ _ _ Hw b Hb') as [Hf|Hf]; [by apply (O4 b)|lia]. }
  split; [done| | |].
  - eapply chain_frame; [|exact O2]. intros b Hb. rewrite Z2Nat.id in Hb by lia.
    apply (vw_frame _ _ _ _ Hw). auto.
  - pose proof (vw_cur _ _ _ _ Hw). lia.
  - intros b Hb Hf. apply (vw_free _ _ _ _ Hw) in Hf as [[Hf|Hf] _]; [by apply (O4 b)|lia].
Qed.

(** Writing a value for [k]; what [k] had before is forgotten. *)
Lemma disk_write bm st disk k v : disk_inv bm st disk -> 0 < len v < LEN_LIMIT ->
  cur_block_num bm + Z.max (blocks_for (len v)) SETBLOCKINC < MAX_BLOCKS ->
  wpM (WriteValue v) bm (fun s bm' => 1 <= s /\ disk_inv bm' (set_store k s st) (<[k := v]> disk) /\
    cur_block_num bm' <= cur_block_num bm + Z.max (blocks_for (len v)) SETBLOCKINC).
Proof.
  intros Hd Hv Hc. eapply wpM_mono; [|apply WriteValue_spec; [apply Hd|done|done]].
  intros s bm' Hw. cbn beta in Hw. pose proof (vw_start _ _ _ _ Hw). pose proof (vw_cur _ _ _ _ Hw).
  split_and!; [lia| |lia].
  assert (Hnew : forall k' w' b, disk !! k' = Some w' -> st k' <= b < st k' + blocks_for (len w') ->
    ~ (s <= b < s + blocks_for (len v))).
  { intros k' w' b Hk' Hb Hb'. destruct (di_owns _ _ _ Hd _ _ Hk') as [O1 O2 O3 O4].
    destruct (vw_was _ _ _ _ Hw b Hb') as [Hf|Hf]; [by apply (O4 b)|lia]. }
  split.
  - apply Hw.
  - intros k' w [[<- <-]|[Hne Hk']]%lookup_insert_Some.
    + rewrite set_store_eq. split; [lia|apply (vw_chain _ _ _ _ Hw)|apply (vw_end _ _ _ _ Hw)|].
      intros b Hb Hf. apply (vw_free _ _ _ _ Hw) in Hf as [_ Hf]. done.
    + rewrite set_store_ne by congruence. eapply owns_written; [done|]. by eapply di_owns.
  - intros k' [Hk' Hne]%lookup_insert_None. rewrite set_store_ne by congruence. by apply (di_none _ _ _ Hd).
  - intros k1 k2 w1 w2 b Hne [[<- <-]|[H1 Hk1]]%lookup_insert_Some [[<- <-]|[H2 Hk2]]%lookup_insert_Some Hb1 Hb2.
    + done.
    + rewrite set_store_eq in Hb1. rewrite set_store_ne in Hb2 by congruence. by eapply Hnew.
    + rewrite set_store_eq in Hb2. rewrite set_store_ne in Hb1 by congruence. by eapply Hnew.
    + rewrite set_store_ne in Hb1, Hb2 by congruence. by eapply (di_disjoint _ _ _ Hd k1 k2).
Qed.

(** Freeing what [k] has on disk, if anything. *)
Lemma disk_free bm st disk k : disk_inv bm st disk ->
  wp (FreeBlocks (st k) bm) (fun bm' => disk_inv bm' (set_store k 0 st) (delete k disk) /\
    cur_block_num bm' = cur_block_num bm).
Proof.
  intros Hd. destruct (disk !! k) as [w|] eqn:Hk.
  - pose proof (di_owns _ _ _ Hd _ _ Hk) as [O1 O2 O3 O4]. destruct (chain_size _ _ _ _ O2) as [_ Hlen].
    pose proof (blocks_for_pos _ Hlen).
    eapply wp_mono; [|eapply FreeBlocks_spec; [apply Hd|exact O2|done|lia|]].
    2: { intros b Hb. apply O4. lia. }
    intros bm' (Hi&Hf&Hfile&Hcur). split; [|done]. rewrite Z2Nat.id in Hf by lia. split.
    + done.
    + intros k' w' [Hne Hk']%lookup_delete_Some. rewrite set_store_ne by congruence.
      destruct (di_owns _ _ _ Hd _ _ Hk') as [P1 P2 P3 P4]. split; [done|by rewrite Hfile|lia|].
      intros b Hb [Hfb|Hfb]%Hf; [by apply (P4 b)|]. by eapply (di_disjoint _ _ _ Hd k k').
    + intros k' Hk'. apply lookup_delete_None in Hk' as [<-|Hk']; [apply set_store_eq|].
      unfold set_store. case_decide; [done|]. by apply (di_none _ _ _ Hd).
    + intros k1 k2 w1 w2 b Hne [H1 Hk1]%lookup_delete_Some [H2 Hk2]%lookup_delete_Some.
      rewrite !set_store_ne by congruence. by apply (di_disjoint _ _ _ Hd k1 k2).
  - rewrite (di_none _ _ _ Hd _ Hk). cbn. split; [|done]. rewrite delete_id by done.
    eapply disk_inv_ext; [|exact Hd]. intros k'. unfold set_store. case_decide; [|done]. subst.
    symmetry. by apply (di_none _ _ _ Hd).
Qed.

(** Forgetting a store without freeing it. *)
Lemma disk_forget bm st disk k : disk_inv bm st disk -> disk_inv bm (set_store k 0 st) (delete k disk).
Proof.
  intros Hd. split; [apply Hd| | |].
  - intros k' w' [Hne Hk']%lookup_delete_Some. rewrite set_store_ne by congruence. by apply (di_owns _ _ _ Hd).
  - intros k' Hk'. apply lookup_delete_None in Hk' as [<-|Hk']; [apply set_store_eq|].
    unfold set_store. case_decide; [done|]. by apply (di_none _ _ _ Hd).
  - intros k1 k2 w1 w2 b Hne [H1 Hk1]%lookup_delete_Some [H2 Hk2]%lookup_delete_Some.
    rewrite !set_store_ne by congruence. by apply (di_disjoint _ _ _ Hd k1 k2).
Qed.
End Format.
