(* ===== verification/IVArray.v ===== *)
(** * Arrays of cached values

    [IVArray] (KVstore/IVArray/IVArray.h and .cpp) with the cached half of
    [IVEntry] and [EntryBlockList] (KVstore/EntryBlockList.h): byte strings by
    key, each in memory, in the file of the block manager, or both.  The entries
    in memory form a doubly linked queue through their own [prevID] and [nextID],
    least recently used first; when the cache is full, entries are swapped out at
    its head.  Entries that were never touched are [fresh].  An exception, or an
    index outside of [int], is [None].

    At the end, saving an array and opening it again. *)

From S2P Require Import Prelude ValueStore Version BlockManager.

Definition ENTRY_BLOCK_SIZE : Z := 102400.
(** [VList::LENGTH_BORDER]. *)
Definition LENGTH_BORDER : Z := 1000000.
Definition isLongList (_len : Z) : bool := LENGTH_BORDER <? u32 _len.

(** The fields of an [IVEntry] that the cache uses. *)
Record centry := mk_centry {
  usedFlag : bool;
  dirtyFlag : bool;
  cacheFlag : bool;
  CachePinFlag : bool;
  store : Z;
  prevID : Z;
  nextID : Z;
  value : option (list Z) }.

Definition fresh : centry := mk_centry false true false false 0 (-1) (-1) None.

Definition setUsedFlag (b : bool) (e : centry) : centry :=
  mk_centry b (dirtyFlag e) (cacheFlag e) (CachePinFlag e) (store e) (prevID e) (nextID e) (value e).
Definition setDirtyFlag (b : bool) (e : centry) : centry :=
  mk_centry (usedFlag e) b (cacheFlag e) (CachePinFlag e) (store e) (prevID e) (nextID e) (value e).
Definition setCacheFlag (b : bool) (e : centry) : centry :=
  mk_centry (usedFlag e) (dirtyFlag e) b (CachePinFlag e) (store e) (prevID e) (nextID e) (value e).
Definition setCachePinFlag (b : bool) (e : centry) : centry :=
  mk_centry (usedFlag e) (dirtyFlag e) (cacheFlag e) b (store e) (prevID e) (nextID e) (value e).
Definition setStore (s : Z) (e : centry) : centry :=
  mk_centry (usedFlag e) (dirtyFlag e) (cacheFlag e) (CachePinFlag e) s (prevID e) (nextID e) (value e).
Definition setPrev (i : Z) (e : centry) : centry :=
  mk_centry (usedFlag e) (dirtyFlag e) (cacheFlag e) (CachePinFlag e) (store e) i (nextID e) (value e).
Definition setNext (i : Z) (e : centry) : centry :=
  mk_centry (usedFlag e) (dirtyFlag e) (cacheFlag e) (CachePinFlag e) (store e) (prevID e) i (value e).
Definition setBstr (v : list Z) (e : centry) : centry :=
  mk_centry (usedFlag e) (dirtyFlag e) (cacheFlag e) (CachePinFlag e) (store e) (prevID e) (nextID e) (Some v).
Definition release (e : centry) : centry :=
  mk_centry (usedFlag e) (dirtyFlag e) (cacheFlag e) (CachePinFlag e) (store e) (-1) (-1) None.

(** [getBstrLen]; a null string has length 0. *)
Definition bstr_len (e : centry) : Z := len (default [] (value e)).

Record IVArray := mk_IVArray {
  array_ : gmap Z centry;
  block_num : Z;
  head_next : Z;
  cache_tail_id : Z;
  CurEntryNum : Z;
  CurEntryNumChange : bool;
  CurCacheSize : Z;
  BM : IVBlockManager }.

Definition set_array (m : gmap Z centry) (a : IVArray) : IVArray :=
  mk_IVArray m (block_num a) (head_next a) (cache_tail_id a) (CurEntryNum a) (CurEntryNumChange a) (CurCacheSize a) (BM a).
Definition set_blocks (n : Z) (a : IVArray) : IVArray :=
  mk_IVArray (array_ a) n (head_next a) (cache_tail_id a) (CurEntryNum a) (CurEntryNumChange a) (CurCacheSize a) (BM a).
Definition set_head (i : Z) (a : IVArray) : IVArray :=
  mk_IVArray (array_ a) (block_num a) i (cache_tail_id a) (CurEntryNum a) (CurEntryNumChange a) (CurCacheSize a) (BM a).
Definition set_tail (i : Z) (a : IVArray) : IVArray :=
  mk_IVArray (array_ a) (block_num a) (head_next a) i (CurEntryNum a) (CurEntryNumChange a) (CurCacheSize a) (BM a).
Definition set_entry_num (n : Z) (b : bool) (a : IVArray) : IVArray :=
  mk_IVArray (array_ a) (block_num a) (head_next a) (cache_tail_id a) n b (CurCacheSize a) (BM a).
Definition set_cache_size (n : Z) (a : IVArray) : IVArray :=
  mk_IVArray (array_ a) (block_num a) (head_next a) (cache_tail_id a) (CurEntryNum a) (CurEntryNumChange a) n (BM a).
Definition set_BM (bm : IVBlockManager) (a : IVArray) : IVArray :=
  mk_IVArray (array_ a) (block_num a) (head_next a) (cache_tail_id a) (CurEntryNum a) (CurEntryNumChange a) (CurCacheSize a) bm.

(** ** [EntryBlockList] *)

Definition getNeedBlock (key : Z) : Z := key / ENTRY_BLOCK_SIZE + 1.
Definition allocBlock (key : Z) (a : IVArray) : IVArray :=
  set_blocks (Z.max (block_num a) (getNeedBlock key)) a.
Definition getEntryNum (a : IVArray) : Z := u32 (block_num a * ENTRY_BLOCK_SIZE).

(** [array_[key]]: the index is an [int]. *)
Definition ent (key : Z) : M IVArray centry := fun a =>
  if (0 <=? key) && (key <? 2147483648) then
    let a := if block_num a * ENTRY_BLOCK_SIZE <=? key then allocBlock key a else a in
    Some (default fresh (array_ a !! key), a)
  else None.

Definition upd (key : Z) (f : centry -> centry) : M IVArray unit :=
  let! e := ent key in fun a => Some (tt, set_array (<[key := f e]> (array_ a)) a).

Definition gets {A} (f : IVArray -> A) : M IVArray A := fun a => Some (f a, a).
Definition puts (f : IVArray -> IVArray) : M IVArray unit := fun a => Some (tt, f a).

Section Format.
Context {BF : BlockFormat}.

(** Calls of the block manager. *)
Definition bm_write (v : list Z) : M IVArray Z := fun a =>
  '(s, bm) ← WriteValue v (BM a); Some (s, set_BM bm a).
Definition bm_free (s : Z) : M IVArray unit := fun a =>
  bm ← FreeBlocks s (BM a); Some (tt, set_BM bm a).
Definition bm_read (s : Z) : M IVArray (option (list Z)) := fun a =>
  r ← ReadValue s (BM a); Some (r, a).

(** ** The cache *)

Definition SwapOut : M IVArray bool :=
  let! targetID := gets head_next in
  if targetID =? -1 then retM false
  else
    let! target := ent targetID in
    let nextID := nextID target in
    let! _ := puts (set_head nextID) in
    let! _ := (if negb (nextID =? -1) then upd nextID (setPrev (-1)) else puts (set_tail (-1))) in
    let! target := ent targetID in
    let str := default [] (value target) in
    let! _ := puts (fun a => set_cache_size (CurCacheSize a ⊟ len str) a) in
    let! ok :=
      (if dirtyFlag target then
         let! s := bm_write str in
         if s =? 0 then retM false else let! _ := upd targetID (setStore s) in retM true
       else retM true) in
    if negb ok then retM false
    else
      let! _ := upd targetID release in
      let! _ := upd targetID (setCacheFlag false) in retM true.

Section Cache.
Context (MAX_CACHE_SIZE : Z).

(** [while (CurCacheSize + _len > MAX_CACHE_SIZE) if (!SwapOut()) throw]. *)
Fixpoint make_room (fuel : nat) (_len : Z) : M IVArray unit :=
  match fuel with
  | O => fun _ => None
  | S f =>
      let! n := gets CurCacheSize in
      if MAX_CACHE_SIZE <? n + _len then
        let! ok := SwapOut in if (ok : bool) then make_room f _len else fun _ => None
      else retM tt
  end.

Definition AddInCache (_key : Z) (_str : list Z) : M IVArray bool :=
  if MAX_CACHE_SIZE <? len _str then retM false
  else
    let! n := gets (fun a => size (array_ a)) in
    let! _ := make_room (S n) (len _str) in
    let! tail := gets cache_tail_id in
    let! _ := (if tail =? -1 then puts (set_head _key) else upd tail (setNext _key)) in
    let! _ := upd _key (setPrev tail) in
    let! _ := upd _key (setNext (-1)) in
    let! _ := puts (set_tail _key) in
    let! _ := puts (fun a => set_cache_size (CurCacheSize a ⊞ len _str) a) in
    let! _ := upd _key (setBstr _str) in
    let! _ := upd _key (setCacheFlag true) in retM true.

Definition UpdateTime (_key : Z) : M IVArray bool :=
  let! e := ent _key in
  if CachePinFlag e then retM true
  else
    let! tail := gets cache_tail_id in
    if _key =? u32 tail then retM true
    else
      let prev := prevID e in
      let next := nextID e in
      let! _ := (if prev =? -1 then puts (set_head next) else upd prev (setNext next)) in
      let! _ := upd next (setPrev prev) in
      let! _ := upd _key (setPrev tail) in
      let! _ := upd _key (setNext (-1)) in
      let! _ := upd tail (setNext _key) in
      let! _ := puts (set_tail _key) in retM true.

Definition RemoveFromLRUQueue (_key : Z) : M IVArray unit :=
  let! e := ent _key in
  if negb (cacheFlag e) || CachePinFlag e then retM tt
  else
    let prev := prevID e in
    let next := nextID e in
    let! _ := (if prev =? -1 then puts (set_head next) else upd prev (setNext next)) in
    let! _ := (if negb (next =? -1) then upd next (setPrev prev) else puts (set_tail prev)) in
    let! _ := upd _key (setCacheFlag false) in
    let! _ := upd _key (setPrev (-1)) in
    upd _key (setNext (-1)).

(** ** The operations *)

Definition search (_key : Z) : M IVArray (option (list Z)) :=
  let! n := gets CurEntryNum in
  if n <=? _key then retM None
  else
    let! e := ent _key in
    if negb (usedFlag e) then retM None
    else if cacheFlag e then
      let! _ := UpdateTime _key in
      let! e := ent _key in retM (value e)
    else
      let! r := bm_read (store e) in
      match r with
      | None => retM None
      | Some _str =>
          let! _ := (if negb (isLongList (len _str)) then AddInCache _key _str else retM true) in
          retM (Some _str)
      end.

Definition insert (_key : Z) (_str : list Z) : M IVArray bool :=
  let! n := gets CurEntryNum in
  let! used := (if _key <? n then let! e := ent _key in retM (usedFlag e) else retM false) in
  if used then retM false
  else if MAX_KEY_NUM <=? _key then retM false
  else
    let! _ := (if n <=? _key then
                 let! _ := puts (allocBlock _key) in
                 puts (fun a => set_entry_num (getEntryNum a) true a)
               else retM tt) in
    let! ok :=
      (if isLongList (len _str) then
         let! _ := upd _key release in
         let! s := bm_write _str in
         if s =? 0 then retM false else let! _ := upd _key (setStore s) in retM true
       else let! _ := AddInCache _key _str in retM true) in
    if negb ok then retM false
    else
      let! _ := upd _key (setUsedFlag true) in
      let! _ := upd _key (setDirtyFlag true) in retM true.

Definition remove (_key : Z) : M IVArray bool :=
  let! e := ent _key in
  if negb (usedFlag e) then retM false
  else
    let! _ := bm_free (store e) in
    let! _ := upd _key (setUsedFlag false) in
    let! _ := upd _key (setDirtyFlag true) in
    let! _ := upd _key (setStore 0) in
    let! e := ent _key in
    let! _ :=
      (if cacheFlag e then
         let! _ := RemoveFromLRUQueue _key in
         let! e := ent _key in
         let! _ := (if CachePinFlag e then upd _key (setCachePinFlag false) else retM tt) in
         let! _ := puts (fun a => set_cache_size (CurCacheSize a ⊟ bstr_len e) a) in
         upd _key (setCacheFlag false)
       else retM tt) in
    let! e := ent _key in
    let! _ := (if CachePinFlag e then upd _key (setCachePinFlag false) else retM tt) in
    let! _ := upd _key release in retM true.

(** The end of both branches of [modify]: the new value goes to the file or to
    the cache. *)
Definition place_value (_key : Z) (_str : list Z) : M IVArray bool :=
  if isLongList (len _str) then
    let! s := bm_write _str in
    if s =? 0 then retM false
    else
      let! _ := upd _key (setStore s) in
      let! _ := upd _key (setCacheFlag false) in retM true
  else
    let! _ := upd _key (setStore 0) in
    let! _ := AddInCache _key _str in retM true.

Definition modify (_key : Z) (_str : list Z) : M IVArray bool :=
  let! e := ent _key in
  if negb (usedFlag e) then retM false
  else
    let! _ := upd _key (setDirtyFlag true) in
    let! e := ent _key in
    let! _ :=
      (if cacheFlag e then
         let! _ := RemoveFromLRUQueue _key in
         let! e := ent _key in
         let! _ := (if CachePinFlag e then upd _key (setCachePinFlag false) else retM tt) in
         let! e := ent _key in
         let! _ := bm_free (store e) in
         let! _ := upd _key release in
         puts (fun a => set_cache_size (CurCacheSize a ⊟ bstr_len e) a)
       else
         let! _ := bm_free (store e) in
         upd _key release) in
    let! ok := place_value _key _str in
    if negb ok then retM false
    else
      let! _ := upd _key (setUsedFlag true) in
      let! _ := upd _key (setDirtyFlag true) in retM true.

Definition PinCache (_key : Z) : M IVArray unit :=
  let! n := gets CurEntryNum in
  if n <=? _key then retM tt
  else
    let! e := ent _key in
    if negb (usedFlag e) then retM tt
    else if cacheFlag e then
      let! _ := RemoveFromLRUQueue _key in upd _key (setCachePinFlag true)
    else
      let! r := bm_read (store e) in
      match r with
      | None => retM tt
      | Some _str =>
          let! _ := upd _key (setBstr _str) in
          let! _ := upd _key (setCacheFlag true) in
          upd _key (setCachePinFlag true)
      end.

End Cache.
End Format.

(** The cache sizes [KVstore] opens its arrays with. *)
Definition MAX_BUFFER_SIZE : Z := 1073741824.
Definition buffer_sID2values_build : Z := 16.
Definition buffer_pID2values_build : Z := 8.

(** The constructor in [build] mode. *)
Definition IVArray_build (_key_num : Z) : IVArray :=
  let a := allocBlock _key_num (mk_IVArray ∅ 0 (-1) (-1) 0 false 0 (IVBlockManager_build 0)) in
  let a := set_entry_num (getEntryNum a) true a in
  set_BM (IVBlockManager_build (CurEntryNum a)) a.

(** * Saving and opening arrays

    [IVArray::save], the constructors of [IVArray] and [IVBlockManager] in [open]
    mode and [IVBlockManager::SaveFreeBlockList].  The index file and the file of
    free blocks are maps from positions to [unsigned] cells; the value file is that
    of the block manager.  Reading a cell that is not there leaves the variable as
    it was: a variable that was never set makes the run fail. *)

(** ** The file of free blocks *)

Definition put_run (s : Z * gmap Z Z) (r : Z * Z) : Z * gmap Z Z :=
  let '(offset, f) := s in (offset + 2, <[offset + 1 := r.2]> (<[offset := r.1]> f)).

(** A [std::map] is walked over in the order of its keys. *)
Definition SaveFreeBlockList (bm : IVBlockManager) (f : gmap Z Z) : gmap Z Z :=
  let f := <[0 := cur_block_num bm]> f in
  let '(offset, f) := foldl put_run (1, f) (merge_sort key_le (map_to_list (index_len_map bm))) in
  <[offset := 0]> f.

Fixpoint read_runs (fuel : nat) (f : gmap Z Z) (offset tmp_index : Z) (bm : IVBlockManager) : option IVBlockManager :=
  match fuel with
  | O => None
  | S n =>
      if 0 <? tmp_index then
        tmp_len ← f !! offset;
        let bm := insert_run tmp_index tmp_len bm in
        read_runs n f (offset + 2) (default tmp_index (f !! (offset + 1))) bm
      else Some bm
  end.

Definition IVBlockManager_open (f : gmap Z Z) (value_file : gmap Z block) : option IVBlockManager :=
  cur ← f !! 0;
  read_runs (S (size f)) f 2 (default 0 (f !! 1)) (mk_BM ∅ ∅ value_file [] cur).

(** ** The index file *)

Section Format.
Context {BF : BlockFormat}.

(** One round of the loop of [save]. *)
Definition save_entry (i : Z) (f : gmap Z Z) : M IVArray (gmap Z Z) :=
  let! e := ent i in
  if dirtyFlag e then
    let! _ :=
      (match value e with
       | Some str => if usedFlag e then let! _store := bm_write str in upd i (setStore _store) else retM tt
       | None => retM tt
       end) in
    let! e := ent i in
    let! _ := upd i (setDirtyFlag false) in
    retM (<[i + 1 := store e]> f)
  else retM f.

Fixpoint save_loop (ids : list Z) (f : gmap Z Z) : M IVArray (gmap Z Z) :=
  match ids with
  | [] => retM f
  | i :: ids' => let! f := save_entry i f in save_loop ids' f
  end.

Record array_files := mk_files { IVfile : gmap Z Z; FreeBlockList : gmap Z Z }.

Definition save (fs : array_files) : M IVArray array_files :=
  let! n := gets CurEntryNum in
  let! change := gets CurEntryNumChange in
  let f := if (change : bool) then <[0 := n]> (IVfile fs) else IVfile fs in
  let! _ := puts (set_entry_num n false) in
  let! f := save_loop (seqZ 0 n) f in
  let! bm := gets BM in
  retM (mk_files f (SaveFreeBlockList bm (FreeBlockList fs))).

(** One round of the loop of the constructor. *)
Definition open_entry (f : gmap Z Z) (i : Z) : M IVArray unit :=
  let! _store := liftM (f !! (i + 1)) in
  let! _ := upd i (setStore _store) in
  let! _ := upd i (setDirtyFlag false) in
  if 0 <? _store then upd i (setUsedFlag true) else retM tt.

Fixpoint open_loop (f : gmap Z Z) (ids : list Z) : M IVArray unit :=
  match ids with
  | [] => retM tt
  | i :: ids' => let! _ := open_entry f i in open_loop f ids'
  end.

Definition IVArray_open (fs : array_files) (value_file : gmap Z block) : option IVArray :=
  n ← IVfile fs !! 0;
  bm ← IVBlockManager_open (FreeBlockList fs) value_file;
  let a := allocBlock (if 0 <? n then n - 1 else n) (mk_IVArray ∅ 0 (-1) (-1) n false 0 bm) in
  '(_, a) ← open_loop (IVfile fs) (seqZ 0 n) a;
  Some (set_entry_num (getEntryNum a) (CurEntryNumChange a) a).
End Format.
