(* ===== verification/IVArraySpec.v ===== *)
(** * The queue of cached entries

    The doubly linked queue that runs through the [prevID] and [nextID] fields of
    the entries of an [IVArray], as a list of keys: what relinking the neighbours
    of an entry, and appending an entry at the tail, do to the list.

    Then the invariant of an array: the queue lists the cached keys, the cache is
    no larger than its bound, every value is in memory or on disk, and what is on
    disk is current unless the entry is dirty. *)

From S2P Require Import Prelude ValueStore Version BlockManager BlockManagerSpec IVArray.

(** Ends of lists, with -1 for none, as in the fields. *)
Definition first (q : list Z) : Z := default (-1) (head q).
Definition final (q : list Z) : Z := default (-1) (last q).

Record queue_ok (E : Z -> centry) (hd tl : Z) (q : list Z) : Prop := {
  qo_nodup : NoDup q;
  qo_pos : Forall (fun k => 0 <= k) q;
  qo_head : hd = first q;
  qo_tail : tl = final q;
  qo_links : forall pre k post, q = pre ++ k :: post ->
    prevID (E k) = final pre /\ nextID (E k) = first post }.

Lemma final_snoc q k : final (q ++ [k]) = k.
Proof. unfold final. by rewrite last_snoc. Qed.

Lemma final_cons_ne x q : q <> [] -> final (x :: q) = final q.
Proof. unfold final. rewrite last_cons. by destruct (last q) eqn:E; [|apply last_None in E]. Qed.

Lemma final_app q1 q2 : q2 <> [] -> final (q1 ++ q2) = final q2.
Proof.
  intros Hne. induction q1 as [|x q1 IH]; [done|]. cbn [app]. rewrite final_cons_ne; [done|].
  by destruct q1, q2.
Qed.

Lemma first_app q1 q2 : q1 <> [] -> first (q1 ++ q2) = first q1.
Proof. by destruct q1. Qed.

Lemma final_elem q : q <> [] -> final q ∈ q.
Proof. intros Hne. destruct (exists_last Hne) as (l&x&->). rewrite final_snoc. set_solver. Qed.

Lemma first_elem q : q <> [] -> first q ∈ q.
Proof. destruct q; [done|]. intros _. by left. Qed.

(** The queue depends on the links of its members only. *)
Lemma queue_ext E E' hd tl q :
  (forall k, k ∈ q -> prevID (E' k) = prevID (E k) /\ nextID (E' k) = nextID (E k)) ->
  queue_ok E hd tl q -> queue_ok E' hd tl q.
Proof.
  intros He [H1 H2 H3 H4 H5]. split; try done. intros pre k post Hq.
  destruct (He k) as [-> ->]; [subst; set_solver|]. by apply H5.
Qed.

(** A decomposition of an append lies on one side. *)
Lemma app_split {A} (q1 q2 pre post : list A) k : q1 ++ q2 = pre ++ k :: post ->
  (exists m, q1 = pre ++ k :: m /\ post = m ++ q2) \/
  (exists m, pre = q1 ++ m /\ q2 = m ++ k :: post).
Proof.
  revert pre. induction q1 as [|x q1 IH]; intros pre Heq; [right; by exists pre|].
  destruct pre as [|y pre]; cbn in Heq; injection Heq as -> Heq.
  - left. exists q1. by subst.
  - destruct (IH pre Heq) as [(m&->&->)|(m&->&->)]; [left|right]; by exists m.
Qed.

Section Changes.
Context (E E' : Z -> centry) (hd tl : Z).

(** Linking the neighbours of [k] to each other. *)
Lemma queue_remove pre k post : queue_ok E hd tl (pre ++ k :: post) ->
  (forall x, x ∈ pre ++ post ->
     prevID (E' x) = (if decide (post <> [] /\ x = first post) then final pre else prevID (E x)) /\
     nextID (E' x) = (if decide (pre <> [] /\ x = final pre) then first post else nextID (E x))) ->
  queue_ok E' (if decide (pre = []) then first post else hd)
    (if decide (post = []) then final pre else tl) (pre ++ post).
Proof.
  intros [Hn Hp Hh Ht Hl] He.
  assert (Hn' : NoDup (pre ++ post)).
  { apply NoDup_app in Hn as (N1&N2&N3). apply NoDup_cons in N3 as [N3 N4]. apply NoDup_app.
    split_and!; [done| |done]. intros x Hx Hx'. apply (N2 x Hx). by right. }
  assert (Hdis : forall x, x ∈ pre -> x ∈ post -> False).
  { intros x Hx Hx'. apply NoDup_app in Hn' as (_&N&_). by apply (N x). }
  split.
  - done.
  - rewrite Forall_app, Forall_cons in Hp. rewrite Forall_app. tauto.
  - case_decide as Hc; [by subst|]. subst hd. by rewrite !first_app.
  - case_decide as Hc; [subst; by rewrite app_nil_r|]. subst tl.
    rewrite !final_app by done. by apply final_cons_ne.
  - intros pre' x post' Heq. destruct (He x) as [-> ->]; [rewrite Heq; set_solver|].
    destruct (app_split _ _ _ _ _ Heq) as [(m&Hpre&->)|(m&->&Hpost)].
    + destruct (Hl pre' x (m ++ k :: post)) as [Hpv Hnx]; [subst pre; by rewrite <- app_assoc|]. split.
      * rewrite decide_False; [done|]. intros [Hpn ->]. apply (Hdis (first post)); [subst pre; set_solver|by apply first_elem].
      * destruct m as [|y m].
        -- rewrite decide_True; [done|]. subst pre. split; [by destruct pre'|]. by rewrite final_snoc.
        -- rewrite decide_False; [by rewrite Hnx|]. intros [_ Hx].
           assert (Hin : x ∈ y :: m).
           { rewrite Hx, Hpre, final_app, final_cons_ne by done. by apply final_elem. }
           rewrite Hpre, <- app_assoc in Hn'. apply NoDup_app in Hn' as (_&_&Hn').
           cbn [app] in Hn'. apply NoDup_cons in Hn' as [Hn' _]. apply Hn'. set_solver.
    + destruct (Hl (pre ++ k :: m) x post') as [Hpv Hnx]; [subst post; by rewrite <- app_assoc|]. split.
      * destruct m as [|y m].
        -- rewrite decide_True, app_nil_r; [done|]. subst post. done.
        -- rewrite decide_False.
           { rewrite Hpv. rewrite !final_app, final_cons_ne by done. done. }
           intros [_ Hx]. assert (x = y) as -> by (by rewrite Hx, Hpost).
           rewrite Hpost in Hn'. apply NoDup_app in Hn' as (_&_&Hn'). cbn [app] in Hn'.
           apply NoDup_cons in Hn' as [Hn' _]. apply Hn'. set_solver.
      * rewrite decide_False; [done|]. intros [Hpn ->]. apply (Hdis (final pre)); [by apply final_elem|subst post; set_solver].
Qed.

(** Appending [k] at the tail. *)
Lemma queue_push q k : queue_ok E hd tl q -> k ∉ q -> 0 <= k ->
  prevID (E' k) = tl -> nextID (E' k) = -1 ->
  (forall x, x ∈ q -> prevID (E' x) = prevID (E x) /\
     nextID (E' x) = (if decide (x = final q) then k else nextID (E x))) ->
  queue_ok E' (if decide (q = []) then k else hd) k (q ++ [k]).
Proof.
  intros [Hn Hp Hh Ht Hl] Hk Hpos Hpv Hnx He. split.
  - apply NoDup_app. split_and!; [done|set_solver|apply NoDup_singleton].
  - rewrite Forall_app, Forall_singleton. done.
  - case_decide as Hc; [by subst|]. subst hd. by rewrite first_app.
  - by rewrite final_snoc.
  - intros pre x post Heq. destruct (app_split _ _ _ _ _ Heq) as [(m&Hq&->)|(m&->&Hx)].
    + destruct (He x) as [-> ->]; [subst q; set_solver|]. destruct (Hl pre x m Hq) as [-> Hnm].
      split; [done|]. destruct m as [|y m].
      * rewrite decide_True; [done|]. subst q. by rewrite final_snoc.
      * rewrite decide_False; [by rewrite Hnm|]. intros Hx.
        assert (Hin : x ∈ y :: m).
        { rewrite Hx, Hq, final_app, final_cons_ne by done. by apply final_elem. }
        rewrite Hq in Hn. apply NoDup_app in Hn as (_&_&Hn). apply NoDup_cons in Hn as [Hn _]. done.
    + destruct m as [|y m]; cbn in Hx; [|injection Hx as _ Hx; by destruct m].
      injection Hx as <- <-. rewrite app_nil_r. by rewrite Hpv, Hnx.
Qed.
End Changes.

(** * Correctness of the arrays

    Every operation of an [IVArray] keeps its invariant: the linked queue is a
    list of the cached keys, the cache is no larger than its bound, every value is
    in memory or on disk, and what is on disk is current unless the entry is
    dirty. *)

Definition E (a : IVArray) (k : Z) : centry := default fresh (array_ a !! k).

Definition in_range (a : IVArray) (k : Z) : Prop :=
  0 <= k < block_num a * ENTRY_BLOCK_SIZE /\ block_num a * ENTRY_BLOCK_SIZE <= KEY_LIMIT.

Definition updE (k : Z) (f : centry -> centry) (a : IVArray) : IVArray :=
  set_array (<[k := f (E a k)]> (array_ a)) a.

Lemma ent_run a k : in_range a k -> ent k a = Some (E a k, a).
Proof.
  intros [Hk Hb]. unfold ent, KEY_LIMIT in *. destruct (Z.leb_spec 0 k); [|lia].
  destruct (Z.ltb_spec k 2147483648); [|lia]. cbn [andb].
  destruct (Z.leb_spec (block_num a * ENTRY_BLOCK_SIZE) k); [lia|done].
Qed.

Lemma wpM_ent a k Q : in_range a k -> Q (E a k) a -> wpM (ent k) a Q.
Proof. intros Hr HQ. unfold wpM. by rewrite ent_run. Qed.

Lemma wpM_upd a k f Q : in_range a k -> Q tt (updE k f a) -> wpM (upd k f) a Q.
Proof. intros Hr HQ. unfold wpM, upd, bindM. by rewrite ent_run. Qed.

Lemma wpM_gets {A} (f : IVArray -> A) a (Q : A -> IVArray -> Prop) : Q (f a) a -> wpM (gets f) a Q.
Proof. done. Qed.

Lemma wpM_puts f a (Q : unit -> IVArray -> Prop) : Q tt (f a) -> wpM (puts f) a Q.
Proof. done. Qed.

Lemma E_updE k f a x : E (updE k f a) x = if decide (x = k) then f (E a k) else E a x.
Proof.
  unfold E at 1, updE. cbn. case_decide as Hx; [subst; by rewrite lookup_insert_eq|].
  by rewrite lookup_insert_ne.
Qed.

(** Bytes in the cache. *)
Definition bytes (F : Z -> centry) (q : list Z) : Z := foldr (fun k n => bstr_len (F k) + n) 0 q.

Lemma bytes_app F q1 q2 : bytes F (q1 ++ q2) = bytes F q1 + bytes F q2.
Proof. unfold bytes. induction q1 as [|k q1 IH]; cbn; [done|]. rewrite IH. lia. Qed.

Lemma bytes_ext F F' q : (forall k, k ∈ q -> value (F' k) = value (F k)) -> bytes F' q = bytes F q.
Proof.
  intros He. unfold bytes. induction q as [|k q IH]; cbn; [done|]. rewrite IH by set_solver.
  unfold bstr_len. by rewrite (He k) by set_solver.
Qed.

Lemma bytes_nonneg F q : 0 <= bytes F q.
Proof. unfold bytes, bstr_len. induction q; cbn; lia. Qed.

(** [CurCacheSize] is an [unsigned]: the bytes in the cache are known from it,
    and bounded, only when the bound is a word too. *)
Definition cache_size_ok (MAXC n bytes : Z) : Prop := n = u32 bytes /\ (MAXC < W32 -> bytes <= MAXC).

Lemma cache_size_sub MAXC n l b : cache_size_ok MAXC n (l + b) -> 0 <= l -> cache_size_ok MAXC (n ⊟ l) b.
Proof.
  intros [-> Hb] Hl. split; [|lia]. unfold u32. rewrite Zminus_mod_idemp_l. f_equal. lia.
Qed.

Lemma cache_size_add MAXC n l b : cache_size_ok MAXC n b -> 0 <= b -> n + l <= MAXC ->
  cache_size_ok MAXC (n ⊞ l) (b + l).
Proof.
  intros [-> Hb] Hl Hn. split; [unfold u32; by rewrite Zplus_mod_idemp_l|]. intros HM. specialize (Hb HM).
  rewrite u32_small in Hn by lia. lia.
Qed.

(** The fields of the number of entries. *)
Definition counts (a : IVArray) : Z * bool := (CurEntryNum a, CurEntryNumChange a).
Lemma counts_eq a a' : counts a' = counts a ->
  CurEntryNum a' = CurEntryNum a /\ CurEntryNumChange a' = CurEntryNumChange a.
Proof. unfold counts. by intros [= -> ->]. Qed.

(** The two entries differ in their links only. *)
Definition relink (e e' : centry) : Prop := e' = setPrev (prevID e') (setNext (nextID e') e).

Section Format.
Context {BF : BlockFormat}.

(** What is known of the entry of a key with the value [v]. *)
Definition entry_value (disk : gmap Z (list Z)) (k : Z) (e : centry) (v : list Z) : Prop :=
  usedFlag e = true /\ 0 < len v < LEN_LIMIT /\
  if cacheFlag e then value e = Some v /\ len v <= LENGTH_BORDER /\ (dirtyFlag e = false -> disk !! k = Some v)
  else disk !! k = Some v /\ value e = None.

Section Invariant.
Context (MAXC : Z) (saved : gmap Z Z).

(** The entries of the keys in [X] are being changed; [saved] has the cells of the
    index file. *)
Record ainv (a : IVArray) (X : gset Z) (q : list Z) (disk m : gmap Z (list Z)) : Prop := {
  ai_queue : queue_ok (E a) (head_next a) (cache_tail_id a) q;
  ai_cached : forall k, cacheFlag (E a k) = true <-> k ∈ q;
  ai_pin : forall k, CachePinFlag (E a k) = false;
  ai_none : forall k, k ∉ X -> m !! k = None -> usedFlag (E a k) = false /\ disk !! k = None;
  ai_some : forall k v, k ∉ X -> m !! k = Some v ->
    0 <= k < CurEntryNum a /\ entry_value disk k (E a k) v;
  ai_range : Forall (fun k => k < CurEntryNum a) q;
  ai_size : cache_size_ok MAXC (CurCacheSize a) (bytes (E a) q);
  ai_cache_small : forall k, k ∈ q -> k ∉ X -> is_Some (m !! k);
  ai_disk : disk_inv (BM a) (fun k => store (E a k)) disk;
  ai_saved : forall k, k ∉ X -> 0 <= k -> dirtyFlag (E a k) = false -> saved !! (k + 1) = Some (store (E a k));
  ai_header : 0 < CurEntryNum a /\ (ENTRY_BLOCK_SIZE | CurEntryNum a) /\
    (CurEntryNumChange a = false -> saved !! 0 = Some (CurEntryNum a));
  ai_num : 0 <= CurEntryNum a <= block_num a * ENTRY_BLOCK_SIZE /\
           block_num a * ENTRY_BLOCK_SIZE <= KEY_LIMIT }.

Lemma ainv_in_range a X q disk m k : ainv a X q disk m -> 0 <= k < CurEntryNum a -> in_range a k.
Proof. intros Hi Hk. destruct (ai_num _ _ _ _ _ Hi). split; lia. Qed.

Lemma ainv_queue_range a X q disk m k : ainv a X q disk m -> k ∈ q -> in_range a k.
Proof.
  intros Hi Hk. eapply ainv_in_range; [done|].
  pose proof (ai_range _ _ _ _ _ Hi) as Hr. pose proof (qo_pos _ _ _ _ (ai_queue _ _ _ _ _ Hi)) as Hp.
  rewrite Forall_forall in Hr, Hp. specialize (Hr k Hk). specialize (Hp k Hk). cbn in *. lia.
Qed.

(** Opening the entry of [k] for a change, and closing it. *)
Lemma ainv_open a X q disk m k : ainv a X q disk m -> ainv a ({[k]} ∪ X) q disk m.
Proof.
  intros [H1 H2 H3 H4 H5 H6 H7 H8 H9 H9' Hh H10]. split; try done; intros; [apply H4|apply H5|apply H8|apply H9']; set_solver.
Qed.

Lemma ainv_close a X q disk m k v : ainv a ({[k]} ∪ X) q disk m -> 0 <= k < CurEntryNum a ->
  entry_value disk k (E a k) v -> (dirtyFlag (E a k) = false -> saved !! (k + 1) = Some (store (E a k))) ->
  ainv a X q disk (<[k := v]> m).
Proof.
  intros [H1 H2 H3 H4 H5 H6 H7 H8 H9 H9' Hh H10] Hk Hv Hsv. split; try done.
  - intros j HX [Hj Hne]%lookup_insert_None. apply H4; [set_solver|done].
  - intros j w HX [[<- <-]|[Hne Hj]]%lookup_insert_Some; [done|]. apply H5; [set_solver|done].
  - intros j Hj HX. destruct (decide (j = k)) as [->|]; [by rewrite lookup_insert_eq|].
    rewrite lookup_insert_ne by congruence. apply H8; [done|set_solver].
  - intros j Hj Hj0. destruct (decide (j = k)) as [->|]; [done|]. apply H9'; [set_solver|done].
Qed.

Lemma ainv_close_none a X q disk m k : ainv a ({[k]} ∪ X) q disk m -> k ∉ q -> usedFlag (E a k) = false ->
  disk !! k = None -> (dirtyFlag (E a k) = false -> saved !! (k + 1) = Some (store (E a k))) ->
  ainv a X q disk (delete k m).
Proof.
  intros [H1 H2 H3 H4 H5 H6 H7 H8 H9 H9' Hh H10] Hk Hu Hdn Hsv. split; try done.
  - intros j HX Hj. apply lookup_delete_None in Hj as [<-|Hj]; [done|].
    destruct (decide (j = k)) as [->|]; [done|]. apply H4; [set_solver|done].
  - intros j w HX [Hne Hj]%lookup_delete_Some. apply H5; [set_solver|done].
  - intros j Hj HX. rewrite lookup_delete_ne by (intros ->; done). apply H8; [done|].
    assert (j <> k) by congruence. set_solver.
  - intros j Hj Hj0. destruct (decide (j = k)) as [->|]; [done|]. apply H9'; [set_solver|done].
Qed.

(** A change of the entry of [k], and of links elsewhere. *)
Lemma ainv_step a a' X q q' disk disk' m k : ainv a X q disk m -> k ∈ X ->
  queue_ok (E a') (head_next a') (cache_tail_id a') q' ->
  (forall x, x <> k -> relink (E a x) (E a' x) /\ (x ∈ q' <-> x ∈ q)) ->
  (cacheFlag (E a' k) = true <-> k ∈ q') -> CachePinFlag (E a' k) = false -> (k ∈ q' -> k < CurEntryNum a) ->
  cache_size_ok MAXC (CurCacheSize a') (bytes (E a') q') ->
  disk_inv (BM a') (fun x => store (E a' x)) disk' -> (forall x, x <> k -> disk' !! x = disk !! x) ->
  counts a' = counts a -> block_num a' = block_num a -> ainv a' X q' disk' m.
Proof.
  intros [H1 H2 H3 H4 H5 H6 H7 H8 H9 H9' Hh H10] HkX Hq Hx Hc Hpin Hk Hs Hd Hdx Hcn Hb. destruct (counts_eq _ _ Hcn) as [Hn Hch].
  assert (Hsame : forall x, x <> k -> usedFlag (E a' x) = usedFlag (E a x) /\ dirtyFlag (E a' x) = dirtyFlag (E a x) /\
    cacheFlag (E a' x) = cacheFlag (E a x) /\ CachePinFlag (E a' x) = CachePinFlag (E a x) /\
    value (E a' x) = value (E a x) /\ store (E a' x) = store (E a x)).
  { intros x Hne. destruct (Hx x Hne) as [-> _]. by destruct (E a x). }
  assert (HnX : forall x, x ∉ X -> x <> k) by (intros x Hxx ->; done).
  split; try done.
  - intros x. destruct (decide (x = k)) as [->|Hne]; [done|]. destruct (Hsame x Hne) as (_&_&->&_).
    rewrite H2. symmetry. by apply Hx.
  - intros x. destruct (decide (x = k)) as [->|Hne]; [done|]. destruct (Hsame x Hne) as (_&_&_&->&_). done.
  - intros x HxX Hxm. destruct (Hsame x) as (->&_); [auto|]. rewrite Hdx by auto. auto.
  - intros x v HxX Hv. rewrite Hn. destruct (H5 x v HxX Hv) as [? Hev]. split; [done|].
    destruct (Hsame x) as (Hu&Hdi&Hca&_&Hva&_); [auto|]. unfold entry_value in *.
    by rewrite Hu, Hdi, Hca, Hva, Hdx by auto.
  - rewrite Hn. rewrite Forall_forall in H6 |- *. intros x Hin. destruct (decide (x = k)) as [->|Hne]; [auto|].
    by apply H6, Hx.
  - intros x Hin HxX. apply H8; [apply Hx; auto|done].
  - intros x HxX Hx0. destruct (Hsame x) as (_&->&_&_&_&->); auto.
  - by rewrite Hn, Hch.
  - by rewrite Hn, Hb.
Qed.

(** Another order of the queue: only links change. *)
Lemma ainv_relink a a' X q q' disk m : ainv a X q disk m -> q' ≡ₚ q ->
  (forall k, relink (E a k) (E a' k)) ->
  queue_ok (E a') (head_next a') (cache_tail_id a') q' ->
  CurCacheSize a' = CurCacheSize a -> counts a' = counts a -> block_num a' = block_num a ->
  BM a' = BM a -> ainv a' X q' disk m.
Proof.
  intros [H1 H2 H3 H4 H5 H6 H7 H8 H9 H9' Hh H10] Hq Hr Hqo Hs Hcn Hb Hbm. destruct (counts_eq _ _ Hcn) as [Hn Hch].
  assert (Hsame : forall k, usedFlag (E a' k) = usedFlag (E a k) /\ dirtyFlag (E a' k) = dirtyFlag (E a k) /\
    cacheFlag (E a' k) = cacheFlag (E a k) /\ CachePinFlag (E a' k) = CachePinFlag (E a k) /\
    store (E a' k) = store (E a k) /\ value (E a' k) = value (E a k)).
  { intros k. rewrite (Hr k). by destruct (E a k). }
  assert (Hv : forall q0, bytes (E a') q0 = bytes (E a) q0) by (intros q0; apply bytes_ext; intros; apply Hsame).
  assert (Hperm : forall F, bytes F q' = bytes F q).
  { intros F. unfold bytes. clear -Hq. induction Hq; cbn; lia. }
  split.
  - done.
  - intros k. destruct (Hsame k) as (_&_&->&_). rewrite H2, Hq. done.
  - intros k. destruct (Hsame k) as (_&_&_&->&_). apply H3.
  - intros k. destruct (Hsame k) as (->&_). apply H4.
  - intros k v Hx Hk. rewrite Hn. destruct (H5 k v Hx Hk) as [? Hev]. split; [done|].
    destruct (Hsame k) as (Hu&Hd&Hc&_&_&Hva). unfold entry_value in *. by rewrite Hu, Hd, Hc, Hva.
  - rewrite Hn, Hq. done.
  - rewrite Hs, Hv, !Hperm. done.
  - intros k. rewrite Hq. apply H8.
  - rewrite Hbm. eapply disk_inv_ext; [|exact H9]. intros k. cbn. apply Hsame.
  - intros k Hk Hk0. destruct (Hsame k) as (_&->&_&_&->&_). by apply H9'.
  - by rewrite Hn, Hch.
  - by rewrite Hn, Hb.
Qed.

End Invariant.

(** ** Relinking *)

(** What the cache operations leave alone. *)
Definition same_core (a a' : IVArray) : Prop :=
  CurCacheSize a' = CurCacheSize a /\ counts a' = counts a /\ block_num a' = block_num a /\
  BM a' = BM a.

(** The statements that take an entry with the neighbours [prev] and [next] out
    of the queue. *)
Definition unlink (prev next : Z) : M IVArray unit :=
  let! _ := (if prev =? -1 then puts (set_head next) else upd prev (setNext next)) in
  if negb (next =? -1) then upd next (setPrev prev) else puts (set_tail prev).

Lemma relink_refl e : relink e e.
Proof. by destruct e. Qed.
Lemma relink_trans e1 e2 e3 : relink e1 e2 -> relink e2 e3 -> relink e1 e3.
Proof. unfold relink. intros -> ->. by destruct e1. Qed.
Lemma relink_setPrev i e : relink e (setPrev i e).
Proof. by destruct e. Qed.
Lemma relink_setNext i e : relink e (setNext i e).
Proof. by destruct e. Qed.
#[local] Hint Resolve relink_refl relink_setPrev relink_setNext : core.

Lemma first_none q : Forall (fun k => 0 <= k) q -> first q = -1 <-> q = [].
Proof. destruct q as [|x q]; [done|]. intros [? _]%Forall_cons. cbn. split; [lia|done]. Qed.
Lemma final_none q : Forall (fun k => 0 <= k) q -> final q = -1 <-> q = [].
Proof.
  intros Hf. split; [|by intros ->]. intros Hq. destruct (decide (q = [])) as [|Hne]; [done|].
  apply final_elem in Hne. rewrite Forall_forall in Hf. apply Hf in Hne. lia.
Qed.

Lemma unlink_spec a pre k post : queue_ok (E a) (head_next a) (cache_tail_id a) (pre ++ k :: post) ->
  (forall x, x ∈ pre ++ k :: post -> in_range a x) ->
  wpM (unlink (final pre) (first post)) a (fun _ a' =>
    queue_ok (E a') (head_next a') (cache_tail_id a') (pre ++ post) /\
    (forall x, relink (E a x) (E a' x)) /\ (forall x, x ∉ pre ++ post -> E a' x = E a x) /\ same_core a a').
Proof.
  intros Hq Hr. pose proof Hq as [Hn Hp Hh Ht _].
  rewrite Forall_app, Forall_cons in Hp. destruct Hp as (Hpp&Hpk&Hpq).
  assert (Hkpre : k ∉ pre) by (intros Hin; apply NoDup_app in Hn as (_&N&_); apply (N k Hin); by left).
  assert (Hkpost : k ∉ post) by (apply NoDup_app in Hn as (_&_&N); by apply NoDup_cons in N as [N _]).
  assert (Hdis : forall x, x ∈ pre -> x ∈ post -> False).
  { intros x Hx Hx'. apply NoDup_app in Hn as (_&N&_). apply (N x Hx). by right. }
  set (E1 := fun x => if decide (pre <> [] /\ x = final pre) then setNext (first post) (E a x) else E a x).
  set (E2 := fun x => if decide (post <> [] /\ x = first post) then setPrev (final pre) (E1 x) else E1 x).
  assert (Hpost : forall a', (forall x, E a' x = E2 x) ->
    head_next a' = (if decide (pre = []) then first post else head_next a) ->
    cache_tail_id a' = (if decide (post = []) then final pre else cache_tail_id a) -> same_core a a' ->
    queue_ok (E a') (head_next a') (cache_tail_id a') (pre ++ post) /\
    (forall x, relink (E a x) (E a' x)) /\ (forall x, x ∉ pre ++ post -> E a' x = E a x) /\ same_core a a').
  { intros a' HE -> -> Hc. split_and!; [| | |done].
    - apply (queue_remove (E a) _ _ _ pre k post Hq). intros x Hx. rewrite HE. unfold E2, E1.
      split; repeat case_decide; try done; destruct (E a x); done.
    - intros x. rewrite HE. unfold E2, E1. repeat case_decide; eauto using relink_trans.
    - intros x Hx. rewrite HE. unfold E2, E1. rewrite !decide_False; [done| |].
      + intros [Hne ->]. apply final_elem in Hne. set_solver.
      + intros [Hne ->]. apply first_elem in Hne. set_solver. }
  unfold unlink. apply wpM_bind. destruct (Z.eqb_spec (final pre) (-1)) as [Hf|Hf].
  - apply (final_none pre Hpp) in Hf. apply wpM_puts. destruct (Z.eqb_spec (first post) (-1)) as [Hl|Hl]; cbn [negb].
    + apply (first_none post Hpq) in Hl. apply wpM_puts. apply Hpost; [|by rewrite decide_True|by rewrite decide_True|done].
      intros x. unfold E2, E1. by rewrite !decide_False by tauto.
    + assert (Hne : post <> []) by (intros ->; done). apply wpM_upd; [apply Hr; apply first_elem in Hne; set_solver|].
      apply Hpost; [|by rewrite decide_True|by rewrite decide_False|done].
      intros x. rewrite E_updE. unfold E2, E1. rewrite !(decide_False (P := pre <> [] /\ _)) by tauto.
      destruct (decide (x = first post)) as [->|Hx]; [by rewrite decide_True|by rewrite decide_False by tauto].
  - assert (Hne : pre <> []) by (intros ->; done).
    apply wpM_upd; [apply Hr; apply final_elem in Hne; set_solver|].
    destruct (Z.eqb_spec (first post) (-1)) as [Hl|Hl]; cbn [negb].
    + apply (first_none post Hpq) in Hl. apply wpM_puts. apply Hpost; [|by rewrite decide_False|by rewrite decide_True|done].
      intros x. unfold E2, E1. rewrite (decide_False (P := post <> [] /\ _)) by tauto.
      change (E (set_tail ?t ?b) x) with (E b x). rewrite E_updE.
      destruct (decide (x = final pre)) as [->|Hx]; [by rewrite decide_True|by rewrite decide_False by tauto].
    + assert (Hne' : post <> []) by (intros ->; done).
      apply wpM_upd; [apply (Hr (first post)); apply first_elem in Hne'; set_solver|].
      apply Hpost; [|by rewrite decide_False|by rewrite decide_False|done].
      assert (final pre <> first post).
      { intros Heq. apply (Hdis (final pre)); [by apply final_elem|rewrite Heq; by apply first_elem]. }
      intros x. rewrite !E_updE. unfold E2, E1.
      destruct (decide (x = first post)) as [->|Hx1].
      * rewrite (decide_False (P := first post = final pre)) by congruence.
        rewrite (decide_False (P := pre <> [] /\ _)) by (intros [_ ?]; congruence). by rewrite decide_True.
      * rewrite (decide_False (P := post <> [] /\ _)) by tauto.
        destruct (decide (x = final pre)) as [->|Hx]; [by rewrite decide_True|by rewrite decide_False by tauto].
Qed.
End Format.
