(* ===== verification/IVArrayCache.v ===== *)
(** * Correctness of the cache

    The operations on the queue of cached entries of an [IVArray]: an entry moves
    to the tail when it is used, leaves the queue, is swapped out at the head, or
    joins at the tail.  No value is lost on the way. *)

From S2P Require Import Prelude ValueStore Version BlockManager BlockManagerSpec IVArray IVArraySpec.

Lemma wpM_unbind {S A B} (m : M S A) (f : A -> M S B) s (Q : B -> S -> Prop) :
  wpM (bindM m f) s Q -> wpM m s (fun a s' => wpM (f a) s' Q).
Proof. unfold wpM, bindM. by destruct (m s) as [[a s']|]. Qed.

Section Cache.
Context {BF : BlockFormat} (MAXC : Z) (saved : gmap Z Z) (HMAXC : LENGTH_BORDER <= MAXC).

Lemma UpdateTime_spec a X q disk m k : ainv MAXC saved a X q disk m -> k ∈ q ->
  wpM (UpdateTime k) a (fun r a' => r = true /\ (exists q', q' ≡ₚ q /\ ainv MAXC saved a' X q' disk m) /\
    (forall x, relink (E a x) (E a' x)) /\ same_core a a').
Proof using Type. clear HMAXC.
  intros Hi Hk. pose proof (ainv_queue_range _ _ _ _ _ _ _ _ Hi Hk) as Hr.
  pose proof (ai_queue _ _ _ _ _ _ _ Hi) as Hq. destruct Hr as [Hr1 Hr2].
  unfold UpdateTime. apply wpM_bind, wpM_ent; [done|]. rewrite (ai_pin _ _ _ _ _ _ _ Hi).
  apply wpM_bind, wpM_gets. apply list_elem_of_split in Hk as (pre&post&->).
  pose proof Hq as [Hn Hp _ Ht Hl]. destruct (Hl pre k post eq_refl) as [-> ->].
  rewrite final_app in Ht by done. destruct (decide (post = [])) as [->|Hpost].
  { cbn in Ht. rewrite Ht, u32_small, Z.eqb_refl by (unfold KEY_LIMIT, W32 in *; lia).
    apply wpM_ret. split_and!; [done|eauto|intros x; by destruct (E a x)|done]. }
  rewrite final_cons_ne in Ht by done. pose proof (final_elem _ Hpost) as Htl. rewrite <- Ht in Htl.
  assert (Hpos : forall x, x ∈ post -> 0 <= x < KEY_LIMIT).
  { intros x Hx. eapply (ainv_queue_range _ _ _ _ _ _ _ x) in Hi as [? ?]; [lia|set_solver]. }
  assert (Hkt : k ∉ pre ++ post).
  { rewrite <- Permutation_middle in Hn. by apply NoDup_cons in Hn as [Hn _]. }
  destruct (Z.eqb_spec k (u32 (cache_tail_id a))) as [Heq|_].
  { rewrite u32_small in Heq by (pose proof (Hpos _ Htl); unfold KEY_LIMIT, W32 in *; lia). set_solver. }
  pose proof (unlink_spec a pre k post Hq (fun x => ainv_queue_range _ _ _ _ _ _ _ x Hi)) as Hu.
  unfold unlink in Hu. apply wpM_unbind in Hu. apply wpM_bind. eapply wpM_mono; [|exact Hu]. clear Hu.
  intros [] a1 Hu. cbn beta in Hu.
  destruct (Z.eqb_spec (first post) (-1)) as [Hf|_]; cbn [negb] in Hu.
  { exfalso. pose proof (Hpos _ (first_elem _ Hpost)). lia. }
  apply wpM_bind. eapply wpM_mono; [|exact Hu]. clear Hu. intros [] a2 (Hq2&Hre&Hk2&Hc2). cbn beta.
  destruct Hc2 as (C1&C2&C3&C4).
  assert (Hin : forall b x, block_num b = block_num a -> in_range a x -> in_range b x).
  { intros b x Hb. unfold in_range. by rewrite Hb. }
  assert (Htr : in_range a (cache_tail_id a)) by (eapply ainv_queue_range; [exact Hi|set_solver]).
  do 3 (apply wpM_bind, wpM_upd; [by apply Hin|]). apply wpM_bind, wpM_puts. cbn beta. apply wpM_ret.
  set (a' := set_tail _ _).
  assert (Hkne : k <> cache_tail_id a) by (intros Hkq; apply Hkt; set_solver).
  assert (HE : forall x, E a' x = if decide (x = cache_tail_id a) then setNext k (E a2 x) else
    if decide (x = k) then setNext (-1) (setPrev (cache_tail_id a) (E a2 k)) else E a2 x).
  { intros x. unfold a'. change (E (set_tail ?t ?b) x) with (E b x). rewrite !E_updE.
    destruct (decide (x = cache_tail_id a)) as [->|]; repeat case_decide; congruence. }
  assert (Hrel : forall x, relink (E a x) (E a' x)).
  { intros x. rewrite HE. eapply relink_trans; [apply Hre|]. repeat case_decide; subst; eauto using relink_refl, relink_trans, relink_setPrev, relink_setNext. }
  split_and!; [done| |done|done]. exists ((pre ++ post) ++ [k]).
  assert (Hperm : (pre ++ post) ++ [k] ≡ₚ pre ++ k :: post) by (by rewrite <- Permutation_cons_append, Permutation_middle).
  split; [done|]. eapply (ainv_relink _ _ a); [done..| |done|done|done|done].
  assert (Hne : pre ++ post <> []) by (by destruct pre, post).
  pose proof (queue_push (E a2) (E a') _ _ _ k Hq2 Hkt) as Hpush. rewrite decide_False in Hpush by done.
  apply Hpush.
  - lia.
  - rewrite HE, decide_False, decide_True by done. cbn. by rewrite (qo_tail _ _ _ _ Hq2), final_app.
  - rewrite HE, decide_False, decide_True by done. done.
  - intros x Hx. rewrite HE, final_app, <- Ht by done. repeat case_decide; subst; try done.
Qed.

(** What leaves the queue still counts for the size of the cache. *)
Lemma RemoveFromLRUQueue_spec a X pre k post disk m : ainv MAXC saved a X (pre ++ k :: post) disk m ->
  wpM (RemoveFromLRUQueue k) a (fun _ a' =>
    queue_ok (E a') (head_next a') (cache_tail_id a') (pre ++ post) /\
    (forall x, x <> k -> relink (E a x) (E a' x)) /\
    E a' k = setNext (-1) (setPrev (-1) (setCacheFlag false (E a k))) /\ same_core a a').
Proof using Type. clear HMAXC.
  intros Hi. assert (Hin : k ∈ pre ++ k :: post) by set_solver.
  pose proof (ainv_queue_range _ _ _ _ _ _ _ _ Hi Hin) as Hr. pose proof (ai_queue _ _ _ _ _ _ _ Hi) as Hq.
  unfold RemoveFromLRUQueue. apply wpM_bind, wpM_ent; [done|].
  apply (ai_cached _ _ _ _ _ _ _ Hi) in Hin as ->. rewrite (ai_pin _ _ _ _ _ _ _ Hi). cbn [negb orb].
  destruct (qo_links _ _ _ _ Hq pre k post eq_refl) as [-> ->].
  pose proof (unlink_spec a pre k post Hq (fun x => ainv_queue_range _ _ _ _ _ _ _ x Hi)) as Hu.
  unfold unlink in Hu. apply wpM_unbind in Hu. apply wpM_bind. eapply wpM_mono; [|exact Hu]. clear Hu.
  intros [] a1 Hu. cbn beta in Hu. apply wpM_bind. eapply wpM_mono; [|exact Hu]. clear Hu.
  intros [] a2 (Hq2&Hre&Hout&C1&C2&C3&C4). cbn beta.
  assert (Hk2 : k ∉ pre ++ post).
  { pose proof (qo_nodup _ _ _ _ Hq) as Hn. rewrite <- Permutation_middle in Hn. by apply NoDup_cons in Hn as [Hn _]. }
  assert (Hr2 : forall b, block_num b = block_num a2 -> in_range b k).
  { intros b Hb. unfold in_range. by rewrite Hb, C3. }
  do 2 (apply wpM_bind, wpM_upd; [by apply Hr2|]). apply wpM_upd; [by apply Hr2|].
  split_and!.
  - eapply queue_ext; [|exact Hq2]. intros x Hx. rewrite !E_updE. repeat case_decide; subst; done.
  - intros x Hx. rewrite !E_updE. repeat case_decide; subst; done.
  - rewrite !E_updE. repeat case_decide; try done. by rewrite Hout.
  - done.
Qed.

(** Blocks that a cached value takes at most. *)
Definition SWAP_BLOCKS : Z := 8334.

Lemma swap_blocks n : 0 < n <= LENGTH_BORDER -> Z.max (blocks_for n) SETBLOCKINC <= SWAP_BLOCKS.
Proof using Type. clear HMAXC.
  unfold LENGTH_BORDER, SWAP_BLOCKS, SETBLOCKINC, blocks_for. intros Hn. pose proof bf_data.
  assert ((n + BLOCK_DATA_SIZE - 1) / BLOCK_DATA_SIZE < 8335) by (apply Z.div_lt_upper_bound; lia). lia.
Qed.

Lemma wpM_bm_write v a (Q : Z -> IVArray -> Prop) :
  wpM (WriteValue v) (BM a) (fun s bm => Q s (set_BM bm a)) -> wpM (bm_write v) a Q.
Proof using Type. clear HMAXC. unfold wpM, bm_write. by destruct (WriteValue v (BM a)) as [[s bm]|]. Qed.

(** The head of the queue leaves the cache; its value is on disk. *)
Lemma ainv_evict a a3 X k q disk disk' m v s : ainv MAXC saved a X (k :: q) disk m -> k ∉ X -> m !! k = Some v ->
  queue_ok (E a3) (head_next a3) (cache_tail_id a3) q -> (forall x, x <> k -> relink (E a x) (E a3 x)) ->
  E a3 k = setStore s (E a k) -> CurCacheSize a3 = CurCacheSize a ⊟ len v ->
  counts a3 = counts a -> block_num a3 = block_num a ->
  disk_inv (BM a3) (fun x => store (E a3 x)) disk' -> disk' !! k = Some v ->
  (forall x, x <> k -> disk' !! x = disk !! x) -> (dirtyFlag (E a k) = false -> s = store (E a k)) ->
  ainv MAXC saved (updE k (setCacheFlag false) (updE k release a3)) X q disk' m.
Proof using HMAXC.
  intros Hi HkX Hv Hq Hre HEk Hsz Hn Hb Hd Hdk Hdx Hst.
  pose proof (qo_nodup _ _ _ _ (ai_queue _ _ _ _ _ _ _ Hi)) as Hnd. apply NoDup_cons in Hnd as [Hkq _].
  destruct (ai_some _ _ _ _ _ _ _ Hi k v HkX Hv) as [Hrange (Hu&Hlen&Hev)].
  assert (Hca : cacheFlag (E a k) = true) by (apply (ai_cached _ _ _ _ _ _ _ Hi); by left).
  rewrite Hca in Hev. destruct Hev as (Hval&_&_).
  set (a' := updE _ _ _).
  assert (HE : forall x, E a' x = if decide (x = k) then setCacheFlag false (release (E a3 k)) else E a3 x).
  { intros x. unfold a'. rewrite !E_updE. repeat case_decide; congruence. }
  assert (Hbytes : bytes (E a') q = bytes (E a) q).
  { apply bytes_ext. intros x Hx. rewrite HE, decide_False by (intros ->; done).
    rewrite (Hre x) by (intros ->; done). by destruct (E a x). }
  pose proof (ai_size _ _ _ _ _ _ _ Hi) as Hs1. change (bytes (E a) (k :: q)) with (bstr_len (E a k) + bytes (E a) q) in Hs1.
  unfold bstr_len in Hs1. rewrite Hval in Hs1. cbn [default from_option id] in Hs1.
  pose proof (bytes_nonneg (E a) q).
  rewrite <- (insert_id m k v Hv). eapply ainv_close.
  - eapply (ainv_step _ _ a a' ({[k]} ∪ X) (k :: q) q disk disk' m k); [by apply ainv_open|set_solver|..].
    + eapply queue_ext; [|exact Hq]. intros x Hx. by rewrite HE, decide_False by (intros ->; done).
    + intros x Hx. rewrite HE, decide_False by done. split; [by apply Hre|set_solver].
    + rewrite HE, decide_True by done. done.
    + rewrite HE, decide_True, HEk by done. apply (ai_pin _ _ _ _ _ _ _ Hi).
    + done.
    + rewrite Hbytes. change (CurCacheSize a') with (CurCacheSize a3).
      rewrite Hsz. apply cache_size_sub; [done|lia].
    + eapply disk_inv_ext; [|exact Hd]. intros x. cbn. rewrite HE. case_decide; [by subst|done].
    + done.
    + done.
    + done.
  - by rewrite <- (proj1 (counts_eq _ _ Hn)) in Hrange.
  - unfold entry_value. rewrite HE, decide_True by done. cbn. by rewrite HEk.
  - rewrite HE, decide_True, HEk by done. cbn. intros Hdf. rewrite (Hst Hdf). apply (ai_saved _ _ _ _ _ _ _ Hi); [done|lia|done].
Qed.

(** The entries outside of the queue, and the size of the arrays, stay. *)
Record outside (a a' : IVArray) (q : list Z) (disk disk' : gmap Z (list Z)) : Prop := {
  os_entry : forall x, x ∉ q -> E a' x = E a x;
  os_disk : forall x, x ∉ q -> disk' !! x = disk !! x;
  os_num : counts a' = counts a;
  os_blocks : block_num a' = block_num a }.

Lemma SwapOut_spec a X k q disk m : ainv MAXC saved a X (k :: q) disk m -> k ∉ X ->
  cur_block_num (BM a) + SWAP_BLOCKS < MAX_BLOCKS ->
  wpM SwapOut a (fun r a' => r = true /\ exists disk', ainv MAXC saved a' X q disk' m /\
    outside a a' (k :: q) disk disk' /\ cur_block_num (BM a') <= cur_block_num (BM a) + SWAP_BLOCKS).
Proof using HMAXC.
  intros Hi HkX Hroom. assert (Hin : k ∈ k :: q) by (by left).
  pose proof (ainv_queue_range _ _ _ _ _ _ _ _ Hi Hin) as Hr. pose proof (ai_queue _ _ _ _ _ _ _ Hi) as Hq.
  destruct (ai_cache_small _ _ _ _ _ _ _ Hi k Hin HkX) as [v Hv].
  destruct (ai_some _ _ _ _ _ _ _ Hi k v HkX Hv) as [Hrange (Hu&Hlen&Hev)].
  apply (ai_cached _ _ _ _ _ _ _ Hi) in Hin. rewrite Hin in Hev. destruct Hev as (Hval&Hsmall&Hdisk).
  unfold SwapOut. apply wpM_bind, wpM_gets. rewrite (qo_head _ _ _ _ Hq). cbn [first head default from_option id].
  change (first (k :: q)) with k. destruct (Z.eqb_spec k (-1)); [lia|].
  apply wpM_bind, wpM_ent; [done|]. destruct (qo_links _ _ _ _ Hq [] k q eq_refl) as [_ ->].
  pose proof (unlink_spec a [] k q Hq (fun x => ainv_queue_range _ _ _ _ _ _ _ x Hi)) as Hun.
  unfold unlink in Hun. apply wpM_unbind in Hun. apply wpM_bind. eapply wpM_mono; [|exact Hun]. clear Hun.
  intros [] a1 Hun. cbn beta in Hun. apply wpM_bind. eapply wpM_mono; [|exact Hun]. clear Hun.
  intros [] a2 (Hq2&Hre&Hout&C1&C2&C3&C4). cbn beta. cbn [app] in Hq2, Hout.
  assert (Hkq : k ∉ q) by (pose proof (qo_nodup _ _ _ _ Hq) as Hn; by apply NoDup_cons in Hn as [? _]).
  assert (Hr2 : forall b, block_num b = block_num a2 -> in_range b k).
  { intros b Hb. unfold in_range. by rewrite Hb, C3. }
  apply wpM_bind, wpM_ent; [by apply Hr2|]. rewrite (Hout k Hkq), Hval. cbn [default from_option id].
  apply wpM_bind, wpM_puts. cbn beta.
  set (a3 := set_cache_size _ _).
  assert (Hpre : E a3 k = setStore (store (E a k)) (E a k)).
  { change (E a3 k) with (E a2 k). rewrite (Hout k Hkq). by destruct (E a k). }
  assert (Hds : disk_inv (BM a3) (fun x => store (E a3 x)) disk).
  { change (BM a3) with (BM a2). rewrite C4. eapply disk_inv_ext; [|apply (ai_disk _ _ _ _ _ _ _ Hi)].
    intros x. cbn. change (E a3 x) with (E a2 x). rewrite (Hre x). by destruct (E a x). }
  assert (Hfin : forall a4 disk' s, E a4 k = setStore s (E a k) -> (forall x, x <> k -> E a4 x = E a2 x) ->
    head_next a4 = head_next a2 -> cache_tail_id a4 = cache_tail_id a2 -> CurCacheSize a4 = CurCacheSize a3 ->
    counts a4 = counts a2 -> block_num a4 = block_num a2 ->
    disk_inv (BM a4) (fun x => store (E a4 x)) disk' -> disk' !! k = Some v -> 
    (forall x, x <> k -> disk' !! x = disk !! x) -> cur_block_num (BM a4) <= cur_block_num (BM a) + SWAP_BLOCKS ->
    (dirtyFlag (E a k) = false -> s = store (E a k)) -> wpM (let! _ := upd k release in let! _ := upd k (setCacheFlag false) in retM true) a4
      (fun r a' => r = true /\ exists disk', ainv MAXC saved a' X q disk' m /\
        outside a a' (k :: q) disk disk' /\ cur_block_num (BM a') <= cur_block_num (BM a) + SWAP_BLOCKS)).
  { intros a4 disk' s F1 F2 F3 F4 F5 F6 F7 F8 F9 F10 F11 F12. do 2 (apply wpM_bind, wpM_upd; [by apply Hr2|]).
    apply wpM_ret. split; [done|]. exists disk'. split_and!; [| |done].
    - eapply (ainv_evict a a4); [exact Hi|exact HkX|exact Hv| | |exact F1| | | |exact F8|exact F9|exact F10|exact F12].
      + rewrite F3, F4. eapply queue_ext; [|exact Hq2]. intros x Hx. by rewrite F2 by (intros ->; done).
      + intros x Hx. by rewrite F2.
      + rewrite F5. unfold a3. cbn. by rewrite C1.
      + by rewrite F6.
      + by rewrite F7.
    - split; [| |change (counts a4 = counts a); congruence|cbn; congruence].
      + intros x Hx. rewrite !E_updE, !decide_False, F2 by set_solver. apply Hout. set_solver.
      + intros x Hx. apply F10. set_solver. }
  apply wpM_bind. destruct (dirtyFlag (E a k)) eqn:Hdirty.
  - apply wpM_bind, wpM_bm_write. change (BM a3) with (BM a2). rewrite C4 in *.
    pose proof (swap_blocks (len v) ltac:(lia)) as Hsb.
    eapply wpM_mono; [|eapply (disk_write (BM a) _ disk k v); [|done|lia]].
    2: { change (BM a3) with (BM a2) in Hds. rewrite C4 in Hds. exact Hds. }
    intros s bm' (Hs&Hd'&Hcur). cbn beta. destruct (Z.eqb_spec s 0); [lia|].
    apply wpM_bind, wpM_upd; [by apply Hr2|]. apply wpM_ret. cbn [negb].
    apply (Hfin _ (<[k := v]> disk) s); try done.
    + rewrite E_updE, decide_True by done. change (E (set_BM bm' a3) k) with (E a3 k). rewrite Hpre. by destruct (E a k).
    + intros x Hx. rewrite E_updE, decide_False by done. done.
    + eapply disk_inv_ext; [|exact Hd']. intros x. cbn. rewrite E_updE. unfold set_store. by case_decide.
    + by rewrite lookup_insert_eq.
    + intros x Hx. by rewrite lookup_insert_ne.
    + cbn. lia.
  - apply wpM_ret. cbn [negb]. apply (Hfin _ disk (store (E a k))); try done; [by apply Hdisk|].
    change (BM a3) with (BM a2). rewrite C4. unfold SWAP_BLOCKS. lia.
Qed.

(** ** Room in the cache *)

(** Blocks in use, plus those needed to swap out the whole queue. *)
Definition demand (a : IVArray) (q : list Z) : Z := cur_block_num (BM a) + SWAP_BLOCKS * len q.

Lemma outside_refl a q disk : outside a a q disk disk.
Proof using Type. clear HMAXC. done. Qed.

Lemma outside_trans a a1 a2 q q1 disk disk1 disk2 : (forall x, x ∈ q1 -> x ∈ q) ->
  outside a a1 q disk disk1 -> outside a1 a2 q1 disk1 disk2 -> outside a a2 q disk disk2.
Proof using Type. clear HMAXC.
  intros Hs [H1 H2 H3 H4] [K1 K2 K3 K4]. split; [| |congruence|congruence].
  - intros x Hx. rewrite K1 by auto. auto.
  - intros x Hx. rewrite K2 by auto. auto.
Qed.

Lemma make_room_spec X m n : 0 <= n <= MAXC -> forall q fuel a disk, (length q < fuel)%nat ->
  ainv MAXC saved a X q disk m -> (forall x, x ∈ q -> x ∉ X) -> demand a q < MAX_BLOCKS ->
  wpM (make_room MAXC fuel n) a (fun _ a' => exists q' disk', (forall x, x ∈ q' -> x ∈ q) /\
    ainv MAXC saved a' X q' disk' m /\ outside a a' q disk disk' /\ CurCacheSize a' + n <= MAXC /\
    demand a' q' <= demand a q).
Proof using HMAXC.
  intros Hn q. induction q as [|k q IH]; intros fuel a disk Hf Hi Hx Hroom;
    (destruct fuel as [|fuel]; [cbn in Hf; lia|]); cbn [make_room]; apply wpM_bind, wpM_gets;
    destruct (ai_size _ _ _ _ _ _ _ Hi) as [Hs Hs']; destruct (Z.ltb_spec MAXC (CurCacheSize a + n)).
  - change (CurCacheSize a = 0) in Hs. lia.
  - apply wpM_ret. exists [], disk. eauto using outside_refl, Z.le_refl.
  - unfold demand in Hroom. cbn [length] in *.
    apply wpM_bind. eapply wpM_mono; [|eapply (SwapOut_spec a X k q disk m Hi)]; [|apply Hx; by left|unfold SWAP_BLOCKS in *; lia].
    intros r a1 (->&disk1&Hi1&Ho1&Hc1). cbn beta iota.
    eapply wpM_mono; [|apply (IH fuel a1 disk1); [lia|exact Hi1|set_solver|unfold demand, SWAP_BLOCKS in *; lia]].
    intros [] a' (q'&disk'&Hq'&Hi'&Ho'&Hsz&Hd'). exists q', disk'. split_and!; [set_solver|done| |done|].
    + eapply outside_trans; [|exact Ho1|exact Ho']. set_solver.
    + unfold demand, SWAP_BLOCKS in *. cbn [length]. lia.
  - apply wpM_ret. exists (k :: q), disk. eauto using outside_refl, Z.le_refl.
Qed.

(** Cached entries have been touched. *)
Lemma queue_size a X q disk m : ainv MAXC saved a X q disk m -> (length q <= size (array_ a))%nat.
Proof using Type. clear HMAXC.
  intros Hi. pose proof (qo_nodup _ _ _ _ (ai_queue _ _ _ _ _ _ _ Hi)) as Hn.
  rewrite <- (size_dom (D := gset Z)), <- (size_list_to_set (C := gset Z)) by done. apply subseteq_size. intros x Hx.
  rewrite elem_of_list_to_set in Hx. apply (ai_cached _ _ _ _ _ _ _ Hi) in Hx. unfold E in Hx.
  apply elem_of_dom. by destruct (array_ a !! x).
Qed.

(** Linking [k] behind the tail. *)
Lemma ainv_join a a' q k v disk m : ainv MAXC saved a {[k]} q disk m -> k ∉ q -> 0 <= k < CurEntryNum a ->
  CurCacheSize a + len v <= MAXC ->
  E a' k = setCacheFlag true (setBstr v (setNext (-1) (setPrev (cache_tail_id a) (E a k)))) ->
  (forall x, x <> k -> E a' x = if decide (q <> [] /\ x = final q) then setNext k (E a x) else E a x) ->
  head_next a' = (if decide (q = []) then k else head_next a) -> cache_tail_id a' = k ->
  CurCacheSize a' = CurCacheSize a ⊞ len v -> counts a' = counts a -> block_num a' = block_num a ->
  BM a' = BM a -> ainv MAXC saved a' {[k]} (q ++ [k]) disk m.
Proof using HMAXC.
  intros Hi Hk Hrange Hfit HEk HE Hh Ht Hsz Hn Hb Hbm.
  assert (Hne : forall x, x ∈ q -> x <> k) by (intros x Hx ->; done).
  pose proof (bytes_nonneg (E a) q).
  assert (Hby : bytes (E a') (q ++ [k]) = bytes (E a) q + len v).
  { rewrite bytes_app. rewrite (bytes_ext (E a) (E a') q).
    2: { intros x Hx. rewrite HE by auto. by destruct (decide (q <> [] /\ x = final q)). }
    unfold bytes at 2. cbn [foldr]. rewrite HEk. unfold bstr_len. cbn. lia. }
  eapply (ainv_step _ _ a a' {[k]} q (q ++ [k]) disk disk m k); [done|set_solver|..].
  - rewrite Hh, Ht. pose proof (ai_queue _ _ _ _ _ _ _ Hi) as Hq.
    eapply queue_push; [exact Hq|done|lia|by rewrite HEk|by rewrite HEk|].
    intros x Hx. rewrite HE by auto. destruct (decide (x = final q)) as [->|].
    + rewrite decide_True; [done|]. split; [by destruct q; [apply not_elem_of_nil in Hx|]|done].
    + by rewrite decide_False by tauto.
  - intros x Hx. rewrite HE by done. split; [|set_solver]. destruct (decide (q <> [] /\ x = final q)); [apply relink_setNext|apply relink_refl].
  - rewrite HEk. split; [set_solver|done].
  - rewrite HEk. apply (ai_pin _ _ _ _ _ _ _ Hi).
  - lia.
  - rewrite Hby, Hsz. apply cache_size_add; [apply (ai_size _ _ _ _ _ _ _ Hi)|done|done].
  - rewrite Hbm. eapply disk_inv_ext; [|apply (ai_disk _ _ _ _ _ _ _ Hi)]. intros x. cbn.
    destruct (decide (x = k)) as [->|]; [by rewrite HEk|]. rewrite HE by done. by destruct (decide (q <> [] /\ x = final q)).
  - done.
  - done.
  - done.
Qed.

(** A value joins the cache; the other fields of its entry stay. *)
Lemma AddInCache_spec a q disk m k v : ainv MAXC saved a {[k]} q disk m -> k ∉ q -> 0 <= k < CurEntryNum a ->
  len v <= LENGTH_BORDER -> demand a q < MAX_BLOCKS ->
  wpM (AddInCache MAXC k v) a (fun r a' => r = true /\ exists q' disk',
    ainv MAXC saved a' {[k]} (q' ++ [k]) disk' m /\
    relink (setCacheFlag true (setBstr v (E a k))) (E a' k) /\ disk' !! k = disk !! k /\
    counts a' = counts a /\ demand a' (q' ++ [k]) <= demand a q + SWAP_BLOCKS).
Proof using HMAXC.
  intros Hi Hk Hrange Hlen Hroom. unfold AddInCache.
  destruct (Z.ltb_spec MAXC (len v)); [lia|]. apply wpM_bind, wpM_gets. apply wpM_bind.
  pose proof (queue_size _ _ _ _ _ Hi).
  eapply wpM_mono; [|eapply (make_room_spec {[k]} m (len v)); [lia| |exact Hi|set_solver|done]]; [|lia].
  intros [] a1 (q1&disk1&Hsub&Hi1&[O1 O2 O3 O4]&Hsz&Hd1). cbn beta.
  assert (Hk1 : k ∉ q1) by auto. pose proof (ai_queue _ _ _ _ _ _ _ Hi1) as Hq1.
  assert (Hr : forall b x, block_num b = block_num a1 -> in_range a1 x -> in_range b x).
  { intros b x Hb. unfold in_range. by rewrite Hb. }
  destruct (counts_eq _ _ O3) as [O3' _].
  assert (Hkr : in_range a1 k) by (eapply ainv_in_range; [done|lia]).
  pose proof (qo_pos _ _ _ _ Hq1) as Hpos. pose proof (qo_tail _ _ _ _ Hq1) as Htl.
  apply wpM_bind, wpM_gets. apply wpM_bind.
  set (E2 := fun x => if decide (q1 <> [] /\ x = final q1) then setNext k (E a1 x) else E a1 x).
  assert (Hgo : wpM (if cache_tail_id a1 =? -1 then puts (set_head k) else upd (cache_tail_id a1) (setNext k)) a1
    (fun _ a2 => (forall x, E a2 x = E2 x) /\ head_next a2 = (if decide (q1 = []) then k else head_next a1) /\
      same_core a1 a2)).
  { rewrite Htl. destruct (Z.eqb_spec (final q1) (-1)) as [Hf|Hf].
    - apply (final_none q1 Hpos) in Hf. apply wpM_puts. split_and!; [|by rewrite decide_True|done].
      intros x. unfold E2. by rewrite decide_False by tauto.
    - assert (Hne : q1 <> []) by (intros ->; done).
      apply wpM_upd; [eapply ainv_queue_range; [done|by apply final_elem]|]. split_and!; [|by rewrite decide_False|done].
      intros x. rewrite E_updE. unfold E2.
      destruct (decide (x = final q1)) as [->|]; [by rewrite decide_True|by rewrite decide_False by tauto]. }
  eapply wpM_mono; [|exact Hgo]. clear Hgo. intros [] a2 (HE2&Hh2&C1&C2&C3&C4). cbn beta.
  do 2 (apply wpM_bind, wpM_upd; [by apply Hr|]). do 2 (apply wpM_bind, wpM_puts).
  do 2 (apply wpM_bind, wpM_upd; [by apply Hr|]). apply wpM_ret. split; [done|]. exists q1, disk1.
  set (a' := updE k (setCacheFlag true) _).
  assert (Hkk : q1 <> [] /\ k = final q1 -> False) by (intros [Hne ->]; by apply Hk1, final_elem).
  assert (HEk : E a' k = setCacheFlag true (setBstr v (setNext (-1) (setPrev (cache_tail_id a1) (E a1 k))))).
  { unfold a'. rewrite !E_updE, !decide_True by done.
    change (E (set_cache_size ?n (set_tail ?t ?b)) k) with (E b k). rewrite !E_updE, !decide_True, HE2 by done.
    unfold E2. by rewrite decide_False by done. }
  split_and!.
  - eapply (ainv_join a1 a'); [exact Hi1|done|lia|done|exact HEk| |done|done| |done..].
    + intros x Hx. unfold a'. rewrite !E_updE, !decide_False by done.
      change (E (set_cache_size ?n (set_tail ?t ?b)) x) with (E b x). by rewrite !E_updE, !decide_False by done.
    + unfold a'. cbn. by rewrite C1.
  - rewrite HEk, (O1 k Hk). by destruct (E a k).
  - apply O2. done.
  - change (counts a') with (counts a2). congruence.
  - unfold demand in *. change (BM a') with (BM a2). rewrite C4, length_app. cbn [length]. unfold SWAP_BLOCKS in *. lia.
Qed.
End Cache.
