(* ===== verification/IVArrayOps.v ===== *)
(** * Correctness of the operations of an array

    [search], [insert], [remove] and [modify] of an [IVArray] against the map from
    keys to byte strings that the array stands for. *)

From S2P Require Import Prelude ValueStore Version BlockManager BlockManagerSpec IVArray IVArraySpec IVArrayCache.

Section Format.
Context {BF : BlockFormat}.

(** Blocks that writing [n] bytes takes at most, and an operation with them. *)
Definition value_cost (n : Z) : Z := Z.max (blocks_for n) SETBLOCKINC.
Definition op_cost (n : Z) : Z := value_cost n + SWAP_BLOCKS.

Lemma value_cost_pos n : 0 <= value_cost n.
Proof. unfold value_cost, SETBLOCKINC. lia. Qed.

Lemma op_cost_mono n n' : n <= n' -> op_cost n <= op_cost n'.
Proof.
  intros Hn. unfold op_cost, value_cost, blocks_for, SETBLOCKINC. pose proof bf_data.
  assert ((n + BLOCK_DATA_SIZE - 1) / BLOCK_DATA_SIZE <= (n' + BLOCK_DATA_SIZE - 1) / BLOCK_DATA_SIZE) by (apply Z.div_le_mono; lia). lia.
Qed.

Lemma isLongList_spec n : 0 < n < LEN_LIMIT -> isLongList n = (LENGTH_BORDER <? n).
Proof. intros Hn. pose proof LEN_LIMIT_le. unfold isLongList. by rewrite u32_small by lia. Qed.

Lemma wpM_bm_free s a (Q : unit -> IVArray -> Prop) :
  wp (FreeBlocks s (BM a)) (fun bm => Q tt (set_BM bm a)) -> wpM (bm_free s) a Q.
Proof. unfold wpM, bm_free. by destruct (FreeBlocks s (BM a)). Qed.

Section Ops.
Context (MAXC : Z) (saved : gmap Z Z) (HMAXC : LENGTH_BORDER <= MAXC).

(** ** Changes of one entry *)

(** The entry of [k] changes, its place in the queue does not. *)
Lemma ainv_entry a a' X q disk disk' m k : ainv MAXC saved a X q disk m -> k ∈ X ->
  (forall x, x <> k -> E a' x = E a x) ->
  (k ∈ q -> prevID (E a' k) = prevID (E a k) /\ nextID (E a' k) = nextID (E a k) /\ value (E a' k) = value (E a k)) ->
  cacheFlag (E a' k) = cacheFlag (E a k) -> CachePinFlag (E a' k) = false ->
  head_next a' = head_next a -> cache_tail_id a' = cache_tail_id a -> CurCacheSize a' = CurCacheSize a ->
  counts a' = counts a -> block_num a' = block_num a ->
  disk_inv (BM a') (fun x => store (E a' x)) disk' -> (forall x, x <> k -> disk' !! x = disk !! x) ->
  ainv MAXC saved a' X q disk' m.
Proof using Type. clear HMAXC.
  intros Hi HkX HE Hk Hc Hp H1 H2 H3 H4 H5 Hd Hdx.
  assert (Hq : forall x, x ∈ q -> prevID (E a' x) = prevID (E a x) /\ nextID (E a' x) = nextID (E a x) /\
    value (E a' x) = value (E a x)).
  { intros x Hx. destruct (decide (x = k)) as [->|Hne]; [by apply Hk|]. by rewrite HE. }
  eapply (ainv_step _ _ a a' X q q disk disk' m k); try done.
  - rewrite H1, H2. eapply queue_ext; [|apply (ai_queue _ _ _ _ _ _ _ Hi)]. intros x Hx. destruct (Hq x Hx) as (?&?&?). done.
  - intros x Hx. rewrite HE by done. split; [apply relink_refl|done].
  - rewrite Hc. apply (ai_cached _ _ _ _ _ _ _ Hi).
  - intros Hin. pose proof (ai_range _ _ _ _ _ _ _ Hi) as Hr. rewrite Forall_forall in Hr. by apply Hr.
  - rewrite H3. rewrite (bytes_ext (E a) (E a') q); [apply (ai_size _ _ _ _ _ _ _ Hi)|]. intros x Hx. by apply Hq.
Qed.

(** The entry of [k] leaves the queue. *)
Lemma ainv_leave a a' X pre k post disk disk' m : ainv MAXC saved a X (pre ++ k :: post) disk m -> k ∈ X ->
  queue_ok (E a') (head_next a') (cache_tail_id a') (pre ++ post) ->
  (forall x, x <> k -> relink (E a x) (E a' x)) ->
  cacheFlag (E a' k) = false -> CachePinFlag (E a' k) = false ->
  CurCacheSize a' = CurCacheSize a ⊟ bstr_len (E a k) ->
  counts a' = counts a -> block_num a' = block_num a ->
  disk_inv (BM a') (fun x => store (E a' x)) disk' -> (forall x, x <> k -> disk' !! x = disk !! x) ->
  ainv MAXC saved a' X (pre ++ post) disk' m.
Proof using HMAXC.
  intros Hi HkX Hq HE Hc Hp Hsz Hn Hb Hd Hdx.
  assert (Hk : k ∉ pre ++ post).
  { pose proof (qo_nodup _ _ _ _ (ai_queue _ _ _ _ _ _ _ Hi)) as Hnd. rewrite <- Permutation_middle in Hnd.
    by apply NoDup_cons in Hnd as [? _]. }
  assert (Hby : bytes (E a') (pre ++ post) = bytes (E a) (pre ++ post)).
  { apply bytes_ext. intros x Hx. rewrite (HE x) by (intros ->; done). by destruct (E a x). }
  pose proof (ai_size _ _ _ _ _ _ _ Hi) as Hs. rewrite bytes_app in Hs.
  change (bytes (E a) (k :: post)) with (bstr_len (E a k) + bytes (E a) post) in Hs.
  pose proof (bytes_nonneg (E a) pre). pose proof (bytes_nonneg (E a) post).
  assert (0 <= bstr_len (E a k)) by (unfold bstr_len; lia).
  eapply (ainv_step _ _ a a' X _ _ disk disk' m k); try done.
  - intros x Hx. split; [by apply HE|set_solver].
  - rewrite Hc. split; [done|]. intros ?. done.
  - rewrite Hby, bytes_app, Hsz. apply cache_size_sub; [|done].
    by replace (bstr_len (E a k) + (bytes (E a) pre + bytes (E a) post))
      with (bytes (E a) pre + (bstr_len (E a k) + bytes (E a) post)) by lia.
Qed.

Lemma ainv_fresh a X q disk m k : ainv MAXC saved a X q disk m -> k ∉ X -> m !! k = None -> k ∉ q.
Proof using Type. clear HMAXC. intros Hi HX Hk Hq. destruct (ai_cache_small _ _ _ _ _ _ _ Hi k Hq HX) as [v Hv]. congruence. Qed.

(** The range of the entries grows. *)
Lemma ainv_grow a q disk m k : ainv MAXC saved a ∅ q disk m -> 0 <= k < KEY_LIMIT -> CurEntryNum a <= k ->
  let a' := set_entry_num (getEntryNum (allocBlock k a)) true (allocBlock k a) in
  ainv MAXC saved a' ∅ q disk m /\ k < CurEntryNum a'.
Proof using Type. clear HMAXC.
  intros [H1 H2 H3 H4 H5 H6 H7 H8 H9 H9' Hh [H10 H11]] Hk Hn.
  assert (Hdiv : k / ENTRY_BLOCK_SIZE < 20971) by (apply Z.div_lt_upper_bound; unfold KEY_LIMIT, ENTRY_BLOCK_SIZE in *; lia).
  pose proof (Z.mul_succ_div_gt k ENTRY_BLOCK_SIZE ltac:(unfold ENTRY_BLOCK_SIZE; lia)) as Hm.
  assert (Hnum : getEntryNum (allocBlock k a) = Z.max (block_num a) (k / ENTRY_BLOCK_SIZE + 1) * ENTRY_BLOCK_SIZE).
  { unfold getEntryNum, allocBlock, getNeedBlock. cbn [block_num set_blocks]. apply u32_small.
    unfold KEY_LIMIT, ENTRY_BLOCK_SIZE, W32 in *. lia. }
  cbn zeta. rewrite Hnum.
  split; [split; cbn; try done|cbn; unfold ENTRY_BLOCK_SIZE in *; lia].
  - intros x v HX Hv. destruct (H5 x v HX Hv) as [? ?]. split; [|done]. unfold ENTRY_BLOCK_SIZE in *. lia.
  - eapply Forall_impl; [exact H6|]. cbn. intros x Hx. unfold ENTRY_BLOCK_SIZE in *. lia.
  - split_and!; [unfold ENTRY_BLOCK_SIZE in *; lia|by apply Z.divide_factor_r|done].
  - unfold getNeedBlock, KEY_LIMIT, ENTRY_BLOCK_SIZE in *. lia.
Qed.

(** ** The operations *)

(** The array stands for [m] and uses no more than [n] blocks. *)
Definition stands (n : Z) (a : IVArray) (m : gmap Z (list Z)) : Prop :=
  exists q disk, ainv MAXC saved a ∅ q disk m /\ demand a q <= n.

Lemma ainv_some_only a q disk m k : ainv MAXC saved a ∅ q disk m -> usedFlag (E a k) = true -> is_Some (m !! k).
Proof using Type. clear HMAXC.
  intros Hi Hu. destruct (m !! k) eqn:Hk; [eauto|]. destruct (ai_none _ _ _ _ _ _ _ Hi k) as [Hf _]; [set_solver|done|congruence].
Qed.

(** Bringing the value [v] of [k], which is not cached, into the cache. *)
Lemma AddInCache_close n a q disk m k v : ainv MAXC saved a {[k]} q disk m -> k ∉ q -> 0 <= k < CurEntryNum a ->
  0 < len v <= LENGTH_BORDER -> demand a q <= n -> n + SWAP_BLOCKS < MAX_BLOCKS ->
  wpM (AddInCache MAXC k v) a (fun _ a' => exists e, relink (setCacheFlag true (setBstr v (E a k))) e /\ E a' k = e /\
    0 <= k < CurEntryNum a' /\ exists q' disk', disk' !! k = disk !! k /\ ainv MAXC saved a' {[k]} q' disk' m /\ k ∈ q' /\
    demand a' q' <= n + SWAP_BLOCKS).
Proof using HMAXC.
  intros Hi Hk Hr Hl Hd Hn. eapply wpM_mono; [|eapply AddInCache_spec; [exact HMAXC|exact Hi|done|done|lia|]].
  2: { unfold SWAP_BLOCKS in *. lia. }
  intros _ a' (_&q'&disk'&Hi'&He&Hdk&Hcn&Hdem). destruct (counts_eq _ _ Hcn) as [Hnum _]. exists (E a' k). split_and!; [done|done|lia|lia|].
  exists (q' ++ [k]), disk'. split_and!; [done|done|set_solver|lia].
Qed.

Lemma search_spec n a m k : stands n a m -> n + SWAP_BLOCKS < MAX_BLOCKS -> 0 <= k ->
  wpM (search MAXC k) a (fun r a' => r = m !! k /\ stands (n + SWAP_BLOCKS) a' m).
Proof using HMAXC.
  intros (q&disk&Hi&Hd) Hn Hk. unfold search. apply wpM_bind, wpM_gets.
  assert (Hst : stands (n + SWAP_BLOCKS) a m) by (exists q, disk; unfold SWAP_BLOCKS; split; [done|lia]).
  destruct (Z.leb_spec (CurEntryNum a) k).
  { apply wpM_ret. split; [|done]. destruct (m !! k) eqn:Hm; [|done].
    destruct (ai_some _ _ _ _ _ _ _ Hi k l) as [? _]; [set_solver|done|lia]. }
  apply wpM_bind, wpM_ent; [eapply ainv_in_range; [done|lia]|].
  destruct (usedFlag (E a k)) eqn:Hu; cbn [negb].
  2: { apply wpM_ret. split; [|done]. destruct (m !! k) eqn:Hm; [|done].
       destruct (ai_some _ _ _ _ _ _ _ Hi k l) as [_ [? _]]; [set_solver|done|congruence]. }
  destruct (ainv_some_only _ _ _ _ _ Hi Hu) as [v Hv]. rewrite Hv.
  destruct (ai_some _ _ _ _ _ _ _ Hi k v) as [_ (_&Hl&He)]; [set_solver|done|].
  destruct (cacheFlag (E a k)) eqn:Hc.
  - apply wpM_bind. eapply wpM_mono; [|eapply UpdateTime_spec; [exact Hi|by apply (ai_cached _ _ _ _ _ _ _ Hi)]].
    intros r a' (_&(q'&Hq'&Hi')&Hre&Cs&Cn&Cb&Cm). cbn beta. destruct (counts_eq _ _ Cn) as [Cn' _].
    apply wpM_bind, wpM_ent; [eapply ainv_in_range; [exact Hi'|lia]|]. apply wpM_ret. split.
    + rewrite (Hre k). destruct He as [He _]. by destruct (E a k).
    + exists q', disk. split; [done|]. unfold demand, SWAP_BLOCKS in *. rewrite Hq', Cm. lia.
  - destruct He as [He _]. assert (Hkq : k ∉ q) by (rewrite <- (ai_cached _ _ _ _ _ _ _ Hi); congruence).
    apply wpM_bind. unfold wpM at 1, bm_read. rewrite (disk_read _ _ _ k v (ai_disk _ _ _ _ _ _ _ Hi) He).
    cbn. apply wpM_bind. rewrite isLongList_spec by done. destruct (Z.ltb_spec LENGTH_BORDER (len v)); cbn [negb].
    { by apply wpM_ret, wpM_ret. }
    eapply wpM_mono; [|eapply (AddInCache_close n a q disk m k v)]; [| |done|lia|lia|done|done].
    2: { apply (ainv_open _ _ _ _ _ _ _ k) in Hi. by rewrite union_empty_r_L in Hi. }
    intros r a' (e&Hrel&He'&Hra&q'&disk'&Hdk&Hi'&Hkq'&Hdem). apply wpM_ret. split; [done|]. exists q', disk'.
    split; [|done]. rewrite <- (insert_id m k v Hv). eapply ainv_close; [by rewrite union_empty_r_L|done| |].
    + rewrite He', Hrel. unfold entry_value. cbn. rewrite Hu. split_and!; try done; try lia. intros _. by rewrite Hdk.
    + rewrite He', Hrel. cbn. apply (ai_saved _ _ _ _ _ _ _ Hi); [set_solver|lia].
Qed.

(** Successive changes of one entry. *)
Lemma updE_updE a k f g : updE k f (updE k g a) = updE k (fun e => f (g e)) a.
Proof using Type.
  unfold updE at 1. rewrite E_updE, decide_True by done. unfold updE, set_array. cbn. by rewrite insert_insert_eq.
Qed.
Lemma updE_ext a k f g : f (E a k) = g (E a k) -> updE k f a = updE k g a.
Proof using Type. unfold updE. by intros ->. Qed.

(** The entry of [k] without its store. *)
Definition no_store (k : Z) (a : IVArray) : IVArray := updE k (setStore 0) a.

Lemma E_no_store k a x : E (no_store k a) x = if decide (x = k) then setStore 0 (E a k) else E a x.
Proof using Type. apply E_updE. Qed.

Lemma ainv_forget a q disk m k : ainv MAXC saved a {[k]} q disk m -> ainv MAXC saved (no_store k a) {[k]} q (delete k disk) m.
Proof using Type.
  clear HMAXC. intros Hi. eapply (ainv_entry a _ _ _ _ _ _ k); [exact Hi|set_solver|..]; try done;
    rewrite ?E_no_store, ?decide_True by done; try done.
  - intros x Hx. by rewrite E_no_store, decide_False.
  - apply (ai_pin _ _ _ _ _ _ _ Hi).
  - eapply disk_inv_ext; [|exact (disk_forget _ _ _ k (ai_disk _ _ _ _ _ _ _ Hi))]. intros x. cbn.
    rewrite E_no_store. unfold set_store. by case_decide.
  - intros x Hx. by rewrite lookup_delete_ne.
Qed.

(** The blocks of [k] become free. *)
Lemma free_open a q disk m k (Q : unit -> IVArray -> Prop) : ainv MAXC saved a {[k]} q disk m ->
  (forall bm, cur_block_num bm = cur_block_num (BM a) ->
     ainv MAXC saved (no_store k (set_BM bm a)) {[k]} q (delete k disk) m -> Q tt (set_BM bm a)) ->
  wpM (bm_free (store (E a k))) a Q.
Proof using Type.
  clear HMAXC. intros Hi HQ. apply wpM_bm_free.
  eapply wp_mono; [|exact (disk_free _ _ disk k (ai_disk _ _ _ _ _ _ _ Hi))].
  intros bm (Hd&Hc). apply HQ; [done|].
  eapply (ainv_entry a _ _ _ _ _ _ k); [exact Hi|set_solver|..]; try done;
    rewrite ?E_no_store, ?decide_True by done; try done.
  - intros x Hx. rewrite E_no_store, decide_False by done. done.
  - apply (ai_pin _ _ _ _ _ _ _ Hi).
  - eapply disk_inv_ext; [|exact Hd]. intros x. cbn. rewrite E_no_store. unfold set_store. by case_decide.
  - intros x Hx. by rewrite lookup_delete_ne.
Qed.

(** The value [v] of [k], which is not cached, goes to the file. *)
Lemma write_open n a q disk m k v (Q : Z -> IVArray -> Prop) : ainv MAXC saved (no_store k a) {[k]} q disk m -> k ∉ q ->
  0 < len v < LEN_LIMIT -> demand a q <= n -> n + value_cost (len v) < MAX_BLOCKS ->
  (forall s bm, s <> 0 -> let a' := updE k (setStore s) (set_BM bm a) in
    ainv MAXC saved a' {[k]} q (<[k := v]> disk) m -> demand a' q <= n + value_cost (len v) -> Q s (set_BM bm a)) ->
  wpM (bm_write v) a Q.
Proof using Type.
  clear HMAXC. intros Hi Hk Hv Hd Hn HQ. apply wpM_bm_write. pose proof (value_cost_pos (len v)); fold (value_cost (len v)) in *.
  unfold demand, SWAP_BLOCKS in Hd.
  eapply wpM_mono; [|eapply (disk_write _ _ disk k v); [apply (ai_disk _ _ _ _ _ _ _ Hi)|done|change (BM (no_store k a)) with (BM a); unfold value_cost in *; lia]].
  change (BM (no_store k a)) with (BM a).
  intros s bm (Hs&Hd'&Hc). cbn beta. apply HQ; [lia| |unfold demand, SWAP_BLOCKS, value_cost; cbn; lia].
  pose proof (ai_pin _ _ _ _ _ _ _ Hi k) as Hpin. rewrite E_no_store, decide_True in Hpin by done.
  eapply (ainv_entry (no_store k a) _ _ _ _ _ _ k); [exact Hi|set_solver|..]; try done;
    rewrite ?E_no_store, ?E_updE, ?decide_True by done; try done.
  - intros x Hx. rewrite E_updE, E_no_store, !decide_False by done. done.
  - eapply disk_inv_ext; [|exact Hd']. intros x. unfold set_store. rewrite E_updE. case_decide; [done|]. by rewrite E_no_store, decide_False.
  - intros x Hx. by rewrite lookup_insert_ne.
Qed.

(** Changes of the flags of [k]. *)
Lemma ainv_flags a X q disk m k f : ainv MAXC saved a X q disk m -> k ∈ X ->
  (forall e, store (f e) = store e /\ cacheFlag (f e) = cacheFlag e /\ CachePinFlag (f e) = CachePinFlag e /\
    prevID (f e) = prevID e /\ nextID (f e) = nextID e /\ value (f e) = value e) ->
  ainv MAXC saved (updE k f a) X q disk m.
Proof using Type.
  clear HMAXC. intros Hi HX Hf. destruct (Hf (E a k)) as (F1&F2&F3&F4&F5&F6).
  assert (HE : E (updE k f a) k = f (E a k)) by (by rewrite E_updE, decide_True).
  eapply (ainv_entry a _ _ _ _ _ _ k); [exact Hi|exact HX|..]; try done; rewrite ?HE; try done.
  - intros x Hx. by rewrite E_updE, decide_False.
  - rewrite F3. apply (ai_pin _ _ _ _ _ _ _ Hi).
  - eapply disk_inv_ext; [|apply (ai_disk _ _ _ _ _ _ _ Hi)]. intros x. cbn. rewrite E_updE. by case_decide; subst.
Qed.

(** Releasing the string of [k], which is not cached. *)
Lemma ainv_release a X q disk m k : ainv MAXC saved a X q disk m -> k ∈ X -> k ∉ q ->
  ainv MAXC saved (updE k release a) X q disk m.
Proof using Type.
  clear HMAXC. intros Hi HX Hk. eapply (ainv_entry a _ _ _ _ _ _ k); [exact Hi|exact HX|..]; try done.
  - intros x Hx. by rewrite E_updE, decide_False.
  - by rewrite E_updE, decide_True.
  - rewrite E_updE, decide_True by done. apply (ai_pin _ _ _ _ _ _ _ Hi).
  - eapply disk_inv_ext; [|apply (ai_disk _ _ _ _ _ _ _ Hi)]. intros x. cbn. rewrite E_updE. by case_decide; subst.
Qed.

(** The last statements of [insert] and [modify]. *)
Lemma finish_spec n a q disk m k v : ainv MAXC saved a {[k]} q disk m -> 0 <= k < CurEntryNum a -> demand a q <= n ->
  (forall e, e = setDirtyFlag true (setUsedFlag true (E a k)) -> entry_value disk k e v) ->
  wpM (let! _ := upd k (setUsedFlag true) in let! _ := upd k (setDirtyFlag true) in retM true) a
    (fun r a' => r = true /\ stands n a' (<[k := v]> m)).
Proof using Type.
  clear HMAXC. intros Hi Hk Hd He. assert (Hr : in_range a k) by (by eapply ainv_in_range).
  do 2 (apply wpM_bind, wpM_upd; [done|]). apply wpM_ret. split; [done|].
  exists q, disk. split; [|done]. eapply ainv_close; [|done| |].
  - rewrite union_empty_r_L. do 2 (apply ainv_flags; [|set_solver|done]). done.
  - rewrite !E_updE, !decide_True by done. by apply He.
  - by rewrite !E_updE, !decide_True by done.
Qed.

Lemma ainv_open1 a q disk m k : ainv MAXC saved a ∅ q disk m -> ainv MAXC saved a {[k]} q disk m.
Proof using Type. clear HMAXC. intros Hi. apply (ainv_open _ _ _ _ _ _ _ k) in Hi. by rewrite union_empty_r_L in Hi. Qed.

Lemma insert_spec n a m k v : stands n a m -> n + op_cost (len v) < MAX_BLOCKS -> 0 <= k < KEY_LIMIT ->
  0 < len v < LEN_LIMIT -> m !! k = None ->
  wpM (insert MAXC k v) a (fun r a' => r = true /\ stands (n + op_cost (len v)) a' (<[k := v]> m)).
Proof using HMAXC.
  intros (q&disk&Hi&Hd) Hn Hk Hv Hm. unfold insert. apply wpM_bind, wpM_gets.
  assert (Hun : usedFlag (E a k) = false) by (apply (ai_none _ _ _ _ _ _ _ Hi); [set_solver|done]).
  assert (Hkq : k ∉ q) by (by eapply (ainv_fresh a ∅)).
  apply wpM_bind.
  assert (Hused : wpM (if k <? CurEntryNum a then let! e := ent k in retM (usedFlag e) else retM false) a
    (fun r a' => r = false /\ a' = a)).
  { destruct (Z.ltb_spec k (CurEntryNum a)); [|by apply wpM_ret].
    apply wpM_bind, wpM_ent; [eapply ainv_in_range; [done|lia]|]. by apply wpM_ret. }
  eapply wpM_mono; [|exact Hused]. clear Hused. intros r a0 [-> ->]. cbn beta iota.
  destruct (Z.leb_spec MAX_KEY_NUM k); [unfold KEY_LIMIT, MAX_KEY_NUM in *; lia|]. apply wpM_bind.
  eapply (wpM_mono _ _ (fun _ a1 => ainv MAXC saved a1 ∅ q disk m /\ k < CurEntryNum a1 /\ demand a1 q <= n /\ E a1 k = E a k)).
  2: { destruct (Z.leb_spec (CurEntryNum a) k); [|by apply wpM_ret].
       apply wpM_bind, wpM_puts, wpM_puts. destruct (ainv_grow a q disk m k Hi Hk) as [? ?]; done. }
  intros [] a1 (Hi1&Hk1&Hd1&He1). cbn beta. assert (Hr1 : in_range a1 k) by (eapply ainv_in_range; [done|lia]).
  apply ainv_open1 with (k := k) in Hi1. rewrite isLongList_spec by done. apply wpM_bind. unfold op_cost in *; pose proof (value_cost_pos (len v)).
  destruct (Z.ltb_spec LENGTH_BORDER (len v)).
  - apply wpM_bind, wpM_upd; [done|]. apply wpM_bind.
    assert (Hi2 : ainv MAXC saved (updE k release a1) {[k]} q disk m) by (apply ainv_release; [done|set_solver|done]).
    apply ainv_forget in Hi2. eapply write_open; [exact Hi2|done|done|exact Hd1|unfold SWAP_BLOCKS in *; lia|].
    intros s bm Hs a2 Hi3 Hd3. rewrite insert_delete_eq in Hi3. destruct (Z.eqb_spec s 0); [done|]. apply wpM_bind, wpM_upd; [done|]. apply wpM_ret.
    cbn [negb]. eapply finish_spec; [exact Hi3|cbn; lia|etrans; [exact Hd3|unfold SWAP_BLOCKS; lia]|].
    intros e ->. unfold entry_value. unfold a2. rewrite E_updE, decide_True by done.
    change (E (set_BM bm ?b) k) with (E b k). rewrite E_updE, decide_True by done. cbn.
    destruct (cacheFlag (E a1 k)) eqn:Hc; [|by rewrite lookup_insert_eq].
    by apply (ai_cached _ _ _ _ _ _ _ Hi1) in Hc.
  - apply wpM_bind. eapply wpM_mono; [|eapply (AddInCache_close n a1 q disk m k v Hi1); [done|lia|lia|done|lia]].
    intros r a2 (e&Hrel&He2&Hra&q'&disk'&Hdk&Hi'&Hkq'&Hdem). apply wpM_ret. cbn [negb].
    eapply finish_spec; [exact Hi'|done|lia|].
    intros e' ->. rewrite He2, Hrel. unfold entry_value. cbn. split_and!; try done; lia.
Qed.

Lemma ainv_value a q disk m k v : ainv MAXC saved a ∅ q disk m -> m !! k = Some v ->
  in_range a k /\ 0 <= k < CurEntryNum a /\ usedFlag (E a k) = true.
Proof using Type.
  clear HMAXC. intros Hi Hv. destruct (ai_some _ _ _ _ _ _ _ Hi k v) as [Hr (Hu&_)]; [set_solver|done|].
  split_and!; try done; try lia. by eapply ainv_in_range.
Qed.

(** A pinned entry would be unpinned; none is. *)
Lemma unpin_spec a k (Q : unit -> IVArray -> Prop) e : CachePinFlag e = false -> Q tt a ->
  wpM (if CachePinFlag e then upd k (setCachePinFlag false) else retM tt) a Q.
Proof using Type. clear HMAXC. intros ->. done. Qed.

Lemma demand_le a a' q q' n : demand a q <= n -> cur_block_num (BM a') = cur_block_num (BM a) ->
  (length q' <= length q)%nat -> demand a' q' <= n.
Proof using Type. clear HMAXC. unfold demand, SWAP_BLOCKS. intros Hd -> Hl. lia. Qed.

(** [RemoveFromLRUQueue] and a change [a3] of the entry and of the size of the
    cache that follows it. *)
Lemma leave_queue a X q disk m k : ainv MAXC saved a X q disk m -> k ∈ X -> k ∈ q ->
  wpM (RemoveFromLRUQueue k) a (fun _ a2 =>
    E a2 k = setNext (-1) (setPrev (-1) (setCacheFlag false (E a k))) /\ same_core a a2 /\
    (forall x, store (E a2 x) = store (E a x)) /\
    exists q', (k ∉ q') /\ (length q' <= length q)%nat /\ forall a3 disk',
      (forall x, x <> k -> E a3 x = E a2 x) -> cacheFlag (E a3 k) = false -> CachePinFlag (E a3 k) = false ->
      head_next a3 = head_next a2 -> cache_tail_id a3 = cache_tail_id a2 ->
      CurCacheSize a3 = CurCacheSize a ⊟ bstr_len (E a k) ->
      counts a3 = counts a -> block_num a3 = block_num a ->
      disk_inv (BM a3) (fun x => store (E a3 x)) disk' -> (forall x, x <> k -> disk' !! x = disk !! x) ->
      ainv MAXC saved a3 X q' disk' m).
Proof using HMAXC.
  intros Hi HkX Hk. apply list_elem_of_split in Hk as (pre&post&->).
  eapply wpM_mono; [|exact (RemoveFromLRUQueue_spec _ _ _ _ _ _ _ _ _ Hi)].
  intros [] a2 (Hq2&Hre2&HE2&Hcore). split_and!; [done|done| |].
  { intros x. destruct (decide (x = k)) as [->|]; [by rewrite HE2|]. rewrite (Hre2 x) by done. by destruct (E a x). }
  assert (Hk4 : k ∉ pre ++ post).
  { pose proof (qo_nodup _ _ _ _ (ai_queue _ _ _ _ _ _ _ Hi)) as Hnd. rewrite <- Permutation_middle in Hnd.
    by apply NoDup_cons in Hnd as [? _]. }
  exists (pre ++ post). split_and!; [done|rewrite !length_app; cbn; lia|].
  intros a3 disk' HE Hc Hp Hh Ht Hs Hn Hb Hd Hdx. eapply (ainv_leave a a3 _ pre k post); [exact Hi|done|..]; try done.
  - rewrite Hh, Ht. eapply queue_ext; [|exact Hq2]. intros x Hx. by rewrite HE by (intros ->; done).
  - intros x Hx. rewrite HE by done. by apply Hre2.
Qed.

Lemma remove_spec n a m k v : stands n a m -> m !! k = Some v ->
  wpM (remove k) a (fun r a' => r = true /\ stands n a' (delete k m)).
Proof using HMAXC.
  intros (q&disk&Hi&Hd) Hv. destruct (ainv_value _ _ _ _ _ _ Hi Hv) as (Hr&Hk&Hu). apply ainv_open1 with (k := k) in Hi.
  unfold remove. apply wpM_bind, wpM_ent; [done|]. rewrite Hu. cbn [negb]. apply wpM_bind.
  eapply free_open; [exact Hi|]. intros bm Hbm Hi1. do 3 (apply wpM_bind, wpM_upd; [done|]).
  apply wpM_bind, wpM_ent; [done|]. set (a1 := updE k (setStore 0) _).
  assert (Ha1 : a1 = updE k (setDirtyFlag true) (updE k (setUsedFlag false) (no_store k (set_BM bm a)))).
  { unfold a1, no_store. rewrite !updE_updE. by apply updE_ext. }
  assert (Hi2 : ainv MAXC saved a1 {[k]} q (delete k disk) m).
  { rewrite Ha1. do 2 (apply ainv_flags; [|set_solver|done]). done. }
  assert (HE1 : E a1 k = setStore 0 (setDirtyFlag true (setUsedFlag false (E a k)))).
  { unfold a1. rewrite !E_updE, !decide_True by done. done. }
  clearbody a1. assert (Hr1 : in_range a1 k) by (by rewrite Ha1).
  assert (Hc1 : cur_block_num (BM a1) = cur_block_num (BM a)) by (by rewrite Ha1). clear Ha1.
  pose proof (ai_pin _ _ _ _ _ _ _ Hi2 k) as Hpin. apply wpM_bind. destruct (cacheFlag (E a1 k)) eqn:Hc.
  - apply (ai_cached _ _ _ _ _ _ _ Hi2) in Hc.
    apply wpM_bind. eapply wpM_mono; [|eapply leave_queue; [exact Hi2|set_solver|done]].
    intros [] a2 (HE2&(Cs&Cn&Cb&Cm)&Hst&q'&Hkq&Hlen&Hgo). cbn beta.
    assert (Hr2 : in_range a2 k) by (unfold in_range; by rewrite Cb).
    apply wpM_bind, wpM_ent; [done|]. apply wpM_bind, unpin_spec; [by rewrite HE2|].
    apply wpM_bind, wpM_puts, wpM_upd; [done|]. apply wpM_bind, wpM_ent; [done|].
    set (a3 := updE k (setCacheFlag false) _).
    assert (HE3 : E a3 k = E a2 k).
    { unfold a3. rewrite E_updE, decide_True by done. change (E (set_cache_size ?c ?b) k) with (E b k). by rewrite HE2. }
    apply wpM_bind, unpin_spec; [by rewrite HE3, HE2|]. apply wpM_bind, wpM_upd; [done|]. apply wpM_ret.
    assert (HE4 : E (updE k release a3) k = release (E a2 k)) by (by rewrite E_updE, decide_True, HE3).
    assert (HE5 : forall x, x <> k -> E (updE k release a3) x = E a2 x).
    { intros x Hx. unfold a3. rewrite !E_updE, !decide_False by done. done. }
    split; [done|]. exists q', (delete k disk). split; [|eapply demand_le; [exact Hd|unfold a3; cbn; by rewrite Cm|done]].
    apply ainv_close_none; [|done|by rewrite HE4, HE2, HE1|by rewrite lookup_delete_eq|by rewrite HE4, HE2, HE1].
    rewrite union_empty_r_L. apply Hgo; rewrite ?HE4, ?HE2; try done.
    + unfold a3. cbn. by rewrite Cs, HE2.
    + change (BM (updE k release a3)) with (BM a2). rewrite Cm.
      eapply disk_inv_ext; [|apply (ai_disk _ _ _ _ _ _ _ Hi2)]. intros x. cbn. rewrite <- Hst.
      destruct (decide (x = k)) as [->|Hx]; [by rewrite HE4|by rewrite HE5].
  - apply wpM_ret. apply wpM_bind, wpM_ent; [done|]. apply wpM_bind, unpin_spec; [done|].
    apply wpM_bind, wpM_upd; [done|]. apply wpM_ret. split; [done|]. exists q, (delete k disk).
    assert (Hkq : k ∉ q) by (rewrite <- (ai_cached _ _ _ _ _ _ _ Hi2); congruence).
    split; [|by eapply demand_le]. apply ainv_close_none; [|done|by rewrite E_updE, decide_True, HE1|by rewrite lookup_delete_eq|by rewrite E_updE, decide_True, HE1].
    rewrite union_empty_r_L. apply ainv_release; [done|set_solver|done].
Qed.

(** The new value of [k], whose old one is gone, goes to the file or to the
    cache. *)
Lemma place_value_spec n a q disk m k v : ainv MAXC saved (no_store k a) {[k]} q disk m -> k ∉ q ->
  0 <= k < CurEntryNum a -> 0 < len v < LEN_LIMIT -> demand a q <= n -> n + op_cost (len v) < MAX_BLOCKS ->
  value (E a k) = None ->
  wpM (place_value MAXC k v) a (fun r a' => r = true /\ 0 <= k < CurEntryNum a' /\ exists q' disk',
    ainv MAXC saved a' {[k]} q' disk' m /\ demand a' q' <= n + op_cost (len v) /\
    entry_value disk' k (setDirtyFlag true (setUsedFlag true (E a' k))) v).
Proof using HMAXC.
  intros Hi Hk Hr Hv Hd Hn Hnv. assert (Hra : in_range a k) by exact (ainv_in_range _ _ _ _ _ _ _ _ Hi Hr).
  unfold place_value, op_cost in *. pose proof (value_cost_pos (len v)). rewrite isLongList_spec by done. destruct (Z.ltb_spec LENGTH_BORDER (len v)).
  - apply wpM_bind. eapply write_open; [exact Hi|done|done|exact Hd|unfold SWAP_BLOCKS in *; lia|].
    intros s bm Hs a1 Hi1 Hd1. destruct (Z.eqb_spec s 0); [done|]. do 2 (apply wpM_bind, wpM_upd; [done|]). apply wpM_ret.
    fold a1. assert (Hc : cacheFlag (E a1 k) = false).
    { apply not_true_is_false. by rewrite (ai_cached _ _ _ _ _ _ _ Hi1). }
    assert (Ha2 : forall x, E (updE k (setCacheFlag false) a1) x = E a1 x).
    { intros x. rewrite E_updE. case_decide as Hx; [|done]. rewrite Hx. destruct (E a1 k). cbn in *. by subst. }
    split_and!; [done|lia|cbn; lia|]. exists q, (<[k := v]> disk). split_and!.
    + eapply (ainv_entry a1 _ _ _ _ _ _ k); [exact Hi1|set_solver|..]; try done; rewrite ?Ha2; try done.
      * apply (ai_pin _ _ _ _ _ _ _ Hi1).
      * eapply disk_inv_ext; [|apply (ai_disk _ _ _ _ _ _ _ Hi1)]. intros x. cbn. by rewrite Ha2.
    + etrans; [exact Hd1|unfold SWAP_BLOCKS; lia].
    + rewrite Ha2. unfold entry_value. cbn. rewrite Hc, lookup_insert_eq. unfold a1.
      rewrite E_updE, decide_True by done. done.
  - apply wpM_bind, wpM_upd; [done|]. apply wpM_bind. fold (no_store k a).
    eapply wpM_mono; [|eapply (AddInCache_close n _ q disk m k v Hi); [done|done|lia|done|lia]].
    intros r a2 (e&Hrel&He2&Hra2&q'&disk'&Hdk&Hi'&Hkq'&Hdem). apply wpM_ret. split_and!; [done|lia|lia|].
    exists q', disk'. split_and!; [done|lia|].
    rewrite He2, Hrel. unfold entry_value. cbn. split_and!; try done; lia.
Qed.

Lemma modify_spec n a m k v : stands n a m -> n + op_cost (len v) < MAX_BLOCKS -> 0 < len v < LEN_LIMIT -> is_Some (m !! k) ->
  wpM (modify MAXC k v) a (fun r a' => r = true /\ stands (n + op_cost (len v)) a' (<[k := v]> m)).
Proof using HMAXC.
  intros (q&disk&Hi&Hd) Hn Hlv [w Hv]. destruct (ainv_value _ _ _ _ _ _ Hi Hv) as (Hr&Hk&Hu).
  apply ainv_open1 with (k := k) in Hi.
  unfold modify. apply wpM_bind, wpM_ent; [done|]. rewrite Hu. cbn [negb].
  apply wpM_bind, wpM_upd; [done|]. set (a1 := updE k (setDirtyFlag true) a).
  assert (Hi1 : ainv MAXC saved a1 {[k]} q disk m) by (apply ainv_flags; [done|set_solver|done]).
  apply wpM_bind, wpM_ent; [done|]. apply wpM_bind.
  eapply (wpM_mono _ _ (fun _ a2 => exists q2 disk2, ainv MAXC saved (no_store k a2) {[k]} q2 disk2 m /\ (k ∉ q2) /\
    counts a2 = counts a /\ demand a2 q2 <= n /\ value (E a2 k) = None)).
  { intros [] a2 (q2&disk2&Hi2&Hk2&Hc2&Hd2&Hv2). destruct (counts_eq _ _ Hc2) as [Hn2 _]. apply wpM_bind.
    eapply wpM_mono; [|eapply (place_value_spec n a2); [exact Hi2|done|lia|done|done|done|done]].
    intros r a3 (->&Hk3&q3&disk3&Hi3&Hd3&Hev). cbn [negb]. eapply finish_spec; [exact Hi3|done|done|]. by intros e ->. }
  pose proof (ai_pin _ _ _ _ _ _ _ Hi1 k) as Hpin. destruct (cacheFlag (E a1 k)) eqn:Hc.
  - apply (ai_cached _ _ _ _ _ _ _ Hi1) in Hc. 
    apply wpM_bind. eapply wpM_mono; [|eapply leave_queue; [exact Hi1|set_solver|done]].
    intros [] a2 (HE2&(Cs&Cn&Cb&Cm)&Hst&q'&Hkq&Hlen&Hgo). cbn beta.
    assert (Hr2 : in_range a2 k) by (unfold in_range; by rewrite Cb).
    apply wpM_bind, wpM_ent; [done|]. apply wpM_bind, unpin_spec; [by rewrite HE2|].
    apply wpM_bind, wpM_ent; [done|]. apply wpM_bind, wpM_bm_free. rewrite Hst, Cm.
    eapply wp_mono; [|exact (disk_free _ _ disk k (ai_disk _ _ _ _ _ _ _ Hi1))].
    intros bm (Hdf&Hcf). apply wpM_bind, wpM_upd; [done|]. apply wpM_puts. exists q', (delete k disk).
    split_and!; [|done|done| |].
    + apply Hgo; try done; rewrite ?E_no_store, ?decide_True by done.
      * intros x Hx. rewrite E_no_store, decide_False by done. change (E (set_cache_size ?c ?b) x) with (E b x).
        by rewrite E_updE, decide_False.
      * change (E (set_cache_size ?c ?b) k) with (E b k). rewrite E_updE, decide_True by done. change (E (set_BM bm a2) k) with (E a2 k). by rewrite HE2.
      * change (E (set_cache_size ?c ?b) k) with (E b k). rewrite E_updE, decide_True by done. change (E (set_BM bm a2) k) with (E a2 k). by rewrite HE2.
      * cbn. by rewrite Cs, HE2.
      * eapply disk_inv_ext; [|exact Hdf]. intros x. unfold set_store. rewrite E_no_store. case_decide; [done|].
        change (E (set_cache_size ?c ?b) x) with (E b x). rewrite E_updE, decide_False by done. apply Hst.
      * intros x Hx. by rewrite lookup_delete_ne.
    + by eapply demand_le.
    + change (E (set_cache_size ?c ?b) k) with (E b k). by rewrite E_updE, decide_True.
  - assert (Hkq : k ∉ q) by (rewrite <- (ai_cached _ _ _ _ _ _ _ Hi1); congruence).
    apply wpM_bind. eapply free_open; [exact Hi1|]. intros bm Hbm Hi2. apply wpM_upd; [done|].
    exists q, (delete k disk). split_and!; [|done|done|by eapply demand_le|by rewrite E_updE, decide_True].
    assert (Heq : no_store k (updE k release (set_BM bm a1)) = updE k release (no_store k (set_BM bm a1))).
    { unfold no_store. rewrite !updE_updE. by apply updE_ext. }
    rewrite Heq. apply ainv_release; [done|set_solver|done].
Qed.
End Ops.
End Format.
