(* ===== verification/IVArrayStore.v ===== *)
(** * Saved arrays are opened with the same values

    The free runs survive [SaveFreeBlockList], and an array that is saved and
    opened again stands for the same map. *)

From S2P Require Import Prelude ValueStore Version BlockManager BlockManagerSpec IVArray IVArraySpec IVArrayCache IVArrayOps.

(** ** The free runs *)

(** The runs [l] are in the cells from [o] on. *)
Fixpoint runs_at (f : gmap Z Z) (o : Z) (l : list (Z * Z)) : Prop :=
  match l with
  | [] => f !! o = Some 0
  | r :: l' => f !! o = Some r.1 /\ f !! (o + 1) = Some r.2 /\ runs_at f (o + 2) l'
  end.

Lemma put_runs_frame l : forall o f x, x < o -> (foldl put_run (o, f) l).2 !! x = f !! x.
Proof.
  induction l as [|r l IH]; intros o f x Hx; [done|]. cbn [foldl put_run]. rewrite IH by lia.
  by rewrite !lookup_insert_ne by lia.
Qed.

Lemma put_runs_at l : forall o f, let '(o', f') := foldl put_run (o, f) l in runs_at (<[o' := 0]> f') o l /\ o <= o'.
Proof.
  induction l as [|r l IH]; intros o f; [cbn; split; [by rewrite lookup_insert_eq|lia]|].
  cbn [foldl put_run]. specialize (IH (o + 2) (<[o + 1 := r.2]> (<[o := r.1]> f))).
  pose proof (put_runs_frame l (o + 2) (<[o + 1 := r.2]> (<[o := r.1]> f))) as Hfr.
  destruct (foldl put_run _ l) as [o' f']. destruct IH as [IH Ho]. cbn [snd] in Hfr.
  split; [|lia]. cbn [runs_at]. split_and!; [| |done].
  - rewrite lookup_insert_ne, Hfr, lookup_insert_ne by lia. by rewrite lookup_insert_eq.
  - rewrite lookup_insert_ne, Hfr by lia. by rewrite lookup_insert_eq.
Qed.

(** The fuel of the reading loop. *)
Lemma runs_at_size f l : forall o, runs_at f o l -> (length l < size f)%nat.
Proof.
  revert f. induction l as [|r l IH]; intros f o Hr.
  - cbn in Hr. rewrite <- (insert_id f o 0 Hr), <- insert_delete_eq, map_size_insert_None by apply lookup_delete_eq. cbn. lia.
  - destruct Hr as (H1&_&H2).
    assert (Hd : forall l f o x, x < o -> runs_at f o l -> runs_at (delete x f) o l).
    { clear. induction l as [|r l IH]; intros f o x Hx; cbn [runs_at]; [by rewrite lookup_delete_ne by lia|].
      rewrite !lookup_delete_ne by lia. intros (?&?&?). split_and!; [done|done|]. apply IH; [lia|done]. }
    apply (Hd l f (o + 2) o ltac:(lia)) in H2. apply IH in H2.
    rewrite <- (insert_id f o r.1 H1), <- insert_delete_eq, map_size_insert_None by apply lookup_delete_eq. cbn. lia.
Qed.

Lemma read_runs_at f l : forall fuel o bm t, runs_at f o l -> t = default 0 (fst <$> head l) ->
  Forall (fun r => 1 <= r.1) l -> NoDup l.*1 -> (forall r, r ∈ l -> index_len_map bm !! r.1 = None) ->
  (length l < fuel)%nat ->
  exists bm', read_runs fuel f (o + 1) t bm = Some bm' /\
    (forall i n, index_len_map bm' !! i = Some n <-> (i, n) ∈ l \/ index_len_map bm !! i = Some n) /\
    (forall i n, (n, i) ∈ len_index_map bm' <-> (i, n) ∈ l \/ (n, i) ∈ len_index_map bm) /\
    ValueFile bm' = ValueFile bm /\ BlockToWrite bm' = BlockToWrite bm /\ cur_block_num bm' = cur_block_num bm.
Proof.
  induction l as [|[i n] l IH]; intros fuel o bm t Hr -> Hpos Hnd Hbm Hf.
  - destruct fuel as [|fuel]; [cbn in Hf; lia|]. exists bm. cbn. split_and!; try done; set_solver.
  - destruct fuel as [|fuel]; [cbn in Hf; lia|]. cbn [length] in Hf. destruct Hr as (H1&H2&H3). cbn [fst snd] in *.
    apply Forall_cons in Hpos as [Hi Hpos]. cbn [fmap list_fmap fst] in Hnd. apply NoDup_cons in Hnd as [Hil Hnd].
    cbn [read_runs head fmap option_fmap option_map default from_option id fst].
    destruct (Z.ltb_spec 0 i); [|cbn in Hi; lia]. rewrite H2. cbn [mbind option_bind].
    pose proof (Hbm (i, n) ltac:(set_solver)) as Hb0. cbn [fst] in Hb0. unfold insert_run. rewrite Hb0.
    replace (o + 1 + 2) with (o + 2 + 1) by lia. replace (o + 1 + 1) with (o + 2) by lia.
    destruct (IH fuel (o + 2) (add_run i n bm) (default i (f !! (o + 2)))) as (bm'&Hrun&Hm&Hs&Hrest); try done.
    + destruct l as [|r l]; cbn [runs_at] in H3; [by rewrite H3|]. destruct H3 as [-> _]. done.
    + intros r Hr. cbn. rewrite lookup_insert_ne; [apply Hbm; set_solver|]. intros ->. apply Hil.
      by apply (list_elem_of_fmap_2 fst).
    + lia.
    + exists bm'. split_and!; try apply Hrest; [done| |].
      * intros j k. rewrite Hm. cbn. rewrite lookup_insert_Some, elem_of_cons.
        split; [naive_solver|].
        intros [[[= -> ->]|?]|Hj]; [tauto|tauto|]. right; right. split; [|done]. intros ->. congruence.
      * intros j k. rewrite Hs. cbn. rewrite elem_of_union, elem_of_singleton, elem_of_cons. naive_solver.
Qed.

Lemma save_free_spec bm f : bm_inv bm ->
  IVBlockManager_open (SaveFreeBlockList bm f) (ValueFile bm) = Some (set_BlockToWrite [] bm).
Proof.
  intros Hi. unfold IVBlockManager_open, SaveFreeBlockList.
  set (l := merge_sort key_le (map_to_list (index_len_map bm))).
  assert (Hp : l ≡ₚ map_to_list (index_len_map bm)) by apply merge_sort_Permutation.
  assert (Hin : forall i n, (i, n) ∈ l <-> index_len_map bm !! i = Some n).
  { intros i n. by rewrite Hp, elem_of_map_to_list. }
  clearbody l.
  pose proof (put_runs_at l 1 (<[0 := cur_block_num bm]> f)) as Hr.
  pose proof (put_runs_frame l 1 (<[0 := cur_block_num bm]> f) 0 ltac:(lia)) as H0.
  destruct (foldl put_run _ l) as [o g]. destruct Hr as [Hr Ho]. cbn [snd] in H0.
  assert (Hhd : <[o := 0]> g !! 0 = Some (cur_block_num bm)).
  { rewrite lookup_insert_ne by lia. by rewrite H0, lookup_insert_eq. }
  rewrite Hhd. cbn [mbind option_bind].
  destruct (read_runs_at (<[o := 0]> g) l (S (size (<[o := 0]> g))) 1 (mk_BM ∅ ∅ (ValueFile bm) [] (cur_block_num bm))
    (default 0 (<[o := 0]> g !! 1))) as (bm'&Hrun&Hm&Hs&Hv&Hb&Hc).
  - done.
  - destruct l as [|r l']; cbn [runs_at] in Hr; [by rewrite Hr|]. destruct Hr as [-> _]. done.
  - apply Forall_forall. intros [i n] Hir. apply Hin in Hir. cbn. apply (bi_runs _ Hi) in Hir. lia.
  - rewrite Hp. apply NoDup_fst_map_to_list.
  - intros r _. cbn. apply lookup_empty.
  - apply runs_at_size in Hr. lia.
  - change (1 + 1) with 2 in Hrun. rewrite Hrun. f_equal. destruct bm' as [m1 m2 m3 m4 m5], bm as [n1 n2 n3 n4 n5]. cbn in *. subst.
    unfold set_BlockToWrite. cbn. f_equal.
    + apply map_eq. intros i. apply option_eq. intros n. rewrite Hm, Hin, lookup_empty. naive_solver.
    + apply set_eq. intros [n i]. rewrite Hs, Hin. rewrite (bi_sets _ Hi). cbn. set_solver.
Qed.

(** ** The index file *)

Section Save.
Context {BF : BlockFormat} (MAXC : Z).

(** A cell of an entry that is under change is written. *)
Lemma ainv_resave f a q disk m i s : ainv MAXC f a {[i]} q disk m -> 0 <= i ->
  ainv MAXC (<[i + 1 := s]> f) a {[i]} q disk m.
Proof.
  intros [H1 H2 H3 H4 H5 H6 H7 H8 H9 H10 (H11&H12&H13) H14] Hi. split; try done.
  - intros k Hk Hk0 Hd. assert (k <> i) by set_solver. rewrite lookup_insert_ne by lia. auto.
  - split_and!; [done|done|]. intros Hc. rewrite lookup_insert_ne by lia. auto.
Qed.

(** The entry of [i] is written to the file. *)
Lemma ainv_mark f a a' q disk disk' m i s : ainv MAXC f a ∅ q disk m -> 0 <= i ->
  E a' i = setDirtyFlag false (setStore s (E a i)) -> (forall x, x <> i -> E a' x = E a x) ->
  head_next a' = head_next a -> cache_tail_id a' = cache_tail_id a -> CurCacheSize a' = CurCacheSize a ->
  counts a' = counts a -> block_num a' = block_num a ->
  disk_inv (BM a') (fun x => store (E a' x)) disk' -> (forall x, x <> i -> disk' !! x = disk !! x) ->
  disk' !! i = m !! i -> ainv MAXC (<[i + 1 := s]> f) a' ∅ q disk' m.
Proof.
  intros Hi Hp HE Hx H1 H2 H3 H4 H5 Hd Hdx Hdi. destruct (counts_eq _ _ H4) as [Hn _].
  assert (Hi' : ainv MAXC (<[i + 1 := s]> f) a' {[i]} q disk' m).
  { apply ainv_resave; [|done]. eapply (ainv_entry MAXC f a _ _ _ _ _ _ i); try done.
    - by apply ainv_open1.
    - set_solver.
    - intros _. by rewrite HE.
    - by rewrite HE.
    - rewrite HE. apply (ai_pin _ _ _ _ _ _ _ Hi). }
  assert (Hsv : dirtyFlag (E a' i) = false -> <[i + 1 := s]> f !! (i + 1) = Some (store (E a' i))).
  { intros _. by rewrite HE, lookup_insert_eq. }
  rewrite <- (union_empty_r_L ({[i]} : gset Z)) in Hi'. destruct (m !! i) as [v|] eqn:Hm.
  - destruct (ai_some _ _ _ _ _ _ _ Hi i v) as [Hr (Hu&Hl&He)]; [set_solver|done|].
    rewrite <- (insert_id m i v Hm). eapply ainv_close; [exact Hi'|by rewrite Hn| |done].
    rewrite HE. unfold entry_value. cbn. split_and!; [done|lia|lia|].
    destruct (cacheFlag (E a i)); [|tauto]. split_and!; [tauto|tauto|done].
  - destruct (ai_none _ _ _ _ _ _ _ Hi i) as [Hu _]; [set_solver|done|].
    rewrite <- (delete_id m i Hm). eapply ainv_close_none; [exact Hi'| |by rewrite HE|done|done].
    eapply (ainv_fresh MAXC f a ∅); [exact Hi|set_solver|done].
Qed.

(** Blocks that saving the entries [ids] takes at most. *)
Definition save_cost (q ids : list Z) : Z := SWAP_BLOCKS * len (filter (fun i => i ∈ q) ids).

Lemma save_cost_cons q i ids : save_cost q (i :: ids) = save_cost q [i] + save_cost q ids.
Proof.
  unfold save_cost. rewrite !filter_cons. cbn [filter list_filter]. case_decide; cbn [length]; lia.
Qed.

Lemma save_cost_pos q ids : 0 <= save_cost q ids.
Proof. unfold save_cost, SWAP_BLOCKS. lia. Qed.

Lemma save_entry_spec f a q disk m i : ainv MAXC f a ∅ q disk m -> 0 <= i < CurEntryNum a ->
  cur_block_num (BM a) + save_cost q [i] < MAX_BLOCKS ->
  wpM (save_entry i f) a (fun f' a' => exists disk', ainv MAXC f' a' ∅ q disk' m /\ counts a' = counts a /\
    dirtyFlag (E a' i) = false /\ (forall x, x <> i -> E a' x = E a x) /\
    cur_block_num (BM a') <= cur_block_num (BM a) + save_cost q [i]).
Proof.
  intros Hi Hr Hc. assert (Hri : in_range a i) by (by eapply ainv_in_range). pose proof (save_cost_pos q [i]).
  unfold save_entry. apply wpM_bind, wpM_ent; [done|]. destruct (dirtyFlag (E a i)) eqn:Hd.
  2: { apply wpM_ret. exists disk. split_and!; try done. lia. }
  set (Q := fun f' a' => exists disk', ainv MAXC f' a' ∅ q disk' m /\ _).
  assert (Hkeep : value (E a i) = None \/ usedFlag (E a i) = false -> disk !! i = m !! i).
  { intros Hv. destruct (m !! i) as [v|] eqn:Hm; [|by apply (ai_none _ _ _ _ _ _ _ Hi); [set_solver|]].
    destruct (ai_some _ _ _ _ _ _ _ Hi i v) as [_ (Hu&_&He)]; [set_solver|done|].
    destruct (cacheFlag (E a i)); [|tauto]. destruct Hv, He as [He _]; congruence. }
  assert (Hnow : disk !! i = m !! i -> wpM (let! _ := retM tt in let! e := ent i in let! _ := upd i (setDirtyFlag false) in
    retM (<[i + 1 := store e]> f)) a Q).
  { intros Hdm. apply wpM_bind, wpM_ret, wpM_bind, wpM_ent; [done|]. apply wpM_bind, wpM_upd; [done|]. apply wpM_ret.
    exists disk. split_and!; [|done|by rewrite E_updE, decide_True| |cbn; lia].
    - eapply (ainv_mark f a); [exact Hi|lia| | |done..| |done|done].
      + rewrite E_updE, decide_True by done. by destruct (E a i).
      + intros x Hx. by rewrite E_updE, decide_False.
      + eapply disk_inv_ext; [|apply (ai_disk _ _ _ _ _ _ _ Hi)]. intros x. cbn. rewrite E_updE. by case_decide; subst.
    - intros x Hx. by rewrite E_updE, decide_False. }
  destruct (value (E a i)) as [str|] eqn:Hval; [|apply Hnow; auto].
  destruct (usedFlag (E a i)) eqn:Hu; [|apply Hnow; auto].
  destruct (ainv_some_only _ _ _ _ _ _ _ Hi Hu) as [v Hv].
  destruct (ai_some _ _ _ _ _ _ _ Hi i v) as [_ (_&Hl&He)]; [set_solver|done|].
  destruct (cacheFlag (E a i)) eqn:Hca; [|destruct He; congruence]. destruct He as (He&Hsm&_).
  assert (str = v) as -> by congruence. apply (ai_cached _ _ _ _ _ _ _ Hi) in Hca.
  assert (Hcost : save_cost q [i] = SWAP_BLOCKS).
  { unfold save_cost. rewrite filter_cons, decide_True by done. cbn. unfold SWAP_BLOCKS. lia. }
  pose proof (swap_blocks (len v) ltac:(lia)). rewrite Hcost in *.
  apply wpM_bind, wpM_bind, wpM_bm_write.
  eapply wpM_mono; [|eapply (disk_write _ _ disk i v); [apply (ai_disk _ _ _ _ _ _ _ Hi)|done|lia]].
  intros s bm (Hs&Hd'&Hcur). apply wpM_upd; [done|]. apply wpM_bind, wpM_ent; [done|].
  apply wpM_bind, wpM_upd; [done|]. apply wpM_ret. unfold Q. exists (<[i := v]> disk).
  set (a' := updE i (setDirtyFlag false) _).
  assert (HE : E a' i = setDirtyFlag false (setStore s (E a i))).
  { unfold a'. rewrite !E_updE, !decide_True by done. done. }
  assert (HEx : forall x, x <> i -> E a' x = E a x).
  { intros x Hx. unfold a'. rewrite !E_updE, !decide_False by done. done. }
  split_and!; [|done|by rewrite HE|done|cbn; lia].
  rewrite !E_updE, !decide_True by done. cbn [store setStore].
  eapply (ainv_mark f a); [exact Hi|lia|exact HE|done..| | |by rewrite lookup_insert_eq, Hv].
  - eapply disk_inv_ext; [|exact Hd']. intros x. unfold set_store. case_decide; [subst; by rewrite HE|by rewrite HEx].
  - intros x Hx. by rewrite lookup_insert_ne.
Qed.

Lemma save_loop_spec ids : NoDup ids -> forall f a q disk m, ainv MAXC f a ∅ q disk m ->
  (forall i, i ∈ ids -> 0 <= i < CurEntryNum a) -> cur_block_num (BM a) + save_cost q ids < MAX_BLOCKS ->
  wpM (save_loop ids f) a (fun f' a' => exists disk', ainv MAXC f' a' ∅ q disk' m /\ counts a' = counts a /\
    (forall x, x ∈ ids -> dirtyFlag (E a' x) = false) /\ (forall x, x ∉ ids -> E a' x = E a x) /\
    cur_block_num (BM a') <= cur_block_num (BM a) + save_cost q ids).
Proof.
  induction 1 as [|i ids Hni Hnd IH]; intros f a q disk m Hi Hr Hc; cbn [save_loop].
  { apply wpM_ret. exists disk. split_and!; try done; [set_solver|]. unfold save_cost. cbn. lia. }
  rewrite save_cost_cons in *. pose proof (save_cost_pos q ids).
  apply wpM_bind. eapply wpM_mono; [|eapply (save_entry_spec f a q disk m i Hi); [apply Hr; set_solver|lia]].
  intros f1 a1 (disk1&Hi1&Hc1&Hd1&Hx1&Hcur1). destruct (counts_eq _ _ Hc1) as [Hn1 _].
  eapply wpM_mono; [|eapply (IH f1 a1 q disk1 m Hi1); [intros x Hx; rewrite Hn1; apply Hr; set_solver|lia]].
  intros f2 a2 (disk2&Hi2&Hc2&Hd2&Hx2&Hcur2). exists disk2. split_and!; [done|congruence| | |lia].
  - intros x [->|Hx]%elem_of_cons; [by rewrite Hx2|auto].
  - intros x Hx. rewrite Hx2, Hx1 by set_solver. done.
Qed.

Lemma save_cost_queue q n : save_cost q (seqZ 0 n) <= SWAP_BLOCKS * len q.
Proof.
  unfold save_cost. assert (length (filter (fun i => i ∈ q) (seqZ 0 n)) <= length q)%nat; [|unfold SWAP_BLOCKS; lia].
  apply submseteq_length, NoDup_submseteq; [apply NoDup_filter, NoDup_seqZ|].
  intros x. by intros [Hx _]%list_elem_of_filter.
Qed.

(** A saved array: every entry is clean, and the files describe the array. *)
Record saved_as (fs : array_files) (n : Z) (a : IVArray) (m : gmap Z (list Z)) : Prop := {
  sa_stands : stands MAXC (IVfile fs) (2 * n) a m;
  sa_clean : forall k, 0 <= k < CurEntryNum a -> dirtyFlag (E a k) = false;
  sa_header : IVfile fs !! 0 = Some (CurEntryNum a);
  sa_runs : IVBlockManager_open (FreeBlockList fs) (ValueFile (BM a)) = Some (set_BlockToWrite [] (BM a));
  sa_blocks : cur_block_num (BM a) <= n }.

Lemma save_spec fs n a m : stands MAXC (IVfile fs) n a m -> n < MAX_BLOCKS ->
  wpM (save fs) a (fun fs' a' => saved_as fs' n a' m).
Proof.
  intros (q&disk&Hi&Hd) Hn. unfold save. apply wpM_bind, wpM_gets, wpM_bind, wpM_gets, wpM_bind, wpM_puts.
  set (f := if CurEntryNumChange a then _ else _). set (a1 := set_entry_num _ _ _).
  assert (Hi1 : ainv MAXC f a1 ∅ q disk m).
  { assert (Hf : f !! 0 = Some (CurEntryNum a) /\ forall k, 0 <= k -> f !! (k + 1) = IVfile fs !! (k + 1)).
    { unfold f. destruct (ai_header _ _ _ _ _ _ _ Hi) as (_&_&Hh).
      destruct (CurEntryNumChange a); [|by split; [apply Hh|]].
      split; [by rewrite lookup_insert_eq|]. intros k Hk. by rewrite lookup_insert_ne by lia. }
    destruct Hf as [Hf0 Hf]. destruct Hi as [H1 H2 H3 H4 H5 H6 H7 H8 H9 H10 (H11&H12&H13) H14]. split; try done.
    intros k Hk Hk0 Hdk. rewrite Hf by done. by apply H10. }
  pose proof (save_cost_queue q (CurEntryNum a)). pose proof (save_cost_pos q (seqZ 0 (CurEntryNum a))).
  unfold demand in Hd. apply wpM_bind.
  eapply wpM_mono; [|eapply (save_loop_spec _ (NoDup_seqZ 0 (CurEntryNum a)) f a1 q disk m Hi1)].
  2: { intros i Hin%elem_of_seqZ. cbn. lia. }
  2: { cbn. lia. }
  intros f' a' (disk'&Hi'&Hc'&Hcl&Hx&Hcur). apply wpM_bind, wpM_gets, wpM_ret. destruct (counts_eq _ _ Hc') as [Hn' Hch].
  cbn in Hn', Hch, Hcur. split; cbn [IVfile FreeBlockList].
  - exists q, disk'. split; [done|]. pose proof (bi_cur _ (di_inv _ _ _ (ai_disk _ _ _ _ _ _ _ Hi))).
    unfold demand, SWAP_BLOCKS in *. lia.
  - intros k Hk. apply Hcl. rewrite elem_of_seqZ. lia.
  - by apply (ai_header _ _ _ _ _ _ _ Hi').
  - apply save_free_spec. apply (di_inv _ _ _ (ai_disk _ _ _ _ _ _ _ Hi')).
  - lia.
Qed.

(** What [open] makes of an entry. *)
Definition opened (s : Z) (e : centry) : centry :=
  let e := setDirtyFlag false (setStore s e) in if 0 <? s then setUsedFlag true e else e.

Lemma open_loop_spec f st ids : NoDup ids -> (forall i, i ∈ ids -> f !! (i + 1) = Some (st i)) ->
  forall a, (forall i, i ∈ ids -> in_range a i) ->
  wpM (open_loop f ids) a (fun _ a' => (forall x, E a' x = if decide (x ∈ ids) then opened (st x) (E a x) else E a x) /\
    exists m, a' = set_array m a).
Proof.
  induction 1 as [|i ids Hni Hnd IH]; intros Hf a Hr; cbn [open_loop].
  { apply wpM_ret. split; [done|]. exists (array_ a). by destruct a. }
  apply wpM_bind. unfold open_entry. apply wpM_bind. eapply wpM_lift; [apply Hf; set_solver|].
  assert (Hri : in_range a i) by (apply Hr; set_solver).
  apply wpM_bind, wpM_upd; [done|]. apply wpM_bind, wpM_upd; [done|].
  eapply (wpM_mono _ _ (fun _ a1 => (forall x, E a1 x = if decide (x = i) then opened (st i) (E a i) else E a x) /\
    exists m, a1 = set_array m a)).
  - intros [] a1 [HE1 (m1&->)]. eapply wpM_mono; [|eapply IH; [intros; apply Hf; set_solver|intros; apply Hr; set_solver]].
    intros [] a2 [HE2 (m2&->)]. split; [|by exists m2]. intros x. rewrite HE2, HE1.
    destruct (decide (x = i)) as [->|Hx].
    + by rewrite decide_False, decide_True by set_solver.
    + destruct (decide (x ∈ ids)); [by rewrite decide_True by set_solver|by rewrite decide_False by set_solver].
  - unfold opened. destruct (0 <? st i); [apply wpM_upd; [done|]|apply wpM_ret]; (split; [|by eexists]); intros x;
      rewrite !E_updE; destruct (decide (x = i)); rewrite ?decide_True by done; done.
Qed.

(** Opening the files of a saved array. *)
Lemma open_spec fs n a m : saved_as fs n a m -> 0 <= MAXC ->
  exists a', IVArray_open fs (ValueFile (BM a)) = Some a' /\ stands MAXC (IVfile fs) n a' m.
Proof.
  intros [(q&disk&Hi&_) Hcl Hhd Hruns Hcur] HM. set (N := CurEntryNum a) in *.
  destruct (ai_header _ _ _ _ _ _ _ Hi) as (Hpos&[c Hc]&_). destruct (ai_num _ _ _ _ _ _ _ Hi) as [Hnum Hlim]. fold N in Hpos, Hc, Hnum.
  assert (Hneed : Z.max 0 (getNeedBlock (N - 1)) = c).
  { unfold getNeedBlock. rewrite Hc. unfold ENTRY_BLOCK_SIZE in *.
    replace ((c * 102400 - 1) / 102400) with (c - 1); [lia|]. apply Z.div_unique with 102399; lia. }
  set (bm := set_BlockToWrite [] (BM a)). set (a0 := mk_IVArray ∅ c (-1) (-1) N false 0 bm).
  assert (Hst : forall i, i ∈ seqZ 0 N -> IVfile fs !! (i + 1) = Some (store (E a i))).
  { intros i Hin%elem_of_seqZ. apply (ai_saved _ _ _ _ _ _ _ Hi); [set_solver|lia|]. apply Hcl. lia. }
  pose proof (open_loop_spec (IVfile fs) (fun i => store (E a i)) (seqZ 0 N) (NoDup_seqZ 0 N) Hst a0) as Hloop.
  destruct (wpM_inv _ _ _ (Hloop ltac:(intros i Hin%elem_of_seqZ; split; cbn; lia))) as ([]&a1&Hrun&HE&mm&->).
  exists (set_entry_num N false (set_array mm a0)). split.
  { unfold IVArray_open. rewrite Hhd. cbn [mbind option_bind]. rewrite Hruns. cbn [mbind option_bind].
    destruct (Z.ltb_spec 0 N); [|lia]. unfold allocBlock, set_blocks. cbn [block_num array_ head_next cache_tail_id CurEntryNum CurEntryNumChange CurCacheSize BM].
    rewrite Hneed. fold bm a0. rewrite Hrun. cbn [mbind option_bind]. unfold getEntryNum. cbn. rewrite <- Hc.
    by rewrite u32_small by (unfold KEY_LIMIT, W32 in *; lia). }
  set (a' := set_entry_num _ _ _).
  assert (HE' : forall x, E a' x = if decide (0 <= x < N) then opened (store (E a x)) fresh else fresh).
  { intros x. change (E a' x) with (E (set_array mm a0) x). rewrite HE.
    change (E a0 x) with (default fresh ((∅ : gmap Z centry) !! x)). rewrite lookup_empty. cbn [default from_option id].
    destruct (decide (0 <= x < N)); [rewrite decide_True by (rewrite elem_of_seqZ; lia)|rewrite decide_False by (rewrite elem_of_seqZ; lia)]; done. }
  assert (Hfresh : forall x, cacheFlag (E a' x) = false /\ CachePinFlag (E a' x) = false /\ value (E a' x) = None).
  { intros x. rewrite HE'. unfold opened. case_decide; [destruct (0 <? _)|]; done. }
  assert (Hdm : forall k v, m !! k = Some v -> 0 <= k < N /\ 0 < len v < LEN_LIMIT /\ disk !! k = Some v).
  { intros k v Hk. destruct (ai_some _ _ _ _ _ _ _ Hi k v) as [Hr (_&Hl&He)]; [set_solver|done|].
    split_and!; try lia. destruct (cacheFlag (E a k)); [|tauto]. apply He, Hcl, Hr. }
  assert (Hdn : forall k, m !! k = None -> disk !! k = None) by (intros k Hk; by apply (ai_none _ _ _ _ _ _ _ Hi); [set_solver|]).
  pose proof (ai_disk _ _ _ _ _ _ _ Hi) as Hd.
  assert (Hsto : forall x, store (E a' x) = store (E a x)).
  { intros x. rewrite HE'. case_decide; [unfold opened; by destruct (0 <? _)|]. cbn. symmetry.
    apply (di_none _ _ _ Hd). destruct (m !! x) eqn:Hx; [|auto]. destruct (Hdm x l Hx). tauto. }
  exists [], disk. split; [|unfold demand; cbn; lia]. split.
  - split; [constructor|constructor|done|done|]. intros pre k post Hq. by destruct pre.
  - intros k. rewrite (proj1 (Hfresh k)). split; [done|]. by intros ?%elem_of_nil.
  - apply Hfresh.
  - intros k _ Hk. split; [|auto]. rewrite HE'. case_decide; [|done]. unfold opened.
    by rewrite (di_none _ _ _ Hd k (Hdn k Hk)).
  - intros k v _ Hk. destruct (Hdm k v Hk) as (Hr&Hl&Hdk). split; [done|]. unfold entry_value.
    destruct (Hfresh k) as (->&_&->). split_and!; [|lia|lia|done|done]. rewrite HE', decide_True by done. unfold opened.
    pose proof (ow_start _ _ _ (di_owns _ _ _ Hd _ _ Hdk)) as H1. destruct (Z.ltb_spec 0 (store (E a k))); [done|lia].
  - constructor.
  - split; [done|]. cbn. lia.
  - by intros k ?%elem_of_nil.
  - eapply disk_inv_ext; [apply Hsto|]. destruct Hd as [D1 D2 D3 D4]. split; [by destruct D1| |done|done].
    intros k w Hk. destruct (D2 k w Hk) as [O1 O2 O3 O4]. by split.
  - intros k _ Hk. rewrite Hsto. rewrite HE'. case_decide; [intros _; apply Hst; rewrite elem_of_seqZ; lia|done].
  - cbn. split_and!; [done|by exists c|done].
  - cbn. unfold KEY_LIMIT in *. lia.
Qed.
End Save.

(** * Arrays as value stores

    The arrays satisfy the interface [ValueStore] that the indexes are proved
    against.  [KVstore] casts between arrays of [unsigned] and byte strings: a
    cell is four bytes, the lowest first. *)

(** ** Cells and bytes *)

Definition cell_bytes (w : Z) : list Z :=
  [w mod 256; (w / 256) mod 256; (w / 65536) mod 256; (w / 16777216) mod 256].
Definition to_bytes (v : list Z) : list Z := concat (cell_bytes <$> v).

Fixpoint of_bytes (b : list Z) : list Z :=
  match b with
  | x0 :: x1 :: x2 :: x3 :: b' => (x0 + 256 * x1 + 65536 * x2 + 16777216 * x3) :: of_bytes b'
  | _ => []
  end.

Lemma of_to_bytes v : Forall word v -> of_bytes (to_bytes v) = v.
Proof.
  induction 1 as [|w v Hw _ IH]; [done|].
  change (to_bytes (w :: v)) with (cell_bytes w ++ to_bytes v). unfold cell_bytes. cbn [app of_bytes]. rewrite IH.
  f_equal. unfold word, W32 in Hw. Z.to_euclidean_division_equations. lia.
Qed.

Lemma length_to_bytes v : len (to_bytes v) = 4 * len v.
Proof.
  induction v as [|w v IH]; [done|]. change (to_bytes (w :: v)) with (cell_bytes w ++ to_bytes v).
  rewrite length_app. cbn [length cell_bytes]. lia.
Qed.

Section Format.
Context {BF : BlockFormat}.

(** ** What an array stands for *)

Definition entry_bytes (bm : IVBlockManager) (e : centry) : option (list Z) :=
  if usedFlag e then if cacheFlag e then value e else mjoin (ReadValue (store e) bm) else None.

Definition byte_view (a : IVArray) : gmap Z (list Z) := omap (entry_bytes (BM a)) (array_ a).

Lemma byte_view_spec MAXC saved n a m : stands MAXC saved n a m -> byte_view a = m.
Proof.
  intros (q&disk&Hi&_). apply map_eq. intros k. unfold byte_view. rewrite lookup_omap.
  assert (Hb : array_ a !! k ≫= entry_bytes (BM a) = entry_bytes (BM a) (E a k)).
  { unfold E. by destruct (array_ a !! k). }
  rewrite Hb. unfold entry_bytes. destruct (m !! k) as [v|] eqn:Hk.
  - destruct (ai_some _ _ _ _ _ _ _ Hi k v) as [_ (Hu&_&He)]; [set_solver|done|]. rewrite Hu.
    destruct (cacheFlag (E a k)); [apply He|]. by rewrite (disk_read _ _ _ k v (ai_disk _ _ _ _ _ _ _ Hi) (proj1 He)).
  - destruct (ai_none _ _ _ _ _ _ _ Hi k) as [-> _]; [set_solver|done|done].
Qed.

(** ** A new array *)

Lemma empty_bm : bm_inv (mk_BM ∅ ∅ ∅ [] 0).
Proof. split; cbn; [by intros ?? ?%lookup_empty_Some|by intros ???? ?%lookup_empty_Some| |lia]. intros. rewrite lookup_empty. set_solver. Qed.

Lemma build_stands MAXC saved n : 0 <= MAXC -> 0 <= n < KEY_LIMIT -> stands MAXC saved KEY_LIMIT (IVArray_build n) ∅.
Proof.
  intros HM Hn.
  assert (Hdiv : 0 <= n / ENTRY_BLOCK_SIZE < 20971).
  { split; [apply Z.div_pos; unfold ENTRY_BLOCK_SIZE; lia|]. apply Z.div_lt_upper_bound; unfold KEY_LIMIT, ENTRY_BLOCK_SIZE in *; lia. }
  assert (Hb : Z.max 0 (getNeedBlock n) = n / ENTRY_BLOCK_SIZE + 1) by (unfold getNeedBlock; lia).
  set (N := (n / ENTRY_BLOCK_SIZE + 1) * ENTRY_BLOCK_SIZE).
  assert (HN : 256 <= N <= KEY_LIMIT) by (unfold N, KEY_LIMIT, ENTRY_BLOCK_SIZE in *; lia).
  assert (Ha : IVArray_build n = mk_IVArray ∅ (n / ENTRY_BLOCK_SIZE + 1) (-1) (-1) N true 0 (IVBlockManager_build N)).
  { unfold IVArray_build, allocBlock, getEntryNum, set_entry_num, set_BM, set_blocks. cbn. rewrite Hb.
    by rewrite u32_small by (unfold N, KEY_LIMIT, ENTRY_BLOCK_SIZE, W32 in *; lia). }
  rewrite Ha. unfold IVBlockManager_build.
  destruct (AllocBlock_spec (Z.max SETBLOCKINC N) (mk_BM ∅ ∅ ∅ [] 0) empty_bm) as (Hi&_&Hc&_&_);
    [unfold SETBLOCKINC; lia|unfold SETBLOCKINC, KEY_LIMIT in *; cbn; lia|].
  cbn [cur_block_num] in Hc. exists [], ∅. split; [|unfold demand; cbn [BM length]; rewrite Hc; unfold SETBLOCKINC, SWAP_BLOCKS; lia].
  split; cbn [head_next cache_tail_id CurCacheSize CurEntryNum block_num BM]; try done.
  - split; [constructor|constructor|done|done|]. intros pre k post Hq. by destruct pre.
  - intros k. split; [done|]. by intros ?%elem_of_nil.
  - by intros k ?%elem_of_nil.
  - split_and!; [lia|by apply Z.divide_factor_r|done].
  - fold N. split; lia.
Qed.

End Format.

#[local] Existing Instance iv_format.

(** ** The instance *)

Section Store.
Context (MAXC LIM : Z).

#[local] Instance array_store : ValueStore IVArray := {
  vs_search k := let! r := search MAXC k in retM (of_bytes <$> r);
  vs_insert k v := insert MAXC k (to_bytes v);
  vs_modify k v := modify MAXC k (to_bytes v);
  vs_remove k := remove k }.

Definition array_view (a : IVArray) : gmap Z (list Z) := of_bytes <$> byte_view a.

(** [n] more operations with values of less than [LIM] bytes find free blocks. *)
Definition array_room (n : nat) (a : IVArray) : Prop :=
  exists saved N m, stands MAXC saved N a (to_bytes <$> m) /\ map_Forall (fun _ v => value_ok LIM v) m /\
    N + Z.of_nat n * op_cost LIM < MAX_BLOCKS.

Context (HMAXC : LENGTH_BORDER <= MAXC) (HLIM : 0 <= LIM <= W32).

Lemma op_cost_swap : SWAP_BLOCKS <= op_cost LIM.
Proof using Type. unfold op_cost. pose proof (value_cost_pos LIM). lia. Qed.

Lemma room_split N n : N + Z.of_nat (S n) * op_cost LIM < MAX_BLOCKS ->
  N + op_cost LIM + Z.of_nat n * op_cost LIM < MAX_BLOCKS /\ 0 <= Z.of_nat n * op_cost LIM.
Proof using Type.
  pose proof op_cost_swap. unfold SWAP_BLOCKS in *. rewrite Nat2Z.inj_succ, Z.mul_succ_l. intros Hn.
  split; [lia|]. apply Z.mul_nonneg_nonneg; lia.
Qed.

Lemma view_of_stands saved N a m : stands MAXC saved N a (to_bytes <$> m) -> map_Forall (fun _ v => value_ok LIM v) m ->
  array_view a = m.
Proof using Type.
  intros Hs Hm. unfold array_view. rewrite (byte_view_spec _ _ _ _ _ Hs). rewrite <- map_fmap_compose.
  rewrite <- (map_fmap_id m) at 2. apply map_fmap_ext. intros k v Hk. cbn. apply of_to_bytes. by apply (Hm k v).
Qed.

(** The bytes of an accepted value. *)
Lemma value_bytes v : value_ok LIM v -> 0 < len (to_bytes v) < W32 /\ op_cost (len (to_bytes v)) <= op_cost LIM.
Proof using HLIM.
  intros (Hne&Hl&_). rewrite length_to_bytes. split; [destruct v; [done|cbn [length] in *; lia]|].
  apply op_cost_mono. lia.
Qed.

Lemma room_intro n saved N a m : stands MAXC saved N a (to_bytes <$> m) -> map_Forall (fun _ v => value_ok LIM v) m ->
  N + Z.of_nat n * op_cost LIM < MAX_BLOCKS -> array_view a = m /\ array_room n a.
Proof using Type. intros Hs Hm Hn. split; [by eapply view_of_stands|]. by exists saved, N, m. Qed.

Lemma array_search_ok a n k : array_room (S n) a -> word k ->
  wpM (vs_search k) a (fun r a' => r = array_view a !! k /\ array_view a' = array_view a /\ array_room n a').
Proof using HMAXC.
  intros (saved&N&m&Hs&Hm&[Hn Hn0]%room_split) Hk. rewrite (view_of_stands _ _ _ _ Hs Hm). pose proof op_cost_swap.
  apply wpM_bind. eapply wpM_mono; [|apply (search_spec _ _ HMAXC N _ _ k Hs); [lia|apply Hk]].
  intros r a' [-> Hs']. apply wpM_ret. split.
  - rewrite lookup_fmap. destruct (m !! k) eqn:Hmk; [|done]. cbn. f_equal. apply of_to_bytes. by apply (Hm k l).
  - eapply room_intro; [exact Hs'|done|lia].
Qed.

Lemma array_insert_ok a n k v : array_room (S n) a -> 0 <= k < KEY_LIMIT -> value_ok LIM v ->
  array_view a !! k = None ->
  wpM (vs_insert k v) a (fun r a' => r = true /\ array_view a' = <[k := v]> (array_view a) /\ array_room n a').
Proof using HMAXC HLIM.
  intros (saved&N&m&Hs&Hm&[Hn Hn0]%room_split) Hk Hv. rewrite (view_of_stands _ _ _ _ Hs Hm). intros Hnone.
  destruct (value_bytes v Hv) as [Hlv Hc].
  eapply wpM_mono; [|apply (insert_spec _ _ HMAXC N _ _ k (to_bytes v) Hs); [lia|done|done|by rewrite lookup_fmap, Hnone]].
  intros r a' [-> Hs']. split; [done|]. rewrite <- fmap_insert in Hs'.
  eapply room_intro; [exact Hs'|by apply map_Forall_insert_2|lia].
Qed.

Lemma array_modify_ok a n k v : array_room (S n) a -> word k -> value_ok LIM v -> is_Some (array_view a !! k) ->
  wpM (vs_modify k v) a (fun r a' => r = true /\ array_view a' = <[k := v]> (array_view a) /\ array_room n a').
Proof using HMAXC HLIM.
  intros (saved&N&m&Hs&Hm&[Hn Hn0]%room_split) Hk Hv. rewrite (view_of_stands _ _ _ _ Hs Hm). intros [w Hw].
  destruct (value_bytes v Hv) as [Hlv Hc].
  eapply wpM_mono; [|apply (modify_spec _ _ HMAXC N _ _ k (to_bytes v) Hs); [lia|done|by rewrite lookup_fmap, Hw]].
  intros r a' [-> Hs']. split; [done|]. rewrite <- fmap_insert in Hs'.
  eapply room_intro; [exact Hs'|by apply map_Forall_insert_2|lia].
Qed.

Lemma array_remove_ok a n k : array_room (S n) a -> word k -> is_Some (array_view a !! k) ->
  wpM (vs_remove k) a (fun r a' => r = true /\ array_view a' = delete k (array_view a) /\ array_room n a').
Proof using HMAXC.
  intros (saved&N&m&Hs&Hm&[Hn Hn0]%room_split) Hk. rewrite (view_of_stands _ _ _ _ Hs Hm). intros [w Hw]. pose proof op_cost_swap.
  eapply wpM_mono; [|apply (remove_spec _ _ HMAXC N _ _ k (to_bytes w) Hs); by rewrite lookup_fmap, Hw].
  intros r a' [-> Hs']. split; [done|]. rewrite <- fmap_delete in Hs'.
  eapply room_intro; [exact Hs'|by apply map_Forall_delete|]. unfold SWAP_BLOCKS in *. lia.
Qed.

#[local] Program Instance array_store_laws : ValueStoreLaws IVArray := {
  vs_view := array_view; vs_room := array_room; vs_limit := LIM }.
Next Obligation. lia. Qed.
Next Obligation.
  intros a n (saved&N&m&Hs&Hm&[Hn Hn0]%room_split). exists saved, N, m. split_and!; [done|done|].
  pose proof op_cost_swap. unfold SWAP_BLOCKS in *. lia.
Qed.
Next Obligation. exact array_search_ok. Qed.
Next Obligation. exact array_insert_ok. Qed.
Next Obligation. exact array_modify_ok. Qed.
Next Obligation. exact array_remove_ok. Qed.
End Store.

Lemma build_room MAXC LIM n r : 0 <= MAXC -> 0 <= n < KEY_LIMIT ->
  KEY_LIMIT + Z.of_nat r * op_cost LIM < MAX_BLOCKS ->
  array_view (IVArray_build n) = ∅ /\ array_room MAXC LIM r (IVArray_build n).
Proof. intros HM Hn Hr. eapply room_intro; [by apply (build_stands _ ∅)|done|done]. Qed.
