(* ===== verification/ArrayTheorems.v ===== *)
(** * Sequences of operations on an array

    Runs of [search], [insert], [modify] and [remove], in any order and with any
    keys, against a finite map; between them the array can be saved and opened
    again.

    At the end, the theorems about arrays and the indexes over them. *)

From S2P Require Import Prelude ValueStore KVstore TripleSet Version BlockManager BlockManagerSpec IVArray IVArraySpec IVArrayCache IVArrayOps IVArrayStore.

#[local] Existing Instance iv_format.

Inductive array_op :=
  | OSearch (k : Z) | OInsert (k : Z) (v : list Z) | OModify (k : Z) (v : list Z) | ORemove (k : Z).

Inductive array_result := RValue (r : option (list Z)) | RDone (b : bool).

(** A call of the array, and the same call on a map. *)
Definition run_op (MAXC : Z) (o : array_op) : M IVArray array_result :=
  match o with
  | OSearch k => let! r := search MAXC k in retM (RValue r)
  | OInsert k v => let! b := insert MAXC k v in retM (RDone b)
  | OModify k v => let! b := modify MAXC k v in retM (RDone b)
  | ORemove k => let! b := remove k in retM (RDone b)
  end.

Definition map_op (o : array_op) (m : gmap Z (list Z)) : array_result * gmap Z (list Z) :=
  match o with
  | OSearch k => (RValue (m !! k), m)
  | OInsert k v => match m !! k with Some _ => (RDone false, m) | None => (RDone true, <[k := v]> m) end
  | OModify k v => match m !! k with Some _ => (RDone true, <[k := v]> m) | None => (RDone false, m) end
  | ORemove k => match m !! k with Some _ => (RDone true, delete k m) | None => (RDone false, m) end
  end.

Fixpoint map_ops (os : list array_op) (m : gmap Z (list Z)) : list array_result * gmap Z (list Z) :=
  match os with
  | [] => ([], m)
  | o :: os' => let '(r, m') := map_op o m in let '(rs, m'') := map_ops os' m' in (r :: rs, m'')
  end.

(** Calls, and closing and opening the array in between. *)
Inductive session_op := Call (o : array_op) | Reopen.

Definition run_session_op (MAXC : Z) (o : session_op) : M (IVArray * array_files) (list array_result) :=
  fun '(a, fs) =>
    match o with
    | Call o => '(r, a) ← run_op MAXC o a; Some ([r], (a, fs))
    | Reopen => '(fs, a) ← save fs a; a ← IVArray_open fs (ValueFile (BM a)); Some ([], (a, fs))
    end.

Fixpoint run_session (MAXC : Z) (os : list session_op) : M (IVArray * array_files) (list array_result) :=
  match os with
  | [] => retM []
  | o :: os' => let! r := run_session_op MAXC o in let! rs := run_session MAXC os' in retM (r ++ rs)
  end.

Definition calls (os : list session_op) : list array_op :=
  omap (fun o => match o with Call o => Some o | Reopen => None end) os.

(** Keys that are addressed by an [int], values of one byte up to a limit. *)
Definition op_ok (LIM : Z) (o : array_op) : Prop :=
  match o with
  | OSearch k => 0 <= k
  | ORemove k => 0 <= k < KEY_LIMIT
  | OInsert k v | OModify k v => 0 <= k < KEY_LIMIT /\ 0 < len v < LIM
  end.

Section Seq.
Context (MAXC : Z).

(** Naming an entry can add a block of entries. *)
Lemma ent_stands saved n a m k : stands MAXC saved n a m -> 0 <= k < KEY_LIMIT ->
  wpM (ent k) a (fun e a' => e = E a k /\ stands MAXC saved n a' m).
Proof.
  intros (q&disk&Hi&Hd) Hk. unfold wpM, ent. destruct (Z.leb_spec 0 k); [|lia].
  destruct (Z.ltb_spec k 2147483648); [|unfold KEY_LIMIT in *; lia]. cbn [andb wp fst snd].
  destruct (Z.leb_spec (block_num a * ENTRY_BLOCK_SIZE) k); [|split; [done|by exists q, disk]].
  split; [done|]. exists q, disk. split; [|done]. destruct Hi as [? ? ? ? ? ? ? ? ? ? ? [? ?]].
  assert (Hdiv : k / ENTRY_BLOCK_SIZE < 20971) by (apply Z.div_lt_upper_bound; unfold KEY_LIMIT, ENTRY_BLOCK_SIZE in *; lia).
  split; cbn; try done. unfold getNeedBlock, KEY_LIMIT, ENTRY_BLOCK_SIZE in *. lia.
Qed.

Lemma absent_unused saved n a m k : stands MAXC saved n a m -> m !! k = None -> usedFlag (E a k) = false.
Proof. intros (q&disk&Hi&_) Hk. apply (ai_none _ _ _ _ _ _ _ Hi); [set_solver|done]. Qed.

Lemma insert_present saved n a m k v : stands MAXC saved n a m -> is_Some (m !! k) ->
  wpM (insert MAXC k v) a (fun r a' => r = false /\ stands MAXC saved n a' m).
Proof.
  intros Hs [w Hw]. pose proof Hs as (q&disk&Hi&_). destruct (ainv_value _ _ _ _ _ _ _ _ Hi Hw) as (Hr&Hk&Hu).
  unfold insert. apply wpM_bind, wpM_gets. apply wpM_bind. destruct (Z.ltb_spec k (CurEntryNum a)); [|lia].
  apply wpM_bind, wpM_ent; [done|]. apply wpM_ret. rewrite Hu. by apply wpM_ret.
Qed.

Lemma modify_absent saved n a m k v : stands MAXC saved n a m -> 0 <= k < KEY_LIMIT -> m !! k = None ->
  wpM (modify MAXC k v) a (fun r a' => r = false /\ stands MAXC saved n a' m).
Proof.
  intros Hs Hk Hn. unfold modify. apply wpM_bind. eapply wpM_mono; [|by eapply ent_stands].
  intros e a' [-> Hs']. rewrite (absent_unused _ _ _ _ _ Hs Hn). by apply wpM_ret.
Qed.

Lemma remove_absent saved n a m k : stands MAXC saved n a m -> 0 <= k < KEY_LIMIT -> m !! k = None ->
  wpM (remove k) a (fun r a' => r = false /\ stands MAXC saved n a' m).
Proof.
  intros Hs Hk Hn. unfold remove. apply wpM_bind. eapply wpM_mono; [|by eapply ent_stands].
  intros e a' [-> Hs']. rewrite (absent_unused _ _ _ _ _ Hs Hn). by apply wpM_ret.
Qed.

Lemma stands_le saved n n' a m : stands MAXC saved n a m -> n <= n' -> stands MAXC saved n' a m.
Proof. intros (q&disk&Hi&Hd) Hn. exists q, disk. split; [done|lia]. Qed.

Context (HMAXC : LENGTH_BORDER <= MAXC).
Context (LIM : Z) (HLIM : 0 <= LIM <= W32).

Lemma run_op_spec saved n a m o : stands MAXC saved n a m -> op_ok LIM o -> n + op_cost LIM < MAX_BLOCKS ->
  wpM (run_op MAXC o) a (fun r a' => r = (map_op o m).1 /\ stands MAXC saved (n + op_cost LIM) a' (map_op o m).2).
Proof using HMAXC HLIM.
  intros Hs Ho Hn. pose proof (value_cost_pos LIM). pose proof iv_len_limit.
  assert (Hsw : 0 <= SWAP_BLOCKS <= op_cost LIM) by (unfold op_cost, SWAP_BLOCKS; lia).
  destruct o as [k|k v|k v|k]; cbn in Ho |- *; apply wpM_bind.
  - eapply wpM_mono; [|apply (search_spec _ saved HMAXC n _ m); [done|lia|done]].
    intros r a' [-> Hs']. apply wpM_ret. split; [done|]. eapply stands_le; [done|lia].
  - destruct Ho as [Hk Hv]. pose proof (op_cost_mono (len v) LIM ltac:(lia)). destruct (m !! k) eqn:Hm.
    + eapply wpM_mono; [|by apply insert_present]. intros r a' [-> Hs']. apply wpM_ret. split; [done|].
      eapply stands_le; [done|lia].
    + eapply wpM_mono; [|apply (insert_spec _ saved HMAXC n _ m); [done|lia|done|lia|done]].
      intros r a' [-> Hs']. apply wpM_ret. split; [done|]. eapply stands_le; [done|lia].
  - destruct Ho as [Hk Hv]. pose proof (op_cost_mono (len v) LIM ltac:(lia)). destruct (m !! k) eqn:Hm.
    + eapply wpM_mono; [|apply (modify_spec _ saved HMAXC n _ m); [done|lia|lia|done]].
      intros r a' [-> Hs']. apply wpM_ret. split; [done|]. eapply stands_le; [done|lia].
    + eapply wpM_mono; [|by eapply modify_absent]. intros r a' [-> Hs']. apply wpM_ret. split; [done|].
      eapply stands_le; [done|lia].
  - destruct (m !! k) eqn:Hm.
    + eapply wpM_mono; [|by eapply (remove_spec _ saved HMAXC n _ m)].
      intros r a' [-> Hs']. apply wpM_ret. split; [done|]. eapply stands_le; [done|lia].
    + eapply wpM_mono; [|by eapply remove_absent]. intros r a' [-> Hs']. apply wpM_ret. split; [done|].
      eapply stands_le; [done|lia].
Qed.

Lemma run_session_spec os : forall saved n a fs m, saved = IVfile fs -> stands MAXC saved n a m ->
  Forall (op_ok LIM) (calls os) -> n + len (calls os) * op_cost LIM < MAX_BLOCKS ->
  wpM (run_session MAXC os) (a, fs) (fun rs s' => rs = (map_ops (calls os) m).1 /\
    stands MAXC (IVfile s'.2) (n + len (calls os) * op_cost LIM) s'.1 (map_ops (calls os) m).2).
Proof using HMAXC HLIM.
  assert (Hpos : 0 <= op_cost LIM) by (pose proof (value_cost_pos LIM); unfold op_cost, SWAP_BLOCKS; lia).
  induction os as [|[o|] os IH]; intros saved n a fs m -> Hs Hok Hn; cbn [run_session].
  { apply wpM_ret. split; [done|]. eapply stands_le; [done|cbn; lia]. }
  - change (calls (Call o :: os)) with (o :: calls os) in *. cbn [map_ops]. apply Forall_cons in Hok as [Ho Hok].
    cbn [length] in *. rewrite Nat2Z.inj_succ, Z.mul_succ_l in *.
    assert (0 <= len (calls os) * op_cost LIM) by (apply Z.mul_nonneg_nonneg; lia).
    destruct (wpM_inv _ _ _ (run_op_spec (IVfile fs) n a m o Hs Ho ltac:(lia))) as (r&a1&Hrun&->&Hs1).
    apply wpM_bind. unfold wpM at 1, run_session_op. rewrite Hrun. cbn [mbind option_bind wp fst snd].
    destruct (map_op o m) as [r m1]. cbn [fst snd] in *.
    apply wpM_bind. eapply wpM_mono; [|eapply (IH (IVfile fs)); [done|exact Hs1|done|lia]].
    intros rs s' [-> Hs2]. apply wpM_ret. destruct (map_ops (calls os) m1) as [rs m2]. split; [done|].
    eapply stands_le; [done|cbn; lia].
  - change (calls (Reopen :: os)) with (calls os) in *.
    assert (0 <= len (calls os) * op_cost LIM) by (apply Z.mul_nonneg_nonneg; lia).
    destruct (wpM_inv _ _ _ (save_spec MAXC fs n a m Hs ltac:(lia))) as (fs1&a1&Hrun&Hsa).
    assert (0 <= MAXC) by (unfold LENGTH_BORDER in *; lia).
    destruct (open_spec MAXC fs1 n a1 m Hsa ltac:(lia)) as (a2&Hopen&Hs2).
    apply wpM_bind. unfold wpM at 1, run_session_op. rewrite Hrun. cbn [mbind option_bind]. rewrite Hopen.
    cbn [mbind option_bind wp fst snd]. apply wpM_bind. eapply wpM_mono; [|eapply (IH (IVfile fs1)); done].
    intros rs s' [-> Hs3]. by apply wpM_ret.
Qed.
End Seq.

(** * Theorems about files, arrays and the store over them

    The block files, the cached arrays, and the indexes of [KVstore] over four
    arrays that start empty. *)

#[local] Existing Instance iv_format.

(** ** Block files *)

(** Writing a value to the file succeeds while block numbers last; the value
    is read back from the block that is returned, and all values of other keys
    are still read back from theirs. *)
Theorem value_file_roundtrip (bm : IVBlockManager) (st : Z -> Z) (disk : gmap Z (list Z)) (k : Z) (v : list Z) :
  disk_inv bm st disk -> 0 < len v < W32 ->
  cur_block_num bm + Z.max (blocks_for (len v)) SETBLOCKINC < MAX_BLOCKS ->
  exists s bm', WriteValue v bm = Some (s, bm') /\ ReadValue s bm' = Some (Some v) /\
    (forall k' w, k' <> k -> disk !! k' = Some w -> ReadValue (st k') bm' = Some (Some w)) /\
    disk_inv bm' (set_store k s st) (<[k := v]> disk).
Proof.
  intros Hd Hv Hc. destruct (wpM_inv _ _ _ (disk_write bm st disk k v Hd Hv Hc)) as (s&bm'&Hw&Hs&Hd'&_).
  exists s, bm'. split_and!; [done| | |done].
  - rewrite <- (set_store_eq k s st). eapply disk_read; [exact Hd'|by rewrite lookup_insert_eq].
  - intros k' w Hne Hk'. rewrite <- (set_store_ne k s st k' Hne).
    eapply disk_read; [exact Hd'|by rewrite lookup_insert_ne].
Qed.

(** Freeing the blocks of a value ends, makes exactly these blocks free, keeps
    the runs of free blocks apart from each other and the two orders on them in
    step, and leaves the values of the other keys readable. *)
Theorem value_file_free (bm : IVBlockManager) (st : Z -> Z) (disk : gmap Z (list Z)) (k : Z) (w : list Z) :
  disk_inv bm st disk -> disk !! k = Some w ->
  exists bm', FreeBlocks (st k) bm = Some bm' /\ bm_inv bm' /\
    (forall b, free bm' b <-> free bm b \/ st k <= b < st k + blocks_for (len w)) /\
    (forall k' w', k' <> k -> disk !! k' = Some w' -> ReadValue (st k') bm' = Some (Some w')).
Proof.
  intros Hd Hk. destruct (di_owns _ _ _ Hd _ _ Hk) as [O1 O2 O3 O4]. destruct (chain_size _ _ _ _ O2) as [_ Hlen].
  pose proof (blocks_for_pos _ Hlen).
  pose proof (FreeBlocks_spec bm _ (st k) w (di_inv _ _ _ Hd) O2 O1 ltac:(lia)) as Hf.
  rewrite Z2Nat.id in Hf by lia. specialize (Hf O4). destruct (FreeBlocks (st k) bm) as [bm'|]; [|done].
  destruct Hf as (Hi&Hfree&Hfile&_). exists bm'. split_and!; [done|done|done|].
  intros k' w' Hne Hk'. destruct (di_owns _ _ _ Hd _ _ Hk') as [P1 P2 _ _].
  eapply ReadValue_spec; [by rewrite Hfile|done].
Qed.

(** ** Arrays *)

(** C24. Any sequence of calls of [search], [insert], [modify] and [remove] on a new
    array, with the array saved and opened again anywhere in between, runs without
    an exception, returns what the same calls on a finite map return, failures
    included, and leaves the array with the values of that map and a cache within
    its bound (as far as a bound of 32 bits is set), however entries are swapped
    out and read back. *)
Theorem array_ops_refine (MAXC LIM n : Z) (os : list session_op) :
  LENGTH_BORDER <= MAXC -> 0 <= LIM <= W32 -> 0 <= n < KEY_LIMIT -> Forall (op_ok LIM) (calls os) ->
  KEY_LIMIT + len (calls os) * op_cost LIM < MAX_BLOCKS ->
  exists a' fs', run_session MAXC os (IVArray_build n, mk_files ∅ ∅) = Some ((map_ops (calls os) ∅).1, (a', fs')) /\
    byte_view a' = (map_ops (calls os) ∅).2 /\ (MAXC < W32 -> CurCacheSize a' <= MAXC).
Proof.
  intros HM HL Hn Hos Hroom. assert (H : 0 <= MAXC) by (unfold LENGTH_BORDER in *; lia).
  destruct (wpM_inv _ _ _ (run_session_spec MAXC HM LIM HL os ∅ KEY_LIMIT _ (mk_files ∅ ∅) ∅ eq_refl
    (build_stands MAXC ∅ n H Hn) Hos Hroom)) as (rs&[a' fs']&Hrun&->&Hs).
  exists a', fs'. split_and!; [done|by eapply byte_view_spec|].
  destruct Hs as (q&disk&Hi&_). destruct (ai_size _ _ _ _ _ _ _ Hi) as [Hc Hb]. cbn in Hc. rewrite Hc. intros Hlt. specialize (Hb Hlt).
  cbn [fst] in Hb. rewrite u32_small; [done|]. pose proof (bytes_nonneg (E a') q). lia.
Qed.

(** A value that is in the cache and was never written to the file is lost to
    [search] once its entry is pinned: [PinCache] takes it out of the queue with a
    call that also clears [cacheFlag], and [search] then looks in the file. *)
Theorem pinned_value_lost (MAXC n : Z) (saved : gmap Z Z) (a : IVArray) (m : gmap Z (list Z)) (k : Z) (v : list Z) :
  stands MAXC saved n a m -> m !! k = Some v -> cacheFlag (E a k) = true -> store (E a k) = 0 ->
  exists a', PinCache k a = Some (tt, a') /\ search MAXC k a' = Some (None, a').
Proof.
  intros (q&disk&Hi&_) Hv Hc Hst. destruct (ainv_value _ _ _ _ _ _ _ _ Hi Hv) as (Hr&Hk&Hu).
  pose proof (proj1 (ai_cached _ _ _ _ _ _ _ Hi k) Hc) as Hq. apply list_elem_of_split in Hq as (pre&post&->).
  assert (Hpin : wpM (PinCache k) a (fun _ a' => search MAXC k a' = Some (None, a'))).
  { unfold PinCache. apply wpM_bind, wpM_gets. destruct (Z.leb_spec (CurEntryNum a) k); [lia|].
    apply wpM_bind, wpM_ent; [done|]. rewrite Hu, Hc. cbn [negb]. apply wpM_bind.
    eapply wpM_mono; [|exact (RemoveFromLRUQueue_spec _ _ _ _ _ _ _ _ _ Hi)].
    intros [] a2 (_&_&HE&Cs&Cn&Cb&Cm). assert (Hr2 : in_range a2 k) by (unfold in_range; by rewrite Cb).
    apply wpM_upd; [done|]. set (a3 := updE k _ _).
    assert (Hr3 : in_range a3 k) by done.
    assert (HE3 : E a3 k = setCachePinFlag true (E a2 k)) by (unfold a3; by rewrite E_updE, decide_True).
    unfold search, bindM, gets. cbn [mbind option_bind]. change (CurEntryNum a3) with (CurEntryNum a2). rewrite (proj1 (counts_eq _ _ Cn)).
    destruct (Z.leb_spec (CurEntryNum a) k); [lia|]. rewrite (ent_run _ _ Hr3). cbn [mbind option_bind].
    rewrite HE3, HE. cbn. rewrite Hu. cbn. unfold bm_read. by rewrite Hst. }
  destruct (wpM_inv _ _ _ Hpin) as ([]&a'&Hrun&Hs). by exists a'.
Qed.

(** With the cache sizes that the indexes are opened with, no value is ever
    swapped out to make room: they exceed what the 32 bits of [CurCacheSize] can
    count up to. *)
Theorem default_cache_unbounded (c _len : Z) (fuel : nat) (a : IVArray) :
  c = MAX_BUFFER_SIZE * buffer_sID2values_build \/ c = MAX_BUFFER_SIZE * buffer_pID2values_build ->
  word (CurCacheSize a) -> 0 <= _len <= LENGTH_BORDER -> make_room c (S fuel) _len a = Some (tt, a).
Proof.
  intros Hc Hw Hl. cbn [make_room]. unfold bindM, gets. cbn [mbind option_bind].
  destruct (Z.ltb_spec c (CurCacheSize a + _len)); [|done].
  unfold MAX_BUFFER_SIZE, buffer_sID2values_build, buffer_pID2values_build, word, W32, LENGTH_BORDER in *. lia.
Qed.

(** ** The store over arrays *)

Lemma views_empty_represents {S} `{VSL : ValueStoreLaws S} (kv : KVstore S) :
  (forall sl, vs_view (get_slot kv sl) = ∅) -> represents kv ∅.
Proof.
  intros Hv. assert (Hl : forall a k, kv_lookup kv a k = None).
  { intros a k. unfold kv_lookup. destruct (route a k) as [sl key]. by rewrite Hv, lookup_empty. }
  split.
  - intros s Hs. exists []. split_and!; [by repeat constructor| |apply Hl].
    intros p x. split; [by intros ?%elem_of_nil|set_solver].
  - intros o Ho. exists []. split_and!; [by repeat constructor| |apply Hl].
    intros p x. split; [by intros ?%elem_of_nil|set_solver].
  - intros p Hp. exists []. split_and!; [constructor|constructor| |apply Hl].
    intros s o. split; [by intros ?%elem_of_nil|set_solver].
Qed.

(** The indexes over four new arrays: any sequence of allowed insertions and
    removals of triples runs to its end, cached values and files included, and the
    indexes then represent the set of triples computed by the same sequence. *)
Theorem store_over_arrays (junk : nat -> Z) (MAXC LIM n1 n2 n3 n4 : Z) (us : list update)
  (HM : LENGTH_BORDER <= MAXC) (HL : 0 <= LIM <= W32) :
  Forall (fun n => 0 <= n < KEY_LIMIT) [n1; n2; n3; n4] -> updates_allowed LIM ∅ us ->
  KEY_LIMIT + Z.of_nat (6 * length us) * op_cost LIM < MAX_BLOCKS ->
  exists kv', run_updates (VS := array_store MAXC) junk us
      (mkKV (IVArray_build n1) (IVArray_build n2) (IVArray_build n3) (IVArray_build n4)) = Some (true, kv') /\
    represents (VSL := array_store_laws MAXC LIM HM HL) kv' (foldl apply_update ∅ us).
Proof.
  intros Hn Hus Hroom. assert (HM0 : 0 <= MAXC) by (unfold LENGTH_BORDER in *; lia).
  rewrite !Forall_cons in Hn. destruct Hn as (N1&N2&N3&N4&_).
  set (kv := mkKV _ _ _ _).
  assert (Hb : forall sl, array_view (get_slot kv sl) = ∅ /\ array_room MAXC LIM (6 * length us) (get_slot kv sl)).
  { intros []; by apply build_room. }
  pose proof (run_updates_represents (VSL := array_store_laws MAXC LIM HM HL) junk us kv ∅) as Hrun.
  assert (HR : represents (VSL := array_store_laws MAXC LIM HM HL) kv ∅).
  { apply views_empty_represents. intros sl. apply Hb. }
  destruct (wpM_inv _ _ _ (Hrun HR Hus (fun sl => proj2 (Hb sl)))) as (r&kv'&E&->&H). by exists kv'.
Qed.

(** ** Witnesses *)

Definition a_bound : Z := 1000000.
Lemma a_bound_ok : LENGTH_BORDER <= a_bound.
Proof. done. Qed.

Lemma a_limit_ok : 0 <= 1000 <= W32.
Proof. done. Qed.

(** A file with one value, of key 5, and a second one. *)
Definition one_file : IVBlockManager := default (mk_BM ∅ ∅ ∅ [] 0) (snd <$> WriteValue [1; 2; 3] (IVBlockManager_build 300)).
Definition one_store (k : Z) : Z := if decide (k = 5) then 1 else 0.

Lemma no_file : disk_inv (IVBlockManager_build 300) (fun _ => 0) ∅.
Proof.
  split; [|by intros k w ?%lookup_empty_Some|done|by intros k k' w w' b _ ?%lookup_empty_Some].
  by apply AllocBlock_spec; [apply empty_bm|..].
Qed.

Lemma one_file_inv : disk_inv one_file one_store {[5 := [1; 2; 3]]}.
Proof.
  destruct (wpM_inv _ _ _ (disk_write (IVBlockManager_build 300) (fun _ => 0) ∅ 5 [1; 2; 3] no_file ltac:(done) ltac:(done)))
    as (s&bm'&Hw&_&Hd&_).
  assert (Hs : WriteValue [1; 2; 3] (IVBlockManager_build 300) = Some (1, one_file)) by (by vm_compute).
  assert (Hp : (1, one_file) = (s, bm')) by congruence. apply pair_equal_spec in Hp as [<- <-]. exact Hd.
Qed.

Lemma value_file_roundtrip_witness : exists s bm', WriteValue [7; 8] one_file = Some (s, bm') /\
  ReadValue s bm' = Some (Some [7; 8]) /\
  (forall k' w, k' <> 6 -> ({[5 := [1; 2; 3]]} : gmap Z (list Z)) !! k' = Some w -> ReadValue (one_store k') bm' = Some (Some w)) /\
  disk_inv bm' (set_store 6 s one_store) (<[6 := [7; 8]]> {[5 := [1; 2; 3]]}).
Proof. apply value_file_roundtrip; [exact one_file_inv|done|by vm_compute]. Defined.

Lemma value_file_free_witness : exists bm', FreeBlocks (one_store 5) one_file = Some bm' /\ bm_inv bm' /\
  (forall b, free bm' b <-> free one_file b \/ one_store 5 <= b < one_store 5 + blocks_for (len [1; 2; 3])) /\
  (forall k' w', k' <> 5 -> ({[5 := [1; 2; 3]]} : gmap Z (list Z)) !! k' = Some w' -> ReadValue (one_store k') bm' = Some (Some w')).
Proof. apply value_file_free; [exact one_file_inv|by vm_compute]. Defined.

Definition some_ops : list session_op :=
  [Call (OInsert 5 [1; 2; 3]); Call (OInsert 5 [4]); Reopen; Call (OModify 5 [7]); Call (OSearch 5); Call (ORemove 6)].

Lemma some_ops_ok : Forall (op_ok 100) (calls some_ops).
Proof. repeat constructor; cbn; unfold KEY_LIMIT; lia. Qed.

Lemma array_ops_refine_witness : exists a' fs',
  run_session a_bound some_ops (IVArray_build 0, mk_files ∅ ∅) = Some ((map_ops (calls some_ops) ∅).1, (a', fs')) /\
  byte_view a' = (map_ops (calls some_ops) ∅).2 /\ (a_bound < W32 -> CurCacheSize a' <= a_bound).
Proof.
  apply (array_ops_refine a_bound 100 0 some_ops); [exact a_bound_ok|done|done|exact some_ops_ok|by vm_compute].
Defined.

Lemma default_cache_unbounded_witness :
  make_room (MAX_BUFFER_SIZE * buffer_pID2values_build) 1 1000000 (IVArray_build 0) = Some (tt, IVArray_build 0).
Proof. apply default_cache_unbounded; [by right|by vm_compute|by vm_compute]. Defined.

(** A cached value that was never written. *)
Definition cached : IVArray := default (IVArray_build 0) (snd <$> run_op a_bound (OInsert 5 [1; 2; 3]) (IVArray_build 0)).

Lemma cached_stands : stands a_bound ∅ (KEY_LIMIT + op_cost 100) cached {[5 := [1; 2; 3]]}.
Proof.
  assert (Hok : op_ok 100 (OInsert 5 [1; 2; 3])) by (cbn; unfold KEY_LIMIT; lia).
  assert (Hb : stands a_bound ∅ KEY_LIMIT (IVArray_build 0) ∅) by (by apply build_stands).
  destruct (wpM_inv _ _ _ (run_op_spec a_bound a_bound_ok 100 ltac:(done) ∅ KEY_LIMIT _ _ _ Hb Hok ltac:(by vm_compute)))
    as (rs&a'&Hr&_&Hs).
  unfold cached. rewrite Hr. exact Hs.
Qed.

Lemma pinned_value_lost_witness : exists a', PinCache 5 cached = Some (tt, a') /\ search a_bound 5 a' = Some (None, a').
Proof. apply (pinned_value_lost a_bound _ ∅ cached _ 5 [1; 2; 3] cached_stands); by vm_compute. Defined.

Definition one_update : list update := [Insert (5, 1, 7)].

Lemma one_update_allowed : updates_allowed 1000 ∅ one_update.
Proof. cbn [updates_allowed one_update]. unfold update_allowed, triple_ok, key_ok, word. split_and!; by vm_compute. Qed.

Lemma store_over_arrays_witness : exists kv', run_updates (VS := array_store a_bound) (fun _ => 0) one_update
    (mkKV (IVArray_build 0) (IVArray_build 0) (IVArray_build 0) (IVArray_build 0)) = Some (true, kv') /\
  represents (VSL := array_store_laws a_bound 1000 a_bound_ok a_limit_ok) kv' (foldl apply_update ∅ one_update).
Proof.
  apply (store_over_arrays (fun _ => 0) a_bound 1000 0 0 0 0 one_update); [by repeat constructor|exact one_update_allowed|by vm_compute].
Defined.
