(* ===== verification/TxnStore.v ===== *)
(** * The transactional half of the store

    The overloads of [IVArray] (KVstore/IVArray/IVArray.cpp) and [KVstore]
    (KVstore/KVstore.cpp) that take a [Transaction]: reading the versions of an
    entry together with the stored value, writing versions, the exclusive latches
    of a triple, and the release of everything a transaction holds at its end.
    An array is a store of value lists ([ta_store]) together with the versions of
    its entries; entries that no transaction has touched are as
    [allocVersionTransation] left them.  The calls change the store and the
    transaction object; a failed [assert] is [None]. *)

From S2P Require Import Prelude Util ValueStore KVstore Version GLatch Transaction IVEntry.

Record TArray (S : Type) := mk_TArray { ta_store : S; ta_entries : gmap Z IVEntry }.
Arguments mk_TArray {S}.
Arguments ta_store {S}.
Arguments ta_entries {S}.

(** The transaction object next to a state. *)
Definition txn_get {X} : M (X * Transaction) Transaction := fun '(x, txn) => Some (txn, (x, txn)).
Definition txn_mod {X} (f : Transaction -> Transaction) : M (X * Transaction) unit :=
  fun '(x, txn) => Some (tt, (x, f txn)).

(** ** [IVArray] *)

Section Array.
Context {S : Type} `{VS : ValueStore S} `{ES : EntryStore S} (junk : nat -> Z).
Abbreviation AT := (TArray S * Transaction)%type.

(** [array_[_key]]. *)
Definition entry_at (a : TArray S) (_key : Z) : option IVEntry :=
  match ta_entries a !! _key with Some e => Some e | None => allocVersionTransation junk end.

Definition set_entry (_key : Z) (e : IVEntry) (a : TArray S) : TArray S :=
  mk_TArray (ta_store a) (<[_key := e]> (ta_entries a)).

(** A call on [array_[_key]]. *)
Definition on_entry {A} (_key : Z) (m : Transaction -> M IVEntry A) : M AT A := fun '(a, txn) =>
  e ← entry_at a _key; '(r, e) ← m txn e; Some (r, (set_entry _key e a, txn)).

(** [_key >= CurEntryNum]. *)
Definition out_of_array (_key : Z) : M AT bool := fun '(a, txn) =>
  Some (es_num (ta_store a) <=? _key, (a, txn)).

(** The answer, the value, the collected pairs and the latch flag. *)
Record search_result := mk_search {
  sr_ret : bool;
  sr_str : option (list Z);
  sr_sets : VDataSet * VDataSet;
  sr_latched : bool }.

(** After [ReadVersion] the value is read as in the overload without a
    transaction, only that an unused entry is no reason to return [false]. *)
Definition IVArray_search_txn (_key : Z) (sets : VDataSet * VDataSet) (latched is_firstread : bool)
    : M AT search_result :=
  let! out := out_of_array _key in
  if (out : bool) then retM (mk_search false None sets latched)
  else fun '(a, txn) =>
    e ← entry_at a _key;
    r ← ReadVersion sets txn latched is_firstread e;
    let a := set_entry _key (read_entry r) a in
    if negb (read_ret r) then
      if read_latched r then None
      else Some (mk_search false None (read_sets r) (read_latched r), (a, SetState ABORTED txn))
    else
      '(_str, s) ← vs_search _key (ta_store a);
      Some (mk_search true _str (read_sets r) (read_latched r), (mk_TArray s (ta_entries a), txn)).

Definition IVArray_remove_txn (_key : Z) (delta : VDataSet) : M AT bool :=
  let! out := out_of_array _key in
  if (out : bool) then retM false
  else
    let! ret := on_entry _key (fun _ => WriteVersion junk ∅ delta) in
    if ret =? 0 then let! _ := txn_mod (SetState ABORTED) in retM false else retM true.

Definition IVArray_insert_txn (_key : Z) (delta : VDataSet) : M AT bool :=
  let! out := out_of_array _key in
  if (out : bool) then retM false
  else
    let! ret := on_entry _key (fun _ => WriteVersion junk delta ∅) in
    if negb (ret =? 1) then let! _ := txn_mod (SetState ABORTED) in retM false else retM true.

Definition TryExclusiveLatch (_key : Z) (has_read : bool) : M AT Z :=
  let! out := out_of_array _key in
  if out && (MAX_KEY_NUM <=? _key) then retM 0
  else
    let! _ := (if (out : bool) then fun '(a, txn) =>
                 Some (tt, (mk_TArray (es_expand _key (ta_store a)) (ta_entries a), txn))
               else retM tt) in
    on_entry _key (fun txn => GetExclusiveLatch junk txn has_read).

Definition ReleaseLatch (_key : Z) (type : LatchType) : M AT bool :=
  let! out := out_of_array _key in
  if (out : bool) then retM false else on_entry _key (fun txn => UnLatch txn type).

Definition Rollback (_key : Z) (has_read : bool) : M AT bool :=
  let! out := out_of_array _key in
  if (out : bool) then retM false else on_entry _key (fun txn => InvalidExlusiveLatch txn has_read).

Definition CleanDirtyKey (_key : Z) : M AT bool :=
  let! out := out_of_array _key in
  if (out : bool) then retM false
  else fun '(a, txn) =>
    e ← entry_at a _key;
    if negb (is_versioned e) then Some (false, (a, txn))
    else e ← CleanAllVersion junk e; Some (true, (set_entry _key e a, txn)).
End Array.

(** ** [KVstore] *)

Section KV.
Context {S : Type} `{VS : ValueStore S} `{ES : EntryStore S} (junk : nat -> Z).
Abbreviation TW := (KVstore (TArray S) * Transaction)%type.

(** A call on the array that the key is routed to. *)
Definition on_array {A} (_array : array) (_key : Z) (m : Z -> M (TArray S * Transaction) A) : M TW A :=
  fun '(kv, txn) =>
    let '(sl, key) := route _array _key in
    '(r, (a, txn)) ← m key (get_slot kv sl, txn); Some (r, (set_slot kv sl a, txn)).

Definition getValueByKey_txn (_array : array) (_key : Z) (sets : VDataSet * VDataSet)
    (latched FirstRead : bool) : M TW search_result :=
  on_array _array _key (fun key => IVArray_search_txn junk key sets latched FirstRead).

Definition insert_values (_array : array) (_key : Z) (addset : VDataSet) : M TW bool :=
  on_array _array _key (fun key => IVArray_insert_txn junk key addset).
Definition remove_values (_array : array) (_key : Z) (delset : VDataSet) : M TW bool :=
  on_array _array _key (fun key => IVArray_remove_txn junk key delset).
Definition get_exclusive_latch (_array : array) (_key : Z) (has_read : bool) : M TW Z :=
  on_array _array _key (fun key => TryExclusiveLatch junk key has_read).
Definition invalid_values (_array : array) (_key : Z) (has_read : bool) : M TW bool :=
  on_array _array _key (fun key => Rollback junk key has_read).
Definition release_exclusive_latch (_array : array) (_key : Z) : M TW bool :=
  on_array _array _key (fun key => ReleaseLatch junk key EXCLUSIVE).
Definition release_shared_latch (_array : array) (_key : Z) : M TW bool :=
  on_array _array _key (fun key => ReleaseLatch junk key SHARED).

(** *** The updates of a triple *)

Definition updateInsert_s2values_txn (_sub_id _pre_id _obj_id : Z) : M TW bool :=
  insert_values Sub _sub_id {[(_pre_id, _obj_id)]}.
Definition updateRemove_s2values_txn (_sub_id _pre_id _obj_id : Z) : M TW bool :=
  remove_values Sub _sub_id {[(_pre_id, _obj_id)]}.
Definition updateInsert_o2values_txn (_sub_id _pre_id _obj_id : Z) : M TW bool :=
  insert_values Obj _obj_id {[(_pre_id, _sub_id)]}.
Definition updateRemove_o2values_txn (_sub_id _pre_id _obj_id : Z) : M TW bool :=
  remove_values Obj _obj_id {[(_pre_id, _sub_id)]}.
Definition updateInsert_p2values_txn (_sub_id _pre_id _obj_id : Z) : M TW bool :=
  insert_values Pre _pre_id {[(_sub_id, _obj_id)]}.
Definition updateRemove_p2values_txn (_sub_id _pre_id _obj_id : Z) : M TW bool :=
  remove_values Pre _pre_id {[(_sub_id, _obj_id)]}.

Definition updateTupleslist_insert_txn (_sub_id _pre_id _obj_id : Z) : M TW bool :=
  andM (updateInsert_s2values_txn _sub_id _pre_id _obj_id)
    (andM (updateInsert_o2values_txn _sub_id _pre_id _obj_id)
          (updateInsert_p2values_txn _sub_id _pre_id _obj_id)).
Definition updateTupleslist_remove_txn (_sub_id _pre_id _obj_id : Z) : M TW bool :=
  andM (updateRemove_s2values_txn _sub_id _pre_id _obj_id)
    (andM (updateRemove_o2values_txn _sub_id _pre_id _obj_id)
          (updateRemove_p2values_txn _sub_id _pre_id _obj_id)).

(** *** The latches of a triple *)

Definition try_exclusive_lock (_sub_id _pre_id _obj_id : Z) : M TW bool :=
  let! txn := txn_get in
  let sub_has_read := ReadSetFind _sub_id SUBJECT txn in
  let pre_has_read := ReadSetFind _pre_id PREDICATE txn in
  let obj_has_read := ReadSetFind _obj_id OBJECT txn in
  let sub_has_write := WriteSetFind _sub_id SUBJECT txn in
  let pre_has_write := WriteSetFind _pre_id PREDICATE txn in
  let obj_has_write := WriteSetFind _obj_id OBJECT txn in
  let! pre_ret := (if negb pre_has_write then get_exclusive_latch Pre _pre_id pre_has_read else retM 0) in
  if negb pre_has_write && (pre_ret =? 0) then
    let! _ := txn_mod (SetErrorType PRE_X) in retM false
  else
    let! sub_ret := (if negb sub_has_write then get_exclusive_latch Sub _sub_id sub_has_read else retM 0) in
    if negb sub_has_write && (sub_ret =? 0) then
      let! _ := txn_mod (SetErrorType SUB_X) in
      let! invalid_pre := (if negb pre_has_write && (pre_ret =? 1)
                           then invalid_values Pre _pre_id pre_has_read else retM true) in
      let! _ := assert_M invalid_pre in retM false
    else
      let! obj_ret := (if negb obj_has_write then get_exclusive_latch Obj _obj_id obj_has_read else retM 0) in
      if negb obj_has_write && (obj_ret =? 0) then
        let! _ := txn_mod (SetErrorType OBJ_X) in
        let! invalid_pre := (if negb pre_has_write && (pre_ret =? 1)
                             then invalid_values Pre _pre_id pre_has_read else retM true) in
        let! _ := assert_M invalid_pre in
        let! invalid_sub := (if negb sub_has_write && (sub_ret =? 1)
                             then invalid_values Sub _sub_id sub_has_read else retM true) in
        let! _ := assert_M invalid_sub in retM false
      else retM true.

Definition GetExclusiveLock (_sub_id _pre_id _obj_id : Z) : M TW bool :=
  let! ok := try_exclusive_lock _sub_id _pre_id _obj_id in
  if (ok : bool) then retM true else retM false.

Definition ReleaseExclusiveLock (_sub_id _pre_id _obj_id : Z) : M TW bool :=
  let! txn := txn_get in
  let release ty a _id ret :=
    if negb (WriteSetFind _id ty txn) then
      let! ok := invalid_values a _id (ReadSetFind _id ty txn) in
      retM (if (ok : bool) then ret else false)
    else retM ret in
  let! ret := release SUBJECT Sub _sub_id true in
  let! ret := release OBJECT Obj _obj_id ret in
  release PREDICATE Pre _pre_id ret.

(** *** The end of a transaction *)

(** [for(auto &it: ids) if(release(it) == false) ret = false]. *)
Fixpoint release_all (release : Z -> M TW bool) (ids : list Z) (ret : bool) : M TW bool :=
  match ids with
  | [] => retM ret
  | it :: ids' => let! ok := release it in release_all release ids' (if (ok : bool) then ret else false)
  end.

Definition id_set (ty : IDType) (sets : list IDSet) : IDSet := default ∅ (sets !! ix ty).

(** The ids of the read set that are not in the write set; the order in which an
    [unordered_set] is walked is that of [elements]. *)
Definition only_read (ty : IDType) (txn : Transaction) : list Z :=
  filter (fun id => id ∉ id_set ty (WriteSet txn)) (elements (id_set ty (ReadSet txn))).

Definition write_ids (ty : IDType) (txn : Transaction) : list Z := elements (id_set ty (WriteSet txn)).

Definition release_shared_latches : M TW bool :=
  let! txn := txn_get in
  if IS_SR txn then
    let! ret1 := release_all (release_shared_latch Pre) (only_read PREDICATE txn) true in
    let! ret1 := release_all (release_shared_latch Sub) (only_read SUBJECT txn) ret1 in
    release_all (release_shared_latch Obj) (only_read OBJECT txn) ret1
  else retM true.

Definition ReleaseAllLocks : M TW bool :=
  let! txn := txn_get in
  let! ret1 := release_shared_latches in
  let! ret2 := release_all (release_exclusive_latch Pre) (write_ids PREDICATE txn) true in
  let! ret2 := release_all (release_exclusive_latch Sub) (write_ids SUBJECT txn) ret2 in
  let! ret2 := release_all (release_exclusive_latch Obj) (write_ids OBJECT txn) ret2 in
  let! _ := assert_M (ret1 && ret2) in retM (ret1 && ret2).

Definition TransactionInvalid : M TW bool :=
  let! txn := txn_get in
  let! ret1 := release_shared_latches in
  let! ret2 := release_all (fun it => invalid_values Pre it false) (write_ids PREDICATE txn) true in
  let! ret2 := release_all (fun it => invalid_values Sub it false) (write_ids SUBJECT txn) ret2 in
  let! ret2 := release_all (fun it => invalid_values Obj it false) (write_ids OBJECT txn) ret2 in
  let! _ := assert_M (ret1 && ret2) in retM (ret1 && ret2).

(** ** [Database]

    [insertTriple] and [removeTriple] in a transaction, from where the ids of the
    triple are known, and the end of a transaction. *)

Definition insertTriple_txn (_sub_id _pre_id _obj_id : Z) : M TW bool :=
  let! ok := GetExclusiveLock _sub_id _pre_id _obj_id in
  if negb ok then let! _ := txn_mod (SetState ABORTED) in retM false
  else
    let! ret := updateTupleslist_insert_txn _sub_id _pre_id _obj_id in
    if (ret : bool) then let! _ := txn_mod (WriteSetInsert _sub_id _pre_id _obj_id) in retM true
    else
      let! _ := txn_mod (SetState ABORTED) in
      let! _ := ReleaseExclusiveLock _sub_id _pre_id _obj_id in retM false.

Definition removeTriple_txn (_sub_id _pre_id _obj_id : Z) : M TW bool :=
  let! ok := GetExclusiveLock _sub_id _pre_id _obj_id in
  if negb ok then let! _ := txn_mod (SetState ABORTED) in retM false
  else
    let! ret := updateTupleslist_remove_txn _sub_id _pre_id _obj_id in
    if (ret : bool) then let! _ := txn_mod (WriteSetInsert _sub_id _pre_id _obj_id) in retM true
    else
      let! _ := txn_mod (SetState ABORTED) in
      let! _ := ReleaseExclusiveLock _sub_id _pre_id _obj_id in retM false.

(** The answers are only logged. *)
Definition TransactionCommit : M TW unit := let! _ := ReleaseAllLocks in retM tt.
Definition TransactionRollback : M TW unit := let! _ := TransactionInvalid in retM tt.
End KV.
