(* ===== verification/TxnStoreSpec.v ===== *)
(** * What the transactional calls do to the entries

    Every entry of the store has a label: its history, its pending change and the
    holders of its latch.  [kinv n kv L] says that the entries realise the labels
    [L], that entries beyond the end of their array are untouched, and that the
    arrays have room for [n] more operations.  Each call of [KVstore] on one key
    changes the label of that key and nothing else. *)

From S2P Require Import Prelude Util ValueStore KVstore Version VersionSpec GLatch Transaction IVEntry IVEntrySpec IVEntrySystem TxnStore.

Record label := mk_label {
  l_hist : list commit;
  l_pend : option pending;
  l_hold : holders }.

Definition fresh_label : label := mk_label [first_commit] None (Free_or_shared []).

Abbreviation labels := (array -> Z -> label).

Definition lset (a : array) (k : Z) (l : label) (L : labels) : labels :=
  fun a' k' => if decide ((a', k') = (a, k)) then l else L a' k'.

Lemma lset_eq a k l L : lset a k l L a k = l.
Proof. unfold lset. by rewrite decide_True. Qed.
Lemma lset_ne a k l L a' k' : (a', k') <> (a, k) -> lset a k l L a' k' = L a' k'.
Proof. intros. unfold lset. by rewrite decide_False. Qed.

Lemma lset_id a k L a' k' : lset a k (L a k) L a' k' = L a' k'.
Proof. unfold lset. destruct (decide ((a', k') = (a, k))) as [Heq|]; [|done]. by injection Heq as -> ->. Qed.
Lemma lset_twice a k l l' L a' k' : lset a k l (lset a k l' L) a' k' = lset a k l L a' k'.
Proof. unfold lset. by destruct (decide ((a', k') = (a, k))). Qed.

(** The flag of an entry survives every call but [CleanAllVersion]. *)
Lemma on_glatch_versioned m e r e' : on_glatch m e = Some (r, e') -> is_versioned e' = is_versioned e.
Proof. unfold on_glatch. destruct (m (glatch e)) as [[b g]|]; cbn; [|done]. by intros [= <- <-]. Qed.

Lemma pop_versioned e e' : pop_version e = Some e' -> is_versioned e' = is_versioned e.
Proof. unfold pop_version. destruct (newest e); cbn; [|done]. by intros [= <-]. Qed.

Lemma invalid_versioned txn hr e r e' :
  InvalidExlusiveLatch txn hr e = Some (r, e') -> is_versioned e' = is_versioned e.
Proof.
  unfold InvalidExlusiveLatch. intros H. destruct (IS_SR txn); [destruct hr|];
    repeat match goal with
    | H : _ ≫= _ = Some _ |- _ => apply bind_Some in H as (?&?&?)
    | p : (_ * _)%type |- _ => destruct p
    | H : (if ?b then _ else _) = Some _ |- _ => destruct b; try done
    | H : Some _ = Some _ |- _ => injection H as <- <-
    | H : on_glatch _ _ = Some _ |- _ => apply on_glatch_versioned in H
    | H : pop_version _ = Some _ |- _ => apply pop_versioned in H
    end; congruence.
Qed.

Lemma unlatch_versioned txn ty e r e' : UnLatch txn ty e = Some (r, e') -> is_versioned e' = is_versioned e.
Proof.
  unfold UnLatch. destruct ty.
  - destruct (IS_SR txn); [apply on_glatch_versioned|]. by intros [= <- <-].
  - intros H. apply bind_Some in H as ([b e1]&H1&H2).
    assert (is_versioned e1 = is_versioned e) as E.
    { destruct (IS_SR txn); [by eapply on_glatch_versioned|]. by injection H1 as <- <-. }
    destruct b; cbn in H2; [|by injection H2 as <- <-].
    apply bind_Some in H2 as (vs&_&H2). by injection H2 as <- <-.
Qed.

Section Spec.
Context {S : Type} `{ESL : EntryStoreLaws S} (junk : nat -> Z) (level : Z -> IsolationLevelType).
Abbreviation TKV := (KVstore (TArray S)).

Definition arr (kv : TKV) (a : array) (k : Z) : TArray S := get_slot kv (route a k).1.
Abbreviation rkey a k := ((route a k).2).

(** The stores of value lists alone. *)
Definition base_kv (kv : TKV) : KVstore S :=
  mkKV (ta_store (subID2values kv)) (ta_store (preID2values kv)) (ta_store (objID2values kv))
    (ta_store (objID2values_literal kv)).

Lemma get_base kv sl : get_slot (base_kv kv) sl = ta_store (get_slot kv sl).
Proof. by destruct sl. Qed.

Definition same_base (kv kv' : TKV) : Prop :=
  forall a k, kv_lookup (base_kv kv') a k = kv_lookup (base_kv kv) a k.

(** [e] realises [l], and its version flag is set when there is anything to
    clean. *)
Definition labelled (e : IVEntry) (l : label) : Prop :=
  einv level (mk_estate e (l_hist l) (l_pend l) (l_hold l)) /\
  (l_hist l = [first_commit] /\ l_pend l = None \/ is_versioned e = true).

Record kinv (n : nat) (kv : TKV) (L : labels) : Prop := {
  ki_entry a k : word k -> exists e, entry_at junk (arr kv a k) (rkey a k) = Some e /\ labelled e (L a k);
  ki_fresh a k : word k -> es_num (ta_store (arr kv a k)) <= rkey a k -> L a k = fresh_label;
  ki_room : kv_room n (base_kv kv) }.

Lemma kinv_ext n kv L L' : (forall a k, word k -> L' a k = L a k) -> kinv n kv L -> kinv n kv L'.
Proof.
  intros HL [He Hf Hr]. split; [|by intros; rewrite HL; [apply Hf|]|done].
  intros a k Hk. rewrite HL by done. by apply He.
Qed.

Lemma get_set_tslot (kv : TKV) sl sl' a :
  get_slot (set_slot kv sl a) sl' = if decide (sl' = sl) then a else get_slot kv sl'.
Proof. by destruct sl, sl'. Qed.

Lemma set_set_slot (kv : TKV) sl x y : set_slot (set_slot kv sl x) sl y = set_slot kv sl y.
Proof. by destruct sl. Qed.

Lemma arr_set kv a k x a' k' : arr (set_slot kv (route a k).1 x) a' k' =
  if decide ((route a' k').1 = (route a k).1) then x else arr kv a' k'.
Proof. apply get_set_tslot. Qed.

(** Replacing one array by one with the same number of entries, the same values
    and one changed entry. *)
Lemma kinv_set n kv L a k x e l : kinv n kv L -> word k ->
  es_num (ta_store (arr kv a k)) <= es_num (ta_store x) -> rkey a k < es_num (ta_store x) ->
  ta_entries x = <[rkey a k := e]> (ta_entries (arr kv a k)) -> labelled e l ->
  vs_room n (ta_store x) ->
  kinv n (set_slot kv (route a k).1 x) (lset a k l L).
Proof.
  intros [He Hf Hr] Hk Hmono Hnum Hx Hl Hroom. split.
  - intros a' k' Hk'. destruct (He a' k' Hk') as (e'&He'&Hl'). rewrite arr_set.
    destruct (decide ((a', k') = (a, k))) as [[= -> ->]|Hne].
    { exists e. rewrite lset_eq, decide_True by done. unfold entry_at. by rewrite Hx, lookup_insert_eq. }
    rewrite lset_ne by done. exists e'. split; [|done]. case_decide as Hs; [|done].
    unfold entry_at in *. rewrite Hx, lookup_insert_ne; [unfold arr in *; by rewrite <- Hs|].
    intros Hkey. apply Hne, route_inj; [done..|]. by apply injective_projections.
  - intros a' k' Hk'. rewrite arr_set. case_decide as Hs.
    + intros Hge. destruct (decide ((a', k') = (a, k))) as [[= -> ->]|Hne]; [lia|].
      rewrite lset_ne by done. apply Hf; [done|]. unfold arr in *. rewrite Hs. lia.
    + intros Hge. rewrite lset_ne; [by apply Hf|]. by intros [= -> ->].
  - intros sl. rewrite get_base, get_set_tslot. case_decide; [done|]. rewrite <- get_base. apply Hr.
Qed.

Lemma same_base_set kv a k x : vs_view (ta_store x) = vs_view (ta_store (arr kv a k)) ->
  same_base kv (set_slot kv (route a k).1 x).
Proof.
  intros Hv a' k'. unfold kv_lookup. rewrite !get_base, get_set_tslot. case_decide as Hs; [|done].
  rewrite Hv. unfold arr. by rewrite Hs.
Qed.

Lemma same_base_refl kv : same_base kv kv.
Proof. done. Qed.
Lemma same_base_trans kv1 kv2 kv3 : same_base kv1 kv2 -> same_base kv2 kv3 -> same_base kv1 kv3.
Proof. intros H1 H2 a k. by rewrite H2, H1. Qed.

(** An entry with a label of its own lies in the array. *)
Lemma in_array n kv L a k txn : kinv n kv L -> word k -> L a k <> fresh_label ->
  out_of_array (rkey a k) (arr kv a k, txn) = Some (false, (arr kv a k, txn)).
Proof.
  intros Hi Hk Hne. unfold out_of_array. destruct (Z.leb_spec (es_num (ta_store (arr kv a k))) (rkey a k)) as [Hge|];
    [|done]. by destruct Hne; apply (ki_fresh _ _ _ Hi).
Qed.

(** A call on one entry. *)
Lemma on_entry_call n kv L a k txn {A} (m : Transaction -> M IVEntry A) e r e' l :
  kinv n kv L -> word k -> rkey a k < es_num (ta_store (arr kv a k)) ->
  entry_at junk (arr kv a k) (rkey a k) = Some e -> m txn e = Some (r, e') -> labelled e' l ->
  exists x, on_entry junk (rkey a k) m (arr kv a k, txn) = Some (r, (x, txn)) /\
    kinv n (set_slot kv (route a k).1 x) (lset a k l L) /\
    same_base kv (set_slot kv (route a k).1 x).
Proof.
  intros Hi Hk Hnum He Hm Hl. exists (set_entry (rkey a k) e' (arr kv a k)). unfold on_entry.
  rewrite He. cbn [mbind option_bind]. rewrite Hm. split_and!; [done| |by apply same_base_set].
  eapply kinv_set; try done. pose proof (ki_room _ _ _ Hi (route a k).1) as Hr. by rewrite get_base in Hr.
Qed.

(** A call on one key of [KVstore] that works on an entry of the array. *)
Lemma on_array_entry n kv L a k txn {A} (m : Transaction -> M IVEntry A) (out : A) e r e' l :
  kinv n kv L -> word k -> L a k <> fresh_label ->
  entry_at junk (arr kv a k) (rkey a k) = Some e -> m txn e = Some (r, e') -> labelled e' l ->
  exists kv', on_array a k (fun key => let! o := out_of_array key in
      if (o : bool) then retM out else on_entry junk key m) (kv, txn) = Some (r, (kv', txn)) /\
    kinv n kv' (lset a k l L) /\ same_base kv kv'.
Proof.
  intros Hi Hk Hne He Hm Hl.
  assert (Hnum : rkey a k < es_num (ta_store (arr kv a k))).
  { destruct (Z.lt_ge_cases (rkey a k) (es_num (ta_store (arr kv a k)))) as [|Hge]; [done|].
    by destruct Hne; apply (ki_fresh _ _ _ Hi). }
  destruct (on_entry_call n kv L a k txn m e r e' l) as (x&Hx&Hi'&Hb); [done..|].
  exists (set_slot kv (route a k).1 x). split_and!; [|done..].
  pose proof (in_array n kv L a k txn Hi Hk Hne) as Ho. unfold on_array, arr, bindM in *.
  destruct (route a k) as [sl key]. cbn [fst snd] in *. rewrite Ho. cbn [mbind option_bind]. by rewrite Hx.
Qed.

(** ** The calls of one transaction *)

Context (txn : Transaction) (Hrun : runs_in level txn).

(** The condition under which the entry is granted to the writer, and the labels
    after the calls. *)
Definition may_lock (has_read : bool) (l : label) : Prop :=
  may_write (TID txn) (IS_RC txn) (l_hist l) (l_pend l) /\ (grants txn has_read (l_hold l)).1 = true.

Definition locked_label (has_read : bool) (l : label) : label :=
  mk_label (l_hist l) (Some (mk_pending (TID txn) [] [])) (grants txn has_read (l_hold l)).2.
Definition aborted_label (has_read : bool) (l : label) : label :=
  mk_label (l_hist l) None
    (hold_if (IS_SR txn) (Free_or_shared (if has_read then [TID txn] else [])) (l_hold l)).
Definition written_label (A D : VDataSet) (l : label) : label :=
  mk_label (l_hist l) ((fun p => written p A D) <$> l_pend l) (l_hold l).
Definition committed_label (l : label) : label :=
  mk_label (l_hist l ++ from_option (fun p => [committed (CommitID txn) p]) [] (l_pend l)) None
    (hold_if (IS_SR txn) (Free_or_shared []) (l_hold l)).
Definition unshared_label (l : label) : label :=
  mk_label (l_hist l) (l_pend l)
    (match l_hold l with Free_or_shared rs => Free_or_shared (remove_one (TID txn) rs) | h => h end).

(** The transaction writes the entry, or shares its latch. *)
Definition writes (l : label) : Prop := mine txn (l_pend l).

Lemma writes_not_fresh l : writes l -> l <> fresh_label.
Proof. intros (p&Hp&_) ->. done. Qed.
Lemma shares_not_fresh l : shares txn (l_hold l) -> l <> fresh_label.
Proof. intros (rs&Hrs&Hin) ->. injection Hrs as <-. by apply elem_of_nil in Hin. Qed.

(** The protocol of the callers: [has_read] tells whether the latch is shared. *)
Definition knows_share (has_read : bool) (l : label) : Prop :=
  IS_SR txn = true -> has_read = true <-> shares txn (l_hold l).

(** The array once it has grown to the key. *)
Definition grown (key : Z) (x : TArray S) : TArray S :=
  if es_num (ta_store x) <=? key then mk_TArray (es_expand key (ta_store x)) (ta_entries x) else x.

Lemma TryExclusiveLatch_grown key has_read x : key < MAX_KEY_NUM ->
  TryExclusiveLatch junk key has_read (x, txn) =
  on_entry junk key (fun txn => GetExclusiveLatch junk txn has_read) (grown key x, txn).
Proof.
  intros Hk. unfold TryExclusiveLatch, out_of_array, bindM, grown. cbn [mbind option_bind].
  rewrite (proj2 (Z.leb_gt _ _) Hk), andb_false_r. by destruct (es_num (ta_store x) <=? key).
Qed.

Lemma kinv_grown n kv L a k : kinv n kv L -> key_ok a k ->
  let kv' := set_slot kv (route a k).1 (grown (rkey a k) (arr kv a k)) in
  kinv n kv' L /\ same_base kv kv' /\ rkey a k < es_num (ta_store (arr kv' a k)).
Proof.
  intros Hi [Hw Hk]. pose proof (ki_room _ _ _ Hi (route a k).1) as Hr. rewrite get_base in Hr.
  fold (arr kv a k) in Hr. destruct (ki_entry _ _ _ Hi a k Hw) as (e&He&Hl). unfold grown.
  destruct (Z.leb_spec (es_num (ta_store (arr kv a k))) (rkey a k)) as [Hge|Hlt].
  - pose proof (es_expand_num _ n _ Hr Hk Hge) as Hnum. cbv zeta. split_and!.
    + destruct Hi as [Hie Hif Hir]. split.
      * intros a' k' Hk'. destruct (Hie a' k' Hk') as (e'&He'&Hl'). exists e'. split; [|done].
        rewrite arr_set. case_decide as Hs; [|done]. unfold arr in *. by rewrite Hs in He'.
      * intros a' k' Hk'. rewrite arr_set. case_decide as Hs; [|by apply Hif]. cbn. intros Hge'.
        apply Hif; [done|]. unfold arr in *. rewrite Hs. lia.
      * intros sl. rewrite get_base, get_set_tslot. case_decide as Hs; [|rewrite <- get_base; apply Hir].
        by apply es_expand_room.
    + apply same_base_set. by apply (es_expand_view _ n).
    + by rewrite arr_set, decide_True.
  - assert (set_slot kv (route a k).1 (arr kv a k) = kv) as -> by (unfold arr; by destruct kv, (route a k).1).
    by split_and!.
Qed.

(** [get_exclusive_latch]: the entry is locked exactly when it may be, and
    otherwise no label changes. *)
Lemma get_exclusive_latch_spec n kv L a k has_read :
  kinv n kv L -> key_ok a k -> ~ writes (L a k) -> knows_share has_read (L a k) ->
  exists ret kv', get_exclusive_latch junk a k has_read (kv, txn) = Some (ret, (kv', txn)) /\
    same_base kv kv' /\
    ((ret = 1 /\ may_lock has_read (L a k) /\ l_pend (L a k) = None /\
      kinv n kv' (lset a k (locked_label has_read (L a k)) L)) \/
     (ret = 0 /\ ~ may_lock has_read (L a k) /\ kinv n kv' L)).
Proof.
  intros Hi0 Hk Hnw Hkn. destruct (kinv_grown _ _ _ a k Hi0 Hk) as (Hi&Hb&Hnum). cbv zeta in *.
  set (kv1 := set_slot kv (route a k).1 (grown (rkey a k) (arr kv a k))) in *.
  destruct (ki_entry _ _ _ Hi a k (proj1 Hk)) as (e&He&Hl&Hver).
  pose proof (einv_holders _ _ Hl) as Hh. cbn [hold] in Hh.
  destruct (GetExclusiveLatch_spec junk txn (proj1 Hrun) has_read e (l_hist (L a k)) (l_pend (L a k)) (l_hold (L a k)))
    as (ret&e'&Hg&Hc); [apply Hl|apply Hrun| |apply Hl|done| |].
  { intros p Hp Ht. apply Hnw. by exists p. }
  { intros -> Hsr. by apply (Hkn Hsr). }
  pose proof (einv_lock _ _ _ _ _ _ _ Hl Hrun Hnw Hkn Hg) as Hl'. cbn [ent hist pend hold] in Hl'.
  assert (Hcall : forall l, labelled e' l -> exists kv2,
    get_exclusive_latch junk a k has_read (kv, txn) = Some (ret, (kv2, txn)) /\
    kinv n kv2 (lset a k l L) /\ same_base kv kv2).
  { intros l Hll. destruct (on_entry_call n kv1 L a k txn (fun txn => GetExclusiveLatch junk txn has_read) e ret e' l)
      as (x&Hx&Hi'&Hb'); [done|apply Hk|done..|].
    exists (set_slot kv (route a k).1 x). unfold kv1 in *. rewrite set_set_slot in Hi', Hb'. split_and!; [|done|].
    - destruct Hk as [_ Hk]. unfold get_exclusive_latch, on_array, arr in *. destruct (route a k) as [sl key].
      cbn [fst snd] in *. rewrite TryExclusiveLatch_grown by (unfold KEY_LIMIT, MAX_KEY_NUM in *; lia).
      rewrite get_set_tslot, decide_True in Hx by done. by rewrite Hx.
    - by eapply same_base_trans. }
  destruct Hc as [(->&Hp&Hmw&Hgr&_&_&Hv)|(->&->&Hno)].
  - rewrite decide_True, bool_decide_true in Hl' by done. cbn [hold_if] in Hl'.
    destruct (Hcall (locked_label has_read (L a k))) as (kv2&Hcal&Hi2&Hb2).
    { split; [done|]. by right. }
    exists 1, kv2. split_and!; [done..|]. left. split_and!; try done.
  - destruct (Hcall (L a k)) as (kv2&Hcal&Hi2&Hb2); [by split|].
    exists 0, kv2. split_and!; [done..|]. right. split_and!; [done| |].
    + intros [Hmw Hgr]. destruct Hno as [|Hno]; [done|congruence].
    + eapply kinv_ext; [|exact Hi2]. intros. by rewrite lset_id.
Qed.

(** The entry of a key the transaction writes, and the same call at the level of
    [KVstore]. *)
Lemma writer_entry n kv L a k : kinv n kv L -> word k -> writes (L a k) ->
  exists e p, entry_at junk (arr kv a k) (rkey a k) = Some e /\ l_pend (L a k) = Some p /\ p_tid p = TID txn /\
    einv level (mk_estate e (l_hist (L a k)) (Some p) (l_hold (L a k))) /\ is_versioned e = true.
Proof.
  intros Hi Hk (p&Hp&Ht). destruct (ki_entry _ _ _ Hi a k Hk) as (e&He&Hl&Hv). rewrite Hp in *.
  exists e, p. split_and!; try done. by destruct Hv as [[_ ?]|].
Qed.

(** Giving back an entry that was written: its pending change is dropped. *)
Lemma invalid_values_spec n kv L a k has_read : kinv n kv L -> word k -> writes (L a k) ->
  exists kv', invalid_values junk a k has_read (kv, txn) = Some (true, (kv', txn)) /\
    same_base kv kv' /\ kinv n kv' (lset a k (aborted_label has_read (L a k)) L).
Proof.
  intros Hi Hk Hw. destruct (writer_entry _ _ _ _ _ Hi Hk Hw) as (e&p&He&Hp&Ht&Hl&Hv).
  pose proof (einv_writer_latch level _ _ _ Hl Hrun eq_refl Ht) as Hwl.
  destruct (wpM_inv _ _ _ (InvalidExlusiveLatch_spec txn (proj1 Hrun) has_read _ _ _ (ei_entry _ _ Hl) Hwl))
    as (r&e'&Hcall&->&_&_).
  pose proof (einv_abort level _ _ _ has_read _ _ Hl Hrun eq_refl Ht Hcall) as Hl'.
  destruct (on_array_entry n kv L a k txn (fun txn => InvalidExlusiveLatch txn has_read) false e true e'
    (aborted_label has_read (L a k))) as (kv'&Hr&Hi'&Hb); [done|done|by apply writes_not_fresh|done|done| |].
  - split; [done|]. right. by rewrite (invalid_versioned _ _ _ _ _ Hcall).
  - by exists kv'.
Qed.

(** Writing pairs into the pending change. *)
Lemma write_entry_spec n kv L a k A D p : kinv n kv L -> word k -> writes (L a k) ->
  l_pend (L a k) = Some p -> fits p (len (set_order A) + len (set_order D)) ->
  exists x, (let! out := out_of_array (rkey a k) in
      if (out : bool) then retM 0 else on_entry junk (rkey a k) (fun _ => WriteVersion junk A D)) (arr kv a k, txn) =
      Some (1, (x, txn)) /\
    same_base kv (set_slot kv (route a k).1 x) /\
    kinv n (set_slot kv (route a k).1 x) (lset a k (written_label A D (L a k)) L).
Proof.
  intros Hi Hk Hw Hp Hf. destruct (writer_entry _ _ _ _ _ Hi Hk Hw) as (e&p'&He&Hp'&Ht&Hl&Hv).
  rewrite Hp in Hp'. injection Hp' as <-.
  destruct (wpM_inv _ _ _ (WriteVersion_spec junk A D _ _ _ (ei_entry _ _ Hl) Hf)) as (r&e'&Hcall&->&_&_&Hver).
  pose proof (einv_write junk level _ _ _ A D _ _ Hl Hrun eq_refl Hf Hcall) as Hl'.
  pose proof (in_array n kv L a k txn Hi Hk (writes_not_fresh _ Hw)) as Ho.
  assert (Hnum : rkey a k < es_num (ta_store (arr kv a k))).
  { unfold out_of_array in Ho. injection Ho as Ho. by apply Z.leb_gt. }
  destruct (on_entry_call n kv L a k txn (fun _ => WriteVersion junk A D) e 1 e' (written_label A D (L a k)))
    as (x&Hx&Hi'&Hb); [done..| |].
  - split; [unfold written_label; by rewrite Hp|]. right. by rewrite Hver.
  - exists x. split_and!; [|done..]. unfold bindM at 1. by rewrite Ho.
Qed.

Lemma insert_values_spec n kv L a k A p : kinv n kv L -> word k -> writes (L a k) ->
  l_pend (L a k) = Some p -> fits p (len (set_order A)) ->
  exists kv', insert_values junk a k A (kv, txn) = Some (true, (kv', txn)) /\
    same_base kv kv' /\ kinv n kv' (lset a k (written_label A ∅ (L a k)) L).
Proof.
  intros Hi Hk Hw Hp Hf.
  destruct (write_entry_spec n kv L a k A ∅ p) as (x&Hx&Hb&Hi'); [done..|by rewrite Z.add_0_r|].
  exists (set_slot kv (route a k).1 x). split_and!; [|done..].
  unfold insert_values, on_array, arr, IVArray_insert_txn, bindM in *. destruct (route a k) as [sl key]. cbn [fst snd] in *.
  destruct (out_of_array key (get_slot kv sl, txn)) as [[[] st]|]; cbn [mbind option_bind] in *; [done| |done].
  by rewrite Hx.
Qed.

Lemma remove_values_spec n kv L a k D p : kinv n kv L -> word k -> writes (L a k) ->
  l_pend (L a k) = Some p -> fits p (len (set_order D)) ->
  exists kv', remove_values junk a k D (kv, txn) = Some (true, (kv', txn)) /\
    same_base kv kv' /\ kinv n kv' (lset a k (written_label ∅ D (L a k)) L).
Proof.
  intros Hi Hk Hw Hp Hf.
  destruct (write_entry_spec n kv L a k ∅ D p) as (x&Hx&Hb&Hi'); [done..|].
  exists (set_slot kv (route a k).1 x). split_and!; [|done..].
  unfold remove_values, on_array, arr, IVArray_remove_txn, bindM in *. destruct (route a k) as [sl key]. cbn [fst snd] in *.
  destruct (out_of_array key (get_slot kv sl, txn)) as [[[] st]|]; cbn [mbind option_bind] in *; [done| |done].
  by rewrite Hx.
Qed.

(** Committing an entry. *)
Lemma release_exclusive_latch_spec n kv L a k : kinv n kv L -> word k -> writes (L a k) ->
  Forall (fun c => c_id c <= CommitID txn) (l_hist (L a k)) -> 0 <= CommitID txn < INVALID_TS ->
  exists kv', release_exclusive_latch junk a k (kv, txn) = Some (true, (kv', txn)) /\
    same_base kv kv' /\ kinv n kv' (lset a k (committed_label (L a k)) L).
Proof.
  intros Hi Hk Hw Hh Hc. destruct (writer_entry _ _ _ _ _ Hi Hk Hw) as (e&p&He&Hp&Ht&Hl&Hv).
  pose proof (einv_writer_latch level _ _ _ Hl Hrun eq_refl Ht) as Hwl.
  destruct (wpM_inv _ _ _ (UnLatch_exclusive_spec txn (proj1 Hrun) _ _ _ (ei_entry _ _ Hl) Hwl Hh Hc))
    as (r&e'&Hcall&->&_&_).
  pose proof (einv_commit level _ _ _ _ _ Hl Hrun eq_refl Ht Hh Hc Hcall) as Hl'.
  destruct (on_array_entry n kv L a k txn (fun txn => UnLatch txn EXCLUSIVE) false e true e'
    (committed_label (L a k))) as (kv'&Hr&Hi'&Hb); [done|done|by apply writes_not_fresh|done|done| |].
  - split; [unfold committed_label; by rewrite Hp|]. right. by rewrite (unlatch_versioned _ _ _ _ _ Hcall).
  - by exists kv'.
Qed.

(** Giving back a share of the latch. *)
Lemma release_shared_latch_spec n kv L a k : kinv n kv L -> word k -> IS_SR txn = true -> shares txn (l_hold (L a k)) ->
  exists kv', release_shared_latch junk a k (kv, txn) = Some (true, (kv', txn)) /\
    same_base kv kv' /\ kinv n kv' (lset a k (unshared_label (L a k)) L).
Proof.
  intros Hi Hk Hsr Hs. pose proof (shares_not_fresh _ Hs) as Hne. destruct Hs as (rs&Hrs&Hin).
  destruct (ki_entry _ _ _ Hi a k Hk) as (e&He&Hl&Hv). pose proof (einv_holders _ _ Hl) as Hh. cbn [hold] in Hh.
  rewrite Hrs in Hh. pose proof (ei_latch _ _ Hl) as Hg. cbn [ent hold] in Hg. rewrite Hrs in Hg.
  pose proof (UnLatch_shared_spec txn e rs Hsr Hg Hh Hin) as Hcall.
  pose proof (einv_unshare level _ _ _ _ _ Hl Hrun Hsr Hrs Hin Hcall) as Hl'.
  destruct (on_array_entry n kv L a k txn (fun txn => UnLatch txn SHARED) false e true _
    (unshared_label (L a k)) Hi Hk Hne He Hcall) as (kv'&Hr&Hi'&Hb).
  - split; [unfold unshared_label; by rewrite Hrs|]. by destruct Hv; [left|right].
  - by exists kv'.
Qed.
End Spec.
