(* ===== verification/TxnLocks.v ===== *)
(** * Locking, writing and releasing the entries of a transaction

    [owns txn L]: the read and write sets of the transaction say exactly which
    entries it writes and which latches it shares.  Under it, locking the three
    entries of a triple succeeds on all of them or changes no label, the updates
    of a triple extend the three pending changes, and the end of the transaction
    commits or drops all of them.

    At the end, the end of transactions: commit and rollback. *)

From S2P Require Import Prelude Util ValueStore KVstore TripleSet Version VersionSpec GLatch Transaction IVEntry IVEntrySpec IVEntrySystem TxnStore TxnStoreSpec.

Definition ty_of (a : array) : IDType :=
  match a with Sub => SUBJECT | Pre => PREDICATE | Obj => OBJECT end.

Abbreviation in_writes txn a k := (WriteSetFind k (ty_of a) txn).
Abbreviation in_reads txn a k := (ReadSetFind k (ty_of a) txn).

Record owns (txn : Transaction) (L : labels) : Prop := {
  ow_wf : txn_wf txn;
  ow_ids a k : in_writes txn a k = true \/ in_reads txn a k = true -> word k;
  ow_write a k : word k -> in_writes txn a k = true <-> writes txn (L a k);
  ow_read a k : word k -> IS_SR txn = true -> in_writes txn a k = false ->
    in_reads txn a k = true <-> shares txn (l_hold (L a k)) }.

Lemma owns_ext txn L L' : (forall a k, word k -> L' a k = L a k) -> owns txn L -> owns txn L'.
Proof.
  intros HL [H1 H2 H3 H4]. split; [done|done|..]; intros a k Hk; rewrite HL by done; [by apply H3|by apply H4].
Qed.

(** The sets do not depend on the error. *)
Lemma owns_error txn L e : owns txn L -> owns (SetErrorType e txn) L.
Proof. by intros [H1 H2 H3 H4]. Qed.

Lemma runs_in_error level e txn : runs_in level txn -> runs_in level (SetErrorType e txn).
Proof. done. Qed.

Section Locks.
Context {S : Type} `{ESL : EntryStoreLaws S} (junk : nat -> Z) (level : Z -> IsolationLevelType).
Abbreviation TKV := (KVstore (TArray S)).
Abbreviation kinv := (kinv (S := S) junk level).
Context (txn : Transaction) (Hrun : runs_in level txn).

Lemma owns_knows_share L a k : owns txn L -> word k -> in_writes txn a k = false ->
  knows_share txn (in_reads txn a k) (L a k).
Proof. intros Ho Hk Hw Hsr. by apply (ow_read _ _ Ho). Qed.

Lemma owns_not_writes L a k : owns txn L -> word k -> in_writes txn a k = false -> ~ writes txn (L a k).
Proof. intros Ho Hk Hw H%(ow_write _ _ Ho); [congruence|done]. Qed.

(** ** One entry *)

(** The transaction has the entry already, or may lock it. *)
Definition grantable (a : array) (k : Z) (L : labels) : Prop :=
  in_writes txn a k = true \/ may_lock txn (in_reads txn a k) (L a k).

Definition lock1 (a : array) (k : Z) (L : labels) : labels :=
  if in_writes txn a k then L else lset a k (locked_label txn (in_reads txn a k) (L a k)) L.

Lemma lock1_ne a k L a' k' : (a', k') <> (a, k) -> lock1 a k L a' k' = L a' k'.
Proof. intros. unfold lock1. destruct (in_writes txn a k); [done|]. by apply lset_ne. Qed.

Lemma lset_lock1 a k L a' k' : lset a k (L a k) (lock1 a k L) a' k' = L a' k'.
Proof.
  destruct (decide ((a', k') = (a, k))) as [[= -> ->]|]; [by rewrite lset_eq|]. by rewrite lset_ne, lock1_ne.
Qed.

Lemma lock1_at a k L L' : L a k = L' a k -> lock1 a k L a k = lock1 a k L' a k.
Proof. intros HL. unfold lock1. destruct (in_writes txn a k); [done|]. by rewrite !lset_eq, HL. Qed.

Definition lock_call (a : array) (k : Z) : M (TKV * Transaction) Z :=
  if negb (in_writes txn a k) then get_exclusive_latch junk a k (in_reads txn a k) else retM 0.

Definition refused (a : array) (k : Z) (ret : Z) : bool := negb (in_writes txn a k) && (ret =? 0).

Lemma lock_step n kv L a k : kinv n kv L -> key_ok a k ->
  (in_writes txn a k = false -> ~ writes txn (L a k) /\ knows_share txn (in_reads txn a k) (L a k)) ->
  exists ret kv', lock_call a k (kv, txn) = Some (ret, (kv', txn)) /\ same_base kv kv' /\
    ((refused a k ret = false /\ grantable a k L /\ kinv n kv' (lock1 a k L) /\
      (in_writes txn a k = false -> ret = 1 /\ l_pend (L a k) = None)) \/
     (refused a k ret = true /\ ~ grantable a k L /\ kinv n kv' L)).
Proof.
  intros Hi Hk Ho. unfold lock_call, refused, lock1, grantable. destruct (in_writes txn a k) eqn:Hw; cbn [negb andb].
  - exists 0, kv. split_and!; [done|apply same_base_refl|]. left. split_and!; [done|by left|done|done].
  - destruct (Ho eq_refl) as [Hnw Hkn].
    destruct (get_exclusive_latch_spec junk level txn Hrun n kv L a k (in_reads txn a k)) as (ret&kv'&Hc&Hb&Hr); [done..|].
    exists ret, kv'. split_and!; [done..|]. destruct Hr as [(->&Hm&Hp&Hi')|(->&Hn&Hi')].
    + left. split_and!; [done|by right|done|done].
    + right. split_and!; [done| |done]. by intros [|].
Qed.

(** Locking and giving back at once. *)
Lemma aborted_locked has_read l e : labelled level e l -> may_lock txn has_read l -> l_pend l = None ->
  knows_share txn has_read l -> aborted_label txn has_read (locked_label txn has_read l) = l.
Proof.
  intros [Hl _] [_ Hg] Hp Hkn. destruct l as [hist pend hold]. cbn in *. subst pend.
  unfold aborted_label, locked_label. cbn [l_hist l_pend l_hold]. f_equal. unfold grants, knows_share in *. cbn [l_hold] in *.
  destruct (IS_SR txn) eqn:Hsr; cbn [hold_if snd]; [|done].
  destruct hold as [rs|t].
  - destruct has_read.
    + destruct (proj1 (Hkn eq_refl) eq_refl) as (rs'&[= <-]&Hin). destruct rs as [|r [|r' rs]]; cbn in Hg; [done| |done].
      by apply list_elem_of_singleton in Hin as ->.
    + by destruct rs.
  - destruct (ei_hold _ _ Hl) as (_&_&p&Hp&_). done.
Qed.

Lemma undo_step n kv L0 L1 a k ret : kinv n kv L1 -> word k -> L1 a k = lock1 a k L0 a k -> grantable a k L0 ->
  (in_writes txn a k = false -> ret = 1 /\ l_pend (L0 a k) = None /\
     knows_share txn (in_reads txn a k) (L0 a k) /\ exists e, labelled level e (L0 a k)) ->
  exists kv', (if negb (in_writes txn a k) && (ret =? 1) then invalid_values junk a k (in_reads txn a k) else retM true)
      (kv, txn) = Some (true, (kv', txn)) /\ same_base kv kv' /\ kinv n kv' (lset a k (L0 a k) L1).
Proof.
  intros Hi Hk HL Hg Hr. unfold lock1 in HL. destruct (in_writes txn a k) eqn:Hw; cbn [negb andb].
  - exists kv. split_and!; [done|apply same_base_refl|]. eapply kinv_ext; [|exact Hi]. intros. by rewrite <- HL, lset_id.
  - destruct (Hr eq_refl) as (->&Hp&Hkn&e&He). cbn [Z.eqb Pos.eqb]. rewrite lset_eq in HL.
    destruct (invalid_values_spec junk level txn Hrun n kv L1 a k (in_reads txn a k)) as (kv'&Hc&Hb&Hi'); [done|done| |].
    { rewrite HL. by eexists. }
    exists kv'. split_and!; [done..|]. destruct Hg as [?|Hg]; [congruence|].
    rewrite HL, (aborted_locked _ _ e) in Hi' by done. done.
Qed.

End Locks.

Lemma bindM_eq {T A B} (m : M T A) (f : A -> M T B) st r st' : m st = Some (r, st') -> bindM m f st = f r st'.
Proof. unfold bindM. by intros ->. Qed.

(** ** The three entries of a triple *)

Section Triple.
Context {S : Type} `{ESL : EntryStoreLaws S} (junk : nat -> Z) (level : Z -> IsolationLevelType).
Abbreviation TKV := (KVstore (TArray S)).
Abbreviation kinv := (kinv (S := S) junk level).
Context (txn : Transaction) (Hrun : runs_in level txn) (s p o : Z).
Abbreviation lock1 := (lock1 txn).
Abbreviation grantable := (grantable txn).

Definition grantable3 (L : labels) : Prop := grantable Pre p L /\ grantable Sub s L /\ grantable Obj o L.
Definition refused3 (L : labels) : Prop := ~ grantable Pre p L \/ ~ grantable Sub s L \/ ~ grantable Obj o L.
Definition lock3 (L : labels) : labels := lock1 Obj o (lock1 Sub s (lock1 Pre p L)).

Lemma grantable_ext a k L L' : L' a k = L a k -> grantable a k L' -> grantable a k L.
Proof. unfold TxnLocks.grantable. by intros ->. Qed.

(** What was locked for the triple is given back after an error. *)
Lemma undo_after n kv L0 L1 a k ret e : kinv n kv L1 -> key_ok a k -> L1 a k = lock1 a k L0 a k -> grantable a k L0 ->
  owns txn L0 -> (exists kv0, kinv n kv0 L0) -> (in_writes txn a k = false -> ret = 1 /\ l_pend (L0 a k) = None) ->
  exists kv', (if negb (in_writes txn a k) && (ret =? 1) then invalid_values junk a k (in_reads txn a k) else retM true)
      (kv, SetErrorType e txn) = Some (true, (kv', SetErrorType e txn)) /\ same_base kv kv' /\
    kinv n kv' (lset a k (L0 a k) L1).
Proof using ESL Hrun.
  intros Hi [Hk _] HL Hg Ho (kv0&Hi0) Hr.
  apply (undo_step junk level (SetErrorType e txn) Hrun n kv L0 L1 a k ret); try done.
  intros Hw. destruct (Hr Hw). split_and!; [done|done|by apply (owns_knows_share (SetErrorType e txn)); [apply owns_error|..]|].
  destruct (ki_entry _ _ _ _ _ Hi0 a k Hk) as (x&_&Hx). by exists x.
Qed.

(** Locking is all or nothing, and it fails only on a conflict. *)
Lemma try_exclusive_lock_spec n kv L : kinv n kv L -> owns txn L -> triple_ok (s, p, o) ->
  exists ret kv' txn', try_exclusive_lock junk s p o (kv, txn) = Some (ret, (kv', txn')) /\ same_base kv kv' /\
    ((ret = true /\ txn' = txn /\ grantable3 L /\ kinv n kv' (lock3 L)) \/
     (ret = false /\ (exists e, txn' = SetErrorType e txn) /\ refused3 L /\ kinv n kv' L)).
Proof using ESL Hrun.
  intros Hi Ho (Hs&Hp&Hob).
  assert (Hown : forall a k, key_ok a k -> in_writes txn a k = false ->
    ~ writes txn (L a k) /\ knows_share txn (in_reads txn a k) (L a k)).
  { intros a k [Hk _] Hw. split; [by apply owns_not_writes|by apply owns_knows_share]. }
  unfold try_exclusive_lock. rewrite (bindM_eq txn_get _ _ txn (kv, txn)) by done. cbv zeta.
  destruct (lock_step junk level txn Hrun n kv L Pre p Hi Hp (Hown Pre p Hp)) as (rp&kv1&Hc1&Hb1&Hr1).
  rewrite (bindM_eq _ _ _ _ _ Hc1).
  change (negb (WriteSetFind p PREDICATE txn) && (rp =? 0)) with (refused txn Pre p rp).
  destruct Hr1 as [(->&Hg1&Hi1&Hrp)|(->&Hng&Hi1)].
  2: { eexists _, _, _. split; [done|]. split; [done|]. right. split_and!; [done|by eexists|by left|done]. }
  destruct (lock_step junk level txn Hrun n kv1 (lock1 Pre p L) Sub s Hi1 Hs) as (rs&kv2&Hc2&Hb2&Hr2).
  { rewrite lock1_ne by done. by apply Hown. }
  rewrite (bindM_eq _ _ _ _ _ Hc2).
  change (negb (WriteSetFind s SUBJECT txn) && (rs =? 0)) with (refused txn Sub s rs).
  destruct Hr2 as [(->&Hg2&Hi2&Hrs)|(->&Hng&Hi2)].
  2: { destruct (undo_after n kv2 L (lock1 Pre p L) Pre p rp SUB_X) as (kv3&Hc3&Hb3&Hi3); [done..|by exists kv|done|].
       rewrite (bindM_eq (txn_mod _) _ _ tt (kv2, SetErrorType SUB_X txn)) by done.
       rewrite (bindM_eq _ _ _ _ _ Hc3). eexists _, kv3, _. split; [done|].
       split; [by do 2 (eapply same_base_trans; [done|])|]. right. split_and!; [done|by eexists| |].
       - right; left. intros Hg. apply Hng. apply (grantable_ext _ _ _ L); [by rewrite lock1_ne|done].
       - eapply kinv_ext; [|exact Hi3]. intros a k _. by rewrite lset_lock1. }
  destruct (lock_step junk level txn Hrun n kv2 (lock1 Sub s (lock1 Pre p L)) Obj o Hi2 Hob) as (ro&kv3&Hc3&Hb3&Hr3).
  { rewrite !lock1_ne by done. by apply Hown. }
  rewrite (bindM_eq _ _ _ _ _ Hc3).
  change (negb (WriteSetFind o OBJECT txn) && (ro =? 0)) with (refused txn Obj o ro).
  destruct Hr3 as [(->&Hg3&Hi3&Hro)|(->&Hng&Hi3)].
  - eexists _, kv3, _. split; [done|]. split; [by do 2 (eapply same_base_trans; [done|])|]. left.
    split_and!; [done|done| |done]. split_and!; [done|..].
    + eapply grantable_ext; [|exact Hg2]. by rewrite lock1_ne.
    + eapply grantable_ext; [|exact Hg3]. by rewrite !lock1_ne.
  - destruct (undo_after n kv3 L (lock1 Sub s (lock1 Pre p L)) Pre p rp OBJ_X) as (kv4&Hc4&Hb4&Hi4);
      [done|done|by rewrite lock1_ne|done|done|by exists kv|done|].
    rewrite (bindM_eq (txn_mod _) _ _ tt (kv3, SetErrorType OBJ_X txn)) by done.
    rewrite (bindM_eq _ _ _ _ _ Hc4).
    rewrite (bindM_eq (assert_M true) _ _ tt (kv4, SetErrorType OBJ_X txn)) by done.
    destruct (undo_after n kv4 L (lset Pre p (L Pre p) (lock1 Sub s (lock1 Pre p L))) Sub s rs OBJ_X) as (kv5&Hc5&Hb5&Hi5);
      [done|done| | |done|by exists kv| |].
    { rewrite lset_ne by done. apply lock1_at. by apply lock1_ne. }
    { eapply grantable_ext; [|exact Hg2]. by rewrite lock1_ne. }
    { by rewrite lock1_ne in Hrs. }
    rewrite (bindM_eq _ _ _ _ _ Hc5). eexists _, kv5, _. split; [done|].
    split; [by do 4 (eapply same_base_trans; [done|])|]. right. split_and!; [done|by eexists| |].
    + right; right. intros Hg. apply Hng. apply (grantable_ext _ _ _ L); [by rewrite !lock1_ne|done].
    + eapply kinv_ext; [|exact Hi5]. intros a k _.
      destruct (decide ((a, k) = (Sub, s))) as [[= -> ->]|]; [by rewrite lset_eq|]. rewrite lset_ne by done.
      destruct (decide ((a, k) = (Pre, p))) as [[= -> ->]|]; [by rewrite lset_eq|]. by rewrite lset_ne, !lock1_ne.
Qed.

(** ** The update of a triple *)

(** The key and the pair of the triple in each index. *)
Definition key3 (a : array) : Z := match a with Sub => s | Pre => p | Obj => o end.
Definition val3 (a : array) : VData := match a with Sub => (p, o) | Pre => (s, o) | Obj => (p, s) end.

Definition write_label (ins : bool) (v : VData) (l : label) : label :=
  if ins then written_label {[v]} ∅ l else written_label ∅ {[v]} l.

Definition write1 (ins : bool) (a : array) (L : labels) : labels :=
  lset a (key3 a) (write_label ins (val3 a) (L a (key3 a))) L.

Definition write3 (ins : bool) (L : labels) : labels := write1 ins Pre (write1 ins Obj (write1 ins Sub L)).

(** The label of a key after the update. *)
Lemma write3_lookup ins L a k : write3 ins L a k =
  if decide (k = key3 a) then write_label ins (val3 a) (L a k) else L a k.
Proof using Type. unfold write3, write1, lset. by destruct a; cbn; repeat case_decide; simplify_eq. Qed.

Lemma lock3_lookup L a k : lock3 L a k =
  if decide (k = key3 a) then lock1 a k L a k else L a k.
Proof using Type.
  unfold lock3. case_decide as Hk; [subst k|].
  - destruct a; cbn [key3].
    + rewrite lock1_ne by done. apply lock1_at. by apply lock1_ne.
    + by rewrite !lock1_ne by done.
    + apply lock1_at. by rewrite !lock1_ne by done.
  - by destruct a; cbn [key3] in Hk; rewrite !lock1_ne by congruence.
Qed.

Lemma set_order_singleton (v : VData) : set_order {[v]} = [v].
Proof using Type.
  pose proof (set_order_Permutation {[v]}) as Hp. rewrite elements_singleton in Hp.
  by apply Permutation_singleton_r in Hp.
Qed.

(** The pending change of an entry has room for one more pair. *)
Definition room1 (l : label) : Prop := forall q, l_pend l = Some q -> p_tid q = TID txn -> fits q 1.

Lemma key3_ok a : triple_ok (s, p, o) -> key_ok a (key3 a).
Proof using Type. intros (?&?&?). by destruct a. Qed.

Lemma write_one (ins : bool) n kv L a : kinv n kv L -> triple_ok (s, p, o) -> writes txn (L a (key3 a)) ->
  room1 (L a (key3 a)) ->
  exists kv', (if ins then insert_values junk a (key3 a) {[val3 a]} else remove_values junk a (key3 a) {[val3 a]})
      (kv, txn) = Some (true, (kv', txn)) /\ same_base kv kv' /\ kinv n kv' (write1 ins a L).
Proof using ESL Hrun.
  intros Hi Hok Hw Hr. pose proof (key3_ok a Hok) as [Hk _]. pose proof Hw as (q&Hq&Ht).
  specialize (Hr q Hq Ht). unfold write1, write_label. destruct ins.
  - apply (insert_values_spec junk level txn Hrun n kv L a _ _ q); try done. by rewrite set_order_singleton.
  - apply (remove_values_spec junk level txn Hrun n kv L a _ _ q); try done. by rewrite set_order_singleton.
Qed.

Lemma updateTupleslist_txn_spec (ins : bool) n kv L : kinv n kv L -> triple_ok (s, p, o) ->
  (forall a, writes txn (L a (key3 a)) /\ room1 (L a (key3 a))) ->
  exists kv', (if ins then updateTupleslist_insert_txn junk s p o else updateTupleslist_remove_txn junk s p o)
      (kv, txn) = Some (true, (kv', txn)) /\ same_base kv kv' /\ kinv n kv' (write3 ins L).
Proof using ESL Hrun.
  intros Hi Hok Hw.
  destruct (write_one ins n kv L Sub Hi Hok) as (kv1&Hc1&Hb1&Hi1); [apply Hw..|].
  destruct (write_one ins n kv1 _ Obj Hi1 Hok) as (kv2&Hc2&Hb2&Hi2).
  1, 2: unfold write1; rewrite lset_ne by done; apply Hw.
  destruct (write_one ins n kv2 _ Pre Hi2 Hok) as (kv3&Hc3&Hb3&Hi3).
  1, 2: unfold write1; rewrite !lset_ne by done; apply Hw.
  exists kv3. split_and!; [|by do 2 (eapply same_base_trans; [done|])|done].
  destruct ins; unfold updateTupleslist_insert_txn, updateTupleslist_remove_txn, andM;
    rewrite (bindM_eq _ _ _ _ _ Hc1), (bindM_eq _ _ _ _ _ Hc2); apply Hc3.
Qed.

(** The write set after the update. *)
Lemma in_writes_insert a k : txn_wf txn ->
  in_writes (WriteSetInsert s p o txn) a k = true <-> k = key3 a \/ in_writes txn a k = true.
Proof using Type.
  intros [_ Hl]. unfold WriteSetFind, WriteSetInsert. cbn [WriteSet set_WriteSet].
  rewrite !ids_find_insert by (rewrite ?length_ids_insert; done).
  destruct a; cbn [ty_of key3]; naive_solver.
Qed.

Lemma writes_locked L a : owns txn L -> key_ok a (key3 a) -> writes txn (lock3 L a (key3 a)).
Proof using Type.
  intros Ho [Hk _]. rewrite lock3_lookup, decide_True by done. unfold TxnLocks.lock1.
  destruct (in_writes txn a (key3 a)) eqn:Hw; [by apply (ow_write _ _ Ho)|]. rewrite lset_eq. by eexists.
Qed.

Lemma writes_write_label ins v l t : writes t (write_label ins v l) <-> writes t l.
Proof using Type.
  unfold writes, mine. destruct ins; cbn; destruct (l_pend l) as [q|]; cbn; naive_solver.
Qed.

Lemma hold_write_label ins v l : l_hold (write_label ins v l) = l_hold l.
Proof using Type. by destruct ins. Qed.

Lemma owns_updated ins L : owns txn L -> triple_ok (s, p, o) ->
  owns (WriteSetInsert s p o txn) (write3 ins (lock3 L)).
Proof using Type.
  intros Ho Hok. pose proof (ow_wf _ _ Ho) as Hwf. split.
  - destruct Hwf as [H1 H2]. split; [done|]. cbn [WriteSetInsert WriteSet set_WriteSet]. by rewrite !length_ids_insert.
  - intros a k. rewrite in_writes_insert by done. intros [[->|Hw]|Hr].
    + apply (key3_ok a Hok).
    + apply (ow_ids _ _ Ho a). by left.
    + apply (ow_ids _ _ Ho a). by right.
  - intros a k Hk. rewrite in_writes_insert by done. rewrite write3_lookup. case_decide as Hk3.
    + subst k. rewrite writes_write_label. split; [intros _|by left].
      apply (writes_locked L a Ho (key3_ok a Hok)).
    + rewrite lock3_lookup, decide_False by done. rewrite (ow_write _ _ Ho a k Hk). tauto.
  - intros a k Hk Hsr Hnw. assert (k <> key3 a /\ in_writes txn a k = false) as [Hne Hw].
    { split; [intros ->|apply not_true_is_false; intros Ht];
        apply (not_true_iff_false (in_writes (WriteSetInsert s p o txn) a _)) in Hnw; apply Hnw, in_writes_insert; auto. }
    rewrite write3_lookup, decide_False, lock3_lookup, decide_False by done. by apply (ow_read _ _ Ho a k).
Qed.

Lemma owns_state st L : owns txn L -> owns (SetState st txn) L.
Proof using Type. by intros [H1 H2 H3 H4]. Qed.

(** An update of a triple in a transaction: it is written in the three indexes, or
    the transaction is aborted on a conflict and no entry changes. *)
Definition update_txn (ins : bool) : M (TKV * Transaction) bool :=
  if ins then insertTriple_txn junk s p o else removeTriple_txn junk s p o.

Lemma update_txn_spec ins n kv L : kinv n kv L -> owns txn L -> triple_ok (s, p, o) ->
  (forall a, room1 (L a (key3 a))) ->
  exists ret kv' txn', update_txn ins (kv, txn) = Some (ret, (kv', txn')) /\ same_base kv kv' /\
    ((ret = true /\ grantable3 L /\ txn' = WriteSetInsert s p o txn /\ kinv n kv' (write3 ins (lock3 L)) /\
      owns txn' (write3 ins (lock3 L))) \/
     (ret = false /\ refused3 L /\ (exists e, txn' = SetState ABORTED (SetErrorType e txn)) /\
      kinv n kv' L /\ owns txn' L)).
Proof using ESL Hrun.
  intros Hi Ho Hok Hroom.
  destruct (try_exclusive_lock_spec n kv L Hi Ho Hok) as (ret&kv1&txn1&Hc1&Hb1&Hr1).
  assert (Hlock : GetExclusiveLock junk s p o (kv, txn) = Some (ret, (kv1, txn1))).
  { unfold GetExclusiveLock. rewrite (bindM_eq _ _ _ _ _ Hc1). by destruct ret. }
  destruct Hr1 as [(->&->&Hg&Hi1)|(->&(e&->)&Hng&Hi1)].
  - destruct (updateTupleslist_txn_spec ins n kv1 (lock3 L) Hi1 Hok) as (kv2&Hc2&Hb2&Hi2).
    { intros a. split; [by apply writes_locked; [|apply key3_ok]|].
      rewrite lock3_lookup, decide_True by done. unfold TxnLocks.lock1.
      destruct (in_writes txn a (key3 a)); [apply Hroom|]. rewrite lset_eq. intros q [= <-] _. done. }
    exists true, kv2, (WriteSetInsert s p o txn). split_and!; [|by eapply same_base_trans|].
    + destruct ins; cbn [update_txn]; unfold insertTriple_txn, removeTriple_txn;
        rewrite (bindM_eq _ _ _ _ _ Hlock); cbn [negb]; by rewrite (bindM_eq _ _ _ _ _ Hc2).
    + left. split_and!; try done. by apply owns_updated.
  - exists false, kv1, (SetState ABORTED (SetErrorType e txn)). split_and!; [|done|].
    + destruct ins; cbn [update_txn]; unfold insertTriple_txn, removeTriple_txn;
        by rewrite (bindM_eq _ _ _ _ _ Hlock).
    + right. split_and!; [done|done|by eexists|done|]. by destruct Ho.
Qed.
End Triple.

(** * The end of a transaction

    [ReleaseAllLocks] commits every entry the transaction writes and gives back
    the latches it shares, [TransactionInvalid] drops the pending changes and
    gives back the same latches; neither fails an assertion, and no other entry
    changes. *)

Lemma elem_of_write_ids k ty txn : k ∈ write_ids ty txn <-> WriteSetFind k ty txn = true.
Proof.
  unfold write_ids, id_set, WriteSetFind, ids_find. rewrite elem_of_elements.
  destruct (WriteSet txn !! ix ty); cbn; [by rewrite bool_decide_eq_true|set_solver].
Qed.

Lemma elem_of_only_read k ty txn :
  k ∈ only_read ty txn <-> ReadSetFind k ty txn = true /\ WriteSetFind k ty txn = false.
Proof.
  unfold only_read. rewrite list_elem_of_filter, elem_of_elements.
  assert (k ∈ id_set ty (WriteSet txn) <-> WriteSetFind k ty txn = true) as ->.
  { rewrite <- elem_of_write_ids. unfold write_ids. by rewrite elem_of_elements. }
  unfold id_set, ReadSetFind, ids_find. rewrite not_true_iff_false.
  destruct (ReadSet txn !! ix ty); cbn; [rewrite bool_decide_eq_true; tauto|set_solver].
Qed.

Lemma NoDup_write_ids ty txn : NoDup (write_ids ty txn).
Proof. apply NoDup_elements. Qed.
Lemma NoDup_only_read ty txn : NoDup (only_read ty txn).
Proof. apply NoDup_filter, NoDup_elements. Qed.

(** The labels of the keys [ids] of one index changed by [post]. *)
Definition lmap (a : array) (ids : list Z) (post : label -> label) (L : labels) : labels :=
  fun a' k' => if decide (a' = a /\ k' ∈ ids) then post (L a' k') else L a' k'.

Lemma lmap_other a ids post L a' k' : a' <> a -> lmap a ids post L a' k' = L a' k'.
Proof. intros. unfold lmap. by rewrite decide_False by naive_solver. Qed.

Section End.
Context {S : Type} `{ESL : EntryStoreLaws S} (junk : nat -> Z) (level : Z -> IsolationLevelType).
Abbreviation TKV := (KVstore (TArray S)).
Abbreviation kinv := (kinv (S := S) junk level).
Context (txn : Transaction) (Hrun : runs_in level txn).

(** A call that turns labels with [pre] into their [post]. *)
Definition releases (a : array) (pre : label -> Prop) (post : label -> label)
    (release : Z -> M (TKV * Transaction) bool) : Prop :=
  forall n kv L k, kinv n kv L -> word k -> pre (L a k) ->
    exists kv', release k (kv, txn) = Some (true, (kv', txn)) /\ same_base kv kv' /\
      kinv n kv' (lset a k (post (L a k)) L).

Lemma release_all_spec a pre post release : releases a pre post release ->
  forall ids ret n kv L, kinv n kv L -> NoDup ids -> (forall k, k ∈ ids -> word k /\ pre (L a k)) ->
  exists kv', release_all release ids ret (kv, txn) = Some (ret, (kv', txn)) /\ same_base kv kv' /\
    kinv n kv' (lmap a ids post L).
Proof using ESL Hrun.
  intros Hrel. induction ids as [|k ids IH]; intros ret n kv L Hi Hnd Hpre.
  { exists kv. split_and!; [done|apply same_base_refl|]. eapply kinv_ext; [|exact Hi]. intros. unfold lmap.
    rewrite decide_False; [done|]. intros [_ Hin]. by apply elem_of_nil in Hin. }
  apply NoDup_cons in Hnd as [Hk Hnd]. destruct (Hpre k) as [Hw Hp]; [set_solver|].
  destruct (Hrel n kv L k Hi Hw Hp) as (kv1&Hc1&Hb1&Hi1).
  destruct (IH ret n kv1 _ Hi1 Hnd) as (kv2&Hc2&Hb2&Hi2).
  { intros k' Hin. rewrite lset_ne by set_solver. apply Hpre. set_solver. }
  exists kv2. split_and!; [|by eapply same_base_trans|].
  - cbn [release_all]. by rewrite (bindM_eq _ _ _ _ _ Hc1).
  - eapply kinv_ext; [|exact Hi2]. intros a' k' _. unfold lmap, lset.
    destruct (decide ((a', k') = (a, k))) as [[= -> ->]|Hne].
    + by rewrite decide_True, decide_False by set_solver.
    + destruct (decide (a' = a /\ k' ∈ ids)) as [[-> Hin]|Hn]; [by rewrite decide_True by set_solver|].
      rewrite decide_False; [done|]. intros [-> Hin]. set_solver.
Qed.

(** The same call on the three indexes, predicates first. *)
Definition release3 (release : array -> Z -> M (TKV * Transaction) bool) (ids : array -> list Z) (ret : bool)
    : M (TKV * Transaction) bool :=
  let! ret := release_all (release Pre) (ids Pre) ret in
  let! ret := release_all (release Sub) (ids Sub) ret in
  release_all (release Obj) (ids Obj) ret.

Lemma release3_bind {A} release ids ret (f : bool -> M (TKV * Transaction) A) st :
  (let! r := release_all (release Pre) (ids Pre) ret in
   let! r := release_all (release Sub) (ids Sub) r in
   let! r := release_all (release Obj) (ids Obj) r in f r) st = bindM (release3 release ids ret) f st.
Proof using Type.
  unfold release3, bindM. destruct (release_all (release Pre) (ids Pre) ret st) as [[r1 st1]|]; cbn; [|done].
  by destruct (release_all (release Sub) (ids Sub) r1 st1) as [[r2 st2]|].
Qed.

Definition lmap3 (ids : array -> list Z) (post : label -> label) (L : labels) : labels :=
  fun a k => if decide (k ∈ ids a) then post (L a k) else L a k.

Lemma release3_spec pre post release ids : (forall a, releases a pre post (release a)) ->
  forall ret n kv L, kinv n kv L -> (forall a, NoDup (ids a)) -> (forall a k, k ∈ ids a -> word k /\ pre (L a k)) ->
  exists kv', release3 release ids ret (kv, txn) = Some (ret, (kv', txn)) /\ same_base kv kv' /\
    kinv n kv' (lmap3 ids post L).
Proof using ESL Hrun.
  intros Hrel ret n kv L Hi Hnd Hpre.
  destruct (release_all_spec Pre pre post _ (Hrel Pre) (ids Pre) ret n kv L Hi (Hnd Pre) (Hpre Pre)) as (kv1&Hc1&Hb1&Hi1).
  destruct (release_all_spec Sub pre post _ (Hrel Sub) (ids Sub) ret n kv1 _ Hi1 (Hnd Sub)) as (kv2&Hc2&Hb2&Hi2).
  { intros k Hk. rewrite lmap_other by done. by apply Hpre. }
  destruct (release_all_spec Obj pre post _ (Hrel Obj) (ids Obj) ret n kv2 _ Hi2 (Hnd Obj)) as (kv3&Hc3&Hb3&Hi3).
  { intros k Hk. rewrite !lmap_other by done. by apply Hpre. }
  exists kv3. split_and!; [|by do 2 (eapply same_base_trans; [done|])|].
  - unfold release3. by rewrite (bindM_eq _ _ _ _ _ Hc1), (bindM_eq _ _ _ _ _ Hc2).
  - eapply kinv_ext; [|exact Hi3]. intros a k _. unfold lmap3.
    destruct a; unfold lmap; repeat case_decide; naive_solver.
Qed.

Definition wids (a : array) : list Z := write_ids (ty_of a) txn.
Definition rids (a : array) : list Z := if IS_SR txn then only_read (ty_of a) txn else [].

(** The labels after the end of the transaction. *)
Definition end_labels (post : label -> label) (L : labels) : labels :=
  fun a k => if in_writes txn a k then post (L a k)
             else if IS_SR txn && in_reads txn a k then unshared_label txn (L a k) else L a k.

Lemma release_shared_latches_spec n kv L : kinv n kv L -> owns txn L ->
  exists kv', release_shared_latches junk (kv, txn) = Some (true, (kv', txn)) /\ same_base kv kv' /\
    kinv n kv' (lmap3 rids (unshared_label txn) L).
Proof using ESL Hrun.
  intros Hi Ho. unfold release_shared_latches. rewrite (bindM_eq txn_get _ _ txn (kv, txn)) by done.
  unfold rids. destruct (IS_SR txn) eqn:Hsr.
  - apply (release3_spec (fun l => shares txn (l_hold l)) _ (release_shared_latch junk) (fun a => only_read (ty_of a) txn)); [|done|..].
    + intros a n' kv' L' k Hi' Hk Hs. by apply release_shared_latch_spec.
    + intros a. apply NoDup_only_read.
    + intros a k [Hr Hw]%elem_of_only_read. assert (word k) as Hk by (apply (ow_ids _ _ Ho a); by right).
      split; [done|]. by apply (ow_read _ _ Ho).
  - exists kv. split_and!; [done|apply same_base_refl|]. eapply kinv_ext; [|exact Hi]. intros. unfold lmap3.
    rewrite decide_False; [done|]. by intros ?%elem_of_nil.
Qed.

Lemma end_labels_eq post L a k : owns txn L ->
  lmap3 wids post (lmap3 rids (unshared_label txn) L) a k = end_labels post L a k.
Proof using ESL Hrun.
  intros Ho. unfold lmap3, end_labels, wids, rids. destruct (in_writes txn a k) eqn:Hw.
  - rewrite decide_True by (by apply elem_of_write_ids). rewrite decide_False; [done|].
    destruct (IS_SR txn); [intros [_ ?]%elem_of_only_read; congruence|by intros ?%elem_of_nil].
  - rewrite decide_False by (intros ?%elem_of_write_ids; congruence).
    destruct (IS_SR txn) eqn:Hsr; cbn [andb].
    + destruct (in_reads txn a k) eqn:Hr; [rewrite decide_True; [done|by apply elem_of_only_read]|].
      rewrite decide_False; [done|]. intros [? _]%elem_of_only_read. congruence.
    + rewrite decide_False; [done|]. by intros ?%elem_of_nil.
Qed.

(** Both ends of a transaction, with the call on the written entries. *)
Lemma end_spec pre post release n kv L : (forall a, releases a pre post (release a)) -> kinv n kv L -> owns txn L ->
  (forall a k, word k -> writes txn (L a k) -> pre (L a k)) ->
  exists kv', (let! txn := txn_get in
     let! ret1 := release_shared_latches junk in
     let! ret2 := release_all (release Pre) (write_ids PREDICATE txn) true in
     let! ret2 := release_all (release Sub) (write_ids SUBJECT txn) ret2 in
     let! ret2 := release_all (release Obj) (write_ids OBJECT txn) ret2 in
     let! _ := assert_M (ret1 && ret2) in retM (ret1 && ret2)) (kv, txn) = Some (true, (kv', txn)) /\
    same_base kv kv' /\ kinv n kv' (end_labels post L).
Proof using ESL Hrun.
  intros Hrel Hi Ho Hpre. destruct (release_shared_latches_spec n kv L Hi Ho) as (kv1&Hc1&Hb1&Hi1).
  destruct (release3_spec pre post release wids Hrel true n kv1 _ Hi1) as (kv2&Hc2&Hb2&Hi2).
  { intros a. apply NoDup_write_ids. }
  { intros a k Hw%elem_of_write_ids. assert (word k) as Hk by (apply (ow_ids _ _ Ho a); by left).
    split; [done|]. unfold lmap3, rids. rewrite decide_False; [by apply Hpre, (ow_write _ _ Ho)|].
    destruct (IS_SR txn); [intros [_ ?]%elem_of_only_read; congruence|by intros ?%elem_of_nil]. }
  exists kv2. rewrite (bindM_eq txn_get _ _ txn (kv, txn)) by done.
  rewrite (bindM_eq _ _ _ _ _ Hc1). split_and!; [|by eapply same_base_trans|].
  - etrans; [apply (release3_bind release wids true)|]. by rewrite (bindM_eq _ _ _ _ _ Hc2).
  - eapply kinv_ext; [|exact Hi2]. intros a k _. by rewrite end_labels_eq.
Qed.

Definition committable (l : label) : Prop :=
  writes txn l /\ Forall (fun c => c_id c <= CommitID txn) (l_hist l).

Lemma ReleaseAllLocks_spec n kv L : kinv n kv L -> owns txn L -> 0 <= CommitID txn < INVALID_TS ->
  (forall a k, word k -> writes txn (L a k) -> Forall (fun c => c_id c <= CommitID txn) (l_hist (L a k))) ->
  exists kv', ReleaseAllLocks junk (kv, txn) = Some (true, (kv', txn)) /\ same_base kv kv' /\
    kinv n kv' (end_labels (committed_label txn) L).
Proof using ESL Hrun.
  intros Hi Ho Hc Hm. destruct (end_spec committable (committed_label txn) (release_exclusive_latch junk) n kv L)
    as (kv'&Hr&Hb&Hi'); [|done|done| |].
  - intros a n' kv0 L0 k Hi0 Hk [Hw Hf]. by apply release_exclusive_latch_spec.
  - intros a k Hk Hw. split; [done|by apply Hm].
  - by exists kv'.
Qed.

Lemma TransactionInvalid_spec n kv L : kinv n kv L -> owns txn L ->
  exists kv', TransactionInvalid junk (kv, txn) = Some (true, (kv', txn)) /\ same_base kv kv' /\
    kinv n kv' (end_labels (aborted_label txn false) L).
Proof using ESL Hrun.
  intros Hi Ho. destruct (end_spec (writes txn) (aborted_label txn false) (fun a it => invalid_values junk a it false) n kv L)
    as (kv'&Hr&Hb&Hi'); [|done|done|done|].
  - intros a n' kv0 L0 k Hi0 Hk Hw. by apply invalid_values_spec.
  - by exists kv'.
Qed.
End End.
