(* ===== verification/TxnHistory.v ===== *)
(** * Histories of triples

    What the versions of all entries stand for together: a list of committed
    changes of triples and, for every running transaction, the triples it has
    added and removed so far.  The history of one entry is the projection of the
    common history to the triples with its key, so the views of a transaction in
    the three indexes are the projections of one set of triples. *)

From S2P Require Import Prelude ValueStore KVstore TripleSet KVbatch Version VersionSpec GLatch Transaction IVEntry IVEntrySpec IVEntrySystem TxnStore TxnStoreSpec TxnLocks.

(** The key and the pair of a triple in an index, and back. *)
Definition key_of (a : array) (t : triple) : Z :=
  match a with Sub => subid t | Pre => preid t | Obj => objid t end.
Definition val_of (a : array) (t : triple) : VData :=
  match a with
  | Sub => (preid t, objid t)
  | Pre => (subid t, objid t)
  | Obj => (preid t, subid t)
  end.
Definition mk_triple (a : array) (k : Z) (v : VData) : triple :=
  match a with Sub => (k, v.1, v.2) | Pre => (v.1, k, v.2) | Obj => (v.2, v.1, k) end.

Lemma mk_triple_of a t : mk_triple a (key_of a t) (val_of a t) = t.
Proof. by destruct a, t as [[s p] o]. Qed.
Lemma key_of_mk a k v : key_of a (mk_triple a k v) = k.
Proof. by destruct a. Qed.
Lemma val_of_mk a k v : val_of a (mk_triple a k v) = v.
Proof. by destruct a, v. Qed.

(** The pairs of one key. *)
Definition proj (a : array) (k : Z) (l : list triple) : VDataArray :=
  val_of a <$> filter (fun t => key_of a t = k) l.

Lemma elem_of_proj a k l v : v ∈ proj a k l <-> mk_triple a k v ∈ l.
Proof.
  unfold proj. rewrite list_elem_of_fmap. split.
  - intros (t&->&[Hk Ht]%list_elem_of_filter). by rewrite <- Hk, mk_triple_of.
  - intros Hin. exists (mk_triple a k v). rewrite val_of_mk. split; [done|].
    apply list_elem_of_filter. by rewrite key_of_mk.
Qed.

Lemma proj_app a k l1 l2 : proj a k (l1 ++ l2) = proj a k l1 ++ proj a k l2.
Proof. unfold proj. by rewrite filter_app, fmap_app. Qed.

Lemma NoDup_proj a k l : NoDup l -> NoDup (proj a k l).
Proof.
  intros Hn. unfold proj. apply NoDup_fmap_2_strong; [|by apply NoDup_filter].
  intros t u [Ht _]%list_elem_of_filter [Hu _]%list_elem_of_filter Hv.
  rewrite <- (mk_triple_of a t), <- (mk_triple_of a u). by rewrite Ht, Hu, Hv.
Qed.

(** The pairs of one key in a set of triples. *)
Definition pairs_of (a : array) (k : Z) (X : triples) : VDataSet := list_to_set (proj a k (elements X)).

Lemma elem_of_pairs_of a k X v : v ∈ pairs_of a k X <-> mk_triple a k v ∈ X.
Proof. unfold pairs_of. by rewrite elem_of_list_to_set, elem_of_proj, elem_of_elements. Qed.

(** ** Changes of triples *)

(** What a transaction has written: the triples it added and those it removed. *)
Record wlog := mk_wlog { w_adds : list triple; w_dels : list triple }.
Record gcommit := mk_gcommit { g_id : Z; g_log : wlog }.

Definition no_writes : wlog := mk_wlog [] [].
Definition log_update (ins : bool) (t : triple) (w : wlog) : wlog :=
  if ins then mk_wlog (w_adds w ++ [t]) (w_dels w) else mk_wlog (w_adds w) (w_dels w ++ [t]).

(** The change touches the key. *)
Definition touches (a : array) (k : Z) (w : wlog) : Prop :=
  exists t, (t ∈ w_adds w \/ t ∈ w_dels w) /\ key_of a t = k.

#[global] Instance touches_dec a k w : Decision (touches a k w).
Proof.
  refine (cast_if (decide (Exists (fun t => key_of a t = k) (w_adds w ++ w_dels w))));
    abstract (rewrite Exists_exists in *; unfold touches; setoid_rewrite elem_of_app in n || setoid_rewrite elem_of_app in e; naive_solver).
Defined.

Lemma touches_update a k ins t w : touches a k (log_update ins t w) <-> k = key_of a t \/ touches a k w.
Proof. unfold touches. destruct ins; cbn; setoid_rewrite elem_of_app; setoid_rewrite list_elem_of_singleton; naive_solver. Qed.

Lemma proj_untouched a k w : ~ touches a k w -> proj a k (w_adds w) = [] /\ proj a k (w_dels w) = [].
Proof.
  intros Hn. split; apply elem_of_nil_inv; intros v Hv%elem_of_proj; apply Hn;
    exists (mk_triple a k v); rewrite key_of_mk; auto.
Qed.

(** The change applied to a set of triples, and whether every triple is added when
    it is absent and removed when it is there. *)
Definition log_effect (w : wlog) (X : triples) : triples :=
  (X ∪ list_to_set (w_adds w)) ∖ list_to_set (w_dels w).
Definition log_effective (w : wlog) (X : triples) : Prop :=
  NoDup (w_adds w) /\ NoDup (w_dels w) /\ (forall t, t ∈ w_adds w -> t ∉ X) /\
  (forall t, t ∈ w_dels w -> t ∈ X \/ t ∈ w_adds w).

Lemma pairs_of_effect a k w X : pairs_of a k (log_effect w X) =
  write_effect (proj a k (w_adds w)) (proj a k (w_dels w)) (pairs_of a k X).
Proof.
  apply set_eq. intros v. unfold write_effect, log_effect.
  rewrite elem_of_difference, elem_of_union, !elem_of_list_to_set, !elem_of_proj, !elem_of_pairs_of.
  by rewrite elem_of_difference, elem_of_union, !elem_of_list_to_set.
Qed.

Lemma effective_proj a k w X : log_effective w X ->
  effective (proj a k (w_adds w)) (proj a k (w_dels w)) (pairs_of a k X).
Proof.
  intros (H1&H2&H3&H4). split_and!; [by apply NoDup_proj|by apply NoDup_proj|..]; intros v;
    rewrite !elem_of_proj, elem_of_pairs_of; auto.
Qed.

Lemma write_effect_nil X : write_effect [] [] X = X.
Proof. unfold write_effect. set_solver. Qed.

Lemma effective_nil X : effective [] [] X.
Proof. split_and!; [constructor|constructor|set_solver|set_solver]. Qed.

(** ** Histories *)

Definition greplay (H : list gcommit) (X : triples) : triples :=
  fold_left (fun X c => log_effect (g_log c) X) H X.

Fixpoint greplay_ok (H : list gcommit) (X : triples) : Prop :=
  match H with
  | [] => True
  | c :: H' => log_effective (g_log c) X /\ greplay_ok H' (log_effect (g_log c) X)
  end.

Definition gsnapshot (TID : Z) (H : list gcommit) : list gcommit := filter (fun c => g_id c <= TID) H.

(** The history of one entry. *)
Definition proj_commit (a : array) (k : Z) (c : gcommit) : option commit :=
  if decide (touches a k (g_log c))
  then Some (mk_commit (g_id c) (proj a k (w_adds (g_log c))) (proj a k (w_dels (g_log c))))
  else None.

Definition entry_hist (a : array) (k : Z) (H : list gcommit) : list commit :=
  first_commit :: omap (proj_commit a k) H.

Definition entry_pend (a : array) (k : Z) (t : Z) (w : wlog) : pending :=
  mk_pending t (proj a k (w_adds w)) (proj a k (w_dels w)).

Lemma greplay_app H1 H2 X : greplay (H1 ++ H2) X = greplay H2 (greplay H1 X).
Proof. apply fold_left_app. Qed.

Lemma greplay_ok_app H1 H2 X : greplay_ok (H1 ++ H2) X <-> greplay_ok H1 X /\ greplay_ok H2 (greplay H1 X).
Proof. revert X. induction H1 as [|c H1 IH]; intros X; cbn; [tauto|]. rewrite IH. cbn. tauto. Qed.

Lemma entry_hist_app a k H1 H2 : entry_hist a k (H1 ++ H2) = entry_hist a k H1 ++ omap (proj_commit a k) H2.
Proof. unfold entry_hist. by rewrite omap_app. Qed.

Lemma replay_projects a k H X : replay (omap (proj_commit a k) H) (pairs_of a k X) = pairs_of a k (greplay H X).
Proof.
  revert X. induction H as [|c H IH]; intros X; [done|]. cbn [omap list_omap greplay fold_left]. unfold proj_commit at 1.
  fold (greplay H (log_effect (g_log c) X)). rewrite <- IH, pairs_of_effect. case_decide as Ht; [done|].
  destruct (proj_untouched _ _ _ Ht) as [-> ->]. by rewrite write_effect_nil.
Qed.

(** Replaying the history of an entry is replaying the common history. *)
Lemma replay_entry_hist a k H X : replay (entry_hist a k H) (pairs_of a k X) = pairs_of a k (greplay H X).
Proof.
  unfold entry_hist. cbn [replay fold_left]. cbn [first_commit c_adds c_dels]. rewrite write_effect_nil.
  apply replay_projects.
Qed.

Lemma replay_ok_projects a k H X : greplay_ok H X -> replay_ok (omap (proj_commit a k) H) (pairs_of a k X).
Proof.
  revert X. induction H as [|c H IH]; intros X; [done|]. intros [He Hr]. cbn [omap list_omap]. unfold proj_commit at 1.
  specialize (IH _ Hr). rewrite pairs_of_effect in IH. case_decide as Ht.
  - split; [by apply effective_proj|done].
  - destruct (proj_untouched _ _ _ Ht) as [E1 E2]. by rewrite E1, E2, write_effect_nil in IH.
Qed.

Lemma replay_ok_entry_hist a k H X : greplay_ok H X -> replay_ok (entry_hist a k H) (pairs_of a k X).
Proof.
  intros Hr. split; [apply effective_nil|]. cbn [first_commit c_adds c_dels]. rewrite write_effect_nil.
  by apply replay_ok_projects.
Qed.

Lemma snapshot_entry_hist a k TID H : 0 <= TID -> snapshot TID (entry_hist a k H) = entry_hist a k (gsnapshot TID H).
Proof.
  intros Ht. unfold snapshot, entry_hist, gsnapshot. rewrite filter_cons, decide_True by done. f_equal.
  induction H as [|c H IH]; [done|]. cbn [omap list_omap]. rewrite (filter_cons _ c). unfold proj_commit at 1.
  destruct (decide (touches a k (g_log c))) as [Htc|Htc].
  - rewrite filter_cons. cbn [c_id]. case_decide; [|done]. cbn [omap list_omap]. unfold proj_commit at 2.
    rewrite decide_True by done. by rewrite IH.
  - case_decide; [|done]. cbn [omap list_omap]. unfold proj_commit at 2. by rewrite decide_False.
Qed.

Lemma entry_hist_Forall a k H (P : Z -> Prop) : P 0 -> Forall (fun c => P (g_id c)) H ->
  Forall (fun c => P (c_id c)) (entry_hist a k H).
Proof.
  intros H0 Hf. constructor; [done|]. rewrite Forall_forall. intros c (g&Hg&Hc)%list_elem_of_omap.
  unfold proj_commit in Hc. case_decide; [|done]. injection Hc as <-. rewrite Forall_forall in Hf. by apply Hf.
Qed.

(** ** Views *)

(** The triples a transaction is meant to see. *)
Definition gview (txn : Transaction) (X : triples) (H : list gcommit) (w : wlog) : triples :=
  log_effect w (greplay (if IS_RC txn then H else gsnapshot (TID txn) H) X).
