(* ===== verification/TxnSystem.v ===== *)
(** * Databases with running transactions

    The abstract database of [TxnHistory] (the history of committed changes and
    the changes of the running transactions) and the relation [coherent] between
    it, the running transaction objects and the labels of the entries.  The
    operations of a transaction preserve it: an update of a triple extends the
    change of the transaction or is refused because of a conflict, the commit
    appends the change to the history, the abort forgets it. *)

From S2P Require Import Prelude Util ValueStore KVstore TripleSet KVbatch Version VersionSpec GLatch Transaction IVEntry IVEntrySpec IVEntrySystem TxnStore TxnStoreSpec TxnLocks TxnHistory.

(** The abstract database. *)
Record adb := mk_adb { ab_hist : list gcommit; ab_logs : gmap Z wlog }.

(** The latch is shared by [t]. *)
Definition sharer (t : Z) (h : holders) : Prop := exists rs, h = Free_or_shared rs /\ t ∈ rs.

(** Two labels are the same for everybody but [t]. *)
Record same_for_others (t : Z) (l l' : label) : Prop := {
  so_pend q : p_tid q <> t -> l_pend l' = Some q <-> l_pend l = Some q;
  so_hist q : p_tid q <> t -> l_pend l = Some q -> l_hist l' = l_hist l;
  so_hold t' : t' <> t -> sharer t' (l_hold l') <-> sharer t' (l_hold l) }.

Lemma same_for_others_refl t l : same_for_others t l l.
Proof. done. Qed.

Lemma so_writes t l l' txn : same_for_others t l l' -> TID txn <> t -> writes txn l' <-> writes txn l.
Proof. intros Hs Hne. unfold writes, mine. split; intros (q&Hq&Ht); exists q; (split; [|done]); apply (so_pend _ _ _ Hs); congruence. Qed.

Lemma owns_others t txn L L' : TID txn <> t -> owns txn L ->
  (forall a k, word k -> same_for_others t (L a k) (L' a k)) -> owns txn L'.
Proof.
  intros Hne [H1 H2 H3 H4] HL. split; [done|done|..]; intros a k Hk.
  - rewrite H3 by done. symmetry. by apply (so_writes t); [apply HL|].
  - intros Hsr Hw. rewrite (H4 a k Hk Hsr Hw). symmetry. by apply (so_hold t); [apply HL|].
Qed.

Section Coherent.
Context (level : Z -> IsolationLevelType).

Record coherent (A : adb) (txns : gmap Z Transaction) (L : labels) : Prop := {
  co_hist a k : word k -> l_hist (L a k) = entry_hist a k (ab_hist A);
  co_writer a k t w : word k -> ab_logs A !! t = Some w -> touches a k w ->
    l_pend (L a k) = Some (entry_pend a k t w);
  co_pend a k q : word k -> l_pend (L a k) = Some q ->
    exists w, ab_logs A !! p_tid q = Some w /\ touches a k w;
  co_holder a k rs t : word k -> l_hold (L a k) = Free_or_shared rs -> t ∈ rs ->
    exists txn, txns !! t = Some txn /\ IS_SR txn = true;
  co_txn t txn : txns !! t = Some txn -> TID txn = t /\ runs_in level txn /\ owns txn L;
  co_log t txn : txns !! t = Some txn -> is_Some (ab_logs A !! t);
  co_sees a k t txn : txns !! t = Some txn -> IS_RC txn = false -> word k -> writes txn (L a k) ->
    Forall (fun c => c_id c <= t) (l_hist (L a k)) }.

(** What a step of [t] has to establish about [t] itself: it still runs, or it has
    left nothing behind. *)
Definition coherent_for (A : adb) (txns : gmap Z Transaction) (L : labels) (t : Z) : Prop :=
  match txns !! t, ab_logs A !! t with
  | Some txn, Some w =>
      TID txn = t /\ runs_in level txn /\ owns txn L /\
      forall a k, word k ->
        (touches a k w -> l_pend (L a k) = Some (entry_pend a k t w)) /\
        (writes txn (L a k) -> touches a k w) /\
        (sharer t (l_hold (L a k)) -> IS_SR txn = true) /\
        (IS_RC txn = false -> writes txn (L a k) -> Forall (fun c => c_id c <= t) (l_hist (L a k)))
  | None, None => forall a k, word k -> (forall q, l_pend (L a k) = Some q -> p_tid q <> t) /\ ~ sharer t (l_hold (L a k))
  | _, _ => False
  end.

(** A step of [t] changes nothing for the others. *)
Lemma coherent_step A txns L A' txns' L' t : coherent A txns L ->
  (forall t', t' <> t -> ab_logs A' !! t' = ab_logs A !! t' /\ txns' !! t' = txns !! t') ->
  (forall a k, word k -> l_hist (L' a k) = entry_hist a k (ab_hist A')) ->
  (forall a k, word k -> same_for_others t (L a k) (L' a k)) ->
  coherent_for A' txns' L' t -> coherent A' txns' L'.
Proof.
  intros Hc Hoth Hhist Hs Hme. unfold coherent_for in Hme.
  assert (Hme' : forall txn, txns' !! t = Some txn -> exists w, ab_logs A' !! t = Some w).
  { intros txn Ht. rewrite Ht in Hme. destruct (ab_logs A' !! t) as [w|]; [by exists w|done]. }
  split; [done|..].
  - intros a k t' w Hk Hw Hto. destruct (decide (t' = t)) as [->|Hne].
    + rewrite Hw in Hme. destruct (txns' !! t); [|done]. by apply Hme.
    + destruct (Hoth t' Hne) as [Hl _]. rewrite Hl in Hw. apply (so_pend _ _ _ (Hs a k Hk)); [done|].
      by apply (co_writer _ _ _ Hc).
  - intros a k q Hk Hq. destruct (decide (p_tid q = t)) as [He|Hne].
    + destruct (txns' !! t) as [txn|], (ab_logs A' !! t) as [w|] eqn:Hw; try done; [|by destruct (Hme a k Hk) as [Hn _]; destruct (Hn q Hq)].
      destruct Hme as (Hid&_&_&Hm). exists w. rewrite He. split; [done|]. apply (Hm a k Hk). exists q. by rewrite Hid.
    + destruct (Hoth _ Hne) as [-> _]. apply (so_pend _ _ _ (Hs a k Hk)) in Hq; [|done]. by apply (co_pend _ _ _ Hc).
  - intros a k rs t' Hk Hh Hin. assert (sharer t' (l_hold (L' a k))) as Hsh by (by exists rs).
    destruct (decide (t' = t)) as [->|Hne].
    + destruct (txns' !! t) as [txn|], (ab_logs A' !! t); try done; [|by destruct (Hme a k Hk)].
      exists txn. split; [done|]. by apply (proj2 (proj2 (proj2 Hme)) a k Hk).
    + destruct (Hoth _ Hne) as [_ ->]. apply (so_hold _ _ _ (Hs a k Hk)) in Hsh as (rs'&Hh'&Hin'); [|done].
      by eapply (co_holder _ _ _ Hc).
  - intros t' txn Ht. destruct (decide (t' = t)) as [->|Hne].
    + rewrite Ht in Hme. destruct (ab_logs A' !! t); [|done]. by destruct Hme as (?&?&?&_).
    + destruct (Hoth _ Hne) as [_ Hl]. rewrite Hl in Ht. destruct (co_txn _ _ _ Hc _ _ Ht) as (Hid&Hr&Ho).
      split_and!; [done|done|]. eapply (owns_others t); [congruence|done|done].
  - intros t' txn Ht. destruct (decide (t' = t)) as [->|Hne]; [by apply (Hme' txn)|].
    destruct (Hoth _ Hne) as [-> Hl]. rewrite Hl in Ht. by eapply (co_log _ _ _ Hc).
  - intros a k t' txn Ht Hrc Hk Hwr. destruct (decide (t' = t)) as [->|Hne].
    + rewrite Ht in Hme. destruct (ab_logs A' !! t); [|done]. by apply Hme.
    + destruct (Hoth _ Hne) as [_ Hl]. rewrite Hl in Ht. destruct (co_txn _ _ _ Hc _ _ Ht) as (Hid&_&_).
      apply (so_writes t _ _ _ (Hs a k Hk)) in Hwr as Hwr'; [|congruence]. destruct Hwr' as (q&Hq&Hqt).
      rewrite (so_hist _ _ _ (Hs a k Hk) q) by congruence. eapply (co_sees _ _ _ Hc); [done|done|done|]. by exists q.
Qed.

(** A transaction writes exactly the entries its change touches. *)
Lemma writes_touches A txns L a k t txn w : coherent A txns L -> txns !! t = Some txn ->
  ab_logs A !! t = Some w -> word k -> writes txn (L a k) <-> touches a k w.
Proof.
  intros Hc Ht Hw Hk. destruct (co_txn _ _ _ Hc t txn Ht) as (Hid&_&_). split.
  - intros (q&Hq&Hqt). destruct (co_pend _ _ _ Hc a k q Hk Hq) as (w'&Hw'&Hto).
    rewrite Hqt, Hid, Hw in Hw'. by injection Hw' as <-.
  - intros Hto. eexists. split; [by eapply (co_writer _ _ _ Hc)|done].
Qed.

Lemma in_writes_touches A txns L a k t txn w : coherent A txns L -> txns !! t = Some txn ->
  ab_logs A !! t = Some w -> word k -> in_writes txn a k = true <-> touches a k w.
Proof.
  intros Hc Ht Hw Hk. destruct (co_txn _ _ _ Hc t txn Ht) as (_&_&Ho). rewrite (ow_write _ _ Ho) by done.
  by eapply writes_touches.
Qed.

(** ** Conflicts *)

(** Another transaction writes the entry; a change that the transaction does not
    see was committed; another serializable transaction has read it. *)
Definition written_by_other (A : adb) (txn : Transaction) (a : array) (k : Z) : Prop :=
  exists t w, t <> TID txn /\ ab_logs A !! t = Some w /\ touches a k w.
Definition conflict (A : adb) (txns : gmap Z Transaction) (txn : Transaction) (a : array) (k : Z) : Prop :=
  written_by_other A txn a k \/
  (IS_RC txn = false /\ exists c, c ∈ ab_hist A /\ touches a k (g_log c) /\ TID txn < g_id c) \/
  (IS_SR txn = true /\ exists t txn', t <> TID txn /\ txns !! t = Some txn' /\ IS_SR txn' = true /\ in_reads txn' a k = true).

(** A conflict is with what others did. *)
Lemma conflict_others A A' txns txns' txn txn' a k : TID txn' = TID txn -> isolation txn' = isolation txn ->
  ab_hist A' = ab_hist A -> (forall t, t <> TID txn -> ab_logs A' !! t = ab_logs A !! t /\ txns' !! t = txns !! t) ->
  conflict A txns txn a k -> conflict A' txns' txn' a k.
Proof using Type.
  intros E1 E2 E3 Ho [(t&w&Hne&Hw&Ht)|[(Hrc&Hx)|(Hsr&t&x&Hne&Hx&Hr)]]; unfold conflict, written_by_other, IS_RC, IS_SR in *; rewrite E1, E2, ?E3.
  - left. exists t, w. destruct (Ho t Hne) as [-> _]. done.
  - right; left. done.
  - right; right. split; [done|]. exists t, x. destruct (Ho t Hne) as [_ ->]. done.
Qed.

#[global] Instance conflict_dec A txns txn a k : Decision (conflict A txns txn a k).
Proof using Type.
  unfold conflict, written_by_other. apply or_dec; [|apply or_dec].
  - refine (cast_if (decide (map_Exists (fun t w => t <> TID txn /\ touches a k w) (ab_logs A)))).
    + abstract (destruct m as (t&w&Hw&?&?); by exists t, w).
    + abstract (intros (t&w&?&?&?); apply n; by exists t, w).
  - refine (cast_if (decide (IS_RC txn = false /\ Exists (fun c => touches a k (g_log c) /\ TID txn < g_id c) (ab_hist A))));
      abstract (rewrite Exists_exists in *; naive_solver).
  - refine (cast_if (decide (IS_SR txn = true /\ map_Exists (fun t x => t <> TID txn /\ IS_SR x = true /\ in_reads x a k = true) txns))).
    + abstract (destruct a0 as (?&t&x&?&?&?&?); split; [done|]; by exists t, x).
    + abstract (intros (?&t&x&?&?&?&?); apply n; split; [done|]; by exists t, x).
Defined.

(** The entry may be written exactly when there is no conflict. *)
Lemma may_write_conflict A txns L a k txn e : coherent A txns L -> word k -> labelled level e (L a k) ->
  0 <= TID txn -> ~ writes txn (L a k) ->
  may_write (TID txn) (IS_RC txn) (l_hist (L a k)) (l_pend (L a k)) <->
  ~ (exists t w, t <> TID txn /\ ab_logs A !! t = Some w /\ touches a k w) /\
  ~ (IS_RC txn = false /\ exists c, c ∈ ab_hist A /\ touches a k (g_log c) /\ TID txn < g_id c).
Proof.
  intros Hc Hk He H0 Hnw. unfold may_write. destruct (l_pend (L a k)) as [q|] eqn:Hq.
  - destruct (co_pend _ _ _ Hc a k q Hk Hq) as (w&Hw&Hto).
    assert (p_tid q <> TID txn) as Hne by (intros Ht; apply Hnw; by exists q). split; [done|].
    intros [Hn _]. destruct Hn. by exists (p_tid q), w.
  - rewrite (co_hist _ _ _ Hc) by done. split.
    + intros Hm. split.
      * intros (t&w&_&Hw&Hto). rewrite (co_writer _ _ _ Hc a k t w Hk Hw Hto) in Hq. done.
      * intros (Hrc&c&Hin&Hto&Hlt). destruct Hm as [?|Hf]; [congruence|].
        apply Forall_cons in Hf as [_ Hf]. rewrite Forall_forall in Hf.
        specialize (Hf (mk_commit (g_id c) (proj a k (w_adds (g_log c))) (proj a k (w_dels (g_log c))))).
        cbn in Hf. assert (g_id c <= TID txn); [|lia]. apply Hf. apply list_elem_of_omap. exists c.
        split; [done|]. unfold proj_commit. by rewrite decide_True.
    + intros [_ Hn]. destruct (IS_RC txn) eqn:Hrc; [by left|right]. constructor; [done|].
      rewrite Forall_forall. intros c (g&Hg&Hcg)%list_elem_of_omap. unfold proj_commit in Hcg.
      case_decide as Hto; [|done]. injection Hcg as <-. cbn.
      destruct (Z.le_gt_cases (g_id g) (TID txn)) as [|Hgt]; [done|]. destruct Hn. split; [done|]. by exists g.
Qed.

Lemma grants_conflict A txns L a k txn e : coherent A txns L -> word k -> labelled level e (L a k) ->
  txns !! TID txn = Some txn -> l_pend (L a k) = None ->
  (grants txn (in_reads txn a k) (l_hold (L a k))).1 = true <->
  ~ (IS_SR txn = true /\ exists t txn', t <> TID txn /\ txns !! t = Some txn' /\ IS_SR txn' = true /\ in_reads txn' a k = true).
Proof.
  intros Hc Hk [He _] Ht Hp. unfold grants. destruct (IS_SR txn) eqn:Hsr; [|naive_solver].
  destruct (l_hold (L a k)) as [rs|x] eqn:Hh.
  2: { destruct (ei_hold _ _ He) as (_&_&q&Hq&_). cbn in *. congruence. }
  destruct (ei_hold _ _ He) as [_ Hnd].
  assert (Hread : forall t txn', txns !! t = Some txn' -> IS_SR txn' = true ->
    in_reads txn' a k = true <-> t ∈ rs).
  { intros t txn' Ht' Hsr'. destruct (co_txn _ _ _ Hc t txn' Ht') as (Hid&_&Ho).
    rewrite (ow_read _ _ Ho a k Hk Hsr').
    - rewrite Hh. unfold shares. rewrite Hid. split; [by intros (?&[= <-]&?)|by exists rs].
    - apply not_true_is_false. rewrite (ow_write _ _ Ho) by done. intros (q&Hq&_). congruence. }
  pose proof (Hread (TID txn) txn Ht Hsr) as Hme.
  assert (Hothers : (exists t, t <> TID txn /\ t ∈ rs) <->
    (exists t txn', t <> TID txn /\ txns !! t = Some txn' /\ IS_SR txn' = true /\ in_reads txn' a k = true)).
  { split.
    - intros (t&Hne&Hin). destruct (co_holder _ _ _ Hc a k rs t Hk Hh Hin) as (txn'&Ht'&Hsr').
      exists t, txn'. split_and!; try done. by apply (Hread t).
    - intros (t&txn'&Hne&Ht'&Hsr'&Hin). exists t. split; [done|]. by apply (Hread t txn'). }
  rewrite <- Hothers. clear Hothers Hread. destruct (in_reads txn a k).
  - assert (TID txn ∈ rs) as Hin by tauto. destruct rs as [|r [|r' rs]]; cbn.
    + by apply elem_of_nil in Hin.
    + apply list_elem_of_singleton in Hin as ->. split; [|done]. intros _ (_&t&Hne&Hin). set_solver.
    + split; [done|]. intros Hn. destruct Hn. split; [done|].
      apply NoDup_cons in Hnd as [Hr _]. destruct (decide (r = TID txn)) as [->|]; [exists r'|exists r]; set_solver.
  - assert (TID txn ∉ rs) as Hni by (intros Hin%Hme; done). destruct rs as [|r rs]; cbn.
    + split; [|done]. intros _ (_&t&_&Hin). set_solver.
    + split; [done|]. intros Hn. destruct Hn. split; [done|]. exists r. set_solver.
Qed.

Lemma grantable_conflict A txns L a k txn e w : coherent A txns L -> key_ok a k -> labelled level e (L a k) ->
  txns !! TID txn = Some txn -> ab_logs A !! TID txn = Some w ->
  grantable txn a k L <-> touches a k w \/ ~ conflict A txns txn a k.
Proof.
  intros Hc [Hk _] He Ht Hw. destruct (co_txn _ _ _ Hc _ _ Ht) as (_&[Hpos _]&Ho).
  assert (0 <= TID txn) as H0 by (unfold tid_ok in Hpos; lia).
  unfold grantable, conflict, written_by_other. rewrite (in_writes_touches _ _ _ a k _ _ _ Hc Ht Hw Hk).
  destruct (decide (touches a k w)) as [Hto|Hto]; [tauto|].
  assert (Hnw : ~ writes txn (L a k)) by (by rewrite (writes_touches _ _ _ a k _ _ _ Hc Ht Hw Hk)).
  unfold may_lock. pose proof (may_write_conflict A txns L a k txn e Hc Hk He H0 Hnw) as Hm.
  assert (Hg : may_write (TID txn) (IS_RC txn) (l_hist (L a k)) (l_pend (L a k)) -> l_pend (L a k) = None).
  { destruct (l_pend (L a k)) as [q|] eqn:Hq; [|done]. cbn. intros Hqt. destruct Hnw. by exists q. }
  pose proof (grants_conflict A txns L a k txn e Hc Hk He Ht) as Hgr. split.
  - intros [|[Hmw Hgs]]; [done|]. right. pose proof (Hgr (Hg Hmw)). tauto.
  - intros [|Hn]; [done|]. right. assert (Hmw : may_write (TID txn) (IS_RC txn) (l_hist (L a k)) (l_pend (L a k))) by tauto.
    split; [done|]. pose proof (Hgr (Hg Hmw)). tauto.
Qed.

Lemma refused_conflict A txns L a k txn e w : coherent A txns L -> key_ok a k -> labelled level e (L a k) ->
  txns !! TID txn = Some txn -> ab_logs A !! TID txn = Some w -> ~ grantable txn a k L -> conflict A txns txn a k.
Proof.
  intros Hc Hk He Ht Hw Hn. rewrite (grantable_conflict A txns L a k txn e w) in Hn by done.
  destruct (decide (conflict A txns txn a k)); tauto.
Qed.
End Coherent.

(** ** The steps of a transaction *)

Section Update.
Context (level : Z -> IsolationLevelType) (A : adb) (txns : gmap Z Transaction) (L : labels).
Context (Hc : coherent level A txns L) (Hlab : forall a k, word k -> exists e, labelled level e (L a k)).
Context (txn : Transaction) (w : wlog) (Ht : txns !! TID txn = Some txn) (Hw : ab_logs A !! TID txn = Some w).
Context (s p o : Z) (Hok : triple_ok (s, p, o)).
Abbreviation x := (s, p, o).

Lemma key3_of a : key3 s p o a = key_of a x.
Proof using Type. by destruct a. Qed.
Lemma val3_of a : val3 s p o a = val_of a x.
Proof using Type. by destruct a. Qed.

Lemma proj_snoc a l : proj a (key_of a x) (l ++ [x]) = proj a (key_of a x) l ++ [val_of a x].
Proof using Type. rewrite proj_app. unfold proj at 2. by rewrite filter_cons, decide_True. Qed.

(** Writing the pair of the triple extends the projected change. *)
Lemma write_label_pend ins a l : l_pend l = Some (entry_pend a (key_of a x) (TID txn) w) ->
  l_pend (write_label ins (val_of a x) l) = Some (entry_pend a (key_of a x) (TID txn) (log_update ins x w)).
Proof using Type.
  intros Hp. destruct ins; cbn [write_label written_label l_pend log_update]; rewrite Hp; cbn; f_equal;
    unfold written, entry_pend; cbn [p_tid p_adds p_dels w_adds w_dels]; rewrite set_order_singleton, proj_snoc;
    rewrite ?(app_nil_r (proj _ _ _)); done.
Qed.

Lemma locked_pend a : l_pend (lock1 txn a (key_of a x) L a (key_of a x)) =
  Some (entry_pend a (key_of a x) (TID txn) w).
Proof using Hc Ht Hw Hok.
  assert (word (key_of a x)) as Hk by (rewrite <- key3_of; by apply key3_ok).
  unfold lock1. destruct (in_writes txn a (key_of a x)) eqn:Hiw.
  - apply (in_writes_touches _ _ _ _ a _ _ _ _ Hc Ht Hw Hk) in Hiw. by apply (co_writer _ _ _ _ Hc).
  - rewrite lset_eq. cbn. assert (Hn : ~ touches a (key_of a x) w).
    { rewrite <- (in_writes_touches _ _ _ _ a _ _ _ _ Hc Ht Hw Hk). by rewrite Hiw. }
    unfold entry_pend. by destruct (proj_untouched _ _ _ Hn) as [-> ->].
Qed.

(** A granted lock is exclusive: the latch was free or shared by the transaction
    alone. *)
Lemma granted_hold a : word (key_of a x) -> in_writes txn a (key_of a x) = false -> IS_SR txn = true ->
  l_pend (L a (key_of a x)) = None ->
  (grants txn (in_reads txn a (key_of a x)) (l_hold (L a (key_of a x)))).1 = true ->
  (grants txn (in_reads txn a (key_of a x)) (l_hold (L a (key_of a x)))).2 = Exclusive (TID txn) /\
  forall t, t <> TID txn -> ~ sharer t (l_hold (L a (key_of a x))).
Proof using Hc Ht Hlab.
  intros Hk Hiw Hsr Hp Hg. destruct (co_txn _ _ _ _ Hc _ _ Ht) as (_&_&Ho).
  destruct (Hlab a (key_of a x) Hk) as (e&He&_). unfold grants in *. rewrite Hsr in *.
  pose proof (ow_read _ _ Ho a (key_of a x) Hk Hsr Hiw) as Hrd.
  destruct (l_hold (L a (key_of a x))) as [rs|y] eqn:Hh.
  2: { destruct (ei_hold _ _ He) as (_&_&q&Hq&_). cbn in Hq. congruence. }
  destruct (in_reads txn a (key_of a x)); destruct rs as [|r [|r' rs]]; try done; cbn; (split; [done|]).
  - destruct (proj1 Hrd eq_refl) as (rs'&[= <-]&Hin). apply list_elem_of_singleton in Hin as ->.
    intros t Hne (rs'&[= <-]&Hin). by apply list_elem_of_singleton in Hin.
  - intros t Hne (rs'&[= <-]&Hin). by apply elem_of_nil in Hin.
Qed.

Lemma locked_others a : grantable txn a (key_of a x) L ->
  (l_hold (lock1 txn a (key_of a x) L a (key_of a x)) = l_hold (L a (key_of a x)) \/
   l_hold (lock1 txn a (key_of a x) L a (key_of a x)) = Exclusive (TID txn)) /\
  same_for_others (TID txn) (L a (key_of a x)) (lock1 txn a (key_of a x) L a (key_of a x)).
Proof using Hc Ht Hok Hlab.
  assert (word (key_of a x)) as Hk by (rewrite <- key3_of; by apply key3_ok).
  destruct (co_txn _ _ _ _ Hc _ _ Ht) as (_&_&Ho). unfold lock1.
  destruct (in_writes txn a (key_of a x)) eqn:Hiw; intros Hgr; [split; [by left|apply same_for_others_refl]|].
  destruct Hgr as [?|[Hmw Hg]]; [congruence|]. rewrite lset_eq.
  assert (Hp : l_pend (L a (key_of a x)) = None).
  { destruct (l_pend (L a (key_of a x))) as [q|] eqn:Hq; [|done]. cbn in Hmw.
    destruct (owns_not_writes txn L a (key_of a x)); [done..|]. by exists q. }
  assert (Hhold : ((grants txn (in_reads txn a (key_of a x)) (l_hold (L a (key_of a x)))).2 = l_hold (L a (key_of a x)) \/
      (grants txn (in_reads txn a (key_of a x)) (l_hold (L a (key_of a x)))).2 = Exclusive (TID txn)) /\
      forall t, t <> TID txn -> sharer t (grants txn (in_reads txn a (key_of a x)) (l_hold (L a (key_of a x)))).2 <->
        sharer t (l_hold (L a (key_of a x)))).
  { destruct (IS_SR txn) eqn:Hsr; [|unfold grants; rewrite Hsr; by split; [left|]].
    destruct (granted_hold a Hk Hiw Hsr Hp Hg) as [-> Hn]. split; [by right|].
    intros t Hne. split; [by intros (?&?&?)|]. intros Hs. by destruct (Hn t Hne). }
  split; [apply Hhold|]. split; cbn [locked_label l_pend l_hist l_hold]; [|done|apply Hhold].
  intros q Hq. rewrite Hp. split; [|done]. intros [= <-]. done.
Qed.

(** The label of an entry after the update. *)
Lemma updated_label ins a k : grantable3 txn s p o L -> word k ->
  let l' := write3 s p o ins (lock3 txn s p o L) a k in
  l_hist l' = l_hist (L a k) /\ (l_hold l' = l_hold (L a k) \/ l_hold l' = Exclusive (TID txn)) /\
  same_for_others (TID txn) (L a k) l' /\
  ((k <> key_of a x /\ l' = L a k) \/
   (k = key_of a x /\ l_pend l' = Some (entry_pend a k (TID txn) (log_update ins x w)) /\ grantable txn a k L)).
Proof using Hc Ht Hw Hok Hlab.
  intros (Hg1&Hg2&Hg3) Hk l'. subst l'. rewrite write3_lookup, lock3_lookup, key3_of, val3_of.
  destruct (decide (k = key_of a x)) as [->|Hne].
  2: { split_and!; [done|by left|apply same_for_others_refl|by left]. }
  assert (Hg : grantable txn a (key_of a x) L) by (by destruct a).
  destruct (locked_others a Hg) as [Hh Hs]. rewrite !hold_write_label.
  assert (Hhist : l_hist (write_label ins (val_of a x) (lock1 txn a (key_of a x) L a (key_of a x))) = l_hist (L a (key_of a x))).
  { unfold write_label, lock1. by destruct ins, (in_writes txn a (key_of a x)); rewrite ?lset_eq. }
  pose proof (write_label_pend ins a _ (locked_pend a)) as Hpend.
  split_and!; [done|done| |right; by split_and!]. split.
  - intros q Hq. rewrite Hpend. split; [by intros [= <-]|]. intros Hq'.
    apply (so_pend _ _ _ Hs q Hq) in Hq'. rewrite locked_pend in Hq'. by injection Hq' as <-.
  - intros q Hq Hq'. done.
  - intros t Hne. rewrite hold_write_label. by apply (so_hold _ _ _ Hs).
Qed.

Lemma proj_snoc_other a k l : k <> key_of a x -> proj a k (l ++ [x]) = proj a k l.
Proof using Type.
  intros Hne. rewrite proj_app. unfold proj at 2. rewrite filter_cons, decide_False by done. apply app_nil_r.
Qed.

Lemma coherent_update ins : grantable3 txn s p o L ->
  coherent level (mk_adb (ab_hist A) (<[TID txn := log_update ins x w]> (ab_logs A)))
    (<[TID txn := WriteSetInsert s p o txn]> txns) (write3 s p o ins (lock3 txn s p o L)).
Proof using Hc Ht Hw Hok Hlab.
  intros Hg. pose proof (updated_label ins) as Hul. cbv zeta in Hul.
  destruct (co_txn _ _ _ _ Hc _ _ Ht) as (_&Hrun&Ho).
  eapply (coherent_step level A txns L _ _ _ (TID txn) Hc).
  - intros t' Hne. cbn [ab_logs]. by rewrite !lookup_insert_ne.
  - intros a k Hk. cbn [ab_hist]. rewrite <- (co_hist _ _ _ _ Hc) by done. by apply Hul.
  - intros a k Hk. by apply Hul.
  - unfold coherent_for. cbn [ab_logs]. rewrite !lookup_insert_eq. split_and!; [done|done|by apply owns_updated|].
    intros a k Hk. destruct (Hul a k Hg Hk) as (Hhist&Hhold&_&Hl). rewrite Hhist.
    rewrite touches_update. change (IS_RC (WriteSetInsert s p o txn)) with (IS_RC txn).
    assert (Hsh : sharer (TID txn) (l_hold (write3 s p o ins (lock3 txn s p o L) a k)) -> IS_SR txn = true).
    { intros (rs&Hrs&Hin). destruct Hhold as [Hh|Hh]; [|congruence]. rewrite Hh in Hrs.
      destruct (co_holder _ _ _ _ Hc a k rs _ Hk Hrs Hin) as (txn'&Ht'&Hsr). congruence. }
    destruct Hl as [(Hne&Heq)|(->&Hp&Hgr)].
    + rewrite Heq in *. assert (writes txn (L a k) <-> touches a k w) as Hwt by (by eapply writes_touches).
      split_and!; [| |done|].
      * intros [|Hto]; [done|]. rewrite (co_writer _ _ _ _ Hc a k _ w Hk Hw Hto).
        unfold entry_pend. f_equal. destruct ins; cbn [log_update w_adds w_dels]; by rewrite proj_snoc_other.
      * intros Hwr. right. by apply Hwt.
      * intros Hrc Hwr. by eapply (co_sees _ _ _ _ Hc).
    + split_and!; [done|by left|done|]. intros Hrc _.
      destruct Hgr as [Hiw|[Hmw _]]; [by eapply (co_sees _ _ _ _ Hc); [..|apply (ow_write _ _ Ho)]|].
      destruct (l_pend (L a (key_of a x))) as [q|] eqn:Hq; cbn in Hmw.
      * eapply (co_sees _ _ _ _ Hc); [exact Ht|done|done|]. by exists q.
      * destruct Hmw as [?|Hf]; [congruence|done].
Qed.
End Update.

Lemma elem_of_remove_one t t' rs : t' <> t -> t' ∈ remove_one t rs <-> t' ∈ rs.
Proof. intros Hne. induction rs as [|r rs IH]; [done|]. cbn. case_decide; set_solver. Qed.

Lemma remove_one_gone t rs : NoDup rs -> t ∉ remove_one t rs.
Proof.
  induction 1 as [|r rs Hr Hn IH]; cbn; [by intros ?%elem_of_nil|]. case_decide as He; [by subst|]. set_solver.
Qed.

(** The end of a transaction. *)

Section End.
Context (level : Z -> IsolationLevelType) (A : adb) (txns : gmap Z Transaction) (L : labels).
Context (Hc : coherent level A txns L) (Hlab : forall a k, word k -> exists e, labelled level e (L a k)).
Context (txn : Transaction) (w : wlog) (Ht : txns !! TID txn = Some txn) (Hw : ab_logs A !! TID txn = Some w).

(** The committed change, or none. *)
Definition end_hist (commit : bool) : list gcommit :=
  if commit then ab_hist A ++ [mk_gcommit (CommitID txn) w] else ab_hist A.
Definition end_post (commit : bool) : label -> label :=
  if commit then committed_label txn else aborted_label txn false.

(** The label of a written entry after the end. *)
Lemma ended_written commit a k : word k -> in_writes txn a k = true ->
  l_hist (end_post commit (L a k)) = entry_hist a k (end_hist commit) /\
  l_pend (end_post commit (L a k)) = None /\
  ~ sharer (TID txn) (l_hold (end_post commit (L a k))) /\
  same_for_others (TID txn) (L a k) (end_post commit (L a k)).
Proof using Hc Hlab Ht Hw.
  intros Hk Hiw. destruct (co_txn _ _ _ _ Hc _ _ Ht) as (_&Hrun&Ho).
  assert (Hto : touches a k w) by (by eapply in_writes_touches).
  pose proof (co_writer _ _ _ _ Hc a k _ w Hk Hw Hto) as Hp. pose proof (co_hist _ _ _ _ Hc a k Hk) as Hh.
  assert (Hhold : l_hold (end_post commit (L a k)) = hold_if (IS_SR txn) (Free_or_shared []) (l_hold (L a k))).
  { by destruct commit. }
  assert (Hpend : l_pend (end_post commit (L a k)) = None) by (by destruct commit).
  split_and!; [|done|..].
  - destruct commit; cbn; [|done]. rewrite Hp, Hh, entry_hist_app. cbn. unfold proj_commit. by rewrite decide_True.
  - rewrite Hhold. intros (rs&Hrs&Hin). destruct (IS_SR txn) eqn:Hsr; cbn in Hrs.
    + injection Hrs as <-. by apply elem_of_nil in Hin.
    + destruct (co_holder _ _ _ _ Hc a k rs _ Hk Hrs Hin) as (txn'&Ht'&Hsr'). congruence.
  - split.
    + intros q Hq. rewrite Hpend, Hp. split; [done|]. by intros [= <-].
    + intros q Hq. rewrite Hp. by intros [= <-].
    + intros t Hne. rewrite Hhold. destruct (IS_SR txn) eqn:Hsr; cbn [hold_if]; [|done].
      destruct (Hlab a k Hk) as (e&He&_).
      assert (l_hold (L a k) = Exclusive (TID txn)) as ->.
      { apply (ei_writer _ _ He (entry_pend a k (TID txn) w)); [done|]. by apply IS_SR_level. }
      split; [|by intros (?&?&?)]. intros (rs&[= <-]&Hin). by apply elem_of_nil in Hin.
Qed.

(** The label of an entry that the transaction has at most read. *)
Lemma ended_unwritten commit a k : word k -> in_writes txn a k = false ->
  let l' := if IS_SR txn && in_reads txn a k then unshared_label txn (L a k) else L a k in
  l_hist l' = entry_hist a k (end_hist commit) /\ (forall q, l_pend l' = Some q -> p_tid q <> TID txn) /\
  ~ sharer (TID txn) (l_hold l') /\ same_for_others (TID txn) (L a k) l'.
Proof using Hc Hlab Ht Hw.
  intros Hk Hiw l'. destruct (co_txn _ _ _ _ Hc _ _ Ht) as (_&Hrun&Ho).
  assert (Hnt : ~ touches a k w) by (rewrite <- (in_writes_touches _ _ _ _ a k _ _ _ Hc Ht Hw Hk); by rewrite Hiw).
  assert (Hh : l_hist (L a k) = entry_hist a k (end_hist commit)).
  { rewrite (co_hist _ _ _ _ Hc) by done. destruct commit; cbn [end_hist]; [|done]. rewrite entry_hist_app.
    cbn. unfold proj_commit. rewrite decide_False by done. by rewrite app_nil_r. }
  assert (Hnp : forall q, l_pend (L a k) = Some q -> p_tid q <> TID txn).
  { intros q Hq Hqt. destruct (owns_not_writes txn L a k); [done..|]. by exists q. }
  assert (Hsh : sharer (TID txn) (l_hold (L a k)) <-> IS_SR txn && in_reads txn a k = true).
  { rewrite andb_true_iff. split.
    - intros Hs. assert (IS_SR txn = true) as Hsr.
      { destruct Hs as (rs&Hrs&Hin). destruct (co_holder _ _ _ _ Hc a k rs _ Hk Hrs Hin) as (txn'&?&?). congruence. }
      split; [done|]. by apply (ow_read _ _ Ho).
    - intros [Hsr Hr]. by apply (ow_read _ _ Ho). }
  subst l'. destruct (IS_SR txn && in_reads txn a k).
  2: { split_and!; [done|done| |apply same_for_others_refl]. intros ?%Hsh. done. }
  destruct (proj2 Hsh eq_refl) as (rs&Hrs&Hin). destruct (Hlab a k Hk) as (e&He&_).
  pose proof (ei_hold _ _ He) as Hnd. cbn [hold] in Hnd. rewrite Hrs in Hnd. destruct Hnd as [_ Hnd].
  unfold unshared_label. rewrite Hrs. cbn [l_hist l_pend l_hold]. split_and!; [done|done|..].
  - intros (rs'&[= <-]&Hin'). by apply (remove_one_gone (TID txn) rs).
  - split; cbn [l_hist l_pend l_hold]; [done|done|]. intros t Hne. rewrite Hrs. unfold sharer. split.
    + intros (rs'&[= <-]&Hin'). exists rs. split; [done|]. by apply (elem_of_remove_one (TID txn)).
    + intros (rs'&[= <-]&Hin'). eexists. split; [done|]. by apply elem_of_remove_one.
Qed.

Lemma coherent_end commit :
  coherent level (mk_adb (end_hist commit) (delete (TID txn) (ab_logs A))) (delete (TID txn) txns)
    (end_labels txn (end_post commit) L).
Proof using Hc Hlab Ht Hw.
  assert (Hl : forall a k, word k -> let l' := end_labels txn (end_post commit) L a k in
    l_hist l' = entry_hist a k (end_hist commit) /\ (forall q, l_pend l' = Some q -> p_tid q <> TID txn) /\
    ~ sharer (TID txn) (l_hold l') /\ same_for_others (TID txn) (L a k) l').
  { intros a k Hk. unfold end_labels. cbv zeta. destruct (in_writes txn a k) eqn:Hiw; [|by apply ended_unwritten].
    destruct (ended_written commit a k Hk Hiw) as (H1&->&H3&H4). split_and!; done. }
  eapply (coherent_step level A txns L _ _ _ (TID txn) Hc).
  - intros t' Hne. cbn [ab_logs]. by rewrite !lookup_delete_ne.
  - intros a k Hk. by apply Hl.
  - intros a k Hk. by apply Hl.
  - unfold coherent_for. cbn [ab_logs]. rewrite !lookup_delete_eq. intros a k Hk.
    by destruct (Hl a k Hk) as (_&?&?&_).
Qed.
End End.

(** The begin of a transaction. *)
Lemma coherent_begin level A txns L txn : coherent level A txns L -> txns !! TID txn = None ->
  ab_logs A !! TID txn = None -> runs_in level txn -> txn_wf txn ->
  (forall a k, in_writes txn a k = false /\ in_reads txn a k = false) ->
  coherent level (mk_adb (ab_hist A) (<[TID txn := no_writes]> (ab_logs A))) (<[TID txn := txn]> txns) L.
Proof.
  intros Hc Ht Hl Hrun Hwf Hempty.
  assert (Hnw : forall a k, word k -> ~ writes txn (L a k)).
  { intros a k Hk (q&Hq&Hqt). destruct (co_pend _ _ _ _ Hc a k q Hk Hq) as (w&Hw&_). congruence. }
  assert (Hns : forall a k, word k -> ~ sharer (TID txn) (l_hold (L a k))).
  { intros a k Hk (rs&Hrs&Hin). destruct (co_holder _ _ _ _ Hc a k rs _ Hk Hrs Hin) as (txn'&?&_). congruence. }
  eapply (coherent_step level A txns L _ _ _ (TID txn) Hc).
  - intros t' Hne. cbn [ab_logs]. by rewrite !lookup_insert_ne.
  - intros a k Hk. cbn [ab_hist]. by apply (co_hist _ _ _ _ Hc).
  - intros a k Hk. apply same_for_others_refl.
  - unfold coherent_for. cbn [ab_logs]. rewrite !lookup_insert_eq. split_and!; [done|done| |].
    + split; [done|..].
      * intros a k. destruct (Hempty a k) as [-> ->]. by intros [|].
      * intros a k Hk. destruct (Hempty a k) as [-> _]. split; [done|]. intros ?. by destruct (Hnw a k Hk).
      * intros a k Hk _ _. destruct (Hempty a k) as [_ ->]. split; [done|]. intros ?. by destruct (Hns a k Hk).
    + intros a k Hk. split_and!.
      * intros (t&[Hin|Hin]&_); by apply elem_of_nil in Hin.
      * intros ?. by destruct (Hnw a k Hk).
      * intros ?. by destruct (Hns a k Hk).
      * intros _ ?. by destruct (Hnw a k Hk).
Qed.
