(* ===== verification/TxnRead.v ===== *)
(** * The getters of a transaction

    The branches of the getters of [KVstore] (KVstore/KVstore.cpp) that run in a
    transaction: they collect the pairs the transaction sees beyond the stored
    ones and those it does not see any more, merge them into a copy of the value
    list, and read that copy as outside of a transaction.  [merge_values] is the
    text they share with the vacuum.

    At the end, the vacuum, which merges committed versions into the value lists. *)

From S2P Require Import Prelude Util ValueList Adjacency ValueUpdate ValueSpec PreList ValueRead BatchInsert BatchInsertSpec BatchRemove BatchRemoveSpec BatchPre BatchPreSpec ValueStore KVstore TripleSet KVget KVbatchSpec Version GLatch Transaction IVEntry IVEntrySpec TxnStore.

(** ** Merging *)

Section Merge.
Context (enough : Z -> bool) (junk : nat -> Z).

Definition Insert_of (a : array) : list Z -> list Z -> option (list Z * Z) :=
  match a with
  | Sub => Insert_s2values enough junk
  | Pre => Insert_p2values junk
  | Obj => Insert_o2values junk
  end.
Definition Remove_of (a : array) : list Z -> list Z -> option (list Z * Z) :=
  match a with
  | Sub => Remove_s2values junk
  | Pre => Remove_p2values junk
  | Obj => Remove_o2values junk
  end.

(** [if(list.size() != 0) { _len = _len / sizeof(unsigned); f(list, _tmp, _len,
    _values, _values_len); _tmp = _values; ... }]. *)
Definition merge_with (f : list Z -> list Z -> option (list Z * Z)) (set : VDataSet) (_tmp : list Z)
    : option (list Z) :=
  match flat (set_order set) with
  | [] => Some _tmp
  | l => '(_values, _) ← f l _tmp; Some _values
  end.

Definition merge_values (a : array) (addset delset : VDataSet) (_tmp : list Z) : option (list Z) :=
  _tmp ← merge_with (Insert_of a) addset _tmp;
  merge_with (Remove_of a) delset _tmp.
End Merge.

(** ** The getters *)

Section Code.
Context {S : Type} `{VS : ValueStore S} `{ES : EntryStore S} (enough : Z -> bool) (junk : nat -> Z).
Abbreviation TW := (KVstore (TArray S) * Transaction)%type.

Definition id_type (a : array) : IDType :=
  match a with Sub => SUBJECT | Pre => PREDICATE | Obj => OBJECT end.
Definition shared_error (a : array) : TransactionErrorType :=
  match a with Sub => SUB_S | Pre => PRE_S | Obj => OBJ_S end.

(** The head of the getters; [None] when they return [false].  They differ in the
    sets [FirstRead] looks at ([checks_write]), in whether the read set is extended
    when the latch was taken or whenever [FirstRead] holds ([needs_latch]), and in
    whether that happens before the test of [_get] ([early]). *)
Definition fetch_txn (a : array) (_id : Z) (checks_write needs_latch early : bool) : M TW (option (list Z)) :=
  let! txn := txn_get in
  let IS_SI := IS_SR txn in
  let FirstRead := IS_SI && negb (ReadSetFind _id (id_type a) txn) &&
                   (if checks_write then negb (WriteSetFind _id (id_type a) txn) else true) in
  let! r := getValueByKey_txn junk a _id (∅, ∅) false FirstRead in
  let register : M TW unit :=
    if IS_SI && (if needs_latch then sr_latched r else FirstRead) && FirstRead
    then txn_mod (ReadSetInsert _id (id_type a)) else retM tt in
  let! _ := (if early : bool then register else retM tt) in
  let! txn := txn_get in
  let! _ := (if bool_decide (txn_state txn = ABORTED) then txn_mod (SetErrorType (shared_error a)) else retM tt) in
  if negb (sr_ret r) then retM None
  else
    let! _ := (if early then retM tt else register) in
    let! _tmp := liftM (merge_values enough junk a (sr_sets r).1 (sr_sets r).2 (default [] (sr_str r))) in
    if len _tmp =? 0 then retM None else retM (Some _tmp).

Definition read_fetched {A} (fetch : M TW (option (list Z))) (f : list Z -> option A) : M TW (option A) :=
  let! _get := fetch in
  match _get with
  | None => retM None
  | Some _tmp => let! r := liftM (f _tmp) in retM (Some r)
  end.

Definition join_fetched {A} (m : M TW (option (option A))) : M TW (option A) :=
  let! r := m in retM (default None r).

Definition getpreIDlistBysubID_txn (_subid : Z) : M TW (option (list Z)) :=
  if negb (is_entity_ele _subid) then retM None
  else read_fetched (fetch_txn Sub _subid true true true) (read_keys 3 junk).

Definition getobjIDlistBysubID_txn (_subid : Z) (_no_duplicate : bool) : M TW (option (list Z)) :=
  if negb (is_entity_ele _subid) then retM None
  else read_fetched (fetch_txn Sub _subid true true false) (read_all 3 junk _no_duplicate).

Definition getobjIDlistBysubIDpreID_txn (_subid _preid : Z) : M TW (option (list Z)) :=
  if negb (is_entity_ele _subid) then retM None
  else join_fetched (read_fetched (fetch_txn Sub _subid false true false) (fun t => read_list 3 junk t _preid)).

Definition getpreIDobjIDlistBysubID_txn (_subid : Z) : M TW (option (list Z)) :=
  if negb (is_entity_ele _subid) then retM None
  else read_fetched (fetch_txn Sub _subid true true false) (read_pairs 3 junk).

Definition getpreIDlistByobjID_txn (_objid : Z) : M TW (option (list Z)) :=
  if _objid =? INVALID_ENTITY_LITERAL_ID then retM None
  else read_fetched (fetch_txn Obj _objid true true false) (read_keys 2 junk).

Definition getsubIDlistByobjID_txn (_objid : Z) (_no_duplicate : bool) : M TW (option (list Z)) :=
  if _objid =? INVALID_ENTITY_LITERAL_ID then retM None
  else read_fetched (fetch_txn Obj _objid true true false) (read_all 2 junk _no_duplicate).

Definition getsubIDlistByobjIDpreID_txn (_objid _preid : Z) : M TW (option (list Z)) :=
  if _objid =? INVALID_ENTITY_LITERAL_ID then retM None
  else join_fetched (read_fetched (fetch_txn Obj _objid false true false) (fun t => read_list 2 junk t _preid)).

Definition getpreIDsubIDlistByobjID_txn (_objid : Z) : M TW (option (list Z)) :=
  if _objid =? INVALID_ENTITY_LITERAL_ID then retM None
  else read_fetched (fetch_txn Obj _objid true true false) (read_pairs 2 junk).

(** These two extend the read set whether or not the latch was taken. *)
Definition getsubIDlistBypreID_txn (_preid : Z) (_no_duplicate : bool) : M TW (option (list Z)) :=
  read_fetched (fetch_txn Pre _preid true false false) (p2_read_subs junk _no_duplicate).
Definition getobjIDlistBypreID_txn (_preid : Z) (_no_duplicate : bool) : M TW (option (list Z)) :=
  read_fetched (fetch_txn Pre _preid true false false) (p2_read_objs junk _no_duplicate).

Definition getsubIDobjIDlistBypreID_txn (_preid : Z) : M TW (option (list Z)) :=
  read_fetched (fetch_txn Pre _preid true true false) (p2_read_pairs junk).

(** [Database::exist_triple] in a transaction. *)
Definition exist_triple_txn (_sub_id _pre_id _obj_id : Z) : M TW bool :=
  let! r := getobjIDlistBysubIDpreID_txn _sub_id _pre_id in
  let _objidlist := default [] r in
  let! i := liftM (bsearch_int_uporder _obj_id _objidlist (len _objidlist)) in
  retM (negb (i =? INVALID)).
End Code.

(** ** What merging computes *)

Lemma set_order_sorted X : lex_sorted (set_order X).
Proof.
  assert (Transitive pair_le) as Ht.
  { intros x y z [H1|[H1 H1']] [H2|[H2 H2']]; [left|left|left|right]; lia. }
  assert (Total pair_le) as Htot.
  { intros x y. unfold pair_le. destruct (Z.lt_trichotomy x.1 y.1) as [|[|]]; [left; lia| |right; lia].
    destruct (Z.le_ge_cases x.2 y.2); [left|right]; right; lia. }
  pose proof (StronglySorted_merge_sort pair_le (elements X)) as Hs. fold (set_order X) in Hs.
  pose proof (NoDup_set_order X) as Hn. revert Hn. clear -Hs.
  induction Hs as [|x l Hs IH Hf]; [constructor|]. intros [Hx Hn]%NoDup_cons. constructor; [by apply IH|].
  rewrite Forall_forall in *. intros y Hy. specialize (Hf y Hy). destruct x as [x1 x2], y as [y1 y2].
  unfold pair_le, lex_lt in *. cbn in *. destruct Hf as [|[-> Hle]]; [by left|right]. split; [done|].
  destruct (decide (x2 = y2)) as [->|]; [done|lia].
Qed.

(** The cells [v] are the value list of the pairs [X]. *)
Definition encodes (a : array) (v : list Z) (X : VDataSet) : Prop :=
  match a with
  | Pre => exists L, lex_sorted L /\ Forall word_pair L /\ (forall y, y ∈ L <-> y ∈ X) /\ v = stored_p L
  | Sub => exists A, wf A /\ (forall y, y ∈ pairs A <-> y ∈ X) /\ v = stored_values true A
  | Obj => exists A, wf A /\ (forall y, y ∈ pairs A <-> y ∈ X) /\ v = stored_values false A
  end.

Section Merging.
Context (enough : Z -> bool) (junk : nat -> Z) (Hmem : forall n, enough n = true).

Lemma flat_set_order X : X <> ∅ -> flat (set_order X) <> [] /\ set_order X <> [].
Proof.
  intros Hne. assert (set_order X <> []) as Hs.
  { intros E. apply Hne. apply set_eq. intros y. rewrite <- elem_of_set_order, E. set_solver. }
  split; [|done]. by apply flat_nonempty.
Qed.

Lemma merge_with_empty f v : merge_with f ∅ v = Some v.
Proof.
  unfold merge_with. assert (set_order ∅ = []) as ->; [|done].
  apply elem_of_nil_inv. intros y. rewrite elem_of_set_order. set_solver.
Qed.

Lemma merge_with_some f X v v' n : X <> ∅ -> f (flat (set_order X)) v = Some (v', n) -> merge_with f X v = Some v'.
Proof.
  intros Hne Hf. destruct (flat_set_order X Hne) as [Hn _]. unfold merge_with.
  destruct (flat (set_order X)); [done|]. by rewrite Hf.
Qed.

Definition small_pairs (X : VDataSet) : Prop := 12 * Z.of_nat (base.size X) + 24 < W31.

Lemma size_set_order X : len (set_order X) = Z.of_nat (base.size X).
Proof. by rewrite set_order_Permutation. Qed.

Lemma NoDup_size (l : list VData) (X : VDataSet) : NoDup l -> (forall y, y ∈ l <-> y ∈ X) ->
  len l = Z.of_nat (base.size X).
Proof.
  intros Hn Hl. rewrite <- (size_list_to_set (C := VDataSet) l Hn). do 2 f_equal. apply set_eq.
  intros y. by rewrite elem_of_list_to_set, Hl.
Qed.

(** Value lists of subjects and objects. *)
Definition encodes_adj (ent : bool) (v : list Z) (X : VDataSet) : Prop :=
  exists A, wf A /\ (forall y, y ∈ pairs A <-> y ∈ X) /\ v = stored_values ent A.

Lemma insert_adj_merge ent en f v X Y : (forall n, en n = true) ->
  f = Insert_values (hoff ent) ent en junk -> encodes_adj ent v X ->
  set_Forall word_pair Y -> 12 * (Z.of_nat (base.size X) + Z.of_nat (base.size Y)) + 24 < W31 ->
  exists v', merge_with f Y v = Some v' /\ encodes_adj ent v' (X ∪ Y).
Proof.
  intros Hen -> (A&Hwf&HA&->) HY Hsz. destruct (decide (Y = ∅)) as [->|Hne].
  { exists (stored_values ent A). rewrite merge_with_empty. split; [done|]. exists A. split_and!; [done| |done].
    intros y. rewrite HA. set_solver. }
  destruct (flat_set_order Y Hne) as [_ Hn].
  assert (size A = Z.of_nat (base.size X)) as HsA.
  { rewrite <- length_pairs. apply NoDup_size; [by apply NoDup_pairs|done]. }
  pose proof (encode_len ent A Hwf) as HlA.
  destruct (Insert_values_spec ent en junk A (set_order Y)) as (U&HU&HwU&_&HUn&HpU); [done|done|apply set_order_sorted| | |done|].
  { apply Forall_forall. intros y Hy%elem_of_set_order. by apply HY. }
  { rewrite size_set_order. lia. }
  exists (encode ent U). split; [by eapply merge_with_some|]. exists U. split_and!; [done| |by destruct U].
  intros y. rewrite HpU, HA, elem_of_set_order. set_solver.
Qed.

Lemma remove_adj_merge ent f v X Y :
  (forall Q tmp, Q <> [] -> tmp <> [] -> f (flat Q) tmp = Remove_values (hoff ent) ent junk (flat Q) tmp) ->
  encodes_adj ent v X -> Y ⊆ X -> small_pairs X ->
  exists v', merge_with f Y v = Some v' /\ encodes_adj ent v' (X ∖ Y).
Proof.
  intros Hf (A&Hwf&HA&->) HY Hsz. destruct (decide (Y = ∅)) as [->|Hne].
  { exists (stored_values ent A). rewrite merge_with_empty. split; [done|]. exists A. split_and!; [done| |done].
    intros y. rewrite HA. set_solver. }
  destruct (flat_set_order Y Hne) as [_ Hn].
  assert (A <> []) as HAn.
  { intros ->. apply set_choose_L in Hne as [y Hy]. assert (y ∈ pairs []) as Hy' by (apply HA; set_solver).
    by apply elem_of_nil in Hy'. }
  assert (size A = Z.of_nat (base.size X)) as HsA.
  { rewrite <- length_pairs. apply NoDup_size; [by apply NoDup_pairs|done]. }
  pose proof (encode_len ent A Hwf) as HlA. unfold small_pairs in Hsz.
  exists (stored_values ent (adj_diff (set_order Y) A)). split.
  - eapply merge_with_some; [done|].
    assert (stored_values ent A = encode ent A) as -> by (by destruct A).
    rewrite Hf by (done || by destruct ent). rewrite Remove_values_spec by (done || lia).
    unfold stored_values. reflexivity.
  - exists (adj_diff (set_order Y) A). split_and!; [by apply wf_diff| |done].
    intros [p x]. rewrite pairs_diff, HA, elem_of_set_order. set_solver.
Qed.

(** Value lists of predicates. *)
Lemma insert_pairs_merge v X Y : encodes Pre v X -> set_Forall word_pair Y ->
  12 * (Z.of_nat (base.size X) + Z.of_nat (base.size Y)) + 24 < W31 ->
  exists v', merge_with (Insert_p2values junk) Y v = Some v' /\ encodes Pre v' (X ∪ Y).
Proof.
  intros (L&Hs&Hw&HL&->) HY Hsz. destruct (decide (Y = ∅)) as [->|Hne].
  { exists (stored_p L). rewrite merge_with_empty. split; [done|]. exists L. split_and!; [done|done| |done].
    intros y. rewrite HL. set_solver. }
  destruct (flat_set_order Y Hne) as [_ Hn]. pose proof (set_order_sorted Y) as Hso.
  assert (len L = Z.of_nat (base.size X)) as HlL by (apply NoDup_size; [by apply lex_sorted_NoDup|done]).
  assert (Hel : forall y, y ∈ lex_union L (set_order Y) <-> y ∈ X ∪ Y).
  { intros y. rewrite elem_of_lex_union, HL, elem_of_set_order. set_solver. }
  exists (encode_p (lex_union L (set_order Y))). split.
  - eapply merge_with_some; [done|]. apply Insert_p2values_spec; try done.
    + apply Forall_forall. intros y Hy%elem_of_set_order. by apply HY.
    + rewrite size_set_order. lia.
  - exists (lex_union L (set_order Y)). split_and!; [by apply lex_sorted_union| |done|].
    + apply Forall_forall. intros y [Hy|Hy]%elem_of_lex_union; [rewrite Forall_forall in Hw; auto|].
      apply HY. by apply elem_of_set_order.
    + destruct (lex_union L (set_order Y)) eqn:E; [|done]. apply set_choose_L in Hne as [y Hy].
      assert (y ∈ @nil (Z * Z)) as Hf by (apply Hel; set_solver). by apply elem_of_nil in Hf.
Qed.

Lemma lex_sorted_filter (P : Z * Z -> Prop) `{!forall x, Decision (P x)} L : lex_sorted L -> lex_sorted (filter P L).
Proof.
  induction 1 as [|y L Hs IH Hf]; [constructor|]. rewrite filter_cons. case_decide; [|done].
  constructor; [done|]. rewrite Forall_forall in *. intros z [_ Hz]%list_elem_of_filter. auto.
Qed.

Lemma remove_pairs_merge v X Y : encodes Pre v X -> Y ⊆ X -> small_pairs X ->
  exists v', merge_with (Remove_p2values junk) Y v = Some v' /\ encodes Pre v' (X ∖ Y).
Proof.
  intros (L&Hs&Hw&HL&->) HY Hsz. destruct (decide (Y = ∅)) as [->|Hne].
  { exists (stored_p L). rewrite merge_with_empty. split; [done|]. exists L. split_and!; [done|done| |done].
    intros y. rewrite HL. set_solver. }
  destruct (flat_set_order Y Hne) as [_ Hn].
  assert (L <> []) as HLn.
  { intros ->. apply set_choose_L in Hne as [y Hy]. assert (y ∈ @nil (Z * Z)) as Hf by (apply HL; set_solver).
    by apply elem_of_nil in Hf. }
  assert (len L = Z.of_nat (base.size X)) as HlL by (apply NoDup_size; [by apply lex_sorted_NoDup|done]).
  unfold small_pairs in Hsz. exists (stored_p (filter (fun z => z ∉ set_order Y) L)). split.
  - eapply merge_with_some; [done|]. assert (stored_p L = encode_p L) as -> by (by destruct L).
    apply Remove_p2values_spec; [done..|lia].
  - exists (filter (fun z => z ∉ set_order Y) L). split_and!; [by apply lex_sorted_filter| | |done].
    { apply Forall_forall. intros y [_ Hy]%list_elem_of_filter. rewrite Forall_forall in Hw. auto. }
    intros y. rewrite list_elem_of_filter, HL, elem_of_set_order. set_solver.
Qed.

(** Merging what is added and removed into a value list gives the value list of
    the changed pairs. *)
Lemma merge_encodes a v X Add Del : encodes a v X -> set_Forall word_pair Add -> Del ⊆ X ∪ Add ->
  12 * (Z.of_nat (base.size X) + Z.of_nat (base.size Add)) + 24 < W31 ->
  exists v', merge_values enough junk a Add Del v = Some v' /\ encodes a v' ((X ∪ Add) ∖ Del).
Proof.
  intros Hv HA HD Hsz.
  assert (small_pairs (X ∪ Add)) as Hsm.
  { unfold small_pairs. rewrite size_union_alt.
    assert (Add ∖ X ⊆ Add) as Hle%subseteq_size by set_solver. lia. }
  unfold merge_values. destruct a; cbn [Insert_of Remove_of].
  - destruct (insert_adj_merge true enough (Insert_s2values enough junk) v X Add) as (v1&->&Hv1); [done..|].
    apply (remove_adj_merge true); try done. intros Q tmp HQ _. unfold Remove_s2values. by destruct Q as [|[]].
  - destruct (insert_pairs_merge v X Add) as (v1&->&Hv1); [done..|]. by apply remove_pairs_merge.
  - destruct (insert_adj_merge false (fun _ => true) (Insert_o2values junk) v X Add) as (v1&->&Hv1); [done..|].
    apply (remove_adj_merge false); try done. intros Q tmp _ Ht. unfold Remove_o2values. by destruct tmp.
Qed.
End Merging.

(** * The vacuum

    [KVstore::IVArrayVacuum] (KVstore/KVstore.cpp): when no transaction runs, the
    committed changes of the dirty keys are merged into their stored value lists
    and their versions are dropped.  The four loops of the source have the same
    body; they differ in the array, and in the slot and key at which the versions
    are cleaned. *)

(** The calls without a transaction leave the versions alone. *)
Definition on_store {S A} (m : M S A) : M (TArray S) A := fun a =>
  '(r, s) ← m (ta_store a); Some (r, mk_TArray s (ta_entries a)).

#[global] Instance tarray_values {S} `{ValueStore S} : ValueStore (TArray S) := {
  vs_search k := on_store (vs_search k);
  vs_insert k v := on_store (vs_insert k v);
  vs_modify k v := on_store (vs_modify k v);
  vs_remove k := on_store (vs_remove k) }.

Definition with_txn {X A} (m : M X A) : M (X * Transaction) A := fun '(x, txn) =>
  '(r, x) ← m x; Some (r, (x, txn)).

Section Code.
Context {S : Type} `{VS : ValueStore S} `{ES : EntryStore S} (enough : Z -> bool) (junk : nat -> Z).
Abbreviation TW := (KVstore (TArray S) * Transaction)%type.

Definition clean_dirty_key (sl : slot) (_key : Z) : M TW bool := fun '(kv, txn) =>
  '(r, (a, txn)) ← CleanDirtyKey junk _key (get_slot kv sl, txn); Some (r, (set_slot kv sl a, txn)).

(** The body of the loops; the flag [FirstRead] ends up as [latched], both are
    [false]. *)
Definition vacuum_value (a : array) (sl : slot) (key : Z) (_id : Z) : M TW unit :=
  let! r := getValueByKey_txn junk a _id (∅, ∅) false false in
  let base_empty := bool_decide (sr_str r = None) in
  let! _tmp := liftM (merge_values enough junk a (sr_sets r).1 (sr_sets r).2 (default [] (sr_str r))) in
  let! _ := clean_dirty_key sl key in
  if len _tmp =? 0 then
    if negb base_empty then let! _ := with_txn (removeKey a _id) in retM tt else retM tt
  else if base_empty then let! _ := with_txn (addValueByKey a _id _tmp) in retM tt
  else let! _ := with_txn (setValueByKey a _id _tmp) in retM tt.

Definition s2values_vacuum (sub_ids : list Z) : M TW unit :=
  for_each sub_ids (fun _subid => vacuum_value Sub SSub _subid _subid).
Definition o2values_vacuum (obj_ids : list Z) : M TW unit :=
  for_each obj_ids (fun _obj_id => vacuum_value Obj SObj _obj_id _obj_id).
Definition o2values_literal_vacuum (obj_literal_ids : list Z) : M TW unit :=
  for_each obj_literal_ids (fun _obj_id => vacuum_value Obj SObjLiteral (_obj_id ⊟ LITERAL_FIRST_ID) _obj_id).
Definition p2values_vacuum (pre_ids : list Z) : M TW unit :=
  for_each pre_ids (fun _pre_id => vacuum_value Pre SPre _pre_id _pre_id).

Definition clean_txn (cid : Z) : Transaction := Transaction_new cid INVALID_TID READ_COMMITTED.

(** The commit id of [clean_txn] is never set. *)
Definition IVArrayVacuum (cid : Z) (sub_ids obj_ids obj_literal_ids pre_ids : list Z) : M (KVstore (TArray S)) unit :=
  fun kv =>
    '(_, (kv, _)) ← (let! _ := s2values_vacuum sub_ids in
                     let! _ := o2values_vacuum obj_ids in
                     let! _ := o2values_literal_vacuum obj_literal_ids in
                     p2values_vacuum pre_ids) (kv, clean_txn cid);
    Some (tt, kv).
End Code.
