(* ===== verification/TxnReadSpec.v ===== *)
(** * What the getters of a transaction return

    A getter that is not refused returns the list of the triples that the
    isolation level of the transaction lets it see: those committed up to its
    snapshot (or all committed ones), with its own changes on top.

    At the end, what each getter of a transaction returns. *)

From S2P Require Import Prelude Util ValueList Adjacency ValueSpec PreList ValueRead BatchInsert BatchInsertSpec BatchPreSpec ValueStore KVstore TripleSet KVget KVbatch KVbatchSpec Version VersionSpec GLatch Transaction IVEntry IVEntrySpec IVEntrySystem TxnStore TxnStoreSpec TxnLocks TxnHistory TxnSystem TxnRead.

(** ** Reading one entry *)

Section Entry.
Context {S : Type} `{ESL : EntryStoreLaws S} (junk : nat -> Z) (level : Z -> IsolationLevelType).
Abbreviation TKV := (KVstore (TArray S)).
Abbreviation kinv := (kinv (S := S) junk level).
Abbreviation rkey a k := ((route a k).2).
Context (txn : Transaction) (Hrun : runs_in level txn).

Definition shared_label (l : label) : label :=
  mk_label (l_hist l) (l_pend l) (shared_spec (TID txn) (l_hold l)).2.

Lemma kinv_le n kv L : kinv (Datatypes.S n) kv L -> kinv n kv L.
Proof using Type.
  intros [He Hf Hr]. split; [done|done|]. intros sl. apply vs_room_le, Hr.
Qed.

(** The three ways a read of an entry can go: the entry does not exist yet, the
    value is read as well, or the transaction is aborted. *)
Section One.
Context (n : nat) (kv : TKV) (L : labels) (a : array) (k : Z) (Hi : kinv (Datatypes.S n) kv L) (Hk : word k).

Lemma read_out_of_array first_read : es_num (ta_store (arr kv a k)) <= rkey a k ->
  getValueByKey_txn junk a k (∅, ∅) false first_read (kv, txn) = Some (mk_search false None (∅, ∅) false, (kv, txn)) /\
  L a k = fresh_label /\ kv_lookup (base_kv kv) a k = None.
Proof using ESL Hi Hk.
  intros Hge. pose proof (ki_room _ _ _ _ _ Hi (route a k).1) as Hroom. rewrite get_base in Hroom. split_and!.
  - unfold getValueByKey_txn, on_array, IVArray_search_txn, out_of_array, bindM, arr in *.
    destruct (route a k) as [sl key]. cbn [fst snd] in *. cbn [mbind option_bind].
    rewrite (proj2 (Z.leb_le _ _) Hge). cbn [retM]. by destruct kv, sl.
  - by apply (ki_fresh _ _ _ _ _ Hi).
  - unfold kv_lookup. rewrite get_base. destruct (vs_view _ !! _) eqn:Hv; [|done].
    pose proof (es_bound _ _ (route a k).2 Hroom) as Hb. rewrite Hv in Hb. specialize (Hb ltac:(by eexists)).
    unfold arr in *. lia.
Qed.

Context (e : IVEntry) (Hin : rkey a k < es_num (ta_store (arr kv a k))).
Context (He : entry_at junk (arr kv a k) (rkey a k) = Some e).

Lemma read_in_array first_read rr l : ReadVersion no_change txn false first_read e = Some rr ->
  read_ret rr = true -> labelled level (read_entry rr) l ->
  exists kv', getValueByKey_txn junk a k (∅, ∅) false first_read (kv, txn) =
      Some (mk_search true (kv_lookup (base_kv kv) a k) (read_sets rr) (read_latched rr), (kv', txn)) /\
    same_base kv kv' /\ kinv n kv' (lset a k l L).
Proof using ESL Hi Hk Hin He.
  intros Hread Hret Hl. pose proof (ki_room _ _ _ _ _ Hi (route a k).1) as Hroom. rewrite get_base in Hroom.
  destruct (wpM_inv _ _ _ (vs_search_ok _ n _ Hroom (route_word a k Hk))) as (str&st&Hs&->&Hv&Hrm).
  pose proof (es_search_num _ _ _ _ Hs) as Hnum. set (x := mk_TArray st (<[rkey a k := read_entry rr]> (ta_entries (arr kv a k)))).
  exists (set_slot kv (route a k).1 x). split_and!.
  - unfold getValueByKey_txn, on_array, IVArray_search_txn, out_of_array, bindM, kv_lookup. rewrite get_base.
    subst x. unfold arr in *. destruct (route a k) as [sl key]. cbn [fst snd mbind option_bind] in *.
    rewrite (proj2 (Z.leb_gt _ _) Hin). rewrite He. cbn [mbind option_bind].
    unfold no_change in Hread. rewrite Hread. cbn [mbind option_bind]. rewrite Hret. cbn [negb ta_store set_entry].
    by rewrite Hs.
  - apply same_base_set. done.
  - apply (kinv_set junk level n kv L a k x (read_entry rr)); try done; [by apply kinv_le| |]; subst x; cbn; unfold arr in *; lia.
Qed.

Lemma read_refused_in_array first_read rr l : ReadVersion no_change txn false first_read e = Some rr ->
  read_ret rr = false -> read_latched rr = false -> labelled level (read_entry rr) l ->
  exists kv', getValueByKey_txn junk a k (∅, ∅) false first_read (kv, txn) =
      Some (mk_search false None (read_sets rr) false, (kv', SetState ABORTED txn)) /\
    same_base kv kv' /\ kinv n kv' (lset a k l L).
Proof using ESL Hi Hk Hin He.
  intros Hread Hret Hlat Hl. pose proof (ki_room _ _ _ _ _ Hi (route a k).1) as Hroom. rewrite get_base in Hroom.
  set (x := set_entry (rkey a k) (read_entry rr) (arr kv a k)).
  exists (set_slot kv (route a k).1 x). split_and!.
  - unfold getValueByKey_txn, on_array, IVArray_search_txn, out_of_array, bindM.
    subst x. unfold arr in *. destruct (route a k) as [sl key]. cbn [fst snd mbind option_bind] in *.
    rewrite (proj2 (Z.leb_gt _ _) Hin). rewrite He. cbn [mbind option_bind].
    unfold no_change in Hread. rewrite Hread. cbn [mbind option_bind]. by rewrite Hret, Hlat.
  - by apply same_base_set.
  - apply (kinv_set junk level n kv L a k x (read_entry rr)); try done; [by apply kinv_le|by apply vs_room_le].
Qed.
End One.

(** A read that goes on to the value. *)
Definition read_ok (kv : TKV) (L : labels) (a : array) (k : Z) (base : VDataSet) (first_read : bool)
    (r : search_result) (txn' : Transaction) (L' : labels) : Prop :=
  sr_ret r = true /\ txn' = txn /\ sr_str r = kv_lookup (base_kv kv) a k /\
  sees base (view txn base (l_hist (L a k)) (l_pend (L a k))) (sr_sets r) /\
  ((sr_latched r = false /\ L' = L) \/
   (sr_latched r = true /\ IS_SR txn = true /\ first_read = true /\ l_pend (L a k) = None /\
    L' = lset a k (shared_label (L a k)) L)).

(** A read that ends early: the entry does not exist, or it is refused. *)
Definition read_not (kv : TKV) (L : labels) (a : array) (k : Z) (r : search_result) (txn' : Transaction)
    (L' : labels) : Prop :=
  sr_ret r = false /\ sr_latched r = false /\ L' = L /\
  ((txn' = txn /\ L a k = fresh_label /\ kv_lookup (base_kv kv) a k = None) \/
   (txn' = SetState ABORTED txn /\ IS_SR txn = true /\ exists q, l_pend (L a k) = Some q /\ p_tid q <> TID txn)).

Lemma getValueByKey_txn_spec n kv L a k base first_read : kinv (Datatypes.S n) kv L -> word k ->
  replay_ok (l_hist (L a k)) base -> pend_ok (l_pend (L a k)) (replay (l_hist (L a k)) base) ->
  (IS_RC txn = false -> writer_sees_all txn (l_hist (L a k)) (l_pend (L a k))) ->
  (first_read = true -> writes txn (L a k) \/ ~ shares txn (l_hold (L a k))) ->
  exists r kv' txn' L', getValueByKey_txn junk a k (∅, ∅) false first_read (kv, txn) = Some (r, (kv', txn')) /\
    same_base kv kv' /\ kinv n kv' L' /\
    (read_ok kv L a k base first_read r txn' L' \/ read_not kv L a k r txn' L').
Proof using ESL Hrun.
  intros Hi Hk Hrep Hpok Hsees Hfr. destruct (ki_entry _ _ _ _ _ Hi a k Hk) as (e&He&Hl&Hver).
  destruct (Z.lt_ge_cases (rkey a k) (es_num (ta_store (arr kv a k)))) as [Hlt|Hge].
  2: { destruct (read_out_of_array n kv L a k Hi Hk first_read Hge) as (->&Hfl&Hno). eexists _, _, _, L.
       split; [done|]. split_and!; [apply same_base_refl|by apply kinv_le|]. right. split_and!; [done..|]. by left. }
  pose proof (einv_holders _ _ Hl) as Hh. cbn [hold] in Hh.
  pose proof (ReadVersion_spec txn (proj1 Hrun) base first_read e _ _ _ (ei_entry _ _ Hl) (proj2 (proj2 Hrun))
    Hrep Hpok Hsees (ei_latch _ _ Hl) Hh) as Hrv. cbn [ent hist pend hold] in Hrv.
  destruct (ReadVersion no_change txn false first_read e) as [rr|] eqn:Hread; [|done]. cbn [wp] in Hrv.
  assert (Hsame : labelled level e (L a k)) by (by split).
  assert (Hid : forall kv', kinv n kv' (lset a k (L a k) L) -> kinv n kv' L).
  { intros kv'. apply kinv_ext. intros. by rewrite lset_id. }
  destruct Hrv as [(Hret&Hsee&[[Hlat Hent]|(Hlat&Hsr&Hf&Hp&Hent)])|(Hret&Hsr&Hlat&Hent&Hwhy)].
  - destruct (read_in_array n kv L a k Hi Hk e Hlt He first_read rr (L a k)) as (kv'&->&Hb&Hi'); [done|done|by rewrite Hent|].
    eexists _, _, _, L. split; [done|]. split_and!; [done|by apply Hid|]. left. split_and!; try done. by left.
  - destruct (read_in_array n kv L a k Hi Hk e Hlt He first_read rr (shared_label (L a k))) as (kv'&->&Hb&Hi'); [done|done| |].
    { split; [|by destruct Hver; [left|right; rewrite Hent]]. unfold shared_label. cbn [l_hist l_pend l_hold].
      pose proof (einv_read level txn _ first_read rr Hl Hrun) as Her. cbn [hist pend hold ent] in Her.
      rewrite Hlat in Her. apply Her; [|done]. intros Hf'.
      assert (~ writes txn (L a k)) as Hnw by (intros (q&Hq&_); congruence). by destruct (Hfr Hf'). }
    eexists _, _, _, _. split; [done|]. split_and!; [done|exact Hi'|]. left. split_and!; try done. by right.
  - destruct (read_refused_in_array n kv L a k Hi Hk e Hlt He first_read rr (L a k)) as (kv'&->&Hb&Hi'); [done..|by rewrite Hent|].
    eexists _, _, _, L. split; [done|]. split_and!; [done|by apply Hid|]. right. split_and!; try done. right. split_and!; [done|done|].
    destruct Hwhy as [(q&Hq&Hlt')|(t&Hh'&Hne)]; [exists q; split; [done|lia]|].
    pose proof (ei_hold _ _ Hl) as Hx. cbn [hold] in Hx. rewrite Hh' in Hx. destruct Hx as (_&_&q&Hq&Hqt). cbn in Hq. exists q. split; [done|congruence].
Qed.
End Entry.

(** ** The entry in the abstract database *)

(** The triples of a change have keys of the store. *)
Definition log_ok (w : wlog) : Prop := forall t, t ∈ w_adds w \/ t ∈ w_dels w -> triple_ok t.

(** The database [A] over the stored triples [T]: every change is effective, and
    its ids are valid. *)
Record valid (T : triples) (A : adb) : Prop := {
  va_hist : greplay_ok (ab_hist A) T;
  va_logs : map_Forall (fun _ w => log_effective w (greplay (ab_hist A) T)) (ab_logs A);
  va_hist_ok c : c ∈ ab_hist A -> log_ok (g_log c);
  va_logs_ok : map_Forall (fun _ => log_ok) (ab_logs A) }.

Lemma greplay_words H X t : (forall c, c ∈ H -> log_ok (g_log c)) -> t ∈ greplay H X -> t ∈ X \/ triple_ok t.
Proof.
  revert X. induction H as [|c H IH]; intros X Hok Ht; [by left|]. cbn [greplay fold_left] in Ht.
  destruct (IH (log_effect (g_log c) X)) as [Hin|]; [set_solver|done| |by right].
  unfold log_effect in Hin. apply elem_of_difference in Hin as [[|Ha]%elem_of_union _]; [by left|right].
  apply (Hok c); [left|]. left. by apply elem_of_list_to_set in Ha.
Qed.

Lemma gsnapshot_incl t H c : c ∈ gsnapshot t H -> c ∈ H.
Proof. by intros [_ ?]%list_elem_of_filter. Qed.

Lemma gview_words txn T A w t : valid T A -> ab_logs A !! TID txn = Some w -> t ∈ gview txn T (ab_hist A) w ->
  t ∈ T \/ triple_ok t.
Proof.
  intros Hv Hw Ht. unfold gview, log_effect in Ht. apply elem_of_difference in Ht as [[Hin|Ha]%elem_of_union _].
  - eapply greplay_words; [|done]. intros c Hc. apply (va_hist_ok _ _ Hv). destruct (IS_RC txn); [done|by eapply gsnapshot_incl].
  - right. apply (va_logs_ok _ _ Hv _ _ Hw). left. by apply elem_of_list_to_set in Ha.
Qed.

Lemma val_of_word a t : triple_ok t -> word_pair (val_of a t).
Proof. destruct t as [[s p] o]. intros ([]&[]&[]). by destruct a. Qed.

Lemma size_pairs_of a k X : (base.size (pairs_of a k X) <= base.size X)%nat.
Proof.
  unfold pairs_of. rewrite size_list_to_set by (apply NoDup_proj, NoDup_elements). unfold proj. rewrite length_fmap.
  etrans; [apply length_filter|]. done.
Qed.

Section Views.
Context (level : Z -> IsolationLevelType) (A : adb) (txns : gmap Z Transaction) (L : labels) (T : triples).
Context (Hc : coherent level A txns L) (Hva : valid T A).
Context (txn : Transaction) (w : wlog) (Ht : txns !! TID txn = Some txn) (Hw : ab_logs A !! TID txn = Some w).

(** What an entry holds for the transaction is its part of the common view. *)
Lemma view_gview a k : word k ->
  view txn (pairs_of a k T) (l_hist (L a k)) (l_pend (L a k)) = pairs_of a k (gview txn T (ab_hist A) w).
Proof using Hc Ht Hw.
  intros Hk. destruct (co_txn _ _ _ _ Hc _ _ Ht) as (_&[Hpos _]&_).
  assert (0 <= TID txn) as H0 by (unfold tid_ok in Hpos; lia).
  unfold view, gview. rewrite (co_hist _ _ _ _ Hc) by done. rewrite snapshot_entry_hist by done.
  rewrite pairs_of_effect. assert (Hr : replay (if IS_RC txn then entry_hist a k (ab_hist A)
      else entry_hist a k (gsnapshot (TID txn) (ab_hist A))) (pairs_of a k T) =
    pairs_of a k (greplay (if IS_RC txn then ab_hist A else gsnapshot (TID txn) (ab_hist A)) T)).
  { destruct (IS_RC txn); apply replay_entry_hist. }
  rewrite Hr. generalize (pairs_of a k (greplay (if IS_RC txn then ab_hist A else gsnapshot (TID txn) (ab_hist A)) T)).
  intros X. unfold own. destruct (decide (touches a k w)) as [Hto|Hto].
  - rewrite (co_writer _ _ _ _ Hc a k _ w Hk Hw Hto). cbn [entry_pend p_tid]. by rewrite decide_True.
  - destruct (proj_untouched _ _ _ Hto) as [-> ->]. rewrite write_effect_nil.
    destruct (l_pend (L a k)) as [q|] eqn:Hq; [|done]. rewrite decide_False; [done|]. intros Hqt.
    apply Hto, (writes_touches _ _ _ _ _ _ _ _ _ Hc Ht Hw Hk). by exists q.
Qed.

Lemma entry_valid a k : word k -> replay_ok (l_hist (L a k)) (pairs_of a k T) /\
  pend_ok (l_pend (L a k)) (replay (l_hist (L a k)) (pairs_of a k T)) /\
  (IS_RC txn = false -> writer_sees_all txn (l_hist (L a k)) (l_pend (L a k))).
Proof using Hc Hva Ht.
  intros Hk. split_and!.
  - rewrite (co_hist _ _ _ _ Hc) by done. apply replay_ok_entry_hist, Hva.
  - rewrite (co_hist _ _ _ _ Hc), replay_entry_hist by done.
    destruct (l_pend (L a k)) as [q|] eqn:Hq; [|done]. destruct (co_pend _ _ _ _ Hc a k q Hk Hq) as (w'&Hw'&Hto).
    rewrite (co_writer _ _ _ _ Hc a k _ _ Hk Hw' Hto) in Hq. injection Hq as <-. cbn.
    apply effective_proj. by apply (va_logs _ _ Hva) in Hw'.
  - intros Hrc q Hq Hqt. destruct (co_txn _ _ _ _ Hc _ _ Ht) as (_&_&_).
    eapply (co_sees _ _ _ _ Hc); [done..|]. by exists q.
Qed.

(** The stored value list is that of the stored triples. *)
Lemma base_encodes {S} `{VSL : ValueStoreLaws S} (kv : KVstore S) a k : represents kv T -> word k ->
  encodes a (default [] (kv_lookup kv a k)) (pairs_of a k T).
Proof using Type.
  intros HR Hk. destruct a; cbn [encodes].
  - destruct (rep_sub _ _ HR k Hk) as (B&Hwf&HB&->). exists B. split_and!; [done| |by destruct B].
    intros [p x]. by rewrite HB, elem_of_pairs_of.
  - destruct (rep_pre _ _ HR k Hk) as (B&Hs&Hwp&HB&->). exists B. split_and!; [done|done| |by destruct B].
    intros [p x]. by rewrite HB, elem_of_pairs_of.
  - destruct (rep_obj _ _ HR k Hk) as (B&Hwf&HB&->). exists B. split_and!; [done| |by destruct B].
    intros [p x]. by rewrite HB, elem_of_pairs_of.
Qed.

(** The latch taken by a read belongs in the read set. *)
Lemma coherent_shared a k : word k -> in_writes txn a k = false -> in_reads txn a k = false -> IS_SR txn = true ->
  l_pend (L a k) = None -> (forall t, l_hold (L a k) <> Exclusive t) ->
  coherent level A (<[TID txn := ReadSetInsert k (ty_of a) txn]> txns) (lset a k (shared_label txn (L a k)) L).
Proof using Hc Ht Hw.
  intros Hk Hiw Hir Hsr Hp Hnx. destruct (co_txn _ _ _ _ Hc _ _ Ht) as (_&Hrun&Ho).
  destruct (l_hold (L a k)) as [rs|t] eqn:Hh; [|by destruct (Hnx t)].
  assert (Hl : forall a' k', l_hist (lset a k (shared_label txn (L a k)) L a' k') = l_hist (L a' k') /\
    l_pend (lset a k (shared_label txn (L a k)) L a' k') = l_pend (L a' k') /\
    (forall t, sharer t (l_hold (lset a k (shared_label txn (L a k)) L a' k')) <->
      sharer t (l_hold (L a' k')) \/ (t = TID txn /\ (a', k') = (a, k)))).
  { intros a' k'. destruct (decide ((a', k') = (a, k))) as [[= -> ->]|Hne].
    - rewrite lset_eq. unfold shared_label. rewrite Hh. cbn. split_and!; [done..|]. intros t. unfold sharer. split.
      + intros (?&[= <-]&[->|Hin]%elem_of_cons); [by right|left; by exists rs].
      + intros [(?&[= <-]&Hin)|[-> _]]; eexists; (split; [done|]); [by right|left].
    - rewrite lset_ne by done. split_and!; [done..|]. naive_solver. }
  assert (Hfind : forall a' k', in_reads (ReadSetInsert k (ty_of a) txn) a' k' = true <->
    (a', k') = (a, k) \/ in_reads txn a' k' = true).
  { intros a' k'. unfold ReadSetFind. cbn [ReadSetInsert set_ReadSet ReadSet].
    rewrite ids_find_insert by apply (ow_wf _ _ Ho). destruct a, a'; cbn; naive_solver. }
  eapply (coherent_step level A txns L _ _ _ (TID txn) Hc).
  - intros t' Hne. by rewrite lookup_insert_ne.
  - intros a' k' Hk'. destruct (Hl a' k') as (->&_). by apply (co_hist _ _ _ _ Hc).
  - intros a' k' Hk'. destruct (Hl a' k') as (H1&H2&H3). split; [by rewrite H2|done|].
    intros t' Hne. rewrite H3. naive_solver.
  - unfold coherent_for. rewrite lookup_insert_eq, Hw. split_and!; [done|done| |].
    + split.
      * destruct (ow_wf _ _ Ho). split; [|done]. cbn. by rewrite length_ids_insert.
      * intros a' k'. rewrite Hfind. intros [Hx|[[= -> ->]|Hx]]; [|done|]; apply (ow_ids _ _ Ho a'); auto.
      * intros a' k' Hk'. destruct (Hl a' k') as (_&H2&_). unfold writes. rewrite H2. by apply (ow_write _ _ Ho).
      * intros a' k' Hk' _ Hnw. rewrite Hfind. destruct (Hl a' k') as (_&_&H3). cbn [TID].
        change (shares (ReadSetInsert k (ty_of a) txn)) with (sharer (TID txn)). rewrite H3.
        rewrite (ow_read _ _ Ho a' k' Hk' Hsr Hnw). change (shares txn) with (sharer (TID txn)). naive_solver.
    + intros a' k' Hk'. destruct (Hl a' k') as (H1&H2&H3). unfold writes. rewrite H1, H2. split_and!.
      * intros Hto. by apply (co_writer _ _ _ _ Hc).
      * intros Hwr. by apply (writes_touches _ _ _ _ _ _ _ _ _ Hc Ht Hw Hk').
      * done.
      * intros Hrc Hwr. by eapply (co_sees _ _ _ _ Hc).
Qed.
End Views.

(** ** The getters *)

Lemma encodes_empty a v X : encodes a v X -> len v = 0 <-> X = ∅.
Proof.
  assert (Hset : forall l : list VData, (forall y, y ∈ l <-> y ∈ X) -> l = [] <-> X = ∅).
  { intros l Hl. split; [intros ->; apply set_eq; set_solver|]. intros ->. apply elem_of_nil_inv. set_solver. }
  assert (Hadj : forall ent, encodes_adj ent v X -> len v = 0 <-> X = ∅).
  { intros ent (B&Hwf&HB&->). rewrite <- (Hset _ HB). destruct B as [|b B]; [done|]. split.
    - by destruct ent.
    - intros Hp. pose proof (length_pairs (b :: B)) as El. rewrite Hp in El. pose proof (wf_size (b :: B) Hwf).
      cbn in *. lia. }
  destruct a; cbn [encodes]; [by apply (Hadj true)| |by apply (Hadj false)].
  intros (l&_&_&Hl&->). rewrite <- (Hset _ Hl). by destruct l.
Qed.

(** The state, the error and the commit id of a transaction do not matter. *)
Lemma coherent_meta level A txns L txn txn' : coherent level A txns L -> txns !! TID txn = Some txn ->
  TID txn' = TID txn -> isolation txn' = isolation txn -> ReadSet txn' = ReadSet txn -> WriteSet txn' = WriteSet txn ->
  coherent level A (<[TID txn := txn']> txns) L.
Proof.
  intros Hc Ht E1 E2 E3 E4. destruct (co_txn _ _ _ _ Hc _ _ Ht) as (_&Hrun&Ho).
  destruct (co_log _ _ _ _ Hc _ _ Ht) as [w Hw].
  assert (IS_SR txn' = IS_SR txn /\ IS_RC txn' = IS_RC txn) as [Hsr Hrc] by (unfold IS_SR, IS_RC; by rewrite E2).
  assert (Hwr : forall l, writes txn' l <-> writes txn l) by (intros l; unfold writes, mine; by rewrite E1).
  eapply (coherent_step level A txns L _ _ _ (TID txn) Hc).
  - intros t' Hne. by rewrite lookup_insert_ne.
  - intros a k Hk. by apply (co_hist _ _ _ _ Hc).
  - intros. apply same_for_others_refl.
  - unfold coherent_for. rewrite lookup_insert_eq, Hw. split_and!; [done| | |].
    + unfold runs_in in *. by rewrite E1, E2.
    + destruct Ho as [H1 H2 H3 H4]. unfold txn_wf, WriteSetFind, ReadSetFind in *. split; unfold txn_wf, WriteSetFind, ReadSetFind.
      * by rewrite E3, E4.
      * intros a k. rewrite E3, E4. apply H2.
      * intros a k. rewrite E4, Hwr. apply H3.
      * intros a k. rewrite E3, E4, Hsr. unfold shares. rewrite E1. apply H4.
    + intros a k Hk. rewrite Hsr, Hrc, Hwr. split_and!.
      * intros Hto. by apply (co_writer _ _ _ _ Hc).
      * intros Hwr'. by apply (writes_touches _ _ _ _ _ _ _ _ _ Hc Ht Hw Hk).
      * intros (rs&Hrs&Hin). destruct (co_holder _ _ _ _ Hc a k rs _ Hk Hrs Hin) as (txn0&Ht'&Hs). congruence.
      * intros Hr Hwr'. by eapply (co_sees _ _ _ _ Hc).
Qed.

Section Reading.
Context {S : Type} `{ESL : EntryStoreLaws S} (enough : Z -> bool) (junk : nat -> Z) (level : Z -> IsolationLevelType).
Context (Hmem : forall n, enough n = true).
Abbreviation TKV := (KVstore (TArray S)).
Abbreviation kinv := (kinv (S := S) junk level).
Context (A : adb) (txns : gmap Z Transaction) (L : labels) (T : triples) (kv : TKV) (n : nat).
Context (Hc : coherent level A txns L) (Hva : valid T A) (Hi : kinv (Datatypes.S n) kv L).
Context (HR : represents (base_kv kv) T).
Context (txn : Transaction) (w : wlog) (Ht : txns !! TID txn = Some txn) (Hw : ab_logs A !! TID txn = Some w).
Abbreviation V := (gview txn T (ab_hist A) w).
Context (Hsize : 12 * (Z.of_nat (base.size T) + Z.of_nat (base.size V)) + 24 < W31).

(** A call that reads the entry [k] of the index [a]: a serializable transaction is
    refused, and then aborted, only if another transaction writes the entry; otherwise
    the answer satisfies [Q]. *)
Definition treads {B} (a : array) (k : Z) (m : M (TKV * Transaction) B) (refused : B) (Q : B -> Prop) : Prop :=
  exists r kv' txn' L', m (kv, txn) = Some (r, (kv', txn')) /\ same_base kv kv' /\ kinv n kv' L' /\
    coherent level A (<[TID txn := txn']> txns) L' /\ TID txn' = TID txn /\
    ((IS_SR txn = true /\ txn_state txn' = ABORTED /\ r = refused /\ written_by_other A txn a k) \/ (txn_state txn' = txn_state txn /\ Q r)).

Lemma coherent_same : coherent level A (<[TID txn := txn]> txns) L.
Proof using Hc Ht. by rewrite insert_id. Qed.

(** Merging what the transaction sees into the stored list. *)
Lemma merge_seen a k sets : word k -> sees (pairs_of a k T) (pairs_of a k V) sets ->
  exists v, merge_values enough junk a sets.1 sets.2 (default [] (kv_lookup (base_kv kv) a k)) = Some v /\
    encodes a v (pairs_of a k V).
Proof using All.
  intros Hk ([Hd1 Hd2]&_&Hp). unfold patched in Hp.
  pose proof (base_encodes T (base_kv kv) a k HR Hk) as Hb.
  assert (Hsub : sets.1 ⊆ pairs_of a k V ∪ sets.2) by (rewrite <- Hp; intros y; destruct (decide (y ∈ sets.2)); set_solver).
  assert (Hadd : sets.1 ⊆ pairs_of a k V) by set_solver.
  destruct (merge_encodes enough junk Hmem a _ _ sets.1 sets.2 Hb) as (v&Hv&He).
  - intros y Hy. pose proof (Hadd y Hy) as Hin. apply elem_of_pairs_of in Hin.
    destruct (gview_words _ _ _ _ _ Hva Hw Hin) as [HT|Hok].
    + exfalso. apply elem_of_pairs_of in HT. set_solver.
    + rewrite <- (val_of_mk a k y). by apply val_of_word.
  - set_solver.
  - apply subseteq_size in Hadd. pose proof (size_pairs_of a k T). pose proof (size_pairs_of a k V). lia.
  - exists v. split; [done|]. by rewrite <- Hp.
Qed.

Lemma fetch_txn_spec a k checks_write early : word k ->
  treads a k (fetch_txn enough junk a k checks_write true early) None (fun r =>
    match r with
    | Some v => encodes a v (pairs_of a k V) /\ v <> []
    | None => pairs_of a k V = ∅
    end).
Proof using All.
  intros Hk. destruct (co_txn _ _ _ _ Hc _ _ Ht) as (_&Hrun&Ho).
  destruct (entry_valid level A txns L T Hc Hva txn Ht a k Hk) as (He1&He2&He3).
  set (first := IS_SR txn && negb (in_reads txn a k) && (if checks_write then negb (in_writes txn a k) else true)).
  assert (Hfirst : first = true -> IS_SR txn = true /\ in_reads txn a k = false).
  { subst first. intros [[Hsr Hr]%andb_prop _]%andb_prop. by apply negb_true_iff in Hr. }
  destruct (getValueByKey_txn_spec junk level txn Hrun n kv L a k (pairs_of a k T) first)
    as (r&kv1&txn1&L1&Hg&Hb1&Hi1&Hr); [done..| |].
  { intros Hf. destruct (Hfirst Hf) as [Hsr Hir]. destruct (in_writes txn a k) eqn:Hiw.
    - left. by apply (ow_write _ _ Ho).
    - right. rewrite <- (ow_read _ _ Ho a k Hk Hsr Hiw). congruence. }
  unfold treads, fetch_txn. rewrite (bindM_eq txn_get _ _ txn (kv, txn)) by done. cbv zeta.
  change (id_type a) with (ty_of a). fold first. rewrite (bindM_eq _ _ _ _ _ Hg).
  destruct Hr as [(Hret&->&Hstr&Hsee&Hlat)|(Hret&Hlat&->&Hno)].
  - rewrite (view_gview level A txns L T Hc txn w Ht Hw a k Hk) in Hsee.
    destruct (merge_seen a k (sr_sets r) Hk Hsee) as (v&Hv&Hev). rewrite <- Hstr in Hv.
    pose proof (encodes_empty a v _ Hev) as Hemp.
    assert (Hres : exists o, (if len v =? 0 then retM None else retM (Some v) : M (TKV * Transaction) _) = retM o /\
      match o with Some v => encodes a v (pairs_of a k V) /\ v <> [] | None => pairs_of a k V = ∅ end).
    { destruct (Z.eqb_spec (len v) 0); [exists None|exists (Some v)]; (split; [done|]); [by apply Hemp|].
      split; [done|]. by intros ->. }
    destruct Hres as (o&Hro&Ho').
    set (reg := IS_SR txn && sr_latched r && first). set (txn2 := if reg then ReadSetInsert k (ty_of a) txn else txn).
    assert (Hco : coherent level A (<[TID txn := txn2]> txns) L1).
    { subst txn2 reg. destruct Hlat as [(->&->)|(->&Hsr&Hf&Hp&->)].
      - rewrite andb_false_r. apply coherent_same.
      - destruct (Hfirst Hf) as [_ Hir]. rewrite Hsr, Hf. cbn [andb]. apply coherent_shared with (w := w); try done.
        + apply not_true_is_false. rewrite (ow_write _ _ Ho) by done. intros (q&Hq&_). congruence.
        + intros t Hh. destruct (ki_entry _ _ _ _ _ Hi a k Hk) as (e&_&Hl&_).
          pose proof (ei_hold _ _ Hl) as Hx. cbn [hold] in Hx. rewrite Hh in Hx. destruct Hx as (_&_&q&Hq&_). cbn in Hq. congruence. }
    assert (Hst : txn_state txn2 = txn_state txn /\ TID txn2 = TID txn) by (subst txn2; by destruct reg).
    assert (Hreg : (if reg then txn_mod (ReadSetInsert k (ty_of a)) else retM tt) (kv1, txn) = Some (tt, (kv1, txn2))).
    { subst txn2. by destruct reg. }
    (* The error that is set when the transaction had been aborted before. *)
    set (err := if bool_decide (txn_state txn = ABORTED) then SetErrorType (shared_error a) else id).
    assert (Herr : forall x : Transaction, txn_state x = txn_state txn ->
      (if bool_decide (txn_state x = ABORTED) then txn_mod (SetErrorType (shared_error a)) else retM tt) (kv1, x) = Some (tt, (kv1, err x))).
    { intros x ->. subst err. by case_bool_decide. }
    assert (Hcoe : coherent level A (<[TID txn := err txn2]> txns) L1).
    { pose proof (coherent_meta level A _ L1 txn2 (err txn2) Hco) as Hm. destruct Hst as [_ Hid].
      rewrite Hid, lookup_insert_eq, insert_insert_eq in Hm. apply Hm; try done; subst err; by case_bool_decide. }
    assert (Hst' : txn_state (err txn2) = txn_state txn /\ TID (err txn2) = TID txn).
    { destruct Hst. subst err. by case_bool_decide. }
    exists o, kv1, (err txn2), L1. split; [|split_and!; [done|done|done|apply Hst'|right; split; [apply Hst'|done]]].
    destruct early.
    + rewrite (bindM_eq _ _ _ _ _ Hreg). rewrite (bindM_eq txn_get _ _ txn2 (kv1, txn2)) by done.
      rewrite (bindM_eq _ _ _ _ _ (Herr txn2 (proj1 Hst))). rewrite Hret. cbn [negb].
      rewrite (bindM_eq _ _ _ tt (kv1, err txn2)) by done. rewrite (bindM_eq _ _ _ v (kv1, err txn2)) by (unfold liftM; by rewrite Hv).
      by rewrite Hro.
    + rewrite (bindM_eq _ _ _ tt (kv1, txn)) by done. rewrite (bindM_eq txn_get _ _ txn (kv1, txn)) by done.
      rewrite (bindM_eq _ _ _ _ _ (Herr txn eq_refl)). rewrite Hret. cbn [negb].
      rewrite (bindM_eq _ _ _ tt (kv1, err txn2)).
      2: { clear -Hreg. subst txn2 err. destruct reg, (bool_decide (txn_state txn = ABORTED)); done. }
      rewrite (bindM_eq _ _ _ v (kv1, err txn2)) by (unfold liftM; by rewrite Hv).
      by rewrite Hro.
  - assert (Hreg : forall b : bool, (if b then if IS_SR txn && sr_latched r && first then txn_mod (ReadSetInsert k (ty_of a)) else retM tt
        else retM tt) (kv1, txn1) = Some (tt, (kv1, txn1))).
    { rewrite Hlat, andb_false_r. by intros []. }
    rewrite (bindM_eq _ _ _ _ _ (Hreg early)). rewrite (bindM_eq txn_get _ _ txn1 (kv1, txn1)) by done.
    rewrite Hret. cbn [negb]. destruct Hno as [(->&Hfl&Hno)|(->&Hsr&q&Hq&Hqt)].
    + eexists None, kv1, (if bool_decide (txn_state txn = ABORTED) then SetErrorType (shared_error a) txn else txn), L.
      split; [by case_bool_decide|]. split_and!; [done|done|..].
      { apply (coherent_meta level A txns L txn); try done; by case_bool_decide. }
      { by case_bool_decide. }
      right. split; [by case_bool_decide|].
      rewrite <- (view_gview level A txns L T Hc txn w Ht Hw a k Hk), Hfl.
      assert (view txn (pairs_of a k T) (l_hist fresh_label) (l_pend fresh_label) = pairs_of a k T) as ->.
      { unfold view. cbn [fresh_label l_hist l_pend own].
        assert (snapshot (TID txn) [first_commit] = [first_commit]) as ->.
        { unfold snapshot. rewrite filter_cons, decide_True; [done|]. destruct Hrun as [Hpos _]. unfold tid_ok in Hpos. cbn. lia. }
        assert (forall X, replay [first_commit] X = X) as Hx by (intros X; apply write_effect_nil). destruct (IS_RC txn); apply Hx. }
      pose proof (base_encodes T (base_kv kv) a k HR Hk) as Hb. rewrite Hno in Hb. by apply (encodes_empty a []).
    + rewrite (bool_decide_eq_true_2 (txn_state (SetState ABORTED txn) = ABORTED)) by done.
      eexists None, kv1, _, L. split_and!; [done|done|done|by apply (coherent_meta level A txns L txn)|done|]. left.
      split_and!; [done..|]. destruct (co_pend _ _ _ _ Hc a k q Hk Hq) as (w'&Hw'&Hto). by exists (p_tid q), w'.
Qed.
End Reading.

(** * The answers of the getters of a transaction

    Each getter lists exactly the triples of the common view [gview] that match
    its arguments, unless the transaction is serializable and refused. *)

Section Getters.
Context {S : Type} `{ESL : EntryStoreLaws S} (enough : Z -> bool) (junk : nat -> Z) (level : Z -> IsolationLevelType).
Context (Hmem : forall n, enough n = true).
Abbreviation TKV := (KVstore (TArray S)).
Context (A : adb) (txns : gmap Z Transaction) (L : labels) (T : triples) (kv : TKV) (n : nat).
Context (Hc : coherent level A txns L) (Hva : valid T A) (Hi : kinv junk level (Datatypes.S n) kv L).
Context (HR : represents (base_kv kv) T).
Context (txn : Transaction) (w : wlog) (Ht : txns !! TID txn = Some txn) (Hw : ab_logs A !! TID txn = Some w).
Abbreviation V := (gview txn T (ab_hist A) w).
Context (Hsize : 12 * (Z.of_nat (base.size T) + Z.of_nat (base.size V)) + 24 < W31).
Abbreviation treads := (treads junk level A txns kv n txn).
Implicit Types a : array.

Lemma treads_impl {B} a k (m : M (TKV * Transaction) B) r0 (Q Q' : B -> Prop) :
  (forall b, Q b -> Q' b) -> treads a k m r0 Q -> treads a k m r0 Q'.
Proof using Type.
  intros HQ (r&kv'&txn'&L'&H1&H2&H3&H4&H5&H6). exists r, kv', txn', L'. split_and!; try done. naive_solver.
Qed.

Lemma treads_map {B C} a k (m : M (TKV * Transaction) B) r0 (g : B -> C) Q :
  treads a k m r0 (fun b => Q (g b)) -> treads a k (let! r := m in retM (g r)) (g r0) Q.
Proof using Type.
  intros (r&kv'&txn'&L'&H1&H2&H3&H4&H5&H6). exists (g r), kv', txn', L'.
  split_and!; try done; [by rewrite (bindM_eq _ _ _ _ _ H1)|]. destruct H6 as [(?&?&->&?)|?]; [by left|by right].
Qed.

Lemma treads_fetched {B} a k checks_write early (f : list Z -> option B) (Q : option B -> Prop) : word k ->
  (pairs_of a k V = ∅ -> Q None) ->
  (forall v, encodes a v (pairs_of a k V) -> v <> [] -> exists b, f v = Some b /\ Q (Some b)) ->
  treads a k (read_fetched (fetch_txn enough junk a k checks_write true early) f) None Q.
Proof using All.
  intros Hk H0 H1.
  destruct (fetch_txn_spec enough junk level Hmem A txns L T kv n Hc Hva Hi HR txn w Ht Hw Hsize a k checks_write early Hk)
    as (r&kv'&txn'&L'&Hf&Hb&Hi'&Hc'&Htid&Hr).
  unfold treads, read_fetched. rewrite (bindM_eq _ _ _ _ _ Hf).
  destruct Hr as [(Hsr&Hab&->&Hcf)|(Hst&Hr)]; [exists None, kv', txn', L'; split_and!; try done; by left|].
  destruct r as [v|].
  - destruct (H1 v) as (b&Hb'&HQ); [apply Hr..|]. exists (Some b), kv', txn', L'.
    rewrite (bindM_eq _ _ _ b (kv', txn')) by (unfold liftM; by rewrite Hb'). split_and!; try done. right. auto.
  - exists None, kv', txn', L'. split_and!; try done. right. auto.
Qed.

(** The three kinds of entries. *)
Lemma sub_fetched {B} s checks_write early (f : list Z -> option B) f' Q : word s ->
  adj_reader encode_s (fun p o => (s, p, o) ∈ V) f f' Q ->
  treads Sub s (read_fetched (fetch_txn enough junk Sub s checks_write true early) f) None Q.
Proof using All.
  intros Hs [R1 R2 R3]. apply treads_fetched; [done|..].
  - intros He. apply R2. intros p o Hin. assert ((p, o) ∈ pairs_of Sub s V) as Hx by (by apply elem_of_pairs_of). set_solver.
  - intros v (B'&Hwf&HB&->) Hne. assert (HB' : forall p o, (p, o) ∈ pairs B' <-> (s, p, o) ∈ V).
    { intros p o. by rewrite HB, elem_of_pairs_of. }
    assert (B' <> []) as Hn by (by intros ->). pose proof (sub_size _ _ _ Hwf HB') as Hz. pose proof (encode_s_len _ Hwf).
    exists (f' B'). split; [|by apply R3]. assert (stored_values true B' = encode_s B') as -> by (by destruct B').
    apply R1; try done; unfold W31 in Hsize; word_lia.
Qed.

Lemma obj_fetched {B} o checks_write early (f : list Z -> option B) f' Q : word o ->
  adj_reader encode_o (fun p s => (s, p, o) ∈ V) f f' Q ->
  treads Obj o (read_fetched (fetch_txn enough junk Obj o checks_write true early) f) None Q.
Proof using All.
  intros Hs [R1 R2 R3]. apply treads_fetched; [done|..].
  - intros He. apply R2. intros p s Hin. assert ((p, s) ∈ pairs_of Obj o V) as Hx by (by apply elem_of_pairs_of). set_solver.
  - intros v (B'&Hwf&HB&->) Hne. assert (HB' : forall p s, (p, s) ∈ pairs B' <-> (s, p, o) ∈ V).
    { intros p s. by rewrite HB, elem_of_pairs_of. }
    assert (B' <> []) as Hn by (by intros ->). pose proof (obj_size _ _ _ Hwf HB') as Hz. pose proof (encode_o_len _ Hwf).
    exists (f' B'). split; [|by apply R3]. assert (stored_values false B' = encode_o B') as -> by (by destruct B').
    apply R1; try done; unfold W31 in Hsize; word_lia.
Qed.

Lemma pre_fetched {B} p checks_write early (f : list Z -> option B) f' Q : word p ->
  pair_reader (fun s o => (s, p, o) ∈ V) f f' Q ->
  treads Pre p (read_fetched (fetch_txn enough junk Pre p checks_write true early) f) None Q.
Proof using All.
  intros Hs [R1 R2 R3]. apply treads_fetched; [done|..].
  - intros He. apply R2. intros s o Hin. assert ((s, o) ∈ pairs_of Pre p V) as Hx by (by apply elem_of_pairs_of). set_solver.
  - intros v (l&Hso&_&Hl&->) Hne. assert (Hl' : forall s o, (s, o) ∈ l <-> (s, p, o) ∈ V).
    { intros s o. by rewrite Hl, elem_of_pairs_of. }
    assert (l <> []) as Hn by (by intros ->). pose proof (pre_size _ _ _ (lex_sorted_NoDup _ Hso) Hl') as Hz.
    exists (f' l). split; [|by apply R3]. assert (stored_p l = encode_p l) as -> by (by destruct l).
    apply R1. rewrite length_encode_p. unfold W31 in Hsize. word_lia.
Qed.

(** *** The getters of subjects *)

Lemma sub_keys_txn s : word s -> is_entity_ele s = true ->
  treads Sub s (getpreIDlistBysubID_txn enough junk s) None (fun r => lists r (fun p => exists o, (s, p, o) ∈ V)).
Proof using All.
  intros Hs He. unfold getpreIDlistBysubID_txn. rewrite He.
  eapply sub_fetched; [done|]. by apply (read_keys_reader junk encode_s (fun p o => (s, p, o) ∈ V) s_extra 3).
Qed.

Lemma sub_objs_txn s : word s -> is_entity_ele s = true ->
  treads Sub s (getobjIDlistBysubID_txn enough junk s true) None (fun r => lists r (fun o => exists p, (s, p, o) ∈ V)).
Proof using All.
  intros Hs He. unfold getobjIDlistBysubID_txn. rewrite He.
  eapply sub_fetched; [done|]. by apply (read_all_reader junk encode_s (fun p o => (s, p, o) ∈ V) s_extra 3 ltac:(done) ltac:(done) ltac:(done) true).
Qed.

Lemma sub_pre_objs_txn s p : word s -> is_entity_ele s = true ->
  treads Sub s (getobjIDlistBysubIDpreID_txn enough junk s p) None (fun r => lists r (fun o => (s, p, o) ∈ V)).
Proof using All.
  intros Hs He. unfold getobjIDlistBysubIDpreID_txn. rewrite He. apply (treads_map _ _ _ None (default None)).
  eapply sub_fetched; [done|]. by apply (read_list_reader junk encode_s (fun p o => (s, p, o) ∈ V) s_extra 3).
Qed.

Lemma sub_pairs_txn s : word s -> is_entity_ele s = true ->
  treads Sub s (getpreIDobjIDlistBysubID_txn enough junk s) None (fun r => lists_pairs r (fun p o => (s, p, o) ∈ V)).
Proof using All.
  intros Hs He. unfold getpreIDobjIDlistBysubID_txn. rewrite He.
  eapply sub_fetched; [done|]. by apply (read_pairs_reader junk encode_s (fun p o => (s, p, o) ∈ V) s_extra 3).
Qed.

(** *** The getters of objects *)

Lemma obj_keys_txn o : word o -> o <> INVALID_ENTITY_LITERAL_ID ->
  treads Obj o (getpreIDlistByobjID_txn enough junk o) None (fun r => lists r (fun p => exists s, (s, p, o) ∈ V)).
Proof using All.
  intros Ho Hne. unfold getpreIDlistByobjID_txn. rewrite (proj2 (Z.eqb_neq _ _)) by done.
  eapply obj_fetched; [done|]. by apply (read_keys_reader junk encode_o (fun p s => (s, p, o) ∈ V) o_extra 2).
Qed.

Lemma obj_subs_txn o : word o -> o <> INVALID_ENTITY_LITERAL_ID ->
  treads Obj o (getsubIDlistByobjID_txn enough junk o true) None (fun r => lists r (fun s => exists p, (s, p, o) ∈ V)).
Proof using All.
  intros Ho Hne. unfold getsubIDlistByobjID_txn. rewrite (proj2 (Z.eqb_neq _ _)) by done.
  eapply obj_fetched; [done|]. by apply (read_all_reader junk encode_o (fun p s => (s, p, o) ∈ V) o_extra 2 ltac:(done) ltac:(done) ltac:(done) true).
Qed.

Lemma obj_pre_subs_txn o p : word o -> o <> INVALID_ENTITY_LITERAL_ID ->
  treads Obj o (getsubIDlistByobjIDpreID_txn enough junk o p) None (fun r => lists r (fun s => (s, p, o) ∈ V)).
Proof using All.
  intros Ho Hne. unfold getsubIDlistByobjIDpreID_txn. rewrite (proj2 (Z.eqb_neq _ _)) by done.
  apply (treads_map _ _ _ None (default None)).
  eapply obj_fetched; [done|]. by apply (read_list_reader junk encode_o (fun p s => (s, p, o) ∈ V) o_extra 2).
Qed.

Lemma obj_pairs_txn o : word o -> o <> INVALID_ENTITY_LITERAL_ID ->
  treads Obj o (getpreIDsubIDlistByobjID_txn enough junk o) None (fun r => lists_pairs r (fun p s => (s, p, o) ∈ V)).
Proof using All.
  intros Ho Hne. unfold getpreIDsubIDlistByobjID_txn. rewrite (proj2 (Z.eqb_neq _ _)) by done.
  eapply obj_fetched; [done|]. by apply (read_pairs_reader junk encode_o (fun p s => (s, p, o) ∈ V) o_extra 2).
Qed.

(** *** The getters of predicates *)

Lemma pre_pairs_txn p : word p ->
  treads Pre p (getsubIDobjIDlistBypreID_txn enough junk p) None (fun r => lists_pairs r (fun s o => (s, p, o) ∈ V)).
Proof using All. intros Hp. eapply pre_fetched; [done|]. apply read_p2pairs_reader. Qed.

(** Two getters extend the read set without asking for the latch, which only
    matters for serializable transactions. *)
Lemma fetch_unlatched a k checks_write needs_latch early : IS_SR txn = false ->
  fetch_txn enough junk a k checks_write needs_latch early (kv, txn) = fetch_txn enough junk a k checks_write true early (kv, txn).
Proof using Type.
  intros Hsr. unfold fetch_txn. rewrite !(bindM_eq txn_get _ _ txn (kv, txn)) by done. cbv zeta. rewrite Hsr. done.
Qed.

Lemma treads_same {B} a k (m m' : M (TKV * Transaction) B) r0 Q : m (kv, txn) = m' (kv, txn) -> treads a k m r0 Q -> treads a k m' r0 Q.
Proof using Type. unfold TxnReadSpec.treads. by intros ->. Qed.

Lemma pre_subs_txn p : word p -> IS_SR txn = false ->
  treads Pre p (getsubIDlistBypreID_txn enough junk p true) None (fun r => lists r (fun s => exists o, (s, p, o) ∈ V)).
Proof using All.
  intros Hp Hsr. eapply treads_same; [|by eapply (pre_fetched p true false), read_subs_reader].
  unfold getsubIDlistBypreID_txn, read_fetched, bindM. by rewrite (fetch_unlatched Pre p true false false).
Qed.

Lemma pre_objs_txn p : word p -> IS_SR txn = false ->
  treads Pre p (getobjIDlistBypreID_txn enough junk p true) None (fun r => lists r (fun o => exists s, (s, p, o) ∈ V)).
Proof using All.
  intros Hp Hsr. eapply treads_same; [|by eapply (pre_fetched p true false), read_objs_reader].
  unfold getobjIDlistBypreID_txn, read_fetched, bindM. by rewrite (fetch_unlatched Pre p true false false).
Qed.

(** *** Membership of a triple *)

Lemma exist_txn s p o : word s -> is_entity_ele s = true ->
  treads Sub s (exist_triple_txn enough junk s p o) false (fun b => b = true <-> (s, p, o) ∈ V).
Proof using All.
  intros Hs He. destruct (sub_pre_objs_txn s p Hs He) as (r&kv'&txn'&L'&H1&H2&H3&H4&H5&H6).
  unfold exist_triple_txn, TxnReadSpec.treads. rewrite (bindM_eq _ _ _ _ _ H1).
  destruct H6 as [(Hsr&Hab&->&Hcf)|[Hst Hl]]; [exists false, kv', txn', L'; split_and!; try done; by left|].
  assert (Hs0 : StronglySorted Z.le (default [] r) /\ len (default [] r) < W32 /\ forall x, x ∈ default [] r <-> (s, p, x) ∈ V).
  { destruct r as [l|]; cbn in *.
    - destruct Hl as (Hinc&_&Hin). split_and!; [by apply increasing_sorted| |done].
      pose proof (list_size_le (fun x => (s, p, x)) l V (increasing_NoDup _ Hinc)) as Hle. unfold W31 in Hsize.
      assert (len l <= Z.of_nat (base.size V)); [|word_lia]. apply Hle; [by intros ?? [=]|]. intros x. by rewrite Hin.
    - split_and!; [constructor|word_lia|]. intros x. split; [by intros ?%elem_of_nil|by intros ?%Hl]. }
  destruct Hs0 as (Hsort&Hlen&Hin). pose proof (bsearch_int_uporder_spec _ o Hsort Hlen) as Hb.
  destruct (bsearch_int_uporder o (default [] r) (len (default [] r))) as [i|] eqn:E; [|done]. cbn [wp] in Hb.
  exists (negb (i =? INVALID)), kv', txn', L'.
  rewrite (bindM_eq _ _ _ i (kv', txn')) by done. split_and!; try done. right. split; [done|].
  rewrite <- Hin. destruct Hb as [(j&Hj&->)|[Hn ->]].
  - pose proof (lookup_lt_Some _ _ _ Hj). rewrite (proj2 (Z.eqb_neq _ _)) by word_lia.
    split; [|done]. intros _. by eapply list_elem_of_lookup_2.
  - rewrite Z.eqb_refl. done.
Qed.
End Getters.
