(* ===== verification/TxnVacuumSpec.v ===== *)
(** * The vacuum keeps what is committed

    After the vacuum the stored value lists are those of all committed triples,
    and the entries have no other versions than the first one.

    At the end, when the entries agree with the database of transactions. *)

From S2P Require Import Prelude Util ValueList Adjacency ValueSpec PreList ValueRead BatchInsert BatchInsertSpec BatchPreSpec ValueStore KVstore TripleSet KVget KVbatch KVbatchSpec Version VersionSpec GLatch Transaction IVEntry IVEntrySpec IVEntrySystem TxnStore TxnStoreSpec TxnLocks TxnHistory TxnSystem TxnRead TxnReadSpec.

(** An entry that nobody is writing, read by a transaction of any id. *)
Lemma getLatestVersion_quiet base TID e hist : entry_ok e hist None -> replay_ok hist base ->
  wp (getLatestVersion TID e no_change) (sees base (replay hist base)).
Proof.
  intros Hok Hr. destruct (entry_newest _ _ _ Hok) as (v&Hv&He&h&c&vs&->&Hl&Hf&Hc). unfold getLatestVersion.
  rewrite Hv. cbn [mbind option_bind]. destruct (no_change_exact base) as (H1&H2&H3).
  destruct (hist_delta_effect base (h ++ [c]) no_change) as (H4&H5&H6); [done|done|by rewrite H3|].
  rewrite H3 in H6. rewrite Hl, removelast_last, (get_versions_spec h) by done. cbn [mbind option_bind].
  rewrite He, Z.eqb_refl, orb_true_r. rewrite (get_version_spec (c_adds c) (c_dels c)) by (by destruct Hc). cbn [wp].
  unfold sees, hist_delta in *. rewrite fold_left_app in H4, H5, H6. by split_and!.
Qed.

(** ** Stored value lists *)

(** The value found for a key, if any, is the list of the pairs. *)
Definition encodes_opt (a : array) (o : option (list Z)) (X : VDataSet) : Prop :=
  encodes a (default [] o) X /\ o <> Some [].

Lemma encodes_value_ok a v X lim : encodes a v X -> X <> ∅ -> 12 * Z.of_nat (base.size X) + 24 < lim -> lim <= W32 ->
  value_ok lim v.
Proof.
  intros He Hne Hsz Hlim. assert (Hadj : forall B, wf B -> (forall y, y ∈ pairs B <-> y ∈ X) -> B <> [] /\ 4 * (3 + 3 * size B) < lim).
  { intros B Hwf HB. split.
    - intros ->. apply Hne. apply set_eq. intros y. rewrite <- HB. set_solver.
    - rewrite <- length_pairs. rewrite (NoDup_size (pairs B) X); [lia|by apply NoDup_pairs|done]. }
  destruct a; cbn [encodes] in He.
  - destruct He as (B&Hwf&HB&->). destruct (Hadj B Hwf HB). destruct B; [done|]. by apply encode_s_ok.
  - destruct He as (l&Hs&Hw&Hl&->). assert (len l = Z.of_nat (base.size X)) as El.
    { apply NoDup_size; [by apply lex_sorted_NoDup|done]. }
    destruct l; [|apply encode_p_ok; [done..|lia]]. destruct Hne. apply set_eq. intros y. rewrite <- Hl. set_solver.
  - destruct He as (B&Hwf&HB&->). destruct (Hadj B Hwf HB). destruct B; [done|]. by apply encode_o_ok.
Qed.

Lemma encodes_opt_none a X : encodes_opt a None X <-> X = ∅.
Proof.
  unfold encodes_opt. cbn. split; [intros [He _]; by apply (encodes_empty a [])|].
  intros ->. split; [|done]. destruct a; cbn; exists []; split_and!; try done; try (by repeat constructor); set_solver.
Qed.

Section Represented.
Context {S : Type} `{VSL : ValueStoreLaws S}.

(** A store represents a set of triples when each entry holds its pairs. *)
Lemma represents_encodes (kv : KVstore S) T :
  represents kv T <-> forall a k, word k -> encodes_opt a (kv_lookup kv a k) (pairs_of a k T).
Proof.
  split.
  - intros HR a k Hk. split; [by apply base_encodes|]. intros Hl.
    destruct a; [destruct (rep_sub _ _ HR k Hk) as (B&_&_&E)|destruct (rep_pre _ _ HR k Hk) as (B&_&_&_&E)|destruct (rep_obj _ _ HR k Hk) as (B&_&_&E)];
      rewrite Hl in E; destruct B; discriminate E.
  - intros HE. split.
    + intros s Hs. destruct (HE Sub s Hs) as [(B&Hwf&HB&Hv) Hne]. exists B. split_and!; [done| |].
      * intros p x. by rewrite HB, elem_of_pairs_of.
      * destruct (kv_lookup kv Sub s) as [v|], B as [|b B]; [by destruct Hne; exact (f_equal Some Hv)|exact (f_equal Some Hv)|by cbn in Hv|done].
    + intros o Ho. destruct (HE Obj o Ho) as [(B&Hwf&HB&Hv) Hne]. exists B. split_and!; [done| |].
      * intros p x. by rewrite HB, elem_of_pairs_of.
      * destruct (kv_lookup kv Obj o) as [v|], B as [|b B]; [by destruct Hne; exact (f_equal Some Hv)|exact (f_equal Some Hv)|by cbn in Hv|done].
    + intros p Hp. destruct (HE Pre p Hp) as [(B&Hs&Hw&HB&Hv) Hne]. exists B. split_and!; [done|done| |].
      * intros s o. by rewrite HB, elem_of_pairs_of.
      * destruct (kv_lookup kv Pre p) as [v|], B as [|b B]; [by destruct Hne; exact (f_equal Some Hv)|exact (f_equal Some Hv)|by cbn in Hv|done].
Qed.
End Represented.

Lemma entry_hist_untouched a k H : (forall c, c ∈ H -> ~ touches a k (g_log c)) -> entry_hist a k H = [first_commit].
Proof.
  intros Hn. unfold entry_hist. f_equal. induction H as [|c H IH]; [done|]. cbn [omap list_omap]. unfold proj_commit at 1.
  rewrite decide_False by (apply Hn; left). apply IH. intros c' Hc'. apply Hn. by right.
Qed.

(** ** One key *)

Section Vacuum.
Context {S : Type} `{ESL : EntryStoreLaws S} (enough : Z -> bool) (junk : nat -> Z) (level : Z -> IsolationLevelType).
Context (Hmem : forall n, enough n = true).
Abbreviation TKV := (KVstore (TArray S)).
Abbreviation kinv := (kinv (S := S) junk level).
Abbreviation rkey a k := ((route a k).2).
Context (cid : Z).

(** The label of an entry without old versions. *)
Definition cleaned (l : label) : label := mk_label [first_commit] None (l_hold l).

Lemma cleaned_fresh : cleaned fresh_label = fresh_label.
Proof using Type. done. Qed.

Lemma labelled_cleaned e l : labelled level e l -> l_pend l = None ->
  wp (if negb (is_versioned e) then Some e else CleanAllVersion junk e) (fun e' => labelled level e' (cleaned l)).
Proof using Type.
  intros [He Hver] Hp. assert (Hhold : exists rs, l_hold l = Free_or_shared rs /\ Forall tid_ok rs /\ NoDup rs).
  { pose proof (ei_hold _ _ He) as Hh. cbn [hold] in Hh. destruct (l_hold l) as [rs|t]; [by exists rs|].
    destruct Hh as (_&_&q&Hq&_). cbn in Hq. congruence. }
  destruct Hhold as (rs&Hrs&Hok). destruct (is_versioned e) eqn:Hv; cbn [negb].
  - eapply wp_mono; [|apply CleanAllVersion_spec]. intros e' [Heo Hg]. split; [|by left].
    unfold cleaned. split; cbn [l_hist l_pend l_hold ent hist pend hold]; [done| | |done].
    + rewrite Hg. apply (ei_latch _ _ He).
    + by rewrite Hrs.
  - destruct Hver as [[Hh _]|?]; [|congruence]. cbn [wp]. split; [|by left]. unfold cleaned. cbn [l_hist l_pend l_hold].
    by rewrite <- Hh, <- Hp.
Qed.

Lemma clean_dirty_key_spec n kv L a k txn : kinv n kv L -> word k -> l_pend (L a k) = None ->
  exists b kv', clean_dirty_key junk (route a k).1 (rkey a k) (kv, txn) = Some (b, (kv', txn)) /\ same_base kv kv' /\
    kinv n kv' (lset a k (cleaned (L a k)) L).
Proof using ESL.
  intros Hi Hk Hp. destruct (ki_entry _ _ _ _ _ Hi a k Hk) as (e&He&Hl).
  pose proof (ki_room _ _ _ _ _ Hi (route a k).1) as Hroom. rewrite get_base in Hroom.
  assert (Hsame : cleaned (L a k) = L a k -> kinv n kv (lset a k (cleaned (L a k)) L)).
  { intros ->. eapply kinv_ext; [|done]. intros. by rewrite lset_id. }
  assert (Hset : set_slot kv (route a k).1 (get_slot kv (route a k).1) = kv) by (by destruct kv, (route a k).1).
  unfold clean_dirty_key, CleanDirtyKey, out_of_array, bindM. unfold arr in He. cbn [mbind option_bind].
  destruct (Z.leb_spec (es_num (ta_store (get_slot kv (route a k).1))) (rkey a k)) as [Hge|Hlt].
  { cbn [retM mbind option_bind]. rewrite Hset. exists false, kv. split_and!; [done|apply same_base_refl|].
    apply Hsame. rewrite (ki_fresh _ _ _ _ _ Hi a k Hk Hge). apply cleaned_fresh. }
  rewrite He. cbn [mbind option_bind]. pose proof (labelled_cleaned e (L a k) Hl Hp) as Hw.
  destruct (is_versioned e) eqn:Hv; cbn [negb] in *.
  - destruct (CleanAllVersion junk e) as [e'|]; [|done]. cbn [wp] in Hw. cbn [mbind option_bind].
    eexists true, _. split_and!; [done|by apply same_base_set|].
    by apply (kinv_set junk level n kv L a k _ e').
  - cbn [mbind option_bind]. rewrite Hset. exists false, kv. split_and!; [done|apply same_base_refl|]. apply Hsame.
    destruct Hl as [_ [[Hh _]|?]]; [|congruence]. unfold cleaned. rewrite <- Hh, <- Hp. by destruct (L a k).
Qed.

(** Writing a value leaves the versions alone. *)
Lemma base_write n kv L a k txn (f : Z -> M S bool) v st r : kinv n kv L -> word k ->
  f (rkey a k) (ta_store (arr kv a k)) = Some (r, st) -> es_num (ta_store (arr kv a k)) <= es_num st ->
  vs_room n st -> (forall k', vs_view st !! k' = if decide (k' = rkey a k) then v else vs_view (ta_store (arr kv a k)) !! k') ->
  exists kv', with_txn (let '(sl, key) := route a k in on_slot sl (on_store (f key))) (kv, txn) = Some (r, (kv', txn)) /\
    kinv n kv' L /\ kv_updated (base_kv kv) a k v (base_kv kv').
Proof using ESL.
  intros Hi Hk Hf Hnum Hroom Hv. set (x := mk_TArray st (ta_entries (arr kv a k))).
  exists (set_slot kv (route a k).1 x). split_and!.
  - subst x. unfold with_txn, on_slot, on_store, arr in *. destruct (route a k) as [sl key]. cbn [fst snd] in *. by rewrite Hf.
  - destruct Hi as [He Hfr Hr]. split.
    + intros a' k' Hk'. destruct (He a' k' Hk') as (e&He'&Hl). exists e. split; [|done]. rewrite arr_set.
      case_decide as Hs; [|done]. unfold entry_at in *. subst x. cbn [ta_entries]. unfold arr in *. by rewrite <- Hs.
    + intros a' k' Hk'. rewrite arr_set. case_decide as Hs; [|by apply Hfr]. intros Hge. apply Hfr; [done|].
      unfold arr in *. rewrite Hs. subst x. cbn in Hge. lia.
    + intros sl. rewrite get_base, get_set_tslot. case_decide; [done|]. rewrite <- get_base. apply Hr.
  - assert (base_kv (set_slot kv (route a k).1 x) = set_slot (base_kv kv) (route a k).1 st) as ->.
    { subst x. by destruct (route a k) as [[] ?]. }
    apply kv_updated_set; [done|]. intros k'. by rewrite Hv, get_base.
Qed.

(** The last step: the key is removed, added or changed. *)
Lemma write_back n kv L a k txn v X : kinv (Datatypes.S n) kv L -> key_ok a k -> encodes a v X ->
  12 * Z.of_nat (base.size X) + 24 < vs_limit S ->
  exists kv', (if len v =? 0 then
      if negb (bool_decide (kv_lookup (base_kv kv) a k = None)) then let! _ := with_txn (removeKey a k) in retM tt else retM tt
    else if bool_decide (kv_lookup (base_kv kv) a k = None) then let! _ := with_txn (addValueByKey a k v) in retM tt
    else let! _ := with_txn (setValueByKey a k v) in retM tt) (kv, txn) = Some (tt, (kv', txn)) /\ kinv n kv' L /\
    exists o, kv_updated (base_kv kv) a k o (base_kv kv') /\ encodes_opt a o X.
Proof using ESL.
  intros Hi [Hk Hko] He Hsz. pose proof (encodes_empty a v X He) as Hemp. pose proof (vs_limit_le S) as Hlim.
  pose proof (ki_room _ _ _ _ _ Hi (route a k).1) as Hroom. rewrite get_base in Hroom. fold (arr kv a k) in Hroom.
  pose proof (kinv_le junk level _ _ _ Hi) as Hi'. pose proof (route_word a k Hk) as Hkw.
  assert (Hlook : kv_lookup (base_kv kv) a k = vs_view (ta_store (arr kv a k)) !! rkey a k) by (unfold kv_lookup; by rewrite get_base).
  rewrite Hlook. destruct (Z.eqb_spec (len v) 0) as [Hz|Hz].
  - apply Hemp in Hz as ->. case_bool_decide as Hno; cbn [negb].
    + exists kv. split_and!; [done|done|]. exists None. split; [|by apply encodes_opt_none].
      intros a' k' _. case_decide as Heq; [|done]. injection Heq as -> ->. by rewrite Hlook.
    + destruct (wpM_inv _ _ _ (vs_remove_ok _ n _ Hroom Hkw (proj1 (not_eq_None_Some _) Hno))) as (r&st&Hr&->&Hv&Hrm).
      destruct (base_write n kv L a k txn vs_remove None st true) as (kv'&Hc&Hk'&Hu); [done..| |done| |].
      { by rewrite (es_remove_num _ _ _ _ Hr). }
      { intros k'. rewrite Hv. case_decide; subst; by simplify_map_eq. }
      exists kv'. unfold removeKey. split_and!; [by rewrite (bindM_eq _ _ _ _ _ Hc)|done|]. exists None.
      split; [done|by apply encodes_opt_none].
  - assert (X <> ∅) as Hne by (intros ->; by apply Hz, Hemp). pose proof (encodes_value_ok a v X (vs_limit S) He Hne Hsz Hlim) as Hvo.
    assert (encodes_opt a (Some v) X) as Heo by (split; [done|]; intros [= ->]; done).
    case_bool_decide as Hno.
    + destruct (wpM_inv _ _ _ (vs_insert_ok _ n _ v Hroom Hko Hvo Hno)) as (r&st&Hr&->&Hv&Hrm).
      destruct (base_write n kv L a k txn (fun key => vs_insert key v) (Some v) st true) as (kv'&Hc&Hk'&Hu); [done..| |done| |].
      { by eapply es_insert_num. }
      { intros k'. rewrite Hv. case_decide; subst; by simplify_map_eq. }
      exists kv'. unfold addValueByKey. split_and!; [by rewrite (bindM_eq _ _ _ _ _ Hc)|done|]. by exists (Some v).
    + destruct (wpM_inv _ _ _ (vs_modify_ok _ n _ v Hroom Hkw Hvo (proj1 (not_eq_None_Some _) Hno))) as (r&st&Hr&->&Hv&Hrm).
      destruct (base_write n kv L a k txn (fun key => vs_modify key v) (Some v) st true) as (kv'&Hc&Hk'&Hu); [done..| |done| |].
      { by rewrite (es_modify_num _ _ _ _ _ Hr). }
      { intros k'. rewrite Hv. case_decide; subst; by simplify_map_eq. }
      exists kv'. unfold setValueByKey. split_and!; [by rewrite (bindM_eq _ _ _ _ _ Hc)|done|]. by exists (Some v).
Qed.

(** The vacuum of one key: its committed pairs are stored. *)
Lemma vacuum_value_spec n kv L a k X : kinv (2 + n) kv L -> key_ok a k -> l_pend (L a k) = None ->
  encodes_opt a (kv_lookup (base_kv kv) a k) X -> replay_ok (l_hist (L a k)) X ->
  (forall y, y ∈ replay (l_hist (L a k)) X -> y ∈ X \/ word_pair y) ->
  12 * (Z.of_nat (base.size X) + Z.of_nat (base.size (replay (l_hist (L a k)) X ∖ X))) + 24 < W31 ->
  12 * Z.of_nat (base.size (replay (l_hist (L a k)) X)) + 24 < vs_limit S ->
  exists kv', vacuum_value enough junk a (route a k).1 (rkey a k) k (kv, clean_txn cid) = Some (tt, (kv', clean_txn cid)) /\
    kinv n kv' (lset a k (cleaned (L a k)) L) /\
    exists o, kv_updated (base_kv kv) a k o (base_kv kv') /\ encodes_opt a o (replay (l_hist (L a k)) X).
Proof using ESL Hmem.
  intros Hi Hko Hp [Hb Hbn] Hrep Hwords Hs1 Hs2. pose proof Hko as [Hk _].
  destruct (ki_entry _ _ _ _ _ Hi a k Hk) as (e&He&Hl).
  assert (Hread : exists sets ret kv1, getValueByKey_txn junk a k (∅, ∅) false false (kv, clean_txn cid) =
      Some (mk_search ret (kv_lookup (base_kv kv) a k) sets false, (kv1, clean_txn cid)) /\ same_base kv kv1 /\
      kinv (1 + n) kv1 L /\ sees X (replay (l_hist (L a k)) X) sets).
  { destruct (Z.lt_ge_cases (rkey a k) (es_num (ta_store (arr kv a k)))) as [Hlt|Hge].
    - pose proof (ei_entry _ _ (proj1 Hl)) as Heo. cbn [ent hist pend] in Heo. rewrite Hp in Heo.
      pose proof (getLatestVersion_quiet X INVALID_TID e _ Heo Hrep) as Hq.
      destruct (getLatestVersion INVALID_TID e no_change) as [sets|] eqn:Hg; [|done]. cbn [wp] in Hq.
      destruct (read_in_array junk level (clean_txn cid) (1 + n) kv L a k Hi Hk e Hlt He false (mk_read true false sets e) (L a k))
        as (kv1&Hr&Hb1&Hi1); [|done|done|].
      { unfold ReadVersion. cbn [clean_txn Transaction_new isolation TID]. by rewrite Hg. }
      exists sets, true, kv1. split_and!; [done|done| |done]. eapply kinv_ext; [|exact Hi1]. intros. by rewrite lset_id.
    - destruct (read_out_of_array junk level (clean_txn cid) (1 + n) kv L a k Hi Hk false Hge) as (Hr&Hf&Hno).
      exists (∅, ∅), false, kv. rewrite Hno. split_and!; [done|apply same_base_refl|by apply kinv_le|].
      rewrite Hf. destruct (no_change_exact X) as (H1&H2&H3). unfold sees. cbn [l_hist fresh_label replay fold_left first_commit c_adds c_dels].
      rewrite write_effect_nil. by split_and!. }
  destruct Hread as (sets&ret&kv1&Hr&Hb1&Hi1&Hsee). pose proof Hsee as ([Hd1 Hd2]&Hdis&Hpa). unfold patched in Hpa.
  assert (Hadd : sets.1 ⊆ replay (l_hist (L a k)) X ∖ X) by (rewrite <- Hpa; set_solver).
  destruct (merge_encodes enough junk Hmem a _ X sets.1 sets.2 Hb) as (v&Hv&Hev).
  { intros y Hy. destruct (Hwords y) as [|]; [set_solver..|done]. }
  { set_solver. }
  { apply subseteq_size in Hadd. lia. }
  rewrite Hpa in Hev. destruct (clean_dirty_key_spec _ kv1 L a k (clean_txn cid) Hi1 Hk Hp) as (b&kv2&Hc&Hb2&Hi2).
  assert (Hl2 : kv_lookup (base_kv kv2) a k = kv_lookup (base_kv kv) a k) by (by rewrite Hb2, Hb1).
  destruct (write_back n kv2 _ a k (clean_txn cid) v _ Hi2 Hko Hev Hs2) as (kv3&Hw&Hi3&o&Hu&Ho). rewrite Hl2 in Hw.
  exists kv3. split_and!; [|done|].
  - unfold vacuum_value. rewrite (bindM_eq _ _ _ _ _ Hr). cbn [sr_str sr_sets].
    rewrite (bindM_eq _ _ _ v (kv1, clean_txn cid)) by (unfold liftM; by rewrite Hv).
    by rewrite (bindM_eq _ _ _ _ _ Hc).
  - exists o. split; [|done]. intros a' k' Hk'. rewrite Hu by done. by rewrite Hb2, Hb1.
Qed.

(** *** All keys *)

Section All.
Context (T : triples) (H : list gcommit) (L : labels).
Context (Hhist : forall a k, word k -> l_hist (L a k) = entry_hist a k H) (Hquiet : forall a k, word k -> l_pend (L a k) = None).
Context (Hrep : greplay_ok H T) (Hwords : forall c, c ∈ H -> log_ok (g_log c)).
Abbreviation V := (greplay H T).
Context (Hs1 : 12 * (Z.of_nat (base.size T) + Z.of_nat (base.size V)) + 24 < W31).
Context (Hs2 : 12 * Z.of_nat (base.size V) + 24 < vs_limit S).

(** The keys [D] are done. *)
Definition clean_labels (D : list (array * Z)) : labels :=
  fun a k => if decide ((a, k) ∈ D) then cleaned (L a k) else L a k.
Definition stored_set (D : list (array * Z)) (a : array) (k : Z) : VDataSet :=
  pairs_of a k (if decide ((a, k) ∈ D) then V else T).

Record vacuumed (n : nat) (kv : TKV) (D : list (array * Z)) : Prop := {
  vc_kinv : kinv n kv (clean_labels D);
  vc_base a k : word k -> encodes_opt a (kv_lookup (base_kv kv) a k) (stored_set D a k) }.

Lemma replay_stored D a k : word k ->
  replay (l_hist (clean_labels D a k)) (stored_set D a k) = pairs_of a k V /\
  replay_ok (l_hist (clean_labels D a k)) (stored_set D a k).
Proof using Hhist Hrep.
  intros Hk. unfold clean_labels, stored_set. case_decide.
  - cbn [cleaned l_hist replay fold_left first_commit c_adds c_dels]. rewrite write_effect_nil. split; [done|].
    split; [apply effective_nil|done].
  - rewrite Hhist by done. split; [apply replay_entry_hist|by apply replay_ok_entry_hist].
Qed.

Lemma vacuum_step n kv D a k : vacuumed (2 + n) kv D -> key_ok a k ->
  exists kv', vacuum_value enough junk a (route a k).1 (rkey a k) k (kv, clean_txn cid) = Some (tt, (kv', clean_txn cid)) /\
    vacuumed n kv' ((a, k) :: D).
Proof using All.
  intros [Hi Hb] Hko. pose proof Hko as [Hk _]. destruct (replay_stored D a k Hk) as [HV Hok].
  pose proof (size_pairs_of a k V) as HsV. pose proof (size_pairs_of a k T) as HsT.
  destruct (vacuum_value_spec n kv (clean_labels D) a k (stored_set D a k)) as (kv'&Hr&Hi'&o&Hu&Ho); try done.
  - unfold clean_labels. case_decide; [done|]. by apply Hquiet.
  - by apply Hb.
  - rewrite HV. unfold stored_set. intros y Hy. case_decide; [by left|]. apply elem_of_pairs_of in Hy.
    destruct (greplay_words _ _ _ Hwords Hy) as [HT|Ht]; [left; by apply elem_of_pairs_of|right].
    rewrite <- (val_of_mk a k y). by apply val_of_word.
  - rewrite HV. unfold stored_set. case_decide.
    + assert (pairs_of a k V ∖ pairs_of a k V = ∅) as -> by set_solver. rewrite size_empty. lia.
    + assert (pairs_of a k V ∖ pairs_of a k T ⊆ pairs_of a k V) as Hle%subseteq_size by set_solver. lia.
  - rewrite HV. lia.
  - exists kv'. split; [done|]. rewrite HV in Ho. split.
    + eapply kinv_ext; [|exact Hi']. intros a' k' _. unfold clean_labels, lset.
      destruct (decide ((a', k') = (a, k))) as [[= -> ->]|Hne].
      * rewrite decide_True by left. by case_decide.
      * destruct (decide ((a', k') ∈ D)) as [Hin|Hin]; [rewrite decide_True by (by right)|rewrite decide_False by (by intros [?|?]%elem_of_cons)]; done.
    + intros a' k' Hk'. rewrite Hu by done. unfold stored_set. destruct (decide ((a', k') = (a, k))) as [[= -> ->]|Hne].
      * by rewrite decide_True by left.
      * specialize (Hb a' k' Hk'). unfold stored_set in Hb.
        destruct (decide ((a', k') ∈ D)) as [Hin|Hin]; [rewrite decide_True by (by right)|rewrite decide_False by (by intros [?|?]%elem_of_cons)]; done.
Qed.

Lemma vacuum_loop (a : array) (f : Z -> M (TKV * Transaction) unit) ids n kv D :
  vacuumed (2 * length ids + n) kv D ->
  (forall k, k ∈ ids -> key_ok a k /\ f k = vacuum_value enough junk a (route a k).1 (rkey a k) k) ->
  exists kv', for_each ids f (kv, clean_txn cid) = Some (tt, (kv', clean_txn cid)) /\
    vacuumed n kv' (reverse ((fun k => (a, k)) <$> ids) ++ D).
Proof using All.
  revert kv D. induction ids as [|k ids IH]; intros kv D Hv Hf; [by exists kv|]. cbn [for_each length] in *.
  destruct (Hf k) as [Hk Hfk]; [left|]. destruct (vacuum_step (2 * length ids + n) kv D a k) as (kv1&Hr&Hv1); [|done|].
  { by replace (2 + (2 * length ids + n))%nat with (2 * Datatypes.S (length ids) + n)%nat by lia. }
  rewrite <- Hfk in Hr. rewrite (bindM_eq _ _ _ _ _ Hr).
  destruct (IH kv1 ((a, k) :: D) Hv1) as (kv2&Hr2&Hv2); [intros; apply Hf; by right|]. exists kv2. split; [done|].
  rewrite fmap_cons, reverse_cons, <- app_assoc. done.
Qed.

(** The keys handed to the vacuum cover every change. *)
Definition covers (sub_ids obj_ids obj_literal_ids pre_ids : list Z) : Prop :=
  forall c a k, c ∈ H -> touches a k (g_log c) ->
    match a with Sub => k ∈ sub_ids | Pre => k ∈ pre_ids | Obj => k ∈ obj_ids \/ k ∈ obj_literal_ids end.

Lemma IVArrayVacuum_spec n kv (sub_ids obj_ids obj_literal_ids pre_ids : list Z) :
  kinv (2 * (length sub_ids + length obj_ids + length obj_literal_ids + length pre_ids) + n) kv L ->
  represents (base_kv kv) T ->
  Forall (key_ok Sub) sub_ids -> Forall (fun o => key_ok Obj o /\ is_literal_ele o = false) obj_ids ->
  Forall (fun o => key_ok Obj o /\ is_literal_ele o = true) obj_literal_ids -> Forall (key_ok Pre) pre_ids ->
  covers sub_ids obj_ids obj_literal_ids pre_ids ->
  exists kv', IVArrayVacuum enough junk cid sub_ids obj_ids obj_literal_ids pre_ids kv = Some (tt, kv') /\
    represents (base_kv kv') V /\ kinv n kv' (fun a k => cleaned (L a k)).
Proof using All.
  intros Hi HR Hs Ho Hl Hp Hcov. rewrite Forall_forall in Hs, Ho, Hl, Hp.
  assert (vacuumed (2 * length sub_ids + (2 * length obj_ids + (2 * length obj_literal_ids + (2 * length pre_ids + n)))) kv []) as Hv0.
  { split.
    - eapply kinv_ext; [|replace (2 * length sub_ids + _)%nat with (2 * (length sub_ids + length obj_ids + length obj_literal_ids + length pre_ids) + n)%nat by lia; exact Hi].
      intros. unfold clean_labels. rewrite decide_False; [done|]. by intros ?%elem_of_nil.
    - intros a k Hk. unfold stored_set. rewrite decide_False by (by intros ?%elem_of_nil). by apply represents_encodes. }
  destruct (vacuum_loop Sub (fun k => vacuum_value enough junk Sub SSub k k) sub_ids _ kv [] Hv0) as (kv1&Hr1&Hv1); [by intros k Hk; split; [apply Hs|]|].
  destruct (vacuum_loop Obj (fun k => vacuum_value enough junk Obj SObj k k) obj_ids _ kv1 _ Hv1) as (kv2&Hr2&Hv2).
  { intros k Hk. destruct (Ho k Hk) as [Hko Hlit]. split; [done|]. unfold route. by rewrite Hlit. }
  destruct (vacuum_loop Obj (fun k => vacuum_value enough junk Obj SObjLiteral (k ⊟ LITERAL_FIRST_ID) k) obj_literal_ids _ kv2 _ Hv2) as (kv3&Hr3&Hv3).
  { intros k Hk. destruct (Hl k Hk) as [Hko Hlit]. split; [done|]. unfold route. by rewrite Hlit. }
  destruct (vacuum_loop Pre (fun k => vacuum_value enough junk Pre SPre k k) pre_ids _ kv3 _ Hv3) as (kv4&Hr4&[Hk4 Hb4]); [by intros k Hk; split; [apply Hp|]|].
  revert Hk4 Hb4. match goal with |- kinv _ _ (clean_labels ?D') -> _ => set (D := D') end. intros Hk4 Hb4.
  assert (HD : forall a k, word k -> (a, k) ∉ D -> entry_hist a k H = [first_commit]).
  { intros a k Hk Hn. apply entry_hist_untouched. intros c Hc Ht. apply Hn. specialize (Hcov c a k Hc Ht). subst D.
    rewrite !elem_of_app, !elem_of_reverse, !list_elem_of_fmap. destruct a; naive_solver. }
  exists kv4. split_and!.
  - unfold IVArrayVacuum, s2values_vacuum, o2values_vacuum, o2values_literal_vacuum, p2values_vacuum.
    by rewrite (bindM_eq _ _ _ _ _ Hr1), (bindM_eq _ _ _ _ _ Hr2), (bindM_eq _ _ _ _ _ Hr3), Hr4.
  - apply represents_encodes. intros a k Hk. specialize (Hb4 a k Hk). unfold stored_set in Hb4. case_decide as Hin; [done|].
    rewrite <- replay_entry_hist, (HD a k Hk Hin). cbn [replay fold_left first_commit c_adds c_dels]. by rewrite write_effect_nil.
  - eapply kinv_ext; [|exact Hk4]. intros a k Hk. unfold clean_labels. case_decide as Hin; [done|].
    unfold cleaned. rewrite <- (HD a k Hk Hin), <- (Hhist a k Hk), <- (Hquiet a k Hk). by destruct (L a k).
Qed.
End All.
End Vacuum.

(** * Effective changes

    A transaction that adds only triples it does not see and removes only triples
    it sees makes effective changes: the locks it holds keep the triples it writes
    as they were in its view.  So the history of committed changes stays one in
    which every triple is added when it is absent and removed when it is there. *)

(** The client may add a triple that it does not see and has not removed itself,
    and remove one that it sees. *)
Definition update_ok (txn : Transaction) (T : triples) (H : list gcommit) (w : wlog) (ins : bool) (x : triple) : Prop :=
  if ins then (x ∉ gview txn T H w) /\ (x ∉ w_dels w) else x ∈ gview txn T H w.

#[global] Instance update_ok_dec txn T H w ins x : Decision (update_ok txn T H w ins x).
Proof. unfold update_ok. destruct ins; apply _. Defined.

Lemma triple_key_word a x : triple_ok x -> word (key_of a x).
Proof. destruct x as [[s p] o]. intros ([]&[]&[]). by destruct a. Qed.

Lemma NoDup_snoc {X} (l : list X) x : NoDup l -> x ∉ l -> NoDup (l ++ [x]).
Proof. intros Hl Hx. apply NoDup_app. split_and!; [done| |apply NoDup_singleton]. by intros y Hy ->%list_elem_of_singleton. Qed.

Section Valid.
Context (level : Z -> IsolationLevelType) (A : adb) (txns : gmap Z Transaction) (L : labels) (T : triples).
Context (Hc : coherent level A txns L) (Hva : valid T A).

Lemma valid_begin t : ab_logs A !! t = None -> valid T (mk_adb (ab_hist A) (<[t := no_writes]> (ab_logs A))).
Proof using Hva.
  intros Hn. destruct Hva as [H1 H2 H3 H4]. split; cbn [ab_hist ab_logs]; [done| |done|].
  - apply map_Forall_insert_2; [|done]. split_and!; [constructor|constructor|..]; by intros t' ?%elem_of_nil.
  - apply map_Forall_insert_2; [|done]. intros t' [Hin|Hin]; by apply elem_of_nil in Hin.
Qed.

Lemma valid_abort t : valid T (mk_adb (ab_hist A) (delete t (ab_logs A))).
Proof using Hva. destruct Hva as [H1 H2 H3 H4]. split; cbn [ab_hist ab_logs]; [done| |done|]; by apply map_Forall_delete. Qed.

(** Two running transactions write different triples. *)
Lemma logs_disjoint t1 t2 w1 w2 x : t1 <> t2 -> ab_logs A !! t1 = Some w1 -> ab_logs A !! t2 = Some w2 ->
  x ∈ w_adds w1 \/ x ∈ w_dels w1 -> x ∈ w_adds w2 \/ x ∈ w_dels w2 -> False.
Proof using Hc Hva.
  intros Hne H1 H2 Hx1 Hx2. assert (triple_ok x) as Hx by (by apply (va_logs_ok _ _ Hva _ _ H1)).
  pose proof (triple_key_word Sub x Hx) as Hk.
  assert (forall w, x ∈ w_adds w \/ x ∈ w_dels w -> touches Sub (key_of Sub x) w) as Ht by (intros w Hw; by exists x).
  pose proof (co_writer _ _ _ _ Hc Sub _ _ _ Hk H1 (Ht _ Hx1)) as E1.
  pose proof (co_writer _ _ _ _ Hc Sub _ _ _ Hk H2 (Ht _ Hx2)) as E2. rewrite E1 in E2. by injection E2 as ->.
Qed.

Lemma valid_commit t w c : ab_logs A !! t = Some w -> g_log c = w ->
  valid T (mk_adb (ab_hist A ++ [c]) (delete t (ab_logs A))).
Proof using Hc Hva.
  intros Hw Hcw. pose proof Hva as [H1 H2 H3 H4]. split; cbn [ab_hist ab_logs].
  - apply greplay_ok_app. split; [done|]. cbn. rewrite Hcw. split; [by apply (H2 t)|done].
  - intros t' w' [Hne Hw']%lookup_delete_Some. rewrite greplay_app. cbn. rewrite Hcw.
    destruct (H2 t' w' Hw') as (Hn1&Hn2&Ha&Hd). split_and!; [done|done|..].
    + intros x Hx Hin. unfold log_effect in Hin. apply elem_of_difference in Hin as [[Hin|Hin]%elem_of_union _].
      * by apply (Ha x).
      * apply elem_of_list_to_set in Hin. eapply (logs_disjoint t t' w w' x); eauto.
    + intros x Hx. destruct (Hd x Hx) as [Hin|?]; [left|by right]. unfold log_effect.
      apply elem_of_difference. split; [set_solver|]. rewrite elem_of_list_to_set. intros Hin'.
      eapply (logs_disjoint t t' w w' x); eauto.
  - intros c' [Hin|Hx%list_elem_of_singleton]%elem_of_app; [by apply H3|]. subst c'. rewrite Hcw. by apply (H4 t).
  - by apply map_Forall_delete.
Qed.

(** A transaction that may write a triple sees whether it is there. *)
Lemma gview_current txn w s p o : txns !! TID txn = Some txn -> ab_logs A !! TID txn = Some w ->
  triple_ok (s, p, o) -> grantable txn Sub s L ->
  (s, p, o) ∈ gview txn T (ab_hist A) w <-> (s, p, o) ∈ log_effect w (greplay (ab_hist A) T).
Proof using Hc.
  intros Ht Hw Hok Hg. destruct (co_txn _ _ _ _ Hc _ _ Ht) as (_&[Hpos _]&Ho).
  assert (0 <= TID txn) as H0 by (unfold tid_ok in Hpos; lia). pose proof (triple_key_word Sub _ Hok) as Hk. cbn in Hk.
  unfold gview. destruct (IS_RC txn) eqn:Hrc; [done|].
  assert (Hall : Forall (fun c => c_id c <= TID txn) (entry_hist Sub s (ab_hist A))).
  { rewrite <- (co_hist _ _ _ _ Hc Sub s Hk). destruct Hg as [Hiw|[Hmw _]].
    - eapply (co_sees _ _ _ _ Hc); [done..|]. by apply (ow_write _ _ Ho).
    - unfold may_write in Hmw. destruct (l_pend (L Sub s)) as [q|] eqn:Hq; [|destruct Hmw; [congruence|done]].
      eapply (co_sees _ _ _ _ Hc); [done..|]. by exists q. }
  assert (Heq : pairs_of Sub s (greplay (gsnapshot (TID txn) (ab_hist A)) T) = pairs_of Sub s (greplay (ab_hist A) T)).
  { rewrite <- !replay_entry_hist, <- snapshot_entry_hist by done. by rewrite snapshot_all. }
  change (s, p, o) with (mk_triple Sub s (p, o)). by rewrite <- !elem_of_pairs_of, !pairs_of_effect, Heq.
Qed.

Lemma valid_update txn w ins s p o : txns !! TID txn = Some txn -> ab_logs A !! TID txn = Some w ->
  triple_ok (s, p, o) -> grantable3 txn s p o L -> update_ok txn T (ab_hist A) w ins (s, p, o) ->
  valid T (mk_adb (ab_hist A) (<[TID txn := log_update ins (s, p, o) w]> (ab_logs A))).
Proof using Hc Hva.
  intros Ht Hw Hok (_&Hg&_) Hu. pose proof Hva as [H1 H2 H3 H4]. pose proof (gview_current txn w s p o Ht Hw Hok Hg) as Hv.
  destruct (H2 _ _ Hw) as (Hn1&Hn2&Ha&Hd). split; cbn [ab_hist ab_logs]; [done| |done|].
  - apply map_Forall_insert_2; [|done]. unfold update_ok in Hu. unfold log_effect in Hv.
    rewrite elem_of_difference, elem_of_union, !elem_of_list_to_set in Hv.
    destruct ins; unfold log_effective; cbn [log_update w_adds w_dels].
    + destruct Hu as [Hnv Hnd]. assert (((s, p, o) ∉ greplay (ab_hist A) T) /\ ((s, p, o) ∉ w_adds w)) as [Hnx Hna] by tauto.
      split_and!; [by apply NoDup_snoc|done|..].
      * intros x [?|E%list_elem_of_singleton]%elem_of_app; [by apply Ha|by subst].
      * intros x Hx. rewrite elem_of_app. destruct (Hd x Hx); [by left|right; by left].
    + apply Hv in Hu as [Hin Hnd]. split_and!; [done|by apply NoDup_snoc|done|].
      intros x [?|E%list_elem_of_singleton]%elem_of_app; [by apply Hd|by subst].
  - apply map_Forall_insert_2; [|done]. intros x. specialize (H4 _ _ Hw x).
    destruct ins; cbn [log_update w_adds w_dels]; rewrite elem_of_app, list_elem_of_singleton.
    + intros [[?| ->]|?]; auto.
    + intros [?|[?| ->]]; auto.
Qed.
End Valid.
