(* ===== verification/IVArrayEntries.v ===== *)
(** * Arrays as stores of entries

    The number of entries of an [IVArray] changes only when the array grows, so
    the arrays satisfy the interface [EntryStore] of the transactional half. *)

From S2P Require Import Prelude ValueStore Version BlockManager BlockManagerSpec IVArray IVArraySpec IVArrayCache IVArrayOps IVArrayStore.

#[local] Existing Instance iv_format.

(** ** Calls that keep the number of entries *)

Definition keeps {A} (m : M IVArray A) : Prop := forall a r a', m a = Some (r, a') -> CurEntryNum a' = CurEntryNum a.

Create HintDb keeps.

Lemma keeps_ret {A} (x : A) : keeps (retM x).
Proof. by intros a r a' [= _ <-]. Qed.
Lemma keeps_fail {A} : keeps (fun _ => None : option (A * IVArray)).
Proof. done. Qed.
Lemma keeps_gets {A} (f : IVArray -> A) : keeps (gets f).
Proof. by intros a r a' [= _ <-]. Qed.
Lemma keeps_puts f : (forall a, CurEntryNum (f a) = CurEntryNum a) -> keeps (puts f).
Proof. intros Hf a r a' [= _ <-]. apply Hf. Qed.
Lemma keeps_bind {A B} (m : M IVArray A) (f : A -> M IVArray B) : keeps m -> (forall x, keeps (f x)) -> keeps (bindM m f).
Proof.
  intros Hm Hf a r a' H. unfold bindM in H. apply bind_Some in H as ([x a1]&H1&H2). rewrite (Hf x _ _ _ H2). by eapply Hm.
Qed.
Lemma bindM_inv {A B} (m : M IVArray A) (f : A -> M IVArray B) a r a' : bindM m f a = Some (r, a') ->
  exists x a1, m a = Some (x, a1) /\ f x a1 = Some (r, a').
Proof. intros H. unfold bindM in H. apply bind_Some in H as ([x a1]&H1&H2). eauto. Qed.
Lemma keeps_ent k : keeps (ent k).
Proof. intros a r a' H. unfold ent in H. destruct (_ && _); [|done]. injection H as _ <-. by destruct (_ <=? _). Qed.
Lemma keeps_upd k f : keeps (upd k f).
Proof. apply keeps_bind; [apply keeps_ent|]. by intros e a r a' [= _ <-]. Qed.
Lemma keeps_write v : keeps (bm_write v).
Proof. intros a r a' H. unfold bm_write in H. apply bind_Some in H as ([s bm]&_&[= _ <-]). done. Qed.
Lemma keeps_free s : keeps (bm_free s).
Proof. intros a r a' H. unfold bm_free in H. apply bind_Some in H as (bm&_&[= _ <-]). done. Qed.
Lemma keeps_read s : keeps (bm_read s).
Proof. intros a r a' H. unfold bm_read in H. apply bind_Some in H as (x&_&[= _ <-]). done. Qed.

#[export] Hint Resolve keeps_ret keeps_fail keeps_gets keeps_ent keeps_upd keeps_write keeps_free keeps_read : keeps.

Ltac keeps :=
  repeat match goal with
  | |- keeps (bindM _ _) => apply keeps_bind; [|intros ?]
  | |- keeps (if ?b then _ else _) => destruct b
  | |- keeps (match ?x with Some _ => _ | None => _ end) => destruct x
  | |- keeps (puts _) => apply keeps_puts; intros; reflexivity
  | |- keeps _ => solve [auto with keeps]
  end.

Lemma keeps_SwapOut : keeps SwapOut.
Proof. unfold SwapOut. keeps. Qed.
#[export] Hint Resolve keeps_SwapOut : keeps.

Section Ops.
Context (MAXC : Z).

Lemma keeps_make_room fuel n : keeps (make_room MAXC fuel n).
Proof. induction fuel as [|fuel IH]; cbn [make_room]; keeps. Qed.
#[local] Hint Resolve keeps_make_room : keeps.

Lemma keeps_AddInCache k v : keeps (AddInCache MAXC k v).
Proof. unfold AddInCache. keeps. Qed.
#[local] Hint Resolve keeps_AddInCache : keeps.

Lemma keeps_UpdateTime k : keeps (UpdateTime k).
Proof. unfold UpdateTime. keeps. Qed.
Lemma keeps_RemoveFromLRUQueue k : keeps (RemoveFromLRUQueue k).
Proof. unfold RemoveFromLRUQueue. keeps. Qed.
#[local] Hint Resolve keeps_UpdateTime keeps_RemoveFromLRUQueue : keeps.

Lemma keeps_search k : keeps (search MAXC k).
Proof. unfold search. keeps. Qed.
Lemma keeps_remove k : keeps (remove k).
Proof. unfold remove. keeps. Qed.
Lemma keeps_modify k v : keeps (modify MAXC k v).
Proof. unfold modify, place_value. keeps. Qed.

(** The array after [allocBlock] and the assignment of [CurEntryNum]. *)
Definition array_expand (k : Z) (a : IVArray) : IVArray :=
  set_entry_num (getEntryNum (allocBlock k a)) true (allocBlock k a).

Lemma insert_num k v a r a' : insert MAXC k v a = Some (r, a') ->
  CurEntryNum a' = CurEntryNum a \/ (CurEntryNum a <= k /\ CurEntryNum a' = CurEntryNum (array_expand k a)).
Proof.
  intros H. unfold insert in H. apply bindM_inv in H as (n&a0&[= <- <-]&H).
  apply bindM_inv in H as (used&a1&H1&H). destruct (Z.leb_spec (CurEntryNum a) k) as [Hge|Hlt].
  - rewrite (proj2 (Z.ltb_ge _ _) Hge) in H1. injection H1 as <- <-.
    destruct (MAX_KEY_NUM <=? k); [injection H as _ <-; by left|]. right. split; [done|].
    apply bindM_inv in H as (u&a2&H2&H). apply bindM_inv in H2 as (u'&a3&[= _ <-]&[= _ <-]).
    fold (array_expand k a) in H. revert H. match goal with |- ?m _ = _ -> _ => assert (Hk : keeps m) by keeps end. apply Hk.
  - left. assert (CurEntryNum a1 = CurEntryNum a) as <-.
    { revert H1. match goal with |- ?m _ = _ -> _ => assert (Hk : keeps m) by keeps end. apply Hk. }
    revert H. match goal with |- ?m _ = _ -> _ => assert (Hk : keeps m) by keeps end. apply Hk.
Qed.
End Ops.

(** ** The instance *)

Section Store.
Context (MAXC LIM : Z) (HMAXC : LENGTH_BORDER <= MAXC) (HLIM : 0 <= LIM <= W32).
#[local] Existing Instance array_store.
#[local] Existing Instance array_store_laws.

#[local] Instance array_entries : EntryStore IVArray := { es_num := CurEntryNum; es_expand := array_expand }.

Lemma array_expand_ok a n k : array_room MAXC LIM n a -> 0 <= k < KEY_LIMIT -> CurEntryNum a <= k ->
  array_room MAXC LIM n (array_expand k a) /\ k < CurEntryNum (array_expand k a).
Proof using Type.
  intros (saved&N&m&(q&disk&Hi&Hd)&Hm&Hn) Hk Hge.
  destruct (ainv_grow MAXC saved a q disk _ k Hi Hk Hge) as [Hi' Hk']. split; [|exact Hk'].
  exists saved, N, m. split_and!; [|done|done]. by exists q, disk.
Qed.

Lemma array_bound a n k : array_room MAXC LIM n a -> is_Some (array_view a !! k) -> k < CurEntryNum a.
Proof using Type.
  intros (saved&N&m&Hs&Hm&Hn) [v Hv]. rewrite (view_of_stands _ _ _ _ _ _ Hs Hm) in Hv. destruct Hs as (q&disk&Hi&_).
  destruct (ai_some _ _ _ _ _ _ _ Hi k (to_bytes v)) as [Hr _]; [apply not_elem_of_empty|by rewrite lookup_fmap, Hv|]. apply Hr.
Qed.

#[local] Program Instance array_entries_laws : @EntryStoreLaws IVArray _ (array_store_laws MAXC LIM HMAXC HLIM) _.
Next Obligation. intros a n k. apply array_bound. Qed.
Next Obligation. done. Qed.
Next Obligation. intros a n k Hr Hk Hn. exact (proj1 (array_expand_ok a n k Hr Hk Hn)). Qed.
Next Obligation. intros a n k Hr Hk Hn. exact (proj2 (array_expand_ok a n k Hr Hk Hn)). Qed.
Next Obligation.
  intros a k r a' H. cbn in H. apply bindM_inv in H as (x&a1&H1&[= _ <-]). by apply keeps_search in H1.
Qed.
Next Obligation.
  intros a n k v r a' Hr Hk H. cbn in *. apply insert_num in H as [->|[Hge ->]]; [done|].
  destruct (array_expand_ok a n k Hr Hk Hge). lia.
Qed.
Next Obligation. intros a k v r a' H. cbn in *. by apply keeps_modify in H. Qed.
Next Obligation. intros a k r a' H. cbn in *. by apply keeps_remove in H. Qed.
End Store.
