(* ===== verification/TxnManager.v ===== *)
(** * The transaction manager

    [Txn_manager] (Database/Txn_manager.cpp): the table of transactions, the
    counter that gives out their ids and commit ids, the keys that committed
    transactions have written, and the checkpoint.  The parser and the evaluation
    of queries are not under consideration: a query is the list of the calls it
    makes on the store.

    A call of [lockExclusive] on [checkpoint_lock] waits for the shared holders;
    the lock is the number of these, and a checkpoint that has to wait is
    reported ([false]) and runs later.  Log files and wall-clock times are left
    out. *)

From S2P Require Import Prelude Util ValueList ValueStore KVstore Version GLatch Transaction IVEntry TxnStore TxnRead.

Abbreviation id_triple := (Z * Z * Z)%type.

Section Queries.
Context {S : Type} `{VS : ValueStore S} `{ES : EntryStore S} (enough : Z -> bool) (junk : nat -> Z).
Abbreviation TW := (KVstore (TArray S) * Transaction)%type.

(** [Database::insert], [Database::remove] in a transaction: the triples one by
    one; the loop goes on after a triple that was refused. *)
Fixpoint insert_triples (_triples : list id_triple) (valid_num : Z) : M TW Z :=
  match _triples with
  | [] => retM valid_num
  | (s, p, o) :: rest =>
      let! ret := insertTriple_txn junk s p o in
      insert_triples rest (if (ret : bool) then valid_num + 1 else valid_num)
  end.
Fixpoint remove_triples (_triples : list id_triple) (valid_num : Z) : M TW Z :=
  match _triples with
  | [] => retM valid_num
  | (s, p, o) :: rest =>
      let! ret := removeTriple_txn junk s p o in
      remove_triples rest (if (ret : bool) then valid_num + 1 else valid_num)
  end.

(** The calls of a query. *)
Inductive call :=
  | InsertAll (_triples : list id_triple)
  | RemoveAll (_triples : list id_triple)
  | Exist (s p o : Z)
  | SubPres (s : Z) | SubObjs (s : Z) | SubPreObjs (s p : Z) | SubPairs (s : Z)
  | ObjPres (o : Z) | ObjSubs (o : Z) | ObjPreSubs (o p : Z) | ObjPairs (o : Z)
  | PreSubs (p : Z) | PreObjs (p : Z) | PrePairs (p : Z).

Inductive answer := Count (num : Z) | Known (b : bool) | Found (l : option (list Z)).

Definition answers {A} (f : A -> answer) (m : M TW A) : M TW answer := let! r := m in retM (f r).

Definition run_call (c : call) : M TW answer :=
  match c with
  | InsertAll ts => answers Count (insert_triples ts 0)
  | RemoveAll ts => answers Count (remove_triples ts 0)
  | Exist s p o => answers Known (exist_triple_txn enough junk s p o)
  | SubPres s => answers Found (getpreIDlistBysubID_txn enough junk s)
  | SubObjs s => answers Found (getobjIDlistBysubID_txn enough junk s true)
  | SubPreObjs s p => answers Found (getobjIDlistBysubIDpreID_txn enough junk s p)
  | SubPairs s => answers Found (getpreIDobjIDlistBysubID_txn enough junk s)
  | ObjPres o => answers Found (getpreIDlistByobjID_txn enough junk o)
  | ObjSubs o => answers Found (getsubIDlistByobjID_txn enough junk o true)
  | ObjPreSubs o p => answers Found (getsubIDlistByobjIDpreID_txn enough junk o p)
  | ObjPairs o => answers Found (getpreIDsubIDlistByobjID_txn enough junk o)
  | PreSubs p => answers Found (getsubIDlistBypreID_txn enough junk p true)
  | PreObjs p => answers Found (getobjIDlistBypreID_txn enough junk p true)
  | PrePairs p => answers Found (getsubIDobjIDlistBypreID_txn enough junk p)
  end.

Fixpoint run_calls (calls : list call) : M TW (list answer) :=
  match calls with
  | [] => retM []
  | c :: rest => let! a := run_call c in let! l := run_calls rest in retM (a :: l)
  end.
End Queries.

Record Txn_manager (S : Type) := mk_Txn_manager {
  tm_kv : KVstore (TArray S);
  cnt : Z;
  txn_table : gmap Z Transaction;
  DirtyKeys : list IDSet;
  committed_num : Z;
  checkpoint_lock : Z }.
Arguments mk_Txn_manager {S}.
Arguments tm_kv {S}.
Arguments cnt {S}.
Arguments txn_table {S}.
Arguments DirtyKeys {S}.
Arguments committed_num {S}.
Arguments checkpoint_lock {S}.

Definition INVALID_ID : Z := W64 - 1.

Definition add_update_num (n : Z) (t : Transaction) : Transaction :=
  mk_Transaction (TID t) (CommitID t) (txn_state t) (errormsg t) (ReadSet t) (WriteSet t) (isolation t) (update_num t + n).

Section Manager.
Context {S : Type} `{VS : ValueStore S} `{ES : EntryStore S} (enough : Z -> bool) (junk : nat -> Z).
Abbreviation TM := (Txn_manager S).
Abbreviation TW := (KVstore (TArray S) * Transaction)%type.

Definition Txn_manager_new (kv : KVstore (TArray S)) : TM :=
  mk_Txn_manager kv 1 ∅ (replicate 3 ∅) 0 0.

Definition set_kv kv (tm : TM) : TM :=
  mk_Txn_manager kv (cnt tm) (txn_table tm) (DirtyKeys tm) (committed_num tm) (checkpoint_lock tm).
Definition set_cnt c (tm : TM) : TM :=
  mk_Txn_manager (tm_kv tm) c (txn_table tm) (DirtyKeys tm) (committed_num tm) (checkpoint_lock tm).
Definition set_table t (tm : TM) : TM :=
  mk_Txn_manager (tm_kv tm) (cnt tm) t (DirtyKeys tm) (committed_num tm) (checkpoint_lock tm).
Definition set_dirty d (tm : TM) : TM :=
  mk_Txn_manager (tm_kv tm) (cnt tm) (txn_table tm) d (committed_num tm) (checkpoint_lock tm).
Definition set_committed n (tm : TM) : TM :=
  mk_Txn_manager (tm_kv tm) (cnt tm) (txn_table tm) (DirtyKeys tm) n (checkpoint_lock tm).
Definition set_lock l (tm : TM) : TM :=
  mk_Txn_manager (tm_kv tm) (cnt tm) (txn_table tm) (DirtyKeys tm) (committed_num tm) l.

Definition mod_M (f : TM -> TM) : M TM unit := fun tm => Some (tt, f tm).
Definition get_transaction (TID : Z) : M TM (option Transaction) := fun tm => Some (txn_table tm !! TID, tm).

(** [map::insert] keeps an entry that exists. *)
Definition add_transaction (TID : Z) (txn : Transaction) : M TM unit :=
  mod_M (fun tm => set_table (match txn_table tm !! TID with Some _ => txn_table tm | None => <[TID := txn]> (txn_table tm) end) tm).

Definition ArrangeTID : M TM Z := fun tm => Some (cnt tm, set_cnt (u64 (cnt tm + 1)) tm).
Definition ArrangeCommitID : M TM Z := fun tm => Some (cnt tm, tm).

Definition lock_shared : M TM unit := mod_M (fun tm => set_lock (checkpoint_lock tm + 1) tm).
Definition unlock_shared : M TM unit := mod_M (fun tm => set_lock (checkpoint_lock tm - 1) tm).

(** A call that works on the store and on the transaction object that the table
    refers to. *)
Definition on_txn {A} (TID : Z) (m : M TW A) : M TM A := fun tm =>
  txn ← txn_table tm !! TID;
  '(r, (kv, txn)) ← m (tm_kv tm, txn);
  Some (r, set_table (<[TID := txn]> (txn_table tm)) (set_kv kv tm)).

Definition Begin (isolationlevel : IsolationLevelType) : M TM Z :=
  let! _ := lock_shared in
  let! TID := ArrangeTID in
  if TID =? INVALID_ID then let! _ := unlock_shared in retM TID
  else
    let txn := SetState RUNNING (SetCommitID TID (Transaction_new TID TID isolationlevel)) in
    let! _ := add_transaction TID txn in retM TID.

Definition add_dirty_keys (txn : Transaction) : M TM unit :=
  mod_M (fun tm => set_dirty (zip_with (∪) (DirtyKeys tm) (WriteSet txn)) tm).

(** [false] when the lock has to be waited for. *)
Definition Checkpoint (cid : Z) : M TM bool := fun tm =>
  if negb (checkpoint_lock tm =? 0) then Some (false, tm)
  else
    let sub_ids := elements (id_set SUBJECT (DirtyKeys tm)) in
    let pre_ids := elements (id_set PREDICATE (DirtyKeys tm)) in
    let obj_keys := elements (id_set OBJECT (DirtyKeys tm)) in
    let obj_ids := filter (fun k => is_entity_ele k = true) obj_keys in
    let obj_literal_ids := filter (fun k => is_entity_ele k <> true) obj_keys in
    '(_, kv) ← IVArrayVacuum enough junk cid sub_ids obj_ids obj_literal_ids pre_ids (tm_kv tm);
    Some (true, set_kv kv tm).

(** A commit up to the checkpoint: the result code, and whether one is due. *)
Definition commit_txn (TID : Z) : M TM (Z * bool) :=
  let! t := get_transaction TID in
  match t with
  | None => retM (-1, false)
  | Some txn =>
      if bool_decide (txn_state txn <> RUNNING) then retM (1, false)
      else
        let! CID := ArrangeCommitID in
        let! txn := on_txn TID (let! _ := txn_mod (SetCommitID CID) in
                                let! _ := TransactionCommit junk in
                                let! _ := txn_mod (SetState COMMITTED) in txn_get) in
        let! _ := add_dirty_keys txn in
        let! _ := unlock_shared in
        let! _ := mod_M (fun tm => set_committed (committed_num tm + 1) tm) in
        fun tm => Some (if committed_num tm =? 50000 then ((0, true), set_committed 0 tm) else ((0, false), tm))
  end.

(** The result code, and whether a checkpoint that is due has to wait. *)
Definition Commit (cid TID : Z) : M TM (Z * bool) :=
  let! r := commit_txn TID in
  if (r.2 : bool) then let! ok := Checkpoint cid in retM (r.1, negb ok) else retM r.

Definition Abort (TID : Z) : M TM Z :=
  let! t := get_transaction TID in
  match t with
  | None => retM (-1)
  | Some _ =>
      let! _ := on_txn TID (let! _ := TransactionRollback junk in txn_mod (SetState ABORTED)) in
      let! _ := unlock_shared in retM 0
  end.

Definition manager_Rollback (TID : Z) : M TM Z :=
  let! t := get_transaction TID in
  match t with
  | None => retM (-1)
  | Some txn => if bool_decide (txn_state txn <> RUNNING) then retM 1 else Abort TID
  end.

(** [ret_val] is the return value of [Database::query], from the answers. *)
Definition Query (TID : Z) (calls : list call) (ret_val : list answer -> Z) : M TM (Z * list answer) :=
  let! t := get_transaction TID in
  match t with
  | None => retM (-1, [])
  | Some txn =>
      if bool_decide (txn_state txn <> RUNNING) then retM (-99, [])
      else
        let! l := on_txn TID (run_calls enough junk calls) in
        let! t := get_transaction TID in
        if bool_decide (txn_state <$> t = Some ABORTED) then let! _ := Abort TID in retM (-20, [])
        else if ret_val l <? -1 then retM (ret_val l, l)
        else
          let! _ := on_txn TID (txn_mod (add_update_num (ret_val l))) in retM (ret_val l, l)
  end.

(** [abort_all_running]: a [std::map] is walked by its keys in order. *)
Definition abort_all_running : M TM unit := fun tm =>
  for_each (merge_sort Z.le (elements (dom (txn_table tm))))
    (fun TID => let! t := get_transaction TID in
                match t with
                | Some txn => if bool_decide (txn_state txn = RUNNING) then let! _ := Abort TID in retM tt else retM tt
                | None => retM tt
                end) tm.
End Manager.
