(* ===== verification/TxnQuery.v ===== *)
(** * Queries of a transaction

    The calls of a query, one after the other, on a store that other running
    transactions share: the getters answer from the view of the transaction, the
    updates extend its change or abort it. *)

From S2P Require Import Prelude Util ValueList Adjacency ValueSpec PreList ValueRead BatchInsertSpec ValueStore KVstore TripleSet KVget KVbatch Version VersionSpec GLatch Transaction IVEntry IVEntrySpec IVEntrySystem TxnStore TxnStoreSpec TxnLocks TxnHistory TxnSystem TxnRead TxnReadSpec TxnVacuumSpec TxnManager.

(** What the client has to respect and what it is answered, for the triples [V]
    that it sees. *)
Definition call_pre (txn : Transaction) (c : call) : Prop :=
  match c with
  | InsertAll _ | RemoveAll _ => True
  | Exist s _ _ | SubPres s | SubObjs s | SubPreObjs s _ | SubPairs s => word s /\ is_entity_ele s = true
  | ObjPres o | ObjSubs o | ObjPreSubs o _ | ObjPairs o => word o /\ o <> INVALID_ENTITY_LITERAL_ID
  | PreSubs p | PreObjs p => word p /\ IS_SR txn = false
  | PrePairs p => word p
  end.

Definition answer_ok (V : triples) (c : call) (a : answer) : Prop :=
  match c, a with
  | InsertAll ts, Count n | RemoveAll ts, Count n => n = len ts
  | Exist s p o, Known b => b = true <-> (s, p, o) ∈ V
  | SubPres s, Found r => lists r (fun p => exists o, (s, p, o) ∈ V)
  | SubObjs s, Found r => lists r (fun o => exists p, (s, p, o) ∈ V)
  | SubPreObjs s p, Found r => lists r (fun o => (s, p, o) ∈ V)
  | SubPairs s, Found r => lists_pairs r (fun p o => (s, p, o) ∈ V)
  | ObjPres o, Found r => lists r (fun p => exists s, (s, p, o) ∈ V)
  | ObjSubs o, Found r => lists r (fun s => exists p, (s, p, o) ∈ V)
  | ObjPreSubs o p, Found r => lists r (fun s => (s, p, o) ∈ V)
  | ObjPairs o, Found r => lists_pairs r (fun p s => (s, p, o) ∈ V)
  | PreSubs p, Found r => lists r (fun s => exists o, (s, p, o) ∈ V)
  | PreObjs p, Found r => lists r (fun o => exists s, (s, p, o) ∈ V)
  | PrePairs p, Found r => lists_pairs r (fun s o => (s, p, o) ∈ V)
  | _, _ => False
  end.

(** The entry a getter reads. *)
Definition read_entry_of (c : call) : option (array * Z) :=
  match c with
  | InsertAll _ | RemoveAll _ => None
  | Exist s _ _ | SubPres s | SubObjs s | SubPreObjs s _ | SubPairs s => Some (Sub, s)
  | ObjPres o | ObjSubs o | ObjPreSubs o _ | ObjPairs o => Some (Obj, o)
  | PreSubs p | PreObjs p | PrePairs p => Some (Pre, p)
  end.

(** What may stop a call: an update, a conflict on an entry of one of its triples; a
    getter of a serializable transaction, another one that writes the entry. *)
Definition stopped (A : adb) (txns : gmap Z Transaction) (txn : Transaction) (c : call) : Prop :=
  match c with
  | InsertAll ts | RemoveAll ts => exists x a, x ∈ ts /\ conflict A txns txn a (key_of a x)
  | _ => IS_SR txn = true /\ exists a k, read_entry_of c = Some (a, k) /\ written_by_other A txn a k
  end.

(** The change after a call. *)
Definition log_updates (ins : bool) (ts : list triple) (w : wlog) : wlog :=
  fold_left (fun w x => log_update ins x w) ts w.
Definition log_call (c : call) (w : wlog) : wlog :=
  match c with InsertAll ts => log_updates true ts w | RemoveAll ts => log_updates false ts w | _ => w end.

Fixpoint answers_ok (txn : Transaction) (T : triples) (H : list gcommit) (w : wlog) (calls : list call) (l : list answer) : Prop :=
  match calls, l with
  | [], [] => True
  | c :: calls', a :: l' =>
      answer_ok (gview txn T H w) c a /\ answers_ok txn T H (log_call c w) calls' l'
  | _, _ => False
  end.

(** A change that has room for one more triple. *)
Definition log_fits (w : wlog) : Prop := 4 + 2 * (len (w_adds w) + len (w_dels w) + 1) < MAX_CELLS.

Section Client.
Context (txn : Transaction) (T : triples) (H : list gcommit).

(** Each update is one the client may do, whether or not the ones before were
    refused; each read finds lists that are small enough. *)
Fixpoint updates_ok (ins : bool) (ts : list triple) (k : wlog -> Prop) (w : wlog) : Prop :=
  match ts with
  | [] => k w
  | x :: ts' =>
      triple_ok x /\ log_fits w /\ update_ok txn T H w ins x /\
      updates_ok ins ts' k (log_update ins x w) /\ updates_ok ins ts' k w
  end.

Definition reads_fit (w : wlog) : Prop :=
  12 * (Z.of_nat (base.size T) + Z.of_nat (base.size (gview txn T H w))) + 24 < W31.

Fixpoint calls_ok (calls : list call) (w : wlog) : Prop :=
  match calls with
  | [] => True
  | c :: calls' =>
      match c with
      | InsertAll ts => updates_ok true ts (calls_ok calls') w
      | RemoveAll ts => updates_ok false ts (calls_ok calls') w
      | _ => call_pre txn c /\ reads_fit w /\ calls_ok calls' w
      end
  end.
End Client.

(** Views depend on the id and the isolation level of the transaction only. *)
Lemma gview_same txn txn' T H w : TID txn' = TID txn -> isolation txn' = isolation txn ->
  gview txn' T H w = gview txn T H w.
Proof. intros E1 E2. unfold gview, IS_RC. by rewrite E1, E2. Qed.

Section Running.
Context {S : Type} `{ESL : EntryStoreLaws S} (enough : Z -> bool) (junk : nat -> Z) (level : Z -> IsolationLevelType).
Context (Hmem : forall n, enough n = true).
Abbreviation TKV := (KVstore (TArray S)).
Context (T : triples) (H : list gcommit) (logs : gmap Z wlog) (txns : gmap Z Transaction) (t : Z).

(** The transaction [txn] runs, and has made the change [w] so far. *)
Record in_txn (n : nat) (kv : TKV) (txn : Transaction) (w : wlog) : Prop := {
  it_tid : TID txn = t;
  it_labels : exists L, kinv junk level n kv L /\ coherent level (mk_adb H (<[t := w]> logs)) (<[t := txn]> txns) L;
  it_valid : valid T (mk_adb H (<[t := w]> logs));
  it_base : represents (base_kv kv) T }.

Lemma in_txn_le n kv txn w : in_txn (Datatypes.S n) kv txn w -> in_txn n kv txn w.
Proof using Type. intros [H1 (L&H2&H3) H4 H5]. split; [done| |done|done]. exists L. split; [by apply kinv_le|done]. Qed.

Lemma represents_same (kv kv' : TKV) : same_base kv kv' -> represents (base_kv kv) T -> represents (base_kv kv') T.
Proof using Type.
  intros Hb [H1 H2 H3]. split; intros k Hk.
  - destruct (H1 k Hk) as (B&?&?&E). exists B. split_and!; [done|done|]. by rewrite Hb.
  - destruct (H2 k Hk) as (B&?&?&E). exists B. split_and!; [done|done|]. by rewrite Hb.
  - destruct (H3 k Hk) as (B&?&?&?&E). exists B. split_and!; [done|done|done|]. by rewrite Hb.
Qed.

Lemma kinv_labelled n (kv : TKV) L a k : kinv junk level n kv L -> word k -> exists e, labelled level e (L a k).
Proof using Type. intros Hi Hk. destruct (ki_entry _ _ _ _ _ Hi a k Hk) as (e&_&He). by exists e. Qed.

(** *** Updates *)

(** Conflicts do not depend on what the transaction itself has done. *)
Lemma conflict_base txn txn' w a k : TID txn = t -> TID txn' = TID txn -> isolation txn' = isolation txn ->
  conflict (mk_adb H (<[t := w]> logs)) (<[t := txn]> txns) txn a k -> conflict (mk_adb H logs) txns txn' a k.
Proof using Type.
  intros Ht E1 E2. apply conflict_others; [done|done|done|]. cbn. intros t' Hne. rewrite Ht in Hne. by rewrite !lookup_insert_ne by done.
Qed.

(** The entries of a triple have room for the pair. *)
Lemma log_fits_room1 A txns' L txn w s p o a : coherent level A txns' L -> txns' !! TID txn = Some txn ->
  ab_logs A !! TID txn = Some w -> triple_ok (s, p, o) -> log_fits w -> room1 txn (L a (key3 s p o a)).
Proof using Type.
  intros Hc Ht Hw Hok Hfit q Hq Hqt. assert (word (key3 s p o a)) as Hk by apply (key3_ok s p o a Hok).
  destruct (co_pend _ _ _ _ Hc a _ q Hk Hq) as (w'&Hw'&Hto). rewrite Hqt, Hw in Hw'. injection Hw' as <-.
  rewrite (co_writer _ _ _ _ Hc a _ _ _ Hk Hw Hto) in Hq. injection Hq as <-.
  unfold fits, need, entry_pend, log_fits in *. cbn [p_adds p_dels].
  assert (forall l, len (proj a (key3 s p o a) l) <= len l) as Hle.
  { intros l. unfold proj. rewrite length_fmap. pose proof (length_filter (fun t => key_of a t = key3 s p o a) l). lia. }
  pose proof (Hle (w_adds w)). pose proof (Hle (w_dels w)). lia.
Qed.

Lemma update_in_txn ins s p o n kv txn w : in_txn n kv txn w -> triple_ok (s, p, o) -> log_fits w ->
  update_ok txn T H w ins (s, p, o) ->
  exists ret kv' txn', update_txn junk s p o ins (kv, txn) = Some (ret, (kv', txn')) /\ isolation txn' = isolation txn /\
    ((ret = true /\ in_txn n kv' txn' (log_update ins (s, p, o) w) /\ txn_state txn' = txn_state txn) \/
     (ret = false /\ in_txn n kv' txn' w /\ txn_state txn' = ABORTED /\
      exists a, conflict (mk_adb H logs) txns txn a (key_of a (s, p, o)))).
Proof using ESL.
  intros [Htid (L&Hi&Hc) Hva HR] Hok Hfit Hu. set (A := mk_adb H (<[t := w]> logs)) in *.
  assert (Ht : <[t := txn]> txns !! TID txn = Some txn) by (rewrite Htid; apply lookup_insert_eq).
  assert (Hw : ab_logs A !! TID txn = Some w) by (rewrite Htid; apply lookup_insert_eq).
  destruct (co_txn _ _ _ _ Hc _ _ Ht) as (_&Hrun&Ho).
  destruct (update_txn_spec junk level txn Hrun s p o ins n kv L Hi Ho Hok) as (ret&kv'&txn'&Hr&Hb&Hres).
  { intros a. by eapply log_fits_room1. }
  exists ret, kv', txn'. destruct Hres as [(->&Hg&->&Hi'&_)|(->&Hng&(e&->)&Hi'&_)].
  - split_and!; [done|done|left]. split_and!; [done| |done]. split; [done|..].
    + eexists. split; [exact Hi'|].
      pose proof (coherent_update level A _ L Hc (fun a k => kinv_labelled n kv L a k Hi) txn w Ht Hw s p o Hok ins Hg) as Hco.
      rewrite Htid, insert_insert_eq in Hco. cbn [A ab_hist ab_logs] in Hco. rewrite insert_insert_eq in Hco. exact Hco.
    + pose proof (valid_update level A _ L T Hc Hva txn w ins s p o Ht Hw Hok Hg Hu) as Hv.
      rewrite Htid in Hv. cbn [A ab_hist ab_logs] in Hv. by rewrite insert_insert_eq in Hv.
    + by eapply represents_same.
  - split_and!; [done|done|right].
    assert (Hcf : exists a, conflict (mk_adb H logs) txns txn a (key_of a (s, p, o))).
    { assert (Hone : forall a, ~ grantable txn a (key3 s p o a) L -> exists a, conflict (mk_adb H logs) txns txn a (key_of a (s, p, o))).
      { intros a Hn. exists a. apply (conflict_base txn txn w); [done..|]. destruct (kinv_labelled n kv L a (key3 s p o a) Hi) as (x&Hx); [apply (key3_ok s p o a Hok)|].
        rewrite <- key3_of. by eapply (refused_conflict level A _ L); [exact Hc|apply (key3_ok s p o a Hok)|..]. }
      destruct Hng as [Hn|[Hn|Hn]]; [apply (Hone Pre Hn)|apply (Hone Sub Hn)|apply (Hone Obj Hn)]. }
    split_and!; [done| |done|done]. split; [done| |done|by eapply represents_same].
    exists L. split; [done|]. pose proof (coherent_meta level A _ L txn (SetState ABORTED (SetErrorType e txn)) Hc Ht) as Hm.
    rewrite Htid, insert_insert_eq in Hm. by apply Hm.
Qed.

(** The transaction that the client knows, and the object that stands for it now. *)
Context (txn0 : Transaction).
Definition same_txn (txn : Transaction) : Prop := TID txn = TID txn0 /\ isolation txn = isolation txn0.

(** After a call the transaction is aborted, it was before or the call was stopped by
    others, or the call was done. *)
Definition after (n : nat) (txn : Transaction) (kv' : TKV) (txn' : Transaction) (w' : wlog) (stop ok : Prop) : Prop :=
  same_txn txn' /\ in_txn n kv' txn' w' /\
  ((txn_state txn' = ABORTED /\ (txn_state txn = ABORTED \/ stop)) \/ (txn_state txn' = txn_state txn /\ ok)).
Abbreviation others_stop := (stopped (mk_adb H logs) txns txn0).

Definition triples_loop (ins : bool) : list triple -> Z -> M (TKV * Transaction) Z :=
  if ins then insert_triples junk else remove_triples junk.

Lemma triples_loop_cons ins s p o ts num st : triples_loop ins ((s, p, o) :: ts) num st =
  (let! ret := update_txn junk s p o ins in triples_loop ins ts (if (ret : bool) then num + 1 else num)) st.
Proof using Type. by destruct ins. Qed.

Lemma updates_in_txn ins ts n kv txn w (k : wlog -> Prop) num : in_txn n kv txn w -> same_txn txn ->
  updates_ok txn0 T H ins ts k w ->
  exists num' kv' txn' w', triples_loop ins ts num (kv, txn) = Some (num', (kv', txn')) /\ k w' /\
    after n txn kv' txn' w' (exists x a, x ∈ ts /\ conflict (mk_adb H logs) txns txn0 a (key_of a x)) (w' = log_updates ins ts w /\ num' = num + len ts).
Proof using ESL.
  revert kv txn w num. induction ts as [|[[s p] o] ts IH]; intros kv txn w num Hin Hsm Hok.
  { exists num, kv, txn, w. split_and!; [by destruct ins|done|]. split_and!; [apply Hsm..|done|]. right.
    split_and!; [done|done|]. cbn. lia. }
  destruct Hok as (Hx&Hfit&Hu&Hyes&Hno). pose proof Hsm as [Htid Hiso].
  assert (Hu' : update_ok txn T H w ins (s, p, o)) by (unfold update_ok in *; by rewrite (gview_same txn0 txn)).
  destruct (update_in_txn ins s p o n kv txn w Hin Hx Hfit Hu') as (ret&kv1&txn1&Hr&Hi1&Hres).
  assert (Hsm1 : in_txn n kv1 txn1 (if ret then log_update ins (s, p, o) w else w) -> same_txn txn1).
  { intros Hin1. split; [|congruence]. rewrite (it_tid _ _ _ _ Hin1), <- Htid. symmetry. apply (it_tid _ _ _ _ Hin). }
  rewrite triples_loop_cons. setoid_rewrite (bindM_eq _ _ _ _ _ Hr).
  destruct Hres as [(->&Hin1&Hst)|(->&Hin1&Hab&Hcf)]; specialize (Hsm1 Hin1).
  - destruct (IH kv1 txn1 _ (num + 1) Hin1 Hsm1 Hyes) as (num'&kv'&txn'&w'&Hr'&Hk&Hs'&Hin'&Hout).
    exists num', kv', txn', w'. split_and!; [done|done|]. split_and!; [apply Hs'..|done|]. rewrite <- Hst.
    destruct Hout as [[? Hb]|(?&->&->)]; [left|right; split_and!; [done|done|]; cbn [length]; lia].
    split; [done|]. destruct Hb as [?|Hb]; [by left|right]. destruct Hb as (y&a&Hy&Hb). exists y, a. split; [by right|done].
  - destruct (IH kv1 txn1 _ num Hin1 Hsm1 Hno) as (num'&kv'&txn'&w'&Hr'&Hk&Hs'&Hin'&Hout).
    exists num', kv', txn', w'. split_and!; [done|done|]. split_and!; [apply Hs'..|done|]. left.
    split; [destruct Hout as [[? _]|[Hxx _]]; [done|by rewrite Hxx]|]. right. destruct Hcf as (a&Ha). exists (s, p, o), a. split; [left|]. revert Ha. apply conflict_others; [by rewrite Htid|by rewrite Hiso|done|by intros].
Qed.

(** *** Reads *)

Section Read.
Context (n : nat) (kv : TKV) (txn : Transaction) (w : wlog) (Hin : in_txn (Datatypes.S n) kv txn w) (Hsm : same_txn txn).
Context (Hfit : reads_fit txn0 T H w).
Abbreviation A := (mk_adb H (<[t := w]> logs)).
Abbreviation V := (gview txn0 T H w).

Lemma treads_after {B} b k (m : M (TKV * Transaction) B) r0 (f : B -> answer) c :
  (forall L, coherent level A (<[t := txn]> txns) L -> kinv junk level (Datatypes.S n) kv L ->
    treads junk level A (<[t := txn]> txns) kv n txn b k m r0 (fun r => answer_ok V c (f r))) -> read_entry_of c = Some (b, k) ->
  exists a kv' txn', answers f m (kv, txn) = Some (a, (kv', txn')) /\ after n txn kv' txn' w (others_stop c) (answer_ok V c a).
Proof using Hin Hsm.
  intros Ht Hbk. destruct Hin as [Htid (L&Hi&Hc) Hva HR]. destruct Hsm as [Hs1 Hs2].
  destruct (Ht L Hc Hi) as (r&kv'&txn'&L'&Hr&Hb&Hi'&Hc'&Ht'&Hout).
  rewrite Htid, insert_insert_eq in Hc'.
  destruct (co_txn _ _ _ _ Hc t txn) as (_&(_&Hl&_)&_); [apply lookup_insert_eq|].
  destruct (co_txn _ _ _ _ Hc' t txn') as (Hid'&(_&Hl'&_)&_); [apply lookup_insert_eq|].
  exists (f r), kv', txn'. split; [unfold answers; by rewrite (bindM_eq _ _ _ _ _ Hr)|]. split_and!.
  - split; [congruence|]. rewrite <- Hs2, Hl, Hl', Hid', Htid. done.
  - split; [done| |done|by eapply represents_same]. by exists L'.
  - destruct Hout as [(Hsr&?&_&Hcf)|[? ?]]; [left|by right]. split; [done|]. right.
    assert (Hstop : IS_SR txn0 = true /\ exists a k, read_entry_of c = Some (a, k) /\ written_by_other (mk_adb H logs) txn0 a k).
    { split; [unfold IS_SR in *; by rewrite <- Hs2|]. exists b, k. split; [done|]. destruct Hcf as (t'&w'&Hne&Hw'&Hto). exists t', w'.
      rewrite Hs1, Htid in *. split; [congruence|]. cbn in Hw'. rewrite lookup_insert_ne in Hw' by congruence. done. }
    unfold stopped. destruct c; try exact Hstop; done.
Qed.

Lemma read_in_txn c : call_pre txn0 c -> (match c with InsertAll _ | RemoveAll _ => False | _ => True end) ->
  exists a kv' txn', run_call enough junk c (kv, txn) = Some (a, (kv', txn')) /\ after n txn kv' txn' w (others_stop c) (answer_ok V c a).
Proof using All.
  intros Hpre Hread. pose proof Hin as [Htid _ Hva HR]. pose proof Hsm as [Hs1 Hs2].
  assert (Hw : ab_logs A !! TID txn = Some w) by (rewrite Htid; apply lookup_insert_eq).
  assert (Ht : <[t := txn]> txns !! TID txn = Some txn) by (rewrite Htid; apply lookup_insert_eq).
  pose proof (gview_same txn0 txn T H w Hs1 Hs2) as HV. unfold reads_fit in Hfit. rewrite <- HV in Hfit.
  assert (Hsr : IS_SR txn = IS_SR txn0) by (unfold IS_SR; by rewrite Hs2).
  destruct c; try done; cbn [call_pre] in Hpre; cbn [run_call];
    (eapply treads_after; [intros L Hc Hi; cbn [answer_ok]; rewrite <- HV|done]).
  - eapply (exist_txn enough junk level Hmem A); try done; apply Hpre.
  - eapply (sub_keys_txn enough junk level Hmem A); try done; apply Hpre.
  - eapply (sub_objs_txn enough junk level Hmem A); try done; apply Hpre.
  - eapply (sub_pre_objs_txn enough junk level Hmem A); try done; apply Hpre.
  - eapply (sub_pairs_txn enough junk level Hmem A); try done; apply Hpre.
  - eapply (obj_keys_txn enough junk level Hmem A); try done; apply Hpre.
  - eapply (obj_subs_txn enough junk level Hmem A); try done; apply Hpre.
  - eapply (obj_pre_subs_txn enough junk level Hmem A); try done; apply Hpre.
  - eapply (obj_pairs_txn enough junk level Hmem A); try done; apply Hpre.
  - eapply (pre_subs_txn enough junk level Hmem A); try done; [apply Hpre|]. rewrite Hsr. apply Hpre.
  - eapply (pre_objs_txn enough junk level Hmem A); try done; [apply Hpre|]. rewrite Hsr. apply Hpre.
  - eapply (pre_pairs_txn enough junk level Hmem A); try done; apply Hpre.
Qed.
End Read.

(** *** The calls of a query *)

Lemma call_in_txn c calls n kv txn w : in_txn (Datatypes.S n) kv txn w -> same_txn txn -> calls_ok txn0 T H (c :: calls) w ->
  exists a kv' txn' w', run_call enough junk c (kv, txn) = Some (a, (kv', txn')) /\ calls_ok txn0 T H calls w' /\
    after n txn kv' txn' w' (others_stop c) (answer_ok (gview txn0 T H w) c a /\ w' = log_call c w).
Proof using ESL Hmem.
  intros Hin Hsm Hok.
  assert (Hupd : forall ins ts, updates_ok txn0 T H ins ts (calls_ok txn0 T H calls) w ->
    c = (if ins then InsertAll ts else RemoveAll ts) ->
    exists a kv' txn' w', run_call enough junk c (kv, txn) = Some (a, (kv', txn')) /\ calls_ok txn0 T H calls w' /\
      after n txn kv' txn' w' (others_stop c) (answer_ok (gview txn0 T H w) c a /\ w' = log_call c w)).
  { intros ins ts Hu ->. destruct (updates_in_txn ins ts n kv txn w _ 0 (in_txn_le _ _ _ _ Hin) Hsm Hu) as (num&kv'&txn'&w'&Hr&Hk&Hs'&Hin'&Hout).
    exists (Count num), kv', txn', w'. split_and!; [|done|].
    - destruct ins; cbn [run_call]; unfold answers; unfold triples_loop in Hr; by rewrite (bindM_eq _ _ _ _ _ Hr).
    - split_and!; [apply Hs'..|done|]. destruct Hout as [?|(?&->&->)]; [left; by destruct ins|right]. by destruct ins. }
  destruct c; try (destruct Hok as (Hpre&Hfit&Hrest); destruct (read_in_txn n kv txn w Hin Hsm Hfit _ Hpre I) as (a&kv'&txn'&Hr&Hs'&Hin'&Hout);
    exists a, kv', txn', w; split_and!; [done|done|]; split_and!; [apply Hs'..|done|]; destruct Hout as [?|[? ?]]; [by left|by right]).
  - by apply (Hupd true _triples).
  - by apply (Hupd false _triples).
Qed.

Lemma run_calls_in_txn calls n kv txn w : in_txn (length calls + n) kv txn w -> same_txn txn -> calls_ok txn0 T H calls w ->
  exists l kv' txn' w', run_calls enough junk calls (kv, txn) = Some (l, (kv', txn')) /\
    after n txn kv' txn' w' (exists c, c ∈ calls /\ others_stop c) (answers_ok txn0 T H w calls l /\ w' = fold_left (fun w c => log_call c w) calls w).
Proof using ESL Hmem.
  revert kv txn w. induction calls as [|c calls IH]; intros kv txn w Hin Hsm Hok.
  { exists [], kv, txn, w. split_and!; [done|]. split_and!; [apply Hsm..|done|]. by right. }
  destruct (call_in_txn c calls (length calls + n) kv txn w Hin Hsm Hok) as (a&kv1&txn1&w1&Hr&Hok1&Hs1&Hin1&Hout1).
  destruct (IH kv1 txn1 w1 Hin1 Hs1 Hok1) as (l&kv'&txn'&w'&Hr'&Hs'&Hin'&Hout').
  exists (a :: l), kv', txn', w'. split.
  { cbn [run_calls]. by rewrite (bindM_eq _ _ _ _ _ Hr), (bindM_eq _ _ _ _ _ Hr'). }
  assert (Hhere : others_stop c -> exists c', c' ∈ c :: calls /\ others_stop c') by (exists c; split; [left|done]).
  assert (Hthere : (exists c', c' ∈ calls /\ others_stop c') -> exists c', c' ∈ c :: calls /\ others_stop c').
  { intros (c'&Hc'&Hk). exists c'. split; [by right|done]. }
  split_and!; [apply Hs'..|done|]. destruct Hout' as [[Hab' Hb']|(Hst&Ha&->)], Hout1 as [[Hab Hb]|(Hst1&Ha1&->)].
  - left. split; [done|]. tauto.
  - left. split; [done|]. rewrite Hst1 in Hb'. tauto.
  - left. split; [congruence|]. tauto.
  - right. split_and!; [congruence|by split|done].
Qed.
End Running.
