(* ===== verification/TxnManagerSpec.v ===== *)
(** * The transaction manager keeps its promises

    The invariant [minv] of a manager over an abstract database: the store holds
    the triples [T], the history and the changes of the running transactions are
    those of [A].  Each call of the manager returns and moves to the abstract
    state it stands for.

    At the end, the states the manager reaches. *)

From S2P Require Import Prelude Util ValueList BatchInsertSpec ValueStore KVstore TripleSet KVget KVbatch Version VersionSpec GLatch Transaction IVEntry IVEntrySpec IVEntrySystem TxnStore TxnStoreSpec TxnLocks TxnHistory TxnSystem TxnRead TxnReadSpec TxnVacuumSpec TxnManager TxnQuery.

(** ** Isolation levels of transactions that do not run *)

Section Levels.
Context {S : Type} `{ESL : EntryStoreLaws S} (junk : nat -> Z).

Lemma labelled_level level level' e l : (forall q, l_pend l = Some q -> level' (p_tid q) = level (p_tid q)) ->
  labelled level e l -> labelled level' e l.
Proof.
  intros Hl [[H1 H2 H3 H4] Hv]. split; [|done]. cbn [ent hist pend hold] in *. split; cbn [ent hist pend hold]; [done|done|..].
  - destruct (l_hold l) as [rs|t]; [done|]. destruct H3 as (Ht&Hle&q&Hq&<-). split_and!; [done| |by exists q].
    by rewrite Hl.
  - intros q Hq Hs. rewrite Hl in Hs by done. by apply H4.
Qed.

Lemma kinv_level level level' n (kv : KVstore (TArray S)) L :
  (forall a k q, word k -> l_pend (L a k) = Some q -> level' (p_tid q) = level (p_tid q)) ->
  kinv junk level n kv L -> kinv junk level' n kv L.
Proof.
  intros Hl [He Hf Hr]. split; [|done|done]. intros a k Hk. destruct (He a k Hk) as (e&He'&Hlab). exists e.
  split; [done|]. eapply labelled_level; [|done]. intros q. by apply Hl.
Qed.

Lemma coherent_level level level' A txns L : (forall t txn, txns !! t = Some txn -> level' t = level t) ->
  coherent level A txns L -> coherent level' A txns L.
Proof.
  intros Hl [H1 H2 H3 H4 H5 H6 H7]. split; try done. intros t txn Ht. destruct (H5 t txn Ht) as (Hid&(Hr1&Hr2&Hr3)&Ho).
  split_and!; [done| |done]. split_and!; [done| |done]. by rewrite Hid, (Hl t txn Ht), <- Hid.
Qed.
End Levels.

(** ** The dirty keys *)

Lemma elem_of_dirty_union ty d sets k : length d = 3%nat -> length sets = 3%nat ->
  k ∈ id_set ty (zip_with (∪) d sets) <-> k ∈ id_set ty d \/ ids_find k ty sets = true.
Proof.
  intros Hd Hs. destruct d as [|d0 [|d1 [|d2 [|]]]]; try done. destruct sets as [|s0 [|s1 [|s2 [|]]]]; try done.
  unfold id_set, ids_find. destruct ty; cbn; rewrite bool_decide_eq_true; set_solver.
Qed.

(** ** The invariant *)

Section Manager.
Context {S : Type} `{ESL : EntryStoreLaws S} (enough : Z -> bool) (junk : nat -> Z).
Context (Hmem : forall n, enough n = true).
Abbreviation TM := (Txn_manager S).

Definition running (tm : TM) : gmap Z Transaction := filter (fun kv => txn_state kv.2 = RUNNING) (txn_table tm).

Record minv (n : nat) (T : triples) (A : adb) (tm : TM) : Prop := {
  mi_labels : exists level L, kinv junk level n (tm_kv tm) L /\ coherent level A (running tm) L;
  mi_base : represents (base_kv (tm_kv tm)) T;
  mi_valid : valid T A;
  mi_cnt : 0 < cnt tm < INVALID_ID;
  mi_ids t txn : txn_table tm !! t = Some txn -> 0 < t < cnt tm;
  mi_commits : Forall (fun c => 0 <= g_id c <= cnt tm) (ab_hist A);
  mi_logs t : is_Some (ab_logs A !! t) -> is_Some (running tm !! t);
  mi_lock : checkpoint_lock tm = Z.of_nat (base.size (running tm));
  mi_dirty_len : length (DirtyKeys tm) = 3%nat;
  mi_dirty c a k : c ∈ ab_hist A -> touches a k (g_log c) -> k ∈ id_set (ty_of a) (DirtyKeys tm);
  mi_dirty_ok a k : k ∈ id_set (ty_of a) (DirtyKeys tm) -> key_ok a k;
  mi_committed : 0 <= committed_num tm < 50000 }.

Lemma running_Some tm t txn : running tm !! t = Some txn <-> txn_table tm !! t = Some txn /\ txn_state txn = RUNNING.
Proof using Type. unfold running. by rewrite map_lookup_filter_Some. Qed.

Lemma running_insert tm t txn : txn_state txn = RUNNING ->
  running (set_table (<[t := txn]> (txn_table tm)) tm) = <[t := txn]> (running tm).
Proof using Type. intros Hr. unfold running. cbn. by rewrite map_filter_insert_True. Qed.

Lemma running_insert_not tm t txn : txn_state txn <> RUNNING ->
  running (set_table (<[t := txn]> (txn_table tm)) tm) = delete t (running tm).
Proof using Type. intros Hr. unfold running. cbn. rewrite map_filter_insert_False by done. by rewrite map_filter_delete. Qed.

(** A manager on a store that holds [T], before any transaction. *)
Lemma Txn_manager_new_ok n kv T : kv_room n (base_kv kv) -> represents (base_kv kv) T ->
  (forall sl, ta_entries (get_slot kv sl) = ∅) -> minv n T (mk_adb [] ∅) (Txn_manager_new kv).
Proof using Type.
  intros Hr HR He. assert (running (Txn_manager_new kv) = ∅) as Hrun by (unfold running; cbn; by rewrite map_filter_empty).
  split.
  - exists (fun _ => SNAPSHOT), (fun _ _ => fresh_label). split.
    + split; [|done|done]. intros a k Hk. pose proof (allocVersionTransation_spec junk) as Ha.
      unfold entry_at, arr. cbn [tm_kv Txn_manager_new]. rewrite He, lookup_empty. destruct (allocVersionTransation junk) as [e|]; [|done].
      exists e. split; [done|]. destruct Ha as [Heo Hg]. split; [|by left]. split; cbn; [done|by rewrite Hg|by split; constructor|done].
    + rewrite Hrun. split; try done.
      intros a k rs t _ [= <-] Hin. by apply elem_of_nil in Hin.
  - done.
  - split; cbn; [done|apply map_Forall_empty| |apply map_Forall_empty]. intros c Hc. by apply elem_of_nil in Hc.
  - done.
  - done.
  - constructor.
  - by intros t [? ?].
  - by rewrite Hrun, map_size_empty.
  - done.
  - intros c a k Hc. by apply elem_of_nil in Hc.
  - intros a k. unfold id_set. by destruct a; cbn; intros ?%elem_of_empty.
  - done.
Qed.

(** ** Begin *)

Lemma Begin_spec lvl n T A tm : minv n T A tm -> cnt tm + 1 < INVALID_ID ->
  exists tm', Begin lvl tm = Some (cnt tm, tm') /\ cnt tm' = cnt tm + 1 /\
    running tm !! cnt tm = None /\
    minv n T (mk_adb (ab_hist A) (<[cnt tm := no_writes]> (ab_logs A))) tm' /\
    exists txn, txn_table tm' = <[cnt tm := txn]> (txn_table tm) /\ txn_state txn = RUNNING /\ TID txn = cnt tm /\
      isolation txn = (match lvl with INVALID_LEVEL => SNAPSHOT | l => l end).
Proof using ESL.
  intros Hm Hcnt. pose proof Hm as [(level&L&Hi&Hc) HR Hva Hcn Hids Hco Hlogs Hlock Hdl Hd Hdk Hcom].
  set (t := cnt tm) in *. set (txn := SetState RUNNING (SetCommitID t (Transaction_new t t lvl))).
  assert (Hnone : txn_table tm !! t = None).
  { destruct (txn_table tm !! t) as [x|] eqn:E; [|done]. apply Hids in E. lia. }
  assert (Hnr : running tm !! t = None).
  { destruct (running tm !! t) as [x|] eqn:E; [|done]. apply running_Some in E as [E _]. congruence. }
  assert (Hnl : ab_logs A !! t = None).
  { destruct (ab_logs A !! t) as [x|] eqn:E; [|done]. destruct (Hlogs t) as [y Hy]; [by eexists|]. congruence. }
  unfold INVALID_ID, W64 in *.
  set (tm' := set_table (<[t := txn]> (txn_table tm)) (set_cnt (t + 1) (set_lock (checkpoint_lock tm + 1) tm))).
  assert (Hrun' : running tm' = <[t := txn]> (running tm)) by (unfold running, tm'; cbn; by rewrite map_filter_insert_True).
  exists tm'. split_and!; [|done|done| |].
  - unfold Begin, lock_shared, ArrangeTID, mod_M, add_transaction, bindM. cbn [mbind option_bind].
    unfold INVALID_ID, W64. cbn [cnt set_lock]. fold t. rewrite (proj2 (Z.eqb_neq _ _)) by lia.
    unfold mod_M. cbn [mbind option_bind txn_table set_cnt set_lock cnt]. fold t. rewrite Hnone. rewrite u64_small by (unfold W64; lia). done.
  - set (lv := match lvl with INVALID_LEVEL => SNAPSHOT | l => l end).
    assert (Hrest : forall t' x, running tm !! t' = Some x -> t' <> t) by (intros t' x Hx ->; congruence).
    split; cbn [ab_hist ab_logs]; try done.
    + exists (fun t' => if decide (t' = t) then lv else level t'), L. split.
      * eapply kinv_level; [|exact Hi]. intros a k q Hk Hq. destruct (co_pend _ _ _ _ Hc a k q Hk Hq) as (w&Hw&_).
        rewrite decide_False; [done|]. intros E. rewrite E in Hw. congruence.
      * rewrite Hrun'. apply (coherent_begin _ A (running tm) L txn); try done.
        -- eapply coherent_level; [|exact Hc]. intros t' x Hx. rewrite decide_False; [done|by eapply Hrest].
        -- unfold runs_in. cbn [txn TID SetState SetCommitID Transaction_new isolation]. rewrite decide_True by done.
           split_and!; [|done|by destruct lvl]. unfold tid_ok, INVALID_TID, W64. lia.
        -- intros a k. unfold WriteSetFind, ReadSetFind, ids_find. by destruct a.
    + by apply valid_begin.
    + cbn. unfold INVALID_ID, W64. lia.
    + cbn. intros t' x [[<- _]|[_ Hx]]%lookup_insert_Some; [lia|]. apply Hids in Hx. lia.
    + eapply Forall_impl; [exact Hco|]. cbn. intros c ?. lia.
    + intros t' [w Hw]. rewrite Hrun'. apply lookup_insert_Some in Hw as [[<- _]|[Hne Hw]]; [rewrite lookup_insert_eq; by eexists|].
      rewrite lookup_insert_ne by done. apply Hlogs. by eexists.
    + rewrite Hrun', map_size_insert_None by done. cbn. lia.
  - exists txn. by split_and!.
Qed.

(** ** The end of a transaction *)

Section Ending.
Context (level : Z -> IsolationLevelType) (T : triples) (H : list gcommit) (logs : gmap Z wlog) (txns : gmap Z Transaction) (t : Z).
Abbreviation in_txn := (in_txn junk level T H logs txns t).

(** What is left when [t] has ended. *)
Definition ended (n : nat) (kv : KVstore (TArray S)) (H' : list gcommit) : Prop :=
  (exists L, kinv junk level n kv L /\ coherent level (mk_adb H' (delete t logs)) (delete t txns) L) /\
  valid T (mk_adb H' (delete t logs)) /\ represents (base_kv kv) T.

Lemma TransactionRollback_spec n kv txn w : in_txn n kv txn w ->
  exists kv', TransactionRollback junk (kv, txn) = Some (tt, (kv', txn)) /\ ended n kv' H.
Proof using ESL.
  intros [Htid (L&Hi&Hc) Hva HR]. set (A := mk_adb H (<[t := w]> logs)) in *.
  assert (Ht : <[t := txn]> txns !! TID txn = Some txn) by (rewrite Htid; apply lookup_insert_eq).
  assert (Hw : ab_logs A !! TID txn = Some w) by (rewrite Htid; apply lookup_insert_eq).
  destruct (co_txn _ _ _ _ Hc _ _ Ht) as (_&Hrun&Ho).
  destruct (TransactionInvalid_spec junk level txn Hrun n kv L Hi Ho) as (kv'&Hr&Hb&Hi').
  exists kv'. split; [unfold TransactionRollback; by rewrite (bindM_eq _ _ _ _ _ Hr)|]. split_and!.
  - eexists. split; [exact Hi'|].
    pose proof (coherent_end level A _ L Hc (fun a k => kinv_labelled junk level n kv L a k Hi) txn w Ht Hw false) as He.
    rewrite Htid, delete_insert_eq in He. cbn [A ab_logs ab_hist end_hist end_post] in He. by rewrite delete_insert_eq in He.
  - pose proof (valid_abort A T Hva t) as Hv. cbn [A ab_hist ab_logs] in Hv. by rewrite delete_insert_eq in Hv.
  - by eapply represents_same.
Qed.

Lemma TransactionCommit_spec n kv txn w : in_txn n kv txn w -> 0 <= CommitID txn < INVALID_TS ->
  Forall (fun c => g_id c <= CommitID txn) H ->
  exists kv', TransactionCommit junk (kv, txn) = Some (tt, (kv', txn)) /\ ended n kv' (H ++ [mk_gcommit (CommitID txn) w]).
Proof using ESL.
  intros [Htid (L&Hi&Hc) Hva HR] Hcid Hall. set (A := mk_adb H (<[t := w]> logs)) in *.
  assert (Ht : <[t := txn]> txns !! TID txn = Some txn) by (rewrite Htid; apply lookup_insert_eq).
  assert (Hw : ab_logs A !! TID txn = Some w) by (rewrite Htid; apply lookup_insert_eq).
  destruct (co_txn _ _ _ _ Hc _ _ Ht) as (_&Hrun&Ho).
  destruct (ReleaseAllLocks_spec junk level txn Hrun n kv L Hi Ho Hcid) as (kv'&Hr&Hb&Hi').
  { intros a k Hk _. rewrite (co_hist _ _ _ _ Hc) by done. apply (entry_hist_Forall a k H (fun c => c <= CommitID txn)); [lia|done]. }
  exists kv'. split; [unfold TransactionCommit; by rewrite (bindM_eq _ _ _ _ _ Hr)|]. split_and!.
  - eexists. split; [exact Hi'|].
    pose proof (coherent_end level A _ L Hc (fun a k => kinv_labelled junk level n kv L a k Hi) txn w Ht Hw true) as He.
    rewrite Htid, delete_insert_eq in He. cbn [A ab_logs ab_hist end_hist end_post] in He. by rewrite delete_insert_eq in He.
  - pose proof (valid_commit level A _ L T Hc Hva t w (mk_gcommit (CommitID txn) w)) as Hv.
    cbn [A ab_hist ab_logs g_log] in Hv. rewrite delete_insert_eq in Hv. apply Hv; [apply lookup_insert_eq|done].
  - by eapply represents_same.
Qed.

(** The keys a transaction has written. *)
Lemma written_keys n (kv : KVstore (TArray S)) txn w a k : in_txn n kv txn w -> in_writes txn a k = true <-> touches a k w.
Proof using Type.
  intros [Htid (L&Hi&Hc) Hva _]. set (A := mk_adb H (<[t := w]> logs)) in *.
  assert (Ht : <[t := txn]> txns !! TID txn = Some txn) by (rewrite Htid; apply lookup_insert_eq).
  assert (Hw : ab_logs A !! TID txn = Some w) by (rewrite Htid; apply lookup_insert_eq).
  destruct (co_txn _ _ _ _ Hc _ _ Ht) as (_&_&Ho). split.
  - intros Hiw. apply (in_writes_touches _ _ _ _ a k _ _ _ Hc Ht Hw); [|done]. apply (ow_ids _ _ Ho a k). by left.
  - intros Hto. apply (in_writes_touches _ _ _ _ a k _ _ _ Hc Ht Hw); [|done].
    destruct Hto as (x&Hx&<-). apply triple_key_word. by apply (va_logs_ok _ _ Hva _ _ Hw).
Qed.

Lemma touched_key_ok w a k : log_ok w -> touches a k w -> key_ok a k.
Proof using Type. intros Hok (x&Hx&<-). specialize (Hok x Hx). destruct x as [[s p] o]. destruct Hok as (?&?&?). by destruct a. Qed.
End Ending.

(** The transaction of a running id. *)
Lemma minv_in_txn n T A tm t txn : minv n T A tm -> txn_table tm !! t = Some txn -> txn_state txn = RUNNING ->
  exists level w, ab_logs A !! t = Some w /\
    in_txn junk level T (ab_hist A) (ab_logs A) (running tm) t n (tm_kv tm) txn w.
Proof using Type.
  intros [(level&L&Hi&Hc) HR Hva _ _ _ _ _ _ _ _ _] Ht Hst. assert (running tm !! t = Some txn) as Hr by (by apply running_Some).
  destruct (co_log _ _ _ _ Hc _ _ Hr) as [w Hw]. destruct (co_txn _ _ _ _ Hc _ _ Hr) as (Hid&_&_).
  exists level, w. split; [done|]. rewrite <- (insert_id (ab_logs A) t w Hw), <- (insert_id (running tm) t txn Hr).
  destruct A as [H logs]. cbn [ab_hist ab_logs] in *. split; [done| |by rewrite insert_insert_eq, insert_id|done].
  exists L. split; [done|]. by rewrite !insert_insert_eq, !insert_id.
Qed.

(** The manager after a call on a running transaction that goes on. *)
Lemma in_txn_minv n n' T A tm t txn level kv' txn' w' : minv n T A tm -> txn_table tm !! t = Some txn -> txn_state txn = RUNNING ->
  in_txn junk level T (ab_hist A) (ab_logs A) (running tm) t n' kv' txn' w' -> txn_state txn' = RUNNING ->
  minv n' T (mk_adb (ab_hist A) (<[t := w']> (ab_logs A))) (set_table (<[t := txn']> (txn_table tm)) (set_kv kv' tm)).
Proof using Type.
  intros [_ _ _ Hcn Hids Hco Hlogs Hlock Hdl Hd Hdk Hcom] Ht Hst [_ Hl Hva HR] Hst'.
  assert (Hr : running (set_table (<[t := txn']> (txn_table tm)) (set_kv kv' tm)) = <[t := txn']> (running tm)).
  { unfold running. cbn. by rewrite map_filter_insert_True. }
  assert (Hrt : running tm !! t = Some txn) by (by apply running_Some).
  split; try done.
  - exists level. rewrite Hr. exact Hl.
  - cbn. intros t' x [[<- _]|[_ Hx]]%lookup_insert_Some; by eapply Hids.
  - intros t' [x Hx]. rewrite Hr. cbn [ab_logs] in Hx. apply lookup_insert_Some in Hx as [[<- _]|[Hne Hx]];
      [rewrite lookup_insert_eq; by eexists|]. rewrite lookup_insert_ne by done. apply Hlogs. by eexists.
  - rewrite Hr, map_size_insert_Some by done. exact Hlock.
Qed.

(** The manager after the end of a transaction. *)
Lemma ended_minv n n' T A tm tm' t txn txn' level H' : minv n T A tm -> txn_table tm !! t = Some txn -> txn_state txn = RUNNING ->
  ended level T (ab_logs A) (running tm) t n' (tm_kv tm') H' -> txn_state txn' <> RUNNING ->
  cnt tm' = cnt tm -> txn_table tm' = <[t := txn']> (txn_table tm) -> checkpoint_lock tm' = checkpoint_lock tm - 1 ->
  Forall (fun c => 0 <= g_id c <= cnt tm) H' -> length (DirtyKeys tm') = 3%nat ->
  (forall c a k, c ∈ H' -> touches a k (g_log c) -> k ∈ id_set (ty_of a) (DirtyKeys tm')) ->
  (forall a k, k ∈ id_set (ty_of a) (DirtyKeys tm') -> key_ok a k) -> 0 <= committed_num tm' < 50000 ->
  minv n' T (mk_adb H' (delete t (ab_logs A))) tm'.
Proof using Type.
  intros [_ _ _ Hcn Hids Hco Hlogs Hlock _ _ _ _] Ht Hst (Hl&Hva&HR) Hst' Ec Et El Hids' Hdl Hd Hdk Hcom.
  assert (Hr : running tm' = delete t (running tm)).
  { unfold running. rewrite Et, map_filter_insert_False by done. by rewrite map_filter_delete. }
  assert (Hrt : running tm !! t = Some txn) by (by apply running_Some).
  split; try done.
  - exists level. by rewrite Hr.
  - by rewrite Ec.
  - intros t' x. rewrite Et, Ec. intros [[<- _]|[_ Hx]]%lookup_insert_Some; by eapply Hids.
  - by rewrite Ec.
  - intros t' [x Hx]. rewrite Hr. cbn [ab_logs] in Hx. apply lookup_delete_Some in Hx as [Hne Hx].
    rewrite lookup_delete_ne by done. apply Hlogs. by eexists.
  - rewrite Hr, El, Hlock, (map_size_delete_Some t (running tm)) by (by eexists).
    assert (base.size (running tm) <> 0%nat); [|lia]. intros E. apply map_size_empty_iff in E. rewrite E in Hrt. done.
Qed.

Lemma Abort_in_txn n n' T A tm t txn level kv1 txn1 w1 : minv n T A tm -> txn_table tm !! t = Some txn -> txn_state txn = RUNNING ->
  in_txn junk level T (ab_hist A) (ab_logs A) (running tm) t n' kv1 txn1 w1 ->
  exists tm', Abort junk t (set_table (<[t := txn1]> (txn_table tm)) (set_kv kv1 tm)) = Some (0, tm') /\
    txn_state <$> txn_table tm' !! t = Some ABORTED /\ cnt tm' = cnt tm /\
    minv n' T (mk_adb (ab_hist A) (delete t (ab_logs A))) tm'.
Proof using ESL.
  intros Hm Ht Hst Hin. destruct (TransactionRollback_spec _ _ _ _ _ _ _ _ _ _ Hin) as (kv2&Hr&He).
  set (tm1 := set_table (<[t := txn1]> (txn_table tm)) (set_kv kv1 tm)).
  set (tm2 := set_lock (checkpoint_lock tm - 1) (set_table (<[t := SetState ABORTED txn1]> (txn_table tm)) (set_kv kv2 tm))).
  exists tm2. split_and!.
  - unfold Abort. rewrite (bindM_eq (get_transaction t) _ _ (Some txn1) tm1).
    2: { unfold get_transaction, tm1. cbn. by rewrite lookup_insert_eq. }
    rewrite (bindM_eq _ _ _ tt (set_table (<[t := SetState ABORTED txn1]> (txn_table tm)) (set_kv kv2 tm))); [done|].
    unfold on_txn, tm1. cbn [txn_table set_table tm_kv set_kv]. rewrite lookup_insert_eq. cbn [mbind option_bind].
    rewrite (bindM_eq _ _ _ _ _ Hr). cbn. by rewrite insert_insert_eq.
  - unfold tm2. cbn. by rewrite lookup_insert_eq.
  - done.
  - pose proof Hm as [_ _ _ _ _ Hco _ _ Hdl Hd Hdk Hcom].
    by apply (ended_minv n n' T A tm tm2 t txn (SetState ABORTED txn1) level).
Qed.

(** A running transaction is rolled back: its change is forgotten. *)
Lemma Rollback_spec n T A tm t txn : minv n T A tm -> txn_table tm !! t = Some txn -> txn_state txn = RUNNING ->
  exists tm', manager_Rollback junk t tm = Some (0, tm') /\ txn_state <$> txn_table tm' !! t = Some ABORTED /\ cnt tm' = cnt tm /\
    minv n T (mk_adb (ab_hist A) (delete t (ab_logs A))) tm'.
Proof using ESL.
  intros Hm Ht Hst. destruct (minv_in_txn n T A tm t txn Hm Ht Hst) as (level&w&Hw&Hin).
  destruct (Abort_in_txn n n T A tm t txn level _ _ _ Hm Ht Hst Hin) as (tm'&Hr&Hs&Hc&Hm'). exists tm'. split_and!; try done.
  unfold manager_Rollback. rewrite (bindM_eq (get_transaction t) _ _ (Some txn) tm) by (unfold get_transaction; by rewrite Ht).
  rewrite (bool_decide_eq_false_2 (txn_state txn <> RUNNING)) by tauto.
  rewrite insert_id in Hr by done. by destruct tm.
Qed.

(** A query is answered from the view of the transaction, or the transaction is
    aborted because others stopped one of its calls. *)
Lemma Query_spec n T A tm t txn w calls ret_val : minv (length calls + n) T A tm -> txn_table tm !! t = Some txn ->
  txn_state txn = RUNNING -> ab_logs A !! t = Some w -> calls_ok txn T (ab_hist A) calls w ->
  exists code l tm', Query enough junk t calls ret_val tm = Some ((code, l), tm') /\ cnt tm' = cnt tm /\
    ((code = -20 /\ l = [] /\ txn_state <$> txn_table tm' !! t = Some ABORTED /\
      (exists c, c ∈ calls /\ stopped A (running tm) txn c) /\
      minv n T (mk_adb (ab_hist A) (delete t (ab_logs A))) tm') \/
     (code = ret_val l /\ answers_ok txn T (ab_hist A) w calls l /\ txn_state <$> txn_table tm' !! t = Some RUNNING /\
      minv n T (mk_adb (ab_hist A) (<[t := fold_left (fun w c => log_call c w) calls w]> (ab_logs A))) tm')).
Proof using ESL Hmem.
  intros Hm Ht Hst Hw Hok. destruct (minv_in_txn _ T A tm t txn Hm Ht Hst) as (level&w'&Hw'&Hin).
  rewrite Hw in Hw'. injection Hw' as <-.
  destruct (run_calls_in_txn enough junk level Hmem T _ _ _ t txn calls n _ txn w Hin (conj eq_refl eq_refl) Hok)
    as (l&kv1&txn1&w1&Hr&Hs1&Hin1&Hout).
  unfold Query. rewrite (bindM_eq (get_transaction t) _ _ (Some txn) tm) by (unfold get_transaction; by rewrite Ht).
  rewrite (bool_decide_eq_false_2 (txn_state txn <> RUNNING)) by tauto.
  set (tm1 := set_table (<[t := txn1]> (txn_table tm)) (set_kv kv1 tm)).
  rewrite (bindM_eq _ _ _ l tm1) by (unfold on_txn; rewrite Ht; cbn [mbind option_bind]; by rewrite Hr).
  rewrite (bindM_eq (get_transaction t) _ _ (Some txn1) tm1) by (unfold get_transaction, tm1; cbn; by rewrite lookup_insert_eq).
  case_bool_decide as Hab.
  { destruct (Abort_in_txn _ n T A tm t txn level _ _ _ Hm Ht Hst Hin1) as (tm'&Hr'&Hs'&Hc'&Hm').
    exists (-20), [], tm'. split_and!; [by rewrite (bindM_eq _ _ _ _ _ Hr')|done|]. left. split_and!; [done..| |done].
    destruct Hout as [[_ [?|(c&Hc&Hcf)]]|[Hx _]]; [congruence| |cbn in Hab; congruence].
    exists c. split; [done|]. by destruct A. }
  destruct Hout as [[Hab' _]|(Hst1&Ha&->)]; [cbn in Hab; congruence|]. rewrite Hst in Hst1.
  assert (Hin2 : forall v, in_txn junk level T (ab_hist A) (ab_logs A) (running tm) t n kv1 (add_update_num v txn1)
      (fold_left (fun w c => log_call c w) calls w)).
  { intros v. destruct Hin1 as [Htid (L&Hi1&Hc1) Hva1 HR1]. split; [done| |done|done]. exists L. split; [done|].
    pose proof (coherent_meta level _ _ L txn1 (add_update_num v txn1) Hc1) as Hmeta.
    rewrite Htid, lookup_insert_eq, insert_insert_eq in Hmeta. by apply Hmeta. }
  destruct (Z.ltb_spec (ret_val l) (-1)).
  - exists (ret_val l), l, tm1. split_and!; [done|done|]. right. split_and!; [done|done|unfold tm1; cbn; rewrite lookup_insert_eq; cbn; by f_equal|].
    by apply (in_txn_minv (length calls + n) n T A tm t txn level).
  - exists (ret_val l), l, (set_table (<[t := add_update_num (ret_val l) txn1]> (txn_table tm)) (set_kv kv1 tm)). split_and!; [|done|].
    { rewrite (bindM_eq _ _ _ tt (set_table (<[t := add_update_num (ret_val l) txn1]> (txn_table tm)) (set_kv kv1 tm))); [done|].
      unfold on_txn, tm1. cbn [txn_table set_table set_kv tm_kv]. rewrite lookup_insert_eq. cbn. by rewrite insert_insert_eq. }
    right. split_and!; [done|done|cbn; rewrite lookup_insert_eq; cbn; by f_equal|].
    by apply (in_txn_minv (length calls + n) n T A tm t txn level).
Qed.

(** A commit appends the change of the transaction to the history, with the next
    id of the counter; every 50000 commits a checkpoint is due. *)
Lemma commit_txn_spec n T A tm t txn w : minv n T A tm -> txn_table tm !! t = Some txn -> txn_state txn = RUNNING ->
  ab_logs A !! t = Some w ->
  exists tm', commit_txn junk t tm = Some ((0, committed_num tm =? 49999), tm') /\
    txn_state <$> txn_table tm' !! t = Some COMMITTED /\ cnt tm' = cnt tm /\
    minv n T (mk_adb (ab_hist A ++ [mk_gcommit (cnt tm) w]) (delete t (ab_logs A))) tm'.
Proof using ESL.
  intros Hm Ht Hst Hw. destruct (minv_in_txn n T A tm t txn Hm Ht Hst) as (level&w'&Hw'&Hin).
  rewrite Hw in Hw'. injection Hw' as <-. pose proof Hm as [_ _ _ Hcn _ Hco _ _ Hdl Hd Hdk Hcom].
  set (txn1 := SetCommitID (cnt tm) txn).
  assert (Hin1 : in_txn junk level T (ab_hist A) (ab_logs A) (running tm) t n (tm_kv tm) txn1 w).
  { destruct Hin as [Htid (L&Hi&Hc) Hva HR]. split; [done| |done|done]. exists L. split; [done|].
    pose proof (coherent_meta level _ _ L txn txn1 Hc) as Hmeta.
    rewrite Htid, lookup_insert_eq, insert_insert_eq in Hmeta. by apply Hmeta. }
  destruct (TransactionCommit_spec _ _ _ _ _ _ _ _ txn1 w Hin1) as (kv2&Hr&He).
  { cbn. unfold INVALID_ID, INVALID_TS in *. lia. }
  { eapply Forall_impl; [exact Hco|]. intros c [_ Hle]. exact Hle. }
  set (tm1 := set_table (<[t := SetState COMMITTED txn1]> (txn_table tm)) (set_kv kv2 tm)).
  set (tm2 := set_lock (checkpoint_lock tm - 1) (set_dirty (zip_with (∪) (DirtyKeys tm) (WriteSet txn1)) tm1)).
  set (num := if committed_num tm =? 49999 then 0 else committed_num tm + 1).
  exists (set_committed num tm2). split_and!.
  - unfold commit_txn. rewrite (bindM_eq (get_transaction t) _ _ (Some txn) tm) by (unfold get_transaction; by rewrite Ht).
    rewrite (bool_decide_eq_false_2 (txn_state txn <> RUNNING)) by tauto.
    rewrite (bindM_eq ArrangeCommitID _ _ (cnt tm) tm) by done.
    rewrite (bindM_eq _ _ _ (SetState COMMITTED txn1) tm1).
    2: { unfold on_txn. rewrite Ht. cbn [mbind option_bind].
         rewrite (bindM_eq (txn_mod _) _ _ tt (tm_kv tm, txn1)) by done. by rewrite (bindM_eq _ _ _ _ _ Hr). }
    rewrite (bindM_eq (add_dirty_keys _) _ _ tt (set_dirty (zip_with (∪) (DirtyKeys tm) (WriteSet txn1)) tm1)) by done.
    rewrite (bindM_eq unlock_shared _ _ tt tm2) by done.
    rewrite (bindM_eq (mod_M _) _ _ tt (set_committed (committed_num tm + 1) tm2)) by done. cbn [committed_num set_committed].
    unfold num. destruct (Z.eqb_spec (committed_num tm) 49999) as [E|E].
    + by rewrite (proj2 (Z.eqb_eq (committed_num tm + 1) 50000)) by lia.
    + by rewrite (proj2 (Z.eqb_neq (committed_num tm + 1) 50000)) by lia.
  - cbn. by rewrite lookup_insert_eq.
  - done.
  - assert (Hwl : length (WriteSet txn1) = 3%nat).
    { destruct Hin1 as [Htid (L&_&Hc) _ _]. destruct (co_txn _ _ _ _ Hc t txn1) as (_&_&Ho); [apply lookup_insert_eq|].
      apply (ow_wf _ _ Ho). }
    assert (Hkeys : forall a k, ids_find k (ty_of a) (WriteSet txn1) = true <-> touches a k w).
    { intros a k. apply (written_keys level T (ab_hist A) (ab_logs A) (running tm) t n (tm_kv tm) txn1 w a k Hin1). }
    apply (ended_minv n n T A tm (set_committed num tm2) t txn (SetState COMMITTED txn1) level); try done.
    + apply Forall_app. split; [done|]. apply Forall_singleton. cbn. lia.
    + cbn [DirtyKeys set_committed set_lock set_dirty tm2]. by rewrite length_zip_with, Hdl, Hwl.
    + cbn [DirtyKeys set_committed set_lock set_dirty tm2]. intros c a k Hc Hto. apply elem_of_dirty_union; [done..|].
      apply elem_of_app in Hc as [Hc|Hc%list_elem_of_singleton]; [left; by eapply Hd|right]. subst c. by apply Hkeys.
    + cbn [DirtyKeys set_committed set_lock set_dirty tm2]. intros a k [Hk|Hk]%elem_of_dirty_union; [by apply Hdk| |done|done].
      apply (touched_key_ok w); [|by apply Hkeys]. apply (va_logs_ok _ _ (mi_valid _ _ _ _ Hm) t w Hw).
    + unfold num. cbn. destruct (Z.eqb_spec (committed_num tm) 49999); lia.
Qed.

(** ** The checkpoint *)

Definition dirty_count (tm : TM) : nat :=
  (base.size (id_set SUBJECT (DirtyKeys tm)) + base.size (id_set PREDICATE (DirtyKeys tm)) +
   base.size (id_set OBJECT (DirtyKeys tm)))%nat.

(** While transactions run the checkpoint waits; otherwise the history is merged
    into the stored triples. *)
Lemma Checkpoint_waits cid (tm : TM) : checkpoint_lock tm <> 0 -> Checkpoint enough junk cid tm = Some (false, tm).
Proof using Type. intros Hl. unfold Checkpoint. by rewrite (proj2 (Z.eqb_neq _ _)). Qed.

Lemma Checkpoint_spec cid n T A tm : minv (2 * dirty_count tm + n) T A tm -> checkpoint_lock tm = 0 ->
  12 * (Z.of_nat (base.size T) + Z.of_nat (base.size (greplay (ab_hist A) T))) + 24 < W31 ->
  12 * Z.of_nat (base.size (greplay (ab_hist A) T)) + 24 < vs_limit S ->
  exists tm', Checkpoint enough junk cid tm = Some (true, tm') /\ txn_table tm' = txn_table tm /\ cnt tm' = cnt tm /\
    minv n (greplay (ab_hist A) T) (mk_adb [] ∅) tm'.
Proof using ESL Hmem.
  intros Hm Hlk Hs1 Hs2. pose proof Hm as [(level&L&Hi&Hc) HR Hva Hcn Hids Hco Hlogs Hlock Hdl Hd Hdk Hcom].
  assert (Hrun : running tm = ∅) by (apply map_size_empty_iff; lia).
  assert (Hnl : ab_logs A = ∅).
  { apply map_empty. intros t. destruct (ab_logs A !! t) eqn:E; [|done]. destruct (Hlogs t) as [x Hx]; [by eexists|].
    by rewrite Hrun in Hx. }
  set (objs := elements (id_set OBJECT (DirtyKeys tm))).
  assert (Hq : forall a k, word k -> l_pend (L a k) = None).
  { intros a k Hk. destruct (l_pend (L a k)) as [q|] eqn:Hq; [|done].
    destruct (co_pend _ _ _ _ Hc a k q Hk Hq) as (w&Hw&_). by rewrite Hnl in Hw. }
  destruct (IVArrayVacuum_spec enough junk level Hmem cid T (ab_hist A) L (co_hist _ _ _ _ Hc) Hq (va_hist _ _ Hva)
    (va_hist_ok _ _ Hva) Hs1 Hs2 n (tm_kv tm) (elements (id_set SUBJECT (DirtyKeys tm))) (filter (fun k => is_entity_ele k = true) objs)
    (filter (fun k => is_entity_ele k <> true) objs) (elements (id_set PREDICATE (DirtyKeys tm)))) as (kv'&Hr&HR'&Hi'); try done.
  - pose proof (Permutation_length (filter_app_complement (fun k => is_entity_ele k = true) objs)) as Hp.
    rewrite length_app in Hp. unfold dirty_count in Hi.
    assert (length objs = base.size (id_set OBJECT (DirtyKeys tm))) as Ho by done.
    match goal with |- kinv _ _ ?m _ _ => replace m with (2 * (base.size (id_set SUBJECT (DirtyKeys tm)) +
      base.size (id_set PREDICATE (DirtyKeys tm)) + base.size (id_set OBJECT (DirtyKeys tm))) + n)%nat; [exact Hi|] end.
    change (length (elements (id_set SUBJECT (DirtyKeys tm)))) with (base.size (id_set SUBJECT (DirtyKeys tm))).
    change (length (elements (id_set PREDICATE (DirtyKeys tm)))) with (base.size (id_set PREDICATE (DirtyKeys tm))). lia.
  - rewrite Forall_forall. intros k Hk%elem_of_elements. by apply (Hdk Sub).
  - rewrite Forall_forall. intros k [He Hk%elem_of_elements]%list_elem_of_filter. split; [by apply (Hdk Obj)|].
    unfold is_entity_ele, is_literal_ele in *. lia.
  - rewrite Forall_forall. intros k [He Hk%elem_of_elements]%list_elem_of_filter. split; [by apply (Hdk Obj)|].
    unfold is_entity_ele, is_literal_ele in *. lia.
  - rewrite Forall_forall. intros k Hk%elem_of_elements. by apply (Hdk Pre).
  - intros c a k Hc' Hto. pose proof (Hd c a k Hc' Hto) as Hk. destruct a; [by apply elem_of_elements..|].
    rewrite !list_elem_of_filter. unfold objs. rewrite elem_of_elements. destruct (decide (is_entity_ele k = true)); [by left|by right].
  - exists (set_kv kv' tm). split_and!; [|done|done|].
    { unfold Checkpoint. rewrite Hlk. cbn [Z.eqb negb]. fold objs. by rewrite Hr. }
    split; try done.
    + exists level, (fun a k => cleaned (L a k)). split; [done|]. change (running (set_kv kv' tm)) with (running tm). rewrite Hrun.
      split; try done. intros a k rs t Hk Hh Hin. destruct (co_holder _ _ _ _ Hc a k rs t Hk Hh Hin) as (x&Hx&_). by rewrite Hrun in Hx.
    + split; cbn; [done|apply map_Forall_empty| |apply map_Forall_empty]. intros c Hc'. by apply elem_of_nil in Hc'.
    + by intros t [? ?].
    + intros c a k Hc'. by apply elem_of_nil in Hc'.
Qed.
End Manager.

(** * Executions of the manager

    The states that a manager reaches from a fresh one by the calls of its
    clients, each step with its effect on the abstract database and with the
    triples that were committed when each running transaction began.  Every
    reachable state satisfies the invariant, and the snapshot of a transaction
    stays the database of its begin. *)

Section Reach.
Context {S : Type} `{ESL : EntryStoreLaws S} (enough : Z -> bool) (junk : nat -> Z).
Context (Hmem : forall n, enough n = true).
Abbreviation TM := (Txn_manager S).
Abbreviation committed A T := (greplay (ab_hist A) T).

(** A running transaction of the table. *)
Definition runs (tm : TM) (t : Z) (txn : Transaction) : Prop := txn_table tm !! t = Some txn /\ txn_state txn = RUNNING.
Definition state_of (tm : TM) (t : Z) : option TransactionState := txn_state <$> txn_table tm !! t.

(** [reach n T A B tm]: the manager [tm] with room for [n] more accesses to the
    arrays; [T] are the stored triples, [A] the abstract database, [B] the
    committed triples at the begin of each transaction. *)
Inductive reach : nat -> triples -> adb -> gmap Z triples -> TM -> Prop :=
  | reach_new n T kv : kv_room n (base_kv kv) -> represents (base_kv kv) T ->
      (forall sl, ta_entries (get_slot kv sl) = ∅) -> reach n T (mk_adb [] ∅) ∅ (Txn_manager_new kv)
  | reach_begin n T A B tm lvl t tm' : reach n T A B tm -> cnt tm + 1 < INVALID_ID ->
      Begin lvl tm = Some (t, tm') ->
      reach n T (mk_adb (ab_hist A) (<[t := no_writes]> (ab_logs A))) (<[t := committed A T]> B) tm'
  | reach_query n T A B tm t txn w calls ret_val r tm' : reach (length calls + n) T A B tm -> runs tm t txn ->
      ab_logs A !! t = Some w -> calls_ok txn T (ab_hist A) calls w ->
      Query enough junk t calls ret_val tm = Some (r, tm') -> state_of tm' t = Some RUNNING ->
      reach n T (mk_adb (ab_hist A) (<[t := fold_left (fun w c => log_call c w) calls w]> (ab_logs A))) B tm'
  | reach_query_aborted n T A B tm t txn w calls ret_val r tm' : reach (length calls + n) T A B tm -> runs tm t txn ->
      ab_logs A !! t = Some w -> calls_ok txn T (ab_hist A) calls w ->
      Query enough junk t calls ret_val tm = Some (r, tm') -> state_of tm' t = Some ABORTED ->
      reach n T (mk_adb (ab_hist A) (delete t (ab_logs A))) B tm'
  | reach_rollback n T A B tm t txn r tm' : reach n T A B tm -> runs tm t txn ->
      manager_Rollback junk t tm = Some (r, tm') ->
      reach n T (mk_adb (ab_hist A) (delete t (ab_logs A))) B tm'
  | reach_commit n T A B tm t txn w r tm' : reach n T A B tm -> runs tm t txn ->
      ab_logs A !! t = Some w -> commit_txn junk t tm = Some (r, tm') ->
      reach n T (mk_adb (ab_hist A ++ [mk_gcommit (cnt tm) w]) (delete t (ab_logs A))) B tm'
  | reach_checkpoint n T A B tm cid tm' : reach (2 * dirty_count tm + n) T A B tm ->
      12 * (Z.of_nat (base.size T) + Z.of_nat (base.size (committed A T))) + 24 < W31 ->
      12 * Z.of_nat (base.size (committed A T)) + 24 < vs_limit S ->
      Checkpoint enough junk cid tm = Some (true, tm') ->
      reach n (committed A T) (mk_adb [] ∅) B tm'.

(** The snapshots of the running transactions. *)
Definition snapshots (T : triples) (A : adb) (B : gmap Z triples) (tm : TM) : Prop :=
  forall t txn, runs tm t txn -> B !! t = Some (greplay (gsnapshot t (ab_hist A)) T).

Lemma gsnapshot_all t H : Forall (fun c => g_id c <= t) H -> gsnapshot t H = H.
Proof using Type.
  unfold gsnapshot. induction 1 as [|c H Hc _ IH]; [done|]. by rewrite filter_cons, decide_True, IH.
Qed.

Lemma gsnapshot_later t H c : t < g_id c -> gsnapshot t (H ++ [c]) = gsnapshot t H.
Proof using Type.
  intros Hlt. unfold gsnapshot. rewrite filter_app. rewrite (filter_cons _ c), decide_False by lia. apply app_nil_r.
Qed.

Lemma runs_running tm t txn : runs tm t txn <-> running tm !! t = Some txn.
Proof using Type. unfold runs. by rewrite running_Some. Qed.

(** Who runs after a step was there before. *)
Lemma snapshots_mono T A B tm A' tm' : snapshots T A B tm ->
  (forall t txn, runs tm' t txn -> exists txn', runs tm t txn') ->
  (forall t txn, runs tm' t txn -> gsnapshot t (ab_hist A') = gsnapshot t (ab_hist A)) -> snapshots T A' B tm'.
Proof using Type.
  intros Hs Hr Hg t txn Ht. destruct (Hr t txn Ht) as (txn'&Ht'). rewrite (Hg t txn Ht). by eapply Hs.
Qed.

Lemma logs_run n T A tm t : minv junk n T A tm -> is_Some (ab_logs A !! t) <-> exists txn, runs tm t txn.
Proof using Type.
  intros Hm. split.
  - intros Hl. destruct (mi_logs _ _ _ _ _ Hm t Hl) as [x Hx]. exists x. by apply runs_running.
  - intros (txn&Hr%runs_running). destruct (mi_labels _ _ _ _ _ Hm) as (level&L&_&Hc). by eapply (co_log _ _ _ _ Hc).
Qed.

Lemma ran_before n n' T T' A A' tm tm' t txn : minv junk n T A tm -> minv junk n' T' A' tm' ->
  (is_Some (ab_logs A' !! t) -> is_Some (ab_logs A !! t)) -> runs tm' t txn -> exists x, runs tm t x.
Proof using Type.
  intros Hm Hm' Hl Hr. apply (logs_run n T A tm t Hm), Hl, (logs_run n' T' A' tm' t Hm'). by exists txn.
Qed.

Lemma is_Some_delete {X} (m : gmap Z X) t t' : is_Some (delete t m !! t') -> is_Some (m !! t').
Proof using Type. intros [x [_ Hx]%lookup_delete_Some]. by eexists. Qed.

Lemma reach_inv n T A B tm : reach n T A B tm -> minv junk n T A tm /\ snapshots T A B tm.
Proof using ESL Hmem.
  induction 1 as [n T kv Hr HR He|n T A B tm lvl t tm' _ [Hm Hs] Hc Hb|n T A B tm t txn w calls rv r tm' _ [Hm Hs] [Ht Hst] Hw Hok Hq Hrun
    |n T A B tm t txn w calls rv r tm' _ [Hm Hs] [Ht Hst] Hw Hok Hq Hab|n T A B tm t txn r tm' _ [Hm Hs] [Ht Hst] Hr
    |n T A B tm t txn w r tm' _ [Hm Hs] [Ht Hst] Hw Hcm|n T A B tm cid tm' _ [Hm Hs] H1 H2 Hck].
  - split; [by apply Txn_manager_new_ok|]. intros t txn [Ht _]. done.
  - destruct (Begin_spec junk lvl n T A tm Hm Hc) as (tm1&Hb1&_&Hnr&Hm'&_). rewrite Hb1 in Hb. injection Hb as <- <-. split; [done|].
    intros t' txn' Hr'. destruct (decide (t' = cnt tm)) as [->|Hne].
    + rewrite lookup_insert_eq. cbn [ab_hist]. rewrite gsnapshot_all; [done|]. eapply Forall_impl; [apply (mi_commits _ _ _ _ _ Hm)|].
      by intros c [_ ?].
    + rewrite lookup_insert_ne by done. cbn [ab_hist]. assert (is_Some (<[cnt tm := no_writes]> (ab_logs A) !! t')) as Hl.
      { apply (logs_run n T _ tm1 t' Hm'). by exists txn'. }
      rewrite lookup_insert_ne in Hl by done. apply (logs_run n T A tm t' Hm) in Hl as (x&Hx). by apply (Hs t' x).
  - destruct (Query_spec enough junk Hmem n T A tm t txn w calls rv Hm Ht Hst Hw Hok) as (code&l&tm1&Hq1&_&Hout).
    rewrite Hq1 in Hq. injection Hq as <- <-. unfold state_of in Hrun.
    destruct Hout as [(_&_&Hx&_)|(_&_&_&Hm')]; [congruence|]. split; [done|]. eapply snapshots_mono; [done| |done].
    intros t' txn' Hr'. eapply ran_before; [exact Hm|exact Hm'| |exact Hr']. cbn [ab_logs].
    intros [x [[<- _]|[_ Hx]]%lookup_insert_Some]; by eexists.
  - destruct (Query_spec enough junk Hmem n T A tm t txn w calls rv Hm Ht Hst Hw Hok) as (code&l&tm1&Hq1&_&Hout).
    rewrite Hq1 in Hq. injection Hq as <- <-. unfold state_of in Hab.
    destruct Hout as [(_&_&_&_&Hm')|(_&_&Hx&_)]; [|congruence]. split; [done|]. eapply snapshots_mono; [done| |done].
    intros t' txn' Hr'. eapply ran_before; [exact Hm|exact Hm'|apply is_Some_delete|exact Hr'].
  - destruct (Rollback_spec junk n T A tm t txn Hm Ht Hst) as (tm1&Hr1&_&_&Hm').
    rewrite Hr1 in Hr. injection Hr as <- <-. split; [done|]. eapply snapshots_mono; [done| |done].
    intros t' txn' Hr'. eapply ran_before; [exact Hm|exact Hm'|apply is_Some_delete|exact Hr'].
  - destruct (commit_txn_spec junk n T A tm t txn w Hm Ht Hst Hw) as (tm1&Hc1&_&Hcnt&Hm').
    rewrite Hc1 in Hcm. injection Hcm as <- <-. split; [done|]. eapply snapshots_mono; [done|..].
    + intros t' txn' Hr'. eapply ran_before; [exact Hm|exact Hm'|apply is_Some_delete|exact Hr'].
    + intros t' txn' [Hr' _]. cbn [ab_hist]. apply gsnapshot_later. cbn.
      destruct (mi_ids _ _ _ _ _ Hm' t' txn' Hr') as [_ Hlt]. by rewrite Hcnt in Hlt.
  - assert (Hl : checkpoint_lock tm = 0).
    { destruct (decide (checkpoint_lock tm = 0)); [done|]. by rewrite Checkpoint_waits in Hck. }
    destruct (Checkpoint_spec enough junk Hmem cid n T A tm Hm Hl H1 H2) as (tm1&Hc1&_&_&Hm').
    rewrite Hc1 in Hck. injection Hck as <-. split; [done|].
    intros t' txn' Hr'. destruct (proj2 (logs_run n _ _ tm1 t' Hm')) as [x Hx]; [by exists txn'|done].
Qed.
End Reach.
