(* ===== verification/TxnTheorems.v ===== *)
(** * Theorems on transactions

    What the transaction manager and the transactional half of the store promise
    their clients, for every state the manager reaches. *)

From S2P Require Import Prelude Util ValueList BatchInsertSpec ValueStore KVstore TripleSet KVget KVbatch Version VersionSpec GLatch Transaction IVEntry IVEntrySpec IVEntrySystem TxnStore TxnStoreSpec TxnLocks TxnHistory TxnSystem TxnRead TxnReadSpec TxnVacuumSpec TxnManager TxnQuery TxnManagerSpec.

(** The answers of the calls of a query on the triples [X], each with the changes
    of the calls before. *)
Fixpoint answers_from (X : triples) (w : wlog) (calls : list call) (l : list answer) : Prop :=
  match calls, l with
  | [], [] => True
  | c :: calls', a :: l' => answer_ok (log_effect w X) c a /\ answers_from X (log_call c w) calls' l'
  | _, _ => False
  end.

Lemma answers_ok_from txn T H w calls l : answers_ok txn T H w calls l <->
  answers_from (greplay (if IS_RC txn then H else gsnapshot (TID txn) H) T) w calls l.
Proof.
  revert w l. induction calls as [|c calls IH]; intros w [|a l]; try done. cbn [answers_ok answers_from].
  rewrite IH. unfold gview. by destruct (IS_RC txn).
Qed.

(** ** A small execution *)

Definition ex_enough : Z -> bool := fun _ => true.
Definition ex_junk : nat -> Z := fun _ => 0.
Definition ex_array : TArray mstore := mk_TArray (mk_mstore ∅ 0) ∅.
Definition ex_kv : KVstore (TArray mstore) := mkKV ex_array ex_array ex_array ex_array.
Definition ex_ret (l : list answer) : Z := -100.

Definition ex_new : Txn_manager mstore := Txn_manager_new ex_kv.
(** A snapshot transaction [1] and one that reads committed changes, [2]; [2] adds a
    triple and commits. *)
Definition ex_after {A} (m : M (Txn_manager mstore) A) (tm : Txn_manager mstore) : Txn_manager mstore :=
  match m tm with Some (_, tm') => tm' | None => tm end.
Definition ex_begun1 := ex_after (Begin SNAPSHOT) ex_new.
Definition ex_begun2 := ex_after (Begin READ_COMMITTED) ex_begun1.
Definition ex_calls : list call := [InsertAll [(1, 5, 2)]; SubPairs 1].
Definition ex_queried := ex_after (Query ex_enough ex_junk 2 ex_calls ex_ret) ex_begun2.
Definition ex_committed := ex_after (commit_txn ex_junk 2) ex_queried.

Lemma ex_represents : represents (base_kv ex_kv) ∅.
Proof.
  apply represents_encodes. intros a k Hk. assert (kv_lookup (base_kv ex_kv) a k = None) as ->.
  { unfold kv_lookup. by destruct (route a k) as [[] ?]. }
  apply encodes_opt_none. apply set_eq. intros y. rewrite elem_of_pairs_of. set_solver.
Qed.

Lemma ex_reach_new n : reach ex_enough ex_junk n ∅ (mk_adb [] ∅) ∅ ex_new.
Proof.
  apply reach_new; [|apply ex_represents|by intros []]. intros []; intros k v Hk; cbn in Hk; by rewrite lookup_empty in Hk.
Qed.

(** The changes of the two transactions. *)
Definition ex_logs (w : wlog) : gmap Z wlog := <[2 := w]> (<[1 := no_writes]> ∅).
Definition ex_began : gmap Z triples := <[2 := ∅]> (<[1 := ∅]> ∅).
Definition ex_change : wlog := mk_wlog [(1, 5, 2)] [].

Lemma ex_reach_begun n : reach ex_enough ex_junk n ∅ (mk_adb [] (ex_logs no_writes)) ex_began ex_begun2.
Proof.
  assert (H1 : reach ex_enough ex_junk n ∅ (mk_adb [] (<[1 := no_writes]> ∅)) (<[1 := ∅]> ∅) ex_begun1).
  { refine (reach_begin ex_enough ex_junk n ∅ (mk_adb [] ∅) ∅ ex_new SNAPSHOT 1 ex_begun1 (ex_reach_new n) _ _); by vm_compute. }
  refine (reach_begin ex_enough ex_junk n ∅ (mk_adb [] (<[1 := no_writes]> ∅)) (<[1 := ∅]> ∅) ex_begun1 READ_COMMITTED 2 ex_begun2 H1 _ _);
    by vm_compute.
Qed.

Lemma ex_triple_ok : triple_ok (1, 5, 2).
Proof. repeat split; vm_compute; congruence. Qed.

Definition ex_txn (tm : Txn_manager mstore) (t : Z) : Transaction := default (Transaction_new 0 0 SNAPSHOT) (txn_table tm !! t).

Lemma ex_calls_ok : calls_ok (ex_txn ex_begun2 2) ∅ [] ex_calls no_writes.
Proof.
  assert (Hread : forall w, base.size (gview (ex_txn ex_begun2 2) ∅ [] w) = 0%nat \/ base.size (gview (ex_txn ex_begun2 2) ∅ [] w) = 1%nat ->
    call_pre (ex_txn ex_begun2 2) (SubPairs 1) /\ reads_fit (ex_txn ex_begun2 2) ∅ [] w /\ True).
  { intros w Hw. split; [by split; [word_lia|]|]. split; [|done]. unfold reads_fit. rewrite size_empty. unfold W31. lia. }
  cbn [calls_ok ex_calls updates_ok]. refine (conj ex_triple_ok (conj _ (conj _ (conj _ _)))); [done| | |].
  - refine (bool_decide_unpack (update_ok (ex_txn ex_begun2 2) ∅ [] no_writes true (1, 5, 2)) _). by vm_compute.
  - apply Hread. right. by vm_compute.
  - apply Hread. left. by vm_compute.
Qed.

Lemma ex_reach_queried n : reach ex_enough ex_junk n ∅ (mk_adb [] (ex_logs ex_change)) ex_began ex_queried.
Proof.
  assert (ex_logs ex_change = <[2 := ex_change]> (ex_logs no_writes)) as -> by (symmetry; apply insert_insert_eq).
  refine (reach_query ex_enough ex_junk n ∅ (mk_adb [] (ex_logs no_writes)) ex_began ex_begun2 2 (ex_txn ex_begun2 2) no_writes ex_calls ex_ret
    (-100, [Count 1; Found (Some [5; 2])]) ex_queried (ex_reach_begun _) _ _ ex_calls_ok _ _); by vm_compute.
Qed.

Lemma ex_reach_committed n : reach ex_enough ex_junk n ∅ (mk_adb [mk_gcommit 3 ex_change] (<[1 := no_writes]> ∅)) ex_began ex_committed.
Proof.
  assert (<[1 := no_writes]> ∅ = delete 2 (ex_logs ex_change)) as -> by (unfold ex_logs; by rewrite delete_insert_id).
  refine (reach_commit ex_enough ex_junk n ∅ (mk_adb [] (ex_logs ex_change)) ex_began ex_queried 2 (ex_txn ex_queried 2) ex_change
    (0, false) ex_committed (ex_reach_queried n) _ _ _); by vm_compute.
Qed.

(** ** The manager *)

Section Theorems.
Context {S : Type} `{ESL : EntryStoreLaws S} (enough : Z -> bool) (junk : nat -> Z).
Context (Hmem : forall n, enough n = true).
Abbreviation TM := (Txn_manager S).
Abbreviation reach := (reach (S := S) enough junk).
Abbreviation committed A T := (greplay (ab_hist A) T).

(** C1. Isolation, for clients that keep to [calls_ok] (they insert only triples they
    do not see and have not removed, remove only triples they see, and a serializable
    transaction does not ask for the subjects or the objects of a predicate): in every
    state such clients bring the manager to, a query of a running transaction returns.
    Either others stop one of its calls -- an update meets a conflict, or a read of a
    serializable transaction an entry that another one writes -- and the transaction
    is aborted, or each call is answered from one set of triples for the whole
    transaction -- for a snapshot or serializable transaction the triples [X] that were
    committed when it began, otherwise all committed ones -- with the transaction's own
    changes so far on top, whatever other running transactions have written. *)
Theorem query_isolated n T A B (tm : TM) t txn w X calls ret_val :
  reach (length calls + n) T A B tm -> runs tm t txn -> ab_logs A !! t = Some w -> B !! t = Some X ->
  calls_ok txn T (ab_hist A) calls w ->
  exists code l tm', Query enough junk t calls ret_val tm = Some ((code, l), tm') /\
    ((state_of tm' t = Some ABORTED /\ code = -20 /\ l = [] /\ exists c, c ∈ calls /\ stopped A (running tm) txn c) \/
     (state_of tm' t = Some RUNNING /\ code = ret_val l /\
      answers_from (if IS_RC txn then committed A T else X) w calls l)).
Proof using ESL Hmem.
  intros Hre Hrun Hw HX Hok. destruct (reach_inv enough junk Hmem _ _ _ _ _ Hre) as [Hm Hs]. pose proof Hrun as [Ht Hst].
  rewrite (Hs t txn Hrun) in HX. injection HX as <-.
  destruct (Query_spec enough junk Hmem n T A tm t txn w calls ret_val Hm Ht Hst Hw Hok) as (code&l&tm'&Hq&_&Hout).
  exists code, l, tm'. split; [done|]. destruct Hout as [(->&->&Hab&Hstop&_)|(->&Ha&Hr&_)]; [left; by split_and!|right]. split_and!; [done..|].
  apply answers_ok_from in Ha. destruct (mi_labels _ _ _ _ _ Hm) as (level&L&_&Hc).
  destruct (co_txn _ _ _ _ Hc t txn) as (Hid&_&_); [by apply runs_running|]. rewrite Hid in Ha. by destruct (IS_RC txn).
Qed.

(** C2. In every state that clients which keep to [calls_ok] bring the manager to (no
    serializable transaction has asked for the subjects or the objects of a predicate)
    a commit of a running transaction succeeds: the committed triples change by exactly
    the transaction's change, and no running transaction's snapshot changes.  The second part of the result says whether a checkpoint is due. *)
Theorem commit_succeeds n T A B (tm : TM) t txn w :
  reach n T A B tm -> runs tm t txn -> ab_logs A !! t = Some w ->
  exists tm', commit_txn junk t tm = Some ((0, committed_num tm =? 49999), tm') /\ state_of tm' t = Some COMMITTED /\
    let A' := mk_adb (ab_hist A ++ [mk_gcommit (cnt tm) w]) (delete t (ab_logs A)) in
    reach n T A' B tm' /\ committed A' T = log_effect w (committed A T) /\
    (forall t' txn', runs tm' t' txn' -> t' <> t /\ greplay (gsnapshot t' (ab_hist A')) T = greplay (gsnapshot t' (ab_hist A)) T).
Proof using ESL Hmem.
  intros Hre Hrun Hw. destruct (reach_inv enough junk Hmem _ _ _ _ _ Hre) as [Hm Hs]. pose proof Hrun as [Ht Hst].
  destruct (commit_txn_spec junk n T A tm t txn w Hm Ht Hst Hw) as (tm'&Hc&Hs'&Hcnt&Hm').
  exists tm'. split_and!; [done|done|]. cbv zeta. split_and!; [by eapply reach_commit|cbn [ab_hist]; by rewrite greplay_app|].
  intros t' txn' [Hr' Hst']. split; [intros ->; unfold state_of in Hs'; rewrite Hr' in Hs'; cbn in Hs'; congruence|].
  cbn [ab_hist]. rewrite gsnapshot_later; [done|]. cbn. destruct (mi_ids _ _ _ _ _ Hm' t' txn' Hr') as [_ Hlt]. by rewrite Hcnt in Hlt.
Qed.

(** C3. In every state that clients which keep to [calls_ok] bring the manager to (no
    serializable transaction has asked for the subjects or the objects of a predicate)
    a rollback of a running transaction succeeds; the committed triples are what they
    were, and nothing of the change is left. *)
Theorem rollback_succeeds n T A B (tm : TM) t txn :
  reach n T A B tm -> runs tm t txn ->
  exists tm', manager_Rollback junk t tm = Some (0, tm') /\ state_of tm' t = Some ABORTED /\
    reach n T (mk_adb (ab_hist A) (delete t (ab_logs A))) B tm'.
Proof using ESL Hmem.
  intros Hre Hrun. destruct (reach_inv enough junk Hmem _ _ _ _ _ Hre) as [Hm Hs]. pose proof Hrun as [Ht Hst].
  destruct (Rollback_spec junk n T A tm t txn Hm Ht Hst) as (tm'&Hr&Hs'&_&_). exists tm'. split_and!; [done|done|].
  by eapply reach_rollback.
Qed.

(** C4. In every state that clients which keep to [calls_ok] bring the manager to (no
    serializable transaction has asked for the subjects or the objects of a predicate),
    an insertion or removal of a triple by a running transaction is refused exactly when there is a conflict on one of its three entries that the transaction
    has not written yet: another running transaction writes the entry, a change that a
    snapshot or serializable transaction does not see was committed to it, or, for a
    serializable transaction, another serializable transaction has read it.  The stored
    values do not change either way. *)
Theorem update_refused_iff_conflict n T A B (tm : TM) t txn w ins s p o :
  reach n T A B tm -> runs tm t txn -> ab_logs A !! t = Some w -> triple_ok (s, p, o) -> log_fits w ->
  exists ret kv' txn',
    update_txn junk s p o ins (tm_kv tm, txn) = Some (ret, (kv', txn')) /\
    (ret = true <-> forall a, touches a (key_of a (s, p, o)) w \/ ~ conflict A (running tm) txn a (key_of a (s, p, o))) /\
    (ret = false -> txn_state txn' = ABORTED) /\ same_base (tm_kv tm) kv'.
Proof using ESL Hmem.
  intros Hre Hrun Hw Hok Hfit. destruct (reach_inv enough junk Hmem _ _ _ _ _ Hre) as [Hm Hs]. pose proof Hrun as [Ht Hst].
  destruct (minv_in_txn junk n T A tm t txn Hm Ht Hst) as (level&w'&Hw'&[Htid (L&Hi&Hc) Hva HR]).
  rewrite Hw in Hw'. injection Hw' as <-. assert (Hrt : running tm !! t = Some txn) by (by apply runs_running).
  rewrite (insert_id (running tm) t txn Hrt), (insert_id (ab_logs A) t w Hw) in *. subst t.
  assert (HA : mk_adb (ab_hist A) (ab_logs A) = A) by (by destruct A). rewrite HA in *.
  destruct (co_txn _ _ _ _ Hc _ _ Hrt) as (_&Hrn&Ho).
  destruct (update_txn_spec junk level txn Hrn s p o ins n (tm_kv tm) L Hi Ho Hok) as (ret&kv'&txn'&Hr&Hb&Hres).
  { intros a. by eapply log_fits_room1. }
  exists ret, kv', txn'. split; [exact Hr|].
  assert (Hgc : forall a, grantable txn a (key_of a (s, p, o)) L <->
    touches a (key_of a (s, p, o)) w \/ ~ conflict A (running tm) txn a (key_of a (s, p, o))).
  { intros a. destruct (kinv_labelled junk level n (tm_kv tm) L a (key_of a (s, p, o)) Hi) as (e&He);
      [by apply triple_key_word|]. apply (grantable_conflict level A (running tm) L a _ txn e w); try done.
    rewrite <- key3_of. by apply key3_ok. }
  assert (Hg3 : grantable3 txn s p o L <-> forall a, grantable txn a (key_of a (s, p, o)) L).
  { split; [intros (?&?&?) []; done|]. intros Ha. split_and!; [apply (Ha Pre)|apply (Ha Sub)|apply (Ha Obj)]. }
  split_and!; [|by destruct Hres as [(->&_)|(->&_&(e&->)&_)]|done].
  setoid_rewrite <- Hgc. rewrite <- Hg3. destruct Hres as [(->&?&_)|(->&Hr3&_)]; [done|]. split; [done|]. intros (?&?&?). by destruct Hr3 as [|[|]].
Qed.

(** C5. If clients keep to [calls_ok] -- the code does not check that they insert only
    triples they do not see and remove only triples they see -- then whatever other
    transactions commit in between, the change of a running transaction adds only
    triples that are not committed now and removes only triples that are committed
    now; no two
    running transactions have written the same entry; and no change that a snapshot or
    serializable transaction does not see was committed to an entry it has written (no
    update is lost). *)
Theorem no_lost_updates n T A B (tm : TM) t txn w :
  reach n T A B tm -> runs tm t txn -> ab_logs A !! t = Some w ->
  log_effective w (committed A T) /\
  (forall t' w' a k, t' <> t -> ab_logs A !! t' = Some w' -> touches a k w -> ~ touches a k w') /\
  (IS_RC txn = false -> forall c a k, c ∈ ab_hist A -> touches a k w -> touches a k (g_log c) -> g_id c <= t).
Proof using ESL Hmem.
  intros Hre Hrun Hw. destruct (reach_inv enough junk Hmem _ _ _ _ _ Hre) as [Hm Hs].
  destruct (mi_labels _ _ _ _ _ Hm) as (level&L&Hi&Hc). pose proof (mi_valid _ _ _ _ _ Hm) as Hva.
  assert (Hword : forall a k, touches a k w -> word k).
  { intros a k (x&Hx&<-). apply triple_key_word. by apply (va_logs_ok _ _ Hva _ _ Hw). }
  apply runs_running in Hrun. destruct (co_txn _ _ _ _ Hc _ _ Hrun) as (Hid&_&_). split_and!.
  - by apply (va_logs _ _ Hva t w).
  - intros t' w' a k Hne Hw' H1 H2. pose proof (co_writer _ _ _ _ Hc a k _ _ (Hword a k H1) Hw H1) as E1.
    pose proof (co_writer _ _ _ _ Hc a k _ _ (Hword a k H1) Hw' H2) as E2. rewrite E1 in E2. by injection E2.
  - intros Hrc c a k Hin H1 H2. pose proof (Hword a k H1) as Hk.
    pose proof (co_sees _ _ _ _ Hc a k t txn Hrun Hrc Hk (proj2 (writes_touches _ _ _ _ _ _ _ _ _ Hc Hrun Hw Hk) H1)) as Hf.
    rewrite (co_hist _ _ _ _ Hc a k Hk), Forall_forall in Hf.
    apply (Hf (mk_commit (g_id c) (proj a k (w_adds (g_log c))) (proj a k (w_dels (g_log c))))). right.
    apply list_elem_of_omap. exists c. split; [done|]. unfold proj_commit. by rewrite decide_True.
Qed.

(** C6. A checkpoint waits while transactions run; otherwise it stores exactly the
    committed triples in the value lists, drops the versions, and leaves the committed
    triples as they were. *)
Theorem checkpoint_stores_committed cid n T A B (tm : TM) :
  reach (2 * dirty_count tm + n) T A B tm ->
  12 * (Z.of_nat (base.size T) + Z.of_nat (base.size (committed A T))) + 24 < W31 ->
  12 * Z.of_nat (base.size (committed A T)) + 24 < vs_limit S ->
  ((exists t txn, runs tm t txn) -> Checkpoint enough junk cid tm = Some (false, tm)) /\
  ((forall t txn, ~ runs tm t txn) -> exists tm', Checkpoint enough junk cid tm = Some (true, tm') /\
     represents (base_kv (tm_kv tm')) (committed A T) /\ reach n (committed A T) (mk_adb [] ∅) B tm').
Proof using ESL Hmem.
  intros Hre Hs1 Hs2. destruct (reach_inv enough junk Hmem _ _ _ _ _ Hre) as [Hm Hs]. pose proof (mi_lock _ _ _ _ _ Hm) as Hl. split.
  - intros (t&txn&Hr%runs_running). apply Checkpoint_waits. rewrite Hl. intros E.
    assert (running tm = ∅) as E' by (apply map_size_empty_iff; lia). by rewrite E' in Hr.
  - intros Hn. assert (running tm = ∅) as E.
    { apply map_empty. intros t. destruct (running tm !! t) as [x|] eqn:Ex; [|done]. by apply runs_running in Ex; destruct (Hn t x). }
    rewrite E, map_size_empty in Hl.
    destruct (Checkpoint_spec enough junk Hmem cid n T A tm Hm Hl Hs1 Hs2) as (tm'&Hc&_&_&Hm'). exists tm'.
    split_and!; [done|apply (mi_base _ _ _ _ _ Hm')|by eapply reach_checkpoint].
Qed.

(** C22. The life of a transaction ends once: a call that names an unknown id, or a
    transaction that is not running, returns an error code and changes nothing. *)
Theorem ended_transactions_rejected cid t calls ret_val (tm : TM) :
  match txn_table tm !! t with
  | None => Commit enough junk cid t tm = Some ((-1, false), tm) /\ manager_Rollback junk t tm = Some (-1, tm) /\
            Query enough junk t calls ret_val tm = Some ((-1, []), tm)
  | Some txn => txn_state txn <> RUNNING ->
            Commit enough junk cid t tm = Some ((1, false), tm) /\ manager_Rollback junk t tm = Some (1, tm) /\
            Query enough junk t calls ret_val tm = Some ((-99, []), tm)
  end.
Proof using Type.
  unfold Commit, commit_txn, manager_Rollback, Query, get_transaction, bindM. cbn [mbind option_bind].
  destruct (txn_table tm !! t) as [txn|]; [|done]. intros Hst. by rewrite bool_decide_eq_true_2.
Qed.
End Theorems.

(** ** Witnesses *)

(** C1 at the example: the snapshot transaction 1 does not see the triple that 2
    committed, and is not aborted. *)
Theorem query_isolated_witness : exists l tm',
  Query ex_enough ex_junk 1 [SubPairs 1] ex_ret ex_committed = Some ((-100, l), tm') /\
    state_of tm' 1 = Some RUNNING /\ answers_from ∅ no_writes [SubPairs 1] l.
Proof.
  destruct (query_isolated ex_enough ex_junk (fun _ => eq_refl) 0 ∅ (mk_adb [mk_gcommit 3 ex_change] (<[1 := no_writes]> ∅)) ex_began
    ex_committed 1 (ex_txn ex_committed 1) no_writes ∅ [SubPairs 1] ex_ret (ex_reach_committed _)) as (code&l&tm'&Hq&Hout);
    [by vm_compute|by vm_compute|by vm_compute| |].
  - split; [by split; [word_lia|]|]. split; [|done].
    assert (base.size (gview (ex_txn ex_committed 1) ∅ [mk_gcommit 3 ex_change] no_writes) = 0%nat) as E by (by vm_compute).
    unfold reads_fit. cbn [ab_hist]. rewrite E, size_empty. unfold W31; lia.
  - destruct Hout as [(_&_&_&c&->%list_elem_of_singleton&Hsr&_)|(Hst&->&Ha)].
    + vm_compute in Hsr. discriminate Hsr.
    + exists l, tm'. exact (conj Hq (conj Hst Ha)).
Defined.

Theorem commit_succeeds_witness : exists tm', commit_txn ex_junk 2 ex_queried = Some ((0, false), tm') /\ state_of tm' 2 = Some COMMITTED.
Proof.
  destruct (commit_succeeds ex_enough ex_junk (fun _ => eq_refl) 0 ∅ (mk_adb [] (ex_logs ex_change)) ex_began ex_queried 2
    (ex_txn ex_queried 2) ex_change (ex_reach_queried 0)) as (tm'&Hc&Hs&_); [by vm_compute|by vm_compute|].
  assert ((committed_num ex_queried =? 49999) = false) as E by (by vm_compute). rewrite E in Hc. exact (ex_intro _ tm' (conj Hc Hs)).
Defined.

Theorem rollback_succeeds_witness : exists tm', manager_Rollback ex_junk 2 ex_queried = Some (0, tm') /\ state_of tm' 2 = Some ABORTED.
Proof.
  destruct (rollback_succeeds ex_enough ex_junk (fun _ => eq_refl) 0 ∅ (mk_adb [] (ex_logs ex_change)) ex_began ex_queried 2
    (ex_txn ex_queried 2) (ex_reach_queried 0)) as (tm'&Hc&Hs&_); [by vm_compute|]. exact (ex_intro _ tm' (conj Hc Hs)).
Defined.

(** C4 at the example: 1 began before the commit of 2 and may not write its entries. *)
Theorem update_refused_witness : exists ret kv' txn',
  update_txn ex_junk 1 5 2 true (tm_kv ex_committed, ex_txn ex_committed 1) = Some (ret, (kv', txn')) /\ (ret = false -> txn_state txn' = ABORTED).
Proof.
  destruct (update_refused_iff_conflict ex_enough ex_junk (fun _ => eq_refl) 0 ∅ (mk_adb [mk_gcommit 3 ex_change] (<[1 := no_writes]> ∅)) ex_began
    ex_committed 1 (ex_txn ex_committed 1) no_writes true 1 5 2 (ex_reach_committed _)) as (ret&kv'&txn'&Hr&_&Hab&_);
    [by vm_compute|by vm_compute|apply ex_triple_ok|by vm_compute|]. exists ret, kv', txn'. exact (conj Hr Hab).
Defined.

Theorem no_lost_updates_witness : log_effective ex_change ∅ /\ ~ touches Sub 1 no_writes.
Proof.
  destruct (no_lost_updates ex_enough ex_junk (fun _ => eq_refl) 0 ∅ (mk_adb [] (ex_logs ex_change)) ex_began ex_queried 2
    (ex_txn ex_queried 2) ex_change (ex_reach_queried 0)) as (He&Hd&_); [by vm_compute|by vm_compute|].
  split; [exact He|]. apply (Hd 1 no_writes Sub 1); [done|done|]. exists (1, 5, 2). split; [left; left|done].
Defined.

Theorem checkpoint_witness : Checkpoint ex_enough ex_junk 0 ex_committed = Some (false, ex_committed).
Proof.
  apply (checkpoint_stores_committed ex_enough ex_junk (fun _ => eq_refl) 0 0 ∅ (mk_adb [mk_gcommit 3 ex_change] (<[1 := no_writes]> ∅)) ex_began
    ex_committed (ex_reach_committed _)); [by vm_compute|by vm_compute|]. exists 1, (ex_txn ex_committed 1). by vm_compute.
Defined.

Theorem ended_rejected_witness : manager_Rollback ex_junk 2 ex_committed = Some (1, ex_committed).
Proof.
  pose proof (ended_transactions_rejected ex_enough ex_junk 0 2 [] ex_ret ex_committed) as H.
  assert (txn_table ex_committed !! 2 = Some (ex_txn ex_committed 2)) as E by (by vm_compute). rewrite E in H.
  assert (txn_state (ex_txn ex_committed 2) = COMMITTED) as Hst by (by vm_compute). rewrite Hst in H.
  destruct H as (_&H&_); [discriminate|exact H].
Defined.

(** ** Serializable reads of a predicate's subjects *)

(** A serializable transaction [1], and a commit of [2] on the predicate [5] since. *)
Definition sr_begun := ex_after (Begin SNAPSHOT) (ex_after (Begin SERIALIZABLE) ex_new).
Definition sr_changed := ex_after (commit_txn ex_junk 2) (ex_after (Query ex_enough ex_junk 2 [InsertAll [(1, 5, 2)]] ex_ret) sr_begun).
Definition sr_reads (t : Z) (calls : list call) := ex_after (Query ex_enough ex_junk t calls ex_ret).

(** [getsubIDlistBypreID] (and [getobjIDlistBypreID], written alike) enters the
    predicate in the read set of a serializable transaction although it has not taken
    the shared latch of the entry.  When a change was committed to the predicate after
    the transaction began, the latch is never taken, the transaction goes on running,
    and its commit fails at the assertion of [ReleaseAllLocks].  After the same query by
    [getsubIDobjIDlistBypreID], which enters only what it has latched, it commits. *)
Example predicate_read_breaks_commit :
  state_of (sr_reads 1 [PreSubs 5] sr_changed) 1 = Some RUNNING /\
  commit_txn ex_junk 1 (sr_reads 1 [PreSubs 5] sr_changed) = None /\
  state_of (sr_reads 1 [PreObjs 5] sr_changed) 1 = Some RUNNING /\
  commit_txn ex_junk 1 (sr_reads 1 [PreObjs 5] sr_changed) = None /\
  fst <$> commit_txn ex_junk 1 (sr_reads 1 [PrePairs 5] sr_changed) = Some (0, false).
Proof. split_and!; vm_compute; reflexivity. Qed.

(** A serializable transaction [3] that reads the pairs of the predicate [5], and
    then [1], whose commit gives back a share that is not its own. *)
Definition sr_shared := sr_reads 3 [PrePairs 5] (ex_after (Begin SERIALIZABLE) sr_changed).
Definition sr_stolen := ex_after (commit_txn ex_junk 1) (sr_reads 1 [PreSubs 5] sr_shared).
Definition sr_writes (tm : Txn_manager mstore) :=
  let tm' := ex_after (Begin SERIALIZABLE) tm in
  (fun r => fst (fst r)) <$> Query ex_enough ex_junk 4 [InsertAll [(7, 5, 8)]] (fun _ => 1) tm'.

(** The same read in a state where another serializable transaction [3] holds a
    share of the predicate: the commit succeeds and gives back the share of [3], so a
    serializable transaction [4] may write the predicate although [3], which has read
    it, still runs.  Without that commit the write of [4] is refused. *)
Example predicate_read_steals_share :
  state_of sr_stolen 1 = Some COMMITTED /\ state_of sr_stolen 3 = Some RUNNING /\
  sr_writes sr_stolen = Some 1 /\ sr_writes sr_shared = Some (-20).
Proof. split_and!; vm_compute; reflexivity. Qed.
