(* ===== verification/TxnArrays.v ===== *)
(** * Transactions over the arrays

    The manager over four new arrays of values: the theorems on transactions hold
    of the arrays with their caches and files, since these satisfy the interfaces
    [ValueStore] and [EntryStore]. *)

From S2P Require Import Prelude Util BatchInsertSpec ValueStore KVstore TripleSet KVbatch Version GLatch Transaction IVEntry IVEntrySpec IVEntrySystem BlockManager BlockManagerSpec IVArray IVArraySpec IVArrayCache IVArrayOps IVArrayStore ArrayTheorems TxnStore TxnStoreSpec TxnHistory TxnSystem TxnRead TxnReadSpec TxnVacuumSpec IVArrayEntries TxnManager TxnQuery TxnManagerSpec TxnTheorems.

#[local] Existing Instance iv_format.

Definition begun_txn (lvl : IsolationLevelType) : Transaction := SetState RUNNING (SetCommitID 1 (Transaction_new 1 1 lvl)).

Section Arrays.
Context (enough : Z -> bool) (junk : nat -> Z) (Hmem : forall n, enough n = true).
Context (MAXC LIM : Z) (HM : LENGTH_BORDER <= MAXC) (HL : 0 <= LIM <= W32).
#[local] Instance store : ValueStore IVArray := array_store MAXC.
#[local] Instance store_laws : ValueStoreLaws IVArray := array_store_laws MAXC LIM HM HL.
#[local] Instance entries : EntryStore IVArray := array_entries.
#[local] Instance entries_laws : EntryStoreLaws IVArray := array_entries_laws MAXC LIM HM HL.

(** Arrays without versions or latches. *)
Definition new_arrays (n1 n2 n3 n4 : Z) : KVstore (TArray IVArray) :=
  let new n := mk_TArray (IVArray_build n) ∅ in mkKV (new n1) (new n2) (new n3) (new n4).

Lemma new_arrays_reach n n1 n2 n3 n4 : Forall (fun k => 0 <= k < KEY_LIMIT) [n1; n2; n3; n4] ->
  KEY_LIMIT + Z.of_nat n * op_cost LIM < MAX_BLOCKS ->
  reach enough junk n ∅ (mk_adb [] ∅) ∅ (Txn_manager_new (new_arrays n1 n2 n3 n4)).
Proof using Type.
  intros Hn Hroom. assert (HM0 : 0 <= MAXC) by (unfold LENGTH_BORDER in *; lia).
  rewrite !Forall_cons in Hn. destruct Hn as (N1&N2&N3&N4&_).
  assert (Hb : forall sl, array_view (get_slot (base_kv (new_arrays n1 n2 n3 n4)) sl) = ∅ /\
    array_room MAXC LIM n (get_slot (base_kv (new_arrays n1 n2 n3 n4)) sl)).
  { intros []; by apply build_room. }
  apply reach_new; [intros sl; apply Hb|apply views_empty_represents; intros sl; apply Hb|by intros []].
Qed.

(** Nobody stops the only transaction of a database without commits. *)
Lemma alone_not_stopped txns txn c : (forall t x, t <> TID txn -> txns !! t <> Some x) ->
  ~ stopped (mk_adb [] (<[TID txn := no_writes]> ∅)) txns txn c.
Proof using Type.
  intros Hone. assert (Hw : forall a k, ~ written_by_other (mk_adb [] (<[TID txn := no_writes]> ∅)) txn a k).
  { intros a k (t&w&Hne&Hw&_). cbn in Hw. by rewrite lookup_insert_ne in Hw. }
  assert (Hcf : forall a k, ~ conflict (mk_adb [] (<[TID txn := no_writes]> ∅)) txns txn a k).
  { intros a k [H|[(_&x&Hx&_)|(_&t&x&Hne&Hx&_)]]; [by apply (Hw a k)|by apply elem_of_nil in Hx|by apply (Hone t x)]. }
  unfold stopped. destruct c; intros H; first [destruct H as (x&a&_&H); exact (Hcf _ _ H)|destruct H as (_&a&k&_&H); exact (Hw _ _ H)].
Qed.

(** C7. The first transaction on four new arrays, of a client that keeps to [calls_ok]:
    it begins with id 1, its query is answered -- nobody is there to stop it --, every
    answer is the one of its own changes so far on an empty database, and its commit
    succeeds, caches, blocks and files included. *)
Theorem transaction_over_arrays n1 n2 n3 n4 lvl calls ret_val :
  Forall (fun k => 0 <= k < KEY_LIMIT) [n1; n2; n3; n4] ->
  KEY_LIMIT + Z.of_nat (length calls) * op_cost LIM < MAX_BLOCKS ->
  calls_ok (begun_txn lvl) ∅ [] calls no_writes ->
  exists tm1 code l tm2, Begin lvl (Txn_manager_new (new_arrays n1 n2 n3 n4)) = Some (1, tm1) /\
    Query enough junk 1 calls ret_val tm1 = Some ((code, l), tm2) /\
    code = ret_val l /\ answers_from ∅ no_writes calls l /\
    exists r tm3, commit_txn junk 1 tm2 = Some ((0, r), tm3) /\ state_of tm3 1 = Some COMMITTED.
Proof using Hmem HM HL.
  intros Hn Hroom Hok. set (tm0 := Txn_manager_new _).
  assert (Hr0 : reach enough junk (length calls + 0) ∅ (mk_adb [] ∅) ∅ tm0) by (rewrite Nat.add_0_r; by apply new_arrays_reach).
  destruct (reach_inv enough junk Hmem _ _ _ _ _ Hr0) as [Hm0 _].
  destruct (Begin_spec junk lvl _ _ _ tm0 Hm0) as (tm1&Hb&_&_&Hm1&_); [done|].
  assert (Htm1 : txn_table tm1 !! 1 = Some (begun_txn lvl)) by (cbn in Hb; injection Hb as <-; by vm_compute).
  destruct (Query_spec enough junk Hmem 0 ∅ _ tm1 1 (begun_txn lvl) no_writes calls ret_val Hm1 Htm1) as (code&l&tm2&Hq&_&Hout);
    [done|done|done|].
  exists tm1, code, l, tm2. split; [done|]. split; [done|]. destruct Hout as [(_&_&_&(c&_&Hstop)&_)|(->&Ha&Hrun&Hm2)].
  { exfalso. assert (Hone : forall t x, t <> 1 -> running tm1 !! t <> Some x).
    { intros t x Hne [Hx _]%running_Some. cbn in Hb. injection Hb as <-. cbn [txn_table set_table set_kv Txn_manager_new] in Hx. vm_compute in Hx. by destruct t as [|[]|]. }
    by apply (alone_not_stopped (running tm1) (begun_txn lvl) c) in Hstop. }
  apply answers_ok_from in Ha. cbn [ab_hist gsnapshot filter] in Ha.
  split; [done|]. split; [by destruct (IS_RC (begun_txn lvl))|].
  destruct (txn_table tm2 !! 1) as [txn2|] eqn:E; [|done]. injection Hrun as Hst.
  destruct (commit_txn_spec junk 0 _ _ tm2 1 txn2 _ Hm2 E Hst (lookup_insert_eq _ _ _)) as (tm3&Hc&Hs&_).
  by eexists _, tm3.
Qed.
End Arrays.

(** ** Witness *)

Definition one_call : list call := [InsertAll [(1, 5, 2)]].

Lemma one_call_ok : calls_ok (begun_txn SNAPSHOT) ∅ [] one_call no_writes.
Proof.
  cbn [calls_ok one_call updates_ok]. refine (conj ex_triple_ok (conj _ (conj _ (conj I I)))); [done|].
  refine (bool_decide_unpack (update_ok (begun_txn SNAPSHOT) ∅ [] no_writes true (1, 5, 2)) _). by vm_compute.
Qed.

Lemma transaction_over_arrays_witness : exists tm1 l tm2 r tm3,
  Begin (S := IVArray) SNAPSHOT (Txn_manager_new (new_arrays 0 0 0 0)) = Some (1, tm1) /\
  Query (VS := array_store a_bound) (ES := array_entries) ex_enough ex_junk 1 one_call ex_ret tm1 = Some ((-100, l), tm2) /\
  answers_from ∅ no_writes one_call l /\
  commit_txn (ES := array_entries) ex_junk 1 tm2 = Some ((0, r), tm3) /\ state_of tm3 1 = Some COMMITTED.
Proof.
  destruct (transaction_over_arrays ex_enough ex_junk (fun _ => eq_refl) a_bound 1000 a_bound_ok a_limit_ok 0 0 0 0 SNAPSHOT
    one_call ex_ret) as (tm1&code&l&tm2&Hb&Hq&->&Ha&r&tm3&Hc&Hs); [by repeat constructor|by vm_compute|exact one_call_ok|].
  exists tm1, l, tm2, r, tm3. exact (conj Hb (conj Hq (conj Ha (conj Hc Hs)))).
Defined.
