(* ===== verification/Names.v ===== *)
(** * Names and their ids

    The dictionaries of [KVstore] (KVstore/KVstore.cpp) and the ids that
    [Database] gives out (Database/Database.cpp).  Entities, literals and
    predicates each have a tree from strings to ids ([SITree]), an array from ids
    to strings ([ISArray]), a limit above the ids in use and a list of free ids
    below it.  The tree and the array are used through the classes [StrIndex] and
    [StrArray]; as in [ValueStore], a sound state has room for a number of
    further calls.  Predicate ids, which are [int]s in the sources, are
    represented by the same words; the sources keep them below
    [LITERAL_FIRST_ID].

    At the end, what the dictionaries promise. *)

From stdpp Require Import strings.
From S2P Require Import Prelude Util ValueStore KVstore TripleSet.

Class StrIndex (I : Type) := {
  si_search : string -> M I (option Z);
  si_insert : string -> Z -> M I bool;
  si_remove : string -> M I bool }.

Class StrIndexLaws (I : Type) `{SI : StrIndex I} := {
  si_view : I -> gmap string Z;
  si_room : nat -> I -> Prop;
  si_fits : string -> Prop;
  si_room_le i n : si_room (Datatypes.S n) i -> si_room n i;
  si_search_ok i n s : si_room (Datatypes.S n) i ->
    wpM (si_search s) i (fun r i' => r = si_view i !! s /\ si_view i' = si_view i /\ si_room n i');
  si_insert_ok i n s v : si_room (Datatypes.S n) i -> si_fits s -> word v -> si_view i !! s = None ->
    wpM (si_insert s v) i (fun r i' => r = true /\ si_view i' = <[s := v]> (si_view i) /\ si_room n i');
  si_remove_ok i n s : si_room (Datatypes.S n) i -> is_Some (si_view i !! s) ->
    wpM (si_remove s) i (fun r i' => r = true /\ si_view i' = delete s (si_view i) /\ si_room n i') }.

Class StrArray (J : Type) := {
  sa_search : Z -> M J (option string);
  sa_insert : Z -> string -> M J bool;
  sa_remove : Z -> M J bool }.

Class StrArrayLaws (J : Type) `{SA : StrArray J} := {
  sa_view : J -> gmap Z string;
  sa_room : nat -> J -> Prop;
  sa_fits : string -> Prop;
  sa_room_le j n : sa_room (Datatypes.S n) j -> sa_room n j;
  sa_search_ok j n k : sa_room (Datatypes.S n) j -> word k ->
    wpM (sa_search k) j (fun r j' => r = sa_view j !! k /\ sa_view j' = sa_view j /\ sa_room n j');
  sa_insert_ok j n k s : sa_room (Datatypes.S n) j -> 0 <= k < KEY_LIMIT -> sa_fits s -> sa_view j !! k = None ->
    wpM (sa_insert k s) j (fun r j' => r = true /\ sa_view j' = <[k := s]> (sa_view j) /\ sa_room n j');
  sa_remove_ok j n k : sa_room (Datatypes.S n) j -> word k -> is_Some (sa_view j !! k) ->
    wpM (sa_remove k) j (fun r j' => r = true /\ sa_view j' = delete k (sa_view j) /\ sa_room n j') }.

Arguments si_fits I {_ _}.
Arguments sa_fits J {_ _}.

#[global] Hint Mode StrIndex + : typeclass_instances.
#[global] Hint Mode StrIndexLaws + - : typeclass_instances.
#[global] Hint Mode StrArray + : typeclass_instances.
#[global] Hint Mode StrArrayLaws + - : typeclass_instances.

(** ** The reference instances: finite maps. *)

Section Maps.
Context {K V : Type} `{Countable K}.
Definition map_search (k : K) : M (gmap K V) (option V) := fun m => Some (m !! k, m).
Definition map_add (k : K) (v : V) : M (gmap K V) bool := fun m =>
  match m !! k with Some _ => Some (false, m) | None => Some (true, <[k := v]> m) end.
Definition map_drop (k : K) : M (gmap K V) bool := fun m =>
  match m !! k with Some _ => Some (true, delete k m) | None => Some (false, m) end.
End Maps.

#[global] Instance map_index : StrIndex (gmap string Z) := {
  si_search := map_search;
  si_insert s v := if bool_decide (s = EmptyString) then retM false else map_add s v;
  si_remove := map_drop }.
#[global] Program Instance map_index_laws : StrIndexLaws (gmap string Z) := {
  si_view m := m; si_room _ _ := True; si_fits s := s <> EmptyString }.
Next Obligation. done. Qed.
Next Obligation. done. Qed.
Next Obligation. intros m n s v _ Hs _ Hk. cbn. rewrite bool_decide_eq_false_2 by done. unfold map_add, wpM. by rewrite Hk. Qed.
Next Obligation. intros m n s _ [v Hk]. cbn. unfold map_drop, wpM. by rewrite Hk. Qed.

#[global] Instance map_array : StrArray (gmap Z string) := {
  sa_search := map_search; sa_insert := map_add; sa_remove := map_drop }.
#[global] Program Instance map_array_laws : StrArrayLaws (gmap Z string) := {
  sa_view m := m; sa_room _ _ := True; sa_fits _ := True }.
Next Obligation. done. Qed.
Next Obligation. done. Qed.
Next Obligation. intros m n k s _ _ _ Hk. cbn. unfold map_add, wpM. by rewrite Hk. Qed.
Next Obligation. intros m n k _ _ [v Hk]. cbn. unfold map_drop, wpM. by rewrite Hk. Qed.

(** ** The code *)

Inductive kind := Entities | Literals | Predicates.
#[global] Instance kind_eq_dec : EqDecision kind.
Proof. solve_decision. Defined.

(** A function of the kind, changed at [k]. *)
Definition upd_kind {X} (k : kind) (x : X) (f : kind -> X) : kind -> X := fun k' => if decide (k' = k) then x else f k'.

Definition id_base (k : kind) : Z := match k with Literals => LITERAL_FIRST_ID | _ => 0 end.

Record Names (I J : Type) := mk_Names {
  str2id : I;
  id2str : J;
  limitID : Z;
  freelist : list Z;
  id_num : Z }.
Arguments mk_Names {I J}.
Arguments str2id {I J}.
Arguments id2str {I J}.
Arguments limitID {I J}.
Arguments freelist {I J}.
Arguments id_num {I J}.

Section Code.
Context {I J : Type} `{SI : StrIndex I} `{SA : StrArray J}.
Abbreviation N := (Names I J).

Definition on_str {A} (m : M I A) : M N A := fun x =>
  '(r, i) ← m (str2id x); Some (r, mk_Names i (id2str x) (limitID x) (freelist x) (id_num x)).
Definition on_id {A} (m : M J A) : M N A := fun x =>
  '(r, j) ← m (id2str x); Some (r, mk_Names (str2id x) j (limitID x) (freelist x) (id_num x)).

Definition getIDByStr (s : string) : M N Z :=
  let! r := on_str (si_search s) in retM (default INVALID r).
Definition setIDByStr (s : string) (_id : Z) : M N bool := on_str (si_insert s _id).
Definition subIDByStr (s : string) : M N bool := on_str (si_remove s).

Definition getStrByID (k : kind) (_id : Z) : M N string :=
  let! r := on_id (sa_search (_id ⊟ id_base k)) in retM (default EmptyString r).
Definition setStrByID (k : kind) (_id : Z) (s : string) : M N bool := on_id (sa_insert (_id ⊟ id_base k) s).
Definition subStrByID (k : kind) (_id : Z) : M N bool := on_id (sa_remove (_id ⊟ id_base k)).

(** [allocEntityID], [allocLiteralID], [allocPredicateID]. *)
Definition allocID (k : kind) : M N Z := fun x =>
  match freelist x with
  | [] =>
      let t := limitID x in
      let limit := limitID x ⊞ 1 in
      if LITERAL_FIRST_ID <=? limit
      then Some (INVALID, mk_Names (str2id x) (id2str x) limit [] (id_num x))
      else Some (t ⊞ id_base k, mk_Names (str2id x) (id2str x) limit [] (id_num x ⊞ 1))
  | t :: rest => Some (t ⊞ id_base k, mk_Names (str2id x) (id2str x) (limitID x) rest (id_num x ⊞ 1))
  end.

(** [freeEntityID], [freeLiteralID], [freePredicateID]. *)
Definition freeID (k : kind) (_id : Z) : M N unit := fun x =>
  let _id := _id ⊟ id_base k in
  Some (tt, if _id =? limitID x ⊟ 1
            then mk_Names (str2id x) (id2str x) (limitID x ⊟ 1) (freelist x) (id_num x ⊟ 1)
            else mk_Names (str2id x) (id2str x) (limitID x) (_id :: freelist x) (id_num x ⊟ 1)).

(** The file that [saveIDinfo] writes for each kind. *)
Definition saveIDinfo (x : N) : list Z := limitID x :: freelist x.
End Code.

(** [readIDinfo]: the limit and the free ids of each kind, from the three files;
    a file that cannot be opened ends the function. *)
Definition ids := (Z * list Z)%type.
Definition read_words (file : list Z) : Z * list Z := (default 0 (head file), tail file).
Definition read_entity (file : list Z) : ids := read_words file.
Definition read_literal (file : list Z) : ids :=
  let '(limit, ts) := read_words file in (limit, fold_left (fun l t => t :: l) ts []).
(** Each free predicate id is put in front of the free literals. *)
Definition read_predicate (freelist_literal : list Z) (file : list Z) : ids :=
  let '(limit, ts) := read_words file in (limit, fold_left (fun _ t => t :: freelist_literal) ts []).

Definition readIDinfo (fe fl fp : option (list Z)) : ids * ids * ids :=
  match fe with
  | None => ((0, []), (0, []), (0, []))
  | Some fe =>
      match fl with
      | None => (read_entity fe, (0, []), (0, []))
      | Some fl =>
          match fp with
          | None => (read_entity fe, read_literal fl, (0, []))
          | Some fp => (read_entity fe, read_literal fl, read_predicate (read_literal fl).2 fp)
          end
      end
  end.

(** * What the dictionaries promise

    [names_at k n x E1 E2 A]: for the names of the kind [k], [E1] are the ids in
    the tree, [E2] the ids in the array and [A] all ids given out; the ids in use
    and the free ids are distinct and together those below the limit; and [n] more
    calls find room.  Between operations the three maps are the same. *)

Section Spec.
Context {I J : Type} `{SIL : StrIndexLaws I} `{SAL : StrArrayLaws J}.
Abbreviation N := (Names I J).

(** A string both dictionaries accept. *)
Definition name_ok (s : string) : Prop := s <> EmptyString /\ si_fits I s /\ sa_fits J s.

Record names_at (k : kind) (n : nat) (x : N) (E1 E2 A : gmap string Z) : Prop := {
  na_view : si_view (str2id x) = E1;
  na_room : si_room n (str2id x) /\ sa_room n (id2str x);
  na_inverse i s : sa_view (id2str x) !! i = Some s <-> E2 !! s = Some (i + id_base k);
  na_sub : E1 ⊆ A /\ E2 ⊆ A;
  na_inj s s' i : A !! s = Some i -> A !! s' = Some i -> s = s';
  na_used s i : A !! s = Some i -> id_base k <= i < id_base k + limitID x;
  na_free : NoDup (freelist x);
  na_free_bound f : f ∈ freelist x -> 0 <= f < limitID x;
  na_free_unused f s : f ∈ freelist x -> A !! s <> Some (f + id_base k);
  na_all : limitID x = Z.of_nat (base.size A) + len (freelist x);
  na_num : id_num x = Z.of_nat (base.size A);
  na_limit : limitID x + Z.of_nat n < LITERAL_FIRST_ID }.

Lemma id_base_bound k : 0 <= id_base k <= LITERAL_FIRST_ID.
Proof using Type. destruct k; cbn; unfold LITERAL_FIRST_ID; lia. Qed.

Lemma na_key k n x E1 E2 A s i : names_at k n x E1 E2 A -> A !! s = Some i ->
  word i /\ word (i ⊟ id_base k) /\ i ⊟ id_base k = i - id_base k /\ 0 <= i - id_base k < LITERAL_FIRST_ID.
Proof using Type.
  intros H Hs. apply (na_used _ _ _ _ _ _ H) in Hs. pose proof (na_limit _ _ _ _ _ _ H). pose proof (id_base_bound k).
  assert (i ⊟ id_base k = i - id_base k) as -> by (apply u32_small; unfold LITERAL_FIRST_ID, W32 in *; lia).
  unfold word, LITERAL_FIRST_ID, W32 in *. lia.
Qed.

Lemma names_at_le k n x E1 E2 A : names_at k (Datatypes.S n) x E1 E2 A -> names_at k n x E1 E2 A.
Proof using Type.
  intros [H1 [H2 H3] H4 H5 H6 H7 H8 H9 H10 H11 H12 H13].
  split; try done; [split; [by apply si_room_le|by apply sa_room_le]|lia].
Qed.

(** *** Looking up *)

Lemma getIDByStr_ok k n x E1 E2 A s : names_at k (Datatypes.S n) x E1 E2 A ->
  wpM (getIDByStr s) x (fun r x' => r = default INVALID (E1 !! s) /\ names_at k n x' E1 E2 A).
Proof using Type.
  intros H. apply names_at_le in H as H'. destruct H as [<- [H2 _] _ _ _ _ _ _ _ _ _ _]. unfold getIDByStr. apply wpM_bind.
  destruct (wpM_inv _ _ _ (si_search_ok (str2id x) n s H2)) as (r&i'&Hr&->&Hv&Hn).
  unfold on_str, wpM. rewrite Hr. cbn. split; [done|]. destruct H' as [_ [_ H3] H4 H5 H6 H7 H8 H9 H10 H11 H12 H13].
  by split.
Qed.

Lemma getStrByID_ok k n x E1 E2 A s i : names_at k (Datatypes.S n) x E1 E2 A -> E2 !! s = Some i ->
  wpM (getStrByID k i) x (fun r x' => r = s /\ names_at k n x' E1 E2 A).
Proof using Type.
  intros H Hs. apply names_at_le in H as H'.
  destruct (na_key k _ x _ _ A s i H) as (_&Hw&Hk&_); [by eapply lookup_weaken; [|apply H]|].
  pose proof (proj2 (na_inverse _ _ _ _ _ _ H (i - id_base k) s)) as Hin. destruct H as [_ [_ H2] _ _ _ _ _ _ _ _ _ _].
  unfold getStrByID. apply wpM_bind.
  destruct (wpM_inv _ _ _ (sa_search_ok (id2str x) n _ H2 Hw)) as (r&j'&Hr&->&Hv&Hn).
  unfold on_id, wpM. rewrite Hr. cbn. rewrite Hk, Hin by (rewrite Hs; f_equal; lia). split; [done|].
  destruct H' as [H1 [H2' _] H4 H5 H6 H7 H8 H9 H10 H11 H12 H13]. split; cbn; try done. intros i0 s0. by rewrite Hv.
Qed.

(** *** Giving out an id and taking it back *)

Lemma u32_pred z : 0 < z < W32 -> z ⊟ 1 = z - 1.
Proof using Type. intros H. apply u32_small. unfold W32 in *. lia. Qed.

(** The id is that of no other name. *)
Lemma allocID_ok k n x E1 E2 A s : names_at k (Datatypes.S n) x E1 E2 A -> A !! s = None ->
  wpM (allocID k) x (fun i x' => names_at k n x' E1 E2 (<[s := i]> A)).
Proof using Type.
  intros [H1 H2 H3 H4 H5 H6 H7 H8 H9 H10 H11 Hlim] Hs. pose proof (id_base_bound k) as Hb.
  assert (Hroom : si_room n (str2id x) /\ sa_room n (id2str x)) by (destruct H2; split; [by apply si_room_le|by apply sa_room_le]).
  assert (Hnum : id_num x ⊞ 1 = Z.of_nat (base.size A) + 1).
  { rewrite H11. apply u32_small. unfold LITERAL_FIRST_ID, W32 in *. lia. }
  assert (Hsz : forall i, Z.of_nat (base.size (<[s := i]> A)) = Z.of_nat (base.size A) + 1).
  { intros i. rewrite map_size_insert_None by done. lia. }
  assert (Hsub : forall i, E1 ⊆ <[s := i]> A /\ E2 ⊆ <[s := i]> A).
  { intros i. pose proof (insert_subseteq A s i Hs) as Hi. destruct H4 as [H4 H4']. split; by (etrans; [eassumption|]). }
  assert (Hinj : forall i, (forall s', A !! s' <> Some i) -> forall s1 s2 j, <[s := i]> A !! s1 = Some j -> <[s := i]> A !! s2 = Some j -> s1 = s2).
  { intros i Hi s1 s2 j. rewrite !lookup_insert_Some. intros [[<- <-]|[Hn1 Ha1]] [[<- E]|[Hn2 Ha2]]; try done.
    - by apply Hi in Ha2.
    - subst j. by apply Hi in Ha1.
    - by eapply H5. }
  unfold allocID, wpM. destruct (freelist x) as [|t rest] eqn:Ef.
  - assert (limitID x ⊞ 1 = limitID x + 1) as -> by (apply u32_small; unfold LITERAL_FIRST_ID, W32 in *; len_lia).
    rewrite (proj2 (Z.leb_gt _ _)) by lia. cbn.
    assert (limitID x ⊞ id_base k = limitID x + id_base k) as -> by (apply u32_small; unfold LITERAL_FIRST_ID, W32 in *; len_lia).
    assert (Hnew : forall s', A !! s' <> Some (limitID x + id_base k)) by (intros s' E; apply H6 in E; lia).
    split; cbn; rewrite ?Hsz; try done; try len_lia.
    + by apply Hinj.
    + intros s' i. rewrite lookup_insert_Some. intros [[<- <-]|[_ Ha]]; [len_lia|apply H6 in Ha; lia].
    + by intros f ?%elem_of_nil.
    + by intros f s' ?%elem_of_nil.
  - assert (0 <= t < limitID x) as Ht by (apply H8; left).
    assert (t ⊞ id_base k = t + id_base k) as -> by (apply u32_small; unfold LITERAL_FIRST_ID, W32 in *; lia).
    cbn. apply NoDup_cons in H7 as [Hnt Hnd]. split; cbn; rewrite ?Hsz; try done; try len_lia.
    + apply Hinj. intros s'. apply H9. left.
    + intros s' i. rewrite lookup_insert_Some. intros [[<- <-]|[_ Ha]]; [lia|by apply H6 in Ha].
    + intros f Hf. apply H8. by right.
    + intros f s' Hf. rewrite lookup_insert_Some. intros [[<- E]|[_ Ha]].
      * assert (f = t) as -> by lia. done.
      * by eapply (H9 f s'); [right|].
Qed.

Lemma freeID_ok k n x E1 E2 A s i : names_at k n x E1 E2 A -> A !! s = Some i -> E1 !! s = None -> E2 !! s = None ->
  wpM (freeID k i) x (fun _ x' => names_at k n x' E1 E2 (delete s A)).
Proof using Type.
  intros H Hs HE1 HE2. destruct (na_key k n x E1 E2 A s i H Hs) as (_&_&Hk&Hkb).
  destruct H as [H1 H2 H3 H4 H5 H6 H7 H8 H9 H10 H11 H12]. pose proof (id_base_bound k) as Hb.
  assert (Hpos : 0 < Z.of_nat (base.size A)).
  { assert (base.size A <> 0%nat); [|lia]. apply map_size_ne_0_lookup. by exists s, i. }
  assert (Hsz : Z.of_nat (base.size (delete s A)) = Z.of_nat (base.size A) - 1) by (rewrite map_size_delete_Some by (by exists i); lia).
  assert (Hsub : E1 ⊆ delete s A /\ E2 ⊆ delete s A).
  { destruct H4. split; apply map_subseteq_spec; intros s' j Hj; apply lookup_delete_Some;
      (split; [intros ->; congruence|by eapply lookup_weaken]). }
  assert (Hinj : forall s1 s2 j, delete s A !! s1 = Some j -> delete s A !! s2 = Some j -> s1 = s2).
  { intros s1 s2 j. rewrite !lookup_delete_Some. intros [_ ?] [_ ?]. by eapply H5. }
  assert (Hused : forall s' j, delete s A !! s' = Some j -> id_base k <= j < id_base k + limitID x /\ j <> i).
  { intros s' j [Hne Ha]%lookup_delete_Some. split; [by eapply H6|]. intros ->. apply Hne. by eapply H5. }
  pose proof (H6 s i Hs) as Hi. assert (Hnum : id_num x ⊟ 1 = Z.of_nat (base.size A) - 1).
  { rewrite H11. apply u32_pred. unfold LITERAL_FIRST_ID, W32 in *. len_lia. }
  assert (Hp : limitID x ⊟ 1 = limitID x - 1) by (apply u32_pred; unfold LITERAL_FIRST_ID, W32 in *; len_lia).
  unfold freeID, wpM. cbn. rewrite Hk, Hp. destruct (Z.eqb_spec (i - id_base k) (limitID x - 1)) as [He|Hne].
  - split; cbn; rewrite ?Hsz; try done; try len_lia.
    + intros s' j Hj. destruct (Hused s' j Hj). lia.
    + intros f Hf. pose proof (H8 f Hf). split; [lia|]. assert (f <> limitID x - 1); [|lia].
      intros ->. apply (H9 _ s Hf). rewrite Hs. f_equal. lia.
    + intros f s' Hf [_ Ha]%lookup_delete_Some. by eapply H9.
  - split; cbn; rewrite ?Hsz; try done; try len_lia.
    + intros s' j Hj. by destruct (Hused s' j Hj).
    + constructor; [|done]. intros Hf. apply (H9 _ s Hf). rewrite Hs. f_equal. lia.
    + intros f [->|Hf]%elem_of_cons; [lia|by apply H8].
    + intros f s' [->|Hf]%elem_of_cons [Hn Ha]%lookup_delete_Some; [|by eapply H9].
      apply Hn. eapply H5; [done|]. rewrite Ha. f_equal. lia.
Qed.

(** *** Entering and deleting a name *)

Lemma setIDByStr_ok k n x E1 E2 A s i : names_at k (Datatypes.S n) x E1 E2 A -> si_fits I s -> A !! s = Some i -> E1 !! s = None ->
  wpM (setIDByStr s i) x (fun r x' => r = true /\ names_at k n x' (<[s := i]> E1) E2 A).
Proof using Type.
  intros H Hf Hs HE. apply names_at_le in H as H'. destruct (na_key k _ x E1 E2 A s i H Hs) as (Hw&_).
  destruct H as [H1 [H2 _] _ _ _ _ _ _ _ _ _ _].
  assert (Hn : si_view (str2id x) !! s = None) by (by rewrite H1).
  destruct (wpM_inv _ _ _ (si_insert_ok (str2id x) n s i H2 Hf Hw Hn)) as (r&i'&Hr&->&Hv&Hroom).
  unfold setIDByStr, on_str, wpM. rewrite Hr. cbn. split; [done|].
  destruct H' as [_ [_ H3] H4 [H5 H5'] H6 H7 H8 H9 H10 H11 H12 H13]. split; cbn; try done; [by rewrite Hv, H1|].
  split; [|done]. by apply insert_subseteq_l.
Qed.

Lemma subIDByStr_ok k n x E1 E2 A s : names_at k (Datatypes.S n) x E1 E2 A -> is_Some (E1 !! s) ->
  wpM (subIDByStr s) x (fun _ x' => names_at k n x' (delete s E1) E2 A).
Proof using Type.
  intros H HE. apply names_at_le in H as H'. destruct H as [H1 [H2 _] _ _ _ _ _ _ _ _ _ _]. rewrite <- H1 in HE.
  destruct (wpM_inv _ _ _ (si_remove_ok (str2id x) n s H2 HE)) as (r&i'&Hr&->&Hv&Hroom).
  unfold subIDByStr, on_str, wpM. rewrite Hr. cbn.
  destruct H' as [_ [_ H3] H4 [H5 H5'] H6 H7 H8 H9 H10 H11 H12 H13]. split; cbn; try done; [by rewrite Hv, H1|].
  split; [|done]. etrans; [apply delete_subseteq|done].
Qed.

Lemma setStrByID_ok k n x E1 E2 A s i : names_at k (Datatypes.S n) x E1 E2 A -> sa_fits J s -> A !! s = Some i -> E2 !! s = None ->
  wpM (setStrByID k i s) x (fun r x' => r = true /\ names_at k n x' E1 (<[s := i]> E2) A).
Proof using Type.
  intros H Hf Hs HE. apply names_at_le in H as H'. destruct (na_key k _ x E1 E2 A s i H Hs) as (_&_&Hk&Hkb).
  assert (Hn : sa_view (id2str x) !! (i - id_base k) = None).
  { destruct (sa_view (id2str x) !! (i - id_base k)) as [s'|] eqn:E; [|done]. apply (na_inverse _ _ _ _ _ _ H) in E.
    replace (i - id_base k + id_base k) with i in E by lia.
    assert (s' = s) as ->; [|congruence]. eapply (na_inj _ _ _ _ _ _ H); [|exact Hs]. by eapply lookup_weaken, H. }
  destruct H as [_ [_ H2] _ _ _ _ _ _ _ _ _ _].
  destruct (wpM_inv _ _ _ (sa_insert_ok (id2str x) n (i - id_base k) s H2 ltac:(unfold KEY_LIMIT, LITERAL_FIRST_ID in *; lia) Hf Hn))
    as (r&j'&Hr&->&Hv&Hroom).
  unfold setStrByID, on_id, wpM. rewrite Hk, Hr. cbn. split; [done|].
  destruct H' as [H1 [H2' _] H4 [H5 H5'] H6 H7 H8 H9 H10 H11 H12 H13]. split; cbn; try done; [|split; [done|by apply insert_subseteq_l]].
  intros i0 s0. rewrite Hv, !lookup_insert_Some, H4. split.
  - intros [[<- <-]|[Hne He]]; [left; split; [done|lia]|]. right. split; [|done]. intros <-. congruence.
  - intros [[<- E]|[Hne He]]; [left; split; [lia|done]|]. right. split; [|done]. intros <-. apply Hne.
    eapply H6; [done|]. eapply lookup_weaken, H5'. rewrite He. f_equal. lia.
Qed.

Lemma subStrByID_ok k n x E1 E2 A s i : names_at k (Datatypes.S n) x E1 E2 A -> E2 !! s = Some i ->
  wpM (subStrByID k i) x (fun _ x' => names_at k n x' E1 (delete s E2) A).
Proof using Type.
  intros H HE. apply names_at_le in H as H'. assert (Hs : A !! s = Some i) by (by eapply lookup_weaken, H).
  destruct (na_key k _ x E1 E2 A s i H Hs) as (_&Hw&Hk&Hkb).
  assert (Hn : is_Some (sa_view (id2str x) !! (i ⊟ id_base k))).
  { exists s. apply (na_inverse _ _ _ _ _ _ H). rewrite HE. f_equal. lia. }
  destruct H as [_ [_ H2] _ _ _ _ _ _ _ _ _ _].
  destruct (wpM_inv _ _ _ (sa_remove_ok (id2str x) n _ H2 Hw Hn)) as (r&j'&Hr&->&Hv&Hroom).
  unfold subStrByID, on_id, wpM. rewrite Hr. cbn.
  destruct H' as [H1 [H2' _] H4 [H5 H5'] H6 H7 H8 H9 H10 H11 H12 H13].
  split; cbn; try done; [|split; [done|etrans; [apply delete_subseteq|done]]].
  intros i0 s0. rewrite Hv, Hk, !lookup_delete_Some, H4. split; intros [Hne He]; (split; [|done]); intros E; apply Hne.
  - rewrite <- E, HE in He. injection He as He. lia.
  - eapply H6; [exact Hs|]. eapply lookup_weaken, H5'. rewrite He. f_equal. lia.
Qed.
End Spec.
