(* ===== verification/Database.v ===== *)
(** * The database on strings

    [Database] (Database/Database.cpp) outside of transactions: triples of
    strings are turned into triples of ids, with new ids for new names, and ids
    are taken back when a name is not used any more.

    Left out are the logs of updates, the string index, which mirrors the names
    for the evaluation of queries, and the flag that marks the compressed rows
    of the query engine as outdated.  The threads of a batch work on different
    parts of the state and are run one after the other; the statistics of a
    batch, which the source updates run by run in the pass over the predicates
    from the list of the same predicate, are updated before that pass. *)

From stdpp Require Import strings.
From S2P Require Import Prelude Util ValueList ValueStore KVstore TripleSet KVget KVbatch Names.

Inductive ObjectType := NoType | Entity | Literal.
#[global] Instance ObjectType_eq_dec : EqDecision ObjectType.
Proof. solve_decision. Defined.

Record TripleWithObjType := mk_Triple {
  subject : string;
  predicate : string;
  object : string;
  object_type : ObjectType }.

Definition isObjEntity (t : TripleWithObjType) : bool := bool_decide (object_type t = Entity).
Definition isObjLiteral (t : TripleWithObjType) : bool := bool_decide (object_type t = Literal).

(** Where the object of a triple is named. *)
Definition obj_kind (t : TripleWithObjType) : kind := if isObjEntity t then Entities else Literals.

Record Database (S I J : Type) := mk_DB {
  kvstore : KVstore S;
  entities : Names I J;
  literals : Names I J;
  predicates : Names I J;
  triples_num : Z;
  sub_num : Z;
  umap : gmap string Z;
  type_predicate_name : list string }.
Arguments mk_DB {S I J}.
Arguments kvstore {S I J}.
Arguments entities {S I J}.
Arguments literals {S I J}.
Arguments predicates {S I J}.
Arguments triples_num {S I J}.
Arguments sub_num {S I J}.
Arguments umap {S I J}.
Arguments type_predicate_name {S I J}.

Section Code.
Context {S I J : Type} `{VS : ValueStore S} `{SI : StrIndex I} `{SA : StrArray J}.
Context (enough : Z -> bool) (junk : nat -> Z).
Abbreviation DB := (Database S I J).
Abbreviation KV := (KVstore S).

Definition get_names (k : kind) (db : DB) : Names I J :=
  match k with Entities => entities db | Literals => literals db | Predicates => predicates db end.
Definition set_names (k : kind) (x : Names I J) (db : DB) : DB :=
  match k with
  | Entities => mk_DB (kvstore db) x (literals db) (predicates db) (triples_num db) (sub_num db) (umap db) (type_predicate_name db)
  | Literals => mk_DB (kvstore db) (entities db) x (predicates db) (triples_num db) (sub_num db) (umap db) (type_predicate_name db)
  | Predicates => mk_DB (kvstore db) (entities db) (literals db) x (triples_num db) (sub_num db) (umap db) (type_predicate_name db)
  end.
Definition set_kvstore (kv : KV) (db : DB) : DB :=
  mk_DB kv (entities db) (literals db) (predicates db) (triples_num db) (sub_num db) (umap db) (type_predicate_name db).
Definition set_triples_num (n : Z) (db : DB) : DB :=
  mk_DB (kvstore db) (entities db) (literals db) (predicates db) n (sub_num db) (umap db) (type_predicate_name db).
Definition set_sub_num (n : Z) (db : DB) : DB :=
  mk_DB (kvstore db) (entities db) (literals db) (predicates db) (triples_num db) n (umap db) (type_predicate_name db).
Definition set_umap (m : gmap string Z) (db : DB) : DB :=
  mk_DB (kvstore db) (entities db) (literals db) (predicates db) (triples_num db) (sub_num db) m (type_predicate_name db).

Definition on_kv {A} (m : M KV A) : M DB A := fun db =>
  '(r, kv) ← m (kvstore db); Some (r, set_kvstore kv db).
Definition on_names {A} (k : kind) (m : M (Names I J) A) : M DB A := fun db =>
  '(r, x) ← m (get_names k db); Some (r, set_names k x db).
Definition db_mod (f : DB -> DB) : M DB unit := fun db => Some (tt, f db).

(** *** Statistics *)

Definition checkIsTypePredicate (predicate : string) (db : DB) : bool :=
  existsb (fun name => String.eqb name predicate) (type_predicate_name db).

Definition umap_inc (_obj : string) (m : gmap string Z) : gmap string Z :=
  <[_obj := match m !! _obj with Some c => u64 (c + 1) | None => 1 end]> m.
Definition umap_dec (_obj : string) (m : gmap string Z) : gmap string Z :=
  match m !! _obj with
  | Some c => if c <=? 1 then delete _obj m else <[_obj := c - 1]> m
  | None => m
  end.
Definition count_type (f : string -> gmap string Z -> gmap string Z) (_pre _obj : string) : M DB unit :=
  db_mod (fun db => if checkIsTypePredicate _pre db then set_umap (f _obj (umap db)) db else db).

(** *** One triple *)

(** [Database::exist_triple] on ids, outside of a transaction. *)
Definition exist_triple (_sub_id _pre_id _obj_id : Z) : M KV bool :=
  let! r := getobjIDlistBysubIDpreID junk _sub_id _pre_id in
  let _objidlist := default [] r in
  let! i := liftM (bsearch_int_uporder _obj_id _objidlist (len _objidlist)) in
  retM (negb (i =? INVALID)).

(** [Database::exist_triple] on strings. *)
Definition exist_striple (_triple : TripleWithObjType) : M DB bool :=
  let! sub_id := on_names Entities (getIDByStr (subject _triple)) in
  if sub_id =? INVALID then retM false
  else
    let! pre_id := on_names Predicates (getIDByStr (predicate _triple)) in
    if pre_id =? INVALID then retM false
    else
      let! obj_id := (if isObjEntity _triple then on_names Entities (getIDByStr (object _triple))
                      else if isObjLiteral _triple then on_names Literals (getIDByStr (object _triple))
                      else retM INVALID) in
      if obj_id =? INVALID then retM false else on_kv (exist_triple sub_id pre_id obj_id).

(** The id of a name, which is new when the flag is set; [None] when a dictionary
    refuses the name.  [on_new] is what else is done for a new name. *)
Definition intern (k : kind) (name : string) (on_new : M DB unit) : M DB (option (Z * bool)) :=
  let! _id := on_names k (getIDByStr name) in
  if _id =? INVALID then
    let! _id := on_names k (allocID k) in
    let! _ := on_new in
    let! ok := on_names k (setIDByStr name _id) in
    if negb ok then retM None
    else
      let! ok := on_names k (setStrByID k _id name) in
      if negb ok then retM None else retM (Some (_id, true))
  else retM (Some (_id, false)).

(** The three names of a triple, one after the other. *)
Definition intern_all (_triple : TripleWithObjType) (on_new : M DB unit) : M DB (option ((Z * bool) * (Z * bool) * (Z * bool))) :=
  let! sub := intern Entities (subject _triple) on_new in
  match sub with None => retM None | Some sub =>
  let! pre := intern Predicates (predicate _triple) (retM tt) in
  match pre with None => retM None | Some pre =>
  let! obj := intern (obj_kind _triple) (object _triple) (retM tt) in
  match obj with None => retM None | Some obj => retM (Some (sub, pre, obj)) end end end.

Definition insertTriple (_triple : TripleWithObjType) : M DB bool :=
  let! r := intern_all _triple (db_mod (fun db => set_sub_num (sub_num db ⊞ 1) db)) in
  match r with
  | None => retM false
  | Some ((_sub_id, _is_new_sub), (_pre_id, _is_new_pre), (_obj_id, _is_new_obj)) =>
      let! _ := (if isObjEntity _triple then count_type umap_inc (predicate _triple) (object _triple) else retM tt) in
      let! _triple_exist := (if negb _is_new_sub && negb _is_new_pre && negb _is_new_obj
                             then on_kv (exist_triple _sub_id _pre_id _obj_id) else retM false) in
      if (_triple_exist : bool) then retM false
      else
        let! _ := db_mod (fun db => set_triples_num (u64 (triples_num db + 1)) db) in
        let! _ := on_kv (updateTupleslist_insert junk _sub_id _pre_id _obj_id) in
        retM true
  end.

(** The name is deleted from the dictionaries and its id is free again. *)
Definition drop_name (k : kind) (_id : Z) (name : string) : M DB unit :=
  let! _ := on_names k (subStrByID k _id) in
  let! _ := on_names k (subIDByStr name) in
  on_names k (freeID k _id).

Definition degree_of (k : kind) (_id : Z) : M KV Z :=
  match k with
  | Entities => getEntityDegree _id
  | Literals => getLiteralDegree _id
  | Predicates => getPredicateDegree _id
  end.

Definition drop_sub_num : M DB unit := db_mod (fun db => set_sub_num (sub_num db ⊟ 1) db).

(** What becomes of the names of a removed triple. *)
Definition drop_subject (_sub_id : Z) (name : string) : M DB unit :=
  let! sub_degree := on_kv (getEntityDegree _sub_id) in
  if sub_degree =? 0 then
    let! _ := drop_name Entities _sub_id name in drop_sub_num
  else
    let! out := on_kv (getEntityOutDegree _sub_id) in
    if out =? 0 then drop_sub_num else retM tt.

Definition drop_unused (k : kind) (_id : Z) (name : string) : M DB unit :=
  let! d := on_kv (degree_of k _id) in
  if d =? 0 then drop_name k _id name else retM tt.

Definition removeTriple (_triple : TripleWithObjType) : M DB bool :=
  let! _sub_id := on_names Entities (getIDByStr (subject _triple)) in
  let! _pre_id := on_names Predicates (getIDByStr (predicate _triple)) in
  let! _obj_id := on_names (obj_kind _triple) (getIDByStr (object _triple)) in
  if (_sub_id =? INVALID) || (_pre_id =? INVALID) || (_obj_id =? INVALID) then retM false
  else
    let! _exist_triple := on_kv (exist_triple _sub_id _pre_id _obj_id) in
    if negb _exist_triple then retM false
    else
      let! _ := db_mod (fun db => set_triples_num (u64 (triples_num db - 1)) db) in
      let! _ := on_kv (updateTupleslist_remove junk _sub_id _pre_id _obj_id) in
      let! _ := drop_subject _sub_id (subject _triple) in
      let! _ := drop_unused (obj_kind _triple) _obj_id (object _triple) in
      let! _ := (if isObjEntity _triple then count_type umap_dec (predicate _triple) (object _triple) else retM tt) in
      let! _ := drop_unused Predicates _pre_id (predicate _triple) in
      retM true.

(** [Database::insert], [Database::remove] on an array of triples: how many
    triples were new or were there, as an [unsigned]; the latter starts numbering
    anew once there are no triples. *)
Fixpoint insert_each (_triples : list TripleWithObjType) (valid_num : Z) : M DB Z :=
  match _triples with
  | [] => retM valid_num
  | t :: rest => let! ret := insertTriple t in insert_each rest (if (ret : bool) then u64 (valid_num + 1) else valid_num)
  end.
Fixpoint remove_each (_triples : list TripleWithObjType) (valid_num : Z) : M DB Z :=
  match _triples with
  | [] => retM valid_num
  | t :: rest => let! ret := removeTriple t in remove_each rest (if (ret : bool) then u64 (valid_num + 1) else valid_num)
  end.

Definition insert (_triples : list TripleWithObjType) : M DB Z :=
  let! valid_num := insert_each _triples 0 in retM (u32 valid_num).

Definition resetIDinfo : M DB unit :=
  let reset k := on_names k (fun x => Some (tt, mk_Names (str2id x) (id2str x) 0 [] (id_num x))) in
  let! _ := reset Entities in let! _ := reset Literals in reset Predicates.

(** What [readIDinfo] makes of the files that [saveIDinfo] wrote; the dictionaries
    are files of their own. *)
Definition set_ids (x : ids) (y : Names I J) : Names I J := mk_Names (str2id y) (id2str y) x.1 x.2 (id_num y).
Definition reloadIDinfo (db : DB) : DB :=
  let file k := Some (saveIDinfo (get_names k db)) in
  let '(e, l, p) := readIDinfo (file Entities) (file Literals) (file Predicates) in
  set_names Entities (set_ids e (entities db)) (set_names Literals (set_ids l (literals db))
    (set_names Predicates (set_ids p (predicates db)) db)).

Definition remove (_triples : list TripleWithObjType) : M DB Z :=
  let! valid_num := remove_each _triples 0 in
  let! n := (fun db => Some (triples_num db, db)) in
  let! _ := (if n =? 0 then resetIDinfo else retM tt) in retM (u32 valid_num).
End Code.

(** * Batches of triples of strings

    [Database::batch_insert], [Database::batch_remove] (Database/Database.cpp)
    outside of transactions: the names of all triples are looked up first, new
    names get their ids and are entered into the dictionaries, then the indexes
    are updated by the passes of [KVbatch], and after a removal the names without
    triples are dropped. *)

(** The local variables of the loop of [batch_insert]: the new names of each
    kind, the ids that were new subjects and objects, and the number of new
    subjects. *)
Record locals := mk_locals {
  name_maps : kind -> gmap string Z;
  sub_lists : gset Z;
  obj_lists : gset Z;
  update_num_subject : Z }.

Definition no_locals : locals := mk_locals (fun _ => ∅) ∅ ∅ 0.

(** The list that the getter of the pairs of a predicate returns. *)
Fixpoint pair_up (l : list Z) : list (Z * Z) :=
  match l with s :: o :: l' => (s, o) :: pair_up l' | _ => [] end.

Section Code.
Context {S I J : Type} `{VS : ValueStore S} `{SI : StrIndex I} `{SA : StrArray J}.
Context (enough : Z -> bool) (junk : nat -> Z).
Abbreviation DB := (Database S I J).

(** *** Names *)

(** The id of a name; the flag says that it is new. *)
Definition batch_name (k : kind) (name : string) (maps : kind -> gmap string Z) : M DB (Z * bool * (kind -> gmap string Z)) :=
  let! _id := on_names k (getIDByStr name) in
  if _id =? INVALID then
    match maps k !! name with
    | None => let! _id := on_names k (allocID k) in retM (_id, true, upd_kind k (<[name := _id]> (maps k)) maps)
    | Some _id => retM (_id, false, maps)
    end
  else retM (_id, false, maps).

Definition count_subject (_sub_id : Z) (fresh : bool) (l : locals) : locals :=
  if fresh || (bool_decide (_sub_id ∈ obj_lists l) && bool_decide (_sub_id ∉ sub_lists l))
  then mk_locals (name_maps l) ({[_sub_id]} ∪ sub_lists l) (obj_lists l) (update_num_subject l ⊞ 1) else l.
Definition count_object (_obj_id : Z) (fresh is_obj_entity : bool) (l : locals) : locals :=
  if fresh && is_obj_entity
  then mk_locals (name_maps l) (sub_lists l) ({[_obj_id]} ∪ obj_lists l) (update_num_subject l) else l.
Definition set_maps (maps : kind -> gmap string Z) (l : locals) : locals :=
  mk_locals maps (sub_lists l) (obj_lists l) (update_num_subject l).

Definition batch_names (t : TripleWithObjType) (l : locals) : M DB (triple * locals) :=
  let! sub := batch_name Entities (subject t) (name_maps l) in
  let l := count_subject sub.1.1 sub.1.2 (set_maps sub.2 l) in
  let! pre := batch_name Predicates (predicate t) (name_maps l) in
  let l := set_maps pre.2 l in
  let! obj := batch_name (obj_kind t) (object t) (name_maps l) in
  let l := count_object obj.1.1 obj.1.2 (isObjEntity t) (set_maps obj.2 l) in
  retM ((sub.1.1, pre.1.1, obj.1.1), l).

Fixpoint collect_names (ts : list TripleWithObjType) (l : locals) : M DB (list triple * locals) :=
  match ts with
  | [] => retM ([], l)
  | t :: ts' =>
      let! r := batch_names t l in
      let! rs := collect_names ts' r.2 in
      retM (r.1 :: rs.1, rs.2)
  end.

(** [batchSetIDByEntity] and its twins; what the dictionaries answer is ignored. *)
Definition batchSetID (k : kind) (m : gmap string Z) : M DB unit :=
  for_each (map_to_list m) (fun e => let! _ := on_names k (setIDByStr e.1 e.2) in retM tt).
Definition batchSetStr (k : kind) (m : gmap string Z) : M DB unit :=
  for_each (map_to_list m) (fun e => let! _ := on_names k (setStrByID k e.2 e.1) in retM tt).
Definition batch_set (k : kind) (m : gmap string Z) : M DB unit :=
  let! _ := batchSetID k m in batchSetStr k m.

Definition batch_set_all (maps : kind -> gmap string Z) : M DB unit :=
  let! _ := batch_set Entities (maps Entities) in
  let! _ := batch_set Predicates (maps Predicates) in
  batch_set Literals (maps Literals).

(** *** Statistics *)

(** One pair of [updateUmap]; [known] are the pairs that were there before. *)
Definition count_pair (ins : bool) (known : gset (Z * Z)) (so : Z * Z) : M DB unit :=
  if negb (is_entity_ele so.2) then retM tt
  else
    let! _obj := on_names Entities (getStrByID Entities so.2) in
    if bool_decide (_obj = EmptyString) then retM tt
    else if ins then
      if bool_decide (so ∈ known) then retM tt
      else db_mod (fun db => set_umap (umap_inc _obj (umap db)) db)
    else db_mod (fun db => set_umap (umap_dec _obj (umap db)) db).

Definition updateUmap (ins : bool) (_sidoidlist : list Z) (pred_id : Z) : M DB unit :=
  if len _sidoidlist =? 0 then retM tt
  else
    let! _pre := on_names Predicates (getStrByID Predicates pred_id) in
    let! db := (fun db => Some (db, db)) in
    if negb (checkIsTypePredicate _pre db) then retM tt
    else
      let! known := (if ins then let! l := on_kv (getsubIDobjIDlistBypreID junk pred_id) in
                                 retM (list_to_set (filter (fun so => is_entity_ele so.2 = true) (pair_up (default [] l))))
                     else retM ∅) in
      for_each (pair_up _sidoidlist) (count_pair ins known).

(** The runs of the tuples sorted by predicate. *)
Definition batch_statistics (ins : bool) (ts : list triple) : M DB unit :=
  match sort_tuples pso_cmp_idtuple ts with
  | [] => retM tt
  | (t :: _) as us =>
      let! _ := batch_loop preid (fun t => [subid t; objid t])
                  (fun p data => let! _ := updateUmap ins data p in retM 0) (preid t) [] 0 us in
      retM tt
  end.

(** *** The batches *)

Definition db_batch_insert (_triples : list TripleWithObjType) : M DB Z :=
  if len _triples =? 0 then retM 0
  else
    let! r := collect_names _triples no_locals in
    let! _ := batch_set_all (name_maps r.2) in
    let ts := unique_tuples (sort_tuples spo_cmp_idtuple r.1) in
    let! _ := batch_statistics true ts in
    let! nums := on_kv (batch_passes enough junk true ts) in
    let '(update_num_s, update_num_p, update_num_o) := nums in
    let update_num_triple := Z.max (Z.max update_num_s update_num_p) update_num_o in
    let! _ := db_mod (fun db => set_triples_num (u64 (triples_num db + update_num_triple)) db) in
    let! _ := db_mod (fun db => set_sub_num (sub_num db ⊞ update_num_subject r.2) db) in
    retM update_num_s.

(** The ids of a triple of [batch_remove], if all its names are known. *)
Definition known_ids (t : TripleWithObjType) : M DB (option triple) :=
  let! _sub_id := on_names Entities (getIDByStr (subject t)) in
  if _sub_id =? INVALID then retM None
  else
    let! _pre_id := on_names Predicates (getIDByStr (predicate t)) in
    if _pre_id =? INVALID then retM None
    else
      let! _obj_id := on_names (obj_kind t) (getIDByStr (object t)) in
      if _obj_id =? INVALID then retM None else retM (Some (_sub_id, _pre_id, _obj_id)).

Fixpoint collect_known (ts : list TripleWithObjType) : M DB (list (option triple)) :=
  match ts with
  | [] => retM []
  | t :: ts' => let! x := known_ids t in let! xs := collect_known ts' in retM (x :: xs)
  end.

(** A [std::set] is walked in increasing order. *)
Definition id_sequence (ids : list Z) : list Z := merge_sort Z.le (elements (list_to_set ids : gset Z)).

(** An id without triples and its name; [true] when they were dropped. *)
Definition drop_id (k : kind) (_id : Z) : M DB bool :=
  let! d := on_kv (degree_of k _id) in
  if d =? 0 then
    let! name := on_names k (getStrByID k _id) in
    if bool_decide (name = EmptyString) then retM false
    else let! _ := drop_name k _id name in retM true
  else retM false.

Fixpoint drop_ids (k : Z -> kind) (ids : list Z) (num : Z) : M DB Z :=
  match ids with
  | [] => retM num
  | _id :: ids' => let! b := drop_id (k _id) _id in drop_ids k ids' (if (b : bool) then num ⊞ 1 else num)
  end.

(** The three loops over the sets of ids; the number of subjects dropped. *)
Definition object_kind (_id : Z) : kind := if is_entity_ele _id then Entities else Literals.
Definition drop_all (known : list triple) : M DB Z :=
  let! update_num_subject := drop_ids (fun _ => Entities) (id_sequence (subid <$> known)) 0 in
  let! _ := drop_ids object_kind (id_sequence (objid <$> known)) 0 in
  let! _ := drop_ids (fun _ => Predicates) (id_sequence (preid <$> known)) 0 in
  retM update_num_subject.

(** [mem] is what the memory of the tuples holds. *)
Definition db_batch_remove (mem : list triple) (_triples : list TripleWithObjType) : M DB Z :=
  if len _triples =? 0 then retM 0
  else
    let! ids := collect_known _triples in
    let known := omap id ids in
    let ts := unique_tuples (sort_tuples spo_cmp_idtuple (collect_id_tuples mem ids)) in
    let! _ := batch_statistics false ts in
    let! nums := on_kv (batch_passes enough junk false ts) in
    let '(update_num_s, update_num_p, update_num_o) := nums in
    let update_num_triple := Z.max (Z.max 0 update_num_p) update_num_o in
    let! update_num_subject := drop_all known in
    let! _ := db_mod (fun db => set_triples_num (u64 (triples_num db - update_num_triple)) db) in
    let! _ := db_mod (fun db => set_sub_num (if update_num_subject <? sub_num db then sub_num db ⊟ update_num_subject else 0) db) in
    retM update_num_s.
End Code.
