(* ===== verification/DatabaseSpec.v ===== *)
(** * What the database represents

    A database stands for a set of triples of strings ([holds]): the names in use
    are exactly the names of the triples, each with an id of its own, and the
    indexes represent the triples of their ids.  Between the steps of an
    operation, [db_at] says which names the dictionaries have. *)

From stdpp Require Import strings.
From S2P Require Import Prelude Util ValueList BatchInsertSpec ValueStore KVstore TripleSet KVget KVtheorems KVbatch KVbatchSpec Names Database.

(** Subject, predicate, whether the object is an entity, object. *)
Definition striple := (string * string * bool * string)%type.
Definition skey (t : TripleWithObjType) : striple := (subject t, predicate t, isObjEntity t, object t).

Definition okind (b : bool) : kind := if b then Entities else Literals.

Definition names_of (k : kind) (t : striple) : list string :=
  let '(s, p, b, o) := t in
  match k with
  | Predicates => [p]
  | Entities => if b then [s; o] else [s]
  | Literals => if b then [] else [o]
  end.
Lemma elem_names_of k s' s p b o : s' ∈ names_of k (s, p, b, o) <->
  (k = Entities /\ s' = s) \/ (k = Predicates /\ s' = p) \/ (k = (if b then Entities else Literals) /\ s' = o).
Proof.
  destruct k, b; cbn; rewrite ?elem_of_cons, ?elem_of_nil; naive_solver.
Qed.

Definition uses (k : kind) (D : gset striple) (s : string) : Prop := exists t, t ∈ D /\ s ∈ names_of k t.

Definition ids_of (A : kind -> gmap string Z) (t : striple) : option triple :=
  let '(s, p, b, o) := t in
  i ← A Entities !! s; j ← A Predicates !! p; l ← A (okind b) !! o; Some (i, j, l).

Definition with_name (k : kind) (s : string) (i : Z) (E : kind -> gmap string Z) : kind -> gmap string Z :=
  upd_kind k (<[s := i]> (E k)) E.
Definition without_name (k : kind) (s : string) (E : kind -> gmap string Z) : kind -> gmap string Z :=
  upd_kind k (delete s (E k)) E.

(** The number of triples after a step. *)
Lemma size_add (t : striple) (D : gset striple) : Z.of_nat (base.size ({[t]} ∪ D)) = Z.of_nat (base.size D) + (if bool_decide (t ∉ D) then 1 else 0).
Proof.
  case_bool_decide as Hin; [rewrite size_union, size_singleton by set_solver; lia|].
  replace ({[t]} ∪ D) with D by (apply set_eq; intros z; destruct (decide (z = t)) as [->|]; set_solver). lia.
Qed.
Lemma size_sub (t : striple) (D : gset striple) : Z.of_nat (base.size D) = Z.of_nat (base.size (D ∖ {[t]})) + (if bool_decide (t ∈ D) then 1 else 0).
Proof.
  case_bool_decide as Hin; [|replace (D ∖ {[t]}) with D by set_solver; lia].
  replace D with ({[t]} ∪ D ∖ {[t]}) at 1 by (apply set_eq; intros z; destruct (decide (z = t)) as [->|]; set_solver).
  rewrite size_add, bool_decide_eq_true_2 by set_solver. lia.
Qed.

(** Equations between updates of one kind. *)
Ltac kinds :=
  let k' := fresh in intros k'; unfold with_name, without_name, upd_kind;
  repeat match goal with |- context [decide (?a = ?b)] => destruct (decide (a = b)) end; subst; done.

Section Spec.
Context {S I J : Type} `{VSL : ValueStoreLaws S} `{SIL : StrIndexLaws I} `{SAL : StrArrayLaws J}.
Abbreviation DB := (Database S I J).

(** The names in the trees, in the arrays, all names with an id, the triples of
    the indexes and their number. *)
Record db_at (n : nat) (db : DB) (E1 E2 A : kind -> gmap string Z) (T : triples) (c : Z) : Prop := {
  da_names k : names_at k n (get_names k db) (E1 k) (E2 k) (A k);
  da_kv : represents (kvstore db) T;
  da_room : kv_room n (kvstore db);
  da_num : triples_num db = c }.

Lemma db_at_le n db E1 E2 A T c : db_at (Datatypes.S n) db E1 E2 A T c -> db_at n db E1 E2 A T c.
Proof using Type.
  intros [H1 H2 H3 H4]. split; [|done| |done]; [intros k; by apply names_at_le|]. by apply (kv_room_le _ _ (Datatypes.S n)); [lia|].
Qed.

Lemma db_at_weaken m n db E1 E2 A T c : (m <= n)%nat -> db_at n db E1 E2 A T c -> db_at m db E1 E2 A T c.
Proof using Type. induction 1 as [|n _ IH]; [done|]. intros H. by apply IH, db_at_le. Qed.

Lemma db_at_ext n db E1 E2 A E1' E2' A' T c : (forall k, E1 k = E1' k) -> (forall k, E2 k = E2' k) -> (forall k, A k = A' k) ->
  db_at n db E1 E2 A T c -> db_at n db E1' E2' A' T c.
Proof using Type. intros H1 H2 H3 [D1 D2 D3 D4]. split; [|done..]. intros k. by rewrite <- H1, <- H2, <- H3. Qed.

(** *** Calls on a part of the state *)

Lemma on_names_ok {X} k (m : M (Names I J) X) n db E1 E2 A T c (e1 e2 a : X -> gmap string Z) (Q : X -> Prop) :
  db_at (Datatypes.S n) db E1 E2 A T c ->
  wpM m (get_names k db) (fun r x' => names_at k n x' (e1 r) (e2 r) (a r) /\ Q r) ->
  wpM (on_names k m) db (fun r db' => db_at n db' (upd_kind k (e1 r) E1) (upd_kind k (e2 r) E2) (upd_kind k (a r) A) T c /\ Q r).
Proof using Type.
  intros H Hm. apply db_at_le in H as [H1 H2 H3 H4]. destruct (wpM_inv _ _ _ Hm) as (r&x'&Hr&Hx&HQ).
  unfold on_names, wpM. rewrite Hr. cbn. split; [|done]. split.
  - intros k'. unfold upd_kind. destruct (decide (k' = k)) as [->|Hne]; [by destruct k|].
    specialize (H1 k'). by destruct k, k'.
  - by destruct k.
  - by destruct k.
  - by destruct k.
Qed.

Lemma on_names_read {X} k (m : M (Names I J) X) n db E1 E2 A T c (Q : X -> Prop) :
  db_at (Datatypes.S n) db E1 E2 A T c ->
  wpM m (get_names k db) (fun r x' => names_at k n x' (E1 k) (E2 k) (A k) /\ Q r) ->
  wpM (on_names k m) db (fun r db' => db_at n db' E1 E2 A T c /\ Q r).
Proof using Type.
  intros H Hm. eapply wpM_mono; [|by apply (on_names_ok k m n db E1 E2 A T c (fun _ => E1 k) (fun _ => E2 k) (fun _ => A k) Q)].
  intros r db' [Hd HQ]. split; [|done].
  eapply db_at_ext, Hd; kinds.
Qed.

Lemma on_kv_ok {X} (m : M (KVstore S) X) n n' db E1 E2 A T T' c (Q : X -> Prop) :
  db_at n db E1 E2 A T c -> (n' <= n)%nat ->
  wpM m (kvstore db) (fun r kv' => Q r /\ represents kv' T' /\ kv_room n' kv') ->
  wpM (on_kv m) db (fun r db' => db_at n' db' E1 E2 A T' c /\ Q r).
Proof using Type.
  intros H Hle Hm. apply (db_at_weaken n' n) in H as [H1 H2 H3 H4]; [|done]. destruct (wpM_inv _ _ _ Hm) as (r&kv'&Hr&HQ&HR&Hn).
  unfold on_kv, wpM. rewrite Hr. cbn. split; [|done]. split; [|done..]. intros k. specialize (H1 k). by destruct k.
Qed.

Lemma getID_ok k s n db E1 E2 A T c : db_at (Datatypes.S n) db E1 E2 A T c ->
  wpM (on_names k (getIDByStr s)) db (fun r db' => db_at n db' E1 E2 A T c /\ r = default INVALID (E1 k !! s)).
Proof using Type.
  intros H. eapply on_names_read; [done|]. eapply wpM_mono, getIDByStr_ok, H. intros r x' [-> Hx]. done.
Qed.

Lemma getStr_ok k s i n db E1 E2 A T c : db_at (Datatypes.S n) db E1 E2 A T c -> E2 k !! s = Some i ->
  wpM (on_names k (getStrByID k i)) db (fun r db' => db_at n db' E1 E2 A T c /\ r = s).
Proof using Type.
  intros H Hs. eapply on_names_read; [done|]. eapply wpM_mono; [|by apply (getStrByID_ok k n _ _ _ _ s i (da_names _ _ _ _ _ _ _ H k))].
  intros r x' [-> Hx]. done.
Qed.

(** An id in use is not [INVALID]. *)
Lemma da_valid n db E1 E2 A T c k s i : db_at n db E1 E2 A T c -> A k !! s = Some i -> word i /\ (i =? INVALID) = false.
Proof using Type.
  intros H Hs. destruct (na_key k _ _ _ _ _ s i (da_names _ _ _ _ _ _ _ H k) Hs) as (Hw&_&_&Hb). pose proof (id_base_bound k).
  split; [done|]. apply Z.eqb_neq. unfold INVALID, LITERAL_FIRST_ID in *. word_lia.
Qed.

(** *** A name for a triple *)

(** What may be done in between without changing what the state stands for. *)
Definition harmless (m : M DB unit) : Prop := forall n db E1 E2 A T c,
  db_at n db E1 E2 A T c -> wpM m db (fun _ db' => db_at n db' E1 E2 A T c).

Lemma harmless_ret : harmless (retM tt).
Proof using Type. intros n db E1 E2 A T c H. by apply wpM_ret. Qed.
Lemma harmless_mod f : (forall db k, get_names k (f db) = get_names k db) -> (forall db, kvstore (f db) = kvstore db) ->
  (forall db, triples_num (f db) = triples_num db) -> harmless (db_mod f).
Proof using Type.
  intros H1 H2 H3 n db E1 E2 A T c [D1 D2 D3 D4]. unfold db_mod, wpM. cbn. split; [intros k; by rewrite H1|by rewrite H2..|by rewrite H3].
Qed.
Lemma harmless_sub f : harmless (db_mod (fun db => set_sub_num (f (sub_num db)) db)).
Proof using Type. apply harmless_mod; [by intros db []|done..]. Qed.
Lemma harmless_count f p o : harmless (count_type f p o).
Proof using Type. apply harmless_mod; intros db; destruct (checkIsTypePredicate p db); try done; by intros []. Qed.

Lemma with_name_self k s i E : with_name k s i E k = <[s := i]> (E k).
Proof using Type. unfold with_name, upd_kind. by rewrite decide_True. Qed.
Lemma with_name_other k k' s i E : k' <> k -> with_name k s i E k' = E k'.
Proof using Type. intros Hne. unfold with_name, upd_kind. by rewrite decide_False. Qed.

Lemma alloc_ok k s n db E1 E2 A T c : db_at (Datatypes.S n) db E1 E2 A T c -> A k !! s = None ->
  wpM (on_names k (allocID k)) db (fun i db' => db_at n db' E1 E2 (with_name k s i A) T c).
Proof using Type.
  intros H Hs. eapply wpM_mono; [|apply (on_names_ok k _ n db E1 E2 A T c (fun _ => E1 k) (fun _ => E2 k) (fun i => <[s := i]> (A k)) (fun _ => True) H)].
  - intros i db' [Hd _]. eapply db_at_ext, Hd; kinds.
  - eapply wpM_mono; [|by apply (allocID_ok k n _ _ _ _ s (da_names _ _ _ _ _ _ _ H k))]. done.
Qed.

Lemma setID_ok k s i n db E1 E2 A T c : db_at (Datatypes.S n) db E1 E2 A T c -> si_fits I s -> A k !! s = Some i -> E1 k !! s = None ->
  wpM (on_names k (setIDByStr s i)) db (fun r db' => db_at n db' (with_name k s i E1) E2 A T c /\ r = true).
Proof using Type.
  intros H Hf Hs HE. eapply wpM_mono; [|apply (on_names_ok k _ n db E1 E2 A T c (fun _ => <[s := i]> (E1 k)) (fun _ => E2 k) (fun _ => A k) (fun r => r = true) H)].
  - intros r db' [Hd ->]. split; [|done]. eapply db_at_ext, Hd; kinds.
  - eapply wpM_mono; [|by apply (setIDByStr_ok k n _ _ _ _ s i (da_names _ _ _ _ _ _ _ H k))]. by intros r x' [-> ?].
Qed.

Lemma setStr_ok k s i n db E1 E2 A T c : db_at (Datatypes.S n) db E1 E2 A T c -> sa_fits J s -> A k !! s = Some i -> E2 k !! s = None ->
  wpM (on_names k (setStrByID k i s)) db (fun r db' => db_at n db' E1 (with_name k s i E2) A T c /\ r = true).
Proof using Type.
  intros H Hf Hs HE. eapply wpM_mono; [|apply (on_names_ok k _ n db E1 E2 A T c (fun _ => E1 k) (fun _ => <[s := i]> (E2 k)) (fun _ => A k) (fun r => r = true) H)].
  - intros r db' [Hd ->]. split; [|done]. eapply db_at_ext, Hd; kinds.
  - eapply wpM_mono; [|by apply (setStrByID_ok k n _ _ _ _ s i (da_names _ _ _ _ _ _ _ H k))]. by intros r x' [-> ?].
Qed.

Lemma intern_ok k s on_new n db E T c : db_at (4 + n) db E E E T c -> name_ok (I := I) (J := J) s -> harmless on_new ->
  wpM (intern k s on_new) db (fun r db' => exists i,
    (r = Some (i, false) /\ E k !! s = Some i /\ db_at n db' E E E T c) \/
    (r = Some (i, true) /\ E k !! s = None /\
     db_at n db' (with_name k s i E) (with_name k s i E) (with_name k s i E) T c)).
Proof using Type.
  intros H (Hne&Hf1&Hf2) Hnew. unfold intern. apply wpM_bind. eapply wpM_mono; [|by apply (getID_ok k s (3 + n))].
  intros r db1 [H1 ->]. destruct (E k !! s) as [i|] eqn:Es; simpl.
  { destruct (da_valid _ _ _ _ _ _ _ _ _ _ H Es) as [_ ->]. apply wpM_ret. exists i. left. split_and!; [done|done|].
    by apply (db_at_weaken n (3 + n)); [lia|]. }
  apply wpM_bind.
  eapply wpM_mono; [|by apply (alloc_ok k s (2 + n))]. intros i db2 H2. cbv beta in H2. apply wpM_bind.
  eapply wpM_mono; [|exact (Hnew _ _ _ _ _ _ _ H2)]. intros u db3 H3. cbv beta in H3. apply wpM_bind.
  assert (Hi : with_name k s i E k !! s = Some i) by (unfold with_name, upd_kind; by rewrite decide_True, lookup_insert_eq).
  eapply wpM_mono; [|by apply (setID_ok k s i (1 + n))]. intros r4 db4 [H4 ->]. cbn [negb]. apply wpM_bind.
  eapply wpM_mono; [|by apply (setStr_ok k s i n)]. intros r5 db5 [H5 ->]. cbn [negb]. apply wpM_ret. exists i. by right.
Qed.

(** *** Triples of strings and triples of ids *)

Record matches (D : gset striple) (A : kind -> gmap string Z) (T : triples) : Prop := {
  ma_names k s : is_Some (A k !! s) <-> uses k D s;
  ma_triples x : x ∈ T <-> exists t, t ∈ D /\ ids_of A t = Some x }.

(** The database holds the triples [D]. *)
Definition holds (n : nat) (D : gset striple) (db : DB) : Prop :=
  exists A T, db_at n db A A A T (Z.of_nat (base.size D)) /\ matches D A T.

Lemma ids_of_Some (A : kind -> gmap string Z) s p b o x : ids_of A (s, p, b, o) = Some x <->
  A Entities !! s = Some x.1.1 /\ A Predicates !! p = Some x.1.2 /\ A (okind b) !! o = Some x.2.
Proof using Type.
  cbn. destruct x as [[i j] l]. cbn. destruct (A Entities !! s); cbn; [|split; [done|by intros [? _]]].
  destruct (A Predicates !! p); cbn; [|split; [done|by intros (_&?&_)]].
  destruct (A (okind b) !! o); cbn; [|split; [done|by intros (_&_&?)]]. split; [by intros [= -> -> ->]|by intros ([= ->]&[= ->]&[= ->])].
Qed.

Section Ids.
Context (n : nat) (db : DB) (E1 E2 A : kind -> gmap string Z) (T0 : triples) (c : Z) (H : db_at n db E1 E2 A T0 c).

Lemma id_range k s i : A k !! s = Some i -> id_base k <= i < id_base k + LITERAL_FIRST_ID.
Proof using H.
  intros Hs. pose proof (na_used _ _ _ _ _ _ (da_names _ _ _ _ _ _ _ H k) s i Hs).
  pose proof (na_limit _ _ _ _ _ _ (da_names _ _ _ _ _ _ _ H k)). lia.
Qed.

Lemma id_key a k s i : A k !! s = Some i -> k = match a with Sub => Entities | Pre => Predicates | Obj => k end ->
  (a = Obj -> k <> Predicates) -> key_ok a i.
Proof using H.
  intros Hs Hk Hp. apply id_range in Hs as Hr. unfold key_ok, word, KEY_LIMIT, W32.
  destruct a; cbn; [subst k; cbn in Hr; unfold LITERAL_FIRST_ID in *; lia..|].
  destruct k; [| |by destruct Hp]; cbn in Hr; unfold is_literal_ele, LITERAL_FIRST_ID in *.
  - rewrite (proj2 (Z.leb_gt _ _)) by lia. cbn. lia.
  - rewrite (proj2 (Z.leb_le _ _)) by lia. cbn.
    assert (i ⊟ 2000000000 = i - 2000000000) as -> by (apply u32_small; unfold W32; lia). lia.
Qed.

Lemma ids_ok t x : ids_of A t = Some x -> triple_ok x /\ is_entity_ele x.1.1 = true.
Proof using H.
  destruct t as [[[s p] b] o]. rewrite ids_of_Some. destruct x as [[i j] l]. cbn. intros (Hs&Hp&Ho). split_and!.
  - by apply (id_key Sub Entities s).
  - by apply (id_key Pre Predicates p).
  - apply (id_key Obj (okind b) o); [done|done|]. by destruct b.
  - apply id_range in Hs. unfold is_entity_ele. cbn in Hs. apply Z.ltb_lt. lia.
Qed.

Lemma ids_inj t t' x : ids_of A t = Some x -> ids_of A t' = Some x -> t = t'.
Proof using H.
  destruct t as [[[s p] b] o], t' as [[[s' p'] b'] o']. rewrite !ids_of_Some. intros (H1&H2&H3) (H1'&H2'&H3').
  assert (s = s') as -> by (by eapply (na_inj _ _ _ _ _ _ (da_names _ _ _ _ _ _ _ H Entities))).
  assert (p = p') as -> by (by eapply (na_inj _ _ _ _ _ _ (da_names _ _ _ _ _ _ _ H Predicates))).
  assert (b = b') as <-.
  { pose proof (id_range _ _ _ H3). pose proof (id_range _ _ _ H3'). destruct b, b'; cbn in *; (done || lia). }
  assert (o = o') as -> by (by eapply (na_inj _ _ _ _ _ _ (da_names _ _ _ _ _ _ _ H (okind b)))). done.
Qed.

(** There are as many triples of ids as triples of strings. *)
Lemma matches_size D T : matches D A T -> base.size T = base.size D.
Proof using H.
  intros [Hn Ht]. assert (Hall : forall t, t ∈ D -> is_Some (ids_of A t)).
  { intros [[[s p] b] o] Hin. assert (Hu : forall k s', s' ∈ names_of k (s, p, b, o) -> is_Some (A k !! s')).
    { intros k s' Hs'. apply Hn. by exists (s, p, b, o). }
    destruct (Hu Entities s) as [i Hi]; [destruct b; left|]. destruct (Hu Predicates p) as [j Hj]; [left|].
    destruct (Hu (okind b) o) as [l Hl]; [destruct b; [right; left|left]|].
    exists (i, j, l). by apply ids_of_Some. }
  assert (Hp : elements T ≡ₚ omap (ids_of A) (elements D)).
  { apply NoDup_Permutation; [apply NoDup_elements| |].
    - apply NoDup_omap_inj; [|apply NoDup_elements]. exact ids_inj.
    - intros x. rewrite elem_of_elements, Ht, list_elem_of_omap. setoid_rewrite elem_of_elements. done. }
  unfold base.size, set_size. cbn. rewrite Hp. clear Hp.
  assert (Hl : Forall (fun t => is_Some (ids_of A t)) (elements D)).
  { apply Forall_forall. intros t Hin%elem_of_elements. by apply Hall. }
  induction Hl as [|t l [x Hx] _ IH]; [done|]. cbn. rewrite Hx. cbn. by f_equal.
Qed.
End Ids.

(** *** Insertion *)

(** [A'] has the ids of [A] and ids for the names [P]. *)
Definition grows (A A' : kind -> gmap string Z) (P : kind -> string -> Prop) : Prop :=
  (forall k s i, A k !! s = Some i -> A' k !! s = Some i) /\
  (forall k s, is_Some (A' k !! s) <-> is_Some (A k !! s) \/ P k s).

Lemma intern_grows k s on_new n db E T c : db_at (4 + n) db E E E T c -> name_ok (I := I) (J := J) s -> harmless on_new ->
  wpM (intern k s on_new) db (fun r db' => exists i E', r = Some (i, bool_decide (E k !! s = None)) /\
    E' k !! s = Some i /\ grows E E' (fun k' s' => k' = k /\ s' = s) /\ db_at n db' E' E' E' T c).
Proof using Type.
  intros H Hs Hnew. eapply wpM_mono; [|by apply intern_ok]. intros r db' (i&[(->&Hi&H')|(->&Hi&H')]).
  - exists i, E. rewrite Hi. split_and!; [done|done| |done]. split; [done|]. intros k' s'. split; [by left|]. intros [?|[-> ->]]; [done|by exists i].
  - exists i, (with_name k s i E). rewrite Hi, with_name_self, lookup_insert_eq. split_and!; [done|done| |done]. split.
    + intros k' s' i' Hs'. destruct (decide (k' = k)) as [->|Hne]; [|by rewrite with_name_other].
      rewrite with_name_self, lookup_insert_ne; [done|congruence].
    + intros k' s'. destruct (decide (k' = k)) as [->|Hne]; [|rewrite with_name_other by done; tauto].
      rewrite with_name_self. destruct (decide (s' = s)) as [->|Hne]; [rewrite lookup_insert_eq; split; [by right|by eexists]|].
      rewrite lookup_insert_ne by done. split; [by left|]. intros [?|[_ ?]]; done.
Qed.

Lemma grows_ids A A' P t x : grows A A' P -> ids_of A t = Some x -> ids_of A' t = Some x.
Proof using Type. destruct t as [[[s p] b] o]. rewrite !ids_of_Some. intros [Hg _] (?&?&?). auto. Qed.

(** The names of the triples are exactly those in use. *)
Lemma ids_of_used D A T t : matches D A T -> t ∈ D -> is_Some (ids_of A t).
Proof using Type.
  intros [Hn _] Hin. destruct t as [[[s p] b] o]. assert (Hu : forall k s', s' ∈ names_of k (s, p, b, o) -> is_Some (A k !! s')).
  { intros k s' Hs'. apply Hn. by exists (s, p, b, o). }
  destruct (Hu Entities s) as [i Hi]; [apply elem_names_of; tauto|]. destruct (Hu Predicates p) as [j Hj]; [apply elem_names_of; tauto|].
  destruct (Hu (okind b) o) as [l Hl]; [apply elem_names_of; tauto|]. exists (i, j, l). by apply ids_of_Some.
Qed.

Lemma matches_add D A A' T t x : matches D A T -> grows A A' (fun k s => s ∈ names_of k t) -> ids_of A' t = Some x ->
  matches ({[t]} ∪ D) A' ({[x]} ∪ T).
Proof using Type.
  intros Hm Hg Hx. pose proof Hm as [Hn Ht]. pose proof (proj2 Hg) as Hg2. split.
  - intros k s. rewrite Hg2, Hn. unfold uses. split.
    + intros [(t'&Ht'&Hs)|Hs]; [exists t'|exists t]; split; set_solver.
    + intros (t'&[->%elem_of_singleton|Ht']%elem_of_union&Hs); [by right|left; by exists t'].
  - intros y. rewrite elem_of_union, elem_of_singleton, Ht. split.
    + intros [->|(t'&Ht'&Hy)]; [exists t; split; [set_solver|done]|]. exists t'. split; [set_solver|]. by eapply grows_ids.
    + intros (t'&[->%elem_of_singleton|Ht']%elem_of_union&Hy); [left; congruence|right]. exists t'. split; [done|].
      destruct (ids_of_used D A T t' Hm Ht') as [z Hz]. rewrite Hz. rewrite <- Hy. symmetry. by eapply grows_ids.
Qed.

(** A triple of ids is stored exactly when its triple of strings is there. *)
Lemma stored_iff n db E1 E2 A A' T0 c D T t x P : db_at n db E1 E2 A' T0 c -> matches D A T -> grows A A' P ->
  ids_of A' t = Some x -> x ∈ T <-> t ∈ D.
Proof using Type.
  intros Hd Hm Hg Hx. rewrite (ma_triples _ _ _ Hm). split.
  - intros (t'&Ht'&Hx'). assert (t = t') as ->; [|done]. eapply (ids_inj _ _ _ _ _ _ _ Hd); [done|by eapply grows_ids].
  - intros Hin. exists t. split; [done|]. destruct (ids_of_used D A T t Hm Hin) as [z Hz]. rewrite Hz. rewrite <- Hx. symmetry. by eapply grows_ids.
Qed.
End Spec.

Section Insert.
Context {S I J : Type} `{VSL : ValueStoreLaws S} `{SIL : StrIndexLaws I} `{SAL : StrArrayLaws J}.
Abbreviation DB := (Database S I J).
Abbreviation name_ok := (name_ok (I := I) (J := J)).

(** The names of a triple are acceptable. *)
Definition names_fit (t : TripleWithObjType) : Prop := name_ok (subject t) /\ name_ok (predicate t) /\ name_ok (object t).

Definition names_ids (t : TripleWithObjType) (sub pre obj : Z * bool) (A A' : kind -> gmap string Z) : Prop :=
  grows A A' (fun k s => s ∈ names_of k (skey t)) /\ ids_of A' (skey t) = Some (sub.1, pre.1, obj.1) /\
  (sub.2 || pre.2 || obj.2 = true -> ~ is_Some (ids_of A (skey t))).

Lemma intern_all_ok t on_new n (db : DB) A T c : db_at (12 + n) db A A A T c -> names_fit t -> harmless on_new ->
  wpM (intern_all t on_new) db (fun r db' => exists sub pre obj A', r = Some (sub, pre, obj) /\
    names_ids t sub pre obj A A' /\ db_at n db' A' A' A' T c).
Proof using Type.
  intros H (Hs&Hp&Ho) Hnew. unfold intern_all. apply wpM_bind.
  eapply wpM_mono; [|by apply (intern_grows Entities (subject t) on_new (8 + n))]. intros r1 db1 (i&A1&->&Hi&[G1 G1']&H1). apply wpM_bind.
  eapply wpM_mono; [|apply (intern_grows Predicates (predicate t) (retM tt) (4 + n)); [done|done|apply harmless_ret]].
  intros r2 db2 (j&A2&->&Hj&[G2 G2']&H2). apply wpM_bind.
  eapply wpM_mono; [|apply (intern_grows (obj_kind t) (object t) (retM tt) n); [done|done|apply harmless_ret]].
  intros r3 db3 (l&A3&->&Hl&[G3 G3']&H3). apply wpM_ret. eexists _, _, _, A3. split; [done|]. split; [|done].
  assert (Hids : ids_of A3 (skey t) = Some (i, j, l)) by (apply ids_of_Some; cbn; split_and!; eauto).
  split; [|split; [done|]].
  - split; [eauto|]. intros k s. rewrite G3', G2', G1'. unfold skey. rewrite elem_names_of. unfold obj_kind. tauto.
  - cbn. intros Hnew' [x Hx]. unfold skey in Hx. apply ids_of_Some in Hx as (X1&X2&X3).
    rewrite !orb_true_iff, !bool_decide_eq_true in Hnew'. destruct Hnew' as [[E|E]|E].
    + congruence.
    + apply G1 in X2. congruence.
    + apply G1, G2 in X3. unfold obj_kind, okind in *. congruence.
Qed.

Context (junk : nat -> Z).

Lemma exist_triple_ok (kv : KVstore S) n T s p o :
  represents kv T -> small (vs_limit S) T -> kv_room (1 + n) kv -> word s -> is_entity_ele s = true ->
  reads (exist_triple junk s p o) kv n T (fun b => b = true <-> (s, p, o) ∈ T).
Proof using Type. apply exist_ok. Qed.

Lemma harmless_if (b : bool) (m : M DB unit) : harmless m -> harmless (if b then m else retM tt).
Proof using Type. destruct b; [done|]. intros _. apply harmless_ret. Qed.

Lemma set_num_ok n (db : DB) E1 E2 A T c c' : db_at n db E1 E2 A T c ->
  wpM (db_mod (fun db => set_triples_num (c' (triples_num db)) db)) db (fun _ db' => db_at n db' E1 E2 A T (c' c)).
Proof using Type. intros [H1 H2 H3 H4]. unfold db_mod, wpM. cbn. split; [intros k; by destruct k; apply H1|done..|cbn; by rewrite H4]. Qed.

(** Whether the triple is there. *)
Lemma check_ok n (db : DB) A A' T c D t sub pre obj : db_at (1 + n) db A' A' A' T c -> matches D A T -> small (vs_limit S) T ->
  names_ids t sub pre obj A A' ->
  wpM (if negb sub.2 && negb pre.2 && negb obj.2 then on_kv (exist_triple junk sub.1 pre.1 obj.1) else retM false) db
    (fun b db' => db_at n db' A' A' A' T c /\ (b = true <-> skey t ∈ D)).
Proof using Type.
  intros H Hm Hsm (Hg&Hids&Hold). destruct (negb sub.2 && negb pre.2 && negb obj.2) eqn:Eb.
  - destruct (ids_ok _ _ _ _ _ _ _ H _ _ Hids) as [(Hs&_&_) He]. pose proof (stored_iff _ _ _ _ _ _ _ _ _ _ _ _ _ H Hm Hg Hids) as Hst.
    eapply wpM_mono; [|eapply (on_kv_ok _ (1 + n) n) with (Q := fun b => b = true <-> (sub.1, pre.1, obj.1) ∈ T); [exact H|lia|]].
    { intros b db' [Hd Hb]. split; [exact Hd|]. by rewrite Hb. } apply (exist_triple_ok (kvstore db) n T); try done; [apply H|apply H|apply Hs].
  - apply wpM_ret. split; [by apply db_at_le|]. split; [done|]. intros Hin. exfalso.
    apply Hold; [|by eapply ids_of_used]. rewrite <- !negb_orb in Eb. by apply negb_false_iff in Eb.
Qed.

Lemma insertTriple_ok n D (db : DB) t : holds (20 + n) D db -> names_fit t ->
  12 * Z.of_nat (base.size D) + 24 < vs_limit S -> Z.of_nat (base.size D) + 1 < W64 ->
  wpM (insertTriple junk t) db (fun r db' => r = bool_decide (skey t ∉ D) /\ holds n ({[skey t]} ∪ D) db').
Proof using Type.
  intros (A&T&H&Hm) Hfit Hsm Hnum. pose proof (matches_size _ _ _ _ _ _ _ H D T Hm) as Hsz. rewrite <- Hsz in Hsm.
  unfold insertTriple. apply wpM_bind.
  eapply wpM_mono; [|exact (intern_all_ok t _ (8 + n) db A T _ H Hfit (harmless_sub (fun z => z ⊞ 1)))].
  intros r db1 ([si sn]&[pi pn]&[oi on]&A'&->&Hni&H1). apply wpM_bind.
  eapply wpM_mono; [|refine (harmless_if _ _ (harmless_count _ _ _) _ _ _ _ _ _ _ H1)]. intros u db2 H2. cbv beta in H2. apply wpM_bind.
  eapply wpM_mono; [|exact (check_ok (7 + n) db2 A A' T _ D t (si, sn) (pi, pn) (oi, on) H2 Hm Hsm Hni)].
  intros b db3 [H3 Hb]. destruct Hni as (Hg&Hids&_). cbn [fst snd] in Hids.
  pose proof (matches_add D A A' T (skey t) _ Hm Hg Hids) as Hm'.
  assert (HT : (si, pi, oi) ∈ T <-> skey t ∈ D) by (by eapply (stored_iff _ _ _ _ _ _ _ _ _ _ _ _ _ H3)).
  destruct b.
  - apply wpM_ret. assert (Hin : skey t ∈ D) by (by apply Hb). split; [by rewrite bool_decide_eq_false_2 by tauto|].
    exists A', T. replace ({[skey t]} ∪ D) with D in * by set_solver. replace ({[(si, pi, oi)]} ∪ T) with T in Hm' by set_solver.
    split; [|done]. by apply (db_at_weaken n (7 + n)); [lia|].
  - assert (Hin : skey t ∉ D) by (intros Hin; by apply Hb in Hin). apply wpM_bind.
    eapply wpM_mono; [|exact (set_num_ok (7 + n) db3 _ _ _ _ _ (fun c => u64 (c + 1)) H3)]. intros u' db4 H4. cbv beta in H4. apply wpM_bind.
    eapply wpM_mono; [|eapply (on_kv_ok _ (7 + n) n db4 _ _ _ T ({[(si, pi, oi)]} ∪ T) _ (fun _ => True)); [exact H4|lia|]]; cycle 1.
    { destruct (ids_ok _ _ _ _ _ _ _ H3 _ _ Hids) as [Hok _]. eapply wpM_mono; [|eapply (insert_represents junk _ n T si pi oi)].
      - intros r kv' (_&?&?). done.
      - apply H4.
      - done.
      - tauto.
      - done.
      - eapply kv_room_le, H4. lia. }
    intros r db5 [H5 _]. apply wpM_ret. split; [by rewrite bool_decide_eq_true_2|]. exists A', ({[(si, pi, oi)]} ∪ T). split; [|done].
    rewrite size_union, size_singleton by set_solver.
    assert (u64 (Z.of_nat (base.size D) + 1) = Z.of_nat (1 + base.size D)) as <- by (rewrite u64_small; lia). done.
Qed.
End Insert.

(** * Removal from the database

    What becomes of the names of a removed triple: a name is dropped exactly when
    no other triple uses it. *)

(** The triple of ids has the id [i] of the kind [k]. *)
Definition has_id (k : kind) (i : Z) (x : triple) : Prop :=
  match k with Entities => x.1.1 = i \/ x.2 = i | Literals => x.2 = i | Predicates => x.1.2 = i end.

Lemma upd_kind_self {X} k (x : X) f : upd_kind k x f k = x.
Proof. unfold upd_kind. by rewrite decide_True. Qed.

Section Drop.
Context {S I J : Type} `{VSL : ValueStoreLaws S} `{SIL : StrIndexLaws I} `{SAL : StrArrayLaws J}.
Abbreviation DB := (Database S I J).

(** The triples of [D], with names beyond those of [D] where [P] says so. *)
Record covers (D : gset striple) (A : kind -> gmap string Z) (T : triples) (P : kind -> string -> Prop) : Prop := {
  co_names k s : is_Some (A k !! s) <-> uses k D s \/ P k s;
  co_triples x : x ∈ T <-> exists t, t ∈ D /\ ids_of A t = Some x }.

Lemma covers_matches D A T P : covers D A T P -> (forall k s, ~ P k s) -> matches D A T.
Proof using Type. intros [H1 H2] HP. split; [|done]. intros k s. rewrite H1. specialize (HP k s). tauto. Qed.

Lemma covers_ids D A T P t : covers D A T P -> t ∈ D -> exists x, ids_of A t = Some x /\ x ∈ T.
Proof using Type.
  intros [Hn Ht] Hin. destruct t as [[[s p] b] o]. assert (Hu : forall k s', s' ∈ names_of k (s, p, b, o) -> is_Some (A k !! s')).
  { intros k s' Hs'. apply Hn. left. by exists (s, p, b, o). }
  destruct (Hu Entities s) as [i Hi]; [apply elem_names_of; tauto|]. destruct (Hu Predicates p) as [j Hj]; [apply elem_names_of; tauto|].
  destruct (Hu (okind b) o) as [l Hl]; [apply elem_names_of; tauto|]. assert (Hx : ids_of A (s, p, b, o) = Some (i, j, l)) by (by apply ids_of_Some).
  exists (i, j, l). split; [done|]. apply Ht. by exists (s, p, b, o).
Qed.

Lemma used_iff n (db : DB) E1 E2 A T0 c D T P k s i : db_at n db E1 E2 A T0 c -> covers D A T P -> A k !! s = Some i ->
  uses k D s <-> exists x, x ∈ T /\ has_id k i x.
Proof using Type.
  intros Hd Hc Hs. pose proof (id_range _ _ _ _ _ _ _ Hd k s i Hs) as Hr. split.
  - intros (t&Ht&Hin). destruct (covers_ids D A T P t Hc Ht) as (x&Hx&HxT). exists x. split; [done|].
    destruct t as [[[s' p] b] o]. apply ids_of_Some in Hx as (X1&X2&X3). apply elem_names_of in Hin as [[-> ->]|[[-> ->]|[-> ->]]]; cbn.
    + left. congruence.
    + congruence.
    + destruct b; cbn; [right|]; unfold okind in X3; congruence.
  - intros (x&HxT&Hx). apply (co_triples _ _ _ _ Hc) in HxT as ([[[s' p] b] o]&Ht&Hids). exists (s', p, b, o). split; [done|].
    apply ids_of_Some in Hids as (X1&X2&X3). apply elem_names_of.
    assert (Hinj : forall s'' j, A k !! s'' = Some j -> j = i -> s = s'').
    { intros s'' j Hj ->. by eapply (na_inj _ _ _ _ _ _ (da_names _ _ _ _ _ _ _ Hd k)). }
    assert (Ho : x.2 = i -> k <> Predicates -> k = okind b /\ s = o).
    { intros E Hk. pose proof (id_range _ _ _ _ _ _ _ Hd _ _ _ X3) as Hr'. rewrite E in Hr'.
      assert (k = okind b) as -> by (destruct k, b; cbn in *; try done; lia). split; [done|]. by apply (Hinj o x.2). }
    destruct k; cbn in Hx.
    + destruct Hx as [E|E]; [left; split; [done|by apply (Hinj s' x.1.1)]|right; right; by apply Ho].
    + right; right. by apply Ho.
    + right; left. split; [done|]. by apply (Hinj p x.1.2).
Qed.

Lemma drop_name_ok k s i n (db : DB) A T c : db_at (3 + n) db A A A T c -> A k !! s = Some i ->
  wpM (drop_name k i s) db (fun _ db' => let A' := without_name k s A in db_at n db' A' A' A' T c).
Proof using Type.
  intros H Hs. unfold drop_name. apply wpM_bind.
  eapply wpM_mono; [|apply (on_names_ok k _ (2 + n) db A A A T c (fun _ => A k) (fun _ => delete s (A k)) (fun _ => A k) (fun _ => True) H)]; cycle 1.
  { eapply wpM_mono; [|exact (subStrByID_ok k (2 + n) _ _ _ _ s i (da_names _ _ _ _ _ _ _ H k) Hs)]. intros r x' Hx. exact (conj Hx Logic.I). }
  intros r1 db1 [H1 _]. apply wpM_bind.
  pose proof (da_names _ _ _ _ _ _ _ H1 k) as N1. rewrite !upd_kind_self in N1.
  eapply wpM_mono; [|apply (on_names_ok k _ (1 + n) db1 _ _ _ T c (fun _ => delete s (A k)) (fun _ => delete s (A k)) (fun _ => A k) (fun _ => True) H1)]; cycle 1.
  { eapply wpM_mono; [|exact (subIDByStr_ok k (1 + n) _ _ _ _ s N1 (mk_is_Some _ _ Hs))]. intros r x' Hx. exact (conj Hx Logic.I). }
  intros r2 db2 [H2 _].
  pose proof (da_names _ _ _ _ _ _ _ H2 k) as N2. rewrite !upd_kind_self in N2.
  eapply wpM_mono; [|apply (on_names_ok k _ n db2 _ _ _ T c (fun _ => delete s (A k)) (fun _ => delete s (A k)) (fun _ => delete s (A k)) (fun _ => True) H2)]; cycle 1.
  { eapply wpM_mono; [|exact (freeID_ok k n _ _ _ _ s i (names_at_le _ _ _ _ _ _ N2) Hs (lookup_delete_eq _ _) (lookup_delete_eq _ _))].
    intros r x' Hx. exact (conj Hx Logic.I). }
  intros r3 db3 [H3 _]. eapply db_at_ext, H3; kinds.
Qed.

(** *** Degrees *)

Lemma count_zero (T : triples) P `{!forall t, Decision (P t)} : count T P = 0 <-> forall x, x ∈ T -> ~ P x.
Proof using Type.
  unfold count. transitivity (base.size (filter P T) = 0%nat); [lia|]. rewrite size_empty_iff. split.
  - intros E x Hx HP. assert (Hin : x ∈ filter P T) by (by apply elem_of_filter). by rewrite E in Hin.
  - intros HP. apply elem_of_equiv_empty. intros x [HPx Hx]%elem_of_filter. by apply (HP x).
Qed.

Lemma count_bound (T : triples) P `{!forall t, Decision (P t)} : 0 <= count T P <= Z.of_nat (base.size T).
Proof using Type. unfold count. split; [lia|]. apply inj_le, subseteq_size. intros x [_ ?]%elem_of_filter. done. Qed.

(** The degree of an id is zero exactly when no triple has it. *)
Lemma degree_of_ok k i (kv : KVstore S) n T : represents kv T -> small (vs_limit S) T -> kv_room (2 + n) kv -> word i ->
  reads (degree_of k i) kv n T (fun d => d = 0 <-> ~ exists x, x ∈ T /\ has_id k i x).
Proof using Type.
  intros HR Hsm Hr Hw. pose proof (vs_limit_le S) as Hlim.
  assert (Hone : forall m P `{!forall t, Decision (P t)}, reads m kv (1 + n) T (fun d => d = count T P) -> (forall x, P x <-> has_id k i x) ->
    reads m kv n T (fun d => d = 0 <-> ~ exists x, x ∈ T /\ has_id k i x)).
  { intros m P ? Hm HP. eapply wpM_mono; [|exact Hm]. intros d kv' (->&HR'&Hr'). split_and!; [|done|by eapply kv_room_le, Hr'; lia].
    rewrite count_zero. setoid_rewrite HP. split; [intros Hn (x&Hx&Hh); by apply (Hn x)|]. intros Hn x Hx Hh. apply Hn. by exists x. }
  pose proof (degrees_correct kv T i i (1 + n) HR Hsm Hr Hw Hw) as (Hin&Hlit&_&Hpre).
  destruct k; cbn [degree_of].
  - eapply reads_bind; [exact Hin|]. intros a kv1 -> HR1 Hr1.
    pose proof (degrees_correct kv1 T i i n HR1 Hsm Hr1 Hw Hw) as (_&_&Hout&_).
    eapply reads_bind; [exact Hout|]. intros b kv2 -> HR2 Hr2. apply reads_ret; [done|done|].
    pose proof (count_bound T (fun t => t.2 = i)). pose proof (count_bound T (fun t => t.1.1 = i)). unfold small in Hsm.
    rewrite u32_small by (unfold W32 in *; lia).
    assert (Hz : count T (fun t => t.2 = i) + count T (fun t => t.1.1 = i) = 0 <->
      count T (fun t => t.2 = i) = 0 /\ count T (fun t => t.1.1 = i) = 0) by lia.
    rewrite Hz, !count_zero. cbn. split.
    + intros [H1 H2] (x&Hx&[E|E]); [by apply (H2 x)|by apply (H1 x)].
    + intros Hn. split; intros x Hx E; apply Hn; exists x; tauto.
  - eapply (Hone _ (fun t => t.2 = i)); [exact Hlit|done].
  - eapply (Hone _ (fun t => t.1.2 = i)); [exact Hpre|done].
Qed.

(** *** A name that may have become unused *)

Definition but (k : kind) (s : string) (P : kind -> string -> Prop) : kind -> string -> Prop :=
  fun k' s' => P k' s' /\ (k', s') <> (k, s).

Lemma without_name_ne k s A k' s' : (k', s') <> (k, s) -> without_name k s A k' !! s' = A k' !! s'.
Proof using Type.
  intros Hne. unfold without_name, upd_kind. destruct (decide (k' = k)) as [->|]; [|done]. apply lookup_delete_ne. congruence.
Qed.
Lemma without_name_eq k s A : without_name k s A k !! s = None.
Proof using Type. unfold without_name. by rewrite upd_kind_self, lookup_delete_eq. Qed.

Lemma covers_used D A T P k s : covers D A T P -> uses k D s -> covers D A T (but k s P).
Proof using Type.
  intros [Hn Ht] Hu. split; [|done]. intros k' s'. rewrite Hn. unfold but. split; [|tauto].
  intros [?|HP]; [by left|]. destruct (decide ((k', s') = (k, s))) as [[= -> ->]|]; [by left|by right].
Qed.

Lemma covers_unused D A T P k s : covers D A T P -> ~ uses k D s -> covers D (without_name k s A) T (but k s P).
Proof using Type.
  intros Hc Hu. pose proof Hc as [Hn Ht].
  assert (Hne : forall t k' s', t ∈ D -> s' ∈ names_of k' t -> (k', s') <> (k, s)).
  { intros t k' s' Hin Hs' [= -> ->]. apply Hu. by exists t. }
  assert (Hids : forall t, t ∈ D -> ids_of (without_name k s A) t = ids_of A t).
  { intros [[[s' p] b] o] Hin. unfold ids_of. rewrite !without_name_ne; [done| | |]; eapply Hne; try done; apply elem_names_of; tauto. }
  split.
  - intros k' s'. unfold but. destruct (decide ((k', s') = (k, s))) as [[= -> ->]|Hks].
    + rewrite without_name_eq. split; [by intros [? ?]|]. intros [?|[_ ?]]; done.
    + rewrite without_name_ne, Hn by done. tauto.
  - intros x. rewrite Ht. split; intros (t&Hin&Hx); exists t; (split; [done|]); [rewrite Hids by done|rewrite Hids in Hx by done]; done.
Qed.

(** [A'] is [A], perhaps without the name [s]. *)
Definition dropped (k : kind) (s : string) (A A' : kind -> gmap string Z) : Prop :=
  forall k' s', (k', s') <> (k, s) -> A' k' !! s' = A k' !! s'.

Lemma drop_unused_ok k s i n (db : DB) A T c D P : db_at (5 + n) db A A A T c -> covers D A T P -> small (vs_limit S) T -> A k !! s = Some i ->
  wpM (drop_unused k i s) db (fun _ db' => exists A', db_at n db' A' A' A' T c /\ covers D A' T (but k s P) /\ dropped k s A A').
Proof using Type.
  intros H Hc Hsm Hs. destruct (da_valid _ _ _ _ _ _ _ _ _ _ H Hs) as [Hw _]. unfold drop_unused. apply wpM_bind.
  eapply wpM_mono; [|eapply (on_kv_ok _ (5 + n) (3 + n)) with (Q := fun d => d = 0 <-> ~ exists x, x ∈ T /\ has_id k i x); [exact H|lia|]]; cycle 1.
  { apply (degree_of_ok k i (kvstore db) (3 + n)); [apply H|done|apply H|done]. }
  intros d db1 [H1 Hd]. pose proof (used_iff _ _ _ _ _ _ _ D T P k s i H Hc Hs) as Hu. rewrite <- Hu in Hd.
  destruct (Z.eqb_spec d 0) as [E|E].
  - eapply wpM_mono; [|exact (drop_name_ok k s i n db1 A T c H1 Hs)]. intros u db2 H2. exists (without_name k s A).
    split; [exact H2|]. split; [apply covers_unused; tauto|]. intros k' s' Hne. by apply without_name_ne.
  - apply wpM_ret. exists A. split; [by apply (db_at_weaken n (3 + n)); [lia|]|]. split; [|done]. apply covers_used; [done|].
    destruct (decide (uses k D s)) as [|Hn]; [done|]. exfalso. tauto.
Qed.

Lemma harmless_drop_sub : harmless (S := S) (I := I) (J := J) drop_sub_num.
Proof using Type. exact (harmless_sub (fun z => z ⊟ 1)). Qed.

Lemma drop_subject_ok s i n (db : DB) A T c D P : db_at (5 + n) db A A A T c -> covers D A T P -> small (vs_limit S) T -> A Entities !! s = Some i ->
  wpM (drop_subject i s) db (fun _ db' => exists A', db_at n db' A' A' A' T c /\ covers D A' T (but Entities s P) /\ dropped Entities s A A').
Proof using Type.
  intros H Hc Hsm Hs. destruct (da_valid _ _ _ _ _ _ _ _ _ _ H Hs) as [Hw _]. unfold drop_subject. apply wpM_bind.
  eapply wpM_mono; [|eapply (on_kv_ok _ (5 + n) (3 + n)) with (Q := fun d => d = 0 <-> ~ exists x, x ∈ T /\ has_id Entities i x); [exact H|lia|]]; cycle 1.
  { apply (degree_of_ok Entities i (kvstore db) (3 + n)); [apply H|done|apply H|done]. }
  intros d db1 [H1 Hd]. pose proof (used_iff _ _ _ _ _ _ _ D T P Entities s i H Hc Hs) as Hu. rewrite <- Hu in Hd.
  destruct (Z.eqb_spec d 0) as [E|E].
  - apply wpM_bind. eapply wpM_mono; [|exact (drop_name_ok Entities s i n db1 A T c H1 Hs)]. intros u db2 H2. cbv beta zeta in H2.
    eapply wpM_mono; [|exact (harmless_drop_sub _ _ _ _ _ _ _ H2)]. intros u' db3 H3. exists (without_name Entities s A).
    split; [exact H3|]. split; [apply covers_unused; tauto|]. intros k' s' Hne. by apply without_name_ne.
  - apply wpM_bind. eapply wpM_mono; [|eapply (on_kv_ok _ (3 + n) n) with (Q := fun _ => True); [exact H1|lia|]]; cycle 1.
    { eapply wpM_mono; [|apply (degrees_correct (kvstore db1) T i i n); [apply H1|done| |done|done]].
      - intros r kv' (_&?&?). done.
      - eapply kv_room_le, H1. lia. }
    intros out db2 [H2 _]. assert (Hfin : exists A', db_at n db2 A' A' A' T c /\ covers D A' T (but Entities s P) /\ dropped Entities s A A').
    { exists A. split; [exact H2|]. split; [|done]. apply covers_used; [done|].
      destruct (decide (uses Entities D s)) as [|Hn]; [done|]. exfalso. tauto. }
    destruct (out =? 0); [|by apply wpM_ret]. destruct Hfin as (A'&HA'&Hrest).
    eapply wpM_mono; [|exact (harmless_drop_sub _ _ _ _ _ _ _ HA')]. intros u db3 H3. by exists A'.
Qed.
End Drop.

Section Remove.
Context {S I J : Type} `{VSL : ValueStoreLaws S} `{SIL : StrIndexLaws I} `{SAL : StrArrayLaws J}.
Abbreviation DB := (Database S I J).

(** The names of a triple that is taken away are pending. *)
Lemma covers_remove n (db : DB) E1 E2 A T0 c D T t x : db_at n db E1 E2 A T0 c -> matches D A T -> t ∈ D -> ids_of A t = Some x ->
  covers (D ∖ {[t]}) A (T ∖ {[x]}) (fun k s => s ∈ names_of k t).
Proof using Type.
  intros Hd [Hn Ht] Hin Hx. split.
  - intros k s. rewrite Hn. unfold uses. split.
    + intros (t'&Ht'&Hs). destruct (decide (t' = t)) as [->|Hne]; [by right|]. left. exists t'. split; [set_solver|done].
    + intros [(t'&Ht'&Hs)|Hs]; [exists t'|exists t]; (split; [set_solver|done]).
  - intros y. rewrite elem_of_difference, elem_of_singleton, Ht. split.
    + intros [(t'&Ht'&Hy) Hne]. exists t'. split; [|done]. apply elem_of_difference. split; [done|]. intros ->%elem_of_singleton. congruence.
    + intros (t'&[Ht' Hne%not_elem_of_singleton]%elem_of_difference&Hy). split; [by exists t'|]. intros ->.
      apply Hne. by eapply (ids_inj _ _ _ _ _ _ _ Hd).
Qed.

Context (junk : nat -> Z).

(** The subject is not the object. *)
Definition no_loop (t : TripleWithObjType) : Prop := isObjEntity t = true -> subject t <> object t.

(** The end of [removeTriple], for a triple that is there. *)
Definition remove_stored (t : TripleWithObjType) (_sub_id _pre_id _obj_id : Z) : M DB bool :=
  let! _ := db_mod (fun db => set_triples_num (u64 (triples_num db - 1)) db) in
  let! _ := on_kv (updateTupleslist_remove junk _sub_id _pre_id _obj_id) in
  let! _ := drop_subject _sub_id (subject t) in
  let! _ := drop_unused (obj_kind t) _obj_id (object t) in
  let! _ := (if isObjEntity t then count_type umap_dec (predicate t) (object t) else retM tt) in
  let! _ := drop_unused Predicates _pre_id (predicate t) in
  retM true.

Lemma remove_stored_ok n D (db : DB) t A T i j l : db_at (21 + n) db A A A T (Z.of_nat (base.size D)) -> matches D A T -> no_loop t ->
  small (vs_limit S) T -> Z.of_nat (base.size D) < W64 -> skey t ∈ D -> ids_of A (skey t) = Some (i, j, l) ->
  wpM (remove_stored t i j l) db (fun r db' => r = true /\ holds n (D ∖ {[skey t]}) db').
Proof using Type.
  intros H Hm Hloop Hsm Hnum Hin Hids.
  assert (HxT : (i, j, l) ∈ T) by (apply (ma_triples _ _ _ Hm); by exists (skey t)).
  pose proof (covers_remove _ _ _ _ _ _ _ _ _ _ _ H Hm Hin Hids) as Hc. set (T' := T ∖ {[(i, j, l)]}) in *. set (D' := D ∖ {[skey t]}) in *.
  assert (Hsm' : small (vs_limit S) T').
  { unfold small in *. assert (base.size T' <= base.size T)%nat; [|lia]. apply subseteq_size. set_solver. }
  assert (Hc' : u64 (Z.of_nat (base.size D) - 1) = Z.of_nat (base.size D')).
  { pose proof (size_sub (skey t) D) as Hss. rewrite bool_decide_eq_true_2 in Hss by done. fold D' in Hss. rewrite u64_small; lia. }
  unfold remove_stored. apply wpM_bind. eapply wpM_mono; [|exact (set_num_ok (21 + n) db _ _ _ _ _ (fun c => u64 (c - 1)) H)].
  intros u1 db1 H1. cbv beta in H1. rewrite Hc' in H1. apply wpM_bind.
  eapply wpM_mono; [|eapply (on_kv_ok _ (21 + n) (15 + n) db1 _ _ _ T T' _ (fun _ => True)); [exact H1|lia|]]; cycle 1.
  { destruct (ids_ok _ _ _ _ _ _ _ H _ _ Hids) as [Hok _]. eapply wpM_mono; [|eapply (remove_represents junk _ (15 + n) T i j l)].
    - intros r kv' (_&?&?). done.
    - apply H1.
    - done.
    - done.
    - done.
    - apply H1. }
  intros r2 db2 [H2 _]. unfold skey in Hids. apply ids_of_Some in Hids as (Hi&Hj&Hl). cbn [fst snd] in Hi, Hj, Hl.
  apply wpM_bind. eapply wpM_mono; [|exact (drop_subject_ok (subject t) i (10 + n) db2 A T' _ D' _ H2 Hc Hsm' Hi)].
  intros u3 db3 (A3&H3&C3&D3). apply wpM_bind.
  assert (Hl3 : A3 (obj_kind t) !! object t = Some l).
  { rewrite D3; [exact Hl|]. unfold obj_kind. destruct (isObjEntity t) eqn:Ee; [|done]. intros [= E]. by apply (Hloop Ee). }
  eapply wpM_mono; [|exact (drop_unused_ok (obj_kind t) (object t) l (5 + n) db3 A3 T' _ D' _ H3 C3 Hsm' Hl3)].
  intros u4 db4 (A4&H4&C4&D4). apply wpM_bind.
  eapply wpM_mono; [|exact (harmless_if _ _ (harmless_count _ _ _) _ _ _ _ _ _ _ H4)]. intros u5 db5 H5. cbv beta in H5. apply wpM_bind.
  assert (Hj4 : A4 Predicates !! predicate t = Some j).
  { rewrite D4, D3; [done|done|]. unfold obj_kind. by destruct (isObjEntity t). }
  eapply wpM_mono; [|exact (drop_unused_ok Predicates (predicate t) j n db5 A4 T' _ D' _ H5 C4 Hsm' Hj4)].
  intros u6 db6 (A6&H6&C6&_). apply wpM_ret. split; [done|]. exists A6, T'. split; [exact H6|].
  eapply covers_matches; [exact C6|]. intros k s (((Hin'&N1)&N2)&N3). unfold skey in Hin'. apply elem_names_of in Hin' as [[-> ->]|[[-> ->]|[-> ->]]]; done.
Qed.

Lemma removeTriple_ok n D (db : DB) t : holds (32 + n) D db -> no_loop t -> 12 * Z.of_nat (base.size D) + 24 < vs_limit S ->
  Z.of_nat (base.size D) < W64 ->
  wpM (removeTriple junk t) db (fun r db' => r = bool_decide (skey t ∈ D) /\ holds n (D ∖ {[skey t]}) db').
Proof using Type.
  intros (A&T&H&Hm) Hloop Hsm Hnum. pose proof (matches_size _ _ _ _ _ _ _ H D T Hm) as Hsz. rewrite <- Hsz in Hsm.
  unfold removeTriple. apply wpM_bind. eapply wpM_mono; [|exact (getID_ok Entities _ (31 + n) db A A A T _ H)]. intros r1 db1 [H1 ->].
  apply wpM_bind. eapply wpM_mono; [|exact (getID_ok Predicates _ (30 + n) db1 A A A T _ H1)]. intros r2 db2 [H2 ->].
  apply wpM_bind. eapply wpM_mono; [|exact (getID_ok (obj_kind t) _ (29 + n) db2 A A A T _ H2)]. intros r3 db3 [H3 ->].
  assert (Hout : skey t ∉ D -> forall db' : DB, db_at n db' A A A T (Z.of_nat (base.size D)) -> false = bool_decide (skey t ∈ D) /\ holds n (D ∖ {[skey t]}) db').
  { intros Hn db' Hd. split; [by rewrite bool_decide_eq_false_2|]. exists A, T. by replace (D ∖ {[skey t]}) with D by set_solver. }
  assert (Hnone : ids_of A (skey t) = None -> skey t ∉ D).
  { intros E Hin. destruct (ids_of_used D A T (skey t) Hm Hin). congruence. }
  destruct (ids_of A (skey t)) as [[[i j] l]|] eqn:Hids; cycle 1.
  { assert (Eb : (default INVALID (A Entities !! subject t) =? INVALID) || (default INVALID (A Predicates !! predicate t) =? INVALID)
        || (default INVALID (A (obj_kind t) !! object t) =? INVALID) = true).
    { unfold skey, ids_of in Hids. unfold obj_kind. destruct (A Entities !! subject t); [|done]. destruct (A Predicates !! predicate t); [|by rewrite orb_true_r].
      fold (okind (isObjEntity t)). destruct (A (okind (isObjEntity t)) !! object t); [done|by rewrite !orb_true_r]. }
    rewrite Eb. apply wpM_ret. apply Hout; [by apply Hnone|]. by apply (db_at_weaken n (29 + n)); [lia|]. }
  pose proof Hids as Hids'. unfold skey in Hids'. apply ids_of_Some in Hids' as (Hi&Hj&Hl). cbn in Hi, Hj, Hl.
  change (okind (isObjEntity t)) with (obj_kind t) in Hl.
  rewrite Hi, Hj, Hl. simpl.
  rewrite (proj2 (da_valid _ _ _ _ _ _ _ _ _ _ H Hi)), (proj2 (da_valid _ _ _ _ _ _ _ _ _ _ H Hj)), (proj2 (da_valid _ _ _ _ _ _ _ _ _ _ H Hl)).
  cbn [orb]. apply wpM_bind. destruct (ids_ok _ _ _ _ _ _ _ H _ _ Hids) as [(Hs&_&_) He].
  eapply wpM_mono; [|eapply (on_kv_ok _ (29 + n) (28 + n)) with (Q := fun b => b = true <-> (i, j, l) ∈ T); [exact H3|lia|]]; cycle 1.
  { apply (exist_triple_ok junk (kvstore db3) (28 + n) T); [apply H3|done|apply H3|apply Hs|done]. }
  intros b db4 [H4 Hb].
  assert (HT : (i, j, l) ∈ T <-> skey t ∈ D).
  { eapply (stored_iff _ _ _ _ A A _ _ D T (skey t) _ (fun _ _ => False) H4 Hm); [|done]. split; [done|]. tauto. }
  rewrite HT in Hb. destruct b; cbn [negb].
  - rewrite bool_decide_eq_true_2 by tauto. apply (remove_stored_ok n D db4 t A T i j l); try done; [|tauto].
    by apply (db_at_weaken _ (28 + n)); [lia|].
  - apply wpM_ret. apply Hout; [intros Hin; by apply Hb in Hin|]. by apply (db_at_weaken n (28 + n)); [lia|].
Qed.
End Remove.
