(* ===== verification/DatabaseBatchSpec.v ===== *)
(** * What the batches do

    Insertions first, then removals. *)

From stdpp Require Import strings.
From S2P Require Import Prelude Util ValueList BatchInsertSpec ValueStore KVstore TripleSet KVget KVtheorems KVbatch KVbatchSpec Names Database DatabaseSpec.

(** ** Statistics

    A call that leaves what the state stands for as it is, and uses up [c] of the
    room. *)

Section Statistics.
Context {S I J : Type} `{VSL : ValueStoreLaws S} `{SIL : StrIndexLaws I} `{SAL : StrArrayLaws J}.
Context (junk : nat -> Z).
Abbreviation DB := (Database S I J).

Definition spends {X} (c : nat) (m : M DB X) : Prop := forall n db E1 E2 A T num,
  db_at (c + n) db E1 E2 A T num -> small (vs_limit S) T -> wpM m db (fun _ db' => db_at n db' E1 E2 A T num).

Lemma spends_ret {X} c (x : X) : spends c (retM x).
Proof using Type. intros n db E1 E2 A T num H _. apply wpM_ret. by apply (db_at_weaken n (c + n)); [lia|]. Qed.
Lemma spends_bind {X Y} c c' (m : M DB X) (f : X -> M DB Y) : spends c m -> (forall x, spends c' (f x)) -> spends (c + c') (bindM m f).
Proof using Type.
  intros Hm Hf n db E1 E2 A T num H Hsm. apply wpM_bind. rewrite <- Nat.add_assoc in H.
  eapply wpM_mono; [|exact (Hm _ _ _ _ _ _ _ H Hsm)]. intros x db' H'. exact (Hf x _ _ _ _ _ _ _ H' Hsm).
Qed.
Lemma spends_le {X} c c' (m : M DB X) : (c <= c')%nat -> spends c m -> spends c' m.
Proof using Type. intros Hle Hm n db E1 E2 A T num H. apply Hm. by apply (db_at_weaken _ (c' + n)); [lia|]. Qed.
Lemma spends_harmless c (m : M DB unit) : harmless m -> spends c m.
Proof using Type. intros Hm. apply (spends_le 0); [lia|]. intros n db E1 E2 A T num H _. exact (Hm _ _ _ _ _ _ _ H). Qed.

Lemma spends_getStr k i : spends 1 (on_names k (getStrByID k i)).
Proof using Type.
  intros n db E1 E2 A T num H _. eapply wpM_mono; [|eapply (on_names_read k _ n db) with (Q := fun _ => True); [exact H|]].
  { by intros r db' [? _]. }
  pose proof (da_names _ _ _ _ _ _ _ H k) as N. apply names_at_le in N as N'. destruct N as [_ [_ Hr] _ _ _ _ _ _ _ _ _ _].
  unfold getStrByID. apply wpM_bind. destruct (wpM_inv _ _ _ (sa_search_ok (id2str (get_names k db)) n _ Hr (u32_word (i - id_base k)))) as (r&j'&E&_&Hv&Hn).
  unfold on_id, wpM. rewrite E. cbn. split; [|done].
  destruct N' as [H1 [H2 _] H4 H5 H6 H7 H8 H9 H10 H11 H12 H13]. split; cbn; try done. intros i0 s0. by rewrite Hv.
Qed.

Lemma spends_for_each {X} c (l : list X) (f : X -> M DB unit) : (forall x, spends c (f x)) -> spends (c * length l) (for_each l f).
Proof using Type.
  intros Hf. induction l as [|x l IH]; [apply spends_ret|]. cbn [for_each length]. rewrite Nat.mul_succ_r, Nat.add_comm.
  by apply spends_bind.
Qed.

Lemma spends_count_pair ins known so : spends 1 (count_pair ins known so).
Proof using Type.
  unfold count_pair. destruct (is_entity_ele so.2); cbn [negb]; [|apply spends_ret].
  apply (spends_bind 1 0); [apply spends_getStr|]. intros o. destruct (bool_decide (o = _)); [apply spends_ret|].
  assert (Hu : forall f, spends 0 (db_mod (fun db : DB => set_umap (f (umap db)) db))).
  { intros f. apply spends_harmless, harmless_mod; [by intros db []|done..]. }
  destruct ins; [|apply (Hu (umap_dec o))]. destruct (bool_decide (so ∈ known)); [apply spends_ret|apply (Hu (umap_inc o))].
Qed.

Lemma spends_pairs p : word p -> spends 1 (on_kv (getsubIDobjIDlistBypreID junk p)).
Proof using Type.
  intros Hp n db E1 E2 A T num H Hsm. eapply wpM_mono; [|eapply (on_kv_ok _ (1 + n) n) with (Q := fun _ => True); [exact H|lia|]].
  { by intros r db' [? _]. }
  unfold getsubIDobjIDlistBypreID. eapply wpM_mono; [|eapply (read_p2pairs_ok junk (kvstore db) p n T (fun s o => (s, p, o) ∈ T))].
  - intros r kv' (_&?&?). done.
  - apply H.
  - done.
  - apply H.
  - by apply rep_pre; [apply H|].
  - by apply (pre_small (S := S)).
Qed.

Lemma length_pair_up l : (2 * length (pair_up l) <= length l)%nat.
Proof using Type.
  assert (Hb : forall n l, (length l <= n)%nat -> (2 * length (pair_up l) <= length l)%nat); [|by apply (Hb (length l))].
  clear l. induction n as [|n IH]; intros [|s [|o l]] Hl; cbn in *; try lia. specialize (IH l ltac:(lia)). lia.
Qed.

Lemma spends_updateUmap ins data p : word p -> spends (2 + length data) (updateUmap junk ins data p).
Proof using Type.
  intros Hp. unfold updateUmap. destruct (len data =? 0); [apply spends_ret|].
  apply (spends_bind 1 (1 + length data)); [apply spends_getStr|]. intros s.
  apply (spends_bind 0 (1 + length data)); [intros n db E1 E2 A T num H _; exact H|]. intros db0.
  destruct (checkIsTypePredicate s db0); cbn [negb]; [|apply spends_ret].
  apply (spends_bind 1 (length data)).
  - destruct ins; [|apply spends_ret]. apply (spends_bind 1 0); [by apply spends_pairs|]. intros r. apply spends_ret.
  - intros known. pose proof (length_pair_up data). apply (spends_le (1 * length (pair_up data))); [lia|].
    apply spends_for_each. intros so. apply spends_count_pair.
Qed.

Lemma spends_runs ins us cur data num : word cur -> Forall (fun t => word (preid t)) us ->
  spends (2 + length data + 4 * length us) (batch_loop preid (fun t => [subid t; objid t])
    (fun p data => let! _ := updateUmap junk ins data p in retM 0) cur data num us).
Proof using Type.
  intros Hc Hus. revert cur data num Hc. induction Hus as [|t us Ht _ IH]; intros cur data num Hc; cbn [batch_loop length].
  - rewrite Nat.mul_0_r. apply (spends_bind (2 + length data) 0); [|intros r; apply spends_ret].
    rewrite <- (Nat.add_0_r (2 + length data)). apply spends_bind; [by apply spends_updateUmap|]. intros u. apply spends_ret.
  - destruct (preid t =? cur).
    + eapply spends_le; [|by apply IH]. rewrite length_app. cbn. lia.
    + apply (spends_le ((2 + length data) + (2 + length [subid t; objid t] + 4 * length us))); [cbn; lia|].
      apply spends_bind; [|intros r; by apply IH].
      rewrite <- (Nat.add_0_r (2 + length data)). apply spends_bind; [by apply spends_updateUmap|]. intros u. apply spends_ret.
Qed.

Lemma spends_statistics ins ts : Forall triple_ok ts -> spends (2 + 4 * length ts) (batch_statistics junk ins ts).
Proof using Type.
  intros Hts. unfold batch_statistics. pose proof (sort_tuples_perm pso_cmp_idtuple ts) as Hp.
  assert (Hw : Forall (fun t => word (preid t)) (sort_tuples pso_cmp_idtuple ts)).
  { rewrite Hp. eapply Forall_impl; [exact Hts|]. intros [[s p] o] (_&[Hw _]&_). exact Hw. }
  rewrite <- (Permutation_length Hp). destruct (sort_tuples pso_cmp_idtuple ts) as [|t us]; [apply spends_ret|].
  apply (spends_le ((2 + 0 + 4 * length (t :: us)) + 0)); [lia|]. apply spends_bind; [|intros r; apply spends_ret].
  apply (spends_runs ins (t :: us) (preid t) [] 0); [|done]. by inversion Hw.
Qed.
End Statistics.

(** ** New names *)

Section NewNames.
Context {S I J : Type} `{VSL : ValueStoreLaws S} `{SIL : StrIndexLaws I} `{SAL : StrArrayLaws J}.
Abbreviation DB := (Database S I J).
Abbreviation name_ok := (name_ok (I := I) (J := J)).

(** The names with an id are those of the dictionaries and the new ones. *)
Record pending (E A maps : kind -> gmap string Z) : Prop := {
  pe_union k : A k = maps k ∪ E k;
  pe_new k s i : maps k !! s = Some i -> E k !! s = None /\ name_ok s }.

Lemma batch_name_ok k s n (db : DB) E A T c maps : db_at (2 + n) db E E A T c -> pending E A maps -> name_ok s ->
  wpM (batch_name k s maps) db (fun r db' => exists A', db_at n db' E E A' T c /\ pending E A' r.2 /\ A' k !! s = Some r.1.1 /\
    grows A A' (fun k' s' => k' = k /\ s' = s) /\ (forall k', base.size (r.2 k') <= base.size (maps k') + 1)%nat).
Proof using Type.
  intros H [Hu Hnew] Hs. unfold batch_name. apply wpM_bind. eapply wpM_mono; [|exact (getID_ok k s (1 + n) db E E A T c H)]. intros r db1 [H1 ->].
  assert (Hold : forall i, A k !! s = Some i -> exists A', db_at n db1 E E A' T c /\ pending E A' maps /\ A' k !! s = Some i /\
    grows A A' (fun k' s' => k' = k /\ s' = s) /\ (forall k', base.size (maps k') <= base.size (maps k') + 1)%nat).
  { intros i Hi. exists A. split; [by apply db_at_le|]. split; [done|]. split; [done|]. split; [|lia]. split; [done|].
    intros k' s'. split; [by left|]. intros [?|[-> ->]]; [done|by exists i]. }
  destruct (E k !! s) as [i|] eqn:Es; simpl.
  - assert (Hi : A k !! s = Some i).
    { rewrite Hu, lookup_union_r; [done|]. destruct (maps k !! s) as [i'|] eqn:Em; [|done]. destruct (Hnew k s i' Em). congruence. }
    destruct (da_valid _ _ _ _ _ _ _ _ _ _ H Hi) as [_ ->]. apply wpM_ret. by apply Hold.
  - destruct (maps k !! s) as [i|] eqn:Em; [apply wpM_ret, Hold; by rewrite Hu, (lookup_union_Some_l _ _ _ _ Em)|].
    assert (Hn : A k !! s = None) by (by rewrite Hu, lookup_union_None).
    apply wpM_bind. eapply wpM_mono; [|exact (alloc_ok k s n db1 E E A T c H1 Hn)]. intros i db2 H2. cbv beta in H2. apply wpM_ret. cbn [fst snd].
    exists (with_name k s i A). split; [done|]. split; [|split; [by rewrite with_name_self, lookup_insert_eq|split]].
    + split.
      * intros k'. unfold with_name, upd_kind. destruct (decide (k' = k)) as [->|]; [|done]. by rewrite Hu, insert_union_l.
      * intros k' s' i'. unfold upd_kind. destruct (decide (k' = k)) as [->|]; [|apply Hnew].
        rewrite lookup_insert_Some. intros [[<- <-]|[_ ?]]; [done|by eapply Hnew].
    + split.
      * intros k' s' i' Hs'. unfold with_name, upd_kind. destruct (decide (k' = k)) as [->|]; [|done]. rewrite lookup_insert_ne; [done|congruence].
      * intros k' s'. unfold with_name, upd_kind. destruct (decide (k' = k)) as [->|Hne]; [|tauto].
        destruct (decide (s' = s)) as [->|Hne]; [rewrite lookup_insert_eq; split; [by right|by eexists]|].
        rewrite lookup_insert_ne by done. split; [by left|]. intros [?|[_ ?]]; done.
    + intros k'. unfold upd_kind. destruct (decide (k' = k)) as [->|]; [|lia]. rewrite map_size_insert_None by done. lia.
Qed.

Lemma grows_trans A1 A2 A3 P Q R : grows A1 A2 P -> grows A2 A3 Q -> (forall k s, R k s <-> P k s \/ Q k s) -> grows A1 A3 R.
Proof using Type. intros [G1 G1'] [G2 G2'] HR. split; [auto|]. intros k s. rewrite G2', G1', HR. tauto. Qed.

Lemma count_subject_maps i b l : name_maps (count_subject i b l) = name_maps l.
Proof using Type. unfold count_subject. by destruct (_ || _). Qed.
Lemma count_object_maps i b e l : name_maps (count_object i b e l) = name_maps l.
Proof using Type. unfold count_object. by destruct (_ && _). Qed.

Lemma batch_names_ok t l n (db : DB) E A T c : db_at (6 + n) db E E A T c -> pending E A (name_maps l) -> names_fit (I := I) (J := J) t ->
  wpM (batch_names t l) db (fun r db' => exists A', db_at n db' E E A' T c /\ pending E A' (name_maps r.2) /\ ids_of A' (skey t) = Some r.1 /\
    grows A A' (fun k s => s ∈ names_of k (skey t)) /\ (forall k, base.size (name_maps r.2 k) <= base.size (name_maps l k) + 3)%nat).
Proof using Type.
  intros H Hp (Fs&Fp&Fo). unfold batch_names. apply wpM_bind.
  eapply wpM_mono; [|exact (batch_name_ok Entities (subject t) (4 + n) db E A T c _ H Hp Fs)]. intros [[si sn] m1] db1 (A1&H1&P1&I1&G1&S1).
  cbn [fst snd] in *. rewrite count_subject_maps. cbn [name_maps set_maps]. apply wpM_bind.
  eapply wpM_mono; [|exact (batch_name_ok Predicates (predicate t) (2 + n) db1 E A1 T c _ H1 P1 Fp)]. intros [[pi pn] m2] db2 (A2&H2&P2&I2&G2&S2).
  cbn [fst snd] in *. apply wpM_bind.
  eapply wpM_mono; [|exact (batch_name_ok (obj_kind t) (object t) n db2 E A2 T c _ H2 P2 Fo)]. intros [[oi on] m3] db3 (A3&H3&P3&I3&G3&S3).
  cbn [fst snd] in *. apply wpM_ret. exists A3. cbn [fst snd]. rewrite count_object_maps. cbn [name_maps set_maps].
  split; [done|]. split; [done|]. split; [|split].
  - apply ids_of_Some. cbn. split_and!; [by apply G3, G2|by apply G3|done].
  - eapply (grows_trans A A2 A3); [|exact G3|]; [eapply (grows_trans A A1 A2 _ _ (fun k s => (k = Entities /\ s = subject t) \/ (k = Predicates /\ s = predicate t))); [exact G1|exact G2|done]|].
    intros k s. unfold skey. rewrite elem_names_of. unfold obj_kind. tauto.
  - intros k. specialize (S1 k). specialize (S2 k). specialize (S3 k). lia.
Qed.

Lemma collect_names_ok ts l n (db : DB) E A T c : db_at (6 * length ts + n) db E E A T c -> pending E A (name_maps l) ->
  Forall (names_fit (I := I) (J := J)) ts ->
  wpM (collect_names ts l) db (fun r db' => exists A', db_at n db' E E A' T c /\ pending E A' (name_maps r.2) /\
    Forall2 (fun t x => ids_of A' (skey t) = Some x) ts r.1 /\
    grows A A' (fun k s => exists t, t ∈ ts /\ s ∈ names_of k (skey t)) /\
    (forall k, base.size (name_maps r.2 k) <= base.size (name_maps l k) + 3 * length ts)%nat).
Proof using Type.
  revert l db A. induction ts as [|t ts IH]; intros l db A H Hp Hf; cbn [collect_names].
  { apply wpM_ret. exists A. split; [done|]. split; [done|]. split; [constructor|]. split; [|cbn; lia]. split; [done|].
    intros k s. split; [by left|]. intros [?|(t&Ht%elem_of_nil&_)]; done. }
  apply Forall_cons in Hf as [Ft Fts]. cbn [length] in *. apply wpM_bind.
  eapply wpM_mono; [|eapply (batch_names_ok t l (6 * length ts + n)); [|exact Hp|exact Ft]; eapply db_at_weaken, H; lia].
  intros [x l1] db1 (A1&H1&P1&I1&G1&S1). cbn [fst snd] in *. apply wpM_bind.
  eapply wpM_mono; [|exact (IH l1 db1 A1 H1 P1 Fts)]. intros [xs l2] db2 (A2&H2&P2&I2&G2&S2). cbn [fst snd] in *.
  apply wpM_ret. exists A2. cbn [fst snd]. split; [done|]. split; [done|]. split; [constructor; [by eapply grows_ids|done]|]. split.
  - eapply (grows_trans A A1 A2); [exact G1|exact G2|]. intros k s. split.
    + intros (t'&[->|Ht']%elem_of_cons&Hs); [by left|right; by exists t'].
    + intros [Hs|(t'&Ht'&Hs)]; [exists t|exists t']; (split; [|done]); [left|by right].
  - intros k. specialize (S1 k). specialize (S2 k). lia.
Qed.
End NewNames.

(** ** Entering the new names *)

Section Enter.
Context {S I J : Type} `{VSL : ValueStoreLaws S} `{SIL : StrIndexLaws I} `{SAL : StrArrayLaws J}.
Abbreviation DB := (Database S I J).
Abbreviation name_ok := (name_ok (I := I) (J := J)).

(** A list of names with their ids that a dictionary [e] does not have. *)
Definition enterable (l : list (string * Z)) (a e : gmap string Z) : Prop :=
  NoDup l.*1 /\ forall s i, (s, i) ∈ l -> a !! s = Some i /\ e !! s = None /\ name_ok s.

Lemma enterable_cons s i l a e : enterable ((s, i) :: l) a e ->
  a !! s = Some i /\ e !! s = None /\ name_ok s /\ enterable l a (<[s := i]> e) /\ list_to_map l ∪ <[s := i]> e = list_to_map ((s, i) :: l) ∪ e.
Proof using Type.
  intros [[Hs Hnd]%NoDup_cons Hl]. destruct (Hl s i) as (Ha&He&Hok); [left|]. split_and!; try done.
  - split; [done|]. intros s' i' Hin. destruct (Hl s' i') as (?&?&?); [by right|]. split_and!; [done| |done].
    rewrite lookup_insert_ne; [done|]. intros ->. apply Hs. apply list_elem_of_fmap. by exists (s', i').
  - cbn [list_to_map foldr uncurry]. rewrite <- insert_union_l, insert_union_r; [done|]. by apply not_elem_of_list_to_map_1.
Qed.

Lemma enter_loop (l : list (string * Z)) (f : string * Z -> M DB unit) (P : nat -> DB -> gmap string Z -> Prop) a e n db :
  (forall n db e s i, P (Datatypes.S n) db e -> a !! s = Some i -> e !! s = None -> name_ok s ->
     wpM (f (s, i)) db (fun _ db' => P n db' (<[s := i]> e))) ->
  P (length l + n)%nat db e -> enterable l a e ->
  wpM (for_each l f) db (fun _ db' => P n db' (list_to_map l ∪ e)).
Proof using Type.
  intros Hf HP Hl. revert db e HP Hl. induction l as [|[s i] l IH]; intros db e HP Hl; cbn [for_each].
  - apply wpM_ret. cbn. by rewrite (left_id_L ∅ (∪)).
  - apply enterable_cons in Hl as (Ha&He&Hok&Hl&<-). apply wpM_bind.
    eapply wpM_mono; [|exact (Hf _ db e s i HP Ha He Hok)]. intros u db' HP'. by apply IH.
Qed.

Lemma batch_set_ok k n (db : DB) E1 E2 A T c m : db_at (2 * base.size m + n) db E1 E2 A T c ->
  enterable (map_to_list m) (A k) (E1 k) -> enterable (map_to_list m) (A k) (E2 k) ->
  wpM (batch_set k m) db (fun _ db' => db_at n db' (upd_kind k (m ∪ E1 k) E1) (upd_kind k (m ∪ E2 k) E2) A T c).
Proof using Type.
  intros H L1 L2. unfold batch_set, batchSetID, batchSetStr. pose proof (length_map_to_list m) as Hlen. apply wpM_bind.
  eapply wpM_mono; [|eapply (enter_loop (map_to_list m) _ (fun n db e => db_at n db (upd_kind k e E1) E2 A T c) (A k) (E1 k) (base.size m + n)); [| |exact L1]]; cycle 1.
  { intros n' db' e s i H' Ha He (_&Hf&_). cbn [fst snd]. apply wpM_bind. rewrite <- (upd_kind_self k e E1) in He.
    eapply wpM_mono; [|exact (setID_ok k s i n' db' _ _ _ T c H' Hf Ha He)]. intros r db'' [Hd _]. apply wpM_ret.
    eapply db_at_ext, Hd; kinds. }
  { rewrite Hlen. eapply db_at_ext; [| | |eapply db_at_weaken, H; lia]; kinds. }
  rewrite list_to_map_to_list. intros u db1 H1. cbv beta in H1.
  eapply wpM_mono; [|eapply (enter_loop (map_to_list m) _ (fun n db e => db_at n db (upd_kind k (m ∪ E1 k) E1) (upd_kind k e E2) A T c) (A k) (E2 k) n); [| |exact L2]]; cycle 1.
  { intros n' db' e s i H' Ha He (_&_&Hf). cbn [fst snd]. apply wpM_bind. rewrite <- (upd_kind_self k e E2) in He.
    eapply wpM_mono; [|exact (setStr_ok k s i n' db' _ _ _ T c H' Hf Ha He)]. intros r db'' [Hd _]. apply wpM_ret.
    eapply db_at_ext, Hd; kinds. }
  { rewrite Hlen. eapply db_at_ext; [| | |exact H1]; kinds. }
  by rewrite list_to_map_to_list.
Qed.

Lemma pending_enterable E A maps k : pending (I := I) (J := J) E A maps -> enterable (map_to_list (maps k)) (A k) (E k).
Proof using Type.
  intros [Hu Hn]. split; [apply NoDup_fst_map_to_list|]. intros s i Hin%elem_of_map_to_list. destruct (Hn k s i Hin). split_and!; [|done|done].
  by rewrite Hu, (lookup_union_Some_l _ _ _ _ Hin).
Qed.

(** All kinds are entered. *)
Lemma enter_all_ok n (db : DB) E A T c maps L : db_at (18 * L + n) db E E A T c -> pending (I := I) (J := J) E A maps ->
  (forall k, base.size (maps k) <= 3 * L)%nat ->
  wpM (batch_set_all maps) db (fun _ db' => db_at n db' A A A T c).
Proof using Type.
  intros H Hp Hsz. pose proof (pe_union _ _ _ Hp) as Hu. pose proof (pending_enterable E A maps) as He.
  pose proof (Hsz Entities) as Z1. pose proof (Hsz Predicates) as Z2. pose proof (Hsz Literals) as Z3. unfold batch_set_all. apply wpM_bind.
  eapply wpM_mono; [|eapply (batch_set_ok Entities (12 * L + n)); [eapply db_at_weaken, H; lia|by apply He..]].
  intros u1 db1 H1. cbv beta in H1. apply wpM_bind.
  eapply wpM_mono; [|eapply (batch_set_ok Predicates (6 * L + n)); [eapply db_at_weaken, H1; lia|by apply He..]].
  intros u2 db2 H2. cbv beta in H2.
  eapply wpM_mono; [|eapply (batch_set_ok Literals n); [eapply db_at_weaken, H2; lia|by apply He..]].
  intros u3 db3 H3. eapply db_at_ext; [| | |exact H3]; intros []; cbn; by rewrite ?Hu.
Qed.
End Enter.

(** ** A batch of insertions *)

Section Batch.
Context {S I J : Type} `{VSL : ValueStoreLaws S} `{SIL : StrIndexLaws I} `{SAL : StrArrayLaws J}.
Abbreviation DB := (Database S I J).

Lemma matches_add_list D A A' T ts xs : matches D A T -> grows A A' (fun k s => exists t, t ∈ ts /\ s ∈ names_of k (skey t)) ->
  Forall2 (fun t x => ids_of A' (skey t) = Some x) ts xs ->
  matches (D ∪ list_to_set (skey <$> ts)) A' (T ∪ list_to_set xs).
Proof using Type.
  intros Hm Hg H2. pose proof Hm as [Hn Ht]. pose proof (proj2 Hg) as Hg2.
  assert (Hk : forall y, y ∈ skey <$> ts <-> exists t, t ∈ ts /\ y = skey t) by (intros y; rewrite list_elem_of_fmap; set_solver).
  split.
  - intros k s. rewrite Hg2, Hn. unfold uses. split.
    + intros [(t&Hin&Hs)|(t&Hin&Hs)]; [exists t; split; [set_solver|done]|]. exists (skey t). split; [|done].
      apply elem_of_union_r, elem_of_list_to_set, Hk. by exists t.
    + intros (t&[Hin|Hin%elem_of_list_to_set]%elem_of_union&Hs); [left; by exists t|right]. apply Hk in Hin as (t'&Hin&->). by exists t'.
  - intros y. rewrite elem_of_union, elem_of_list_to_set, Ht. split.
    + intros [(t&Hin&Hy)|Hin]; [exists t; split; [set_solver|by eapply grows_ids]|].
      apply list_elem_of_lookup in Hin as (j&Hj). destruct (Forall2_lookup_r _ _ _ _ _ H2 Hj) as (t&Htj&Hy).
      exists (skey t). split; [|done]. apply elem_of_union_r, elem_of_list_to_set, Hk. exists t. split; [by eapply list_elem_of_lookup_2|done].
    + intros (t&[Hin|Hin%elem_of_list_to_set]%elem_of_union&Hy).
      * left. exists t. split; [done|]. destruct (ids_of_used D A T t Hm Hin) as [z Hz]. rewrite Hz, <- Hy. symmetry. by eapply grows_ids.
      * right. apply Hk in Hin as (t'&Hin&->). apply list_elem_of_lookup in Hin as (j&Hj).
        destruct (Forall2_lookup_l _ _ _ _ _ H2 Hj) as (x&Hxj&Hx). rewrite Hx in Hy. injection Hy as ->. by eapply list_elem_of_lookup_2.
Qed.

Context (enough : Z -> bool) (junk : nat -> Z) (Hmem : forall m, enough m = true).

Lemma db_batch_insert_ok n D (db : DB) ts : holds (40 * length ts + n) D db -> Forall (names_fit (I := I) (J := J)) ts ->
  12 * (Z.of_nat (base.size D) + len ts) + 24 < vs_limit S -> Z.of_nat (base.size D) + len ts < W64 ->
  let D' := D ∪ list_to_set (skey <$> ts) in
  wpM (db_batch_insert enough junk ts) db (fun r db' => r = Z.of_nat (base.size D') - Z.of_nat (base.size D) /\ holds n D' db').
Proof using Hmem.
  intros (A&T&H&Hm) Hfit Hsm Hnum D'. unfold db_batch_insert. destruct (Z.eqb_spec (len ts) 0) as [Hz|Hz].
  { apply wpM_ret. destruct ts; [|cbn in Hz; lia]. unfold D'. cbn. rewrite (right_id_L ∅ (∪)). split; [lia|]. by exists A, T. }
  assert (Hlen : (1 <= length ts)%nat) by lia. apply wpM_bind.
  assert (Hp0 : pending (I := I) (J := J) A A (name_maps no_locals)).
  { split; [intros k; cbn; by rewrite (left_id_L ∅ (∪))|intros k s i; cbn; by rewrite lookup_empty]. }
  eapply wpM_mono; [|eapply (collect_names_ok ts no_locals (34 * length ts + n)); [eapply db_at_weaken, H; lia|exact Hp0|done]].
  intros [xs l] db1 (A'&H1&P1&I1&G1&S1). cbn [fst snd] in *. apply wpM_bind.
  assert (S1' : forall k, (base.size (name_maps l k) <= 3 * length ts)%nat) by (intros k; specialize (S1 k); cbn in S1; rewrite map_size_empty in S1; lia).
  eapply wpM_mono; [|eapply (enter_all_ok (16 * length ts + n) db1 A A' T _ _ (length ts)); [eapply db_at_weaken, H1; lia|exact P1|exact S1']].
  intros u2 db2 H2. cbv beta in H2. clear P1 S1 S1' H1.
  pose proof (matches_add_list D A A' T ts xs Hm G1 I1) as Hm'. fold D' in Hm'.
  pose proof (Forall2_length _ _ _ I1) as Hxl. assert (Hxne : xs <> []) by (destruct xs; cbn in *; [lia|done]).
  assert (Hxok : Forall triple_ok xs).
  { apply Forall_forall. intros x Hx. apply list_elem_of_lookup in Hx as (j&Hj). destruct (Forall2_lookup_r _ _ _ _ _ I1 Hj) as (t&_&Hy).
    by apply (ids_ok _ _ _ _ _ _ _ H2 _ _ Hy). }
  pose proof (matches_size _ _ _ _ _ _ _ H D T Hm) as Hsz. pose proof (matches_size _ _ _ _ _ _ _ H2 D' _ Hm') as Hsz'.
  destruct (prepared (S := S) xs Hxne) as (_&_&Hin&Hul). set (us := unique_tuples (sort_tuples spo_cmp_idtuple xs)) in *.
  assert (Huok : Forall triple_ok us) by (rewrite Forall_forall in *; intros x Hx; by apply Hxok, Hin).
  assert (Hsmall : small (vs_limit S) T) by (unfold small; rewrite Hsz; len_lia).
  apply wpM_bind. eapply wpM_mono; [|eapply (spends_statistics junk true us Huok (6 * length xs + n)%nat); [eapply db_at_weaken, H2; lia|exact Hsmall]].
  intros u3 db3 H3. cbv beta in H3. apply wpM_bind.
  eapply wpM_mono; [|eapply (on_kv_ok _ (6 * length xs + n)%nat n db3 _ _ _ T (apply_batch true T xs) _
    (fun r => r = (changed true T xs, changed true T xs, changed true T xs))); [exact H3|lia|]]; cycle 1.
  { eapply wpM_mono; [|apply (sorted_batch_ok enough junk Hmem true xs (kvstore db3) n T); try done; [apply H3|rewrite Hsz, <- Hxl; lia|apply H3]].
    intros r kv' (?&?&?). done. }
  intros r4 db4 [H4 ->]. rewrite !Z.max_id. apply wpM_bind.
  eapply wpM_mono; [|exact (set_num_ok n db4 _ _ _ _ _ (fun z => u64 (z + changed true T xs)) H4)]. intros u5 db5 H5. cbv beta in H5. apply wpM_bind.
  eapply wpM_mono; [|exact (harmless_sub (fun z => z ⊞ update_num_subject l) _ _ _ _ _ _ _ H5)]. intros u6 db6 H6. cbv beta in H6. apply wpM_ret.
  assert (Hch : changed true T xs = Z.of_nat (base.size D') - Z.of_nat (base.size D)) by (unfold changed, apply_batch; by rewrite Hsz, Hsz').
  rewrite Hch in *. split; [done|]. exists A', (T ∪ list_to_set xs). split; [|done].
  assert (u64 (Z.of_nat (base.size D) + (Z.of_nat (base.size D') - Z.of_nat (base.size D))) = Z.of_nat (base.size D')) as <-; [|done].
  rewrite u64_small; [lia|].
  pose proof (changed_bounds true T xs) as [Hcb _]. rewrite Hch, <- Hxl in Hcb. lia.
Qed.
End Batch.

(** * A batch of removals

    After the indexes were updated, the names of the removed triples that no
    triple uses any more are dropped by their ids, in increasing order; an id that
    was dropped as a subject has no name left when it comes up as an object. *)

(** [A] is [A0] without some of its names. *)
Definition shrinks (A0 A : kind -> gmap string Z) : Prop := forall k s, A k !! s = A0 k !! s \/ A k !! s = None.

Lemma shrinks_dropped A0 A A' k s : shrinks A0 A -> dropped k s A A' -> (A' k !! s = A k !! s \/ A' k !! s = None) -> shrinks A0 A'.
Proof.
  intros Hs Hd Hk k' s'. destruct (decide ((k', s') = (k, s))) as [[= -> ->]|Hne]; [|by rewrite Hd].
  destruct Hk as [->| ->]; [apply Hs|by right].
Qed.

Lemma id_sequence_length ids : (length (id_sequence ids) <= length ids)%nat.
Proof.
  unfold id_sequence. rewrite (Permutation_length (merge_sort_Permutation Z.le _)).
  induction ids as [|i ids IH]; [done|]. cbn [list_to_set].
  pose proof (size_union_alt ({[i]} : gset Z) (list_to_set ids)) as Hu. unfold base.size, set_size in Hu. cbn in Hu.
  assert (length (elements (list_to_set ids ∖ {[i]} : gset Z)) <= length (elements (list_to_set ids : gset Z)))%nat.
  { apply (subseteq_size (list_to_set ids ∖ {[i]} : gset Z) (list_to_set ids)). set_solver. }
  rewrite elements_singleton in Hu. cbn in *. lia.
Qed.
Lemma elem_id_sequence i ids : i ∈ id_sequence ids <-> i ∈ ids.
Proof. unfold id_sequence. rewrite (merge_sort_Permutation Z.le _), elem_of_elements, elem_of_list_to_set. done. Qed.

Section Drop.
Context {S I J : Type} `{VSL : ValueStoreLaws S} `{SIL : StrIndexLaws I} `{SAL : StrArrayLaws J}.
Abbreviation DB := (Database S I J).

(** An id that no name has reads as the empty string. *)
Lemma getStr_free_ok k i n (db : DB) E1 E2 A T c : db_at (Datatypes.S n) db E1 E2 A T c -> word i -> (forall s, E2 k !! s <> Some i) ->
  id_base k <= i -> wpM (on_names k (getStrByID k i)) db (fun r db' => db_at n db' E1 E2 A T c /\ r = EmptyString).
Proof using Type.
  intros H Hw Hn Hb. eapply on_names_read; [done|]. pose proof (da_names _ _ _ _ _ _ _ H k) as N. apply names_at_le in N as N'.
  pose proof (id_base_bound k). assert (i ⊟ id_base k = i - id_base k) as Hk by (apply u32_small; word_lia).
  assert (word (i - id_base k)) as Hw' by word_lia. unfold getStrByID. apply wpM_bind. rewrite Hk.
  destruct (wpM_inv _ _ _ (sa_search_ok (id2str (get_names k db)) n _ (proj2 (na_room _ _ _ _ _ _ N)) Hw')) as (r&j'&Hr&->&Hv&Hn').
  unfold on_id, wpM. rewrite Hr. cbn. split.
  - destruct N' as [N1 [N2 _] N3 N4 N5 N6 N7 N8 N9 N10 N11 N12]. split; cbn; try done. intros i0 s0. by rewrite Hv.
  - destruct (sa_view (id2str (get_names k db)) !! (i - id_base k)) as [s|] eqn:Es; [|done].
    apply (na_inverse _ _ _ _ _ _ N) in Es. exfalso. apply (Hn s). rewrite Es. f_equal. lia.
Qed.

Lemma but_absent (A : kind -> gmap string Z) D T P k s : covers D A T P -> A k !! s = None -> covers D A T (but k s P).
Proof using Type.
  intros [Hn Ht] Hs. split; [|done]. intros k' s'. unfold but. rewrite Hn. split; [|tauto]. intros [?|HP]; [by left|]. right.
  split; [done|]. intros [= -> ->]. assert (is_Some (A k !! s)) as [? ?] by (apply Hn; by right). congruence.
Qed.

Context (A0 : kind -> gmap string Z) (Hinj0 : forall k s s' i, A0 k !! s = Some i -> A0 k !! s' = Some i -> s = s').

Lemma drop_id_ok k s i n (db : DB) A T c D P : db_at (6 + n) db A A A T c -> covers D A T P -> small (vs_limit S) T ->
  shrinks A0 A -> A0 k !! s = Some i -> s <> EmptyString -> word i -> id_base k <= i ->
  wpM (drop_id k i) db (fun _ db' => exists A', db_at n db' A' A' A' T c /\ covers D A' T (but k s P) /\ shrinks A0 A').
Proof using Hinj0.
  intros H Hc Hsm Hsh Hs Hne Hw Hb. unfold drop_id. apply wpM_bind.
  eapply wpM_mono; [|eapply (on_kv_ok _ (6 + n) (4 + n)) with (Q := fun d => d = 0 <-> ~ exists x, x ∈ T /\ has_id k i x); [exact H|lia|]]; cycle 1.
  { apply (degree_of_ok k i (kvstore db) (4 + n)); [apply H|done|apply H|done]. }
  intros d db1 [H1 Hd]. destruct (Hsh k s) as [Ek|Ek].
  - rewrite Hs in Ek. rewrite <- (used_iff _ _ _ _ _ _ _ D T P k s i H Hc Ek) in Hd. destruct (Z.eqb_spec d 0) as [E|E]; cycle 1.
    { apply wpM_ret. exists A. split_and!; [by apply (db_at_weaken n (4 + n)); [lia|]| |done]. apply covers_used; [done|].
      destruct (decide (uses k D s)) as [|Hn]; [done|]. exfalso. tauto. }
    apply wpM_bind. eapply wpM_mono; [|exact (getStr_ok k s i (3 + n) db1 A A A T c H1 Ek)]. intros r db2 [H2 ->].
    rewrite bool_decide_eq_false_2 by done. apply wpM_bind.
    eapply wpM_mono; [|exact (drop_name_ok k s i n db2 A T c H2 Ek)]. intros u db3 H3. apply wpM_ret. exists (without_name k s A).
    split; [exact H3|]. split; [apply covers_unused; tauto|]. eapply (shrinks_dropped A0 A _ k s Hsh).
    + intros k' s' Hks. by apply without_name_ne.
    + right. apply without_name_eq.
  - assert (Hfin : forall db' : DB, db_at (3 + n) db' A A A T c -> exists A', db_at n db' A' A' A' T c /\ covers D A' T (but k s P) /\ shrinks A0 A').
    { intros db' H'. exists A. split_and!; [by apply (db_at_weaken n (3 + n)); [lia|]|by apply but_absent|done]. }
    destruct (d =? 0); [|apply wpM_ret, Hfin; by apply (db_at_weaken (3 + n) (4 + n)); [lia|]].
    apply wpM_bind. eapply wpM_mono; [|apply (getStr_free_ok k i (3 + n) db1 A A A T c H1 Hw)]; [| |done].
    + intros r db2 [H2 ->]. rewrite bool_decide_eq_true_2 by done. by apply wpM_ret, Hfin.
    + intros s' Hs'. destruct (Hsh k s') as [E|E]; [|congruence]. rewrite Hs' in E. symmetry in E.
      assert (s' = s) as -> by (by eapply Hinj0). congruence.
Qed.

(** The ids [ids], of the kind [kf], are of names that are in [A0]. *)
Lemma drop_ids_ok kf ids num n (db : DB) A T c D P : db_at (6 * length ids + n) db A A A T c -> covers D A T P -> small (vs_limit S) T ->
  shrinks A0 A -> (forall i, i ∈ ids -> word i /\ id_base (kf i) <= i /\ exists s, s <> EmptyString /\ A0 (kf i) !! s = Some i) ->
  wpM (drop_ids kf ids num) db (fun _ db' => exists A', db_at n db' A' A' A' T c /\
    covers D A' T (fun k s => P k s /\ forall i, i ∈ ids -> kf i = k -> A0 k !! s <> Some i) /\ shrinks A0 A').
Proof using Hinj0.
  intros H Hc Hsm Hsh Hids. revert num db A P H Hc Hsh. induction ids as [|i ids IH]; intros num db A P H Hc Hsh; cbn [drop_ids].
  - apply wpM_ret. exists A. split_and!; [by eapply db_at_weaken, H; lia| |done]. destruct Hc as [Hn Ht]. split; [|done].
    intros k s. rewrite Hn. split; [|tauto]. intros [?|?]; [by left|right]. split; [done|]. by intros i ?%elem_of_nil.
  - destruct (Hids i) as (Hw&Hb&s&Hne&Hs); [left|]. apply wpM_bind.
    eapply wpM_mono; [|eapply (drop_id_ok (kf i) s i (6 * length ids + n)%nat); try done; eapply db_at_weaken, H; cbn; lia].
    intros b db1 (A1&H1&C1&S1). eapply wpM_mono; [|apply (IH ltac:(intros; apply Hids; by right) _ db1 A1 _ H1 C1 S1)].
    intros u db2 (A2&H2&C2&S2). exists A2. split_and!; [exact H2| |done]. destruct C2 as [Hn Ht]. split; [|done].
    intros k' s'. rewrite Hn. unfold but. split; [|].
    + intros [?|[[HP Hks] Hr]]; [by left|right]. split; [done|]. intros i' [->|Hi']%elem_of_cons Hk'; [|by apply Hr].
      subst k'. intros E. apply Hks. f_equal. by eapply Hinj0.
    + intros [?|[HP Hr]]; [by left|right]. split; [split; [done|]|].
      * intros [= -> ->]. by apply (Hr i); [left| |].
      * intros i' Hi'. apply Hr. by right.
Qed.
End Drop.

Section Remove.
Context {S I J : Type} `{VSL : ValueStoreLaws S} `{SIL : StrIndexLaws I} `{SAL : StrArrayLaws J}.
Abbreviation DB := (Database S I J).

(** The names of the triple are not empty and in use. *)
Definition names_used (D : gset striple) (t : TripleWithObjType) : Prop :=
  forall k s, s ∈ names_of k (skey t) -> s <> EmptyString /\ uses k D s.

Lemma names_used_ids D A T t : matches D A T -> names_used D t -> is_Some (ids_of A (skey t)).
Proof using Type.
  intros [Hn _] Hu. assert (Hu' : forall k s', s' ∈ names_of k (skey t) -> is_Some (A k !! s')) by (intros k s' Hs'; by apply Hn, Hu).
  unfold skey in *. destruct (Hu' Entities (subject t)) as [i Hi]; [apply elem_names_of; tauto|].
  destruct (Hu' Predicates (predicate t)) as [j Hj]; [apply elem_names_of; tauto|].
  destruct (Hu' (okind (isObjEntity t)) (object t)) as [l Hl]; [apply elem_names_of; tauto|]. exists (i, j, l). by apply ids_of_Some.
Qed.

Lemma known_ids_ok t n (db : DB) A T c x : db_at (3 + n) db A A A T c -> ids_of A (skey t) = Some x ->
  wpM (known_ids t) db (fun r db' => db_at n db' A A A T c /\ r = Some x).
Proof using Type.
  intros H Hx. unfold skey in Hx. apply ids_of_Some in Hx as (Hi&Hj&Hl). change (okind (isObjEntity t)) with (obj_kind t) in Hl. unfold known_ids.
  apply wpM_bind. eapply wpM_mono; [|exact (getID_ok Entities _ (2 + n) db A A A T _ H)]. intros r1 db1 [H1 ->]. rewrite Hi. cbn [default].
  unfold default, id. rewrite (proj2 (da_valid _ _ _ _ _ _ _ _ _ _ H Hi)).
  apply wpM_bind. eapply wpM_mono; [|exact (getID_ok Predicates _ (1 + n) db1 A A A T _ H1)]. intros r2 db2 [H2 ->]. rewrite Hj.
  unfold default, id. rewrite (proj2 (da_valid _ _ _ _ _ _ _ _ _ _ H Hj)).
  apply wpM_bind. eapply wpM_mono; [|exact (getID_ok (obj_kind t) _ n db2 A A A T _ H2)]. intros r3 db3 [H3 ->]. rewrite Hl.
  unfold default, id. rewrite (proj2 (da_valid _ _ _ _ _ _ _ _ _ _ H Hl)). apply wpM_ret. split; [exact H3|]. by destruct x as [[? ?] ?].
Qed.

Lemma collect_known_ok ts n (db : DB) A T c xs : db_at (3 * length ts + n) db A A A T c ->
  Forall2 (fun t x => ids_of A (skey t) = Some x) ts xs ->
  wpM (collect_known ts) db (fun r db' => db_at n db' A A A T c /\ r = Some <$> xs).
Proof using Type.
  intros H H2. revert db H. induction H2 as [|t x ts xs Hx _ IH]; intros db H; cbn [collect_known].
  - apply wpM_ret. done.
  - apply wpM_bind. eapply wpM_mono; [|eapply (known_ids_ok t (3 * length ts + n)%nat); [eapply db_at_weaken, H; cbn; lia|done]].
    intros r db1 [H1 ->]. apply wpM_bind. eapply wpM_mono; [|exact (IH db1 H1)]. intros rs db2 [H2 ->]. by apply wpM_ret.
Qed.

Lemma collect_all mem (xs : list triple) : length mem = length xs -> collect_id_tuples mem (Some <$> xs) = xs.
Proof using Type.
  unfold collect_id_tuples. revert mem. induction xs as [|x xs IH]; intros [|m mem] Hl; try done. cbn in *. f_equal. apply IH. lia.
Qed.
Lemma omap_all (xs : list triple) : omap id (Some <$> xs) = xs.
Proof using Type. induction xs as [|x xs IH]; [done|]. cbn. by rewrite IH. Qed.

Lemma covers_batch n (db : DB) A T0 c D T ts xs : db_at n db A A A T0 c -> matches D A T -> Forall (names_used D) ts ->
  Forall2 (fun t x => ids_of A (skey t) = Some x) ts xs ->
  covers (D ∖ list_to_set (skey <$> ts)) A (T ∖ list_to_set xs) (fun k s => exists t, t ∈ ts /\ s ∈ names_of k (skey t)).
Proof using Type.
  intros Hd [Hn Ht] Hu H2. rewrite Forall_forall in Hu. split.
  - intros k s. rewrite Hn. split.
    + intros (t&Hin&Hs). destruct (decide (t ∈ skey <$> ts)) as [Hk|Hk].
      * right. apply list_elem_of_fmap in Hk as (t'&->&Hk). by exists t'.
      * left. exists t. split; [|done]. apply elem_of_difference. by rewrite elem_of_list_to_set.
    + intros [(t&[Hin _]%elem_of_difference&Hs)|(t&Hin&Hs)]; [by exists t|]. by apply (Hu t Hin).
  - intros x. rewrite elem_of_difference, elem_of_list_to_set, Ht. split.
    + intros [(t&Hin&Hx) Hni]. exists t. split; [|done]. apply elem_of_difference. split; [done|].
      intros (t'&->&Hk)%elem_of_list_to_set%list_elem_of_fmap. apply Hni. apply list_elem_of_lookup in Hk as (j&Hj).
      destruct (Forall2_lookup_l _ _ _ _ _ H2 Hj) as (y&Hy&Hxy). rewrite Hx in Hxy. injection Hxy as <-. by eapply list_elem_of_lookup_2.
    + intros (t&[Hin Hni]%elem_of_difference&Hx). split; [by exists t|]. intros Hk. apply Hni, elem_of_list_to_set, list_elem_of_fmap.
      apply list_elem_of_lookup in Hk as (j&Hj). destruct (Forall2_lookup_r _ _ _ _ _ H2 Hj) as (t'&Ht'&Hy). exists t'.
      split; [by eapply (ids_inj _ _ _ _ _ _ _ Hd)|by eapply list_elem_of_lookup_2].
Qed.

(** Every id of the batch is the id of one of its names. *)
Lemma batch_ids n (db : DB) A T c D ts xs k (f : triple -> Z) : db_at n db A A A T c -> Forall (names_used D) ts ->
  Forall2 (fun t x => ids_of A (skey t) = Some x) ts xs ->
  (forall t x, ids_of A (skey t) = Some x -> exists s, s ∈ names_of (k (f x)) (skey t) /\ A (k (f x)) !! s = Some (f x)) ->
  forall i, i ∈ id_sequence (f <$> xs) -> word i /\ id_base (k i) <= i /\ exists s, s <> EmptyString /\ A (k i) !! s = Some i.
Proof using Type.
  intros Hd Hu H2 Hf i Hi. rewrite Forall_forall in Hu. rewrite elem_id_sequence in Hi. apply list_elem_of_fmap in Hi as (x&->&Hx).
  apply list_elem_of_lookup in Hx as (j&Hj). destruct (Forall2_lookup_r _ _ _ _ _ H2 Hj) as (t&Ht%list_elem_of_lookup_2&Hids).
  destruct (Hf t x Hids) as (s&Hin&Hs). destruct (da_valid _ _ _ _ _ _ _ _ _ _ Hd Hs) as [Hw _]. pose proof (id_range _ _ _ _ _ _ _ Hd _ _ _ Hs).
  split_and!; [done|lia|]. exists s. split; [|done]. by apply (Hu t Ht _ _ Hin).
Qed.

Lemma object_kind_ok n (db : DB) A T c b o l : db_at n db A A A T c -> A (okind b) !! o = Some l -> object_kind l = okind b.
Proof using Type.
  intros Hd Hl. apply (id_range _ _ _ _ _ _ _ Hd) in Hl. unfold object_kind, is_entity_ele.
  destruct b; cbn in *; [rewrite (proj2 (Z.ltb_lt _ _)) by lia|rewrite (proj2 (Z.ltb_ge _ _)) by lia]; done.
Qed.

Lemma drop_all_ok n (db : DB) A T T' c D D' ts xs : db_at (18 * length xs + n) db A A A T' c -> matches D A T -> Forall (names_used D) ts ->
  Forall2 (fun t x => ids_of A (skey t) = Some x) ts xs ->
  covers D' A T' (fun k s => exists t, t ∈ ts /\ s ∈ names_of k (skey t)) -> small (vs_limit S) T' ->
  wpM (drop_all xs) db (fun _ db' => exists A', db_at n db' A' A' A' T' c /\ matches D' A' T').
Proof using Type.
  intros H Hm Hu H2 Hc Hsm. pose proof (fun k => na_inj _ _ _ _ _ _ (da_names _ _ _ _ _ _ _ H k)) as Hinj.
  pose proof (id_sequence_length (subid <$> xs)) as L1. pose proof (id_sequence_length (objid <$> xs)) as L2.
  pose proof (id_sequence_length (preid <$> xs)) as L3. rewrite length_fmap in L1, L2, L3.
  assert (Hids : forall t x, ids_of A (skey t) = Some x -> A Entities !! subject t = Some (subid x) /\ A Predicates !! predicate t = Some (preid x) /\
    object_kind (objid x) = okind (isObjEntity t) /\ A (okind (isObjEntity t)) !! object t = Some (objid x)).
  { intros t x Hx. unfold skey in Hx. apply ids_of_Some in Hx as (Hi&Hj&Hl). split_and!; [done|done| |done]. by eapply object_kind_ok. }
  unfold drop_all. apply wpM_bind.
  eapply wpM_mono; [|eapply (drop_ids_ok A Hinj (fun _ => Entities) _ 0 (12 * length xs + n)%nat); [|exact Hc|done|by left|]]; cycle 1.
  { eapply db_at_weaken, H. lia. }
  { eapply (batch_ids _ db A T' c D ts xs (fun _ => Entities) subid H Hu H2). intros t x Hx. exists (subject t).
    destruct (Hids t x Hx) as (?&_). split; [apply elem_names_of; tauto|done]. }
  intros num db1 (A1&H1&C1&S1). apply wpM_bind.
  eapply wpM_mono; [|eapply (drop_ids_ok A Hinj object_kind _ 0 (6 * length xs + n)%nat); [|exact C1|done|done|]]; cycle 1.
  { eapply db_at_weaken, H1. lia. }
  { eapply (batch_ids _ db A T' c D ts xs object_kind objid H Hu H2). intros t x Hx. exists (object t).
    destruct (Hids t x Hx) as (_&_&->&?). split; [apply elem_names_of; tauto|done]. }
  intros num2 db2 (A2&H2'&C2&S2). apply wpM_bind.
  eapply wpM_mono; [|eapply (drop_ids_ok A Hinj (fun _ => Predicates) _ 0 n); [|exact C2|done|done|]]; cycle 1.
  { eapply db_at_weaken, H2'. lia. }
  { eapply (batch_ids _ db A T' c D ts xs (fun _ => Predicates) preid H Hu H2). intros t x Hx. exists (predicate t).
    destruct (Hids t x Hx) as (_&?&_). split; [apply elem_names_of; tauto|done]. }
  intros num3 db3 (A3&H3&C3&S3). apply wpM_ret. exists A3. split; [exact H3|]. eapply covers_matches; [exact C3|].
  intros k s ((((t&Ht&Hs)&N1)&N2)&N3). apply list_elem_of_lookup in Ht as (j&Hj). destruct (Forall2_lookup_l _ _ _ _ _ H2 Hj) as (x&Hx&Hidx).
  apply list_elem_of_lookup_2 in Hx. assert (Hmem : forall f, f x ∈ id_sequence (f <$> xs)).
  { intros f. apply elem_id_sequence. by apply list_elem_of_fmap_2. }
  destruct (Hids t x Hidx) as (Hi&Hj'&Ho&Hl). unfold skey in Hs. apply elem_names_of in Hs as [[-> ->]|[[-> ->]|[-> ->]]].
  - by apply (N1 _ (Hmem subid)).
  - by apply (N3 _ (Hmem preid)).
  - by apply (N2 _ (Hmem objid)).
Qed.

Context (enough : Z -> bool) (junk : nat -> Z) (Hmem : forall m, enough m = true).

Lemma db_batch_remove_ok n D (db : DB) ts mem : holds (40 * length ts + n) D db -> Forall (names_used D) ts -> length mem = length ts ->
  12 * (Z.of_nat (base.size D) + len ts) + 24 < vs_limit S -> Z.of_nat (base.size D) < W64 ->
  let D' := D ∖ list_to_set (skey <$> ts) in
  wpM (db_batch_remove enough junk mem ts) db (fun r db' => r = Z.of_nat (base.size D) - Z.of_nat (base.size D') /\ holds n D' db').
Proof using Hmem.
  intros (A&T&H&Hm) Hu Hml Hsm Hnum D'. unfold db_batch_remove. destruct (Z.eqb_spec (len ts) 0) as [Hz|Hz].
  { apply wpM_ret. destruct ts; [|cbn in Hz; lia]. unfold D'. cbn. rewrite difference_empty_L. split; [lia|]. by exists A, T. }
  assert (Hlen : (1 <= length ts)%nat) by lia.
  assert (exists xs, Forall2 (fun t x => ids_of A (skey t) = Some x) ts xs) as [xs I1].
  { clear -Hm Hu VSL SIL SAL. induction Hu as [|t ts Ht _ [xs IH]]; [by exists []|]. destruct (names_used_ids D A T t Hm Ht) as [x Hx]. exists (x :: xs). by constructor. }
  pose proof (Forall2_length _ _ _ I1) as Hxl. apply wpM_bind.
  eapply wpM_mono; [|eapply (collect_known_ok ts (30 * length ts + n)%nat); [eapply db_at_weaken, H; lia|exact I1]].
  intros r1 db1 [H1 ->]. rewrite collect_all, omap_all by lia. clear Hml.
  assert (Hxne : xs <> []) by (destruct xs; cbn in *; [lia|done]).
  assert (Hxok : Forall triple_ok xs).
  { apply Forall_forall. intros x Hx. apply list_elem_of_lookup in Hx as (j&Hj). destruct (Forall2_lookup_r _ _ _ _ _ I1 Hj) as (t&_&Hy).
    by apply (ids_ok _ _ _ _ _ _ _ H1 _ _ Hy). }
  pose proof (matches_size _ _ _ _ _ _ _ H D T Hm) as Hsz.
  pose proof (covers_batch _ _ _ _ _ D T ts xs H1 Hm Hu I1) as Hc. fold D' in Hc.
  destruct (prepared (S := S) xs Hxne) as (_&_&Hin&Hul). set (us := unique_tuples (sort_tuples spo_cmp_idtuple xs)) in *.
  assert (Huok : Forall triple_ok us) by (rewrite Forall_forall in *; intros x Hx; by apply Hxok, Hin).
  assert (Hsmall : small (vs_limit S) T) by (unfold small; rewrite Hsz; len_lia).
  apply wpM_bind. eapply wpM_mono; [|eapply (spends_statistics junk false us Huok (24 * length xs + n)%nat); [eapply db_at_weaken, H1; lia|exact Hsmall]].
  intros u2 db2 H2. cbv beta in H2. apply wpM_bind.
  eapply wpM_mono; [|eapply (on_kv_ok _ (24 * length xs + n)%nat (18 * length xs + n)%nat db2 _ _ _ T (T ∖ list_to_set xs) _
    (fun r => r = (changed false T xs, changed false T xs, changed false T xs))); [exact H2|lia|]]; cycle 1.
  { eapply wpM_mono; [|apply (sorted_batch_ok enough junk Hmem false xs (kvstore db2) (18 * length xs + n)%nat T); try done;
      [apply H2|rewrite Hsz, <- Hxl; lia|eapply kv_room_le, H2; lia]].
    intros r kv' (?&?&?). done. }
  intros r3 db3 [H3 ->]. assert (Hch0 : 0 <= changed false T xs) by apply changed_bounds.
  rewrite (Z.max_r 0), Z.max_id by done.
  assert (Hsm' : small (vs_limit S) (T ∖ list_to_set xs)).
  { unfold small in *. assert (base.size (T ∖ list_to_set xs) <= base.size T)%nat; [|lia]. apply subseteq_size. set_solver. }
  pose proof (drop_all_ok n db3 A T (T ∖ list_to_set xs) _ D D' ts xs H3 Hm Hu I1 Hc Hsm') as Hdrop.
  apply wpM_bind. eapply wpM_mono; [|exact Hdrop]. intros num db4 (A4&H4&M4). apply wpM_bind.
  eapply wpM_mono; [|exact (set_num_ok n db4 _ _ _ _ _ (fun z => u64 (z - changed false T xs)) H4)]. intros u5 db5 H5. cbv beta in H5. apply wpM_bind.
  eapply wpM_mono; [|exact (harmless_sub (fun z => if num <? z then z ⊟ num else 0) _ _ _ _ _ _ _ H5)]. intros u6 db6 H6. cbv beta in H6. apply wpM_ret.
  pose proof (matches_size _ _ _ _ _ _ _ H4 D' _ M4) as Hsz'.
  assert (Hch : changed false T xs = Z.of_nat (base.size D) - Z.of_nat (base.size D')) by (unfold changed, apply_batch; by rewrite Hsz, Hsz').
  rewrite Hch in *. split; [done|]. exists A4, (T ∖ list_to_set xs). split; [|done].
  assert (u64 (Z.of_nat (base.size D) - (Z.of_nat (base.size D) - Z.of_nat (base.size D'))) = Z.of_nat (base.size D')) as <-; [|done].
  rewrite u64_small; lia.
Qed.
End Remove.
