(* ===== verification/DatabaseTheorems.v ===== *)
(** * Histories of the database

    Insertions and removals of arrays of triples, one by one ([insert], [remove])
    and in batches ([batch_insert], [batch_remove]), in any order: a database
    that holds a set of triples of strings holds the updated set after each of
    them, and each reports how many triples it changed. *)

From stdpp Require Import strings.
From S2P Require Import Prelude Util ValueList BatchInsertSpec ValueStore KVstore TripleSet KVget KVtheorems KVbatch KVbatchSpec Names Database DatabaseSpec DatabaseBatchSpec.

Inductive db_op :=
  | Insert (ts : list TripleWithObjType)
  | Remove (ts : list TripleWithObjType)
  | BatchInsert (ts : list TripleWithObjType)
  | BatchRemove (mem : list triple) (ts : list TripleWithObjType).

Definition op_triples (o : db_op) : list TripleWithObjType :=
  match o with Insert ts | Remove ts | BatchInsert ts | BatchRemove _ ts => ts end.

(** The set after the operation and the number it reports. *)
Definition op_set (o : db_op) (D : gset striple) : gset striple :=
  match o with
  | Insert ts | BatchInsert ts => D ∪ list_to_set (skey <$> ts)
  | Remove ts | BatchRemove _ ts => D ∖ list_to_set (skey <$> ts)
  end.
Definition op_result (o : db_op) (D : gset striple) : Z := Z.abs (Z.of_nat (base.size (op_set o D)) - Z.of_nat (base.size D)).

Fixpoint ops_set (os : list db_op) (D : gset striple) : gset striple :=
  match os with [] => D | o :: os' => ops_set os' (op_set o D) end.
Fixpoint ops_results (os : list db_op) (D : gset striple) : list Z :=
  match os with [] => [] | o :: os' => op_result o D :: ops_results os' (op_set o D) end.

Definition ops_cost (os : list db_op) : nat := sum_list_with (fun o => 3 + 40 * length (op_triples o))%nat os.

Lemma size_union_list (D : gset striple) l : (base.size D <= base.size (D ∪ list_to_set l) <= base.size D + length l)%nat.
Proof.
  split; [apply subseteq_size; set_solver|]. rewrite size_union_alt. assert (base.size (list_to_set l ∖ D : gset striple) <= length l)%nat; [|lia].
  etrans; [apply (subseteq_size _ (list_to_set l)); set_solver|]. induction l as [|x l IH]; [done|]. cbn [list_to_set length].
  rewrite size_union_alt, size_singleton. assert (base.size (list_to_set l ∖ {[x]} : gset striple) <= base.size (list_to_set l : gset striple))%nat; [|lia].
  apply subseteq_size. set_solver.
Qed.

Section History.
Context {S I J : Type} `{VSL : ValueStoreLaws S} `{SIL : StrIndexLaws I} `{SAL : StrArrayLaws J}.
Abbreviation DB := (Database S I J).
Context (junk : nat -> Z).

Lemma holds_weaken m n D (db : DB) : (m <= n)%nat -> holds n D db -> holds m D db.
Proof using Type. intros Hle (A&T&H&Hm). exists A, T. split; [by eapply db_at_weaken|done]. Qed.

(** *** One by one *)

Lemma insert_each_ok ts : forall n D (db : DB) v, holds (20 * length ts + n) D db -> Forall (names_fit (I := I) (J := J)) ts ->
  12 * (Z.of_nat (base.size D) + len ts) + 24 < vs_limit S -> 0 <= v <= Z.of_nat (base.size D) ->
  let D' := D ∪ list_to_set (skey <$> ts) in
  wpM (insert_each junk ts v) db (fun r db' => r = v + (Z.of_nat (base.size D') - Z.of_nat (base.size D)) /\ holds n D' db').
Proof using Type.
  pose proof (vs_limit_le S) as Hlim. assert (HW : W32 < W64) by done.
  induction ts as [|t ts IH]; intros n D db v H Hf Hsm Hv D'; cbn [insert_each].
  - apply wpM_ret. unfold D'. cbn. rewrite (right_id_L ∅ (∪)). split; [lia|done].
  - apply Forall_cons in Hf as [Ht Hf]. cbn [length] in *. apply wpM_bind.
    eapply wpM_mono; [|apply (insertTriple_ok junk (20 * length ts + n) D db t); try done; [by eapply holds_weaken, H; lia|lia|lia]].
    intros b db1 [-> H1]. assert (E : D' = ({[skey t]} ∪ D) ∪ list_to_set (skey <$> ts)) by (unfold D'; cbn; set_solver).
    assert (Hsz : Z.of_nat (base.size ({[skey t]} ∪ D)) = Z.of_nat (base.size D) + (if bool_decide (skey t ∉ D) then 1 else 0)) by apply size_add.
    assert (Hv' : (if bool_decide (skey t ∉ D) then u64 (v + 1) else v) = v + (if bool_decide (skey t ∉ D) then 1 else 0)).
    { case_bool_decide; [apply u64_small|]; lia. }
    rewrite Hv'. eapply wpM_mono; [|apply (IH n _ db1 _ H1 Hf); rewrite Hsz; case_bool_decide; lia].
    intros r db2 [-> H2]. rewrite E. split; [|done]. rewrite Hsz. case_bool_decide; lia.
Qed.

Lemma remove_each_ok ts : forall n D (db : DB) v, holds (32 * length ts + n) D db -> Forall no_loop ts ->
  12 * Z.of_nat (base.size D) + 24 < vs_limit S -> 0 <= v -> v + Z.of_nat (base.size D) < W64 ->
  let D' := D ∖ list_to_set (skey <$> ts) in
  wpM (remove_each junk ts v) db (fun r db' => r = v + (Z.of_nat (base.size D) - Z.of_nat (base.size D')) /\ holds n D' db').
Proof using Type.
  induction ts as [|t ts IH]; intros n D db v H Hf Hsm Hv Hw D'; cbn [remove_each].
  - apply wpM_ret. unfold D'. cbn. rewrite difference_empty_L. split; [lia|done].
  - apply Forall_cons in Hf as [Ht Hf]. cbn [length] in *. apply wpM_bind.
    eapply wpM_mono; [|apply (removeTriple_ok junk (32 * length ts + n) D db t); try done; [by eapply holds_weaken, H; lia|lia]].
    intros b db1 [-> H1]. assert (E : D' = (D ∖ {[skey t]}) ∖ list_to_set (skey <$> ts)) by (unfold D'; cbn; set_solver).
    assert (Hsz : Z.of_nat (base.size D) = Z.of_nat (base.size (D ∖ {[skey t]})) + (if bool_decide (skey t ∈ D) then 1 else 0)) by apply size_sub.
    assert (Hv' : (if bool_decide (skey t ∈ D) then u64 (v + 1) else v) = v + (if bool_decide (skey t ∈ D) then 1 else 0)).
    { case_bool_decide; [apply u64_small|]; lia. }
    rewrite Hv'. eapply wpM_mono; [|apply (IH n _ db1 _ H1 Hf); case_bool_decide; lia].
    intros r db2 [-> H2]. rewrite E. split; [|done]. rewrite Hsz. case_bool_decide; lia.
Qed.

(** No triples, no names: the numbering starts anew. *)
Lemma reset_ok n (db : DB) A T c : db_at (3 + n) db A A A T c -> (forall k, A k = ∅) ->
  wpM resetIDinfo db (fun _ db' => db_at n db' A A A T c).
Proof using Type.
  intros H HA. assert (Hone : forall k n' (db' : DB), db_at (Datatypes.S n') db' A A A T c ->
    wpM (on_names k (fun x => Some (tt, mk_Names (str2id x) (id2str x) 0 [] (id_num x)))) db' (fun _ db'' => db_at n' db'' A A A T c)).
  { intros k n' db' H'. eapply wpM_mono; [|eapply (on_names_read k _ n' db' A A A T c (fun _ => True) H')]; [by intros r db'' [? _]|].
    pose proof (names_at_le _ _ _ _ _ _ (da_names _ _ _ _ _ _ _ H' k)) as [N1 N2 N3 N4 N5 N6 N7 N8 N9 N10 N11 N12].
    rewrite HA in *. unfold wpM. cbn. split; [|done]. split; cbn; try done.
    - by constructor.
    - by intros f ?%elem_of_nil.
    - len_lia. }
  unfold resetIDinfo. apply wpM_bind. eapply wpM_mono; [|exact (Hone Entities (2 + n)%nat db H)]. intros u1 db1 H1. cbv beta in H1.
  apply wpM_bind. eapply wpM_mono; [|exact (Hone Literals (1 + n)%nat db1 H1)]. intros u2 db2 H2. exact (Hone Predicates n db2 H2).
Qed.

Lemma holds_empty_reset n D (db : DB) : holds (3 + n) D db ->
  wpM (if triples_num db =? 0 then resetIDinfo else retM tt) db (fun _ db' => holds n D db').
Proof using Type.
  intros (A&T&H&Hm). destruct (Z.eqb_spec (triples_num db) 0) as [E|E]; cycle 1.
  { apply wpM_ret. exists A, T. split; [by eapply db_at_weaken, H; lia|done]. }
  rewrite (da_num _ _ _ _ _ _ _ H) in E. assert (D = ∅) as -> by (apply leibniz_equiv, size_empty_iff; lia).
  eapply wpM_mono; [|apply (reset_ok n db A T _ H)].
  - intros u db' H'. by exists A, T.
  - intros k. apply map_empty. intros s. apply eq_None_not_Some. rewrite (ma_names _ _ _ Hm). intros (t&Ht&_). set_solver.
Qed.

Context (enough : Z -> bool) (Hmem : forall m, enough m = true).

Definition run_op (o : db_op) : M DB Z :=
  match o with
  | Insert ts => insert junk ts
  | Remove ts => remove junk ts
  | BatchInsert ts => db_batch_insert enough junk ts
  | BatchRemove mem ts => db_batch_remove enough junk mem ts
  end.

Fixpoint run_ops (os : list db_op) : M DB (list Z) :=
  match os with
  | [] => retM []
  | o :: os' => let! r := run_op o in let! rs := run_ops os' in retM (r :: rs)
  end.

(** What the operation asks for: names the dictionaries accept, no triple from
    an entity to itself among those removed one by one, and only known names in
    a batch of removals. *)
Definition op_ok (o : db_op) (D : gset striple) : Prop :=
  match o with
  | Insert ts | BatchInsert ts => Forall (names_fit (I := I) (J := J)) ts
  | Remove ts => Forall no_loop ts
  | BatchRemove mem ts => Forall (names_used D) ts /\ length mem = length ts
  end.

Fixpoint ops_ok (os : list db_op) (D : gset striple) : Prop :=
  match os with
  | [] => True
  | o :: os' => op_ok o D /\ 12 * (Z.of_nat (base.size D) + len (op_triples o)) + 24 < vs_limit S /\ ops_ok os' (op_set o D)
  end.

(** *** Any operation *)

Lemma run_op_ok o n D (db : DB) : holds (3 + 40 * length (op_triples o) + n) D db -> op_ok o D ->
  12 * (Z.of_nat (base.size D) + len (op_triples o)) + 24 < vs_limit S ->
  wpM (run_op o) db (fun r db' => r = op_result o D /\ holds n (op_set o D) db').
Proof using Hmem.
  intros H Ho Hsm. pose proof (vs_limit_le S) as Hlim. assert (HW : W32 < W64) by done.
  assert (Hdiff : forall l, (base.size (D ∖ list_to_set l) <= base.size D)%nat) by (intros l; apply subseteq_size; set_solver).
  destruct o as [ts|ts|ts|mem ts]; cbn [op_triples run_op op_ok] in *; unfold op_result; cbn [op_set].
  - pose proof (size_union_list D (skey <$> ts)) as Hsu. rewrite length_fmap in Hsu. unfold insert. apply wpM_bind.
    eapply wpM_mono; [|apply (insert_each_ok ts n D db 0); try done; [by eapply holds_weaken, H; lia|lia]].
    intros r db1 [-> H1]. apply wpM_ret. split; [|done]. rewrite u32_small; lia.
  - specialize (Hdiff (skey <$> ts)). unfold remove. apply wpM_bind.
    eapply wpM_mono; [|apply (remove_each_ok ts (3 + n) D db 0); try done; [by eapply holds_weaken, H; lia|lia|lia]].
    intros r db1 [-> H1]. apply wpM_bind. unfold wpM at 1. cbn [fst snd]. apply wpM_bind.
    eapply wpM_mono; [|exact (holds_empty_reset n _ db1 H1)]. intros u db2 H2. apply wpM_ret. split; [|done]. rewrite u32_small; lia.
  - pose proof (size_union_list D (skey <$> ts)) as Hsu.
    eapply wpM_mono; [|apply (db_batch_insert_ok enough junk Hmem n D db ts); try done; [by eapply holds_weaken, H; lia|lia]].
    intros r db1 [-> H1]. split; [lia|done].
  - specialize (Hdiff (skey <$> ts)). destruct Ho as [Hu Hl].
    eapply wpM_mono; [|apply (db_batch_remove_ok enough junk Hmem n D db ts mem); try done; [by eapply holds_weaken, H; lia|lia]].
    intros r db1 [-> H1]. split; [lia|done].
Qed.

Lemma run_ops_ok os : forall n D (db : DB), holds (ops_cost os + n) D db -> ops_ok os D ->
  wpM (run_ops os) db (fun rs db' => rs = ops_results os D /\ holds n (ops_set os D) db').
Proof using Hmem.
  induction os as [|o os IH]; intros n D db H Hok; cbn [run_ops].
  - by apply wpM_ret.
  - destruct Hok as (Ho&Hsm&Hos). apply wpM_bind.
    eapply wpM_mono; [|apply (run_op_ok o (ops_cost os + n) D db); try done]; cycle 1.
    { eapply holds_weaken, H. unfold ops_cost. cbn. lia. }
    intros r db1 [-> H1]. apply wpM_bind. eapply wpM_mono; [|exact (IH n _ db1 H1 Hos)]. intros rs db2 [-> H2]. by apply wpM_ret.
Qed.
End History.

(** * Theorems about the database on strings *)

(** ** Lemmas *)

Lemma fold_cons_rev {X} (l acc : list X) : fold_left (fun l t => t :: l) l acc = rev l ++ acc.
Proof. revert acc. induction l as [|x l IH]; intros acc; [done|]. cbn. rewrite IH, <- (assoc_L (++)). done. Qed.

Section Lemmas.
Context {S I J : Type} `{VSL : ValueStoreLaws S} `{SIL : StrIndexLaws I} `{SAL : StrArrayLaws J}.
Abbreviation DB := (Database S I J).

(** The order of the free ids does not matter. *)
Lemma names_at_perm k n (x : Names I J) E1 E2 A l : names_at k n x E1 E2 A -> l ≡ₚ freelist x ->
  names_at k n (set_ids (limitID x, l) x) E1 E2 A.
Proof using Type.
  intros [N1 N2 N3 N4 N5 N6 N7 N8 N9 N10 N11 N12] Hp. split; cbn; try done.
  - by rewrite Hp.
  - intros f Hf. apply N8. by rewrite <- Hp.
  - intros f s Hf. apply N9. by rewrite <- Hp.
  - by rewrite (Permutation_length Hp).
Qed.

Lemma reload_ok n D (db : DB) : holds n D db -> freelist (predicates db) = [] -> holds n D (reloadIDinfo db).
Proof using Type.
  intros (A&T&[H1 H2 H3 H4]&Hm) Hp. exists A, T. split; [|done]. split; [|done..]. intros k. specialize (H1 k).
  destruct k; cbn in *; eapply (names_at_perm _ _ _ _ _ _ _) in H1; try exact H1; cbn.
  - done.
  - rewrite fold_cons_rev, app_nil_r. symmetry. apply Permutation_rev.
  - by rewrite Hp.
Qed.
End Lemmas.

(** ** Examples: a database over finite maps *)

Abbreviation map_db := (Database (gmap Z (list Z)) (gmap string Z) (gmap Z string)).
Definition no_names : Names (gmap string Z) (gmap Z string) := mk_Names ∅ ∅ 0 [] 0.
Definition empty_db : map_db := mk_DB (mkKV ∅ ∅ ∅ ∅) no_names no_names no_names 0 0 ∅ ["type"%string].
Definition no_junk (i : nat) : Z := 0.
Definition to_entity (s p o : string) : TripleWithObjType := mk_Triple s p o Entity.
Definition to_literal (s p o : string) : TripleWithObjType := mk_Triple s p o Literal.

(** A database without triples, ready for [n] calls. *)
Lemma empty_holds n : Z.of_nat n < LITERAL_FIRST_ID -> holds n ∅ empty_db.
Proof.
  intros Hn. exists (fun _ => ∅), ∅. split.
  - split.
    + intros k. destruct k; (split; cbn; [done|done| |done|done|done|constructor|by intros f ?%elem_of_nil|by intros f s ?%elem_of_nil|done|done|lia]);
        intros i s; by rewrite !lookup_empty.
    + apply empty_represents.
    + done.
    + done.
  - split.
    + intros k s. rewrite lookup_empty. split; [by intros [? ?]|]. intros (t&Ht&_). set_solver.
    + intros x. split; [set_solver|]. intros (t&Ht&_). set_solver.
Qed.

Section Claims.
Context {S I J : Type} `{VSL : ValueStoreLaws S} `{SIL : StrIndexLaws I} `{SAL : StrArrayLaws J}.
Abbreviation DB := (Database S I J).
Context (junk : nat -> Z).

(** C8. Any sequence of insertions and removals of triples of strings, one by one
    or in batches, that keeps to [ops_ok] -- names that the dictionaries accept, no
    triple from an entity to itself among those removed one by one, and only known
    names in a batch of removals, since the code goes wrong on the others
    ([loop_removal_corrupts], [batch_remove_unknown_name]): all operations end without an error, each reports the number of
    triples it added or took away, and afterwards the database holds the set of
    triples that the operations describe, with ids for exactly the names of these
    triples. *)
Theorem string_history_refines (enough : Z -> bool) (Hmem : forall m, enough m = true) os n D (db : DB) :
  holds (ops_cost os + n) D db -> ops_ok (S := S) (I := I) (J := J) os D ->
  exists db', run_ops junk enough os db = Some (ops_results os D, db') /\ holds n (ops_set os D) db'.
Proof using Type.
  intros H Hok. destruct (wpM_inv _ _ _ (run_ops_ok junk enough Hmem os n D db H Hok)) as (rs&db'&Hr&->&H'). by exists db'.
Qed.

(** Whether a triple of strings is there: the answer for a database that holds
    [D] is whether [D] has the triple, also when a name is not known. *)
Theorem exist_striple_correct t n D (db : DB) : holds (4 + n) D db -> object_type t <> NoType ->
  12 * Z.of_nat (base.size D) + 24 < vs_limit S ->
  exists db', exist_striple junk t db = Some (bool_decide (skey t ∈ D), db') /\ holds n D db'.
Proof using Type.
  intros (A&T&H&Hm) Hty Hsm. pose proof (matches_size _ _ _ _ _ _ _ H D T Hm) as Hsz. rewrite <- Hsz in Hsm.
  cut (wpM (exist_striple junk t) db (fun r db' => r = bool_decide (skey t ∈ D) /\ holds n D db')).
  { intros Hw. destruct (wpM_inv _ _ _ Hw) as (r&db'&Hr&->&H'). by exists db'. }
  assert (Hfin : forall m (db' : DB), (n <= m)%nat -> db_at m db' A A A T (Z.of_nat (base.size D)) -> holds n D db').
  { intros m db' Hle H'. exists A, T. split; [by eapply db_at_weaken|done]. }
  assert (Hnone : ids_of A (skey t) = None -> false = bool_decide (skey t ∈ D)).
  { intros E. rewrite bool_decide_eq_false_2; [done|]. intros Hin. destruct (ids_of_used D A T (skey t) Hm Hin). congruence. }
  unfold exist_striple. apply wpM_bind. eapply wpM_mono; [|exact (getID_ok Entities _ (3 + n) db A A A T _ H)]. intros r1 db1 [H1 ->].
  unfold skey, ids_of in Hnone. fold (skey t) in Hnone.
  destruct (A Entities !! subject t) as [i|] eqn:Ei; simpl; [|apply wpM_ret; split; [by apply Hnone|by eapply (Hfin (3 + n)%nat); [lia|]]].
  rewrite (proj2 (da_valid _ _ _ _ _ _ _ _ _ _ H Ei)). apply wpM_bind.
  eapply wpM_mono; [|exact (getID_ok Predicates _ (2 + n) db1 A A A T _ H1)]. intros r2 db2 [H2 ->].
  destruct (A Predicates !! predicate t) as [j|] eqn:Ej; simpl; [|apply wpM_ret; split; [by apply Hnone|by eapply (Hfin (2 + n)%nat); [lia|]]].
  rewrite (proj2 (da_valid _ _ _ _ _ _ _ _ _ _ H Ej)). apply wpM_bind.
  assert (Hobj : (if isObjEntity t then on_names Entities (getIDByStr (object t))
     else if isObjLiteral t then on_names Literals (getIDByStr (object t)) else retM INVALID) = on_names (S := S) (I := I) (J := J) (okind (isObjEntity t)) (getIDByStr (object t))).
  { unfold isObjEntity, isObjLiteral. by destruct (object_type t). }
  rewrite Hobj. eapply wpM_mono; [|exact (getID_ok (okind (isObjEntity t)) _ (1 + n) db2 A A A T _ H2)]. intros r3 db3 [H3 ->].
  destruct (A (okind (isObjEntity t)) !! object t) as [l|] eqn:El; simpl; [|apply wpM_ret; split; [by apply Hnone|by eapply (Hfin (1 + n)%nat); [lia|]]].
  rewrite (proj2 (da_valid _ _ _ _ _ _ _ _ _ _ H El)).
  assert (Hids : ids_of A (skey t) = Some (i, j, l)) by (by apply ids_of_Some).
  eapply wpM_mono; [|apply (check_ok junk n db3 A A T _ D t (i, false) (j, false) (l, false) H3 Hm Hsm)]; cycle 1.
  { split_and!; [|done|done]. split; [done|]. intros k s. split; [by left|]. intros [?|Hs]; [done|].
    unfold skey in Hs. apply elem_names_of in Hs as [[-> ->]|[[-> ->]|[-> ->]]]; [by eexists..|]. by exists l. }
  intros b db4 [H4 Hb]. split; [|by eapply (Hfin n)]. destruct b; [rewrite bool_decide_eq_true_2; tauto|].
  rewrite bool_decide_eq_false_2; [done|]. intros Hin. by apply Hb in Hin.
Qed.

(** C9. Names and ids are inverse to each other: the id of a name in use is the
    id of no other name of its kind and reads back as the name. *)
Theorem names_roundtrip k s n D (db : DB) : holds (3 + n) D db -> uses k D s ->
  exists i db' db'', on_names k (getIDByStr s) db = Some (i, db') /\ on_names k (getStrByID k i) db' = Some (s, db'') /\ holds n D db'' /\
    forall s' db3, on_names k (getIDByStr s') db'' = Some (i, db3) -> s' = s.
Proof using Type.
  intros (A&T&H&Hm) Hu. apply (ma_names _ _ _ Hm) in Hu as [i Hi].
  destruct (wpM_inv _ _ _ (getID_ok k s (2 + n) db A A A T _ H)) as (r&db1&E1&H1&->). rewrite Hi in E1. cbn in E1.
  destruct (wpM_inv _ _ _ (getStr_ok k s i (1 + n) db1 A A A T _ H1 Hi)) as (r&db2&E2&H2&->).
  exists i, db1, db2. split; [exact E1|]. split; [exact E2|].
  split; [exists A, T; split; [by eapply db_at_weaken, H2; lia|done]|].
  intros s' db3 E3. destruct (wpM_inv _ _ _ (getID_ok k s' n db2 A A A T _ H2)) as (r'&db3'&E3'&_&Hr'). rewrite E3 in E3'. injection E3' as <- <-.
  destruct (da_valid _ _ _ _ _ _ _ _ _ _ H Hi) as [_ Hv%Z.eqb_neq]. destruct (A k !! s') as [i'|] eqn:Ei'; cbn in Hr'; [|done].
  subst i'. by eapply (na_inj _ _ _ _ _ _ (da_names _ _ _ _ _ _ _ H k)).
Qed.

(** C10. Closing and opening: the files of the ids that [saveIDinfo] writes and
    [readIDinfo] reads give a database that holds the same triples, if there is no
    free predicate id. *)
Theorem ids_survive_restart n D (db : DB) : holds n D db -> freelist (predicates db) = [] -> holds n D (reloadIDinfo db).
Proof using Type. apply reload_ok. Qed.
End Claims.

(** *** Witnesses *)

Open Scope string_scope.

(** Insertions, a batch, removals and a removal that empties the database. *)
Definition string_ops : list db_op := [
  Insert [to_entity "a" "p" "b"; to_literal "a" "q" "b"; to_entity "a" "p" "b"];
  BatchInsert [to_entity "b" "p" "b"; to_entity "c" "p" "a"; to_entity "a" "p" "b"];
  BatchRemove [(0, 0, 0); (0, 0, 0)] [to_entity "b" "p" "b"; to_entity "c" "p" "a"];
  Remove [to_entity "a" "p" "b"; to_entity "c" "p" "a"; to_literal "a" "q" "b"];
  Insert [to_literal "z" "q" "z"]].

Lemma names_used_in D t : skey t ∈ D -> subject t <> "" -> predicate t <> "" -> object t <> "" -> names_used D t.
Proof.
  intros Hin H1 H2 H3 k s Hs. split; [|by exists (skey t)]. unfold skey in Hs. by apply elem_names_of in Hs as [[_ ->]|[[_ ->]|[_ ->]]].
Qed.

Ltac each tac := lazymatch goal with
  | |- Forall _ [] => apply Forall_nil_2
  | |- Forall _ (_ :: _) => apply Forall_cons_2; [tac|each tac]
  end.
Ltac concrete_names := cbn [op_ok string_ops]; each ltac:(repeat split; done).

Lemma string_ops_ok : ops_ok (S := gmap Z (list Z)) (I := gmap string Z) (J := gmap Z string) string_ops ∅.
Proof.
  split; [concrete_names|]. split; [by vm_compute|].
  split; [concrete_names|]. split; [by vm_compute|].
  split; [split; [each ltac:(apply names_used_in; [apply (bool_decide_unpack _); by vm_compute|done..])|done]|].
  split; [by vm_compute|].
  split; [cbn [op_ok]; each ltac:(intros _; done)|]. split; [by vm_compute|].
  split; [concrete_names|]. split; [by vm_compute|]. done.
Qed.

Lemma string_history_refines_witness : ops_ok (S := gmap Z (list Z)) (I := gmap string Z) (J := gmap Z string) string_ops ∅ /\
  exists db', run_ops no_junk (fun _ => true) string_ops empty_db = Some ([2; 2; 2; 2; 1], db') /\
    holds 10 {[("z", "q", false, "z")]} db'.
Proof.
  split; [exact string_ops_ok|].
  destruct (string_history_refines no_junk (fun _ => true) (fun _ => eq_refl) string_ops 10 ∅ empty_db) as (db'&Hr&Hh).
  - apply empty_holds. by vm_compute.
  - exact string_ops_ok.
  - exists db'. rewrite Hr. split; [|replace {[("z", "q", false, "z")]} with (ops_set string_ops ∅) by (apply (bool_decide_unpack _); by vm_compute); exact Hh].
    f_equal.
Defined.

(** A database with one triple. *)
Definition one_db : map_db := default empty_db (snd <$> insertTriple no_junk (to_entity "a" "p" "b") empty_db).
Definition one_set : gset striple := {[("a", "p", true, "b")]}.

Lemma one_holds : holds 10 one_set one_db.
Proof.
  assert (H0 : holds (20 + 10) ∅ empty_db) by (apply empty_holds; by vm_compute).
  assert (Hf : names_fit (I := gmap string Z) (J := gmap Z string) (to_entity "a" "p" "b")) by (repeat split; done).
  destruct (wpM_inv _ _ _ (insertTriple_ok no_junk 10 ∅ empty_db _ H0 Hf eq_refl eq_refl)) as (r&db'&Hr&_&H).
  unfold one_db. rewrite Hr. cbn. unfold one_set. by replace ({[("a", "p", true, "b")]}) with ({[skey (to_entity "a" "p" "b")]} ∪ ∅ : gset striple) by (apply (right_id_L ∅ (∪))).
Qed.

Lemma exist_striple_correct_witness : object_type (to_entity "a" "p" "b") <> NoType /\
  exists db', exist_striple no_junk (to_entity "a" "p" "b") one_db = Some (true, db') /\ holds 6 one_set db'.
Proof.
  split; [done|]. apply (exist_striple_correct no_junk (to_entity "a" "p" "b") 6 one_set one_db one_holds); [done|by vm_compute].
Defined.

Lemma names_roundtrip_witness : uses Entities one_set "b" /\
  exists i db' db'', on_names Entities (getIDByStr "b") one_db = Some (i, db') /\ on_names Entities (getStrByID Entities i) db' = Some ("b", db'').
Proof.
  assert (Hu : uses Entities one_set "b") by (exists ("a", "p", true, "b"); split; [set_solver|right; left]). split; [exact Hu|].
  destruct (names_roundtrip Entities "b" 7 one_set one_db one_holds Hu) as (i&db'&db''&H1&H2&_).
  exists i, db', db''. exact (conj H1 H2).
Defined.

Lemma ids_survive_restart_witness : freelist (predicates one_db) = [] /\ holds 10 one_set (reloadIDinfo one_db).
Proof.
  assert (Hp : freelist (predicates one_db) = []) by (by vm_compute). split; [exact Hp|].
  exact (ids_survive_restart 10 one_set one_db one_holds Hp).
Defined.

(** ** Where the code does not keep the promise *)

(** The triples are inserted one by one, then those of the second list removed, then the third inserted. *)
Definition session (ts us vs : list TripleWithObjType) : M map_db (Z * Z * Z) :=
  let! a := insert no_junk ts in
  let! b := remove no_junk us in
  let! c := insert no_junk vs in retM (a, b, c).

Definition loop_session : option (Z * Z * Z * map_db) :=
  session [to_entity "a" "p" "a"; to_entity "d" "p" "d"] [to_entity "a" "p" "a"] [to_entity "b" "p" "c"; to_entity "b" "p" "c"] empty_db.

(** What the database of a session answers. *)
Definition says_exists (t : TripleWithObjType) (r : option (Z * Z * Z * map_db)) : option bool :=
  x ← r; fst <$> exist_striple no_junk t x.2.

(** Removing a triple from an entity to itself gives the id of the entity back
    twice.  The next two new names get the same id: the insertion of [b p c] is
    refused the first time and accepted the second time, and afterwards the
    database says that it has [c p b], which was never inserted. *)
Example loop_removal_corrupts :
  fst <$> loop_session = Some (2, 1, 1) /\ says_exists (to_entity "c" "p" "b") loop_session = Some true.
Proof. split; vm_compute; reflexivity. Qed.

(** The ids are saved and read between the removals and the last insertions. *)
Definition restart_session : option (Z * Z * Z * map_db) :=
  '(r, db) ← session [to_entity "a" "p" "b"; to_entity "a" "q" "b"; to_literal "a" "q" "l0"; to_literal "a" "q" "l1"; to_literal "a" "q" "l2"]
    [to_literal "a" "q" "l1"; to_entity "a" "p" "b"] [] empty_db;
  '(c, db) ← insert no_junk [to_entity "a" "r" "b"; to_entity "a" "s" "b"] (reloadIDinfo db); Some (r.1.1, r.1.2, c, db).

(** Reading the files of the ids puts the free literal ids behind a free
    predicate id.  After a restart a new predicate gets the id of another one, its
    first insertion is refused, and the database says that it has a triple of the
    new predicate that was never inserted. *)
Example restart_shares_predicate_ids :
  fst <$> restart_session = Some (5, 2, 1) /\ says_exists (to_entity "a" "s" "b") restart_session = Some true.
Proof. split; vm_compute; reflexivity. Qed.

(** A triple that says the type of an entity is counted in the statistics also
    when it was there already. *)
Theorem duplicate_type_counted_twice :
  (fun r => (r.1, triples_num r.2, umap r.2 !! "b")) <$> insert no_junk [to_entity "a" "type" "b"; to_entity "a" "type" "b"] empty_db = Some (1, 1, Some 2).
Proof. vm_compute. reflexivity. Qed.
