(* ===== verification/ISArray.v ===== *)
(** * Arrays of strings

    [ISArray] (KVstore/ISArray/ISArray.cpp) with [ISEntry] and [ISBlockManager]:
    the strings of entities, literals and predicates by id.  The class is a copy
    of [IVArray] from before the long lists, the pinned entries and the versions
    were added, so its state is that of [IVArray] with a flag [CachePinFlag] that
    nothing sets, over blocks of the format [is_format].  [SwapOut], [save] and
    the constructors have the same text in both classes. *)

From stdpp Require Import strings.
From S2P Require Import Prelude ValueStore Version BlockManager IVArray.

#[local] Existing Instance is_format.

Definition ISArray : Type := IVArray.

Definition is_SwapOut : M ISArray bool := SwapOut.
Definition is_save : array_files -> M ISArray array_files := save.
Definition ISArray_build : Z -> ISArray := IVArray_build.
Definition ISArray_open : array_files -> gmap Z block -> option ISArray := IVArray_open.

(** [ISBlockManager], with blocks of 128 bytes. *)
Definition is_AllocBlock : Z -> IVBlockManager -> IVBlockManager := AllocBlock.
Definition is_getWhereToWrite : nat -> Z -> IVBlockManager -> option IVBlockManager := getWhereToWrite.
Definition is_WriteValue : list Z -> M IVBlockManager Z := WriteValue.
Definition is_ReadValue : Z -> IVBlockManager -> option (option (list Z)) := ReadValue.
Definition is_FreeBlocks : Z -> IVBlockManager -> option IVBlockManager := FreeBlocks.
Definition is_SaveFreeBlockList : IVBlockManager -> gmap Z Z -> gmap Z Z := SaveFreeBlockList.
Definition ISBlockManager_open : gmap Z Z -> gmap Z block -> option IVBlockManager := IVBlockManager_open.

Definition is_UpdateTime (_key : Z) : M ISArray bool :=
  let! tail := gets cache_tail_id in
  if _key =? u32 tail then retM true
  else
    let! e := ent _key in
    let prev := prevID e in
    let next := nextID e in
    let! _ := (if prev =? -1 then puts (set_head next) else upd prev (setNext next)) in
    let! _ := upd next (setPrev prev) in
    let! _ := upd _key (setPrev tail) in
    let! _ := upd _key (setNext (-1)) in
    let! _ := upd tail (setNext _key) in
    let! _ := puts (set_tail _key) in retM true.

Definition is_RemoveFromLRUQueue (_key : Z) : M ISArray unit :=
  let! e := ent _key in
  if negb (cacheFlag e) then retM tt
  else
    let prev := prevID e in
    let next := nextID e in
    let! _ := (if prev =? -1 then puts (set_head next) else upd prev (setNext next)) in
    let! _ := (if negb (next =? -1) then upd next (setPrev prev) else puts (set_tail prev)) in
    let! _ := upd _key (setCacheFlag false) in
    let! _ := upd _key (setPrev (-1)) in
    upd _key (setNext (-1)).

Section Cache.
Context (MAX_CACHE_SIZE : Z).

(** [CurCacheSize + _len] is a sum of two [unsigned]. *)
Fixpoint is_make_room (fuel : nat) (_len : Z) : M ISArray unit :=
  match fuel with
  | O => fun _ => None
  | S f =>
      let! n := gets CurCacheSize in
      if MAX_CACHE_SIZE <? n ⊞ _len then
        let! ok := is_SwapOut in if (ok : bool) then is_make_room f _len else fun _ => None
      else retM tt
  end.

Definition is_AddInCache (_key : Z) (_str : list Z) : M ISArray bool :=
  if MAX_CACHE_SIZE <? len _str then retM false
  else
    let! n := gets (fun a => size (array_ a)) in
    let! _ := is_make_room (S n) (len _str) in
    let! _ := puts (fun a => set_cache_size (CurCacheSize a ⊞ len _str) a) in
    let! _ := upd _key (setBstr _str) in
    let! _ := upd _key (setCacheFlag true) in
    let! tail := gets cache_tail_id in
    let! _ := (if tail =? -1 then puts (set_head _key) else upd tail (setNext _key)) in
    let! _ := upd _key (setPrev tail) in
    let! _ := upd _key (setNext (-1)) in
    let! _ := puts (set_tail _key) in retM true.

Definition is_search (_key : Z) : M ISArray (option (list Z)) :=
  let! n := gets CurEntryNum in
  if n <=? _key then retM None
  else
    let! e := ent _key in
    if negb (usedFlag e) then retM None
    else if cacheFlag e then
      let! _ := is_UpdateTime _key in
      let! e := ent _key in retM (value e)
    else
      let! r := bm_read (store e) in
      match r with
      | None => retM None
      | Some _str => let! _ := is_AddInCache _key _str in retM (Some _str)
      end.

Definition is_insert (_key : Z) (_str : list Z) : M ISArray bool :=
  let! n := gets CurEntryNum in
  let! used := (if _key <? n then let! e := ent _key in retM (usedFlag e) else retM false) in
  if used then retM false
  else if MAX_KEY_NUM <=? _key then retM false
  else
    let! _ := (if n <=? _key then
                 let! _ := puts (fun a => set_entry_num (CurEntryNum a) true a) in
                 let! _ := puts (allocBlock _key) in
                 puts (fun a => set_entry_num (getEntryNum a) (CurEntryNumChange a) a)
               else retM tt) in
    let! _ := is_AddInCache _key _str in
    let! _ := upd _key (setUsedFlag true) in
    let! _ := upd _key (setDirtyFlag true) in retM true.

Definition is_remove (_key : Z) : M ISArray bool :=
  let! n := gets CurEntryNum in
  let! used := (if n <=? _key then retM false else let! e := ent _key in retM (usedFlag e)) in
  if negb used then retM false
  else
    let! e := ent _key in
    let! _ := bm_free (store e) in
    let! _ := upd _key (setUsedFlag false) in
    let! _ := upd _key (setDirtyFlag true) in
    let! _ := upd _key (setStore 0) in
    let! e := ent _key in
    let! _ :=
      (if cacheFlag e then
         let! _ := is_RemoveFromLRUQueue _key in
         let! e := ent _key in
         let! _ := puts (fun a => set_cache_size (CurCacheSize a ⊟ bstr_len e) a) in
         upd _key (setCacheFlag false)
       else retM tt) in
    let! _ := upd _key release in retM true.

(** The blocks of the old string are free afterwards, but the entry still refers
    to them. *)
Definition is_modify (_key : Z) (_str : list Z) : M ISArray bool :=
  let! n := gets CurEntryNum in
  let! used := (if n <=? _key then retM false else let! e := ent _key in retM (usedFlag e)) in
  if negb used then retM false
  else
    let! _ := upd _key (setDirtyFlag true) in
    let! e := ent _key in
    let! _ :=
      (if cacheFlag e then
         let! _ := is_RemoveFromLRUQueue _key in
         let! e := ent _key in
         let! _ := puts (fun a => set_cache_size (CurCacheSize a ⊟ bstr_len e) a) in
         let! _ := upd _key release in
         upd _key (setCacheFlag false)
       else retM tt) in
    let! e := ent _key in
    let! _ := bm_free (store e) in
    let! _ := is_AddInCache _key _str in retM true.
End Cache.

(** ** Strings and bytes *)

Definition str_bytes (s : string) : list Z := (fun c => Z.of_N (Ascii.N_of_ascii c)) <$> String.list_ascii_of_string s.
Definition bytes_str (b : list Z) : string := String.string_of_list_ascii ((fun z => Ascii.ascii_of_N (Z.to_N z)) <$> b).

Lemma bytes_str_bytes s : bytes_str (str_bytes s) = s.
Proof.
  unfold bytes_str, str_bytes. rewrite <- list_fmap_compose.
  transitivity (String.string_of_list_ascii (id <$> String.list_ascii_of_string s)).
  - f_equal. apply list_fmap_ext. intros i c _. cbn. by rewrite N2Z.id, Ascii.ascii_N_embedding.
  - by rewrite list_fmap_id, String.string_of_list_ascii_of_string.
Qed.
