(* ===== verification/ISArrayTheorems.v ===== *)
(** * Correctness of the arrays of strings

    On strings of at most [LENGTH_BORDER] bytes the operations of an [ISArray] do
    what those of an [IVArray] do, state by state, so that the map from keys to
    byte strings that an [IVArray] stands for is that of the [ISArray] too.

    At the end, an [ISArray] as an instance of [StrArray]. *)

From stdpp Require Import strings.
From S2P Require Import Prelude ValueStore TripleSet Version BlockManager BlockManagerSpec IVArray IVArraySpec IVArrayCache IVArrayOps IVArrayStore Names ISArray.

#[local] Existing Instance is_format.

(** The bound of the cache and the size of a string do not exceed a word
    together, or the bound is out of reach. *)
Definition bound_ok (MAXC : Z) : Prop := LENGTH_BORDER <= MAXC /\ (MAXC + LENGTH_BORDER < W32 \/ W32 + LENGTH_BORDER <= MAXC).

Lemma bind_ent {X} a k (f : centry -> M IVArray X) : in_range a k -> bindM (ent k) f a = f (E a k) a.
Proof. intros Hr. unfold bindM. by rewrite ent_run. Qed.

Lemma bind_upd {X} a k g (f : unit -> M IVArray X) : in_range a k -> bindM (upd k g) f a = f tt (updE k g a).
Proof. intros Hr. unfold bindM at 1, upd. rewrite bind_ent by done. done. Qed.

Lemma bind_run {X Y} (m : M IVArray X) (f : X -> M IVArray Y) a x a' : m a = Some (x, a') -> bindM m f a = f x a'.
Proof. unfold bindM. by intros ->. Qed.

Lemma bind_eq {X Y} (m m' : M IVArray X) (f f' : X -> M IVArray Y) a (Q : X -> IVArray -> Prop) :
  m a = m' a -> wpM m' a Q -> (forall x a', Q x a' -> f x a' = f' x a') -> bindM m f a = bindM m' f' a.
Proof. intros Hm Hw Hf. unfold bindM. rewrite Hm. destruct (wpM_inv _ _ _ Hw) as (x&a'&Hr&HQ). rewrite Hr. cbn. by apply Hf. Qed.

Section Eq.
Context (MAXC : Z) (saved : gmap Z Z) (HMAXC : bound_ok MAXC).

Lemma UpdateTime_eq a k : in_range a k -> CachePinFlag (E a k) = false -> is_UpdateTime k a = UpdateTime k a.
Proof using Type.
  clear HMAXC. intros Hr Hp. unfold UpdateTime. rewrite bind_ent by done. rewrite Hp. unfold is_UpdateTime.
  unfold bindM at 1. cbn. unfold bindM at 9. cbn. destruct (k =? u32 (cache_tail_id a)); [done|]. by rewrite bind_ent.
Qed.

Lemma RemoveFromLRUQueue_eq a k : in_range a k -> CachePinFlag (E a k) = false -> is_RemoveFromLRUQueue k a = RemoveFromLRUQueue k a.
Proof using Type.
  clear HMAXC. intros Hr Hp. unfold is_RemoveFromLRUQueue, RemoveFromLRUQueue. rewrite !bind_ent by done. by rewrite Hp, orb_false_r.
Qed.

(** *** The loop that makes room *)

Lemma full_eq a X q disk m n : ainv MAXC saved a X q disk m -> 0 <= n <= LENGTH_BORDER ->
  (MAXC <? CurCacheSize a ⊞ n) = (MAXC <? CurCacheSize a + n).
Proof using HMAXC.
  intros Hi Hn. destruct (ai_size _ _ _ _ _ _ _ Hi) as [Hs Hb]. pose proof (bytes_nonneg (E a) q).
  assert (0 <= CurCacheSize a < W32) by (rewrite Hs; apply u32_word).
  destruct HMAXC as [H1 [H2|H2]].
  - assert (HM : MAXC < W32) by (unfold LENGTH_BORDER in *; lia). specialize (Hb HM). rewrite u32_small in Hs by lia.
    rewrite (u32_small (CurCacheSize a + n)) by lia. done.
  - pose proof (u32_word (CurCacheSize a + n)) as Hu. unfold word in Hu.
    assert ((MAXC <? CurCacheSize a ⊞ n) = false) as -> by (apply Z.ltb_ge; unfold LENGTH_BORDER in *; lia).
    symmetry. apply Z.ltb_ge. lia.
Qed.

Lemma make_room_eq X m n : 0 <= n <= LENGTH_BORDER -> forall q fuel a disk, (length q < fuel)%nat ->
  ainv MAXC saved a X q disk m -> (forall x, x ∈ q -> x ∉ X) -> demand a q < MAX_BLOCKS ->
  is_make_room MAXC fuel n a = make_room MAXC fuel n a.
Proof using HMAXC.
  intros Hn q. induction q as [|k q IH]; intros fuel a disk Hf Hi Hx Hroom; (destruct fuel as [|fuel]; [cbn in Hf; lia|]); cbn [is_make_room make_room];
    unfold bindM at 1 3; cbn [gets mbind option_bind]; rewrite (full_eq a X _ disk m n Hi Hn);
    destruct (Z.ltb_spec MAXC (CurCacheSize a + n)); try done.
  - exfalso. destruct (ai_size _ _ _ _ _ _ _ Hi) as [Hs _]. cbn in Hs. change (CurCacheSize a = 0) in Hs. destruct HMAXC. lia.
  - unfold demand in Hroom. cbn [length] in *.
    eapply bind_eq; [done|eapply (SwapOut_spec MAXC saved (proj1 HMAXC) a X k q disk m Hi); [apply Hx; by left|unfold SWAP_BLOCKS in *; lia]|].
    intros r a1 (->&disk1&Hi1&Ho1&Hc1). apply (IH fuel a1 disk1); [lia|exact Hi1|set_solver|unfold demand, SWAP_BLOCKS in *; lia].
Qed.
(** *** Linking a string into the cache *)

Lemma updE_comm a k k' f g : k <> k' -> updE k f (updE k' g a) = updE k' g (updE k f a).
Proof using Type.
  clear HMAXC. intros Hne. unfold updE at 1 3. rewrite !E_updE, !decide_False by congruence. unfold updE, set_array. cbn.
  by rewrite insert_insert_ne by congruence.
Qed.

Lemma bind_puts {X} a g (f : unit -> M IVArray X) : bindM (puts g) f a = f tt (g a).
Proof using Type. done. Qed.
Lemma bind_gets {X Y} a (g : IVArray -> Y) (f : Y -> M IVArray X) : bindM (gets g) f a = f (g a) a.
Proof using Type. done. Qed.

Lemma updE_set_tail a k f i : updE k f (set_tail i a) = set_tail i (updE k f a).
Proof using Type. done. Qed.
Lemma updE_set_head a k f i : updE k f (set_head i a) = set_head i (updE k f a).
Proof using Type. done. Qed.
Lemma updE_set_size a k f n : updE k f (set_cache_size n a) = set_cache_size n (updE k f a).
Proof using Type. done. Qed.

Ltac push_updE := repeat first [rewrite updE_set_tail|rewrite updE_set_size|rewrite updE_set_head|rewrite updE_updE].

Lemma link_eq a k v tail : in_range a k -> tail = cache_tail_id a -> (tail <> -1 -> in_range a tail /\ tail <> k) ->
  (let! _ := puts (fun a => set_cache_size (CurCacheSize a ⊞ len v) a) in
   let! _ := upd k (setBstr v) in
   let! _ := upd k (setCacheFlag true) in
   let! tail := gets cache_tail_id in
   let! _ := (if tail =? -1 then puts (set_head k) else upd tail (setNext k)) in
   let! _ := upd k (setPrev tail) in
   let! _ := upd k (setNext (-1)) in
   let! _ := puts (set_tail k) in retM true) a =
  (let! tail := gets cache_tail_id in
   let! _ := (if tail =? -1 then puts (set_head k) else upd tail (setNext k)) in
   let! _ := upd k (setPrev tail) in
   let! _ := upd k (setNext (-1)) in
   let! _ := puts (set_tail k) in
   let! _ := puts (fun a => set_cache_size (CurCacheSize a ⊞ len v) a) in
   let! _ := upd k (setBstr v) in
   let! _ := upd k (setCacheFlag true) in retM true) a.
Proof using Type.
  clear HMAXC. intros Hr Ht Hok. rewrite bind_puts. do 2 (rewrite bind_upd by done). rewrite !bind_gets. cbn [cache_tail_id updE set_cache_size set_array].
  rewrite <- Ht. destruct (Z.eqb_spec tail (-1)) as [->|Hne].
  - rewrite !bind_puts. repeat first [rewrite bind_puts|rewrite bind_upd by done]. unfold retM. do 2 f_equal.
    change (CurCacheSize (set_tail k ?b)) with (CurCacheSize b). change (CurCacheSize (updE ?x ?f ?b)) with (CurCacheSize b).
    change (CurCacheSize (set_head k a)) with (CurCacheSize a). push_updE. reflexivity.
  - destruct (Hok Hne) as [Hrt Htk]. repeat first [rewrite bind_puts|rewrite bind_upd by done]. unfold retM. do 2 f_equal.
    change (CurCacheSize (set_tail k ?b)) with (CurCacheSize b). change (CurCacheSize (updE ?x ?f ?b)) with (CurCacheSize b).
    push_updE. rewrite (updE_comm _ tail k) by done. push_updE. reflexivity.
Qed.
Lemma AddInCache_eq a q disk m k v : ainv MAXC saved a {[k]} q disk m -> k ∉ q -> 0 <= k < CurEntryNum a ->
  len v <= LENGTH_BORDER -> demand a q < MAX_BLOCKS -> is_AddInCache MAXC k v a = AddInCache MAXC k v a.
Proof using HMAXC.
  intros Hi Hk Hr Hl Hd. unfold is_AddInCache, AddInCache. destruct (MAXC <? len v); [done|]. rewrite !bind_gets.
  pose proof (queue_size _ _ _ _ _ _ _ Hi) as Hqs. assert (Hn : 0 <= len v <= LENGTH_BORDER) by lia. destruct HMAXC as [HM HM'].
  eapply bind_eq; [by eapply (make_room_eq {[k]} m); [done| |exact Hi|set_solver|done]; lia
                  |eapply (make_room_spec MAXC saved HM {[k]} m (len v)); [lia| |exact Hi|set_solver|done]; lia|].
  intros [] a1 (q1&disk1&Hsub&Hi1&[O1 O2 O3 O4]&_). destruct (counts_eq _ _ O3) as [O3' _].
  assert (Hk1 : k ∉ q1) by auto. apply (link_eq a1 k v (cache_tail_id a1)); [eapply ainv_in_range; [done|lia]|done|].
  pose proof (ai_queue _ _ _ _ _ _ _ Hi1) as Hq1. rewrite (qo_tail _ _ _ _ Hq1). intros Hne.
  assert (Hne' : q1 <> []) by (intros ->; done). pose proof (final_elem _ Hne') as Hf.
  split; [by eapply ainv_queue_range|]. intros E. by rewrite E in Hf.
Qed.

(** All strings are short. *)
Definition short (m : gmap Z (list Z)) : Prop := map_Forall (fun _ v => len v <= LENGTH_BORDER) m.

Lemma not_long n : 0 < n <= LENGTH_BORDER -> isLongList n = false.
Proof using Type.
  clear HMAXC. intros Hn. rewrite isLongList_spec; [apply Z.ltb_ge; lia|]. pose proof LEN_LIMIT_ge. unfold LENGTH_BORDER, W32 in *. lia.
Qed.

Lemma search_eq n a m k : stands MAXC saved n a m -> short m -> n < MAX_BLOCKS -> 0 <= k ->
  is_search MAXC k a = search MAXC k a.
Proof using HMAXC.
  intros (q&disk&Hi&Hd) Hm Hn Hk. unfold is_search, search. rewrite !bind_gets. destruct (Z.leb_spec (CurEntryNum a) k); [done|].
  assert (Hr : in_range a k) by (eapply ainv_in_range; [done|lia]). rewrite !bind_ent by done.
  destruct (usedFlag (E a k)) eqn:Hu; cbn [negb]; [|done]. destruct (cacheFlag (E a k)) eqn:Hc.
  - unfold bindM at 1 3. rewrite UpdateTime_eq; [done|done|apply (ai_pin _ _ _ _ _ _ _ Hi)].
  - destruct (ainv_some_only _ _ _ _ _ _ _ Hi Hu) as [v Hv].
    destruct (ai_some _ _ _ _ _ _ _ Hi k v) as [_ (_&Hl&He)]; [set_solver|done|]. rewrite Hc in He. destruct He as [He _].
    assert (Hkq : k ∉ q) by (rewrite <- (ai_cached _ _ _ _ _ _ _ Hi); congruence). specialize (Hm k v Hv). cbn in Hm.
    unfold bindM at 1 3, bm_read. rewrite (disk_read _ _ _ k v (ai_disk _ _ _ _ _ _ _ Hi) He). cbn.
    rewrite not_long by lia. cbn [negb]. unfold bindM. erewrite AddInCache_eq; [done|apply ainv_open1; exact Hi|done|lia|done|lia].
Qed.

Lemma insert_eq n a m k v : stands MAXC saved n a m -> n < MAX_BLOCKS -> 0 <= k < KEY_LIMIT -> 0 < len v <= LENGTH_BORDER ->
  m !! k = None -> is_insert MAXC k v a = insert MAXC k v a.
Proof using HMAXC.
  intros (q&disk&Hi&Hd) Hn Hk Hv Hm. unfold is_insert, insert. rewrite !bind_gets.
  assert (Hun : usedFlag (E a k) = false) by (apply (ai_none _ _ _ _ _ _ _ Hi); [set_solver|done]).
  assert (Hkq : k ∉ q) by (by eapply (ainv_fresh MAXC saved a ∅)).
  eapply (bind_eq _ _ _ _ _ (fun r a' => r = false /\ a' = a)); [done| |].
  { destruct (Z.ltb_spec k (CurEntryNum a)); [|by apply wpM_ret].
    apply wpM_bind, wpM_ent; [eapply ainv_in_range; [done|lia]|]. by apply wpM_ret. }
  intros r a0 [-> ->]. destruct (Z.leb_spec MAX_KEY_NUM k); [done|].
  eapply (bind_eq _ _ _ _ _ (fun _ a1 => ainv MAXC saved a1 ∅ q disk m /\ k < CurEntryNum a1 /\ demand a1 q <= n)).
  { by destruct (CurEntryNum a <=? k). }
  { destruct (Z.leb_spec (CurEntryNum a) k); [|by apply wpM_ret].
    apply wpM_bind, wpM_puts, wpM_puts. destruct (ainv_grow MAXC saved a q disk m k Hi Hk) as [? ?]; done. }
  intros [] a1 (Hi1&Hk1&Hd1). rewrite not_long by done. unfold bindM. erewrite AddInCache_eq; [|apply ainv_open1; exact Hi1|done|lia|lia|lia].
  by destruct (AddInCache MAXC k v a1) as [[? ?]|].
Qed.

Lemma remove_eq n a m k v : stands MAXC saved n a m -> m !! k = Some v -> is_remove k a = remove k a.
Proof using Type.
  clear HMAXC. intros (q&disk&Hi&Hd) Hv. destruct (ainv_value _ _ _ _ _ _ _ _ Hi Hv) as (Hr&Hk&Hu). apply ainv_open1 with (k := k) in Hi.
  unfold is_remove, remove. rewrite bind_gets. destruct (Z.leb_spec (CurEntryNum a) k); [lia|].
  unfold bindM at 1. rewrite bind_ent by done. rewrite Hu. cbn. rewrite !bind_ent by done. rewrite Hu. cbn [negb].
  eapply bind_eq; [done|eapply (free_open MAXC saved a q disk m k (fun _ a' => exists bm, a' = set_BM bm a /\
    ainv MAXC saved (no_store k (set_BM bm a)) {[k]} q (delete k disk) m)); [exact Hi|by eexists]|].
  intros [] a1 (bm&->&Hi1). rewrite !(bind_upd _ k), !(bind_ent _ k) by done. set (a2 := updE k (setStore 0) _).
  assert (Hi2 : ainv MAXC saved a2 {[k]} q (delete k disk) m).
  { replace a2 with (updE k (setDirtyFlag true) (updE k (setUsedFlag false) (no_store k (set_BM bm a))));
      [do 2 (apply ainv_flags; [|set_solver|done]); done|]. unfold a2, no_store. rewrite !updE_updE. by apply updE_ext. }
  pose proof (ai_pin _ _ _ _ _ _ _ Hi2 k) as Hp2. assert (Hr2 : in_range a2 k) by done. clearbody a2.
  destruct (cacheFlag (E a2 k)) eqn:Hc; cycle 1.
  { unfold bindM at 1 3. cbn [retM mbind option_bind]. rewrite bind_ent by done. by rewrite Hp2. }
  apply (ai_cached _ _ _ _ _ _ _ Hi2) in Hc. apply list_elem_of_split in Hc as (pre&post&->).
  destruct (wpM_inv _ _ _ (RemoveFromLRUQueue_spec _ _ _ _ _ _ _ _ _ Hi2)) as ([]&a3&Hrun&Hq3&Hre3&HE3&Cs&Cn&Cb&Cm).
  assert (Hr3 : in_range a3 k) by (unfold in_range; by rewrite Cb). assert (Hp3 : CachePinFlag (E a3 k) = false) by (by rewrite HE3).
  set (a4 := updE k (setCacheFlag false) (set_cache_size (CurCacheSize a3 ⊟ bstr_len (E a3 k)) a3)).
  assert (Hlast : forall b, in_range b k -> upd k (setCacheFlag false) b = Some (tt, updE k (setCacheFlag false) b)).
  { intros b Hb. unfold upd. by rewrite bind_ent. }
  rewrite (bind_run _ _ a2 tt a4); cycle 1.
  { rewrite (bind_run _ _ a2 tt a3) by (by rewrite RemoveFromLRUQueue_eq). rewrite bind_ent, bind_puts by done. by apply Hlast. }
  rewrite (bind_run _ _ a2 tt a4); cycle 1.
  { rewrite (bind_run _ _ a2 tt a3) by done. rewrite bind_ent by done. rewrite Hp3. unfold bindM at 1. cbn [retM mbind option_bind].
    rewrite bind_puts. by apply Hlast. }
  rewrite (bind_ent a4 k) by done.
  assert (CachePinFlag (E a4 k) = false) as -> by (unfold a4; by rewrite E_updE, decide_True by done). done.
Qed.
End Eq.

(** * Arrays of strings as dictionaries

    An [ISArray] satisfies the interface [StrArray] that the names of the database
    are proved against. *)

#[local] Existing Instance is_format.

Lemma length_str_bytes s : len (str_bytes s) = Z.of_nat (String.length s).
Proof. unfold str_bytes. rewrite length_fmap. f_equal. induction s as [|c s IH]; [done|]. cbn. by rewrite IH. Qed.

Lemma wpM_eq {X Y} (m m' : M X Y) a Q : m a = m' a -> wpM m' a Q -> wpM m a Q.
Proof. unfold wpM. by intros ->. Qed.

Section Store.
Context (MAXC LIM : Z).

#[local] Instance is_store : StrArray ISArray := {
  sa_search k := let! r := is_search MAXC k in retM (bytes_str <$> r);
  sa_insert k s := is_insert MAXC k (str_bytes s);
  sa_remove k := is_remove k }.

Definition str_view (a : ISArray) : gmap Z string := bytes_str <$> byte_view a.

Definition str_ok (s : string) : Prop := 0 < Z.of_nat (String.length s) <= LIM.

(** [n] more operations with strings of at most [LIM] bytes find free blocks. *)
Definition str_room (n : nat) (a : ISArray) : Prop :=
  exists saved N m, stands MAXC saved N a (str_bytes <$> m) /\ map_Forall (fun _ s => str_ok s) m /\
    N + Z.of_nat n * op_cost LIM < MAX_BLOCKS.

Context (HMAXC : bound_ok MAXC) (HLIM : 0 <= LIM <= LENGTH_BORDER).

Lemma view_stands saved N a m : stands MAXC saved N a (str_bytes <$> m) -> str_view a = m.
Proof using Type.
  intros Hs. unfold str_view. rewrite (byte_view_spec _ _ _ _ _ Hs), <- map_fmap_compose.
  rewrite <- (map_fmap_id m) at 2. apply map_fmap_ext. intros k s _. apply bytes_str_bytes.
Qed.

Lemma short_strings m : map_Forall (fun _ s => str_ok s) m -> short (str_bytes <$> m).
Proof using HLIM.
  intros Hm k v. rewrite lookup_fmap_Some. intros (s&<-&Hs). cbn. rewrite length_str_bytes. destruct (Hm k s Hs). lia.
Qed.

Lemma cost_swap : 0 <= SWAP_BLOCKS <= op_cost LIM.
Proof using Type. unfold op_cost. pose proof (value_cost_pos LIM). unfold SWAP_BLOCKS in *. lia. Qed.

Lemma str_room_split N n : N + Z.of_nat (S n) * op_cost LIM < MAX_BLOCKS ->
  N + op_cost LIM + Z.of_nat n * op_cost LIM < MAX_BLOCKS /\ N < MAX_BLOCKS /\ 0 <= Z.of_nat n * op_cost LIM.
Proof using Type.
  pose proof cost_swap. rewrite Nat2Z.inj_succ, Z.mul_succ_l. intros Hn.
  assert (0 <= Z.of_nat n * op_cost LIM) by (apply Z.mul_nonneg_nonneg; lia). lia.
Qed.

Lemma str_room_intro n saved N a m : stands MAXC saved N a (str_bytes <$> m) -> map_Forall (fun _ s => str_ok s) m ->
  N + Z.of_nat n * op_cost LIM < MAX_BLOCKS -> str_view a = m /\ str_room n a.
Proof using Type. intros Hs Hm Hn. split; [by eapply view_stands|]. by exists saved, N, m. Qed.

Lemma str_search_ok a n k : str_room (S n) a -> word k ->
  wpM (sa_search k) a (fun r a' => r = str_view a !! k /\ str_view a' = str_view a /\ str_room n a').
Proof using HMAXC HLIM.
  intros (saved&N&m&Hs&Hm&(Hn&HN&Hn0)%str_room_split) Hk. rewrite (view_stands _ _ _ _ Hs). pose proof cost_swap.
  apply wpM_bind. eapply wpM_eq; [apply (search_eq MAXC saved HMAXC N a _ k Hs); [by apply short_strings|lia|apply Hk]|].
  eapply wpM_mono; [|apply (search_spec _ _ (proj1 HMAXC) N _ _ k Hs); [lia|apply Hk]].
  intros r a' [-> Hs']. apply wpM_ret. split.
  - rewrite lookup_fmap. destruct (m !! k); [|done]. cbn. by rewrite bytes_str_bytes.
  - eapply str_room_intro; [exact Hs'|done|lia].
Qed.

Lemma str_cost s : str_ok s -> 0 < len (str_bytes s) <= LENGTH_BORDER /\ op_cost (len (str_bytes s)) <= op_cost LIM.
Proof using HLIM. intros Hs. unfold str_ok in Hs. rewrite length_str_bytes. split; [lia|]. apply op_cost_mono. lia. Qed.

Lemma str_insert_ok a n k s : str_room (S n) a -> 0 <= k < KEY_LIMIT -> str_ok s -> str_view a !! k = None ->
  wpM (sa_insert k s) a (fun r a' => r = true /\ str_view a' = <[k := s]> (str_view a) /\ str_room n a').
Proof using HMAXC HLIM.
  intros (saved&N&m&Hs&Hm&(Hn&HN&Hn0)%str_room_split) Hk Hv. rewrite (view_stands _ _ _ _ Hs). intros Hnone.
  destruct (str_cost s Hv) as [Hl Hc]. assert (Hk' : (str_bytes <$> m) !! k = None) by (by rewrite lookup_fmap, Hnone).
  eapply wpM_eq; [exact (insert_eq MAXC saved HMAXC N a _ k _ Hs HN Hk Hl Hk')|].
  eapply wpM_mono; [|apply (insert_spec _ _ (proj1 HMAXC) N _ _ k (str_bytes s) Hs); [lia|done| |done]].
  2: { pose proof LEN_LIMIT_ge. unfold LENGTH_BORDER, W32 in *. lia. }
  intros r a' [-> Hs']. split; [done|]. rewrite <- fmap_insert in Hs'.
  eapply str_room_intro; [exact Hs'|by apply map_Forall_insert_2|lia].
Qed.

Lemma str_remove_ok a n k : str_room (S n) a -> word k -> is_Some (str_view a !! k) ->
  wpM (sa_remove k) a (fun r a' => r = true /\ str_view a' = delete k (str_view a) /\ str_room n a').
Proof using HMAXC.
  intros (saved&N&m&Hs&Hm&(Hn&HN&Hn0)%str_room_split) Hk. rewrite (view_stands _ _ _ _ Hs). intros [w Hw]. pose proof cost_swap.
  assert (Hk' : (str_bytes <$> m) !! k = Some (str_bytes w)) by (by rewrite lookup_fmap, Hw).
  eapply wpM_eq; [exact (remove_eq MAXC saved N a _ k _ Hs Hk')|].
  eapply wpM_mono; [|exact (remove_spec _ _ (proj1 HMAXC) N _ _ k _ Hs Hk')].
  intros r a' [-> Hs']. split; [done|]. rewrite <- fmap_delete in Hs'.
  eapply str_room_intro; [exact Hs'|by apply map_Forall_delete|lia].
Qed.

#[local] Program Instance is_store_laws : StrArrayLaws ISArray := {
  sa_view := str_view; sa_room := str_room; sa_fits := str_ok }.
Next Obligation.
  intros a n (saved&N&m&Hs&Hm&(Hn&HN&Hn0)%str_room_split). pose proof cost_swap. exists saved, N, m. split_and!; [done|done|lia].
Qed.
Next Obligation. exact str_search_ok. Qed.
Next Obligation. exact str_insert_ok. Qed.
Next Obligation. exact str_remove_ok. Qed.

(** A new array, and an array that is saved and opened again. *)
Lemma is_build_room n r : 0 <= n < KEY_LIMIT -> KEY_LIMIT + Z.of_nat r * op_cost LIM < MAX_BLOCKS ->
  str_view (ISArray_build n) = ∅ /\ str_room r (ISArray_build n).
Proof using HMAXC.
  intros Hn Hr. assert (0 <= MAXC) by (destruct HMAXC; unfold LENGTH_BORDER in *; lia).
  eapply (str_room_intro r ∅ KEY_LIMIT (ISArray_build n) ∅); [|done|done]. rewrite fmap_empty. by apply build_stands.
Qed.
End Store.

(** * Sequences of operations on an array of strings

    Runs of [search], [insert] and [remove] on an [ISArray], in any order and with
    any keys, against a map from keys to strings; between them the array can be
    saved and opened again.  [modify] gives the blocks of the old string back but
    keeps its reference to them; nothing in [KVstore] calls it.

    At the end, the theorems. *)

#[local] Existing Instance is_format.

Inductive str_op := SSearch (k : Z) | SInsert (k : Z) (s : string) | SRemove (k : Z) | SReopen.

Inductive str_result := SValue (r : option string) | SDone (b : bool) | SOpened.

Definition run_str_op (MAXC : Z) (o : str_op) : M (ISArray * array_files) str_result := fun '(a, fs) =>
  match o with
  | SSearch k => '(r, a) ← is_search MAXC k a; Some (SValue (bytes_str <$> r), (a, fs))
  | SInsert k s => '(b, a) ← is_insert MAXC k (str_bytes s) a; Some (SDone b, (a, fs))
  | SRemove k => '(b, a) ← is_remove k a; Some (SDone b, (a, fs))
  | SReopen => '(fs, a) ← is_save fs a; a ← ISArray_open fs (ValueFile (BM a)); Some (SOpened, (a, fs))
  end.

Fixpoint run_str_ops (MAXC : Z) (os : list str_op) : M (ISArray * array_files) (list str_result) :=
  match os with
  | [] => retM []
  | o :: os' => let! r := run_str_op MAXC o in let! rs := run_str_ops MAXC os' in retM (r :: rs)
  end.

Definition str_map_op (o : str_op) (m : gmap Z string) : str_result * gmap Z string :=
  match o with
  | SSearch k => (SValue (m !! k), m)
  | SInsert k s => match m !! k with Some _ => (SDone false, m) | None => (SDone true, <[k := s]> m) end
  | SRemove k => match m !! k with Some _ => (SDone true, delete k m) | None => (SDone false, m) end
  | SReopen => (SOpened, m)
  end.

Fixpoint str_map_ops (os : list str_op) (m : gmap Z string) : list str_result * gmap Z string :=
  match os with
  | [] => ([], m)
  | o :: os' => let '(r, m') := str_map_op o m in let '(rs, m'') := str_map_ops os' m' in (r :: rs, m'')
  end.

(** Keys that are addressed by an [int], strings of one byte up to a limit. *)
Definition str_op_ok (LIM : Z) (o : str_op) : Prop :=
  match o with
  | SSearch k => 0 <= k
  | SInsert k s => 0 <= k < KEY_LIMIT /\ str_ok LIM s
  | SRemove k => 0 <= k
  | SReopen => True
  end.

Section Seq.
Context (MAXC LIM : Z) (HMAXC : bound_ok MAXC) (HLIM : 0 <= LIM <= LENGTH_BORDER).

(** The array and its files stand for [m] and use no more than [n] blocks. *)
Definition str_stands (n : Z) (s : ISArray * array_files) (m : gmap Z string) : Prop :=
  stands MAXC (IVfile s.2) n s.1 (str_bytes <$> m) /\ map_Forall (fun _ s => str_ok LIM s) m.

Lemma unused_key saved n a m k : stands MAXC saved n a m -> m !! k = None -> usedFlag (E a k) = false.
Proof using Type. intros (q&disk&Hi&_) Hk. by apply (ai_none _ _ _ _ _ _ _ Hi k). Qed.

Lemma range_key saved n a m k : stands MAXC saved n a m -> 0 <= k < CurEntryNum a -> in_range a k.
Proof using Type. intros (q&disk&Hi&_) Hk. by eapply ainv_in_range. Qed.

Lemma is_insert_present saved n a m k v : stands MAXC saved n a m -> is_Some (m !! k) -> is_insert MAXC k v a = Some (false, a).
Proof using Type.
  intros Hs [w Hw]. pose proof Hs as (q&disk&Hi&_). destruct (ainv_value _ _ _ _ _ _ _ _ Hi Hw) as (Hr&Hk&Hu).
  unfold is_insert. rewrite bind_gets. destruct (Z.ltb_spec k (CurEntryNum a)); [|lia].
  erewrite bind_run; [|by rewrite bind_ent]. by rewrite Hu.
Qed.

Lemma is_remove_absent saved n a m k : stands MAXC saved n a m -> 0 <= k -> m !! k = None -> is_remove k a = Some (false, a).
Proof using Type.
  intros Hs Hk Hn. unfold is_remove. rewrite bind_gets. destruct (Z.leb_spec (CurEntryNum a) k); [done|].
  erewrite bind_run; [|rewrite bind_ent; [done|by eapply range_key]]. by rewrite (unused_key _ _ _ _ _ Hs Hn).
Qed.

Lemma stands_mono saved n n' a m : n <= n' -> stands MAXC saved n a m -> stands MAXC saved n' a m.
Proof using Type. intros Hle (q&disk&Hi&Hd). exists q, disk. split; [done|lia]. Qed.

Lemma run_str_op_ok n s m o : str_stands n s m -> str_op_ok LIM o -> n + op_cost LIM < MAX_BLOCKS ->
  exists s', run_str_op MAXC o s = Some ((str_map_op o m).1, s') /\ str_stands (n + op_cost LIM) s' (str_map_op o m).2.
Proof using HMAXC HLIM.
  destruct s as [a fs]. intros [Hs Hm] Ho Hn. cbn [fst snd] in *. pose proof (cost_swap LIM) as Hc. pose proof (proj1 HMAXC) as HM.
  assert (Hw : forall a' m', stands MAXC (IVfile fs) n a' m' -> stands MAXC (IVfile fs) (n + op_cost LIM) a' m') by (intros a' m'; apply stands_mono; lia).
  destruct o as [k|k s|k|]; cbn [run_str_op str_map_op str_op_ok] in *.
  - assert (HN : n < MAX_BLOCKS) by lia. rewrite (search_eq MAXC _ HMAXC n a _ k Hs (short_strings LIM HLIM m Hm) HN Ho).
    destruct (wpM_inv _ _ _ (search_spec _ _ HM n _ _ k Hs ltac:(lia) Ho)) as (r&a'&->&->&Hs'). cbn. exists (a', fs).
    split; [|split; [cbn; eapply stands_mono, Hs'; lia|done]]. rewrite lookup_fmap. destruct (m !! k); cbn; [|done]. by rewrite bytes_str_bytes.
  - destruct Ho as [Hk Hv]. destruct (str_cost LIM HLIM s Hv) as [Hl Hcs]. destruct (m !! k) as [w|] eqn:Hmk.
    + rewrite (is_insert_present _ n a _ k _ Hs) by (by rewrite lookup_fmap, Hmk). cbn. exists (a, fs). split; [done|]. split; [by apply Hw|done].
    + assert (Hk' : (str_bytes <$> m) !! k = None) by (by rewrite lookup_fmap, Hmk).
      rewrite (insert_eq MAXC _ HMAXC n a _ k _ Hs ltac:(lia) Hk Hl Hk'). assert (Hlim : 0 < len (str_bytes s) < LEN_LIMIT).
      { pose proof LEN_LIMIT_ge. unfold LENGTH_BORDER, W32 in *. lia. }
      assert (HN : n + op_cost (len (str_bytes s)) < MAX_BLOCKS) by lia.
      destruct (wpM_inv _ _ _ (insert_spec _ _ HM n _ _ k _ Hs HN Hk Hlim Hk')) as (r&a'&->&->&Hs'). cbn. exists (a', fs).
      split; [done|]. split; [cbn; rewrite fmap_insert; eapply stands_mono, Hs'; lia|]. by apply map_Forall_insert_2.
  - destruct (m !! k) as [w|] eqn:Hmk.
    + assert (Hk' : (str_bytes <$> m) !! k = Some (str_bytes w)) by (by rewrite lookup_fmap, Hmk).
      rewrite (remove_eq MAXC _ n a _ k _ Hs Hk'). destruct (wpM_inv _ _ _ (remove_spec _ _ HM n _ _ k _ Hs Hk')) as (r&a'&->&->&Hs').
      cbn. exists (a', fs). split; [done|]. split; [cbn; rewrite fmap_delete; by apply Hw|by apply map_Forall_delete].
    + rewrite (is_remove_absent _ n a _ k Hs Ho) by (by rewrite lookup_fmap, Hmk). cbn. exists (a, fs). split; [done|]. split; [by apply Hw|done].
  - destruct (wpM_inv _ _ _ (save_spec MAXC fs n a _ Hs ltac:(lia))) as (fs1&a1&Hrun&Hsa). unfold is_save, ISArray_open. rewrite Hrun. cbn.
    destruct (open_spec MAXC fs1 n a1 _ Hsa) as (a2&Hopen&Hs2); [unfold LENGTH_BORDER in *; lia|]. rewrite Hopen. cbn. exists (a2, fs1).
    split; [done|]. split; [cbn; eapply stands_mono, Hs2; lia|done].
Qed.

Lemma run_str_ops_ok os : forall n s m, str_stands n s m -> Forall (str_op_ok LIM) os -> n + len os * op_cost LIM < MAX_BLOCKS ->
  exists s', run_str_ops MAXC os s = Some ((str_map_ops os m).1, s') /\ str_stands (n + len os * op_cost LIM) s' (str_map_ops os m).2.
Proof using HMAXC HLIM.
  pose proof (cost_swap LIM) as Hc. induction os as [|o os IH]; intros n s m Hs Hok Hn; cbn [run_str_ops str_map_ops].
  { exists s. split; [done|]. by rewrite Z.add_0_r. }
  apply Forall_cons in Hok as [Ho Hok]. cbn [length] in *. rewrite Nat2Z.inj_succ, Z.mul_succ_l in *.
  assert (0 <= len os * op_cost LIM) by (apply Z.mul_nonneg_nonneg; lia).
  destruct (run_str_op_ok n s m o Hs Ho ltac:(lia)) as (s1&Hr1&Hs1). unfold bindM at 1. rewrite Hr1. cbn [mbind option_bind].
  destruct (str_map_op o m) as [r m1]. cbn [fst snd] in *. destruct (IH _ s1 m1 Hs1 Hok ltac:(lia)) as (s2&Hr2&Hs2).
  unfold bindM. rewrite Hr2. cbn [mbind option_bind retM]. destruct (str_map_ops os m1) as [rs m2]. cbn [fst snd] in *.
  exists s2. split; [done|]. destruct Hs2 as [Hs2 Hm2]. split; [eapply stands_mono, Hs2; lia|done].
Qed.
End Seq.

(** * Theorems about the arrays of strings *)

#[local] Existing Instance is_format.

(** C11. Any sequence of search, insert and remove on a new array of strings, saved
    and opened again anywhere in between, runs to its end and answers as a map from
    keys to strings does, while the strings move between cache and file. *)
Theorem string_array_refines (MAXC LIM n : Z) (os : list str_op) :
  bound_ok MAXC -> 0 <= LIM <= LENGTH_BORDER -> 0 <= n < KEY_LIMIT -> Forall (str_op_ok LIM) os ->
  KEY_LIMIT + len os * op_cost LIM < MAX_BLOCKS ->
  exists s', run_str_ops MAXC os (ISArray_build n, mk_files ∅ ∅) = Some ((str_map_ops os ∅).1, s') /\
    str_view s'.1 = (str_map_ops os ∅).2.
Proof.
  intros HM HL Hn Hok Hroom. assert (0 <= MAXC) by (destruct HM; unfold LENGTH_BORDER in *; lia).
  destruct (run_str_ops_ok MAXC LIM HM HL os KEY_LIMIT (ISArray_build n, mk_files ∅ ∅) ∅) as (s'&Hr&Hs'&_); [|done|done|].
  - split; [|done]. rewrite fmap_empty. by apply build_stands.
  - exists s'. split; [exact Hr|]. by eapply view_stands.
Qed.

Open Scope string_scope.

Definition some_strings : list str_op :=
  [SInsert 1 "a"; SInsert 1 "b"; SSearch 1; SReopen; SSearch 1; SRemove 1; SRemove 1; SSearch 1; SInsert 300000 "c"; SSearch 300000].

Lemma some_bound : bound_ok LENGTH_BORDER.
Proof. split; [done|left; done]. Qed.

Lemma string_array_refines_witness : bound_ok LENGTH_BORDER /\ exists s',
  run_str_ops LENGTH_BORDER some_strings (ISArray_build 0, mk_files ∅ ∅) =
    Some ([SDone true; SDone false; SValue (Some "a"); SOpened; SValue (Some "a"); SDone true; SDone false; SValue None; SDone true; SValue (Some "c")], s') /\
  str_view s'.1 = {[300000 := "c"]}.
Proof.
  split; [exact some_bound|].
  assert (Hok : Forall (str_op_ok 100) some_strings) by (unfold some_strings, str_op_ok, str_ok, KEY_LIMIT; repeat constructor; cbn; lia).
  destruct (string_array_refines LENGTH_BORDER 100 0 some_strings some_bound ltac:(done) ltac:(done) Hok ltac:(by vm_compute)) as (s'&Hr&Hv).
  exists s'. split; [rewrite Hr; reflexivity|rewrite Hv; reflexivity].
Defined.

(** A cache of ten bytes. *)
Definition modify_session : M ISArray (option string * option string) :=
  let! _ := is_insert 10 1 (str_bytes "aaaaaa") in
  let! _ := is_insert 10 2 (str_bytes "bbbbbb") in
  let! _ := is_modify 10 1 (str_bytes "cccccc") in
  let! _ := is_modify 10 1 (str_bytes "dddddd") in
  let! _ := is_insert 10 3 (str_bytes "eeeeee") in
  let! r1 := is_search 10 1 in
  let! r2 := is_search 10 2 in
  retM (bytes_str <$> r1, bytes_str <$> r2).

(** [modify] frees the blocks of the old string and keeps its reference to
    them: modifying a key twice frees a block that another key has got in the
    meantime, and the string of that key is overwritten. *)
Theorem modify_frees_twice : fst <$> modify_session (ISArray_build 0) = Some (Some "dddddd", Some "dddddd").
Proof. vm_compute. reflexivity. Qed.
