(* ===== verification/SITree.v ===== *)
(** * The tree from strings to ids

    [SITree] (KVstore/SITree/SITree.cpp) with its nodes ([SINode], [SILeafNode],
    [SIIntlNode] in KVstore/SITree/node): a B+ tree of degree 126 whose leaves
    form a doubly linked list.

    A node owns its children, so a tree is a value: the lists of a node hold the
    first [GetKeyNum] elements of the arrays of the source, and a change of a
    child through its pointer becomes a replacement in the list of its parent.
    What is shared is the chain of leaves: a node has an identity, the address
    of the object in the source, and the fields [prev] and [next] of the leaves
    are maps on identities in the state of the tree.  The [while] loops that walk
    down from the root are recursions whose fuel is the depth of the tree.

    The cache of nodes ([SIStorage], [SIHeap]) is not part of this file: every
    node is in memory, [Prepare] has nothing to do, and the fields that serve the
    cache (dirty bit, rank, position in the heap, size of the request) are left
    out.  The text of a key is a value, not a buffer that is freed.  *)

From stdpp Require Import strings.
From S2P Require Import Prelude.

(** ** [StringUtil::compare] *)

(** The loop, on a string that is not longer than the other one. *)
Fixpoint compare_loop (s1 s2 : string) : Z :=
  match s1, s2 with
  | String a s1', String b s2' =>
      if (Ascii.N_of_ascii a <? Ascii.N_of_ascii b)%N then -1
      else if (Ascii.N_of_ascii b <? Ascii.N_of_ascii a)%N then 1
      else compare_loop s1' s2'
  | EmptyString, EmptyString => 0
  | _, _ => -1
  end.

Definition compare (s1 s2 : string) : Z :=
  if (String.length s2 <? String.length s1)%nat then compare_loop s2 s1 * -1 else compare_loop s1 s2.

(** ** [SINode] *)

Definition DEGREE : nat := 126.
Definition MAX_CHILD_NUM : nat := DEGREE.
Definition MIN_CHILD_NUM : nat := Nat.div2 DEGREE.
Definition MAX_KEY_NUM : nat := MAX_CHILD_NUM - 1.
Definition MIN_KEY_NUM : nat := MIN_CHILD_NUM - 1.

Inductive SINode :=
  | SILeafNode (id : nat) (keys : list string) (values : list Z)
  | SIIntlNode (id : nat) (keys : list string) (childs : list SINode).

Definition getKeys (n : SINode) : list string := match n with SILeafNode _ ks _ | SIIntlNode _ ks _ => ks end.
Definition GetKeyNum (n : SINode) : nat := length (getKeys n).
Definition isLeaf (n : SINode) : bool := match n with SILeafNode _ _ _ => true | SIIntlNode _ _ _ => false end.

(** Elements of an array moved by one place, to the right and to the left. *)
Definition ins_at {A} (i : nat) (x : A) (l : list A) : list A := take i l ++ x :: drop i l.

(** [addKey] followed by [AddKeyNum]; the array has [MAX_KEY_NUM] places.  An
    index out of range, which the source reports and skips, is a failure here and
    in the next definitions. *)
Definition addKey (k : string) (i : nat) (ks : list string) : option (list string) :=
  if (i <=? length ks)%nat && (length ks <? MAX_KEY_NUM)%nat then Some (ins_at i k ks) else None.
(** [AddValue], on the values of a leaf, and [AddChild], on the [num + 1] children. *)
Definition AddValue (v : Z) (i : nat) (vs : list Z) : option (list Z) :=
  if (i <=? length vs)%nat && (length vs <? MAX_KEY_NUM)%nat then Some (ins_at i v vs) else None.
Definition AddChild (c : SINode) (i : nat) (cs : list SINode) : option (list SINode) :=
  if (i <=? length cs)%nat && (length cs <? MAX_CHILD_NUM + 1)%nat then Some (ins_at i c cs) else None.
(** [subKey] followed by [SubKeyNum]; [subChild]. *)
Definition sub_at {A} (i : nat) (l : list A) : option (list A) :=
  if (i <? length l)%nat then Some (delete i l) else None.

(** [searchKey_less]: the bounds [low] and [high], and whether the loop was left. *)
Definition less_cond (st : Z * Z * bool) : option bool :=
  let '(low, high, stop) := st in Some (negb stop && (low <=? high)).
Definition less_body (ks : list string) (s : string) (st : Z * Z * bool) : option (Z * Z * bool) :=
  let '(low, high, _) := st in
  let mid := (low + high) ÷ 2 in
  k ← ks !! Z.to_nat mid;
  if 0 <? compare k s
  then if low =? mid then Some (low, high, true) else Some (low, mid, false)
  else Some (mid + 1, high, false).
Definition searchKey_less (ks : list string) (s : string) : option nat :=
  '(low, _, _) ← while (length ks + 2) less_cond (less_body ks s) (0, len ks - 1, false);
  Some (Z.to_nat low).
(** Whether the key before position [i] is [s]. *)
Definition key_before (ks : list string) (i : nat) (s : string) : option bool :=
  match i with
  | O => Some false
  | Datatypes.S j => k ← ks !! j; Some (compare k s =? 0)
  end.
Definition searchKey_equal (ks : list string) (s : string) : option nat :=
  i ← searchKey_less ks s; b ← key_before ks i s; Some (if (b : bool) then pred i else length ks).
Definition searchKey_lessEqual (ks : list string) (s : string) : option nat :=
  i ← searchKey_less ks s; b ← key_before ks i s; Some (if (b : bool) then pred i else i).

(** ** The tree *)

Record Mem := mk_Mem {
  height_ : Z;
  leaves_head_ : option nat;
  leaves_tail_ : option nat;
  prevs : gmap nat nat;
  nexts : gmap nat nat;
  fresh : nat }.

Record SITree := mk_SITree { root_ : option SINode; mem : Mem }.

(** [new SILeafNode], [new SIIntlNode]: an address that was not in use; the
    pointers of a new leaf are null. *)
Definition new_node : M Mem nat := fun m => Some (fresh m,
  mk_Mem (height_ m) (leaves_head_ m) (leaves_tail_ m) (delete (fresh m) (prevs m)) (delete (fresh m) (nexts m)) (Datatypes.S (fresh m))).
Definition set_height (h : Z -> Z) : M Mem unit := fun m => Some (tt,
  mk_Mem (h (height_ m)) (leaves_head_ m) (leaves_tail_ m) (prevs m) (nexts m) (fresh m)).
Definition set_head (x : option nat) : M Mem unit := fun m => Some (tt,
  mk_Mem (height_ m) x (leaves_tail_ m) (prevs m) (nexts m) (fresh m)).
Definition set_tail (x : option nat) : M Mem unit := fun m => Some (tt,
  mk_Mem (height_ m) (leaves_head_ m) x (prevs m) (nexts m) (fresh m)).
Definition upd_ptr (x : nat) (y : option nat) (f : gmap nat nat) : gmap nat nat :=
  match y with Some y => <[x := y]> f | None => delete x f end.
Definition setPrev (x : nat) (y : option nat) : M Mem unit := fun m => Some (tt,
  mk_Mem (height_ m) (leaves_head_ m) (leaves_tail_ m) (upd_ptr x y (prevs m)) (nexts m) (fresh m)).
Definition SetNext (x : nat) (y : option nat) : M Mem unit := fun m => Some (tt,
  mk_Mem (height_ m) (leaves_head_ m) (leaves_tail_ m) (prevs m) (upd_ptr x y (nexts m)) (fresh m)).
Definition GetPrev (x : nat) : M Mem (option nat) := fun m => Some (prevs m !! x, m).
Definition GetNext (x : nat) : M Mem (option nat) := fun m => Some (nexts m !! x, m).

(** A statement under a null check of a pointer. *)
Definition when_some {A} (o : option A) (f : A -> M Mem unit) : M Mem unit :=
  match o with Some a => f a | None => retM tt end.

(** The new leaf [p] to the right of [id], and the neighbour [nid] taken out of
    the chain to the right or to the left of [id]. *)
Definition link_right (id p : nat) : M Mem unit :=
  let! nx := GetNext id in
  let! _ := when_some nx (fun n => let! _ := setPrev n (Some p) in SetNext p (Some n)) in
  let! _ := SetNext id (Some p) in
  setPrev p (Some id).
Definition cut_right (id nid : nat) : M Mem unit :=
  let! nx := GetNext nid in
  let! _ := SetNext id nx in
  when_some nx (fun n => setPrev n (Some id)).
Definition cut_left (id nid : nat) : M Mem unit :=
  let! pr := GetPrev nid in
  let! _ := setPrev id pr in
  when_some pr (fun n => SetNext n (Some id)).

(** *** [Split]

    The node, the new node to its right, and the key and child lists of the
    parent. *)
Definition Split (q : SINode) (pks : list string) (pcs : list SINode) (index : nat)
    : M Mem (SINode * SINode * list string * list SINode) :=
  match q with
  | SILeafNode id ks vs =>
      let! p := new_node in
      let! _ := link_right id p in
      let ret := SILeafNode p (drop MIN_KEY_NUM ks) (drop MIN_KEY_NUM vs) in
      let q' := SILeafNode id (take MIN_KEY_NUM ks) (take MIN_KEY_NUM vs) in
      let! tp := liftM (ks !! MIN_KEY_NUM) in
      let! pks' := liftM (addKey tp index pks) in
      let! pcs' := liftM (AddChild ret (index + 1) (<[index := q']> pcs)) in
      retM (q', ret, pks', pcs')
  | SIIntlNode id ks cs =>
      let! p := new_node in
      let ret := SIIntlNode p (drop MIN_CHILD_NUM ks) (drop MIN_CHILD_NUM cs) in
      let q' := SIIntlNode id (take MIN_KEY_NUM ks) (take MIN_CHILD_NUM cs) in
      let! tp := liftM (ks !! MIN_KEY_NUM) in
      let! pks' := liftM (addKey tp index pks) in
      let! pcs' := liftM (AddChild ret (index + 1) (<[index := q']> pcs)) in
      retM (q', ret, pks', pcs')
  end.

(** What both callers of [Split] do with the end of the chain. *)
Definition after_split (ret : SINode) : M Mem unit :=
  match ret with
  | SILeafNode id _ _ => let! nx := GetNext id in match nx with None => set_tail (Some id) | Some _ => retM tt end
  | SIIntlNode _ _ _ => retM tt
  end.

(** *** [Insert] *)

Fixpoint insert_down (fuel : nat) (p : SINode) (s : string) (v : Z) : M Mem (bool * SINode) :=
  match fuel with
  | O => fun _ => None
  | Datatypes.S f =>
      match p with
      | SILeafNode id ks vs =>
          let! i := liftM (searchKey_less ks s) in
          let! ifexist := liftM (key_before ks i s) in
          if (ifexist : bool) then retM (false, p) else
          let! ks' := liftM (addKey s i ks) in
          let! vs' := liftM (AddValue v i vs) in
          retM (true, SILeafNode id ks' vs')
      | SIIntlNode id ks cs =>
          let! i := liftM (searchKey_less ks s) in
          let! q := liftM (cs !! i) in
          if (GetKeyNum q =? MAX_KEY_NUM)%nat then
            let! '(q', ret, ks', cs') := Split q ks cs i in
            let! _ := after_split ret in
            let! tmp := liftM (ks' !! i) in
            if compare s tmp <? 0
            then let! '(ok, q'') := insert_down f q' s v in retM (ok, SIIntlNode id ks' (<[i := q'']> cs'))
            else let! '(ok, r') := insert_down f ret s v in retM (ok, SIIntlNode id ks' (<[Datatypes.S i := r']> cs'))
          else
            let! '(ok, q') := insert_down f q s v in retM (ok, SIIntlNode id ks (<[i := q']> cs))
      end
  end.

(** The depth of a tree, the fuel of the loops. *)
Fixpoint depth (n : SINode) : nat :=
  match n with
  | SILeafNode _ _ _ => 1
  | SIIntlNode _ _ cs => Datatypes.S (foldr (fun c d => Nat.max (depth c) d) O cs)
  end.

Definition new_root : M Mem SINode :=
  let! id := new_node in
  let! _ := set_head (Some id) in
  let! _ := set_tail (Some id) in
  let! _ := set_height (fun _ => 1) in
  retM (SILeafNode id [] []).

Definition split_root (root : SINode) : M Mem SINode :=
  if (GetKeyNum root =? MAX_KEY_NUM)%nat then
    let! father := new_node in
    let! '(_, ret, ks, cs) := Split root [] [root] O in
    let! _ := after_split ret in
    let! _ := set_height (fun h => h ⊞ 1) in
    retM (SIIntlNode father ks cs)
  else retM root.

(** Runs code on the state of a tree beside its root. *)
Definition on_mem {A} (f : M Mem A) : M SITree A := fun t =>
  '(a, m) ← f (mem t); Some (a, mk_SITree (root_ t) m).
Definition set_root (r : option SINode) : M SITree unit := fun t => Some (tt, mk_SITree r (mem t)).
Definition get_root : M SITree (option SINode) := fun t => Some (root_ t, t).

Definition Insert (s : string) (v : Z) : M SITree bool :=
  if (String.length s =? 0)%nat then retM false else
  let! r := get_root in
  let! root := match r with None => on_mem new_root | Some root => retM root end in
  let! root := on_mem (split_root root) in
  let! '(ok, root') := on_mem (insert_down (depth root) root s v) in
  let! _ := set_root (Some root') in
  retM ok.

(** *** [Find], [Search] and [Modify] *)

(** The leaf and the position, [None] for the position -1. *)
Fixpoint Find (fuel : nat) (p : SINode) (s : string) : option (list string * list Z * option nat) :=
  match fuel with
  | O => None
  | Datatypes.S f =>
      match p with
      | SIIntlNode _ ks cs => i ← searchKey_less ks s; c ← cs !! i; Find f c s
      | SILeafNode _ ks vs =>
          i ← searchKey_lessEqual ks s;
          Some (ks, vs, if (i =? length ks)%nat then None else Some i)
      end
  end.

Definition Search (s : string) : M SITree (option Z) :=
  if (String.length s =? 0)%nat then retM None else
  let! r := get_root in
  match r with
  | None => retM None
  | Some root =>
      let! '(ks, vs, store) := liftM (Find (depth root) root s) in
      match store with
      | None => retM None
      | Some i =>
          let! tmp := liftM (ks !! i) in
          if negb (compare s tmp =? 0) then retM None else
          let! v := liftM (vs !! i) in retM (Some v)
      end
  end.

(** [Find] and the assignment to the value it leads to. *)
Fixpoint modify_down (fuel : nat) (p : SINode) (s : string) (v : Z) : option (bool * SINode) :=
  match fuel with
  | O => None
  | Datatypes.S f =>
      match p with
      | SIIntlNode id ks cs =>
          i ← searchKey_less ks s; c ← cs !! i;
          '(ok, c') ← modify_down f c s v; Some (ok, SIIntlNode id ks (<[i := c']> cs))
      | SILeafNode id ks vs =>
          i ← searchKey_lessEqual ks s;
          if (i =? length ks)%nat then Some (false, p) else
          tmp ← ks !! i;
          if negb (compare s tmp =? 0) then Some (false, p) else
          Some (true, SILeafNode id ks (<[i := v]> vs))
      end
  end.

Definition Modify (s : string) (v : Z) : M SITree bool :=
  if (String.length s =? 0)%nat then retM false else
  let! r := get_root in
  match r with
  | None => retM false
  | Some root =>
      let! '(ok, root') := liftM (modify_down (depth root) root s v) in
      let! _ := set_root (Some root') in
      retM ok
  end.

(** *** [Coalesce] *)

(** Which neighbour the node is united with (1 right, 3 left) or takes an element
    of (2 right, 4 left); 0 when it has no neighbour. *)
Definition coalesce_case (pcs : list SINode) (j index : nat) : option nat :=
  c ← (if (index <? j)%nat
       then p ← pcs !! (index + 1)%nat; Some (if (MIN_KEY_NUM <? GetKeyNum p)%nat then 2%nat else 1%nat)
       else Some 0%nat);
  if (0 <? index)%nat
  then tp ← pcs !! (index - 1)%nat;
       Some (if (c <? 2)%nat
             then if (MIN_KEY_NUM <? GetKeyNum tp)%nat then 4%nat else if (c =? 0)%nat then 3%nat else c
             else c)
  else Some c.

(** Elements of a neighbour copied into a node: the array has [n] places. *)
Definition cap {A} (n : nat) (l : list A) : option (list A) := if (length l <=? n)%nat then Some l else None.

(** The node, the lists of the parent, the position of the node in them and the
    neighbour that is no longer part of the tree. *)
Definition coalesced : Type := SINode * list string * list SINode * nat * option SINode.

Definition leaf_Coalesce (id : nat) (ks : list string) (vs : list Z) (pks : list string) (pcs : list SINode) (index : nat)
    : M Mem coalesced :=
  let! c := liftM (coalesce_case pcs (length pks) index) in
  let! nb := liftM (if (c =? 0)%nat then Some (SILeafNode id ks vs) else pcs !! (if (c <=? 2)%nat then index + 1 else index - 1)%nat) in
  match nb with
  | SIIntlNode _ _ _ => fun _ => None
  | SILeafNode nid nks nvs =>
      match c with
      | 1%nat =>
          let! ks' := liftM (cap MAX_KEY_NUM (ks ++ nks)) in
          let! vs' := liftM (cap MAX_KEY_NUM (vs ++ nvs)) in
          let q' := SILeafNode id ks' vs' in
          let! pks' := liftM (sub_at index pks) in
          let! pcs' := liftM (sub_at (index + 1) (<[index := q']> pcs)) in
          let! _ := cut_right id nid in
          retM (q', pks', pcs', index, Some (SILeafNode nid [] []))
      | 2%nat =>
          let! k0 := liftM (nks !! 0%nat) in
          let! k1 := liftM (nks !! 1%nat) in
          let! v0 := liftM (nvs !! 0%nat) in
          let! ks' := liftM (addKey k0 (length ks) ks) in
          let! vs' := liftM (AddValue v0 (length ks) vs) in
          let! nks' := liftM (sub_at 0 nks) in
          let! nvs' := liftM (sub_at 0 nvs) in
          let q' := SILeafNode id ks' vs' in
          retM (q', <[index := k1]> pks, <[index := q']> (<[(index + 1)%nat := SILeafNode nid nks' nvs']> pcs), index, None)
      | 3%nat =>
          let! ks' := liftM (cap MAX_KEY_NUM (nks ++ ks)) in
          let! vs' := liftM (cap MAX_KEY_NUM (nvs ++ vs)) in
          let q' := SILeafNode id ks' vs' in
          let! pks' := liftM (sub_at (index - 1) pks) in
          let! pcs' := liftM (sub_at (index - 1) (<[index := q']> pcs)) in
          let! _ := cut_left id nid in
          retM (q', pks', pcs', (index - 1)%nat, Some (SILeafNode nid [] []))
      | 4%nat =>
          let! bstr := liftM (nks !! (length nks - 1)%nat) in
          let! v := liftM (nvs !! (length nks - 1)%nat) in
          let! ks' := liftM (addKey bstr 0 ks) in
          let! vs' := liftM (AddValue v 0 vs) in
          let! nks' := liftM (sub_at (length nks - 1) nks) in
          let! nvs' := liftM (sub_at (length nks - 1) nvs) in
          let q' := SILeafNode id ks' vs' in
          retM (q', <[(index - 1)%nat := bstr]> pks, <[index := q']> (<[(index - 1)%nat := SILeafNode nid nks' nvs']> pcs), index, None)
      | _ => retM (SILeafNode id ks vs, pks, pcs, index, None)
      end
  end.

Definition intl_Coalesce (id : nat) (ks : list string) (cs : list SINode) (pks : list string) (pcs : list SINode) (index : nat)
    : M Mem coalesced :=
  let! c := liftM (coalesce_case pcs (length pks) index) in
  let! nb := liftM (pcs !! (if (c <=? 2)%nat then index + 1 else index - 1)%nat) in
  match nb with
  | SILeafNode _ _ _ => fun _ => None
  | SIIntlNode nid nks ncs =>
      match c with
      | 1%nat =>
          let! fk := liftM (pks !! index) in
          let! ks' := liftM (cap MAX_KEY_NUM (ks ++ fk :: nks)) in
          let! cs' := liftM (cap MAX_CHILD_NUM (cs ++ ncs)) in
          let q' := SIIntlNode id ks' cs' in
          let! pks' := liftM (sub_at index pks) in
          let! pcs' := liftM (sub_at (index + 1) (<[index := q']> pcs)) in
          retM (q', pks', pcs', index, Some (SIIntlNode nid [] []))
      | 2%nat =>
          let! fk := liftM (pks !! index) in
          let! k0 := liftM (nks !! 0%nat) in
          let! c0 := liftM (ncs !! 0%nat) in
          let! ks' := liftM (addKey fk (length ks) ks) in
          let! cs' := liftM (AddChild c0 (length ks + 1) cs) in
          let! nks' := liftM (sub_at 0 nks) in
          let! ncs' := liftM (sub_at 0 ncs) in
          let q' := SIIntlNode id ks' cs' in
          retM (q', <[index := k0]> pks, <[index := q']> (<[(index + 1)%nat := SIIntlNode nid nks' ncs']> pcs), index, None)
      | 3%nat =>
          let! fk := liftM (pks !! (index - 1)%nat) in
          let! ks' := liftM (cap MAX_KEY_NUM (nks ++ fk :: ks)) in
          let! cs' := liftM (cap MAX_CHILD_NUM (ncs ++ cs)) in
          let q' := SIIntlNode id ks' cs' in
          let! pks' := liftM (sub_at (index - 1) pks) in
          let! pcs' := liftM (sub_at (index - 1) (<[index := q']> pcs)) in
          retM (q', pks', pcs', (index - 1)%nat, Some (SIIntlNode nid [] []))
      | 4%nat =>
          let! bstr := liftM (nks !! (length nks - 1)%nat) in
          let! fk := liftM (pks !! (index - 1)%nat) in
          let! ck := liftM (ncs !! length nks) in
          let! ks' := liftM (addKey fk 0 ks) in
          let! cs' := liftM (AddChild ck 0 cs) in
          let! nks' := liftM (sub_at (length nks - 1) nks) in
          let! ncs' := liftM (sub_at (length nks) ncs) in
          let q' := SIIntlNode id ks' cs' in
          retM (q', <[(index - 1)%nat := bstr]> pks, <[index := q']> (<[(index - 1)%nat := SIIntlNode nid nks' ncs']> pcs), index, None)
      | _ => fun _ => None
      end
  end.

Definition Coalesce (q : SINode) : list string -> list SINode -> nat -> M Mem coalesced :=
  match q with
  | SILeafNode id ks vs => leaf_Coalesce id ks vs
  | SIIntlNode id ks cs => intl_Coalesce id ks cs
  end.

(** *** [Remove] *)

(** [setPrev(nullptr)] and [SetNext(nullptr)], which do nothing on an inner node. *)
Definition unlink (n : SINode) : M Mem unit :=
  match n with
  | SILeafNode id _ _ => let! _ := setPrev id None in SetNext id None
  | SIIntlNode _ _ _ => retM tt
  end.

(** The ends of the chain after [Coalesce] on [q]. *)
Definition fix_ends (q : SINode) : M Mem unit :=
  match q with
  | SILeafNode id _ _ =>
      let! pr := GetPrev id in
      let! _ := match pr with None => set_head (Some id) | Some _ => retM tt end in
      let! nx := GetNext id in
      match nx with None => set_tail (Some id) | Some _ => retM tt end
  | SIIntlNode _ _ _ => retM tt
  end.

(** What a walk down from a node leaves: the node, or a new root of the whole
    tree, or no tree. *)
Inductive outcome := Stays (p : SINode) | NewRoot (r : SINode) | NoRoot.

Fixpoint remove_down (fuel : nat) (p : SINode) (s : string) : M Mem (bool * outcome) :=
  match fuel with
  | O => fun _ => None
  | Datatypes.S f =>
      match p with
      | SILeafNode id ks vs =>
          let! i := liftM (searchKey_equal ks s) in
          if (i =? length ks)%nat then retM (false, Stays p) else
          let! ks' := liftM (sub_at i ks) in
          let! vs' := liftM (sub_at i vs) in
          let p' := SILeafNode id ks' vs' in
          if (GetKeyNum p' =? 0)%nat then
            let! _ := set_head None in
            let! _ := set_tail None in
            let! _ := set_height (fun _ => 0) in
            let! _ := unlink p' in
            retM (true, NoRoot)
          else retM (true, Stays p')
      | SIIntlNode id ks cs =>
          let! i := liftM (searchKey_less ks s) in
          let! q := liftM (cs !! i) in
          if (GetKeyNum q <? MIN_CHILD_NUM)%nat then
            let! '(q', ks', cs', k, ret) := Coalesce q ks cs i in
            let! _ := when_some ret unlink in
            let! _ := fix_ends q' in
            if (length ks' =? 0)%nat then
              let! _ := set_height (fun h => h ⊟ 1) in
              let! '(ok, o) := remove_down f q' s in
              retM (ok, match o with Stays q'' => NewRoot q'' | _ => o end)
            else
              let! '(ok, o) := remove_down f q' s in
              retM (ok, match o with Stays q'' => Stays (SIIntlNode id ks' (<[k := q'']> cs')) | _ => o end)
          else
            let! '(ok, o) := remove_down f q s in
            retM (ok, match o with Stays q' => Stays (SIIntlNode id ks (<[i := q']> cs)) | _ => o end)
      end
  end.

Definition Remove (s : string) : M SITree bool :=
  if (String.length s =? 0)%nat then retM false else
  let! r := get_root in
  match r with
  | None => retM false
  | Some root =>
      let! '(ok, o) := on_mem (remove_down (depth root) root s) in
      let! _ := set_root (match o with Stays p => Some p | NewRoot q => Some q | NoRoot => None end) in
      retM ok
  end.

(** A tree opened in [build] mode. *)
Definition SITree_build : SITree := mk_SITree None (mk_Mem 0 None None ∅ ∅ 0).
