(* ===== verification/SITreeOps.v ===== *)
(** * The tree from strings to ids: its operations

    [Split] and [Coalesce] keep the shape, the entries and the chain; [Insert],
    [Remove], [Search] and [Modify] do to the entries what they do to a map. *)

From stdpp Require Import strings.
From S2P Require Import Prelude SITree SITreeSpec.

(** ** [Split] *)

Lemma sorted_cut ks1 k ks2 lo hi : StronglySorted slt (ks1 ++ k :: ks2) -> Forall (in_range lo hi) (ks1 ++ k :: ks2) ->
  Forall (in_range lo (Some k)) ks1 /\ Forall (in_range (Some k) hi) (k :: ks2) /\ lo_le lo k /\ le_hi k hi.
Proof.
  intros Hs Hr. apply Forall_app in Hr as [Hr1 Hr2]. pose proof (StronglySorted_app_1_elem_of slt ks1 (k :: ks2)) as He.
  pose proof (Forall_inv Hr2) as [Hk1 Hk2]. rewrite Forall_forall in Hr1, Hr2.
  assert (Hs2 : StronglySorted slt (k :: ks2)) by (by eapply StronglySorted_app_1_r).
  apply StronglySorted_inv in Hs2 as [_ Hs2]. rewrite Forall_forall in Hs2. rewrite !Forall_forall.
  split_and!; [| |done|bounds].
  - intros x Hx. split; [by apply Hr1|]. simpl. apply (He x k Hs Hx). by left.
  - intros x Hx. split; [|by apply Hr2]. simpl. apply elem_of_cons in Hx as [->|Hx]; [sord|]. by apply slt_le, Hs2.
Qed.

Lemma zip_take_drop {A B} n (l : list A) (k : list B) : zip (take n l) (take n k) ++ zip (drop n l) (drop n k) = zip l k.
Proof. revert l k. induction n as [|n IH]; intros [|a l] [|b k]; simpl; try done. - by rewrite zip_with_nil_r. - by rewrite IH. Qed.

Lemma split_leaf_wf lo hi id p ks vs : wf 1 lo hi (SILeafNode id ks vs) -> length ks = MAX_KEY_NUM ->
  exists k, ks !! MIN_KEY_NUM = Some k /\
    wf_childs (node_ok 1) lo hi [k] [SILeafNode id (take MIN_KEY_NUM ks) (take MIN_KEY_NUM vs); SILeafNode p (drop MIN_KEY_NUM ks) (drop MIN_KEY_NUM vs)].
Proof.
  intros (_&Hl&Hs&Hr) Hm. destruct (lookup_lt_is_Some_2 ks MIN_KEY_NUM) as [k Hk]; [knum|]. exists k. split; [done|].
  pose proof (take_drop_middle ks _ k Hk) as E. pose proof (drop_S ks k _ Hk) as E2.
  destruct (sorted_cut (take MIN_KEY_NUM ks) k (drop (Datatypes.S MIN_KEY_NUM) ks) lo hi) as (H1&H2&H3&H4); [by rewrite E|by rewrite E|].
  rewrite E2. split_and!; [done|done|..]; (split; [split_and!|]); try done; unfold sized, GetKeyNum; simpl;
    rewrite ?length_take, ?length_drop; try (rewrite <- E2, ?length_drop); try knum.
  - rewrite <- E in Hs. by apply StronglySorted_app_1_l in Hs.
  - rewrite <- E in Hs. apply StronglySorted_app_1_r in Hs. by rewrite E2.
Qed.

Lemma split_intl_wf h lo hi ks cs : wf_childs (node_ok h) lo hi ks cs -> length ks = MAX_KEY_NUM ->
  exists k, ks !! MIN_KEY_NUM = Some k /\ lo_le lo k /\ le_hi k hi /\
    wf_childs (node_ok h) lo (Some k) (take MIN_KEY_NUM ks) (take MIN_CHILD_NUM cs) /\
    wf_childs (node_ok h) (Some k) hi (drop MIN_CHILD_NUM ks) (drop MIN_CHILD_NUM cs).
Proof.
  intros H Hm. destruct (lookup_lt_is_Some_2 ks MIN_KEY_NUM) as [k Hk]; [knum|]. exists k. split; [done|].
  pose proof (wf_childs_length _ _ _ _ _ H) as Hl. rewrite <- (take_drop_middle ks _ k Hk), <- (take_drop MIN_CHILD_NUM cs) in H.
  apply wf_childs_app in H; [|rewrite !length_take; knum]. tauto.
Qed.

Lemma ins_at_app {A} (l1 l2 : list A) x : ins_at (length l1) x (l1 ++ l2) = l1 ++ x :: l2.
Proof. unfold ins_at. by rewrite take_app_length, drop_app_length. Qed.

Lemma addKey_app k ks1 ks2 : (length (ks1 ++ ks2) < MAX_KEY_NUM)%nat -> addKey k (length ks1) (ks1 ++ ks2) = Some (ks1 ++ k :: ks2).
Proof.
  intros H. unfold addKey. rewrite ins_at_app. rewrite (proj2 (Nat.ltb_lt _ _)) by done.
  by rewrite (proj2 (Nat.leb_le _ _)) by (rewrite length_app; lia).
Qed.
Lemma AddValue_app v vs1 vs2 : (length (vs1 ++ vs2) < MAX_KEY_NUM)%nat -> AddValue v (length vs1) (vs1 ++ vs2) = Some (vs1 ++ v :: vs2).
Proof.
  intros H. unfold AddValue. rewrite ins_at_app. rewrite (proj2 (Nat.ltb_lt _ _)) by done.
  by rewrite (proj2 (Nat.leb_le _ _)) by (rewrite length_app; lia).
Qed.
Lemma AddChild_app c cs1 cs2 : (length (cs1 ++ cs2) <= MAX_CHILD_NUM)%nat -> AddChild c (length cs1) (cs1 ++ cs2) = Some (cs1 ++ c :: cs2).
Proof.
  intros H. unfold AddChild. rewrite ins_at_app. rewrite (proj2 (Nat.ltb_lt _ _)) by lia.
  by rewrite (proj2 (Nat.leb_le _ _)) by (rewrite length_app; lia).
Qed.

(** The new child of the parent. *)
Lemma split_parent q q' ret tp ks1 ks2 cs1 cs2 : length cs1 = length ks1 -> length cs2 = length ks2 ->
  (length (ks1 ++ ks2) < MAX_KEY_NUM)%nat ->
  addKey tp (length ks1) (ks1 ++ ks2) = Some (ks1 ++ tp :: ks2) /\
  AddChild ret (length ks1 + 1) (<[length ks1 := q']> (cs1 ++ q :: cs2)) = Some (cs1 ++ q' :: ret :: cs2).
Proof.
  intros H1 H2 Hm. split; [by apply addKey_app|]. rewrite <- H1. rewrite insert_app_r_alt, Nat.sub_diag by lia. simpl.
  replace (length cs1 + 1)%nat with (length (cs1 ++ [q'])) by (rewrite length_app; simpl; lia).
  rewrite (cons_middle q' cs1 cs2), app_assoc. rewrite AddChild_app.
  - by rewrite <- app_assoc.
  - rewrite !length_app in *. simpl. knum.
Qed.

Lemma links_new m L : links m L -> wpM new_node m (fun p m' =>
  links m' L /\ same_ends m m' /\ (p ∉ L) /\ (p < fresh m')%nat /\ nexts m' !! p = None).
Proof.
  intros (Hnd&Hlt&H). assert (Hp : fresh m ∉ L).
  { intros Hin. rewrite Forall_forall in Hlt. specialize (Hlt _ Hin). lia. }
  unfold wpM, new_node. simpl. split_and!; [|done|done|lia|by rewrite lookup_delete_eq].
  split; [done|]. split; [eapply Forall_impl; [exact Hlt|]; simpl; lia|].
  eapply linked_frame; [|exact H]. simpl. unchanged.
Qed.

Lemma Split_ok h lo hi q m L1 L2 ks1 ks2 cs1 cs2 :
  wf h lo hi q -> GetKeyNum q = MAX_KEY_NUM -> length cs1 = length ks1 -> length cs2 = length ks2 ->
  (length (ks1 ++ ks2) < MAX_KEY_NUM)%nat -> links m (L1 ++ leaf_ids q ++ L2) ->
  wpM (Split q (ks1 ++ ks2) (cs1 ++ q :: cs2) (length ks1)) m (fun r m' => let '(q', ret, ks', cs') := r in
    exists k, ks' = ks1 ++ k :: ks2 /\ cs' = cs1 ++ q' :: ret :: cs2 /\
      wf_childs (node_ok h) lo hi [k] [q'; ret] /\ (GetKeyNum q' < MAX_KEY_NUM)%nat /\ (GetKeyNum ret < MAX_KEY_NUM)%nat /\
      entries q' ++ entries ret = entries q /\
      links m' (L1 ++ leaf_ids q' ++ leaf_ids ret ++ L2) /\ same_ends m m' /\
      (if isLeaf ret then leaf_ids q' = leaf_ids q else leaf_ids q' ++ leaf_ids ret = leaf_ids q)).
Proof.
  intros Hq Hm H1 H2 Hp Hl. destruct q as [id ks vs|id ks cs]; unfold GetKeyNum in Hm; simpl in Hm.
  - destruct h as [|h]; [done|]. assert (h = O) as -> by (by destruct Hq as [? _]).
    apply wpM_bind. eapply wpM_mono, links_new, Hl. intros p m1 (Hl1&Hs1&Hnp&Hf&Hnn). simpl in Hl1, Hnp.
    apply wpM_bind. eapply wpM_mono, link_right_ok; [|done..]. intros _ m2 (Hl2&Hs2&_).
    destruct (split_leaf_wf lo hi id p ks vs Hq Hm) as (k&Hk&Hw). apply wpM_bind. eapply wpM_lift; [exact Hk|].
    edestruct (split_parent (SILeafNode id ks vs)) as [Ha Hc]; [exact H1|exact H2|exact Hp|].
    apply wpM_bind. eapply wpM_lift; [exact Ha|]. apply wpM_bind. eapply wpM_lift; [exact Hc|].
    exists k. split_and!; try done; unfold GetKeyNum; simpl; rewrite ?length_take, ?length_drop; try knum.
    + by rewrite zip_take_drop.
    + unfold same_ends in *. destruct Hs1 as (?&?&?), Hs2 as (?&?&?). split_and!; congruence.
  - destruct h as [|h]; [done|]. apply wpM_bind. eapply wpM_mono, links_new, Hl. intros p m1 (Hl1&Hs1&Hnp&Hf&Hnn).
    destruct (split_intl_wf h lo hi ks cs Hq Hm) as (k&Hk&Hlo&Hhi&Hw1&Hw2). apply wpM_bind. eapply wpM_lift; [exact Hk|].
    edestruct (split_parent (SIIntlNode id ks cs)) as [Ha Hc]; [exact H1|exact H2|exact Hp|].
    apply wpM_bind. eapply wpM_lift; [exact Ha|]. apply wpM_bind. eapply wpM_lift; [exact Hc|].
    assert (He : all_entries (take MIN_CHILD_NUM cs) ++ all_entries (drop MIN_CHILD_NUM cs) = all_entries cs) by (by rewrite <- all_entries_app, take_drop).
    assert (Hi : all_ids (take MIN_CHILD_NUM cs) ++ all_ids (drop MIN_CHILD_NUM cs) = all_ids cs) by (by rewrite <- all_ids_app, take_drop).
    exists k. split_and!; try done; unfold node_ok, sized, GetKeyNum; simpl; rewrite ?length_take, ?length_drop; try knum.
    + split_and!; try done; knum.
    + fold (all_ids (take MIN_CHILD_NUM cs)) (all_ids (drop MIN_CHILD_NUM cs)). by rewrite (app_assoc (all_ids _)), Hi.
Qed.

Lemma after_split_ok m L1 ret L2 : links m (L1 ++ leaf_ids ret ++ L2) -> leaves_head_ m = head (L1 ++ leaf_ids ret ++ L2) ->
  (isLeaf ret = false \/ L2 <> [] -> leaves_tail_ m = last (L1 ++ leaf_ids ret ++ L2)) ->
  wpM (after_split ret) m (fun _ m' => chain m' (L1 ++ leaf_ids ret ++ L2) /\ height_ m' = height_ m).
Proof.
  intros H Hh Ht. destruct ret as [id ks vs|id ks cs]; simpl in *.
  2:{ split; [|done]. split; [done|]. auto. }
  assert (Hl : links m (L1 ++ id :: L2)) by done. apply links_app in Hl as (_&_&_&Hl). simpl in Hl. destruct Hl as (Hpv&Hnx&_).
  unfold wpM, bindM, GetNext. simpl. rewrite Hnx. destruct L2 as [|b L2]; simpl; (split; [|done]); (split; [done|]); split; try done.
  - simpl. by rewrite last_snoc.
  - apply Ht. by right.
Qed.

Lemma wf_ids h lo hi n : wf h lo hi n -> exists x L, leaf_ids n = x :: L.
Proof. intros H%wf_ids_nonempty. destruct (leaf_ids n) as [|x L]; [done|]. by exists x, L. Qed.

Lemma split_chain_ok h lo hi q m L1 L2 ks1 ks2 cs1 cs2 :
  wf h lo hi q -> GetKeyNum q = MAX_KEY_NUM -> length cs1 = length ks1 -> length cs2 = length ks2 ->
  (length (ks1 ++ ks2) < MAX_KEY_NUM)%nat -> chain m (L1 ++ leaf_ids q ++ L2) ->
  wpM (Split q (ks1 ++ ks2) (cs1 ++ q :: cs2) (length ks1)) m (fun r m' => let '(q', ret, ks', cs') := r in
    wpM (after_split ret) m' (fun _ m'' => exists k, ks' = ks1 ++ k :: ks2 /\ cs' = cs1 ++ q' :: ret :: cs2 /\
      wf_childs (node_ok h) lo hi [k] [q'; ret] /\ (GetKeyNum q' < MAX_KEY_NUM)%nat /\ (GetKeyNum ret < MAX_KEY_NUM)%nat /\
      entries q' ++ entries ret = entries q /\
      chain m'' (L1 ++ leaf_ids q' ++ leaf_ids ret ++ L2) /\ height_ m'' = height_ m)).
Proof.
  intros Hq Hm H1 H2 Hp (Hl&Hh&Ht). eapply wpM_mono, (Split_ok h lo hi q m L1 L2); [|done..].
  intros [[[q' ret] ks'] cs'] m' (k&Hk&Hc&Hw&Hn1&Hn2&He&Hl'&(Hs1&Hs2&Hs3)&Hids).
  assert (Hq' : exists lo hi, wf h lo hi q') by (destruct Hw as (_&_&[? _]&_); eauto).
  destruct Hq' as (?&?&(a&A&Ha)%wf_ids). rewrite (app_assoc L1) in Hl' |- *.
  eapply wpM_mono, (after_split_ok m' (L1 ++ leaf_ids q') ret L2); [|done|..].
  - intros _ m'' (Hc'&Hh'). exists k. rewrite Hh', Hs1. done.
  - rewrite Hs2, Hh. destruct L1; [|done]. rewrite Ha. destruct (isLeaf ret).
    + by rewrite <- Hids, Ha.
    + rewrite <- Hids, Ha. done.
  - rewrite Hs3, Ht. destruct (isLeaf ret); intros [?|Hne]; try done.
    + destruct L2 as [|b L2]; [done|]. by rewrite !app_assoc, !last_app_cons.
    + rewrite <- Hids, <- !(app_assoc). done.
    + rewrite <- Hids, <- !(app_assoc). done.
Qed.

(** ** The child of a key *)

Lemma range_not_before lo hi s E : in_range lo hi s -> Forall (before lo) E -> s ∉ E.
Proof.
  intros [Hlo _] H Hin. rewrite Forall_forall in H. specialize (H s Hin). destruct lo; [|done]. by apply Hlo.
Qed.
Lemma range_not_after lo hi s E : in_range lo hi s -> Forall (after hi) E -> s ∉ E.
Proof.
  intros [_ Hhi] H Hin. rewrite Forall_forall in H. specialize (H s Hin). destruct hi; [|done]. by apply H.
Qed.

Lemma pick h lo hi ks1 ks2 cs1 c cs2 s : wf_childs (node_ok h) lo hi (ks1 ++ ks2) (cs1 ++ c :: cs2) ->
  length cs1 = length ks1 -> in_range lo hi s -> below s ks1 -> above s ks2 ->
  let lo' := lob lo ks1 in let hi' := hib ks2 hi in
  node_ok h lo' hi' c /\ in_range lo' hi' s /\ (s ∉ (all_entries cs1).*1) /\ (s ∉ (all_entries cs2).*1) /\
  (forall c', node_ok h lo' hi' c' -> wf_childs (node_ok h) lo hi (ks1 ++ ks2) (cs1 ++ c' :: cs2)).
Proof.
  intros H Hl [Hlo Hhi] Hb Ha lo' hi'.
  destruct (wf_focus (node_ok h) (node_ok_range h) lo hi ks1 [] ks2 cs1 [c] cs2) as (H1&H2&H3&H4); [done|done|done|].
  assert (Hr : in_range lo' hi' s) by (split; [by apply lob_le|by apply hib_lt]).
  split_and!; [done|done|by eapply range_not_before|by eapply range_not_after|].
  intros c' Hc'. by apply (H4 [] [c']).
Qed.

Lemma childs_at lo hi P ks1 ks2 cs : wf_childs P lo hi (ks1 ++ ks2) cs ->
  exists cs1 c cs2, cs = cs1 ++ c :: cs2 /\ length cs1 = length ks1 /\ length cs2 = length ks2 /\ cs !! length ks1 = Some c.
Proof.
  intros H%wf_childs_length. rewrite length_app in H.
  destruct (lookup_lt_is_Some_2 cs (length ks1)) as [c Hc]; [lia|].
  exists (take (length ks1) cs), c, (drop (Datatypes.S (length ks1)) cs).
  rewrite take_drop_middle, length_take, length_drop by done. split_and!; [done|lia|lia|done].
Qed.

Lemma descend h lo hi ks cs s : wf_childs (node_ok h) lo hi ks cs ->
  exists ks1 ks2 cs1 q cs2, ks = ks1 ++ ks2 /\ cs = cs1 ++ q :: cs2 /\ length cs1 = length ks1 /\ length cs2 = length ks2 /\
    searchKey_less ks s = Some (length ks1) /\ cs !! length ks1 = Some q /\ below s ks1 /\ above s ks2.
Proof.
  intros H. destruct (wf_childs_keys _ _ _ _ _ H) as [Hs _].
  destruct (searchKey_less_ok ks s Hs) as (ks1&ks2&->&Hf&Hb&Ha). destruct (childs_at _ _ _ _ _ _ H) as (cs1&q&cs2&->&Hl1&Hl2&Hq).
  by exists ks1, ks2, cs1, q, cs2.
Qed.

Lemma insert_middle {A} (l1 l2 : list A) x y n : n = length l1 -> <[n := y]> (l1 ++ x :: l2) = l1 ++ y :: l2.
Proof. intros ->. rewrite insert_app_r_alt by lia. by rewrite Nat.sub_diag. Qed.

(** [H] up to the associativity of [++]. *)
Ltac apps H := rewrite <- ?app_assoc in H; rewrite <- ?app_assoc; exact H.

(** ** [Insert] *)

(** What an insertion does to a list of entries. *)
Definition ins_effect (s : string) (v : Z) (ok : bool) (E E' : list (string * Z)) : Prop :=
  if decide (s ∈ E.*1) then ok = false /\ E' = E else ok = true /\ E' ≡ₚ (s, v) :: E.

Lemma ins_effect_frame s v ok E1 E E' E2 : s ∉ E1.*1 -> s ∉ E2.*1 ->
  ins_effect s v ok E E' -> ins_effect s v ok (E1 ++ E ++ E2) (E1 ++ E' ++ E2).
Proof.
  intros H1 H2. unfold ins_effect. rewrite !fmap_app. destruct (decide (s ∈ E.*1)) as [Hin|Hin].
  - rewrite decide_True by set_solver. by intros [-> ->].
  - rewrite decide_False by set_solver. intros [-> ->]. split; [done|]. solve_Permutation.
Qed.

Definition insert_spec (h f : nat) : Prop := forall lo hi p s v m L1 L2,
  wf h lo hi p -> (GetKeyNum p < MAX_KEY_NUM)%nat -> in_range lo hi s -> chain m (L1 ++ leaf_ids p ++ L2) ->
  wpM (insert_down f p s v) m (fun r m' => wf h lo hi r.2 /\ (GetKeyNum p <= GetKeyNum r.2 <= MAX_KEY_NUM)%nat /\
    chain m' (L1 ++ leaf_ids r.2 ++ L2) /\ height_ m' = height_ m /\ ins_effect s v r.1 (entries p) (entries r.2)).

Lemma all_ids_cons c cs : all_ids (c :: cs) = leaf_ids c ++ all_ids cs.
Proof. done. Qed.
Lemma all_entries_cons c cs : all_entries (c :: cs) = entries c ++ all_entries cs.
Proof. done. Qed.

(** The leaves of a child in the chain. *)
Lemma ids_context L1 cs1 c cs2 L2 :
  L1 ++ all_ids (cs1 ++ c :: cs2) ++ L2 = (L1 ++ all_ids cs1) ++ leaf_ids c ++ (all_ids cs2 ++ L2).
Proof. rewrite all_ids_app, all_ids_cons. by rewrite <- !app_assoc. Qed.

Lemma insert_child h f lo hi ks1 ks2 cs1 c cs2 s v m L1 L2 : insert_spec h f ->
  wf_childs (node_ok h) lo hi (ks1 ++ ks2) (cs1 ++ c :: cs2) -> length cs1 = length ks1 ->
  (GetKeyNum c < MAX_KEY_NUM)%nat -> in_range lo hi s -> below s ks1 -> above s ks2 ->
  chain m (L1 ++ all_ids (cs1 ++ c :: cs2) ++ L2) ->
  wpM (insert_down f c s v) m (fun r m' => let cs' := cs1 ++ r.2 :: cs2 in
    wf_childs (node_ok h) lo hi (ks1 ++ ks2) cs' /\ chain m' (L1 ++ all_ids cs' ++ L2) /\ height_ m' = height_ m /\
    ins_effect s v r.1 (all_entries (cs1 ++ c :: cs2)) (all_entries cs')).
Proof.
  intros IH H Hl Hc Hr Hb Ha Hch. destruct (pick h lo hi ks1 ks2 cs1 c cs2 s H Hl Hr Hb Ha) as ([Hw Hsz]&Hr'&Hn1&Hn2&Hrep).
  rewrite ids_context in Hch. eapply wpM_mono, (IH _ _ c s v m (L1 ++ all_ids cs1) (all_ids cs2 ++ L2)); [|done..].
  intros [ok c'] m' (Hw'&Hn&Hch'&Hh&He). simpl in *. split; [|split; [|split; [done|]]].
  - apply Hrep. split; [done|]. unfold sized in *. lia.
  - by rewrite ids_context.
  - rewrite !all_entries_app, !all_entries_cons. by apply ins_effect_frame.
Qed.

Lemma insert_leaf_ok lo hi id ks vs f s v m L1 L2 :
  wf 1 lo hi (SILeafNode id ks vs) -> (length ks < MAX_KEY_NUM)%nat -> in_range lo hi s -> chain m (L1 ++ id :: L2) ->
  wpM (insert_down (Datatypes.S f) (SILeafNode id ks vs) s v) m (fun r m' => wf 1 lo hi r.2 /\
    (length ks <= GetKeyNum r.2 <= MAX_KEY_NUM)%nat /\ chain m' (L1 ++ leaf_ids r.2 ++ L2) /\ height_ m' = height_ m /\
    ins_effect s v r.1 (zip ks vs) (entries r.2)).
Proof.
  intros (_&Hlv&Hs&Hr) Hm Hrs Hch. destruct (searchKey_less_ok ks s (sorted_slt_sle _ Hs)) as (ks1&ks2&->&Hf&Hb&Ha).
  destruct (key_before_ok ks1 ks2 s Hs Hb Ha) as [Hk _]. simpl.
  apply wpM_bind. eapply wpM_lift; [exact Hf|]. apply wpM_bind. eapply wpM_lift; [exact Hk|].
  assert (Hz : (zip (ks1 ++ ks2) vs).*1 = ks1 ++ ks2) by (apply fst_zip; lia).
  unfold ins_effect. rewrite Hz. case_bool_decide as Hin.
  { apply wpM_ret. rewrite decide_True by done. simpl. split_and!; try done; unfold GetKeyNum; simpl; lia. }
  apply wpM_bind. eapply wpM_lift; [by apply addKey_app|].
  set (vs1 := take (length ks1) vs). set (vs2 := drop (length ks1) vs).
  assert (Hvs : vs = vs1 ++ vs2) by (symmetry; apply take_drop).
  assert (Hl1 : length vs1 = length ks1) by (unfold vs1; rewrite length_take, Hlv, length_app; lia).
  assert (Hav : AddValue v (length ks1) vs = Some (vs1 ++ v :: vs2)).
  { rewrite <- Hl1, Hvs. apply AddValue_app. rewrite <- Hvs. lia. }
  apply wpM_bind. eapply wpM_lift; [exact Hav|]. apply wpM_ret. rewrite decide_False by done. cbn [fst snd leaf_ids entries].
  apply StronglySorted_app in Hs as (Hs12&Hs1&Hs2). unfold below, above in *. rewrite Forall_forall in Hb, Ha.
  assert (Hlt : forall x, x ∈ ks1 -> slt x s).
  { intros x Hx. destruct (slt_total x s) as [?|[->|?]]; [done|set_solver|]. by destruct (Hb x Hx). }
  split; [|split; [unfold GetKeyNum; simpl; rewrite !length_app in *; simpl; lia|split; [done|split; [done|split; [done|]]]]].
  - split; [done|]. split; [rewrite Hvs in Hlv; rewrite !length_app in *; simpl; lia|]. split.
    + apply StronglySorted_app. split; [|split; [done|]].
      * intros x y Hx [->|Hy]%elem_of_cons; [by apply Hlt|by apply Hs12].
      * constructor; [done|]. by apply Forall_forall.
    + apply Forall_app in Hr as [Hr1 Hr2]. apply Forall_app. split; [done|]. by constructor.
  - assert (Hz1 : zip (ks1 ++ s :: ks2) (vs1 ++ v :: vs2) = zip ks1 vs1 ++ (s, v) :: zip ks2 vs2) by (by rewrite zip_with_app).
    assert (Hz2 : zip (ks1 ++ ks2) vs = zip ks1 vs1 ++ zip ks2 vs2) by (rewrite Hvs; by rewrite zip_with_app).
    rewrite Hz1, Hz2. solve_Permutation.
Qed.

Lemma insert_split_ok h f lo hi id ks1 ks2 cs1 q cs2 s v m L1 L2 : insert_spec h f ->
  wf_childs (node_ok h) lo hi (ks1 ++ ks2) (cs1 ++ q :: cs2) -> length cs1 = length ks1 -> length cs2 = length ks2 ->
  GetKeyNum q = MAX_KEY_NUM -> (length (ks1 ++ ks2) < MAX_KEY_NUM)%nat ->
  in_range lo hi s -> below s ks1 -> above s ks2 -> chain m (L1 ++ all_ids (cs1 ++ q :: cs2) ++ L2) ->
  let i := length ks1 in
  wpM (let! '(q', ret, ks', cs') := Split q (ks1 ++ ks2) (cs1 ++ q :: cs2) i in
       let! _ := after_split ret in
       let! tmp := liftM (ks' !! i) in
       if compare s tmp <? 0
       then let! '(ok, q'') := insert_down f q' s v in retM (ok, SIIntlNode id ks' (<[i := q'']> cs'))
       else let! '(ok, r') := insert_down f ret s v in retM (ok, SIIntlNode id ks' (<[Datatypes.S i := r']> cs'))) m
    (fun r m' => wf (Datatypes.S h) lo hi r.2 /\ GetKeyNum r.2 = Datatypes.S (length (ks1 ++ ks2)) /\
      chain m' (L1 ++ leaf_ids r.2 ++ L2) /\ height_ m' = height_ m /\
      ins_effect s v r.1 (all_entries (cs1 ++ q :: cs2)) (entries r.2)).
Proof.
  intros IH H Hl1 Hl2 Hq Hm Hr Hb Ha Hch i. subst i. apply wpM_bind.
  destruct (pick h lo hi ks1 ks2 cs1 q cs2 s H Hl1 Hr Hb Ha) as ([Hw Hsz]&Hr'&Hn1&Hn2&Hrep).
  destruct (wf_focus (node_ok h) (node_ok_range h) lo hi ks1 [] ks2 cs1 [q] cs2) as (_&_&_&Hfoc); [done|done|done|].
  rewrite ids_context in Hch.
  eapply wpM_mono, (split_chain_ok h _ _ q m _ _ ks1 ks2 cs1 cs2 Hw); [|done..].
  intros [[[q' ret] ks'] cs'] m1 Hsp. apply wpM_bind. eapply wpM_mono; [|exact Hsp].
  intros _ m2 (k&->&->&Hwk&Hnq&Hnr&He&Hch2&Hh2). simpl.
  assert (HE : all_entries (cs1 ++ q :: cs2) = all_entries (cs1 ++ q' :: ret :: cs2)).
  { rewrite !all_entries_app, !all_entries_cons, <- He. by rewrite <- app_assoc. }
  assert (HL : chain m2 (L1 ++ all_ids (cs1 ++ q' :: ret :: cs2) ++ L2)).
  { rewrite ids_context, all_ids_cons. apps Hch2. }
  pose proof (Hfoc [k] [q'; ret] Hwk) as Hnew. simpl in Hnew. rewrite HE.
  assert (HN : length (ks1 ++ k :: ks2) = Datatypes.S (length (ks1 ++ ks2))) by (rewrite !length_app; simpl; lia).
  apply wpM_bind. eapply wpM_lift; [by apply list_lookup_middle|].
  destruct (Z.ltb_spec (compare s k) 0) as [Hc|Hc]; apply wpM_bind.
  - eapply wpM_mono, (insert_child h f lo hi ks1 (k :: ks2) cs1 q' (ret :: cs2) s v m2 L1 L2 IH); [|done..|by constructor|done].
    intros [ok q''] m3 (H1&H2&H3&H4). simpl in *. apply wpM_ret. rewrite insert_middle by done. by rewrite H3, Hh2.
  - rewrite (cons_middle k ks1 ks2), (app_assoc ks1), (cons_middle q' cs1 (ret :: cs2)), (app_assoc cs1).
    rewrite (cons_middle k ks1 ks2), (app_assoc ks1), (cons_middle q' cs1 (ret :: cs2)), (app_assoc cs1) in Hnew.
    rewrite (cons_middle q' cs1 (ret :: cs2)), (app_assoc cs1) in HL. rewrite (cons_middle k ks1 ks2), (app_assoc ks1) in HN.
    eapply wpM_mono, (insert_child h f lo hi (ks1 ++ [k]) ks2 (cs1 ++ [q']) ret cs2 s v m2 L1 L2 IH);
      [|done|rewrite !length_app; simpl; lia|done|done| |done|done].
    + intros [ok r'] m3 (H1&H2&H3&H4). simpl in *. apply wpM_ret. simpl.
      rewrite insert_middle by (rewrite length_app; simpl; lia). by rewrite H3, Hh2.
    + apply Forall_app. split; [done|]. repeat constructor. apply sle_not. unfold slt. lia.
Qed.

Lemma insert_down_ok h f : (h <= f)%nat -> insert_spec h f.
Proof.
  revert f. induction h as [|h IH]; intros f Hf lo hi p s v m L1 L2 Hw Hn Hr Hch; [done|].
  destruct f as [|f]; [lia|]. destruct p as [id ks vs|id ks cs]; unfold GetKeyNum in Hn; simpl in Hn.
  { assert (h = O) as -> by (by destruct Hw as [? _]). by apply insert_leaf_ok. }
  assert (Hwc : wf_childs (node_ok h) lo hi ks cs) by exact Hw.
  assert (IHf : insert_spec h f) by (apply IH; lia).
  destruct (descend h lo hi ks cs s Hwc) as (ks1&ks2&cs1&q&cs2&->&->&Hl1&Hl2&Hf1&Hq&Hb&Ha).
  simpl. apply wpM_bind. eapply wpM_lift; [exact Hf1|]. apply wpM_bind. eapply wpM_lift; [exact Hq|].
  assert (Hsz : sized q) by (destruct (pick h lo hi ks1 ks2 cs1 q cs2 s Hwc Hl1 Hr Hb Ha) as ([_ ?]&_); done).
  destruct (Nat.eqb_spec (GetKeyNum q) MAX_KEY_NUM) as [E|E].
  - eapply wpM_mono, (insert_split_ok h f lo hi id ks1 ks2 cs1 q cs2 s v m L1 L2); [|done..].
    intros [ok p'] m' (H1&H2&H3&H4&H5). simpl in H2. unfold GetKeyNum in *. simpl in *. by split_and!; [|lia|lia|..].
  - apply wpM_bind. eapply wpM_mono, (insert_child h f lo hi ks1 ks2 cs1 q cs2 s v m L1 L2 IHf); [|done|done|unfold sized in Hsz; lia|done..].
    intros [ok q'] m' (H1&H2&H3&H4). simpl in *. apply wpM_ret. simpl. rewrite insert_middle by done.
    unfold GetKeyNum. simpl. by split_and!; [|lia|lia|..].
Qed.
