(* ===== verification/SITreeRemove.v ===== *)
(** * The tree from strings to ids: removal

    [Coalesce] unites two neighbours or moves one element between them; in both
    cases the two nodes are joined into one sequence and, in the second case, cut
    again.  [remove_down] takes one entry out of the tree. *)

From stdpp Require Import strings.
From S2P Require Import Prelude SITree SITreeSpec SITreeOps.

(** ** Joining and cutting *)

Lemma leaf_join lo hi fk ida idb ka va kb vb :
  wf_childs (node_ok 1) lo hi [fk] [SILeafNode ida ka va; SILeafNode idb kb vb] ->
  StronglySorted slt (ka ++ kb) /\ Forall (in_range lo hi) (ka ++ kb) /\ length va = length ka /\ length vb = length kb /\
  zip (ka ++ kb) (va ++ vb) = zip ka va ++ zip kb vb.
Proof.
  intros (Hlo&Hhi&[(_&Hla&Hsa&Hra) _]&[(_&Hlb&Hsb&Hrb) _]). rewrite Forall_forall in Hra, Hrb. split; [|split; [|split; [done|split; [done|]]]].
  - apply StronglySorted_app. split; [|done]. intros x y Hx Hy. destruct (Hra x Hx) as [_ H1], (Hrb y Hy) as [H2 _]. simpl in *. sord.
  - apply Forall_app. rewrite !Forall_forall. split; intros x Hx; [specialize (Hra x Hx)|specialize (Hrb x Hx)]; bounds.
  - by apply zip_with_app.
Qed.

Lemma leaf_cut lo hi ida idb k1 v1 k k2 v2 : StronglySorted slt (k1 ++ k :: k2) -> Forall (in_range lo hi) (k1 ++ k :: k2) ->
  length v1 = length k1 -> length v2 = Datatypes.S (length k2) ->
  sized (SILeafNode ida k1 v1) -> sized (SILeafNode idb (k :: k2) v2) ->
  wf_childs (node_ok 1) lo hi [k] [SILeafNode ida k1 v1; SILeafNode idb (k :: k2) v2].
Proof.
  intros Hs Hr H1 H2 Hz1 Hz2. destruct (sorted_cut _ _ _ _ _ Hs Hr) as (Ha&Hb&Hc&Hd). apply StronglySorted_app in Hs as (_&Hs1&Hs2).
  split; [done|]. split; [done|]. split; [by split; [split_and!|]|]. by split; [split_and!|].
Qed.

Lemma intl_join h lo hi fk ida idb ka ca kb cb :
  wf_childs (node_ok (Datatypes.S h)) lo hi [fk] [SIIntlNode ida ka ca; SIIntlNode idb kb cb] ->
  wf_childs (node_ok h) lo hi (ka ++ fk :: kb) (ca ++ cb) /\ length ca = Datatypes.S (length ka) /\ length cb = Datatypes.S (length kb) /\
  lo_le lo fk /\ le_hi fk hi /\ Forall (fun k => sle k fk) ka /\ Forall (sle fk) kb.
Proof.
  intros (Hlo&Hhi&[Ha _]&[Hb _]). assert (Ha' : wf_childs (node_ok h) lo (Some fk) ka ca) by exact Ha.
  assert (Hb' : wf_childs (node_ok h) (Some fk) hi kb cb) by exact Hb.
  pose proof (wf_childs_length _ _ _ _ _ Ha') as Hl. pose proof (wf_childs_length _ _ _ _ _ Hb') as Hl'.
  split; [by apply wf_childs_app|]. split_and!; try done.
  - apply wf_childs_keys in Ha' as [_ H]. eapply Forall_impl; [exact H|]. by intros x [_ ?].
  - apply wf_childs_keys in Hb' as [_ H]. eapply Forall_impl; [exact H|]. by intros x [? _].
Qed.

Lemma intl_cut h lo hi ida idb k1 c1 k k2 c2 : wf_childs (node_ok h) lo hi (k1 ++ k :: k2) (c1 ++ c2) ->
  length c1 = Datatypes.S (length k1) -> sized (SIIntlNode ida k1 c1) -> sized (SIIntlNode idb k2 c2) ->
  wf_childs (node_ok (Datatypes.S h)) lo hi [k] [SIIntlNode ida k1 c1; SIIntlNode idb k2 c2].
Proof. intros H Hl H1 H2. apply wf_childs_app in H as (Ha&Hb&Hc&Hd); [|done]. by split_and!. Qed.

(** ** [Coalesce] *)

Lemma pair_focus h lo hi ks1 fk ks2 cs1 a b cs2 : wf_childs (node_ok h) lo hi (ks1 ++ fk :: ks2) (cs1 ++ a :: b :: cs2) ->
  length cs1 = length ks1 ->
  wf_childs (node_ok h) (lob lo ks1) (hib ks2 hi) [fk] [a; b] /\
  (forall k' a' b', wf_childs (node_ok h) (lob lo ks1) (hib ks2 hi) [k'] [a'; b'] ->
     wf_childs (node_ok h) lo hi (ks1 ++ k' :: ks2) (cs1 ++ a' :: b' :: cs2)) /\
  (forall c, node_ok h (lob lo ks1) (hib ks2 hi) c -> wf_childs (node_ok h) lo hi (ks1 ++ ks2) (cs1 ++ c :: cs2)).
Proof.
  intros H Hl. destruct (wf_focus (node_ok h) (node_ok_range h) lo hi ks1 [fk] ks2 cs1 [a; b] cs2) as (H1&_&_&H2); [done..|].
  split; [done|]. split; [intros k' a' b' Hn; by apply (H2 [k'] [a'; b'])|]. intros c Hc. by apply (H2 [] [c]).
Qed.

(** What [Coalesce] leaves to its caller; the ends of the chain are repaired
    later. *)
Record co_ok (h : nat) (lo hi : option string) (s : string) (pks : list string) (pcs : list SINode) (m : Mem) (L1 L2 : list nat)
    (q' : SINode) (pks' : list string) (pcs' : list SINode) (k : nat) (ret : option SINode) (m' : Mem) : Prop := mk_co_ok {
  co_shape : exists ks1 ks2 cs1 cs2, pks' = ks1 ++ ks2 /\ pcs' = cs1 ++ q' :: cs2 /\ length cs1 = length ks1 /\
    length cs2 = length ks2 /\ k = length ks1 /\ below s ks1 /\ above s ks2 /\
    (L1 ++ all_ids cs1 <> [] \/ isLeaf q' = false -> head (L1 ++ all_ids pcs' ++ L2) = head (L1 ++ all_ids pcs ++ L2)) /\
    (all_ids cs2 ++ L2 <> [] \/ isLeaf q' = false -> last (L1 ++ all_ids pcs' ++ L2) = last (L1 ++ all_ids pcs ++ L2));
  co_wf : wf_childs (node_ok h) lo hi pks' pcs';
  co_num : (MIN_CHILD_NUM <= GetKeyNum q')%nat;
  co_entries : all_entries pcs' = all_entries pcs;
  co_len : (length pks' <= length pks <= Datatypes.S (length pks'))%nat;
  co_links : links m' (L1 ++ all_ids pcs' ++ L2);
  co_ends : same_ends m m';
  co_ret n x : ret = Some n -> isLeaf n = true -> x ∈ leaf_ids n -> x ∉ L1 ++ all_ids pcs' ++ L2 }.

Definition co_post h lo hi s pks pcs m L1 L2 (r : coalesced) (m' : Mem) : Prop :=
  let '(q', pks', pcs', k, ret) := r in co_ok h lo hi s pks pcs m L1 L2 q' pks' pcs' k ret m'.

Section Context.
Context (h : nat) (lo hi : option string) (s : string) (ks1 : list string) (fk : string) (ks2 : list string).
Context (cs1 : list SINode) (a b : SINode) (cs2 : list SINode) (m : Mem) (L1 L2 : list nat).
Abbreviation pks := (ks1 ++ fk :: ks2).
Abbreviation pcs := (cs1 ++ a :: b :: cs2).
Context (Hw : wf_childs (node_ok h) lo hi pks pcs) (Hl1 : length cs1 = length ks1) (Hl2 : length cs2 = length ks2).
Context (Hb1 : below s ks1) (Ha2 : above s ks2).

(** One element moved: the separator and both nodes change. *)
Lemma move_ok k' a' b' m' : wf_childs (node_ok h) (lob lo ks1) (hib ks2 hi) [k'] [a'; b'] ->
  entries a' ++ entries b' = entries a ++ entries b -> leaf_ids a' ++ leaf_ids b' = leaf_ids a ++ leaf_ids b ->
  links m (L1 ++ all_ids pcs ++ L2) -> m' = m ->
  (slt s k' -> (MIN_CHILD_NUM <= GetKeyNum a')%nat ->
   co_ok h lo hi s pks pcs m L1 L2 a' (ks1 ++ k' :: ks2) (cs1 ++ a' :: b' :: cs2) (length ks1) None m') /\
  (sle k' s -> (MIN_CHILD_NUM <= GetKeyNum b')%nat ->
   co_ok h lo hi s pks pcs m L1 L2 b' (ks1 ++ k' :: ks2) (cs1 ++ a' :: b' :: cs2) (Datatypes.S (length ks1)) None m').
Proof using Hw Hl1 Hl2 Hb1 Ha2.
  intros Hn He Hi Hlk ->. destruct (pair_focus _ _ _ _ _ _ _ _ _ _ Hw Hl1) as (_&Hrep&_).
  assert (HE : all_entries (cs1 ++ a' :: b' :: cs2) = all_entries pcs).
  { rewrite !all_entries_app, !all_entries_cons. rewrite !(app_assoc (entries _)). by rewrite He. }
  assert (HI : all_ids (cs1 ++ a' :: b' :: cs2) = all_ids pcs).
  { rewrite !all_ids_app, !all_ids_cons. rewrite !(app_assoc (leaf_ids _)). by rewrite Hi. }
  assert (HN : length (ks1 ++ k' :: ks2) = length pks) by (by rewrite !length_app).
  split; intros Hs Hq; split; rewrite ?HE, ?HI, ?HN; try done; try (by apply Hrep); try lia.
  - exists ks1, (k' :: ks2), cs1, (b' :: cs2). split_and!; try done; [simpl; lia|by constructor].
  - exists (ks1 ++ [k']), ks2, (cs1 ++ [a']), cs2. rewrite <- !app_assoc, !length_app. split_and!; try done; simpl; try lia.
    apply Forall_app. split; [done|]. by repeat constructor.
Qed.

(** Two nodes united. *)
Lemma unite_ok c ret m' : node_ok h (lob lo ks1) (hib ks2 hi) c -> entries c = entries a ++ entries b ->
  (MIN_CHILD_NUM <= GetKeyNum c)%nat -> links m' (L1 ++ all_ids (cs1 ++ c :: cs2) ++ L2) -> same_ends m m' ->
  (L1 ++ all_ids cs1 <> [] \/ isLeaf c = false -> head (L1 ++ all_ids (cs1 ++ c :: cs2) ++ L2) = head (L1 ++ all_ids pcs ++ L2)) ->
  (all_ids cs2 ++ L2 <> [] \/ isLeaf c = false -> last (L1 ++ all_ids (cs1 ++ c :: cs2) ++ L2) = last (L1 ++ all_ids pcs ++ L2)) ->
  (forall n x, ret = Some n -> isLeaf n = true -> x ∈ leaf_ids n -> x ∉ L1 ++ all_ids (cs1 ++ c :: cs2) ++ L2) ->
  co_ok h lo hi s pks pcs m L1 L2 c (ks1 ++ ks2) (cs1 ++ c :: cs2) (length ks1) ret m'.
Proof using Hw Hl1 Hl2 Hb1 Ha2.
  intros Hc He Hn Hlk Hs Hhd Htl Hr. destruct (pair_focus _ _ _ _ _ _ _ _ _ _ Hw Hl1) as (_&_&Hrep). split; try done.
  - by exists ks1, ks2, cs1, cs2.
  - by apply Hrep.
  - rewrite !all_entries_app, !all_entries_cons, He. by rewrite <- app_assoc.
  - rewrite !length_app. simpl. lia.
Qed.
End Context.

Lemma sub_at_app {A} (l1 l2 : list A) x n : n = length l1 -> sub_at n (l1 ++ x :: l2) = Some (l1 ++ l2).
Proof.
  intros ->. unfold sub_at. rewrite length_app. simpl. rewrite (proj2 (Nat.ltb_lt _ _)) by lia.
  by rewrite delete_middle.
Qed.
Lemma cap_ok {A} n (l : list A) : (length l <= n)%nat -> cap n l = Some l.
Proof. intros H. unfold cap. by rewrite (proj2 (Nat.leb_le _ _)). Qed.
Lemma addKey_end k ks : (length ks < MAX_KEY_NUM)%nat -> addKey k (length ks) ks = Some (ks ++ [k]).
Proof. intros H. pose proof (addKey_app k ks []) as E. rewrite app_nil_r in E. by apply E. Qed.
Lemma AddValue_end v vs : (length vs < MAX_KEY_NUM)%nat -> AddValue v (length vs) vs = Some (vs ++ [v]).
Proof. intros H. pose proof (AddValue_app v vs []) as E. rewrite app_nil_r in E. by apply E. Qed.
Lemma AddChild_end c cs : (length cs <= MAX_CHILD_NUM)%nat -> AddChild c (length cs) cs = Some (cs ++ [c]).
Proof. intros H. pose proof (AddChild_app c cs []) as E. rewrite app_nil_r in E. by apply E. Qed.
Lemma addKey_front k ks : (length ks < MAX_KEY_NUM)%nat -> addKey k 0 ks = Some (k :: ks).
Proof. apply (addKey_app k [] ks). Qed.
Lemma AddValue_front v vs : (length vs < MAX_KEY_NUM)%nat -> AddValue v 0 vs = Some (v :: vs).
Proof. apply (AddValue_app v [] vs). Qed.
Lemma AddChild_front c cs : (length cs <= MAX_CHILD_NUM)%nat -> AddChild c 0 cs = Some (c :: cs).
Proof. apply (AddChild_app c [] cs). Qed.
Lemma lookup_second {A} (l1 l2 : list A) x y n : n = length l1 -> (l1 ++ x :: y :: l2) !! (n + 1)%nat = Some y.
Proof. intros ->. rewrite lookup_app_r by lia. by replace (length l1 + 1 - length l1)%nat with 1%nat by lia. Qed.
Lemma insert_second {A} (l1 l2 : list A) x y z n : n = length l1 -> <[(n + 1)%nat := z]> (l1 ++ x :: y :: l2) = l1 ++ x :: z :: l2.
Proof. intros ->. rewrite insert_app_r_alt by lia. by replace (length l1 + 1 - length l1)%nat with 1%nat by lia. Qed.

Lemma sub_at_second {A} (l1 l2 : list A) x y n : n = length l1 -> sub_at (n + 1) (l1 ++ x :: y :: l2) = Some (l1 ++ x :: l2).
Proof.
  intros ->. rewrite (cons_middle x l1 (y :: l2)), (app_assoc l1), (cons_middle x l1 l2), (app_assoc l1).
  apply sub_at_app. rewrite length_app. simpl. lia.
Qed.

(** A step of the code that cannot fail. *)
Ltac step H := apply wpM_bind; eapply wpM_lift; [exact H|].
Ltac steps := apply wpM_bind; eapply wpM_lift; [first [done | by apply cap_ok | by apply addKey_end | by apply AddValue_end
  | by apply AddChild_end | by apply addKey_front | by apply AddValue_front | by apply AddChild_front | by apply sub_at_app]|].

Lemma leaf_ids_pair L1 cs1 ida ka va idb kb vb cs2 L2 :
  L1 ++ all_ids (cs1 ++ SILeafNode ida ka va :: SILeafNode idb kb vb :: cs2) ++ L2 = (L1 ++ all_ids cs1) ++ ida :: idb :: (all_ids cs2 ++ L2).
Proof. by rewrite ids_context. Qed.

Lemma leaf_co_right lo hi s ks1 fk ks2 cs1 ida ka va idb kb vb cs2 m L1 L2 c :
  let pks := ks1 ++ fk :: ks2 in let pcs := cs1 ++ SILeafNode ida ka va :: SILeafNode idb kb vb :: cs2 in
  wf_childs (node_ok 1) lo hi pks pcs -> length cs1 = length ks1 -> length cs2 = length ks2 ->
  below s ks1 -> above s ks2 -> links m (L1 ++ all_ids pcs ++ L2) ->
  coalesce_case pcs (length pks) (length ks1) = Some c ->
  (c = 1%nat /\ (length kb <= MIN_KEY_NUM)%nat \/ c = 2%nat /\ (MIN_KEY_NUM < length kb)%nat) ->
  (length ka < MIN_CHILD_NUM)%nat -> slt s fk ->
  wpM (leaf_Coalesce ida ka va pks pcs (length ks1)) m (co_post 1 lo hi s pks pcs m L1 L2).
Proof.
  intros pks pcs Hw Hl1 Hl2 Hb1 Ha2 Hlk Hc Hcc Hka Hs. unfold pks, pcs in *. clear pks pcs. destruct (pair_focus _ _ _ _ _ _ _ _ _ _ Hw Hl1) as (Hp&_&_).
  destruct (leaf_join _ _ _ _ _ _ _ _ _ Hp) as (Hso&Hra&Hva&Hvb&Hz). pose proof Hp as (_&_&[_ Hsa]&[Hwb Hsb]).
  unfold sized, GetKeyNum in Hsa, Hsb. cbn [getKeys] in Hsa, Hsb.
  pose proof (lookup_second cs1 cs2 (SILeafNode ida ka va) (SILeafNode idb kb vb) _ (eq_sym Hl1)) as Hnb.
  unfold leaf_Coalesce. step Hc. destruct Hcc as [[-> Hkb]|[-> Hkb]]; step Hnb.
  - apply wpM_bind. eapply wpM_lift; [apply cap_ok; rewrite length_app; knum|].
    apply wpM_bind. eapply wpM_lift; [apply cap_ok; rewrite length_app; knum|]. steps.
    rewrite insert_middle by done. apply wpM_bind. eapply wpM_lift; [by apply sub_at_second|]. apply wpM_bind. rewrite leaf_ids_pair in Hlk. eapply wpM_mono, cut_right_ok, Hlk.
    intros _ m' (Hlk'&Hse&Hni). apply wpM_ret. rewrite <- app_assoc in Hlk', Hni. simpl in *.
    set (c := SILeafNode ida (ka ++ kb) (va ++ vb)).
    assert (HI : L1 ++ all_ids (cs1 ++ c :: cs2) ++ L2 = L1 ++ all_ids cs1 ++ ida :: all_ids cs2 ++ L2).
    { rewrite ids_context. by rewrite <- app_assoc. }
    pose proof (leaf_ids_pair L1 cs1 ida ka va idb kb vb cs2 L2) as HI0. rewrite <- app_assoc in HI0.
    apply unite_ok; try done; rewrite ?HI, ?HI0; try done.
    + split; [split_and!; try done; rewrite !length_app; lia|]. unfold sized, GetKeyNum. simpl. rewrite length_app. knum.
    + unfold GetKeyNum. simpl. rewrite length_app. knum.
    + intros _. destruct L1; [|done]. by destruct (all_ids cs1).
    + intros [Hne|?]; [|done]. destruct (all_ids cs2 ++ L2) as [|y Y]; [done|].
      rewrite !app_assoc, !last_app_cons. by rewrite !last_cons_cons.
    + intros n x [= <-] _ Hx. apply list_elem_of_singleton in Hx as ->. done.
  - destruct kb as [|k0 [|k1 kb]]; simpl in Hkb; [knum|knum|]. destruct vb as [|v0 vb]; [done|].
    steps. steps. steps. apply wpM_bind. eapply wpM_lift; [apply addKey_end; knum|].
    apply wpM_bind. eapply wpM_lift; [rewrite <- Hva; apply AddValue_end; rewrite Hva; knum|].
    apply wpM_bind. eapply wpM_lift; [by apply (sub_at_app [])|]. apply wpM_bind. eapply wpM_lift; [by apply (sub_at_app [])|].
    apply wpM_ret. simpl. rewrite insert_second, !insert_middle by done.
    eapply move_ok; try done.
    + apply leaf_cut.
      * by rewrite <- app_assoc.
      * by rewrite <- app_assoc.
      * rewrite !length_app. simpl. lia.
      * by simplify_eq/=.
      * unfold sized, GetKeyNum. simpl in *. rewrite length_app. simpl. knum.
      * unfold sized, GetKeyNum. simpl in *. knum.
    + simpl. rewrite zip_with_app by done. by rewrite <- app_assoc.
    + destruct Hwb as (_&_&Hsb'&Hrb). apply StronglySorted_inv in Hsb' as [_ Hsb']. apply Forall_inv in Hsb'.
      apply Forall_inv in Hrb as [Hrb _]. simpl in *. sord.
    + unfold GetKeyNum. simpl. rewrite length_app. simpl. knum.
Qed.

Lemma insert_next {A} (l1 l2 : list A) x y z n : n = length l1 -> <[Datatypes.S n := z]> (l1 ++ x :: y :: l2) = l1 ++ x :: z :: l2.
Proof. intros ->. rewrite <- (Nat.add_1_r (length l1)). by apply insert_second. Qed.

Lemma leaf_co_left lo hi s ks1 fk ks2 cs1 ida ka va idb kb vb cs2 m L1 L2 c :
  let pks := ks1 ++ fk :: ks2 in let pcs := cs1 ++ SILeafNode ida ka va :: SILeafNode idb kb vb :: cs2 in
  wf_childs (node_ok 1) lo hi pks pcs -> length cs1 = length ks1 -> length cs2 = length ks2 ->
  below s ks1 -> above s ks2 -> links m (L1 ++ all_ids pcs ++ L2) ->
  coalesce_case pcs (length pks) (Datatypes.S (length ks1)) = Some c ->
  (c = 3%nat /\ (length ka <= MIN_KEY_NUM)%nat \/ c = 4%nat /\ (MIN_KEY_NUM < length ka)%nat) ->
  (length kb < MIN_CHILD_NUM)%nat -> sle fk s ->
  wpM (leaf_Coalesce idb kb vb pks pcs (Datatypes.S (length ks1))) m (co_post 1 lo hi s pks pcs m L1 L2).
Proof.
  intros pks pcs Hw Hl1 Hl2 Hb1 Ha2 Hlk Hc Hcc Hkb Hs. unfold pks, pcs in *. clear pks pcs.
  destruct (pair_focus _ _ _ _ _ _ _ _ _ _ Hw Hl1) as (Hp&_&_).
  destruct (leaf_join _ _ _ _ _ _ _ _ _ Hp) as (Hso&Hra&Hva&Hvb&Hz). pose proof Hp as (_&_&[Hwa Hsa]&[_ Hsb]).
  unfold sized, GetKeyNum in Hsa, Hsb. cbn [getKeys] in Hsa, Hsb.
  pose proof (list_lookup_middle cs1 (SILeafNode idb kb vb :: cs2) (SILeafNode ida ka va) _ (eq_sym Hl1)) as Hnb.
  unfold leaf_Coalesce. step Hc. cbn [Nat.sub]. rewrite Nat.sub_0_r. destruct Hcc as [[-> Hka]|[-> Hka]]; step Hnb.
  - apply wpM_bind. eapply wpM_lift; [apply cap_ok; rewrite length_app; knum|].
    apply wpM_bind. eapply wpM_lift; [apply cap_ok; rewrite length_app; knum|]. steps.
    rewrite insert_next by done. steps. apply wpM_bind. rewrite leaf_ids_pair in Hlk. eapply wpM_mono, cut_left_ok, Hlk.
    intros _ m' (Hlk'&Hse&Hni). apply wpM_ret. rewrite <- app_assoc in Hlk', Hni. simpl in *.
    set (c := SILeafNode idb (ka ++ kb) (va ++ vb)).
    assert (HI : L1 ++ all_ids (cs1 ++ c :: cs2) ++ L2 = L1 ++ all_ids cs1 ++ idb :: all_ids cs2 ++ L2).
    { rewrite ids_context. by rewrite <- app_assoc. }
    pose proof (leaf_ids_pair L1 cs1 ida ka va idb kb vb cs2 L2) as HI0. rewrite <- app_assoc in HI0.
    apply unite_ok; try done; rewrite ?HI, ?HI0; try done.
    + split; [split_and!; try done; rewrite !length_app; lia|]. unfold sized, GetKeyNum. simpl. rewrite length_app. knum.
    + unfold GetKeyNum. simpl. rewrite length_app. knum.
    + intros [Hne|?]; [|done]. rewrite !(app_assoc L1). by destruct (L1 ++ all_ids cs1).
    + intros _. rewrite !app_assoc, !last_app_cons. by rewrite !last_cons_cons.
    + intros n x [= <-] _ Hx. apply list_elem_of_singleton in Hx as ->. done.
  - destruct ka as [|k ka _] using rev_ind; [simpl in Hka; knum|]. rewrite length_app in Hka, Hsa, Hva. simpl in Hka, Hsa, Hva.
    destruct va as [|v va _] using rev_ind; [simpl in Hva; lia|]. rewrite length_app in Hva. simpl in Hva.
    assert (Hva' : length va = length ka) by lia. rewrite length_app. cbn [length]. replace (length ka + 1 - 1)%nat with (length ka) by lia.
    apply wpM_bind. eapply wpM_lift; [by apply list_lookup_middle|].
    apply wpM_bind. eapply wpM_lift; [by apply list_lookup_middle|].
    apply wpM_bind. eapply wpM_lift; [apply addKey_front; knum|].
    apply wpM_bind. eapply wpM_lift; [apply AddValue_front; rewrite Hvb; knum|].
    steps. apply wpM_bind. eapply wpM_lift; [by apply sub_at_app|].
    apply wpM_ret. simpl. rewrite (insert_middle cs1), insert_next, (insert_middle ks1) by done. rewrite !app_nil_r.
    rewrite <- app_assoc in Hso, Hra. simpl in Hso, Hra.
    eapply move_ok; try done.
    + apply leaf_cut; try done; unfold sized, GetKeyNum; simpl; try lia; knum.
    + simpl. rewrite zip_with_app by done. by rewrite <- app_assoc.
    + destruct Hwa as (_&_&_&Hr). apply Forall_app in Hr as [_ Hr]. apply Forall_inv in Hr as [_ Hr]. simpl in Hr. sord.
    + unfold GetKeyNum. simpl. knum.
Qed.

Lemma intl_pair_eq ida ka ca idb kb cb : entries (SIIntlNode ida ka ca) ++ entries (SIIntlNode idb kb cb) = all_entries (ca ++ cb) /\
  leaf_ids (SIIntlNode ida ka ca) ++ leaf_ids (SIIntlNode idb kb cb) = all_ids (ca ++ cb).
Proof. by rewrite all_entries_app, all_ids_app. Qed.

(** United inner nodes have the leaves of both. *)
Lemma intl_ids_pair L1 cs1 ida ka ca idb kb cb cs2 L2 c : leaf_ids c = all_ids (ca ++ cb) ->
  L1 ++ all_ids (cs1 ++ c :: cs2) ++ L2 = L1 ++ all_ids (cs1 ++ SIIntlNode ida ka ca :: SIIntlNode idb kb cb :: cs2) ++ L2.
Proof.
  intros Hc. rewrite !all_ids_app, !all_ids_cons, Hc, <- (proj2 (intl_pair_eq ida ka ca idb kb cb)). by rewrite <- !app_assoc.
Qed.

Lemma intl_co_right h lo hi s ks1 fk ks2 cs1 ida ka ca idb kb cb cs2 m L1 L2 c :
  let pks := ks1 ++ fk :: ks2 in let pcs := cs1 ++ SIIntlNode ida ka ca :: SIIntlNode idb kb cb :: cs2 in
  wf_childs (node_ok (Datatypes.S h)) lo hi pks pcs -> length cs1 = length ks1 -> length cs2 = length ks2 ->
  below s ks1 -> above s ks2 -> links m (L1 ++ all_ids pcs ++ L2) ->
  coalesce_case pcs (length pks) (length ks1) = Some c ->
  (c = 1%nat /\ (length kb <= MIN_KEY_NUM)%nat \/ c = 2%nat /\ (MIN_KEY_NUM < length kb)%nat) ->
  (length ka < MIN_CHILD_NUM)%nat -> slt s fk ->
  wpM (intl_Coalesce ida ka ca pks pcs (length ks1)) m (co_post (Datatypes.S h) lo hi s pks pcs m L1 L2).
Proof.
  intros pks pcs Hw Hl1 Hl2 Hb1 Ha2 Hlk Hc Hcc Hka Hs. unfold pks, pcs in *. clear pks pcs.
  destruct (pair_focus _ _ _ _ _ _ _ _ _ _ Hw Hl1) as (Hp&_&_). pose proof Hp as (_&_&[_ Hsa]&[_ Hsb]).
  destruct (intl_join _ _ _ _ _ _ _ _ _ _ Hp) as (Hj&Hca&Hcb&_&_&_&Hfk).
  unfold sized, GetKeyNum in Hsa, Hsb. cbn [getKeys] in Hsa, Hsb.
  pose proof (lookup_second cs1 cs2 (SIIntlNode ida ka ca) (SIIntlNode idb kb cb) _ (eq_sym Hl1)) as Hnb.
  destruct (intl_pair_eq ida ka ca idb kb cb) as [He Hi].
  unfold intl_Coalesce. step Hc. destruct Hcc as [[-> Hkb]|[-> Hkb]]; step Hnb.
  - apply wpM_bind. eapply wpM_lift; [by apply list_lookup_middle|].
    apply wpM_bind. eapply wpM_lift; [apply cap_ok; rewrite length_app; simpl; knum|].
    apply wpM_bind. eapply wpM_lift; [apply cap_ok; rewrite length_app; knum|]. steps.
    rewrite insert_middle by done. apply wpM_bind. eapply wpM_lift; [by apply sub_at_second|].
    apply wpM_ret. set (c := SIIntlNode ida (ka ++ fk :: kb) (ca ++ cb)).
    pose proof (intl_ids_pair L1 cs1 ida ka ca idb kb cb cs2 L2 c eq_refl) as HI.
    apply unite_ok; try done; rewrite ?HI; try done.
    + split; [exact Hj|]. unfold sized, GetKeyNum. simpl. rewrite length_app. simpl. knum.
    + unfold GetKeyNum. simpl. rewrite length_app. simpl. knum.
    + by intros n x [= <-].
  - destruct kb as [|k0 kb]; simpl in Hkb; [knum|]. destruct cb as [|c0 cb]; [done|].
    apply wpM_bind. eapply wpM_lift; [by apply list_lookup_middle|]. steps. steps.
    apply wpM_bind. eapply wpM_lift; [apply addKey_end; knum|].
    apply wpM_bind. eapply wpM_lift; [rewrite Nat.add_1_r, <- Hca; apply AddChild_end; rewrite Hca; knum|].
    apply wpM_bind. eapply wpM_lift; [by apply (sub_at_app [])|]. apply wpM_bind. eapply wpM_lift; [by apply (sub_at_app [])|].
    apply wpM_ret. simpl. rewrite insert_second, !insert_middle by done.
    destruct (intl_pair_eq ida (ka ++ [fk]) (ca ++ [c0]) idb kb cb) as [He' Hi'].
    eapply move_ok; try done.
    + apply intl_cut.
      * by rewrite <- !app_assoc.
      * rewrite !length_app. simpl. lia.
      * unfold sized, GetKeyNum. simpl in *. rewrite length_app. simpl. knum.
      * unfold sized, GetKeyNum. simpl in *. knum.
    + rewrite He, He'. by rewrite <- app_assoc.
    + rewrite Hi, Hi'. by rewrite <- app_assoc.
    + apply Forall_inv in Hfk. sord.
    + unfold GetKeyNum. simpl. rewrite length_app. simpl. knum.
Qed.

Lemma intl_co_left h lo hi s ks1 fk ks2 cs1 ida ka ca idb kb cb cs2 m L1 L2 c :
  let pks := ks1 ++ fk :: ks2 in let pcs := cs1 ++ SIIntlNode ida ka ca :: SIIntlNode idb kb cb :: cs2 in
  wf_childs (node_ok (Datatypes.S h)) lo hi pks pcs -> length cs1 = length ks1 -> length cs2 = length ks2 ->
  below s ks1 -> above s ks2 -> links m (L1 ++ all_ids pcs ++ L2) ->
  coalesce_case pcs (length pks) (Datatypes.S (length ks1)) = Some c ->
  (c = 3%nat /\ (length ka <= MIN_KEY_NUM)%nat \/ c = 4%nat /\ (MIN_KEY_NUM < length ka)%nat) ->
  (length kb < MIN_CHILD_NUM)%nat -> sle fk s ->
  wpM (intl_Coalesce idb kb cb pks pcs (Datatypes.S (length ks1))) m (co_post (Datatypes.S h) lo hi s pks pcs m L1 L2).
Proof.
  intros pks pcs Hw Hl1 Hl2 Hb1 Ha2 Hlk Hc Hcc Hkb Hs. unfold pks, pcs in *. clear pks pcs.
  destruct (pair_focus _ _ _ _ _ _ _ _ _ _ Hw Hl1) as (Hp&_&_). pose proof Hp as (_&_&[_ Hsa]&[_ Hsb]).
  destruct (intl_join _ _ _ _ _ _ _ _ _ _ Hp) as (Hj&Hca&Hcb&_&_&Hfk&_).
  unfold sized, GetKeyNum in Hsa, Hsb. cbn [getKeys] in Hsa, Hsb.
  pose proof (list_lookup_middle cs1 (SIIntlNode idb kb cb :: cs2) (SIIntlNode ida ka ca) _ (eq_sym Hl1)) as Hnb.
  destruct (intl_pair_eq ida ka ca idb kb cb) as [He Hi].
  unfold intl_Coalesce. step Hc. cbn [Nat.sub]. rewrite Nat.sub_0_r. destruct Hcc as [[-> Hka]|[-> Hka]]; step Hnb.
  - apply wpM_bind. eapply wpM_lift; [by apply list_lookup_middle|].
    apply wpM_bind. eapply wpM_lift; [apply cap_ok; rewrite length_app; simpl; knum|].
    apply wpM_bind. eapply wpM_lift; [apply cap_ok; rewrite length_app; knum|]. steps.
    rewrite insert_next by done. steps.
    apply wpM_ret. set (c := SIIntlNode idb (ka ++ fk :: kb) (ca ++ cb)).
    pose proof (intl_ids_pair L1 cs1 ida ka ca idb kb cb cs2 L2 c eq_refl) as HI.
    apply unite_ok; try done; rewrite ?HI; try done.
    + split; [exact Hj|]. unfold sized, GetKeyNum. simpl. rewrite length_app. simpl. knum.
    + unfold GetKeyNum. simpl. rewrite length_app. simpl. knum.
    + by intros n x [= <-].
  - destruct ka as [|k ka _] using rev_ind; [simpl in Hka; knum|]. rewrite length_app in Hka, Hsa, Hca. simpl in Hka, Hsa, Hca.
    destruct ca as [|ck ca _] using rev_ind; [simpl in Hca; lia|]. rewrite length_app in Hca. simpl in Hca.
    assert (Hca' : length ca = Datatypes.S (length ka)) by lia. rewrite length_app. cbn [length]. replace (length ka + 1 - 1)%nat with (length ka) by lia.
    apply wpM_bind. eapply wpM_lift; [by apply list_lookup_middle|].
    apply wpM_bind. eapply wpM_lift; [by apply list_lookup_middle|].
    apply wpM_bind. eapply wpM_lift; [apply list_lookup_middle; lia|].
    apply wpM_bind. eapply wpM_lift; [apply addKey_front; knum|].
    apply wpM_bind. eapply wpM_lift; [apply AddChild_front; rewrite Hcb; knum|].
    steps. apply wpM_bind. eapply wpM_lift; [apply sub_at_app; lia|].
    apply wpM_ret. simpl. rewrite (insert_middle cs1), insert_next, (insert_middle ks1) by done. rewrite !app_nil_r.
    destruct (intl_pair_eq ida ka ca idb (fk :: kb) (ck :: cb)) as [He' Hi'].
    eapply move_ok; try done.
    + apply intl_cut; try done.
      * by rewrite <- !app_assoc in Hj.
      * unfold sized, GetKeyNum. simpl. knum.
      * unfold sized, GetKeyNum. simpl. knum.
    + rewrite He, He'. by rewrite <- app_assoc.
    + rewrite Hi, Hi'. by rewrite <- app_assoc.
    + apply Forall_app in Hfk as [_ Hfk]. apply Forall_inv in Hfk. sord.
    + unfold GetKeyNum. simpl. knum.
Qed.

Lemma wf_leaf h lo hi id ks vs : wf h lo hi (SILeafNode id ks vs) -> h = 1%nat.
Proof. destruct h as [|h]; [done|]. by intros [-> _]. Qed.
Lemma wf_intl h lo hi id ks cs : wf h lo hi (SIIntlNode id ks cs) -> exists h', h = Datatypes.S (Datatypes.S h').
Proof.
  destruct h as [|[|h]]; [done| |by exists h]. simpl. intros H. destruct ks, cs as [|c [|]]; try done; destruct H; try done.
  - by destruct H0 as (_&[? _]&_).
  - by destruct H0 as (_&[? _]&_).
Qed.

Lemma co_right h lo hi s ks1 fk ks2 cs1 a b cs2 m L1 L2 c :
  let pks := ks1 ++ fk :: ks2 in let pcs := cs1 ++ a :: b :: cs2 in
  wf_childs (node_ok h) lo hi pks pcs -> length cs1 = length ks1 -> length cs2 = length ks2 ->
  below s ks1 -> above s ks2 -> links m (L1 ++ all_ids pcs ++ L2) ->
  coalesce_case pcs (length pks) (length ks1) = Some c ->
  (c = 1%nat /\ (GetKeyNum b <= MIN_KEY_NUM)%nat \/ c = 2%nat /\ (MIN_KEY_NUM < GetKeyNum b)%nat) ->
  (GetKeyNum a < MIN_CHILD_NUM)%nat -> slt s fk ->
  wpM (Coalesce a pks pcs (length ks1)) m (co_post h lo hi s pks pcs m L1 L2).
Proof.
  intros pks pcs Hw Hl1 Hl2. destruct (pair_focus _ _ _ _ _ _ _ _ _ _ Hw Hl1) as ((_&_&[Ha _]&[Hb _])&_&_).
  destruct a as [ida ka va|ida ka ca], b as [idb kb vb|idb kb cb].
  - apply wf_leaf in Ha as ->. intros. by eapply leaf_co_right.
  - apply wf_leaf in Ha as ->. by apply wf_intl in Hb as (?&?).
  - apply wf_leaf in Hb as ->. by apply wf_intl in Ha as (?&?).
  - apply wf_intl in Ha as (h'&->). intros. by eapply intl_co_right.
Qed.

Lemma co_left h lo hi s ks1 fk ks2 cs1 a b cs2 m L1 L2 c :
  let pks := ks1 ++ fk :: ks2 in let pcs := cs1 ++ a :: b :: cs2 in
  wf_childs (node_ok h) lo hi pks pcs -> length cs1 = length ks1 -> length cs2 = length ks2 ->
  below s ks1 -> above s ks2 -> links m (L1 ++ all_ids pcs ++ L2) ->
  coalesce_case pcs (length pks) (Datatypes.S (length ks1)) = Some c ->
  (c = 3%nat /\ (GetKeyNum a <= MIN_KEY_NUM)%nat \/ c = 4%nat /\ (MIN_KEY_NUM < GetKeyNum a)%nat) ->
  (GetKeyNum b < MIN_CHILD_NUM)%nat -> sle fk s ->
  wpM (Coalesce b pks pcs (Datatypes.S (length ks1))) m (co_post h lo hi s pks pcs m L1 L2).
Proof.
  intros pks pcs Hw Hl1 Hl2. destruct (pair_focus _ _ _ _ _ _ _ _ _ _ Hw Hl1) as ((_&_&[Ha _]&[Hb _])&_&_).
  destruct a as [ida ka va|ida ka ca], b as [idb kb vb|idb kb cb].
  - apply wf_leaf in Ha as ->. intros. by eapply leaf_co_left.
  - apply wf_leaf in Ha as ->. by apply wf_intl in Hb as (?&?).
  - apply wf_leaf in Hb as ->. by apply wf_intl in Ha as (?&?).
  - apply wf_intl in Ha as (h'&->). intros. by eapply intl_co_left.
Qed.

(** The case that the sizes of the neighbours select. *)
Lemma case_right (fk : string) ks1 ks2 cs1 a b cs2 : length cs1 = length ks1 ->
  coalesce_case (cs1 ++ a :: b :: cs2) (length (ks1 ++ fk :: ks2)) (length ks1) =
  Some (if (MIN_KEY_NUM <? GetKeyNum b)%nat then 2
        else match last cs1 with Some tp => if (MIN_KEY_NUM <? GetKeyNum tp)%nat then 4 else 1 | None => 1 end)%nat.
Proof.
  intros Hl. unfold coalesce_case.
  assert (E : (length ks1 <? length (ks1 ++ fk :: ks2))%nat = true) by (apply Nat.ltb_lt; rewrite length_app; simpl; lia). rewrite E.
  rewrite lookup_second by done. simpl. destruct cs1 as [|tp cs1 _] using rev_ind.
  { destruct ks1; [|done]. simpl. by destruct (_ <? _)%nat. }
  rewrite last_snoc. rewrite length_app in Hl. simpl in Hl.
  assert (E' : (0 <? length ks1)%nat = true) by (apply Nat.ltb_lt; lia). rewrite E', <- app_assoc. cbn [app]. rewrite list_lookup_middle by lia. simpl.
  by destruct (MIN_KEY_NUM <? GetKeyNum b)%nat, (MIN_KEY_NUM <? GetKeyNum tp)%nat.
Qed.
Lemma case_left (fk : string) ks1 cs1 a b : length cs1 = length ks1 ->
  coalesce_case (cs1 ++ [a; b]) (length (ks1 ++ [fk] : list string)) (Datatypes.S (length ks1)) =
  Some (if (MIN_KEY_NUM <? GetKeyNum a)%nat then 4 else 3)%nat.
Proof.
  intros Hl. unfold coalesce_case.
  assert (E : (Datatypes.S (length ks1) <? length (ks1 ++ [fk]))%nat = false) by (apply Nat.ltb_ge; rewrite length_app; simpl; lia). rewrite E.
  simpl. rewrite Nat.sub_0_r, list_lookup_middle by lia. simpl. by destruct (_ <? _)%nat.
Qed.

Lemma Coalesce_ok h lo hi s ks1 ks2 cs1 q cs2 m L1 L2 :
  let pks := ks1 ++ ks2 in let pcs := cs1 ++ q :: cs2 in
  wf_childs (node_ok h) lo hi pks pcs -> length cs1 = length ks1 -> length cs2 = length ks2 ->
  below s ks1 -> above s ks2 -> links m (L1 ++ all_ids pcs ++ L2) ->
  (GetKeyNum q < MIN_CHILD_NUM)%nat -> pks <> [] ->
  wpM (Coalesce q pks pcs (length ks1)) m (co_post h lo hi s pks pcs m L1 L2).
Proof.
  intros pks pcs Hw Hl1 Hl2 Hb Ha Hlk Hq Hne. unfold pks, pcs in *. clear pks pcs.
  (* the left neighbour *)
  assert (Hleft : forall ks1' fk cs1' tp c, ks1 = ks1' ++ [fk] -> cs1 = cs1' ++ [tp] ->
    coalesce_case (cs1 ++ q :: cs2) (length (ks1 ++ ks2)) (length ks1) = Some c ->
    (c = 3%nat /\ (GetKeyNum tp <= MIN_KEY_NUM)%nat \/ c = 4%nat /\ (MIN_KEY_NUM < GetKeyNum tp)%nat) ->
    wpM (Coalesce q (ks1 ++ ks2) (cs1 ++ q :: cs2) (length ks1)) m (co_post h lo hi s (ks1 ++ ks2) (cs1 ++ q :: cs2) m L1 L2)).
  { intros ks1' fk cs1' tp c -> -> Hc Hcc. rewrite <- !(app_assoc _ _ ks2), <- !(app_assoc _ _ (q :: cs2)) in *. simpl in *.
    rewrite !length_app in Hl1. simpl in Hl1. apply Forall_app in Hb as [Hb Hfk]. apply Forall_inv in Hfk.
    assert (El : length (ks1' ++ [fk]) = Datatypes.S (length ks1')) by (rewrite length_app; simpl; lia). rewrite El in *.
    eapply co_left; try done. lia. }
  destruct ks2 as [|fk ks2].
  - destruct cs2; [|done]. destruct ks1 as [|fk ks1 _] using rev_ind; [done|]. destruct cs1 as [|tp cs1 _] using rev_ind; [rewrite length_app in Hl1; simpl in Hl1; lia|].
    rewrite !length_app in Hl1. simpl in Hl1. pose proof (case_left fk ks1 cs1 tp q ltac:(lia)) as Hc.
    eapply Hleft; [done|done| |].
    + rewrite app_nil_r, <- (app_assoc cs1), (length_app ks1 [fk]) at 1. rewrite length_app, Nat.add_1_r in *. exact Hc.
    + destruct (Nat.ltb_spec MIN_KEY_NUM (GetKeyNum tp)); [by right|by left].
  - destruct cs2 as [|b cs2]; [done|]. pose proof (case_right fk ks1 ks2 cs1 q b cs2 Hl1) as Hc.
    apply Forall_cons in Ha as [Hfk Ha].
    destruct (Nat.ltb_spec MIN_KEY_NUM (GetKeyNum b)).
    { eapply co_right; [done|done|by injection Hl2|done|done|done|exact Hc|by right|done|done]. }
    destruct cs1 as [|tp cs1 _] using rev_ind.
    { eapply co_right; [done|done|by injection Hl2|done|done|done|exact Hc|by left|done|done]. }
    rewrite last_snoc in Hc. destruct (Nat.ltb_spec MIN_KEY_NUM (GetKeyNum tp)).
    + destruct ks1 as [|fk' ks1 _] using rev_ind; [rewrite length_app in Hl1; simpl in Hl1; lia|]. eapply Hleft; [done|done|exact Hc|by right].
    + eapply co_right; [done|done|by injection Hl2|done|done|done|exact Hc|by left|done|done].
Qed.

(** The repairs of the chain that follow [Coalesce]. *)
Lemma co_chain h lo hi s pks pcs m L1 L2 q' pks' pcs' k ret m' :
  co_ok h lo hi s pks pcs m L1 L2 q' pks' pcs' k ret m' -> chain m (L1 ++ all_ids pcs ++ L2) ->
  wpM (let! _ := when_some ret unlink in fix_ends q') m' (fun _ m'' =>
    chain m'' (L1 ++ all_ids pcs' ++ L2) /\ height_ m'' = height_ m).
Proof.
  intros [Hsh Hw Hn He Hl Hlk (Hs1&Hs2&Hs3) Hr] (_&Hhd&Htl).
  destruct Hsh as (ks1&ks2&cs1&cs2&->&->&H1&H2&Hk&Hb&Ha&Hh&Ht).
  assert (Hq : exists lo hi, wf h lo hi q').
  { destruct (wf_focus (node_ok h) (node_ok_range h) lo hi ks1 [] ks2 cs1 [q'] cs2) as ([? _]&_); [done..|]. eauto. }
  destruct Hq as (?&?&Hq). apply wf_ids_nonempty in Hq.
  assert (Hfix : forall m1, links m1 (L1 ++ all_ids (cs1 ++ q' :: cs2) ++ L2) -> same_ends m' m1 ->
    wpM (fix_ends q') m1 (fun _ m'' => chain m'' (L1 ++ all_ids (cs1 ++ q' :: cs2) ++ L2) /\ height_ m'' = height_ m)).
  { intros m1 Hl1 (E1&E2&E3). rewrite ids_context in Hl1, Hh, Ht |- *. eapply wpM_mono, (fix_ends_ok m1); [|done|done|..].
    - intros _ m'' [Hc He']. split; [done|]. by rewrite He', E1, Hs1.
    - intros Hc. rewrite E2, Hs2, Hhd. symmetry. by apply Hh.
    - intros Hc. rewrite E3, Hs3, Htl. symmetry. by apply Ht. }
  apply wpM_bind. destruct ret as [n|]; simpl.
  - eapply wpM_mono, (unlink_ok m' _ n Hlk); [|intros y Hy Hn'; by eapply Hr].
    intros _ m1 [Hl1 He1]. by apply Hfix.
  - by apply Hfix.
Qed.

(** ** [Remove] *)

Definition rem_effect (s : string) (ok : bool) (E E' : list (string * Z)) : Prop :=
  if decide (s ∈ E.*1) then ok = true /\ exists v, E ≡ₚ (s, v) :: E' else ok = false /\ E' = E.

Lemma rem_effect_frame s ok E1 E E' E2 : s ∉ E1.*1 -> s ∉ E2.*1 ->
  rem_effect s ok E E' -> rem_effect s ok (E1 ++ E ++ E2) (E1 ++ E' ++ E2).
Proof.
  intros H1 H2. unfold rem_effect. rewrite !fmap_app. destruct (decide (s ∈ E.*1)) as [Hin|Hin].
  - rewrite decide_True by set_solver. intros [-> [v Hv]]. split; [done|]. exists v. rewrite Hv. solve_Permutation.
  - rewrite decide_False by set_solver. by intros [-> ->].
Qed.

Definition remove_spec (h f : nat) : Prop := forall lo hi p s m L1 L2,
  wf h lo hi p -> (MIN_CHILD_NUM <= GetKeyNum p <= MAX_KEY_NUM)%nat -> in_range lo hi s -> chain m (L1 ++ leaf_ids p ++ L2) ->
  wpM (remove_down f p s) m (fun r m' => exists p', r.2 = Stays p' /\ node_ok h lo hi p' /\
    chain m' (L1 ++ leaf_ids p' ++ L2) /\ height_ m' = height_ m /\ rem_effect s r.1 (entries p) (entries p')).

Lemma remove_child h f lo hi ks1 ks2 cs1 c cs2 s m L1 L2 : remove_spec h f ->
  wf_childs (node_ok h) lo hi (ks1 ++ ks2) (cs1 ++ c :: cs2) -> length cs1 = length ks1 ->
  (MIN_CHILD_NUM <= GetKeyNum c)%nat -> in_range lo hi s -> below s ks1 -> above s ks2 ->
  chain m (L1 ++ all_ids (cs1 ++ c :: cs2) ++ L2) ->
  wpM (remove_down f c s) m (fun r m' => exists c', r.2 = Stays c' /\ sized c' /\
    wf_childs (node_ok h) lo hi (ks1 ++ ks2) (cs1 ++ c' :: cs2) /\ chain m' (L1 ++ all_ids (cs1 ++ c' :: cs2) ++ L2) /\
    height_ m' = height_ m /\ rem_effect s r.1 (all_entries (cs1 ++ c :: cs2)) (all_entries (cs1 ++ c' :: cs2))).
Proof.
  intros IH H Hl Hc Hr Hb Ha Hch. destruct (pick h lo hi ks1 ks2 cs1 c cs2 s H Hl Hr Hb Ha) as ([Hw Hsz]&Hr'&Hn1&Hn2&Hrep).
  rewrite ids_context in Hch.
  eapply wpM_mono, (IH _ _ c s m (L1 ++ all_ids cs1) (all_ids cs2 ++ L2)); [|done|unfold sized in Hsz; lia|done|done].
  intros [ok o] m' (c'&->&Hok&Hch'&Hh&He). exists c'. split; [done|]. split; [by destruct Hok|]. split; [by apply Hrep|].
  split; [by rewrite ids_context|]. split; [done|]. rewrite !all_entries_app, !all_entries_cons. by apply rem_effect_frame.
Qed.

(** An inner node that is not without keys: it stays, or it loses its only key and
    its child takes its place. *)
Lemma remove_intl h f lo hi id ks cs s m L1 L2 : remove_spec h f ->
  wf_childs (node_ok h) lo hi ks cs -> ks <> [] -> in_range lo hi s -> chain m (L1 ++ all_ids cs ++ L2) ->
  wpM (remove_down (Datatypes.S f) (SIIntlNode id ks cs) s) m (fun r m' =>
    (exists ks' cs', r.2 = Stays (SIIntlNode id ks' cs') /\ wf_childs (node_ok h) lo hi ks' cs' /\ ks' <> [] /\
       (length ks' <= length ks <= Datatypes.S (length ks'))%nat /\ chain m' (L1 ++ all_ids cs' ++ L2) /\
       height_ m' = height_ m /\ rem_effect s r.1 (all_entries cs) (all_entries cs')) \/
    (exists q, r.2 = NewRoot q /\ length ks = 1%nat /\ node_ok h lo hi q /\ chain m' (L1 ++ leaf_ids q ++ L2) /\
       height_ m' = (height_ m ⊟ 1) /\ rem_effect s r.1 (all_entries cs) (entries q))).
Proof.
  intros IH Hw Hne Hr Hch. destruct (descend h lo hi ks cs s Hw) as (ks1&ks2&cs1&q&cs2&->&->&Hl1&Hl2&Hf1&Hq&Hb&Ha).
  simpl. step Hf1. step Hq. destruct (Nat.ltb_spec (GetKeyNum q) MIN_CHILD_NUM) as [Hc|Hc].
  - apply wpM_bind. eapply wpM_mono, (Coalesce_ok h lo hi s ks1 ks2 cs1 q cs2 m L1 L2); [|done..|by destruct Hch|done|done].
    intros [[[[q' ks'] cs'] k] ret] m1 Hco. pose proof (co_chain _ _ _ _ _ _ _ _ _ _ _ _ _ _ _ Hco Hch) as Hcc.
    apply wpM_bind. apply wpM_inv in Hcc as ([]&m2&Hrun&Hch2&Hh2).
    unfold bindM in Hrun. destruct (when_some ret unlink m1) as [[[] m1']|] eqn:E1; [|done]. simpl in Hrun.
    unfold wpM at 1. rewrite E1. simpl. apply wpM_bind. unfold wpM at 1. rewrite Hrun. simpl.
    destruct Hco as [Hsh Hw' Hn He Hlen _ _ _]. destruct Hsh as (ks1'&ks2'&cs1'&cs2'&->&->&H1&H2&->&Hb'&Ha'&_&_).
    pose proof (remove_child h f lo hi ks1' ks2' cs1' q' cs2' s) as Hrc.
    destruct (Nat.eqb_spec (length (ks1' ++ ks2')) 0) as [E|E].
    + assert (ks1' = [] /\ ks2' = []) as [-> ->] by (apply app_nil, length_zero_iff_nil; done).
      destruct cs1'; [|done]. destruct cs2'; [|done]. apply wpM_bind. apply wpM_bind.
      eapply wpM_mono, (Hrc _ L1 L2 IH); [|done..]. intros [ok o] m3 (c'&Ho&Hsz&Hwc&Hch3&Hh3&Hef). simpl in Ho. subst o. apply wpM_ret. right. exists c'.
      simpl in *. rewrite all_ids_cons, app_nil_r in Hch3. unfold all_entries in *. simpl in *. rewrite !app_nil_r in *. rewrite He in Hef.
      assert (Hk : length (ks1 ++ ks2) = 1%nat) by (destruct (ks1 ++ ks2); [done|simpl in *; lia]).
      by rewrite Hh2 in Hh3.
    + apply wpM_bind. eapply wpM_mono, (Hrc _ L1 L2 IH); [|done..].
      intros [ok o] m3 (c'&Ho&Hsz&Hwc&Hch3&Hh3&Hef). simpl in Ho. subst o. apply wpM_ret. left. exists (ks1' ++ ks2'), (cs1' ++ c' :: cs2').
      rewrite insert_middle by done. rewrite He in Hef. split_and!; try done; [by destruct (ks1' ++ ks2')|lia|lia|by rewrite Hh3, Hh2].
  - apply wpM_bind. eapply wpM_mono, (remove_child h f lo hi ks1 ks2 cs1 q cs2 s m L1 L2 IH); [|done..].
    intros [ok o] m3 (c'&Ho&Hsz&Hwc&Hch3&Hh3&Hef). simpl in Ho. subst o. apply wpM_ret. left. exists (ks1 ++ ks2), (cs1 ++ c' :: cs2).
    rewrite insert_middle by done. split_and!; try done; lia.
Qed.

Lemma leaf_found ks s : StronglySorted slt ks ->
  if decide (s ∈ ks) then exists ks1 ks2, ks = ks1 ++ s :: ks2 /\ searchKey_equal ks s = Some (length ks1)
  else searchKey_equal ks s = Some (length ks).
Proof.
  intros Hs. destruct (searchKey_less_ok ks s (sorted_slt_sle _ Hs)) as (ks1&ks2&->&Hf&Hb&Ha).
  destruct (key_before_ok ks1 ks2 s Hs Hb Ha) as [Hk Hin]. unfold searchKey_equal. rewrite Hf. simpl. rewrite Hk. simpl.
  case_decide as Hd.
  - destruct (Hin Hd) as [ks0 ->]. exists ks0, ks2. rewrite bool_decide_eq_true_2 by done. rewrite <- app_assoc.
    split; [done|]. rewrite length_app, Nat.add_1_r. done.
  - by rewrite bool_decide_eq_false_2.
Qed.

Lemma remove_leaf f lo hi id ks vs s m L1 L2 :
  wf 1 lo hi (SILeafNode id ks vs) -> chain m (L1 ++ id :: L2) ->
  wpM (remove_down (Datatypes.S f) (SILeafNode id ks vs) s) m (fun r m' =>
    (exists ks' vs', r.2 = Stays (SILeafNode id ks' vs') /\ wf 1 lo hi (SILeafNode id ks' vs') /\ (ks <> [] -> ks' <> []) /\
       (length ks' <= length ks <= Datatypes.S (length ks'))%nat /\ m' = m /\ rem_effect s r.1 (zip ks vs) (zip ks' vs')) \/
    (exists v, r = (true, NoRoot) /\ ks = [s] /\ vs = [v] /\ height_ m' = 0 /\ leaves_head_ m' = None /\ leaves_tail_ m' = None)).
Proof.
  intros (_&Hlv&Hs&Hr) Hch. pose proof (leaf_found ks s Hs) as Hf. simpl.
  assert (Hz : (zip ks vs).*1 = ks) by (apply fst_zip; lia).
  destruct (decide (s ∈ ks)) as [Hin|Hin].
  2:{ step Hf. rewrite Nat.eqb_refl. apply wpM_ret. left. exists ks, vs. unfold rem_effect. rewrite Hz, decide_False by done. split_and!; (done || lia). }
  destruct Hf as (ks1&ks2&->&Hf). step Hf.
  assert (E : (length ks1 =? length (ks1 ++ s :: ks2))%nat = false) by (apply Nat.eqb_neq; rewrite length_app; simpl; lia).
  rewrite E. rewrite length_app in Hlv. simpl in Hlv.
  destruct (lookup_lt_is_Some_2 vs (length ks1)) as [v Hv]; [lia|].
  set (vs1 := take (length ks1) vs). set (vs2 := drop (Datatypes.S (length ks1)) vs).
  assert (Hvs : vs = vs1 ++ v :: vs2) by (symmetry; by apply take_drop_middle).
  assert (Hl1 : length vs1 = length ks1) by (unfold vs1; rewrite length_take; lia).
  assert (Hl2 : length vs2 = length ks2) by (unfold vs2; rewrite length_drop; lia).
  clearbody vs1 vs2. subst vs. steps. apply wpM_bind. eapply wpM_lift; [by apply sub_at_app|].
  unfold GetKeyNum. cbn [getKeys]. destruct (Nat.eqb_spec (length (ks1 ++ ks2)) 0) as [E0|E0].
  { assert (ks1 = [] /\ ks2 = []) as [-> ->] by (apply app_nil, length_zero_iff_nil; done).
    destruct vs1; [|done]. destruct vs2; [|done]. right. by exists v. }
  apply wpM_ret. left. exists (ks1 ++ ks2), (vs1 ++ vs2). split; [done|].
  assert (Hz1 : zip (ks1 ++ s :: ks2) (vs1 ++ v :: vs2) = zip ks1 vs1 ++ (s, v) :: zip ks2 vs2) by (by rewrite zip_with_app).
  assert (Hz2 : zip (ks1 ++ ks2) (vs1 ++ vs2) = zip ks1 vs1 ++ zip ks2 vs2) by (by rewrite zip_with_app).
  apply StronglySorted_app in Hs as (Hs12&Hs1&Hs2). apply Forall_app in Hr as [Hr1 Hr2]. apply Forall_cons in Hr2 as [_ Hr2].
  apply StronglySorted_inv in Hs2 as [Hs2 _]. split; [|split_and!].
  - split; [done|]. split; [rewrite !length_app; lia|]. split; [|by apply Forall_app].
    apply StronglySorted_app. split; [|done]. intros x y Hx Hy. apply Hs12; [done|by right].
  - intros _ ?%length_zero_iff_nil. done.
  - rewrite !length_app. simpl. lia.
  - rewrite !length_app. simpl. lia.
  - done.
  - unfold rem_effect. rewrite Hz, decide_True by done. split; [done|]. exists v. rewrite Hz1, Hz2. solve_Permutation.
Qed.

Lemma remove_down_ok h f : (h <= f)%nat -> remove_spec h f.
Proof.
  revert f. induction h as [|h IH]; intros f Hf lo hi p s m L1 L2 Hw Hn Hr Hch; [done|].
  destruct f as [|f]; [lia|]. destruct p as [id ks vs|id ks cs]; unfold GetKeyNum in Hn; simpl in Hn.
  - assert (h = O) as -> by (by destruct Hw as [? _]). eapply wpM_mono, remove_leaf; [|done|exact Hch].
    intros [ok o] m' [(ks'&vs'&Ho&Hw'&_&Hl&->&He)|(v&_&->&_)]; [|simpl in Hn; knum].
    exists (SILeafNode id ks' vs'). split_and!; try done. split; [done|]. unfold sized, GetKeyNum. simpl. knum.
  - assert (Hne : ks <> []) by (intros ->; simpl in Hn; knum).
    eapply wpM_mono, (remove_intl h f lo hi id ks cs s m L1 L2); [|apply IH; lia|exact Hw|done|done|exact Hch].
    intros [ok o] m' [(ks'&cs'&Ho&Hw'&Hne'&Hl&Hch'&Hh&He)|(q&_&Hl&_)]; [|knum].
    exists (SIIntlNode id ks' cs'). split_and!; try done. split; [done|]. unfold sized, GetKeyNum. simpl. knum.
Qed.
