(* ===== verification/SITreeTheorems.v ===== *)
(** * The tree from strings to ids: what it promises

    In every state the tree reaches from an empty one it is a balanced B+ tree
    whose leaves are chained in order, its operations are those of a finite map
    from non-empty strings to words, and its height stays small.  The tree is an
    implementation of [StrIndex], so the theorems on the database hold for the
    database over trees and arrays. *)

From stdpp Require Import strings.
From S2P Require Import Prelude Util ValueStore KVstore TripleSet Names SITree SITreeSpec SITreeOps SITreeRemove.

(** ** The invariant and the contents *)

Definition root_entries (t : SITree) : list (string * Z) := match root_ t with Some r => entries r | None => [] end.
Definition tree_view (t : SITree) : gmap string Z := list_to_map (root_entries t).

Definition root_inv (h : nat) (r : SINode) (m : Mem) : Prop :=
  wf h None None r /\ (GetKeyNum r <= MAX_KEY_NUM)%nat /\ (isLeaf r = false -> 0 < GetKeyNum r)%nat /\
  chain m (leaf_ids r) /\ height_ m = u32 (Z.of_nat h).

Definition tree_inv (t : SITree) : Prop :=
  match root_ t with
  | None => height_ (mem t) = 0 /\ leaves_head_ (mem t) = None /\ leaves_tail_ (mem t) = None
  | Some r => (exists h, root_inv h r (mem t)) /\ (0 < GetKeyNum r)%nat
  end /\ EmptyString ∉ (root_entries t).*1.

Lemma chain_root m r : chain m (leaf_ids r) <-> chain m ([] ++ leaf_ids r ++ []).
Proof. simpl. by rewrite app_nil_r. Qed.

Lemma full_range s : in_range None None s.
Proof. done. Qed.

Lemma wf_NoDup h lo hi n : wf h lo hi n -> NoDup (entries n).*1.
Proof.
  intros H. destruct (wf_entries _ _ _ _ H) as [_ Hs]. induction Hs as [|x l Hs IH Hx]; constructor; [|done].
  intros Hin. rewrite Forall_forall in Hx. by apply (slt_irrefl x), Hx.
Qed.

Lemma root_NoDup t : tree_inv t -> NoDup (root_entries t).*1.
Proof.
  intros [H _]. unfold root_entries. destruct (root_ t) as [r|]; [|constructor]. destruct H as [(h&Hw&_) _]. by eapply wf_NoDup.
Qed.

Lemma view_in t s : tree_inv t -> s ∈ (root_entries t).*1 <-> is_Some (tree_view t !! s).
Proof.
  intros H. unfold tree_view. split.
  - intros Hs. apply not_eq_None_Some. intros Hn. by apply not_elem_of_list_to_map in Hn.
  - intros [v Hv]. apply elem_of_list_to_map_2 in Hv. by apply (list_elem_of_fmap_2' fst _ (s, v)).
Qed.

(** ** [Insert] *)

Lemma split_root_ok h r m : root_inv h r m ->
  wpM (split_root r) m (fun r' m' => (exists h', root_inv h' r' m') /\ (GetKeyNum r' < MAX_KEY_NUM)%nat /\
    entries r' = entries r).
Proof.
  intros (Hw&Hn&Hi&Hch&Hh). unfold split_root. destruct (Nat.eqb_spec (GetKeyNum r) MAX_KEY_NUM) as [E|E].
  2:{ apply wpM_ret. split; [by exists h|]. split; [lia|done]. }
  destruct Hch as (Hlk&Hhd&Htl). apply wpM_bind. eapply wpM_mono, links_new, Hlk.
  intros father m1 (Hlk1&(Hs1&Hs2&Hs3)&_). apply wpM_bind.
  assert (Hch1 : chain m1 ([] ++ leaf_ids r ++ [])) by (apply chain_root; split; [done|]; by rewrite Hs2, Hs3).
  eapply wpM_mono, (split_chain_ok h None None r m1 [] [] [] [] [] [] Hw E eq_refl eq_refl); [|simpl; knum|done].
  intros [[[q' ret] ks'] cs'] m2 Hsp. apply wpM_bind. eapply wpM_mono; [|exact Hsp].
  intros _ m3 (k&->&->&Hwk&Hnq&Hnr&He&Hch3&Hh3). apply wpM_bind. apply wpM_ret. simpl in *.
  split; [exists (Datatypes.S h); split; [exact Hwk|]|].
  - unfold GetKeyNum. simpl. split; [knum|]. split; [lia|]. split; [done|]. simpl. rewrite Hh3, Hs1, Hh. unfold u32.
    rewrite Zplus_mod_idemp_l. f_equal. lia.
  - unfold GetKeyNum. simpl. split; [knum|]. by rewrite app_nil_r.
Qed.

Lemma view_insert E E' s (v : Z) : E' ≡ₚ (s, v) :: E -> NoDup E'.*1 ->
  (list_to_map E' : gmap string Z) = <[s := v]> (list_to_map E).
Proof. intros Hp Hnd. rewrite (list_to_map_proper E' ((s, v) :: E)); done. Qed.

Lemma nonempty_length s : String.length s <> 0%nat <-> s <> EmptyString.
Proof. by destruct s. Qed.

Lemma run_on_mem {A} (f : M Mem A) t (Q : A -> Mem -> Prop) : wpM f (mem t) Q ->
  wpM (on_mem f) t (fun a t' => root_ t' = root_ t /\ Q a (mem t')).
Proof. unfold wpM, on_mem. by destruct (f (mem t)) as [[a m]|]. Qed.

Definition map_insert (s : string) (v : Z) (m : gmap string Z) : bool * gmap string Z :=
  if decide (s <> EmptyString /\ m !! s = None) then (true, <[s := v]> m) else (false, m).

Lemma Insert_ok s v t : tree_inv t ->
  wpM (Insert s v) t (fun ok t' => tree_inv t' /\ (ok, tree_view t') = map_insert s v (tree_view t)).
Proof.
  intros Hinv. unfold Insert, map_insert. destruct (Nat.eqb_spec (String.length s) 0) as [E|E].
  { apply wpM_ret. rewrite decide_False; [done|]. intros [H _]. by apply nonempty_length in H. }
  apply nonempty_length in E. apply wpM_bind. apply wpM_ret.
  assert (Hroot : wpM (match root_ t with None => on_mem new_root | Some root => retM root end) t (fun r t' =>
    (exists h, root_inv h r (mem t')) /\ entries r = root_entries t)).
  { destruct Hinv as [Hinv _]. unfold root_entries. destruct (root_ t) as [r|]; [apply wpM_ret; by destruct Hinv as [(h&H) _]; split; [exists h|]|].
    split; [|done]. exists 1%nat. split; [split_and!; try done; constructor|]. split; [unfold GetKeyNum; simpl; lia|].
    split; [done|]. split; [|done]. split; [|done]. split; [by apply NoDup_singleton|]. split; [constructor; [simpl; lia|done]|].
    simpl. by rewrite !lookup_delete_eq. }
  apply wpM_bind. eapply wpM_mono, Hroot. intros r t1 [[h Hr] He]. apply wpM_bind.
  eapply wpM_mono, run_on_mem, (split_root_ok h r); [|done]. intros r2 t2 [_ ([h2 (Hw2&Hn2&Hi2&Hch2&Hh2)]&Hlt&He2)].
  apply wpM_bind. rewrite (wf_depth _ _ _ _ Hw2). eapply wpM_mono, run_on_mem.
  2:{ apply (insert_down_ok h2 h2 (le_n _) None None r2 s v (mem t2) [] []); [done|done|apply full_range|by apply chain_root]. }
  intros [ok r3] t3 [_ (Hw3&Hn3&Hch3&Hh3&Hef)]. apply chain_root in Hch3. simpl in *. rewrite He2, He in Hef.
  unfold wpM, bindM, set_root, retM. simpl. set (t4 := mk_SITree (Some r3) (mem t3)). pose proof (wf_NoDup _ _ _ _ Hw3) as Hnd.
  assert (Hi3 : isLeaf r3 = false -> (0 < GetKeyNum r3)%nat).
  { intros Hl. destruct r3 as [|id ks cs]; [done|]. apply wf_intl in Hw3 as [h' ->].
    destruct r2 as [id2 ks2 vs2|id2 ks2 cs2]; [by apply wf_leaf in Hw2|]. specialize (Hi2 eq_refl). lia. }
  assert (Hr3 : root_inv h2 r3 (mem t3)) by (split_and!; try done; [lia|congruence]).
  assert (Hpos : entries r3 <> [] -> (0 < GetKeyNum r3)%nat).
  { intros Hne. destruct (isLeaf r3) eqn:El; [|by apply Hi3]. destruct r3 as [id [|] vs|]; [done| |done]. unfold GetKeyNum. simpl. lia. }
  assert (Hin : forall x, (exists v, tree_view t !! x = Some v) <-> x ∈ (root_entries t).*1) by (intros x; by rewrite view_in).
  pose proof (root_NoDup t Hinv) as Hndt. unfold ins_effect in Hef. destruct (decide (s ∈ (root_entries t).*1)) as [Hs|Hs].
  - destruct Hef as [-> HE]. apply Hin in Hs as [w Hw]. rewrite decide_False by (intros [_ ?]; congruence).
    assert (Hv : tree_view t4 = tree_view t) by (unfold tree_view, t4, root_entries at 1; simpl; by rewrite HE).
    rewrite Hv. split; [|done]. split; [|unfold root_entries at 1; simpl; rewrite HE; by destruct Hinv].
    split; [by exists h2|]. apply Hpos. rewrite HE. intros E0. unfold tree_view in Hw. rewrite E0 in Hw. done.
  - destruct Hef as [-> HE]. assert (Hnone : tree_view t !! s = None) by (by apply not_elem_of_list_to_map). rewrite decide_True by done.
    split.
    + split; [split; [by exists h2|]|].
      * apply Hpos. intros E0. rewrite E0 in HE. by apply Permutation_nil_cons in HE.
      * unfold root_entries. simpl. rewrite HE. simpl. apply not_elem_of_cons. split; [by destruct s|by destruct Hinv].
    + f_equal. by apply view_insert.
Qed.

(** ** [Remove] *)

Definition map_remove (s : string) (m : gmap string Z) : bool * gmap string Z := (bool_decide (is_Some (m !! s)), delete s m).

Lemma remove_root h r s m : root_inv h r m -> (0 < GetKeyNum r)%nat ->
  wpM (remove_down (depth r) r s) m (fun x m' =>
    match x.2 with
    | Stays p | NewRoot p => (exists h', root_inv h' p m') /\ (0 < GetKeyNum p)%nat /\ rem_effect s x.1 (entries r) (entries p)
    | NoRoot => height_ m' = 0 /\ leaves_head_ m' = None /\ leaves_tail_ m' = None /\ rem_effect s x.1 (entries r) []
    end).
Proof.
  intros (Hw&Hn&Hi&Hch&Hh) Hpos. rewrite (wf_depth _ _ _ _ Hw). apply chain_root in Hch.
  destruct h as [|h]; [done|]. destruct r as [id ks vs|id ks cs]; unfold GetKeyNum in Hn, Hpos; simpl in Hn, Hpos.
  - assert (h = O) as -> by (by destruct Hw as [? _]). eapply wpM_mono, remove_leaf; [|done|exact Hch].
    intros [ok o] m' [(ks'&vs'&Ho&Hw'&Hne&Hl&->&He)|(v&Ho&->&->&H1&H2&H3)].
    + simpl in Ho. subst o. simpl. assert (ks' <> []) by (apply Hne; intros ->; simpl in Hpos; lia).
      split; [exists 1%nat; split_and!; try done; unfold GetKeyNum; simpl; lia|]. split; [|done].
      unfold GetKeyNum. simpl. destruct ks'; [done|simpl; lia].
    + simplify_eq. simpl. split_and!; try done. unfold rem_effect. rewrite decide_True by (by left). split; [done|]. by exists v.
  - assert (Hne : ks <> []) by (intros ->; simpl in Hpos; lia).
    eapply wpM_mono, (remove_intl h h None None id ks cs s m [] []); [|by apply remove_down_ok|exact Hw|done|done|exact Hch].
    intros [ok o] m' [(ks'&cs'&Ho&Hw'&Hne'&Hl&Hch'&Hh'&He)|(q&Ho&Hl&[Hwq Hsz]&Hch'&Hh'&He)]; simpl in Ho; subst o; simpl.
    + assert (0 < length ks')%nat by (destruct ks'; [done|simpl; lia]).
      split; [|by split]. exists (Datatypes.S h). split_and!; try done.
      * unfold GetKeyNum. simpl. lia.
      * by apply chain_root.
      * congruence.
    + unfold sized in Hsz. split; [|split; [knum|done]]. exists h. split_and!; try done.
      * knum.
      * knum.
      * by apply chain_root.
      * rewrite Hh', Hh. unfold u32. rewrite Zminus_mod_idemp_l. f_equal. lia.
Qed.

Lemma view_remove E E' s (v : Z) : E ≡ₚ (s, v) :: E' -> NoDup E.*1 ->
  (list_to_map E' : gmap string Z) = delete s (list_to_map E).
Proof.
  intros Hp Hnd. rewrite (list_to_map_proper E ((s, v) :: E')) by done. simpl. rewrite delete_insert_id; [done|].
  rewrite Hp in Hnd. simpl in Hnd. apply NoDup_cons in Hnd as [Hn _]. by apply not_elem_of_list_to_map.
Qed.

Lemma rem_effect_view s ok E E' : NoDup E.*1 -> rem_effect s ok E E' ->
  (ok, list_to_map E' : gmap string Z) = map_remove s (list_to_map E) /\ forall x, x ∈ E'.*1 -> x ∈ E.*1.
Proof.
  intros Hnd. unfold rem_effect, map_remove. destruct (decide (s ∈ E.*1)) as [Hs|Hs].
  - intros [-> [v Hv]]. split; [|intros x Hx; rewrite Hv; by right]. rewrite bool_decide_eq_true_2.
    + f_equal. by eapply view_remove.
    + apply not_eq_None_Some. intros Hn. by apply not_elem_of_list_to_map in Hn.
  - intros [-> ->]. split; [|done]. apply not_elem_of_list_to_map in Hs.
    rewrite Hs. rewrite bool_decide_eq_false_2 by (by intros [? ?]). by rewrite delete_id.
Qed.

Lemma Remove_ok s t : tree_inv t ->
  wpM (Remove s) t (fun ok t' => tree_inv t' /\ (ok, tree_view t') = map_remove s (tree_view t)).
Proof.
  intros Hinv. unfold Remove.
  assert (Hno : s ∉ (root_entries t).*1 -> (false, tree_view t) = map_remove s (tree_view t)).
  { intros Hn. unfold map_remove. apply not_elem_of_list_to_map in Hn. unfold tree_view. rewrite Hn, delete_id by done.
    by rewrite bool_decide_eq_false_2 by (by intros [? ?]). }
  destruct (Nat.eqb_spec (String.length s) 0) as [E|E].
  { apply wpM_ret. split; [done|]. apply Hno. destruct s; [by destruct Hinv|done]. }
  apply wpM_bind. apply wpM_ret. destruct (root_ t) as [r|] eqn:Hr.
  2:{ apply wpM_ret. split; [done|]. apply Hno. unfold root_entries. rewrite Hr. simpl. apply not_elem_of_nil. }
  pose proof (root_NoDup t Hinv) as Hnd. pose proof Hinv as [Hi Hne]. rewrite Hr in Hi. destruct Hi as [[h Hri] Hpos].
  assert (He : root_entries t = entries r) by (unfold root_entries; by rewrite Hr). unfold tree_view at 2. rewrite He in Hne, Hnd |- *.
  apply wpM_bind. eapply wpM_mono, run_on_mem, (remove_root h r s); [|done|done].
  intros [ok o] t1 [_ Ho]. unfold wpM, bindM, set_root, retM. simpl in Ho |- *.
  destruct o as [p|p|]; simpl in Ho.
  - destruct Ho as (Hroot&Hp&Hef). apply rem_effect_view in Hef as [Hef Hsub]; [|done]. split; [|exact Hef]. split; [done|]. set_solver.
  - destruct Ho as (Hroot&Hp&Hef). apply rem_effect_view in Hef as [Hef Hsub]; [|done]. split; [|exact Hef]. split; [done|]. set_solver.
  - destruct Ho as (H1&H2&H3&Hef). apply rem_effect_view in Hef as [Hef _]; [|done]. split; [|exact Hef]. split; [done|]. simpl. set_solver.
Qed.

(** ** [Search] and [Modify] *)

Lemma lessEqual_ok ks s : StronglySorted slt ks ->
  if decide (s ∈ ks) then exists ks1 ks2, ks = ks1 ++ s :: ks2 /\ searchKey_lessEqual ks s = Some (length ks1)
  else exists i, searchKey_lessEqual ks s = Some i /\ (i <= length ks)%nat.
Proof.
  intros Hs. destruct (searchKey_less_ok ks s (sorted_slt_sle _ Hs)) as (ks1&ks2&->&Hf&Hb&Ha).
  destruct (key_before_ok ks1 ks2 s Hs Hb Ha) as [Hk Hin]. unfold searchKey_lessEqual. rewrite Hf. simpl. rewrite Hk. simpl.
  case_decide as Hd.
  - destruct (Hin Hd) as [ks0 ->]. exists ks0, ks2. rewrite bool_decide_eq_true_2 by done. rewrite <- app_assoc.
    split; [done|]. rewrite length_app, Nat.add_1_r. done.
  - rewrite bool_decide_eq_false_2 by done. exists (length ks1). rewrite length_app. split; [done|lia].
Qed.

Lemma Find_ok f h lo hi p s : wf h lo hi p -> (h <= f)%nat -> in_range lo hi s ->
  exists ks vs o, Find f p s = Some (ks, vs, o) /\
    match o with
    | None => s ∉ (entries p).*1
    | Some i => exists k v, ks !! i = Some k /\ vs !! i = Some v /\ (if decide (k = s) then (s, v) ∈ entries p else s ∉ (entries p).*1)
    end.
Proof.
  revert f lo hi p. induction h as [|h IH]; intros f lo hi p Hw Hf Hr; [done|]. destruct f as [|f]; [lia|].
  destruct p as [id ks vs|id ks cs].
  - destruct Hw as (_&Hl&Hs&_). pose proof (lessEqual_ok ks s Hs) as Hle. simpl. rewrite fst_zip by lia.
    destruct (decide (s ∈ ks)) as [Hin|Hin].
    + destruct Hle as (ks1&ks2&->&->). simpl. exists (ks1 ++ s :: ks2), vs, (Some (length ks1)).
      rewrite length_app in Hl |- *. simpl in Hl |- *. destruct (Nat.eqb_spec (length ks1) (length ks1 + Datatypes.S (length ks2))); [lia|].
      split; [done|]. destruct (lookup_lt_is_Some_2 vs (length ks1)) as [v Hv]; [lia|]. exists s, v.
      rewrite list_lookup_middle by done. split_and!; [done|done|]. rewrite decide_True by done.
      apply list_elem_of_lookup. exists (length ks1). apply lookup_zip_with_Some. exists s, v. by rewrite list_lookup_middle.
    + destruct Hle as (i&->&Hi). simpl. eexists ks, vs, _. split; [done|].
      destruct (Nat.eqb_spec i (length ks)); [done|]. destruct (lookup_lt_is_Some_2 ks i) as [k Hk]; [lia|].
      destruct (lookup_lt_is_Some_2 vs i) as [v Hv]; [lia|]. exists k, v. split_and!; [done|done|].
      rewrite decide_False; [done|]. intros ->. apply Hin. by eapply list_elem_of_lookup_2.
  - assert (Hwc : wf_childs (node_ok h) lo hi ks cs) by exact Hw.
    destruct (descend h lo hi ks cs s Hwc) as (ks1&ks2&cs1&q&cs2&->&->&Hl1&Hl2&Hf1&Hq&Hb&Ha). simpl. rewrite Hf1. simpl. rewrite Hq. simpl.
    destruct (pick h lo hi ks1 ks2 cs1 q cs2 s Hwc Hl1 Hr Hb Ha) as ([Hwq _]&Hr'&Hn1&Hn2&_).
    destruct (IH f _ _ q Hwq ltac:(lia) Hr') as (ks'&vs'&o&->&Ho). exists ks', vs', o. split; [done|].
    fold (all_entries (cs1 ++ q :: cs2)). rewrite all_entries_app, all_entries_cons, !fmap_app.
    destruct o as [i|]; [|set_solver]. destruct Ho as (k&v&Hk&Hv&Ho). exists k, v. split_and!; [done|done|].
    destruct (decide (k = s)); set_solver.
Qed.

Lemma Search_ok s t : tree_inv t -> Search s t = Some (tree_view t !! s, t).
Proof.
  intros Hinv. unfold Search. pose proof (root_NoDup t Hinv) as Hnd.
  assert (Hno : s ∉ (root_entries t).*1 -> tree_view t !! s = None) by (intros Hn; by apply not_elem_of_list_to_map).
  destruct (Nat.eqb_spec (String.length s) 0) as [E|E].
  { rewrite Hno; [done|]. destruct s; [by destruct Hinv|done]. }
  destruct t as [[r|] m]; [|done]. pose proof Hinv as [[[h (Hw&_)] _] _]. simpl in Hw.
  destruct (Find_ok h h None None r s Hw (le_n _) (full_range s)) as (ks&vs&o&Hf&Ho).
  unfold bindM, get_root, liftM. simpl. rewrite (wf_depth _ _ _ _ Hw), Hf. simpl.
  destruct o as [i|]; [|by rewrite Hno]. destruct Ho as (k&v&Hk&Hv&Ho). rewrite Hk. simpl.
  destruct (decide (k = s)) as [->|Hne].
  - rewrite (proj2 (compare_zero s s)) by done. simpl. rewrite Hv. simpl.
    assert (Hv' : tree_view (mk_SITree (Some r) m) !! s = Some v) by (by apply elem_of_list_to_map_1). by rewrite Hv'.
  - assert (E' : (compare s k =? 0) = false) by (apply Z.eqb_neq; rewrite compare_zero; congruence). rewrite E'. simpl. by rewrite Hno.
Qed.

Definition mod_effect (s : string) (v : Z) (ok : bool) (E E' : list (string * Z)) : Prop :=
  if decide (s ∈ E.*1) then ok = true /\ exists E1 w E2, E = E1 ++ (s, w) :: E2 /\ E' = E1 ++ (s, v) :: E2
  else ok = false /\ E' = E.

Lemma mod_effect_frame s v ok E1 E E' E2 : s ∉ E1.*1 -> s ∉ E2.*1 ->
  mod_effect s v ok E E' -> mod_effect s v ok (E1 ++ E ++ E2) (E1 ++ E' ++ E2).
Proof.
  intros H1 H2. unfold mod_effect. rewrite !fmap_app. destruct (decide (s ∈ E.*1)) as [Hin|Hin].
  - rewrite decide_True by set_solver. intros [-> (F1&w&F2&->&->)]. split; [done|]. exists (E1 ++ F1), w, (F2 ++ E2). by rewrite <- !app_assoc.
  - rewrite decide_False by set_solver. by intros [-> ->].
Qed.

Lemma modify_leaf f lo hi id ks vs s v : wf 1 lo hi (SILeafNode id ks vs) ->
  exists ok vs', modify_down (Datatypes.S f) (SILeafNode id ks vs) s v = Some (ok, SILeafNode id ks vs') /\
    length vs' = length vs /\ mod_effect s v ok (zip ks vs) (zip ks vs').
Proof.
  intros (_&Hl&Hs&_). pose proof (lessEqual_ok ks s Hs) as Hle. simpl. unfold mod_effect. rewrite fst_zip by lia.
  destruct (decide (s ∈ ks)) as [Hin|Hin].
  - destruct Hle as (ks1&ks2&->&->). simpl. rewrite length_app in Hl |- *. simpl in Hl |- *.
    destruct (Nat.eqb_spec (length ks1) (length ks1 + Datatypes.S (length ks2))); [lia|].
    rewrite list_lookup_middle by done. simpl. rewrite (proj2 (compare_zero s s)) by done. simpl.
    destruct (lookup_lt_is_Some_2 vs (length ks1)) as [w Hv]; [lia|].
    set (vs1 := take (length ks1) vs). set (vs2 := drop (Datatypes.S (length ks1)) vs).
    assert (Hvs : vs = vs1 ++ w :: vs2) by (symmetry; by apply take_drop_middle).
    assert (Hl1 : length vs1 = length ks1) by (unfold vs1; rewrite length_take; lia). clearbody vs1 vs2. subst vs.
    exists true, (vs1 ++ v :: vs2). rewrite insert_middle by done. split; [done|]. split; [by rewrite !length_app|]. split; [done|].
    exists (zip ks1 vs1), w, (zip ks2 vs2). by rewrite !zip_with_app.
  - destruct Hle as (i&->&Hi). simpl. exists false, vs. destruct (Nat.eqb_spec i (length ks)); [done|].
    destruct (lookup_lt_is_Some_2 ks i) as [k Hk]; [lia|]. rewrite Hk. simpl.
    assert (E : (compare s k =? 0) = false); [|by rewrite E].
    apply Z.eqb_neq. rewrite compare_zero. intros ->. apply Hin. by eapply list_elem_of_lookup_2.
Qed.

Lemma modify_down_ok f h lo hi p s v : wf h lo hi p -> (h <= f)%nat -> in_range lo hi s ->
  exists ok p', modify_down f p s v = Some (ok, p') /\ wf h lo hi p' /\ GetKeyNum p' = GetKeyNum p /\ isLeaf p' = isLeaf p /\
    leaf_ids p' = leaf_ids p /\ mod_effect s v ok (entries p) (entries p').
Proof.
  revert f lo hi p. induction h as [|h IH]; intros f lo hi p Hw Hf Hr; [done|]. destruct f as [|f]; [lia|].
  destruct p as [id ks vs|id ks cs].
  - assert (h = O) as -> by (by destruct Hw as [? _]). destruct (modify_leaf f lo hi id ks vs s v Hw) as (ok&vs'&Hm&Hl&He).
    exists ok, (SILeafNode id ks vs'). split; [exact Hm|]. destruct Hw as (_&Hlv&Hs&Hrk).
    split; [|by split_and!]. split; [done|]. split; [congruence|done].
  - assert (Hwc : wf_childs (node_ok h) lo hi ks cs) by exact Hw.
    destruct (descend h lo hi ks cs s Hwc) as (ks1&ks2&cs1&q&cs2&->&->&Hl1&Hl2&Hf1&Hq&Hb&Ha). simpl. rewrite Hf1. simpl. rewrite Hq. simpl.
    destruct (pick h lo hi ks1 ks2 cs1 q cs2 s Hwc Hl1 Hr Hb Ha) as ([Hwq Hsz]&Hr'&Hn1&Hn2&Hrep).
    destruct (IH f _ _ q Hwq ltac:(lia) Hr') as (ok&q'&->&Hwq'&Hk&Hlf&Hids&He). simpl.
    exists ok, (SIIntlNode id (ks1 ++ ks2) (cs1 ++ q' :: cs2)). rewrite insert_middle by done. split; [done|].
    split; [apply Hrep; split; [done|]; unfold sized in *; lia|]. split; [done|]. split; [done|]. simpl.
    fold (all_ids (cs1 ++ q' :: cs2)) (all_ids (cs1 ++ q :: cs2)) (all_entries (cs1 ++ q' :: cs2)) (all_entries (cs1 ++ q :: cs2)).
    rewrite !all_ids_app, !all_ids_cons, !all_entries_app, !all_entries_cons, Hids. split; [done|]. by apply mod_effect_frame.
Qed.

Definition map_modify (s : string) (v : Z) (m : gmap string Z) : bool * gmap string Z :=
  if decide (is_Some (m !! s)) then (true, <[s := v]> m) else (false, m).

Lemma mod_effect_view s v ok E E' : NoDup E.*1 -> mod_effect s v ok E E' ->
  (ok, list_to_map E' : gmap string Z) = map_modify s v (list_to_map E) /\ E'.*1 = E.*1.
Proof.
  intros Hnd. unfold mod_effect, map_modify. destruct (decide (s ∈ E.*1)) as [Hs|Hs].
  - intros [-> (E1&w&E2&->&->)]. rewrite fmap_app in Hnd. simpl in Hnd. split; [|by rewrite !fmap_app].
    assert (Hm : forall x, NoDup ((E1 ++ (s, x) :: E2).*1)) by (intros x; rewrite fmap_app; exact Hnd).
    assert (Hx : forall x, (list_to_map (E1 ++ (s, x) :: E2) : gmap string Z) = <[s := x]> (list_to_map (E1 ++ E2))).
    { intros x. rewrite (list_to_map_proper _ ((s, x) :: E1 ++ E2)); [done|apply Hm|solve_Permutation]. }
    rewrite !Hx, lookup_insert_eq, decide_True by done. f_equal. by rewrite insert_insert_eq.
  - intros [-> ->]. split; [|done]. rewrite decide_False; [done|]. apply not_elem_of_list_to_map in Hs. rewrite Hs. by intros [? ?].
Qed.

Lemma Modify_ok s v t : tree_inv t ->
  wpM (Modify s v) t (fun ok t' => tree_inv t' /\ (ok, tree_view t') = map_modify s v (tree_view t)).
Proof.
  intros Hinv. unfold Modify. pose proof (root_NoDup t Hinv) as Hnd.
  assert (Hno : s ∉ (root_entries t).*1 -> (false, tree_view t) = map_modify s v (tree_view t)).
  { intros Hn. unfold map_modify. apply not_elem_of_list_to_map in Hn. unfold tree_view. rewrite Hn, decide_False by (by intros [? ?]). done. }
  destruct (Nat.eqb_spec (String.length s) 0) as [E|E].
  { apply wpM_ret. split; [done|]. apply Hno. destruct s; [by destruct Hinv|done]. }
  destruct t as [[r|] m]; [|apply wpM_ret; split; [done|]; apply Hno; apply not_elem_of_nil].
  pose proof Hinv as [[[h (Hw&Hn&Hi&Hch&Hh)] Hpos] Hne]. simpl in *.
  destruct (modify_down_ok h h None None r s v Hw (le_n _) (full_range s)) as (ok&r'&Hm&Hw'&Hk&Hl&Hids&He).
  unfold wpM, bindM, get_root, liftM, set_root, retM. simpl. rewrite (wf_depth _ _ _ _ Hw), Hm. simpl.
  apply mod_effect_view in He as [He Hkeys]; [|done]. split; [|exact He].
  split; [|unfold root_entries in *; simpl in *; by rewrite Hkeys]. split; [|simpl; lia].
  exists h. split_and!; simpl; try done; [lia|rewrite Hl; intros; rewrite Hk; by apply Hi|by rewrite Hids].
Qed.

(** ** Histories *)

Inductive tree_op := TInsert (s : string) (v : Z) | TRemove (s : string) | TModify (s : string) (v : Z) | TSearch (s : string).
Inductive tree_res := Done (b : bool) | Value (o : option Z).

Definition run_op (o : tree_op) : M SITree tree_res :=
  match o with
  | TInsert s v => let! b := Insert s v in retM (Done b)
  | TRemove s => let! b := Remove s in retM (Done b)
  | TModify s v => let! b := Modify s v in retM (Done b)
  | TSearch s => let! r := Search s in retM (Value r)
  end.
Fixpoint run_tree (os : list tree_op) : M SITree (list tree_res) :=
  match os with
  | [] => retM []
  | o :: os' => let! r := run_op o in let! rs := run_tree os' in retM (r :: rs)
  end.

(** The same operations on a finite map. *)
Definition map_op (o : tree_op) (m : gmap string Z) : tree_res * gmap string Z :=
  match o with
  | TInsert s v => let '(b, m') := map_insert s v m in (Done b, m')
  | TRemove s => let '(b, m') := map_remove s m in (Done b, m')
  | TModify s v => let '(b, m') := map_modify s v m in (Done b, m')
  | TSearch s => (Value (m !! s), m)
  end.
Fixpoint run_map (os : list tree_op) (m : gmap string Z) : list tree_res * gmap string Z :=
  match os with
  | [] => ([], m)
  | o :: os' => let '(r, m') := map_op o m in let '(rs, m'') := run_map os' m' in (r :: rs, m'')
  end.

Lemma run_tree_op_ok o t : tree_inv t -> wpM (run_op o) t (fun r t' => tree_inv t' /\ (r, tree_view t') = map_op o (tree_view t)).
Proof.
  intros H. destruct o as [s v|s|s v|s]; simpl; apply wpM_bind.
  - eapply wpM_mono, Insert_ok, H. intros b t' [H' E]. apply wpM_ret. by rewrite <- E.
  - eapply wpM_mono, Remove_ok, H. intros b t' [H' E]. apply wpM_ret. by injection E as <- <-.
  - eapply wpM_mono, Modify_ok, H. intros b t' [H' E]. apply wpM_ret. by rewrite <- E.
  - unfold wpM at 1. rewrite Search_ok by done. by apply wpM_ret.
Qed.

Lemma run_tree_ok os t : tree_inv t ->
  wpM (run_tree os) t (fun rs t' => tree_inv t' /\ (rs, tree_view t') = run_map os (tree_view t)).
Proof.
  revert t. induction os as [|o os IH]; intros t H; [by apply wpM_ret|]. simpl. apply wpM_bind.
  eapply wpM_mono, run_tree_op_ok, H. intros r t1 [H1 E1]. rewrite <- E1. apply wpM_bind.
  eapply wpM_mono, IH, H1. intros rs t2 [H2 E2]. rewrite <- E2. by apply wpM_ret.
Qed.

Lemma build_inv : tree_inv SITree_build /\ tree_view SITree_build = ∅.
Proof. split; [|done]. split; [done|]. apply not_elem_of_nil. Qed.

(** ** The chain *)

Fixpoint walk (fuel : nat) (next : gmap nat nat) (x : option nat) : list nat :=
  match fuel, x with
  | Datatypes.S f, Some x => x :: walk f next (next !! x)
  | _, _ => []
  end.

Lemma walk_next pv nx pr L n : linked pv nx pr L None -> walk (length L + n) nx (head L) = L.
Proof.
  revert pr. induction L as [|x L IH]; intros pr H; [by destruct n|]. destruct H as (_&Hn&H). simpl.
  rewrite Hn. assert (hib L None = head L) as -> by (by destruct L). by rewrite (IH (Some x)).
Qed.

Lemma linked_reverse pv nx pr L nt : linked pv nx pr L nt -> linked nx pv nt (reverse L) pr.
Proof.
  revert pr. induction L as [|x L IH]; intros pr H; [done|]. destruct H as (Hp&Hn&H). rewrite reverse_cons.
  apply linked_app. split; [by apply IH|]. simpl. split_and!; try done.
  rewrite Hn. unfold hib, lob. by rewrite last_reverse.
Qed.

Lemma walk_prev pv nx nt L n : linked pv nx None L nt -> walk (length L + n) pv (last L) = reverse L.
Proof.
  intros H%linked_reverse. pose proof (walk_next _ _ _ _ n H) as Hw. by rewrite length_reverse, head_reverse in Hw.
Qed.

Definition tree_ids (t : SITree) : list nat := match root_ t with Some r => leaf_ids r | None => [] end.

Lemma inv_chain t : tree_inv t -> chain (mem t) (tree_ids t) \/ (tree_ids t = [] /\ leaves_head_ (mem t) = None /\ leaves_tail_ (mem t) = None).
Proof.
  intros [H _]. unfold tree_ids. destruct (root_ t) as [r|].
  - left. by destruct H as [(h&_&_&_&Hch&_) _].
  - right. by destruct H as (_&?&?).
Qed.

(** ** The height *)

Lemma entries_many h lo hi n : node_ok h lo hi n -> (62 * 63 ^ (h - 1) <= length (entries n))%nat.
Proof.
  revert lo hi n. induction h as [|h IH]; intros lo hi n [Hw Hs]; [done|]. unfold sized, GetKeyNum in Hs.
  destruct n as [id ks vs|id ks cs]; simpl in Hs.
  - destruct Hw as (->&Hl&_). simpl. rewrite length_zip_with. knum.
  - apply wf_intl in Hw as Hh. destruct Hh as [h' [= ->]].
    assert (Hwc : wf_childs (node_ok (Datatypes.S h')) lo hi ks cs) by exact Hw. clear Hw. simpl entries. fold (all_entries cs).
    assert (Hsum : (length cs * (62 * 63 ^ h') <= length (all_entries cs))%nat).
    { clear Hs. revert lo ks Hwc. induction cs as [|c cs IHc]; intros lo ks Hwc; [simpl; lia|].
      rewrite all_entries_cons, length_app. destruct ks as [|k ks].
      - destruct cs; [|done]. apply IH in Hwc. simpl in *. rewrite Nat.sub_0_r in Hwc. lia.
      - destruct Hwc as (_&_&Hc&Hwc). apply IH in Hc. apply IHc in Hwc. simpl in *. rewrite Nat.sub_0_r in Hc. lia. }
    apply wf_childs_length in Hwc. replace (Datatypes.S (Datatypes.S h') - 1)%nat with (Datatypes.S h') by lia. rewrite Nat.pow_succ_r'.
    assert (63 <= length cs)%nat by knum. nia.
Qed.

Lemma root_many h r : wf h None None r -> (isLeaf r = false -> 0 < GetKeyNum r)%nat -> (h <= 1)%nat \/ (124 * 63 ^ (h - 2) <= length (entries r))%nat.
Proof.
  intros Hw Hi. destruct r as [id ks vs|id ks cs]; [left; apply wf_leaf in Hw; lia|]. right.
  specialize (Hi eq_refl). unfold GetKeyNum in Hi. simpl in Hi. apply wf_intl in Hw as Hh. destruct Hh as [h' ->].
  assert (Hwc : wf_childs (node_ok (Datatypes.S h')) None None ks cs) by exact Hw.
  destruct ks as [|k ks]; [simpl in Hi; lia|]. destruct cs as [|c cs]; [done|]. destruct Hwc as (_&_&Hc&Hwc).
  destruct cs as [|c' cs]; [by destruct ks|].
  assert (Hc' : exists lo hi, node_ok (Datatypes.S h') lo hi c').
  { destruct ks; [destruct cs; [|done]; eauto|]. destruct Hwc as (_&_&?&_). eauto. }
  destruct Hc' as (?&?&Hc'). apply entries_many in Hc, Hc'. simpl entries. rewrite !length_app. simpl in Hc, Hc' |- *. rewrite Nat.sub_0_r in *. lia.
Qed.

Lemma inv_height t : tree_inv t -> height_ (mem t) <= 1 \/ 124 * 63 ^ (height_ (mem t) - 2) <= Z.of_nat (size (tree_view t)).
Proof.
  intros Hinv. pose proof (root_NoDup t Hinv) as Hnd. destruct Hinv as [H _].
  assert (Hsz : size (tree_view t) = length (root_entries t)).
  { by apply map_size_list_to_map. }
  rewrite Hsz. unfold root_entries. destruct (root_ t) as [r|]; [|left; destruct H as [-> _]; lia].
  destruct H as [(h&Hw&_&Hi&_&Hh) _]. rewrite Hh.
  destruct (Z_le_gt_dec (u32 (Z.of_nat h)) 1) as [?|Hg]; [by left|right].
  destruct (root_many h r Hw Hi) as [Hle|Hm].
  { exfalso. rewrite u32_small in Hg by (unfold W32; lia). lia. }
  assert (Hu : u32 (Z.of_nat h) <= Z.of_nat h) by (unfold u32; apply Z.mod_le; unfold W32; lia).
  assert (Hp : 63 ^ (u32 (Z.of_nat h) - 2) <= 63 ^ (Z.of_nat h - 2)) by (apply Z.pow_le_mono_r; lia).
  assert (He : Z.of_nat (124 * 63 ^ (h - 2)) = 124 * 63 ^ (Z.of_nat h - 2)) by (rewrite Nat2Z.inj_mul, Nat2Z.inj_pow; f_equal; f_equal; lia).
  lia.
Qed.

(** ** The implementation of [StrIndex] *)

#[global] Instance tree_index : StrIndex SITree := { si_search := Search; si_insert := Insert; si_remove := Remove }.
#[global] Program Instance tree_index_laws : StrIndexLaws SITree := {
  si_view := tree_view; si_room _ t := tree_inv t; si_fits s := s <> EmptyString }.
Next Obligation. done. Qed.
Next Obligation. intros t n s Ht. unfold wpM. cbn. by rewrite Search_ok. Qed.
Next Obligation.
  intros t n s v Ht Hs _ Hn. eapply wpM_mono, Insert_ok, Ht. intros ok t' [Ht' E]. unfold map_insert in E.
  rewrite decide_True in E by done. by injection E as -> ->.
Qed.
Next Obligation.
  intros t n s Ht Hs. eapply wpM_mono, Remove_ok, Ht. intros ok t' [Ht' E]. unfold map_remove in E.
  rewrite bool_decide_eq_true_2 in E by done. by injection E as -> ->.
Qed.

(** ** Theorems *)

(** C15. A tree from strings to ids is a finite map: any sequence of [Insert],
    [Remove], [Modify] and [Search] on an empty tree runs to its end without an
    access out of range, returns what the same operations on a map return (an
    insertion is refused for the empty string and for a string that is present),
    and leaves a balanced tree with the contents of that map. *)
Theorem tree_refines_map os : wpM (run_tree os) SITree_build (fun rs t =>
  (rs, tree_view t) = run_map os ∅ /\ tree_inv t).
Proof.
  destruct build_inv as [Hinv Hv]. eapply wpM_mono, run_tree_ok, Hinv. intros rs t [Ht E]. rewrite Hv in E. done.
Qed.

(** C16. The chain of leaves: after any sequence of operations, following [next]
    from [leaves_head_] visits the leaves of the tree from left to right and ends,
    following [prev] from [leaves_tail_] visits them from right to left, and the
    keys in the leaves are increasing. *)
Theorem leaves_in_order os n : wpM (run_tree os) SITree_build (fun _ t =>
  let ids := tree_ids t in
  walk (length ids + n) (nexts (mem t)) (leaves_head_ (mem t)) = ids /\
  walk (length ids + n) (prevs (mem t)) (leaves_tail_ (mem t)) = reverse ids /\
  StronglySorted slt (root_entries t).*1).
Proof.
  destruct build_inv as [Hinv _]. eapply wpM_mono, run_tree_ok, Hinv. intros rs t [Ht _]. cbv zeta.
  assert (Hs : StronglySorted slt (root_entries t).*1).
  { destruct Ht as [H _]. unfold root_entries. destruct (root_ t) as [r|]; [|constructor]. destruct H as [(h&Hw&_) _].
    by destruct (wf_entries _ _ _ _ Hw). }
  destruct (inv_chain t Ht) as [((_&_&Hl)&->&->)|(->&->&->)].
  - split_and!; [by eapply walk_next|by eapply walk_prev|done].
  - by destruct n.
Qed.

(** C17. The height of a tree is logarithmic: a tree of height [h > 1] has at least
    [124 * 63^(h-2)] keys, so that the four bits that a node has for its height
    are enough for all the strings an index of words can hold. *)
Theorem tree_height_bound os : wpM (run_tree os) SITree_build (fun _ t =>
  (height_ (mem t) <= 1 \/ 124 * 63 ^ (height_ (mem t) - 2) <= Z.of_nat (size (tree_view t))) /\
  (Z.of_nat (size (tree_view t)) < W32 -> height_ (mem t) < 16)).
Proof.
  destruct build_inv as [Hinv _]. eapply wpM_mono, run_tree_ok, Hinv. intros rs t [Ht _].
  pose proof (inv_height t Ht) as Hb. split; [exact Hb|]. intros Hs. destruct Hb as [?|Hb]; [lia|].
  destruct (Z_lt_ge_dec (height_ (mem t)) 16) as [?|Hg]; [done|].
  assert (H14 : 63 ^ 14 <= 63 ^ (height_ (mem t) - 2)) by (apply Z.pow_le_mono_r; lia).
  assert (E : 63 ^ 14 = 15515568475732467854453889) by reflexivity. rewrite E in H14. unfold W32 in Hs. lia.
Qed.

(** C18. [StringUtil::compare] is the lexicographic order of strings of unsigned
    bytes, whichever of the two strings is longer: it agrees with the reference
    comparison, is antisymmetric and transitive, and is 0 on equal strings only. *)
Theorem compare_lexicographic s1 s2 s3 :
  compare s1 s2 = match String.compare s1 s2 with Eq => 0 | Lt => -1 | Gt => 1 end /\
  compare s2 s1 = - compare s1 s2 /\ (compare s1 s2 = 0 <-> s1 = s2) /\
  (compare s1 s2 < 0 -> compare s2 s3 < 0 -> compare s1 s3 < 0).
Proof.
  split; [apply compare_spec|]. split; [|split; [apply compare_zero|exact (slt_trans s1 s2 s3)]].
  rewrite !compare_spec, (String.compare_antisym s1 s2). by destruct (String.compare s2 s1).
Qed.
