(* ===== verification/SINodeFlags.v ===== *)
(** * The flags of a tree node

    [node_flag_] of [SINode] (KVstore/SITree/node/SINode.cpp), one word: leaf (bit
    31), in memory (29), and the rank by which the node is written out, the low 24
    bits, with the height (20-23) above the dirty bit (19), the number of keys
    (12-18) and 12 free bits.  The operations on the bits refine operations on a
    record of fields: none changes a field of another, and the number of keys never
    leaves its bits. *)

From S2P Require Import Prelude.

(** ** The operations *)

Definition NF_IL : Z := 2147483648.
Definition NF_ID : Z := 524288.
Definition NF_IM : Z := 536870912.
Definition NF_RK : Z := 16777215.
Definition NF_HT : Z := 15728640.
Definition NF_KN : Z := 520192.
Definition MAX_KEYS : Z := 125.

Definition flag_isLeaf (f : Z) : bool := negb (Z.land f NF_IL =? 0).
Definition flag_isDirty (f : Z) : bool := negb (Z.land f NF_ID =? 0).
Definition flag_setDirty (f : Z) : Z := Z.lor f NF_ID.
Definition flag_delDirty (f : Z) : Z := Z.ldiff f NF_ID.
Definition flag_inMem (f : Z) : bool := negb (Z.land f NF_IM =? 0).
Definition flag_SetInMem (f : Z) : Z := Z.lor f NF_IM.
Definition flag_SetMemFlagFalse (f : Z) : Z := Z.ldiff f NF_IM.
Definition flag_getRank (f : Z) : Z := Z.land f NF_RK.
Definition flag_setRank (f r : Z) : Z := Z.lor (Z.ldiff f NF_RK) r.
Definition flag_getHeight (f : Z) : Z := Z.shiftr (Z.land f NF_HT) 20.
Definition flag_setHeight (f h : Z) : Z := Z.lor (Z.ldiff f NF_HT) (u32 (Z.shiftl h 20)).
Definition flag_GetKeyNum (f : Z) : Z := Z.shiftr (Z.land f NF_KN) 12.
Definition flag_SetKeyNum (f num : Z) : bool * Z :=
  if (num <? 0) || (MAX_KEYS <? num) then (false, f) else (true, Z.lor (Z.ldiff f NF_KN) (Z.shiftl num 12)).
Definition flag_AddKeyNum (f : Z) : bool * Z :=
  if MAX_KEYS <? flag_GetKeyNum f + 1 then (false, f) else (true, f ⊞ 4096).
Definition flag_SubKeyNum (f : Z) : bool * Z :=
  if flag_GetKeyNum f <? 1 then (false, f) else (true, f ⊟ 4096).

(** ** The fields *)

(** The flags a node can have. *)
(** The fields of the flags. *)
Record fields := mk_fields { f_leaf : bool; f_mem : bool; f_height : Z; f_dirty : bool; f_keys : Z }.
Definition flag_fields (f : Z) : fields :=
  mk_fields (flag_isLeaf f) (flag_inMem f) (flag_getHeight f) (flag_isDirty f) (flag_GetKeyNum f).

Definition flag_ok (f : Z) : Prop := 0 <= f < W32 /\ flag_GetKeyNum f <= MAX_KEYS.

(** The operations of a node that change its flags, and what they do to a record
    of fields. *)
Inductive flag_op := FDirty | FClean | FIn | FOut | FHeight (h : Z) | FKeys (num : Z) | FAdd | FSub.

Definition flag_run (op : flag_op) (f : Z) : bool * Z :=
  match op with
  | FDirty => (true, flag_setDirty f) | FClean => (true, flag_delDirty f)
  | FIn => (true, flag_SetInMem f) | FOut => (true, flag_SetMemFlagFalse f)
  | FHeight h => (true, flag_setHeight f h) | FKeys num => flag_SetKeyNum f num
  | FAdd => flag_AddKeyNum f | FSub => flag_SubKeyNum f
  end.

Definition field_keys (r : fields) (num : Z) : bool * fields :=
  if (0 <=? num) && (num <=? MAX_KEYS) then (true, mk_fields (f_leaf r) (f_mem r) (f_height r) (f_dirty r) num) else (false, r).
Definition field_run (op : flag_op) (r : fields) : bool * fields :=
  match op with
  | FDirty => (true, mk_fields (f_leaf r) (f_mem r) (f_height r) true (f_keys r))
  | FClean => (true, mk_fields (f_leaf r) (f_mem r) (f_height r) false (f_keys r))
  | FIn => (true, mk_fields (f_leaf r) true (f_height r) (f_dirty r) (f_keys r))
  | FOut => (true, mk_fields (f_leaf r) false (f_height r) (f_dirty r) (f_keys r))
  | FHeight h => (true, mk_fields (f_leaf r) (f_mem r) h (f_dirty r) (f_keys r))
  | FKeys num => field_keys r num
  | FAdd => field_keys r (f_keys r + 1)
  | FSub => field_keys r (f_keys r - 1)
  end.

Definition op_ok (op : flag_op) : Prop := match op with FHeight h => 0 <= h < 16 | _ => True end.

Fixpoint runs {A} (run : flag_op -> A -> bool * A) (ops : list flag_op) (a : A) : list bool * A :=
  match ops with
  | [] => ([], a)
  | op :: ops => let '(b, a) := run op a in let '(bs, a) := runs run ops a in (b :: bs, a)
  end.

(** ** Bits *)

Lemma flag_rank f : flag_getRank f = f mod 2 ^ 24.
Proof. unfold flag_getRank. change NF_RK with (Z.ones 24). by rewrite Z.land_ones. Qed.
Lemma flag_height f : flag_getHeight f = f / 2 ^ 20 mod 16.
Proof.
  unfold flag_getHeight. rewrite Z.shiftr_land. change (Z.shiftr NF_HT 20) with (Z.ones 4). rewrite Z.land_ones by lia. by rewrite Z.shiftr_div_pow2.
Qed.
Lemma flag_keys f : flag_GetKeyNum f = f / 2 ^ 12 mod 128.
Proof.
  unfold flag_GetKeyNum. rewrite Z.shiftr_land. change (Z.shiftr NF_KN 12) with (Z.ones 7). rewrite Z.land_ones by lia. by rewrite Z.shiftr_div_pow2.
Qed.
Lemma flag_bit f n : 0 <= n -> negb (Z.land f (2 ^ n) =? 0) = Z.odd (f / 2 ^ n).
Proof.
  intros Hn. rewrite <- Z.shiftr_div_pow2, <- Z.bit0_odd, Z.shiftr_spec, Z.add_0_l by lia.
  destruct (Z.testbit f n) eqn:E.
  - destruct (Z.eqb_spec (Z.land f (2 ^ n)) 0) as [H|H]; [|done]. apply (f_equal (fun z => Z.testbit z n)) in H.
    rewrite Z.land_spec, E, Z.pow2_bits_true, Z.bits_0 in H by lia. done.
  - assert (H : Z.land f (2 ^ n) = 0); [|by rewrite H]. apply Z.bits_inj'. intros k Hk. rewrite Z.land_spec, Z.bits_0.
    destruct (Z.eq_dec k n) as [->|Hne]; [by rewrite E|]. rewrite Z.pow2_bits_false by lia. apply andb_false_r.
Qed.

(** The height decides the order of ranks. *)
Lemma flag_respects f g : flag_getHeight f < flag_getHeight g -> flag_getRank f < flag_getRank g.
Proof.
  rewrite !flag_rank, !flag_height.
  assert (E : forall f, f mod 2 ^ 24 = 2 ^ 20 * (f / 2 ^ 20 mod 16) + f mod 2 ^ 20).
  { intros x. change (2 ^ 24) with (2 ^ 20 * 16). rewrite Z.rem_mul_r by lia. lia. }
  rewrite (E f), (E g). pose proof (Z.mod_pos_bound f (2 ^ 20)). pose proof (Z.mod_pos_bound g (2 ^ 20)). lia.
Qed.

Lemma land_lor_other f m k : Z.land m k = 0 -> Z.land (Z.lor f m) k = Z.land f k.
Proof. intros H. by rewrite Z.land_lor_distr_l, H, Z.lor_0_r. Qed.
Lemma land_ldiff_other f m k : Z.land m k = 0 -> Z.land (Z.ldiff f m) k = Z.land f k.
Proof.
  intros H. apply Z.bits_inj'. intros n Hn. apply (f_equal (fun z => Z.testbit z n)) in H.
  rewrite !Z.land_spec, Z.bits_0 in *. rewrite Z.ldiff_spec. by destruct (Z.testbit f n), (Z.testbit m n), (Z.testbit k n).
Qed.

(** A change of the number of keys by one, inside its bits. *)
Lemma keys_shift f d : 0 <= f / 2 ^ 12 mod 128 + d < 128 ->
  let f' := f + 4096 * d in
  f' / 2 ^ 12 mod 128 = f / 2 ^ 12 mod 128 + d /\ f' / 2 ^ 19 = f / 2 ^ 19 /\ f' mod 2 ^ 12 = f mod 2 ^ 12.
Proof.
  intros H f'. assert (E1 : f' / 2 ^ 12 = f / 2 ^ 12 + d) by (unfold f'; change 4096 with (2 ^ 12); rewrite (Z.mul_comm (2 ^ 12)), Z.div_add; lia).
  assert (E2 : forall x, x / 2 ^ 19 = x / 2 ^ 12 / 128) by (intros x; rewrite Z.div_div by lia; done).
  rewrite !E2, E1. pose proof (Z.div_mod (f / 2 ^ 12) 128 ltac:(lia)) as Hd. split_and!.
  - symmetry. apply Z.mod_unique with (f / 2 ^ 12 / 128); lia.
  - symmetry. apply Z.div_unique with (f / 2 ^ 12 mod 128 + d); lia.
  - unfold f'. change 4096 with (2 ^ 12). rewrite (Z.mul_comm (2 ^ 12)). apply Z_mod_plus_full.
Qed.

Lemma upper_fields f f' : f' / 2 ^ 19 = f / 2 ^ 19 ->
  flag_getHeight f' = flag_getHeight f /\ flag_isDirty f' = flag_isDirty f /\ flag_isLeaf f' = flag_isLeaf f /\ flag_inMem f' = flag_inMem f.
Proof.
  intros H. assert (E : forall x n, 19 <= n -> x / 2 ^ n = x / 2 ^ 19 / 2 ^ (n - 19)).
  { intros x n Hn. rewrite Z.div_div by (apply Z.pow_nonzero || apply Z.pow_pos_nonneg; lia). by rewrite <- Z.pow_add_r, Zplus_minus by lia. }
  rewrite !flag_height, (E f 20), (E f' 20), H by lia. unfold flag_isDirty, flag_isLeaf, flag_inMem.
  change NF_ID with (2 ^ 19). change NF_IL with (2 ^ 31). change NF_IM with (2 ^ 29).
  rewrite !flag_bit, (E f 31), (E f' 31), (E f 29), (E f' 29), H by lia. done.
Qed.

Lemma flag_setRank_spec f r : 0 <= r < 2 ^ 24 -> flag_getRank (flag_setRank f r) = r.
Proof.
  intros Hr. unfold flag_getRank, flag_setRank. rewrite Z.land_lor_distr_l. change NF_RK with (Z.ones 24).
  rewrite Z.ldiff_ones_r, Z.land_ones, Z.shiftl_mul_pow2, Z.mod_mul by lia. rewrite Z.lor_0_l, Z.land_ones by lia. by apply Z.mod_small.
Qed.

Lemma rank_bounds f : 0 <= flag_getRank f < 2 ^ 24.
Proof. rewrite flag_rank. by apply Z.mod_pos_bound. Qed.
Lemma height_bounds f : 0 <= flag_getHeight f < 16.
Proof. rewrite flag_height. by apply Z.mod_pos_bound. Qed.
Lemma rank_0_height f : flag_getRank f = 0 -> flag_getHeight f = 0.
Proof.
  intros H. pose proof (height_bounds f). destruct (Z.eq_dec (flag_getHeight f) 0); [done|].
  pose proof (flag_respects 0 f) as H'. change (flag_getHeight 0) with 0 in H'. change (flag_getRank 0) with 0 in H'. lia.
Qed.

Lemma flag_setRank_same f : flag_setRank f (flag_getRank f) = f.
Proof.
  unfold flag_setRank, flag_getRank. apply Z.bits_inj'. intros n Hn.
  rewrite Z.lor_spec, Z.ldiff_spec, Z.land_spec. by destruct (Z.testbit f n), (Z.testbit NF_RK n).
Qed.

Lemma word_ones f : 0 <= f < W32 <-> Z.land f (Z.ones 32) = f.
Proof.
  rewrite Z.land_ones by lia. change W32 with (2 ^ 32). split; [apply Z.mod_small|].
  intros <-. by apply Z.mod_pos_bound.
Qed.
Lemma word_lor f m : 0 <= f < W32 -> 0 <= m < W32 -> 0 <= Z.lor f m < W32.
Proof. rewrite !word_ones, Z.land_lor_distr_l. by intros -> ->. Qed.
Lemma word_ldiff f m : 0 <= f < W32 -> 0 <= Z.ldiff f m < W32.
Proof.
  rewrite !word_ones. intros H. rewrite <- H at 2. apply Z.bits_inj'. intros n Hn.
  rewrite Z.land_spec, !Z.ldiff_spec, Z.land_spec. by destruct (Z.testbit f n), (Z.testbit m n), (Z.testbit (Z.ones 32) n).
Qed.
Lemma land_put f m v : Z.land v m = v -> Z.land (Z.lor (Z.ldiff f m) v) m = v.
Proof.
  intros H. rewrite Z.land_lor_distr_l, H, Z.ldiff_land, <- Z.land_assoc, (Z.land_comm (Z.lnot m)), Z.land_lnot_diag. by rewrite Z.land_0_r.
Qed.
Lemma land_put_other f m v k : Z.land m k = 0 -> Z.land v m = v -> Z.land (Z.lor (Z.ldiff f m) v) k = Z.land f k.
Proof.
  intros H Hv. rewrite land_lor_other; [by apply land_ldiff_other|]. by rewrite <- Hv, <- Z.land_assoc, H, Z.land_0_r.
Qed.
Lemma land_in_mask v n a : 0 <= a -> 0 <= n -> 0 <= v < 2 ^ n -> Z.land (Z.shiftl v a) (Z.shiftl (Z.ones n) a) = Z.shiftl v a.
Proof. intros Ha Hn Hv. rewrite <- Z.shiftl_land, Z.land_ones by lia. by rewrite Z.mod_small. Qed.

Lemma land_clear f m : Z.land (Z.ldiff f m) m = 0.
Proof. by rewrite Z.ldiff_land, <- Z.land_assoc, (Z.land_comm (Z.lnot m)), Z.land_lnot_diag, Z.land_0_r. Qed.
Lemma land_set f m : Z.land (Z.lor f m) m = m.
Proof. apply Z.bits_inj'. intros n Hn. rewrite Z.land_spec, Z.lor_spec. by destruct (Z.testbit f n), (Z.testbit m n). Qed.

(** ** What the operations do to the fields *)
Lemma setDirty_ok f : flag_ok f -> flag_ok (flag_setDirty f) /\
  flag_fields (flag_setDirty f) = mk_fields (flag_isLeaf f) (flag_inMem f) (flag_getHeight f) true (flag_GetKeyNum f).
Proof.
  unfold flag_ok, flag_fields, flag_setDirty, flag_isLeaf, flag_inMem, flag_getHeight, flag_isDirty, flag_GetKeyNum.
  intros [Hw Hk]. rewrite land_set, !land_lor_other by done. split; [split; [by apply word_lor|done]|done].
Qed.
Lemma delDirty_ok f : flag_ok f -> flag_ok (flag_delDirty f) /\
  flag_fields (flag_delDirty f) = mk_fields (flag_isLeaf f) (flag_inMem f) (flag_getHeight f) false (flag_GetKeyNum f).
Proof.
  unfold flag_ok, flag_fields, flag_delDirty, flag_isLeaf, flag_inMem, flag_getHeight, flag_isDirty, flag_GetKeyNum.
  intros [Hw Hk]. rewrite land_clear, !land_ldiff_other by done. split; [split; [by apply word_ldiff|done]|done].
Qed.
Lemma SetInMem_ok f : flag_ok f -> flag_ok (flag_SetInMem f) /\
  flag_fields (flag_SetInMem f) = mk_fields (flag_isLeaf f) true (flag_getHeight f) (flag_isDirty f) (flag_GetKeyNum f).
Proof.
  unfold flag_ok, flag_fields, flag_SetInMem, flag_isLeaf, flag_inMem, flag_getHeight, flag_isDirty, flag_GetKeyNum.
  intros [Hw Hk]. rewrite land_set, !land_lor_other by done. split; [split; [by apply word_lor|done]|done].
Qed.
Lemma SetMemFlagFalse_ok f : flag_ok f -> flag_ok (flag_SetMemFlagFalse f) /\
  flag_fields (flag_SetMemFlagFalse f) = mk_fields (flag_isLeaf f) false (flag_getHeight f) (flag_isDirty f) (flag_GetKeyNum f).
Proof.
  unfold flag_ok, flag_fields, flag_SetMemFlagFalse, flag_isLeaf, flag_inMem, flag_getHeight, flag_isDirty, flag_GetKeyNum.
  intros [Hw Hk]. rewrite land_clear, !land_ldiff_other by done. split; [split; [by apply word_ldiff|done]|done].
Qed.

Lemma setHeight_ok f h : flag_ok f -> 0 <= h < 16 -> flag_ok (flag_setHeight f h) /\
  flag_fields (flag_setHeight f h) = mk_fields (flag_isLeaf f) (flag_inMem f) h (flag_isDirty f) (flag_GetKeyNum f).
Proof.
  unfold flag_ok, flag_fields, flag_setHeight, flag_isLeaf, flag_inMem, flag_getHeight, flag_isDirty, flag_GetKeyNum.
  intros [Hw Hk] Hh. rewrite u32_small by (rewrite Z.shiftl_mul_pow2; unfold W32; lia).
  assert (Hv : Z.land (Z.shiftl h 20) NF_HT = Z.shiftl h 20) by (change NF_HT with (Z.shiftl (Z.ones 4) 20); by apply land_in_mask).
  rewrite land_put, !land_put_other, Z.shiftr_shiftl_l, Z.sub_diag, Z.shiftl_0_r by done. split; [split; [|done]|done].
  apply word_lor; [by apply word_ldiff|rewrite Z.shiftl_mul_pow2; unfold W32; lia].
Qed.

Lemma SetKeyNum_ok f num : flag_ok f -> 0 <= num <= MAX_KEYS ->
  exists f', flag_SetKeyNum f num = (true, f') /\ flag_ok f' /\
    flag_fields f' = mk_fields (flag_isLeaf f) (flag_inMem f) (flag_getHeight f) (flag_isDirty f) num.
Proof.
  unfold flag_ok, flag_fields, flag_SetKeyNum, flag_isLeaf, flag_inMem, flag_getHeight, flag_isDirty, flag_GetKeyNum, MAX_KEYS.
  intros [Hw Hk] Hn. rewrite (proj2 (Z.ltb_ge num 0)), (proj2 (Z.ltb_ge 125 num)) by lia. simpl. eexists. split; [done|].
  assert (Hv : Z.land (Z.shiftl num 12) NF_KN = Z.shiftl num 12) by (change NF_KN with (Z.shiftl (Z.ones 7) 12); apply land_in_mask; lia).
  rewrite land_put, !land_put_other, Z.shiftr_shiftl_l, Z.sub_diag, Z.shiftl_0_r by done. split; [split; [|lia]|done].
  apply word_lor; [by apply word_ldiff|rewrite Z.shiftl_mul_pow2; unfold W32; lia].
Qed.

Lemma keys_nonneg f : 0 <= flag_GetKeyNum f < 128.
Proof. rewrite flag_keys. by apply Z.mod_pos_bound. Qed.

(** A step of the number of keys by [d] inside its bounds. *)
Lemma key_step_ok f d : flag_ok f -> 0 <= flag_GetKeyNum f + d <= MAX_KEYS ->
  let f' := u32 (f + 4096 * d) in
  flag_ok f' /\ flag_fields f' = mk_fields (flag_isLeaf f) (flag_inMem f) (flag_getHeight f) (flag_isDirty f) (flag_GetKeyNum f + d).
Proof.
  intros [Hw Hk] Hd f'. unfold MAX_KEYS in *. rewrite flag_keys in Hd, Hk.
  destruct (keys_shift f d ltac:(lia)) as (H1&H2&H3).
  assert (Hb : 0 <= f + 4096 * d < W32).
  { unfold W32 in *. pose proof (Z.div_mod f (2 ^ 19) ltac:(lia)). pose proof (Z.div_mod (f + 4096 * d) (2 ^ 19) ltac:(lia)) as E. rewrite H2 in E.
    pose proof (Z.mod_pos_bound (f + 4096 * d) (2 ^ 19) ltac:(lia)). pose proof (Z.mod_pos_bound f (2 ^ 19) ltac:(lia)). lia. }
  assert (E : f' = f + 4096 * d) by (by apply u32_small). rewrite E.
  destruct (upper_fields f (f + 4096 * d) H2) as (E1&E2&E3&E4). unfold flag_ok, flag_fields. rewrite E1, E2, E3, E4, !flag_keys, H1.
  split; [split; [done|unfold MAX_KEYS; lia]|done].
Qed.


Lemma field_keys_in r num : 0 <= num <= MAX_KEYS -> field_keys r num = (true, mk_fields (f_leaf r) (f_mem r) (f_height r) (f_dirty r) num).
Proof. intros H. unfold field_keys. by rewrite (proj2 (Z.leb_le 0 num)), (proj2 (Z.leb_le num MAX_KEYS)) by lia. Qed.
Lemma field_keys_out r num : num < 0 \/ MAX_KEYS < num -> field_keys r num = (false, r).
Proof. intros H. unfold field_keys. destruct (Z.leb_spec 0 num), (Z.leb_spec num MAX_KEYS); (done || lia). Qed.

(** An operation on fields whose result [r] the flags [f'] have. *)
Lemma flag_run_ok op f : flag_ok f -> op_ok op ->
  flag_ok (flag_run op f).2 /\ ((flag_run op f).1, flag_fields (flag_run op f).2) = field_run op (flag_fields f).
Proof.
  intros Hf Hop. pose proof (keys_nonneg f) as Hk0. pose proof Hf as [_ Hk]. destruct op as [| | | |h|num| |]; simpl in *.
  - destruct (setDirty_ok f Hf) as [H ->]. done.
  - destruct (delDirty_ok f Hf) as [H ->]. done.
  - destruct (SetInMem_ok f Hf) as [H ->]. done.
  - destruct (SetMemFlagFalse_ok f Hf) as [H ->]. done.
  - destruct (setHeight_ok f h Hf Hop) as [H ->]. done.
  - destruct (decide (0 <= num <= MAX_KEYS)) as [Hn|Hn].
    + destruct (SetKeyNum_ok f num Hf Hn) as (f'&->&H&E). rewrite field_keys_in by done. simpl. by rewrite E.
    + rewrite field_keys_out by lia. unfold flag_SetKeyNum. destruct (Z.ltb_spec num 0), (Z.ltb_spec MAX_KEYS num); simpl; (done || lia).
  - unfold flag_AddKeyNum. destruct (Z.ltb_spec MAX_KEYS (flag_GetKeyNum f + 1)); simpl; [rewrite field_keys_out by (simpl; lia); done|].
    rewrite field_keys_in by (simpl; lia). destruct (key_step_ok f 1 Hf) as [H' E]; [lia|]. rewrite Z.mul_1_r in H', E. by rewrite E.
  - unfold flag_SubKeyNum. destruct (Z.ltb_spec (flag_GetKeyNum f) 1); simpl; [rewrite field_keys_out by (simpl; lia); done|].
    rewrite field_keys_in by (simpl; lia). destruct (key_step_ok f (-1) Hf) as [H' E]; [lia|].
    replace (f + 4096 * -1) with (f - 4096) in H', E by lia. by rewrite E.
Qed.

Lemma runs_ok ops f : flag_ok f -> Forall op_ok ops ->
  flag_ok (runs flag_run ops f).2 /\ ((runs flag_run ops f).1, flag_fields (runs flag_run ops f).2) = runs field_run ops (flag_fields f).
Proof.
  intros Hf Ho. revert f Hf. induction Ho as [|op ops Hop _ IH]; intros f Hf; [done|]. simpl.
  destruct (flag_run_ok op f Hf Hop) as [H E]. destruct (flag_run op f) as [b f']. simpl in *. rewrite <- E.
  destruct (IH f' H) as [H' E']. destruct (runs flag_run ops f') as [bs f'']. simpl in *. by rewrite <- E'.
Qed.

(** ** Theorems *)

(** C21. Whatever changes are made to the flags of a node, the word stays one with at
    most 125 keys, the answers and the five fields are those of a record of fields
    that changes one at a time (an addition or a subtraction that would leave
    0..125 is refused and changes nothing), and the rank orders nodes by height
    first. *)
Theorem flags_are_fields ops f : flag_ok f -> Forall op_ok ops ->
  flag_ok (runs flag_run ops f).2 /\
  ((runs flag_run ops f).1, flag_fields (runs flag_run ops f).2) = runs field_run ops (flag_fields f) /\
  (forall g, flag_getHeight (runs flag_run ops f).2 < flag_getHeight g -> flag_getRank (runs flag_run ops f).2 < flag_getRank g).
Proof. intros Hf Ho. destruct (runs_ok ops f Hf Ho). split; [done|]. split; [done|]. intros g. apply flag_respects. Qed.

Lemma flags_are_fields_witness :
  let ops := [FIn; FHeight 3; FKeys 125; FAdd; FDirty; FSub; FKeys 126; FClean] in
  runs flag_run ops NF_IL = ([true; true; true; false; true; true; false; true], 2687500288 + 3145728 - 0 + 507904 - 2687500288 + 2684354560) /\
  flag_fields (runs flag_run ops NF_IL).2 = mk_fields true true 3 false 124.
Proof.
  intros ops. destruct (flags_are_fields ops NF_IL) as (H1&H2&_).
  - by split.
  - by repeat constructor.
  - split; [vm_compute; done|]. apply (f_equal snd) in H2. simpl in H2. exact H2.
Defined.
