(* ===== verification/SIHeap.v ===== *)
(** * The heap of cached nodes

    [SIHeap] (KVstore/SITree/heap/SIHeap.cpp), the array heap from which
    [SIStorage] takes the node to write out next, with [SIStorage::updateHeap].
    Nodes are their addresses.  The rank of a node is part of its flags and changes
    while the node is in the heap, so the operations take the ranks at the time of
    the call; the field [heapId] of the nodes is a map, in which a node that is in
    no heap (-1) has no entry.

    The heap keeps its order by any key that the ranks respect: with the rank
    itself if the ranks did not change, and with the height of a node, the upper
    bits of its rank, however the lower bits change between the calls.  Moving a
    node down ([modify] with [false]) does not keep it. *)

From S2P Require Import Prelude SINodeFlags.

(** ** The heap *)

Record SIHeap := mk_SIHeap { heap : list nat; size_ : Z; heapId : gmap nat nat }.

Definition SIHeap_new (n : Z) : SIHeap := mk_SIHeap [] n ∅.

Definition getTop (h : SIHeap) : option nat := head (heap h).

(** The positions of the parent and of the left child. *)
Definition par (i : nat) : nat := ((i - 1) / 2)%nat.
Definition lchild (i : nat) : nat := (2 * i + 1)%nat.
Arguments par : simpl never.
Arguments lchild : simpl never.

Section Code.
Context (getRank : nat -> Z).

(** The state of a loop: the array, the positions, the position of the hole and
    whether the loop was left. *)
Definition loop_state : Type := list nat * gmap nat nat * nat * bool.

(** [heap[i] = heap[j]; heap[i]->heapId = i]. *)
Definition move (a : list nat) (ids : gmap nat nat) (i y : nat) : list nat * gmap nat nat := (<[i := y]> a, <[y := i]> ids).

Definition up_cond (st : loop_state) : option bool := let '(_, _, i, stop) := st in Some (negb stop && negb (i =? 0)%nat).
Definition insert_body (np : nat) (st : loop_state) : option loop_state :=
  let '(a, ids, i, _) := st in
  let j := par i in
  y ← a !! j;
  if getRank y <=? getRank np then Some (a, ids, i, true)
  else let '(a', ids') := move a ids i y in Some (a', ids', j, false).

(** Once it was doubled the array has a free place at [length] (a write outside of
    it is a failure); what is in it is not read, and [np] stands for it. *)
Definition Insert (np : nat) : M SIHeap bool := fun h =>
  let size := if Z.of_nat (length (heap h)) =? size_ h then 2 ⊠ size_ h else size_ h in
  if size <=? Z.of_nat (length (heap h)) then None else
  '(a, ids, i, _) ← while (length (heap h) + 2) up_cond (insert_body np) (heap h ++ [np], heapId h, length (heap h), false);
  let '(a', ids') := move a ids i np in
  Some (true, mk_SIHeap a' size ids').

(** The child with the lower rank: [j] or the one after it. *)
Definition min_child (a : list nat) (j : nat) : option nat :=
  if (j <? length a - 1)%nat
  then y ← a !! j; z ← a !! Datatypes.S j; Some (if getRank z <? getRank y then Datatypes.S j else j)
  else Some j.

Definition down_cond (st : loop_state) : option bool :=
  let '(a, _, i, stop) := st in Some (negb stop && (lchild i <? length a)%nat).
Definition remove_body (xp : nat) (st : loop_state) : option loop_state :=
  let '(a, ids, i, _) := st in
  j ← min_child a (lchild i);
  y ← a !! j;
  if getRank xp <=? getRank y then Some (a, ids, i, true)
  else let '(a', ids') := move a ids i y in Some (a', ids', j, false).

Definition RemoveTop : M SIHeap bool := fun h =>
  match heap h with
  | [] => Some (false, h)
  | top :: _ =>
      let a := take (length (heap h) - 1) (heap h) in
      let ids := delete top (heapId h) in
      if (length a =? 0)%nat then Some (true, mk_SIHeap a (size_ h) ids) else
      xp ← heap h !! length a;
      '(a, ids, i, _) ← while (length a + 2) down_cond (remove_body xp) (a, ids, 0%nat, false);
      let '(a', ids') := move a ids i xp in
      Some (true, mk_SIHeap a' (size_ h) ids')
  end.

(** [modify]: the node is written to its new place in every round. *)
Definition modify_up_body (np : nat) (st : loop_state) : option loop_state :=
  let '(a, ids, i, _) := st in
  let j := par i in
  y ← a !! j;
  if getRank np <? getRank y
  then let '(a', ids') := move a ids i y in let '(a'', ids'') := move a' ids' j np in Some (a'', ids'', j, false)
  else Some (a, ids, i, true).

(** Moving down: [j] is set before the loop only. *)
Definition modify_down_cond (st : loop_state * nat) : option bool :=
  let '((a, _, _, stop), j) := st in Some (negb stop && (j <? length a)%nat).
Definition modify_down_body (np : nat) (st : loop_state * nat) : option (loop_state * nat) :=
  let '((a, ids, i, _), j) := st in
  j ← min_child a j;
  y ← a !! j;
  if getRank y <? getRank np
  then let '(a', ids') := move a ids i y in let '(a'', ids'') := move a' ids' j np in Some ((a'', ids'', j, false), j)
  else Some ((a, ids, i, true), j).

Definition modify (np : nat) (up : bool) : M SIHeap bool := fun h =>
  match heapId h !! np with
  | None => Some (false, h)
  | Some i =>
      if up then
        '(a, ids, _, _) ← while (length (heap h) + 2) up_cond (modify_up_body np) (heap h, heapId h, i, false);
        Some (true, mk_SIHeap a (size_ h) ids)
      else
        '((a, ids, _, _), _) ← while (length (heap h) + 2) modify_down_cond (modify_down_body np) ((heap h, heapId h, i, false), lchild i);
        Some (true, mk_SIHeap a (size_ h) ids)
  end.
End Code.

(** [SIStorage::updateHeap]: the node is given a rank, and moved if the rank that
    it had before is another one.  [flags] are the flags of the nodes
    (a new node has 0). *)
Definition rank_of (flags : gmap nat Z) (x : nat) : Z := flag_getRank (flags !!! x).
Definition height_of (flags : gmap nat Z) (x : nat) : Z := flag_getHeight (flags !!! x).
Definition setRank (flags : gmap nat Z) (np : nat) (_rank : Z) : gmap nat Z :=
  <[np := flag_setRank (flags !!! np) _rank]> flags.

Definition updateHeap (flags : gmap nat Z) (np : nat) (_rank : Z) (_inheap : bool) (h : SIHeap) : option (gmap nat Z * SIHeap) :=
  let t := rank_of flags np in
  let flags := setRank flags np _rank in
  if _inheap then
    if t <? _rank then '(_, h) ← modify (rank_of flags) np false h; Some (flags, h)
    else if _rank <? t then '(_, h) ← modify (rank_of flags) np true h; Some (flags, h)
    else Some (flags, h)
  else '(_, h) ← Insert (rank_of flags) np h; Some (flags, h).

(** The beginning of [SIStorage::WriteTree]: the nodes of rank 0 leave the heap
    (and are handed to [WriteNode], in this order).  The fuel is one more than the
    number of nodes. *)
Fixpoint flush_removed (fuel : nat) (flags : gmap nat Z) (h : SIHeap) : option (list nat * SIHeap) :=
  match fuel with
  | O => None
  | Datatypes.S fuel =>
      match getTop h with
      | None => Some ([], h)
      | Some p =>
          if rank_of flags p =? 0 then
            '(_, h) ← RemoveTop (rank_of flags) h; '(l, h) ← flush_removed fuel flags h; Some (p :: l, h)
          else Some ([], h)
      end
  end.

(** ** The order *)

Definition edge (key : nat -> Z) (l : list nat) (c : nat) : Prop :=
  forall x y, l !! c = Some y -> l !! par c = Some x -> key x <= key y.
Definition ordered (key : nat -> Z) (l : list nat) : Prop := forall c, (0 < c)%nat -> edge key l c.

(** [heapId] is the position of a node. *)
Definition placed (l : list nat) (ids : gmap nat nat) : Prop := forall k x, l !! k = Some x <-> ids !! x = Some k.

Definition room_ok (h : SIHeap) : Prop := 0 < size_ h < W32 /\ Z.of_nat (length (heap h)) <= size_ h.
Definition heap_ok (key : nat -> Z) (h : SIHeap) : Prop :=
  ordered key (heap h) /\ placed (heap h) (heapId h) /\ room_ok h.

(** The ranks respect a key. *)
Definition respects (rank key : nat -> Z) : Prop := forall x y, key x < key y -> rank x < rank y.

Lemma respects_le rank key x y : respects rank key -> rank x <= rank y -> key x <= key y.
Proof. intros H Hr. destruct (Z_le_gt_dec (key x) (key y)); [done|]. specialize (H y x). lia. Qed.

Lemma par_lt i : (0 < i)%nat -> (par i < i)%nat.
Proof. intros H. unfold par. apply Nat.Div0.div_lt_upper_bound. lia. Qed.
Lemma par_child c i : (0 < c)%nat -> par c = i <-> c = (2 * i + 1)%nat \/ c = (2 * i + 2)%nat.
Proof.
  intros H. unfold par. pose proof (Nat.div_mod_eq (c - 1) 2) as E. pose proof (Nat.mod_upper_bound (c - 1) 2). lia.
Qed.

(** Two places of a list exchanged. *)
Lemma lookup_swap (l : list nat) i j x y k : l !! i = Some x -> l !! j = Some y -> i <> j ->
  <[j := x]> (<[i := y]> l) !! k = if decide (k = j) then Some x else if decide (k = i) then Some y else l !! k.
Proof.
  intros Hi Hj Hne. apply lookup_lt_Some in Hi, Hj. destruct (decide (k = j)) as [->|H1].
  - rewrite list_lookup_insert_eq; [done|]. by rewrite length_insert.
  - rewrite list_lookup_insert_ne by done. destruct (decide (k = i)) as [->|H2].
    + by rewrite list_lookup_insert_eq.
    + by rewrite list_lookup_insert_ne.
Qed.

Section Order.
Context (key : nat -> Z).

(** A node at [i] that may be too small for its parent. *)
Definition up_inv (l : list nat) (i : nat) : Prop :=
  (forall c, (0 < c)%nat -> c <> i -> edge key l c) /\
  (forall c x y, (0 < c)%nat -> par c = i -> (0 < i)%nat -> l !! c = Some y -> l !! par i = Some x -> key x <= key y).

Lemma up_step l i np y : up_inv l i -> (0 < i)%nat -> l !! i = Some np -> l !! par i = Some y -> key np <= key y ->
  up_inv (<[par i := np]> (<[i := y]> l)) (par i).
Proof.
  intros [H1 H2] Hi Hnp Hy Hle. pose proof (par_lt i Hi) as Hlt.
  assert (Hl : forall k, <[par i := np]> (<[i := y]> l) !! k = if decide (k = par i) then Some np else if decide (k = i) then Some y else l !! k).
  { intros k. apply lookup_swap; [done|done|lia]. }
  split.
  - intros c Hc Hne a b. rewrite !Hl, decide_False by done. destruct (decide (c = i)) as [->|Hci].
    + intros [= <-]. rewrite decide_True by done. by intros [= <-].
    + intros Hb. destruct (decide (par c = par i)) as [E|E].
      * intros [= <-]. assert (key y <= key b); [|lia]. apply (H1 c Hc Hci y b Hb). by rewrite E.
      * destruct (decide (par c = i)) as [E'|E']; [|intros Ha; by apply (H1 c Hc Hci a b)].
        intros [= <-]. by apply (H2 c y b).
  - intros c a b Hc Hp Hpi. rewrite !Hl. pose proof (par_lt (par i) Hpi).
    rewrite (decide_False (P := par (par i) = par i)), (decide_False (P := par (par i) = i)) by lia.
    rewrite (decide_False (P := c = par i)) by (pose proof (par_lt c Hc); lia).
    assert (Hay : l !! par (par i) = Some a -> key a <= key y) by (intros Ha; apply (H1 (par i) Hpi ltac:(lia) a y Hy Ha)).
    destruct (decide (c = i)) as [->|Hci]; [intros [= <-]; done|]. intros Hb Ha. specialize (Hay Ha).
    assert (key y <= key b); [|lia]. apply (H1 c Hc Hci y b Hb). by rewrite Hp.
Qed.

Lemma up_exit l i : up_inv l i -> (i = 0%nat \/ edge key l i) -> ordered key l.
Proof. intros [H1 _] [->|He] c Hc; [apply H1; lia|]. destruct (decide (c = i)) as [->|]; [done|by apply H1]. Qed.

(** A node at [i] that may be too large for its children. *)
Definition down_inv (l : list nat) (i : nat) : Prop :=
  (forall c, (0 < c)%nat -> par c <> i -> edge key l c) /\
  (forall c x y, (0 < c)%nat -> par c = i -> (0 < i)%nat -> l !! c = Some y -> l !! par i = Some x -> key x <= key y).

Lemma down_step l i j xp y : down_inv l i -> (0 < j)%nat -> par j = i -> l !! i = Some xp -> l !! j = Some y -> key y <= key xp ->
  (forall c z, (0 < c)%nat -> par c = i -> l !! c = Some z -> key y <= key z) ->
  down_inv (<[j := xp]> (<[i := y]> l)) j.
Proof.
  intros [H1 H2] Hj Hp Hxp Hy Hle Hmin. pose proof (par_lt j Hj) as Hlt.
  assert (Hl : forall k, <[j := xp]> (<[i := y]> l) !! k = if decide (k = j) then Some xp else if decide (k = i) then Some y else l !! k).
  { intros k. apply lookup_swap; [done|done|lia]. }
  split.
  - intros c Hc Hne a b. rewrite !Hl, (decide_False (P := par c = j)) by done. destruct (decide (c = j)) as [->|Hcj].
    + intros [= <-]. rewrite decide_True by done. by intros [= <-].
    + destruct (decide (c = i)) as [->|Hci].
      * pose proof (par_lt i Hc). rewrite decide_False by lia. intros [= <-] Ha. by apply (H2 j a y).
      * destruct (decide (par c = i)) as [E|E].
        -- intros Hb [= <-]. by apply (Hmin c b).
        -- intros Hb Ha. by apply (H1 c Hc E a b).
  - intros c a b Hc Hpc _. rewrite !Hl. rewrite Hp, (decide_True (P := i = i)) by done. rewrite (decide_False (P := i = j)) by lia.
    pose proof (par_lt c Hc). rewrite (decide_False (P := c = j)), (decide_False (P := c = i)) by lia.
    intros Hb [= <-]. apply (H1 c Hc ltac:(lia) y b Hb). by rewrite Hpc.
Qed.

Lemma down_exit l i xp : down_inv l i -> l !! i = Some xp ->
  (forall c z, (0 < c)%nat -> par c = i -> l !! c = Some z -> key xp <= key z) -> ordered key l.
Proof.
  intros [H1 _] Hxp Hmin c Hc. destruct (decide (par c = i)) as [E|E]; [|by apply H1].
  intros x y Hy Hx. rewrite E in Hx. simplify_eq. by apply (Hmin c y).
Qed.

Lemma ordered_top l x : ordered key l -> head l = Some x -> forall k y, l !! k = Some y -> key x <= key y.
Proof.
  intros Ho Hx k. induction (lt_wf k) as [k _ IH]. intros y Hy. destruct (decide (k = 0%nat)) as [->|Hk].
  - destruct l; [done|]. by simplify_eq/=.
  - pose proof (par_lt k ltac:(lia)) as Hlt. destruct (lookup_lt_is_Some_2 l (par k)) as [z Hz]; [apply lookup_lt_Some in Hy; lia|].
    pose proof (IH (par k) Hlt z Hz). pose proof (Ho k ltac:(lia) z y Hy Hz). lia.
Qed.
End Order.

(** ** What the heap promises

    With ranks that respect a key, [Insert], [RemoveTop] and [modify] upwards keep
    the heap ordered by the key and the positions in the nodes right, and the top
    is a node with the least key.  Two consequences for the cache of the tree: the
    nodes come out by height, leaves before the nodes above them, and the nodes
    that left the tree (rank 0) come out first. *)

(** ** The positions *)

(** The state of a loop: the node [np] belongs to the hole at [i]. *)
Definition hole_ok (a : list nat) (ids : gmap nat nat) (i np : nat) : Prop :=
  (i < length a)%nat /\ (forall k x, k <> i -> a !! k = Some x -> ids !! x = Some k /\ x <> np) /\
  (forall k x, x <> np -> ids !! x = Some k -> a !! k = Some x /\ k <> i).

Lemma hole_step a ids i np j y : hole_ok a ids i np -> i <> j -> a !! j = Some y ->
  hole_ok (<[i := y]> a) (<[y := i]> ids) j np /\
  <[j := np]> (<[i := y]> a) = <[j := np]> (<[i := y]> (<[i := np]> a)).
Proof.
  intros (Hi&H1&H2) Hij Hy. destruct (H1 j y ltac:(congruence) Hy) as [Hidy Hyn]. pose proof (lookup_lt_Some _ _ _ Hy) as Hj. split.
  2:{ by rewrite list_insert_insert_eq. }
  split; [by rewrite length_insert|]. split.
  - intros k x Hk. destruct (decide (k = i)) as [->|Hki].
    + rewrite list_lookup_insert_eq by done. intros [= <-]. by rewrite lookup_insert_eq.
    + rewrite list_lookup_insert_ne by done. intros Hx. destruct (H1 k x Hki Hx) as [Hidx Hxn].
      split; [|done]. rewrite lookup_insert_ne; [done|]. intros ->. congruence.
  - intros k x Hx. destruct (decide (x = y)) as [->|Hxy].
    + rewrite lookup_insert_eq. intros [= <-]. by rewrite list_lookup_insert_eq.
    + rewrite lookup_insert_ne by done. intros Hidx. destruct (H2 k x Hx Hidx) as [Hak Hki].
      rewrite list_lookup_insert_ne by done. split; [done|]. intros ->. congruence.
Qed.

Lemma hole_fill a ids i np : hole_ok a ids i np -> placed (<[i := np]> a) (<[np := i]> ids).
Proof.
  intros (Hi&H1&H2) k x. destruct (decide (k = i)) as [->|Hk].
  - rewrite list_lookup_insert_eq by done. destruct (decide (x = np)) as [->|Hx].
    + by rewrite lookup_insert_eq.
    + rewrite lookup_insert_ne by done. split; [congruence|]. intros Hidx. by destruct (H2 i x Hx Hidx).
  - rewrite list_lookup_insert_ne by done. split.
    + intros Hx. destruct (H1 k x Hk Hx) as [Hidx Hne]. by rewrite lookup_insert_ne.
    + destruct (decide (x = np)) as [->|Hx]; [rewrite lookup_insert_eq; congruence|]. rewrite lookup_insert_ne by done.
      intros Hidx. by destruct (H2 k x Hx Hidx).
Qed.

Lemma placed_dom l ids x : placed l ids -> x ∈ l <-> x ∈ dom ids.
Proof.
  intros H. rewrite list_elem_of_lookup, elem_of_dom. split; [intros [k Hk]; exists k; by apply H|intros [k Hk]; exists k; by apply H].
Qed.

Lemma placed_NoDup l ids : placed l ids -> NoDup l.
Proof. intros H. apply NoDup_alt. intros i j x Hi Hj. apply H in Hi, Hj. congruence. Qed.

Section Ops.
Context (rank key : nat -> Z) (HR : respects rank key).

(** The invariant of the loops with a hole. *)
Definition loop_inv (inv : (nat -> Z) -> list nat -> nat -> Prop) (n : nat) (D : gset nat) (np : nat) (st : loop_state) : Prop :=
  let '(a, ids, i, stop) := st in
  hole_ok a ids i np /\ length a = n /\ dom ids ∪ {[np]} = D /\ inv key (<[i := np]> a) i /\
  (stop = true -> ordered key (<[i := np]> a)).

Definition loop_post (n : nat) (D : gset nat) (np : nat) (st : loop_state) : Prop :=
  let '(a, ids, i, _) := st in let '(a', ids') := move a ids i np in
  ordered key a' /\ placed a' ids' /\ length a' = n /\ dom ids' = D.

Lemma loop_done inv n D np a ids i stop : loop_inv inv n D np (a, ids, i, stop) -> ordered key (<[i := np]> a) ->
  loop_post n D np (a, ids, i, stop).
Proof using HR.
  intros (Hh&Hl&Hd&_) Ho. unfold loop_post, move. split; [done|]. split; [by apply hole_fill|]. rewrite length_insert.
  split; [done|]. rewrite dom_insert_L, <- Hd. set_solver.
Qed.

Lemma dom_again (ids : gmap nat nat) y k i : ids !! y = Some k -> dom (<[y := i]> ids) = dom ids.
Proof using HR. intros H. rewrite dom_insert_lookup_L; [done|by exists k]. Qed.

Lemma insert_loop n D np a ids i : loop_inv up_inv n D np (a, ids, i, false) ->
  wp (while (i + 2) up_cond (insert_body rank np) (a, ids, i, false)) (loop_post n D np).
Proof using HR.
  intros H. apply (wp_while (loop_inv up_inv n D np) (fun '(_, _, i, stop) => i + (if (stop : bool) then 0 else 1))%nat); [done|simpl; lia|].
  clear - HR. intros [[[a ids] i] stop] (Hh&Hl&Hd&Hi&Hst). simpl. destruct stop; simpl.
  { by eapply loop_done; [split_and!|apply Hst]. }
  destruct (Nat.eqb_spec i 0) as [->|Hi0]; simpl.
  { eapply loop_done; [by split_and!|]. by apply (up_exit _ _ 0); [|left]. }
  pose proof (par_lt i ltac:(lia)) as Hlt. pose proof Hh as (Hil&H1&H2).
  destruct (lookup_lt_is_Some_2 a (par i)) as [y Hy]; [lia|]. rewrite Hy. simpl.
  assert (Hnp : <[i := np]> a !! i = Some np) by (by rewrite list_lookup_insert_eq).
  assert (Hy' : <[i := np]> a !! par i = Some y) by (rewrite list_lookup_insert_ne by lia; done).
  destruct (Z.leb_spec (rank y) (rank np)) as [Hc|Hc]; simpl.
  - split; [|lia]. split_and!; try done. intros _. apply (up_exit _ _ i); [done|right].
    intros x z Hz Hx. simplify_eq. by eapply respects_le.
  - destruct (hole_step a ids i np (par i) y Hh ltac:(lia) Hy) as [Hh' E]. split; [|lia].
    split_and!; try done; [by rewrite length_insert| |].
    + destruct (H1 (par i) y ltac:(lia) Hy) as [Hid _]. by rewrite (dom_again ids y (par i) i Hid).
    + rewrite E. apply up_step; try done; [lia|]. eapply respects_le; [done|lia].
Qed.

(** The lower child. *)
Lemma min_child_ok a i np : (lchild i < length a)%nat ->
  exists j y, min_child rank a (lchild i) = Some j /\ (0 < j)%nat /\ par j = i /\ a !! j = Some y /\ i <> j /\
    forall c z, (0 < c)%nat -> par c = i -> <[i := np]> a !! c = Some z -> rank y <= rank z.
Proof using HR.
  unfold lchild. intros Hl. destruct (lookup_lt_is_Some_2 a (2 * i + 1)) as [y Hy]; [lia|]. unfold min_child.
  assert (Hc : forall c z, (0 < c)%nat -> par c = i -> <[i := np]> a !! c = Some z -> a !! c = Some z /\ (c = (2 * i + 1) \/ c = Datatypes.S (2 * i + 1))%nat).
  { intros c z Hc0 Hpc Hz. apply par_child in Hpc as Hcc; [|done]. rewrite list_lookup_insert_ne in Hz by lia. split; [done|lia]. }
  destruct (Nat.ltb_spec (2 * i + 1) (length a - 1)) as [Hr|Hr].
  - destruct (lookup_lt_is_Some_2 a (Datatypes.S (2 * i + 1))) as [z Hz]; [lia|]. rewrite Hy, Hz. simpl.
    destruct (Z.ltb_spec (rank z) (rank y)) as [Hc'|Hc'].
    + exists (Datatypes.S (2 * i + 1)), z. split_and!; try done; try lia; [apply par_child; lia|].
      intros c w Hc0 Hpc Hw. destruct (Hc c w Hc0 Hpc Hw) as [Hw' [->| ->]]; simplify_eq; lia.
    + exists (2 * i + 1)%nat, y. split_and!; try done; try lia; [apply par_child; lia|].
      intros c w Hc0 Hpc Hw. destruct (Hc c w Hc0 Hpc Hw) as [Hw' [->| ->]]; simplify_eq; lia.
  - exists (2 * i + 1)%nat, y. split_and!; try done; try lia; [apply par_child; lia|].
    intros c w Hc0 Hpc Hw. destruct (Hc c w Hc0 Hpc Hw) as [Hw' [->| ->]]; [simplify_eq; lia|]. apply lookup_lt_Some in Hw'. lia.
Qed.

Lemma remove_loop n D xp a ids : loop_inv down_inv n D xp (a, ids, 0%nat, false) ->
  wp (while (n + 2) down_cond (remove_body rank xp) (a, ids, 0%nat, false)) (loop_post n D xp).
Proof using HR.
  intros H. apply (wp_while (loop_inv down_inv n D xp) (fun '(_, _, i, stop) => (n - i) + (if (stop : bool) then 0 else 1))%nat); [done|simpl; lia|].
  clear - HR. intros [[[a ids] i] stop] (Hh&Hl&Hd&Hi&Hst). simpl. destruct stop; simpl.
  { by eapply loop_done; [split_and!|apply Hst]. }
  pose proof Hh as (Hil&H1&H2). assert (Hxp : <[i := xp]> a !! i = Some xp) by (by rewrite list_lookup_insert_eq).
  destruct (Nat.ltb_spec (lchild i) (length a)) as [Hlt|Hge]; simpl.
  2:{ eapply loop_done; [by split_and!|]. apply (down_exit _ _ i xp); [done|done|]. intros c z Hc Hp Hz.
      apply par_child in Hp; [|done]. apply lookup_lt_Some in Hz. rewrite length_insert in Hz. unfold lchild in Hge. lia. }
  destruct (min_child_ok a i xp Hlt) as (j&y&Hj&Hj0&Hpj&Hy&Hij&Hmin).
  rewrite Hj. simpl. rewrite Hy. simpl. pose proof (lookup_lt_Some _ _ _ Hy) as Hjl. pose proof (par_lt j Hj0) as Hlj.
  assert (Hy' : <[i := xp]> a !! j = Some y) by (rewrite list_lookup_insert_ne by lia; done).
  destruct (Z.leb_spec (rank xp) (rank y)) as [Hc|Hc]; simpl.
  - split; [|lia]. split_and!; try done. intros _. apply (down_exit _ _ i xp); [done|done|].
    intros c z Hc0 Hpc Hz. eapply respects_le; [done|]. specialize (Hmin c z Hc0 Hpc Hz). lia.
  - destruct (hole_step a ids i xp j y Hh Hij Hy) as [Hh' E]. split; [|lia].
    split_and!; try done; [by rewrite length_insert| |].
    + destruct (H1 j y ltac:(lia) Hy) as [Hid _]. by rewrite (dom_again ids y j i Hid).
    + rewrite E. apply down_step; try done; [eapply respects_le; [done|lia]|]. intros c z Hc0 Hpc Hz. eapply respects_le; [done|]. by eapply Hmin.
Qed.
End Ops.

(** ** The operations *)

Section Calls.
Context (rank key : nat -> Z) (HR : respects rank key).

Lemma heap_Insert_ok h np : heap_ok key h -> heapId h !! np = None -> size_ h < 2147483648 ->
  wpM (Insert rank np) h (fun r h' => r = true /\ heap_ok key h' /\ dom (heapId h') = dom (heapId h) ∪ {[np]}).
Proof using HR.
  intros (Ho&Hp&Hs&Hl) Hnp Hcap. unfold wpM, Insert.
  set (size := if Z.of_nat (length (heap h)) =? size_ h then 2 ⊠ size_ h else size_ h).
  assert (Hsize : 0 < size < W32 /\ Z.of_nat (length (heap h)) < size).
  { unfold size. destruct (Z.eqb_spec (Z.of_nat (length (heap h))) (size_ h)); [|lia]. rewrite u32_small by (unfold W32 in *; lia). unfold W32. lia. }
  clearbody size. destruct (Z.leb_spec size (Z.of_nat (length (heap h)))); [lia|].
  assert (Hn : np ∉ heap h) by (intros Hin; apply (placed_dom _ _ _ Hp), elem_of_dom in Hin as [? ?]; congruence).
  assert (Hsame : <[length (heap h) := np]> (heap h ++ [np]) = heap h ++ [np]) by (rewrite insert_app_r_alt, Nat.sub_diag by lia; done).
  set (n := Datatypes.S (length (heap h))). set (D := dom (heapId h) ∪ {[np]}).
  assert (Hloop : wp (while (length (heap h) + 2) up_cond (insert_body rank np) (heap h ++ [np], heapId h, length (heap h), false)) (loop_post key n D np)).
  { apply insert_loop; [done|]. split_and!; try done.
    - split; [rewrite length_app; simpl; lia|]. split.
      + intros k x Hk Hx. rewrite lookup_app_l in Hx.
        * split; [by apply Hp|]. intros ->. apply Hn. by eapply list_elem_of_lookup_2.
        * apply lookup_lt_Some in Hx. rewrite length_app in Hx. simpl in Hx. lia.
      + intros k x Hx Hid. apply Hp in Hid. pose proof (lookup_lt_Some _ _ _ Hid). rewrite lookup_app_l by done. split; [done|lia].
    - rewrite length_app. simpl. unfold n. lia.
    - rewrite Hsame. split.
      + intros c Hc Hne x y Hy Hx. pose proof (lookup_lt_Some _ _ _ Hy) as Hcl. rewrite length_app in Hcl. simpl in Hcl.
        pose proof (par_lt c Hc). rewrite lookup_app_l in Hy, Hx by lia. by apply (Ho c Hc x y).
      + intros c x y Hc Hpc H0 Hy. apply lookup_lt_Some in Hy. rewrite length_app in Hy. simpl in Hy.
        apply par_child in Hpc; lia. }
  apply wp_bind. eapply wp_mono, Hloop. intros [[[a ids] i] stop] (H1&H2&H3&H4). simpl.
  split; [done|]. split; [|done]. split; [done|]. split; [done|]. unfold room_ok. simpl. rewrite H3. unfold n. lia.
Qed.

(** The heap without its top and its last node. *)
Lemma heap_remove_start h top l xp : heap_ok key h -> heap h = top :: l ++ [xp] ->
  loop_inv key down_inv (Datatypes.S (length l)) (dom (heapId h) ∖ {[top]}) xp (top :: l, delete top (heapId h), 0%nat, false).
Proof using HR.
  intros (Ho&Hp&_) Hh. rewrite Hh in Hp, Ho. pose proof (placed_NoDup _ _ Hp) as Hnd.
  assert (Htop : heapId h !! top = Some 0%nat) by (by apply Hp).
  assert (Hxp : heapId h !! xp = Some (Datatypes.S (length l))) by (apply Hp; by apply (list_lookup_middle (top :: l) [])).
  assert (Hne : xp <> top) by (intros ->; congruence).
  assert (Hin : forall k x, (top :: l) !! k = Some x -> heapId h !! x = Some k /\ (k < Datatypes.S (length l))%nat).
  { intros k x Hx. pose proof (lookup_lt_Some _ _ _ Hx) as Hk. simpl in Hk. split; [|done]. apply Hp.
    change (top :: l ++ [xp]) with ((top :: l) ++ [xp]). by rewrite lookup_app_l. }
  split_and!; try done.
  - split; [simpl; lia|]. split.
    + intros k x Hk Hx. destruct (Hin k x Hx) as [Hid Hkl]. split; [|intros ->; rewrite Hxp in Hid; simplify_eq; lia].
      rewrite lookup_delete_ne; [done|]. intros ->. congruence.
    + intros k x Hx Hid. apply lookup_delete_Some in Hid as [Hxt Hid]. assert (k <> 0%nat) by (intros ->; apply Hp in Hid; by simplify_eq/=).
      split; [|done]. apply Hp in Hid. change (top :: l ++ [xp]) with ((top :: l) ++ [xp]) in Hid. rewrite lookup_app_Some in Hid.
      destruct Hid as [?|[? Hid]]; [done|]. apply list_lookup_singleton_Some in Hid as [_ ?]. congruence.
  - rewrite dom_delete_L. assert (xp ∈ dom (heapId h)) by (by apply elem_of_dom_2 in Hxp). set_solver.
  - simpl. split; [|intros c x y _ _ H0; lia].
    intros c Hc Hpc x y Hy Hx. destruct c; [lia|].
    assert (Hpc' : exists p, par (Datatypes.S c) = Datatypes.S p) by (destruct (par (Datatypes.S c)); [done|eauto]). destruct Hpc' as [p Ep]. rewrite Ep in Hx. simpl in Hx, Hy.
    apply (Ho (Datatypes.S c) ltac:(lia) x y); [|rewrite Ep]; simpl; rewrite lookup_app_l; try done; by eapply lookup_lt_Some.
Qed.

Lemma RemoveTop_ok h top l : heap_ok key h -> heap h = top :: l ->
  wpM (RemoveTop rank) h (fun r h' => r = true /\ heap_ok key h' /\ dom (heapId h') = dom (heapId h) ∖ {[top]} /\
    size_ h' = size_ h /\ length (heap h') = length l).
Proof using HR.
  intros Hok Hh. pose proof Hok as (Ho&Hp&Hs&Hl). unfold wpM, RemoveTop. rewrite Hh in *.
  destruct l as [|xp l _] using rev_ind.
  { simpl. split; [done|]. rewrite dom_delete_L. split; [|done]. split; [by intros c Hc x y Hy|]. split; [|unfold room_ok; simpl in *; lia].
    intros k x. simpl. rewrite lookup_nil. split; [done|]. destruct (decide (x = top)) as [->|Hx]; [by rewrite lookup_delete_eq|].
    rewrite lookup_delete_ne by done. intros Hid. apply Hp in Hid. destruct k; by simplify_eq/=. }
  assert (Htake : take (length (top :: l ++ [xp]) - 1) (top :: l ++ [xp]) = top :: l).
  { simpl. rewrite length_app. simpl. replace (length l + 1 - 0)%nat with (Datatypes.S (length l)) by lia. simpl. by rewrite take_app_length. }
  rewrite Htake. cbn zeta. cbn [length Nat.eqb].
  assert (Hlast : (top :: l ++ [xp]) !! Datatypes.S (length l) = Some xp) by (by apply (list_lookup_middle (top :: l) [])).
  rewrite Hlast. apply wp_bind, wp_Some, wp_bind. eapply wp_mono; [|by apply (remove_loop rank key HR (Datatypes.S (length l))), heap_remove_start].
  intros [[[a ids] i] stop] (H1&H2&H3&H4). simpl. split; [done|]. rewrite length_app. simpl in *.
  split; [split; [done|]; split; [done|]|split_and!; [done|done|lia]]. unfold room_ok. simpl. rewrite length_app in Hl. simpl in Hl. lia.
Qed.

(** A node whose rank became lower. *)
Lemma modify_up_ok h np i : placed (heap h) (heapId h) -> heapId h !! np = Some i -> up_inv key (heap h) i -> room_ok h ->
  wpM (modify rank np true) h (fun r h' => r = true /\ heap_ok key h' /\ dom (heapId h') = dom (heapId h) /\ size_ h' = size_ h).
Proof using HR.
  intros Hp Hid Hup [Hs Hl]. unfold wpM, modify. rewrite Hid.
  assert (Hil : (i < length (heap h))%nat) by (apply Hp in Hid; by eapply lookup_lt_Some).
  assert (Hloop : wp (while (length (heap h) + 2) up_cond (modify_up_body rank np) (heap h, heapId h, i, false))
    (fun st => let '(a, ids, _, _) := st in ordered key a /\ placed a ids /\ length a = length (heap h) /\ dom ids = dom (heapId h))).
  { apply (wp_while (fun '(a, ids, i, stop) => placed a ids /\ a !! i = Some np /\ length a = length (heap h) /\
        dom ids = dom (heapId h) /\ up_inv key a i /\ (stop = true -> ordered key a))
      (fun '(_, _, i, stop) => i + (if (stop : bool) then 0 else 1))%nat).
    - split_and!; try done. by apply Hp.
    - simpl. lia.
    - clear - HR. intros [[[a ids] i] stop] (Hp&Hnp&Hlen&Hd&Hi&Hst). simpl. destruct stop; simpl; [by split_and!; [apply Hst|..]|].
      destruct (Nat.eqb_spec i 0) as [->|Hi0]; simpl; [split_and!; try done; by apply (up_exit _ _ 0); [|left]|].
      pose proof (par_lt i ltac:(lia)) as Hlt. pose proof (lookup_lt_Some _ _ _ Hnp) as Hil.
      destruct (lookup_lt_is_Some_2 a (par i)) as [y Hy]; [lia|]. rewrite Hy. simpl.
      assert (Hne : y <> np) by (intros ->; apply Hp in Hy, Hnp; simplify_eq; lia).
      destruct (Z.ltb_spec (rank np) (rank y)) as [Hc|Hc]; simpl.
      + split; [|lia]. rewrite !length_insert. split_and!; try done.
        * intros k x. rewrite (lookup_swap a i (par i) np y k Hnp Hy) by lia. destruct (decide (k = par i)) as [->|Hk].
          -- destruct (decide (x = np)) as [->|Hx]; [by rewrite lookup_insert_eq|]. rewrite lookup_insert_ne by done.
             split; [congruence|]. destruct (decide (x = y)) as [->|Hxy]; [rewrite lookup_insert_eq; intros [= ?]; lia|].
             rewrite lookup_insert_ne by done. intros Hk. apply Hp in Hk. congruence.
          -- destruct (decide (k = i)) as [->|Hki].
             ++ destruct (decide (x = np)) as [->|Hx]; [rewrite lookup_insert_eq; split; [congruence|intros [= ?]; lia]|]. rewrite lookup_insert_ne by done.
                destruct (decide (x = y)) as [->|Hxy]; [by rewrite lookup_insert_eq|]. rewrite lookup_insert_ne by done.
                split; [congruence|]. intros Hk'. apply Hp in Hk'. congruence.
             ++ rewrite (Hp k x). destruct (decide (x = np)) as [->|Hx].
                { rewrite lookup_insert_eq. split; [|congruence]. intros Hk'. apply Hp in Hnp. congruence. }
                rewrite lookup_insert_ne by done. destruct (decide (x = y)) as [->|Hxy]; [|by rewrite lookup_insert_ne].
                rewrite lookup_insert_eq. apply Hp in Hy. split; congruence.
        * rewrite list_lookup_insert_eq; [done|]. rewrite length_insert. lia.
        * rewrite !dom_insert_L, Hd. apply Hp in Hnp, Hy. apply elem_of_dom_2 in Hnp, Hy. rewrite Hd in Hnp, Hy. set_solver.
        * apply up_step; try done; [lia|]. eapply respects_le; [done|lia].
      + split; [|lia]. split_and!; try done. intros _. apply (up_exit _ _ i); [done|right].
        intros x z Hz Hx. simplify_eq. by eapply respects_le. }
  apply wp_bind. eapply wp_mono, Hloop. intros [[[a ids] j] stop] (H1&H2&H3&H4). simpl. split; [done|]. split; [|done].
  split; [done|]. split; [done|]. unfold room_ok. simpl. lia.
Qed.

Lemma heap_modify_absent np up h : heapId h !! np = None -> modify rank np up h = Some (false, h).
Proof using Type. intros H. unfold modify. by rewrite H. Qed.
End Calls.

Lemma respects_flags flags : respects (rank_of flags) (height_of flags).
Proof. intros x y. apply flag_respects. Qed.

(** ** The heap of the tree *)

(** [if (root_->heapId == -1) root_->heapId = 0] in [SITree::Insert]. *)
Definition mark_root (x : nat) (h : SIHeap) : SIHeap :=
  match heapId h !! x with
  | Some _ => h
  | None => mk_SIHeap (heap h) (size_ h) (<[x := 0%nat]> (heapId h))
  end.

(** A root that has the position 0 and is not in the heap is not moved by the calls
    the tree makes for it. *)
Lemma marked_root_stays flags x rank h :
  heapId h !! x = None -> rank = rank_of flags x \/ rank = 0 ->
  updateHeap flags x rank true (mark_root x h) = Some (setRank flags x rank, mark_root x h).
Proof.
  intros Hx Hr. unfold mark_root. rewrite Hx. unfold updateHeap.
  pose proof (rank_bounds (flags !!! x)) as Hb. fold (rank_of flags x) in Hb.
  destruct (Z.ltb_spec (rank_of flags x) rank); [lia|].
  destruct (Z.ltb_spec rank (rank_of flags x)); [|done].
  unfold modify. cbn [heapId heap size_]. rewrite lookup_insert_eq. cbn match.
  replace (length (heap h) + 2)%nat with (S (S (length (heap h)))) by lia. by rewrite while_stop.
Qed.

(** What the tree does to the heap ([SITree], [SIStorage]): the flags of a node
    change, not the height of a node that is in the heap, and a removed node keeps
    rank 0; a node with a height is put in; the top is taken out; a node is
    removed from the tree.  A root made by a split ([SITree::Insert]) is not put in
    the heap, although the source says so; it only gets the position 0
    ([mark_root]), and the calls on it, with its own rank or with 0, find nothing to
    do ([marked_root_stays]).  It is no node of the heap, so the steps leave it out. *)
Definition heap_state : Type := gmap nat Z * SIHeap.
Inductive heap_step : heap_state -> heap_state -> Prop :=
  | step_flags flags flags' h :
      (forall x, x ∈ heap h -> height_of flags' x = height_of flags x /\ (rank_of flags x = 0 -> rank_of flags' x = 0)) ->
      heap_step (flags, h) (flags', h)
  | step_add flags flags' h h' x : heapId h !! x = None -> 0 < height_of flags x -> size_ h < 2147483648 ->
      updateHeap flags x (rank_of flags x) false h = Some (flags', h') -> heap_step (flags, h) (flags', h')
  | step_evict flags h h' x : getTop h = Some x -> RemoveTop (rank_of flags) h = Some (true, h') -> heap_step (flags, h) (flags, h')
  | step_update flags flags' h h' x :
      updateHeap flags x (rank_of flags x) true h = Some (flags', h') -> heap_step (flags, h) (flags', h')
  | step_removed flags flags' h h' x : updateHeap flags x 0 true h = Some (flags', h') -> heap_step (flags, h) (flags', h').

Definition heap_inv (st : heap_state) : Prop :=
  let '(flags, h) := st in
  heap_ok (height_of flags) h /\ forall x, x ∈ heap h -> height_of flags x = 0 -> rank_of flags x = 0.

Lemma heap_ok_key key key' h : (forall x, x ∈ heap h -> key' x = key x) -> heap_ok key h -> heap_ok key' h.
Proof.
  intros H (Ho&Hp&Hr). split; [|done]. intros c Hc x y Hy Hx. rewrite !H by (by eapply list_elem_of_lookup_2). by apply (Ho c Hc x y).
Qed.

Lemma heap_inv_flags flags flags' h :
  (forall x, x ∈ heap h -> height_of flags' x = height_of flags x /\ (rank_of flags x = 0 -> rank_of flags' x = 0)) ->
  heap_inv (flags, h) -> heap_inv (flags', h).
Proof.
  intros H [Hok H0]. split; [eapply heap_ok_key; [|done]; intros x Hx; by apply H|].
  intros x Hx. destruct (H x Hx) as [-> Hr]. intros Hh. by apply Hr, H0.
Qed.

Lemma heap_elem h key x : heap_ok key h -> x ∈ heap h <-> x ∈ dom (heapId h).
Proof. intros (_&Hp&_). by apply placed_dom. Qed.

Lemma setRank_own flags x y : setRank flags x (rank_of flags x) !!! y = flags !!! y.
Proof.
  unfold setRank, rank_of. destruct (decide (y = x)) as [->|Hy]; [rewrite lookup_total_insert_eq; apply flag_setRank_same|].
  by rewrite lookup_total_insert_ne.
Qed.
Lemma height_own flags x y : height_of (setRank flags x (rank_of flags x)) y = height_of flags y.
Proof. unfold height_of. by rewrite setRank_own. Qed.
Lemma rank_own flags x y : rank_of (setRank flags x (rank_of flags x)) y = rank_of flags y.
Proof. unfold rank_of at 1. by rewrite setRank_own. Qed.
Lemma rank_removed flags x y : rank_of (setRank flags x 0) y = if decide (y = x) then 0 else rank_of flags y.
Proof.
  unfold rank_of, setRank. case_decide as Hy; [subst; rewrite lookup_total_insert_eq; by apply flag_setRank_spec|].
  by rewrite lookup_total_insert_ne.
Qed.
Lemma height_removed flags x y : height_of (setRank flags x 0) y = if decide (y = x) then 0 else height_of flags y.
Proof.
  pose proof (rank_removed flags x y) as Hr. case_decide as Hy; [by apply rank_0_height|].
  unfold height_of, setRank. by rewrite lookup_total_insert_ne.
Qed.

(** ** Every step keeps the invariant *)

Lemma add_ok flags h x : heap_inv (flags, h) -> heapId h !! x = None -> 0 < height_of flags x -> size_ h < 2147483648 ->
  exists flags' h', updateHeap flags x (rank_of flags x) false h = Some (flags', h') /\ heap_inv (flags', h') /\
    flags' = setRank flags x (rank_of flags x) /\ dom (heapId h') = dom (heapId h) ∪ {[x]}.
Proof.
  intros [Hok H0] Hx Hh Hs. unfold updateHeap. set (fl := setRank flags x (rank_of flags x)).
  assert (Hk : heap_ok (height_of fl) h) by (eapply heap_ok_key; [|done]; intros y _; apply height_own).
  pose proof (heap_Insert_ok _ _ (respects_flags fl) h x Hk Hx Hs) as Hw.
  apply wpM_inv in Hw as (r&h'&Hi&_&Hok'&Hd).
  rewrite Hi. simpl. exists fl, h'. split_and!; try done. intros y Hy. unfold fl. rewrite height_own, rank_own.
  apply (heap_elem _ _ _ Hok') in Hy. rewrite Hd in Hy. intros Hz. apply H0; [|done]. apply (heap_elem _ _ _ Hok).
  apply elem_of_union in Hy as [Hy|Hy]; [done|]. apply elem_of_singleton in Hy. subst. lia.
Qed.

Lemma evict_ok flags h x : heap_inv (flags, h) -> getTop h = Some x ->
  exists h', RemoveTop (rank_of flags) h = Some (true, h') /\ heap_inv (flags, h') /\
    dom (heapId h') = dom (heapId h) ∖ {[x]} /\ size_ h' = size_ h /\ Datatypes.S (length (heap h')) = length (heap h).
Proof.
  intros [Hok H0] Hx. unfold getTop in Hx. destruct (heap h) as [|top l] eqn:Eh; [done|]. simplify_eq/=.
  pose proof (RemoveTop_ok _ _ (respects_flags flags) h x l Hok Eh) as Hw.
  apply wpM_inv in Hw as (r&h'&Hi&->&Hok'&Hd&Hs&Hl). exists h'. split_and!; try done; [|by rewrite Hl].
  intros y Hy. apply H0. rewrite <- Eh. apply (heap_elem _ _ _ Hok). apply (heap_elem _ _ _ Hok') in Hy. rewrite Hd in Hy. set_solver.
Qed.

Lemma update_ok flags h x : heap_inv (flags, h) ->
  exists flags', updateHeap flags x (rank_of flags x) true h = Some (flags', h) /\ heap_inv (flags', h).
Proof.
  intros H. unfold updateHeap. rewrite Z.ltb_irrefl. eexists. split; [done|]. eapply heap_inv_flags; [|done].
  intros y _. by rewrite height_own, rank_own.
Qed.

Lemma removed_up key h i x : heap_ok key h -> heapId h !! x = Some i -> (forall y, 0 <= key y) ->
  up_inv (fun y => if decide (y = x) then 0 else key y) (heap h) i.
Proof.
  intros (Ho&Hp&_) Hx H0. assert (Hne : forall k y, k <> i -> heap h !! k = Some y -> y <> x) by (intros k y Hk Hy ->; apply Hp in Hy; congruence).
  split.
  - intros c Hc Hci a b Hb Ha. rewrite (decide_False (P := b = x)) by (by eapply Hne). case_decide; [done|by apply (Ho c Hc a b)].
  - intros c a b Hc Hpc Hi Hb Ha. pose proof (par_lt c Hc). pose proof (par_lt i Hi).
    rewrite !decide_False by (eapply Hne; [|done]; lia). apply Hp in Hx.
    pose proof (Ho i Hi a x Hx Ha). pose proof (Ho c Hc x b Hb) as H'. rewrite Hpc in H'. specialize (H' Hx). lia.
Qed.

Lemma removed_ok flags h x : heap_inv (flags, h) ->
  exists flags' h', updateHeap flags x 0 true h = Some (flags', h') /\ heap_inv (flags', h') /\
    flags' = setRank flags x 0 /\ dom (heapId h') = dom (heapId h) /\ size_ h' = size_ h.
Proof.
  intros [Hok H0]. unfold updateHeap. set (fl := setRank flags x 0). pose proof (rank_bounds (flags !!! x)) as Hb.
  destruct (Z.ltb_spec (rank_of flags x) 0); [unfold rank_of in *; lia|].
  assert (Hz : forall y, y ∈ heap h -> height_of fl y = 0 -> rank_of fl y = 0).
  { intros y Hy. unfold fl. rewrite height_removed, rank_removed. case_decide; [done|by apply H0]. }
  assert (Hsame : (forall y, y ∈ heap h -> height_of fl y = height_of flags y) -> heap_inv (fl, h)).
  { intros E. split; [by eapply heap_ok_key|done]. }
  destruct (Z.ltb_spec 0 (rank_of flags x)) as [Hr|Hr].
  2:{ exists fl, h. split_and!; try done. apply Hsame. intros y _. unfold fl. rewrite height_removed. case_decide; [|done]. subst.
      symmetry. apply rank_0_height. unfold rank_of in *. lia. }
  destruct (heapId h !! x) as [i|] eqn:Hx.
  2:{ rewrite heap_modify_absent by done. exists fl, h. split_and!; try done. apply Hsame. intros y Hy. unfold fl. rewrite height_removed.
      rewrite decide_False; [done|]. intros ->. apply (heap_elem _ _ _ Hok) in Hy. by apply not_elem_of_dom in Hx. }
  assert (Hup : up_inv (height_of fl) (heap h) i).
  { destruct (removed_up _ h i x Hok Hx) as [H1 H2]; [intros y; apply height_bounds|].
    split; [intros c Hc Hci a b|intros c a b]; unfold fl; rewrite !height_removed; [by apply H1|by apply H2]. }
  destruct Hok as (Ho&Hp&Hs). pose proof (modify_up_ok _ _ (respects_flags fl) h x i Hp Hx Hup Hs) as Hw.
  apply wpM_inv in Hw as (r&h'&Hi&_&Hok'&Hd&Hsz). rewrite Hi. exists fl, h'. split_and!; try done.
  split; [done|]. intros y Hy. apply Hz, (placed_dom _ _ _ Hp). rewrite <- Hd. by apply (heap_elem _ _ _ Hok').
Qed.

(** ** Histories *)

(** A state of the heap from a new one. *)
Definition heap_reachable (n : Z) : heap_state -> Prop := rtc heap_step (∅, SIHeap_new n).

Lemma heap_step_inv st st' : heap_step st st' -> heap_inv st -> heap_inv st'.
Proof.
  intros H Hinv. destruct H as [flags flags' h H|flags flags' h h' x Hx Hh Hs E|flags h h' x Hx E|flags flags' h h' x E|flags flags' h h' x E].
  - by apply (heap_inv_flags flags).
  - destruct (add_ok flags h x Hinv Hx Hh Hs) as (fl&h2&E'&H'&_). congruence.
  - destruct (evict_ok flags h x Hinv Hx) as (h2&E'&H'&_). congruence.
  - destruct (update_ok flags h x Hinv) as (fl&E'&H'). congruence.
  - destruct (removed_ok flags h x Hinv) as (fl&h2&E'&H'&_). congruence.
Qed.

Lemma heap_new_inv flags n : 0 < n < W32 -> heap_inv (flags, SIHeap_new n).
Proof.
  intros Hn. split; [|by intros x Hx; apply not_elem_of_nil in Hx]. split; [by intros c Hc x y Hy|]. split; [|by unfold room_ok; simpl; lia].
  intros k x. simpl. by rewrite lookup_nil, lookup_empty.
Qed.

Lemma heap_reachable_inv n st : 0 < n < W32 -> heap_reachable n st -> heap_inv st.
Proof.
  intros Hn H. unfold heap_reachable in H. assert (Hg : heap_inv (∅, SIHeap_new n)) by (by apply heap_new_inv).
  induction H as [|a b c Hab _ IH]; [done|]. apply IH. by eapply heap_step_inv.
Qed.

Lemma top_least flags h x y : heap_inv (flags, h) -> getTop h = Some x -> y ∈ heap h -> height_of flags x <= height_of flags y.
Proof. intros [(Ho&_) _] Hx Hy. apply list_elem_of_lookup in Hy as [k Hk]. by eapply ordered_top. Qed.

Lemma top_elem flags h x : heap_inv (flags, h) -> getTop h = Some x -> x ∈ heap h.
Proof. intros _ Hx. unfold getTop in Hx. destruct (heap h); simplify_eq/=. apply list_elem_of_here. Qed.

Lemma flush_ok flags fuel h : heap_inv (flags, h) -> (length (heap h) < fuel)%nat ->
  wp (flush_removed fuel flags h) (fun '(l, h') => heap_inv (flags, h') /\ NoDup l /\
    (forall x, x ∈ l <-> x ∈ heap h /\ rank_of flags x = 0) /\ (forall x, x ∈ heap h' <-> x ∈ heap h /\ rank_of flags x <> 0)).
Proof.
  revert h. induction fuel as [|fuel IH]; intros h Hinv Hf; [lia|]. simpl. destruct (getTop h) as [p|] eqn:Ep.
  2:{ unfold getTop in Ep. assert (E : heap h = []) by (by destruct (heap h)). split; [done|]. split; [constructor|].
      rewrite E. split; intros x; rewrite elem_of_nil; naive_solver. }
  destruct (Z.eqb_spec (rank_of flags p) 0) as [Hz|Hz].
  - destruct (evict_ok flags h p Hinv Ep) as (h'&E&Hinv'&Hd&_&Hl). rewrite E. simpl. apply wp_bind.
    eapply wp_mono, (IH h' Hinv'); [|lia]. intros [l h2] (H1&H2&H3&H4). simpl.
    assert (Hin : forall x, x ∈ heap h' <-> x ∈ heap h /\ x <> p).
    { intros x. rewrite (heap_elem _ _ x (proj1 Hinv')), Hd, (heap_elem _ _ x (proj1 Hinv)). set_solver. }
    split; [done|]. split; [constructor; [|done]; rewrite H3, Hin; naive_solver|]. split; intros x.
    + rewrite elem_of_cons, H3, Hin. destruct (decide (x = p)) as [->|Hx]; [|naive_solver].
      split; [intros _; split; [by eapply top_elem|done]|by left].
    + rewrite H4, Hin. naive_solver.
  - split; [done|]. split; [constructor|].
    assert (Hall : forall x, x ∈ heap h -> rank_of flags x <> 0).
    { intros x Hx Hr. pose proof (top_least flags h p x Hinv Ep Hx) as Hle. pose proof (rank_0_height (flags !!! x) Hr) as Hh.
      unfold height_of in *. pose proof (height_bounds (flags !!! p)). apply Hz. apply Hinv; [by eapply top_elem|]. unfold height_of. lia. }
    split; intros x; [rewrite elem_of_nil|]; naive_solver.
Qed.

(** ** Theorems *)

(** C19. In every state that nodes put into the heap, taken out, changed and removed
    from the tree bring a new heap to, whatever their ranks become between the
    calls: the array is ordered by height, [heapId] is the position of a node and
    the room suffices; every further operation returns and is a step; the
    top is a node with the least height, and taking it out removes it and nothing
    else. *)
Theorem heap_reachable_ok n flags h : 0 < n < W32 -> heap_reachable n (flags, h) ->
  heap_ok (height_of flags) h /\
  (forall x, heapId h !! x = None -> 0 < height_of flags x -> size_ h < 2147483648 ->
     exists flags' h', updateHeap flags x (rank_of flags x) false h = Some (flags', h') /\
       dom (heapId h') = dom (heapId h) ∪ {[x]} /\ heap_reachable n (flags', h')) /\
  (forall x, getTop h = Some x ->
     (forall y, y ∈ heap h -> height_of flags x <= height_of flags y) /\
     exists h', RemoveTop (rank_of flags) h = Some (true, h') /\ dom (heapId h') = dom (heapId h) ∖ {[x]} /\
       heap_reachable n (flags, h')) /\
  (forall x, exists flags' h', updateHeap flags x 0 true h = Some (flags', h') /\ dom (heapId h') = dom (heapId h) /\
       rank_of flags' x = 0 /\ heap_reachable n (flags', h')).
Proof.
  intros Hn Hr. pose proof (heap_reachable_inv n _ Hn Hr) as Hinv. split; [by destruct Hinv|]. split_and!.
  - intros x Hx Hh Hs. destruct (add_ok flags h x Hinv Hx Hh Hs) as (fl&h'&E&_&_&Hd).
    exists fl, h'. split_and!; try done. eapply rtc_r; [done|]. by eapply step_add.
  - intros x Hx. split; [by intros y; apply (top_least flags h)|]. destruct (evict_ok flags h x Hinv Hx) as (h'&E&_&Hd&_).
    exists h'. split_and!; try done. eapply rtc_r; [done|]. by eapply step_evict.
  - intros x. destruct (removed_ok flags h x Hinv) as (fl&h'&E&_&Hfl&Hd&_). exists fl, h'. split_and!; try done.
    + rewrite Hfl, rank_removed. by rewrite decide_True.
    + eapply rtc_r; [done|]. by eapply step_removed.
Qed.

(** Four nodes of heights 1 and 2; the second is removed from the tree. *)
Definition sample_flags : gmap nat Z := list_to_map [(0%nat, 1048576); (1%nat, 1052672); (2%nat, 1056768); (3%nat, 2097152)].
Definition add_all (flags : gmap nat Z) (l : list nat) (h : SIHeap) : option heap_state :=
  foldl (fun o x => '(f, h) ← o; updateHeap f x (rank_of f x) false h) (Some (flags, h)) l.
Definition sample_state : option heap_state :=
  '(f, h) ← add_all sample_flags [3; 2; 1; 0]%nat (SIHeap_new 2); updateHeap f 1 0 true h.

Lemma reach_add n flags h x flags' h' : heap_reachable n (flags, h) ->
  (heapId h !! x = None /\ 0 < height_of flags x /\ size_ h < 2147483648) /\
  updateHeap flags x (rank_of flags x) false h = Some (flags', h') -> heap_reachable n (flags', h').
Proof. intros H [(H1&H2&H3) E]. eapply rtc_r; [done|]. by eapply step_add. Qed.

Lemma sample_reachable : exists flags h, sample_state = Some (flags, h) /\ heap_reachable 2 (flags, h) /\ heap h = [1; 0; 2; 3]%nat.
Proof.
  assert (H0 : heap_reachable 2 (sample_flags, SIHeap_new 2)).
  { apply rtc_once, step_flags. intros x Hx. by apply not_elem_of_nil in Hx. }
  eapply (reach_add _ _ _ 3) in H0; [|vm_compute; split; [done|reflexivity]].
  eapply (reach_add _ _ _ 2) in H0; [|vm_compute; split; [done|reflexivity]].
  eapply (reach_add _ _ _ 1) in H0; [|vm_compute; split; [done|reflexivity]].
  eapply (reach_add _ _ _ 0) in H0; [|vm_compute; split; [done|reflexivity]].
  eexists _, _. split; [vm_compute; reflexivity|]. split; [|reflexivity].
  eapply rtc_r; [exact H0|]. apply (step_removed _ _ _ _ 1). vm_compute. reflexivity.
Qed.

Lemma heap_reachable_ok_witness : exists flags h h', sample_state = Some (flags, h) /\
  heap_ok (height_of flags) h /\ getTop h = Some 1%nat /\ RemoveTop (rank_of flags) h = Some (true, h') /\ dom (heapId h') = dom (heapId h) ∖ {[1%nat]}.
Proof.
  destruct sample_reachable as (flags&h&E&Hr&Hh). destruct (heap_reachable_ok 2 flags h) as (Hok&_&Htop&_); [done|exact Hr|].
  assert (Ht : getTop h = Some 1%nat) by (unfold getTop; rewrite Hh; done).
  destruct (Htop 1%nat Ht) as (_&h'&E'&Hd&_). exists flags, h, h'. split_and!; done.
Defined.

(** C20. When the tree is written, the loop at its beginning ends and takes out of the
    heap the nodes that were removed from the tree (rank 0), each once, and leaves
    all others in it, ordered as before. *)
Theorem removed_nodes_flushed n flags h : 0 < n < W32 -> heap_reachable n (flags, h) ->
  exists l h', flush_removed (Datatypes.S (length (heap h))) flags h = Some (l, h') /\ NoDup l /\
    (forall x, x ∈ l <-> x ∈ heap h /\ rank_of flags x = 0) /\
    (forall x, x ∈ heap h' <-> x ∈ heap h /\ rank_of flags x <> 0) /\ heap_ok (height_of flags) h'.
Proof.
  intros Hn Hr. pose proof (heap_reachable_inv n _ Hn Hr) as Hinv.
  pose proof (flush_ok flags _ h Hinv (Nat.lt_succ_diag_r _)) as Hw.
  destruct (flush_removed _ flags h) as [[l h']|]; [|done]. destruct Hw as ((Hok&_)&H1&H2&H3). by exists l, h'.
Qed.

Lemma removed_nodes_flushed_witness : exists flags h h', sample_state = Some (flags, h) /\
  (exists l, flush_removed (Datatypes.S (length (heap h))) flags h = Some (l, h') /\ NoDup l) /\ heap_ok (height_of flags) h'.
Proof.
  destruct sample_reachable as (flags&h&E&Hr&Hh). destruct (removed_nodes_flushed 2 flags h) as (l&h'&E'&H1&_&_&H4); [done|exact Hr|].
  exists flags, h, h'. split_and!; [done|by exists l|done].
Defined.

(** Moving a node down does not keep the order: five nodes of ranks 1, 2, 10, 3
    and 4 are put in, and the rank of the first becomes 5.  It moves down one place
    only and stays above the node of rank 3; the next node that is taken out after
    the node of rank 2 is the one of rank 4, not of 3. *)
Example moving_down_loses_order :
  let flags := list_to_map [(0, 1%Z); (1, 2%Z); (2, 10%Z); (3, 3%Z); (4, 4%Z)]%nat in
  exists flags1 flags2 h1 h2 h3,
    add_all flags [0; 1; 2; 3; 4]%nat (SIHeap_new 8) = Some (flags1, h1) /\ heap h1 = [0; 1; 2; 3; 4]%nat /\
    updateHeap flags1 0 5 true h1 = Some (flags2, h2) /\ heap h2 = [1; 0; 2; 3; 4]%nat /\
    rank_of flags2 0 = 5 /\ rank_of flags2 3 = 3 /\
    RemoveTop (rank_of flags2) h2 = Some (true, h3) /\ getTop h3 = Some 4%nat /\ rank_of flags2 4 = 4 /\ 3%nat ∈ heap h3.
Proof.
  intros flags. eexists _, _, _, _, _. split; [vm_compute; reflexivity|]. split; [reflexivity|].
  split; [vm_compute; reflexivity|]. split_and!; try (vm_compute; reflexivity).
  vm_compute. repeat (apply list_elem_of_here || apply list_elem_of_further).
Qed.
