(* ===== verification/SIStorage.v ===== *)
(** * The file of the tree of strings

    [SIStorage] (KVstore/SITree/storage/SIStorage.cpp): the nodes of the tree from
    strings to ids in blocks of a file.  The file is a map from positions to bytes
    with the position of the file pointer; a read of a byte that was never written
    is a failure.  A node in memory has its flags and its store (the number of its
    first block); a node that is not in memory has no keys and values, its children
    are always there.  The heap of cached nodes ([SIHeap]) and the accounting of
    memory stand apart. *)

From S2P Require Import Prelude SINodeFlags.

Definition BLOCK_SIZE : Z := 4096.
Definition MAX_BLOCK_NUM : Z := 16777216.
Definition SET_BLOCK_NUM : Z := 256.
Definition SET_BLOCK_INC : Z := SET_BLOCK_NUM.
Definition SuperNum : Z := MAX_BLOCK_NUM / (8 * BLOCK_SIZE) + 1.

(** [bytes] and [pos]: the file and its pointer; [freelist]: the [BlockInfo]s
    behind the head of the list. *)
Record SIStorage := mk_SIStorage { bytes : gmap Z Z; pos : Z; freelist : list Z; cur_block_num : Z }.

(** ** The file *)

Definition word_bytes (w : Z) : list Z := [w mod 256; w / 256 mod 256; w / 65536 mod 256; w / 16777216 mod 256].
Definition of_word (l : list Z) : Z :=
  match l with [a; b; c; d] => a + 256 * b + 65536 * c + 16777216 * d | _ => 0 end.

Fixpoint put_bytes (p : Z) (bs : list Z) (m : gmap Z Z) : gmap Z Z :=
  match bs with [] => m | b :: bs => put_bytes (p + 1) bs (<[p := b]> m) end.
Fixpoint get_bytes (p : Z) (n : nat) (m : gmap Z Z) : option (list Z) :=
  match n with
  | O => Some []
  | S n => b ← m !! p; bs ← get_bytes (p + 1) n m; Some (b :: bs)
  end.

Definition ftell : M SIStorage Z := fun d => Some (pos d, d).
(** [fseek] with [SEEK_SET] and [SEEK_CUR]. *)
Definition fseek (p : Z) : M SIStorage unit := fun d => Some (tt, mk_SIStorage (bytes d) p (freelist d) (cur_block_num d)).
Definition fseek_cur (n : Z) : M SIStorage unit := fun d => fseek (pos d + n) d.
Definition fwrite (bs : list Z) : M SIStorage unit := fun d =>
  Some (tt, mk_SIStorage (put_bytes (pos d) bs (bytes d)) (pos d + len bs) (freelist d) (cur_block_num d)).
Definition fread (n : nat) : M SIStorage (list Z) := fun d =>
  bs ← get_bytes (pos d) n (bytes d);
  Some (bs, mk_SIStorage (bytes d) (pos d + Z.of_nat n) (freelist d) (cur_block_num d)).
Definition fwrite_word (w : Z) : M SIStorage unit := fwrite (word_bytes w).
Definition fread_word : M SIStorage Z := let! bs := fread 4 in retM (of_word bs).
Definition get_cur : M SIStorage Z := fun d => Some (cur_block_num d, d).
Definition set_cur (n : Z) : M SIStorage unit := fun d => Some (tt, mk_SIStorage (bytes d) (pos d) (freelist d) n).
Definition set_free (l : list Z) : M SIStorage unit := fun d => Some (tt, mk_SIStorage (bytes d) (pos d) l (cur_block_num d)).

(** ** Blocks *)

(** A block out of range, for which the source returns -1, is a failure. *)
Definition Address (block_num : Z) : M SIStorage Z := fun d =>
  if block_num =? 0 then Some (0, d)
  else if cur_block_num d <? block_num then None
  else Some ((SuperNum + block_num - 1) * BLOCK_SIZE, d).
Definition Blocknum (address : Z) : Z := u32 (address / BLOCK_SIZE + 1 - SuperNum).

Definition FreeBlock (block_num : Z) : M SIStorage unit := fun d =>
  Some (tt, mk_SIStorage (bytes d) (pos d) (block_num :: freelist d) (cur_block_num d)).
Fixpoint add_blocks (n : nat) : M SIStorage unit :=
  match n with
  | O => retM tt
  | S n => let! c := get_cur in let! _ := set_cur (c ⊞ 1) in let! _ := FreeBlock (c ⊞ 1) in add_blocks n
  end.
Definition AllocBlock : M SIStorage Z := fun d =>
  '(_, d) ← match freelist d with [] => add_blocks (Z.to_nat SET_BLOCK_INC) d | _ => Some (tt, d) end;
  match freelist d with [] => None | t :: l => Some (t, mk_SIStorage (bytes d) (pos d) l (cur_block_num d)) end.

Definition ReadAlign (_next : Z) : M SIStorage Z :=
  let! p := ftell in
  if p mod BLOCK_SIZE =? 0 then
    let! a := Address _next in
    let! _ := fseek a in
    fread_word
  else retM _next.

Definition WriteAlign (_curnum : Z) (_SpecialBlock : bool) : M SIStorage (Z * bool) :=
  let! p := ftell in
  if p mod BLOCK_SIZE =? 0 then
    let! blocknum := AllocBlock in
    let! a := Address _curnum in
    let! _ := fseek a in
    let! _ := (if _SpecialBlock then fseek_cur 4 else retM tt) in
    let! _ := fwrite_word blocknum in
    let! a := Address blocknum in
    let! _ := fseek (a + 4) in
    retM (blocknum, false)
  else retM (_curnum, _SpecialBlock).

(** ** Strings *)

(** The position moves over the rest of the last word. *)
Definition skip_rest (len : Z) : M SIStorage unit :=
  let j := len mod 4 in
  fseek_cur (if 0 <? j then 4 - j else j).

Fixpoint write_chars (s : list Z) : M SIStorage unit :=
  match s with [] => retM tt | c :: s => let! _ := fwrite [c] in write_chars s end.

(** The loops of [writeBstr] from the bytes that are left. *)
Fixpoint write_str (fuel : nat) (len0 : Z) (s : list Z) (_curnum : Z) (_SpecialBlock : bool) : M SIStorage (Z * bool) :=
  match fuel with
  | O => fun _ => None
  | S fuel =>
      if (4 <? length s)%nat then
        let! _ := fwrite (take 4 s) in
        let! st := WriteAlign _curnum _SpecialBlock in
        write_str fuel len0 (drop 4 s) st.1 st.2
      else
        let! _ := write_chars s in
        let! _ := skip_rest len0 in
        WriteAlign _curnum _SpecialBlock
  end.

Definition writeBstr (s : list Z) (_curnum : Z) (_SpecialBlock : bool) : M SIStorage (Z * bool) :=
  let! _ := fwrite_word (len s) in
  let! st := WriteAlign _curnum _SpecialBlock in
  write_str (S (length s)) (len s) s st.1 st.2.

Fixpoint read_str (fuel : nat) (len0 : Z) (left : nat) (_next : Z) : M SIStorage (list Z * Z) :=
  match fuel with
  | O => fun _ => None
  | S fuel =>
      if (4 <? left)%nat then
        let! b := fread 4 in
        let! next := ReadAlign _next in
        let! r := read_str fuel len0 (left - 4) next in
        retM (b ++ r.1, r.2)
      else
        let! b := fread left in
        let! _ := skip_rest len0 in
        let! next := ReadAlign _next in
        retM (b, next)
  end.

Definition ReadBstr (_next : Z) : M SIStorage (list Z * Z) :=
  let! len0 := fread_word in
  let! next := ReadAlign _next in
  read_str (S (Z.to_nat len0)) len0 (Z.to_nat len0) next.

(** ** Nodes *)

Inductive SNode :=
  | SLeaf (flag store : Z) (keys : list (list Z)) (values : list Z)
  | SIntl (flag store : Z) (keys : list (list Z)) (childs : list SNode).

Definition getFlag (n : SNode) : Z := match n with SLeaf f _ _ _ | SIntl f _ _ _ => f end.
Definition GetStore (n : SNode) : Z := match n with SLeaf _ s _ _ | SIntl _ s _ _ => s end.
Definition node_keys (n : SNode) : list (list Z) := match n with SLeaf _ _ ks _ | SIntl _ _ ks _ => ks end.
Definition setFlag (f : Z) (n : SNode) : SNode :=
  match n with SLeaf _ s ks vs => SLeaf f s ks vs | SIntl _ s ks cs => SIntl f s ks cs end.
Definition setStore (s : Z) (n : SNode) : SNode :=
  match n with SLeaf f _ ks vs => SLeaf f s ks vs | SIntl f _ ks cs => SIntl f s ks cs end.

(** The first [n] elements of an array. *)
Definition first_n {A} (n : nat) (l : list A) : option (list A) := if (n <=? length l)%nat then Some (take n l) else None.

Fixpoint write_words (ws : list Z) (_curnum : Z) (_SpecialBlock : bool) : M SIStorage (Z * bool) :=
  match ws with
  | [] => retM (_curnum, _SpecialBlock)
  | w :: ws =>
      let! _ := fwrite_word w in
      let! st := WriteAlign _curnum _SpecialBlock in
      write_words ws st.1 st.2
  end.
Fixpoint write_keys (ks : list (list Z)) (_curnum : Z) (_SpecialBlock : bool) : M SIStorage (Z * bool) :=
  match ks with
  | [] => retM (_curnum, _SpecialBlock)
  | k :: ks => let! st := writeBstr k _curnum _SpecialBlock in write_keys ks st.1 st.2
  end.

(** The blocks of a node are freed. *)
Fixpoint free_chain (fuel : nat) (store next : Z) : M SIStorage unit :=
  match fuel with
  | O => fun _ => None
  | S fuel =>
      if store =? 0 then retM tt
      else
        let! _ := FreeBlock store in
        let! a := Address next in
        let! _ := fseek a in
        let! next' := fread_word in
        free_chain fuel next next'
  end.

(** The end of the chain. *)
Definition end_chain (blocknum : Z) (SpecialBlock : bool) : M SIStorage unit :=
  let! a := Address blocknum in
  let! _ := fseek a in
  let! _ := (if SpecialBlock then fseek_cur 4 else retM tt) in
  fwrite_word 0.

(** What follows the two words at the start of the first block. *)
Definition write_body (num : Z) (_np : SNode) (blocknum : Z) : M SIStorage unit :=
  let! st := match _np with
             | SIntl _ _ _ cs =>
                 let! cs := liftM (first_n (Z.to_nat num + 1) cs) in write_words (GetStore <$> cs) blocknum true
             | SLeaf _ _ _ _ => retM (blocknum, true)
             end in
  let! ks := liftM (first_n (Z.to_nat num) (node_keys _np)) in
  let! st := write_keys ks st.1 st.2 in
  let! st := match _np with
             | SLeaf _ _ _ vs => let! vs := liftM (first_n (Z.to_nat num) vs) in write_words vs st.1 st.2
             | SIntl _ _ _ _ => retM st
             end in
  end_chain st.1 st.2.

Definition free_old (store : Z) : M SIStorage unit :=
  let! a := Address store in
  let! _ := fseek (a + 4) in
  let! next := fread_word in
  let! c := get_cur in
  free_chain (S (S (Z.to_nat c))) store next.

Definition write_new (_np : SNode) : M SIStorage (bool * SNode) :=
  let f := getFlag _np in
  let! blocknum := AllocBlock in
  let! address := Address blocknum in
  let! _ := fseek address in
  let! _ := fwrite_word f in
  let! _ := fseek_cur 4 in
  let! _ := write_body (flag_GetKeyNum f) _np blocknum in
  retM (true, setFlag (flag_delDirty f) (setStore blocknum _np)).

Definition WriteNode (_np : SNode) : M SIStorage (bool * SNode) :=
  let f := getFlag _np in
  if negb (flag_inMem f) || ((0 <? flag_getRank f) && negb (flag_isDirty f)) then retM (false, _np) else
  let! _ := free_old (GetStore _np) in
  if flag_GetKeyNum f =? 0 then retM (true, _np) else write_new _np.

Fixpoint read_Bstrs (n : nat) (next : Z) : M SIStorage (list (list Z) * Z) :=
  match n with
  | O => retM ([], next)
  | S n =>
      let! k := ReadBstr next in
      let! r := read_Bstrs n k.2 in
      retM (k.1 :: r.1, r.2)
  end.
Fixpoint read_values (n : nat) (next : Z) : M SIStorage (list Z) :=
  match n with
  | O => retM []
  | S n =>
      let! v := fread_word in
      let! next := ReadAlign next in
      let! vs := read_values n next in
      retM (v :: vs)
  end.

Definition ReadNode (_np : SNode) : M SIStorage (bool * SNode) :=
  let f := getFlag _np in
  if flag_inMem f then retM (false, _np) else
  let num := flag_GetKeyNum f in
  let! a := Address (GetStore _np) in
  let! _ := fseek a in
  let! _ := fseek_cur 4 in
  let! next := fread_word in
  let f := flag_delDirty (flag_SetInMem f) in
  match _np with
  | SIntl _ s _ cs =>
      let! _ := fseek_cur (4 * (num + 1)) in
      let! ks := read_Bstrs (Z.to_nat num) next in
      retM (true, SIntl f s ks.1 cs)
  | SLeaf _ s _ _ =>
      let! ks := read_Bstrs (Z.to_nat num) next in
      let! vs := read_values (Z.to_nat num) ks.2 in
      retM (true, SLeaf f s ks.1 vs)
  end.

(** ** The tree *)

(** The loop over a stack of nodes visits the children of a node from the last to
    the first and then the node; the stack is the recursion here. *)
Section WriteChilds.
Context (write_node : SNode -> M SIStorage SNode).
Fixpoint write_childs (cs : list SNode) : M SIStorage (list SNode) :=
  match cs with
  | [] => retM []
  | c :: cs => let! cs := write_childs cs in let! c := write_node c in retM (c :: cs)
  end.
End WriteChilds.

Fixpoint write_nodes (n : SNode) : M SIStorage SNode :=
  match n with
  | SLeaf _ _ _ _ => let! r := WriteNode n in retM r.2
  | SIntl f s ks cs =>
      if negb (len cs =? flag_GetKeyNum f + 1) then fun _ => None else
      let! cs := write_childs write_nodes cs in
      let! r := WriteNode (SIntl f s ks cs) in retM r.2
  end.

Fixpoint write_bits (l : list Z) : M SIStorage unit :=
  match l with
  | [] => retM tt
  | num :: l =>
      let j := num - 1 in
      let i := j / 8 in
      let j := 7 - j mod 8 in
      let! _ := fseek (BLOCK_SIZE + i) in
      let! c := fread 1 in
      let! _ := fseek_cur (-1) in
      let! _ := fwrite [Z.ldiff (hd 0 c) (Z.shiftl 1 j)] in
      write_bits l
  end.
Definition get_free : M SIStorage (list Z) := fun d => Some (freelist d, d).

(** [WriteTree]: [removed] are the nodes of rank 0 that leave the heap first. *)
Definition WriteTree (tree_height : Z) (removed : list SNode) (_np : option SNode) : M SIStorage (option SNode) :=
  let! _ := fseek 0 in
  let! _ := fwrite_word tree_height in
  let! _ := for_each removed (fun p => let! _ := WriteNode p in retM tt) in
  let! np := match _np with Some p => let! p := write_nodes p in retM (Some p) | None => retM None end in
  let t := match np with Some p => GetStore p | None => 0 end in
  let! _ := fseek 4 in
  let! _ := fwrite_word t in
  let! c := get_cur in
  let! _ := fwrite_word c in
  let! _ := fseek BLOCK_SIZE in
  let! _ := fwrite (replicate (Z.to_nat (c / 8)) 255) in
  let! l := get_free in
  let! _ := write_bits l in
  retM np.

(** The constructor: a new file, and a file that is opened. *)
Definition SIStorage_build : option SIStorage :=
  let j := SET_BLOCK_NUM / 8 in
  '(_, d) ← (let! _ := fwrite_word 0 in
             let! _ := fwrite_word 0 in
             let! _ := fwrite_word SET_BLOCK_NUM in
             let! _ := fseek BLOCK_SIZE in
             fwrite (replicate (Z.to_nat j) 0)) (mk_SIStorage ∅ 0 [] SET_BLOCK_NUM);
  Some (mk_SIStorage (bytes d) (pos d) (seqZ 1 (8 * j)) (cur_block_num d)).

(** The free blocks of byte [i] of the bitmap. *)
Definition free_bits (i c : Z) : list Z :=
  omap (fun k => if Z.land c (Z.shiftl 1 k) =? 0 then Some (i * 8 + 7 - k + 1) else None) (seqZ 0 8).
Fixpoint read_bits (n : nat) (i : Z) : M SIStorage (list Z) :=
  match n with
  | O => retM []
  | S n => let! c := fread 1 in let! l := read_bits n (i + 1) in retM (free_bits i (hd 0 c) ++ l)
  end.

(** [open] mode: the height of the tree; the pointer is at the root. *)
Definition SIStorage_open : M SIStorage Z :=
  let! _ := fseek 0 in
  let! tree_height := fread_word in
  let! rootnum := fread_word in
  let! c := fread_word in
  let! _ := set_cur c in
  let! _ := fseek BLOCK_SIZE in
  let! l := read_bits (Z.to_nat (c / 8)) 0 in
  let! _ := set_free l in
  let! a := Address rootnum in
  let! _ := fseek a in
  retM tree_height.

Definition CreateNode : M SIStorage SNode :=
  let! t := fread_word in
  let! p := ftell in
  let f := flag_SetMemFlagFalse (flag_delDirty t) in
  retM (if flag_isLeaf t then SLeaf f (Blocknum (p - 4)) [] [] else SIntl f (Blocknum (p - 4)) [] []).

(** The rest of [PreRead] below a node; [fuel] is the room on the stack. *)
Section ReadChilds.
Context (read_node : M SIStorage SNode).
Fixpoint read_childs (n : nat) (address block : Z) : M SIStorage (list SNode) :=
  match n with
  | O => retM []
  | S n =>
      let! _ := fseek address in
      let! store := fread_word in
      let! block := ReadAlign block in
      let! address := ftell in
      let! a := Address store in
      let! _ := fseek a in
      let! p := read_node in
      let! cs := read_childs n address block in
      retM (p :: cs)
  end.
End ReadChilds.

Fixpoint read_nodes (fuel : nat) : M SIStorage SNode :=
  match fuel with
  | O => fun _ => None
  | S fuel =>
      let! p := CreateNode in
      let! next := fread_word in
      let! address := ftell in
      match p with
      | SLeaf _ _ _ _ => retM p
      | SIntl f s ks _ =>
          let! cs := read_childs (read_nodes fuel) (Z.to_nat (flag_GetKeyNum f + 1)) address next in
          retM (SIntl f s ks cs)
      end
  end.

Definition PreRead (tree_height : Z) : M SIStorage (option SNode) :=
  let! p := ftell in
  if p =? 0 then retM None
  else
    let! root := read_nodes (Z.to_nat tree_height) in
    let! r := ReadNode root in
    retM (Some r.2).

(** ** The cache *)

(** [Virtual]: the keys and values of a node leave the memory. *)
Definition Virtual (n : SNode) : SNode :=
  match n with
  | SLeaf f s _ _ => SLeaf (flag_SetMemFlagFalse f) s [] []
  | SIntl f s _ cs => SIntl (flag_SetMemFlagFalse f) s [] cs
  end.

(** What [handler] does to the node it took from the heap (a node of the tree,
    which has keys). *)
Definition swap_out (p : SNode) : M SIStorage SNode :=
  let! r := WriteNode p in
  if 0 <? flag_GetKeyNum (getFlag r.2) then retM (Virtual r.2) else fun _ => None.

(** [SITree::Prepare]. *)
Definition Prepare (_np : SNode) : M SIStorage SNode :=
  if flag_inMem (getFlag _np) then retM _np else let! r := ReadNode _np in retM r.2.

(** A node below a node, in place. *)
Fixpoint at_path (p : list nat) (f : SNode -> M SIStorage SNode) (n : SNode) : M SIStorage SNode :=
  match p with
  | [] => f n
  | i :: p =>
      match n with
      | SLeaf _ _ _ _ => fun _ => None
      | SIntl fl s ks cs =>
          let! c := liftM (cs !! i) in
          let! c := at_path p f c in
          retM (SIntl fl s ks (<[i := c]> cs))
      end
  end.
