(* ===== verification/SIStorageSpec.v ===== *)
(** * The file of the tree: what the blocks hold

    A node is written to a chain of blocks as a sequence of cells, one word or at
    most four bytes of a string each: [stream] says that cells are found from a
    place on along a chain, [links] that the chain is linked and ends.  The blocks
    1 to [cur_block_num] are free or belong to one chain ([disk_ok]). *)

From S2P Require Import Prelude SINodeFlags SIStorage.

(** ** Bytes *)

Lemma length_word_bytes w : length (word_bytes w) = 4%nat.
Proof. done. Qed.
Lemma of_word_bytes w : word w -> of_word (word_bytes w) = w.
Proof. unfold word, W32, of_word, word_bytes. intros H. Z.to_euclidean_division_equations. lia. Qed.

Definition at_ (m : gmap Z Z) (p : Z) (bs : list Z) : Prop := get_bytes p (length bs) m = Some bs.
Definition word_at (m : gmap Z Z) (p w : Z) : Prop := word w /\ at_ m p (word_bytes w).
Definition agree (m m' : gmap Z Z) (P : Z -> Prop) : Prop := forall q, P q -> m' !! q = m !! q.

Lemma agree_mono m m' P Q : (forall q, Q q -> P q) -> agree m m' P -> agree m m' Q.
Proof. intros H HA q Hq. by apply HA, H. Qed.
Lemma agree_trans m m' m'' P : agree m m' P -> agree m' m'' P -> agree m m'' P.
Proof. intros H H' q Hq. by rewrite H', H. Qed.
Lemma agree_refl m P : agree m m P.
Proof. done. Qed.

Lemma get_agree m m' p n : agree m m' (fun q => p <= q < p + Z.of_nat n) -> get_bytes p n m' = get_bytes p n m.
Proof.
  revert p. induction n as [|n IH]; intros p H; [done|]. simpl. rewrite (H p) by lia. rewrite IH; [done|].
  eapply agree_mono, H. simpl. lia.
Qed.
Lemma at_agree m m' p bs : agree m m' (fun q => p <= q < p + len bs) -> at_ m p bs -> at_ m' p bs.
Proof. unfold at_. intros H <-. by apply get_agree. Qed.
Lemma word_agree m m' p w : agree m m' (fun q => p <= q < p + 4) -> word_at m p w -> word_at m' p w.
Proof. intros H [Hw Hb]. split; [done|]. by eapply at_agree. Qed.

Lemma put_other p bs m q : q < p \/ p + len bs <= q -> put_bytes p bs m !! q = m !! q.
Proof.
  revert p m. induction bs as [|b bs IH]; intros p m H; [done|]. simpl in *. rewrite IH by lia. apply lookup_insert_ne. lia.
Qed.
Lemma put_agree p bs m P : (forall q, P q -> q < p \/ p + len bs <= q) -> agree m (put_bytes p bs m) P.
Proof. intros H q Hq. by apply put_other, H. Qed.
Lemma at_put p bs m : at_ (put_bytes p bs m) p bs.
Proof.
  unfold at_. revert p m. induction bs as [|b bs IH]; intros p m; [done|]. simpl.
  rewrite put_other by lia. rewrite lookup_insert_eq. simpl. by rewrite IH.
Qed.

(** ** Chains and streams *)

Definition base (b : Z) : Z := (512 + b) * 4096.
Definition in_block (b q : Z) : Prop := base b <= q < base b + 4096.

Fixpoint links (m : gmap Z Z) (p : Z) (bl : list Z) : Prop :=
  match bl with
  | [] => word_at m p 0
  | b :: bl => word_at m p b /\ links m (base b) bl
  end.

Fixpoint stream (m : gmap Z Z) (b o : Z) (bl : list Z) (cells : list (list Z)) : Prop :=
  match cells with
  | [] => True
  | c :: cs =>
      at_ m (base b + o) c /\
      if o + 4 =? 4096 then match bl with b' :: bl => stream m b' 4 bl cs | [] => False end
      else stream m b (o + 4) bl cs
  end.

(** The number of blocks that follow when [n] cells are written from offset [o]. *)
Fixpoint crossings (o : Z) (n : nat) : nat :=
  match n with
  | O => O
  | S n => if o + 4 =? 4096 then S (crossings 4 n) else crossings (o + 4) n
  end.

Lemma crossings_le o n : (crossings o n <= n)%nat.
Proof. revert o. induction n as [|n IH]; intros o; simpl; [done|]. case_match; [specialize (IH 4)|specialize (IH (o + 4))]; lia. Qed.

Lemma links_agree m m' p bl : agree m m' (fun q => p <= q < p + 4 \/ exists b, b ∈ bl /\ in_block b q) -> links m p bl -> links m' p bl.
Proof.
  revert p. induction bl as [|b bl IH]; intros p H; simpl.
  - apply word_agree. eapply agree_mono, H. simpl. lia.
  - intros [Hw Hl]. split; [eapply word_agree, Hw; eapply agree_mono, H; simpl; lia|].
    apply IH; [|done]. eapply agree_mono, H. intros q [Hq|(x&Hx&Hq)]; right.
    + exists b. split; [apply list_elem_of_here|unfold in_block; lia].
    + exists x. split; [by apply list_elem_of_further|done].
Qed.

Definition cell_ok (c : list Z) : Prop := (1 <= length c <= 4)%nat.

Lemma stream_agree m m' b o bl cells : Forall cell_ok cells -> 0 <= o -> (4 | o) -> o < 4096 ->
  agree m m' (fun q => in_block b q /\ base b + o <= q \/ exists b, b ∈ bl /\ in_block b q) ->
  stream m b o bl cells -> stream m' b o bl cells.
Proof.
  intros Hc. revert b o bl. induction Hc as [|c cs Hc _ IH]; intros b o bl Ho Hd Hlt H; [done|]. simpl. intros [Ha Hs].
  unfold cell_ok in Hc. assert (o + 4 <= 4096) by (destruct Hd as [k ->]; lia). split.
  { eapply at_agree, Ha. eapply agree_mono, H. unfold in_block. intros q Hq. left. lia. }
  destruct (Z.eqb_spec (o + 4) 4096) as [E|E].
  - destruct bl as [|b' bl]; [done|]. apply IH; [lia|by exists 1|lia| |done]. eapply agree_mono, H.
    intros q [[Hq _]|(x&Hx&Hq)]; right; [exists b'|exists x]; (split; [|done]); [apply list_elem_of_here|by apply list_elem_of_further].
  - apply IH; [lia|by apply Z.divide_add_r; [|exists 1]|lia| |done]. eapply agree_mono, H. intros q [[Hq Hp]|Hq]; [left; split; [done|lia]|by right].
Qed.

Lemma stream_app m b o bl cs cs' : stream m b o bl (cs ++ cs') -> stream m b o bl cs.
Proof.
  revert b o bl. induction cs as [|c cs IH]; intros b o bl; [done|]. simpl. intros [H Hs]. split; [done|].
  case_match; [destruct bl; [done|]|]; by apply IH.
Qed.

Lemma base_ne a b q : a <> b -> in_block a q -> in_block b q -> False.
Proof. unfold in_block, base. lia. Qed.

(** ** The blocks of the file *)

Record disk_ok (d : SIStorage) (used : list Z) : Prop := {
  dk_nodup : NoDup (freelist d ++ used);
  dk_range : Forall (fun b => 1 <= b <= cur_block_num d) (freelist d ++ used);
  dk_count : len (freelist d ++ used) = cur_block_num d;
  dk_max : cur_block_num d <= MAX_BLOCK_NUM;
  dk_eight : (8 | cur_block_num d) }.

Lemma disk_perm d used used' : used ≡ₚ used' -> disk_ok d used -> disk_ok d used'.
Proof.
  intros H [H1 H2 H3 H4 H5]. assert (Hp : freelist d ++ used ≡ₚ freelist d ++ used') by (by rewrite H).
  split; [by rewrite <- Hp|by rewrite <- Hp|by rewrite <- (Permutation_length Hp)|done|done].
Qed.

Lemma disk_same d d' used : freelist d' = freelist d -> cur_block_num d' = cur_block_num d -> disk_ok d used -> disk_ok d' used.
Proof. intros E1 E2 [H1 H2 H3 H4 H5]. by split; rewrite ?E1, ?E2. Qed.

Lemma used_range d used b : disk_ok d used -> b ∈ used -> 1 <= b <= cur_block_num d.
Proof. intros H Hb. pose proof (dk_range d used H) as HF. rewrite Forall_forall in HF. apply HF, elem_of_app. by right. Qed.

Lemma Address_ok d b : 1 <= b <= cur_block_num d -> Address b d = Some (base b, d).
Proof.
  intros H. unfold Address. destruct (Z.eqb_spec b 0); [lia|]. destruct (Z.ltb_spec (cur_block_num d) b); [lia|].
  do 2 f_equal. unfold base. change SuperNum with 513. unfold BLOCK_SIZE. lia.
Qed.

(** A free block is taken; [need] blocks were promised to be there. *)
Lemma add_blocks_ok n : forall d, cur_block_num d + Z.of_nat n < W32 -> 0 <= cur_block_num d ->
  exists l, add_blocks n d = Some (tt, mk_SIStorage (bytes d) (pos d) (l ++ freelist d) (cur_block_num d + Z.of_nat n)) /\
    l ≡ₚ seqZ (cur_block_num d + 1) (Z.of_nat n).
Proof.
  induction n as [|n IH]; intros d H H0.
  - exists []. simpl. split; [|done]. destruct d. unfold retM. simpl. by rewrite Z.add_0_r.
  - destruct (IH (mk_SIStorage (bytes d) (pos d) ((cur_block_num d + 1) :: freelist d) (cur_block_num d + 1))) as (l&E&Hl); [simpl; lia|simpl; lia|].
    simpl in E, Hl. exists (l ++ [cur_block_num d + 1]). split.
    + cbn [add_blocks]. unfold bindM, get_cur, set_cur, FreeBlock. simpl. rewrite !u32_small by lia. rewrite E. rewrite <- app_assoc. simpl.
      do 3 f_equal. lia.
    + rewrite Hl, Permutation_app_comm. rewrite Nat2Z.inj_succ, (seqZ_cons _ (Z.succ _)) by lia. simpl. f_equiv.
      replace (Z.succ (cur_block_num d + 1)) with (cur_block_num d + 1 + 1) by lia. by replace (Z.pred (Z.succ (Z.of_nat n))) with (Z.of_nat n) by lia.
Qed.

Lemma AllocBlock_ok d used : disk_ok d used -> len used + 256 <= MAX_BLOCK_NUM ->
  exists b d', AllocBlock d = Some (b, d') /\ bytes d' = bytes d /\ pos d' = pos d /\ cur_block_num d <= cur_block_num d' /\
    disk_ok d' (b :: used) /\ b ∉ used.
Proof.
  intros Hok Hr. unfold AllocBlock. assert (Hn : Z.of_nat (Z.to_nat SET_BLOCK_INC) = 256) by done.
  generalize dependent (Z.to_nat SET_BLOCK_INC). intros n Hn. destruct (freelist d) as [|b l] eqn:Ef.
  - destruct Hok as [H1 H2 H3 H4 H5]. rewrite Ef in *. simpl in *.
    destruct (add_blocks_ok n d) as (l&E&Hl); [unfold MAX_BLOCK_NUM, W32 in *; lia|lia|]. rewrite Hn in *. rewrite E. simpl. rewrite Ef, app_nil_r.
    assert (Hlen : length l = 256%nat) by (by rewrite (Permutation_length Hl), length_seqZ).
    destruct l as [|b l]; [done|]. eexists b, _. split; [done|]. simpl. split_and!; try done; [lia| |].
    2:{ intros Hin. assert (Hb : b ∈ seqZ (cur_block_num d + 1) 256) by (rewrite <- Hl; apply list_elem_of_here).
        rewrite elem_of_seqZ in Hb. rewrite Forall_forall in H2. specialize (H2 b Hin). simpl in H2. lia. }
    assert (Hp : l ++ b :: used ≡ₚ seqZ (cur_block_num d + 1) 256 ++ used) by (rewrite <- Hl; simpl; by rewrite Permutation_middle).
    split; simpl.
    + rewrite Hp. apply NoDup_app. split; [apply NoDup_seqZ|]. split; [|done]. intros x Hx Hu. rewrite elem_of_seqZ in Hx.
      rewrite Forall_forall in H2. specialize (H2 x Hu). simpl in H2. lia.
    + rewrite Hp. apply Forall_app. split; [apply Forall_forall; intros x Hx; rewrite elem_of_seqZ in Hx; lia|].
      eapply Forall_impl; [done|]. simpl. lia.
    + rewrite (Permutation_length Hp), length_app, length_seqZ. simpl in *. lia.
    + unfold MAX_BLOCK_NUM in *. lia.
    + apply Z.divide_add_r; [done|by exists 32].
  - simpl. rewrite Ef. eexists b, _. split; [done|]. simpl. split_and!; try done.
    + assert (Hp : freelist d ++ used ≡ₚ l ++ b :: used) by (rewrite Ef; simpl; by rewrite Permutation_middle).
      destruct Hok as [H1 H2 H3 H4 H5]. split; simpl; [by rewrite <- Hp|by rewrite <- Hp|by rewrite <- (Permutation_length Hp)|done|done].
    + pose proof (dk_nodup d used Hok) as Hd. rewrite Ef in Hd. simpl in Hd. apply NoDup_cons_1_1 in Hd. intros Hin. apply Hd, elem_of_app. by right.
Qed.

(** ** Writing cells *)

Definition hdr (sp : bool) : Z := if sp then 4 else 0.

Definition write_cell (c : list Z) (b : Z) (sp : bool) : M SIStorage (Z * bool) :=
  let! _ := fwrite c in let! _ := fseek_cur (4 - len c) in WriteAlign b sp.
Fixpoint write_cells (cs : list (list Z)) (b : Z) (sp : bool) : M SIStorage (Z * bool) :=
  match cs with
  | [] => retM (b, sp)
  | c :: cs => let! st := write_cell c b sp in write_cells cs st.1 st.2
  end.
Definition write_chain (cs : list (list Z)) (b : Z) (sp : bool) : M SIStorage unit :=
  let! st := write_cells cs b sp in end_chain st.1 st.2.

Lemma WriteAlign_stay b sp d : pos d mod 4096 <> 0 -> WriteAlign b sp d = Some ((b, sp), d).
Proof. intros H. unfold WriteAlign, bindM, ftell. simpl. destruct (Z.eqb_spec (pos d mod BLOCK_SIZE) 0); done. Qed.

Lemma WriteAlign_next b sp d used : pos d mod 4096 = 0 -> disk_ok d used -> b ∈ used -> len used + 256 <= MAX_BLOCK_NUM ->
  exists b' d', WriteAlign b sp d = Some ((b', false), d') /\ bytes d' = put_bytes (base b + hdr sp) (word_bytes b') (bytes d) /\
    pos d' = base b' + 4 /\ disk_ok d' (b' :: used) /\ (b' ∉ used) /\ cur_block_num d <= cur_block_num d'.
Proof.
  intros H Hok Hb Hr. unfold WriteAlign, bindM, ftell. cbn -[base BLOCK_SIZE].
  destruct (Z.eqb_spec (pos d mod BLOCK_SIZE) 0) as [_|]; [|done].
  destruct (AllocBlock_ok d used Hok Hr) as (b'&d'&E&E1&E2&E3&Hok'&Hb'). rewrite E. cbn -[base].
  pose proof (used_range _ _ b Hok Hb). pose proof (used_range _ _ b' Hok' (list_elem_of_here _ _)).
  rewrite Address_ok by lia. exists b', (mk_SIStorage (put_bytes (base b + hdr sp) (word_bytes b') (bytes d)) (base b' + 4) (freelist d') (cur_block_num d')).
  split; [|split_and!; try done; by eapply disk_same, Hok'].
  destruct sp; cbn -[base put_bytes word_bytes]; rewrite E1, ?Z.add_0_r; (rewrite Address_ok; [done|simpl; lia]).
Qed.

(** What writing cells from offset [o] of block [b] leaves alone. *)
Definition spared (b o : Z) (sp : bool) (bl : list Z) (q : Z) : Prop :=
  (in_block b q -> q < base b + o /\ ~ (base b + hdr sp <= q < base b + hdr sp + 4)) /\ (forall x, x ∈ bl -> ~ in_block x q).

Lemma offset_mod b o : 0 <= o < 4096 -> (base b + o) mod 4096 = o.
Proof. intros H. unfold base. rewrite Z.add_comm, Z_mod_plus_full. by apply Z.mod_small. Qed.

Lemma fresh_blocks d bl used x : disk_ok d (bl ++ used) -> x ∈ used -> x ∉ bl.
Proof.
  intros H Hx Hb. pose proof (dk_nodup _ _ H) as Hn. apply NoDup_app in Hn as (_&_&Hn). apply NoDup_app in Hn as (_&Hn&_). by apply (Hn x Hb).
Qed.

(** A place of another block, and a place before the offset. *)
Lemma spared_other b' o sp bl b q : in_block b q -> b <> b' -> b ∉ bl -> spared b' o sp bl q.
Proof.
  intros Hq Hne Hb. split; [intros Hq'; by destruct (base_ne b b' q)|]. intros x Hx Hq'.
  destruct (decide (x = b)) as [->|]; [done|by destruct (base_ne x b q)].
Qed.
Lemma spared_before b o sp bl q : in_block b q -> b ∉ bl -> q < base b + o -> ~ (base b + hdr sp <= q < base b + hdr sp + 4) -> spared b o sp bl q.
Proof.
  intros Hq Hb H1 H2. split; [done|]. intros x Hx Hq'. destruct (decide (x = b)) as [->|]; [done|by destruct (base_ne x b q)].
Qed.

Lemma write_chain_ok cells : Forall cell_ok cells -> forall d b o sp used,
  disk_ok d used -> b ∈ used -> pos d = base b + o -> (4 | o) -> hdr sp + 4 <= o < 4096 ->
  len used + Z.of_nat (crossings o (length cells)) + 256 <= MAX_BLOCK_NUM ->
  exists bl d', write_chain cells b sp d = Some (tt, d') /\ disk_ok d' (bl ++ used) /\ length bl = crossings o (length cells) /\
    links (bytes d') (base b + hdr sp) bl /\ stream (bytes d') b o bl cells /\
    agree (bytes d) (bytes d') (spared b o sp bl) /\ cur_block_num d <= cur_block_num d'.
Proof.
  induction 1 as [|c cs Hc Hcs IH]; intros d b o sp used Hok Hb Hp Hd Ho Hr.
  - pose proof (used_range d used b Hok Hb). exists [].
    exists (mk_SIStorage (put_bytes (base b + hdr sp) (word_bytes 0) (bytes d)) (base b + hdr sp + 4) (freelist d) (cur_block_num d)).
    split_and!; try done; [|by eapply disk_same, Hok|split; [done|apply at_put]|].
    + unfold write_chain, end_chain, bindM. cbn -[base put_bytes word_bytes]. rewrite Address_ok by done. destruct sp; cbn -[base put_bytes word_bytes]; by rewrite ?Z.add_0_r.
    + apply put_agree. intros q [Hq _]. rewrite length_word_bytes. unfold in_block in Hq. destruct sp; unfold hdr in *; lia.
  - unfold cell_ok in Hc. assert (Ho4 : o + 4 <= 4096) by (destruct Hd as [k ->]; lia).
    set (d1 := mk_SIStorage (put_bytes (pos d) c (bytes d)) (base b + o + 4) (freelist d) (cur_block_num d)).
    assert (E1 : write_chain (c :: cs) b sp d = ((let! st := WriteAlign b sp in write_chain cs st.1 st.2) d1)).
    { unfold write_chain, d1. cbn [write_cells]. unfold write_cell, bindM, fwrite, fseek_cur, fseek. cbn -[base put_bytes WriteAlign end_chain]. rewrite Hp.
      replace (base b + o + len c + (4 - len c)) with (base b + o + 4) by lia. by destruct (WriteAlign b sp _) as [[[? ?] ?]|]. }
    rewrite E1. assert (Hok1 : disk_ok d1 used) by (by eapply disk_same, Hok).
    assert (Hcell : agree (bytes d) (bytes d1) (fun q => q < base b + o \/ base b + o + 4 <= q)).
    { apply put_agree. intros q. rewrite Hp. lia. }
    assert (Hat : at_ (bytes d1) (base b + o) c) by (unfold d1; simpl; rewrite Hp; apply at_put).
    cbn [length crossings stream] in *. unfold bindM. destruct (Z.eqb_spec (o + 4) 4096) as [E|E].
    + destruct (WriteAlign_next b sp d1 used) as (b'&d2&E2&Eb2&Ep2&Hok2&Hb2&Hc2).
      { simpl. replace (base b + o + 4) with (base b + 1 * 4096 + 0) by lia. rewrite Z.add_0_r. unfold base. by rewrite <- Z.mul_add_distr_r, Z.mod_mul. }
      { done. } { done. } { lia. }
      rewrite E2. simpl fst. simpl snd.
      assert (Hne : b <> b') by (intros ->; done).
      destruct (IH d2 b' 4 false (b' :: used)) as (bl&d'&E'&Hok'&Hlen&Hl&Hs&Ha&Hc'); try done; [apply list_elem_of_here|simpl in *; lia|].
      assert (Hbl : b ∉ bl) by (eapply fresh_blocks; [exact Hok'|by apply list_elem_of_further]).
      exists (b' :: bl), d'. split; [done|]. split_and!.
      * eapply disk_perm, Hok'. simpl. by rewrite Permutation_middle.
      * simpl. lia.
      * simpl. split; [|by rewrite Z.add_0_r in Hl].
        assert (Hw : word_at (bytes d2) (base b + hdr sp) b').
        { split; [|rewrite Eb2; apply at_put]. pose proof (used_range _ _ b' Hok2 (list_elem_of_here _ _)). pose proof (dk_max _ _ Hok2). unfold word, MAX_BLOCK_NUM, W32 in *. lia. }
        eapply word_agree, Hw. eapply agree_mono, Ha. intros q Hq. apply (spared_other _ _ _ _ b); [|done..]. unfold in_block. destruct sp; unfold hdr in *; lia.
      * eapply at_agree, Hat.
        assert (Ha2 : agree (bytes d1) (bytes d2) (fun q => base b + o <= q < base b + o + len c)).
        { rewrite Eb2. apply put_agree. rewrite length_word_bytes. intros q. destruct sp; unfold hdr in *; lia. }
        eapply agree_trans; [exact Ha2|]. eapply agree_mono, Ha. intros q Hq. apply (spared_other _ _ _ _ b); [unfold in_block; lia|done..].
      * exact Hs.
      * eapply agree_trans; [eapply agree_mono, Hcell|]. { intros q [H1 _]. unfold in_block in H1. lia. }
        apply (agree_trans _ (bytes d2)); [rewrite Eb2; apply put_agree|eapply agree_mono, Ha].
        { intros q [H1 _]. rewrite length_word_bytes. unfold in_block in H1. destruct sp; unfold hdr in *; lia. }
        intros q [H1 H2]. split; [|intros x Hx; apply H2; by apply list_elem_of_further].
        intros Hq'. exfalso. by apply (H2 b' (list_elem_of_here _ _)).
      * simpl in Hc2. lia.
    + rewrite WriteAlign_stay. 2:{ simpl. rewrite <- Z.add_assoc, offset_mod by (destruct sp; unfold hdr in *; lia). destruct sp; unfold hdr in *; lia. }
      simpl fst. simpl snd.
      destruct (IH d1 b (o + 4) sp used) as (bl&d'&E'&Hok'&Hlen&Hl&Hs&Ha&Hc'); try done; [simpl; lia|by apply Z.divide_add_r; [|exists 1]|lia|].
      exists bl, d'. split; [done|]. split_and!; try done.
      * eapply at_agree, Hat. eapply agree_mono, Ha. intros q Hq.
        apply spared_before; [unfold in_block; destruct sp; unfold hdr in *; lia|by eapply fresh_blocks|lia|destruct sp; unfold hdr in *; lia].
      * eapply agree_trans; [eapply agree_mono, Hcell|eapply agree_mono, Ha].
        -- intros q [H1 _]. unfold in_block in H1. destruct sp; unfold hdr in *; lia.
        -- intros q [H1 H2]. split; [|done]. intros Hq. destruct (H1 Hq). split; [lia|done].
Qed.

(** ** The cells of a node *)

Fixpoint groups (fuel : nat) (s : list Z) : list (list Z) :=
  match fuel with
  | O => []
  | S fuel => if (4 <? length s)%nat then take 4 s :: groups fuel (drop 4 s) else [s]
  end.
Definition str_cells (s : list Z) : list (list Z) := word_bytes (len s) :: groups (S (length s)) s.
Definition keys_cells (ks : list (list Z)) : list (list Z) := concat (str_cells <$> ks).

Lemma bind_ext {S A B} (m : M S A) (f g : A -> M S B) d : (forall a d, f a d = g a d) -> bindM m f d = bindM m g d.
Proof. intros H. unfold bindM. destruct (m d) as [[a d']|]; [apply H|done]. Qed.
Lemma bind_assoc {S A B C} (m : M S A) (f : A -> M S B) (g : B -> M S C) d :
  bindM (bindM m f) g d = bindM m (fun a => bindM (f a) g) d.
Proof. unfold bindM. by destruct (m d) as [[a d']|]. Qed.

Lemma bind_first {S A B} (m m' : M S A) (f : A -> M S B) d : m d = m' d -> bindM m f d = bindM m' f d.
Proof. intros H. unfold bindM. by rewrite H. Qed.

Lemma write_cells_app xs ys b sp d : write_cells (xs ++ ys) b sp d = bindM (write_cells xs b sp) (fun st => write_cells ys st.1 st.2) d.
Proof.
  revert b sp d. induction xs as [|x xs IH]; intros b sp d; [done|]. cbn [app write_cells]. rewrite bind_assoc. apply bind_ext. intros st d'. apply IH.
Qed.

Lemma write_chars_eq s d : write_chars s d = fwrite s d.
Proof.
  revert d. induction s as [|c s IH]; intros d; [unfold fwrite; destruct d; simpl; by rewrite Z.add_0_r|].
  cbn [write_chars]. unfold bindM, fwrite. cbn -[put_bytes]. rewrite IH. unfold fwrite. cbn. do 3 f_equal. lia.
Qed.

Lemma write_str_eq fuel len0 s b sp d : (length s < fuel)%nat -> (1 <= length s)%nat -> len s mod 4 = len0 mod 4 ->
  write_str fuel len0 s b sp d = write_cells (groups fuel s) b sp d.
Proof.
  revert s b sp d. induction fuel as [|fuel IH]; intros s b sp d Hf Hl Hm; [lia|]. cbn [write_str groups].
  destruct (Nat.ltb_spec 4 (length s)) as [H|H].
  - cbn [write_cells]. unfold write_cell. rewrite bind_assoc. apply bind_ext. intros _ d1. rewrite bind_assoc. rewrite length_take, Nat.min_l by lia.
    change (4 - Z.of_nat 4) with 0. unfold bindM at 2, fseek_cur, fseek. destruct d1 as [m p l c]. cbn [pos bytes freelist cur_block_num]. rewrite Z.add_0_r. simpl.
    apply bind_ext. intros st d2. apply IH; rewrite length_drop; [lia|lia|]. rewrite Nat2Z.inj_sub by lia. rewrite <- Hm.
    change (Z.of_nat 4) with (1 * 4). by rewrite Z_mod_minus_full || (replace (len s - 1 * 4) with (len s + (-1) * 4) by lia; by rewrite Z_mod_plus_full).
  - cbn [write_cells]. rewrite (bind_first _ (fwrite s)) by apply write_chars_eq. unfold write_cell. rewrite bind_assoc. apply bind_ext. intros _ d1.
    rewrite bind_assoc. unfold skip_rest. rewrite <- Hm.
    assert (E : (if 0 <? len s mod 4 then 4 - len s mod 4 else len s mod 4) = 4 - len s).
    { assert (Hc : length s = 1%nat \/ length s = 2%nat \/ length s = 3%nat \/ length s = 4%nat) by lia. by destruct Hc as [-> |[-> |[-> | ->]]]. }
    rewrite E. apply bind_ext. intros _ d2. unfold bindM, retM. by destruct (WriteAlign b sp d2) as [[[? ?] ?]|].
Qed.

Lemma write_word_eq {B} w b sp (f : Z * bool -> M SIStorage B) d :
  bindM (fwrite_word w) (fun _ => bindM (WriteAlign b sp) f) d = bindM (write_cell (word_bytes w) b sp) f d.
Proof.
  unfold write_cell. rewrite bind_assoc. apply bind_ext. intros _ d1. rewrite bind_assoc. rewrite length_word_bytes. change (4 - Z.of_nat 4) with 0.
  destruct d1 as [m p l c]. unfold bindM at 2, fseek_cur, fseek. cbn [pos bytes freelist cur_block_num]. by rewrite Z.add_0_r.
Qed.

Lemma writeBstr_eq s b sp d : s <> [] -> writeBstr s b sp d = write_cells (str_cells s) b sp d.
Proof.
  intros Hs. assert (Hl : (1 <= length s)%nat) by (destruct s; [done|simpl; lia]).
  unfold writeBstr, str_cells. cbn [write_cells]. rewrite write_word_eq. apply bind_ext. intros st d1. apply write_str_eq; [lia|done|done].
Qed.

Lemma write_words_eq ws b sp d : write_words ws b sp d = write_cells (word_bytes <$> ws) b sp d.
Proof.
  revert b sp d. induction ws as [|w ws IH]; intros b sp d; [done|]. cbn [write_words fmap list_fmap write_cells]. rewrite write_word_eq. apply bind_ext. intros st d1. apply IH.
Qed.

Lemma write_keys_eq ks b sp d : Forall (fun k => k <> []) ks -> write_keys ks b sp d = write_cells (keys_cells ks) b sp d.
Proof.
  intros H. revert b sp d. induction H as [|k ks Hk _ IH]; intros b sp d; [done|]. cbn [write_keys].
  unfold keys_cells. cbn [fmap list_fmap concat]. rewrite write_cells_app. rewrite (bind_first _ (write_cells (str_cells k) b sp)) by by apply writeBstr_eq.
  apply bind_ext. intros st d1. apply IH.
Qed.

Definition node_cells (n : SNode) : list (list Z) :=
  match n with
  | SLeaf _ _ ks vs => keys_cells ks ++ (word_bytes <$> vs)
  | SIntl _ _ ks cs => (word_bytes <$> (GetStore <$> cs)) ++ keys_cells ks
  end.

(** The keys, values and children of a node that is in memory are those that the
    number of keys tells. *)
Definition node_size (n : SNode) : Prop :=
  Z.of_nat (length (node_keys n)) = flag_GetKeyNum (getFlag n) /\
  match n with
  | SLeaf _ _ ks vs => length vs = length ks
  | SIntl _ _ ks cs => length cs = (length ks + 1)%nat
  end.

Lemma first_all {A} n (l : list A) : n = length l -> first_n n l = Some l.
Proof. intros ->. unfold first_n. rewrite Nat.leb_refl. f_equal. by apply take_ge. Qed.

Lemma run_bind {S A B} (m : M S A) (f : A -> M S B) d a d' : m d = Some (a, d') -> bindM m f d = f a d'.
Proof. intros H. unfold bindM. by rewrite H. Qed.
Lemma bind_lift {S A B} (a : A) (f : A -> M S B) d : bindM (liftM (Some a)) f d = f a d.
Proof. done. Qed.
Lemma bind_ret {S A B} (a : A) (f : A -> M S B) d : bindM (retM a) f d = f a d.
Proof. done. Qed.

Lemma write_body_eq n b d : node_size n -> Forall (fun k => k <> []) (node_keys n) ->
  write_body (flag_GetKeyNum (getFlag n)) n b d = write_chain (node_cells n) b true d.
Proof.
  intros [Hn Hs] Hk. unfold write_body, write_chain. rewrite <- Hn, Nat2Z.id. destruct n as [f s ks vs|f s ks cs]; cbn [node_keys getFlag node_cells] in *.
  - rewrite bind_ret. cbn [fst snd]. rewrite first_all by done. rewrite bind_lift.
    rewrite (bind_first (write_keys ks b true) (write_cells (keys_cells ks) b true)) by by apply write_keys_eq.
    rewrite (bind_first _ _ _ _ (write_cells_app (keys_cells ks) (word_bytes <$> vs) b true d)), bind_assoc. apply bind_ext. intros st d1.
    rewrite first_all by done. rewrite bind_assoc, bind_lift. apply bind_first. apply write_words_eq.
  - rewrite first_all by lia. rewrite bind_assoc, bind_lift.
    rewrite (bind_first _ _ _ _ (write_words_eq _ _ _ _)).
    rewrite (bind_first _ _ _ _ (write_cells_app (word_bytes <$> (GetStore <$> cs)) (keys_cells ks) b true d)), bind_assoc. apply bind_ext. intros st d1.
    rewrite first_all by done. rewrite bind_lift.
    rewrite (bind_first _ _ _ _ (write_keys_eq ks st.1 st.2 d1 Hk)). apply bind_ext. intros st' d2. by rewrite bind_ret.
Qed.

Lemma groups_ok fuel s : (1 <= length s)%nat -> Forall cell_ok (groups fuel s).
Proof.
  revert s. induction fuel as [|fuel IH]; intros s Hs; [constructor|]. cbn [groups].
  destruct (Nat.ltb_spec 4 (length s)); constructor; try (unfold cell_ok; rewrite ?length_take; lia); [|constructor]. apply IH. rewrite length_drop. lia.
Qed.
Lemma words_ok ws : Forall cell_ok (word_bytes <$> ws).
Proof. apply Forall_fmap, Forall_true. intros w. unfold cell_ok. simpl. lia. Qed.
Lemma keys_ok ks : Forall (fun k => k <> []) ks -> Forall cell_ok (keys_cells ks).
Proof.
  intros H. unfold keys_cells. apply Forall_concat, Forall_fmap. eapply Forall_impl; [done|]. intros k Hk. simpl.
  constructor; [unfold cell_ok; simpl; lia|]. apply groups_ok. destruct k; [done|simpl; lia].
Qed.
Lemma node_cells_ok n : Forall (fun k => k <> []) (node_keys n) -> Forall cell_ok (node_cells n).
Proof. intros H. destruct n; apply Forall_app; (split; [|]); (apply words_ok || by apply keys_ok). Qed.

(** ** Writing a node *)

Lemma rank_0_keys f : flag_getRank f = 0 -> flag_GetKeyNum f = 0.
Proof.
  intros H. unfold flag_GetKeyNum. change NF_KN with (Z.land NF_RK NF_KN). unfold flag_getRank in H. by rewrite Z.land_assoc, H.
Qed.

Definition header (m : gmap Z Z) : Prop := exists h r c, word_at m 0 h /\ word_at m 4 r /\ word_at m 8 c.

Lemma fread_word_ok d w : word_at (bytes d) (pos d) w ->
  fread_word d = Some (w, mk_SIStorage (bytes d) (pos d + 4) (freelist d) (cur_block_num d)).
Proof.
  intros [Hw Ha]. unfold at_ in Ha. rewrite length_word_bytes in Ha. unfold fread_word, bindM, fread. rewrite Ha. cbn -[word_bytes of_word].
  unfold retM. by rewrite of_word_bytes.
Qed.

Lemma Address_0 d : Address 0 d = Some (0, d).
Proof. done. Qed.

(** [old] is the chain of a node whose store is [store]. *)
Definition chain (m : gmap Z Z) (store : Z) (old : list Z) : Prop :=
  match old with [] => store = 0 | b :: bl => store = b /\ links m (base b + 4) bl end.

Lemma free_chain_ok bl : forall fuel s next d h, (S (length bl) < fuel)%nat -> s <> 0 -> word_at (bytes d) 0 h ->
  Forall (fun b => 1 <= b <= cur_block_num d) bl ->
  match bl with [] => next = 0 | b :: bl => next = b /\ links (bytes d) (base b) bl end ->
  exists p, free_chain fuel s next d = Some (tt, mk_SIStorage (bytes d) p (rev (s :: bl) ++ freelist d) (cur_block_num d)).
Proof.
  induction bl as [|b bl IH]; intros fuel s next d h Hf Hs Hh Hb Hn; (destruct fuel as [|fuel]; [lia|]).
  - subst next. destruct fuel as [|fuel]; [simpl in Hf; lia|]. exists (0 + 4). cbn [free_chain]. destruct (Z.eqb_spec s 0); [done|].
    by do 4 (erewrite run_bind by (done || by apply (fread_word_ok _ h))).
  - destruct Hn as [-> Hl]. inversion_clear Hb as [|? ? Hb1 Hb2].
    assert (Hw : exists w, word_at (bytes d) (base b) w /\ match bl with [] => w = 0 | b :: bl => w = b /\ links (bytes d) (base b) bl end).
    { destruct bl as [|b2 bl]; [by exists 0|]. exists b2. by destruct Hl. }
    destruct Hw as (w&Hw&Hw').
    destruct (IH fuel b w (mk_SIStorage (bytes d) (base b + 4) (s :: freelist d) (cur_block_num d)) h) as [p E]; try done; [simpl in *; lia|lia|].
    exists p. cbn [free_chain]. destruct (Z.eqb_spec s 0); [done|]. 
    do 4 (erewrite run_bind by (done || (by apply Address_ok) || by apply (fread_word_ok _ w))). cbn [pos bytes freelist cur_block_num]. rewrite E. cbn [freelist]. do 3 f_equal. simpl. by rewrite <- !app_assoc.
Qed.

Lemma disk_freed d old used p : disk_ok d (old ++ used) ->
  disk_ok (mk_SIStorage (bytes d) p (rev old ++ freelist d) (cur_block_num d)) used.
Proof.
  intros [H1 H2 H3 H4 H5]. assert (Hp : (rev old ++ freelist d) ++ used ≡ₚ freelist d ++ old ++ used).
  { rewrite rev_alt. change (rev_append old []) with (reverse old). rewrite reverse_Permutation, (Permutation_app_comm old), app_assoc. done. }
  split; simpl; [by rewrite Hp|by rewrite Hp|by rewrite (Permutation_length Hp)|done|done].
Qed.

(** The part of [WriteNode] that frees the old blocks. *)
Lemma free_old_ok d store old used : disk_ok d (old ++ used) -> header (bytes d) -> chain (bytes d) store old ->
  exists p, free_old store d = Some (tt, mk_SIStorage (bytes d) p (rev old ++ freelist d) (cur_block_num d)).
Proof.
  intros Hok (h&r&c&Hh&Hr&_) Hc. unfold free_old. destruct old as [|b bl]; simpl in Hc.
  - subst store. exists 8. by do 4 (erewrite run_bind by (done || by apply (fread_word_ok _ r))).
  - destruct Hc as [-> Hl]. pose proof (used_range d _ b Hok (list_elem_of_here _ _)) as Hb.
    assert (Hw : exists w, word_at (bytes d) (base b + 4) w /\ match bl with [] => w = 0 | b :: bl => w = b /\ links (bytes d) (base b) bl end).
    { destruct bl as [|b2 bl]; [by exists 0|]. exists b2. by destruct Hl. }
    destruct Hw as (w&Hw&Hw'). 
    do 4 (erewrite run_bind by (done || (by apply Address_ok) || by apply (fread_word_ok _ w))). cbn [pos bytes freelist cur_block_num].
    destruct (free_chain_ok bl (S (S (Z.to_nat (cur_block_num d)))) b w (mk_SIStorage (bytes d) (base b + 4 + 4) (freelist d) (cur_block_num d)) h) as [p E]; try done.
    + pose proof (dk_count _ _ Hok) as H3. rewrite length_app in H3. simpl in H3. rewrite length_app in H3. lia.
    + lia.
    + apply Forall_forall. intros x Hx. apply (used_range d _ x Hok). simpl. apply list_elem_of_further, elem_of_app. by left.
    + exists p. exact E.
Qed.

(** The node [n] is on the file: its flags, its chain and its cells. *)
Definition stored (m : gmap Z Z) (n : SNode) (f : Z) (bl : list Z) : Prop :=
  word_at m (base (GetStore n)) f /\ links m (base (GetStore n) + 4) bl /\ stream m (GetStore n) 8 bl (node_cells n).

Definition outside (bl : list Z) (q : Z) : Prop := forall b, b ∈ bl -> ~ in_block b q.

Definition blocks_of (n : SNode) : nat := S (crossings 8 (length (node_cells n))).

Definition written (n : SNode) (b : Z) : SNode := setFlag (flag_delDirty (getFlag n)) (setStore b n).

Lemma cells_written n b : node_cells (written n b) = node_cells n.
Proof. by destruct n. Qed.
Lemma store_written n b : GetStore (written n b) = b.
Proof. by destruct n. Qed.

(** The part of [WriteNode] that writes the new blocks. *)
Lemma write_new_ok n d used : disk_ok d used -> node_size n -> Forall (fun k => k <> []) (node_keys n) -> word (getFlag n) ->
  len used + Z.of_nat (blocks_of n) + 256 <= MAX_BLOCK_NUM ->
  exists b bl d', write_new n d = Some ((true, written n b), d') /\
    disk_ok d' (b :: bl ++ used) /\ S (length bl) = blocks_of n /\ stored (bytes d') (written n b) (getFlag n) bl /\
    agree (bytes d) (bytes d') (outside (b :: bl)) /\ cur_block_num d <= cur_block_num d'.
Proof.
  intros Hok Hn Hk Hf Hr. unfold blocks_of in *.
  destruct (AllocBlock_ok d used Hok) as (b&d1&E1&Eb&_&Hc&Hok1&Hb); [lia|].
  pose proof (used_range _ _ b Hok1 (list_elem_of_here _ _)) as Hbr.
  set (d2 := mk_SIStorage (put_bytes (base b) (word_bytes (getFlag n)) (bytes d1)) (base b + 8) (freelist d1) (cur_block_num d1)).
  destruct (write_chain_ok (node_cells n) (node_cells_ok n Hk) d2 b 8 true (b :: used)) as (bl&d'&E&Hok'&Hl&Hlk&Hs&Ha&Hc'); try done.
  { by eapply disk_same, Hok1. } { apply list_elem_of_here. } { by exists 2. } { simpl in *. lia. }
  exists b, bl, d'. split.
  { unfold write_new. rewrite (run_bind _ _ _ _ _ E1), (run_bind _ _ _ _ _ (Address_ok _ _ Hbr)). do 2 (erewrite run_bind by done).
    erewrite run_bind by done. cbn [pos bytes freelist cur_block_num]. rewrite length_word_bytes. replace (base b + Z.of_nat 4 + 4) with (base b + 8) by lia.
    change (mk_SIStorage _ (base b + 8) _ _) with d2. erewrite run_bind; [done|]. rewrite write_body_eq by done. exact E. }
  assert (Hbl : b ∉ bl) by (eapply fresh_blocks; [exact Hok'|apply list_elem_of_here]).
  assert (Hflag : word_at (bytes d') (base b) (getFlag n)).
  { eapply word_agree; [eapply agree_mono, Ha|split; [done|apply at_put]]. intros q Hq. apply spared_before; [unfold in_block; lia|done|lia|simpl; lia]. }
  split_and!.
  - eapply disk_perm, Hok'. by rewrite Permutation_middle.
  - by rewrite Hl.
  - unfold stored. rewrite store_written, cells_written. done.
  - assert (Ho : forall q, outside (b :: bl) q -> ~ in_block b q) by (intros q Hq; apply Hq, list_elem_of_here).
    apply (agree_trans _ (bytes d2)); [cbn [d2 bytes]; rewrite <- Eb; apply put_agree|apply (agree_mono _ _ (spared b 8 true bl)); [|done]].
    + intros q Hq. apply Ho in Hq. rewrite length_word_bytes. unfold in_block in Hq. lia.
    + intros q Hq. split; [intros Hb'; by destruct (Ho q Hq)|]. intros x Hx. apply Hq. by apply list_elem_of_further.
  - simpl in Hc'. lia.
Qed.

(** [WriteNode] of a node that is in memory and was changed. *)
Lemma WriteNode_ok n d old used :
  flag_inMem (getFlag n) = true -> flag_isDirty (getFlag n) = true -> flag_GetKeyNum (getFlag n) <> 0 ->
  node_size n -> Forall (fun k => k <> []) (node_keys n) -> word (getFlag n) ->
  disk_ok d (old ++ used) -> header (bytes d) -> chain (bytes d) (GetStore n) old ->
  len used + Z.of_nat (blocks_of n) + 256 <= MAX_BLOCK_NUM ->
  exists b bl d', WriteNode n d = Some ((true, written n b), d') /\
    disk_ok d' (b :: bl ++ used) /\ S (length bl) = blocks_of n /\ stored (bytes d') (written n b) (getFlag n) bl /\
    agree (bytes d) (bytes d') (outside (b :: bl)) /\ cur_block_num d <= cur_block_num d'.
Proof.
  intros Hm Hd Hk0 Hn Hk Hf Hok Hh Hc Hr. destruct (free_old_ok d _ old used Hok Hh Hc) as [p Ep].
  destruct (write_new_ok n _ used (disk_freed d old used p Hok) Hn Hk Hf Hr) as (b&bl&d'&E&H). exists b, bl, d'. split; [|done].
  unfold WriteNode. rewrite Hm, Hd, andb_false_r. cbn [negb orb]. rewrite (run_bind _ _ _ _ _ Ep).
  by destruct (Z.eqb_spec (flag_GetKeyNum (getFlag n)) 0).
Qed.

(** A node that was removed from the tree gives back its blocks. *)
Lemma WriteNode_removed n d old used :
  flag_inMem (getFlag n) = true -> flag_getRank (getFlag n) = 0 ->
  disk_ok d (old ++ used) -> header (bytes d) -> chain (bytes d) (GetStore n) old ->
  exists d', WriteNode n d = Some ((true, n), d') /\ disk_ok d' used /\ bytes d' = bytes d /\ cur_block_num d' = cur_block_num d.
Proof.
  intros Hm Hr Hok Hh Hc. destruct (free_old_ok d _ old used Hok Hh Hc) as [p Ep].
  eexists. split; [|split; [by apply (disk_freed d old used p)|done]].
  assert (Hk : flag_GetKeyNum (getFlag n) = 0) by (by apply rank_0_keys).
  unfold WriteNode. rewrite Hm, Hr. cbn [negb orb andb Z.ltb Z.compare]. rewrite (run_bind _ _ _ _ _ Ep). by rewrite Hk.
Qed.

(** Nothing is written otherwise. *)
Lemma WriteNode_clean n d : 0 < flag_getRank (getFlag n) -> flag_isDirty (getFlag n) = false -> WriteNode n d = Some ((false, n), d).
Proof.
  intros Hr Hd. unfold WriteNode. rewrite Hd, (proj2 (Z.ltb_lt _ _) Hr). cbn [negb andb]. by rewrite orb_true_r.
Qed.

(** ** Reading cells *)

(** The pointer of [d] is at the place where [cells] follow; [next] is the number
    of the block after that one. *)
Definition tail_ok (m : gmap Z Z) (bl : list Z) (next : Z) : Prop :=
  match bl with [] => next = 0 | b :: bl => next = b /\ links m (base b) bl end.
Definition place (d : SIStorage) (next : Z) (cells : list (list Z)) : Prop :=
  exists b o bl, pos d = base b + o /\ 4 <= o < 4096 /\ (4 | o) /\ stream (bytes d) b o bl cells /\ tail_ok (bytes d) bl next /\
    Forall (fun b => 1 <= b <= cur_block_num d) bl.
Definition same_file (d d' : SIStorage) : Prop := bytes d' = bytes d /\ freelist d' = freelist d /\ cur_block_num d' = cur_block_num d.

Lemma same_file_refl d : same_file d d.
Proof. done. Qed.
Lemma same_file_trans d d' d'' : same_file d d' -> same_file d' d'' -> same_file d d''.
Proof. unfold same_file. naive_solver congruence. Qed.

Lemma wpM_run {S A B} (m : M S A) (f : A -> M S B) d a d' (Q : B -> S -> Prop) :
  m d = Some (a, d') -> wpM (f a) d' Q -> wpM (bindM m f) d Q.
Proof. intros H. unfold wpM. by rewrite (run_bind _ _ _ _ _ H). Qed.

Lemma tail_ok_links m p bl : links m p bl -> exists next, word_at m p next /\ tail_ok m bl next.
Proof. destruct bl as [|b bl]; simpl; [intros H; by exists 0|intros [H H']; by exists b]. Qed.

Lemma ReadAlign_ok d b o bl next cs : pos d = base b + o + 4 -> 0 <= o < 4096 -> (4 | o) ->
  (if o + 4 =? 4096 then match bl with b' :: bl => stream (bytes d) b' 4 bl cs | [] => False end else stream (bytes d) b (o + 4) bl cs) ->
  tail_ok (bytes d) bl next -> Forall (fun b => 1 <= b <= cur_block_num d) bl ->
  wpM (ReadAlign next) d (fun next' d' => same_file d d' /\ place d' next' cs).
Proof.
  intros Hp Ho [k Hk] Hs Ht Hb. unfold wpM, ReadAlign. rewrite (run_bind _ _ _ _ _ (eq_refl : ftell d = Some (pos d, d))).
  destruct (Z.eqb_spec (o + 4) 4096) as [E|E].
  - assert (Hm : pos d mod BLOCK_SIZE = 0).
    { rewrite Hp. replace (base b + o + 4) with ((512 + b + 1) * 4096) by (unfold base; lia). by apply Z_mod_mult. }
    rewrite Hm. cbn [Z.eqb]. destruct bl as [|b' bl]; [done|]. destruct Ht as [-> Hl]. inversion_clear Hb as [|? ? Hb1 Hb2].
    destruct (tail_ok_links _ _ _ Hl) as (w&Hw&Hw'). rewrite (run_bind _ _ _ _ _ (Address_ok _ _ Hb1)). erewrite run_bind by done.
    rewrite (fread_word_ok _ w) by done. simpl. split; [done|]. exists b', 4, bl. split_and!; try done.
  - assert (Hm : pos d mod BLOCK_SIZE <> 0).
    { rewrite Hp, <- Z.add_assoc. unfold BLOCK_SIZE. rewrite offset_mod by lia. lia. }
    apply Z.eqb_neq in Hm. rewrite Hm. simpl. split; [done|]. exists b, (o + 4), bl. split_and!; try done; try lia. exists (k + 1). lia.
Qed.

Definition read_cell (n : nat) (next : Z) : M SIStorage (list Z * Z) :=
  let! c := fread n in let! _ := fseek_cur (4 - Z.of_nat n) in let! next := ReadAlign next in retM (c, next).

Lemma read_cell_ok d next c cs : place d next (c :: cs) -> cell_ok c ->
  wpM (read_cell (length c) next) d (fun r d' => r.1 = c /\ same_file d d' /\ place d' r.2 cs).
Proof.
  intros (b&o&bl&Hp&Ho&Hd&[Ha Hs]&Ht&Hb) Hc. unfold at_ in Ha. rewrite <- Hp in Ha. unfold read_cell.
  apply (wpM_run _ _ d c (mk_SIStorage (bytes d) (pos d + len c) (freelist d) (cur_block_num d))); [unfold fread; by rewrite Ha|].
  eapply wpM_run; [done|]. cbn [pos bytes freelist cur_block_num]. replace (pos d + len c + (4 - len c)) with (pos d + 4) by lia.
  apply wpM_bind. eapply wpM_mono; [|apply (ReadAlign_ok _ b o bl next cs); try done; simpl; lia].
  intros next' d' [H1 H2]. simpl. split; [done|]. split; [|done]. destruct H1 as (?&?&?). done.
Qed.

(** The result of reading: a value, the next block, and the place behind it. *)
Definition reads {A} (m : M SIStorage (A * Z)) (d : SIStorage) (a : A) (rest : list (list Z)) : Prop :=
  wpM m d (fun r d' => r.1 = a /\ same_file d d' /\ place d' r.2 rest).

Lemma cells_bind {A B} (m : M SIStorage (A * Z)) (f : A * Z -> M SIStorage (B * Z)) d a b cs rest :
  reads m d a cs -> (forall next d', same_file d d' -> place d' next cs -> reads (f (a, next)) d' b rest) -> reads (bindM m f) d b rest.
Proof.
  intros H Hf. unfold reads in *. apply wpM_bind. eapply wpM_mono, H. intros [x next] d' (Ex&Hs&Hp). simpl in *. subst x.
  eapply wpM_mono, (Hf next d' Hs Hp). intros r d'' (Er&Hs'&Hp'). split; [done|]. split; [by eapply same_file_trans|done].
Qed.

Lemma reads_map {A B} (m : M SIStorage (A * Z)) (g : A -> B) d a rest :
  reads m d a rest -> reads (let! r := m in retM (g r.1, r.2)) d (g a) rest.
Proof. intros H. unfold reads in *. apply wpM_bind. eapply wpM_mono, H. intros [x n] d' (Ex&Hs&Hp). simpl in *. by subst x. Qed.

Lemma reads_eq {A} (m m' : M SIStorage (A * Z)) d a rest : m d = m' d -> reads m d a rest -> reads m' d a rest.
Proof. unfold reads, wpM. by intros ->. Qed.

(** One word. *)
Lemma read_word_ok {B} d next w cs (f : Z -> Z -> M SIStorage B) (Q : B -> SIStorage -> Prop) : place d next (word_bytes w :: cs) -> word w ->
  (forall next' d', same_file d d' -> place d' next' cs -> wpM (f w next') d' Q) ->
  wpM (let! w := fread_word in let! next := ReadAlign next in f w next) d Q.
Proof.
  intros (b&o&bl&Hp&Ho&Hd&[Ha Hs]&Ht&Hb) Hw H. 
  eapply wpM_run; [apply (fread_word_ok d w); rewrite Hp; by split|]. apply wpM_bind. eapply wpM_mono; [|apply (ReadAlign_ok _ b o bl next cs); try done; simpl; lia].
  intros next' d' [H1 H2]. by apply H.
Qed.

Lemma read_str_ok fuel len0 s rest : forall d next, (length s < fuel)%nat -> (1 <= length s)%nat -> len s mod 4 = len0 mod 4 ->
  place d next (groups fuel s ++ rest) -> reads (read_str fuel len0 (length s) next) d s rest.
Proof.
  revert s. induction fuel as [|fuel IH]; intros s d next Hf Hl Hm Hp; [lia|]. cbn [read_str groups] in *.
  destruct (Nat.ltb_spec 4 (length s)) as [H|H].
  - assert (E : length (take 4 s) = 4%nat) by (rewrite length_take; lia).
    apply (reads_eq (let! r := read_cell 4 next in let! r' := read_str fuel len0 (length s - 4) r.2 in retM (r.1 ++ r'.1, r'.2))).
    { unfold read_cell. rewrite bind_assoc. apply bind_ext. intros bs d1. rewrite bind_assoc. change (4 - Z.of_nat 4) with 0.
      destruct d1 as [m p l c]. unfold bindM at 1, fseek_cur, fseek. cbn [pos bytes freelist cur_block_num]. rewrite Z.add_0_r. simpl.
      rewrite bind_assoc. apply bind_ext. intros n d2. by rewrite bind_ret. }
    eapply cells_bind; [rewrite <- E; apply read_cell_ok; [exact Hp|unfold cell_ok; lia]|].
    intros next' d' Hs Hp'. cbn [fst snd]. rewrite <- (take_drop 4 s) at 2.
    apply (reads_map _ (fun x => take 4 s ++ x)). rewrite <- length_drop. apply IH; rewrite ?length_drop; [lia|lia| |done].
    rewrite Nat2Z.inj_sub by lia. rewrite <- Hm. change (Z.of_nat 4) with (1 * 4). replace (len s - 1 * 4) with (len s + (-1) * 4) by lia. by rewrite Z_mod_plus_full.
  - apply (reads_eq (read_cell (length s) next)).
    { unfold read_cell. apply bind_ext. intros bs d1. unfold skip_rest. rewrite <- Hm.
      assert (E : (if 0 <? len s mod 4 then 4 - len s mod 4 else len s mod 4) = 4 - len s).
      { assert (Hc : length s = 1%nat \/ length s = 2%nat \/ length s = 3%nat \/ length s = 4%nat) by lia. by destruct Hc as [-> |[-> |[-> | ->]]]. }
      by rewrite E. }
    apply read_cell_ok; [exact Hp|unfold cell_ok; lia].
Qed.

(** A key that can be read back. *)
Definition key_ok (k : list Z) : Prop := k <> [] /\ len k < W32.

Lemma ReadBstr_ok s rest d next : key_ok s -> place d next (str_cells s ++ rest) -> reads (ReadBstr next) d s rest.
Proof.
  intros [Hs Hw] Hp. assert (Hl : (1 <= length s)%nat) by (destruct s; [done|simpl; lia]). unfold reads, ReadBstr.
  eapply read_word_ok; [exact Hp|unfold word; lia|]. intros next' d' Hs' Hp'. rewrite Nat2Z.id.
  eapply wpM_mono; [|apply (read_str_ok _ _ s rest); [lia|done|done|exact Hp']].
  intros r d'' (H1&H2&H3). split; [done|]. split; [by eapply same_file_trans|done].
Qed.

Lemma read_node_keys_ok ks rest : forall d next, Forall key_ok ks -> place d next (keys_cells ks ++ rest) ->
  reads (read_Bstrs (length ks) next) d ks rest.
Proof.
  induction ks as [|k ks IH]; intros d next Hk Hp; [done|]. inversion_clear Hk as [|? ? Hk1 Hk2]. cbn [read_Bstrs length].
  unfold keys_cells in Hp. cbn [fmap list_fmap concat] in Hp. rewrite <- app_assoc in Hp.
  eapply cells_bind; [by apply ReadBstr_ok|]. intros next' d' _ Hp'. cbn [fst snd]. apply (reads_map _ (cons k)). by apply IH.
Qed.

Lemma read_values_ok vs rest : forall d next, Forall word vs -> place d next ((word_bytes <$> vs) ++ rest) ->
  wpM (read_values (length vs) next) d (fun r d' => r = vs /\ same_file d d').
Proof.
  induction vs as [|v vs IH]; intros d next Hv Hp; [done|]. inversion_clear Hv as [|? ? Hv1 Hv2]. cbn [read_values length].
  eapply read_word_ok; [exact Hp|done|]. intros next' d' Hs Hp'. apply wpM_bind. eapply wpM_mono; [|by apply (IH d' next')].
  intros r d'' [-> Hs']. simpl. split; [done|]. by eapply same_file_trans.
Qed.
