(* ===== verification/SIStorageTheorems.v ===== *)
(** * The file of the tree: saving and loading

    [tree_rep]: a tree of nodes, some of them only on the file, stands for a tree
    of keys and values and owns blocks of the file.  Writing the tree leaves a file
    from which the same tree is read back, and loses no block. *)

From S2P Require Import Prelude SINodeFlags SIStorage SIStorageSpec.

(** ** What a tree of nodes stands for *)

Inductive content := CLeaf (ks : list (list Z)) (vs : list Z) | CIntl (ks : list (list Z)) (cs : list content).

Definition bare (f : Z) : Z := flag_SetMemFlagFalse (flag_delDirty f).
Definition node_fit (f : Z) (leaf : bool) (ks : list (list Z)) : Prop :=
  word f /\ flag_isLeaf f = leaf /\ flag_GetKeyNum f = len ks /\ (1 <= length ks)%nat /\ 0 < flag_getHeight f /\ Forall key_ok ks.
(** A node that is not in memory has nothing to write. *)
Definition in_memory {A} (f : Z) (mem real : list A) : Prop :=
  if flag_inMem f then mem = real else mem = [] /\ flag_isDirty f = false.
Definition on_file (m : gmap Z Z) (n : SNode) (old : list Z) : Prop :=
  exists fw bl, old = GetStore n :: bl /\ stored m n fw bl /\ bare fw = bare (getFlag n).

Fixpoint tree_clean (n : SNode) : bool :=
  match n with
  | SLeaf f _ _ _ => negb (flag_isDirty f)
  | SIntl f _ _ cs => negb (flag_isDirty f) && forallb tree_clean cs
  end.

Section Trees.
Context (R : SNode -> content -> list Z -> Prop).
Fixpoint trees_rep (ns : list SNode) (cs : list content) (own : list Z) : Prop :=
  match ns, cs with
  | [], [] => own = []
  | n :: ns, c :: cs => exists o1 o2, own = o1 ++ o2 /\ R n c o1 /\ trees_rep ns cs o2
  | _, _ => False
  end.
End Trees.

Definition leaf_rep (m : gmap Z Z) (f s : Z) (mks : list (list Z)) (mvs : list Z) (ks : list (list Z)) (vs : list Z) (own : list Z) : Prop :=
  node_fit f true ks /\ length vs = length ks /\ Forall word vs /\ in_memory f mks ks /\ in_memory f mvs vs /\ chain m s own /\
  (flag_isDirty f = false -> on_file m (SLeaf f s ks vs) own).
Definition intl_rep (m : gmap Z Z) (f s : Z) (mks : list (list Z)) (ns : list SNode) (ks : list (list Z)) (own : list Z) : Prop :=
  node_fit f false ks /\ length ns = S (length ks) /\ in_memory f mks ks /\ chain m s own /\
  (flag_isDirty f = false -> on_file m (SIntl f s ks ns) own /\ forallb tree_clean ns = true).

Fixpoint tree_rep (m : gmap Z Z) (n : SNode) (c : content) (own : list Z) : Prop :=
  match n, c with
  | SLeaf f s mks mvs, CLeaf ks vs => leaf_rep m f s mks mvs ks vs own
  | SIntl f s mks ns, CIntl ks cs =>
      exists old o2, own = old ++ o2 /\ intl_rep m f s mks ns ks old /\ trees_rep (tree_rep m) ns cs o2
  | _, _ => False
  end.

Lemma SNode_ind' (P : SNode -> Prop) :
  (forall f s ks vs, P (SLeaf f s ks vs)) -> (forall f s ks cs, Forall P cs -> P (SIntl f s ks cs)) -> forall n, P n.
Proof.
  intros HL HI. fix IH 1. intros [f s ks vs|f s ks cs]; [apply HL|]. apply HI. induction cs as [|c cs IHcs]; constructor; [apply IH|exact IHcs].
Qed.

(** ** Changes of the file elsewhere *)

Definition inside (own : list Z) (q : Z) : Prop := exists b, b ∈ own /\ in_block b q.

Lemma inside_app o1 o2 q : inside o1 q \/ inside o2 q -> inside (o1 ++ o2) q.
Proof. intros [(b&Hb&Hq)|(b&Hb&Hq)]; exists b; rewrite elem_of_app; tauto. Qed.

Lemma chain_agree m m' s own : agree m m' (inside own) -> chain m s own -> chain m' s own.
Proof.
  intros H. destruct own as [|b bl]; [done|]. simpl. intros [-> Hl]. split; [done|]. eapply links_agree, Hl. eapply agree_mono, H.
  intros q [Hq|(x&Hx&Hq)]; [exists b; split; [apply list_elem_of_here|unfold in_block; lia]|].
  exists x. split; [by apply list_elem_of_further|done].
Qed.

Lemma on_file_agree m m' n own : Forall cell_ok (node_cells n) -> agree m m' (inside own) -> on_file m n own -> on_file m' n own.
Proof.
  intros Hc H (fw&bl&->&(Hf&Hl&Hs)&Hb). exists fw, bl. split; [done|]. split; [|done].
  assert (Ho : agree m m' (in_block (GetStore n))) by (eapply agree_mono, H; intros q Hq; exists (GetStore n); split; [apply list_elem_of_here|done]).
  assert (Hi : agree m m' (inside bl)) by (eapply agree_mono, H; intros q (x&Hx&Hq); exists x; split; [by apply list_elem_of_further|done]).
  split_and!.
  - eapply word_agree, Hf. eapply agree_mono, Ho. unfold in_block. lia.
  - eapply links_agree, Hl. intros q [Hq|Hq]; [apply Ho; unfold in_block; lia|by apply Hi].
  - eapply stream_agree, Hs; [done|lia|by exists 2|lia|]. intros q [[Hq _]|Hq]; [by apply Ho|by apply Hi].
Qed.

Lemma keys_nonempty ks : Forall key_ok ks -> Forall (fun k => k <> []) ks.
Proof. intros H. eapply Forall_impl; [done|]. by intros k [? _]. Qed.
Lemma leaf_rep_agree m m' f s mks mvs ks vs own : agree m m' (inside own) -> leaf_rep m f s mks mvs ks vs own -> leaf_rep m' f s mks mvs ks vs own.
Proof.
  intros H (H1&H2&H3&H4&H5&H6&H7). split_and!; try done; [by eapply chain_agree|]. intros Hd. eapply on_file_agree, H7; try done.
  apply node_cells_ok, keys_nonempty, H1.
Qed.
Lemma intl_rep_agree m m' f s mks ns ks own : agree m m' (inside own) -> intl_rep m f s mks ns ks own -> intl_rep m' f s mks ns ks own.
Proof.
  intros H (H1&H2&H3&H4&H5). split_and!; try done; [by eapply chain_agree|]. intros Hd. destruct (H5 Hd). split; [|done]. eapply on_file_agree; try done.
  apply node_cells_ok, keys_nonempty, H1.
Qed.

Lemma trees_rep_impl (R R' : SNode -> content -> list Z -> Prop) (P : list Z -> Prop) ns :
  (forall o o', P (o ++ o') -> P o /\ P o') -> Forall (fun n => forall c o, P o -> R n c o -> R' n c o) ns ->
  forall cs own, P own -> trees_rep R ns cs own -> trees_rep R' ns cs own.
Proof.
  intros HP. induction 1 as [|n ns Hn _ IH]; intros [|c cs] own H; try done. simpl. intros (o&o'&->&Hr&Ht). apply HP in H as [H1 H2].
  exists o, o'. split; [done|]. split; [by apply Hn|by apply IH].
Qed.

Lemma agree_parts m m' o o' : agree m m' (inside (o ++ o')) -> agree m m' (inside o) /\ agree m m' (inside o').
Proof. intros H. split; (eapply agree_mono, H; intros q Hq; apply inside_app; tauto). Qed.

Lemma tree_rep_agree n : forall m m' c own, agree m m' (inside own) -> tree_rep m n c own -> tree_rep m' n c own.
Proof.
  induction n as [f s mks mvs|f s mks ns IH] using SNode_ind'; intros m m' [ks vs|ks cs] own H; try done; simpl; [by apply leaf_rep_agree|].
  intros (old&o2&->&Hn&Ht). apply agree_parts in H as [H1 H2]. exists old, o2. split; [done|]. split; [by eapply intl_rep_agree|].
  eapply (trees_rep_impl _ _ (fun o => agree m m' (inside o))), Ht; [apply agree_parts| |done].
  eapply Forall_impl; [exact IH|]. simpl. intros n Hn' c o Ho. by apply Hn'.
Qed.
Lemma trees_rep_agree ns m m' cs own : agree m m' (inside own) -> trees_rep (tree_rep m) ns cs own -> trees_rep (tree_rep m') ns cs own.
Proof.
  intros H. eapply (trees_rep_impl _ _ (fun o => agree m m' (inside o))); [apply agree_parts| |done].
  apply Forall_true. intros n c o Ho. by apply tree_rep_agree.
Qed.

(** ** Flags *)

Lemma del_flags f : flag_isLeaf (flag_delDirty f) = flag_isLeaf f /\ flag_inMem (flag_delDirty f) = flag_inMem f /\
  flag_GetKeyNum (flag_delDirty f) = flag_GetKeyNum f /\ flag_getHeight (flag_delDirty f) = flag_getHeight f /\ flag_isDirty (flag_delDirty f) = false.
Proof.
  unfold flag_isLeaf, flag_inMem, flag_GetKeyNum, flag_getHeight, flag_isDirty, flag_delDirty. rewrite land_clear, !land_ldiff_other by done. done.
Qed.
Lemma out_flags f : flag_isLeaf (flag_SetMemFlagFalse f) = flag_isLeaf f /\ flag_isDirty (flag_SetMemFlagFalse f) = flag_isDirty f /\
  flag_GetKeyNum (flag_SetMemFlagFalse f) = flag_GetKeyNum f /\ flag_getHeight (flag_SetMemFlagFalse f) = flag_getHeight f /\
  flag_inMem (flag_SetMemFlagFalse f) = false.
Proof.
  unfold flag_isLeaf, flag_inMem, flag_GetKeyNum, flag_getHeight, flag_isDirty, flag_SetMemFlagFalse. rewrite land_clear, !land_ldiff_other by done. done.
Qed.
Lemma in_flags f : flag_isLeaf (flag_SetInMem f) = flag_isLeaf f /\ flag_isDirty (flag_SetInMem f) = flag_isDirty f /\
  flag_GetKeyNum (flag_SetInMem f) = flag_GetKeyNum f /\ flag_getHeight (flag_SetInMem f) = flag_getHeight f /\
  flag_inMem (flag_SetInMem f) = true.
Proof.
  unfold flag_isLeaf, flag_inMem, flag_GetKeyNum, flag_getHeight, flag_isDirty, flag_SetInMem. rewrite land_set, !land_lor_other by done. done.
Qed.

Lemma bare_idem f : bare (bare f) = bare f.
Proof.
  unfold bare, flag_SetMemFlagFalse, flag_delDirty. apply Z.bits_inj'. intros n Hn. rewrite !Z.ldiff_spec.
  by destruct (Z.testbit f n), (Z.testbit NF_ID n), (Z.testbit NF_IM n).
Qed.
Lemma bare_del f : bare (flag_delDirty f) = bare f.
Proof.
  unfold bare, flag_SetMemFlagFalse, flag_delDirty. apply Z.bits_inj'. intros n Hn. rewrite !Z.ldiff_spec.
  by destruct (Z.testbit f n), (Z.testbit NF_ID n), (Z.testbit NF_IM n).
Qed.
Lemma bare_in f : bare (flag_SetInMem f) = bare f.
Proof.
  unfold bare, flag_SetMemFlagFalse, flag_delDirty, flag_SetInMem. apply Z.bits_inj'. intros n Hn. rewrite !Z.ldiff_spec, Z.lor_spec.
  by destruct (Z.testbit f n), (Z.testbit NF_ID n), (Z.testbit NF_IM n).
Qed.

Lemma bare_out f : bare f = bare (flag_SetMemFlagFalse f).
Proof.
  unfold bare, flag_SetMemFlagFalse, flag_delDirty. apply Z.bits_inj'. intros n Hn. rewrite !Z.ldiff_spec.
  by destruct (Z.testbit f n), (Z.testbit NF_ID n), (Z.testbit NF_IM n).
Qed.

Lemma word_in f : word f -> word (flag_SetInMem f).
Proof. intros H. by apply word_lor. Qed.

Lemma fit_del f leaf ks : node_fit f leaf ks -> node_fit (flag_delDirty f) leaf ks.
Proof. destruct (del_flags f) as (E1&_&E2&E3&_). unfold node_fit. rewrite E1, E2, E3. intros (H&H'). split; [by apply word_ldiff|done]. Qed.
Lemma fit_out f leaf ks : node_fit f leaf ks -> node_fit (flag_SetMemFlagFalse f) leaf ks.
Proof. destruct (out_flags f) as (E1&_&E2&E3&_). unfold node_fit. rewrite E1, E2, E3. intros (H&H'). split; [by apply word_ldiff|done]. Qed.
Lemma fit_in f leaf ks : node_fit f leaf ks -> node_fit (flag_SetInMem f) leaf ks.
Proof. destruct (in_flags f) as (E1&_&E2&E3&_). unfold node_fit. rewrite E1, E2, E3. intros (H&H'). split; [by apply word_in|done]. Qed.

Lemma fit_rank f leaf ks : node_fit f leaf ks -> 0 < flag_getRank f.
Proof.
  intros (_&_&_&_&H&_). pose proof (rank_bounds f). destruct (Z.eq_dec (flag_getRank f) 0) as [E|]; [|lia].
  rewrite (rank_0_height f E) in H. lia.
Qed.
Lemma dirty_memory {A} f (mem real : list A) : flag_isDirty f = true -> in_memory f mem real -> flag_inMem f = true /\ mem = real.
Proof. unfold in_memory. destruct (flag_inMem f); [done|]. intros H [_ H']. congruence. Qed.

(** ** Writing a tree *)

Fixpoint needed (c : content) : nat :=
  match c with
  | CLeaf ks vs => S (crossings 8 (length (keys_cells ks) + length vs))
  | CIntl ks cs => S (crossings 8 (S (length ks) + length (keys_cells ks))) + sum_list (needed <$> cs)
  end.

(** The file [d'] after the blocks [own] of a tree became [own']. *)
Definition kept (d d' : SIStorage) (own' : list Z) : Prop :=
  agree (bytes d) (bytes d') (outside own') /\ cur_block_num d <= cur_block_num d'.

Lemma used_kept d' own' used q : disk_ok d' (own' ++ used) -> inside used q -> outside own' q.
Proof.
  intros Hok (b&Hb&Hq) x Hx Hq'. destruct (decide (x = b)) as [->|]; [|by destruct (base_ne x b q)]. by eapply fresh_blocks.
Qed.

Lemma header_kept d d' own' : Forall (fun b => 1 <= b) own' -> agree (bytes d) (bytes d') (outside own') -> header (bytes d) -> header (bytes d').
Proof.
  intros Hr H (h&r&c&H1&H2&H3). rewrite Forall_forall in Hr.
  assert (Hg : forall q, 0 <= q < 4096 -> outside own' q) by (intros q Hq b Hb Hq'; specialize (Hr b Hb); unfold in_block, base in Hq'; lia).
  exists h, r, c. split_and!; (eapply word_agree; [eapply agree_mono, H; intros q Hq; apply Hg; lia|done]).
Qed.

Lemma node_written m n b bl : stored m (written n b) (getFlag n) bl -> chain m b (b :: bl) /\ on_file m (written n b) (b :: bl).
Proof.
  intros Hs. split.
  - destruct Hs as (_&Hl&_). rewrite store_written in Hl. done.
  - exists (getFlag n), bl. rewrite store_written. split; [done|]. split; [done|].
    replace (getFlag (written n b)) with (flag_delDirty (getFlag n)) by (by destruct n). by rewrite bare_del.
Qed.

Lemma memory_del {A} f (mem real : list A) : in_memory f mem real -> in_memory (flag_delDirty f) mem real.
Proof. destruct (del_flags f) as (_&E&_&_&E'). unfold in_memory. rewrite E, E'. by destruct (flag_inMem f) as [|]; [|intros [? _]]. Qed.

(** What writing a tree is to do: [used] are the blocks of other chains. *)
Definition writes (n : SNode) (c : content) : Prop := forall d own used,
  tree_rep (bytes d) n c own -> disk_ok d (own ++ used) -> header (bytes d) ->
  len own + len used + Z.of_nat (needed c) + 256 <= MAX_BLOCK_NUM ->
  exists n' own' d', write_nodes n d = Some (n', d') /\ tree_rep (bytes d') n' c own' /\ tree_clean n' = true /\
    (tree_clean n = true -> n' = n /\ d' = d /\ own' = own) /\ disk_ok d' (own' ++ used) /\ agree (bytes d) (bytes d') (outside own') /\
    (length own' <= length own + needed c)%nat /\ cur_block_num d <= cur_block_num d'.

Lemma writes_leaf f s mks mvs ks vs : writes (SLeaf f s mks mvs) (CLeaf ks vs).
Proof.
  intros d own used Hr Hok Hh Hroom. cbn [write_nodes]. pose proof Hr as (Hf&Hl&Hw&Hmk&Hmv&Hc&Hd). destruct (flag_isDirty f) eqn:Ed.
  - destruct (dirty_memory _ _ _ Ed Hmk) as [Em ->]. destruct (dirty_memory _ _ _ Ed Hmv) as [_ ->]. clear Hmk Hmv.
    destruct Hf as (Hfw&Hfl&Hfk&Hk1&Hfh&Hks). simpl in Hroom.
    destruct (WriteNode_ok (SLeaf f s ks vs) d own used) as (b&bl&d'&E&Hok'&Hlen&Hs&Ha&Hcur); try done; simpl.
    + lia.
    + by apply keys_nonempty.
    + unfold blocks_of. cbn [node_cells]. rewrite length_app, length_fmap. lia.
    + rewrite (run_bind _ _ _ _ _ E). simpl. destruct (node_written _ _ _ _ Hs) as [Hch Hon].
      exists (SLeaf (flag_delDirty f) b ks vs), (b :: bl), d'. destruct (del_flags f) as (D1&D2&D3&D4&D5).
      unfold blocks_of in Hlen. cbn [node_cells] in Hlen. rewrite length_app, length_fmap in Hlen.
      split; [done|]. split.
      { split_and!; try done; [by apply fit_del|unfold in_memory; by rewrite D2, Em..]. }
      simpl. rewrite D5, Ed. split_and!; try done. lia.
  - erewrite run_bind by (apply WriteNode_clean; [by eapply fit_rank|done]). simpl. exists (SLeaf f s mks mvs), own, d.
    split_and!; try done; cbn [tree_clean]; rewrite ?Ed; (done || lia).
Qed.

Lemma trees_length R ns cs own : trees_rep R ns cs own -> length ns = length cs.
Proof. revert cs own. induction ns as [|n ns IH]; intros [|c cs] own; try done. simpl. intros (o&o'&_&_&H). f_equal. by eapply IH. Qed.

Lemma inside_outside d own used q : disk_ok d (own ++ used) -> inside used q -> outside own q.
Proof. apply used_kept. Qed.

Lemma outside_app o o' q : outside (o ++ o') q <-> outside o q /\ outside o' q.
Proof.
  split; [intros H; split; intros b Hb; apply H, elem_of_app; [by left|by right]|].
  intros [H H'] b [Hb|Hb]%elem_of_app; [by apply H|by apply H'].
Qed.

Lemma disk_low d used : disk_ok d used -> Forall (fun b => 1 <= b) used.
Proof. intros H. apply Forall_forall. intros b Hb. by apply (used_range d used b H). Qed.

Lemma needed_cons c cs : sum_list (needed <$> c :: cs) = (needed c + sum_list (needed <$> cs))%nat.
Proof. done. Qed.

(** The children, from the last to the first. *)
Lemma writes_childs ns : Forall (fun n => forall c, writes n c) ns -> forall cs d own used,
  trees_rep (tree_rep (bytes d)) ns cs own -> disk_ok d (own ++ used) -> header (bytes d) ->
  len own + len used + Z.of_nat (sum_list (needed <$> cs)) + 256 <= MAX_BLOCK_NUM ->
  exists ns' own' d', write_childs write_nodes ns d = Some (ns', d') /\ trees_rep (tree_rep (bytes d')) ns' cs own' /\
    forallb tree_clean ns' = true /\ (forallb tree_clean ns = true -> ns' = ns /\ d' = d /\ own' = own) /\ disk_ok d' (own' ++ used) /\
    agree (bytes d) (bytes d') (outside own') /\ (length own' <= length own + sum_list (needed <$> cs))%nat /\
    cur_block_num d <= cur_block_num d'.
Proof.
  induction 1 as [|n ns Hn _ IH]; intros cs d own used Ht Hok Hh Hroom; (destruct cs as [|c cs]; [|]); try done.
  - simpl in Ht. subst own. exists [], [], d. split_and!; try done.
  - destruct Ht as (o1&o2&->&Hr&Ht). cbn [write_childs]. rewrite length_app, needed_cons in Hroom.
    destruct (IH cs d o2 (o1 ++ used)) as (ns'&o2'&d1&E1&Ht1&Hcl1&Hsame1&Hok1&Ha1&Hlen1&Hcur1); try done.
    { eapply disk_perm, Hok. rewrite <- app_assoc. by rewrite Permutation_app_swap_app. }
    { rewrite length_app. lia. }
    rewrite (run_bind _ _ _ _ _ E1).
    assert (Hr1 : tree_rep (bytes d1) n c o1).
    { eapply tree_rep_agree, Hr. eapply agree_mono, Ha1. intros q Hq. eapply (inside_outside d1); [exact Hok1|]. apply inside_app. by left. }
    destruct (Hn c d1 o1 (o2' ++ used)) as (n'&o1'&d2&E2&Hr2&Hcl2&Hsame2&Hok2&Ha2&Hlen2&Hcur2); try done.
    { eapply disk_perm, Hok1. by rewrite Permutation_app_swap_app. }
    { eapply header_kept, Hh; [|exact Ha1]. apply disk_low in Hok1. by apply Forall_app in Hok1 as [? _]. }
    { rewrite length_app. lia. }
    rewrite (run_bind _ _ _ _ _ E2). exists (n' :: ns'), (o1' ++ o2'), d2. split; [done|]. split.
    { simpl. exists o1', o2'. split; [done|]. split; [done|]. eapply trees_rep_agree, Ht1. eapply agree_mono, Ha2. intros q Hq.
      eapply (inside_outside d2); [exact Hok2|]. apply inside_app. by left. }
    split_and!.
    + simpl. by rewrite Hcl2, Hcl1.
    + simpl. intros [H1 H2]%andb_prop. destruct (Hsame1 H2) as (->&->&->), (Hsame2 H1) as (->&->&->). done.
    + by rewrite <- app_assoc.
    + eapply agree_trans; [eapply agree_mono, Ha1|eapply agree_mono, Ha2]; intros q Hq; by apply outside_app in Hq as [? ?].
    + rewrite !length_app, needed_cons. lia.
    + lia.
Qed.

Lemma writes_intl f s mks ns ks cs : Forall (fun n => forall c, writes n c) ns -> writes (SIntl f s mks ns) (CIntl ks cs).
Proof.
  intros Hns d own used (old&o2&->&Hr&Ht) Hok Hh Hroom. pose proof Hr as (Hf&Hl&Hmk&Hc&Hd).
  rewrite length_app in Hroom. cbn [needed] in Hroom. cbn [write_nodes].
  assert (Hnum : (len ns =? flag_GetKeyNum f + 1) = true) by (destruct Hf as (_&_&->&_); rewrite Hl; apply Z.eqb_eq; lia). rewrite Hnum. cbn [negb].
  destruct (writes_childs ns Hns cs d o2 (old ++ used)) as (ns'&o2'&d1&E1&Ht1&Hcl1&Hsame1&Hok1&Ha1&Hlen1&Hcur1); try done.
  { eapply disk_perm, Hok. rewrite <- app_assoc. by rewrite Permutation_app_swap_app. }
  { rewrite length_app. lia. }
  rewrite (run_bind _ _ _ _ _ E1). pose proof (trees_length _ _ _ _ Ht) as El. pose proof (trees_length _ _ _ _ Ht1) as El1.
  assert (Hb1 : agree (bytes d) (bytes d1) (inside old)).
  { eapply agree_mono, Ha1. intros q Hq. eapply (inside_outside d1); [exact Hok1|]. apply inside_app. by left. }
  assert (Hh1 : header (bytes d1)).
  { eapply header_kept, Hh; [|exact Ha1]. apply disk_low in Hok1. by apply Forall_app in Hok1 as [? _]. }
  destruct (flag_isDirty f) eqn:Ed.
  - destruct (dirty_memory _ _ _ Ed Hmk) as [Em ->]. clear Hmk. destruct Hf as (Hfw&Hfl&Hfk&Hk1&Hfh&Hks).
    assert (Hcells : blocks_of (SIntl f s ks ns') = S (crossings 8 (S (length ks) + length (keys_cells ks)))).
    { unfold blocks_of. cbn [node_cells]. by rewrite length_app, !length_fmap, El1, <- El, Hl. }
    destruct (WriteNode_ok (SIntl f s ks ns') d1 old (o2' ++ used)) as (b&bl&d2&E&Hok2&Hlen&Hs&Ha&Hcur); try done; simpl.
    + lia.
    + split; [done|]. simpl. lia.
    + by apply keys_nonempty.
    + eapply disk_perm, Hok1. by rewrite Permutation_app_swap_app.
    + by eapply chain_agree.
    + rewrite Hcells, length_app. lia.
    + rewrite (run_bind _ _ _ _ _ E). simpl. destruct (node_written _ _ _ _ Hs) as [Hch Hon]. rewrite Hcells in Hlen.
      exists (SIntl (flag_delDirty f) b ks ns'), ((b :: bl) ++ o2'), d2. destruct (del_flags f) as (D1&D2&D3&D4&D5). split; [done|]. split.
      { exists (b :: bl), o2'. split; [done|]. split.
        - split_and!; try done; [by apply fit_del|lia|unfold in_memory; by rewrite D2, Em].
        - eapply trees_rep_agree, Ht1. eapply agree_mono, Ha. intros q Hq. eapply (inside_outside d2 (b :: bl)); [exact Hok2|]. apply inside_app. by left. }
      cbn [tree_clean]. rewrite D5, Hcl1, Ed. split_and!; try done; [by rewrite <- app_assoc| |rewrite !length_app; simpl in *; lia|lia].
      eapply agree_trans; [eapply agree_mono, Ha1|eapply agree_mono, Ha]; intros q Hq; by apply outside_app in Hq as [? ?].
  - destruct (Hd eq_refl) as [Hon Hcl]. destruct (Hsame1 Hcl) as (->&->&->). erewrite run_bind by (apply WriteNode_clean; [by eapply fit_rank|done]).
    exists (SIntl f s mks ns), (old ++ o2), d. split; [done|]. split.
    { exists old, o2. split; [done|]. split; [by eapply intl_rep_agree|done]. }
    cbn [tree_clean]. rewrite Ed, Hcl. split_and!; try done. lia.
Qed.

Lemma writes_all n : forall c, writes n c.
Proof.
  induction n as [f s mks mvs|f s mks ns IH] using SNode_ind'; intros [ks vs|ks cs]; try (by intros d own used []); [apply writes_leaf|by apply writes_intl].
Qed.

(** ** Reading a node *)

Definition in_range (d : SIStorage) (own : list Z) : Prop := Forall (fun b => 1 <= b <= cur_block_num d) own.
Definition seek (d : SIStorage) (p : Z) : SIStorage := mk_SIStorage (bytes d) p (freelist d) (cur_block_num d).

Lemma disk_range d own used : disk_ok d (own ++ used) -> in_range d own.
Proof. intros H. apply Forall_forall. intros b Hb. apply (used_range d _ b H), elem_of_app. by left. Qed.
Lemma range_same d d' own : same_file d d' -> in_range d own -> in_range d' own.
Proof. intros (_&_&E). unfold in_range. by rewrite E. Qed.
Lemma rep_same d d' n c own : same_file d d' -> tree_rep (bytes d) n c own -> tree_rep (bytes d') n c own.
Proof. by intros (->&_&_). Qed.
Lemma place_same d d' next cells : same_file d d' -> place d next cells -> place (seek d' (pos d)) next cells.
Proof. intros (E1&E2&E3) (b&o&bl&H). exists b, o, bl. simpl. by rewrite E1, E3. Qed.

Lemma stream_skip m b bl xs ys : forall o, stream m b o bl (xs ++ ys) -> 0 <= o -> o + 4 * len xs < 4096 -> stream m b (o + 4 * len xs) bl ys.
Proof.
  induction xs as [|x xs IH]; intros o; [by rewrite Z.add_0_r|]. simpl app. cbn [stream length]. intros [_ H] Ho Hlt.
  destruct (Z.eqb_spec (o + 4) 4096); [lia|]. replace (o + 4 * Z.of_nat (S (length xs))) with (o + 4 + 4 * len xs) by lia. apply IH; [done|lia|lia].
Qed.

(** The place behind the two words at the start of the first block. *)
Lemma stored_start d n fw bl : stored (bytes d) n fw bl -> in_range d bl -> exists next,
  word_at (bytes d) (base (GetStore n)) fw /\ word_at (bytes d) (base (GetStore n) + 4) next /\
  forall xs ys, node_cells n = xs ++ ys -> 8 + 4 * len xs < 4096 -> place (seek d (base (GetStore n) + 8 + 4 * len xs)) next ys.
Proof.
  intros (Hf&Hl&Hs) Hr. destruct (tail_ok_links _ _ _ Hl) as (next&Hn&Ht). exists next. split; [done|]. split; [done|].
  intros xs ys E Hlt. rewrite E in Hs. exists (GetStore n), (8 + 4 * len xs), bl. simpl. split_and!; try done; try lia.
  - apply Z.divide_add_r; [by exists 2|by exists (len xs); lia].
  - apply stream_skip; [done|lia|lia].
Qed.

Definition loaded (f : Z) : Z := flag_delDirty (flag_SetInMem f).
Lemma loaded_flags f leaf ks : node_fit f leaf ks -> node_fit (loaded f) leaf ks /\ flag_inMem (loaded f) = true /\
  flag_isDirty (loaded f) = false /\ bare (loaded f) = bare f.
Proof.
  intros H. unfold loaded. destruct (del_flags (flag_SetInMem f)) as (_&E1&_&_&E2). destruct (in_flags f) as (_&_&_&_&E3).
  split; [by apply fit_del, fit_in|]. split; [congruence|]. split; [done|]. by rewrite bare_del, bare_in.
Qed.

Lemma ReadNode_leaf d f s mks mvs ks vs own : leaf_rep (bytes d) f s mks mvs ks vs own -> in_range d own -> flag_inMem f = false ->
  wpM (ReadNode (SLeaf f s mks mvs)) d (fun r d' => r = (true, SLeaf (loaded f) s ks vs) /\ same_file d d').
Proof.
  intros (Hf&Hl&Hw&Hmk&_&_&Hd) Hr Hm. unfold in_memory in Hmk. rewrite Hm in Hmk. destruct Hmk as [_ Ed]. destruct (Hd Ed) as (fw&bl&->&Hs&_).
  apply Forall_cons in Hr as [Hs0 Hr]. simpl in Hs0. destruct (stored_start d _ fw bl Hs Hr) as (next&_&Hn&Hpl). simpl in Hn, Hpl.
  unfold ReadNode. cbn [getFlag GetStore]. rewrite Hm. cbn iota. eapply wpM_run; [by apply Address_ok|]. do 2 (eapply wpM_run; [done|]). cbn [pos bytes freelist cur_block_num].
  eapply wpM_run; [by apply (fread_word_ok _ next)|]. destruct Hf as (_&_&Hk&_&_&Hks). rewrite Hk, Nat2Z.id. cbn [pos bytes freelist cur_block_num].
  specialize (Hpl [] _ eq_refl ltac:(simpl; lia)). simpl in Hpl. apply wpM_bind.
  eapply wpM_mono; [|apply (read_node_keys_ok ks (word_bytes <$> vs)); [done|]].
  2:{ replace (base s + 4 + 4) with (base s + 8 + 0) by lia. exact Hpl. }
  intros [r n] d' (E1&Hs1&Hp1). simpl in *. subst r. apply wpM_bind. rewrite <- Hl.
  eapply wpM_mono; [|apply (read_values_ok vs []); [done|rewrite app_nil_r; exact Hp1]].
  intros r d'' [-> Hs2]. simpl. split; [done|]. destruct Hs1 as (?&?&?), Hs2 as (?&?&?). simpl in *. split_and!; congruence.
Qed.

Lemma ReadNode_intl d f s mks ns ks own : intl_rep (bytes d) f s mks ns ks own -> in_range d own -> flag_inMem f = false ->
  wpM (ReadNode (SIntl f s mks ns)) d (fun r d' => r = (true, SIntl (loaded f) s ks ns) /\ same_file d d').
Proof.
  intros (Hf&Hl&Hmk&_&Hd) Hr Hm. unfold in_memory in Hmk. rewrite Hm in Hmk. destruct Hmk as [_ Ed]. destruct (Hd Ed) as [(fw&bl&->&Hs&_) _].
  apply Forall_cons in Hr as [Hs0 Hr]. simpl in Hs0. destruct (stored_start d _ fw bl Hs Hr) as (next&_&Hn&Hpl). simpl in Hn, Hpl.
  unfold ReadNode. cbn [getFlag GetStore]. rewrite Hm. cbn iota. eapply wpM_run; [by apply Address_ok|]. do 2 (eapply wpM_run; [done|]). cbn [pos bytes freelist cur_block_num].
  eapply wpM_run; [by apply (fread_word_ok _ next)|]. destruct Hf as (_&_&Hk&_&_&Hks). pose proof (keys_nonneg f) as Hb. rewrite Hk in *. rewrite Nat2Z.id.
  eapply wpM_run; [done|]. cbn [pos bytes freelist cur_block_num].
  specialize (Hpl _ _ eq_refl ltac:(rewrite !length_fmap; lia)). rewrite !length_fmap in Hpl. apply wpM_bind.
  eapply wpM_mono; [|apply (read_node_keys_ok ks []); [done|]].
  2:{ rewrite app_nil_r. replace (base s + 4 + 4 + 4 * (len ks + 1)) with (base s + 8 + 4 * len ns) by lia. exact Hpl. }
  intros [r n] d' (E1&Hs1&Hp1). simpl in *. subst r. split; [done|]. destruct Hs1 as (?&?&?). simpl in *. split_and!; congruence.
Qed.

(** ** Loading a tree *)

(** [ReadNode] on every node. *)
Section LoadChilds.
Context (load : SNode -> M SIStorage SNode).
Fixpoint load_childs (ns : list SNode) : M SIStorage (list SNode) :=
  match ns with [] => retM [] | n :: ns => let! n := load n in let! ns := load_childs ns in retM (n :: ns) end.
End LoadChilds.
Fixpoint load (n : SNode) : M SIStorage SNode :=
  match n with
  | SLeaf f s ks vs => let! r := ReadNode (SLeaf f s ks vs) in retM r.2
  | SIntl f s ks cs =>
      let! cs := load_childs load cs in
      let! r := ReadNode (SIntl f s ks cs) in retM r.2
  end.

Fixpoint content_of (n : SNode) : content :=
  match n with SLeaf _ _ ks vs => CLeaf ks vs | SIntl _ _ ks cs => CIntl ks (content_of <$> cs) end.

Definition loads (n : SNode) : Prop := forall c own d, tree_rep (bytes d) n c own -> in_range d own ->
  wpM (load n) d (fun n' d' => same_file d d' /\ tree_rep (bytes d') n' c own /\ content_of n' = c /\ GetStore n' = GetStore n /\
    (tree_clean n = true -> tree_clean n' = true)).

Lemma ReadNode_memory n d : flag_inMem (getFlag n) = true -> ReadNode n d = Some ((false, n), d).
Proof. intros H. unfold ReadNode. by rewrite H. Qed.

Lemma on_file_loaded m f f' s ks vs own : bare f' = bare f -> on_file m (SLeaf f s ks vs) own -> on_file m (SLeaf f' s ks vs) own.
Proof. intros E (fw&bl&->&H&Hb). exists fw, bl. split_and!; [done|apply H..|]. simpl in *. by rewrite E. Qed.
Lemma on_file_childs m f f' s ks ns ns' own : bare f' = bare f -> GetStore <$> ns' = GetStore <$> ns ->
  on_file m (SIntl f s ks ns) own -> on_file m (SIntl f' s ks ns') own.
Proof.
  intros E En (fw&bl&->&(H1&H2&H3)&Hb). exists fw, bl. split; [done|]. split; [|simpl in *; by rewrite E]. split; [done|]. split; [done|].
  cbn [node_cells GetStore] in *. by rewrite En.
Qed.

(** The node [n] with the keys and values of [c] in memory. *)
Definition with_content (f : Z) (n : SNode) (c : content) : SNode :=
  match n, c with
  | SLeaf _ s _ _, CLeaf ks vs => SLeaf f s ks vs
  | SIntl _ s _ ns, CIntl ks _ => SIntl f s ks ns
  | _, _ => n
  end.

Lemma ReadNode_rep n c own d : tree_rep (bytes d) n c own -> in_range d own ->
  wpM (ReadNode n) d (fun r d' => same_file d d' /\ tree_rep (bytes d') r.2 c own /\
    exists f, r.2 = with_content f n c /\ (flag_isDirty (getFlag n) = false -> flag_isDirty f = false)).
Proof.
  intros Hr Hown. destruct (flag_inMem (getFlag n)) eqn:Em.
  - unfold wpM. rewrite ReadNode_memory by done. simpl. split; [done|]. split; [done|]. exists (getFlag n). split; [|done].
    destruct n as [f s mks mvs|f s mks ns], c as [ks vs|ks cs]; try done; simpl in Em.
    + destruct Hr as (_&_&_&H1&H2&_). unfold in_memory in H1, H2. rewrite Em in H1, H2. by subst.
    + destruct Hr as (old&o2&_&(_&_&H1&_)&_). unfold in_memory in H1. rewrite Em in H1. by subst.
  - destruct n as [f s mks mvs|f s mks ns], c as [ks vs|ks cs]; try done; simpl in Em.
    + eapply wpM_mono; [|by eapply ReadNode_leaf]. intros r d' [-> Hs]. split; [done|]. destruct Hs as (->&_&_).
      destruct Hr as (Hf&Hl&Hw&Hmk&_&Hc&Hd). unfold in_memory in Hmk. rewrite Em in Hmk. destruct Hmk as [_ Ed].
      destruct (loaded_flags f true ks Hf) as (F1&F2&F3&F4). split; [|by exists (loaded f)].
      split_and!; try done; [unfold in_memory; by rewrite F2..|]. intros _. eapply on_file_loaded, Hd; done.
    + destruct Hr as (old&o2&->&Hr&Ht). apply Forall_app in Hown as [Ho1 Ho2].
      eapply wpM_mono; [|by eapply ReadNode_intl]. intros r d' [-> Hs]. split; [done|]. destruct Hs as (->&_&_).
      destruct Hr as (Hf&Hl&Hmk&Hc&Hd). unfold in_memory in Hmk. rewrite Em in Hmk. destruct Hmk as [_ Ed].
      destruct (loaded_flags f false ks Hf) as (F1&F2&F3&F4). split; [|by exists (loaded f)].
      exists old, o2. split; [done|]. split; [|done]. split_and!; try done; [unfold in_memory; by rewrite F2|].
      intros _. destruct (Hd Ed) as [Hon Hcl]. split; [|done]. by apply (on_file_childs _ f _ _ _ ns).
Qed.

Lemma loads_leaf f s mks mvs : loads (SLeaf f s mks mvs).
Proof.
  intros [ks vs|] own d; [|done]. intros Hr Hown. cbn [load]. apply wpM_bind. eapply wpM_mono; [|by apply ReadNode_rep].
  intros r d' (Hs&Hr'&f'&E&Hf). apply wpM_ret. rewrite E in *. simpl in *. split_and!; try done.
  intros H%negb_true_iff. by rewrite Hf.
Qed.

Lemma load_childs_ok ns : Forall loads ns -> forall cs own d, trees_rep (tree_rep (bytes d)) ns cs own -> in_range d own ->
  wpM (load_childs load ns) d (fun ns' d' => same_file d d' /\ trees_rep (tree_rep (bytes d')) ns' cs own /\ content_of <$> ns' = cs /\
    GetStore <$> ns' = GetStore <$> ns /\ (forallb tree_clean ns = true -> forallb tree_clean ns' = true)).
Proof.
  induction 1 as [|n ns Hn _ IH]; intros [|c cs] own d; try done. intros (o1&o2&->&Hr&Ht) Hown. apply Forall_app in Hown as [Ho1 Ho2]. cbn [load_childs].
  apply wpM_bind. eapply wpM_mono; [|by apply (Hn c o1)]. intros n' d1 (Hs1&Hr1&Hc1&Hst1&Hcl1). apply wpM_bind.
  eapply wpM_mono; [|apply (IH cs o2); [by destruct Hs1 as (->&_&_)|by eapply range_same]]. intros ns' d2 (Hs2&Hr2&Hc2&Hst2&Hcl2). apply wpM_ret.
  split; [by eapply same_file_trans|]. split; [exists o1, o2; split; [done|]; split; [by eapply rep_same|done]|].
  cbn [fmap list_fmap forallb]. split_and!; [by rewrite Hc1, <- Hc2|by rewrite Hst1, <- Hst2|]. intros [H1 H2]%andb_prop. by rewrite Hcl1, Hcl2.
Qed.

Lemma loads_intl f s mks ns : Forall loads ns -> loads (SIntl f s mks ns).
Proof.
  intros Hns [|ks cs] own d; [done|]. intros (old&o2&->&Hr&Ht) Hown. pose proof Hown as Hown'. apply Forall_app in Hown' as [Ho1 Ho2]. cbn [load]. apply wpM_bind.
  eapply wpM_mono; [|by apply (load_childs_ok ns Hns cs o2)]. intros ns' d1 (Hs1&Ht1&Hc1&Hst1&Hcl1).
  assert (Hr1 : tree_rep (bytes d1) (SIntl f s mks ns') (CIntl ks cs) (old ++ o2)).
  { exists old, o2. split; [done|]. split; [|done]. destruct Hs1 as (->&_&_). destruct Hr as (H1&H2&H3&H4&H5).
    pose proof (f_equal length Hst1) as El. rewrite !length_fmap in El.
    split_and!; try done; [lia|]. intros Ed. destruct (H5 Ed). split; [|by apply Hcl1]. by eapply on_file_childs. }
  apply wpM_bind. eapply wpM_mono; [|apply ReadNode_rep; [exact Hr1|by eapply range_same]].
  intros r d2 (Hs2&Hr2&f'&E&Hf). apply wpM_ret. rewrite E in *. cbn [with_content] in *. split; [by eapply same_file_trans|]. split; [done|].
  split; [by rewrite <- Hc1|]. split; [done|]. cbn [tree_clean]. intros [H1 H2]%andb_prop. apply negb_true_iff in H1. by rewrite Hf, Hcl1.
Qed.

Lemma loads_all n : loads n.
Proof. induction n as [f s mks mvs|f s mks ns IH] using SNode_ind'; [apply loads_leaf|by apply loads_intl]. Qed.

(** ** Reading the nodes of a tree *)

Fixpoint depth (c : content) : nat :=
  match c with CLeaf _ _ => 1 | CIntl _ cs => S (foldr Nat.max 0%nat (depth <$> cs)) end.

Lemma Blocknum_base s : 0 <= s < W32 -> Blocknum (base s) = s.
Proof.
  intros H. unfold Blocknum, base, BLOCK_SIZE. rewrite Z.div_mul by done. change SuperNum with 513.
  replace (512 + s + 1 - 513) with s by lia. by apply u32_small.
Qed.

Definition preread (fuel : nat) (n : SNode) : Prop := forall c own d,
  tree_rep (bytes d) n c own -> tree_clean n = true -> (depth c <= fuel)%nat -> pos d = base (GetStore n) -> in_range d own ->
  cur_block_num d < W32 ->
  wpM (read_nodes fuel) d (fun v d' => same_file d d' /\ tree_rep (bytes d') v c own /\ tree_clean v = true /\ GetStore v = GetStore n /\
    flag_inMem (getFlag v) = false).

(** The flags of a node that was read. *)
Lemma bare_flags fw f leaf ks : node_fit f leaf ks -> bare fw = bare f ->
  flag_isLeaf fw = leaf /\ node_fit (bare fw) leaf ks /\ flag_inMem (bare fw) = false /\ flag_isDirty (bare fw) = false.
Proof.
  intros H E. pose proof (fit_out _ _ _ (fit_del _ _ _ H)) as H'. fold (bare f) in H'. rewrite <- E in H'.
  destruct (out_flags (flag_delDirty fw)) as (E1&E2&_&_&E3). destruct (del_flags fw) as (E4&_&_&_&E5).
  split; [|split; [done|split; [done|]]].
  - destruct H' as (_&H'&_). unfold bare in H'. congruence.
  - unfold bare. congruence.
Qed.

Lemma CreateNode_ok d fw s : word_at (bytes d) (pos d) fw -> pos d = base s -> 0 <= s < W32 ->
  CreateNode d = Some (if flag_isLeaf fw then SLeaf (bare fw) s [] [] else SIntl (bare fw) s [] [], seek d (pos d + 4)).
Proof.
  intros Hw Hp Hs. unfold CreateNode. rewrite (run_bind _ _ _ _ _ (fread_word_ok d fw Hw)). erewrite run_bind by done. cbn [pos].
  replace (pos d + 4 - 4) with (pos d) by lia. by rewrite Hp, Blocknum_base.
Qed.

Lemma clean_file m n c own : tree_rep m n c own -> tree_clean n = true -> exists bl, own = GetStore n :: bl.
Proof.
  destruct n as [f s ks vs|f s ks ns], c as [ks' vs'|ks' cs]; try done; cbn [tree_clean].
  - intros (_&_&_&_&_&_&Hd) Hc. apply negb_true_iff in Hc. destruct (Hd Hc) as (fw&bl&->&_). by exists bl.
  - intros (old&o2&->&(_&_&_&_&Hd)&_) [Hc _]%andb_prop. apply negb_true_iff in Hc. destruct (Hd Hc) as [(fw&bl&->&_) _]. by exists (bl ++ o2).
Qed.

Lemma preread_leaf fuel f s mks mvs : preread fuel (SLeaf f s mks mvs).
Proof.
  intros [ks vs|] own d; [|done]. intros (Hf&Hl&Hw&_&_&Hch&Hd) Hcl Hdep Hp Hr Hcur. cbn [depth tree_clean GetStore] in *. destruct fuel as [|fuel]; [lia|].
  apply negb_true_iff in Hcl. destruct (Hd Hcl) as (fw&bl&->&Hs&Hb). simpl in Hb. pose proof Hr as Hr'. apply Forall_cons in Hr' as [Hs0 Hr']. simpl in Hs0.
  destruct (stored_start d _ fw bl Hs Hr') as (next&Hfw&Hn&_). simpl in Hfw, Hn. destruct (bare_flags fw f true ks Hf Hb) as (B1&B2&B3&B4).
  cbn [read_nodes]. eapply wpM_run; [apply (CreateNode_ok d fw s); [by rewrite Hp|done|lia]|]. rewrite B1.
  eapply wpM_run; [apply (fread_word_ok _ next); simpl; by rewrite Hp|]. eapply wpM_run; [done|]. apply wpM_ret.
  split; [done|]. split; [|cbn [tree_clean getFlag GetStore]; by rewrite B4].
  split_and!; try done; [unfold in_memory; by rewrite B3..|]. intros _. eapply on_file_loaded; [|by apply Hd]. by rewrite <- Hb, bare_idem.
Qed.

Lemma place_word_store d next w ws rest : place d next ((word_bytes <$> w :: ws) ++ rest) -> place d next (word_bytes w :: (word_bytes <$> ws) ++ rest).
Proof. done. Qed.

Lemma read_childs_ok fuel ns : Forall (preread fuel) ns -> forall cs own d address next rest,
  trees_rep (tree_rep (bytes d)) ns cs own -> forallb tree_clean ns = true -> Forall (fun c => (depth c <= fuel)%nat) cs ->
  place (seek d address) next ((word_bytes <$> (GetStore <$> ns)) ++ rest) -> in_range d own -> cur_block_num d < W32 ->
  wpM (read_childs (read_nodes fuel) (length ns) address next) d (fun vs d' => same_file d d' /\ trees_rep (tree_rep (bytes d')) vs cs own /\
    forallb tree_clean vs = true /\ GetStore <$> vs = GetStore <$> ns).
Proof.
  induction 1 as [|n ns Hn _ IH]; intros [|c cs] own d address next rest; try done. intros (o1&o2&->&Hr&Ht) Hcl Hdep Hp Hown Hcur.
  cbn [forallb] in Hcl. apply andb_prop in Hcl as [Hcl1 Hcl2]. inversion_clear Hdep as [|? ? Hd1 Hd2]. pose proof Hown as Hown'. apply Forall_app in Hown' as [Ho1 Ho2].
  destruct (clean_file _ _ _ _ Hr Hcl1) as [bl ->]. pose proof Ho1 as Hs0. apply Forall_cons in Hs0 as [Hs0 _]. simpl in Hs0.
  cbn [length read_childs]. eapply wpM_run; [done|]. eapply read_word_ok; [exact Hp|unfold word; lia|]. intros next' d1 Hs1 Hp1.
  change (same_file (seek d address) d1) in Hs1. assert (Hs1' : same_file d d1) by (destruct Hs1 as (?&?&?); by split_and!). clear Hs1.
  eapply wpM_run; [done|]. eapply wpM_run; [apply Address_ok; destruct Hs1' as (_&_&->); exact Hs0|]. eapply wpM_run; [done|]. apply wpM_bind.
  eapply wpM_mono; [|apply (Hn c (GetStore n :: bl)); [|done|done|done| |]].
  2:{ simpl. by destruct Hs1' as (->&_&_). }
  2:{ by destruct Hs1' as (_&_&E); unfold in_range in *; rewrite E. }
  2:{ by destruct Hs1' as (_&_&E); simpl; rewrite E. }
  intros v d2 (Hs2&Hr2&Hcl2'&Hst2&_). assert (Hs12 : same_file d1 d2) by (destruct Hs2 as (?&?&?); by split_and!).
  assert (Hs02 : same_file d d2) by (by eapply same_file_trans). apply wpM_bind.
  eapply wpM_mono; [|apply (IH cs o2 d2 _ next' rest); [by destruct Hs02 as (->&_&_)|done|done|by apply place_same|by eapply range_same|by destruct Hs02 as (_&_&->)]].
  intros vs d3 (Hs3&Hr3&Hcl3&Hst3). apply wpM_ret. split; [by eapply same_file_trans|]. split.
  { exists (GetStore n :: bl), o2. split; [done|]. split; [by eapply rep_same|done]. }
  cbn [forallb fmap list_fmap]. rewrite Hcl2', Hcl3, Hst2. split; [done|]. f_equal. exact Hst3.
Qed.

Lemma max_depth cs n : (foldr Nat.max 0%nat (depth <$> cs) <= n)%nat -> Forall (fun c => (depth c <= n)%nat) cs.
Proof.
  induction cs as [|c cs IH]; intros H; [constructor|].
  change (Nat.max (depth c) (foldr Nat.max 0%nat (depth <$> cs)) <= n)%nat in H. constructor; [lia|]. apply IH. lia.
Qed.

Lemma preread_intl fuel f s mks ns : Forall (preread fuel) ns -> preread (S fuel) (SIntl f s mks ns).
Proof.
  intros Hns [|ks cs] own d; [done|]. intros (old&o2&->&Hrep&Ht) Hcl Hdep Hp Hr Hcur. pose proof Hrep as (Hf&Hl&_&Hch&Hd).
  cbn [depth tree_clean GetStore] in *. apply andb_prop in Hcl as [Hcl _]. apply negb_true_iff in Hcl.
  destruct (Hd Hcl) as [Hon Hcls]. pose proof Hon as (fw&bl&->&Hs&Hb). simpl in Hb. apply Forall_app in Hr as [Hr1 Hr2].
  pose proof Hr1 as Hr1'. apply Forall_cons in Hr1' as [Hs0 Hr']. simpl in Hs0.
  destruct (stored_start d _ fw bl Hs Hr') as (next&Hfw&Hn&Hpl). simpl in Hfw, Hn. destruct (bare_flags fw f false ks Hf Hb) as (B1&B2&B3&B4).
  specialize (Hpl [] _ eq_refl ltac:(simpl; lia)). cbn [length GetStore] in Hpl.
  cbn [read_nodes]. eapply wpM_run; [apply (CreateNode_ok d fw s); [by rewrite Hp|done|lia]|]. rewrite B1.
  eapply wpM_run; [apply (fread_word_ok _ next); simpl; by rewrite Hp|]. eapply wpM_run; [done|]. cbn [pos bytes freelist cur_block_num seek].
  assert (En : Z.to_nat (flag_GetKeyNum (bare fw) + 1) = length ns) by (destruct B2 as (_&_&->&_); lia). rewrite En. apply wpM_bind.
  eapply wpM_mono; [|apply (read_childs_ok fuel ns Hns cs o2 _ _ next (keys_cells ks)); [done|done|apply max_depth; lia| |done|done]].
  2:{ replace (pos d + 4 + 4) with (base s + 8 + 4 * 0) by lia. exact Hpl. }
  intros vs d' (Hs'&Hr'2&Hcl'&Hst'). apply wpM_ret. assert (Hs1 : same_file d d') by (destruct Hs' as (?&?&?); by split_and!).
  split; [done|]. split; [|cbn [tree_clean getFlag GetStore]; by rewrite B4, Hcl']. exists (s :: bl), o2. split; [done|]. split; [|done].
  destruct Hs1 as (->&_&_). pose proof (f_equal length Hst') as El. rewrite !length_fmap in El.
  split_and!; try done; [lia|unfold in_memory; by rewrite B3|]. intros _. split; [|done]. eapply on_file_childs, Hon; [|done]. by rewrite <- Hb, bare_idem.
Qed.

Lemma preread_all n : forall fuel, preread fuel n.
Proof.
  induction n as [f s mks mvs|f s mks ns IH] using SNode_ind'; intros fuel; [apply preread_leaf|]. destruct fuel as [|fuel].
  - intros [|ks cs] own d; [done|]. intros _ _ Hd. simpl in Hd. lia.
  - apply preread_intl. eapply Forall_impl; [exact IH|]. intros n Hn. apply Hn.
Qed.

(** ** The bitmap of free blocks *)

Definition bitmap (m : gmap Z Z) (c : Z) (free : list Z) : Prop :=
  forall i, 0 <= i < c / 8 -> exists v, m !! (BLOCK_SIZE + i) = Some v /\
    forall k, 0 <= k < 8 -> Z.testbit v k = negb (bool_decide (i * 8 + 7 - k + 1 ∈ free)).
Definition in_bitmap (c q : Z) : Prop := BLOCK_SIZE <= q < BLOCK_SIZE + c / 8.

Lemma get_one d v : bytes d !! pos d = Some v -> fread 1 d = Some ([v], seek d (pos d + 1)).
Proof. intros H. unfold fread. simpl. by rewrite H. Qed.

Lemma clear_bit v j k : 0 <= j -> 0 <= k -> Z.testbit (Z.ldiff v (Z.shiftl 1 j)) k = Z.testbit v k && negb (k =? j).
Proof. intros Hj Hk. rewrite Z.ldiff_spec, Z.shiftl_1_l, Z.pow2_bits_eqb, Z.eqb_sym by done. done. Qed.

Lemma write_bits_ok c l : (8 | c) -> forall d free, Forall (fun b => 1 <= b <= c) l -> bitmap (bytes d) c free ->
  exists d', write_bits l d = Some (tt, d') /\ bitmap (bytes d') c (rev l ++ free) /\
    agree (bytes d) (bytes d') (fun q => ~ in_bitmap c q) /\ freelist d' = freelist d /\ cur_block_num d' = cur_block_num d.
Proof.
  intros [e He]. induction l as [|num l IH]; intros d free Hl Hb; [by exists d|]. inversion_clear Hl as [|? ? Hn Hl'].
  set (i := (num - 1) / 8). set (j := 7 - (num - 1) mod 8).
  assert (Hi : 0 <= i < c / 8) by (unfold i; subst c; rewrite Z.div_mul by done; Z.to_euclidean_division_equations; lia).
  assert (Hj : 0 <= j < 8) by (unfold j; pose proof (Z.mod_pos_bound (num - 1) 8); lia).
  assert (Hnum : num = i * 8 + 7 - j + 1) by (unfold i, j; pose proof (Z.div_mod (num - 1) 8); lia).
  destruct (Hb i Hi) as (v&Hv&Hbits).
  set (d1 := mk_SIStorage (<[BLOCK_SIZE + i := Z.ldiff v (Z.shiftl 1 j)]> (bytes d)) (BLOCK_SIZE + i + 1) (freelist d) (cur_block_num d)).
  assert (E : write_bits (num :: l) d = write_bits l d1).
  { cbn [write_bits]. fold i j. erewrite run_bind by done. erewrite run_bind by (by apply get_one). erewrite run_bind by done. erewrite run_bind by done.
    cbn [pos bytes freelist cur_block_num seek hd]. replace (BLOCK_SIZE + i + 1 + -1) with (BLOCK_SIZE + i) by lia. done. }
  destruct (IH d1 (num :: free)) as (d'&E'&Hb'&Ha&Hf&Hc); [done| |].
  { intros i' Hi'. cbn [d1 bytes]. destruct (decide (i' = i)) as [->|Hne].
    - rewrite lookup_insert_eq. eexists. split; [done|]. intros k Hk. rewrite clear_bit, Hbits by lia.
      destruct (Z.eqb_spec k j) as [->|Hkj].
      + rewrite andb_false_r. symmetry. apply negb_false_iff, bool_decide_eq_true_2. rewrite Hnum. apply list_elem_of_here.
      + rewrite andb_true_r. f_equal. apply bool_decide_ext. rewrite elem_of_cons. split; [by right|]. intros [?|?]; [lia|done].
    - rewrite lookup_insert_ne by lia. destruct (Hb i' Hi') as (v'&Hv'&Hbits'). exists v'. split; [done|]. intros k Hk. rewrite Hbits' by done.
      f_equal. apply bool_decide_ext. rewrite elem_of_cons. split; [by right|]. intros [?|?]; [lia|done]. }
  exists d'. rewrite E. split; [done|]. split; [cbn [rev]; by rewrite <- app_assoc|]. split; [|done].
  eapply agree_trans; [|exact Ha]. intros q Hq. cbn [d1 bytes]. apply lookup_insert_ne. unfold in_bitmap in Hq. lia.
Qed.

Lemma zero_bit v k : 0 <= k -> (Z.land v (Z.shiftl 1 k) =? 0) = negb (Z.testbit v k).
Proof.
  intros Hk. rewrite Z.shiftl_1_l. pose proof (flag_bit v k Hk) as H. rewrite <- Z.shiftr_div_pow2, <- Z.testbit_odd in H by done.
  by rewrite <- H, negb_involutive.
Qed.

Lemma free_bits_ok i v (free : list Z) : (forall k, 0 <= k < 8 -> Z.testbit v k = negb (bool_decide (i * 8 + 7 - k + 1 ∈ free))) ->
  NoDup (free_bits i v) /\ forall b, b ∈ free_bits i v <-> b ∈ free /\ i * 8 < b <= i * 8 + 8.
Proof.
  intros H. unfold free_bits. split.
  - apply NoDup_omap_inj; [|apply NoDup_seqZ]. intros k k' b. repeat case_match; intros; simplify_eq; lia.
  - intros b. rewrite list_elem_of_omap. split.
    + intros (k&Hk&E). rewrite elem_of_seqZ in Hk. rewrite zero_bit in E by lia. rewrite H, negb_involutive in E by lia.
      case_bool_decide; simplify_eq. split; [done|lia].
    + intros [Hf Hr]. exists (i * 8 + 8 - b). rewrite elem_of_seqZ. split; [lia|]. rewrite zero_bit, H, negb_involutive by lia.
      replace (i * 8 + 7 - (i * 8 + 8 - b) + 1) with b by lia. by rewrite bool_decide_eq_true_2.
Qed.

Lemma read_bits_ok c free n : forall i d, bitmap (bytes d) c free -> 0 <= i -> i + Z.of_nat n <= c / 8 -> pos d = BLOCK_SIZE + i ->
  exists l, read_bits n i d = Some (l, seek d (pos d + Z.of_nat n)) /\ NoDup l /\
    forall b, b ∈ l <-> b ∈ free /\ i * 8 < b <= i * 8 + 8 * Z.of_nat n.
Proof.
  induction n as [|n IH]; intros i d Hb Hi Hn Hp.
  - exists []. cbn [read_bits]. unfold retM, seek. destruct d. simpl. rewrite Z.add_0_r. split; [done|]. split; [constructor|].
    intros b. rewrite elem_of_nil. split; [done|]. lia.
  - destruct (Hb i ltac:(lia)) as (v&Hv&Hbits). destruct (free_bits_ok i v free Hbits) as [Hnd Hin].
    destruct (IH (i + 1) (seek d (pos d + 1))) as (l&E&Hl&Hl'); [done|lia|lia|simpl; lia|].
    exists (free_bits i v ++ l). cbn [read_bits]. rewrite (run_bind _ _ _ _ _ (get_one d v ltac:(by rewrite Hp))), (run_bind _ _ _ _ _ E).
    split; [unfold retM, seek; simpl; do 3 f_equal; lia|]. split.
    + apply NoDup_app. split; [done|]. split; [|done]. intros b Hb1 Hb2. apply Hin in Hb1. apply Hl' in Hb2. lia.
    + intros b. rewrite elem_of_app, Hin, Hl'. split; [intros [[? ?]|[? ?]]; (split; [done|lia])|].
      intros [? ?]. destruct (Z_le_gt_dec b (i * 8 + 8)); [left|right]; (split; [done|lia]).
Qed.

(** ** Saving and opening *)

Definition high (q : Z) : Prop := base 1 <= q.

Lemma inside_high own q : Forall (fun b => 1 <= b) own -> inside own q -> high q.
Proof. intros H (b&Hb&Hq). rewrite Forall_forall in H. specialize (H b Hb). unfold high, in_block, base in *. lia. Qed.

(** The header, the bitmap and the blocks of a file that was written. *)
Definition saved (m : gmap Z Z) (height root c : Z) (free : list Z) : Prop :=
  word_at m 0 height /\ word_at m 4 root /\ word_at m 8 c /\ bitmap m c free.

Lemma SIStorage_open_ok m p f0 c0 height root c free own : saved m height root c free ->
  disk_ok (mk_SIStorage m p free c) own -> root = 0 \/ 1 <= root <= c ->
  exists l, SIStorage_open (mk_SIStorage m p f0 c0) = Some (height, mk_SIStorage m (if root =? 0 then 0 else base root) l c) /\ l ≡ₚ free.
Proof.
  intros (Hh&Hr&Hc&Hb) Hok Hroot. pose proof Hok as [H1 H2 H3 H4 [e He]]. simpl in *.
  assert (0 <= c / 8) by (apply Z.div_pos; lia).
  destruct (read_bits_ok c free (Z.to_nat (c / 8)) 0 (mk_SIStorage m BLOCK_SIZE f0 c)) as (l&E&Hl&Hin); [done|lia|lia|done|].
  exists l. split.
  - unfold SIStorage_open. erewrite run_bind by done. erewrite run_bind by (by apply (fread_word_ok _ height)).
    erewrite run_bind by (by apply (fread_word_ok _ root)). erewrite run_bind by (by apply (fread_word_ok _ c)). do 2 (erewrite run_bind by done).
    cbn [pos bytes freelist cur_block_num]. rewrite (run_bind _ _ _ _ _ E). erewrite run_bind by done. cbn [seek pos bytes freelist cur_block_num].
    destruct Hroot as [->|Hroot]; [by do 2 (erewrite run_bind by done)|]. destruct (Z.eqb_spec root 0); [lia|].
    erewrite run_bind by (by apply Address_ok). by erewrite run_bind by done.
  - apply NoDup_Permutation; [done| |].
    + by apply NoDup_app in H1 as (?&_).
    + intros b. rewrite Hin. split; [by intros [? _]|]. intros Hf. split; [done|]. rewrite Forall_forall in H2.
      specialize (H2 b ltac:(apply elem_of_app; by left)). assert (8 * (c / 8) = c) by (rewrite He, Z.div_mul by done; lia). lia.
Qed.

Lemma put_lookup bs : forall p m (i : nat), (i < length bs)%nat -> put_bytes p bs m !! (p + Z.of_nat i) = bs !! i.
Proof.
  induction bs as [|b bs IH]; intros p m i Hi; [simpl in Hi; lia|]. simpl. destruct i as [|i]; simpl.
  - rewrite Z.add_0_r, put_other by lia. by rewrite lookup_insert_eq.
  - replace (p + Z.of_nat (S i)) with (p + 1 + Z.of_nat i) by lia. apply IH. simpl in Hi. lia.
Qed.

(** The end of [WriteTree]: the root, the number of blocks and the bitmap. *)
Definition write_index (t : Z) : M SIStorage unit :=
  let! _ := fseek 4 in
  let! _ := fwrite_word t in
  let! c := get_cur in
  let! _ := fwrite_word c in
  let! _ := fseek BLOCK_SIZE in
  let! _ := fwrite (replicate (Z.to_nat (c / 8)) 255) in
  let! l := get_free in
  write_bits l.

Lemma write_index_ok d t own height : disk_ok d own -> word t -> word_at (bytes d) 0 height ->
  exists d' free, write_index t d = Some (tt, d') /\ saved (bytes d') height t (cur_block_num d') free /\ free ≡ₚ freelist d' /\
    freelist d' = freelist d /\ cur_block_num d' = cur_block_num d /\ agree (bytes d) (bytes d') high.
Proof.
  intros Hok Ht Hh. pose proof Hok as [H1 H2 H3 H4 [e He]]. set (c := cur_block_num d) in *.
  assert (Hc8 : 0 <= c / 8 /\ 8 * (c / 8) = c) by (rewrite He, Z.div_mul by done; lia).
  set (m1 := put_bytes 8 (word_bytes c) (put_bytes 4 (word_bytes t) (bytes d))).
  set (d1 := mk_SIStorage (put_bytes BLOCK_SIZE (replicate (Z.to_nat (c / 8)) 255) m1) (BLOCK_SIZE + Z.of_nat (Z.to_nat (c / 8))) (freelist d) c).
  assert (E : write_index t d = write_bits (freelist d) d1).
  { unfold write_index. do 7 (erewrite run_bind by done). unfold d1. cbn [pos bytes freelist cur_block_num]. by rewrite length_replicate. }
  destruct (write_bits_ok c (freelist d) ltac:(by exists e) d1 []) as (d'&E'&Hb&Ha&Hf&Hc).
  { by apply Forall_app in H2 as [? _]. }
  { intros i Hi. exists 255. cbn [d1 bytes]. split.
    - replace i with (Z.of_nat (Z.to_nat i)) by lia. rewrite put_lookup by (rewrite length_replicate; lia). by apply lookup_replicate_2; lia.
    - intros k Hk. rewrite bool_decide_eq_false_2 by apply not_elem_of_nil.
      assert (Hk' : k = 0 \/ k = 1 \/ k = 2 \/ k = 3 \/ k = 4 \/ k = 5 \/ k = 6 \/ k = 7) by lia. by repeat destruct Hk' as [->|Hk']; [..|subst]. }
  rewrite app_nil_r in Hb. exists d', (rev (freelist d)). rewrite E. split; [done|].
  assert (Hlow : forall p w, 0 <= p -> p + 4 <= BLOCK_SIZE -> word_at m1 p w -> word_at (bytes d') p w).
  { intros p w Hp Hp' Hw. eapply word_agree; [|exact Hw]. apply (agree_trans _ (bytes d1)).
    - cbn [d1 bytes]. apply put_agree. lia.
    - eapply agree_mono, Ha. unfold in_bitmap. lia. }
  cbn [cur_block_num d1] in Hc. rewrite Hc. split; [|split; [by rewrite Hf, rev_alt, (reverse_Permutation (freelist d))|split; [done|split; [done|]]]].
  - split_and!; [apply Hlow|apply Hlow|apply Hlow|done]; try done; unfold BLOCK_SIZE; try lia.
    + eapply word_agree; [|exact Hh]. unfold m1. apply (agree_trans _ (put_bytes 4 (word_bytes t) (bytes d))); apply put_agree; rewrite length_word_bytes; lia.
    + assert (Hw : word_at (put_bytes 4 (word_bytes t) (bytes d)) 4 t) by (split; [done|apply at_put]).
      eapply word_agree; [|exact Hw]. apply put_agree. rewrite length_word_bytes. lia.
    + split; [unfold word, MAX_BLOCK_NUM, W32 in *; lia|apply at_put].
  - apply (agree_trans _ (bytes d1)); [|eapply agree_mono, Ha; unfold in_bitmap, high, base, MAX_BLOCK_NUM, BLOCK_SIZE in *; lia].
    cbn [d1 bytes]. apply (agree_trans _ m1); [apply (agree_trans _ (put_bytes 4 (word_bytes t) (bytes d)))|]; apply put_agree;
      rewrite ?length_word_bytes, ?length_replicate; unfold high, base, MAX_BLOCK_NUM, BLOCK_SIZE in *; lia.
Qed.

(** A node that was removed from the tree and still has blocks. *)
Definition removed_ok (m : gmap Z Z) (n : SNode) (old : list Z) : Prop :=
  flag_inMem (getFlag n) = true /\ flag_getRank (getFlag n) = 0 /\ chain m (GetStore n) old.

Lemma write_removed_ok removed rem : forall d used, Forall2 (removed_ok (bytes d)) removed rem -> disk_ok d (concat rem ++ used) -> header (bytes d) ->
  exists d', for_each removed (fun p => let! _ := WriteNode p in retM tt) d = Some (tt, d') /\ disk_ok d' used /\ bytes d' = bytes d /\
    cur_block_num d' = cur_block_num d.
Proof.
  intros d used H. remember (bytes d) as m eqn:Em. revert d used Em. induction H as [|n old removed rem (H1&H2&H3) _ IH]; intros d used Em Hok Hh; [by exists d|].
  subst m. cbn [concat] in Hok. rewrite <- app_assoc in Hok.
  destruct (WriteNode_removed n d old (concat rem ++ used)) as (d1&E1&Hok1&Eb1&Ec1); try done.
  destruct (IH d1 used) as (d'&E'&Hok'&Eb'&Ec'); [done|done|done|]. exists d'. cbn [for_each].
  erewrite run_bind by (erewrite run_bind by exact E1; done). split; [done|]. split; [done|]. split; congruence.
Qed.

Definition opt_rep (m : gmap Z Z) (on : option SNode) (oc : option content) (own : list Z) : Prop :=
  match on, oc with Some n, Some c => tree_rep m n c own | None, None => own = [] | _, _ => False end.
Definition opt_needed (oc : option content) : nat := match oc with Some c => needed c | None => 0 end.
Definition opt_root (on : option SNode) : Z := match on with Some n => GetStore n | None => 0 end.
Definition opt_clean (on : option SNode) : bool := match on with Some n => tree_clean n | None => true end.

Lemma WriteTree_index height removed on d :
  WriteTree height removed on d =
  (let! _ := fseek 0 in
   let! _ := fwrite_word height in
   let! _ := for_each removed (fun p => let! _ := WriteNode p in retM tt) in
   let! np := match on with Some p => let! p := write_nodes p in retM (Some p) | None => retM None end in
   let! _ := write_index (opt_root np) in retM np) d.
Proof.
  unfold WriteTree, write_index. do 3 (apply bind_ext; intros _ ?). apply bind_ext. intros np dn. symmetry.
  do 7 (rewrite bind_assoc; apply bind_ext; intros ? ?). by destruct np.
Qed.

Lemma WriteTree_ok height removed rem on oc own d : word height -> disk_ok d (own ++ concat rem) -> header (bytes d) ->
  Forall2 (removed_ok (bytes d)) removed rem -> opt_rep (bytes d) on oc own ->
  len own + Z.of_nat (opt_needed oc) + 256 <= MAX_BLOCK_NUM ->
  exists on' own' d' free, WriteTree height removed on d = Some (on', d') /\ opt_rep (bytes d') on' oc own' /\ opt_clean on' = true /\
    disk_ok d' own' /\ saved (bytes d') height (opt_root on') (cur_block_num d') free /\ free ≡ₚ freelist d' /\ header (bytes d').
Proof.
  intros Hw Hok Hh Hrem Hrep Hroom. rewrite WriteTree_index.
  set (d0 := mk_SIStorage (put_bytes 0 (word_bytes height) (bytes d)) 4 (freelist d) (cur_block_num d)).
  assert (Ha0 : agree (bytes d) (bytes d0) (fun q => 4 <= q)) by (cbn [d0 bytes]; apply put_agree; rewrite length_word_bytes; lia).
  assert (Hh0 : header (bytes d0)).
  { destruct Hh as (h&r&c&H1&H2&H3). exists height, r, c. split; [split; [done|apply at_put]|].
    split; (eapply word_agree; [eapply agree_mono, Ha0; simpl; lia|done]). }
  assert (Hlow : Forall (fun b => 1 <= b) (own ++ concat rem)) by (by eapply disk_low). apply Forall_app in Hlow as [Hl1 Hl2].
  assert (Hrem0 : Forall2 (removed_ok (bytes d0)) removed rem).
  { clear -Hrem Ha0 Hl2. induction Hrem as [|n old removed rem (H1&H2&H3) _ IH]; constructor.
    - cbn [concat] in Hl2. apply Forall_app in Hl2 as [Hl2 _]. split_and!; try done. eapply chain_agree, H3. eapply agree_mono, Ha0. intros q Hq.
      pose proof (inside_high _ _ Hl2 Hq). unfold high, base in *. lia.
    - apply IH. cbn [concat] in Hl2. by apply Forall_app in Hl2 as [_ ?]. }
  assert (Hrep0 : opt_rep (bytes d0) on oc own).
  { destruct on as [n|], oc as [c|]; try done. simpl in *. eapply tree_rep_agree, Hrep. eapply agree_mono, Ha0. intros q Hq.
    pose proof (inside_high _ _ Hl1 Hq). unfold high, base in *. lia. }
  assert (Hok0 : disk_ok d0 (concat rem ++ own)) by (eapply disk_perm; [apply Permutation_app_comm|]; by eapply disk_same, Hok).
  destruct (write_removed_ok removed rem d0 own Hrem0 Hok0 Hh0) as (d1&E1&Hok1&Eb1&Ec1).
  erewrite run_bind by done. rewrite (run_bind _ _ _ tt d0) by done. rewrite (run_bind _ _ _ _ _ E1).
  assert (Hn : exists on' own' d2, (match on with Some p => let! p := write_nodes p in retM (Some p) | None => retM None end) d1 = Some (on', d2) /\
    opt_rep (bytes d2) on' oc own' /\ opt_clean on' = true /\ disk_ok d2 own' /\ header (bytes d2) /\ word_at (bytes d2) 0 height /\ word (opt_root on')).
  { assert (Hw0 : word_at (bytes d1) 0 height) by (rewrite Eb1; split; [done|apply at_put]). destruct on as [n|], oc as [c|]; try done.
    - destruct (writes_all n c d1 own []) as (n'&own'&d2&E2&Hr2&Hc2&_&Hok2&Ha2&_&_); try done; [by rewrite Eb1|by rewrite app_nil_r|by rewrite Eb1|simpl in *; lia|].
      rewrite app_nil_r in Hok2. exists (Some n'), own', d2. split; [by rewrite (run_bind _ _ _ _ _ E2)|]. pose proof (disk_low _ _ Hok2) as Hlow2.
      split; [done|]. split; [done|]. split; [done|]. split; [eapply header_kept; [done|exact Ha2|by rewrite Eb1]|]. split.
      + eapply word_agree; [|exact Hw0]. eapply agree_mono, Ha2. intros q Hq b Hb Hq'. rewrite Forall_forall in Hlow2. specialize (Hlow2 b Hb). unfold in_block, base in Hq'. lia.
      + destruct (clean_file _ _ _ _ Hr2 Hc2) as [bl ->]. pose proof (used_range _ _ _ Hok2 (list_elem_of_here _ _)). pose proof (dk_max _ _ Hok2).
        unfold word, MAX_BLOCK_NUM, W32 in *. simpl. lia.
    - simpl in Hrep. subst own. exists None, [], d1. rewrite Eb1. split_and!; try done. by rewrite Eb1 in Hw0. }
  destruct Hn as (on'&own'&d2&E2&Hr2&Hc2&Hok2&Hh2&Hw2&Ht2). rewrite (run_bind _ _ _ _ _ E2).
  destruct (write_index_ok d2 (opt_root on') own' height Hok2 Ht2 Hw2) as (d'&free&E'&Hs&Hp&Ef&Ec&Ha).
  rewrite (run_bind _ _ _ _ _ E'). exists on', own', d', free. split; [done|]. split.
  { destruct on' as [n'|], oc as [c|]; try done. simpl in *. eapply tree_rep_agree, Hr2. eapply agree_mono, Ha. intros q. apply inside_high. by eapply disk_low. }
  split; [done|]. split; [by eapply disk_same, Hok2|]. split; [done|]. split; [done|]. destruct Hs as (?&?&?&_). by eexists _, _, _.
Qed.

(** The constructor in [open] mode and [PreRead]. *)
Definition open_tree : M SIStorage (Z * option SNode) :=
  let! h := SIStorage_open in let! r := PreRead h in retM (h, r).
Definition opt_depth (oc : option content) : nat := match oc with Some c => depth c | None => 0 end.

Lemma PreRead_ok d n c own height : tree_rep (bytes d) n c own -> tree_clean n = true -> Z.of_nat (depth c) <= height ->
  in_range d own -> cur_block_num d < W32 ->
  wpM (PreRead height) (seek d (base (GetStore n))) (fun r d' => same_file d d' /\ exists v, r = Some v /\ tree_rep (bytes d') v c own).
Proof.
  intros Hr Hc Hd Hown Hcur. destruct (clean_file _ _ _ _ Hr Hc) as [bl ->]. pose proof Hown as Hs. apply Forall_cons in Hs as [Hs _]. simpl in Hs.
  unfold PreRead. eapply wpM_run; [done|]. cbn [pos seek]. destruct (Z.eqb_spec (base (GetStore n)) 0) as [E|_]; [unfold base in E; lia|].
  apply wpM_bind. eapply wpM_mono; [|apply (preread_all n (Z.to_nat height) c (GetStore n :: bl) (seek d (base (GetStore n)))); try done; simpl; lia].
  intros v d1 (Hs1&Hr1&_&_&_). assert (Hs1' : same_file d d1) by (destruct Hs1 as (?&?&?); by split_and!).
  apply wpM_bind. eapply wpM_mono; [|apply ReadNode_rep; [exact Hr1|by eapply range_same]].
  intros r d2 (Hs2&Hr2&_). apply wpM_ret. split; [by eapply same_file_trans|]. by exists r.2.
Qed.

Lemma open_tree_ok m p f0 c0 height on oc own c free : saved m height (opt_root on) c free ->
  disk_ok (mk_SIStorage m p free c) own -> opt_rep m on oc own -> opt_clean on = true -> Z.of_nat (opt_depth oc) <= height ->
  wpM open_tree (mk_SIStorage m p f0 c0) (fun r d => r.1 = height /\ bytes d = m /\ freelist d ≡ₚ free /\ cur_block_num d = c /\
    opt_rep m r.2 oc own).
Proof.
  intros Hs Hok Hr Hc Hd. pose proof (dk_max _ _ Hok) as Hmax. simpl in Hmax. pose proof (disk_range _ own [] ltac:(by rewrite app_nil_r)) as Hown.
  assert (Hroot : opt_root on = 0 \/ 1 <= opt_root on <= c).
  { destruct on as [n|]; [right|by left]. destruct oc as [ct|]; [|done]. simpl in Hr. destruct (clean_file _ _ _ _ Hr Hc) as [bl ->].
    apply Forall_cons in Hown as [Hown _]. exact Hown. }
  destruct (SIStorage_open_ok m p f0 c0 height (opt_root on) c free own Hs Hok Hroot) as (l&E&Hl).
  unfold open_tree. eapply wpM_run; [exact E|]. apply wpM_bind. destruct on as [n|], oc as [ct|]; try done; simpl in *.
  - destruct Hroot as [E0|Hroot].
    { destruct (clean_file _ _ _ _ Hr Hc) as [bl ->]. apply Forall_cons in Hown as [Hown _]. simpl in Hown. lia. }
    destruct (Z.eqb_spec (GetStore n) 0); [lia|].
    eapply wpM_mono; [|apply (PreRead_ok (mk_SIStorage m 0 l c) n ct own height); try done; simpl; unfold MAX_BLOCK_NUM, W32 in *; lia].
    intros r d ((E1&E2&E3)&v&->&Hv). apply wpM_ret. simpl in *. rewrite E1 in *. by rewrite E2.
Qed.

(** ** Nodes that leave the memory and come back *)

Definition childs_clean (n : SNode) : bool := match n with SLeaf _ _ _ _ => true | SIntl _ _ _ cs => forallb tree_clean cs end.

(** An operation on a node that changes neither what it stands for nor the file
    outside of its blocks; one that writes needs room on the file. *)
Definition keeps_tree (writing : bool) (op : SNode -> M SIStorage SNode) (pre : SNode -> Prop) (n : SNode) : Prop := forall c own used d,
  pre n -> tree_rep (bytes d) n c own -> disk_ok d (own ++ used) -> header (bytes d) ->
  (writing = true -> len own + len used + Z.of_nat (needed c) + 256 <= MAX_BLOCK_NUM) ->
  exists n' own' d', op n d = Some (n', d') /\ tree_rep (bytes d') n' c own' /\ disk_ok d' (own' ++ used) /\
    agree (bytes d) (bytes d') (outside own') /\ (tree_clean n = true -> tree_clean n' = true /\ GetStore n' = GetStore n).

Lemma disk_file d d' used : same_file d d' -> disk_ok d used -> disk_ok d' used.
Proof. intros (_&E1&E2). by apply disk_same. Qed.

Lemma clean_content f n c m own : tree_rep m n c own -> flag_isDirty f = false -> tree_clean n = true -> tree_clean (with_content f n c) = true.
Proof. destruct n, c; try done; simpl; intros _ ->; [done|]. by intros [_ ->]%andb_prop. Qed.

Lemma Prepare_keeps n : keeps_tree false Prepare (fun _ => True) n.
Proof.
  intros c own used d _ Hr Hok _ _. unfold Prepare. destruct (flag_inMem (getFlag n)); [by exists n, own, d|].
  pose proof (ReadNode_rep n c own d Hr (disk_range _ _ _ Hok)) as Hw. apply wpM_inv in Hw as (r&d'&E&Hs&Hr'&f&Ef&Hf).
  exists r.2, own, d'. rewrite (run_bind _ _ _ _ _ E). split; [done|]. split; [done|]. split; [by eapply disk_file|].
  split; [by destruct Hs as (->&_&_)|]. intros Hc. rewrite Ef. split; [|by destruct n, c].
  eapply clean_content; [exact Hr| |done]. apply Hf. destruct n; simpl in *; [by apply negb_true_iff|]. apply andb_prop in Hc as [Hc _]. by apply negb_true_iff.
Qed.

Lemma Virtual_rep m n c own : tree_rep m n c own -> flag_isDirty (getFlag n) = false -> tree_rep m (Virtual n) c own.
Proof.
  destruct n as [f s mks mvs|f s mks ns], c as [ks vs|ks cs]; try done; simpl; destruct (out_flags f) as (F1&F2&F3&F4&F5).
  - intros (Hf&Hl&Hw&_&_&Hc&Hd) Ed. split_and!; try done; [by apply fit_out|by unfold in_memory; rewrite F5, F2..|].
    intros _. eapply on_file_loaded, Hd; [|done]. symmetry. apply bare_out.
  - intros (old&o2&->&(Hf&Hl&_&Hc&Hd)&Ht) Ed. exists old, o2. split; [done|]. split; [|done].
    split_and!; try done; [by apply fit_out|by unfold in_memory; rewrite F5, F2|]. intros _. destruct (Hd Ed). split; [|done].
    apply (on_file_childs _ f _ _ _ ns); [|done|done]. symmetry. apply bare_out.
Qed.

(** With children that need no writing, writing a tree is writing its root. *)
Lemma write_childs_clean ns cs own d used : trees_rep (tree_rep (bytes d)) ns cs own -> disk_ok d (own ++ used) -> header (bytes d) ->
  len own + len used + Z.of_nat (sum_list (needed <$> cs)) + 256 <= MAX_BLOCK_NUM -> forallb tree_clean ns = true ->
  write_childs write_nodes ns d = Some (ns, d).
Proof.
  intros Ht Hok Hh Hr Hc. destruct (writes_childs ns) with (cs := cs) (d := d) (own := own) (used := used) as (ns'&own'&d'&E&_&_&Hs&_); try done.
  - apply Forall_true. apply writes_all.
  - by destruct (Hs Hc) as (->&->&_).
Qed.

Lemma write_root n c own d used : tree_rep (bytes d) n c own -> disk_ok d (own ++ used) -> header (bytes d) ->
  len own + len used + Z.of_nat (needed c) + 256 <= MAX_BLOCK_NUM -> childs_clean n = true ->
  write_nodes n d = bindM (WriteNode n) (fun r => retM r.2) d.
Proof.
  destruct n as [f s mks mvs|f s mks ns], c as [ks vs|ks cs]; try done. intros (old&o2&->&Hr&Ht) Hok Hh Hroom Hc. cbn [write_nodes].
  pose proof Hr as ((_&_&Hk&_)&Hl&_). rewrite Hk, Hl. replace (Z.of_nat (S (length ks)) =? len ks + 1) with true by (symmetry; apply Z.eqb_eq; lia). cbn [negb].
  erewrite run_bind; [done|]. eapply (write_childs_clean ns cs o2 d (old ++ used)); try done.
  - eapply disk_perm, Hok. rewrite <- app_assoc. by rewrite Permutation_app_swap_app.
  - rewrite length_app in *. cbn [needed] in Hroom. lia.
Qed.

Lemma rep_keys m n c own : tree_rep m n c own -> (0 <? flag_GetKeyNum (getFlag n)) = true.
Proof.
  destruct n as [f s mks mvs|f s mks ns], c as [ks vs|ks cs]; try done; simpl.
  - intros ((_&_&->&?&_)&_). apply Z.ltb_lt. lia.
  - intros (old&o2&_&((_&_&->&?&_)&_)&_). apply Z.ltb_lt. lia.
Qed.

Lemma clean_dirty n : tree_clean n = true -> flag_isDirty (getFlag n) = false /\ tree_clean (Virtual n) = true.
Proof.
  destruct n as [f s ks vs|f s ks cs]; simpl; destruct (out_flags f) as (_&->&_).
  - intros H. split; [by apply negb_true_iff|done].
  - intros H. split; [|done]. apply andb_prop in H as [H _]. by apply negb_true_iff.
Qed.

Lemma swap_out_keeps n : keeps_tree true swap_out (fun n => childs_clean n = true) n.
Proof.
  intros c own used d Hc Hr Hok Hh Hroom. specialize (Hroom eq_refl). destruct (writes_all n c d own used Hr Hok Hh Hroom) as (n'&own'&d'&E&Hr'&Hc'&Hsame&Hok'&Ha&_).
  rewrite (write_root n c own d used Hr Hok Hh Hroom Hc) in E. unfold bindM in E. destruct (WriteNode n d) as [[r d1]|] eqn:Ew; [|done].
  simpl in E. unfold retM in E. simplify_eq/=. destruct (clean_dirty _ Hc') as [Hd Hv].
  exists (Virtual r.2), own', d'. split; [|split; [by apply Virtual_rep|split; [done|split; [done|]]]].
  - unfold swap_out. rewrite (run_bind _ _ _ _ _ Ew). cbn [snd]. by rewrite (rep_keys _ _ _ _ Hr').
  - intros Hcl. destruct (Hsame Hcl) as (E&_&_). rewrite E. split; [by apply clean_dirty|by destruct n].
Qed.

(** The node at a path. *)
Fixpoint node_at (p : list nat) (n : SNode) : option SNode :=
  match p, n with
  | [], _ => Some n
  | i :: p, SIntl _ _ _ cs => c ← cs !! i; node_at p c
  | _, _ => None
  end.

Lemma trees_split R ns cs own i n : trees_rep R ns cs own -> ns !! i = Some n -> exists c o1 o o2, cs !! i = Some c /\ own = o1 ++ o ++ o2 /\ R n c o /\
  (forall R' n' o', (forall n c o, o ⊆ o1 ++ o2 -> R n c o -> R' n c o) -> R' n' c o' -> trees_rep R' (<[i := n']> ns) cs (o1 ++ o' ++ o2)).
Proof.
  revert cs own i. induction ns as [|n0 ns IH]; intros [|c0 cs] own i; try done. intros (o1&o2&->&Hr&Ht) Hi. destruct i as [|i].
  - simplify_eq/=. exists c0, [], o1, o2. split; [done|]. split; [done|]. split; [done|]. intros R' n' o' HR Hn'. exists o', o2. split; [done|]. split; [done|].
    clear -Ht HR. simpl in HR. revert cs o2 Ht HR. induction ns as [|n ns IH]; intros [|c cs] o2; try done. intros (o&o'&->&Hr&Ht) HR.
    exists o, o'. split; [done|]. split; [by apply HR; [set_solver|]|]. apply IH; [done|]. intros n1 c1 x Hx. apply HR. set_solver.
  - destruct (IH cs o2 i Ht Hi) as (c&x1&x&x2&E1&->&E3&E4). exists c, (o1 ++ x1), x, x2. split; [done|]. split; [by rewrite <- !app_assoc|]. split; [done|].
    intros R' n' o' HR Hn'. exists o1, (x1 ++ o' ++ x2). split; [by rewrite <- !app_assoc|]. split; [apply HR; [set_solver|done]|].
    apply E4; [|done]. intros n1 c1 y Hy. apply HR. set_solver.
Qed.

Lemma forallb_insert ns i n : forallb tree_clean ns = true -> tree_clean n = true -> forallb tree_clean (<[i := n]> ns) = true.
Proof.
  rewrite !forallb_forall. intros H Hn x Hx. apply list_elem_of_In, list_elem_of_lookup in Hx as [j Hj]. apply list_lookup_insert_Some in Hj.
  destruct Hj as [(<-&<-&_)|[_ Hj]]; [done|]. apply H, list_elem_of_In. by eapply list_elem_of_lookup_2.
Qed.

Lemma needed_le cs c i : cs !! i = Some c -> (needed c <= sum_list (needed <$> cs))%nat.
Proof.
  revert i. induction cs as [|c0 cs IH]; intros [|i]; try done; rewrite needed_cons; simpl; [intros [= ->]; lia|]. intros H. apply IH in H. lia.
Qed.

Lemma at_path_keeps w op pre t p : keeps_tree w op pre t -> pre t -> forall n, keeps_tree w (at_path p op) (fun n => node_at p n = Some t) n.
Proof.
  intros Hop Hpre. induction p as [|i p IH]; intros n c own used d Hat Hr Hok Hh Hroom; [simpl in Hat; simplify_eq; by apply (Hop c own used d)|].
  destruct n as [|f s mks ns]; [done|]. destruct c as [|ks cs]; [done|]. cbn [node_at] in Hat. destruct (ns !! i) as [n0|] eqn:Ei; [|done]. simpl in Hat.
  destruct Hr as (old&ot&->&Hr&Ht). destruct (trees_split _ _ _ _ _ _ Ht Ei) as (c0&o1&o&o2&Ec&->&Hr0&Hback).
  set (others := old ++ o1 ++ o2 ++ used). assert (Hp : (old ++ o1 ++ o ++ o2) ++ used ≡ₚ o ++ others) by (unfold others; solve_Permutation).
  destruct (IH n0 c0 o others d Hat Hr0) as (n'&o'&d'&E&Hr'&Hok'&Ha&Hcl); [by eapply disk_perm, Hok|done| |].
  { intros Hw. specialize (Hroom Hw). apply needed_le in Ec. unfold others. rewrite !length_app in *. cbn [needed] in Hroom. lia. }
  assert (Hag : forall x, x ⊆ old ++ o1 ++ o2 -> agree (bytes d) (bytes d') (inside x)).
  { intros x Hx. eapply agree_mono, Ha. intros q (b&Hb&Hq). eapply (inside_outside d'); [exact Hok'|]. exists b. split; [|done]. unfold others. set_solver. }
  exists (SIntl f s mks (<[i := n']> ns)), (old ++ o1 ++ o' ++ o2), d'. split.
  { cbn [at_path]. rewrite Ei, bind_lift. by rewrite (run_bind _ _ _ _ _ E). }
  assert (Hcl' : tree_clean n0 = true -> GetStore <$> <[i := n']> ns = GetStore <$> ns).
  { intros Hc. rewrite list_fmap_insert. apply list_insert_id. rewrite list_lookup_fmap, Ei. simpl. f_equal. symmetry. by apply Hcl. }
  assert (Hn0 : forallb tree_clean ns = true -> tree_clean n0 = true).
  { intros H. rewrite forallb_forall in H. apply H, list_elem_of_In. by eapply list_elem_of_lookup_2. }
  split; [|split; [|split]].
  - exists old, (o1 ++ o' ++ o2). split; [done|]. split.
    + destruct Hr as (H1&H2&H3&H4&H5). split_and!; try done; [by rewrite length_insert|eapply chain_agree, H4; apply Hag; set_solver|].
      intros Ed. destruct (H5 Ed) as [Hon Hcs]. split; [|apply forallb_insert; [done|]; by apply Hcl, Hn0].
      apply (on_file_childs _ f _ _ _ ns); [done|by apply Hcl', Hn0|]. eapply on_file_agree, Hon; [|apply Hag; set_solver].
      apply node_cells_ok, keys_nonempty, H1.
    + apply Hback; [|done]. intros n1 c1 x Hx Hx'. eapply tree_rep_agree, Hx'. apply Hag. set_solver.
  - eapply disk_perm, Hok'. unfold others. solve_Permutation.
  - eapply agree_mono, Ha. intros q Hq b Hb. apply Hq. set_solver.
  - cbn [tree_clean GetStore]. intros [H1 H2]%andb_prop. split; [|done]. rewrite H1. apply forallb_insert; [done|]. by apply Hcl, Hn0.
Qed.

(** What the cache does to a tree between the operations on it: nodes of the tree
    whose children need no writing are swapped out (the heap takes lower nodes
    first), and nodes are read back when they are needed. *)
Definition has_room (c : content) (d : SIStorage) : Prop :=
  cur_block_num d - len (freelist d) + Z.of_nat (needed c) + 256 <= MAX_BLOCK_NUM.
Inductive cache_step (c : content) : SNode * SIStorage -> SNode * SIStorage -> Prop :=
  | step_out p t n d n' d' : node_at p n = Some t -> childs_clean t = true -> has_room c d ->
      at_path p swap_out n d = Some (n', d') -> cache_step c (n, d) (n', d')
  | step_in p t n d n' d' : node_at p n = Some t -> at_path p Prepare n d = Some (n', d') -> cache_step c (n, d) (n', d').

Definition cache_inv (c : content) (st : SNode * SIStorage) : Prop :=
  exists own, tree_rep (bytes st.2) st.1 c own /\ disk_ok st.2 own /\ header (bytes st.2).

Lemma keeps_inv w op pre c n d p t : keeps_tree w op pre t -> pre t -> node_at p n = Some t -> cache_inv c (n, d) -> (w = true -> has_room c d) ->
  exists n' d', at_path p op n d = Some (n', d') /\ cache_inv c (n', d').
Proof.
  intros Hop Hpre Hat (own&Hr&Hok&Hh) Hroom. simpl in *.
  destruct (at_path_keeps w op pre t p Hop Hpre n c own [] d) as (n'&own'&d'&E&Hr'&Hok'&Ha&_); [done|done|by rewrite app_nil_r|done| |].
  { intros Hw. specialize (Hroom Hw). pose proof (dk_count _ _ Hok) as Hc. rewrite length_app in Hc. unfold has_room in Hroom. simpl. lia. }
  rewrite app_nil_r in Hok'. exists n', d'. split; [done|]. exists own'. split; [done|]. split; [done|].
  eapply header_kept; [|exact Ha|done]. by eapply disk_low.
Qed.

Lemma cache_step_inv c st st' : cache_step c st st' -> cache_inv c st -> cache_inv c st'.
Proof.
  intros [p t n d n' d' Hat Hc Hroom E|p t n d n' d' Hat E] Hinv.
  - destruct (keeps_inv true swap_out _ c n d p t (swap_out_keeps t) Hc Hat Hinv) as (n2&d2&E2&H2); [done|congruence].
  - destruct (keeps_inv false Prepare _ c n d p t (Prepare_keeps t) I Hat Hinv) as (n2&d2&E2&H2); [done|congruence].
Qed.

(** ** Theorems *)

(** C13. Writing the tree and opening the file again gives the tree back.  The nodes
    of the tree may be in memory or only on the file, changed or not (a changed
    node has a changed parent), and nodes that were removed from the tree may still
    own blocks: [WriteTree] succeeds, every block of the file is free or owned by
    one node of the tree afterwards, and the constructor and [PreRead], on a new
    object for the file, find the height and the free blocks and build a tree
    whose nodes, read by [ReadNode], have the keys, values and children that were
    written. *)
Theorem tree_survives_restart height removed rem on oc own d :
  word height -> Z.of_nat (opt_depth oc) <= height -> disk_ok d (own ++ concat rem) -> header (bytes d) ->
  Forall2 (removed_ok (bytes d)) removed rem -> opt_rep (bytes d) on oc own ->
  len own + Z.of_nat (opt_needed oc) + 256 <= MAX_BLOCK_NUM ->
  exists on' own' d', WriteTree height removed on d = Some (on', d') /\ opt_rep (bytes d') on' oc own' /\ opt_clean on' = true /\
    disk_ok d' own' /\ header (bytes d') /\
    forall p f0 c0, exists root d2, open_tree (mk_SIStorage (bytes d') p f0 c0) = Some ((height, root), d2) /\
      bytes d2 = bytes d' /\ freelist d2 ≡ₚ freelist d' /\ disk_ok d2 own' /\ opt_rep (bytes d2) root oc own' /\
      match root with
      | Some v => exists v' d3, load v d2 = Some (v', d3) /\ oc = Some (content_of v')
      | None => oc = None
      end.
Proof.
  intros Hw Hdep Hok Hh Hrem Hr Hroom.
  destruct (WriteTree_ok height removed rem on oc own d Hw Hok Hh Hrem Hr Hroom) as (on'&own'&d'&free&E&Hr'&Hc'&Hok'&Hs&Hp&Hh').
  exists on', own', d'. split_and!; try done. intros p f0 c0.
  assert (Hok1 : disk_ok (mk_SIStorage (bytes d') p free (cur_block_num d')) own').
  { destruct Hok' as [H1 H2 H3 H4 H5]. assert (Hq : free ++ own' ≡ₚ freelist d' ++ own') by (by rewrite Hp).
    split; simpl; [by rewrite Hq|by rewrite Hq|by rewrite (Permutation_length Hq)|done|done]. }
  pose proof (open_tree_ok (bytes d') p f0 c0 height on' oc own' _ free Hs Hok1 Hr' Hc' Hdep) as Ho.
  apply wpM_inv in Ho as ([h root]&d2&Eo&Eh&Eb&Ef&Ec&Hroot). simpl in Eh, Hroot. subst h.
  assert (Hok2 : disk_ok d2 own').
  { destruct Hok1 as [H1 H2 H3 H4 H5]. simpl in *. assert (Hq : freelist d2 ++ own' ≡ₚ free ++ own') by (by rewrite Ef).
    split; rewrite ?Ec; [by rewrite Hq|by rewrite Hq|by rewrite (Permutation_length Hq)|done|done]. }
  exists root, d2. split; [done|]. split; [done|]. split; [by rewrite Ef|]. split; [done|]. split; [by rewrite Eb|].
  destruct root as [v|], oc as [ct|]; try done.
  pose proof (loads_all v ct own' d2) as Hl. rewrite Eb in Hl. specialize (Hl Hroot). specialize (Hl ltac:(apply (disk_range d2 own' []); by rewrite app_nil_r)).
  apply wpM_inv in Hl as (v'&d3&El&_&_&Ec'&_). exists v', d3. split; [done|]. by rewrite Ec'.
Qed.

(** A new file. *)
Lemma SIStorage_build_ok : exists d, SIStorage_build = Some d /\ disk_ok d [] /\ header (bytes d) /\ freelist d = seqZ 1 256.
Proof.
  eexists. split; [vm_compute; reflexivity|]. split; [|split; [|vm_compute; reflexivity]].
  - assert (Hf : forall d, freelist d = seqZ 1 256 -> cur_block_num d = 256 -> disk_ok d []).
    { intros d Ef Ec. split; rewrite ?app_nil_r, ?Ef, ?Ec; [apply NoDup_seqZ| |by rewrite length_seqZ|done|by exists 32].
      apply Forall_forall. intros b Hb. rewrite elem_of_seqZ in Hb. lia. }
    apply Hf; vm_compute; reflexivity.
  - exists 0, 0, 256. split_and!; (split; [done|vm_compute; reflexivity]).
Qed.

(** A tree of two leaves that was never written. *)
Definition leaf_flag : Z := NF_IL + NF_IM + 1048576 + NF_ID + 4096.
Definition intl_flag : Z := NF_IM + 2097152 + NF_ID + 4096.
Definition sample_node : SNode :=
  SIntl intl_flag 0 [[98]] [SLeaf leaf_flag 0 [[97; 97; 97; 97; 97]] [7]; SLeaf leaf_flag 0 [[98]] [8]].
Definition sample_content : content := CIntl [[98]] [CLeaf [[97; 97; 97; 97; 97]] [7]; CLeaf [[98]] [8]].

Lemma sample_fit f leaf k : key_ok k -> word f -> flag_isLeaf f = leaf -> flag_GetKeyNum f = 1 -> 0 < flag_getHeight f -> node_fit f leaf [k].
Proof. intros Hk H1 H2 H3 H4. split_and!; try done. by constructor. Qed.

Lemma sample_leaf m k v : key_ok k -> word v -> tree_rep m (SLeaf leaf_flag 0 [k] [v]) (CLeaf [k] [v]) [].
Proof. intros Hk Hv. split; [by apply sample_fit|]. split; [done|]. split; [by constructor|done]. Qed.

Lemma sample_rep m : tree_rep m sample_node sample_content [].
Proof.
  exists [], []. split; [done|]. split; [split; [by apply sample_fit|done]|].
  exists [], []. split; [done|]. split; [by apply sample_leaf|]. exists [], []. split; [done|]. split; [by apply sample_leaf|done].
Qed.

Lemma tree_survives_restart_witness : exists d on' d',
  SIStorage_build = Some d /\ WriteTree 2 [] (Some sample_node) d = Some (on', d') /\
  exists v d2 v' d3, open_tree (mk_SIStorage (bytes d') 0 [] SET_BLOCK_NUM) = Some ((2, Some v), d2) /\
    load v d2 = Some (v', d3) /\ content_of v' = sample_content.
Proof.
  destruct SIStorage_build_ok as (d&E&Hok&Hh&_).
  destruct (tree_survives_restart 2 [] [] (Some sample_node) (Some sample_content) [] d) as (on'&own'&d'&E1&_&_&_&_&Hopen); try done.
  { apply sample_rep. }
  destruct (Hopen 0 [] SET_BLOCK_NUM) as (root&d2&E2&_&_&_&Hr&Hload). destruct root as [v|]; [|done].
  destruct Hload as (v'&d3&E3&Ec). exists d, on', d'. split; [done|]. split; [done|]. exists v, d2, v', d3. split; [done|]. split; [done|]. congruence.
Defined.

(** C14. The cache is transparent: however nodes of the tree are swapped out, once
    their children need no writing, and read back, the tree stands for the same
    keys and values, which [ReadNode] on its nodes gives, no block is lost or
    shared, every further read succeeds, and every further node can be swapped out
    while the file has room. *)
Theorem cache_transparent c own n d n' d' :
  tree_rep (bytes d) n c own -> disk_ok d own -> header (bytes d) -> rtc (cache_step c) (n, d) (n', d') ->
  (exists own', tree_rep (bytes d') n' c own' /\ disk_ok d' own') /\
  (exists v d2, load n' d' = Some (v, d2) /\ content_of v = c) /\
  (forall p t, node_at p n' = Some t -> exists n2 d2, at_path p Prepare n' d' = Some (n2, d2)) /\
  (forall p t, node_at p n' = Some t -> childs_clean t = true -> has_room c d' -> exists n2 d2, at_path p swap_out n' d' = Some (n2, d2)).
Proof.
  intros Hr Hok Hh Hsteps. assert (Hinv : cache_inv c (n', d')).
  { assert (H0 : cache_inv c (n, d)) by (by exists own). revert H0. remember (n, d) as st. remember (n', d') as st'. clear Heqst Heqst' Hr Hok Hh.
    induction Hsteps as [|x y z Hs _ IH]; [done|]. intros Hx. by apply IH, (cache_step_inv c x). }
  pose proof Hinv as (own'&Hr'&Hok'&_). simpl in Hr', Hok'. split; [by exists own'|]. split_and!.
  - pose proof (loads_all n' c own' d' Hr' (disk_range d' own' [] ltac:(by rewrite app_nil_r))) as Hl. apply wpM_inv in Hl as (v&d2&E&_&_&Ec&_). by exists v, d2.
  - intros p t Hat. destruct (keeps_inv false Prepare _ c n' d' p t (Prepare_keeps t) I Hat Hinv) as (n2&d2&E&_); [done|by exists n2, d2].
  - intros p t Hat Hc Hroom. destruct (keeps_inv true swap_out _ c n' d' p t (swap_out_keeps t) Hc Hat Hinv) as (n2&d2&E&_); [done|by exists n2, d2].
Qed.

Lemma cache_transparent_witness : exists d n1 d1 n2 d2 v d3, SIStorage_build = Some d /\
  at_path [1%nat] swap_out sample_node d = Some (n1, d1) /\ at_path [1%nat] Prepare n1 d1 = Some (n2, d2) /\
  load n2 d2 = Some (v, d3) /\ content_of v = sample_content.
Proof.
  destruct SIStorage_build_ok as (d&E&Hok&Hh&Hf). assert (Hroom : has_room sample_content d).
  { pose proof (dk_count _ _ Hok) as Hc. rewrite app_nil_r, Hf in Hc. unfold has_room. rewrite Hf, <- Hc. vm_compute. discriminate. }
  destruct (cache_transparent sample_content [] sample_node d sample_node d (sample_rep _) Hok Hh (rtc_refl _ _)) as (_&_&_&Hout).
  destruct (Hout [1%nat] _ eq_refl eq_refl Hroom) as (n1&d1&E1).
  assert (H1 : rtc (cache_step sample_content) (sample_node, d) (n1, d1)) by (by eapply rtc_once, (step_out _ [1%nat])).
  destruct (cache_transparent sample_content [] sample_node d n1 d1 (sample_rep _) Hok Hh H1) as (_&_&Hin&_).
  assert (Hat : exists t, node_at [1%nat] n1 = Some t).
  { cbn [at_path] in E1. unfold bindM, liftM, retM in E1. simpl in E1. destruct (swap_out _ d) as [[x dx]|]; [|done]. simpl in E1. simplify_eq. by exists x. }
  destruct Hat as [t Hat]. destruct (Hin [1%nat] t Hat) as (n2&d2&E2).
  assert (H2 : rtc (cache_step sample_content) (sample_node, d) (n2, d2)) by (eapply rtc_r; [exact H1|]; by eapply (step_in _ [1%nat])).
  destruct (cache_transparent sample_content [] sample_node d n2 d2 (sample_rep _) Hok Hh H2) as (_&(v&d3&E3&Ec)&_).
  by exists d, n1, d1, n2, d2, v, d3.
Defined.
