(* ===== verification/DatabaseArrays.v ===== *)
(** * The database over arrays

    The database on strings with its indexes over four [IVArray]s and its
    dictionaries from ids to strings over three [ISArray]s, caches and files
    included.  The dictionaries from strings to ids are first any implementation of
    the interface [StrIndex], then the trees of [SITree]. *)

From stdpp Require Import strings.
From S2P Require Import Prelude Util ValueList ValueStore KVstore TripleSet KVget Version BlockManager BlockManagerSpec IVArray IVArrayOps IVArrayStore ArrayTheorems Names Database DatabaseSpec ISArray ISArrayTheorems SITree SITreeTheorems DatabaseTheorems.

Section Arrays.
Context {I : Type} `{SIL : StrIndexLaws I} (MAXC LIM SMAXC SLIM : Z).
Context (HM : LENGTH_BORDER <= MAXC) (HL : 0 <= LIM <= W32) (HSM : bound_ok SMAXC) (HSL : 0 <= SLIM <= LENGTH_BORDER).

#[local] Instance values : ValueStore IVArray := array_store MAXC.
#[local] Instance values_laws : ValueStoreLaws IVArray := array_store_laws MAXC LIM HM HL.
#[local] Instance strings : StrArray ISArray := is_store SMAXC.
#[local] Instance strings_laws : StrArrayLaws ISArray := is_store_laws SMAXC SLIM HSM HSL.

(** A new database: [KVstore::open] in [build] mode and [initIDinfo]. *)
Definition new_names (i0 : I) (n : Z) : Names I ISArray := mk_Names i0 (ISArray_build n) 0 [] 0.
Definition new_db (i0 : I) (n : Z) (types : list string) : Database IVArray I ISArray :=
  mk_DB (mkKV (IVArray_build n) (IVArray_build n) (IVArray_build n) (IVArray_build n))
    (new_names i0 n) (new_names i0 n) (new_names i0 n) 0 0 ∅ types.

(** Any sequence of insertions and removals of triples of strings on a new
    database over arrays runs to its end, reports the numbers of changed triples,
    and the database then holds the set of triples the operations describe; the
    blocks of the files bound the number of operations. *)
Theorem database_over_arrays (enough : Z -> bool) (junk : nat -> Z) i0 n types os :
  (forall m, enough m = true) -> si_view i0 = ∅ -> si_room (ops_cost os) i0 -> 0 <= n < KEY_LIMIT ->
  ops_ok (S := IVArray) (I := I) (J := ISArray) os ∅ -> Z.of_nat (ops_cost os) < LITERAL_FIRST_ID ->
  KEY_LIMIT + Z.of_nat (ops_cost os) * op_cost (BF := iv_format) LIM < MAX_BLOCKS ->
  KEY_LIMIT + Z.of_nat (ops_cost os) * op_cost (BF := is_format) SLIM < MAX_BLOCKS ->
  exists db', run_ops junk enough os (new_db i0 n types) = Some (ops_results os ∅, db') /\ holds 0 (ops_set os ∅) db'.
Proof using Type.
  intros Hmem Hi0 Hir Hn Hok Hc Hv Hs. assert (HM0 : 0 <= MAXC) by (unfold LENGTH_BORDER in *; lia).
  assert (Hb : array_view (IVArray_build n) = ∅ /\ array_room MAXC LIM (ops_cost os) (IVArray_build n)) by (by apply build_room).
  destruct (is_build_room SMAXC SLIM HSM n (ops_cost os) Hn Hs) as [Hsv Hsr].
  assert (H0 : holds (ops_cost os + 0) ∅ (new_db i0 n types)).
  { exists (fun _ => ∅), ∅. rewrite Nat.add_0_r. split; [|split; [intros k s; rewrite lookup_empty; split; [by intros [? ?]|by intros (t&?&_)]|]].
    - split; [|apply views_empty_represents; intros []; apply Hb|intros []; apply Hb|done].
      intros k. assert (Hk : get_names k (new_db i0 n types) = new_names i0 n) by (by destruct k). rewrite Hk.
      assert (Hinv : forall i s, sa_view (id2str (new_names i0 n)) !! i = Some s <-> (∅ : gmap string Z) !! s = Some (i + id_base k)).
      { intros i s. assert (Hsv' : sa_view (id2str (new_names i0 n)) = ∅) by exact Hsv. by rewrite Hsv', !lookup_empty. }
      split; [done|done|exact Hinv|..]; cbn; [done|done|done|constructor|by intros f ?%elem_of_nil|by intros f s ?%elem_of_nil|done|done|lia].
    - intros x. split; [set_solver|]. intros (t&Ht&_). set_solver. }
  destruct (wpM_inv _ _ _ (run_ops_ok junk enough Hmem os 0 ∅ _ H0 Hok)) as (rs&db'&Hr&->&H'). by exists db'.
Qed.
End Arrays.

(** ** The database over trees and arrays *)

Section Trees.
Context (MAXC LIM SMAXC SLIM : Z).
Context (HM : LENGTH_BORDER <= MAXC) (HL : 0 <= LIM <= W32) (HSM : bound_ok SMAXC) (HSL : 0 <= SLIM <= LENGTH_BORDER).

#[local] Instance tree_values : ValueStore IVArray := array_store MAXC.
#[local] Instance tree_values_laws : ValueStoreLaws IVArray := array_store_laws MAXC LIM HM HL.
#[local] Instance tree_strings : StrArray ISArray := is_store SMAXC.
#[local] Instance tree_strings_laws : StrArrayLaws ISArray := is_store_laws SMAXC SLIM HSM HSL.

(** C12. Nothing abstract is left: any sequence of insertions and removals of
    triples of strings, one by one and in batches, that keeps to [ops_ok] (names the
    dictionaries accept, no triple from an entity to itself among those removed one by
    one, only known names in a batch of removals), on a new database whose names
    are in B+ trees and arrays of strings and whose indexes are in arrays with
    caches and files, runs to its end, reports the numbers of changed triples, and
    the database then holds the set of triples the operations describe. *)
Theorem database_over_trees (enough : Z -> bool) (junk : nat -> Z) n types os :
  (forall m, enough m = true) -> 0 <= n < KEY_LIMIT ->
  ops_ok (S := IVArray) (I := SITree) (J := ISArray) os ∅ -> Z.of_nat (ops_cost os) < LITERAL_FIRST_ID ->
  KEY_LIMIT + Z.of_nat (ops_cost os) * op_cost (BF := iv_format) LIM < MAX_BLOCKS ->
  KEY_LIMIT + Z.of_nat (ops_cost os) * op_cost (BF := is_format) SLIM < MAX_BLOCKS ->
  exists db', run_ops junk enough os (new_db SITree_build n types) = Some (ops_results os ∅, db') /\ holds 0 (ops_set os ∅) db'.
Proof using Type.
  intros Hmem Hn Hok Hc Hv Hs. destruct build_inv as [Hinv Hview].
  by apply (database_over_arrays MAXC LIM SMAXC SLIM HM HL HSM HSL enough junk SITree_build n types os).
Qed.
End Trees.

(** ** Witness *)

Open Scope string_scope.

Definition array_ops : list db_op := [
  Insert [to_entity "a" "p" "b"; to_literal "a" "q" "c"];
  BatchInsert [to_entity "b" "p" "b"; to_entity "a" "p" "b"];
  Remove [to_entity "a" "p" "b"]].

Lemma str_limit_ok : 0 <= 100 <= LENGTH_BORDER.
Proof. done. Qed.

Lemma database_over_trees_witness : exists db',
  run_ops (VS := array_store a_bound) (SA := is_store LENGTH_BORDER) (fun _ => 0) (fun _ => true) array_ops
    (new_db SITree_build 0 []) = Some ([2; 1; 1], db') /\
  holds (VSL := array_store_laws a_bound 1000 a_bound_ok a_limit_ok) (SAL := is_store_laws LENGTH_BORDER 100 some_bound str_limit_ok)
    0 {[("a", "q", false, "c"); ("b", "p", true, "b")]} db'.
Proof.
  assert (Hok : ops_ok (S := IVArray) (I := SITree) (J := ISArray) (VSL := array_store_laws a_bound 1000 a_bound_ok a_limit_ok)
    (SAL := is_store_laws LENGTH_BORDER 100 some_bound str_limit_ok) array_ops ∅).
  { assert (Hn : forall t, t ∈ [to_entity "a" "p" "b"; to_literal "a" "q" "c"; to_entity "b" "p" "b"] ->
      names_fit (I := SITree) (J := ISArray) (SAL := is_store_laws LENGTH_BORDER 100 some_bound str_limit_ok) t).
    { intros t. rewrite !elem_of_cons, elem_of_nil. intros [->|[->|[->|[]]]]; repeat split; done. }
    split; [repeat constructor; apply Hn; set_solver|]. split; [by vm_compute|].
    split; [repeat constructor; apply Hn; set_solver|]. split; [by vm_compute|].
    split; [repeat constructor; done|]. split; [by vm_compute|done]. }
  destruct (database_over_trees a_bound 1000 LENGTH_BORDER 100 a_bound_ok a_limit_ok some_bound str_limit_ok (fun _ => true) (fun _ => 0)
    0 [] array_ops) as (db'&Hr&Hh); [done|done|exact Hok|by vm_compute|by vm_compute|by vm_compute|].
  assert (E1 : ops_results array_ops ∅ = [2; 1; 1]) by (by vm_compute).
  assert (E2 : ops_set array_ops ∅ = {[("a", "q", false, "c"); ("b", "p", true, "b")]}) by (apply (bool_decide_unpack _); by vm_compute).
  rewrite E1 in Hr. rewrite E2 in Hh. exists db'. exact (conj Hr Hh).
Defined.
