(* ===== verification/TempResult.v ===== *)
(** * Sets of variables and tables of results

    [Varset] (Query/Varset.cpp): the columns of a table of results, a vector of
    names.  The operations add a name only when it is not there, so a set built by
    them has no name twice; [mapTo] gives the position of every name of a set in
    another one.

    [TempResult] (Query/TempResult.cpp): the results of a part of a query, a table
    with columns of ids and columns of strings.  A row ([ResultPair]) is the two
    arrays of its cells; the field [sz] is the length of the array of ids.  Rows
    are values here: the source shares the arrays of ids between copies of a row
    and frees them in [release], which is not modelled.

    [std::sort] is not used: [sort] is a quicksort of its own, and the joins look
    up the rows of the other table with two binary searches.  An index outside of
    an array is a failure.  [uninit] is what a new array of ids holds, [moved] is
    what is left of a string that [std::move] has taken away; both are arbitrary.
    Sizes fit in an [int].  *)

From stdpp Require Import strings.
From S2P Require Import Prelude.

(** ** Sets of variables *)

Abbreviation Varset := (list string).

Definition getVarsetSize (vs : Varset) : Z := len vs.

Definition findVar (vs : Varset) (_var : string) : bool := existsb (String.eqb _var) vs.

Definition addVar (vs : Varset) (_var : string) : Varset := if findVar vs _var then vs else vs ++ [_var].

(** [operator +=] and [operator +]: the names of the right set are added one by one. *)
Definition vs_add (vs ws : Varset) : Varset := fold_left addVar ws vs.

(** [operator *] and [operator -]. *)
Definition vs_mul (vs ws : Varset) : Varset := fold_left (fun r v => if findVar ws v then addVar r v else r) vs [].
Definition vs_sub (vs ws : Varset) : Varset := fold_left (fun r v => if findVar ws v then r else addVar r v) vs [].

(** [operator ==]. *)
Definition vs_eq (vs ws : Varset) : bool :=
  (getVarsetSize vs =? getVarsetSize ws) && forallb (findVar ws) vs.

Definition hasCommonVar (vs ws : Varset) : bool := existsb (findVar ws) vs.

Definition belongTo (vs ws : Varset) : bool := forallb (findVar ws) vs.

(** The inner loop of [mapTo]: [j] is the position of the head of [ws], and the
    last position that holds [v] wins. *)
Fixpoint map_pos (v : string) (ws : Varset) (j r : Z) : Z :=
  match ws with
  | [] => r
  | w :: ws' => map_pos v ws' (j + 1) (if String.eqb v w then j else r)
  end.

Definition mapTo (vs ws : Varset) : list Z := (fun v => map_pos v ws 0 (-1)) <$> vs.

(** *** Membership *)

Lemma findVar_spec vs v : findVar vs v = true <-> v ∈ vs.
Proof.
  unfold findVar. rewrite existsb_exists, list_elem_of_In. split.
  - intros (w & Hw & E). apply String.eqb_eq in E as ->. done.
  - intros Hv. exists v. by rewrite String.eqb_refl.
Qed.

Lemma findVar_false vs v : findVar vs v = false <-> v ∉ vs.
Proof. rewrite <- findVar_spec. destruct (findVar vs v); naive_solver. Qed.

Lemma hasCommonVar_spec vs ws : hasCommonVar vs ws = true <-> exists v, v ∈ vs /\ v ∈ ws.
Proof.
  unfold hasCommonVar. rewrite existsb_exists. setoid_rewrite <- list_elem_of_In. by setoid_rewrite findVar_spec.
Qed.

Lemma hasCommonVar_false vs ws : hasCommonVar vs ws = false <-> forall v, v ∈ vs -> v ∉ ws.
Proof.
  pose proof (hasCommonVar_spec vs ws). destruct (hasCommonVar vs ws); naive_solver.
Qed.

Lemma belongTo_spec vs ws : belongTo vs ws = true <-> vs ⊆ ws.
Proof.
  unfold belongTo. rewrite forallb_forall. setoid_rewrite <- list_elem_of_In.
  setoid_rewrite findVar_spec. done.
Qed.

Lemma elem_of_addVar vs w v : v ∈ addVar vs w <-> v ∈ vs \/ v = w.
Proof.
  unfold addVar. destruct (findVar vs w) eqn:E; [apply findVar_spec in E|]; set_solver.
Qed.

Lemma NoDup_addVar vs w : NoDup vs -> NoDup (addVar vs w).
Proof.
  intros H. unfold addVar. destruct (findVar vs w) eqn:E; [done|]. apply findVar_false in E.
  apply NoDup_app. split_and!; [done|set_solver|apply NoDup_singleton].
Qed.

Lemma elem_of_vs_add vs ws v : v ∈ vs_add vs ws <-> v ∈ vs \/ v ∈ ws.
Proof.
  unfold vs_add. revert vs. induction ws as [|w ws IH]; intros vs; simpl; [set_solver|].
  rewrite IH, elem_of_addVar. set_solver.
Qed.

Lemma NoDup_vs_add vs ws : NoDup vs -> NoDup (vs_add vs ws).
Proof.
  unfold vs_add. revert vs. induction ws as [|w ws IH]; intros vs H; simpl; [done|]. by apply IH, NoDup_addVar.
Qed.

Lemma vs_add_disjoint vs ws : NoDup ws -> (forall v, v ∈ ws -> v ∉ vs) -> vs_add vs ws = vs ++ ws.
Proof.
  unfold vs_add. revert vs. induction ws as [|w ws IH]; intros vs Hn Hd; simpl; [by rewrite app_nil_r|].
  apply NoDup_cons in Hn as [Hw Hn]. unfold addVar at 2.
  rewrite (proj2 (findVar_false vs w)) by (apply Hd; set_solver).
  rewrite IH; [by rewrite <- app_assoc|done|]. intros v Hv. specialize (Hd v). set_solver.
Qed.

Lemma vs_mul_filter vs ws : NoDup vs -> vs_mul vs ws = filter (.∈ ws) vs.
Proof.
  intros Hn. unfold vs_mul.
  enough (H : forall r, (forall v, v ∈ vs -> v ∉ r) -> fold_left (fun r v => if findVar ws v then addVar r v else r) vs r = r ++ filter (.∈ ws) vs)
    by (apply (H []); set_solver).
  induction vs as [|w vs IH]; intros r Hr; simpl; [by rewrite app_nil_r|]. apply NoDup_cons in Hn as [Hw Hn].
  rewrite filter_cons. destruct (findVar ws w) eqn:E.
  - apply findVar_spec in E. rewrite decide_True by done. unfold addVar at 2.
    rewrite (proj2 (findVar_false r w)) by (apply Hr; set_solver).
    rewrite IH; [by rewrite <- app_assoc|done|]. intros v Hv. specialize (Hr v). set_solver.
  - apply findVar_false in E. rewrite decide_False by done. apply IH; [done|]. intros v Hv. apply Hr. set_solver.
Qed.

Lemma vs_sub_filter vs ws : NoDup vs -> vs_sub vs ws = filter (.∉ ws) vs.
Proof.
  intros Hn. unfold vs_sub.
  enough (H : forall r, (forall v, v ∈ vs -> v ∉ r) -> fold_left (fun r v => if findVar ws v then r else addVar r v) vs r = r ++ filter (.∉ ws) vs)
    by (apply (H []); set_solver).
  induction vs as [|w vs IH]; intros r Hr; simpl; [by rewrite app_nil_r|]. apply NoDup_cons in Hn as [Hw Hn].
  rewrite filter_cons. destruct (findVar ws w) eqn:E.
  - apply findVar_spec in E. rewrite decide_False by (intros H; done). apply IH; [done|]. intros v Hv. apply Hr. set_solver.
  - apply findVar_false in E. rewrite decide_True by done. unfold addVar at 2.
    rewrite (proj2 (findVar_false r w)) by (apply Hr; set_solver).
    rewrite IH; [by rewrite <- app_assoc|done|]. intros v Hv. specialize (Hr v). set_solver.
Qed.

Lemma elem_of_vs_mul vs ws v : NoDup vs -> v ∈ vs_mul vs ws <-> v ∈ vs /\ v ∈ ws.
Proof. intros H. rewrite vs_mul_filter, list_elem_of_filter by done. naive_solver. Qed.

Lemma elem_of_vs_sub vs ws v : NoDup vs -> v ∈ vs_sub vs ws <-> v ∈ vs /\ v ∉ ws.
Proof. intros H. rewrite vs_sub_filter, list_elem_of_filter by done. naive_solver. Qed.

Lemma NoDup_vs_mul vs ws : NoDup vs -> NoDup (vs_mul vs ws).
Proof. intros H. rewrite vs_mul_filter by done. by apply NoDup_filter. Qed.

Lemma NoDup_vs_sub vs ws : NoDup vs -> NoDup (vs_sub vs ws).
Proof. intros H. rewrite vs_sub_filter by done. by apply NoDup_filter. Qed.

Lemma vs_eq_spec vs ws : NoDup vs -> NoDup ws -> vs_eq vs ws = true <-> (forall v, v ∈ vs <-> v ∈ ws).
Proof.
  intros Hv Hw. unfold vs_eq, getVarsetSize. fold (belongTo vs ws). rewrite andb_true_iff, Z.eqb_eq, belongTo_spec. split.
  - intros [Hl Hs]. assert (E : vs ≡ₚ ws) by (apply submseteq_length_Permutation; [by apply NoDup_submseteq|lia]).
    intros v. by rewrite E.
  - intros H. rewrite (NoDup_Permutation vs ws Hv Hw H). done.
Qed.

Lemma vs_eq_refl vs : NoDup vs -> vs_eq vs vs = true.
Proof. intros H. by apply vs_eq_spec. Qed.

(** *** Positions *)

Lemma map_pos_absent v ws j r : v ∉ ws -> map_pos v ws j r = r.
Proof.
  revert j r. induction ws as [|w ws IH]; intros j r H; simpl; [done|]. rewrite IH by set_solver.
  destruct (String.eqb_spec v w) as [->|]; [|done]. destruct H. set_solver.
Qed.

Lemma map_pos_lookup v ws (i : nat) j r : NoDup ws -> ws !! i = Some v -> map_pos v ws j r = j + Z.of_nat i.
Proof.
  revert i j r. induction ws as [|w ws IH]; intros i j r Hn H; [done|]. apply NoDup_cons in Hn as [Hw Hn].
  destruct i as [|i]; simpl in *.
  - simplify_eq. rewrite String.eqb_refl, map_pos_absent by done. lia.
  - rewrite (IH i) by done. lia.
Qed.

Lemma mapTo_lookup vs ws (k i : nat) v : NoDup ws -> vs !! k = Some v -> ws !! i = Some v -> mapTo vs ws !! k = Some (Z.of_nat i).
Proof. intros Hn Hk Hi. unfold mapTo. rewrite list_lookup_fmap, Hk. simpl. by rewrite (map_pos_lookup v ws i) by done. Qed.

Lemma length_mapTo vs ws : length (mapTo vs ws) = length vs.
Proof. apply length_fmap. Qed.

Lemma NoDup_disjoint_app (vs ws : Varset) : NoDup (vs ++ ws) <-> NoDup vs /\ NoDup ws /\ (forall v, v ∈ vs -> v ∉ ws).
Proof. rewrite NoDup_app. naive_solver. Qed.

(** ** Tables *)

Record ResultPair := mk_ResultPair { rp_id : list Z; rp_str : list string }.

Record TempResult := mk_TempResult { id_varset : Varset; str_varset : Varset; result : list ResultPair }.

#[global] Instance ResultPair_eq_dec : EqDecision ResultPair.
Proof. solve_decision. Defined.
#[global] Instance TempResult_eq_dec : EqDecision TempResult.
Proof. solve_decision. Defined.

Definition set_result (T : TempResult) (rows : list ResultPair) : TempResult :=
  mk_TempResult (id_varset T) (str_varset T) rows.
Definition push_rows (T : TempResult) (rows : list ResultPair) : TempResult := set_result T (result T ++ rows).

Definition getAllVarset (T : TempResult) : Varset := vs_add (id_varset T) (str_varset T).

Definition id_cols (T : TempResult) : Z := getVarsetSize (id_varset T).
Definition str_cols (T : TempResult) : Z := getVarsetSize (str_varset T).

Definition at_Z {A} (l : list A) (i : Z) : option A := if 0 <=? i then l !! Z.to_nat i else None.

(** [operator <] of [std::string]. *)
Definition string_less (a b : string) : bool := match String.compare a b with Lt => true | _ => false end.

(** ** Comparing and sorting rows *)

Fixpoint compareRow (x : ResultPair) (x_id_cols : Z) (x_pos : list Z) (y : ResultPair) (y_id_cols : Z) (y_pos : list Z) : option Z :=
  match x_pos, y_pos with
  | px :: x_pos', py :: y_pos' =>
      if (px <? x_id_cols) && (py <? y_id_cols) then
        a ← at_Z (rp_id x) px; b ← at_Z (rp_id y) py;
        if a <? b then Some (-1) else if b <? a then Some 1
        else compareRow x x_id_cols x_pos' y y_id_cols y_pos'
      else if (x_id_cols <=? px) && (y_id_cols <=? py) then
        a ← at_Z (rp_str x) (px - x_id_cols); b ← at_Z (rp_str y) (py - y_id_cols);
        if string_less a b then Some (-1) else if string_less b a then Some 1
        else compareRow x x_id_cols x_pos' y y_id_cols y_pos'
      else compareRow x x_id_cols x_pos' y y_id_cols y_pos'
  | _, _ => Some 0
  end.

Section Sort.
Context (this_id_cols : Z) (this_pos : list Z).

(** Whether row [i] is less than row [j]. *)
Definition row_less (a : list ResultPair) (i j : Z) : option bool :=
  x ← at_Z a i; y ← at_Z a j;
  c ← compareRow x this_id_cols this_pos y this_id_cols this_pos; Some (c =? -1).

Definition swap_rows (a : list ResultPair) (i j : Z) : option (list ResultPair) :=
  x ← at_Z a i; y ← at_Z a j; Some (<[Z.to_nat j := x]> (<[Z.to_nat i := y]> a)).

(** The two inner loops; [m] is a reference to row [l]. *)
Fixpoint scan_up (fuel : nat) (a : list ResultPair) (l r i : Z) : option Z :=
  match fuel with
  | O => None
  | Datatypes.S f => b ← row_less a (i + 1) l;
      if (b : bool) then if i + 1 =? r then Some (i + 1) else scan_up f a l r (i + 1) else Some (i + 1)
  end.
Fixpoint scan_down (fuel : nat) (a : list ResultPair) (l j : Z) : option Z :=
  match fuel with
  | O => None
  | Datatypes.S f => b ← row_less a l (j - 1);
      if (b : bool) then if j - 1 =? l then Some (j - 1) else scan_down f a l (j - 1) else Some (j - 1)
  end.

(** The loop [while (true)]. *)
Fixpoint partition_rows (fuel : nat) (a : list ResultPair) (l r i j : Z) : option (list ResultPair * Z) :=
  match fuel with
  | O => None
  | Datatypes.S f =>
      i ← scan_up (S (length a)) a l r i;
      j ← scan_down (S (length a)) a l j;
      if j <=? i then Some (a, j) else a ← swap_rows a i j; partition_rows f a l r i j
  end.

Fixpoint sort_rows (fuel : nat) (a : list ResultPair) (l r : Z) : option (list ResultPair) :=
  if r <=? l then Some a else
  match fuel with
  | O => None
  | Datatypes.S f =>
      a ← swap_rows a l ((l + r) ÷ 2);
      '(a, j) ← partition_rows (S (length a)) a l r l (r + 1);
      a ← swap_rows a l j;
      a ← sort_rows f a l (j - 1);
      sort_rows f a (j + 1) r
  end.
End Sort.

(** [x.sort(0, x.result.size() - 1, pos)]. *)
Definition TempResult_sort (T : TempResult) (pos : list Z) : option TempResult :=
  rows ← sort_rows (id_cols T) pos (length (result T)) (result T) 0 (len (result T) - 1);
  Some (set_result T rows).

(** ** The two binary searches *)

Section Bounder.
Context (T : TempResult) (this_pos : list Z) (x : ResultPair) (x_id_cols : Z) (x_pos : list Z).

Definition compare_at (m : Z) : option Z :=
  y ← at_Z (result T) m; compareRow y (id_cols T) this_pos x x_id_cols x_pos.

Fixpoint left_loop (fuel : nat) (l r : Z) : option Z :=
  if l <? r then
    match fuel with
    | O => None
    | Datatypes.S f => let m := (l + r) ÷ 2 in
        c ← compare_at m; if 0 <=? c then left_loop f l m else left_loop f (m + 1) r
    end
  else Some l.
Fixpoint right_loop (fuel : nat) (l r : Z) : option Z :=
  if l <? r then
    match fuel with
    | O => None
    | Datatypes.S f => let m := (l + r) ÷ 2 + 1 in
        c ← compare_at m; if c <=? 0 then right_loop f m r else right_loop f l (m - 1)
    end
  else Some l.

Definition findLeftBounder : option Z :=
  let r := len (result T) - 1 in
  if r =? -1 then Some (-1) else
  l ← left_loop (length (result T)) 0 r;
  c ← compare_at l; Some (if c =? 0 then l else -1).
Definition findRightBounder : option Z :=
  let r := len (result T) - 1 in
  if r =? -1 then Some (-1) else
  l ← right_loop (length (result T)) 0 r;
  c ← compare_at l; Some (if c =? 0 then l else -1).
End Bounder.

(** ** New rows *)

Definition set_Z {A} (v : list A) (i : Z) (a : A) : option (list A) :=
  if (0 <=? i) && (i <? len v) then Some (<[Z.to_nat i := a]> v) else None.

(** [for (k = 0; k < cols; k++) v[pos[k]] = src[k]] *)
Fixpoint fill {A} (pos : list Z) (src : list A) (v : list A) : option (list A) :=
  match pos, src with
  | [], _ => Some v
  | p :: pos', s :: src' => v ← set_Z v p s; fill pos' src' v
  | _ :: _, [] => None
  end.

Section Operations.
Context (uninit : Z) (moved : string).

(** The cells of the ids of a new row of [r], copied from rows of the tables [src]. *)
Fixpoint fill_ids (r : TempResult) (src : list (TempResult * ResultPair)) (v : list Z) : option (list Z) :=
  match src with
  | [] => Some v
  | (T, row) :: src' => v ← fill (mapTo (id_varset T) (id_varset r)) (rp_id row) v; fill_ids r src' v
  end.
Fixpoint fill_strs (r : TempResult) (src : list (TempResult * ResultPair)) (v : list string) : option (list string) :=
  match src with
  | [] => Some v
  | (T, row) :: src' => v ← fill (mapTo (str_varset T) (str_varset r)) (rp_str row) v; fill_strs r src' v
  end.

(** [r.result.push_back(ResultPair())] and what fills it. *)
Definition new_row (r : TempResult) (src : list (TempResult * ResultPair)) : option ResultPair :=
  ids ← (if 0 <? id_cols r then fill_ids r src (replicate (Z.to_nat (id_cols r)) uninit) else Some []);
  strs ← (if 0 <? str_cols r then fill_strs r src (replicate (Z.to_nat (str_cols r)) ""%string) else Some []);
  Some (mk_ResultPair ids strs).

(** ** [doJoin] *)

(** The pairs of rows in the order of the two loops. *)
Definition pair_order (n m : nat) : list (nat * nat) :=
  if (n <? m)%nat then seq 0 n ≫= fun i => (fun j => (i, j)) <$> seq 0 m
  else seq 0 m ≫= fun j => (fun i => (i, j)) <$> seq 0 n.

Definition pair_ids (this x r : TempResult) (ij : nat * nat) : option (list Z) :=
  t ← result this !! ij.1; y ← result x !! ij.2;
  fill_ids r [(this, t); (x, y)] (replicate (Z.to_nat (id_cols r)) uninit).

(** A row whose first [cols] strings have been moved away. *)
Definition moved_from (cols : Z) (row : ResultPair) : ResultPair :=
  mk_ResultPair (rp_id row) (replicate (Z.to_nat cols) moved ++ drop (Z.to_nat cols) (rp_str row)).

(** The pass over the strings, which moves them out of both tables. *)
Fixpoint pair_strs (order : list (nat * nat)) (this x r : TempResult) (rows : list ResultPair)
    : option (list ResultPair * TempResult * TempResult) :=
  match order, rows with
  | (i, j) :: order', row :: rows' =>
      t ← result this !! i; y ← result x !! j;
      v ← fill_strs r [(this, t); (x, y)] (resize (Z.to_nat (str_cols r)) ""%string (rp_str row));
      let this := set_result this (<[i := moved_from (str_cols this) t]> (result this)) in
      let x := set_result x (<[j := moved_from (str_cols x) y]> (result x)) in
      '(rows, this, x) ← pair_strs order' this x r rows';
      Some (mk_ResultPair (rp_id row) v :: rows, this, x)
  | _, _ => Some ([], this, x)
  end.

Definition doJoin_product (this x r : TempResult) : option (TempResult * TempResult * TempResult) :=
  let n := length (result this) in
  let m := length (result x) in
  let rows := resize (n * m) (mk_ResultPair [] []) (result r) in
  let order := pair_order n m in
  rows ← (if 0 <? id_cols r
    then ids ← mapM (pair_ids this x r) order; Some (zip_with (fun row v => mk_ResultPair v (rp_str row)) rows ids)
    else Some rows);
  '(rows, this, x) ← (if 0 <? str_cols r then pair_strs order this x r rows else Some (rows, this, x));
  Some (this, x, set_result r rows).

(** The rows of the sorted table [x] from [left] to [right]. *)
Definition rows_between (x : TempResult) (left right : Z) : option (list ResultPair) :=
  mapM (fun j => at_Z (result x) j) (seqZ left (right - left + 1)).

(** One iteration of the loop over the rows [t] of [this]: the rows that are
    added to [r], none if [findLeftBounder] finds nothing. *)
Definition join_row (this x r : TempResult) (common : Varset) (t : ResultPair) : option (option (list ResultPair)) :=
  let common2this := mapTo common (getAllVarset this) in
  let common2x := mapTo common (getAllVarset x) in
  left ← findLeftBounder x common2x t (id_cols this) common2this;
  if left =? -1 then Some None else
  right ← findRightBounder x common2x t (id_cols this) common2this;
  ys ← rows_between x left right;
  rows ← mapM (fun y => new_row r [(this, t); (x, y)]) ys; Some (Some rows).

Definition rows_of (o : option (list ResultPair)) : list ResultPair := default [] o.

Definition doJoin (this x r : TempResult) : option (TempResult * TempResult * TempResult) :=
  let common := vs_mul (getAllVarset this) (getAllVarset x) in
  if bool_decide (common = []) then doJoin_product this x r
  else if bool_decide (result x = []) then Some (this, x, r)
  else
    x ← TempResult_sort x (mapTo common (getAllVarset x));
    rows ← mapM (join_row this x r common) (result this);
    Some (this, x, push_rows r (rows ≫= rows_of)).

(** ** [doUnion] *)

Definition doUnion (this r : TempResult) : option TempResult :=
  rows ← mapM (fun t => new_row r [(this, t)]) (result this); Some (push_rows r rows).

(** ** [doOptional]

    [rn] and [ra] are references to tables of the result, possibly to the same
    one, so they are positions in the vector [rs] of tables. *)

Definition is_found (o : option (list ResultPair)) : bool := match o with Some _ => true | None => false end.

(** [binding[i] = true] for the rows for which something was found. *)
Fixpoint mark_bound (found binding : list bool) : option (list bool) :=
  match found, binding with
  | [], _ => Some binding
  | true :: found', _ :: binding' => cons true <$> mark_bound found' binding'
  | false :: found', b :: binding' => cons b <$> mark_bound found' binding'
  | true :: _, [] => None
  | false :: found', [] => mark_bound found' []
  end.

(** The rows that were not bound, at the end. *)
Definition unbound_rows (this : TempResult) (binding : list bool) (rn : TempResult) : option (list ResultPair) :=
  mapM (fun t => new_row rn [(this, t)]) (snd <$> filter (fun bt => bt.1 = false) (zip binding (result this))).

Definition doOptional (binding : list bool) (this x : TempResult) (rs : list TempResult) (rn ra : nat) (add_no_binding : bool)
    : option (list bool * TempResult * TempResult * list TempResult) :=
  let common := vs_mul (getAllVarset this) (getAllVarset x) in
  '(binding, this, x, rs) ←
    (if bool_decide (common = []) then
      r ← rs !! ra;
      '(this, x, r) ← doJoin this x r;
      Some (replicate (length (result this)) true, this, x, <[ra := r]> rs)
    else if bool_decide (result x = []) then Some (binding, this, x, rs)
    else
      r ← rs !! ra;
      x ← TempResult_sort x (mapTo common (getAllVarset x));
      rows ← mapM (join_row this x r common) (result this);
      binding ← mark_bound (is_found <$> rows) binding;
      Some (binding, this, x, <[ra := push_rows r (rows ≫= rows_of)]> rs));
  if add_no_binding then
    if (length (result this) <=? length binding)%nat then
      r ← rs !! rn; rows ← unbound_rows this binding r;
      Some (binding, this, x, <[rn := push_rows r rows]> rs)
    else None
  else Some (binding, this, x, rs).

(** ** [doMinus] *)

(** The row [t] is kept if no row of [x] agrees with it. *)
Definition minus_row (this x : TempResult) (common : Varset) (t : ResultPair) : option bool :=
  left ← findLeftBounder x (mapTo common (getAllVarset x)) t (id_cols this) (mapTo common (getAllVarset this));
  Some (left =? -1).

Definition doMinus (this x r : TempResult) : option (TempResult * TempResult * TempResult) :=
  let r := if bool_decide (result x = []) then this else r in
  let common := vs_mul (getAllVarset this) (getAllVarset x) in
  if bool_decide (common = []) then r ← doUnion this r; Some (this, x, r)
  else if bool_decide (result x = []) then Some (this, x, r)
  else
    x ← TempResult_sort x (mapTo common (getAllVarset x));
    keep ← mapM (minus_row this x common) (result this);
    r ← doUnion (set_result this (snd <$> filter (fun bt => bt.1 = true) (zip keep (result this)))) r;
    Some (this, x, r).
End Operations.

(** ** [doFilter], [doHaving] and [doBind]

    [keep] is whether [doComp] gives the boolean true on a row; the columns, the
    dictionary and the expression it reads do not change in the loop. *)

Section Filter.
Context (keep : ResultPair -> bool).

Fixpoint filter_loop (fuel : nat) (limit_number : option Z) (original_size : Z) (a : list ResultPair) (i delete_num save_num : Z)
    : option (list ResultPair * Z) :=
  if match limit_number with Some l => save_num <? l | None => true end && (i <? original_size - delete_num) then
    match fuel with
    | O => None
    | Datatypes.S f =>
        row ← at_Z a i;
        if keep row then filter_loop f limit_number original_size a (i + 1) delete_num (save_num + 1)
        else a ← swap_rows a i (original_size - 1 - delete_num); filter_loop f limit_number original_size a i (delete_num + 1) save_num
    end
  else Some (a, save_num).

Definition doFilter (T : TempResult) (limit_number : Z) : option TempResult :=
  '(a, save_num) ← filter_loop (length (result T)) (Some limit_number) (len (result T)) (result T) 0 0 0;
  Some (set_result T (take (Z.to_nat save_num) a)).

Definition doHaving (no_children : bool) (T : TempResult) : option TempResult :=
  if no_children then Some T else
  '(a, save_num) ← filter_loop (length (result T)) None (len (result T)) (result T) 0 0 0;
  Some (set_result T (take (Z.to_nat save_num) a)).
End Filter.

(** [rep] is the text of the value of the expression on a row. *)
Definition doBind (var : string) (rep : ResultPair -> string) (T : TempResult) : TempResult :=
  mk_TempResult (id_varset T) (addVar (str_varset T) var)
    ((fun row => mk_ResultPair (rp_id row) (rp_str row ++ [rep row])) <$> result T).
