(* ===== verification/TempResultSort.v ===== *)
(** * The sort and the searches of tables

    [TempResult::sort] permutes the rows and puts them in order, and the two
    binary searches find the ends of the run of rows that compare equal to a given
    one, whenever [compareRow] decides a total preorder on the rows. *)

From stdpp Require Import strings.
From S2P Require Import Prelude TempResult.

(** ** Indices *)

Lemma at_Z_lookup {A} (l : list A) i : 0 <= i -> at_Z l i = l !! Z.to_nat i.
Proof. intros H. unfold at_Z. by rewrite (proj2 (Z.leb_le _ _) H). Qed.

Lemma at_Z_is_Some {A} (l : list A) i : 0 <= i < len l -> exists x, at_Z l i = Some x.
Proof. intros H. rewrite at_Z_lookup by lia. apply lookup_lt_is_Some. lia. Qed.

Lemma at_Z_Some {A} (l : list A) i x : at_Z l i = Some x -> 0 <= i < len l.
Proof.
  unfold at_Z. destruct (Z.leb_spec 0 i); [|done]. intros Hx. apply lookup_lt_Some in Hx. lia.
Qed.

Lemma at_Z_elem {A} (l : list A) i x : at_Z l i = Some x -> x ∈ l.
Proof. unfold at_Z. destruct (0 <=? i); [|done]. apply list_elem_of_lookup_2. Qed.

(** ** Rearrangements of a segment *)

(** [a'] has the rows of [a], moved only between the positions from [l] to [r]. *)
Definition rearranged (l r : Z) (a a' : list ResultPair) : Prop :=
  a' ≡ₚ a /\ (forall k, ~ l <= k <= r -> at_Z a' k = at_Z a k) /\
  (forall Q : ResultPair -> Prop, (forall k x, l <= k <= r -> at_Z a k = Some x -> Q x) ->
    forall k x, l <= k <= r -> at_Z a' k = Some x -> Q x).

Lemma rearranged_refl l r a : rearranged l r a a.
Proof. done. Qed.

Lemma rearranged_trans l r a b c : rearranged l r a b -> rearranged l r b c -> rearranged l r a c.
Proof.
  intros (P1&O1&Q1) (P2&O2&Q2). split; [by rewrite P2|]. split; [intros k Hk; by rewrite O2, O1|].
  intros Q H. apply Q2. by apply Q1.
Qed.

Lemma rearranged_widen l r l' r' a b : rearranged l' r' a b -> l <= l' -> r' <= r -> rearranged l r a b.
Proof.
  intros (P1&O1&Q1) Hl Hr. split; [done|]. split; [intros k Hk; apply O1; lia|].
  intros Q H k x Hk Hx. destruct (decide (l' <= k <= r')) as [Hin|Hout].
  - revert Hx. apply Q1; [|done]. intros k' x' Hk'. apply H. lia.
  - rewrite (O1 k Hout) in Hx. by apply (H k x).
Qed.

Lemma rearranged_length l r a b : rearranged l r a b -> length b = length a.
Proof. intros (P1&_). by rewrite P1. Qed.

Lemma rearranged_Forall P l r a b : rearranged l r a b -> Forall P a -> Forall P b.
Proof. intros (P1&_) H. by rewrite P1. Qed.

Lemma swap_rows_ok a l r i j : l <= i <= r -> l <= j <= r -> 0 <= l -> r < len a ->
  exists a', swap_rows a i j = Some a' /\ rearranged l r a a' /\ at_Z a' i = at_Z a j /\ at_Z a' j = at_Z a i /\
    (forall k, k <> i -> k <> j -> at_Z a' k = at_Z a k).
Proof.
  intros Hi Hj Hl Hr. destruct (at_Z_is_Some a i) as [x Hx]; [lia|]. destruct (at_Z_is_Some a j) as [y Hy]; [lia|].
  unfold swap_rows. rewrite Hx, Hy. cbn. eexists. split; [done|].
  rewrite at_Z_lookup in Hx, Hy by lia.
  assert (Ei : at_Z (<[Z.to_nat j:=x]> (<[Z.to_nat i:=y]> a)) i = Some y).
  { rewrite at_Z_lookup by lia. destruct (decide (Z.to_nat i = Z.to_nat j)) as [E|E].
    - rewrite E in *. rewrite list_lookup_insert_eq; [congruence|]. rewrite length_insert. by eapply lookup_lt_Some.
    - rewrite list_lookup_insert_ne by done. apply list_lookup_insert_eq. by eapply lookup_lt_Some. }
  assert (Ej : at_Z (<[Z.to_nat j:=x]> (<[Z.to_nat i:=y]> a)) j = Some x).
  { rewrite at_Z_lookup by lia. apply list_lookup_insert_eq. rewrite length_insert. by eapply lookup_lt_Some. }
  assert (Eo : forall k, k <> i -> k <> j -> at_Z (<[Z.to_nat j:=x]> (<[Z.to_nat i:=y]> a)) k = at_Z a k).
  { intros k Hki Hkj. unfold at_Z. destruct (Z.leb_spec 0 k); [|done]. rewrite !list_lookup_insert_ne by lia. done. }
  split; [|by split_and!].
  split_and!.
  - destruct (decide (Z.to_nat i = Z.to_nat j)) as [E|E].
    + rewrite E in *. rewrite list_insert_insert_eq, list_insert_id by congruence. done.
    + by apply Permutation_insert_swap.
  - intros k Hk. apply Eo; lia.
  - intros Q H k z Hk Hz. destruct (decide (k = j)) as [->|]; [|destruct (decide (k = i)) as [->|]].
    + rewrite Ej in Hz. apply (H i); [done|]. rewrite at_Z_lookup by lia. congruence.
    + rewrite Ei in Hz. apply (H j); [done|]. rewrite at_Z_lookup by lia. congruence.
    + rewrite Eo in Hz by done. by apply (H k).
Qed.

(** ** The order *)

Definition sign (c : comparison) : Z := match c with Lt => -1 | Eq => 0 | Gt => 1 end.

Record total_preorder {A} (cmp : A -> A -> comparison) : Prop := {
  tp_opp : forall x y, cmp y x = CompOpp (cmp x y);
  tp_trans : forall x y z, cmp x y <> Gt -> cmp y z <> Gt -> cmp x z <> Gt }.
Arguments tp_opp {A cmp}.
Arguments tp_trans {A cmp}.

Section Sort.
Context (c : Z) (pos : list Z) (P : ResultPair -> Prop) (cmp : ResultPair -> ResultPair -> comparison) (Hcmp : total_preorder cmp).
Hypothesis Hrow : forall x y, P x -> P y -> compareRow x c pos y c pos = Some (sign (cmp x y)).

Notation "x ⪯ y" := (cmp x y <> Gt) (at level 70).

Lemma tp_refl x : x ⪯ x.
Proof using Hcmp. pose proof (tp_opp Hcmp x x) as H. destruct (cmp x x); done. Qed.

Lemma tp_not_lt x y : cmp x y <> Lt -> y ⪯ x.
Proof using Hcmp. rewrite (tp_opp Hcmp x y). by destruct (cmp x y). Qed.

Lemma row_less_ok a i j x y : Forall P a -> at_Z a i = Some x -> at_Z a j = Some y ->
  row_less c pos a i j = Some (bool_decide (cmp x y = Lt)).
Proof using Hrow.
  intros HP Hx Hy. unfold row_less. rewrite Hx, Hy. cbn. rewrite Forall_forall in HP.
  rewrite Hrow by (apply HP; by eapply at_Z_elem). cbn. by destruct (cmp x y).
Qed.

Lemma scan_up_ok fuel a l r i m : Forall P a -> at_Z a l = Some m -> 0 <= l <= i -> i < r < len a -> r - i <= Z.of_nat fuel ->
  exists i', scan_up c pos fuel a l r i = Some i' /\ i < i' <= r /\
    (forall k x, i < k < i' -> at_Z a k = Some x -> x ⪯ m) /\
    (i' = r \/ forall x, at_Z a i' = Some x -> m ⪯ x) /\
    (forall x, i' = r -> at_Z a r = Some x -> x ⪯ m \/ m ⪯ x).
Proof using Hrow Hcmp.
  intros HP Hm. revert i. induction fuel as [|fuel IH]; intros i Hl Hi Hf; [lia|]. cbn.
  destruct (at_Z_is_Some a (i + 1)) as [x Hx]; [lia|]. rewrite (row_less_ok a (i + 1) l x m) by done. cbn.
  destruct (bool_decide_reflect (cmp x m = Lt)) as [E|E].
  - destruct (Z.eqb_spec (i + 1) r) as [Er|Er].
    + eexists. split; [done|]. split; [lia|]. split; [intros k y Hk; lia|]. split; [by left|].
      intros y _ Hy. left. assert (y = x) as -> by congruence. by rewrite E.
    + destruct (IH (i + 1)) as (i'&Hs&Hi'&H1&H2&H3); [lia..|]. exists i'. split; [done|]. split; [lia|].
      split; [|done]. intros k y Hk Hy. destruct (decide (k = i + 1)) as [->|]; [|apply (H1 k y); [lia|done]].
      assert (y = x) as -> by congruence. by rewrite E.
  - eexists. split; [done|]. split; [lia|]. split; [intros k y Hk; lia|].
    split; [right|]; intros y; intros; (assert (y = x) as -> by congruence); [|right]; by apply tp_not_lt.
Qed.

Lemma scan_down_ok fuel a l j m : Forall P a -> at_Z a l = Some m -> 0 <= l < j -> j <= len a -> j - l <= Z.of_nat fuel ->
  exists j', scan_down c pos fuel a l j = Some j' /\ l <= j' < j /\
    (forall k x, j' < k < j -> at_Z a k = Some x -> m ⪯ x) /\ (forall x, at_Z a j' = Some x -> x ⪯ m).
Proof using Hrow Hcmp.
  intros HP Hm. revert j. induction fuel as [|fuel IH]; intros j Hl Hj Hf; [lia|]. cbn.
  destruct (at_Z_is_Some a (j - 1)) as [x Hx]; [lia|]. rewrite (row_less_ok a l (j - 1) m x) by done. cbn.
  destruct (bool_decide_reflect (cmp m x = Lt)) as [E|E].
  - destruct (Z.eqb_spec (j - 1) l) as [Er|Er].
    + exfalso. assert (m = x) as -> by congruence. pose proof (tp_opp Hcmp x x) as Ho. by rewrite E in Ho.
    + destruct (IH (j - 1)) as (j'&Hs&Hj'&H1&H2); [lia..|]. exists j'. split; [done|]. split; [lia|].
      split; [|done]. intros k y Hk Hy. destruct (decide (k = j - 1)) as [->|]; [|apply (H1 k y); [lia|done]].
      assert (y = x) as -> by congruence. by rewrite E.
  - eexists. split; [done|]. split; [lia|]. split; [intros k y Hk; lia|].
    intros y Hy. assert (y = x) as -> by congruence. by apply tp_not_lt.
Qed.

Lemma partition_rows_ok fuel a l r i j m : Forall P a -> at_Z a l = Some m -> 0 <= l <= i -> i < r < len a -> i < j <= r + 1 -> j - i <= Z.of_nat fuel ->
  (forall k x, l < k <= i -> at_Z a k = Some x -> x ⪯ m) -> (forall k x, j <= k <= r -> at_Z a k = Some x -> m ⪯ x) ->
  exists a' j', partition_rows c pos fuel a l r i j = Some (a', j') /\ rearranged (l + 1) r a a' /\ l <= j' <= r /\
    (forall k x, l < k <= j' -> at_Z a' k = Some x -> x ⪯ m) /\ (forall k x, j' < k <= r -> at_Z a' k = Some x -> m ⪯ x).
Proof using Hrow Hcmp.
  revert a i j. induction fuel as [|fuel IH]; intros a i j HP Hm Hl Hi Hj Hf HL HR; [lia|]. cbn [partition_rows].
  destruct (scan_up_ok (S (length a)) a l r i m) as (i'&Ei&Hi'&U1&U2&U3); [done|done|lia..|].
  destruct (scan_down_ok (S (length a)) a l j m) as (j'&Ej&Hj'&D1&D2); [done|done|lia..|].
  rewrite Ei. cbn -[scan_down]. rewrite Ej. cbn -[scan_down].
  destruct (Z.leb_spec j' i') as [E|E].
  - exists a, j'. split; [done|]. split; [apply rearranged_refl|]. split; [lia|]. split; intros k x Hk Hx.
    + destruct (decide (k <= i)); [apply (HL k x); [lia|done]|]. destruct (decide (k = j')) as [->|]; [by apply D2|]. apply (U1 k x); [lia|done].
    + destruct (decide (j <= k)); [apply (HR k x); [lia|done]|]. apply (D1 k x); [lia|done].
  - assert (Hlt : i' < r) by lia. destruct U2 as [->|U2]; [lia|].
    destruct (swap_rows_ok a (l + 1) r i' j') as (a'&Es&Ha&Hai&Haj&Hao); [lia..|]. rewrite Es. cbn.
    destruct (IH a' i' j') as (a2&j2&Ep&Hr&Hj2&H1&H2).
    + by eapply rearranged_Forall.
    + by rewrite Hao by lia.
    + lia.
    + rewrite (rearranged_length _ _ _ _ Ha). lia.
    + lia.
    + lia.
    + intros k x Hk Hx. destruct (decide (k = i')) as [->|]; [rewrite Hai in Hx; by apply D2|]. rewrite Hao in Hx by lia.
      destruct (decide (k <= i)); [apply (HL k x); [lia|done]|apply (U1 k x); [lia|done]].
    + intros k x Hk Hx. destruct (decide (k = j')) as [->|]; [rewrite Haj in Hx; by apply U2|]. rewrite Hao in Hx by lia.
      destruct (decide (j <= k)); [apply (HR k x); [lia|done]|apply (D1 k x); [lia|done]].
    + exists a2, j2. split; [done|]. split; [by eapply rearranged_trans|done].
Qed.

Definition sorted_rows (l r : Z) (a : list ResultPair) : Prop :=
  forall i j x y, l <= i <= j -> j <= r -> at_Z a i = Some x -> at_Z a j = Some y -> x ⪯ y.

Lemma sort_rows_ok fuel a l r : Forall P a -> 0 <= l -> r < len a -> r - l <= Z.of_nat fuel ->
  exists a', sort_rows c pos fuel a l r = Some a' /\ rearranged l r a a' /\ sorted_rows l r a'.
Proof using Hrow Hcmp.
  revert a l r. induction fuel as [|fuel IH]; intros a l r HP Hl Hr Hf.
  { cbn. rewrite (proj2 (Z.leb_le _ _)) by lia. exists a. split; [done|]. split; [apply rearranged_refl|].
    intros i j x y Hi Hj Hx Hy. assert (i = j) as -> by lia. assert (x = y) as -> by congruence. apply tp_refl. }
  cbn [sort_rows]. destruct (Z.leb_spec r l) as [E|E].
  { exists a. split; [done|]. split; [apply rearranged_refl|].
    intros i j x y Hi Hj Hx Hy. assert (i = j) as -> by lia. assert (x = y) as -> by congruence. apply tp_refl. }
  assert (Hmid : l <= (l + r) ÷ 2 <= r) by (rewrite Z.quot_div_nonneg by lia; split; [apply Z.div_le_lower_bound|apply Z.div_le_upper_bound]; lia).
  destruct (swap_rows_ok a l r l ((l + r) ÷ 2)) as (a1&E1&R1&_); [lia..|]. rewrite E1. cbn -[partition_rows].
  pose proof (rearranged_length _ _ _ _ R1) as N1. pose proof (rearranged_Forall P _ _ _ _ R1 HP) as P1.
  destruct (at_Z_is_Some a1 l) as [m Hm]; [lia|].
  destruct (partition_rows_ok (S (length a1)) a1 l r l (r + 1) m) as (a2&j&E2&R2&Hj&HL&HR); [done|done|lia..| | |];
    [intros k x Hk; lia|intros k x Hk; lia|]. rewrite E2. cbn -[partition_rows].
  assert (Hm2 : at_Z a2 l = Some m) by (rewrite <- Hm; apply R2; lia).
  apply (rearranged_widen l r) in R2; [|lia..]. pose proof (rearranged_length _ _ _ _ R2) as N2. pose proof (rearranged_Forall P _ _ _ _ R2 P1) as P2.
  destruct (swap_rows_ok a2 l r l j) as (a3&E3&R3&Hl3&Hj3&Ho3); [lia..|]. rewrite E3. cbn.
  pose proof (rearranged_length _ _ _ _ R3) as N3. pose proof (rearranged_Forall P _ _ _ _ R3 P2) as P3.
  assert (L3 : forall k x, l <= k <= j - 1 -> at_Z a3 k = Some x -> x ⪯ m).
  { intros k x Hk Hx. destruct (decide (k = l)) as [->|]; [rewrite Hl3 in Hx; apply (HL j); [lia|done]|].
    rewrite Ho3 in Hx by lia. apply (HL k); [lia|done]. }
  assert (G3 : forall k x, j + 1 <= k <= r -> at_Z a3 k = Some x -> m ⪯ x).
  { intros k x Hk Hx. rewrite Ho3 in Hx by lia. apply (HR k); [lia|done]. }
  destruct (IH a3 l (j - 1)) as (a4&E4&R4&S4); [done|lia..|]. rewrite E4. cbn.
  pose proof (rearranged_length _ _ _ _ R4) as N4. pose proof (rearranged_Forall P _ _ _ _ R4 P3) as P4.
  destruct (IH a4 (j + 1) r) as (a5&E5&R5&S5); [done|lia..|]. rewrite E5. exists a5. split; [done|].
  split; [eapply rearranged_trans; [exact R1|]; eapply rearranged_trans; [exact R2|]; eapply rearranged_trans; [exact R3|];
    eapply rearranged_trans; [apply (rearranged_widen l r) in R4; [exact R4|lia..]|apply (rearranged_widen l r) in R5; [exact R5|lia..]]|].
  assert (L5 : forall k x, l <= k <= j - 1 -> at_Z a5 k = Some x -> x ⪯ m).
  { intros k x Hk. destruct R5 as (_&O5&_). rewrite O5 by lia. revert k x Hk. by apply R4. }
  assert (G5 : forall k x, j + 1 <= k <= r -> at_Z a5 k = Some x -> m ⪯ x).
  { apply R5. intros k x Hk. destruct R4 as (_&O4&_). rewrite O4 by lia. by apply G3. }
  assert (M5 : at_Z a5 j = Some m).
  { destruct R5 as (_&O5&_), R4 as (_&O4&_). rewrite O5, O4, Hj3 by lia. done. }
  intros p q x y Hp Hq Hx Hy.
  destruct (decide (q <= j - 1)) as [Hqj|Hqj].
  { destruct R5 as (_&O5&_). rewrite O5 in Hx, Hy by lia. apply (S4 p q x y); [lia|lia|done|done]. }
  destruct (decide (j + 1 <= p)) as [Hpj|Hpj]; [apply (S5 p q x y); [lia|lia|done|done]|].
  apply (tp_trans Hcmp x m y).
  - destruct (decide (p = j)) as [->|]; [assert (x = m) as -> by congruence; apply tp_refl|apply (L5 p); [lia|done]].
  - destruct (decide (q = j)) as [->|]; [assert (y = m) as -> by congruence; apply tp_refl|apply (G5 q); [lia|done]].
Qed.
End Sort.

(** ** The searches *)

Lemma mapM_at_Z {A} (a : list A) l n : (l + n <= length a)%nat -> mapM (at_Z a) (seqZ (Z.of_nat l) (Z.of_nat n)) = Some (take n (drop l a)).
Proof.
  revert l. induction n as [|n IH]; intros l H; [done|].
  rewrite seqZ_cons by lia. cbn [mapM]. rewrite at_Z_lookup, Nat2Z.id by lia.
  destruct (lookup_lt_is_Some_2 a l) as [x Hx]; [lia|]. rewrite Hx. cbn.
  replace (Z.succ (Z.of_nat l)) with (Z.of_nat (S l)) by lia. replace (Z.pred (Z.of_nat (S n))) with (Z.of_nat n) by lia.
  rewrite IH by lia. cbn. by rewrite (drop_S a x l).
Qed.

Section Bounder.
Context (T : TempResult) (this_pos : list Z) (x : ResultPair) (x_id_cols : Z) (x_pos : list Z) (cx : ResultPair -> comparison).
Hypothesis Hcx : forall y, y ∈ result T -> compareRow y (id_cols T) this_pos x x_id_cols x_pos = Some (sign (cx y)).
Hypothesis Hlt : forall i j y z, i <= j -> at_Z (result T) i = Some y -> at_Z (result T) j = Some z -> cx z = Lt -> cx y = Lt.
Hypothesis Hgt : forall i j y z, i <= j -> at_Z (result T) i = Some y -> at_Z (result T) j = Some z -> cx y = Gt -> cx z = Gt.

Lemma compare_at_ok m y : at_Z (result T) m = Some y -> compare_at T this_pos x x_id_cols x_pos m = Some (sign (cx y)).
Proof using Hcx. intros H. unfold compare_at. rewrite H. cbn. apply Hcx. by eapply at_Z_elem. Qed.

Lemma half_between l r : 0 <= l < r -> l <= (l + r) ÷ 2 < r.
Proof using Type. intros H. rewrite Z.quot_div_nonneg by lia. split; [apply Z.div_le_lower_bound|apply Z.div_lt_upper_bound]; lia. Qed.

Lemma left_loop_ok fuel l r : 0 <= l <= r -> r < len (result T) -> r - l <= Z.of_nat fuel ->
  (forall k y, k < l -> at_Z (result T) k = Some y -> cx y = Lt) ->
  (r = len (result T) - 1 \/ forall y, at_Z (result T) r = Some y -> cx y <> Lt) ->
  exists m, left_loop T this_pos x x_id_cols x_pos fuel l r = Some m /\ 0 <= m < len (result T) /\
    (forall k y, k < m -> at_Z (result T) k = Some y -> cx y = Lt) /\
    (m = len (result T) - 1 \/ forall y, at_Z (result T) m = Some y -> cx y <> Lt).
Proof using Hcx Hlt.
  revert l r. induction fuel as [|fuel IH]; intros l r Hl Hr Hf HL HR; cbn [left_loop];
    (destruct (Z.ltb_spec l r) as [E|E]; [|assert (l = r) as -> by lia; exists r; split_and!; (done || lia)]); [lia|].
  pose proof (half_between l r). destruct (at_Z_is_Some (result T) ((l + r) ÷ 2)) as [y Hy]; [lia|].
  rewrite (compare_at_ok _ y) by done. cbn.
  destruct (cx y) eqn:Ey; cbn; apply IH; try lia; try done.
  - right. intros z Hz. congruence.
  - intros k z Hk Hz. apply (Hlt k ((l + r) ÷ 2) z y); [lia|done..].
  - right. intros z Hz. congruence.
Qed.

Lemma right_loop_ok fuel l r : 0 <= l <= r -> r < len (result T) -> r - l <= Z.of_nat fuel ->
  (forall k y, r < k -> at_Z (result T) k = Some y -> cx y = Gt) ->
  (l = 0 \/ forall y, at_Z (result T) l = Some y -> cx y <> Gt) ->
  exists m, right_loop T this_pos x x_id_cols x_pos fuel l r = Some m /\ 0 <= m < len (result T) /\
    (forall k y, m < k -> at_Z (result T) k = Some y -> cx y = Gt) /\
    (m = 0 \/ forall y, at_Z (result T) m = Some y -> cx y <> Gt).
Proof using Hcx Hgt.
  revert l r. induction fuel as [|fuel IH]; intros l r Hl Hr Hf HR HL; cbn [right_loop];
    (destruct (Z.ltb_spec l r) as [E|E]; [|assert (l = r) as -> by lia; exists r; split_and!; (done || lia)]); [lia|].
  pose proof (half_between l r). destruct (at_Z_is_Some (result T) ((l + r) ÷ 2 + 1)) as [y Hy]; [lia|].
  rewrite (compare_at_ok _ y) by done. cbn.
  destruct (cx y) eqn:Ey; cbn; apply IH; try lia; try done.
  - right. intros z Hz. congruence.
  - right. intros z Hz. congruence.
  - intros k z Hk Hz. apply (Hgt ((l + r) ÷ 2 + 1) k y z); [lia|done..].
Qed.

(** The run of rows that compare equal to [x]. *)
Lemma bounders_ok : exists left, findLeftBounder T this_pos x x_id_cols x_pos = Some left /\
  (left = -1 /\ filter (fun y => cx y = Eq) (result T) = [] \/
   left <> -1 /\ filter (fun y => cx y = Eq) (result T) <> [] /\
   exists right, findRightBounder T this_pos x x_id_cols x_pos = Some right /\
     rows_between T left right = Some (filter (fun y => cx y = Eq) (result T))).
Proof using Hcx Hlt Hgt.
  unfold findLeftBounder, findRightBounder.
  destruct (Z.eqb_spec (len (result T) - 1) (-1)) as [E|E].
  { exists (-1). split; [done|]. left. split; [done|]. by rewrite (nil_length_inv (result T)) by lia. }
  destruct (left_loop_ok (length (result T)) 0 (len (result T) - 1)) as (l&E1&Hl&L1&L2); [lia..| |by left|].
  { intros k y Hk Hy. apply at_Z_Some in Hy. lia. }
  rewrite E1. cbn. destruct (at_Z_is_Some (result T) l) as [y Hy]; [lia|]. rewrite (compare_at_ok _ y) by done. cbn.
  destruct (cx y) eqn:Ey; cbn.
  - exists l. split; [done|]. right. split; [lia|]. split.
    { intros Hn. apply at_Z_elem in Hy. assert (Hin : y ∈ filter (fun y => cx y = Eq) (result T)) by by apply list_elem_of_filter.
      rewrite Hn in Hin. set_solver. }
    destruct (right_loop_ok (length (result T)) 0 (len (result T) - 1)) as (r&E2&Hr&R1&R2); [lia..| |by left|].
    { intros k z Hk Hz. apply at_Z_Some in Hz. lia. }
    rewrite E2. cbn. destruct (at_Z_is_Some (result T) r) as [z Hz]; [lia|]. rewrite (compare_at_ok _ z) by done. cbn.
    assert (Hlr : l <= r). { destruct (decide (l <= r)); [done|]. rewrite (R1 l y) in Ey by (lia || done). done. }
    assert (Ez : cx z = Eq).
    { destruct (cx z) eqn:Ez; [done| |].
      - rewrite (Hlt l r y z) in Ey by done. done.
      - destruct R2 as [->|R2]; [|by destruct (R2 z)]. assert (l = 0) as -> by lia. congruence. }
    rewrite Ez. cbn. exists r. split; [done|]. unfold rows_between.
    replace l with (Z.of_nat (Z.to_nat l)) at 1 by lia. replace (r - l + 1) with (Z.of_nat (Z.to_nat (r - l + 1))) by lia.
    rewrite mapM_at_Z by lia. f_equal. set (lo := Z.to_nat l). set (n := Z.to_nat (r - l + 1)).
    rewrite <- (take_drop lo (result T)) at 2. rewrite <- (take_drop n (drop lo (result T))) at 2. rewrite !filter_app.
    rewrite (filter_none _ (take lo _)), (filter_all _ (take n _)), (filter_none _ (drop n _)); [by rewrite app_nil_r|..]; apply Forall_lookup; intros i w Hw.
    + rewrite !lookup_drop in Hw. rewrite (R1 (l + Z.of_nat n + Z.of_nat i) w); [done|lia|]. rewrite at_Z_lookup by lia. rewrite <- Hw. f_equal. lia.
    + apply lookup_take_Some in Hw as [Hw Hi]. rewrite lookup_drop in Hw.
      assert (Hw' : at_Z (result T) (l + Z.of_nat i) = Some w) by (rewrite at_Z_lookup by lia; rewrite <- Hw; f_equal; lia).
      destruct (cx w) eqn:Ew; [done| |].
      * rewrite (Hlt l (l + Z.of_nat i) y w) in Ey by (lia || done). done.
      * rewrite (Hgt (l + Z.of_nat i) r w z) in Ez by (lia || done). done.
    + apply lookup_take_Some in Hw as [Hw Hi]. rewrite (L1 (Z.of_nat i) w); [done|lia|]. rewrite at_Z_lookup, Nat2Z.id by lia. done.
  - exists (-1). split; [done|]. left. split; [done|]. apply filter_none. apply Forall_lookup. intros i w Hw.
    assert (Hw' : at_Z (result T) (Z.of_nat i) = Some w) by (by rewrite at_Z_lookup, Nat2Z.id by lia).
    destruct L2 as [->|L2]; [|by destruct (L2 y)]. pose proof (at_Z_Some _ _ _ Hw').
    rewrite (Hlt (Z.of_nat i) (len (result T) - 1) w y) by (lia || done). done.
  - exists (-1). split; [done|]. left. split; [done|]. apply filter_none. apply Forall_lookup. intros i w Hw.
    assert (Hw' : at_Z (result T) (Z.of_nat i) = Some w) by (by rewrite at_Z_lookup, Nat2Z.id by lia).
    destruct (decide (Z.of_nat i < l)); [by rewrite (L1 _ _ l0 Hw')|]. rewrite (Hgt l (Z.of_nat i) y w) by (lia || done). done.
Qed.
End Bounder.
