(* ===== verification/TempResultSpec.v ===== *)
(** * Tables as bags of solutions

    A row of a table is a solution mapping, a finite map from variables to values,
    and a table is the list of the mappings of its rows, up to their order.  The
    operations of the SPARQL algebra on such lists ([Join], [LeftJoin], [Minus])
    are the reference; the operations of [TempResult] compute them. *)

From stdpp Require Import strings.
From S2P Require Import Prelude TempResult TempResultSort.

(** ** The algebra *)

Section Algebra.
Context {V : Type} `{EqDecision V}.
Local Abbreviation sol := (gmap string V).

(** Two mappings share a variable. *)
Definition overlap (a b : sol) : Prop := exists v, is_Some (a !! v) /\ is_Some (b !! v).

#[global] Instance overlap_decision (a b : sol) : Decision (overlap a b).
Proof.
  refine (cast_if (decide (dom a ∩ dom b <> ∅))).
  - apply set_choose_L in n as [v Hv]. exists v. rewrite elem_of_intersection, !elem_of_dom in Hv. done.
  - intros [v Hv]. apply n. intros E. apply (not_elem_of_empty (C := gset string) v). rewrite <- E.
    by rewrite elem_of_intersection, !elem_of_dom.
Defined.

Definition Join (A B : list sol) : list sol := A ≫= (fun a : sol => (a ∪.) <$> filter (map_agree a) B).
Definition LeftJoin (A B : list sol) : list sol := Join A B ++ filter (fun a => filter (map_agree a) B = []) A.
Definition Minus (A B : list sol) : list sol := filter (fun a => filter (fun b => map_agree a b /\ overlap a b) B = []) A.

Lemma Join_app_l A A' B : Join (A ++ A') B = Join A B ++ Join A' B.
Proof. apply bind_app. Qed.

Lemma Join_cons a A B : Join (a :: A) B = ((a ∪.) <$> filter (map_agree a) B) ++ Join A B.
Proof. done. Qed.

Lemma Join_nil_r A : Join A [] = [].
Proof. induction A; [done|]. by rewrite Join_cons, IHA. Qed.

#[global] Instance Join_perm : Proper ((≡ₚ) ==> (≡ₚ) ==> (≡ₚ)) Join.
Proof.
  intros A A' HA B B' HB. unfold Join. rewrite HA. clear HA.
  induction A' as [|a A' IH]; [done|]. cbn. by rewrite HB, IH.
Qed.

Lemma Join_app_r A B B' : Join A (B ++ B') ≡ₚ Join A B ++ Join A B'.
Proof.
  induction A as [|a A IH]; [done|]. rewrite !Join_cons, IH, filter_app, fmap_app. solve_Permutation.
Qed.
End Algebra.

(** Generic facts on lists and maps. *)

Lemma filter_image {A B} (f : A -> B) (P : B -> Prop) `{forall x, Decision (P x)} (l : list A) :
  filter P (f <$> l) = f <$> filter (fun x => P (f x)) l.
Proof.
  induction l as [|x l IH]; [done|]. rewrite fmap_cons, !filter_cons, IH. by destruct (decide (P (f x))).
Qed.

Lemma agree_union_comm {V} (a b : gmap string V) : map_agree a b -> b ∪ a = a ∪ b.
Proof.
  rewrite map_agree_spec. intros H. apply map_eq. intros v. rewrite !lookup_union. specialize (H v).
  destruct (a !! v), (b !! v); simpl; try done. by rewrite (H _ _ eq_refl eq_refl).
Qed.

(** ** Solutions of rows *)

Inductive value := VId (z : Z) | VStr (s : string).
#[global] Instance value_eq_dec : EqDecision value.
Proof. solve_decision. Defined.

Definition zmap {A} (vs : Varset) (l : list A) : gmap string A := list_to_map (zip vs l).

Definition row_sol (T : TempResult) (row : ResultPair) : gmap string value :=
  (VId <$> zmap (id_varset T) (rp_id row)) ∪ (VStr <$> zmap (str_varset T) (rp_str row)).

Definition sols (T : TempResult) : list (gmap string value) := row_sol T <$> result T.

Definition row_ok (T : TempResult) (row : ResultPair) : Prop :=
  length (rp_id row) = length (id_varset T) /\ length (rp_str row) = length (str_varset T).

(** A well-formed table: no variable has two columns, and every row has a cell for each. *)
Record table_ok (T : TempResult) : Prop := {
  ok_vars : NoDup (id_varset T ++ str_varset T);
  ok_rows : Forall (row_ok T) (result T) }.

Definition vars (T : TempResult) : Varset := id_varset T ++ str_varset T.

Lemma zmap_None {A} vs (l : list A) v : v ∉ vs -> zmap vs l !! v = None.
Proof.
  intros H. destruct (zmap vs l !! v) as [x|] eqn:E; [|done]. apply elem_of_list_to_map_2 in E.
  by apply elem_of_zip_l in E.
Qed.

Lemma zmap_cons {A} v vs (x : A) l : zmap (v :: vs) (x :: l) = <[v := x]> (zmap vs l).
Proof. done. Qed.

Lemma zmap_lookup {A} vs (l : list A) (k : nat) v x : NoDup vs -> vs !! k = Some v -> l !! k = Some x -> zmap vs l !! v = Some x.
Proof.
  revert l k. induction vs as [|w vs IH]; intros l k Hn Hv Hx; [done|]. apply NoDup_cons in Hn as [Hw Hn].
  destruct l as [|y l]; [by destruct k|]. rewrite zmap_cons. destruct k as [|k]; simpl in *; simplify_eq.
  - by rewrite lookup_insert_eq.
  - rewrite lookup_insert_ne; [by eapply IH|]. intros ->. by eapply Hw, list_elem_of_lookup_2.
Qed.

Lemma zmap_is_Some {A} vs (l : list A) v : length l = length vs -> NoDup vs -> v ∈ vs -> is_Some (zmap vs l !! v).
Proof.
  intros Hl Hn Hv. apply list_elem_of_lookup in Hv as [k Hk].
  destruct (lookup_lt_is_Some_2 l k) as [x Hx]; [rewrite Hl; by eapply lookup_lt_Some|].
  exists x. by eapply zmap_lookup.
Qed.

Lemma zmap_insert {A} vs (l : list A) (k : nat) v x : NoDup vs -> length l = length vs -> vs !! k = Some v ->
  zmap vs (<[k := x]> l) = <[v := x]> (zmap vs l).
Proof.
  revert l k. induction vs as [|w vs IH]; intros l k Hn Hl Hv; [done|]. apply NoDup_cons in Hn as [Hw Hn].
  destruct l as [|y l]; [done|]. destruct k as [|k]; simpl in *; simplify_eq.
  - rewrite !zmap_cons. by rewrite insert_insert_eq.
  - rewrite !zmap_cons, IH by done. apply insert_insert_ne. intros ->. by eapply Hw, list_elem_of_lookup_2.
Qed.

(** ** Filling new rows *)

Lemma fill_ok {A} vs ws (src v : list A) : NoDup vs -> NoDup ws -> vs ⊆ ws -> length src = length vs -> length v = length ws ->
  exists v', fill (mapTo vs ws) src v = Some v' /\ length v' = length ws /\ zmap ws v' = zmap vs src ∪ zmap ws v.
Proof.
  intros Hv Hw. revert src v. induction vs as [|x vs IH]; intros src v Hs Hl Hl'.
  { destruct src; [|done]. exists v. split_and!; [done|done|]. symmetry. apply map_empty_union. }
  destruct src as [|s src]; [done|]. apply NoDup_cons in Hv as [Hx Hv].
  destruct (proj1 (list_elem_of_lookup ws x)) as [k Hk]; [set_solver|]. pose proof (lookup_lt_Some _ _ _ Hk).
  cbn [mapTo fmap list_fmap fill]. rewrite (map_pos_lookup x ws k) by done. unfold set_Z.
  rewrite (proj2 (Z.leb_le _ _)), (proj2 (Z.ltb_lt _ _)) by lia. cbn [andb mbind option_bind].
  rewrite Z.add_0_l, Nat2Z.id.
  destruct (IH Hv src (<[k := s]> v)) as (v'&E&L&Z); [set_solver|simpl in *; lia|by rewrite length_insert|].
  exists v'. split; [exact E|]. split; [done|]. rewrite Z, (zmap_insert ws v k x), zmap_cons by done.
  rewrite <- insert_union_r by (by apply zmap_None). by rewrite insert_union_l.
Qed.

(** What is left of the initial contents once every column has been written. *)
Lemma union_covered {A} (m n : gmap string A) : (forall v, is_Some (n !! v) -> is_Some (m !! v)) -> m ∪ n = m.
Proof.
  intros H. apply map_eq. intros v. rewrite lookup_union. specialize (H v).
  destruct (m !! v) eqn:E, (n !! v); simpl; try done. destruct H; [eauto|done].
Qed.

Lemma fill1_ok {A} vs ws (src v : list A) : NoDup vs -> NoDup ws -> (forall x, x ∈ ws <-> x ∈ vs) -> length src = length vs -> length v = length ws ->
  exists v', fill (mapTo vs ws) src v = Some v' /\ length v' = length ws /\ zmap ws v' = zmap vs src.
Proof.
  intros Hv Hw He Hl Hl'. destruct (fill_ok vs ws src v) as (v'&E&L&Z); [done|done|intros x; by rewrite He|done|done|].
  exists v'. split_and!; [done..|]. rewrite Z. apply union_covered. intros x Hx. apply zmap_is_Some; [done..|].
  apply He. destruct (decide (x ∈ ws)) as [|Hn]; [done|]. rewrite zmap_None in Hx by done. by destruct Hx.
Qed.

Lemma fill2_ok {A} vs1 vs2 ws (s1 s2 v : list A) : NoDup vs1 -> NoDup vs2 -> NoDup ws -> (forall x, x ∈ ws <-> x ∈ vs1 \/ x ∈ vs2) ->
  length s1 = length vs1 -> length s2 = length vs2 -> length v = length ws ->
  exists v1 v', fill (mapTo vs1 ws) s1 v = Some v1 /\ fill (mapTo vs2 ws) s2 v1 = Some v' /\ length v' = length ws /\
    zmap ws v' = zmap vs2 s2 ∪ zmap vs1 s1.
Proof.
  intros Hv1 Hv2 Hw He L1 L2 L. destruct (fill_ok vs1 ws s1 v) as (v1&E1&M1&Z1); [done|done|intros x; rewrite He; by left|done|done|].
  destruct (fill_ok vs2 ws s2 v1) as (v'&E2&M2&Z2); [done|done|intros x; rewrite He; by right|done|done|].
  exists v1, v'. split_and!; [done..|]. rewrite Z2, Z1, (assoc_L (∪)). apply union_covered. intros x Hx.
  destruct (decide (x ∈ ws)) as [Hin|Hn]; [|rewrite zmap_None in Hx by done; by destruct Hx].
  rewrite lookup_union. apply He in Hin as [Hin|Hin].
  - destruct (zmap_is_Some vs1 s1 x L1 Hv1 Hin) as [y ->]. destruct (zmap vs2 s2 !! x); eauto.
  - destruct (zmap_is_Some vs2 s2 x L2 Hv2 Hin) as [y ->]. destruct (zmap vs1 s1 !! x); eauto.
Qed.

(** Columns of the two kinds of a table, and of two tables. *)
Definition same_vars (r T : TempResult) : Prop :=
  (forall v, v ∈ id_varset r <-> v ∈ id_varset T) /\ (forall v, v ∈ str_varset r <-> v ∈ str_varset T).
Definition join_vars (r T U : TempResult) : Prop :=
  (forall v, v ∈ id_varset r <-> v ∈ id_varset T \/ v ∈ id_varset U) /\
  (forall v, v ∈ str_varset r <-> v ∈ str_varset T \/ v ∈ str_varset U).
(** No variable has ids in one table and strings in the other. *)
Definition aligned (T U : TempResult) : Prop :=
  forall v, v ∈ id_varset T /\ v ∈ str_varset U \/ v ∈ str_varset T /\ v ∈ id_varset U -> False.

Lemma aligned_sym T U : aligned T U -> aligned U T.
Proof. intros H v Hv. apply (H v). naive_solver. Qed.

Lemma id_vars_nil T : ~ 0 < id_cols T -> id_varset T = [].
Proof. unfold id_cols, getVarsetSize. intros H. by apply nil_length_inv; lia. Qed.
Lemma str_vars_nil T : ~ 0 < str_cols T -> str_varset T = [].
Proof. unfold str_cols, getVarsetSize. intros H. by apply nil_length_inv; lia. Qed.

Lemma length_new_ids r (u : Z) : length (replicate (Z.to_nat (id_cols r)) u) = length (id_varset r).
Proof. unfold id_cols, getVarsetSize. rewrite length_replicate. lia. Qed.
Lemma length_new_strs r (u : string) : length (replicate (Z.to_nat (str_cols r)) u) = length (str_varset r).
Proof. unfold str_cols, getVarsetSize. rewrite length_replicate. lia. Qed.

Lemma table_ok_parts T : table_ok T -> NoDup (id_varset T) /\ NoDup (str_varset T) /\ (forall v, v ∈ id_varset T -> v ∉ str_varset T).
Proof. intros [H _]. by apply NoDup_disjoint_app. Qed.

Section NewRows.
Context (uninit : Z).

Lemma new_row1_ok r T row : NoDup (id_varset r) -> NoDup (str_varset r) -> table_ok T -> row_ok T row -> same_vars r T ->
  exists row', new_row uninit r [(T, row)] = Some row' /\ row_ok r row' /\ row_sol r row' = row_sol T row.
Proof using Type.
  intros Hri Hrs HT [Hi Hs] [Si Ss]. apply table_ok_parts in HT as (Ti&Ts&_).
  destruct (fill1_ok (id_varset T) (id_varset r) (rp_id row) (replicate (Z.to_nat (id_cols r)) uninit)) as (v&E&L&Z);
    [done..|apply length_new_ids|].
  destruct (fill1_ok (str_varset T) (str_varset r) (rp_str row) (replicate (Z.to_nat (str_cols r)) ""%string)) as (w&E'&L'&Z');
    [done..|apply length_new_strs|].
  exists (mk_ResultPair v w). split; [|by split_and!; [..|unfold row_sol; simpl; rewrite Z, Z']].
  unfold new_row. cbn [fill_ids fill_strs]. rewrite E, E'. cbn.
  destruct (Z.ltb_spec 0 (id_cols r)) as [|C]; destruct (Z.ltb_spec 0 (str_cols r)) as [|C']; cbn; try done.
  - rewrite (str_vars_nil r) in L' by lia. apply nil_length_inv in L' as ->. done.
  - rewrite (id_vars_nil r) in L by lia. apply nil_length_inv in L as ->. done.
  - rewrite (id_vars_nil r) in L by lia. apply nil_length_inv in L as ->.
    rewrite (str_vars_nil r) in L' by lia. apply nil_length_inv in L' as ->. done.
Qed.

Lemma sol_union (zt zu : gmap string Z) (st su : gmap string string) : (forall v, is_Some (zt !! v) -> su !! v = None) ->
  (VId <$> zu ∪ zt) ∪ (VStr <$> su ∪ st) = ((VId <$> zu) ∪ (VStr <$> su)) ∪ ((VId <$> zt) ∪ (VStr <$> st)).
Proof using Type.
  intros H. apply map_eq. intros v. rewrite !lookup_union, !lookup_fmap, !lookup_union.
  specialize (H v). destruct (zt !! v); [rewrite H by eauto|]; destruct (zu !! v), (su !! v), (st !! v); done.
Qed.

Lemma new_row2_ok r T U t u : NoDup (id_varset r) -> NoDup (str_varset r) -> table_ok T -> table_ok U -> row_ok T t -> row_ok U u ->
  join_vars r T U -> aligned T U ->
  exists row', new_row uninit r [(T, t); (U, u)] = Some row' /\ row_ok r row' /\ row_sol r row' = row_sol U u ∪ row_sol T t.
Proof using Type.
  intros Hri Hrs HT HU [Hi Hs] [Hi' Hs'] [Ji Js] Ha.
  apply table_ok_parts in HT as (Ti&Ts&_), HU as (Ui&Us&_).
  destruct (fill2_ok (id_varset T) (id_varset U) (id_varset r) (rp_id t) (rp_id u) (replicate (Z.to_nat (id_cols r)) uninit)) as (v1&v&E1&E&L&Z);
    [done..|apply length_new_ids|].
  destruct (fill2_ok (str_varset T) (str_varset U) (str_varset r) (rp_str t) (rp_str u) (replicate (Z.to_nat (str_cols r)) ""%string))
    as (w1&w&E1'&E'&L'&Z'); [done..|apply length_new_strs|].
  exists (mk_ResultPair v w). split; [|split; [done|]].
  - unfold new_row. cbn [fill_ids fill_strs]. rewrite E1, E1'. cbn. rewrite E, E'. cbn.
    destruct (Z.ltb_spec 0 (id_cols r)) as [|C]; destruct (Z.ltb_spec 0 (str_cols r)) as [|C']; cbn; try done.
    + rewrite (str_vars_nil r) in L' by lia. apply nil_length_inv in L' as ->. done.
    + rewrite (id_vars_nil r) in L by lia. apply nil_length_inv in L as ->. done.
    + rewrite (id_vars_nil r) in L by lia. apply nil_length_inv in L as ->.
      rewrite (str_vars_nil r) in L' by lia. apply nil_length_inv in L' as ->. done.
  - unfold row_sol. simpl. rewrite Z, Z'. apply sol_union. intros x Hx. apply zmap_None. intros Hin.
    apply (Ha x). left. split; [|done]. destruct (decide (x ∈ id_varset T)) as [|Hn]; [done|].
    rewrite zmap_None in Hx by done. by destruct Hx.
Qed.

(** Rows built from every row of a list. *)
Lemma mapM_rows {A} (f : A -> option ResultPair) (g : A -> gmap string value) r (l : list A) :
  (forall a, a ∈ l -> exists row, f a = Some row /\ row_ok r row /\ row_sol r row = g a) ->
  exists rows, mapM f l = Some rows /\ Forall (row_ok r) rows /\ row_sol r <$> rows = g <$> l.
Proof using Type.
  induction l as [|a l IH]; intros H; [by exists []|].
  destruct (H a) as (row&E&R&G); [set_solver|]. destruct IH as (rows&E'&R'&G'); [intros b Hb; apply H; set_solver|].
  exists (row :: rows). cbn [mapM]. rewrite E. cbn. rewrite E'. cbn. split_and!; [done|by constructor|by f_equal].
Qed.
End NewRows.

(** Tables to which rows are added. *)
Lemma sols_push r rows : sols (push_rows r rows) = sols r ++ (row_sol r <$> rows).
Proof. unfold sols, push_rows. simpl. by rewrite fmap_app. Qed.

Lemma table_ok_push r rows : table_ok r -> Forall (row_ok r) rows -> table_ok (push_rows r rows).
Proof. intros [H1 H2] H. split; [done|]. simpl. by apply Forall_app. Qed.

Lemma row_ok_set r rows row : row_ok (set_result r rows) row <-> row_ok r row.
Proof. done. Qed.

(** A permutation of the rows. *)
Lemma table_ok_perm T rows : table_ok T -> rows ≡ₚ result T -> table_ok (set_result T rows) /\ sols (set_result T rows) ≡ₚ sols T.
Proof. intros [H1 H2] HP. split; [split; [done|]; change (Forall (row_ok T) rows); by rewrite HP|]. change (row_sol T <$> rows ≡ₚ row_sol T <$> result T). by rewrite HP. Qed.

Theorem doUnion_ok uninit this r : table_ok this -> table_ok r -> same_vars r this ->
  exists rows, doUnion uninit this r = Some (push_rows r rows) /\ Forall (row_ok r) rows /\ row_sol r <$> rows = sols this.
Proof.
  intros HT HR HS. destruct (table_ok_parts r HR) as (Ri&Rs&_).
  destruct (mapM_rows (fun t => new_row uninit r [(this, t)]) (row_sol this) r (result this)) as (rows&E&R&G).
  { intros t Ht. apply new_row1_ok; [done..| |done]. pose proof (ok_rows _ HT) as F. rewrite Forall_forall in F. auto. }
  exists rows. unfold doUnion. rewrite E. done.
Qed.

(** ** Keys

    [compareRow] compares the values of the common variables one after the other. *)

Definition cmp_value (a b : option value) : comparison :=
  match a, b with
  | Some (VId x), Some (VId y) => Z.compare x y
  | Some (VStr x), Some (VStr y) => String.compare x y
  | Some (VId _), Some (VStr _) => Lt
  | Some (VStr _), Some (VId _) => Gt
  | None, None => Eq
  | None, Some _ => Lt
  | Some _, None => Gt
  end.

Fixpoint cmp_keys (l k : list (option value)) : comparison :=
  match l, k with
  | a :: l', b :: k' => match cmp_value a b with Eq => cmp_keys l' k' | o => o end
  | [], [] => Eq
  | [], _ :: _ => Lt
  | _ :: _, [] => Gt
  end.

Lemma string_compare_trans x y z : String.compare x y = Lt -> String.compare y z = Lt -> String.compare x z = Lt.
Proof.
  intros H1 H2. destruct (String.compare x z) eqn:E; [| done |].
  - apply String.compare_eq_iff in E as ->. rewrite (String.compare_antisym y z), H1 in H2. done.
  - assert (L1 : String.le x y) by (unfold String.le, String.leb; by rewrite H1).
    assert (L2 : String.le y z) by (unfold String.le, String.leb; by rewrite H2).
    pose proof (transitivity L1 L2) as L. unfold String.le, String.leb in L. by rewrite E in L.
Qed.

Lemma string_compare_eq x y : String.compare x y = Eq <-> x = y.
Proof.
  split; [apply String.compare_eq_iff|]. intros ->. pose proof (String.compare_antisym y y) as H.
  by destruct (String.compare y y).
Qed.

Lemma cmp_value_eq a b : cmp_value a b = Eq <-> a = b.
Proof.
  destruct a as [[]|], b as [[]|]; simpl; try (split; congruence).
  - rewrite Z.compare_eq_iff. naive_solver.
  - rewrite string_compare_eq. naive_solver.
Qed.

Lemma cmp_value_opp a b : cmp_value b a = CompOpp (cmp_value a b).
Proof. destruct a as [[]|], b as [[]|]; simpl; try done; [apply Z.compare_antisym|apply String.compare_antisym]. Qed.

Lemma cmp_value_trans a b d : cmp_value a b = Lt -> cmp_value b d = Lt -> cmp_value a d = Lt.
Proof.
  destruct a as [[]|], b as [[]|], d as [[]|]; simpl; try done; [|apply string_compare_trans].
  rewrite !Z.compare_lt_iff. lia.
Qed.

Lemma cmp_keys_eq l k : cmp_keys l k = Eq <-> l = k.
Proof.
  revert k. induction l as [|a l IH]; intros [|b k]; simpl; try (split; congruence).
  destruct (cmp_value a b) eqn:E; [apply cmp_value_eq in E as ->; rewrite IH; naive_solver|..];
    (split; [done|]; intros ?; simplify_eq; rewrite (proj2 (cmp_value_eq b b)) in E by done; done).
Qed.

Lemma cmp_keys_opp l k : cmp_keys k l = CompOpp (cmp_keys l k).
Proof.
  revert k. induction l as [|a l IH]; intros [|b k]; simpl; try done.
  rewrite (cmp_value_opp a b), (IH k). by destruct (cmp_value a b).
Qed.

Lemma cmp_keys_trans l k m : cmp_keys l k = Lt -> cmp_keys k m = Lt -> cmp_keys l m = Lt.
Proof.
  revert k m. induction l as [|a l IH]; intros [|b k] [|d m]; simpl; try done.
  destruct (cmp_value a b) eqn:E1, (cmp_value b d) eqn:E2; try done.
  - apply cmp_value_eq in E1 as ->, E2 as ->. rewrite (proj2 (cmp_value_eq d d)) by done. apply IH.
  - apply cmp_value_eq in E1 as ->. by rewrite E2.
  - apply cmp_value_eq in E2 as ->. by rewrite E1.
  - by rewrite (cmp_value_trans a b d).
Qed.

Lemma cmp_keys_preorder {A} (key : A -> list (option value)) : total_preorder (fun x y => cmp_keys (key x) (key y)).
Proof.
  split; intros x y; [apply cmp_keys_opp|]. intros z H1 H2.
  destruct (cmp_keys (key x) (key y)) eqn:E1, (cmp_keys (key y) (key z)) eqn:E2; try done.
  - apply cmp_keys_eq in E1 as ->, E2 as ->. by rewrite (proj2 (cmp_keys_eq _ _)).
  - apply cmp_keys_eq in E1 as ->. by rewrite E2.
  - apply cmp_keys_eq in E2 as <-. by rewrite E1.
  - by rewrite (cmp_keys_trans _ _ _ E1 E2).
Qed.

Definition key (common : Varset) (s : gmap string value) : list (option value) := (s !!.) <$> common.

Lemma getAllVarset_ok T : table_ok T -> getAllVarset T = vars T.
Proof. intros H. apply table_ok_parts in H as (_&Hs&Hd). apply vs_add_disjoint; [done|]. intros v Hv Hi. by apply (Hd v). Qed.

(** The cell of a variable, by its position in all the columns. *)
Lemma row_cell T row (k : nat) v : table_ok T -> row_ok T row -> vars T !! k = Some v ->
  (v ∈ id_varset T /\ Z.of_nat k < id_cols T /\ exists z, at_Z (rp_id row) (Z.of_nat k) = Some z /\ row_sol T row !! v = Some (VId z)) \/
  (v ∈ str_varset T /\ id_cols T <= Z.of_nat k /\ exists s, at_Z (rp_str row) (Z.of_nat k - id_cols T) = Some s /\ row_sol T row !! v = Some (VStr s)).
Proof.
  intros HT [Hi Hs] Hk. destruct (table_ok_parts T HT) as (Ti&Ts&Td). unfold vars in Hk. unfold row_sol, id_cols, getVarsetSize.
  apply lookup_app_Some in Hk as [Hk|[Hge Hk]].
  - left. pose proof (lookup_lt_Some _ _ _ Hk). split; [by eapply list_elem_of_lookup_2|]. split; [lia|].
    destruct (lookup_lt_is_Some_2 (rp_id row) k) as [z Hz]; [lia|]. exists z. rewrite at_Z_lookup, Nat2Z.id by lia.
    split; [done|]. rewrite lookup_union, !lookup_fmap, (zmap_lookup _ _ k v z) by done. simpl.
    rewrite zmap_None; [done|]. by eapply Td, list_elem_of_lookup_2.
  - right. pose proof (lookup_lt_Some _ _ _ Hk). split; [by eapply list_elem_of_lookup_2|]. split; [lia|].
    destruct (lookup_lt_is_Some_2 (rp_str row) (k - length (id_varset T))) as [s Hss]; [lia|]. exists s.
    rewrite at_Z_lookup by lia. replace (Z.to_nat _) with (k - length (id_varset T))%nat by lia. split; [done|].
    rewrite lookup_union, !lookup_fmap, (zmap_lookup (str_varset T) _ _ v s Ts Hk Hss), zmap_None; [done|].
    intros Hin. by eapply Td, list_elem_of_lookup_2.
Qed.

Lemma elem_of_vars T v : v ∈ vars T <-> v ∈ id_varset T \/ v ∈ str_varset T.
Proof. apply elem_of_app. Qed.

Lemma row_sol_dom T row v : table_ok T -> row_ok T row -> is_Some (row_sol T row !! v) <-> v ∈ vars T.
Proof.
  intros HT Hr. split.
  - intros H. rewrite elem_of_vars. destruct (decide (v ∈ id_varset T)); [by left|].
    destruct (decide (v ∈ str_varset T)); [by right|]. unfold row_sol in H.
    rewrite lookup_union, !lookup_fmap, !zmap_None in H by done. by destruct H.
  - intros [k Hk]%list_elem_of_lookup. destruct (row_cell T row k v HT Hr Hk) as [(_&_&z&_&->)|(_&_&s&_&->)]; eauto.
Qed.

Lemma string_less_cmp a b : string_less a b = bool_decide (String.compare a b = Lt).
Proof. unfold string_less. by destruct (String.compare a b). Qed.

Lemma compareRow_ok T U t u common : table_ok T -> table_ok U -> row_ok T t -> row_ok U u -> aligned T U ->
  (forall v, v ∈ common -> v ∈ vars T /\ v ∈ vars U) ->
  compareRow t (id_cols T) (mapTo common (vars T)) u (id_cols U) (mapTo common (vars U)) =
    Some (sign (cmp_keys (key common (row_sol T t)) (key common (row_sol U u)))).
Proof.
  intros HT HU Ht Hu Ha. pose proof (ok_vars _ HT) as NT. pose proof (ok_vars _ HU) as NU.
  induction common as [|v common IH]; intros Hc; [done|]. specialize (IH ltac:(intros w Hw; apply Hc; set_solver)).
  destruct (Hc v) as [[k Hk]%list_elem_of_lookup [j Hj]%list_elem_of_lookup]; [set_solver|].
  cbn [mapTo fmap list_fmap key compareRow cmp_keys].
  change ((fun w => map_pos w (vars T) 0 (-1)) <$> common) with (mapTo common (vars T)).
  change ((fun w => map_pos w (vars U) 0 (-1)) <$> common) with (mapTo common (vars U)).
  rewrite (map_pos_lookup v (vars T) k), (map_pos_lookup v (vars U) j), !Z.add_0_l by done.
  destruct (row_cell T t k v HT Ht Hk) as [(Vt&Pt&a&At&St)|(Vt&Pt&a&At&St)], (row_cell U u j v HU Hu Hj) as [(Vu&Pu&b&Bu&Su)|(Vu&Pu&b&Bu&Su)].
  - rewrite !(proj2 (Z.ltb_lt _ _)) by lia. cbn [andb]. rewrite At, Bu, St, Su. cbn [mbind option_bind cmp_value].
    destruct (Z.ltb_spec a b) as [L|L]; [by rewrite (proj2 (Z.compare_lt_iff a b))|].
    destruct (Z.ltb_spec b a) as [L'|L']; [by rewrite (proj2 (Z.compare_gt_iff a b))|].
    assert (a = b) as -> by lia. rewrite Z.compare_refl. exact IH.
  - destruct (Ha v). by left.
  - destruct (Ha v). by right.
  - rewrite (proj2 (Z.ltb_ge _ _) Pt), (proj2 (Z.ltb_ge _ _) Pu), (proj2 (Z.leb_le _ _) Pt), (proj2 (Z.leb_le _ _) Pu). cbn [andb].
    rewrite At, Bu, St, Su. cbn [mbind option_bind cmp_value]. rewrite !string_less_cmp, (String.compare_antisym a b).
    destruct (String.compare b a); [exact IH|done|done].
Qed.

Lemma aligned_refl T : table_ok T -> aligned T T.
Proof. intros HT v Hv. apply table_ok_parts in HT as (_&_&H). specialize (H v). naive_solver. Qed.

(** The sort of a table by its columns [common]. *)
Lemma TempResult_sort_ok T common : table_ok T -> (forall v, v ∈ common -> v ∈ vars T) ->
  exists rows, TempResult_sort T (mapTo common (vars T)) = Some (set_result T rows) /\ rows ≡ₚ result T /\
    (forall i j y z, i <= j -> at_Z rows i = Some y -> at_Z rows j = Some z ->
      cmp_keys (key common (row_sol T y)) (key common (row_sol T z)) <> Gt).
Proof.
  intros HT Hc. unfold TempResult_sort.
  destruct (sort_rows_ok (id_cols T) (mapTo common (vars T)) (row_ok T) _ (cmp_keys_preorder (fun y => key common (row_sol T y))))
    with (fuel := length (result T)) (a := result T) (l := 0) (r := len (result T) - 1) as (rows&E&(HP&_&_)&HS).
  - intros x y Hx Hy. apply compareRow_ok; try done; [by apply aligned_refl|]. intros v Hv. split; by apply Hc.
  - apply HT.
  - lia.
  - lia.
  - lia.
  - exists rows. rewrite E. split; [done|]. split; [done|]. intros i j y z Hij Hy Hz.
    pose proof (at_Z_Some _ _ _ Hy). pose proof (at_Z_Some _ _ _ Hz). rewrite HP in *. apply (HS i j y z); [lia|lia|done|done].
Qed.

(** The common variables of two tables, and agreement on them. *)
Definition common_vars (T U : TempResult) : Varset := vs_mul (getAllVarset T) (getAllVarset U).

Lemma elem_of_common T U v : table_ok T -> table_ok U -> v ∈ common_vars T U <-> v ∈ vars T /\ v ∈ vars U.
Proof. intros HT HU. unfold common_vars. rewrite !getAllVarset_ok by done. apply elem_of_vs_mul. apply HT. Qed.

Lemma key_agree T U t u : table_ok T -> table_ok U -> row_ok T t -> row_ok U u ->
  key (common_vars T U) (row_sol T t) = key (common_vars T U) (row_sol U u) <-> map_agree (row_sol T t) (row_sol U u).
Proof.
  intros HT HU Ht Hu. rewrite map_agree_spec. split.
  - intros E v a b Ha Hb. assert (Hv : v ∈ common_vars T U).
    { apply elem_of_common; [done..|]. split; [apply (row_sol_dom T t)|apply (row_sol_dom U u)]; eauto. }
    apply list_elem_of_lookup in Hv as [k Hk]. apply (f_equal (fun l => l !! k)) in E. unfold key in E.
    rewrite !list_lookup_fmap, Hk in E. simpl in E. congruence.
  - intros H. apply list_fmap_ext. intros k v Hk. apply list_elem_of_lookup_2 in Hk.
    apply elem_of_common in Hk as [Ht' Hu']; [|done..]. apply (row_sol_dom T t) in Ht' as [a Ha]; [|done..].
    apply (row_sol_dom U u) in Hu' as [b Hb]; [|done..]. rewrite Ha, Hb. f_equal. by eapply H.
Qed.

(** ** Rows that agree *)

Section Joins.
Context (uninit : Z) (moved : string).

(** The search of the rows of a sorted table [U] that agree with the row [t] of [T]. *)
Lemma matching_rows T U t : table_ok T -> table_ok U -> row_ok T t -> aligned T U ->
  (forall i j y z, i <= j -> at_Z (result U) i = Some y -> at_Z (result U) j = Some z ->
    cmp_keys (key (common_vars T U) (row_sol U y)) (key (common_vars T U) (row_sol U z)) <> Gt) ->
  let c2t := mapTo (common_vars T U) (vars T) in
  let c2u := mapTo (common_vars T U) (vars U) in
  let same := filter (fun u => map_agree (row_sol T t) (row_sol U u)) (result U) in
  exists left, findLeftBounder U c2u t (id_cols T) c2t = Some left /\
    (left = -1 /\ same = [] \/
     left <> -1 /\ same <> [] /\ exists right, findRightBounder U c2u t (id_cols T) c2t = Some right /\ rows_between U left right = Some same).
Proof using Type.
  intros HT HU Ht Ha Hsort c2t c2u same.
  assert (HUr : forall y, y ∈ result U -> row_ok U y) by (pose proof (ok_rows _ HU) as F; by rewrite Forall_forall in F).
  assert (Hat : forall i y, at_Z (result U) i = Some y -> row_ok U y) by (intros i y Hy; eapply HUr, at_Z_elem, Hy).
  set (cx := fun y => cmp_keys (key (common_vars T U) (row_sol U y)) (key (common_vars T U) (row_sol T t))).
  assert (Hcx : forall y, y ∈ result U -> compareRow y (id_cols U) c2u t (id_cols T) c2t = Some (sign (cx y))).
  { intros y Hy. apply compareRow_ok; try done; [by apply HUr|by apply aligned_sym|].
    intros v Hv. apply elem_of_common in Hv; [|done..]. tauto. }
  pose proof (cmp_keys_preorder (fun l : list (option value) => l)) as [_ Htr].
  destruct (bounders_ok U c2u t (id_cols T) c2t cx Hcx) as (left&E&HL).
  - intros i j y z Hij Hy Hz Hlt. specialize (Hsort i j y z Hij Hy Hz). unfold cx in *.
    destruct (cmp_keys _ (key _ (row_sol T t))) eqn:E1 in |- *; [|done|].
    + apply cmp_keys_eq in E1. rewrite E1, cmp_keys_opp, Hlt in Hsort. done.
    + exfalso. apply (Htr _ _ (key (common_vars T U) (row_sol T t))) in Hsort; [|by rewrite Hlt]. done.
  - intros i j y z Hij Hy Hz Hgt. specialize (Hsort i j y z Hij Hy Hz). unfold cx in *.
    destruct (cmp_keys _ (key _ (row_sol T t))) eqn:E1 in |- *; [| |done]; exfalso;
      (apply (Htr _ _ (key (common_vars T U) (row_sol T t))) in Hsort; [done|by rewrite E1]).
  - assert (Es : filter (fun y => cx y = Eq) (result U) = same).
    { apply list_filter_iff'. intros u Hu. unfold cx. rewrite cmp_keys_eq, <- (key_agree T U) by auto. split; congruence. }
    rewrite Es in HL. by exists left.
Qed.

Lemma join_row_ok T U r t : table_ok T -> table_ok U -> table_ok r -> row_ok T t -> aligned T U -> join_vars r T U ->
  (forall i j y z, i <= j -> at_Z (result U) i = Some y -> at_Z (result U) j = Some z ->
    cmp_keys (key (common_vars T U) (row_sol U y)) (key (common_vars T U) (row_sol U z)) <> Gt) ->
  exists o, join_row uninit T U r (common_vars T U) t = Some o /\ Forall (row_ok r) (rows_of o) /\
    row_sol r <$> rows_of o = (row_sol T t ∪.) <$> filter (map_agree (row_sol T t)) (sols U) /\
    (is_found o = false <-> filter (map_agree (row_sol T t)) (sols U) = []).
Proof using Type.
  intros HT HU Hr Ht Ha Hj Hsort. unfold join_row. rewrite !getAllVarset_ok by done.
  destruct (matching_rows T U t HT HU Ht Ha Hsort) as (left&E&HL). cbn zeta in HL. rewrite E. cbn.
  assert (Ef : filter (map_agree (row_sol T t)) (sols U) = row_sol U <$> filter (fun u => map_agree (row_sol T t) (row_sol U u)) (result U)).
  { apply filter_image. }
  rewrite Ef. destruct HL as [(->&En)|(Hne&En&right&Er&Eb)].
  - exists None. rewrite En. done.
  - rewrite (proj2 (Z.eqb_neq _ _) Hne), Er. cbn. rewrite Eb. cbn.
    destruct (table_ok_parts r Hr) as (Ri&Rs&_).
    destruct (mapM_rows (fun u => new_row uninit r [(T, t); (U, u)]) (fun u => row_sol T t ∪ row_sol U u) r
      (filter (fun u => map_agree (row_sol T t) (row_sol U u)) (result U))) as (rows&E1&E2&E3).
    { intros u [Hag Hu]%list_elem_of_filter. pose proof (ok_rows _ HU) as F. rewrite Forall_forall in F.
      destruct (new_row2_ok uninit r T U t u) as (row&G1&G2&G3); auto. exists row. split_and!; [done..|]. rewrite G3.
      by apply agree_union_comm. }
    rewrite E1. cbn. exists (Some rows). split; [done|]. split; [done|]. split; [|simpl; split; [done|]].
    + simpl. rewrite E3, <- list_fmap_compose. done.
    + intros Hn. by apply fmap_nil_inv in Hn.
Qed.
End Joins.
