(* ===== verification/TempResultOps.v ===== *)
(** * The operations on tables

    What [doJoin], [doOptional] and [doMinus] of one table with another one compute,
    in terms of the algebra: with common variables, by sorting and searching; without
    common variables, as a product. *)

From stdpp Require Import strings.
From S2P Require Import Prelude TempResult TempResultSort TempResultSpec.

Section Ops.
Context (uninit : Z) (moved : string).

Definition agreeing (a : gmap string value) (B : list (gmap string value)) : list (gmap string value) := filter (map_agree a) B.

Lemma sols_nil T : result T = [] -> sols T = [].
Proof using Type. intros E. unfold sols. by rewrite E. Qed.

(** ** Tables with common variables *)

(** [x] with its rows in another order. *)
Definition reordered (x x' : TempResult) : Prop := exists rows, x' = set_result x rows /\ rows ≡ₚ result x.

Lemma reordered_refl x : reordered x x.
Proof using Type. exists (result x). by destruct x. Qed.

Lemma reordered_ok x x' : reordered x x' -> table_ok x -> table_ok x' /\ sols x' ≡ₚ sols x.
Proof using Type. intros (rows&->&HP) H. by apply table_ok_perm. Qed.

Lemma sorted_copy this x : table_ok this -> table_ok x ->
  exists x', TempResult_sort x (mapTo (common_vars this x) (getAllVarset x)) = Some x' /\ reordered x x' /\ table_ok x' /\
    common_vars this x' = common_vars this x /\
    (forall i j y z, i <= j -> at_Z (result x') i = Some y -> at_Z (result x') j = Some z ->
      cmp_keys (key (common_vars this x) (row_sol x y)) (key (common_vars this x) (row_sol x z)) <> Gt).
Proof using Type.
  intros HT HX. rewrite getAllVarset_ok by done.
  destruct (TempResult_sort_ok x (common_vars this x)) as (rows&E&HP&HS); [done| |].
  { intros v Hv. apply elem_of_common in Hv; tauto. }
  exists (set_result x rows). split; [done|]. split; [by exists rows|]. split; [by apply table_ok_perm|]. done.
Qed.

Lemma join_rows_ok this x r l : table_ok this -> table_ok x -> table_ok r -> Forall (row_ok this) l -> aligned this x -> join_vars r this x ->
  (forall i j y z, i <= j -> at_Z (result x) i = Some y -> at_Z (result x) j = Some z ->
    cmp_keys (key (common_vars this x) (row_sol x y)) (key (common_vars this x) (row_sol x z)) <> Gt) ->
  exists os, mapM (join_row uninit this x r (common_vars this x)) l = Some os /\ Forall (row_ok r) (os ≫= rows_of) /\
    row_sol r <$> (os ≫= rows_of) = Join (row_sol this <$> l) (sols x) /\
    is_found <$> os = (fun t => negb (bool_decide (agreeing (row_sol this t) (sols x) = []))) <$> l.
Proof using Type.
  intros HT HX HR HF Ha Hj HS. induction HF as [|t l Ht _ (os&E&R&G&B)]; [by exists []|].
  destruct (join_row_ok uninit this x r t) as (o&Eo&Ro&Go&Bo); [done..|].
  exists (o :: os). cbn [mapM]. rewrite Eo. cbn [mbind option_bind]. rewrite E. split; [done|].
  rewrite bind_cons. split; [by apply Forall_app|]. rewrite fmap_app, G, Go. split; [done|].
  rewrite !fmap_cons, B. f_equal. fold (agreeing (row_sol this t) (sols x)) in Bo.
  destruct (is_found o) eqn:Eb; case_bool_decide; try done; intuition congruence.
Qed.

Lemma common_empty this x : bool_decide (vs_mul (getAllVarset this) (getAllVarset x) = []) = bool_decide (common_vars this x = []).
Proof using Type. done. Qed.

(** The rows that [doJoin] and [doOptional] add. *)
Lemma sorted_join this x r : table_ok this -> table_ok x -> table_ok r -> aligned this x -> join_vars r this x ->
  exists x' os, TempResult_sort x (mapTo (common_vars this x) (getAllVarset x)) = Some x' /\ reordered x x' /\
    mapM (join_row uninit this x' r (common_vars this x)) (result this) = Some os /\ Forall (row_ok r) (os ≫= rows_of) /\
    row_sol r <$> (os ≫= rows_of) ≡ₚ Join (sols this) (sols x) /\
    is_found <$> os = (fun t => negb (bool_decide (agreeing (row_sol this t) (sols x) = []))) <$> result this.
Proof using Type.
  intros HT HX HR Ha Hj. destruct (sorted_copy this x HT HX) as (x'&E&Hre&HX'&Hc&HS).
  pose proof Hre as (rows&Hx'&HP). destruct (reordered_ok _ _ Hre HX) as [_ Hsols].
  destruct (join_rows_ok this x' r (result this)) as (os&Eo&Ro&Go&Bo); try done; [by apply HT|by subst x'|by subst x'|by subst x'|].
  exists x', os. rewrite Hc in Eo. split_and!; try done.
  - rewrite Go. by rewrite Hsols.
  - rewrite Bo. apply list_fmap_ext. intros i t _. f_equal. apply bool_decide_ext.
    assert (Hm : agreeing (row_sol this t) (sols x') ≡ₚ agreeing (row_sol this t) (sols x)) by (unfold agreeing; by rewrite Hsols).
    split; intros En; rewrite En in Hm; [by apply Permutation_nil_l in Hm|by apply Permutation_nil_r in Hm].
Qed.

Lemma doJoin_common this x r : table_ok this -> table_ok x -> table_ok r -> aligned this x -> join_vars r this x -> common_vars this x <> [] ->
  exists x' rows, doJoin uninit moved this x r = Some (this, x', push_rows r rows) /\ reordered x x' /\ Forall (row_ok r) rows /\
    row_sol r <$> rows ≡ₚ Join (sols this) (sols x).
Proof using Type.
  intros HT HX HR Ha Hj Hc. unfold doJoin. cbv zeta. rewrite common_empty, bool_decide_eq_false_2 by done.
  case_bool_decide as Ex.
  - exists x, []. unfold push_rows. rewrite app_nil_r. split; [by destruct r|]. split; [apply reordered_refl|]. split; [done|].
    by rewrite (sols_nil x Ex), Join_nil_r.
  - destruct (sorted_join this x r) as (x'&os&E&Hre&Eo&Ro&Go&_); [done..|].
    fold (common_vars this x). rewrite E. cbn [mbind option_bind]. rewrite Eo. cbn. by exists x', (os ≫= rows_of).
Qed.

(** ** [doMinus] *)

Lemma minus_rows_ok this x l : table_ok this -> table_ok x -> Forall (row_ok this) l -> aligned this x ->
  (forall i j y z, i <= j -> at_Z (result x) i = Some y -> at_Z (result x) j = Some z ->
    cmp_keys (key (common_vars this x) (row_sol x y)) (key (common_vars this x) (row_sol x z)) <> Gt) ->
  exists bs, mapM (minus_row this x (common_vars this x)) l = Some bs /\
    snd <$> filter (fun bt => bt.1 = true) (zip bs l) = filter (fun t => agreeing (row_sol this t) (sols x) = []) l.
Proof using Type.
  intros HT HX HF Ha HS. induction HF as [|t l Ht _ (bs&E&B)]; [by exists []|].
  destruct (matching_rows this x t HT HX Ht Ha HS) as (left&El&Hl). cbn zeta in *.
  assert (Em : minus_row this x (common_vars this x) t = Some (left =? -1)).
  { unfold minus_row. rewrite !getAllVarset_ok by done. rewrite El. done. }
  exists ((left =? -1) :: bs). cbn [mapM]. rewrite Em. cbn [mbind option_bind]. rewrite E. split; [done|].
  cbn [zip zip_with]. rewrite !filter_cons. cbn [fst].
  assert (Ef : agreeing (row_sol this t) (sols x) = row_sol x <$> filter (fun u => map_agree (row_sol this t) (row_sol x u)) (result x)) by apply filter_image.
  destruct Hl as [(->&En)|(Hne&En&_)].
  - rewrite decide_True by done. rewrite decide_True by (by rewrite Ef, En). by rewrite fmap_cons, B.
  - rewrite (proj2 (Z.eqb_neq _ _) Hne), decide_False by done. rewrite decide_False; [done|]. rewrite Ef. intros Hn. by apply fmap_nil_inv in Hn.
Qed.

Lemma sols_filter this P `{!forall a, Decision (P a)} :
  sols (set_result this (filter (fun t => P (row_sol this t)) (result this))) = filter P (sols this).
Proof using Type. symmetry. apply filter_image. Qed.

(** Rows of tables with a common variable share it. *)
Lemma rows_overlap this x t u : table_ok this -> table_ok x -> row_ok this t -> row_ok x u ->
  overlap (row_sol this t) (row_sol x u) <-> common_vars this x <> [].
Proof using Type.
  intros HT HX Ht Hu. split.
  - intros [v [Hv Hw]] E. apply row_sol_dom in Hv, Hw; [|done..]. assert (Hin : v ∈ common_vars this x) by by apply elem_of_common.
    rewrite E in Hin. set_solver.
  - intros Hc. destruct (common_vars this x) as [|v vs] eqn:E; [done|]. exists v.
    assert (Hin : v ∈ common_vars this x) by (rewrite E; set_solver). apply elem_of_common in Hin as [Hv Hw]; [|done..].
    split; by apply row_sol_dom.
Qed.

Lemma elem_of_sols T a : table_ok T -> a ∈ sols T <-> exists t, t ∈ result T /\ row_ok T t /\ a = row_sol T t.
Proof using Type.
  intros [_ HF]. rewrite Forall_forall in HF. unfold sols. rewrite list_elem_of_fmap. split; [|naive_solver].
  intros (t&->&Ht). exists t. auto.
Qed.

Lemma Minus_common this x : table_ok this -> table_ok x -> common_vars this x <> [] ->
  Minus (sols this) (sols x) = filter (fun a => agreeing a (sols x) = []) (sols this).
Proof using Type.
  intros HT HX Hc. unfold Minus, agreeing. apply list_filter_iff'. intros a (t&Ht&Hrt&->)%elem_of_sols; [|done].
  rewrite (list_filter_iff' (fun b => map_agree (row_sol this t) b /\ overlap (row_sol this t) b) (map_agree (row_sol this t))); [done|].
  intros b (u&Hu&Hru&->)%elem_of_sols; [|done]. rewrite rows_overlap by done. tauto.
Qed.

Lemma Minus_disjoint this x : table_ok this -> table_ok x -> common_vars this x = [] -> Minus (sols this) (sols x) = sols this.
Proof using Type.
  intros HT HX Hc. unfold Minus. apply filter_all. apply Forall_forall. intros a (t&Ht&Hrt&->)%elem_of_sols; [|done].
  apply filter_none. apply Forall_forall. intros b (u&Hu&Hru&->)%elem_of_sols [_ Ho]; [|done]. by apply rows_overlap in Ho.
Qed.

(** [doMinus] into an empty table with the same columns. *)
Lemma doMinus_ok this x r : table_ok this -> table_ok x -> table_ok r -> same_vars r this -> result r = [] -> aligned this x ->
  (common_vars this x = [] -> result x <> []) ->
  exists x' r', doMinus uninit this x r = Some (this, x', r') /\ reordered x x' /\ table_ok r' /\ same_vars r' this /\
    sols r' = Minus (sols this) (sols x).
Proof using Type.
  intros HT HX HR Hsv Hr0 Ha Hd. unfold doMinus. rewrite common_empty. fold (common_vars this x).
  destruct (bool_decide_reflect (common_vars this x = [])) as [Hc|Hc].
  - rewrite bool_decide_eq_false_2 by auto. destruct (doUnion_ok uninit this r) as (rows&E&R&G); [done..|]. rewrite E. cbn.
    exists x, (push_rows r rows). split; [done|]. split; [apply reordered_refl|]. split; [by apply table_ok_push|]. split; [done|].
    rewrite sols_push, G. by rewrite (sols_nil r Hr0), Minus_disjoint.
  - rewrite Minus_common by done. case_bool_decide as Ex.
    + exists x, this. split; [done|]. split; [apply reordered_refl|]. split; [done|]. split; [done|]. symmetry. apply filter_all.
      apply Forall_forall. intros a _. unfold agreeing. by rewrite (sols_nil x Ex).
    + destruct (sorted_copy this x HT HX) as (x'&E&Hre&HX'&Hcv&HS). rewrite E. cbn [mbind option_bind].
      pose proof Hre as (rows&Hx'&HP). destruct (reordered_ok _ _ Hre HX) as [_ Hsols].
      destruct (minus_rows_ok this x' (result this)) as (bs&Eb&Fb); try done; [by apply HT|by subst x'|by subst x'|].
      rewrite Hcv in Eb. rewrite Eb. cbn [mbind option_bind]. rewrite Fb.
      destruct (doUnion_ok uninit (set_result this (filter (fun t => agreeing (row_sol this t) (sols x') = []) (result this))) r) as (rows'&E'&R&G).
      { split; [apply HT|]. apply Forall_forall. intros t [_ Ht]%list_elem_of_filter. pose proof (ok_rows _ HT) as F. rewrite Forall_forall in F. by apply F. }
      { done. }
      { done. }
      rewrite E'. cbn. exists x', (push_rows r rows'). split; [done|]. split; [done|]. split; [by apply table_ok_push|]. split; [done|].
      rewrite sols_push, G. rewrite (sols_nil r Hr0). cbn [app].
      etrans; [exact (@sols_filter this (fun a => agreeing a (sols x') = []) (fun a => list_eq_nil_dec (agreeing a (sols x'))))|]. apply list_filter_iff'. intros a _.
      assert (Hm : agreeing a (sols x') ≡ₚ agreeing a (sols x)) by (unfold agreeing; by rewrite Hsols).
      split; intros En; rewrite En in Hm; [by apply Permutation_nil_l in Hm|by apply Permutation_nil_r in Hm].
Qed.

(** ** Tables without common variables *)

Lemma bind_swap {A B C} (f : A -> B -> C) (l : list A) (k : list B) :
  (l ≫= fun a => f a <$> k) ≡ₚ (k ≫= fun b => (fun a => f a b) <$> l).
Proof using Type.
  revert k. induction l as [|a l IH]; intros k; cbn.
  - induction k; [done|]. done.
  - rewrite IH. clear IH. induction k as [|b k IHk]; [done|]. cbn. rewrite <- IHk. solve_Permutation.
Qed.

Lemma fmap_of_bind {A B C} (f : B -> C) (g : A -> list B) (l : list A) : f <$> (l ≫= g) = l ≫= fun a => f <$> g a.
Proof using Type. induction l as [|a l IH]; [done|]. rewrite !bind_cons, fmap_app, IH. done. Qed.

Lemma bind_ext_in {A B} (f g : A -> list B) (l : list A) : (forall a, a ∈ l -> f a = g a) -> l ≫= f = l ≫= g.
Proof using Type.
  induction l as [|a l IH]; intros H; [done|]. rewrite !bind_cons. rewrite (H a), IH; [done| |]; intros; [apply H|]; set_solver.
Qed.

Lemma bind_seq_lookup {A B} (l : list A) (F : option A -> list B) : (seq 0 (length l) ≫= fun i => F (l !! i)) = l ≫= fun a => F (Some a).
Proof using Type.
  revert F. induction l as [|a l IH]; intros F; [done|]. cbn [length seq]. rewrite !bind_cons. f_equal.
  rewrite <- fmap_S_seq. rewrite list_fmap_bind. apply (IH F).
Qed.

Lemma fmap_seq_lookup {A B} (l : list A) (F : option A -> B) : (fun i => F (l !! i)) <$> seq 0 (length l) = (fun a => F (Some a)) <$> l.
Proof using Type.
  revert F. induction l as [|a l IH]; intros F; [done|]. cbn [length seq]. rewrite !fmap_cons. f_equal.
  rewrite <- fmap_S_seq, <- list_fmap_compose. apply (IH F).
Qed.

Lemma pair_order_perm n m : pair_order n m ≡ₚ (seq 0 n ≫= fun i => (fun j => (i, j)) <$> seq 0 m).
Proof using Type. unfold pair_order. destruct (n <? m)%nat; [done|]. symmetry. apply bind_swap. Qed.

Lemma pair_order_bounds n m i j : (i, j) ∈ pair_order n m -> (i < n)%nat /\ (j < m)%nat.
Proof using Type.
  rewrite pair_order_perm, list_elem_of_bind. intros (i'&(j'&E&Hj)%list_elem_of_fmap&Hi). simplify_eq.
  apply elem_of_seq in Hi, Hj. lia.
Qed.

Lemma pair_order_length n m : length (pair_order n m) = (n * m)%nat.
Proof using Type.
  rewrite pair_order_perm. assert (G : forall k (l : list nat), length l = k -> length (l ≫= fun i => (fun j => (i, j)) <$> seq 0 m) = (k * m)%nat).
  { intros k l <-. induction l as [|a l IH]; [done|]. rewrite bind_cons, length_app, length_fmap, length_seq, IH. done. }
  apply G, length_seq.
Qed.

(** If one side has at most one row, no row of the other side is used twice. *)
Lemma pair_order_fst n m : (m <= 1)%nat -> NoDup (pair_order n m).*1.
Proof using Type.
  intros H. assert (E : m = 0%nat \/ m = 1%nat) by lia. rewrite pair_order_perm. destruct E as [-> | ->].
  - induction (seq 0 n); [constructor|done].
  - replace ((seq 0 n ≫= fun i => (fun j => (i, j)) <$> seq 0 1).*1) with (seq 0 n); [apply NoDup_seq|].
    induction (seq 0 n) as [|a l IH]; [done|]. cbn. f_equal. exact IH.
Qed.
Lemma pair_order_snd n m : (n <= 1)%nat -> NoDup (pair_order n m).*2.
Proof using Type.
  intros H. assert (E : n = 0%nat \/ n = 1%nat) by lia. rewrite pair_order_perm. destruct E as [-> | ->]; [constructor|].
  cbn. rewrite app_nil_r, <- list_fmap_compose. rewrite (list_fmap_ext _ id); [|done]. rewrite list_fmap_id. apply NoDup_seq.
Qed.

(** The value a pair of positions stands for. *)
Definition pair_sol (this x : TempResult) (ij : nat * nat) : gmap string value :=
  match result this !! ij.1, result x !! ij.2 with
  | Some t, Some u => row_sol this t ∪ row_sol x u
  | _, _ => ∅
  end.

Lemma pair_sols this x : table_ok this -> table_ok x -> common_vars this x = [] ->
  pair_sol this x <$> pair_order (length (result this)) (length (result x)) ≡ₚ Join (sols this) (sols x).
Proof using Type.
  intros HT HX Hc. rewrite pair_order_perm.
  assert (E : Join (sols this) (sols x) = (sols this ≫= fun a : gmap string value => (a ∪.) <$> sols x)).
  { unfold Join. apply bind_ext_in. intros a (t&Ht&Hrt&->)%elem_of_sols; [|done]. f_equal. apply filter_all, Forall_forall.
    intros b (u&Hu&Hru&->)%elem_of_sols; [|done]. apply map_agree_spec. intros v p q Hp Hq.
    exfalso. assert (Ho : overlap (row_sol this t) (row_sol x u)) by (exists v; eauto). by apply rows_overlap in Ho. }
  rewrite E. clear E. unfold sols at 1 2. rewrite list_fmap_bind, fmap_of_bind. unfold compose. erewrite <- (bind_seq_lookup (result this) (fun o => match o with Some t => (row_sol this t ∪.) <$> (row_sol x <$> result x) | None => [] end)).
  apply Permutation_refl'. apply bind_ext_in. intros i Hi%elem_of_seq. cbn.
  destruct (lookup_lt_is_Some_2 (result this) i) as [t Ht]; [lia|]. rewrite Ht. rewrite <- !list_fmap_compose. unfold compose.
  rewrite <- (fmap_seq_lookup (result x) (fun o => match o with Some u => row_sol this t ∪ row_sol x u | None => ∅ end)).
  apply list_fmap_ext. intros k j _. unfold pair_sol. cbn. rewrite Ht. done.
Qed.

Definition ids_right (this x r : TempResult) (ij : nat * nat) (row : ResultPair) : Prop :=
  exists t u, result this !! ij.1 = Some t /\ result x !! ij.2 = Some u /\ length (rp_id row) = length (id_varset r) /\
    zmap (id_varset r) (rp_id row) = zmap (id_varset x) (rp_id u) ∪ zmap (id_varset this) (rp_id t).
Definition strs_right (this x r : TempResult) (ij : nat * nat) (row : ResultPair) : Prop :=
  exists t u, result this !! ij.1 = Some t /\ result x !! ij.2 = Some u /\ length (rp_str row) = length (str_varset r) /\
    zmap (str_varset r) (rp_str row) = zmap (str_varset x) (rp_str u) ∪ zmap (str_varset this) (rp_str t).

Lemma row_ok_at T i t : table_ok T -> result T !! i = Some t -> row_ok T t.
Proof using Type. intros [_ HF] Hi. by eapply Forall_lookup_1. Qed.

(** The pass over the ids. *)
Lemma pair_ids_ok this x r order : table_ok this -> table_ok x -> table_ok r -> join_vars r this x ->
  Forall (fun ij => (ij.1 < length (result this))%nat /\ (ij.2 < length (result x))%nat) order ->
  exists rows,
    (if 0 <? id_cols r
     then ids ← mapM (pair_ids uninit this x r) order;
       Some (zip_with (fun row v => mk_ResultPair v (rp_str row)) (replicate (length order) (mk_ResultPair [] [])) ids)
     else Some (replicate (length order) (mk_ResultPair [] []))) = Some rows /\
    Forall2 (ids_right this x r) order rows /\ Forall (fun row => rp_str row = []) rows.
Proof using Type.
  intros HT HX HR [Hj _] HF. destruct (table_ok_parts _ HT) as (Ti&_&_), (table_ok_parts _ HX) as (Xi&_&_), (table_ok_parts _ HR) as (Ri&_&_).
  destruct (Z.ltb_spec 0 (id_cols r)) as [Hc|Hc].
  - enough (G : exists ids, mapM (pair_ids uninit this x r) order = Some ids /\
      Forall2 (fun ij v => ids_right this x r ij (mk_ResultPair v [])) order ids).
    { destruct G as (ids&E&F). rewrite E. cbn. eexists. split; [done|]. pose proof (Forall2_length _ _ _ F) as L. clear E HF.
      split; induction F; cbn; constructor; eauto. }
    induction HF as [|[i j] order [Hi Hj'] _ (ids&E&F)]; [by exists []|]. cbn in Hi, Hj'.
    destruct (lookup_lt_is_Some_2 _ _ Hi) as [t Ht], (lookup_lt_is_Some_2 _ _ Hj') as [u Hu].
    destruct (fill2_ok (id_varset this) (id_varset x) (id_varset r) (rp_id t) (rp_id u) (replicate (Z.to_nat (id_cols r)) uninit))
      as (v1&v&E1&E2&L&Z); [done..|by eapply row_ok_at|by eapply row_ok_at|apply length_new_ids|].
    assert (Ep : pair_ids uninit this x r (i, j) = Some v).
    { unfold pair_ids. cbn [fst snd]. rewrite Ht, Hu. cbn [mbind option_bind fill_ids]. rewrite E1. cbn [mbind option_bind]. by rewrite E2. }
    exists (v :: ids). cbn [mapM]. rewrite Ep. cbn [mbind option_bind]. rewrite E. split; [done|]. constructor; [by exists t, u|done].
  - eexists. split; [done|]. pose proof (id_vars_nil r ltac:(lia)) as En.
    assert (Et : id_varset this = []) by (destruct (id_varset this) as [|v l]; [done|]; specialize (Hj v); rewrite En in Hj; set_solver).
    assert (Eu : id_varset x = []) by (destruct (id_varset x) as [|v l]; [done|]; specialize (Hj v); rewrite En in Hj; set_solver).
    split; [|apply Forall_replicate; done].
    induction HF as [|[i j] order [Hi Hj'] _ IH]; [constructor|]. cbn. constructor; [|done]. cbn in Hi, Hj'.
    destruct (lookup_lt_is_Some_2 _ _ Hi) as [t Ht], (lookup_lt_is_Some_2 _ _ Hj') as [u Hu].
    exists t, u. cbn. rewrite En, Et, Eu. split_and!; [done..|]. done.
Qed.

(** Moving the strings out of a row that is not used again, or has none. *)
Lemma moved_nothing T i t : table_ok T -> str_varset T = [] -> result T !! i = Some t ->
  set_result T (<[i := moved_from moved (str_cols T) t]> (result T)) = T.
Proof using Type.
  intros HT Hs Hi. destruct (row_ok_at T i t HT Hi) as [_ Hl]. unfold moved_from, str_cols, getVarsetSize. rewrite Hs in *. cbn.
  rewrite list_insert_id; [by destruct T|]. rewrite Hi. by destruct t.
Qed.

Lemma moved_row_ok T i t : table_ok T -> result T !! i = Some t ->
  table_ok (set_result T (<[i := moved_from moved (str_cols T) t]> (result T))).
Proof using Type.
  intros HT Hi. destruct (row_ok_at T i t HT Hi) as [Hl Hl']. split; [apply HT|]. apply Forall_insert; [apply HT|].
  split; [done|]. cbn. rewrite length_app, length_replicate, length_drop. unfold str_cols, getVarsetSize. lia.
Qed.

Definition unused (T : TempResult) (l : list nat) : Prop := str_varset T = [] \/ NoDup l.

Lemma unused_tail T i l : unused T (i :: l) -> unused T l.
Proof using Type. intros [H|H]; [by left|right]. by apply NoDup_cons in H as [_ H]. Qed.

Lemma moved_elsewhere T i t l : table_ok T -> result T !! i = Some t -> unused T (i :: l) ->
  forall k, k ∈ l -> <[i := moved_from moved (str_cols T) t]> (result T) !! k = result T !! k.
Proof using Type.
  intros HT Hi [Hs|Hn] k Hk.
  - pose proof (moved_nothing T i t HT Hs Hi) as E. apply (f_equal result) in E. cbn in E. by rewrite E.
  - apply NoDup_cons in Hn as [Hn _]. apply list_lookup_insert_ne. intros ->. done.
Qed.

Lemma pair_strs_ok order : forall this x r rows this0 x0, table_ok this -> table_ok x -> table_ok r -> join_vars r this x ->
  str_varset this0 = str_varset this -> str_varset x0 = str_varset x ->
  Forall (fun ij => (ij.1 < length (result this))%nat /\ (ij.2 < length (result x))%nat) order ->
  (forall k, k ∈ order.*1 -> result this !! k = result this0 !! k) -> (forall k, k ∈ order.*2 -> result x !! k = result x0 !! k) ->
  unused this order.*1 -> unused x order.*2 -> length rows = length order -> Forall (fun row => rp_str row = []) rows ->
  exists rows' ts xs, pair_strs moved order this x r rows = Some (rows', set_result this ts, set_result x xs) /\
    rp_id <$> rows' = rp_id <$> rows /\ Forall2 (strs_right this0 x0 r) order rows' /\
    (str_varset this = [] -> ts = result this) /\ (str_varset x = [] -> xs = result x).
Proof using Type.
  induction order as [|[i j] order IH]; intros this x r rows this0 x0 HT HX HR Hj S0 S0' HF A1 A2 U1 U2 HL HE.
  { destruct rows; [|done]. exists [], (result this), (result x). by destruct this, x. }
  destruct rows as [|row rows]; [done|]. apply Forall_cons in HF as [[Hi Hj'] HF]. apply Forall_cons in HE as [Hrow HE]. cbn in Hi, Hj'.
  destruct (lookup_lt_is_Some_2 _ _ Hi) as [t Ht], (lookup_lt_is_Some_2 _ _ Hj') as [u Hu].
  destruct (table_ok_parts _ HT) as (_&Ts&_), (table_ok_parts _ HX) as (_&Xs&_), (table_ok_parts _ HR) as (_&Rs&_).
  destruct (fill2_ok (str_varset this) (str_varset x) (str_varset r) (rp_str t) (rp_str u) (resize (Z.to_nat (str_cols r)) ""%string (rp_str row)))
    as (v1&v&E1&E2&L&Z); [done..|apply Hj|by eapply row_ok_at|by eapply row_ok_at|rewrite length_resize; unfold str_cols, getVarsetSize; lia|].
  cbn [pair_strs]. rewrite Ht, Hu. cbn [mbind option_bind fill_strs]. rewrite E1. cbn [mbind option_bind]. rewrite E2. cbn [mbind option_bind].
  destruct (IH (set_result this (<[i := moved_from moved (str_cols this) t]> (result this)))
    (set_result x (<[j := moved_from moved (str_cols x) u]> (result x))) r rows this0 x0) as (rows'&ts&xs&E&I&S&Q1&Q2); try done.
  - by apply moved_row_ok.
  - by apply moved_row_ok.
  - cbn. rewrite !length_insert. done.
  - cbn. intros k Hk. rewrite (moved_elsewhere this i t _ HT Ht U1 k Hk). apply A1. cbn. set_solver.
  - cbn. intros k Hk. rewrite (moved_elsewhere x j u _ HX Hu U2 k Hk). apply A2. cbn. set_solver.
  - exact (unused_tail _ _ _ U1).
  - exact (unused_tail _ _ _ U2).
  - cbn in HL. lia.
  - rewrite E. cbn [mbind option_bind]. exists (mk_ResultPair (rp_id row) v :: rows'), ts, xs. split; [done|]. split; [cbn; by f_equal|].
    split; [|split; intros Hs].
    + constructor; [|done]. exists t, u. cbn. rewrite <- A1, <- A2 by (cbn; set_solver). split_and!; [done..|]. by rewrite S0, S0'.
    + rewrite Q1 by done. by apply (f_equal result (moved_nothing this i t HT Hs Ht)).
    + rewrite Q2 by done. by apply (f_equal result (moved_nothing x j u HX Hs Hu)).
Qed.

(** The order of the pairs respects what is moved. *)
Definition strings_once (this x : TempResult) : Prop :=
  (str_varset this = [] \/ (length (result x) <= 1)%nat) /\ (str_varset x = [] \/ (length (result this) <= 1)%nat).

(** Both passes, when there are no string columns and when there are. *)
Lemma product_rows this x r : table_ok this -> table_ok x -> table_ok r -> join_vars r this x -> result r = [] -> strings_once this x ->
  exists ts xs rows, doJoin_product uninit moved this x r = Some (set_result this ts, set_result x xs, set_result r rows) /\
    (str_varset this = [] -> ts = result this) /\ (str_varset x = [] -> xs = result x) /\
    Forall2 (fun ij row => ids_right this x r ij row /\ strs_right this x r ij row) (pair_order (length (result this)) (length (result x))) rows.
Proof using Type.
  intros HT HX HR Hj Hr [U1 U2]. unfold doJoin_product. cbv zeta. rewrite Hr. set (order := pair_order _ _).
  assert (HF : Forall (fun ij => (ij.1 < length (result this))%nat /\ (ij.2 < length (result x))%nat) order).
  { apply Forall_forall. intros [i j] Hij. by apply pair_order_bounds. }
  assert (E0 : resize (length (result this) * length (result x)) (mk_ResultPair [] []) [] = replicate (length order) (mk_ResultPair [] [])).
  { unfold order. rewrite pair_order_length. apply resize_nil. }
  rewrite E0. destruct (pair_ids_ok this x r order HT HX HR Hj HF) as (rows&E&FI&FE). rewrite E. cbn [mbind option_bind].
  pose proof (Forall2_length _ _ _ FI) as L.
  destruct (Z.ltb_spec 0 (str_cols r)) as [Hc|Hc].
  - destruct (pair_strs_ok order this x r rows this x) as (rows'&ts&xs&Es&EI&FS&Q1&Q2); try done.
    + destruct U1 as [U1|U1]; [by left|right]. by apply pair_order_fst.
    + destruct U2 as [U2|U2]; [by left|right]. by apply pair_order_snd.
    + rewrite Es. cbn [mbind option_bind]. exists ts, xs, rows'. split_and!; [done..|].
      clear - FI FS EI. revert rows EI FI. induction FS as [|ij row' order rows' HS FS IH]; intros [|row rows] EI FI; [constructor|done|done|].
      cbn in EI. injection EI as Ei EI. apply Forall2_cons in FI as [HI FI]. constructor; [|by eapply IH].
      split; [|done]. unfold ids_right in *. by rewrite Ei.
  - cbn [mbind option_bind]. exists (result this), (result x), rows. split; [by destruct this, x|]. split_and!; [done..|].
    pose proof (str_vars_nil r ltac:(lia)) as En. destruct Hj as [_ Hj].
    assert (Et : str_varset this = []) by (destruct (str_varset this) as [|v l]; [done|]; specialize (Hj v); rewrite En in Hj; set_solver).
    assert (Eu : str_varset x = []) by (destruct (str_varset x) as [|v l]; [done|]; specialize (Hj v); rewrite En in Hj; set_solver).
    clear - FI FE En Et Eu. induction FI as [|ij row order rows HI FI IH]; [constructor|]. apply Forall_cons in FE as [Hs FE].
    constructor; [|by apply IH]. split; [done|]. destruct HI as (t&u&Ht&Hu&_). exists t, u. rewrite Hs, En, Et, Eu. done.
Qed.

Lemma disjoint_aligned this x : table_ok this -> table_ok x -> common_vars this x = [] -> aligned this x.
Proof using Type.
  intros HT HX Hc v Hv. assert (Hin : v ∈ common_vars this x) by (apply elem_of_common; [done..|]; rewrite !elem_of_vars; tauto).
  rewrite Hc in Hin. set_solver.
Qed.

Lemma right_row this x r ij row : aligned this x -> ids_right this x r ij row /\ strs_right this x r ij row ->
  row_ok r row /\ exists t u, result this !! ij.1 = Some t /\ result x !! ij.2 = Some u /\ row_sol r row = row_sol x u ∪ row_sol this t.
Proof using Type.
  intros Ha [(t&u&Ht&Hu&L1&Z1) (t'&u'&Ht'&Hu'&L2&Z2)]. simplify_eq. split; [done|]. exists t, u. split_and!; [done..|].
  unfold row_sol. rewrite Z1, Z2. apply sol_union. intros v Hv. apply zmap_None. intros Hin. apply (Ha v). left. split; [|done].
  destruct (decide (v ∈ id_varset this)) as [|Hn]; [done|]. rewrite zmap_None in Hv by done. by destruct Hv.
Qed.

Lemma doJoin_disjoint this x r : table_ok this -> table_ok x -> table_ok r -> join_vars r this x -> common_vars this x = [] ->
  result r = [] -> strings_once this x ->
  exists ts xs rows, doJoin uninit moved this x r = Some (set_result this ts, set_result x xs, set_result r rows) /\
    (str_varset this = [] -> ts = result this) /\ (str_varset x = [] -> xs = result x) /\ Forall (row_ok r) rows /\
    row_sol r <$> rows ≡ₚ Join (sols this) (sols x).
Proof using Type.
  intros HT HX HR Hj Hc Hr Hs. destruct (product_rows this x r) as (ts&xs&rows&E&Q1&Q2&F); [done..|].
  exists ts, xs, rows. unfold doJoin. cbv zeta. rewrite common_empty, bool_decide_eq_true_2 by done. rewrite E.
  pose proof (disjoint_aligned this x HT HX Hc) as Ha. split_and!; [done..| |].
  - apply Forall_forall. intros row Hrow. apply list_elem_of_lookup in Hrow as [k Hk].
    destruct (Forall2_lookup_r _ _ _ _ _ F Hk) as (ij&_&Hr'). by apply (right_row this x r ij row) in Hr' as [? _].
  - rewrite <- pair_sols by done. apply Permutation_refl'. clear - F Ha HT HX Hc. revert F.
    generalize (pair_order (length (result this)) (length (result x))). intros order F. induction F as [|ij row order rows Hr F IH]; [done|].
    f_equal; [|done]. destruct (right_row this x r ij row Ha Hr) as (_&t&u&Ht&Hu&->).
    unfold pair_sol. rewrite Ht, Hu. apply agree_union_comm. apply map_agree_spec. intros v p q Hp Hq. exfalso.
    assert (Hv : v ∈ common_vars this x).
    { apply elem_of_common; [done..|]. split; [apply (row_sol_dom this t)|apply (row_sol_dom x u)]; eauto using row_ok_at. }
    rewrite Hc in Hv. set_solver.
Qed.
End Ops.
