(* ===== verification/TempResultSet.v ===== *)
(** * Sets of tables of results

    [TempResultSet] (Query/TempResult.cpp, from line 1594): the results of a part of
    a query, as tables with different columns.  [findCompatibleResult] gives the
    position of the table with given columns, and adds an empty one when there is
    none.  The operations go through the pairs of tables of two sets and leave the
    results in a third one.

    A variable can be a column of ids in one table and of strings in another one;
    before tables are compared, columns of ids are turned into strings
    ([convertId2Str]) when the other set has the variable as strings.  The strings
    of ids come from the store: [getEntityByID], [getLiteralByID] and
    [getPredicateByID] of [KVstore], and [randomAccess] of the string index for the
    projection, are parameters. *)

From stdpp Require Import strings.
From S2P Require Import Prelude Util TempResult.

Record TempResultSet := mk_TempResultSet { results : list TempResult; initial : bool }.

Definition set_results (R : TempResultSet) (l : list TempResult) : TempResultSet := mk_TempResultSet l (initial R).

(** ** Finding a table *)

Fixpoint find_compatible (i : nat) (l : list TempResult) (_id_varset _str_varset : Varset) : option nat :=
  match l with
  | [] => None
  | T :: l' => if vs_eq (id_varset T) _id_varset && vs_eq (str_varset T) _str_varset then Some i
               else find_compatible (S i) l' _id_varset _str_varset
  end.

Definition findCompatibleResult (rs : list TempResult) (_id_varset _str_varset : Varset) : nat * list TempResult :=
  match find_compatible 0 rs _id_varset _str_varset with
  | Some i => (i, rs)
  | None => (length rs, rs ++ [mk_TempResult _id_varset _str_varset []])
  end.

(** ** Ids into strings *)

Section Convert.
Context (str_of : string -> Z -> string).

(** The loop over the columns of ids of one row. *)
Fixpoint convert_cells (vars : Varset) (pos ids v : list Z) (strs : list string) : option (list Z * list string) :=
  match vars, pos, ids with
  | x :: vars', p :: pos', z :: ids' =>
      if p =? -1 then convert_cells vars' pos' ids' v (strs ++ [str_of x z])
      else v ← set_Z v p z; convert_cells vars' pos' ids' v strs
  | [], _, _ => Some (v, strs)
  | _, _, _ => None
  end.

Context (uninit : Z).

Definition convert_row (T : TempResult) (new_id_varset : Varset) (row : ResultPair) : option ResultPair :=
  '(v, strs) ← convert_cells (id_varset T) (mapTo (id_varset T) new_id_varset) (rp_id row)
     (replicate (Z.to_nat (getVarsetSize new_id_varset)) uninit) (rp_str row);
  Some (mk_ResultPair v strs).

Definition convertId2Str (T : TempResult) (convert_varset : Varset) : option TempResult :=
  let new_id_varset := vs_sub (id_varset T) convert_varset in
  let new_str_varset := vs_add (str_varset T) convert_varset in
  rows ← mapM (convert_row T new_id_varset) (result T);
  Some (mk_TempResult new_id_varset new_str_varset rows).

(** All columns of strings of a set, and the tables of the other set that have ids
    in one of them. *)
Definition str_vars (l : list TempResult) : Varset := fold_left (fun vs T => vs_add vs (str_varset T)) l [].

Definition align_tables (l : list TempResult) (strs : Varset) : option (list TempResult) :=
  mapM (fun T => if hasCommonVar (id_varset T) strs then convertId2Str T (vs_mul (id_varset T) strs) else Some T) l.
End Convert.

Section Operations.
Context (uninit : Z) (moved : string).
Context (getEntityByID getLiteralByID getPredicateByID : Z -> string) (entity_literal_varset : Varset).

Definition kv_str_of (var : string) (id : Z) : string :=
  if findVar entity_literal_varset var then
    if id <? LITERAL_FIRST_ID then getEntityByID id else getLiteralByID id
  else getPredicateByID id.

(** The first step of [doJoin], [doOptional] and [doMinus]. *)
Definition align_sets (ts xs : list TempResult) : option (list TempResult * list TempResult) :=
  let this_str_varset := str_vars ts in
  let x_str_varset := str_vars xs in
  ts ← align_tables kv_str_of uninit ts x_str_varset;
  xs ← align_tables kv_str_of uninit xs this_str_varset;
  Some (ts, xs).

(** ** [doUnion] *)

Definition union_table (T : TempResult) (rs : list TempResult) : option (list TempResult) :=
  let '(pos, rs) := findCompatibleResult rs (id_varset T) (str_varset T) in
  if bool_decide (result T = []) then Some rs
  else r ← rs !! pos; r ← doUnion uninit T r; Some (<[pos := r]> rs).

Fixpoint union_tables (l rs : list TempResult) : option (list TempResult) :=
  match l with
  | [] => Some rs
  | T :: l' => rs ← union_table T rs; union_tables l' rs
  end.

Definition set_doUnion (this x r : TempResultSet) : option TempResultSet :=
  rs ← union_tables (results this) (results r);
  rs ← union_tables (results x) rs;
  Some (set_results r rs).

(** ** [doJoin] *)

Definition table_pairs (n m : nat) : list (nat * nat) := seq 0 n ≫= fun i => (fun j => (i, j)) <$> seq 0 m.

(** The three vectors of tables that the loops change. *)
Definition tables : Type := list TempResult * list TempResult * list TempResult.

Definition join_pair (i j : nat) (st : tables) : option tables :=
  let '(ts, xs, rs) := st in
  t ← ts !! i; u ← xs !! j;
  let '(pos, rs) := findCompatibleResult rs (vs_add (id_varset t) (id_varset u)) (vs_add (str_varset t) (str_varset u)) in
  r ← rs !! pos;
  '(t, u, r) ← doJoin uninit moved t u r;
  Some (<[i := t]> ts, <[j := u]> xs, <[pos := r]> rs).

Fixpoint join_pairs (l : list (nat * nat)) (st : tables) : option tables :=
  match l with
  | [] => Some st
  | (i, j) :: l' => st ← join_pair i j st; join_pairs l' st
  end.

Definition never_filled (R : TempResultSet) : bool := bool_decide (results R = []) && initial R.
Definition fill_first (R : TempResultSet) : TempResultSet := mk_TempResultSet (results R) false.

Definition set_doJoin (this x r : TempResultSet) : option (TempResultSet * TempResultSet * TempResultSet) :=
  if never_filled this then
    let this := fill_first this in
    r ← set_doUnion this x r; Some (this, x, r)
  else
    '(ts, xs) ← align_sets (results this) (results x);
    '(ts, xs, rs) ← join_pairs (table_pairs (length ts) (length xs)) (ts, xs, results r);
    Some (set_results this ts, set_results x xs, set_results r rs).

(** ** [doOptional] *)

(** The inner loop, from the table [j] of [x] on; [noadd_pos] stays what it is. *)
Fixpoint optional_tables (fuel i j noadd_pos : nat) (binding : list bool) (st : tables) : option tables :=
  let '(ts, xs, rs) := st in
  match fuel with
  | O => Some st
  | S f =>
      t ← ts !! i; u ← xs !! j;
      let '(add_pos, rs) := findCompatibleResult rs (vs_add (id_varset t) (id_varset u)) (vs_add (str_varset t) (str_varset u)) in
      '(binding, t, u, rs) ← doOptional uninit moved binding t u rs noadd_pos add_pos (S j =? length xs)%nat;
      optional_tables f i (S j) noadd_pos binding (<[i := t]> ts, <[j := u]> xs, rs)
  end.

Definition optional_table (i : nat) (st : tables) : option tables :=
  let '(ts, xs, rs) := st in
  t ← ts !! i;
  let '(noadd_pos, rs) := findCompatibleResult rs (id_varset t) (str_varset t) in
  if bool_decide (xs = []) then
    r ← rs !! noadd_pos; r ← doUnion uninit t r; Some (ts, xs, <[noadd_pos := r]> rs)
  else optional_tables (length xs) i 0 noadd_pos (replicate (length (result t)) false) (ts, xs, rs).

Fixpoint each_table (step : nat -> tables -> option tables) (l : list nat) (st : tables) : option tables :=
  match l with
  | [] => Some st
  | i :: l' => st ← step i st; each_table step l' st
  end.

Definition set_doOptional (this x r : TempResultSet) : option (TempResultSet * TempResultSet * TempResultSet) :=
  if never_filled this then
    let this := fill_first this in
    r ← set_doUnion this x r; Some (this, x, r)
  else
    '(ts, xs) ← align_sets (results this) (results x);
    '(ts, xs, rs) ← each_table optional_table (seq 0 (length ts)) (ts, xs, results r);
    Some (set_results this ts, set_results x xs, set_results r rs).

(** ** [doMinus]

    The tables of [x] are taken away one after the other; only the last step writes
    to [r], the others to fresh tables.  [t] is the table of this set in the first
    round and [temp[j - 1]] later; [t0] has the columns of the fresh tables. *)
Fixpoint minus_tables (us : list TempResult) (t0 t : TempResult) (rs : list TempResult)
    : option (list TempResult * list TempResult) :=
  match us with
  | [] => Some ([], rs)
  | [u] =>
      let '(pos, rs) := findCompatibleResult rs (id_varset t0) (str_varset t0) in
      r ← rs !! pos; '(_, u, r) ← doMinus uninit t u r; Some ([u], <[pos := r]> rs)
  | u :: us' =>
      '(_, u, t) ← doMinus uninit t u (mk_TempResult (id_varset t0) (str_varset t0) []);
      '(us', rs) ← minus_tables us' t0 t rs; Some (u :: us', rs)
  end.

Definition minus_table (i : nat) (st : tables) : option tables :=
  let '(ts, xs, rs) := st in
  t ← ts !! i; '(xs, rs) ← minus_tables xs t t rs; Some (ts, xs, rs).

Definition set_doMinus (this x r : TempResultSet) : option (TempResultSet * TempResultSet * TempResultSet) :=
  if bool_decide (results x = []) then r ← set_doUnion this x r; Some (this, x, r)
  else
    '(ts, xs) ← align_sets (results this) (results x);
    '(ts, xs, rs) ← each_table minus_table (seq 0 (length ts)) (ts, xs, results r);
    Some (set_results this ts, set_results x xs, set_results r rs).
End Operations.

(** ** [doFilter] and [doBind]

    [results[0]] is read before and after [doFilter], so an empty set is an error. *)
Definition set_doFilter (keep : TempResult -> ResultPair -> bool) (limit_number : Z) (this : TempResultSet) : option TempResultSet :=
  _ ← results this !! 0%nat;
  ts ← mapM (fun T => doFilter (keep T) T limit_number) (results this);
  Some (set_results this ts).

Definition set_doBind (var : string) (rep : TempResult -> ResultPair -> string) (this : TempResultSet) : TempResultSet :=
  let ts := if bool_decide (results this = []) then [mk_TempResult [] [] [mk_ResultPair [] []]] else results this in
  set_results this ((fun T => doBind var (rep T) T) <$> ts).

(** ** [doDistinct1] *)

Section Distinct.
Context (uninit : Z).

(** The rows that differ from the row before. *)
Fixpoint distinct_rows (T r : TempResult) (pos : list Z) (prev : option ResultPair) (rows : list ResultPair) : option (list ResultPair) :=
  match rows with
  | [] => Some []
  | row :: rows' =>
      c ← match prev with
          | None => Some true
          | Some p => c ← compareRow row (id_cols T) pos p (id_cols T) pos; Some (negb (c =? 0))
          end;
      rest ← distinct_rows T r pos (Some row) rows';
      if (c : bool) then new ← new_row uninit r [(T, row)]; Some (new :: rest) else Some rest
  end.

Definition set_doDistinct1 (this r : TempResultSet) : option (TempResultSet * TempResultSet) :=
  match results this, results r with
  | [T], [] =>
      let r0 := mk_TempResult (id_varset T) (str_varset T) [] in
      if bool_decide (result T = []) then Some (this, set_results r [r0])
      else
        let r2this := mapTo (getAllVarset r0) (getAllVarset T) in
        T ← TempResult_sort T r2this;
        rows ← distinct_rows T r0 r2this None (result T);
        Some (set_results this [T], set_results r [push_rows r0 rows])
  | _, _ => Some (this, r)
  end.
End Distinct.

(** ** [doProjection1] *)

Section Projection.
Context (uninit : Z) (randomAccess : Z -> bool -> string) (entity_literal_varset : Varset).

Definition index_str_of (var : string) (id : Z) : string := randomAccess id (findVar entity_literal_varset var).

(** The cells of a row in the columns [pos], [d] where there is none. *)
Definition project_cells {A} (d : A) (pos : list Z) (src : list A) : option (list A) :=
  mapM (fun p => if p =? -1 then Some d else at_Z src p) pos.

Definition project_row (r_id_varset r_str_varset : Varset) (T : TempResult) (row : ResultPair) : option ResultPair :=
  v ← project_cells INVALID (mapTo r_id_varset (id_varset T)) (rp_id row);
  w ← project_cells ""%string (mapTo r_str_varset (str_varset T)) (rp_str row);
  Some (mk_ResultPair v w).

Definition project_table (r_id_varset r_str_varset : Varset) (T : TempResult) : option (list ResultPair) :=
  if hasCommonVar (id_varset T) r_id_varset || hasCommonVar (str_varset T) r_str_varset
  then mapM (project_row r_id_varset r_str_varset T) (result T) else Some [].

Definition set_doProjection1 (proj : Varset) (this r : TempResultSet) : option (TempResultSet * TempResultSet) :=
  let this_str_varset := str_vars (results this) in
  ts ← mapM (fun T => if hasCommonVar (id_varset T) (vs_mul this_str_varset proj)
    then convertId2Str index_str_of uninit T (vs_mul (vs_mul (id_varset T) this_str_varset) proj) else Some T) (results this);
  let this := set_results this ts in
  let r_str_varset := fold_left (fun vs T => vs_add vs (vs_mul (str_varset T) proj)) ts [] in
  let r_id_varset := vs_sub proj r_str_varset in
  if bool_decide (results r = []) then
    rows ← mapM (project_table r_id_varset r_str_varset) ts;
    Some (this, set_results r [mk_TempResult r_id_varset r_str_varset (concat rows)])
  else Some (this, r).
End Projection.
