(* ===== verification/TempResultSetSpec.v ===== *)
(** * Sets of tables as bags of solutions

    The operations of [TempResultSet] compute those of the SPARQL algebra on the
    solutions of two sets of tables, as maps from variables to strings. *)

From stdpp Require Import strings.
From S2P Require Import Prelude Util TempResult TempResultSort TempResultSpec TempResultOps TempResultSet.

(** ** Lists of tables *)

Lemma bind_bind {A B C} (f : A -> list B) (g : B -> list C) l : (l ≫= f) ≫= g = l ≫= fun a => f a ≫= g.
Proof. induction l as [|a l IH]; [done|]. by rewrite !bind_cons, bind_app, IH. Qed.

Lemma bind_perm {A B} (f g : A -> list B) l : (forall a, f a ≡ₚ g a) -> (l ≫= f) ≡ₚ (l ≫= g).
Proof. intros H. induction l as [|a l IH]; [done|]. by rewrite !bind_cons, H, IH. Qed.

Definition all_sols (l : list TempResult) : list (gmap string value) := l ≫= sols.
Lemma all_sols_cons T l : all_sols (T :: l) = sols T ++ all_sols l.
Proof. done. Qed.

Definition shape (l : list TempResult) : list (Varset * Varset) := (fun T => (id_varset T, str_varset T)) <$> l.

Lemma shape_lookup l k i T : shape l = shape k -> k !! i = Some T -> exists U, l !! i = Some U /\ id_varset U = id_varset T /\ str_varset U = str_varset T.
Proof.
  intros E H. apply (f_equal (fun l => l !! i)) in E. unfold shape in E. rewrite !list_lookup_fmap, H in E. cbn in E.
  destruct (l !! i) as [U|]; [|done]. exists U. cbn in E. naive_solver.
Qed.

Lemma all_sols_insert l k T U new : l !! k = Some T -> sols U = sols T ++ new -> all_sols (<[k := U]> l) ≡ₚ all_sols l ++ new.
Proof.
  intros Hk HU. pose proof (lookup_lt_Some _ _ _ Hk). rewrite insert_take_drop by done. rewrite <- (take_drop_middle l k T Hk) at 3.
  unfold all_sols. rewrite !bind_app, !bind_cons, HU. solve_Permutation.
Qed.

Lemma push_at rs k r rows : rs !! k = Some r -> Forall table_ok rs -> Forall (row_ok r) rows ->
  Forall table_ok (<[k := push_rows r rows]> rs) /\ shape (<[k := push_rows r rows]> rs) = shape rs /\
  all_sols (<[k := push_rows r rows]> rs) ≡ₚ all_sols rs ++ (row_sol r <$> rows).
Proof.
  intros Hk HF Hr. split_and!.
  - apply Forall_insert; [done|]. apply table_ok_push; [|done]. by eapply Forall_lookup_1.
  - unfold shape. rewrite list_fmap_insert. apply list_insert_id. by rewrite list_lookup_fmap, Hk.
  - eapply all_sols_insert; [done|]. apply sols_push.
Qed.

(** No two tables of a set have the same columns. *)
Definition separate (ts : list TempResult) : Prop :=
  forall i k t u, ts !! i = Some t -> ts !! k = Some u -> i <> k -> ~ same_vars t u.

Lemma separate_shape l k : shape l = shape k -> separate k -> separate l.
Proof.
  intros E H i j t u Hi Hj Hij [S1 S2]. destruct (shape_lookup k l i t) as (t'&Ht&I1&I2), (shape_lookup k l j u) as (u'&Hu&J1&J2); try done.
  apply (H i j t' u' Ht Hu Hij). rewrite <- J1 in S1. rewrite <- J2 in S2. split; intros v; [by rewrite I1|by rewrite I2].
Qed.

Lemma separate_snoc l r : separate l -> (forall T, T ∈ l -> ~ same_vars T r) -> separate (l ++ [r]).
Proof.
  intros H Hr i k t u Hi Hk Hik. apply lookup_app_Some in Hi as [Hi|[Li Hi]], Hk as [Hk|[Lk Hk]].
  - by apply (H i k).
  - apply list_lookup_singleton_Some in Hk as [_ <-]. apply Hr. by eapply list_elem_of_lookup_2.
  - apply list_lookup_singleton_Some in Hi as [_ <-]. intros [S1 S2]. apply (Hr u); [by eapply list_elem_of_lookup_2|].
    split; intros v; [by rewrite S1|by rewrite S2].
  - apply list_lookup_singleton_Some in Hi as [Hi _], Hk as [Hk _]. lia.
Qed.

(** ** [doOptional] of two tables *)

Section Tables.
Context (uninit : Z) (moved : string).

Lemma mark_bound_ok found binding : length binding = length found -> mark_bound found binding = Some (zip_with orb found binding).
Proof using Type.
  revert binding. induction found as [|b found IH]; intros [|c binding] L; try done. cbn in L. cbn. destruct b; by rewrite IH by lia.
Qed.

Definition bound_by (this x : TempResult) : list bool :=
  (fun t => negb (bool_decide (agreeing (row_sol this t) (sols x) = []))) <$> result this.
Definition unbound (this : TempResult) (binding : list bool) : list ResultPair :=
  snd <$> filter (fun bt : bool * ResultPair => bt.1 = false) (zip binding (result this)).

Lemma unbound_sub this binding t : t ∈ unbound this binding -> t ∈ result this.
Proof using Type. unfold unbound. intros ([b u]&->&[_ Hu]%list_elem_of_filter)%list_elem_of_fmap. by apply elem_of_zip_r in Hu. Qed.

Lemma zip_orb_nothing (binding : list bool) {A} (l : list A) (f : A -> bool) : (forall a, a ∈ l -> f a = false) -> length binding = length l ->
  zip_with orb (f <$> l) binding = binding.
Proof using Type.
  revert l. induction binding as [|b binding IH]; intros [|a l] H L; try done. cbn in *. rewrite (H a) by set_solver. cbn.
  f_equal. apply (IH l); [|lia]. intros c Hc. apply H. set_solver.
Qed.

Lemma add_unbound this binding r : table_ok this -> table_ok r -> same_vars r this ->
  exists rows, unbound_rows uninit this binding r = Some rows /\ Forall (row_ok r) rows /\ row_sol r <$> rows = row_sol this <$> unbound this binding.
Proof using Type.
  intros HT HR HS. destruct (table_ok_parts r HR) as (Ri&Rs&_). pose proof (ok_rows _ HT) as F. rewrite Forall_forall in F.
  apply mapM_rows. intros t Ht%unbound_sub. apply new_row1_ok; auto.
Qed.

Lemma doOptional_common binding this x rs rn ra r r' (add : bool) :
  table_ok this -> table_ok x -> aligned this x -> common_vars this x <> [] -> Forall table_ok rs ->
  rs !! ra = Some r -> join_vars r this x -> rs !! rn = Some r' -> same_vars r' this -> length binding = length (result this) ->
  let binding' := zip_with orb (bound_by this x) binding in
  exists x' rs', doOptional uninit moved binding this x rs rn ra add = Some (binding', this, x', rs') /\ reordered x x' /\
    Forall table_ok rs' /\ shape rs' = shape rs /\
    all_sols rs' ≡ₚ all_sols rs ++ Join (sols this) (sols x) ++ (if add then row_sol this <$> unbound this binding' else []).
Proof using Type.
  intros HT HX Ha Hc HF Hra Hj Hrn Hs HL binding'. assert (HR : table_ok r) by by eapply Forall_lookup_1.
  assert (HL' : length binding' = length (result this)).
  { unfold binding', bound_by. rewrite length_zip_with, length_fmap. lia. }
  unfold doOptional. cbv zeta. rewrite common_empty, bool_decide_eq_false_2 by done.
  enough (G : exists x' rows, (if bool_decide (result x = []) then Some (binding, this, x, rs)
      else r0 ← rs !! ra; x0 ← TempResult_sort x (mapTo (vs_mul (getAllVarset this) (getAllVarset x)) (getAllVarset x));
        rows0 ← mapM (join_row uninit this x0 r0 (vs_mul (getAllVarset this) (getAllVarset x))) (result this);
        binding0 ← mark_bound (is_found <$> rows0) binding;
        Some (binding0, this, x0, <[ra:=push_rows r0 (rows0 ≫= rows_of)]> rs)) = Some (binding', this, x', <[ra := push_rows r rows]> rs) /\
      reordered x x' /\ Forall (row_ok r) rows /\ row_sol r <$> rows ≡ₚ Join (sols this) (sols x)).
  { destruct G as (x'&rows&E&Hre&Hrows&Hsols). rewrite E. cbn [mbind option_bind].
    destruct (push_at rs ra r rows Hra HF Hrows) as (HF1&HS1&HA1). destruct add.
    - rewrite (proj2 (Nat.leb_le _ _)) by lia. destruct (shape_lookup _ _ _ _ HS1 Hrn) as (r1&Hr1&I1&S1).
      rewrite Hr1. cbn [mbind option_bind]. destruct (add_unbound this binding' r1) as (un&Eu&Hun&Hsu);
        [done|by eapply Forall_lookup_1|by split; [rewrite I1; apply Hs|rewrite S1; apply Hs]|].
      rewrite Eu. cbn [mbind option_bind]. destruct (push_at _ rn r1 un Hr1 HF1 Hun) as (HF2&HS2&HA2).
      eexists _, _. split; [done|]. split_and!; [done..|by rewrite HS2|]. rewrite HA2, HA1, Hsols, Hsu. by rewrite <- app_assoc.
    - eexists _, _. split; [done|]. split_and!; [done..|]. by rewrite HA1, Hsols, app_nil_r. }
  case_bool_decide as Ex.
  - exists x, []. unfold push_rows. rewrite app_nil_r. assert (set_result r (result r) = r) as -> by by destruct r.
    rewrite list_insert_id by done. split; [|split_and!; [apply reordered_refl|done|by rewrite (sols_nil x Ex), Join_nil_r]].
    assert (binding' = binding) as ->; [|done]. unfold binding', bound_by. apply zip_orb_nothing; [|done]. intros t _.
    rewrite bool_decide_eq_true_2; [done|]. unfold agreeing. by rewrite (sols_nil x Ex).
  - rewrite Hra. cbn [mbind option_bind]. destruct (sorted_join uninit this x r) as (x'&os&E&Hre&Eo&Ro&Go&Bo); [done..|].
    fold (common_vars this x). rewrite E. cbn [mbind option_bind]. rewrite Eo. cbn [mbind option_bind]. rewrite Bo.
    rewrite mark_bound_ok by by rewrite length_fmap. cbn [mbind option_bind]. by exists x', (os ≫= rows_of).
Qed.
End Tables.

(** ** Finding a table *)

Definition compatible (T : TempResult) (I S : Varset) : Prop :=
  (forall v, v ∈ id_varset T <-> v ∈ I) /\ (forall v, v ∈ str_varset T <-> v ∈ S).

Lemma vs_eqs_compatible T I S : table_ok T -> NoDup (I ++ S) ->
  vs_eq (id_varset T) I && vs_eq (str_varset T) S = true <-> compatible T I S.
Proof.
  intros HT Hn. destruct (table_ok_parts T HT) as (Ti&Ts&_). apply NoDup_app in Hn as (Hi&_&Hs).
  rewrite andb_true_iff, !vs_eq_spec by done. done.
Qed.

Lemma find_compatible_ok k l I S : Forall table_ok l -> NoDup (I ++ S) ->
  match find_compatible k l I S with
  | Some i => exists j T, i = (k + j)%nat /\ l !! j = Some T /\ compatible T I S
  | None => forall T, T ∈ l -> ~ compatible T I S
  end.
Proof.
  intros HF Hn. revert k. induction HF as [|T l HT HF IH]; intros k; cbn; [set_solver|].
  pose proof (vs_eqs_compatible T I S HT Hn) as HE. destruct (vs_eq _ _ && vs_eq _ _).
  - exists 0%nat, T. split; [lia|]. split; [done|]. by apply HE.
  - specialize (IH (Datatypes.S k)). destruct (find_compatible (Datatypes.S k) l I S) as [i|].
    + destruct IH as (j&U&->&Hj&HU). exists (Datatypes.S j), U. split; [lia|done].
    + intros U [->|HU]%elem_of_cons; [|by apply IH]. intros HC%HE. done.
Qed.

(** The tables afterwards, and the one that is meant. *)
Lemma findCompatibleResult_ok rs I S pos rs' : Forall table_ok rs -> NoDup (I ++ S) -> findCompatibleResult rs I S = (pos, rs') ->
  Forall table_ok rs' /\ (separate rs -> separate rs') /\ all_sols rs' = all_sols rs /\ (exists more, rs' = rs ++ more) /\
  exists r, rs' !! pos = Some r /\ compatible r I S /\
    (rs' = rs \/ (forall T, T ∈ rs -> ~ compatible T I S) /\ rs' = rs ++ [r] /\ result r = []).
Proof.
  intros HF Hn. unfold findCompatibleResult. pose proof (find_compatible_ok 0 rs I S HF Hn) as H. destruct (find_compatible 0 rs I S) as [i|].
  - intros [= <- <-]. destruct H as (j&T&->&Hj&HT). split_and!; [done|done|done|exists []; by rewrite app_nil_r|]. exists T. split_and!; [done..|by left].
  - intros [= <- <-]. split_and!.
    + apply Forall_app. split; [done|]. constructor; [|done]. by split.
    + intros Hs. by apply separate_snoc.
    + unfold all_sols. rewrite bind_app, bind_cons. cbn. by rewrite app_nil_r.
    + by eexists.
    + eexists. split; [by rewrite lookup_app_r, Nat.sub_diag by lia|]. split; [done|]. right. done.
Qed.

(** ** The loops of [doJoin] *)

(** Tables that can be compared row by row: no variable with ids in one and strings in
    the other, and at least one common variable. *)
Definition matched (t u : TempResult) : Prop := aligned t u /\ common_vars t u <> [].

Lemma reordered_matched t u u' : reordered u u' -> matched t u -> matched t u'.
Proof. by intros (rows&->&_). Qed.

Lemma joined_columns t u : table_ok t -> table_ok u -> aligned t u ->
  NoDup (vs_add (id_varset t) (id_varset u) ++ vs_add (str_varset t) (str_varset u)).
Proof.
  intros HT HU Ha. destruct (table_ok_parts t HT) as (Ti&Ts&Td), (table_ok_parts u HU) as (Ui&Us&Ud).
  apply NoDup_app. split_and!; [by apply NoDup_vs_add| |by apply NoDup_vs_add].
  intros v. rewrite !elem_of_vs_add. specialize (Ha v). specialize (Td v). specialize (Ud v). naive_solver.
Qed.

Lemma joined_vars r t u : compatible r (vs_add (id_varset t) (id_varset u)) (vs_add (str_varset t) (str_varset u)) -> join_vars r t u.
Proof. intros [Hi Hs]. split; intros v; rewrite ?Hi, ?Hs; apply elem_of_vs_add. Qed.

Section Loops.
Context (uninit : Z) (moved : string).

Lemma join_pair_ok i j ts xs rs t u : ts !! i = Some t -> xs !! j = Some u -> table_ok t -> table_ok u -> matched t u -> Forall table_ok rs ->
  exists u' rs', join_pair uninit moved i j (ts, xs, rs) = Some (ts, <[j := u']> xs, rs') /\ reordered u u' /\ Forall table_ok rs' /\
    (separate rs -> separate rs') /\ all_sols rs' ≡ₚ all_sols rs ++ Join (sols t) (sols u).
Proof using Type.
  intros Ht Hu HT HU [Ha Hc] HF. unfold join_pair. rewrite Ht, Hu. cbn [mbind option_bind].
  destruct (findCompatibleResult rs _ _) as [pos rs1] eqn:E.
  apply findCompatibleResult_ok in E as (HF1&HQ1&HA1&_&r&Hr&HC&_); [|done|by apply joined_columns].
  rewrite Hr. cbn [mbind option_bind].
  destruct (doJoin_common uninit moved t u r) as (u'&rows&E&Hre&Hrows&Hsols); try done; [by eapply Forall_lookup_1|by apply joined_vars|].
  rewrite E. cbn [mbind option_bind]. rewrite list_insert_id by done. destruct (push_at rs1 pos r rows Hr HF1 Hrows) as (HF2&HS2&HA2).
  eexists _, _. split; [done|]. split_and!; [done..| |by rewrite HA2, HA1, Hsols]. intros Hq. by eapply separate_shape, HQ1.
Qed.

Definition sols_at (l : list TempResult) (i : nat) : list (gmap string value) := from_option sols [] (l !! i).

Lemma reordered_trans x y z : reordered x y -> reordered y z -> reordered x z.
Proof using Type. intros (rows&->&H1) (rows'&->&H2). exists rows'. split; [done|]. cbn in H2. by rewrite H2. Qed.

Lemma reordered_at xs xs' j : Forall table_ok xs -> Forall2 reordered xs xs' -> sols_at xs' j ≡ₚ sols_at xs j.
Proof using Type.
  intros HF H. unfold sols_at. destruct (xs !! j) as [u|] eqn:E.
  - destruct (Forall2_lookup_l _ _ _ _ _ H E) as (u'&->&Hre). cbn. eapply reordered_ok; [done|]. by eapply Forall_lookup_1.
  - rewrite (proj2 (lookup_ge_None xs' j)); [done|]. rewrite <- (Forall2_length _ _ _ H). by apply lookup_ge_None.
Qed.

Lemma reordered_tables xs xs' : Forall table_ok xs -> Forall2 reordered xs xs' -> Forall table_ok xs'.
Proof using Type.
  intros HF H. induction H as [|u u' xs xs' Hre H IH]; [done|]. apply Forall_cons in HF as [HU HF]. constructor; [|by apply IH].
  by eapply reordered_ok.
Qed.

Lemma reordered_lists_refl xs : Forall2 reordered xs xs.
Proof using Type. induction xs; constructor; [apply reordered_refl|done]. Qed.

Lemma reordered_insert xs j u u' : xs !! j = Some u -> reordered u u' -> Forall2 reordered xs (<[j := u']> xs).
Proof using Type.
  intros Hj Hre. rewrite <- (list_insert_id xs j u Hj) at 1. apply Forall2_insert; [|done].
  apply reordered_lists_refl.
Qed.

Lemma reordered_lists_trans xs ys zs : Forall2 reordered xs ys -> Forall2 reordered ys zs -> Forall2 reordered xs zs.
Proof using Type.
  intros H. revert zs. induction H as [|x y xs ys Hxy H IH]; intros zs H2; inversion_clear H2; constructor; [|by apply IH].
  by eapply reordered_trans.
Qed.

Definition all_matched (ts xs : list TempResult) : Prop := forall t u, t ∈ ts -> u ∈ xs -> matched t u.

Lemma all_matched_reordered ts xs xs' : Forall2 reordered xs xs' -> all_matched ts xs -> all_matched ts xs'.
Proof using Type.
  intros H Hm t u' Ht [j Hj]%list_elem_of_lookup. destruct (Forall2_lookup_r _ _ _ _ _ H Hj) as (u&Hu&Hre).
  eapply reordered_matched; [done|]. apply Hm; [done|]. by eapply list_elem_of_lookup_2.
Qed.

Lemma join_pairs_ok l : forall ts xs rs, Forall table_ok ts -> Forall table_ok xs -> Forall table_ok rs -> all_matched ts xs ->
  Forall (fun ij => (ij.1 < length ts)%nat /\ (ij.2 < length xs)%nat) l ->
  exists xs' rs', join_pairs uninit moved l (ts, xs, rs) = Some (ts, xs', rs') /\ Forall2 reordered xs xs' /\ Forall table_ok rs' /\
    (separate rs -> separate rs') /\ all_sols rs' ≡ₚ all_sols rs ++ (l ≫= fun ij => Join (sols_at ts ij.1) (sols_at xs ij.2)).
Proof using Type.
  induction l as [|[i j] l IH]; intros ts xs rs HT HX HR Hm HF.
  { exists xs, rs. split; [done|]. split; [apply reordered_lists_refl|]. split; [done|]. split; [done|]. cbn. by rewrite app_nil_r. }
  apply Forall_cons in HF as [[Hi Hj] HF]. cbn in Hi, Hj.
  destruct (lookup_lt_is_Some_2 _ _ Hi) as [t Ht], (lookup_lt_is_Some_2 _ _ Hj) as [u Hu].
  destruct (join_pair_ok i j ts xs rs t u) as (u'&rs1&E&Hre&HR1&HS1&HA1); try done;
    [exact (Forall_lookup_1 _ _ _ _ HT Ht)|exact (Forall_lookup_1 _ _ _ _ HX Hu)|apply Hm; [exact (list_elem_of_lookup_2 ts i t Ht)|exact (list_elem_of_lookup_2 xs j u Hu)]|].
  pose proof (reordered_insert xs j u u' Hu Hre) as H1.
  destruct (IH ts (<[j := u']> xs) rs1) as (xs'&rs'&E'&H2&HR'&HS'&HA'); try done.
  - exact (reordered_tables _ _ HX H1).
  - exact (all_matched_reordered _ _ _ H1 Hm).
  - by rewrite length_insert.
  - exists xs', rs'. cbn [join_pairs]. rewrite E. split; [exact E'|]. split; [by eapply reordered_lists_trans|]. split; [done|]. split; [auto|].
    rewrite HA', HA1, bind_cons. unfold sols_at at 3 4. cbn [fst snd]. rewrite Ht, Hu. cbn [from_option]. rewrite <- app_assoc. do 2 f_equiv.
    apply bind_perm. intros ij. by rewrite (reordered_at xs (<[j := u']> xs) ij.2 HX H1).
Qed.
End Loops.

Lemma join_all ts xs : (table_pairs (length ts) (length xs) ≫= fun ij => Join (sols_at ts ij.1) (sols_at xs ij.2)) ≡ₚ Join (all_sols ts) (all_sols xs).
Proof.
  assert (E : (table_pairs (length ts) (length xs) ≫= fun ij => Join (sols_at ts ij.1) (sols_at xs ij.2)) =
    (ts ≫= fun t => xs ≫= fun u => Join (sols t) (sols u))).
  { unfold table_pairs. rewrite bind_bind, <- (bind_seq_lookup ts (fun o => xs ≫= fun u => Join (from_option sols [] o) (sols u))).
    apply bind_ext_in. intros i _. unfold sols_at. cbn.
    rewrite list_fmap_bind, <- (bind_seq_lookup xs (fun o => Join (from_option sols [] (ts !! i)) (from_option sols [] o))). done. }
  rewrite E. clear E. induction ts as [|t ts IH]; [done|]. unfold all_sols at 1. rewrite !bind_cons, Join_app_l, IH. fold (all_sols ts). f_equiv.
  clear IH. induction xs as [|u xs IH]; [change (all_sols []) with (@nil (gmap string value)); by rewrite Join_nil_r|]. unfold all_sols. rewrite !bind_cons, Join_app_r. by f_equiv.
Qed.

Lemma reordered_all_sols xs xs' : Forall table_ok xs -> Forall2 reordered xs xs' -> all_sols xs' ≡ₚ all_sols xs.
Proof.
  intros HF H. induction H as [|u u' xs xs' Hre H IH]; [done|]. apply Forall_cons in HF as [HU HF].
  unfold all_sols. rewrite !bind_cons. f_equiv; [by eapply reordered_ok|by apply IH].
Qed.

Lemma matches_perm a B B' : B ≡ₚ B' -> agreeing a B = [] <-> agreeing a B' = [].
Proof.
  intros HB. assert (Hm : agreeing a B ≡ₚ agreeing a B') by (unfold agreeing; by rewrite HB).
  split; intros E; rewrite E in Hm; [by apply Permutation_nil_l in Hm|by apply Permutation_nil_r in Hm].
Qed.

(** A loop over the tables of the first set, whose step adds what [F] says for one of
    them; [Q i rs] is what the step for [i] asks of the result so far. *)
Section Each.
Context (F : list (gmap string value) -> list (gmap string value) -> list (gmap string value)).
Context (HF : forall A B B', B ≡ₚ B' -> F A B ≡ₚ F A B').
Context (step : nat -> tables -> option tables) (ts : list TempResult) (n : nat)
  (Q : nat -> list TempResult -> Prop).
Context (Hstep : forall i t xs rs, ts !! i = Some t -> length xs = n -> Forall table_ok xs -> Forall table_ok rs -> all_matched ts xs -> Q i rs ->
  exists xs' rs', step i (ts, xs, rs) = Some (ts, xs', rs') /\ Forall2 reordered xs xs' /\ Forall table_ok rs' /\
    (separate rs -> separate rs') /\ all_sols rs' ≡ₚ all_sols rs ++ F (sols t) (all_sols xs) /\ forall k, k <> i -> Q k rs -> Q k rs').

Lemma each_table_ok l : forall xs rs, length xs = n -> NoDup l -> Forall (fun i => (i < length ts)%nat) l -> Forall table_ok xs -> Forall table_ok rs ->
  all_matched ts xs -> (forall i, i ∈ l -> Q i rs) ->
  exists xs' rs', each_table step l (ts, xs, rs) = Some (ts, xs', rs') /\ Forall2 reordered xs xs' /\ Forall table_ok rs' /\
    (separate rs -> separate rs') /\ all_sols rs' ≡ₚ all_sols rs ++ (l ≫= fun i => F (sols_at ts i) (all_sols xs)).
Proof using HF Hstep.
  induction l as [|i l IH]; intros xs rs Hlen Hn Hl HX HR Hm HQ.
  { exists xs, rs. split; [done|]. split; [apply reordered_lists_refl|]. split; [done|]. split; [done|]. cbn. by rewrite app_nil_r. }
  apply NoDup_cons in Hn as [Hni Hn]. apply Forall_cons in Hl as [Hi Hl]. destruct (lookup_lt_is_Some_2 _ _ Hi) as [t Ht].
  destruct (Hstep i t xs rs) as (xs1&rs1&E&H1&HR1&HS1&HA1&HQ1); [done..|apply HQ; set_solver|].
  destruct (IH xs1 rs1) as (xs'&rs'&E'&H2&HR'&HS'&HA'); try done.
  - by rewrite <- (Forall2_length _ _ _ H1).
  - exact (reordered_tables _ _ HX H1).
  - exact (all_matched_reordered _ _ _ H1 Hm).
  - intros k Hk. apply HQ1; [by intros ->|]. apply HQ. set_solver.
  - exists xs', rs'. cbn [each_table]. rewrite E. split; [exact E'|]. split; [by eapply reordered_lists_trans|]. split; [done|]. split; [auto|].
    rewrite HA', HA1, bind_cons. unfold sols_at at 2. rewrite Ht. cbn [from_option]. rewrite <- app_assoc. do 2 f_equiv.
    apply bind_perm. intros k. apply HF. by apply reordered_all_sols.
Qed.

(** All tables, for an operation that treats the first set row by row. *)
Lemma every_table_ok xs rs : (forall B, F [] B = []) -> (forall A A' B, F (A ++ A') B ≡ₚ F A B ++ F A' B) ->
  length xs = n -> Forall table_ok xs -> Forall table_ok rs -> all_matched ts xs -> (forall i, (i < length ts)%nat -> Q i rs) ->
  exists xs' rs', each_table step (seq 0 (length ts)) (ts, xs, rs) = Some (ts, xs', rs') /\ Forall2 reordered xs xs' /\ Forall table_ok rs' /\
    (separate rs -> separate rs') /\ all_sols rs' ≡ₚ all_sols rs ++ F (all_sols ts) (all_sols xs).
Proof using HF Hstep.
  intros F0 Fapp Hlen HX HR Hm HQ. destruct (each_table_ok (seq 0 (length ts)) xs rs) as (xs'&rs'&E&H1&H2&H3&HA); try done.
  - apply NoDup_seq.
  - apply Forall_forall. intros i Hi%elem_of_seq. lia.
  - intros i Hi%elem_of_seq. apply HQ. lia.
  - exists xs', rs'. split_and!; [done..|]. rewrite HA. f_equiv.
    unfold sols_at. rewrite (bind_seq_lookup ts (fun o => F (from_option sols [] o) (all_sols xs))). cbn.
    clear - F0 Fapp. generalize ts. intros l. induction l as [|t l IH]; [by rewrite F0|]. unfold all_sols at 2. rewrite !bind_cons, Fapp. by f_equiv.
Qed.
End Each.

(** ** The loops of [doOptional] *)

Definition bound_in (t : TempResult) (us : list TempResult) : list bool :=
  (fun row => negb (bool_decide (agreeing (row_sol t row) (all_sols us) = []))) <$> result t.

Lemma bound_in_nil t : bound_in t [] = replicate (length (result t)) false.
Proof. unfold bound_in. induction (result t); [done|]. cbn. by f_equal. Qed.

Lemma bound_in_snoc t us u : zip_with orb (bound_by t u) (bound_in t us) = bound_in t (us ++ [u]).
Proof.
  unfold bound_by, bound_in. induction (result t) as [|row l IH]; [done|]. cbn. f_equal; [|done].
  unfold all_sols, agreeing. rewrite bind_app, filter_app, bind_cons, app_nil_r. fold (all_sols us).
  destruct (filter (map_agree (row_sol t row)) (all_sols us)), (filter (map_agree (row_sol t row)) (sols u)); done.
Qed.

Lemma length_bound_in t us : length (bound_in t us) = length (result t).
Proof. apply length_fmap. Qed.

Lemma unbound_in t us : row_sol t <$> unbound t (bound_in t us) = filter (fun a => agreeing a (all_sols us) = []) (sols t).
Proof.
  unfold unbound, bound_in, sols. rewrite filter_image. f_equal. induction (result t) as [|row l IH]; [done|].
  cbn [fmap list_fmap zip zip_with]. rewrite !filter_cons. cbn [fst]. destruct (decide (agreeing (row_sol t row) (all_sols us) = [])) as [E|E].
  - rewrite decide_True by (by rewrite bool_decide_eq_true_2). cbn. f_equal. exact IH.
  - rewrite decide_False by (by rewrite bool_decide_eq_false_2). exact IH.
Qed.

Section Optional.
Context (uninit : Z) (moved : string).

Lemma optional_tables_ok fuel : forall i j ts xs rs t na r' us, ts !! i = Some t -> table_ok t -> Forall table_ok xs -> Forall table_ok rs ->
  (forall u, u ∈ xs -> matched t u) -> rs !! na = Some r' -> same_vars r' t -> (j + fuel = length xs)%nat ->
  exists xs' rs', optional_tables uninit moved fuel i j na (bound_in t us) (ts, xs, rs) = Some (ts, xs', rs') /\
    Forall2 reordered xs xs' /\ Forall table_ok rs' /\ (separate rs -> separate rs') /\
    all_sols rs' ≡ₚ all_sols rs ++ Join (sols t) (all_sols (drop j xs)) ++
      (if (fuel =? 0)%nat then [] else filter (fun a => agreeing a (all_sols (us ++ drop j xs)) = []) (sols t)).
Proof using Type.
  induction fuel as [|fuel IH]; intros i j ts xs rs t na r' us Ht HT HX HR Hm Hna Hs Hj.
  { exists xs, rs. split; [done|]. split; [apply reordered_lists_refl|]. split; [done|]. split; [done|]. rewrite drop_ge by lia. cbn. by rewrite Join_nil_r, app_nil_r. }
  destruct (lookup_lt_is_Some_2 xs j) as [u Hu]; [lia|]. assert (HU : table_ok u) by exact (Forall_lookup_1 _ _ _ _ HX Hu).
  destruct (Hm u) as [Ha Hc]; [by eapply list_elem_of_lookup_2|].
  cbn [optional_tables]. rewrite Ht, Hu. cbn [mbind option_bind]. destruct (findCompatibleResult rs _ _) as [pos rs1] eqn:Ef.
  apply findCompatibleResult_ok in Ef as (HF1&HQ1&HA1&(more&Hmore)&r&Hr&HC&_); [|done|by apply joined_columns].
  destruct (doOptional_common uninit moved (bound_in t us) t u rs1 na pos r r' (Datatypes.S j =? length xs)%nat) as (u'&rs2&E&Hre&HF2&HS2&HA2);
    try done; [by apply joined_vars|subst rs1; by apply lookup_app_l_Some|by rewrite length_bound_in|].
  rewrite E, bound_in_snoc. cbn [mbind option_bind]. rewrite list_insert_id by done.
  pose proof (reordered_insert xs j u u' Hu Hre) as H1. assert (Hd : drop (Datatypes.S j) (<[j := u']> xs) = drop (Datatypes.S j) xs) by (apply drop_insert_lt; lia).
  assert (Hna' : exists r2, rs2 !! na = Some r2 /\ same_vars r2 t).
  { destruct (shape_lookup rs2 rs1 na r' HS2) as (r2&Hr2&I2&S2); [subst rs1; by apply lookup_app_l_Some|].
    exists r2. split; [done|]. split; [rewrite I2; apply Hs|rewrite S2; apply Hs]. }
  destruct Hna' as (r2&Hr2&Hs2).
  destruct (IH i (Datatypes.S j) ts (<[j := u']> xs) rs2 t na r2 (us ++ [u])) as (xs'&rs'&E'&H2&HR'&HS'&HA'); try done.
  - exact (reordered_tables _ _ HX H1).
  - intros v [k Hk]%list_elem_of_lookup. destruct (Forall2_lookup_r _ _ _ _ _ H1 Hk) as (w&Hw&Hrw).
    eapply reordered_matched; [done|]. apply Hm. by eapply list_elem_of_lookup_2.
  - rewrite length_insert. lia.
  - exists xs', rs'. split; [exact E'|]. split; [by eapply reordered_lists_trans|]. split; [done|].
    split; [intros Hq; by eapply HS', separate_shape, HQ1|]. rewrite HA', HA2, HA1, Hd, (drop_S xs u j Hu), bound_in_snoc, unbound_in. change (Datatypes.S fuel =? 0)%nat with false.
    rewrite all_sols_cons, Join_app_r, <- (app_assoc us [u]). cbn [app].
    destruct (Nat.eqb_spec (Datatypes.S j) (length xs)) as [Hl|Hl].
    + assert (fuel = 0%nat) as -> by lia. change (0 =? 0)%nat with true. rewrite drop_ge by lia. solve_Permutation.
    + destruct (Nat.eqb_spec fuel 0); [lia|]. solve_Permutation.
Qed.

Lemma LeftJoin_nil_r {V} `{EqDecision V} (A : list (gmap string V)) : LeftJoin A [] = A.
Proof using Type. unfold LeftJoin. rewrite Join_nil_r. cbn. apply filter_all. by apply Forall_forall. Qed.

Lemma table_same_vars r t : compatible r (id_varset t) (str_varset t) -> same_vars r t.
Proof using Type. done. Qed.

Lemma optional_table_ok i t ts xs rs : ts !! i = Some t -> Forall table_ok ts -> Forall table_ok xs -> Forall table_ok rs -> all_matched ts xs ->
  exists xs' rs', optional_table uninit moved i (ts, xs, rs) = Some (ts, xs', rs') /\ Forall2 reordered xs xs' /\ Forall table_ok rs' /\
    (separate rs -> separate rs') /\ all_sols rs' ≡ₚ all_sols rs ++ LeftJoin (sols t) (all_sols xs).
Proof using Type.
  intros Ht HTs HX HR Hm. assert (HT : table_ok t) by exact (Forall_lookup_1 _ _ _ _ HTs Ht).
  unfold optional_table. rewrite Ht. cbn [mbind option_bind]. destruct (findCompatibleResult rs _ _) as [na rs1] eqn:Ef.
  apply findCompatibleResult_ok in Ef as (HF1&HQ1&HA1&_&r&Hr&HC&_); [|done|apply HT]. case_bool_decide as Ex.
  - rewrite Hr. cbn [mbind option_bind]. destruct (doUnion_ok uninit t r) as (rows&E&Hrows&Hsols); [done|exact (Forall_lookup_1 _ _ _ _ HF1 Hr)|done|].
    rewrite E. cbn [mbind option_bind]. destruct (push_at rs1 na r rows Hr HF1 Hrows) as (HF2&HS2&HA2). subst xs.
    eexists _, _. split; [done|]. split; [constructor|]. split; [done|]. split; [intros Hq; by eapply separate_shape, HQ1|]. change (all_sols []) with (@nil (gmap string value)). by rewrite HA2, HA1, Hsols, LeftJoin_nil_r.
  - rewrite <- bound_in_nil. destruct (optional_tables_ok (length xs) i 0 ts xs rs1 t na r []) as (xs'&rs'&E&H1&H2&H3&HA); try done.
    { intros u Hu. apply Hm; [|done]. exact (list_elem_of_lookup_2 _ _ _ Ht). }
    exists xs', rs'. split_and!; [done..|auto|]. rewrite HA, HA1, drop_0. destruct xs; [done|]. done.
Qed.
End Optional.

(** ** The loops of [doMinus] *)

Lemma same_vars_matched t t0 u : table_ok t -> table_ok t0 -> table_ok u -> same_vars t t0 -> matched t0 u -> matched t u.
Proof.
  intros HT HT0 HU [Hi Hs] [Ha Hc]. split.
  - intros v Hv. apply (Ha v). rewrite <- Hi, <- Hs. done.
  - destruct (common_vars t0 u) as [|v l] eqn:E; [done|]. assert (Hv : v ∈ common_vars t0 u) by (rewrite E; set_solver).
    apply elem_of_common in Hv as [H0 Hu]; [|done..]. intros En. assert (Hv : v ∈ common_vars t u).
    { apply elem_of_common; [done..|]. split; [|done]. revert H0. rewrite !elem_of_vars, Hi, Hs. done. }
    rewrite En in Hv. set_solver.
Qed.

Lemma Minus_app {V} `{EqDecision V} (A B B' : list (gmap string V)) : Minus (Minus A B) B' = Minus A (B ++ B').
Proof.
  unfold Minus. rewrite list_filter_filter. apply list_filter_iff. intros a. rewrite filter_app. split.
  - intros [-> ->]. done.
  - intros E. apply app_eq_nil in E. tauto.
Qed.

Lemma LeftJoin_perm_r {V} `{EqDecision V} (A B B' : list (gmap string V)) : B ≡ₚ B' -> LeftJoin A B ≡ₚ LeftJoin A B'.
Proof.
  intros HB. unfold LeftJoin. f_equiv; [by rewrite HB|]. apply Permutation_refl', list_filter_iff. intros a.
  assert (Hm : filter (map_agree a) B ≡ₚ filter (map_agree a) B') by by rewrite HB.
  split; intros E; rewrite E in Hm; [by apply Permutation_nil_l in Hm|by apply Permutation_nil_r in Hm].
Qed.

Lemma LeftJoin_app_l {V} `{EqDecision V} (A A' B : list (gmap string V)) : LeftJoin (A ++ A') B ≡ₚ LeftJoin A B ++ LeftJoin A' B.
Proof. unfold LeftJoin. rewrite Join_app_l, filter_app. solve_Permutation. Qed.

Lemma Minus_perm_r {V} `{EqDecision V} (A B B' : list (gmap string V)) : B ≡ₚ B' -> Minus A B ≡ₚ Minus A B'.
Proof.
  intros HB. apply Permutation_refl', list_filter_iff. intros a.
  assert (Hm : filter (fun b => map_agree a b /\ overlap a b) B ≡ₚ filter (fun b => map_agree a b /\ overlap a b) B') by by rewrite HB.
  split; intros E; rewrite E in Hm; [by apply Permutation_nil_l in Hm|by apply Permutation_nil_r in Hm].
Qed.

Lemma Minus_app_l {V} `{EqDecision V} (A A' B : list (gmap string V)) : Minus (A ++ A') B ≡ₚ Minus A B ++ Minus A' B.
Proof. unfold Minus. by rewrite filter_app. Qed.

Section MinusLoop.
Context (uninit : Z).

Lemma same_vars_trans a b d : same_vars a b -> same_vars b d -> same_vars a d.
Proof using Type. intros [H1 H2] [H3 H4]. split; intros v; [by rewrite H1|by rewrite H2]. Qed.

Lemma minus_tables_ok us t0 : us <> [] -> table_ok t0 -> forall t rs, table_ok t -> same_vars t t0 -> Forall table_ok us ->
  (forall u, u ∈ us -> matched t0 u) -> Forall table_ok rs -> (forall T, T ∈ rs -> ~ same_vars T t0) ->
  exists us' r, minus_tables uninit us t0 t rs = Some (us', rs ++ [r]) /\ Forall2 reordered us us' /\ table_ok r /\ same_vars r t0 /\
    sols r = Minus (sols t) (all_sols us).
Proof using Type.
  intros Hne HT0. induction us as [|u us IH]; [done|]. intros t rs HT Hs HU Hm HR Hno. apply Forall_cons in HU as [HU HUs].
  assert (Hmu : matched t u) by (eapply (same_vars_matched t t0 u); [done..|]; apply Hm; set_solver). destruct Hmu as [Ha Hc].
  assert (Hst : same_vars (mk_TempResult (id_varset t0) (str_varset t0) []) t).
  { destruct Hs as [Hi Hs]. split; intros v; [by rewrite Hi|by rewrite Hs]. }
  assert (Hfr : table_ok (mk_TempResult (id_varset t0) (str_varset t0) [])) by (split; [apply HT0|constructor]).
  destruct (decide (us = [])) as [->|Hus].
  - cbn [minus_tables]. destruct (findCompatibleResult rs _ _) as [pos rs1] eqn:Ef.
    assert (Erc : rs1 = rs ++ [mk_TempResult (id_varset t0) (str_varset t0) []] /\ pos = length rs).
    { pose proof (find_compatible_ok 0 rs (id_varset t0) (str_varset t0) HR (ok_vars _ HT0)) as Hfc. unfold findCompatibleResult in Ef.
      destruct (find_compatible 0 rs _ _); [|by injection Ef as <- <-]. destruct Hfc as (j&T&_&Hj&HC). apply list_elem_of_lookup_2 in Hj. by destruct (Hno T Hj). }
    destruct Erc as [-> ->]. rewrite lookup_app_r, Nat.sub_diag by lia. cbn [lookup list_lookup mbind option_bind].
    destruct (doMinus_ok uninit t u (mk_TempResult (id_varset t0) (str_varset t0) [])) as (u'&r'&E&Hre&Hr&Hsr&Hsol); try done.
    rewrite E. cbn [mbind option_bind]. exists [u'], r'. split; [by rewrite insert_app_r_alt, Nat.sub_diag by lia|].
    split; [by repeat constructor|]. split; [done|]. split; [by eapply same_vars_trans|]. rewrite Hsol. unfold all_sols. by rewrite bind_cons, app_nil_r.
  - destruct us as [|u2 us]; [done|]. cbn [minus_tables].
    destruct (doMinus_ok uninit t u (mk_TempResult (id_varset t0) (str_varset t0) [])) as (u'&t'&E&Hre&Ht'&Hst'&Hsol); try done.
    rewrite E. cbn [mbind option_bind]. destruct (IH Hus t' rs) as (us'&r&E'&H1&Hr&Hsr&Hsolr); try done.
    + by eapply same_vars_trans.
    + intros w Hw. apply Hm. set_solver.
    + cbn [minus_tables] in E'. rewrite E'. cbn [mbind option_bind]. exists (u' :: us'), r. split_and!; [done|by constructor|done..|].
      rewrite Hsolr, Hsol, Minus_app. by rewrite !all_sols_cons.
Qed.

Lemma minus_table_ok i t ts xs rs : ts !! i = Some t -> Forall table_ok ts -> separate ts -> xs <> [] ->
  Forall table_ok xs -> Forall table_ok rs -> all_matched ts xs ->
  (forall T u, T ∈ rs -> ts !! i = Some u -> ~ same_vars T u) ->
  exists xs' rs', minus_table uninit i (ts, xs, rs) = Some (ts, xs', rs') /\ Forall2 reordered xs xs' /\ Forall table_ok rs' /\
    (separate rs -> separate rs') /\ all_sols rs' ≡ₚ all_sols rs ++ Minus (sols t) (all_sols xs) /\
    forall k, k <> i -> (forall T u, T ∈ rs -> ts !! k = Some u -> ~ same_vars T u) -> forall T u, T ∈ rs' -> ts !! k = Some u -> ~ same_vars T u.
Proof using Type.
  intros Ht HTs Hsep Hne HX HR Hm HQ. assert (HT : table_ok t) by exact (Forall_lookup_1 _ _ _ _ HTs Ht).
  destruct (minus_tables_ok xs t Hne HT t rs) as (xs'&r&E&H1&Hr&Hsr&Hsol); try done.
  - intros u Hu. apply Hm; [|done]. exact (list_elem_of_lookup_2 _ _ _ Ht).
  - intros T HTin. by apply (HQ T t).
  - exists xs', (rs ++ [r]). unfold minus_table. rewrite Ht. cbn [mbind option_bind]. rewrite E. split; [done|]. split; [done|].
    split; [apply Forall_app; by split; [|constructor]|]. split.
    { intros Hq. apply separate_snoc; [done|]. intros T HTin [S1 S2]. apply (HQ T t HTin Ht). destruct Hsr as [S3 S4].
      split; intros v; [by rewrite S1|by rewrite S2]. }
    split.
    { unfold all_sols. rewrite bind_app, bind_cons. cbn [mbind list_bind]. by rewrite app_nil_r, Hsol. }
    intros k Hk Hrs T u [HTin| ->%list_elem_of_singleton]%elem_of_app Hu; [by apply Hrs|]. intros Hsu.
    apply (Hsep i k t u Ht Hu); [done|]. destruct Hsr as [S1 S2], Hsu as [S3 S4]. split; intros v; [by rewrite <- S1|by rewrite <- S2].
Qed.
End MinusLoop.
