(* ===== verification/TempResultSetTheorems.v ===== *)
(** * Theorems on results of queries

    The joins, optional parts and differences of two sets of tables compute the
    operations of the SPARQL algebra on the solutions the tables stand for. *)

From stdpp Require Import strings pretty.
From S2P Require Import Prelude Util TempResult TempResultSort TempResultSpec TempResultOps TempResultSet TempResultSetSpec.

(** ** Solutions as maps to strings *)

Section Denote.
Context (str_of : string -> Z -> string).

Definition denote_value (v : string) (x : value) : string := match x with VId z => str_of v z | VStr s => s end.
Definition denote (a : gmap string value) : gmap string string := map_imap (fun v x => Some (denote_value v x)) a.

Lemma lookup_denote a v : denote a !! v = denote_value v <$> a !! v.
Proof using Type. unfold denote. rewrite map_lookup_imap. by destruct (a !! v). Qed.

Lemma denote_union a b : denote (a ∪ b) = denote a ∪ denote b.
Proof using Type. apply map_eq. intros v. rewrite lookup_union, !lookup_denote, lookup_union. by destruct (a !! v), (b !! v). Qed.

(** Two solutions whose values can be compared as they are. *)
Definition comparable (a b : gmap string value) : Prop :=
  forall v x y, a !! v = Some x -> b !! v = Some y -> denote_value v x = denote_value v y -> x = y.

Lemma denote_agree a b : comparable a b -> map_agree a b <-> map_agree (denote a) (denote b).
Proof using Type.
  intros H. rewrite !map_agree_spec. split.
  - intros Hag v x y. rewrite !lookup_denote. destruct (a !! v) eqn:Ea, (b !! v) eqn:Eb; try done. cbn. intros [= <-] [= <-]. by rewrite (Hag v _ _ Ea Eb).
  - intros Hag v x y Ea Eb. apply (H v); [done..|]. apply (Hag v); rewrite lookup_denote; [by rewrite Ea|by rewrite Eb].
Qed.

Lemma denote_overlap a b : overlap a b <-> overlap (denote a) (denote b).
Proof using Type. unfold overlap. setoid_rewrite lookup_denote. by setoid_rewrite fmap_is_Some. Qed.

Definition all_comparable (A B : list (gmap string value)) : Prop := forall a b, a ∈ A -> b ∈ B -> comparable a b.

Lemma filter_agree_denote a (B : list (gmap string value)) : (forall b, b ∈ B -> comparable a b) ->
  filter (map_agree (denote a)) (denote <$> B) = denote <$> filter (map_agree a) B.
Proof using Type.
  intros H. rewrite filter_image. f_equal. apply list_filter_iff'. intros b Hb. by rewrite <- denote_agree by auto.
Qed.

Lemma Join_denote A B : all_comparable A B -> denote <$> Join A B = Join (denote <$> A) (denote <$> B).
Proof using Type.
  intros H. induction A as [|a A IH]; [done|]. rewrite fmap_cons, !Join_cons, fmap_app. f_equal; [|apply IH; intros c b Hc; apply H; set_solver].
  rewrite filter_agree_denote by (intros b Hb; apply H; set_solver). rewrite <- !list_fmap_compose. apply list_fmap_ext.
  intros _ b _. unfold compose. apply denote_union.
Qed.


Lemma Minus_denote A B : all_comparable A B -> denote <$> Minus A B = Minus (denote <$> A) (denote <$> B).
Proof using Type.
  intros H. unfold Minus. rewrite filter_image. f_equal. apply list_filter_iff'. intros a Ha. rewrite filter_image.
  rewrite (list_filter_iff' (fun b => map_agree a b /\ overlap a b) (fun b => map_agree (denote a) (denote b) /\ overlap (denote a) (denote b))).
  - by destruct (filter _ B).
  - intros b Hb. by rewrite <- denote_agree, <- denote_overlap by auto.
Qed.

(** ** Turning ids into strings *)

Lemma zmap_app {A} vs ws (l k : list A) : length l = length vs -> zmap (vs ++ ws) (l ++ k) = zmap vs l ∪ zmap ws k.
Proof using Type. intros H. unfold zmap. rewrite zip_with_app by done. apply list_to_map_app. Qed.

Lemma convert_cells_ok (W new vars : Varset) : forall ids v strs, NoDup vars -> NoDup new -> (forall x, x ∈ vars -> x ∈ new <-> x ∉ W) ->
  length ids = length vars -> length v = length new ->
  exists v' added, convert_cells str_of vars (mapTo vars new) ids v strs = Some (v', strs ++ added) /\ length v' = length new /\
    length added = length (filter (.∈ W) vars) /\
    zmap new v' = filter (fun p => p.1 ∉ W) (zmap vars ids) ∪ zmap new v /\
    zmap (filter (.∈ W) vars) added = map_imap (fun x z => Some (str_of x z)) (filter (fun p => p.1 ∈ W) (zmap vars ids)).
Proof using Type.
  induction vars as [|x vars IH]; intros ids v strs Hn Hnew Hx Li Lv.
  { destruct ids; [|done]. exists v, []. rewrite app_nil_r. split_and!; try done. unfold zmap at 2. cbn. by rewrite map_filter_empty, map_empty_union. }
  destruct ids as [|z ids]; [done|]. apply NoDup_cons in Hn as [Hnx Hn]. cbn [mapTo fmap list_fmap convert_cells].
  change ((fun w => map_pos w new 0 (-1)) <$> vars) with (mapTo vars new). rewrite !zmap_cons, filter_cons.
  assert (HN : zmap vars ids !! x = None) by by apply zmap_None.
  destruct (decide (x ∈ W)) as [HW|HW].
  - rewrite map_pos_absent by (rewrite Hx by set_solver; tauto). cbn [Z.eqb].
    destruct (IH ids v (strs ++ [str_of x z])) as (v'&added&E&L&La&Z1&Z2); try done; [intros y Hy; apply Hx; set_solver|cbn in Li; lia|].
    exists v', (str_of x z :: added). rewrite E. split; [by rewrite <- app_assoc|]. split; [done|]. split; [cbn; by f_equal|]. split.
    + rewrite Z1. f_equal. rewrite map_filter_insert_not; [done|]. cbn. tauto.
    + rewrite zmap_cons, Z2. rewrite map_filter_insert_True by done. by rewrite map_imap_insert.
  - destruct (proj1 (list_elem_of_lookup new x)) as [k Hk]; [apply Hx; [set_solver|done]|]. pose proof (lookup_lt_Some _ _ _ Hk).
    rewrite (map_pos_lookup x new k) by done. destruct (Z.eqb_spec (0 + Z.of_nat k) (-1)); [lia|]. unfold set_Z.
    rewrite (proj2 (Z.leb_le _ _)), (proj2 (Z.ltb_lt _ _)) by lia. cbn [andb mbind option_bind]. rewrite Z.add_0_l, Nat2Z.id.
    destruct (IH ids (<[k := z]> v) strs) as (v'&added&E&L&La&Z1&Z2); try done;
      [intros y Hy; apply Hx; set_solver|cbn in Li; lia|by rewrite length_insert|].
    exists v', added. rewrite E. split_and!; [done..| |].
    + rewrite Z1, (zmap_insert new v k x), map_filter_insert_True by done. rewrite <- insert_union_r, insert_union_l; [done|].
      apply map_lookup_filter_None. by left.
    + rewrite Z2, map_filter_insert_not; [done|]. cbn. tauto.
Qed.

(** What a conversion of the columns of [W] makes of a table. *)
Record converted (W : Varset) (T T' : TempResult) : Prop := {
  cv_ok : table_ok T';
  cv_ids : forall v, v ∈ id_varset T' <-> v ∈ id_varset T /\ v ∉ W;
  cv_strs : forall v, v ∈ str_varset T' <-> v ∈ str_varset T \/ v ∈ id_varset T /\ v ∈ W;
  cv_sols : Forall2 (fun a a' => denote a' = denote a /\ forall v z, a' !! v = Some (VId z) -> a !! v = Some (VId z)) (sols T) (sols T') }.

Lemma not_converted T W : table_ok T -> (forall v, v ∈ id_varset T -> v ∉ W) -> converted W T T.
Proof using Type.
  intros HT H. split; [done|intros v; specialize (H v); tauto..|]. induction (sols T); constructor; [done|done].
Qed.

Context (uninit : Z).

Lemma converted_row (T : TempResult) (W : Varset) row : table_ok T -> row_ok T row ->
  let cv := vs_mul (id_varset T) W in
  let T' rows := mk_TempResult (vs_sub (id_varset T) cv) (vs_add (str_varset T) cv) rows in
  exists row', convert_row str_of uninit T (vs_sub (id_varset T) cv) row = Some row' /\ forall rows, row_ok (T' rows) row' /\
    denote (row_sol (T' rows) row') = denote (row_sol T row) /\
    forall v z, row_sol (T' rows) row' !! v = Some (VId z) -> row_sol T row !! v = Some (VId z).
Proof using Type.
  intros HT [Hi Hs] cv T'. destruct (table_ok_parts T HT) as (Ti&Ts&Td).
  assert (Ecv : cv = filter (.∈ W) (id_varset T)) by by apply vs_mul_filter.
  assert (Hcv : forall v, v ∈ cv <-> v ∈ W /\ v ∈ id_varset T) by (intros v; by rewrite Ecv, list_elem_of_filter).
  set (new := vs_sub (id_varset T) cv). assert (Hnew : forall v, v ∈ new <-> v ∈ id_varset T /\ v ∉ cv) by (intros v; by apply elem_of_vs_sub).
  assert (Nnew : NoDup new) by by apply NoDup_vs_sub.
  assert (Estr : vs_add (str_varset T) cv = str_varset T ++ cv).
  { apply vs_add_disjoint; [rewrite Ecv; by apply NoDup_filter|]. intros v [_ Hv]%Hcv. by apply Td. }
  destruct (convert_cells_ok W new (id_varset T) (rp_id row) (replicate (Z.to_nat (getVarsetSize new)) uninit) (rp_str row))
    as (v'&added&E&L&La&Z1&Z2); try done.
  { intros v Hv. rewrite Hnew, Hcv. tauto. }
  { unfold getVarsetSize. rewrite length_replicate. lia. }
  rewrite <- Ecv in La, Z2. exists (mk_ResultPair v' (rp_str row ++ added)). unfold convert_row. rewrite E. split; [done|]. intros rows.
  rewrite union_covered in Z1.
  2:{ intros v Hv. assert (Hin : v ∈ new) by (destruct (decide (v ∈ new)) as [|Hn]; [done|rewrite zmap_None in Hv by done; by destruct Hv]).
    apply Hnew in Hin as [Hin Hncv]. destruct (zmap_is_Some (id_varset T) (rp_id row) v) as [z Hz]; [done..|]. exists z.
    apply map_lookup_filter_Some. split; [done|]. cbn. rewrite Hcv in Hncv. tauto. }
  split; [split; cbn; [done|]; rewrite Estr, !length_app; lia|].
  assert (HL : forall v, row_sol (T' rows) (mk_ResultPair v' (rp_str row ++ added)) !! v =
    if decide (v ∈ W) then match zmap (id_varset T) (rp_id row) !! v with Some z => Some (VStr (str_of v z)) | None => row_sol T row !! v end
    else row_sol T row !! v).
  { intros v. unfold row_sol, T'. cbn [id_varset str_varset rp_id rp_str]. fold new. rewrite Estr, zmap_app, Z2, Z1 by done.
    rewrite !lookup_union, !lookup_fmap, lookup_union, map_lookup_imap, !map_lookup_filter. cbn.
    destruct (zmap (id_varset T) (rp_id row) !! v) as [z|] eqn:Ez; cbn.
    - assert (Hv : v ∈ id_varset T) by (destruct (decide (v ∈ id_varset T)) as [|Hn]; [done|by rewrite zmap_None in Ez by done]).
      rewrite (zmap_None (str_varset T)) by by apply Td. cbn. destruct (decide (v ∈ W)) as [HW|HW]; cbn.
      + rewrite option_guard_False by tauto. by rewrite option_guard_True.
      + rewrite option_guard_True by done. by rewrite option_guard_False.
    - destruct (zmap (str_varset T) (rp_str row) !! v), (decide (v ∈ W)); done. }
  split.
  - apply map_eq. intros v. rewrite !lookup_denote, HL. destruct (decide (v ∈ W)); [|done].
    destruct (zmap (id_varset T) (rp_id row) !! v) as [z|] eqn:Ez; [|done]. unfold row_sol. rewrite lookup_union, !lookup_fmap, Ez.
    by destruct (zmap (str_varset T) (rp_str row) !! v).
  - intros v z. rewrite HL. destruct (decide (v ∈ W)); [|done]. by destruct (zmap (id_varset T) (rp_id row) !! v).
Qed.

Lemma mapM_Forall2 {A B} (f : A -> option B) (R : A -> B -> Prop) l : (forall a, a ∈ l -> exists b, f a = Some b /\ R a b) ->
  exists k, mapM f l = Some k /\ Forall2 R l k.
Proof using Type.
  induction l as [|a l IH]; intros H; [by exists []|]. destruct (H a) as (b&E&Hb); [set_solver|].
  destruct IH as (k&E'&Hk); [intros c Hc; apply H; set_solver|]. exists (b :: k). cbn [mapM]. rewrite E. cbn. rewrite E'. split; [done|by constructor].
Qed.

Lemma converted_table T W : table_ok T -> exists T', convertId2Str str_of uninit T (vs_mul (id_varset T) W) = Some T' /\ converted W T T'.
Proof using Type.
  intros HT. set (cv := vs_mul (id_varset T) W). set (T' := mk_TempResult (vs_sub (id_varset T) cv) (vs_add (str_varset T) cv)).
  destruct (table_ok_parts T HT) as (Ti&Ts&Td). pose proof (ok_rows _ HT) as HF. rewrite Forall_forall in HF.
  destruct (mapM_Forall2 (convert_row str_of uninit T (vs_sub (id_varset T) cv))
    (fun row row' => forall rows, row_ok (T' rows) row' /\ denote (row_sol (T' rows) row') = denote (row_sol T row) /\
      forall v z, row_sol (T' rows) row' !! v = Some (VId z) -> row_sol T row !! v = Some (VId z)) (result T)) as (rows&E&H).
  { intros row Hrow. apply converted_row; auto. }
  exists (T' rows). unfold convertId2Str. fold cv. rewrite E. split; [done|].
  assert (Hcv : forall v, v ∈ cv <-> v ∈ id_varset T /\ v ∈ W) by (intros v; by apply elem_of_vs_mul). split.
  - split; [|cbn; clear - H; induction H; constructor; [by apply H|done]]. cbn. apply NoDup_app. split_and!.
    + by apply NoDup_vs_sub.
    + intros v. rewrite elem_of_vs_sub, elem_of_vs_add by done. specialize (Td v). tauto.
    + by apply NoDup_vs_add.
  - intros v. cbn. rewrite elem_of_vs_sub, Hcv by done. tauto.
  - intros v. cbn. rewrite elem_of_vs_add, Hcv. tauto.
  - unfold sols. cbn [result]. apply Forall2_fmap. eapply Forall2_impl; [exact H|]. intros row row' Hr. by apply Hr.
Qed.

Lemma align_tables_ok l W : Forall table_ok l -> exists l', align_tables str_of uninit l W = Some l' /\ Forall2 (converted W) l l'.
Proof using Type.
  intros HF. rewrite Forall_forall in HF. apply mapM_Forall2. intros T HT. destruct (hasCommonVar (id_varset T) W) eqn:E; [by apply converted_table; auto|].
  exists T. split; [done|]. apply not_converted; [auto|]. by apply hasCommonVar_false.
Qed.
End Denote.

Lemma value_kind T row v x : row_sol T row !! v = Some x -> (exists z, x = VId z /\ v ∈ id_varset T) \/ (exists s, x = VStr s /\ v ∈ str_varset T).
Proof.
  unfold row_sol. rewrite lookup_union, !lookup_fmap.
  destruct (zmap (id_varset T) (rp_id row) !! v) as [z|] eqn:Ez, (zmap (str_varset T) (rp_str row) !! v) as [s|] eqn:Es; cbn; intros [= <-].
  1, 2: left; exists z; split; [done|]; destruct (decide (v ∈ id_varset T)) as [|Hn]; [done|by rewrite zmap_None in Ez by done].
  right. exists s. split; [done|]. destruct (decide (v ∈ str_varset T)) as [|Hn]; [done|by rewrite zmap_None in Es by done].
Qed.

(** ** Two sets before and after the conversions *)

(** Every variable of a set has ids in all its tables or strings in all of them. *)
Definition uniform (ts : list TempResult) : Prop := forall T U, T ∈ ts -> U ∈ ts -> aligned T U.

Definition connected (ts xs : list TempResult) : Prop := forall t u, t ∈ ts -> u ∈ xs -> common_vars t u <> [].

Lemma elem_of_str_vars v ts : v ∈ str_vars ts <-> exists T, T ∈ ts /\ v ∈ str_varset T.
Proof.
  unfold str_vars. enough (G : forall l vs, v ∈ fold_left (fun vs T => vs_add vs (str_varset T)) l vs <-> v ∈ vs \/ exists T, T ∈ l /\ v ∈ str_varset T).
  { rewrite G. set_solver. }
  induction l as [|T l IH]; intros vs; cbn; [set_solver|]. rewrite IH, elem_of_vs_add. setoid_rewrite elem_of_cons. naive_solver.
Qed.

Section Align.
Context (str_of : string -> Z -> string).

(** Ids of one variable that the store turns into the same string are the same. *)
Definition decodable (A B : list (gmap string value)) : Prop := forall a b v z z', a ∈ A -> b ∈ B ->
  a !! v = Some (VId z) -> b !! v = Some (VId z') -> str_of v z = str_of v z' -> z = z'.

Lemma converted_at W ts ts' T' : Forall2 (converted str_of W) ts ts' -> T' ∈ ts' -> exists T, T ∈ ts /\ converted str_of W T T'.
Proof using Type.
  intros H [i Hi]%list_elem_of_lookup. destruct (Forall2_lookup_r _ _ _ _ _ H Hi) as (T&HT&Hc). exists T. split; [by eapply list_elem_of_lookup_2|done].
Qed.

Lemma converted_tables W ts ts' : Forall2 (converted str_of W) ts ts' -> Forall table_ok ts'.
Proof using Type. intros H. induction H; constructor; [by eapply cv_ok|done]. Qed.

Lemma converted_vars W T T' v : converted str_of W T T' -> v ∈ vars T' <-> v ∈ vars T.
Proof using Type.
  intros H. rewrite !elem_of_vars, (cv_ids _ _ _ _ H), (cv_strs _ _ _ _ H). destruct (decide (v ∈ W)); tauto.
Qed.

Lemma converted_matched ts xs ts' xs' : Forall table_ok ts -> Forall table_ok xs -> uniform ts -> uniform xs -> connected ts xs ->
  Forall2 (converted str_of (str_vars xs)) ts ts' -> Forall2 (converted str_of (str_vars ts)) xs xs' -> all_matched ts' xs'.
Proof using Type.
  intros HT HX Ut Ux Hc H1 H2 T' U' HT' HU'. destruct (converted_at _ _ _ _ H1 HT') as (T&HTin&CT), (converted_at _ _ _ _ H2 HU') as (U&HUin&CU).
  rewrite Forall_forall in HT, HX. split.
  - intros v. rewrite (cv_ids _ _ _ _ CT), (cv_strs _ _ _ _ CT), (cv_ids _ _ _ _ CU), (cv_strs _ _ _ _ CU), !elem_of_str_vars.
    intros [[[Hv Hn] [Hs|(Hs&T2&HT2&Hv2)]]|[[Hs|(Hs&T2&HT2&Hv2)] [Hv Hn]]].
    + apply Hn. eauto.
    + apply (Ut T T2 HTin HT2 v). by left.
    + apply Hn. eauto.
    + apply (Ux U T2 HUin HT2 v). by left.
  - specialize (Hc T U HTin HUin). destruct (common_vars T U) as [|v l] eqn:E; [done|]. assert (Hv : v ∈ common_vars T U) by (rewrite E; set_solver).
    apply elem_of_common in Hv as [Hv Hu]; [|auto..]. intros En. assert (Hin : v ∈ common_vars T' U').
    { apply elem_of_common; [by eapply cv_ok|by eapply cv_ok|]. by rewrite (converted_vars _ _ _ _ CT), (converted_vars _ _ _ _ CU). }
    rewrite En in Hin. set_solver.
Qed.

Lemma converted_separate W ts ts' : uniform ts -> Forall2 (converted str_of W) ts ts' -> separate ts -> separate ts'.
Proof using Type.
  intros Ut H Hs i k t' u' Hi Hk Hik [S1 S2]. destruct (Forall2_lookup_r _ _ _ _ _ H Hi) as (t&Ht&CT), (Forall2_lookup_r _ _ _ _ _ H Hk) as (u&Hu&CU).
  pose proof (Ut t u (list_elem_of_lookup_2 _ _ _ Ht) (list_elem_of_lookup_2 _ _ _ Hu)) as Ha. apply (Hs i k t u Ht Hu Hik).
  assert (Hi' : forall v, v ∈ id_varset t /\ v ∉ W <-> v ∈ id_varset u /\ v ∉ W) by (intros v; by rewrite <- (cv_ids _ _ _ _ CT v), <- (cv_ids _ _ _ _ CU v)).
  assert (Hs' : forall v, v ∈ str_varset t \/ v ∈ id_varset t /\ v ∈ W <-> v ∈ str_varset u \/ v ∈ id_varset u /\ v ∈ W)
    by (intros v; by rewrite <- (cv_strs _ _ _ _ CT v), <- (cv_strs _ _ _ _ CU v)).
  split; intros v; specialize (Ha v); specialize (Hi' v); specialize (Hs' v); destruct (decide (v ∈ W)); tauto.
Qed.

(** The solutions stay the same, and ids come from ids. *)
Lemma converted_sols W ts ts' : Forall2 (converted str_of W) ts ts' ->
  Forall2 (fun a a' => denote str_of a' = denote str_of a /\ forall v z, a' !! v = Some (VId z) -> a !! v = Some (VId z)) (all_sols ts) (all_sols ts').
Proof using Type. intros H. induction H; [constructor|]. rewrite !all_sols_cons. apply Forall2_app; [by eapply cv_sols|done]. Qed.

Lemma converted_denote W ts ts' : Forall2 (converted str_of W) ts ts' -> denote str_of <$> all_sols ts' = denote str_of <$> all_sols ts.
Proof using Type.
  intros H%converted_sols. induction H as [|a a' l l' [E _] _ IH]; [done|]. rewrite !fmap_cons. by f_equal.
Qed.

Lemma elem_of_all_sols a ts : Forall table_ok ts -> a ∈ all_sols ts <-> exists T row, T ∈ ts /\ row ∈ result T /\ row_ok T row /\ a = row_sol T row.
Proof using Type.
  intros HF. rewrite Forall_forall in HF. unfold all_sols. rewrite list_elem_of_bind. split.
  - intros (T&Ha&HT). apply elem_of_sols in Ha as (row&?&?&->); [|auto]. by exists T, row.
  - intros (T&row&HT&Hr&Ho&->). exists T. split; [|done]. apply elem_of_sols; [auto|]. by exists row.
Qed.

Lemma converted_comparable W W' ts xs ts' xs' : Forall2 (converted str_of W) ts ts' -> Forall2 (converted str_of W') xs xs' ->
  all_matched ts' xs' -> decodable (all_sols ts) (all_sols xs) -> all_comparable str_of (all_sols ts') (all_sols xs').
Proof using Type.
  intros H1 H2 Hm Hd a b Ha Hb v p q Hp Hq E. pose proof (converted_tables _ _ _ H1) as F1. pose proof (converted_tables _ _ _ H2) as F2.
  pose proof Ha as (T&row&HT&_&_&->)%elem_of_all_sols; [|done]. pose proof Hb as (U&row'&HU&_&_&->)%elem_of_all_sols; [|done].
  destruct (Hm T U HT HU) as [Hal _].
  destruct (value_kind _ _ _ _ Hp) as [(z&->&Hv)|(s&->&Hv)], (value_kind _ _ _ _ Hq) as [(z'&->&Hw)|(s'&->&Hw)].
  - f_equal. cbn in E. apply list_elem_of_lookup in Ha as [i Hi]. apply list_elem_of_lookup in Hb as [j Hj].
    destruct (Forall2_lookup_r _ _ _ _ _ (converted_sols _ _ _ H1) Hi) as (a0&Ha0&_&Hids).
    destruct (Forall2_lookup_r _ _ _ _ _ (converted_sols _ _ _ H2) Hj) as (b0&Hb0&_&Hids').
    apply (Hd a0 b0 v); auto; by eapply list_elem_of_lookup_2.
  - destruct (Hal v). by left.
  - destruct (Hal v). by right.
  - cbn in E. by subst.
Qed.
End Align.

(** ** The operations *)

Lemma never_filled_nil this : never_filled this = true -> results this = [].
Proof. unfold never_filled. rewrite andb_true_iff, bool_decide_eq_true. tauto. Qed.

Section Theorems.
Context (uninit : Z) (moved : string).
Context (getEntityByID getLiteralByID getPredicateByID : Z -> string) (entity_literal_varset : Varset).
Abbreviation str_of := (kv_str_of getEntityByID getLiteralByID getPredicateByID entity_literal_varset).

(** Well-formed sets: tables with different columns. *)
Definition set_ok (R : TempResultSet) : Prop := Forall table_ok (results R) /\ separate (results R).
Definition solutions (R : TempResultSet) : list (gmap string string) := denote str_of <$> all_sols (results R).

Lemma align_sets_ok ts xs : Forall table_ok ts -> Forall table_ok xs -> uniform ts -> uniform xs -> connected ts xs ->
  decodable str_of (all_sols ts) (all_sols xs) ->
  exists ts' xs', align_sets uninit getEntityByID getLiteralByID getPredicateByID entity_literal_varset ts xs = Some (ts', xs') /\
    Forall table_ok ts' /\ Forall table_ok xs' /\ all_matched ts' xs' /\ all_comparable str_of (all_sols ts') (all_sols xs') /\
    denote str_of <$> all_sols ts' = denote str_of <$> all_sols ts /\ denote str_of <$> all_sols xs' = denote str_of <$> all_sols xs /\
    Forall2 (converted str_of (str_vars xs)) ts ts' /\ length xs' = length xs.
Proof using Type.
  intros HT HX Ut Ux Hc Hd. destruct (align_tables_ok str_of uninit ts (str_vars xs) HT) as (ts'&E1&H1).
  destruct (align_tables_ok str_of uninit xs (str_vars ts) HX) as (xs'&E2&H2). exists ts', xs'. unfold align_sets. rewrite E1. cbn [mbind option_bind].
  rewrite E2. split; [done|]. pose proof (converted_matched str_of ts xs ts' xs' HT HX Ut Ux Hc H1 H2) as Hm. split_and!.
  - by eapply converted_tables.
  - by eapply converted_tables.
  - done.
  - by eapply converted_comparable.
  - by eapply converted_denote.
  - by eapply converted_denote.
  - done.
  - symmetry. by eapply Forall2_length.
Qed.

Lemma union_tables_ok l : forall rs, Forall table_ok l -> Forall table_ok rs ->
  exists rs', union_tables uninit l rs = Some rs' /\ Forall table_ok rs' /\ (separate rs -> separate rs') /\ all_sols rs' ≡ₚ all_sols rs ++ all_sols l.
Proof using Type.
  induction l as [|T l IH]; intros rs HF HR; [exists rs; by rewrite app_nil_r|]. apply Forall_cons in HF as [HT HF].
  enough (G : exists rs1, union_table uninit T rs = Some rs1 /\ Forall table_ok rs1 /\ (separate rs -> separate rs1) /\ all_sols rs1 ≡ₚ all_sols rs ++ sols T).
  { destruct G as (rs1&E&HR1&HS1&HA1). destruct (IH rs1 HF HR1) as (rs'&E'&HR'&HS'&HA'). exists rs'. cbn [union_tables]. rewrite E.
    split; [exact E'|]. split; [done|]. split; [auto|]. by rewrite HA', HA1, all_sols_cons, app_assoc. }
  unfold union_table. destruct (findCompatibleResult rs _ _) as [pos rs1] eqn:Ef.
  apply findCompatibleResult_ok in Ef as (HF1&HQ1&HA1&_&r&Hr&HC&_); [|done|apply HT]. case_bool_decide as Ex.
  - exists rs1. split; [done|]. split; [done|]. split; [done|]. by rewrite HA1, (sols_nil T Ex), app_nil_r.
  - rewrite Hr. cbn [mbind option_bind]. destruct (doUnion_ok uninit T r) as (rows&E&Hrows&Hsols); [done|exact (Forall_lookup_1 _ _ _ _ HF1 Hr)|done|].
    rewrite E. cbn [mbind option_bind]. destruct (push_at rs1 pos r rows Hr HF1 Hrows) as (HF2&HS2&HA2). eexists. split; [done|]. split; [done|].
    split; [intros Hq; by eapply separate_shape, HQ1|]. by rewrite HA2, HA1, Hsols.
Qed.

Lemma union_ok this x r : set_ok this -> set_ok x -> set_ok r ->
  exists r', set_doUnion uninit this x r = Some r' /\ set_ok r' /\ solutions r' ≡ₚ solutions r ++ solutions this ++ solutions x.
Proof using Type.
  intros [HT _] [HX _] [HR HQ]. unfold set_doUnion. destruct (union_tables_ok (results this) (results r) HT HR) as (rs1&E1&HR1&HS1&HA1). rewrite E1. cbn [mbind option_bind].
  destruct (union_tables_ok (results x) rs1 HX HR1) as (rs2&E2&HR2&HS2&HA2). rewrite E2. cbn [mbind option_bind]. eexists. split; [done|]. split; [by split; [|auto]|].
  unfold solutions. cbn [results set_results]. by rewrite HA2, HA1, !fmap_app, <- app_assoc.
Qed.

(** What is added to the solutions of [r], from what was added to its tables. *)
Lemma added_solutions (G : forall V `{EqDecision V}, list (gmap string V) -> list (gmap string V) -> list (gmap string V)) ts' xs' rs rs' A B :
  (forall C D, all_comparable str_of C D -> denote str_of <$> G value C D = G string (denote str_of <$> C) (denote str_of <$> D)) ->
  all_comparable str_of (all_sols ts') (all_sols xs') -> denote str_of <$> all_sols ts' = A -> denote str_of <$> all_sols xs' = B ->
  all_sols rs' ≡ₚ all_sols rs ++ G value (all_sols ts') (all_sols xs') ->
  denote str_of <$> all_sols rs' ≡ₚ (denote str_of <$> all_sols rs) ++ G string A B.
Proof using Type. intros HG Hc <- <- H. by rewrite H, fmap_app, HG. Qed.

Lemma fill_first_ok this x r : never_filled this = true -> set_ok x -> set_ok r ->
  exists r', set_doUnion uninit (fill_first this) x r = Some r' /\ set_ok r' /\ solutions r' ≡ₚ solutions r ++ solutions x.
Proof using Type.
  intros H%never_filled_nil HX HR. destruct (union_ok (fill_first this) x r) as (r'&E&Hr&HS); [|done..|].
  { unfold set_ok. cbn. rewrite H. split; [constructor|done]. }
  exists r'. split; [done|]. split; [done|]. rewrite HS. unfold solutions at 2. cbn [fill_first results]. by rewrite H.
Qed.

(** C36. Joining: for two well-formed sets of tables -- tables with one column per variable and different columns in different tables,
    every variable with ids in all tables of a set or strings in all of them, a
    common variable in every pair of tables of the two sets, and ids that the store
    turns into different strings unless they are equal -- [doJoin] returns.  It adds to the solutions of [r],
    each with its number of occurrences, exactly the joins of compatible solutions of
    the two sets, columns of ids being turned into strings where the other set has
    strings; if the first set was never filled, the solutions of the second one. *)
Theorem join_refines this x r : set_ok this -> set_ok x -> set_ok r -> uniform (results this) -> uniform (results x) ->
  connected (results this) (results x) -> decodable str_of (all_sols (results this)) (all_sols (results x)) ->
  exists this' x' r',
    set_doJoin uninit moved getEntityByID getLiteralByID getPredicateByID entity_literal_varset this x r = Some (this', x', r') /\ set_ok r' /\
    solutions r' ≡ₚ solutions r ++ (if never_filled this then solutions x else Join (solutions this) (solutions x)).
Proof using Type.
  intros [HT HqT] HX HR Ut Ux Hc Hd. unfold set_doJoin. destruct (never_filled this) eqn:En.
  { destruct (fill_first_ok this x r En HX HR) as (r'&E&Hr&HS). rewrite E. by eexists _, _, _. }
  destruct HX as [HX HqX], HR as [HR HqR]. destruct (align_sets_ok _ _ HT HX Ut Ux Hc Hd) as (ts'&xs'&E&HT'&HX'&Hm&Hcmp&Et&Ex&_&_). rewrite E. cbn [mbind option_bind].
  destruct (join_pairs_ok uninit moved (table_pairs (length ts') (length xs')) ts' xs' (results r)) as (xs2&rs'&E'&_&HR'&HS'&HA); try done.
  { apply Forall_forall. intros [i j]. unfold table_pairs. rewrite list_elem_of_bind. intros (k&(l&[= -> ->]&Hl)%list_elem_of_fmap&Hk).
    apply elem_of_seq in Hl, Hk. cbn. lia. }
  rewrite E'. cbn [mbind option_bind]. eexists _, _, _. split; [done|]. split; [by split; [|auto]|]. rewrite join_all in HA. unfold solutions. cbn [results set_results].
  by apply (added_solutions (fun V H => @Join V H) ts' xs'); [apply Join_denote|..].
Qed.


(** C38. Differences: for two sets as in [join_refines] and an empty [r], [doMinus]
    returns and leaves in [r] exactly the solutions of the first set, with their
    number of occurrences, that no solution of the second set is compatible with and
    shares a variable with, however many tables the second set has. *)
Theorem minus_refines this x r : set_ok this -> set_ok x -> results r = [] -> uniform (results this) -> uniform (results x) ->
  connected (results this) (results x) -> decodable str_of (all_sols (results this)) (all_sols (results x)) ->
  exists this' x' r',
    set_doMinus uninit getEntityByID getLiteralByID getPredicateByID entity_literal_varset this x r = Some (this', x', r') /\ set_ok r' /\
    solutions r' ≡ₚ Minus (solutions this) (solutions x).
Proof using Type.
  intros [HT HqT] HX Hr Ut Ux Hc Hd. assert (HR : set_ok r) by (unfold set_ok; rewrite Hr; split; [constructor|done]).
  assert (Hsr : solutions r = []) by (unfold solutions; by rewrite Hr).
  unfold set_doMinus. destruct (bool_decide_reflect (results x = [])) as [Ex|Ex].
  { destruct (union_ok this x r) as (r'&E&Hr'&HS); [done..|]. rewrite E. cbn [mbind option_bind]. eexists _, _, _. split; [done|]. split; [done|].
    rewrite HS, Hsr. unfold solutions at 2 4. rewrite Ex. cbn [app]. rewrite app_nil_r. unfold Minus. by rewrite filter_all by by apply Forall_forall. }
  destruct HX as [HX HqX], HR as [HR HqR].
  destruct (align_sets_ok _ _ HT HX Ut Ux Hc Hd) as (ts'&xs'&E&HT'&HX'&Hm&Hcmp&Et&Ey&Hcv&Hlen). rewrite E. cbn [mbind option_bind].
  pose proof (converted_separate str_of _ _ _ Ut Hcv HqT) as Hsep.
  destruct (every_table_ok Minus Minus_perm_r (minus_table uninit) ts' (length xs')
    (fun i rs => forall T u, T ∈ rs -> ts' !! i = Some u -> ~ same_vars T u)) with (xs := xs') (rs := results r)
    as (xs2&rs'&E'&_&HR'&HS'&HA); try done.
  { intros i t us rs Ht Hus HU HR' Hm' HQ.
    assert (us <> []) by (intros ->; destruct (results x), xs'; done).
    destruct (minus_table_ok uninit i t ts' us rs) as (us'&rs1&?&?&?&?&?&?); [done..|]. by exists us', rs1. }
  { intros A A' B. apply Minus_app_l. }
  { intros i _. rewrite Hr. set_solver. }
  rewrite E'. cbn [mbind option_bind]. eexists _, _, _. split; [done|]. split; [by split; [|auto]|].
  pose proof (added_solutions (fun V H => @Minus V H) ts' xs' (results r) rs' _ _ (Minus_denote str_of) Hcmp Et Ey HA) as Hsol.
  rewrite Hr in Hsol. exact Hsol.
Qed.

(** Tables that share no variable need no conversion. *)
Lemma disjoint_unaligned T U : table_ok T -> table_ok U -> common_vars T U = [] -> hasCommonVar (id_varset T) (str_vars [U]) = false.
Proof using Type.
  intros HT HU Hc. apply hasCommonVar_false. intros v Hv (W&->%list_elem_of_singleton&Hw)%elem_of_str_vars.
  apply (disjoint_aligned T U HT HU Hc v). by left.
Qed.

Lemma set_ok_one R T : results R = [T] -> table_ok T -> set_ok R.
Proof using Type.
  intros E HT. unfold set_ok. rewrite E. split; [by constructor|]. intros i k t u Hi Hk Hik.
  apply list_lookup_singleton_Some in Hi as [? _], Hk as [? _]. lia.
Qed.

Lemma empty_ok R : results R = [] -> set_ok R /\ solutions R = [].
Proof using Type. intros E. unfold set_ok, solutions. rewrite E. split; [split; [constructor|done]|done]. Qed.

(** C39. Products: two sets of one table each that have no variable in common, [r] being
    empty.  The strings of a table are moved out of it when they are first used, so
    a table with columns of strings must not meet more than one row of the other one
    ([strings_once]); then [doJoin] returns and [r] has every union of a solution of the
    one with a solution of the other. *)
Theorem product_refines this x r T U : results this = [T] -> results x = [U] -> results r = [] -> table_ok T -> table_ok U ->
  common_vars T U = [] -> strings_once T U ->
  exists this' x' r',
    set_doJoin uninit moved getEntityByID getLiteralByID getPredicateByID entity_literal_varset this x r = Some (this', x', r') /\ set_ok r' /\
    solutions r' ≡ₚ Join (solutions this) (solutions x).
Proof using Type.
  intros ET EX ER HT HX Hc Hs. assert (Hc' : common_vars U T = []).
  { destruct (common_vars U T) as [|v l] eqn:E; [done|]. assert (Hv : v ∈ common_vars U T) by (rewrite E; set_solver).
    apply elem_of_common in Hv as [H1 H2]; [|done..]. assert (Hv : v ∈ common_vars T U) by by apply elem_of_common. rewrite Hc in Hv. set_solver. }
  pose proof (disjoint_aligned T U HT HX Hc) as Ha. unfold set_doJoin. assert (never_filled this = false) as -> by (unfold never_filled; by rewrite ET).
  assert (Eal : align_sets uninit getEntityByID getLiteralByID getPredicateByID entity_literal_varset (results this) (results x) = Some ([T], [U])).
  { rewrite ET, EX. unfold align_sets, align_tables. cbn [mapM]. by rewrite (disjoint_unaligned T U), (disjoint_unaligned U T). }
  rewrite Eal. cbn [mbind option_bind length table_pairs seq list_bind fmap list_fmap app join_pairs join_pair lookup list_lookup]. rewrite ER.
  unfold findCompatibleResult. cbn [find_compatible length app lookup list_lookup mbind option_bind].
  set (r0 := mk_TempResult _ _ _). assert (Hr0 : table_ok r0) by (split; [by apply joined_columns|constructor]).
  destruct (doJoin_disjoint uninit moved T U r0) as (ts&xs&rows&E&_&_&Hrows&Hsols); try done; [by apply joined_vars|].
  rewrite E. cbn [mbind option_bind]. eexists _, _, _. split; [done|]. split.
  { apply (set_ok_one _ (set_result r0 rows)); [done|]. split; [apply Hr0|done]. }
  unfold solutions. cbn [results set_results]. rewrite ET, EX. unfold all_sols. cbn [mbind list_bind insert list_insert]. rewrite !app_nil_r.
  change (sols (set_result r0 rows)) with (row_sol r0 <$> rows). rewrite Hsols, Join_denote; [done|].
  intros a b (t&_&Ht&->)%elem_of_sols (u&_&Hu&->)%elem_of_sols v p q Hp Hq; [|done..]. exfalso.
  assert (Hv : v ∈ common_vars T U) by (apply elem_of_common; [done..|]; split; [apply (row_sol_dom T t)|apply (row_sol_dom U u)]; eauto).
  rewrite Hc in Hv. set_solver.
Qed.
End Theorems.

(** ** [doDistinct1] *)

Section Distinct.
Context (uninit : Z).






End Distinct.

(** ** An example

    Two tables with [x] as an id, and one that has [x] as a string. *)

Open Scope string_scope.

Definition ex_id (z : Z) : string := pretty z.
Definition ex_table1 : TempResult := mk_TempResult ["x"; "y"] [] [mk_ResultPair [1; 2] []; mk_ResultPair [3; 4] []].
Definition ex_table2 : TempResult := mk_TempResult ["x"] [] [mk_ResultPair [1] []].
Definition ex_other : TempResult := mk_TempResult ["z"] ["x"] [mk_ResultPair [7] ["1"]; mk_ResultPair [8] ["5"]].
Definition ex_this : TempResultSet := mk_TempResultSet [ex_table1; ex_table2] false.
Definition ex_x : TempResultSet := mk_TempResultSet [ex_other] true.
Definition ex_r : TempResultSet := mk_TempResultSet [] true.

Definition rows_fit (T : TempResult) : bool :=
  forallb (fun row => (length (rp_id row) =? length (id_varset T))%nat && (length (rp_str row) =? length (str_varset T))%nat) (result T).

Lemma table_ok_dec T : bool_decide (NoDup (id_varset T ++ str_varset T)) && rows_fit T = true -> table_ok T.
Proof.
  intros [Hn%bool_decide_eq_true_1 Hr]%andb_true_iff. split; [done|]. apply Forall_forall. intros row Hrow%list_elem_of_In.
  unfold rows_fit in Hr. rewrite forallb_forall in Hr. specialize (Hr row Hrow). apply andb_true_iff in Hr as [H1%Nat.eqb_eq H2%Nat.eqb_eq]. done.
Qed.

Lemma ex_this_ok : set_ok ex_this.
Proof.
  split; [constructor; [|constructor; [|constructor]]; apply table_ok_dec; by vm_compute|].
  intros i k t u Hi Hk Hik [H _]. destruct i as [|[|i]], k as [|[|k]]; try done; cbn in Hi, Hk; simplify_eq; specialize (H "y"); cbn in H; set_solver.
Qed.

Lemma ex_other_ok : table_ok ex_other.
Proof. apply table_ok_dec. by vm_compute. Qed.

Lemma ex_table T : T ∈ results ex_this -> T = ex_table1 \/ T = ex_table2.
Proof. unfold ex_this. cbn [results]. rewrite !elem_of_cons, elem_of_nil. tauto. Qed.

Lemma ex_uniform : uniform (results ex_this).
Proof.
  assert (H : forall T, T ∈ results ex_this -> str_varset T = []) by (intros T HT%ex_table; by destruct HT as [-> | ->]).
  intros T U HT HU v. rewrite (H T HT), (H U HU). set_solver.
Qed.

Lemma ex_uniform_x : uniform (results ex_x).
Proof. intros T U ->%list_elem_of_singleton ->%list_elem_of_singleton. apply aligned_refl, ex_other_ok. Qed.

Lemma ex_connected : connected (results ex_this) (results ex_x).
Proof. intros t u Ht%ex_table ->%list_elem_of_singleton. by destruct Ht as [-> | ->]. Qed.

Lemma ex_decodable A B : decodable (kv_str_of ex_id ex_id ex_id ["x"]) A B.
Proof.
  intros a b v z z' _ _ _ _. unfold kv_str_of. intros E. apply (inj pretty).
  by destruct (findVar ["x"] v), (Z.ltb z LITERAL_FIRST_ID), (Z.ltb z' LITERAL_FIRST_ID).
Qed.

Definition ex_sol (l : list (string * string)) : gmap string string := list_to_map l.

Lemma join_refines_witness : exists this' x' r',
  set_doJoin 0 "" ex_id ex_id ex_id ["x"] ex_this ex_x ex_r = Some (this', x', r') /\
  solutions ex_id ex_id ex_id ["x"] r' ≡ₚ [ex_sol [("x", "1"); ("y", "2"); ("z", "7")]; ex_sol [("x", "1"); ("z", "7")]].
Proof.
  destruct (join_refines 0 "" ex_id ex_id ex_id ["x"] ex_this ex_x ex_r) as (this'&x'&r'&E&_&H);
    [exact ex_this_ok|by apply (set_ok_one _ ex_other), ex_other_ok|by apply (empty_ok ex_id ex_id ex_id ["x"])|
     exact ex_uniform|exact ex_uniform_x|exact ex_connected|apply ex_decodable|].
  exists this', x', r'. split; [exact E|]. etransitivity; [exact H|]. by vm_compute.
Defined.


Lemma minus_refines_witness : exists this' x' r',
  set_doMinus 0 ex_id ex_id ex_id ["x"] ex_this ex_x ex_r = Some (this', x', r') /\
  solutions ex_id ex_id ex_id ["x"] r' ≡ₚ [ex_sol [("x", "3"); ("y", "4")]].
Proof.
  destruct (minus_refines 0 ex_id ex_id ex_id ["x"] ex_this ex_x ex_r) as (this'&x'&r'&E&_&H);
    [exact ex_this_ok|by apply (set_ok_one _ ex_other), ex_other_ok|done|exact ex_uniform|exact ex_uniform_x|exact ex_connected|apply ex_decodable|].
  exists this', x', r'. split; [exact E|]. etransitivity; [exact H|]. by vm_compute.
Defined.

Definition ex_left : TempResult := mk_TempResult ["a"] ["b"] [mk_ResultPair [1] ["p"]; mk_ResultPair [2] ["q"]].
Definition ex_right : TempResult := mk_TempResult ["c"] [] [mk_ResultPair [5] []].
Definition ex_one (T : TempResult) : TempResultSet := mk_TempResultSet [T] false.

Lemma product_refines_witness : exists this' x' r',
  set_doJoin 0 "" ex_id ex_id ex_id [] (ex_one ex_left) (ex_one ex_right) ex_r = Some (this', x', r') /\
  solutions ex_id ex_id ex_id [] r' ≡ₚ [ex_sol [("a", "1"); ("b", "p"); ("c", "5")]; ex_sol [("a", "2"); ("b", "q"); ("c", "5")]].
Proof.
  destruct (product_refines 0 "" ex_id ex_id ex_id [] (ex_one ex_left) (ex_one ex_right) ex_r ex_left ex_right) as (this'&x'&r'&E&_&H);
    [done..|by apply table_ok_dec|by apply table_ok_dec|done|split; [right; cbn; lia|by left]|].
  exists this', x', r'. split; [exact E|]. etransitivity; [exact H|]. by vm_compute.
Defined.



(** ** Where the operations go wrong

    What the hypotheses of the theorems leave out. *)

Definition answer_of (o : option (TempResultSet * TempResultSet * TempResultSet)) : option (list (gmap string string)) :=
  o ← o; Some (solutions ex_id ex_id ex_id [] o.2).

(** A table with strings that meets two rows: its strings have been moved away at the
    second one. *)
Definition ex_right2 : TempResult := mk_TempResult ["c"] [] [mk_ResultPair [5] []; mk_ResultPair [6] []].
Example product_loses_strings :
  answer_of (set_doJoin 0 "" ex_id ex_id ex_id [] (ex_one ex_left) (ex_one ex_right2) ex_r) =
    Some [ex_sol [("a", "1"); ("b", "p"); ("c", "5")]; ex_sol [("a", "2"); ("b", "q"); ("c", "5")];
          ex_sol [("a", "1"); ("b", ""); ("c", "6")]; ex_sol [("a", "2"); ("b", ""); ("c", "6")]].
Proof. by vm_compute. Qed.

(** An optional part without rows and without common variables takes everything away. *)
Definition ex_none : TempResult := mk_TempResult ["c"] [] [].
Example optional_loses_rows :
  answer_of (set_doOptional 0 "" ex_id ex_id ex_id [] (ex_one ex_left) (ex_one ex_none) ex_r) = Some [].
Proof. by vm_compute. Qed.

(** A difference with such a table keeps every solution twice. *)
Example minus_doubles_rows :
  answer_of (set_doMinus 0 ex_id ex_id ex_id [] (ex_one ex_left) (ex_one ex_none) ex_r) =
    Some [ex_sol [("a", "1"); ("b", "p")]; ex_sol [("a", "2"); ("b", "q")]; ex_sol [("a", "1"); ("b", "p")]; ex_sol [("a", "2"); ("b", "q")]].
Proof. by vm_compute. Qed.

(** A variable that is a string in one table of the second set and an id in another
    one: the second table, whose value is 2, is joined with the solution whose value is 1. *)
Definition ex_mixed : TempResultSet := mk_TempResultSet
  [mk_TempResult ["z"] ["x"] [mk_ResultPair [7] ["1"]]; mk_TempResult ["x"; "w"] [] [mk_ResultPair [2; 9] []]] false.
Example mixed_columns_join :
  answer_of (set_doJoin 0 "" ex_id ex_id ex_id [] (ex_one ex_table2) ex_mixed ex_r) =
    Some [ex_sol [("x", "1"); ("z", "7")]; ex_sol [("x", "2"); ("w", "9")]].
Proof. by vm_compute. Qed.

(** [doProjection1] keeps the solutions of tables that have none of the variables of
    the projection out of the result, and writes [INVALID] for ids that are missing. *)
Definition ex_wide : TempResultSet := mk_TempResultSet [ex_table1; ex_table2; ex_right] false.
Example projection_of_tables :
  (fun o => results o.2) <$> set_doProjection1 0 (fun z _ => ex_id z) [] ["y"; "x"] ex_wide ex_r =
    Some [mk_TempResult ["y"; "x"] [] [mk_ResultPair [2; 1] []; mk_ResultPair [4; 3] []; mk_ResultPair [INVALID; 1] []]].
Proof. by vm_compute. Qed.
